(* ===== verification/_CoqProject ===== *)
-Q . S2P
Prelude.v
TokenList.v
WsHandshake.v
WsClient.v
WsClientConn.v
TopicFilter.v
TopicTree.v
TopicTreeInv.v
TopicTreeMatch.v
TopicInterest.v
Multipart.v
MultipartProofs.v
HttpRange.v
AcceptEncoding.v
StaticPath.v
BodyStream.v
Grpc.v
GrpcProofs.v
GrpcText.v
StreamCredit.v
Ledger.v
TopicHub.v
TopicHubInv.v
TopicHubRetry.v
TopicHubSafe.v
TopicHubProps.v
Slab.v
ConnArena.v
StreamPool.v
BodyPool.v
ConnOut.v
ConnOutInv.v
ConnOutProps.v
HttpDate.v
HttpResponse.v
ResponseCompress.v
Http1Response.v
HttpClient.v
Http1Wire.v
Http1Inv.v
Http1Run.v
Http1Props.v
Sse.v
LogRing.v
LogRingProps.v
LogFormat.v
JsonReader.v
LogFormatProps.v
LogJson.v
LogEmit.v
ServerConfig.v
ServerConfigProps.v
HeaderTools.v
MultipartProcessor.v
MultipartForm.v
Http1Parser.v
Http1Head.v
Http1Delivery.v
Http1Limits.v
StaticCache.v
FileSend.v
StaticServe.v
FileSendProps.v
StaticServeProps.v
Admission.v
AdmissionProps.v
