(* ===== verification/Prelude.v ===== *)
(** * TrueAsync server and WebSocket client: verification development

    The program is a PHP extension in C: an asynchronous HTTP/1, HTTP/2 and HTTP/3
    server with WebSocket, gRPC, server-sent events and static files, and a WebSocket
    client.  The engine's event loop runs coroutines on worker threads; reactor
    threads own the sockets of HTTP/3; workers talk through mailboxes.  Paths below
    are relative to src/ of the repository, whose own sources are src/src and
    src/include.

    ** Parts and files

    Strings are lists of bytes (integers from 0 to 255); C integers are [Z] with
    their wrap-around written out ([u8], [u32], [u64] here); NULL is [None]; a
    pointer is a natural number into a heap, and reading through a dangling pointer
    makes the operation [None] or [Crash].  Errors are values.  Code outside the
    repository (SHA-1, base64, zlib, the frame engine wslay, fnmatch, PHP's string
    hash, the compression encoders, [php_json_encode], the text of a float, the event
    loop, the engine's copying of objects between threads, the file system, the
    calendar) is an argument of the definitions that use it; the callbacks that llhttp
    makes are a list of events.

    - TokenList, WsHandshake: src/websocket/ws_handshake.c.  Upgrade validation,
      accept key, 101 response, permessage-deflate negotiation.  The cursor loops are
      equal to a specification over comma-separated lists.
    - WsClient, WsClientConn: src/wsclient/.  Handshake, connection, message queue
      (a pointer-linked list) and the PHP methods.  What the client builds has
      exactly the intended header lines, it accepts what the server sends, messages
      come out in order, nothing is leaked, and opening a connection terminates.
    - TopicFilter, TopicTree, TopicTreeInv, TopicTreeMatch:
      src/websocket/ws_topic_tree.c.  The topic tree as a heap of nodes, with
      tombstones and settling while a walk is in progress.  A refinement theorem
      relates every operation to a table of filters per session.
    - TopicInterest: the counting Bloom filter of src/websocket/topic_hub.c.
    - Ledger, TopicHub, TopicHubInv, TopicHubRetry, TopicHubSafe, TopicHubProps: the
      rest of topic_hub.c.  Slot table, mailboxes, fan-out, scatter/gather count,
      reliable sends with their retry queue, for any number of threads and suspended
      callers.  Ledger is the theory of reference counts; the invariant says who
      holds every reference; the theorems follow from it: no use after free, no
      leak, no lost wake-up, no delivery to a worker that took over a slot, balanced
      counters, exact fan-out.  [TopicTreeOps] is the interface to the local tree and
      [topic_tree_ops] its implementation by TopicTree.
    - StreamCredit: include/core/stream_credit.h with its users in
      src/core/worker_dispatch.c and src/http3/.  Two threads as interleaved atomic
      steps; memory safety and absence of lost wake-ups.
    - Slab, ConnArena, StreamPool: src/core/conn_arena.c and
      src/http3/http3_stream_pool.c.  Slab is the free list over growing chunks that
      both use; the arena refines a set of live connections.
    - BodyPool: src/core/body_pool.c with its users in src/http1/http_parser.c.  No
      buffer is handed out twice or for a body that does not fit.
    - ConnOut, ConnOutInv, ConnOutProps: the writers of src/core/http_connection.c
      (batched and direct) and the teardown of a connection, against a reactor that
      completes or refuses writes at any time.  Batched bytes keep their order, no
      callback touches a freed connection, and a requested teardown completes.
    - HttpDate: src/http_date.c.
    - HttpResponse: the response object, src/http_response.c and
      src/http_response_server_api.c.
    - ResponseCompress: src/compression/http_compression_response.c.  The encoders
      are the class [Encoder], their promises [EncoderLaws].
    - Http1Response: src/http1/http1_format.c, src/http1/http1_stream.c, the streaming
      methods of the response, src/http_sse.c, and from src/core/http_connection.c the
      dispatch of a request and the end of its handler.
    - HttpClient: a reference client (RFC 9112, the event stream of the HTML
      standard).  Http1Wire, Http1Inv, Http1Run and Http1Props prove that what a
      handler asks for is what this client reads, compressed or not, buffered or
      chunked; Sse proves it for events.  Http1Props also shows where it fails.
    - Http1Parser: src/http1/http_parser.c, the parser pool of src/http_server.c and
      the read loop of src/core/http_connection.c, with the request as a heap object.
      Http1Head, Http1Delivery and Http1Limits prove that requests are delivered in
      order with their head and body however the callbacks are cut, which heads are
      accepted, and that nothing exceeds the limits.
    - HeaderTools: src/http_rfc5987.c, src/http_param_parse.c,
      src/log/trace_context.c and src/http3/http3_steer.c.
    - MultipartProcessor, MultipartForm: src/formats/multipart_processor.c.  A form
      that a browser sends is the form that PHP receives, files on disk included.
    - StaticCache: src/static/http_static_cache.c.  The hash table with its linked
      list refines a bounded list, most recent first.
    - FileSend, FileSendProps: src/send_file.c, src/http_send_file.c,
      src/http_mime.c, src/http_precompressed.c and src/http1/http1_sendfile.c.  A
      client reads exactly one response for a file, with the bytes of its range.
    - StaticServe, StaticServeProps: src/static/http_static.c and
      src/static/http_static_safety.c.  What mounts deliver was admitted by a mount's
      root and symlink policy, however requests, file changes and completions mix.
    - Admission, AdmissionProps: the accept callback, the connection cap, CoDel, the
      shedding of requests and the drain of src/http_server_class.c.  The accounting
      is exact while no connection fails halfway, a pause by the cap ends, CoDel
      stops the listeners only for a standing queue, and a drain reaches every
      connection; further theorems show where the accounting goes wrong.
    - LogRing, LogRingProps: the per-thread rings and the writer of
      src/log/http_log.c, under any interleaving of their loads, copies and stores.
    - LogFormat, LogFormatProps, LogJson, LogEmit: the formatters, templates, sink
      validation, gates and fan-out of src/log/http_log.c.  JsonReader is the
      reference reader that JSON records are read back with.
    - ServerConfig, ServerConfigProps: src/http_server_config.c.  All setters and
      getters, the lock, and the reference-counted snapshot that carries a
      configuration to other threads.
    - Multipart, MultipartProofs: src/formats/multipart_parser.c.  The state machine
      with its callbacks; parsing a rendered body gives back its parts, and the
      events do not depend on how the input is cut.
    - HttpRange: src/http_range.c and src/http_etag.c.
    - AcceptEncoding: src/compression/http_compression_negotiate.c.
    - StaticPath: src/static/http_static_path.c.  Resolved paths stay below the root;
      every ordinary file can be requested.
    - BodyStream: src/http_body_stream.c, the body callbacks of
      src/http2/http2_session.c and [readBody] of src/http_request.c, as a system of
      transport, queue and reader.  Conservation of bytes, exact flow-control
      credit, end of file exactly at the end, no stuck reader.
    - Grpc, GrpcProofs, GrpcText: src/grpc/grpc.c, the protocol handlers of
      src/core/http_protocol_handlers.c and the message methods of
      src/http_request.c and src/http_response.c, on top of BodyStream.

    Prelude holds the bytes, the C library functions and the tactics they share.

    ** Bounds and fuel

    A loop whose recursion is not structural takes fuel, and the theorem about it
    says that the fuel it is called with is enough: the number of entries for the
    retry queue ([fuel_enough]), the number of subscribers of a node for a visit, the
    length of the input for cursors, the commands in a mailbox for draining it.
    Integers that can overflow are kept at their width: counters of the hub are
    compared modulo 2^64, generations modulo 2^32, refusals at 64-bit positions.
    Encoder loops take the number of calls that [EncoderLaws] promises to suffice; a
    chunk header has 16 hexadecimal digits, which every 64-bit length fits in; decimal
    lengths have 20.  The ring counters of the log are 32-bit and free-running; a
    record is shorter than the formatter's 2048-byte buffer, as the code's buffer is.
    The readers of templates, UTF-8 and JSON take the length of the text.  Buffer
    growth doubles at most 64 times; a write completion submits at most one further
    write, whose refusal ends the recursion.  The loop over header parameters takes
    one more than the length of the header, the binary search for a media type the
    length of its table.  The drain epoch is 64-bit and is assumed not to go round.

    ** Concurrency

    StreamCredit interleaves single atomic accesses.  The operations of the topic hub
    run from call to end or suspension, since outside its lock each touches only its
    own thread's state and atomic counters; callers may resume, be cancelled or be
    overtaken by any other operation at every suspension.
    The rings of the log interleave each load, copy and store of producers and log
    thread.  Connections, responses and configurations belong to one thread; the
    snapshot of a configuration is shared and its count is atomic.

    ** Not modelled

    Drivers of third-party libraries (llhttp, nghttp2, ngtcp2 and nghttp3, OpenSSL,
    and the encoders over zlib, brotli and zstd), the socket and file I/O around them,
    the WebSocket session glue, of the server object (src/http_server_class.c) what is
    not admission, the shutdown handshake of the log thread, and PHP class
    boilerplate.  The manifest lists every part and its state.
*)

From Stdlib Require Export ZArith Lia.
From stdpp Require Export prelude gmap strings.

#[global] Open Scope Z_scope.
#[global] Arguments Z.eqb : simpl nomatch.
#[global] Arguments Z.ltb : simpl nomatch.
#[global] Arguments Z.leb : simpl nomatch.

(** ** Bytes

    A C [char] buffer with its length is a [list Z] whose elements are the
    unsigned values of the bytes.  A cursor into a buffer is the suffix that is
    still to be read, so [p++] is taking the tail and [p < end] is the suffix
    not being empty. *)

Abbreviation byte := Z.
Abbreviation bytes := (list Z).

Definition is_byte (c : Z) : Prop := 0 <= c < 256.

(** The bytes of a C string literal. *)
Definition lit (s : string) : bytes :=
  map (fun c => Z.of_N (Ascii.N_of_ascii c)) (String.list_ascii_of_string s).

(** A character literal. *)
Definition ch (s : string) : Z := hd 0 (lit s).

Abbreviation NUL := 0.
Abbreviation HTAB := 9.
Abbreviation LF := 10.
Abbreviation CR := 13.
Abbreviation SP := 32.
Abbreviation DQUOTE := 34.
Abbreviation HASH := 35.
Abbreviation PERCENT := 37.
Abbreviation STAR := 42.
Abbreviation PLUS := 43.
Abbreviation COMMA := 44.
Abbreviation DASH := 45.
Abbreviation DOT := 46.
Abbreviation SLASH := 47.
Abbreviation COLON := 58.
Abbreviation SEMI := 59.
Abbreviation EQUALS := 61.
Abbreviation QUESTION := 63.
Abbreviation BACKSLASH := 92.

Definition crlf : bytes := [CR; LF].

(** Character classes used by the header scanners. *)
Definition is_ows (c : Z) : bool := (c =? SP) || (c =? HTAB).
Definition is_digit (c : Z) : bool := (48 <=? c) && (c <=? 57).
Definition is_upper (c : Z) : bool := (65 <=? c) && (c <=? 90).
Definition is_lower (c : Z) : bool := (97 <=? c) && (c <=? 122).
Definition isnt (a c : Z) : bool := negb (c =? a).

(** [tolower] in the C locale, and ASCII case-insensitive equality of two
    buffers of known length ([strncasecmp] after a length check, or
    [zend_binary_strcasecmp]). *)
Definition to_lower (c : Z) : Z := if is_upper c then c + 32 else c.

Fixpoint eqb_bytes (a b : bytes) : bool :=
  match a, b with
  | [], [] => true
  | x :: a', y :: b' => (x =? y) && eqb_bytes a' b'
  | _, _ => false
  end.

Definition eqb_ci (a b : bytes) : bool :=
  eqb_bytes (map to_lower a) (map to_lower b).

Definition mem_byte (c : Z) (s : bytes) : bool := existsb (Z.eqb c) s.

(** ** Cursor loops *)

Section scan.
Variable p : Z -> bool.

(** [while (q < end && p( *q)) q++]: the bytes skipped and the cursor after. *)
Fixpoint take_while (s : bytes) : bytes :=
  match s with
  | [] => []
  | c :: s' => if p c then c :: take_while s' else []
  end.

Fixpoint drop_while (s : bytes) : bytes :=
  match s with
  | [] => []
  | c :: s' => if p c then drop_while s' else s
  end.

(** [while (end > start && p(end[-1])) end--] *)
Fixpoint trim_end (s : bytes) : bytes :=
  match s with
  | [] => []
  | c :: s' => match trim_end s' with
               | [] => if p c then [] else [c]
               | t => c :: t
               end
  end.

Definition trim (s : bytes) : bytes := trim_end (drop_while s).
End scan.

(** A NUL-terminated view of a buffer: what [strlen] and [%s] see. *)
Definition c_str (s : bytes) : bytes := take_while (isnt NUL) s.

(** [memcmp(s, pre, |pre|) == 0] guarded by [|s| >= |pre|]. *)
Fixpoint starts_with (pre s : bytes) : bool :=
  match pre, s with
  | [], _ => true
  | x :: pre', y :: s' => (x =? y) && starts_with pre' s'
  | _ :: _, [] => false
  end.

(** Splitting at every occurrence of a separator: the reference notion of a
    delimited list, against which the hand-written cursor loops are proved. *)
Fixpoint split_on (sep : Z) (s : bytes) : list bytes :=
  match s with
  | [] => [[]]
  | c :: s' =>
      if c =? sep then [] :: split_on sep s'
      else match split_on sep s' with
           | [] => [[c]]
           | x :: xs => (c :: x) :: xs
           end
  end.

Fixpoint join_with (sep : bytes) (l : list bytes) : bytes :=
  match l with
  | [] => []
  | [x] => x
  | x :: xs => x ++ sep ++ join_with sep xs
  end.

(** [printf("%u")]: decimal digits, most significant first.  Twenty digits are
    enough for any value below [10 ^ 20], hence for every [uint64_t]. *)
Fixpoint dec_digits (fuel : nat) (n : Z) : bytes :=
  match fuel with
  | O => []
  | S f => if n <? 10 then [48 + n] else dec_digits f (n / 10) ++ [48 + n mod 10]
  end.

Definition print_u (n : Z) : bytes := dec_digits 20 n.

(** [printf("%d")]. *)
Definition print_d (n : Z) : bytes :=
  if n <? 0 then DASH :: print_u (- n) else print_u n.

(** ** Machine integers *)

Definition u8 (z : Z) : Z := z mod 2 ^ 8.
Definition u32 (z : Z) : Z := z mod 2 ^ 32.
Definition u64 (z : Z) : Z := z mod 2 ^ 64.
Definition UINT64_MAX : Z := 2 ^ 64 - 1.
Definition LONG_MAX : Z := 2 ^ 63 - 1.

(** ** PHP values and tables

    A [zval] as the sources look at it: they test [Z_TYPE_P(v) == IS_STRING]
    and read the string; every other type is told apart from it only. *)
Inductive zval :=
  | ZString (s : bytes)
  | ZOther.

(** A [HashTable] probed by key; [NULL] is [None]. *)
Abbreviation hashtable := (option (gmap bytes zval)).

(** [zend_hash_str_find] followed by the [IS_STRING] test. *)
Definition find_string (h : hashtable) (name : bytes) : option bytes :=
  match h with
  | None => None
  | Some m => match m !! name with
              | Some (ZString s) => Some s
              | _ => None
              end
  end.

(** A [HashTable] that is iterated: entries in insertion order; an integer key
    has no string name. *)
Abbreviation php_array := (list (option bytes * zval)).

(** ** Tactics and hints *)

Create HintDb bytes.

(** Boolean tests in hypotheses and goal become propositions for [lia]. *)
Ltac b2p :=
  repeat match goal with
    | H : _ && _ = true |- _ => apply andb_true_iff in H; destruct H
    | H : _ || _ = false |- _ => apply orb_false_iff in H; destruct H
    | H : negb _ = true |- _ => apply negb_true_iff in H
    | H : negb _ = false |- _ => apply negb_false_iff in H
    | H : (_ =? _) = true |- _ => apply Z.eqb_eq in H
    | H : (_ =? _) = false |- _ => apply Z.eqb_neq in H
    | H : (_ <? _) = true |- _ => apply Z.ltb_lt in H
    | H : (_ <? _) = false |- _ => apply Z.ltb_ge in H
    | H : (_ <=? _) = true |- _ => apply Z.leb_le in H
    | H : (_ <=? _) = false |- _ => apply Z.leb_gt in H
    end.

(** [lia] with division and remainder by constants. *)
Ltac dlia := Z.div_mod_to_equations; lia.

(** Case analysis on the innermost [if] or [match] scrutinee of the goal. *)
Ltac case_if :=
  match goal with
  | |- context [if ?b then _ else _] => destruct b eqn:?
  end.

(** Case analysis on a scrutinee of a hypothesis. *)
Ltac case_if_in H :=
  match type of H with
  | context [if ?b then _ else _] => destruct b eqn:?
  end.

(** ** Lemmas on bytes *)

Lemma eqb_bytes_eq a b : eqb_bytes a b = true <-> a = b.
Proof.
  revert b; induction a as [|x a IH]; intros [|y b]; simpl; try done.
  rewrite andb_true_iff, Z.eqb_eq, IH. split; [intros [-> ->]; done | by intros [= -> ->]].
Qed.

Lemma eqb_bytes_refl a : eqb_bytes a a = true.
Proof. by apply eqb_bytes_eq. Qed.

Lemma eqb_ci_eq a b : eqb_ci a b = true <-> map to_lower a = map to_lower b.
Proof. apply eqb_bytes_eq. Qed.

Lemma eqb_ci_refl a : eqb_ci a a = true.
Proof. by apply eqb_ci_eq. Qed.

Lemma eqb_ci_length a b : eqb_ci a b = true -> length a = length b.
Proof.
  rewrite eqb_ci_eq. intros H. apply (f_equal length) in H. by rewrite !length_map in H.
Qed.

Lemma mem_byte_In c s : mem_byte c s = true <-> In c s.
Proof.
  unfold mem_byte. rewrite existsb_exists. split.
  - intros (x & Hx & E). by apply Z.eqb_eq in E as ->.
  - intros H. exists c. by rewrite Z.eqb_refl.
Qed.

Lemma mem_byte_app c s t : mem_byte c (s ++ t) = mem_byte c s || mem_byte c t.
Proof. apply existsb_app. Qed.

Lemma mem_byte_false c s : mem_byte c s = false <-> Forall (fun x => isnt c x = true) s.
Proof.
  unfold isnt. induction s as [|x s IH]; simpl; [done|].
  rewrite orb_false_iff, Forall_cons_iff, IH, negb_true_iff, (Z.eqb_sym c x). done.
Qed.

Lemma starts_with_spec pre s : starts_with pre s = true <-> exists t, s = pre ++ t.
Proof.
  revert s; induction pre as [|x pre IH]; intros s; simpl.
  - split; [by exists s | done].
  - destruct s as [|y s].
    + split; [done | by intros [t ?]].
    + rewrite andb_true_iff, Z.eqb_eq, IH. split.
      * intros [-> [t ->]]. by exists t.
      * intros [t [= -> ->]]. eauto.
Qed.

Lemma starts_with_app pre t : starts_with pre (pre ++ t) = true.
Proof. apply starts_with_spec. by exists t. Qed.

(** ** Lemmas on cursor loops *)

Section scan_lemmas.
Variable p : Z -> bool.

Lemma take_drop_while s : take_while p s ++ drop_while p s = s.
Proof. induction s as [|c s IH]; simpl; [done|]. case_if; simpl; congruence. Qed.

Lemma take_while_all s : Forall (fun c => p c = true) (take_while p s).
Proof. induction s as [|c s IH]; simpl; [constructor|]. case_if; by constructor. Qed.

Lemma drop_while_length s : (length (drop_while p s) <= length s)%nat.
Proof. induction s as [|c s IH]; simpl; [done|]. case_if; simpl; lia. Qed.

Lemma drop_while_head s c t : drop_while p s = c :: t -> p c = false.
Proof. induction s as [|d s IH]; simpl; [done|]. case_if; [done|]. by intros [= -> ->]. Qed.

Lemma take_while_app a c t :
  Forall (fun x => p x = true) a -> p c = false -> take_while p (a ++ c :: t) = a.
Proof. induction 1 as [|x a Hx _ IH]; simpl; intros Hc; [by rewrite Hc | by rewrite Hx, IH]. Qed.

Lemma drop_while_app a c t :
  Forall (fun x => p x = true) a -> p c = false -> drop_while p (a ++ c :: t) = c :: t.
Proof. induction 1 as [|x a Hx _ IH]; simpl; intros Hc; [by rewrite Hc | by rewrite Hx, IH]. Qed.

Lemma take_while_id a : Forall (fun x => p x = true) a -> take_while p a = a.
Proof. induction 1 as [|x a Hx _ IH]; simpl; [done | by rewrite Hx, IH]. Qed.

Lemma drop_while_id a : Forall (fun x => p x = true) a -> drop_while p a = [].
Proof. induction 1 as [|x a Hx _ IH]; simpl; [done | by rewrite Hx, IH]. Qed.

Lemma drop_while_stop c s : p c = false -> drop_while p (c :: s) = c :: s.
Proof. intros H. simpl. by rewrite H. Qed.

Lemma trim_end_prefix s : exists t, s = trim_end p s ++ t /\ Forall (fun c => p c = true) t.
Proof.
  induction s as [|c s (t & E & Ht)]; simpl; [by exists []|].
  destruct (trim_end p s) as [|x r] eqn:Er.
  - simpl in E. subst t. case_if.
    + exists (c :: s). split; [done|]. by constructor.
    + exists s. done.
  - exists t. rewrite <- app_comm_cons. split; [by f_equal | done].
Qed.

Lemma trim_end_stop s c : p c = false -> trim_end p (s ++ [c]) = s ++ [c].
Proof.
  intros Hc. induction s as [|x s IH]; simpl; [by rewrite Hc|].
  rewrite IH. by destruct s.
Qed.

Lemma trim_end_app_ws s t : Forall (fun c => p c = true) t -> trim_end p (s ++ t) = trim_end p s.
Proof.
  intros Ht. induction s as [|x s IH]; simpl; [|by rewrite IH].
  induction Ht as [|c t Hc _ IHt]; simpl; [done|]. by rewrite IHt, Hc.
Qed.

Lemma trim_end_idem s : trim_end p (trim_end p s) = trim_end p s.
Proof.
  induction s as [|c s IH]; cbn [trim_end]; [done|].
  destruct (trim_end p s) as [|z l] eqn:E.
  - destruct (p c) eqn:Ec; cbn [trim_end]; by rewrite ?Ec.
  - cbn [trim_end] in *. by rewrite IH.
Qed.

Lemma trim_end_length s : (length (trim_end p s) <= length s)%nat.
Proof.
  destruct (trim_end_prefix s) as (t & E & _).
  apply (f_equal length) in E. rewrite length_app in E. lia.
Qed.

Lemma trim_end_Forall (Q : Z -> Prop) s : Forall Q s -> Forall Q (trim_end p s).
Proof.
  intros H. destruct (trim_end_prefix s) as (t & E & _). rewrite E in H.
  by apply Forall_app in H as [? _].
Qed.

Lemma drop_while_Forall (Q : Z -> Prop) s : Forall Q s -> Forall Q (drop_while p s).
Proof.
  intros H. rewrite <- (take_drop_while s) in H. by apply Forall_app in H as [_ ?].
Qed.

Lemma take_while_Forall (Q : Z -> Prop) s : Forall Q s -> Forall Q (take_while p s).
Proof.
  intros H. rewrite <- (take_drop_while s) in H. by apply Forall_app in H as [? _].
Qed.

(** The suffix starts with a byte the loop stops at. *)
Definition stops (rest : bytes) : Prop :=
  match rest with [] => True | c :: _ => p c = false end.

Lemma drop_while_stopped s : stops (drop_while p s).
Proof. destruct (drop_while p s) as [|c t] eqn:E; [done|]. by apply drop_while_head in E. Qed.

Lemma drop_while_stops s rest : stops rest -> drop_while p (s ++ rest) = drop_while p s ++ rest.
Proof.
  intros H. induction s as [|c s IH]; simpl.
  - destruct rest; simpl in *; [done | by rewrite H].
  - by case_if.
Qed.

Lemma take_while_stops s rest : stops rest -> take_while p (s ++ rest) = take_while p s.
Proof.
  intros H. induction s as [|c s IH]; simpl.
  - destruct rest; simpl in *; [done | by rewrite H].
  - case_if; [by rewrite IH | done].
Qed.

Lemma take_while_ext q s : Forall (fun c => p c = q c) s -> take_while p s = take_while q s.
Proof. induction 1 as [|c s H _ IH]; simpl; [done|]. by rewrite H, IH. Qed.

Lemma drop_while_ext q s : Forall (fun c => p c = q c) s -> drop_while p s = drop_while q s.
Proof. induction 1 as [|c s H _ IH]; simpl; [done|]. by rewrite H, IH. Qed.
End scan_lemmas.

#[export] Hint Resolve drop_while_length trim_end_length : bytes.
#[export] Hint Resolve trim_end_Forall drop_while_Forall take_while_Forall : bytes.

(** ** Lemmas on delimited lists *)

Lemma split_on_nonempty sep s : split_on sep s <> [].
Proof. destruct s as [|c s]; simpl; [done|]. case_if; [done|]. by destruct (split_on sep s). Qed.

(** The first element of a delimited list is what a cursor loop stops before. *)
Lemma split_on_unfold sep s :
  split_on sep s =
    take_while (isnt sep) s ::
    match drop_while (isnt sep) s with
    | [] => []
    | _ :: t => split_on sep t
    end.
Proof.
  unfold isnt. induction s as [|c s IH]; simpl; [done|].
  destruct (c =? sep) eqn:E; simpl; [done|]. rewrite IH. done.
Qed.

Lemma split_on_none sep s : mem_byte sep s = false -> split_on sep s = [s].
Proof.
  intros H%mem_byte_false. rewrite split_on_unfold, take_while_id, drop_while_id by done. done.
Qed.

Lemma split_on_app sep a t :
  mem_byte sep a = false -> split_on sep (a ++ sep :: t) = a :: split_on sep t.
Proof.
  intros H%mem_byte_false. rewrite split_on_unfold.
  assert (isnt sep sep = false) as E by (unfold isnt; by rewrite Z.eqb_refl).
  by rewrite take_while_app, drop_while_app by done.
Qed.

(** Joining with the separator and splitting are inverse. *)
Lemma join_split sep s : join_with [sep] (split_on sep s) = s.
Proof.
  induction s as [|c s IH]; simpl; [done|].
  destruct (c =? sep) eqn:E; b2p; subst; simpl.
  - destruct (split_on sep s) eqn:Es; [by apply split_on_nonempty in Es|].
    rewrite IH. done.
  - destruct (split_on sep s) as [|x xs] eqn:Es; [by apply split_on_nonempty in Es|].
    rewrite <- IH. by destruct xs.
Qed.

Lemma split_on_elem_no_sep sep s x : In x (split_on sep s) -> mem_byte sep x = false.
Proof.
  revert x. induction s as [|c s IH]; simpl; intros x.
  - by intros [<- | []].
  - destruct (c =? sep) eqn:E.
    + intros [<- | H]; [done | by apply IH].
    + destruct (split_on sep s) as [|y ys]; simpl in *.
      * intros [<- | []]. simpl. rewrite orb_false_r, Z.eqb_sym. done.
      * intros [<- | H]; [|by eauto]. simpl. rewrite Z.eqb_sym, E. simpl. eauto.
Qed.

(** ** Lemmas on machine integers *)

(** Or-ing into bits that are zero is adding. *)
Lemma lor_add x b k : 0 <= k -> x mod 2 ^ k = 0 -> 0 <= b < 2 ^ k -> Z.lor x b = x + b.
Proof.
  intros Hk Hx Hb. enough (Z.land x b = 0) as Hl by (pose proof (Z.add_lor_land x b); lia).
  apply Z.bits_inj'. intros n Hn. rewrite Z.land_spec, Z.bits_0.
  destruct (Z.lt_ge_cases n k) as [Hlt|Hge].
  - rewrite <- (Z.mod_pow2_bits_low x k n), Hx, Z.bits_0 by lia. done.
  - rewrite <- (Z.mod_small b (2 ^ k)), Z.mod_pow2_bits_high by lia. apply andb_false_r.
Qed.

Lemma land_255 x : Z.land x 255 = x mod 256.
Proof. change 255 with (Z.ones 8). by rewrite Z.land_ones by lia. Qed.

Lemma u64_small z : 0 <= z < 2 ^ 64 -> u64 z = z.
Proof. apply Z.mod_small. Qed.

(** ** Header blocks

    A block of lines, each ended by CRLF, closed by an empty line. *)
Definition render_lines (lines : list bytes) : bytes :=
  concat (map (fun l => l ++ crlf) lines).

Definition render_head (lines : list bytes) : bytes := render_lines lines ++ crlf.

(** A line that cannot be taken for the end of the block or for two lines. *)
Definition clean_line (l : bytes) : Prop := l <> [] /\ mem_byte LF l = false.

Lemma render_lines_app a b : render_lines (a ++ b) = render_lines a ++ render_lines b.
Proof. unfold render_lines. by rewrite map_app, concat_app. Qed.

Lemma render_head_cons l lines : render_head (l :: lines) = l ++ crlf ++ render_head lines.
Proof. unfold render_head, render_lines. simpl. by rewrite <- !app_assoc. Qed.

Lemma render_head_app a b : render_head (a ++ b) = render_lines a ++ render_head b.
Proof. unfold render_head. by rewrite render_lines_app, <- app_assoc. Qed.
