(* ===== verification/TokenList.v ===== *)
(** * Comma-separated header values

    Several parts of the program look a token up in a comma-separated header
    value with the same cursor loop: skip blanks and commas, run to the next
    comma, trim trailing blanks, test.  The loop is modelled here once, with
    what it computes: the test over the trimmed elements of the list. *)

From S2P Require Import Prelude.

Definition is_ows_comma (c : Z) : bool := is_ows c || (c =? COMMA).

(** The loop [while (i < len) { skip; start = i; run to ','; trim; test }].  The
    fuel bounds the number of iterations; every iteration consumes a byte. *)
Fixpoint scan_tokens_fuel (fuel : nat) (test : bytes -> bool) (v : bytes) : bool :=
  match fuel, v with
  | O, _ => false
  | _, [] => false
  | S f, _ =>
      let s := drop_while is_ows_comma v in
      let part := trim_end is_ows (take_while (isnt COMMA) s) in
      if test part then true
      else scan_tokens_fuel f test (drop_while (isnt COMMA) s)
  end.

Definition scan_tokens (test : bytes -> bool) (v : bytes) : bool :=
  scan_tokens_fuel (length v) test v.

(** The reference: some element of the list, trimmed on both sides, passes. *)
Definition list_has (test : bytes -> bool) (v : bytes) : bool :=
  existsb (fun e => test (trim is_ows e)) (split_on COMMA v).

Section scan_tokens_spec.
Variable test : bytes -> bool.
Hypothesis test_nil : test [] = false.

Lemma list_has_skip v : list_has test v = list_has test (drop_while is_ows_comma v).
Proof.
  unfold list_has. induction v as [|c v IH]; simpl; [done|].
  unfold is_ows_comma at 1. destruct (is_ows c) eqn:Eo; simpl.
  - assert ((c =? COMMA) = false) as Ec by (unfold is_ows in Eo; lia). rewrite Ec.
    rewrite <- IH. destruct (split_on COMMA v) as [|x xs] eqn:Es.
    { by apply split_on_nonempty in Es. }
    simpl. unfold trim. simpl. by rewrite Eo.
  - destruct (c =? COMMA) eqn:Ec; simpl.
    + unfold trim. simpl. by rewrite test_nil.
    + by rewrite Ec.
Qed.

Lemma list_has_step c s :
  is_ows_comma c = false ->
  list_has test (c :: s) =
    test (trim_end is_ows (take_while (isnt COMMA) (c :: s))) ||
    list_has test (drop_while (isnt COMMA) (c :: s)).
Proof.
  intros Hc. unfold is_ows_comma in Hc. apply orb_false_iff in Hc as [Ho Hc].
  unfold list_has at 1. rewrite split_on_unfold.
  assert (trim is_ows (take_while (isnt COMMA) (c :: s)) =
          trim_end is_ows (take_while (isnt COMMA) (c :: s))) as Ht.
  { unfold trim. f_equal. simpl. unfold isnt at 1 3. rewrite Hc. apply drop_while_stop. done. }
  cbn [existsb]. rewrite Ht. f_equal.
  - destruct (drop_while (isnt COMMA) (c :: s)) as [|d t] eqn:E.
    + unfold list_has. simpl. unfold trim. simpl. by rewrite test_nil.
    + apply drop_while_head in E. unfold isnt in E. apply negb_false_iff in E.
      unfold list_has. simpl. rewrite E. simpl. unfold trim. simpl. by rewrite test_nil.
Qed.

Lemma scan_tokens_fuel_spec fuel v :
  (length v <= fuel)%nat -> scan_tokens_fuel fuel test v = list_has test v.
Proof.
  revert v. induction fuel as [|f IH]; intros v Hlen.
  - destruct v; [|simpl in Hlen; lia]. unfold list_has, trim. simpl. by rewrite test_nil.
  - destruct v as [|b v]; [unfold list_has, trim; simpl; by rewrite test_nil|].
    cbn [scan_tokens_fuel]. rewrite list_has_skip.
    pose proof (drop_while_length is_ows_comma (b :: v)) as Hd.
    destruct (drop_while is_ows_comma (b :: v)) as [|c s] eqn:E.
    + simpl. rewrite test_nil. rewrite IH by (simpl; lia).
      unfold list_has, trim. simpl. by rewrite test_nil.
    + apply drop_while_head in E. rewrite list_has_step by done.
      rewrite IH.
      * by destruct (test _).
      * unfold is_ows_comma in E. apply orb_false_iff in E as [_ E].
        simpl. unfold isnt at 1. rewrite E. simpl.
        pose proof (drop_while_length (isnt COMMA) s). simpl in *. lia.
Qed.

(** The loop computes membership in the trimmed elements of the list. *)
Lemma scan_tokens_spec v : scan_tokens test v = list_has test v.
Proof. by apply scan_tokens_fuel_spec. Qed.
End scan_tokens_spec.

(** [list_has] as a proposition. *)
Lemma list_has_true test v :
  list_has test v = true <-> exists e, In e (split_on COMMA v) /\ test (trim is_ows e) = true.
Proof. apply existsb_exists. Qed.

(** A single clean token is found in the value that consists of it. *)
Lemma list_has_single test v :
  mem_byte COMMA v = false -> list_has test v = test (trim is_ows v).
Proof. intros H. unfold list_has. rewrite split_on_none by done. simpl. by rewrite orb_false_r. Qed.
