(* ===== verification/WsHandshake.v ===== *)
(** * Server side of the WebSocket opening handshake

    Models src/src/websocket/ws_handshake.c: recognising an upgrade request
    (RFC 6455, section 4.1), deriving [Sec-WebSocket-Accept], rendering the 101
    response, and negotiating permessage-deflate (RFC 7692).  SHA-1 and base64
    are PHP's own ([ext/standard]); they are the operations of [PhpCrypto]. *)

From S2P Require Import Prelude TokenList.

(** ** PHP's SHA-1 and base64

    The incremental SHA-1 interface and [php_base64_encode], with the two
    documented facts the handshake relies on: a digest is 20 bytes, and the
    base64 text of [n] bytes is [4 * ceil(n / 3)] characters of an alphabet
    without blanks, line ends, NUL or separators. *)
Definition is_base64_char (c : Z) : bool :=
  is_digit c || is_upper c || is_lower c || (c =? PLUS) || (c =? SLASH) || (c =? EQUALS).

Class PhpCrypto := {
  sha1_ctx : Type;
  PHP_SHA1Init : sha1_ctx;
  PHP_SHA1Update : sha1_ctx -> bytes -> sha1_ctx;
  PHP_SHA1Final : sha1_ctx -> bytes;
  php_base64_encode : bytes -> option bytes;
}.

Class PhpCryptoOk (C : PhpCrypto) : Prop := {
  sha1_final_length : forall ctx, length (PHP_SHA1Final ctx) = 20%nat;
  base64_total : forall s, exists t,
    php_base64_encode s = Some t /\
    Z.of_nat (length t) = 4 * ((Z.of_nat (length s) + 2) / 3) /\
    Forall (fun c => is_base64_char c = true) t;
}.

(** *** A concrete instance

    Real base64 over a stand-in digest (the input padded or cut to 20 bytes):
    an instance on which the theorems about any [PhpCrypto] are evaluated. *)
Definition b64_char (n : Z) : Z :=
  if n <? 26 then 65 + n
  else if n <? 52 then 97 + (n - 26)
  else if n <? 62 then 48 + (n - 52)
  else if n =? 62 then PLUS else SLASH.

Fixpoint b64_encode (s : bytes) : bytes :=
  match s with
  | [] => []
  | [a] => [b64_char (a / 4); b64_char (a mod 4 * 16); EQUALS; EQUALS]
  | [a; b] => [b64_char (a / 4); b64_char (a mod 4 * 16 + b / 16); b64_char (b mod 16 * 4); EQUALS]
  | a :: b :: c :: t =>
      b64_char (a / 4) :: b64_char (a mod 4 * 16 + b / 16) ::
      b64_char (b mod 16 * 4 + c / 64) :: b64_char (c mod 64) :: b64_encode t
  end.

#[export] Instance demo_crypto : PhpCrypto := {|
  sha1_ctx := bytes;
  PHP_SHA1Init := [];
  PHP_SHA1Update := app;
  PHP_SHA1Final ctx := map u8 (take 20 (ctx ++ replicate 20 0));
  php_base64_encode s := Some (b64_encode (map u8 s));
|}.

Lemma b64_char_ok n : 0 <= n < 64 -> is_base64_char (b64_char n) = true.
Proof.
  intros H. unfold b64_char, is_base64_char, is_digit, is_upper, is_lower.
  repeat case_if; lia.
Qed.

Lemma b64_encode_ok s :
  Forall is_byte s ->
  Z.of_nat (length (b64_encode s)) = 4 * ((Z.of_nat (length s) + 2) / 3) /\
  Forall (fun c => is_base64_char c = true) (b64_encode s).
Proof.
  remember (length s) as n eqn:En. revert s En.
  induction n as [n IH] using lt_wf_ind. intros s -> Hs. unfold is_byte in *.
  destruct s as [|a [|b [|c t]]]; simpl b64_encode; inversion_clear Hs as [|? ? Ha Hs1];
    try (inversion_clear Hs1 as [|? ? Hb Hs2]);
    try (inversion_clear Hs2 as [|? ? Hc Hs3]); [by split|..].
  1, 2: split; [done|]; rewrite !Forall_cons_iff; repeat split;
    try apply List.Forall_nil; try done; apply b64_char_ok; dlia.
  destruct (IH (length t)) with (s := t) as [Hl Hf]; [simpl; lia|done|done|].
  split; [|rewrite !Forall_cons_iff; repeat split; try done; apply b64_char_ok; dlia].
  cbn [length]. dlia.
Qed.

#[export] Instance demo_crypto_ok : PhpCryptoOk demo_crypto.
Proof.
  split.
  - intros ctx. cbn [PHP_SHA1Final demo_crypto]. rewrite length_map, length_take, length_app, length_replicate. lia.
  - intros s. exists (b64_encode (map u8 s)). split; [done|].
    destruct (b64_encode_ok (map u8 s)) as [Hl Hf].
    + apply Forall_map, Forall_forall. intros x _. unfold is_byte, u8. dlia.
    + by rewrite length_map in Hl.
Qed.

Module WsHandshake.

(** ** Request, as far as the handshake reads it *)

Record http_request_t := {
  headers : hashtable;
  method : option bytes;
  http_major : Z;
  http_minor : Z;
}.

Inductive ws_handshake_result_t :=
  | WS_HANDSHAKE_NOT_AN_UPGRADE
  | WS_HANDSHAKE_OK
  | WS_HANDSHAKE_BAD_REQUEST
  | WS_HANDSHAKE_FORBIDDEN_METHOD
  | WS_HANDSHAKE_UPGRADE_REQUIRED.

Definition WS_MAGIC_GUID : bytes := lit "258EAFA5-E914-47DA-95CA-C5AB0DC85B11".
Definition WS_CLIENT_KEY_LEN : nat := 24.
Definition WS_ACCEPT_LEN : nat := 28.

Definition header_lookup (req : http_request_t) (name : bytes) : option bytes :=
  find_string (headers req) name.

Definition contains_token_ci (value token : bytes) : bool :=
  scan_tokens (fun part => eqb_ci part token) value.

Definition ws_handshake_validate (req : http_request_t) : ws_handshake_result_t :=
  match header_lookup req (lit "upgrade") with
  | None => WS_HANDSHAKE_NOT_AN_UPGRADE
  | Some upgrade =>
    match method req with
    | None => WS_HANDSHAKE_FORBIDDEN_METHOD
    | Some m =>
      if negb (eqb_bytes m (lit "GET")) then WS_HANDSHAKE_FORBIDDEN_METHOD
      else if negb (contains_token_ci upgrade (lit "websocket")) then WS_HANDSHAKE_BAD_REQUEST
      else
        match header_lookup req (lit "connection") with
        | None => WS_HANDSHAKE_BAD_REQUEST
        | Some connection =>
          if negb (contains_token_ci connection (lit "upgrade")) then WS_HANDSHAKE_BAD_REQUEST
          else
            match header_lookup req (lit "sec-websocket-version") with
            | None => WS_HANDSHAKE_UPGRADE_REQUIRED
            | Some version =>
              if negb (eqb_bytes version (lit "13")) then WS_HANDSHAKE_UPGRADE_REQUIRED
              else
                match header_lookup req (lit "sec-websocket-key") with
                | None => WS_HANDSHAKE_BAD_REQUEST
                | Some key =>
                  if negb (length key =? WS_CLIENT_KEY_LEN)%nat then WS_HANDSHAKE_BAD_REQUEST
                  else if negb (http_major req =? 1) || (http_minor req <? 1)
                  then WS_HANDSHAKE_BAD_REQUEST
                  else WS_HANDSHAKE_OK
                end
            end
        end
    end
  end.

(** ** Accept key and the 101 response *)

Section crypto.
Context `{C : PhpCrypto}.

(** [None] is the [-1] return; [Some] is the 28 bytes copied to [out]. *)
Definition ws_handshake_compute_accept (client_key : bytes) : option bytes :=
  if negb (length client_key =? WS_CLIENT_KEY_LEN)%nat then None
  else
    let ctx := PHP_SHA1Update PHP_SHA1Init client_key in
    let ctx := PHP_SHA1Update ctx WS_MAGIC_GUID in
    let digest := PHP_SHA1Final ctx in
    match php_base64_encode digest with
    | None => None
    | Some encoded => Some (take WS_ACCEPT_LEN encoded)
    end.
End crypto.

Definition ws_handshake_build_101_response
    (accept : bytes) (subprotocol : option bytes) (deflate_bits : Z) : bytes :=
  lit "HTTP/1.1 101 Switching Protocols" ++ crlf ++
  lit "Upgrade: websocket" ++ crlf ++
  lit "Connection: Upgrade" ++ crlf ++
  lit "Sec-WebSocket-Accept: " ++
  take WS_ACCEPT_LEN accept ++
  crlf ++
  match subprotocol with
  | None => []
  | Some sp =>
      match c_str sp with
      | [] => []
      | tok => lit "Sec-WebSocket-Protocol: " ++ tok ++ crlf
      end
  end ++
  (if 0 <? deflate_bits then
     lit "Sec-WebSocket-Extensions: permessage-deflate; " ++
     lit "server_no_context_takeover; client_no_context_takeover" ++
     (if deflate_bits <? 15
      then lit "; server_max_window_bits=" ++ print_d deflate_bits
      else []) ++
     crlf
   else []) ++
  crlf.

(** ** permessage-deflate negotiation *)

(** What evaluating an offer, or the whole list, comes to.  The parameter value
    is accumulated in a C [long] with no overflow check; a value that does not
    fit is undefined behaviour and is kept apart as [PmceOverflow]. *)
Inductive pmce_t :=
  | PmceBits (bits : Z)
  | PmceDecline
  | PmceOverflow.

(** [while (q < offer_end && isdigit(ext[q])) { val = val*10 + ...; have = true }]:
    the value, whether a digit was read, the cursor; [None] when [val] overflows. *)
Fixpoint pmce_digits (q : bytes) (val : Z) (have : bool) : option (Z * bool * bytes) :=
  match q with
  | c :: q' =>
      if is_digit c then
        if LONG_MAX <? val * 10 + (c - 48) then None
        else pmce_digits q' (val * 10 + (c - 48)) true
      else Some (val, have, q)
  | [] => Some (val, have, q)
  end.

Definition is_ows_dquote (c : Z) : bool := is_ows c || (c =? DQUOTE).
Definition isnt_semi_eq (c : Z) : bool := isnt SEMI c && isnt EQUALS c.

(** The value part of a parameter: [-1] when there is no [=] or no digit; the
    cursor ends on the next [;] or at the end of the offer. *)
Definition pmce_value (q : bytes) : option (Z * bytes) :=
  match q with
  | c :: q' =>
      if c =? EQUALS then
        match pmce_digits (drop_while is_ows_dquote q') 0 false with
        | None => None
        | Some (val, have, q'') =>
            Some (if have : bool then val else -1, drop_while (isnt SEMI) q'')
        end
      else Some (-1, q)
  | [] => Some (-1, q)
  end.

(** The parameter loop of one matched offer, from the cursor [q]. *)
Fixpoint pmce_params (fuel : nat) (q : bytes) (bits : Z) : pmce_t :=
  match fuel, q with
  | _, [] => PmceBits bits
  | O, _ => PmceDecline
  | S f, c :: q' =>
      let q1 := if c =? SEMI then q' else q in
      let q2 := drop_while is_ows q1 in
      let name := trim_end is_ows (take_while isnt_semi_eq q2) in
      match pmce_value (drop_while isnt_semi_eq q2) with
      | None => PmceOverflow
      | Some (val, q3) =>
          if eqb_ci name (lit "server_max_window_bits") && (0 <=? val) then
            if (9 <=? val) && (val <=? 15)
            then pmce_params f q3 (if val <? bits then val else bits)
            else PmceDecline
          else pmce_params f q3 bits
      end
  end.

(** One offer: name up to [;], trimmed, then its parameters. *)
Definition pmce_offer (offer : bytes) : pmce_t :=
  let name := trim is_ows (take_while (isnt SEMI) offer) in
  let p := drop_while (isnt SEMI) offer in
  if eqb_ci name (lit "permessage-deflate") then pmce_params (length p) p 15
  else PmceDecline.

(** The offer loop [while (i < ext_len)]. *)
Fixpoint pmce_offers (fuel : nat) (ext : bytes) : pmce_t :=
  match fuel, ext with
  | O, _ => PmceDecline
  | _, [] => PmceDecline
  | S f, _ =>
      let offer := take_while (isnt COMMA) ext in
      let rest := drop_while (isnt COMMA) ext in
      let next := match rest with [] => [] | _ :: t => t end in
      match pmce_offer offer with
      | PmceDecline => pmce_offers f next
      | r => r
      end
  end.

(** Window bits to use, [0] to decline. *)
Definition ws_pmce_negotiate (req : http_request_t) : option Z :=
  match header_lookup req (lit "sec-websocket-extensions") with
  | None => Some 0
  | Some ext =>
      match pmce_offers (length ext) ext with
      | PmceBits bits => Some bits
      | PmceDecline => Some 0
      | PmceOverflow => None
      end
  end.

(** ** Lemmas *)

Lemma contains_token_ci_spec value token :
  token <> [] ->
  contains_token_ci value token = list_has (fun e => eqb_ci e token) value.
Proof.
  intros Ht. apply scan_tokens_spec. destruct token; [done|]. reflexivity.
Qed.

(** The offer loop is the first outcome that is not a decline. *)
Fixpoint first_outcome (l : list pmce_t) : pmce_t :=
  match l with
  | [] => PmceDecline
  | PmceDecline :: l' => first_outcome l'
  | r :: _ => r
  end.

Lemma pmce_offers_spec fuel ext :
  (length ext <= fuel)%nat ->
  pmce_offers fuel ext = first_outcome (map pmce_offer (split_on COMMA ext)).
Proof.
  revert ext. induction fuel as [|f IH]; intros ext Hlen.
  - destruct ext; [done | simpl in Hlen; lia].
  - destruct ext as [|c ext]; [done|]. cbn [pmce_offers].
    rewrite split_on_unfold. cbn [map first_outcome].
    assert (forall d t, drop_while (isnt COMMA) (c :: ext) = d :: t -> (length t <= f)%nat) as Hl.
    { intros d t E. pose proof (drop_while_length (isnt COMMA) (c :: ext)) as H.
      rewrite E in H. simpl in *. lia. }
    destruct (pmce_offer _); [done| |done].
    destruct (drop_while (isnt COMMA) (c :: ext)) as [|d t] eqn:E.
    + destruct f; done.
    + apply IH. eauto.
Qed.

Lemma pmce_params_bounds fuel q bits b :
  9 <= bits <= 15 -> pmce_params fuel q bits = PmceBits b -> 9 <= b <= bits.
Proof.
  revert q bits. induction fuel as [|f IH]; intros q bits Hb; destruct q as [|c q]; simpl.
  1, 3: intros [= ->]; lia.
  - done.
  - destruct (pmce_value _) as [[val q3]|]; [|done].
    case_if; [case_if; [|done]|].
    + b2p. intros Hp. case_if_in Hp; b2p; apply IH in Hp; lia.
    + apply IH; lia.
Qed.

Lemma first_outcome_In l r : first_outcome l = r -> r <> PmceDecline -> In r l.
Proof.
  induction l as [|x l IH]; simpl; [by intros <-|].
  destruct x; intros <- Hr; [by left | by right; apply IH | by left].
Qed.

Lemma pmce_offer_bounds offer b : pmce_offer offer = PmceBits b -> 9 <= b <= 15.
Proof.
  unfold pmce_offer. case_if; [|done]. intros H. apply pmce_params_bounds in H; lia.
Qed.

(** *** The parameter loop against the list of parameters *)

(** One parameter, the text between two semicolons: its name and the value that
    matters (-1 when there is none). *)
Definition param_name (seg : bytes) : bytes :=
  trim_end is_ows (take_while (isnt EQUALS) (drop_while is_ows seg)).

Definition param_value (seg : bytes) : option Z :=
  match drop_while (isnt EQUALS) (drop_while is_ows seg) with
  | [] => Some (-1)
  | _ :: v =>
      match pmce_digits (drop_while is_ows_dquote v) 0 false with
      | None => None
      | Some (val, have, _) => Some (if have : bool then val else -1)
      end
  end.

(** Folding the parameters of an offer, left to right. *)
Fixpoint params_spec (segs : list bytes) (bits : Z) : pmce_t :=
  match segs with
  | [] => PmceBits bits
  | seg :: l =>
      match param_value seg with
      | None => PmceOverflow
      | Some val =>
          if eqb_ci (param_name seg) (lit "server_max_window_bits") && (0 <=? val) then
            if (9 <=? val) && (val <=? 15) then params_spec l (Z.min val bits)
            else PmceDecline
          else params_spec l bits
      end
  end.

Lemma pmce_digits_app seg rest val have :
  stops is_digit rest ->
  pmce_digits (seg ++ rest) val have =
    match pmce_digits seg val have with
    | None => None
    | Some (v, h, q) => Some (v, h, q ++ rest)
    end.
Proof.
  intros Hr. revert val have. induction seg as [|c seg IH]; intros val have; simpl.
  - destruct rest as [|c rest]; simpl in *; [done|]. by rewrite Hr.
  - case_if; [|done]. case_if; [done|]. apply IH.
Qed.

Lemma pmce_digits_suffix seg val have v h q :
  pmce_digits seg val have = Some (v, h, q) -> exists t, seg = t ++ q.
Proof.
  revert val have. induction seg as [|c seg IH]; intros val have; simpl.
  - intros [= <- <- <-]. by exists [].
  - case_if; [|intros [= <- <- <-]; by exists []]. case_if; [done|].
    intros [t ->]%IH. by exists (c :: t).
Qed.

Lemma pmce_value_spec seg rest :
  mem_byte SEMI seg = false -> stops (isnt SEMI) rest ->
  pmce_value (drop_while isnt_semi_eq (drop_while is_ows (seg ++ rest))) =
    match param_value seg with None => None | Some v => Some (v, rest) end.
Proof.
  intros Hs Hr. unfold param_value.
  assert (forall p, p SEMI = false -> stops p rest) as Hst.
  { intros p Hp. destruct rest as [|c rest]; simpl in *; [done|].
    unfold isnt in Hr. b2p. by subst. }
  rewrite drop_while_stops by (by apply Hst).
  assert (mem_byte SEMI (drop_while is_ows seg) = false) as Hs'.
  { rewrite mem_byte_false in *. by apply drop_while_Forall. }
  generalize dependent (drop_while is_ows seg). clear seg Hs. intros seg Hs.
  rewrite drop_while_stops by (by apply Hst).
  rewrite (drop_while_ext isnt_semi_eq (isnt EQUALS)).
  2:{ rewrite mem_byte_false in Hs. eapply Forall_impl; [exact Hs|].
      intros x Hx. unfold isnt_semi_eq. by rewrite Hx. }
  destruct (drop_while (isnt EQUALS) seg) as [|c v] eqn:E; simpl.
  - destruct rest as [|c rest]; simpl in *; [done|].
    unfold isnt in Hr. b2p. by subst.
  - pose proof E as Ec. apply drop_while_head in Ec. unfold isnt in Ec. b2p. subst c. simpl.
    rewrite drop_while_stops by (by apply Hst).
    rewrite pmce_digits_app by (by apply Hst).
    destruct (pmce_digits _ 0 false) as [[[val have] q]|] eqn:Ed; [|done].
    do 2 f_equal.
    assert (mem_byte SEMI q = false) as Hq.
    { rewrite mem_byte_false in *. apply pmce_digits_suffix in Ed as [t Ed].
      apply (drop_while_Forall (isnt EQUALS)) in Hs. rewrite E in Hs. apply Forall_cons_iff in Hs as [_ Hs].
      apply (drop_while_Forall is_ows_dquote) in Hs. rewrite Ed in Hs. by apply Forall_app in Hs as [_ ?]. }
    rewrite mem_byte_false in Hq. rewrite drop_while_stops by done. by rewrite drop_while_id.
Qed.

Lemma pmce_params_spec fuel s bits :
  (length s < fuel)%nat ->
  pmce_params fuel (SEMI :: s) bits = params_spec (split_on SEMI s) bits.
Proof.
  revert s bits. induction fuel as [|f IH]; intros s bits Hlen; [lia|].
  rewrite split_on_unfold. cbn [pmce_params params_spec].
  change (SEMI =? SEMI) with true. cbv iota.
  set (seg := take_while (isnt SEMI) s). set (rest := drop_while (isnt SEMI) s).
  assert (mem_byte SEMI seg = false) as Hs by apply mem_byte_false, take_while_all.
  assert (stops (isnt SEMI) rest) as Hr by apply drop_while_stopped.
  assert (s = seg ++ rest) as Es by (symmetry; apply take_drop_while).
  clearbody seg rest.
  assert (take_while isnt_semi_eq (drop_while is_ows s) = take_while (isnt EQUALS) (drop_while is_ows seg)) as Hn.
  { rewrite Es. assert (forall p, p SEMI = false -> stops p rest) as Hst.
    { intros p Hp. destruct rest as [|c r]; simpl in *; [done|]. unfold isnt in Hr. b2p. congruence. }
    rewrite drop_while_stops by (by apply Hst). rewrite take_while_stops by (by apply Hst).
    apply take_while_ext. apply drop_while_Forall. rewrite mem_byte_false in Hs.
    eapply Forall_impl; [exact Hs|]. intros x Hx. unfold isnt_semi_eq. by rewrite Hx. }
  rewrite Hn. rewrite Es at 1. rewrite pmce_value_spec by done.
  fold (param_name seg).
  destruct (param_value seg) as [val|]; [|done].
  assert (forall b, pmce_params f rest b =
            params_spec match rest with [] => [] | _ :: t => split_on SEMI t end b) as Hrest.
  { intros b. destruct rest as [|c t] eqn:Er; [by destruct f|].
    simpl in Hr. unfold isnt in Hr. b2p. subst c. apply IH.
    apply (f_equal length) in Es. rewrite length_app in Es. simpl in *. lia. }
  case_if; [|apply Hrest]. case_if; [|done]. rewrite Hrest. f_equal.
  case_if; b2p; lia.
Qed.

(** ** Properties *)

(** What RFC 6455 asks of an opening request, over the trimmed elements of the
    comma-separated headers. *)
Record valid_upgrade (req : http_request_t) : Prop := {
  vu_method : method req = Some (lit "GET");
  vu_upgrade : exists v, header_lookup req (lit "upgrade") = Some v /\
    list_has (fun e => eqb_ci e (lit "websocket")) v = true;
  vu_connection : exists v, header_lookup req (lit "connection") = Some v /\
    list_has (fun e => eqb_ci e (lit "upgrade")) v = true;
  vu_version : header_lookup req (lit "sec-websocket-version") = Some (lit "13");
  vu_key : exists k, header_lookup req (lit "sec-websocket-key") = Some k /\ length k = 24%nat;
  vu_http : http_major req = 1 /\ 1 <= http_minor req;
}.

(** [ws_handshake_validate] accepts a request exactly when it is a valid
    upgrade: GET, HTTP/1.1 or later minor, [websocket] among the [Upgrade]
    tokens, [upgrade] among the [Connection] tokens, version 13, and a
    24-character key. *)
Theorem ws_handshake_validate_ok_iff (req : http_request_t) :
  ws_handshake_validate req = WS_HANDSHAKE_OK <-> valid_upgrade req.
Proof.
  unfold ws_handshake_validate. split.
  - intros H.
    destruct (header_lookup req (lit "upgrade")) as [up|] eqn:Eu; [|done].
    destruct (method req) as [m|] eqn:Em; [|done].
    case_if_in H; [done|]. case_if_in H; [done|].
    destruct (header_lookup req (lit "connection")) as [co|] eqn:Ec; [|done].
    case_if_in H; [done|].
    destruct (header_lookup req (lit "sec-websocket-version")) as [v|] eqn:Ev; [|done].
    case_if_in H; [done|].
    destruct (header_lookup req (lit "sec-websocket-key")) as [k|] eqn:Ek; [|done].
    case_if_in H; [done|]. case_if_in H; [done|]. clear H. b2p.
    rewrite eqb_bytes_eq in *. rewrite contains_token_ci_spec in * by done.
    subst. split; [done | eauto | eauto | done | | lia].
    exists k. split; [done|]. by apply Nat.eqb_eq.
  - intros [Em (up & Eu & Hu) (co & Ec & Hc) Ev (k & Ek & Hk) [Hma Hmi]].
    rewrite Eu, Em, Ec, Ev, Ek, !contains_token_ci_spec by done.
    rewrite Hu, Hc, Hk, Hma. simpl. by destruct (Z.ltb_spec (http_minor req) 1); [lia|].
Qed.

(** Closes a branch of the classification: both directions by computation. *)
Ltac classify :=
  repeat split; intros; destruct_and?;
  repeat match goal with H : exists _, _ |- _ => destruct H as (? & ? & ?) end;
  simplify_eq; try congruence; eauto.

(** Which requests fall through to ordinary HTTP and which get 426.  A
    request is not an upgrade exactly when it has no string [Upgrade] header;
    426 (with the version hint) is answered exactly when everything up to the
    version is right and the version is not 13. *)
Theorem ws_handshake_validate_errors (req : http_request_t) :
  (ws_handshake_validate req = WS_HANDSHAKE_NOT_AN_UPGRADE <->
     header_lookup req (lit "upgrade") = None) /\
  (ws_handshake_validate req = WS_HANDSHAKE_FORBIDDEN_METHOD <->
     header_lookup req (lit "upgrade") <> None /\ method req <> Some (lit "GET")) /\
  (ws_handshake_validate req = WS_HANDSHAKE_UPGRADE_REQUIRED <->
     method req = Some (lit "GET") /\
     header_lookup req (lit "sec-websocket-version") <> Some (lit "13") /\
     (exists v, header_lookup req (lit "upgrade") = Some v /\
        list_has (fun e => eqb_ci e (lit "websocket")) v = true) /\
     (exists v, header_lookup req (lit "connection") = Some v /\
        list_has (fun e => eqb_ci e (lit "upgrade")) v = true)).
Proof.
  unfold ws_handshake_validate.
  destruct (header_lookup req (lit "upgrade")) as [up|] eqn:Eu.
  2:{ classify. }
  destruct (method req) as [m|] eqn:Em.
  2:{ classify. }
  destruct (eqb_bytes m (lit "GET")) eqn:Eg; cbn [negb].
  2:{ assert (m <> lit "GET") by (intros ->; by rewrite eqb_bytes_refl in Eg).
      classify. }
  apply eqb_bytes_eq in Eg as ->.
  rewrite contains_token_ci_spec by done.
  destruct (list_has _ up) eqn:El; cbn [negb]; [|classify].
  destruct (header_lookup req (lit "connection")) as [co|] eqn:Ec;
    [|classify].
  rewrite contains_token_ci_spec by done.
  destruct (list_has _ co) eqn:El'; cbn [negb]; [|classify].
  destruct (header_lookup req (lit "sec-websocket-version")) as [v|] eqn:Ev;
    [|classify].
  destruct (eqb_bytes v (lit "13")) eqn:E13; cbn [negb].
  2:{ assert (v <> lit "13") by (intros ->; by rewrite eqb_bytes_refl in E13).
      classify. }
  apply eqb_bytes_eq in E13 as ->.
  destruct (header_lookup req (lit "sec-websocket-key")) as [k|];
    [case_if; [|case_if]|]; classify.
Qed.

(** permessage-deflate negotiation is the first acceptable offer of the
    comma-separated list, each offer judged on its semicolon-separated
    parameters: the cursor loops of [ws_pmce_negotiate] compute this reference. *)
Theorem ws_pmce_negotiate_spec (req : http_request_t) (ext : bytes) :
  header_lookup req (lit "sec-websocket-extensions") = Some ext ->
  ws_pmce_negotiate req =
    match first_outcome
            (map (fun offer =>
                    match split_on SEMI offer with
                    | [] => PmceDecline
                    | name :: params =>
                        if eqb_ci (trim is_ows name) (lit "permessage-deflate")
                        then params_spec params 15 else PmceDecline
                    end) (split_on COMMA ext)) with
    | PmceBits bits => Some bits
    | PmceDecline => Some 0
    | PmceOverflow => None
    end.
Proof.
  intros E. unfold ws_pmce_negotiate. rewrite E, pmce_offers_spec by done.
  erewrite map_ext; [reflexivity|]. intros offer. unfold pmce_offer.
  rewrite split_on_unfold. case_if; [|done].
  destruct (drop_while (isnt SEMI) offer) as [|c p] eqn:Ed; [done|].
  apply drop_while_head in Ed. unfold isnt in Ed. b2p. subst c.
  apply pmce_params_spec. simpl. lia.
Qed.

(** A request that offers the given extensions. *)
Definition offering (ext : bytes) : http_request_t :=
  {| headers := Some {[ lit "sec-websocket-extensions" := ZString ext ]};
     method := Some (lit "GET"); http_major := 1; http_minor := 1 |}.

Lemma ws_pmce_negotiate_spec_witness :
  ws_pmce_negotiate (offering (lit "permessage-deflate; server_max_window_bits=8, permessage-deflate; server_max_window_bits=12")) = Some 12.
Proof.
  rewrite (ws_pmce_negotiate_spec (offering (lit "permessage-deflate; server_max_window_bits=8, permessage-deflate; server_max_window_bits=12")) _ eq_refl).
  vm_compute. reflexivity.
Defined.

(** A negotiated window is one zlib can produce for raw deflate: the
    answer is 0 (declined) or between 9 and 15 bits. *)
Theorem ws_pmce_negotiate_bounds (req : http_request_t) (bits : Z) :
  ws_pmce_negotiate req = Some bits -> bits = 0 \/ 9 <= bits <= 15.
Proof.
  unfold ws_pmce_negotiate. destruct (header_lookup _ _) as [ext|]; [|by intros [= <-]; left].
  rewrite pmce_offers_spec by done.
  destruct (first_outcome _) eqn:E; [|by intros [= <-]; left|done].
  apply first_outcome_In in E; [|done]. apply in_map_iff in E as (offer & Eo & _).
  apply pmce_offer_bounds in Eo. intros [= <-]. by right.
Qed.

Lemma ws_pmce_negotiate_bounds_witness :
  ws_pmce_negotiate (offering (lit "permessage-deflate")) = Some 15 /\ (15 = 0 \/ 9 <= 15 <= 15).
Proof.
  split; [vm_compute; reflexivity|].
  apply (ws_pmce_negotiate_bounds (offering (lit "permessage-deflate"))). vm_compute. reflexivity.
Defined.

(** The parameter value is accumulated in a [long] without a range check:
    a request with a 20-digit [server_max_window_bits] reaches signed overflow. *)
Theorem ws_pmce_negotiate_overflow :
  exists req, ws_pmce_negotiate req = None.
Proof.
  exists (offering (lit "permessage-deflate; server_max_window_bits=99999999999999999999")).
  vm_compute. reflexivity.
Qed.

(** With PHP's SHA-1 and base64, [ws_handshake_compute_accept] succeeds
    exactly on 24-byte keys, and then yields 28 base64 characters. *)
Theorem ws_handshake_compute_accept_spec `{Cok : PhpCryptoOk} (key : bytes) :
  match ws_handshake_compute_accept key with
  | Some a => length key = 24%nat /\ length a = 28%nat /\ Forall (fun c => is_base64_char c = true) a
  | None => length key <> 24%nat
  end.
Proof.
  unfold ws_handshake_compute_accept. unfold WS_CLIENT_KEY_LEN, WS_ACCEPT_LEN.
  destruct (Nat.eqb_spec (length key) 24) as [E|E]; cbn [negb]; [|done].
  match goal with |- context [php_base64_encode (PHP_SHA1Final ?c)] =>
    destruct (base64_total (PHP_SHA1Final c)) as (t & -> & Hl & Ha)
  end.
  rewrite sha1_final_length in Hl. change (4 * ((Z.of_nat 20 + 2) / 3)) with 28 in Hl.
  assert (length t = 28%nat) as Ht by lia.
  by rewrite take_ge by lia.
Qed.

Lemma ws_handshake_compute_accept_witness :
  length (lit "dGhlIHNhbXBsZSBub25jZQ==") = 24%nat /\
  match ws_handshake_compute_accept (lit "dGhlIHNhbXBsZSBub25jZQ==") with
  | Some a => length a = 28%nat
  | None => False
  end.
Proof.
  split; [reflexivity|].
  pose proof (ws_handshake_compute_accept_spec (C := demo_crypto) (lit "dGhlIHNhbXBsZSBub25jZQ==")) as H.
  destruct (ws_handshake_compute_accept _) as [a|]; [apply H | by apply H].
Defined.

End WsHandshake.
