(* ===== verification/WsClient.v ===== *)
(** * The WebSocket client

    Models src/src/wsclient/: the handshake primitive (wsclient_handshake.c),
    building the upgrade request and checking the response, opening a
    connection (wsclient_connection.c), the message queue and wslay callbacks
    (wsclient_session.c), and the methods of [WebSocketClientConnection]
    (wsclient_classes.c).

    PHP's URL parser, streams and random source, and the wslay frame engine are
    parameters: the URL parser is a function, the outcomes of successive stream
    reads and writes are functions of the call's number, and wslay is the
    operations of [Wslay], which reach the session only through its callbacks. *)

From S2P Require Import Prelude TokenList WsHandshake.

Module WsClient.

(** ** Handshake primitive *)

Definition WSCLIENT_KEY_LENGTH : nat := 24.
Definition WSCLIENT_ACCEPT_LENGTH : nat := 28.
Definition WSCLIENT_READ_CHUNK : Z := 8192.
Definition WSCLIENT_MAX_HEADERS : Z := 16 * 1024.

Definition wsclient_guid : bytes := lit "258EAFA5-E914-47DA-95CA-C5AB0DC85B11".

(** [None] is [false]; [Some] is what is copied to [out]. *)
Definition wsclient_compute_accept `{C : PhpCrypto} (key : option bytes) : option bytes :=
  match key with
  | None => None
  | Some key =>
      if negb (length key =? WSCLIENT_KEY_LENGTH)%nat then None
      else
        let context := PHP_SHA1Update PHP_SHA1Init key in
        let context := PHP_SHA1Update context wsclient_guid in
        let digest := PHP_SHA1Final context in
        match php_base64_encode digest with
        | None => None
        | Some encoded =>
            if (length encoded =? WSCLIENT_ACCEPT_LENGTH)%nat
            then Some (take WSCLIENT_ACCEPT_LENGTH encoded) else None
        end
  end.

(** ** Building the request *)

Definition wsclient_contains_crlf (value : option bytes) : bool :=
  match value with
  | None => true
  | Some v => mem_byte CR v || mem_byte LF v
  end.

(** [strchr(s, c) != NULL]: the terminating NUL is part of the string searched. *)
Definition strchr (s : bytes) (c : Z) : bool := mem_byte c (s ++ [NUL]).

Definition wsclient_token_char (c : Z) : bool :=
  is_digit c || is_upper c || is_lower c || strchr (lit "!#$%&'*+-.^_`|~") c.

Definition wsclient_token (value : option bytes) : bool :=
  match value with
  | None => false
  | Some [] => false
  | Some v => forallb wsclient_token_char v
  end.

Definition wsclient_name_eq (name expected : bytes) : bool :=
  (length name =? length expected)%nat && eqb_ci name expected.

Definition wsclient_reserved_header (name : bytes) : bool :=
  wsclient_name_eq name (lit "Host") ||
  wsclient_name_eq name (lit "Connection") ||
  wsclient_name_eq name (lit "Upgrade") ||
  wsclient_name_eq name (lit "Sec-WebSocket-Key") ||
  wsclient_name_eq name (lit "Sec-WebSocket-Version") ||
  wsclient_name_eq name (lit "Sec-WebSocket-Protocol").

Fixpoint append_headers_loop (request : bytes) (headers : php_array) : option bytes :=
  match headers with
  | [] => Some request
  | (name, value) :: rest =>
      match name with
      | None => None
      | Some n =>
          if negb (wsclient_token name) || wsclient_reserved_header n then None
          else
            match value with
            | ZString v =>
                if wsclient_contains_crlf (Some v) then None
                else append_headers_loop (request ++ n ++ lit ": " ++ v ++ crlf) rest
            | ZOther => None
            end
      end
  end.

(** [None] is the [false] return: the caller drops the buffer. *)
Definition wsclient_append_headers (request : bytes) (headers : option php_array) : option bytes :=
  match headers with
  | None => Some request
  | Some hs => append_headers_loop request hs
  end.

(** The subprotocol loop; [index] counts the values already written. *)
Fixpoint append_protocols (request : bytes) (index : Z) (protocols : php_array) : option bytes :=
  match protocols with
  | [] => Some request
  | (_, ZString p) :: rest =>
      if wsclient_token (Some p) then
        append_protocols (request ++ (if 0 <? index then lit ", " else []) ++ p) (index + 1) rest
      else None
  | (_, ZOther) :: _ => None
  end.

(** The request line and the fixed headers. *)
Definition request_base (authority target key : bytes) : bytes :=
  lit "GET " ++ target ++ lit " HTTP/1.1" ++ crlf ++ lit "Host: " ++ authority ++
  crlf ++ lit "Upgrade: websocket" ++ crlf ++ lit "Connection: Upgrade" ++ crlf ++
  lit "Sec-WebSocket-Key: " ++ key ++
  crlf ++ lit "Sec-WebSocket-Version: 13" ++ crlf.

(** The [Sec-WebSocket-Protocol] line, when there are subprotocols. *)
Definition request_protocols (request : bytes) (protocols : option php_array) : option bytes :=
  match protocols with
  | Some ((_ :: _) as ps) =>
      match append_protocols (request ++ lit "Sec-WebSocket-Protocol: ") 0 ps with
      | None => None
      | Some r => Some (r ++ crlf)
      end
  | _ => Some request
  end.

Definition wsclient_build_request (authority target : option bytes) (key : bytes)
    (headers protocols : option php_array) : option bytes :=
  match authority, target with
  | Some au, Some ta =>
      if wsclient_contains_crlf authority || wsclient_contains_crlf target ||
         negb (starts_with [SLASH] ta)
      then None
      else
        match request_protocols (request_base au ta key) protocols with
        | None => None
        | Some r =>
            match wsclient_append_headers r headers with
            | None => None
            | Some r' => Some (r' ++ crlf)
            end
        end
  | _, _ => None
  end.

(** ** Checking the response *)

(** Offset just past the first blank line. *)
Fixpoint wsclient_header_end (data : bytes) : option nat :=
  match data with
  | [] => None
  | _ :: t =>
      if starts_with (crlf ++ crlf) data then Some 4%nat
      else match wsclient_header_end t with
           | None => None
           | Some e => Some (S e)
           end
  end.

Definition wsclient_header_token (value token : bytes) : bool :=
  scan_tokens (fun part => wsclient_name_eq part token) value.

(** [if (value_len && value[value_len - 1] == '\r') value_len--] *)
Fixpoint strip_cr (s : bytes) : bytes :=
  match s with
  | [] => []
  | [c] => if c =? CR then [] else [c]
  | c :: t => c :: strip_cr t
  end.

(** The line loop of [wsclient_validate_response] from the cursor [rest]. *)
Fixpoint validate_lines (fuel : nat) (rest expected : bytes)
    (accept upgrade connection : bool) : bool :=
  match fuel, rest with
  | O, _ => false
  | _, [] => false
  | S f, _ =>
      let line := take_while (isnt LF) rest in
      match drop_while (isnt LF) rest with
      | [] => false
      | _ :: next =>
          if eqb_bytes line [CR] then accept && upgrade && connection
          else
            match drop_while (isnt COLON) line with
            | [] => validate_lines f next expected accept upgrade connection
            | _ :: after =>
                let name := take_while (isnt COLON) line in
                let value := strip_cr (drop_while is_ows after) in
                if wsclient_name_eq name (lit "Sec-WebSocket-Accept") then
                  if accept || negb (eqb_bytes value expected) then false
                  else validate_lines f next expected true upgrade connection
                else if wsclient_name_eq name (lit "Upgrade") then
                  validate_lines f next expected accept
                    (wsclient_header_token value (lit "websocket")) connection
                else if wsclient_name_eq name (lit "Connection") then
                  validate_lines f next expected accept upgrade
                    (wsclient_header_token value (lit "Upgrade"))
                else validate_lines f next expected accept upgrade connection
            end
      end
  end.

Definition wsclient_validate_response (response expected : bytes) : bool :=
  if (length response <? 17)%nat || negb (starts_with (lit "HTTP/1.1 101 ") response) then false
  else validate_lines (length response) response expected false false false.

(** ** Lemmas on the response check *)

Lemma strip_cr_app s : strip_cr (s ++ [CR]) = s.
Proof.
  induction s as [|c s IH]; [done|]. simpl. rewrite IH. destruct s; done.
Qed.

Lemma wsclient_name_eq_ci a b : wsclient_name_eq a b = eqb_ci a b.
Proof.
  unfold wsclient_name_eq. destruct (eqb_ci a b) eqn:E; [|by rewrite andb_false_r].
  apply eqb_ci_length in E. by rewrite E, Nat.eqb_refl.
Qed.

(** More fuel than bytes changes nothing. *)
Lemma validate_lines_fuel f f' rest e a u c :
  (length rest <= f)%nat -> (length rest <= f')%nat ->
  validate_lines f rest e a u c = validate_lines f' rest e a u c.
Proof.
  revert f' rest a u c. induction f as [|f IH]; intros f' rest a u c H H'.
  - destruct rest; [|simpl in *; lia]. by destruct f'.
  - destruct f' as [|f']; [destruct rest; [done | simpl in *; lia]|].
    destruct rest as [|b rest]; [done|]. cbn [validate_lines].
    pose proof (drop_while_length (isnt LF) (b :: rest)) as Hd.
    destruct (drop_while (isnt LF) (b :: rest)) as [|x next]; [done|].
    assert (length next <= f)%nat by (simpl in *; lia).
    assert (length next <= f')%nat by (simpl in *; lia).
    case_if; [done|]. destruct (drop_while (isnt COLON) _); [by apply IH|].
    repeat case_if; try done; by apply IH.
Qed.

(** What one header line does to the three flags. *)
Definition line_effect (line expected : bytes) (accept upgrade connection : bool)
    : option (bool * bool * bool) :=
  match drop_while (isnt COLON) line with
  | [] => Some (accept, upgrade, connection)
  | _ :: after =>
      let name := take_while (isnt COLON) line in
      let value := strip_cr (drop_while is_ows after) in
      if wsclient_name_eq name (lit "Sec-WebSocket-Accept") then
        if accept || negb (eqb_bytes value expected) then None
        else Some (true, upgrade, connection)
      else if wsclient_name_eq name (lit "Upgrade") then
        Some (accept, wsclient_header_token value (lit "websocket"), connection)
      else if wsclient_name_eq name (lit "Connection") then
        Some (accept, upgrade, wsclient_header_token value (lit "Upgrade"))
      else Some (accept, upgrade, connection)
  end.

Lemma validate_lines_cons f line next e a u c :
  mem_byte LF line = false -> (length line + length next < f)%nat ->
  validate_lines f (line ++ LF :: next) e a u c =
    if eqb_bytes line [CR] then a && u && c
    else match line_effect line e a u c with
         | None => false
         | Some (a', u', c') => validate_lines (length next) next e a' u' c'
         end.
Proof.
  intros Hl Hf. destruct f as [|f]; [lia|].
  destruct (line ++ LF :: next) as [|b rest] eqn:E; [by destruct line|].
  cbn [validate_lines]. rewrite <- E. rewrite mem_byte_false in Hl.
  rewrite take_while_app, drop_while_app by done.
  assert (forall a u c, validate_lines f next e a u c =
                        validate_lines (length next) next e a u c) as Hv.
  { intros. apply validate_lines_fuel; lia. }
  unfold line_effect. case_if; [done|].
  destruct (drop_while (isnt COLON) line); [by apply Hv|].
  repeat case_if; try done; by apply Hv.
Qed.

(** A header that is none of the three changes nothing. *)
Lemma line_effect_other name value e a u c :
  mem_byte COLON name = false ->
  eqb_ci name (lit "Sec-WebSocket-Accept") = false ->
  eqb_ci name (lit "Upgrade") = false ->
  eqb_ci name (lit "Connection") = false ->
  line_effect (name ++ COLON :: value) e a u c = Some (a, u, c).
Proof.
  intros Hc H1 H2 H3. unfold line_effect. rewrite mem_byte_false in Hc.
  rewrite take_while_app, drop_while_app by done.
  by rewrite !wsclient_name_eq_ci, H1, H2, H3.
Qed.

Lemma base64_no_byte a c :
  Forall (fun x => is_base64_char x = true) a -> is_base64_char c = false -> mem_byte c a = false.
Proof.
  intros Ha Hc. apply mem_byte_false. eapply Forall_impl; [exact Ha|].
  intros x Hx. unfold isnt. apply negb_true_iff, Z.eqb_neq. intros ->. by rewrite Hc in Hx.
Qed.

Lemma line_effect_accept a u c :
  a <> [] -> Forall (fun x => is_base64_char x = true) a ->
  line_effect (lit "Sec-WebSocket-Accept: " ++ a ++ [CR]) a false u c = Some (true, u, c).
Proof.
  intros Hn Ha. unfold line_effect.
  change (lit "Sec-WebSocket-Accept: " ++ a ++ [CR])
    with (lit "Sec-WebSocket-Accept" ++ COLON :: SP :: a ++ [CR]).
  rewrite take_while_app, drop_while_app by (try done; apply mem_byte_false; reflexivity).
  change (drop_while is_ows (SP :: a ++ [CR])) with (drop_while is_ows (a ++ [CR])).
  rewrite drop_while_stops by done.
  destruct a as [|x a]; [done|]. apply Forall_cons_iff in Ha as [Hx _].
  rewrite (drop_while_stop is_ows x a).
  2:{ unfold is_base64_char, is_digit, is_upper, is_lower, is_ows in *. lia. }
  rewrite strip_cr_app, eqb_bytes_refl. reflexivity.
Qed.

(** Running [line_effect] down a header block. *)
Fixpoint block_effect (lines : list bytes) (expected : bytes) (a u c : bool) : bool :=
  match lines with
  | [] => a && u && c
  | l :: ls =>
      match line_effect (l ++ [CR]) expected a u c with
      | None => false
      | Some (a', u', c') => block_effect ls expected a' u' c'
      end
  end.

Lemma validate_lines_block lines e a u c f :
  Forall clean_line lines -> (length (render_head lines) <= f)%nat ->
  validate_lines f (render_head lines) e a u c = block_effect lines e a u c.
Proof.
  intros Hl. revert a u c f. induction Hl as [|l ls [Hne Hlf] _ IH]; intros a u c f Hf.
  - change (render_head []) with ([CR] ++ LF :: []) in *.
    rewrite validate_lines_cons by (simpl in *; first [done | lia]). reflexivity.
  - rewrite render_head_cons in *.
    change (l ++ crlf ++ render_head ls) with (l ++ [CR] ++ LF :: render_head ls) in *.
    rewrite app_assoc in *. rewrite length_app in Hf. simpl in Hf.
    rewrite validate_lines_cons by (rewrite ?mem_byte_app, ?Hlf; first [done | lia]).
    destruct (eqb_bytes (l ++ [CR]) [CR]) eqn:E.
    { apply eqb_bytes_eq in E. by apply (app_inj_2 l [] [CR] [CR]) in E as [? _]. }
    simpl. destruct (line_effect _ _ _ _ _) as [[[a' u'] c']|]; [|done]. by apply IH.
Qed.

Lemma header_end_step x t :
  starts_with (crlf ++ crlf) (x :: t) = false ->
  wsclient_header_end (x :: t) = option_map S (wsclient_header_end t).
Proof. intros H. cbn [wsclient_header_end]. by rewrite H. Qed.

(** The first blank line of a block of clean lines is its end. *)
Lemma header_end_prefix l s :
  mem_byte LF l = false ->
  wsclient_header_end (l ++ CR :: s) =
    option_map (Nat.add (length l)) (wsclient_header_end (CR :: s)).
Proof.
  intros Hl. induction l as [|x l IH].
  - simpl app. destruct (wsclient_header_end (CR :: s)); done.
  - simpl in Hl. apply orb_false_iff in Hl as [Hx Hl]. specialize (IH Hl).
    change ((x :: l) ++ CR :: s) with (x :: l ++ CR :: s).
    assert (starts_with (crlf ++ crlf) (x :: l ++ CR :: s) = false) as Hs.
    { unfold crlf. cbn [app starts_with]. destruct (CR =? x); [|done].
      destruct l as [|y l]; [done|]. cbn [app starts_with]. simpl in Hl.
      apply orb_false_iff in Hl as [Hy _]. by rewrite Hy. }
    rewrite header_end_step, IH by done.
    by destruct (wsclient_header_end (CR :: s)).
Qed.

Lemma header_end_crlf rest :
  wsclient_header_end (crlf ++ rest) =
    if starts_with crlf rest then Some 4%nat
    else option_map (Nat.add 2) (wsclient_header_end rest).
Proof.
  destruct (starts_with crlf rest) eqn:E.
  - apply starts_with_spec in E as [t ->]. done.
  - change (crlf ++ rest) with (CR :: LF :: rest).
    rewrite !header_end_step by done. by destruct (wsclient_header_end rest).
Qed.

Lemma clean_line_not_crlf l rest : clean_line l -> starts_with crlf (l ++ crlf ++ rest) = false.
Proof.
  intros [Hne Hl]. destruct l as [|x [|y l]]; [done| |]; unfold crlf; cbn [app starts_with].
  - by rewrite andb_false_r.
  - simpl in Hl. apply orb_false_iff in Hl as [_ [Hy _]%orb_false_iff].
    rewrite Hy. by rewrite andb_false_r.
Qed.

Lemma header_end_block lines :
  lines <> [] -> Forall clean_line lines ->
  wsclient_header_end (render_head lines) = Some (length (render_head lines)).
Proof.
  intros Hne Hl. induction Hl as [|l ls [Hl Hlf] Hls IH]; [done|].
  rewrite render_head_cons.
  change (l ++ crlf ++ render_head ls) with (l ++ CR :: LF :: render_head ls).
  rewrite header_end_prefix by done.
  change (CR :: LF :: render_head ls) with (crlf ++ render_head ls).
  rewrite header_end_crlf, !length_app. destruct ls as [|l' ls']; [done|].
  rewrite render_head_cons at 1.
  rewrite clean_line_not_crlf by (by inversion Hls). rewrite IH by done. simpl. f_equal; lia.
Qed.

(** Client and server derive the same accept value from a key. *)
Lemma ws_accept_exists `{Cok : PhpCryptoOk} key :
  length key = 24%nat ->
  exists accept,
    WsHandshake.ws_handshake_compute_accept key = Some accept /\
    wsclient_compute_accept (Some key) = Some accept /\
    length accept = 28%nat /\ Forall (fun c => is_base64_char c = true) accept.
Proof.
  intros Hk. unfold WsHandshake.ws_handshake_compute_accept, wsclient_compute_accept,
    WsHandshake.WS_CLIENT_KEY_LEN, WSCLIENT_KEY_LENGTH, WSCLIENT_ACCEPT_LENGTH, WsHandshake.WS_ACCEPT_LEN.
  rewrite Hk. cbn [Nat.eqb negb]. change wsclient_guid with WsHandshake.WS_MAGIC_GUID.
  match goal with |- context [php_base64_encode (PHP_SHA1Final ?c)] =>
    destruct (base64_total (PHP_SHA1Final c)) as (t & -> & Hl & Ha)
  end.
  rewrite sha1_final_length in Hl. change (4 * ((Z.of_nat 20 + 2) / 3)) with 28 in Hl.
  assert (length t = 28%nat) as Ht by lia. rewrite Ht, take_ge by lia. exists t. done.
Qed.

(** ** Properties of the handshake *)

(** The lines of the server's 101 response. *)
Definition response_lines (accept : bytes) (subprotocol : option bytes) (bits : Z) : list bytes :=
  [lit "HTTP/1.1 101 Switching Protocols"; lit "Upgrade: websocket"; lit "Connection: Upgrade";
   lit "Sec-WebSocket-Accept: " ++ accept] ++
  match subprotocol with
  | None => []
  | Some sp => match c_str sp with
               | [] => []
               | tok => [lit "Sec-WebSocket-Protocol: " ++ tok]
               end
  end ++
  (if 0 <? bits then
     [lit "Sec-WebSocket-Extensions: permessage-deflate; server_no_context_takeover; client_no_context_takeover" ++
      (if bits <? 15 then lit "; server_max_window_bits=" ++ print_d bits else [])]
   else []).

Lemma build_101_lines accept subprotocol bits :
  length accept = 28%nat ->
  WsHandshake.ws_handshake_build_101_response accept subprotocol bits =
    render_head (response_lines accept subprotocol bits).
Proof.
  intros Ha. unfold WsHandshake.ws_handshake_build_101_response, response_lines, WsHandshake.WS_ACCEPT_LEN.
  rewrite take_ge by lia. unfold render_head, render_lines.
  destruct subprotocol as [sp|]; [destruct (c_str sp)|];
    (destruct (0 <? bits); [destruct (bits <? 15)|]);
    cbn [app map concat]; do 2 (rewrite <- ?app_assoc; cbn [app]); reflexivity.
Qed.

Lemma dec_digits_no_lf fuel n : 0 <= n -> mem_byte LF (dec_digits fuel n) = false.
Proof.
  revert n. induction fuel as [|f IH]; intros n Hn; [done|]. cbn [dec_digits].
  case_if; b2p.
  - simpl. rewrite orb_false_r. apply Z.eqb_neq. lia.
  - rewrite mem_byte_app, IH by dlia. simpl. rewrite orb_false_r. apply Z.eqb_neq. dlia.
Qed.

Lemma response_lines_clean accept subprotocol bits :
  mem_byte LF accept = false ->
  (forall sp, subprotocol = Some sp -> mem_byte LF sp = false) ->
  Forall clean_line (response_lines accept subprotocol bits).
Proof.
  intros Ha Hs. unfold response_lines. rewrite !Forall_app. repeat split.
  - repeat (apply List.Forall_cons; [split; [done|]|]); [reflexivity..| |apply List.Forall_nil].
    rewrite mem_byte_app, Ha. reflexivity.
  - destruct subprotocol as [sp|]; [|apply List.Forall_nil].
    assert (mem_byte LF (c_str sp) = false) as Hc.
    { specialize (Hs sp eq_refl). rewrite mem_byte_false in *. by apply take_while_Forall. }
    destruct (c_str sp); [apply List.Forall_nil|].
    apply List.Forall_cons; [split; [done|] | apply List.Forall_nil].
    rewrite mem_byte_app, Hc. reflexivity.
  - case_if; [|apply List.Forall_nil].
    apply List.Forall_cons; [split; [done|] | apply List.Forall_nil]. b2p.
    rewrite mem_byte_app. case_if; [|done]. rewrite mem_byte_app.
    unfold print_d. destruct (Z.ltb_spec bits 0); [lia|].
    unfold print_u. rewrite dec_digits_no_lf by lia. reflexivity.
Qed.

Lemma response_lines_effect accept subprotocol bits :
  accept <> [] -> Forall (fun x => is_base64_char x = true) accept ->
  block_effect (response_lines accept subprotocol bits) accept false false false = true.
Proof.
  intros Hn Ha. unfold response_lines.
  cbn [app block_effect].
  change (line_effect (lit "HTTP/1.1 101 Switching Protocols" ++ [CR]) accept false false false)
    with (Some (false, false, false)). cbv iota.
  change (line_effect (lit "Upgrade: websocket" ++ [CR]) accept false false false)
    with (Some (false, true, false)). cbv iota.
  change (line_effect (lit "Connection: Upgrade" ++ [CR]) accept false true false)
    with (Some (false, true, true)). cbv iota.
  rewrite <- app_assoc, line_effect_accept by done.
  assert (forall l bits, block_effect
     (if 0 <? bits then [lit "Sec-WebSocket-Extensions: permessage-deflate; server_no_context_takeover; client_no_context_takeover" ++ l] else []) accept true true true = true) as Hext.
  { intros l b. case_if; [|done]. cbn [block_effect]. rewrite <- app_assoc.
    match goal with |- context [line_effect (?x ++ ?y)] =>
      change (x ++ y) with (lit "Sec-WebSocket-Extensions" ++ COLON :: lit " permessage-deflate; server_no_context_takeover; client_no_context_takeover" ++ y)
    end.
    rewrite line_effect_other by reflexivity. reflexivity. }
  destruct subprotocol as [sp|]; [|apply Hext]. destruct (c_str sp) as [|x t]; [apply Hext|].
  cbn [app block_effect]. rewrite <- app_assoc.
  match goal with |- context [line_effect (?x ++ ?y)] =>
    change (x ++ y) with (lit "Sec-WebSocket-Protocol" ++ COLON :: SP :: y)
  end.
  rewrite line_effect_other by reflexivity. apply Hext.
Qed.

(** C33: The two ends agree.  For every 24-byte key, whatever subprotocol and
    deflate window the server answers with, the 101 response the server renders
    ends at its first blank line and is accepted by the client that sent the
    key. *)
Theorem wsclient_accepts_server_101 `{Cok : PhpCryptoOk} (key : bytes)
    (subprotocol : option bytes) (bits : Z) :
  length key = 24%nat ->
  (forall sp, subprotocol = Some sp -> mem_byte LF sp = false) ->
  exists accept,
    WsHandshake.ws_handshake_compute_accept key = Some accept /\
    wsclient_compute_accept (Some key) = Some accept /\
    let response := WsHandshake.ws_handshake_build_101_response accept subprotocol bits in
    wsclient_header_end response = Some (length response) /\
    wsclient_validate_response response accept = true.
Proof.
  intros Hk Hs.
  destruct (ws_accept_exists key Hk) as (accept & E1 & E2 & Hl & Ha).
  exists accept. split; [done|]. split; [done|].
  assert (accept <> []) as Hn by (by destruct accept).
  assert (mem_byte LF accept = false) as Hlf by (by apply base64_no_byte).
  cbv zeta. rewrite build_101_lines by done. split.
  - apply header_end_block; [done|]. by apply response_lines_clean.
  - unfold wsclient_validate_response.
    assert (exists t, (17 <= length t)%nat /\ render_head (response_lines accept subprotocol bits) =
              lit "HTTP/1.1 101 " ++ t) as (t & Ht & Et).
    { eexists. rewrite <- build_101_lines by done. split; [|reflexivity]. simpl. lia. }
    rewrite Et at 1 2. rewrite starts_with_app, length_app.
    destruct (Nat.ltb_spec (length (lit "HTTP/1.1 101 ") + length t) 17); [lia|].
    simpl orb. cbv iota. rewrite validate_lines_block; [|by apply response_lines_clean|done].
    by apply response_lines_effect.
Qed.

Lemma wsclient_accepts_server_101_witness :
  exists accept,
    WsHandshake.ws_handshake_compute_accept (lit "dGhlIHNhbXBsZSBub25jZQ==") = Some accept /\
    wsclient_validate_response
      (WsHandshake.ws_handshake_build_101_response accept (Some (lit "chat")) 12) accept = true.
Proof.
  destruct (wsclient_accepts_server_101 (C := demo_crypto) (lit "dGhlIHNhbXBsZSBub25jZQ==") (Some (lit "chat")) 12)
    as (accept & H1 & _ & _ & H2).
  - reflexivity.
  - intros sp [= <-]. reflexivity.
  - exists accept. split; [exact H1 | exact H2].
Defined.

(** The header lines of an upgrade request. *)
Definition base_lines (authority target key : bytes) : list bytes :=
  [lit "GET " ++ target ++ lit " HTTP/1.1"; lit "Host: " ++ authority; lit "Upgrade: websocket";
   lit "Connection: Upgrade"; lit "Sec-WebSocket-Key: " ++ key; lit "Sec-WebSocket-Version: 13"].

Definition protocol_lines (protocols : php_array) : list bytes :=
  match protocols with
  | [] => []
  | _ => [lit "Sec-WebSocket-Protocol: " ++
          join_with (lit ", ") (map (fun p => match snd p with ZString s => s | ZOther => [] end) protocols)]
  end.

Definition header_lines (headers : php_array) : list bytes :=
  map (fun h => match h with
                | (Some n, ZString v) => n ++ lit ": " ++ v
                | _ => []
                end) headers.

Definition request_lines (authority target key : bytes) (headers protocols : php_array) : list bytes :=
  base_lines authority target key ++ protocol_lines protocols ++ header_lines headers.

Lemma append_headers_loop_lines request headers r :
  append_headers_loop request headers = Some r ->
  r = request ++ render_lines (header_lines headers) /\
  Forall (fun h => match h with
                   | (Some n, ZString v) =>
                       wsclient_token (Some n) = true /\ wsclient_reserved_header n = false /\
                       wsclient_contains_crlf (Some v) = false
                   | _ => False
                   end) headers.
Proof.
  revert request. induction headers as [|[[n|] v] hs IH]; intros request;
    cbn [append_headers_loop].
  - intros [= <-]. by rewrite app_nil_r.
  - destruct (wsclient_token (Some n)) eqn:Et; [|done].
    destruct (wsclient_reserved_header n) eqn:Er; [done|]. cbn [negb orb].
    destruct v as [v|]; [|done].
    destruct (wsclient_contains_crlf (Some v)) eqn:Ec; [done|].
    intros [-> Hf]%IH. split.
    + unfold header_lines, render_lines. cbn [map concat]. by rewrite <- !app_assoc.
    + by apply List.Forall_cons.
  - done.
Qed.

Lemma append_protocols_lines request index ps r :
  0 <= index -> append_protocols request index ps = Some r ->
  let vals := map (fun p => match snd p with ZString s => s | ZOther => [] end) ps in
  r = request ++ (if (0 <? index) && negb (length ps =? 0)%nat then lit ", " else []) ++
      join_with (lit ", ") vals /\
  Forall (fun s => wsclient_token (Some s) = true) vals.
Proof.
  revert request index. induction ps as [|[k [p|]] ps IH]; intros request index Hi;
    cbn [append_protocols map snd length Nat.eqb negb].
  - intros [= <-]. rewrite andb_false_r. by rewrite app_nil_r.
  - destruct (wsclient_token (Some p)) eqn:Et; [|done]. intros H.
    apply IH in H as [-> Hf]; [|lia]. rewrite andb_true_r. split; [|by apply List.Forall_cons].
    destruct (Z.ltb_spec 0 (index + 1)); [|lia].
    rewrite <- !app_assoc. do 3 f_equal.
    destruct ps as [|q qs]; simpl; [by rewrite app_nil_r | done].
  - done.
Qed.

(** A line with neither CR nor LF, and not empty. *)
Definition one_line (l : bytes) : bool :=
  negb (mem_byte CR l) && negb (mem_byte LF l) && negb (length l =? 0)%nat.

Lemma one_line_clean l : one_line l = true -> clean_line l.
Proof. unfold one_line. intros H. b2p. split; [by destruct l | done]. Qed.

Lemma one_line_app a b :
  wsclient_contains_crlf (Some a) = false -> wsclient_contains_crlf (Some b) = false -> a <> [] ->
  one_line (a ++ b) = true.
Proof.
  simpl. intros [Ha Ha']%orb_false_iff [Hb Hb']%orb_false_iff Hn.
  unfold one_line. rewrite !mem_byte_app, Ha, Ha', Hb, Hb'. by destruct a.
Qed.

Lemma contains_crlf_app a b :
  wsclient_contains_crlf (Some (a ++ b)) =
    wsclient_contains_crlf (Some a) || wsclient_contains_crlf (Some b).
Proof.
  simpl. rewrite !mem_byte_app.
  destruct (mem_byte CR a), (mem_byte LF a), (mem_byte CR b), (mem_byte LF b); done.
Qed.

Lemma token_no_crlf s : wsclient_token (Some s) = true -> wsclient_contains_crlf (Some s) = false /\ s <> [].
Proof.
  destruct s as [|x s]; [done|]. cbn [wsclient_token]. intros H. split; [|done].
  rewrite forallb_forall in H. cbn [wsclient_contains_crlf].
  assert (forall c, wsclient_token_char c = false -> mem_byte c (x :: s) = false) as Hm.
  { intros c Hc. destruct (mem_byte c (x :: s)) eqn:E; [|done].
    apply mem_byte_In, H in E. by rewrite Hc in E. }
  apply orb_false_iff. split; by apply Hm.
Qed.

Lemma join_no_crlf vals :
  Forall (fun s => wsclient_token (Some s) = true) vals ->
  wsclient_contains_crlf (Some (join_with (lit ", ") vals)) = false.
Proof.
  induction 1 as [|v vs Hv _ IH]; [done|]. apply token_no_crlf in Hv as [Hv _].
  cbn [join_with]. destruct vs as [|w ws]; [done|].
  rewrite !contains_crlf_app, Hv, IH. done.
Qed.

Lemma request_base_lines authority target key :
  request_base authority target key = render_lines (base_lines authority target key).
Proof.
  unfold request_base, base_lines, render_lines. cbn [map concat].
  do 2 (rewrite <- ?app_assoc; cbn [app]). by rewrite app_nil_r.
Qed.

Lemma base_lines_ok authority target key :
  wsclient_contains_crlf (Some authority) = false -> wsclient_contains_crlf (Some target) = false ->
  wsclient_contains_crlf (Some key) = false ->
  forallb one_line (base_lines authority target key) = true.
Proof.
  intros Ha Ht Hk. unfold base_lines. cbn [forallb].
  rewrite !one_line_app by (rewrite ?contains_crlf_app, ?Ht; done). done.
Qed.

Lemma request_protocols_lines request protocols r :
  request_protocols request protocols = Some r ->
  r = request ++ render_lines (protocol_lines (default [] protocols)) /\
  forallb one_line (protocol_lines (default [] protocols)) = true.
Proof.
  unfold request_protocols. destruct protocols as [[|p ps]|]; cbn [default].
  1, 3: intros [= <-]; simpl; by rewrite app_nil_r.
  destruct (append_protocols _ _ _) as [r1|] eqn:E; [|done]. intros [= <-].
  apply append_protocols_lines in E as [-> Hf]; [|done].
  unfold protocol_lines, render_lines. cbn [concat forallb map app]. split.
  - cbn [andb]. change (0 <? 0) with false. cbn [andb app id map concat]. by rewrite <- ?app_assoc, app_nil_r, <- ?app_assoc.
  - cbn [id forallb]. rewrite one_line_app by (first [done | by apply join_no_crlf]). done.
Qed.

Lemma wsclient_append_headers_lines request headers r :
  wsclient_append_headers request headers = Some r ->
  r = request ++ render_lines (header_lines (default [] headers)) /\
  forallb one_line (header_lines (default [] headers)) = true.
Proof.
  unfold wsclient_append_headers. destruct headers as [hs|]; cbn [default].
  2:{ intros [= <-]. simpl. by rewrite app_nil_r. }
  intros [-> Hf]%append_headers_loop_lines. split; [done|].
  apply forallb_forall. intros l Hl. apply in_map_iff in Hl as ([[n|] [v|]] & <- & Hin);
    apply (proj1 (List.Forall_forall _ _) Hf) in Hin; try done.
  destruct Hin as (Ht & _ & Hv). apply token_no_crlf in Ht as [Hn Hne].
  apply one_line_app; [done| |done]. by rewrite contains_crlf_app, Hv.
Qed.

(** Request splitting is impossible.  Whatever headers and subprotocols the
    caller passes, a request that is built consists of exactly the lines below:
    the request line, the five handshake headers, at most one subprotocol line,
    and one line per user header, none of them with CR or LF in it; so the
    first blank line of the request is its end. *)
Theorem wsclient_build_request_lines (authority target key : bytes)
    (headers protocols : option php_array) (r : bytes) :
  wsclient_build_request (Some authority) (Some target) key headers protocols = Some r ->
  wsclient_contains_crlf (Some key) = false ->
  let lines := request_lines authority target key (default [] headers) (default [] protocols) in
  r = render_head lines /\
  forallb one_line lines = true /\
  wsclient_header_end r = Some (length r).
Proof.
  intros H Hk lines.
  assert (r = render_head lines /\ forallb one_line lines = true) as [Hr Hl].
  { unfold wsclient_build_request in H. case_if_in H; [done|]. b2p.
    destruct (request_protocols _ protocols) as [r1|] eqn:Ep; [|done].
    destruct (wsclient_append_headers r1 headers) as [r2|] eqn:Eh; [|done]. injection H as <-.
    apply request_protocols_lines in Ep as [-> Hp]. apply wsclient_append_headers_lines in Eh as [-> Hh].
    subst lines. unfold request_lines. rewrite !forallb_app, Hp, Hh, base_lines_ok by done.
    split; [|done]. unfold render_head. by rewrite !render_lines_app, <- !app_assoc, request_base_lines. }
  split; [done|]. split; [done|]. rewrite Hr. apply header_end_block.
  - unfold lines, request_lines. done.
  - apply List.Forall_forall. intros l Hin. rewrite forallb_forall in Hl.
    by apply one_line_clean, Hl.
Qed.

Lemma wsclient_build_request_lines_witness :
  exists r,
    wsclient_build_request (Some (lit "example.org")) (Some (lit "/chat?x=1")) (lit "dGhlIHNhbXBsZSBub25jZQ==")
      (Some [(Some (lit "Origin"), ZString (lit "http://example.org"))])
      (Some [(None, ZString (lit "chat")); (None, ZString (lit "superchat"))]) = Some r /\
    wsclient_header_end r = Some (length r).
Proof.
  eexists. split; [vm_compute; reflexivity|].
  apply (wsclient_build_request_lines (lit "example.org") (lit "/chat?x=1") (lit "dGhlIHNhbXBsZSBub25jZQ==")
      (Some [(Some (lit "Origin"), ZString (lit "http://example.org"))])
      (Some [(None, ZString (lit "chat")); (None, ZString (lit "superchat"))])); vm_compute; reflexivity.
Defined.

(** [wsclient_token] lets a NUL byte through ([strchr] finds the
    terminator), so a header name with a NUL in it is written to the wire. *)
Theorem wsclient_token_accepts_nul (s : bytes) :
  forallb wsclient_token_char s = true ->
  wsclient_token (Some (s ++ [NUL])) = true /\
  exists r, wsclient_build_request (Some (lit "h")) (Some (lit "/")) (lit "k")
              (Some [(Some (lit "X" ++ s ++ [NUL]), ZString [])]) None = Some r /\ In NUL r.
Proof.
  intros Hs.
  assert (forall p, forallb wsclient_token_char p = true -> p <> [] -> wsclient_token (Some p) = true) as Ht.
  { intros [|x p] H Hn; done. }
  assert (forallb wsclient_token_char (s ++ [NUL]) = true) as Hn by (by rewrite forallb_app, Hs).
  split; [apply Ht; [done | by destruct s]|].
  unfold wsclient_build_request. cbn [wsclient_contains_crlf].
  cbn [request_protocols wsclient_append_headers append_headers_loop].
  rewrite Ht; [|done|done].
  assert (wsclient_reserved_header (lit "X" ++ s ++ [NUL]) = false) as ->.
  { unfold wsclient_reserved_header. rewrite !wsclient_name_eq_ci. reflexivity. }
  eexists. split; [reflexivity|].
  rewrite !in_app_iff. simpl. tauto.
Qed.

Lemma wsclient_token_accepts_nul_witness :
  forallb wsclient_token_char (lit "-Trace") = true /\
  wsclient_token (Some (lit "-Trace" ++ [NUL])) = true.
Proof. split; [reflexivity|]. apply (wsclient_token_accepts_nul (lit "-Trace")). reflexivity. Defined.

End WsClient.
