(* ===== verification/WsClientConn.v ===== *)
(** * WebSocket client: session, connection and methods

    Models src/src/wsclient/wsclient_session.c (the message queue and the wslay
    callbacks), [wsclient_connection_create] of wsclient_connection.c, and the
    methods of wsclient_classes.c.  Received messages live in a heap of nodes
    linked by [next], with head and tail pointers, as in the source; the queue
    they represent is [is_queue].

    The stream is shared: [connection->stream] and [session->stream] are one
    object.  Its state is kept once, in the session; the connection remembers
    whether its own pointer is set. *)

From S2P Require Import Prelude TokenList WsHandshake WsClient.

(** ** PHP streams, URLs and randomness *)

Record php_url := {
  scheme : option bytes;
  user : option bytes;
  pass : option bytes;
  host : option bytes;
  port : Z;
  path : option bytes;
  query : option bytes;
  fragment : option bytes;
}.

Class PhpRuntime := {
  php_stream : Type;
  (** [php_stream_xport_create] on a transport name: [None] is NULL. *)
  php_stream_xport_create : bytes -> option php_stream;
  (** Bytes accepted, [<= 0] on failure. *)
  php_stream_write : php_stream -> bytes -> Z * php_stream;
  (** [None] when the call returns [<= 0]. *)
  php_stream_read : php_stream -> Z -> option bytes * php_stream;
  (** [php_url_parse_ex2]: the URL and whether it names a port. *)
  php_url_parse : bytes -> option (php_url * bool);
  php_random_bytes : Z -> option bytes;
}.

(** What the client relies on: a write accepts a prefix of what it was offered
    ([written] is everything accepted so far), a read yields between one byte
    and the size asked for. *)
Class PhpRuntimeOk (R : PhpRuntime) := {
  written : php_stream -> bytes;
  write_prefix : forall st b n st',
    php_stream_write st b = (n, st') -> 0 < n ->
    n <= Z.of_nat (length b) /\ written st' = written st ++ take (Z.to_nat n) b;
  read_bounds : forall st n b st',
    php_stream_read st n = (Some b, st') ->
    0 < Z.of_nat (length b) <= n /\ written st' = written st;
  random_length : forall n b, 0 <= n -> php_random_bytes n = Some b -> Z.of_nat (length b) = n;
}.

(** ** wslay

    The frame engine drives the session through its callbacks.  It is
    polymorphic in the user data, which it only ever passes to them. *)
Record wslay_msg := { opcode : Z; msg : bytes }.

Definition WSLAY_TEXT_FRAME : Z := 1.
Definition WSLAY_BINARY_FRAME : Z := 2.
Definition WSLAY_CONNECTION_CLOSE : Z := 8.
Definition WSLAY_PING : Z := 9.
Definition WSLAY_PONG : Z := 10.

Class Wslay := {
  wslay_ctx : Type;
  wslay_event_context_client_init : option wslay_ctx;
  wslay_event_config_set_max_recv_msg_length : wslay_ctx -> Z -> wslay_ctx;
  wslay_event_recv : forall S : Type, wslay_ctx ->
    (nat -> S -> option bytes * S) ->       (* recv_callback *)
    (wslay_msg -> S -> S) ->                (* on_msg_recv_callback *)
    S -> wslay_ctx * S * Z;
  wslay_event_queue_msg : wslay_ctx -> Z -> bytes -> option wslay_ctx;
  wslay_event_send : forall S : Type, wslay_ctx ->
    (bytes -> S -> Z * S) ->                (* send_callback *)
    (Z -> option bytes) ->                  (* genmask_callback *)
    S -> wslay_ctx * S * Z;
}.

(** The user data changes by callbacks only. *)
Class WslayOk (W : Wslay) : Prop := {
  recv_frame : forall S w rd om (P : S -> Prop) s,
    (forall n s, P s -> P (snd (rd n s))) ->
    (forall m s, P s -> P (om m s)) ->
    P s -> P (snd (fst (wslay_event_recv S w rd om s)));
  send_frame : forall S w sd gm (P : S -> Prop) s,
    (forall b s, P s -> P (snd (sd b s))) ->
    P s -> P (snd (fst (wslay_event_send S w sd gm s)));
}.

Module WsClientConn.
Import WsClient.

Section client.
Context `{C : PhpCrypto} `{R : PhpRuntime} `{W : Wslay}.

(** ** Session *)

Record message_node := { next : option nat; data : bytes; binary : bool }.

Record wsclient_session_t := {
  context : wslay_ctx;
  stream : php_stream;
  input : bytes;          (* the chunk being fed; [] for NULL *)
  input_pos : nat;
  nodes : gmap nat message_node;
  next_node : nat;        (* allocator: the next unused address *)
  messages_head : option nat;
  messages_tail : option nat;
}.

Definition set_input (inp : bytes) (pos : nat) (s : wsclient_session_t) : wsclient_session_t :=
  {| context := context s; stream := stream s; input := inp; input_pos := pos;
     nodes := nodes s; next_node := next_node s;
     messages_head := messages_head s; messages_tail := messages_tail s |}.

Definition set_context (c : wslay_ctx) (s : wsclient_session_t) : wsclient_session_t :=
  {| context := c; stream := stream s; input := input s; input_pos := input_pos s;
     nodes := nodes s; next_node := next_node s;
     messages_head := messages_head s; messages_tail := messages_tail s |}.

Definition set_stream (st : php_stream) (s : wsclient_session_t) : wsclient_session_t :=
  {| context := context s; stream := st; input := input s; input_pos := input_pos s;
     nodes := nodes s; next_node := next_node s;
     messages_head := messages_head s; messages_tail := messages_tail s |}.

Definition set_queue (h : gmap nat message_node) (n : nat) (hd tl : option nat)
    (s : wsclient_session_t) : wsclient_session_t :=
  {| context := context s; stream := stream s; input := input s; input_pos := input_pos s;
     nodes := h; next_node := n; messages_head := hd; messages_tail := tl |}.

(** [None] is the [-1] return with [WSLAY_ERR_WOULDBLOCK]. *)
Definition wsclient_recv_callback (length : nat) (s : wsclient_session_t)
    : option bytes * wsclient_session_t :=
  let available := (List.length (input s) - input_pos s)%nat in
  if (available =? 0)%nat then (None, s)
  else
    let count := if (available <? length)%nat then available else length in
    (Some (take count (drop (input_pos s) (input s))),
     set_input (input s) (input_pos s + count) s).

Definition wsclient_send_callback (buffer : bytes) (s : wsclient_session_t)
    : Z * wsclient_session_t :=
  let '(result, st) := php_stream_write (stream s) buffer in
  (result, set_stream st s).

Definition wsclient_genmask_callback (length : Z) : option bytes := php_random_bytes length.

Definition wsclient_on_message (m : wslay_msg) (s : wsclient_session_t) : wsclient_session_t :=
  let node := {| next := None; data := msg m; binary := opcode m =? WSLAY_BINARY_FRAME |} in
  let l := next_node s in
  let h := <[l := node]> (nodes s) in
  match messages_tail s with
  | Some t =>
      set_queue (alter (fun n => {| next := Some l; data := data n; binary := binary n |}) t h)
        (S l) (messages_head s) (Some l) s
  | None => set_queue h (S l) (Some l) (Some l) s
  end.

Definition wsclient_session_create (st : option php_stream) : option wsclient_session_t :=
  match st, wslay_event_context_client_init with
  | Some st, Some ctx =>
      Some {| context := wslay_event_config_set_max_recv_msg_length ctx (1024 * 1024);
              stream := st; input := []; input_pos := 0; nodes := ∅; next_node := 0;
              messages_head := None; messages_tail := None |}
  | _, _ => None
  end.

(** The list-freeing loop: what is left of the heap, [None] if it touches a node
    that is not allocated. *)
Fixpoint destroy_loop (fuel : nat) (h : gmap nat message_node) (head : option nat)
    : option (gmap nat message_node) :=
  match head, fuel with
  | None, _ => Some h
  | Some _, O => None
  | Some l, S f =>
      match h !! l with
      | None => None
      | Some node => destroy_loop f (delete l h) (next node)
      end
  end.

Definition wsclient_session_destroy (s : wsclient_session_t) : option (gmap nat message_node) :=
  destroy_loop (size (nodes s)) (nodes s) (messages_head s).

Definition wsclient_session_feed (s : wsclient_session_t) (d : bytes) : wsclient_session_t * Z :=
  let '(ctx, s', result) :=
    wslay_event_recv wsclient_session_t (context s) wsclient_recv_callback wsclient_on_message
      (set_input d 0 s) in
  (set_context ctx (set_input [] 0 s'), result).

(** The popped node stays allocated; the caller frees it. *)
Definition wsclient_session_pop (s : wsclient_session_t) : option nat * wsclient_session_t :=
  match messages_head s with
  | None => (None, s)
  | Some l =>
      let hd := match nodes s !! l with Some n => next n | None => None end in
      let tl := match hd with None => None | Some _ => messages_tail s end in
      (Some l, set_queue (alter (fun n => {| next := None; data := data n; binary := binary n |}) l (nodes s))
                 (next_node s) hd tl s)
  end.

Definition wsclient_session_send (s : wsclient_session_t) (op : Z) (d : bytes)
    : wsclient_session_t * Z :=
  match wslay_event_queue_msg (context s) op d with
  | None => (s, -1)
  | Some ctx =>
      let '(ctx', s', result) :=
        wslay_event_send wsclient_session_t ctx wsclient_send_callback wsclient_genmask_callback
          (set_context ctx s) in
      (set_context ctx' s', result)
  end.

(** ** Opening a connection *)

Record wsclient_connection_object := {
  conn_stream : bool;      (* [connection->stream != NULL] *)
  conn_session : option wsclient_session_t;
  subprotocol : option bytes;
  closed : bool;
}.

(** How [wsclient_connection_create] ends: the exception thrown, by its cause,
    or the connection. *)
Inductive connect_result :=
  | ErrUrl                (* must be a valid ws:// or wss:// URL ... *)
  | ErrUrlCrlf            (* must not contain CR or LF *)
  | ErrOpen               (* WebSocket connection failed *)
  | ErrRandom             (* thrown by the random source *)
  | ErrPrepare            (* Cannot prepare WebSocket handshake *)
  | ErrRequest            (* Invalid WebSocket headers or subprotocols *)
  | ErrWrite              (* Cannot write WebSocket handshake *)
  | ErrClosed             (* Connection closed during WebSocket handshake *)
  | ErrTooLarge           (* WebSocket response headers exceed 16 KiB *)
  | ErrResponse           (* Invalid WebSocket upgrade response *)
  | ErrSession            (* Cannot initialize WebSocket session *)
  | ErrFrame              (* Invalid WebSocket frame after upgrade *)
  | OutOfFuel
  | Connected (conn : wsclient_connection_object).

Definition wsclient_open_stream (h : bytes) (p : Z) (secure : bool) : option php_stream :=
  let prefix := if secure then lit "ssl" else lit "tcp" in
  let transport :=
    if mem_byte COLON h
    then prefix ++ lit "://[" ++ c_str h ++ lit "]:" ++ print_u p
    else prefix ++ lit "://" ++ c_str h ++ lit ":" ++ print_u p in
  php_stream_xport_create transport.

(** [while (sent < len) { n = write(rest); if (n <= 0) fail; sent += n }]:
    [None] is out of fuel, [Some (ok, stream)] otherwise. *)
Fixpoint write_all (fuel : nat) (st : php_stream) (rest : bytes) : option (bool * php_stream) :=
  match rest, fuel with
  | [], _ => Some (true, st)
  | _, O => None
  | _, S f =>
      let '(n, st') := php_stream_write st rest in
      if n <=? 0 then Some (false, st') else write_all f st' (drop (Z.to_nat n) rest)
  end.

Inductive read_result :=
  | ReadClosed | ReadTooLarge | ReadFuel
  | ReadDone (response : bytes) (header_end : nat) (st : php_stream).

Fixpoint read_response (fuel : nat) (st : php_stream) (response : bytes) : read_result :=
  match wsclient_header_end response with
  | Some e => ReadDone response e st
  | None =>
      match fuel with
      | O => ReadFuel
      | S f =>
          match php_stream_read st WSCLIENT_READ_CHUNK with
          | (None, _) => ReadClosed
          | (Some buffer, st') =>
              let response' := response ++ buffer in
              if WSCLIENT_MAX_HEADERS <? Z.of_nat (length response') then ReadTooLarge
              else read_response f st' response'
          end
      end
  end.

Definition is_ws_scheme (s : bytes) : bool := eqb_ci s (lit "ws") || eqb_ci s (lit "wss").

Definition url_target (u : php_url) : bytes :=
  let target := match path u with None => [SLASH] | Some [] => [SLASH] | Some p => p end in
  match query u with
  | None => target
  | Some q => target ++ [QUESTION] ++ q
  end.

Definition url_authority (h : bytes) (p : Z) (secure : bool) : bytes :=
  let default_port := if secure then 443 else 80 in
  if mem_byte COLON h && negb (p =? default_port) then lit "[" ++ c_str h ++ lit "]:" ++ print_u p
  else if mem_byte COLON h then lit "[" ++ c_str h ++ lit "]"
  else if p =? default_port then h
  else c_str h ++ lit ":" ++ print_u p.

(** The upgraded connection: session on the stream, fed what came after the head. *)
Definition connection_adopt (st : php_stream) (response : bytes) (header_end : nat) : connect_result :=
  match wsclient_session_create (Some st) with
  | None => ErrSession
  | Some s =>
      let conn s := {| conn_stream := true; conn_session := Some s; subprotocol := None; closed := false |} in
      if (header_end <? length response)%nat then
        let '(s', rc) := wsclient_session_feed s (drop header_end response) in
        if rc <? 0 then ErrFrame else Connected (conn s')
      else Connected (conn s)
  end.

(** The exchange on an open stream. *)
Definition connection_handshake (st : php_stream) (authority target : bytes)
    (headers protocols : option php_array) : connect_result :=
  match php_random_bytes 16 with
  | None => ErrRandom
  | Some rnd =>
    let key := php_base64_encode rnd in
    match key, wsclient_compute_accept key with
    | Some k, Some expected =>
      match wsclient_build_request (Some authority) (Some target) k headers protocols with
      | None => ErrRequest
      | Some request =>
        match write_all (length request) st request with
        | None => OutOfFuel
        | Some (false, _) => ErrWrite
        | Some (true, st1) =>
          match read_response (S (Z.to_nat WSCLIENT_MAX_HEADERS)) st1 [] with
          | ReadFuel => OutOfFuel
          | ReadClosed => ErrClosed
          | ReadTooLarge => ErrTooLarge
          | ReadDone response e st2 =>
              if wsclient_validate_response (take e response) expected
              then connection_adopt st2 response e else ErrResponse
          end
        end
      end
    | _, _ => ErrPrepare
    end
  end.

Definition opt_crlf (o : option bytes) : bool :=
  match o with None => false | Some v => wsclient_contains_crlf (Some v) end.

Definition is_some_b {A} (o : option A) : bool := match o with Some _ => true | None => false end.

Definition wsclient_connection_create (url : bytes) (headers protocols : option php_array)
    : connect_result :=
  match php_url_parse url with
  | Some (u, has_port) =>
    match scheme u, host u with
    | Some sch, Some h =>
      if is_some_b (user u) || is_some_b (pass u) || is_some_b (fragment u) || negb (is_ws_scheme sch)
      then ErrUrl
      else
        let secure := eqb_ci sch (lit "wss") in
        let p := if has_port then port u else if secure then 443 else 80 in
        if wsclient_contains_crlf (Some h) || opt_crlf (path u) || opt_crlf (query u) then ErrUrlCrlf
        else
          match wsclient_open_stream h p secure with
          | None => ErrOpen
          | Some st => connection_handshake st (url_authority h p secure) (url_target u) headers protocols
          end
    | _, _ => ErrUrl
    end
  | None => ErrUrl
  end.

(** ** Methods of WebSocketClientConnection *)

Definition with_session (s : wsclient_session_t) (c : wsclient_connection_object)
    : wsclient_connection_object :=
  {| conn_stream := conn_stream c; conn_session := Some s;
     subprotocol := subprotocol c; closed := closed c |}.

Definition set_closed (c : wsclient_connection_object) : wsclient_connection_object :=
  {| conn_stream := conn_stream c; conn_session := conn_session c;
     subprotocol := subprotocol c; closed := true |}.

(** [true] for a normal return, [false] when the exception is thrown. *)
Definition method_send (c : wsclient_connection_object) (d : bytes) (bin : bool)
    : wsclient_connection_object * bool :=
  if closed c then (set_closed c, false)
  else
    match conn_session c with
    | None => (set_closed c, false)
    | Some s =>
        let '(s', rc) :=
          wsclient_session_send s (if bin then WSLAY_BINARY_FRAME else WSLAY_TEXT_FRAME) d in
        if negb (rc =? 0) then (set_closed (with_session s' c), false)
        else (with_session s' c, true)
    end.

Inductive receive_result :=
  | ReceiveNull
  | ReceiveMessage (d : bytes) (bin : bool)
  | ReceivePending.       (* the loop would read again *)

(** The node handed to a message object: its data moves, the node is freed. *)
Definition take_node (l : nat) (s : wsclient_session_t) : receive_result * wsclient_session_t :=
  match nodes s !! l with
  | Some n => (ReceiveMessage (data n) (binary n),
               set_queue (delete l (nodes s)) (next_node s) (messages_head s) (messages_tail s) s)
  | None => (ReceiveNull, s)
  end.

Fixpoint receive_loop (fuel : nat) (c : wsclient_connection_object) (s : wsclient_session_t)
    : receive_result * wsclient_connection_object :=
  match wsclient_session_pop s with
  | (Some l, s1) => let '(r, s2) := take_node l s1 in (r, with_session s2 c)
  | (None, s1) =>
      match fuel with
      | O => (ReceivePending, with_session s1 c)
      | S f =>
          match php_stream_read (stream s1) 8192 with
          | (None, st) => (ReceiveNull, set_closed (with_session (set_stream st s1) c))
          | (Some buffer, st) =>
              let '(s2, rc) := wsclient_session_feed (set_stream st s1) buffer in
              if rc <? 0 then (ReceiveNull, set_closed (with_session s2 c))
              else receive_loop f c s2
          end
      end
  end.

(** [receive] allowed [fuel] reads. *)
Definition method_receive (fuel : nat) (c : wsclient_connection_object)
    : receive_result * wsclient_connection_object :=
  match conn_session c with
  | None => (ReceiveNull, c)
  | Some s => if closed c then (ReceiveNull, c) else receive_loop fuel c s
  end.

Definition method_close (c : wsclient_connection_object) : wsclient_connection_object :=
  let c1 :=
    match conn_session c with
    | Some s => if closed c then c
                else with_session (fst (wsclient_session_send s WSLAY_CONNECTION_CLOSE [])) c
    | None => c
    end in
  {| conn_stream := false; conn_session := conn_session c1;
     subprotocol := subprotocol c1; closed := true |}.

Definition method_isClosed (c : wsclient_connection_object) : bool := closed c.

Definition method_getSubprotocol (c : wsclient_connection_object) : option bytes := subprotocol c.

(** ** The queue a session represents *)

(** The linked list from [p]: its nodes and their messages. *)
Inductive seg (h : gmap nat message_node) : option nat -> list nat -> list (bytes * bool) -> Prop :=
  | seg_nil : seg h None [] []
  | seg_cons l n ls ms :
      h !! l = Some n -> seg h (next n) ls ms ->
      seg h (Some l) (l :: ls) ((data n, binary n) :: ms).

(** [s] holds the messages [ms], oldest first, in the nodes [ls]; [own] are the
    nodes that have been popped and not freed.  Nothing else is allocated. *)
Record queue_at (s : wsclient_session_t) (ls : list nat) (ms : list (bytes * bool))
    (own : gset nat) : Prop := {
  q_seg : seg (nodes s) (messages_head s) ls ms;
  q_tail : messages_tail s = last ls;
  q_nodup : NoDup ls;
  q_dom : dom (nodes s) = list_to_set ls ∪ own;
  q_disj : forall l, l ∈ ls -> l ∉ own;
  q_fresh : forall l, l ∈ dom (nodes s) -> (l < next_node s)%nat;
}.

Definition is_queue (s : wsclient_session_t) (ms : list (bytes * bool)) (own : gset nat) : Prop :=
  exists ls, queue_at s ls ms own.

Lemma seg_insert_fresh h p ls ms l n :
  l ∉ ls -> seg h p ls ms -> seg (<[l := n]> h) p ls ms.
Proof.
  intros Hl Hs. induction Hs as [|l' n' ls ms Hn Hs IH]; [constructor|].
  apply not_elem_of_cons in Hl as [Hne Hl].
  constructor; [by rewrite lookup_insert_ne | by apply IH].
Qed.

Lemma seg_delete_fresh h p ls ms l : l ∉ ls -> seg h p ls ms -> seg (delete l h) p ls ms.
Proof.
  intros Hl Hs. induction Hs as [|l' n' ls ms Hn Hs IH]; [constructor|].
  apply not_elem_of_cons in Hl as [Hne Hl].
  constructor; [by rewrite lookup_delete_ne | by apply IH].
Qed.

Lemma seg_alter_fresh h p ls ms l f : l ∉ ls -> seg h p ls ms -> seg (alter f l h) p ls ms.
Proof.
  intros Hl Hs. induction Hs as [|l' n' ls ms Hn Hs IH]; [constructor|].
  apply not_elem_of_cons in Hl as [Hne Hl].
  constructor; [by rewrite lookup_alter_ne | by apply IH].
Qed.

(** Linking a fresh node after the last one appends its message. *)
Lemma seg_snoc h p ls ms l n :
  NoDup ls -> ls <> [] -> l ∉ ls -> next n = None -> h !! l = Some n -> seg h p ls ms ->
  exists t, last ls = Some t /\
    seg (alter (fun x => {| next := Some l; data := data x; binary := binary x |}) t h)
        p (ls ++ [l]) (ms ++ [(data n, binary n)]).
Proof.
  intros Hd Hne Hl Hnn Hn Hs. revert Hd Hne Hl.
  induction Hs as [|l' n' ls ms Hn' Hs IH]; intros Hd Hne Hl; [done|].
  apply not_elem_of_cons in Hl as [Hll Hl]. apply NoDup_cons in Hd as [Hl' Hd].
  destruct ls as [|x ls].
  - exists l'. split; [done|]. inversion Hs; subst. simpl.
    refine (seg_cons _ l' {| next := Some l; data := data n'; binary := binary n' |} _ _ _ _).
    + by rewrite lookup_alter_eq, Hn'.
    + simpl. refine (seg_cons _ l n [] [] _ _).
      * by rewrite lookup_alter_ne.
      * rewrite Hnn. constructor.
  - destruct IH as (t & Ht & IH); [done..|]. exists t. split; [done|].
    assert (t <> l') as Htl.
    { intros ->. apply Hl'. apply last_Some in Ht as [ls' ->]. set_solver. }
    simpl. refine (seg_cons _ l' n' _ _ _ _); [by rewrite lookup_alter_ne | done].
Qed.

Lemma seg_elem h p ls ms l : seg h p ls ms -> l ∈ ls -> l ∈ dom h.
Proof.
  induction 1 as [|l' n ls ms Hn _ IH]; [set_solver|].
  intros [-> | Hl]%elem_of_cons; [by apply elem_of_dom | by apply IH].
Qed.

(** Receiving appends at the tail. *)
Lemma wsclient_on_message_queue m s ms own :
  is_queue s ms own ->
  is_queue (wsclient_on_message m s) (ms ++ [(msg m, opcode m =? WSLAY_BINARY_FRAME)]) own.
Proof.
  intros (ls & [Hs Ht Hd Hdom Hdis Hf]). exists (ls ++ [next_node s]).
  set (node := {| next := None; data := msg m; binary := opcode m =? WSLAY_BINARY_FRAME |}).
  assert (next_node s ∉ dom (nodes s)) as Hfr by (intros H%Hf; lia).
  assert (next_node s ∉ ls) as Hfl by set_solver.
  assert (seg (<[next_node s := node]> (nodes s)) (messages_head s) ls ms) as Hs'
    by (by apply seg_insert_fresh).
  unfold wsclient_on_message. fold node. destruct ls as [|x ls].
  - simpl in Ht. rewrite Ht. inversion Hs; subst. split; simpl.
    + refine (seg_cons _ _ node [] [] _ _); [by rewrite lookup_insert_eq | constructor].
    + done.
    + by apply NoDup_singleton.
    + rewrite dom_insert_L, Hdom. set_solver.
    + set_solver.
    + intros l. rewrite dom_insert_L. intros [->%elem_of_singleton | H%Hf]%elem_of_union; lia.
  - destruct (seg_snoc _ _ _ _ (next_node s) node Hd ltac:(done) Hfl eq_refl
                (lookup_insert_eq _ _ _) Hs') as (t & Hlast & Hseg).
    rewrite Ht, Hlast. split; simpl.
    + exact Hseg.
    + change (Some (next_node s) = last ((x :: ls) ++ [next_node s])). by rewrite last_snoc.
    + apply (NoDup_app (x :: ls)). split; [done|]. split; [set_solver | by apply NoDup_singleton].
    + rewrite dom_alter_L, dom_insert_L, Hdom. set_solver.
    + set_solver.
    + intros l. rewrite dom_alter_L, dom_insert_L.
      intros [->%elem_of_singleton | H%Hf]%elem_of_union; lia.
Qed.

(** Popping takes the oldest message; freeing its node restores the queue. *)
Lemma wsclient_session_pop_empty s own : is_queue s [] own -> wsclient_session_pop s = (None, s).
Proof.
  intros (ls & [Hs _ _ _ _ _]). inversion Hs as [Hh|]; subst.
  unfold wsclient_session_pop. by rewrite <- Hh.
Qed.

Lemma wsclient_session_pop_cons s d b ms own :
  is_queue s ((d, b) :: ms) own ->
  exists l s1 s2, wsclient_session_pop s = (Some l, s1) /\
    take_node l s1 = (ReceiveMessage d b, s2) /\ is_queue s2 ms own /\ stream s2 = stream s.
Proof.
  intros (ls & [Hs Ht Hd Hdom Hdis Hf]).
  inversion Hs as [|l n ls' ms' Hn Hs' Hh]; subst.
  exists l. unfold wsclient_session_pop. rewrite <- Hh, Hn.
  eexists _, _. split; [reflexivity|]. unfold take_node. simpl nodes.
  rewrite lookup_alter_eq, Hn. split; [reflexivity|]. split; [|done].
  apply NoDup_cons in Hd as [Hl Hd]. exists ls'. split; simpl.
  - by apply seg_delete_fresh, seg_alter_fresh.
  - destruct Hs' as [|l' n' ls'' ms'' Hn' Hs'']; [done|]. rewrite Ht. done.
  - done.
  - rewrite dom_delete_L, dom_alter_L, Hdom. specialize (Hdis l ltac:(set_solver)). set_solver.
  - intros x Hx. apply Hdis. set_solver.
  - intros x. rewrite dom_delete_L, dom_alter_L. intros Hx. apply Hf. set_solver.
Qed.

Lemma destroy_loop_queue h p ls ms fuel :
  seg h p ls ms -> NoDup ls -> (length ls <= fuel)%nat ->
  exists h', destroy_loop fuel h p = Some h' /\ dom h' = dom h ∖ list_to_set ls.
Proof.
  intros Hs. revert fuel h Hs. revert p ms.
  induction ls as [|l ls IH]; intros p ms fuel h Hs Hd Hf; inversion Hs; subst.
  - exists h. split; [by destruct fuel | set_solver].
  - destruct fuel as [|f]; [simpl in Hf; lia|]. simpl.
    match goal with H : h !! l = Some _ |- _ => rewrite H end.
    apply NoDup_cons in Hd as [Hl Hd].
    edestruct (IH (next n) ms0 f (delete l h)) as (h' & E & Hdom);
      [by apply seg_delete_fresh | done | simpl in Hf; lia|].
    exists h'. split; [done|]. rewrite Hdom, dom_delete_L. set_solver.
Qed.

(** The callbacks keep what the session represents. *)
Lemma is_queue_ext s s' ms own :
  nodes s' = nodes s -> messages_head s' = messages_head s ->
  messages_tail s' = messages_tail s -> next_node s' = next_node s ->
  is_queue s ms own -> is_queue s' ms own.
Proof.
  intros E1 E2 E3 E4 (ls & [Hs Ht Hd Hdom Hdis Hf]). exists ls.
  split; rewrite ?E1, ?E2, ?E3, ?E4; done.
Qed.

Lemma wsclient_session_feed_queue `{Wok : !WslayOk W} s d ms own :
  is_queue s ms own ->
  exists new, is_queue (fst (wsclient_session_feed s d)) (ms ++ new) own.
Proof.
  intros Hq. unfold wsclient_session_feed.
  pose proof (recv_frame wsclient_session_t (context s) wsclient_recv_callback wsclient_on_message
                (fun s => exists new, is_queue s (ms ++ new) own) (set_input d 0 s)) as H.
  destruct (wslay_event_recv _ _ _ _ _) as [[ctx s'] rc]. simpl in *.
  destruct H as [new Hnew].
  - intros n s0 [new H]. exists new. unfold wsclient_recv_callback.
    case_if; simpl; [done|]. by eapply is_queue_ext; [..|exact H].
  - intros m s0 [new H]. eexists. rewrite app_assoc. by apply wsclient_on_message_queue.
  - exists []. rewrite app_nil_r. by eapply is_queue_ext; [..|exact Hq].
  - exists new. by eapply is_queue_ext; [..|exact Hnew].
Qed.

Lemma wsclient_session_send_queue `{Wok : !WslayOk W} s op d ms own :
  is_queue s ms own -> is_queue (fst (wsclient_session_send s op d)) ms own.
Proof.
  intros Hq. unfold wsclient_session_send.
  destruct (wslay_event_queue_msg _ _ _) as [ctx|]; [|done].
  pose proof (send_frame wsclient_session_t ctx wsclient_send_callback wsclient_genmask_callback
                (fun s => is_queue s ms own) (set_context ctx s)) as H.
  destruct (wslay_event_send _ _ _ _ _) as [[ctx' s'] rc]. simpl in *.
  eapply is_queue_ext; [..|apply H]; [done..| |].
  - intros b s0 H0. unfold wsclient_send_callback. destruct (php_stream_write _ _).
    simpl. by eapply is_queue_ext; [..|exact H0].
  - by eapply is_queue_ext; [..|exact Hq].
Qed.

(** ** Properties of the session and the connection *)

(** Tearing a session down frees every queued node exactly once: the loop
    never follows a dangling pointer and leaves nothing allocated. *)
Theorem wsclient_session_destroy_frees_all (s : wsclient_session_t) (ms : list (bytes * bool)) :
  is_queue s ms ∅ -> wsclient_session_destroy s = Some ∅.
Proof.
  intros (ls & [Hs Ht Hd Hdom Hdis Hf]). unfold wsclient_session_destroy.
  destruct (destroy_loop_queue _ _ _ _ (size (nodes s)) Hs Hd) as (h' & E & Hd').
  - rewrite <- size_dom, Hdom. rewrite size_union by set_solver.
    rewrite size_list_to_set by done. lia.
  - rewrite E. f_equal. apply dom_empty_inv_L. set_solver.
Qed.

(** [receive] is a FIFO over everything the frame engine delivers.  From a
    session that holds [ms], whatever [receive] does (return a queued message,
    or read and feed any number of chunks first), the messages are [ms] followed
    by those newly delivered; a returned message is the oldest of them and the
    session holds the rest, with nothing leaked. *)
Theorem method_receive_fifo `{Wok : !WslayOk W} (fuel : nat) (c : wsclient_connection_object)
    (s : wsclient_session_t) (ms : list (bytes * bool)) :
  conn_session c = Some s -> is_queue s ms ∅ ->
  exists new s',
    conn_session (snd (method_receive fuel c)) = Some s' /\
    match fst (method_receive fuel c) with
    | ReceiveMessage d b => exists rest, ms ++ new = (d, b) :: rest /\ is_queue s' rest ∅
    | _ => is_queue s' (ms ++ new) ∅
    end.
Proof.
  intros Hc Hq. unfold method_receive. rewrite Hc. destruct (closed c).
  { exists [], s. split; [done|]. by rewrite app_nil_r. }
  clear Hc. revert s ms Hq. induction fuel as [|f IH]; intros s ms Hq; simpl.
  - destruct ms as [|[d b] ms].
    + rewrite (wsclient_session_pop_empty _ _ Hq). exists [], s. done.
    + destruct (wsclient_session_pop_cons _ _ _ _ _ Hq) as (l & s1 & s2 & -> & E & Hq2 & _).
      rewrite E. exists [], s2. split; [done|]. exists ms. by rewrite app_nil_r.
  - destruct ms as [|[d b] ms].
    + rewrite (wsclient_session_pop_empty _ _ Hq).
      destruct (php_stream_read _ _) as [[buffer|] st].
      * assert (is_queue (set_stream st s) [] ∅) as Hq1 by (by eapply is_queue_ext; [..|exact Hq]).
        destruct (wsclient_session_feed_queue (set_stream st s) buffer [] ∅ Hq1) as [new Hnew].
        destruct (wsclient_session_feed _ _) as [s2 rc]. simpl in *.
        case_if; [by exists new, s2|].
        destruct (IH s2 new Hnew) as (new' & s' & H1 & H2). exists (new ++ new'), s'. done.
      * exists [], (set_stream st s). split; [done|]. by eapply is_queue_ext; [..|exact Hq].
    + destruct (wsclient_session_pop_cons _ _ _ _ _ Hq) as (l & s1 & s2 & -> & E & Hq2 & _).
      rewrite E. exists [], s2. split; [done|]. exists ms. by rewrite app_nil_r.
Qed.

(** wslay reports control frames through the same callback as data frames,
    and [wsclient_on_message] queues whatever it is handed: a ping, pong or
    close frame comes out of [receive] as a text message. *)
Theorem wsclient_on_message_queues_control (s : wsclient_session_t) (op : Z) (payload : bytes)
    (c : wsclient_connection_object) :
  is_queue s [] ∅ -> In op [WSLAY_CONNECTION_CLOSE; WSLAY_PING; WSLAY_PONG] ->
  conn_session c = Some (wsclient_on_message {| opcode := op; msg := payload |} s) ->
  closed c = false ->
  fst (method_receive 0 c) = ReceiveMessage payload false.
Proof.
  intros Hq Hop Hc Hcl. unfold method_receive. rewrite Hc, Hcl. simpl.
  apply (wsclient_on_message_queue {| opcode := op; msg := payload |}) in Hq.
  assert ((op =? WSLAY_BINARY_FRAME) = false) as Hb
    by (repeat (destruct Hop as [<- | Hop]; [done|]); done).
  simpl in Hq. rewrite Hb in Hq.
  destruct (wsclient_session_pop_cons _ _ _ _ _ Hq) as (l & s1 & s2 & -> & E & _). by rewrite E.
Qed.

(** One call of a method on a connection. *)
Inductive client_step : wsclient_connection_object -> wsclient_connection_object -> Prop :=
  | step_send c d b : client_step c (fst (method_send c d b))
  | step_receive c fuel : client_step c (snd (method_receive fuel c))
  | step_close c : client_step c (method_close c).

(** What holds of a connection between calls: the stream pointer is dropped only
    by closing, the session represents a queue, no subprotocol is recorded. *)
Record conn_ok (c : wsclient_connection_object) : Prop := {
  co_stream : conn_stream c = false -> closed c = true;
  co_queue : exists s ms, conn_session c = Some s /\ is_queue s ms ∅;
  co_subprotocol : subprotocol c = None;
}.

Lemma receive_loop_fields fuel c s :
  conn_stream (snd (receive_loop fuel c s)) = conn_stream c /\
  subprotocol (snd (receive_loop fuel c s)) = subprotocol c /\
  (closed c = true -> closed (snd (receive_loop fuel c s)) = true).
Proof.
  revert s. induction fuel as [|f IH]; intros s; simpl;
    destruct (wsclient_session_pop s) as [[l|] s1]; try (destruct (take_node l s1); done); [done|].
  destruct (php_stream_read _ _) as [[buffer|] st]; [|done].
  destruct (wsclient_session_feed _ _) as [s2 rc]. case_if; [done | apply IH].
Qed.

Lemma conn_ok_step `{Wok : !WslayOk W} c c' : client_step c c' -> conn_ok c -> conn_ok c'.
Proof.
  intros Hst [Hs (s & ms & Hc & Hq) Hsub]. destruct Hst as [c d b | c fuel | c].
  - pose proof (fun op => wsclient_session_send_queue s op d ms ∅ Hq) as Hsend.
    unfold method_send. destruct (closed c) eqn:Ecl; [split; simpl; eauto|].
    rewrite Hc. destruct (wsclient_session_send s _ d) as [s' rc] eqn:E.
    specialize (Hsend (if b then WSLAY_BINARY_FRAME else WSLAY_TEXT_FRAME)).
    rewrite E in Hsend. case_if; split; simpl; eauto.
  - destruct (method_receive_fifo fuel c s ms Hc Hq) as (new & s' & Hs' & Hr).
    split; [| |].
    + unfold method_receive. rewrite Hc. destruct (closed c) eqn:Ecl; [done|]. simpl.
      destruct (receive_loop_fields fuel c s) as (-> & _). intros H. by apply Hs in H.
    + destruct (fst (method_receive fuel c)); [eauto| |eauto].
      destruct Hr as (rest & _ & Hr). eauto.
    + unfold method_receive. rewrite Hc. destruct (closed c); [done|].
      destruct (receive_loop_fields fuel c s) as (_ & -> & _). done.
  - unfold method_close. rewrite Hc. split; simpl; [done| |].
    + destruct (closed c); simpl; [eauto|].
      eexists _, _. split; [done|]. by apply wsclient_session_send_queue.
    + by destruct (closed c).
Qed.

Lemma wsclient_session_create_queue st s : wsclient_session_create (Some st) = Some s -> is_queue s [] ∅.
Proof.
  unfold wsclient_session_create. destruct wslay_event_context_client_init; [|done].
  intros [= <-]. exists []. split; simpl; [constructor | done | constructor | set_solver..].
Qed.

Lemma connection_adopt_ok `{Wok : !WslayOk W} st response e c :
  connection_adopt st response e = Connected c -> conn_ok c /\ closed c = false.
Proof.
  unfold connection_adopt. destruct (wsclient_session_create _) as [s|] eqn:E; [|done].
  apply wsclient_session_create_queue in E. case_if.
  - destruct (wsclient_session_feed_queue s (drop e response) [] ∅ E) as [new Hn].
    destruct (wsclient_session_feed _ _) as [s' rc]. case_if; [done|]. intros [= <-].
    split; [|done]. split; simpl; eauto.
  - intros [= <-]. split; [|done]. split; simpl; eauto.
Qed.

Lemma wsclient_connection_create_inv url headers protocols c :
  wsclient_connection_create url headers protocols = Connected c ->
  exists st au ta, connection_handshake st au ta headers protocols = Connected c.
Proof.
  unfold wsclient_connection_create. destruct (php_url_parse url) as [[u hp]|]; [|done].
  destruct (scheme u); [|done]. destruct (host u); [|done].
  case_if; [done|]. case_if; [done|]. destruct (wsclient_open_stream _ _ _); [|done]. eauto.
Qed.

Lemma connection_handshake_adopt st au ta headers protocols c :
  connection_handshake st au ta headers protocols = Connected c ->
  exists rnd k expected request st1 response e st2,
    php_random_bytes 16 = Some rnd /\ php_base64_encode rnd = Some k /\
    wsclient_compute_accept (Some k) = Some expected /\
    wsclient_build_request (Some au) (Some ta) k headers protocols = Some request /\
    write_all (length request) st request = Some (true, st1) /\
    read_response (S (Z.to_nat WSCLIENT_MAX_HEADERS)) st1 [] = ReadDone response e st2 /\
    wsclient_validate_response (take e response) expected = true /\
    connection_adopt st2 response e = Connected c.
Proof.
  unfold connection_handshake. intros H.
  destruct (php_random_bytes 16) as [rnd|] eqn:E0; [|done].
  destruct (php_base64_encode rnd) as [k|] eqn:E1; [|done].
  destruct (wsclient_compute_accept (Some k)) as [expected|] eqn:E2; [|done].
  destruct (wsclient_build_request _ _ _ _ _) as [request|] eqn:E3; [|done].
  destruct (write_all _ _ _) as [[[|] st1]|] eqn:E4; try done.
  destruct (read_response _ _ _) as [| | |response e st2] eqn:E5; try done.
  case_if_in H; [|done].
  exists rnd, k, expected, request, st1, response, e, st2. repeat split; assumption.
Qed.

(** After any sequence of calls on a connection that [connect] returned, the
    connection is in order: the stream pointer is NULL only if the connection is
    closed (so no method reads or writes a freed stream), the session's nodes
    form a queue with nothing leaked, and [getSubprotocol] is still NULL: the
    subprotocol the server chose is never recorded. *)
Theorem client_reachable_ok `{Wok : !WslayOk W} (url : bytes) (headers protocols : option php_array)
    (c0 c : wsclient_connection_object) :
  wsclient_connection_create url headers protocols = Connected c0 ->
  rtc client_step c0 c ->
  conn_ok c /\ method_getSubprotocol c = None.
Proof.
  intros (st & au & ta & Hh)%wsclient_connection_create_inv Hr.
  apply connection_handshake_adopt in Hh as (? & ? & ? & ? & ? & ? & ? & ? & _ & _ & _ & _ & _ & _ & _ & Ha).
  apply connection_adopt_ok in Ha as [Hok _].
  assert (conn_ok c) as Hc by (induction Hr; eauto using conn_ok_step).
  split; [done | apply Hc].
Qed.

(** Closing is final.  [close], a failed [send] and a failed read leave the
    connection closed; on a closed connection [receive] returns NULL and [send]
    throws, and neither changes it (in particular no byte is written). *)
Theorem client_closed_absorbing (c : wsclient_connection_object) (fuel : nat) (d : bytes) (b : bool) :
  closed (method_close c) = true /\
  (snd (method_send c d b) = false -> closed (fst (method_send c d b)) = true) /\
  (closed c = true ->
     method_receive fuel c = (ReceiveNull, c) /\ method_send c d b = (c, false) /\
     conn_session (method_close c) = conn_session c).
Proof.
  split; [done|]. split.
  - unfold method_send. destruct (closed c); [done|]. destruct (conn_session c); [|done].
    destruct (wsclient_session_send _ _ _). by case_if.
  - intros Hc. unfold method_receive, method_send, method_close. rewrite Hc. split.
    + by destruct (conn_session c).
    + split; [|by destruct (conn_session c) eqn:E]. unfold set_closed. destruct c; simpl in *. by subst.
Qed.

Section runtime.
Context `{Rok : !PhpRuntimeOk R}.

Lemma write_all_ok fuel st rest ok st' :
  write_all fuel st rest = Some (ok, st') -> ok = true -> written st' = written st ++ rest.
Proof.
  revert st rest. induction fuel as [|f IH]; intros st rest; destruct rest as [|x rest]; simpl.
  1, 3: intros [= <- <-] _; by rewrite app_nil_r.
  - done.
  - destruct (php_stream_write st (x :: rest)) as [n st1] eqn:E.
    case_if; [by intros [= <- <-]|]. b2p. intros H Hok.
    apply write_prefix in E as [_ Hw]; [|done]. rewrite (IH _ _ H Hok), Hw, <- app_assoc.
    by rewrite take_drop.
Qed.

Lemma write_all_total fuel st rest : (length rest <= fuel)%nat -> write_all fuel st rest <> None.
Proof.
  revert st rest. induction fuel as [|f IH]; intros st rest Hf; destruct rest as [|x rest]; simpl; try done.
  { simpl in Hf. lia. }
  destruct (php_stream_write st (x :: rest)) as [n st1] eqn:E. case_if; [done|]. b2p.
  apply write_prefix in E as [Hn _]; [|done]. apply IH. rewrite length_drop. simpl in *. lia.
Qed.

Lemma read_response_ok fuel st response r e st' :
  read_response fuel st response = ReadDone r e st' ->
  wsclient_header_end r = Some e /\ written st' = written st.
Proof.
  revert st response. induction fuel as [|f IH]; intros st response; cbn [read_response].
  - destruct (wsclient_header_end response) eqn:E; [|done]. by intros [= <- <- <-].
  - destruct (wsclient_header_end response) eqn:E; [by intros [= <- <- <-]|].
    destruct (php_stream_read _ _) as [[buffer|] st1] eqn:Er; [|done].
    apply read_bounds in Er as [_ Hw]. case_if; [done|]. intros H%IH. by rewrite Hw in H.
Qed.

Lemma read_response_total fuel st response :
  Z.of_nat (length response) <= WSCLIENT_MAX_HEADERS ->
  WSCLIENT_MAX_HEADERS < Z.of_nat (length response) + Z.of_nat fuel ->
  read_response fuel st response <> ReadFuel.
Proof.
  revert st response. induction fuel as [|f IH]; intros st response Hl Hf; cbn [read_response].
  - lia.
  - destruct (wsclient_header_end response); [done|].
    destruct (php_stream_read _ _) as [[buffer|] st1] eqn:Er; [|done].
    apply read_bounds in Er as [Hb _]. case_if; [done|]. b2p.
    rewrite length_app in *. apply IH; rewrite length_app; lia.
Qed.

(** C36: Opening a connection always comes to an end: the write loop and the
    16 KiB-bounded read loop return for every stream. *)
Theorem wsclient_connection_create_total (url : bytes) (headers protocols : option php_array) :
  wsclient_connection_create url headers protocols <> OutOfFuel.
Proof.
  unfold wsclient_connection_create. destruct (php_url_parse url) as [[u hp]|]; [|done].
  destruct (scheme u); [|done]. destruct (host u); [|done].
  case_if; [done|]. case_if; [done|]. destruct (wsclient_open_stream _ _ _) as [st|]; [|done].
  unfold connection_handshake. destruct (php_random_bytes 16) as [rnd|]; [|done].
  destruct (php_base64_encode rnd) as [k|]; [|done].
  destruct (wsclient_compute_accept (Some k)); [|done].
  destruct (wsclient_build_request _ _ _ _ _) as [request|]; [|done].
  destruct (write_all _ _ _) as [[[|] st1]|] eqn:E; [|done|by apply write_all_total in E].
  destruct (read_response _ _ _) eqn:Er; [done|done| |].
  - exfalso. revert Er. apply read_response_total; [done|].
    rewrite Nat2Z.inj_succ, Z2Nat.id by done. simpl. lia.
  - case_if; [|done]. unfold connection_adopt. destruct (wsclient_session_create _); [|done].
    case_if; [|done]. destruct (wsclient_session_feed _ _). by case_if.
Qed.

(** A connection is only handed out after a complete, verified handshake:
    the bytes written to the stream are the whole request, in order, made for a
    fresh 16-byte nonce; and the response head, up to its first blank line, was
    validated against the accept value of that very key. *)
Theorem wsclient_connection_create_sound (url : bytes) (headers protocols : option php_array)
    (c : wsclient_connection_object) :
  wsclient_connection_create url headers protocols = Connected c ->
  exists st authority target nonce key expected request st1 response e st2,
    Z.of_nat (length nonce) = 16 /\
    php_base64_encode nonce = Some key /\
    wsclient_compute_accept (Some key) = Some expected /\
    wsclient_build_request (Some authority) (Some target) key headers protocols = Some request /\
    written st1 = written st ++ request /\ written st2 = written st1 /\
    wsclient_header_end response = Some e /\
    wsclient_validate_response (take e response) expected = true /\
    connection_adopt st2 response e = Connected c.
Proof.
  intros (st & au & ta & Hh)%wsclient_connection_create_inv.
  apply connection_handshake_adopt in Hh
    as (rnd & k & ex & req & st1 & resp & e & st2 & Hr & Hb & Hc & Hq & Hw & Hrd & Hv & Ha).
  exists st, au, ta, rnd, k, ex, req, st1, resp, e, st2.
  apply random_length in Hr; [|done]. apply write_all_ok in Hw; [|done].
  apply read_response_ok in Hrd as [He Hw2]. repeat split; assumption.
Qed.

End runtime.
End client.

(** ** A concrete environment

    A stream that records what is written and replays a fixed list of chunks,
    and a frame engine that delivers each chunk it is fed as one text message:
    an instance on which the properties above are evaluated. *)
Record demo_stream := { demo_written : bytes; demo_chunks : list bytes }.

Definition demo_read (st : demo_stream) (n : Z) : option bytes * demo_stream :=
  match demo_chunks st with
  | [] => (None, st)
  | c :: cs =>
      if (length c =? 0)%nat || (n <? Z.of_nat (length c)) then (None, st)
      else (Some c, {| demo_written := demo_written st; demo_chunks := cs |})
  end.

Definition demo_runtime (chunks : list bytes) : PhpRuntime := {|
  php_stream := demo_stream;
  php_stream_xport_create := fun _ => Some {| demo_written := []; demo_chunks := chunks |};
  php_stream_write := fun st b =>
    (Z.of_nat (length b), {| demo_written := demo_written st ++ b; demo_chunks := demo_chunks st |});
  php_stream_read := demo_read;
  php_url_parse := fun u =>
    Some ({| scheme := Some (lit "ws"); user := None; pass := None; host := Some u; port := 0;
             path := Some (lit "/chat"); query := None; fragment := None |}, false);
  php_random_bytes := fun n => Some (replicate (Z.to_nat (Z.max 0 n)) 7);
|}.

#[export] Instance demo_wslay : Wslay := {|
  wslay_ctx := list (Z * bytes);
  wslay_event_context_client_init := Some [];
  wslay_event_config_set_max_recv_msg_length := fun c _ => c;
  wslay_event_recv := fun S c rd om s =>
    match rd 4096%nat s with
    | (Some b, s') => (c, om {| opcode := WSLAY_TEXT_FRAME; msg := b |} s', 0)
    | (None, s') => (c, s', 0)
    end;
  wslay_event_queue_msg := fun c op d => Some (c ++ [(op, d)]);
  wslay_event_send := fun S c sd gm s => ([], snd (sd (concat (map snd c)) s), 0);
|}.

#[export] Instance demo_wslay_ok : WslayOk demo_wslay.
Proof.
  split.
  - intros S w rd om P s Hrd Hom Hs. simpl. pose proof (Hrd 4096%nat s Hs) as H.
    destruct (rd 4096%nat s) as [[b|] s']; simpl in *; [by apply Hom | done].
  - intros S w sd gm P s Hsd Hs. simpl. by apply Hsd.
Qed.

Lemma demo_written_prefix chunks st b n st' :
  @php_stream_write (demo_runtime chunks) st b = (n, st') -> 0 < n ->
  n <= Z.of_nat (length b) /\ demo_written st' = demo_written st ++ take (Z.to_nat n) b.
Proof.
  simpl. intros [= <- <-] _. split; [done|]. simpl. by rewrite Nat2Z.id, firstn_all.
Qed.

#[export] Instance demo_runtime_ok chunks : PhpRuntimeOk (demo_runtime chunks).
Proof.
  refine {| written := (demo_written : @php_stream (demo_runtime chunks) -> bytes) |}.
  - apply demo_written_prefix.
  - intros st n b st'. simpl. unfold demo_read. destruct (demo_chunks st) as [|c cs]; [done|].
    destruct (Nat.eqb_spec (length c) 0); [done|]. cbn [orb]. case_if; [done|].
    intros [= <- <-]. b2p. split; [lia | done].
  - intros n b Hn. simpl. intros [= <-]. rewrite length_replicate. lia.
Defined.

(** What the demo server answers to the demo client's nonce, and a first frame. *)
Definition demo_accept : bytes :=
  default [] (php_base64_encode (replicate 16 7) ≫= WsHandshake.ws_handshake_compute_accept).

Definition demo_chunks_in : list bytes :=
  [lit "HTTP/1.1 101"; drop 12 (WsHandshake.ws_handshake_build_101_response demo_accept None 0) ++ lit "hello";
   lit "world"].

#[local] Existing Instance demo_crypto.
Abbreviation demo_env := (demo_runtime demo_chunks_in).

Definition demo_connect : connect_result :=
  wsclient_connection_create (R := demo_env) (lit "example.org") None None.

Definition demo_session : wsclient_session_t (R := demo_env) :=
  {| context := ([] : @wslay_ctx demo_wslay);
     stream := ({| demo_written := []; demo_chunks := [lit "later"] |} : @php_stream demo_env);
     input := []; input_pos := 0; nodes := ∅; next_node := 0;
     messages_head := None; messages_tail := None |}.

Lemma demo_session_queue : is_queue (R := demo_env) demo_session [] ∅.
Proof. exists []. split; simpl; [constructor | done | constructor | set_solver..]. Qed.

Lemma wsclient_session_destroy_witness :
  wsclient_session_destroy (R := demo_env)
    (wsclient_on_message {| opcode := 2; msg := lit "b" |}
       (wsclient_on_message {| opcode := 1; msg := lit "a" |} demo_session)) = Some ∅.
Proof.
  eapply wsclient_session_destroy_frees_all.
  apply wsclient_on_message_queue, wsclient_on_message_queue, demo_session_queue.
Defined.

(** A connection on the given session. *)
Definition demo_conn (s : wsclient_session_t (R := demo_env)) : wsclient_connection_object (R := demo_env) :=
  {| conn_stream := true; conn_session := Some s; subprotocol := None; closed := false |}.

Lemma method_receive_fifo_witness :
  exists new s',
    conn_session (snd (method_receive (R := demo_env) 3 (demo_conn demo_session))) = Some s' /\
    exists rest, new = (lit "later", false) :: rest /\ is_queue s' rest ∅.
Proof.
  destruct (method_receive_fifo (R := demo_env) 3 (demo_conn demo_session) demo_session [] eq_refl demo_session_queue)
    as (new & s' & H1 & H2).
  exists new, s'. split; [exact H1|]. exact H2.
Defined.

Lemma wsclient_on_message_control_witness :
  fst (method_receive (R := demo_env) 0
         (demo_conn (wsclient_on_message {| opcode := WSLAY_PING; msg := lit "are you there" |} demo_session)))
  = ReceiveMessage (lit "are you there") false.
Proof.
  apply (wsclient_on_message_queues_control (R := demo_env) demo_session WSLAY_PING (lit "are you there"));
    [apply demo_session_queue | right; left; reflexivity | reflexivity | reflexivity].
Defined.

Lemma client_reachable_ok_witness :
  exists c0, demo_connect = Connected c0 /\ method_getSubprotocol (R := demo_env) (method_close c0) = None.
Proof.
  eexists. split; [vm_compute; reflexivity|].
  eapply (client_reachable_ok (R := demo_env) (lit "example.org") None None);
    [vm_compute; reflexivity | apply rtc_once, step_close].
Defined.

Lemma client_closed_absorbing_witness :
  closed (method_close (R := demo_env) (demo_conn demo_session)) = true /\
  method_receive (R := demo_env) 5 (method_close (demo_conn demo_session)) =
    (ReceiveNull, method_close (demo_conn demo_session)).
Proof.
  split; [reflexivity|].
  apply (client_closed_absorbing (R := demo_env) (method_close (demo_conn demo_session)) 5 [] false).
  reflexivity.
Defined.

Lemma wsclient_connection_create_total_witness : demo_connect <> OutOfFuel.
Proof. apply (wsclient_connection_create_total (R := demo_env)). Defined.

Lemma wsclient_connection_create_sound_witness :
  exists c key expected response e,
    demo_connect = Connected c /\ wsclient_compute_accept (Some key) = Some expected /\
    wsclient_header_end response = Some e /\
    wsclient_validate_response (take e response) expected = true.
Proof.
  assert (exists c, demo_connect = Connected c) as [c Hc] by (eexists; vm_compute; reflexivity).
  destruct (wsclient_connection_create_sound (R := demo_env) (lit "example.org") None None c Hc)
    as (st & au & ta & nonce & key & ex & req & st1 & resp & e & st2 & _ & _ & H1 & _ & _ & _ & H2 & H3 & _).
  exists c, key, ex, resp, e. split; [exact Hc|]. split; [exact H1|]. split; [exact H2 | exact H3].
Defined.

End WsClientConn.
