(* ===== verification/TopicFilter.v ===== *)
(** * Topic names and filters

    Models the parsing half of src/src/websocket/ws_topic_tree.c: splitting a
    topic into levels, validity of names and filters, and the level prefixes
    that the interest filter of topic_hub.c hashes.  The reference notions are
    the list of levels ([split_on] at the slash) and MQTT matching ([matches]). *)

From S2P Require Import Prelude.

Module TopicFilter.

Definition WS_TOPIC_MAX_LEVELS : nat := 128.

(** A level: its offset in the topic and its bytes.  The C struct keeps a
    pointer into the topic and a length. *)
Record level_t := { off : nat; lvl : bytes }.

(** The scan of [ws_topic_split]: [start] is the offset of the current level,
    [cur] its bytes so far, [out] the levels already closed. *)
Fixpoint ws_topic_split_loop (rest cur : bytes) (start : nat) (out : list level_t)
    : option (list level_t) :=
  match rest with
  | [] =>
      if (length out =? WS_TOPIC_MAX_LEVELS)%nat then None
      else Some (out ++ [{| off := start; lvl := cur |}])
  | c :: rest' =>
      if negb (c =? SLASH) then ws_topic_split_loop rest' (cur ++ [c]) start out
      else if (length out =? WS_TOPIC_MAX_LEVELS)%nat then None
      else ws_topic_split_loop rest' [] (start + length cur + 1)
             (out ++ [{| off := start; lvl := cur |}])
  end.

Definition ws_topic_split (topic : bytes) : option (list level_t) :=
  if (length topic =? 0)%nat then None else ws_topic_split_loop topic [] 0 [].

Definition is_plus (level : bytes) : bool := eqb_bytes level [PLUS].
Definition is_hash (level : bytes) : bool := eqb_bytes level [HASH].

(** The level loop of [ws_topic_check]; the last level is the one with nothing
    after it. *)
Fixpoint ws_topic_check_loop (levels : list level_t) (wildcards_ok : bool) : bool :=
  match levels with
  | [] => true
  | l :: rest =>
      if is_plus (lvl l) || is_hash (lvl l) then
        if negb wildcards_ok then false
        else if is_hash (lvl l) && negb (length rest =? 0)%nat then false
        else ws_topic_check_loop rest wildcards_ok
      else if mem_byte PLUS (lvl l) || mem_byte HASH (lvl l) then false
      else ws_topic_check_loop rest wildcards_ok
  end.

Definition ws_topic_check (topic : bytes) (wildcards_ok : bool) : bool :=
  match ws_topic_split topic with
  | None => false
  | Some levels => ws_topic_check_loop levels wildcards_ok
  end.

Definition ws_topic_is_valid_filter (topic : bytes) : bool := ws_topic_check topic true.
Definition ws_topic_is_valid_name (topic : bytes) : bool := ws_topic_check topic false.

(** The loop of [ws_topic_interest_prefix]: end of the last level before the
    first wildcard. *)
Fixpoint interest_prefix_loop (levels : list level_t) (prefix : nat) : nat :=
  match levels with
  | [] => prefix
  | l :: rest =>
      if is_plus (lvl l) || is_hash (lvl l) then prefix
      else interest_prefix_loop rest (off l + length (lvl l))
  end.

Definition ws_topic_interest_prefix (filter : bytes) : nat :=
  match ws_topic_split filter with
  | None => 0
  | Some levels => interest_prefix_loop levels 0
  end.

(** Every level-prefix length of a topic, the empty one first. *)
Definition ws_topic_prefixes (topic : bytes) : option (list nat) :=
  match ws_topic_split topic with
  | None => None
  | Some levels => Some (0%nat :: map (fun l => (off l + length (lvl l))%nat) levels)
  end.

(** ** Reference notions *)

(** MQTT matching of filter levels against topic levels: [+] stands for exactly
    one level, [#] for any remainder including none. *)
Inductive matches : list bytes -> list bytes -> Prop :=
  | m_end : matches [] []
  | m_hash ls : matches [[HASH]] ls
  | m_plus fs l ls : matches fs ls -> matches ([PLUS] :: fs) (l :: ls)
  | m_literal l fs ls :
      is_plus l = false -> is_hash l = false -> matches fs ls -> matches (l :: fs) (l :: ls).

(** Attaching offsets to consecutive levels. *)
Fixpoint with_offsets (start : nat) (ls : list bytes) : list level_t :=
  match ls with
  | [] => []
  | l :: rest => {| off := start; lvl := l |} :: with_offsets (start + length l + 1) rest
  end.

Lemma with_offsets_length s ls : length (with_offsets s ls) = length ls.
Proof. revert s. induction ls; intros; simpl; auto. Qed.

Lemma with_offsets_lvl s ls : map lvl (with_offsets s ls) = ls.
Proof. revert s. induction ls as [|l ls IH]; intros s; simpl; [done|]. by rewrite IH. Qed.

(** Prepending the scanned bytes to the first level of the rest. *)
Definition prepend (cur : bytes) (ls : list bytes) : list bytes :=
  match ls with [] => [cur] | l :: rest => (cur ++ l) :: rest end.

Lemma ws_topic_split_loop_spec rest cur start out :
  (length out <= WS_TOPIC_MAX_LEVELS)%nat ->
  ws_topic_split_loop rest cur start out =
    let ls := prepend cur (split_on SLASH rest) in
    if (length out + length ls <=? WS_TOPIC_MAX_LEVELS)%nat
    then Some (out ++ with_offsets start ls) else None.
Proof.
  revert cur start out. induction rest as [|c rest IH]; intros cur start out Hout;
    cbn [ws_topic_split_loop split_on].
  - cbn [prepend length]. rewrite app_nil_r.
    destruct (Nat.eqb_spec (length out) WS_TOPIC_MAX_LEVELS);
      destruct (Nat.leb_spec (length out + 1) WS_TOPIC_MAX_LEVELS); try lia; done.
  - destruct (c =? SLASH) eqn:E; cbn [negb].
    + cbn [prepend length]. rewrite app_nil_r.
      pose proof (split_on_nonempty SLASH rest) as Hne.
      destruct (split_on SLASH rest) as [|l ls] eqn:Es; [done|].
      destruct (Nat.eqb_spec (length out) WS_TOPIC_MAX_LEVELS) as [Hm|Hm].
      { destruct (Nat.leb_spec (length out + S (length (l :: ls))) WS_TOPIC_MAX_LEVELS); [lia | done]. }
      rewrite IH by (rewrite length_app; simpl; lia).
      cbn [prepend app length with_offsets]. rewrite length_app, <- app_assoc. simpl.
      replace (length out + 1 + S (length ls))%nat with (length out + S (S (length ls)))%nat by lia.
      done.
    + rewrite IH by done. pose proof (split_on_nonempty SLASH rest) as Hne.
      destruct (split_on SLASH rest) as [|l ls]; [done|].
      cbn [prepend]. by rewrite <- app_assoc.
Qed.

(** Splitting is splitting at slashes, limited to 128 levels. *)
Lemma ws_topic_split_spec topic :
  ws_topic_split topic =
    if negb (length topic =? 0)%nat && (length (split_on SLASH topic) <=? WS_TOPIC_MAX_LEVELS)%nat
    then Some (with_offsets 0 (split_on SLASH topic)) else None.
Proof.
  unfold ws_topic_split. destruct (length topic =? 0)%nat; [done|]. cbn [negb andb].
  rewrite ws_topic_split_loop_spec by (simpl; lia).
  pose proof (split_on_nonempty SLASH topic). by destruct (split_on SLASH topic).
Qed.

Lemma ws_topic_split_levels topic levels :
  ws_topic_split topic = Some levels ->
  levels = with_offsets 0 (split_on SLASH topic) /\ map lvl levels = split_on SLASH topic.
Proof.
  rewrite ws_topic_split_spec. case_if; [|done]. intros [= <-]. by rewrite with_offsets_lvl.
Qed.

(** Two filters with the same levels are the same filter. *)
Lemma split_on_inj a b : split_on SLASH a = split_on SLASH b -> a = b.
Proof. intros H. rewrite <- (join_split SLASH a), <- (join_split SLASH b). by rewrite H. Qed.

(** ** Level prefixes *)

Lemma join_take_prefix k ls :
  (0 < k)%nat -> exists rest, join_with [SLASH] ls = join_with [SLASH] (take k ls) ++ rest.
Proof.
  revert k. induction ls as [|l ls IH]; intros k Hk; [exists []; by rewrite take_nil|].
  destruct k as [|k]; [lia|]. destruct ls as [|l' ls].
  - exists []. simpl. rewrite take_nil. by rewrite app_nil_r.
  - destruct k as [|k].
    + simpl. by eexists.
    + destruct (IH (S k)) as [rest E]; [lia|]. exists rest.
      cbn [take join_with] in *. rewrite E, <- !app_assoc. done.
Qed.

Lemma ends_lookup s ls i :
  (i < length ls)%nat ->
  map (fun l => (off l + length (lvl l))%nat) (with_offsets s ls) !! i =
    Some (s + length (join_with [SLASH] (take (S i) ls)))%nat.
Proof.
  revert s i. induction ls as [|l ls IH]; intros s i Hi; [simpl in Hi; lia|].
  destruct i as [|i]; [done|]. cbn [with_offsets map off lvl lookup list_lookup].
  rewrite IH by (simpl in Hi; lia). f_equal.
  destruct ls as [|l' ls]; [simpl in Hi; lia|].
  cbn [take join_with]. rewrite !length_app. cbn [length]. lia.
Qed.

(** The leading levels a filter shares with every topic it matches. *)
Lemma interest_prefix_matches fs ts s prefix :
  matches fs ts ->
  exists k, (k <= length ts)%nat /\ take k fs = take k ts /\ (k <= length fs)%nat /\
    interest_prefix_loop (with_offsets s fs) prefix =
      match k with O => prefix | S _ => (s + length (join_with [SLASH] (take k fs)))%nat end.
Proof.
  intros H. revert s prefix. induction H as [|ls|fs l ls _ _|l fs ls Hp Hh _ IH]; intros s prefix.
  1-3: exists 0%nat; simpl; repeat split; lia.
  simpl. rewrite Hp, Hh. simpl.
  destruct (IH (s + length l + 1)%nat (s + length l)%nat) as (k & Hk & Ht & Hf & E).
  exists (S k). simpl. rewrite Ht, E. repeat split; [lia|lia|].
  destruct k as [|k]; [done|]. rewrite Ht.
  destruct ls as [|l' ls]; [simpl in Hk; lia|]. cbn [take]. rewrite !length_app. simpl. lia.
Qed.

Lemma interest_prefix_covers filter topic prefixes :
  ws_topic_split filter <> None ->
  ws_topic_prefixes topic = Some prefixes ->
  matches (split_on SLASH filter) (split_on SLASH topic) ->
  In (ws_topic_interest_prefix filter) prefixes /\
  take (ws_topic_interest_prefix filter) filter = take (ws_topic_interest_prefix filter) topic.
Proof.
  intros Hf Ht Hm. unfold ws_topic_prefixes, ws_topic_interest_prefix in *.
  destruct (ws_topic_split filter) as [fl|] eqn:Ef; [|done].
  destruct (ws_topic_split topic) as [tl|] eqn:Et; [|done]. injection Ht as <-.
  apply ws_topic_split_levels in Ef as [-> _]. apply ws_topic_split_levels in Et as [-> _].
  destruct (interest_prefix_matches _ _ 0 0 Hm) as (k & Hk & Etake & Hkf & ->).
  destruct k as [|k]; [split; [by left | done]|].
  rewrite Etake. rewrite Nat.add_0_l. split.
  - right. apply list_elem_of_In, (list_elem_of_lookup_2 _ k).
    rewrite ends_lookup by lia. done.
  - destruct (join_take_prefix (S k) (split_on SLASH filter)) as [r1 E1]; [lia|].
    destruct (join_take_prefix (S k) (split_on SLASH topic)) as [r2 E2]; [lia|].
    rewrite join_split in E1, E2. rewrite Etake in E1.
    set (J := join_with _ _) in *. clearbody J. rewrite E1, E2.
    by rewrite !take_app_length.
Qed.

(** The interest filter has no false negatives at the prefix level: when a
    filter matches a topic, the prefix the filter is registered under is one of
    the level prefixes the publisher probes, byte for byte. *)
Theorem ws_topic_interest_prefix_covers (filter topic : bytes) (prefixes : list nat) :
  ws_topic_split filter <> None ->
  ws_topic_prefixes topic = Some prefixes ->
  matches (split_on SLASH filter) (split_on SLASH topic) ->
  In (ws_topic_interest_prefix filter) prefixes /\
  take (ws_topic_interest_prefix filter) filter = take (ws_topic_interest_prefix filter) topic.
Proof. apply interest_prefix_covers. Qed.

Lemma ws_topic_interest_prefix_covers_witness :
  In (ws_topic_interest_prefix (lit "sport/tennis/+")) [0; 5; 12; 20]%nat /\
  take (ws_topic_interest_prefix (lit "sport/tennis/+")) (lit "sport/tennis/+") =
  take (ws_topic_interest_prefix (lit "sport/tennis/+")) (lit "sport/tennis/player1").
Proof.
  apply ws_topic_interest_prefix_covers; [vm_compute; discriminate | vm_compute; reflexivity|].
  apply (m_literal (lit "sport")); [reflexivity..|]. apply (m_literal (lit "tennis")); [reflexivity..|].
  apply m_plus, m_end.
Defined.

(** ** Validity *)

(** A literal level carries no wildcard character. *)
Definition plain (l : bytes) : bool := negb (mem_byte PLUS l || mem_byte HASH l).

Lemma wildcard_not_plain l : is_plus l || is_hash l = true -> plain l = false.
Proof.
  unfold is_plus, is_hash, plain. rewrite orb_true_iff, !eqb_bytes_eq. by intros [-> | ->].
Qed.

Lemma check_loop_name ls s :
  ws_topic_check_loop (with_offsets s ls) false = forallb plain ls.
Proof.
  revert s. induction ls as [|l ls IH]; intros s; simpl; [done|].
  case_if; [by rewrite wildcard_not_plain|]. rewrite IH. unfold plain.
  by destruct (mem_byte PLUS l || mem_byte HASH l).
Qed.

(** The grammar of filters: levels are plain or [+]; the last may be [#]. *)
Inductive filter_levels : list bytes -> Prop :=
  | fl_nil : filter_levels []
  | fl_hash : filter_levels [[HASH]]
  | fl_plus ls : filter_levels ls -> filter_levels ([PLUS] :: ls)
  | fl_plain l ls : plain l = true -> filter_levels ls -> filter_levels (l :: ls).

Lemma check_loop_filter ls s :
  ws_topic_check_loop (with_offsets s ls) true = true <-> filter_levels ls.
Proof.
  revert s. induction ls as [|l ls IH]; intros s; simpl; [split; [constructor | done]|].
  destruct (is_plus l) eqn:Ep; simpl.
  - apply eqb_bytes_eq in Ep as ->. change (is_hash [PLUS]) with false. simpl. rewrite IH.
    split; [apply fl_plus|]. inversion 1; subst; done.
  - destruct (is_hash l) eqn:Eh; simpl.
    + apply eqb_bytes_eq in Eh as ->. rewrite with_offsets_length.
      destruct ls as [|l' ls]; simpl; [split; [constructor | done]|].
      split; [done|]. inversion 1; subst; done.
    + destruct (mem_byte PLUS l || mem_byte HASH l) eqn:Em.
      * split; [done|]. inversion 1 as [| | |? ? Hp]; subst; try done.
        unfold plain in Hp. by rewrite Em in Hp.
      * rewrite IH. assert (plain l = true) as Hp by (unfold plain; by rewrite Em).
        split; [by apply fl_plain|]. inversion 1; subst; done.
Qed.

Lemma forallb_plain_split s : forallb plain (split_on SLASH s) = plain s.
Proof.
  induction s as [|c s IH]; [done|]. cbn [split_on].
  pose proof (split_on_nonempty SLASH s). destruct (split_on SLASH s) as [|l ls]; [done|].
  destruct (c =? SLASH) eqn:E.
  - apply Z.eqb_eq in E as ->. simpl forallb in *. rewrite IH. reflexivity.
  - simpl forallb in *. unfold plain in *. cbn [mem_byte existsb] in *. unfold mem_byte in *.
    rewrite !negb_orb in *. rewrite <- !andb_assoc in *.
    destruct (PLUS =? c), (HASH =? c); simpl; rewrite ?andb_false_r; try done.
Qed.

(** Validity is exactly the documented grammar: a name is one to 128 levels
    without [+] or [#] anywhere; a filter is one to 128 levels, each plain or
    [+], with [#] allowed as the last level only. *)
Theorem ws_topic_validity (topic : bytes) :
  (ws_topic_is_valid_name topic = true <->
     topic <> [] /\ (length (split_on SLASH topic) <= 128)%nat /\
     mem_byte PLUS topic = false /\ mem_byte HASH topic = false) /\
  (ws_topic_is_valid_filter topic = true <->
     topic <> [] /\ (length (split_on SLASH topic) <= 128)%nat /\
     filter_levels (split_on SLASH topic)).
Proof.
  unfold ws_topic_is_valid_name, ws_topic_is_valid_filter, ws_topic_check.
  rewrite ws_topic_split_spec. change WS_TOPIC_MAX_LEVELS with 128%nat.
  destruct topic as [|c t]; [split; (split; [done | by intros (? & _)])|].
  change (negb (length (c :: t) =? 0)%nat) with true. cbn [andb].
  set (topic := c :: t). assert (topic <> []) as Hne by done. clearbody topic.
  destruct (Nat.leb_spec (length (split_on SLASH topic)) 128).
  2:{ split; (split; [done|]); intros (_ & ? & _); lia. }
  rewrite check_loop_name, check_loop_filter. split; [|naive_solver].
  rewrite forallb_plain_split. unfold plain.
  destruct (mem_byte PLUS topic), (mem_byte HASH topic); naive_solver.
Qed.

End TopicFilter.
