(* ===== verification/TopicTree.v ===== *)
(** * The topic tree

    Models the tree half of src/src/websocket/ws_topic_tree.c.  Nodes are cells
    of an explicit heap, linked by addresses as the C nodes are by pointers;
    freeing removes the cell, and every access to a cell that is not there makes
    the operation fail ([None]).  That an operation returns [Some] is therefore
    the statement that it never touches freed memory.

    Sessions are addresses too.  A session's [topics] list, its id and its mark
    are kept in a table.  Delivery may tear sessions down: [try_send] says for
    each session whether the send succeeded and which sessions were unsubscribed
    from everything while it ran (the re-entrancy the source guards against). *)

From S2P Require Import Prelude TopicFilter.

Module TopicTree.
Import TopicFilter.

(** ** Data *)

Inductive ws_node_kind_t := WS_NODE_ROOT | WS_NODE_LITERAL | WS_NODE_PLUS | WS_NODE_HASH.

(** [count] of the source is the length of [subs]; [None] entries are
    tombstones. *)
Record ws_topic_node_t := {
  parent : option nat;
  kind : ws_node_kind_t;
  level : bytes;
  children : option (gmap bytes nat);
  plus : option nat;
  hash : option nat;
  subs : list (option nat);
  cap : nat;
  dead : nat;
  dirty : bool;
}.

Definition new_node (p : option nat) (k : ws_node_kind_t) (lv : bytes) : ws_topic_node_t :=
  {| parent := p; kind := k; level := lv; children := None; plus := None; hash := None;
     subs := []; cap := 0; dead := 0; dirty := false |}.

Definition set_children (c : option (gmap bytes nat)) (n : ws_topic_node_t) : ws_topic_node_t :=
  {| parent := parent n; kind := kind n; level := level n; children := c; plus := plus n;
     hash := hash n; subs := subs n; cap := cap n; dead := dead n; dirty := dirty n |}.
Definition set_plus (c : option nat) (n : ws_topic_node_t) : ws_topic_node_t :=
  {| parent := parent n; kind := kind n; level := level n; children := children n; plus := c;
     hash := hash n; subs := subs n; cap := cap n; dead := dead n; dirty := dirty n |}.
Definition set_hash (c : option nat) (n : ws_topic_node_t) : ws_topic_node_t :=
  {| parent := parent n; kind := kind n; level := level n; children := children n; plus := plus n;
     hash := c; subs := subs n; cap := cap n; dead := dead n; dirty := dirty n |}.
(** The subscriber array, its capacity and its tombstone count. *)
Definition set_subs (s : list (option nat)) (c d : nat) (n : ws_topic_node_t) : ws_topic_node_t :=
  {| parent := parent n; kind := kind n; level := level n; children := children n; plus := plus n;
     hash := hash n; subs := s; cap := c; dead := d; dirty := dirty n |}.
Definition set_dirty (b : bool) (n : ws_topic_node_t) : ws_topic_node_t :=
  {| parent := parent n; kind := kind n; level := level n; children := children n; plus := plus n;
     hash := hash n; subs := subs n; cap := cap n; dead := dead n; dirty := b |}.

Record ws_topic_sub_t := { sub_node : nat; sub_filter : bytes }.

Record ws_session_t := {
  ws_id : Z;
  topics : list ws_topic_sub_t;
  topic_mark : Z;
}.

(** The tree, the sessions its nodes point to, and the interest updates it has
    published to the hub (joining or leaving, filter, prefix length). *)
Record ws_topic_tree_t := {
  nodes : gmap nat ws_topic_node_t;
  next_loc : nat;
  mark : Z;
  walking : nat;
  dirty_list : list nat;
  sessions : gmap nat ws_session_t;
  interest_log : list (bool * bytes * nat);
}.

Definition root : nat := 0.

Abbreviation heap := (gmap nat ws_topic_node_t).

Definition set_nodes (h : heap) (t : ws_topic_tree_t) : ws_topic_tree_t :=
  {| nodes := h; next_loc := next_loc t; mark := mark t; walking := walking t;
     dirty_list := dirty_list t; sessions := sessions t; interest_log := interest_log t |}.
Definition set_alloc (h : heap) (n : nat) (t : ws_topic_tree_t) : ws_topic_tree_t :=
  {| nodes := h; next_loc := n; mark := mark t; walking := walking t;
     dirty_list := dirty_list t; sessions := sessions t; interest_log := interest_log t |}.
Definition set_pass (m : Z) (w : nat) (t : ws_topic_tree_t) : ws_topic_tree_t :=
  {| nodes := nodes t; next_loc := next_loc t; mark := m; walking := w;
     dirty_list := dirty_list t; sessions := sessions t; interest_log := interest_log t |}.
Definition set_dirty_list (h : heap) (d : list nat) (t : ws_topic_tree_t) : ws_topic_tree_t :=
  {| nodes := h; next_loc := next_loc t; mark := mark t; walking := walking t;
     dirty_list := d; sessions := sessions t; interest_log := interest_log t |}.
Definition set_sessions (s : gmap nat ws_session_t) (t : ws_topic_tree_t) : ws_topic_tree_t :=
  {| nodes := nodes t; next_loc := next_loc t; mark := mark t; walking := walking t;
     dirty_list := dirty_list t; sessions := s; interest_log := interest_log t |}.
Definition log_interest (e : bool * bytes * nat) (t : ws_topic_tree_t) : ws_topic_tree_t :=
  {| nodes := nodes t; next_loc := next_loc t; mark := mark t; walking := walking t;
     dirty_list := dirty_list t; sessions := sessions t; interest_log := interest_log t ++ [e] |}.

(** ** Nodes *)

(** Allocate a child cell. *)
Definition alloc_child (t : ws_topic_tree_t) (p : nat) (link : nat -> ws_topic_node_t)
    (k : ws_node_kind_t) (lv : bytes) : option nat * ws_topic_tree_t :=
  let l := next_loc t in
  (Some l, set_alloc (<[l := new_node (Some p) k lv]> (<[p := link l]> (nodes t))) (S l) t).

Definition ws_node_child (t : ws_topic_tree_t) (p : nat) (lv : bytes) (create : bool)
    : option (option nat * ws_topic_tree_t) :=
  pn ← nodes t !! p;
  if is_plus lv then
    match plus pn with
    | Some c => Some (Some c, t)
    | None => if create
              then Some (alloc_child t p (fun l => set_plus (Some l) pn) WS_NODE_PLUS [])
              else Some (None, t)
    end
  else if is_hash lv then
    match hash pn with
    | Some c => Some (Some c, t)
    | None => if create
              then Some (alloc_child t p (fun l => set_hash (Some l) pn) WS_NODE_HASH [])
              else Some (None, t)
    end
  else
    match children pn, create with
    | None, false => Some (None, t)
    | ch, _ =>
        let table := match ch with Some m => m | None => ∅ end in
        match table !! lv, create with
        | Some c, _ => Some (Some c, t)
        | None, false => Some (None, t)
        | None, true =>
            Some (alloc_child t p (fun l => set_children (Some (<[lv := l]> table)) pn) WS_NODE_LITERAL lv)
        end
    end.

(** The nodes below a node, in the order they are freed. *)
Definition below (n : ws_topic_node_t) : list nat :=
  match children n with Some m => (map_to_list m).*2 | None => [] end ++
  match plus n with Some c => [c] | None => [] end ++
  match hash n with Some c => [c] | None => [] end.

Fixpoint free_all (free : nat -> heap -> option heap) (ls : list nat) (h : heap) : option heap :=
  match ls with
  | [] => Some h
  | l :: rest => h' ← free l h; free_all free rest h'
  end.

(** [ws_node_free] with the depth of the recursion as fuel; freeing what is
    below is [ws_node_free_contents]. *)
Fixpoint ws_node_free (fuel : nat) (l : nat) (h : heap) : option heap :=
  match fuel with
  | O => None
  | S f =>
      n ← h !! l;
      h' ← free_all (ws_node_free f) (below n) h;
      Some (delete l h')
  end.

Definition ws_node_free_contents (fuel : nat) (n : ws_topic_node_t) (h : heap) : option heap :=
  free_all (ws_node_free fuel) (below n) h.

Definition ws_node_is_empty (n : ws_topic_node_t) : bool :=
  (length (subs n) =? 0)%nat &&
  match plus n with None => true | Some _ => false end &&
  match hash n with None => true | Some _ => false end &&
  match children n with None => true | Some m => (size m =? 0)%nat end.

(** Unhook a node from its parent's slot for it. *)
Definition unlink (n pn : ws_topic_node_t) : option ws_topic_node_t :=
  match kind n with
  | WS_NODE_PLUS => Some (set_plus None pn)
  | WS_NODE_HASH => Some (set_hash None pn)
  | _ => m ← children pn; Some (set_children (Some (delete (level n) m)) pn)
  end.

Definition is_root (n : ws_topic_node_t) : bool :=
  match kind n with WS_NODE_ROOT => true | _ => false end.

Fixpoint ws_node_prune (fuel : nat) (h : heap) (l : nat) : option heap :=
  n ← h !! l;
  if is_root n || negb (ws_node_is_empty n) then Some h
  else
    match fuel with
    | O => None
    | S f =>
        p ← parent n;
        pn ← h !! p;
        pn' ← unlink n pn;
        h' ← ws_node_free 1 l (<[p := pn']> h);
        ws_node_prune f h' p
    end.

Definition ws_node_compact (n : ws_topic_node_t) : ws_topic_node_t :=
  if (dead n =? 0)%nat then n
  else set_subs (List.filter (fun s => match s with Some _ => true | None => false end) (subs n))
         (cap n) 0 n.

(** ** Sessions and subscriptions *)

Fixpoint ws_sub_find (subs : list ws_topic_sub_t) (filter : bytes) : option ws_topic_sub_t :=
  match subs with
  | [] => None
  | s :: rest => if eqb_bytes (sub_filter s) filter then Some s else ws_sub_find rest filter
  end.

Definition ws_sub_count (s : ws_session_t) : nat := length (topics s).

(** The [dirty] array only ever grows at its end while a walk is in flight. *)
Definition ws_tree_mark_dirty (t : ws_topic_tree_t) (l : nat) : option ws_topic_tree_t :=
  n ← nodes t !! l;
  if dirty n then Some t
  else Some (set_dirty_list (<[l := set_dirty true n]> (nodes t)) (dirty_list t ++ [l]) t).

Fixpoint settle_loop (ls : list nat) (h : heap) : option heap :=
  match ls with
  | [] => Some h
  | l :: rest =>
      n ← h !! l;
      let h1 := <[l := ws_node_compact (set_dirty false n)]> h in
      h2 ← ws_node_prune (size h1) h1 l;
      settle_loop rest h2
  end.

Definition ws_tree_settle (t : ws_topic_tree_t) : option ws_topic_tree_t :=
  h ← settle_loop (dirty_list t) (nodes t);
  Some (set_dirty_list h [] t).

(** Index of the first live entry for the session. *)
Fixpoint find_sub (subs : list (option nat)) (session : nat) : option nat :=
  match subs with
  | [] => None
  | Some s :: rest => if (s =? session)%nat then Some 0%nat else S <$> find_sub rest session
  | None :: rest => S <$> find_sub rest session
  end.

(** [subs[idx] = subs[count - 1]; count--] *)
Definition swap_remove (idx : nat) (subs : list (option nat)) : list (option nat) :=
  match last subs with
  | None => subs
  | Some x => take (length subs - 1) (<[idx := x]> subs)
  end.

Definition ws_node_detach (t : ws_topic_tree_t) (l session : nat) : option ws_topic_tree_t :=
  n ← nodes t !! l;
  match find_sub (subs n) session with
  | None => Some t
  | Some idx =>
      if (0 <? walking t)%nat then
        let n' := set_subs (<[idx := None]> (subs n)) (cap n) (S (dead n)) n in
        ws_tree_mark_dirty (set_nodes (<[l := n']> (nodes t)) t) l
      else
        let h := <[l := set_subs (swap_remove idx (subs n)) (cap n) (dead n) n]> (nodes t) in
        h' ← ws_node_prune (size h) h l;
        Some (set_nodes h' t)
  end.

Definition ws_topic_tree_create : ws_topic_tree_t :=
  {| nodes := {[ root := new_node None WS_NODE_ROOT [] ]}; next_loc := 1; mark := 0;
     walking := 0; dirty_list := []; sessions := ∅; interest_log := [] |}.

(** Frees every node below the root; the root cell belongs to the tree. *)
Definition ws_topic_tree_free (t : ws_topic_tree_t) : option heap :=
  n ← nodes t !! root;
  h ← ws_node_free_contents (size (nodes t)) n (nodes t);
  Some (delete root h).

Definition ws_interest_publish (filter : bytes) (joining : bool) (t : ws_topic_tree_t)
    : ws_topic_tree_t :=
  log_interest (joining, filter, ws_topic_interest_prefix filter) t.

(** Following a filter's levels from a node, creating what is missing. *)
Fixpoint descend (t : ws_topic_tree_t) (l : nat) (levels : list bytes)
    : option (nat * ws_topic_tree_t) :=
  match levels with
  | [] => Some (l, t)
  | lv :: rest =>
      '(c, t') ← ws_node_child t l lv true;
      l' ← c;
      descend t' l' rest
  end.

Definition set_topics (ts : list ws_topic_sub_t) (s : ws_session_t) : ws_session_t :=
  {| ws_id := ws_id s; topics := ts; topic_mark := topic_mark s |}.

Definition ws_topic_subscribe (t : ws_topic_tree_t) (session : nat) (filter : bytes) (max : nat)
    : option (bool * ws_topic_tree_t) :=
  match ws_topic_split filter with
  | None => Some (false, t)
  | Some levels =>
      s ← sessions t !! session;
      match ws_sub_find (topics s) filter with
      | Some _ => Some (true, t)
      | None =>
          if negb (max =? 0)%nat && (max <=? ws_sub_count s)%nat then Some (false, t)
          else
            '(l, t1) ← descend t root (map lvl levels);
            n ← nodes t1 !! l;
            let cap' := if (length (subs n) =? cap n)%nat
                        then (if (cap n =? 0)%nat then 4 else cap n * 2)%nat else cap n in
            let t2 := set_nodes (<[l := set_subs (subs n ++ [Some session]) cap' (dead n) n]> (nodes t1)) t1 in
            let s' := set_topics ({| sub_node := l; sub_filter := filter |} :: topics s) s in
            let t3 := set_sessions (<[session := s']> (sessions t2)) t2 in
            Some (true, ws_interest_publish filter true t3)
      end
  end.

(** Drop the subscription that sits between [before] and [after] in the
    session's list. *)
Definition ws_sub_drop (t : ws_topic_tree_t) (session : nat)
    (before : list ws_topic_sub_t) (sub : ws_topic_sub_t) (after : list ws_topic_sub_t)
    : option ws_topic_tree_t :=
  t1 ← ws_node_detach t (sub_node sub) session;
  s ← sessions t1 !! session;
  let t2 := set_sessions (<[session := set_topics (before ++ after) s]> (sessions t1)) t1 in
  Some (ws_interest_publish (sub_filter sub) false t2).

Fixpoint unsubscribe_loop (t : ws_topic_tree_t) (session : nat) (before rest : list ws_topic_sub_t)
    (filter : bytes) : option (bool * ws_topic_tree_t) :=
  match rest with
  | [] => Some (false, t)
  | sub :: after =>
      if eqb_bytes (sub_filter sub) filter
      then t' ← ws_sub_drop t session before sub after; Some (true, t')
      else unsubscribe_loop t session (before ++ [sub]) after filter
  end.

(** On an attached worker; a detached one ([tree == NULL]) returns [false]. *)
Definition ws_topic_unsubscribe (t : ws_topic_tree_t) (session : nat) (filter : bytes)
    : option (bool * ws_topic_tree_t) :=
  s ← sessions t !! session;
  unsubscribe_loop t session [] (topics s) filter.

Fixpoint unsubscribe_all_loop (fuel : nat) (t : ws_topic_tree_t) (session : nat)
    : option ws_topic_tree_t :=
  s ← sessions t !! session;
  match topics s, fuel with
  | [], _ => Some t
  | _, O => None
  | sub :: after, S f =>
      t' ← ws_sub_drop t session [] sub after;
      unsubscribe_all_loop f t' session
  end.

Definition ws_topic_unsubscribe_all (t : ws_topic_tree_t) (session : nat) : option ws_topic_tree_t :=
  s ← sessions t !! session;
  unsubscribe_all_loop (length (topics s)) t session.

Definition ws_topic_list (s : ws_session_t) : list bytes := map sub_filter (topics s).

(** ** Matching *)

Section delivery.
(** What a send does: whether it succeeded, and the sessions it tore down. *)
Variable try_send : nat -> bool * list nat.

(** The fields of [ws_topic_visit_t] that steer the walk, and what it produced:
    the number of hits and the sessions served, in order. *)
Record ws_topic_visit_t := { except_id : Z; should_deliver : bool }.
Record progress := { hits : Z; served : list nat }.

Definition set_mark (m : Z) (s : ws_session_t) : ws_session_t :=
  {| ws_id := ws_id s; topics := topics s; topic_mark := m |}.

Fixpoint tear_down (t : ws_topic_tree_t) (ss : list nat) : option ws_topic_tree_t :=
  match ss with
  | [] => Some t
  | s :: rest => t' ← ws_topic_unsubscribe_all t s; tear_down t' rest
  end.

(** One entry of the subscriber array. *)
Definition visit_one (v : ws_topic_visit_t) (entry : option nat) (t : ws_topic_tree_t) (g : progress)
    : option (ws_topic_tree_t * progress) :=
  match entry with
  | None => Some (t, g)
  | Some session =>
      s ← sessions t !! session;
      if ws_id s =? except_id v then Some (t, g)
      else if topic_mark s =? mark t then Some (t, g)
      else
        let t1 := set_sessions (<[session := set_mark (mark t) s]> (sessions t)) t in
        if negb (should_deliver v) then
          Some (t1, {| hits := u32 (hits g + 1); served := served g ++ [session] |})
        else
          let '(ok, torn) := try_send session in
          t2 ← tear_down t1 torn;
          Some (t2, {| hits := if ok : bool then u32 (hits g + 1) else hits g;
                       served := served g ++ [session] |})
  end.

(** [for (i = 0; i < node->count; i++)]: node and count are read again at each
    turn.  [fuel] bounds the turns. *)
Fixpoint visit_loop (fuel : nat) (v : ws_topic_visit_t) (l i : nat) (t : ws_topic_tree_t) (g : progress)
    : option (ws_topic_tree_t * progress) :=
  n ← nodes t !! l;
  match subs n !! i, fuel with
  | None, _ => Some (t, g)
  | Some _, O => None
  | Some entry, S f =>
      '(t', g') ← visit_one v entry t g;
      visit_loop f v l (S i) t' g'
  end.

Definition ws_topic_visit (v : ws_topic_visit_t) (l : nat) (t : ws_topic_tree_t) (g : progress)
    : option (ws_topic_tree_t * progress) :=
  n ← nodes t !! l;
  visit_loop (length (subs n)) v l 0 t g.

Fixpoint ws_topic_walk (v : ws_topic_visit_t) (l : nat) (levels : list bytes)
    (t : ws_topic_tree_t) (g : progress) : option (ws_topic_tree_t * progress) :=
  n ← nodes t !! l;
  '(t1, g1) ← match hash n with
              | Some hl => ws_topic_visit v hl t g
              | None => Some (t, g)
              end;
  match levels with
  | [] => ws_topic_visit v l t1 g1
  | lv :: rest =>
      n1 ← nodes t1 !! l;
      '(t2, g2) ← match children n1 ≫= (fun m => m !! lv) with
                  | Some c => ws_topic_walk v c rest t1 g1
                  | None => Some (t1, g1)
                  end;
      n2 ← nodes t2 !! l;
      match plus n2 with
      | Some c => ws_topic_walk v c rest t2 g2
      | None => Some (t2, g2)
      end
  end.

Definition ws_topic_match (t : ws_topic_tree_t) (topic : bytes) (v : ws_topic_visit_t)
    : option (ws_topic_tree_t * progress) :=
  match ws_topic_split topic with
  | None => Some (t, {| hits := 0; served := [] |})
  | Some levels =>
      '(t1, g) ← ws_topic_walk v root (map lvl levels)
                   (set_pass (u64 (mark t + 1)) (S (walking t)) t) {| hits := 0; served := [] |};
      let t2 := set_pass (mark t1) (walking t1 - 1) t1 in
      if (walking t2 =? 0)%nat then t3 ← ws_tree_settle t2; Some (t3, g)
      else Some (t2, g)
  end.

Definition ws_topic_publish (t : ws_topic_tree_t) (topic : bytes) (except : Z)
    : option (ws_topic_tree_t * progress) :=
  ws_topic_match t topic {| except_id := except; should_deliver := true |}.

Definition ws_topic_count (t : ws_topic_tree_t) (topic : bytes)
    : option (ws_topic_tree_t * progress) :=
  ws_topic_match t topic {| except_id := 0; should_deliver := false |}.
End delivery.

End TopicTree.
