(* ===== verification/TopicTreeInv.v ===== *)
(** * The topic tree never touches freed memory

    Shape and content invariants of the heap of TopicTree.v, and the proof that
    every operation of src/src/websocket/ws_topic_tree.c preserves them.  Since
    an access to a missing cell makes an operation return [None], "the operation
    returns [Some] and the invariant holds again" is memory safety. *)

From S2P Require Import Prelude TopicFilter TopicTree.

Module TopicTreeInv.
Import TopicFilter TopicTree.

(** ** Edges and paths

    The three kinds of child slots, seen uniformly. *)
Inductive edge := ELit (k : bytes) | EPlus | EHash.

#[export] Instance edge_eq_dec : EqDecision edge.
Proof. solve_decision. Defined.

Definition child (n : ws_topic_node_t) (e : edge) : option nat :=
  match e with
  | ELit k => children n ≫= (fun m => m !! k)
  | EPlus => plus n
  | EHash => hash n
  end.

(** The slot of its parent that a node hangs from. *)
Definition edge_in (n : ws_topic_node_t) : option edge :=
  match kind n with
  | WS_NODE_ROOT => None
  | WS_NODE_LITERAL => Some (ELit (level n))
  | WS_NODE_PLUS => Some EPlus
  | WS_NODE_HASH => Some EHash
  end.

Definition edge_of_level (lv : bytes) : edge :=
  if is_plus lv then EPlus else if is_hash lv then EHash else ELit lv.

Definition edges (filter : bytes) : list edge := map edge_of_level (split_on SLASH filter).

Fixpoint path (h : heap) (l : nat) (es : list edge) : option nat :=
  match es with
  | [] => Some l
  | e :: rest => n ← h !! l; c ← child n e; path h c rest
  end.

Lemma edge_of_level_inj a b : edge_of_level a = edge_of_level b -> a = b.
Proof.
  unfold edge_of_level, is_plus, is_hash. repeat case_if; intros; simplify_eq; try done;
    repeat match goal with H : eqb_bytes _ _ = true |- _ => apply eqb_bytes_eq in H end; congruence.
Qed.

Lemma edges_inj f g : edges f = edges g -> f = g.
Proof.
  unfold edges. intros H. apply split_on_inj. revert H.
  generalize (split_on SLASH f), (split_on SLASH g).
  intros l. induction l as [|a l IH]; intros [|b m]; simpl; try done.
  intros [= Ea El]. f_equal; [by apply edge_of_level_inj | by apply IH].
Qed.

Lemma path_app h l es es' : path h l (es ++ es') = path h l es ≫= (fun c => path h c es').
Proof.
  revert l. induction es as [|e es IH]; intros l; cbn [path app]; [done|].
  destruct (h !! l) as [n|]; simpl; [|done]. destruct (child n e); simpl; [apply IH | done].
Qed.

Lemma path_snoc h l es e c :
  path h l (es ++ [e]) = Some c <->
  exists p n, path h l es = Some p /\ h !! p = Some n /\ child n e = Some c.
Proof.
  rewrite path_app. split.
  - intros H. apply bind_Some in H as (p & Hp & H). cbn [path] in H.
    apply bind_Some in H as (n & Hn & H). apply bind_Some in H as (c' & Hc & [= ->]). eauto.
  - intros (p & n & Hp & Hn & Hc). rewrite Hp. simpl. by rewrite Hn; simpl; rewrite Hc.
Qed.

(** ** Well-formed heaps *)

Record heap_ok (h : heap) : Prop := {
  ho_root : exists rn, h !! root = Some rn /\ kind rn = WS_NODE_ROOT;
  ho_down : forall p pn e c, h !! p = Some pn -> child pn e = Some c ->
    exists cn, h !! c = Some cn /\ parent cn = Some p /\ edge_in cn = Some e;
  ho_reach : forall l n, h !! l = Some n -> exists es, path h root es = Some l;
}.

Section paths.
Variable h : heap.
Hypothesis Hok : heap_ok h.

Lemma path_live l es c : is_Some (h !! l) -> path h l es = Some c -> is_Some (h !! c).
Proof.
  revert l. induction es as [|e es IH]; intros l Hl; cbn [path]; [by intros [= <-]|].
  destruct (h !! l) as [n|] eqn:En; simpl; [|done].
  destruct (child n e) as [c'|] eqn:Ec; simpl; [|done].
  destruct (ho_down _ Hok _ _ _ _ En Ec) as (cn & ? & _). eauto.
Qed.

Lemma root_path_live es c : path h root es = Some c -> is_Some (h !! c).
Proof. apply path_live. destruct (ho_root _ Hok) as (rn & -> & _). done. Qed.

(** Nothing points to the root. *)
Lemma root_no_parent p pn e : h !! p = Some pn -> child pn e = Some root -> False.
Proof.
  intros Hp He. destruct (ho_down _ Hok _ _ _ _ Hp He) as (cn & Hc & _ & Hi).
  destruct (ho_root _ Hok) as (rn & Hr & Hk). simplify_eq. unfold edge_in in Hi. by rewrite Hk in Hi.
Qed.

(** A node is reached from the root along one path only. *)
Lemma path_inj es es' l : path h root es = Some l -> path h root es' = Some l -> es = es'.
Proof.
  revert es' l. induction es as [|e es IH] using rev_ind; intros es' l H1 H2.
  - injection H1 as <-. destruct es' as [|e' es' _] using rev_ind; [done|].
    apply path_snoc in H2 as (p & n & _ & Hn & Hc). by destruct (root_no_parent _ _ _ Hn Hc).
  - apply path_snoc in H1 as (p & n & Hp & Hn & Hc).
    destruct es' as [|e' es' _] using rev_ind.
    { injection H2 as <-. by destruct (root_no_parent _ _ _ Hn Hc). }
    apply path_snoc in H2 as (p' & n' & Hp' & Hn' & Hc').
    destruct (ho_down _ Hok _ _ _ _ Hn Hc) as (cn & Hl & Hpar & Hi).
    destruct (ho_down _ Hok _ _ _ _ Hn' Hc') as (cn' & Hl' & Hpar' & Hi').
    simplify_eq. f_equal. by eapply IH.
Qed.

(** Every node but the root hangs from the slot it names. *)
Lemma ho_up l n : h !! l = Some n -> l <> root ->
  exists p pn e, parent n = Some p /\ edge_in n = Some e /\ h !! p = Some pn /\ child pn e = Some l.
Proof.
  intros Hl Hr. destruct (ho_reach _ Hok _ _ Hl) as [es Hp].
  destruct es as [|e es _] using rev_ind; [by injection Hp as <-|].
  apply path_snoc in Hp as (p & pn & _ & Hpn & Hc).
  destruct (ho_down _ Hok _ _ _ _ Hpn Hc) as (cn & Hl' & ? & ?). simplify_eq.
  by exists p, pn, e.
Qed.

Lemma is_root_spec l n : h !! l = Some n -> is_root n = true <-> l = root.
Proof.
  intros Hl. destruct (ho_root _ Hok) as (rn & Hr & Hk). unfold is_root. split.
  - intros H. destruct (decide (l = root)) as [|Hne]; [done|].
    destruct (ho_up _ _ Hl Hne) as (p & pn & e & _ & Hi & _).
    unfold edge_in in Hi. by destruct (kind n).
  - intros ->. simplify_eq. by rewrite Hk.
Qed.
End paths.

(** Growing the heap keeps every path. *)
Lemma path_mono h h' l es c :
  (forall l n e x, h !! l = Some n -> child n e = Some x ->
     exists n', h' !! l = Some n' /\ child n' e = Some x) ->
  path h l es = Some c -> path h' l es = Some c.
Proof.
  intros Hm. revert l. induction es as [|e es IH]; intros l; cbn [path]; [done|].
  destruct (h !! l) as [n|] eqn:En; simpl; [|done].
  destruct (child n e) as [x|] eqn:Ec; simpl; [|done].
  destruct (Hm _ _ _ _ En Ec) as (n' & -> & H'). simpl. rewrite H'. simpl. apply IH.
Qed.

(** ** Changing one slot *)

(** What a node holds besides its links. *)
Definition data (n : ws_topic_node_t) := (subs n, cap n, dead n, dirty n).

Definition same_but_child (n n' : ws_topic_node_t) (e : edge) (v : option nat) : Prop :=
  (forall e', child n' e' = if decide (e' = e) then v else child n e') /\
  parent n' = parent n /\ edge_in n' = edge_in n /\ kind n' = kind n /\ data n' = data n.

Lemma heap_ok_alloc h p pn pn' e c cn :
  heap_ok h -> h !! p = Some pn -> child pn e = None -> h !! c = None ->
  parent cn = Some p -> edge_in cn = Some e -> (forall e', child cn e' = None) ->
  same_but_child pn pn' e (Some c) ->
  heap_ok (<[c := cn]> (<[p := pn']> h)) /\
  (forall es l, path h root es = Some l -> path (<[c := cn]> (<[p := pn']> h)) root es = Some l).
Proof.
  intros Hok Hp Hnone Hc Hpar Hin Hleaf (Hch & Hpp & Hpe & Hpk & _).
  assert (c <> p) as Hcp by congruence.
  set (h' := <[c := cn]> (<[p := pn']> h)).
  assert (forall l n, h !! l = Some n -> exists n', h' !! l = Some n' /\ parent n' = parent n /\
            edge_in n' = edge_in n /\ kind n' = kind n /\
            (forall e x, child n e = Some x -> child n' e = Some x)) as Hold.
  { intros l n Hl. destruct (decide (l = c)) as [->|]; [congruence|]. unfold h'.
    rewrite lookup_insert_ne by done. destruct (decide (l = p)) as [->|].
    - rewrite lookup_insert_eq. simplify_eq. exists pn'. repeat split; try done.
      intros e' x He. rewrite Hch. case_decide; [congruence | done].
    - rewrite lookup_insert_ne by done. eauto 10. }
  assert (forall es l, path h root es = Some l -> path h' root es = Some l) as Hpath.
  { intros es l. apply path_mono. intros l0 n e0 x Hl0 He0.
    destruct (Hold _ _ Hl0) as (n' & ? & _ & _ & _ & ?). eauto. }
  split; [|done]. split.
  - destruct (ho_root _ Hok) as (rn & Hr & Hk).
    destruct (Hold _ _ Hr) as (n' & ? & _ & _ & Hk' & _). exists n'. by rewrite Hk'.
  - intros q qn e' x Hq Hx. unfold h' in Hq. destruct (decide (q = c)) as [->|Hqc].
    { rewrite lookup_insert_eq in Hq. injection Hq as <-. by rewrite Hleaf in Hx. }
    rewrite lookup_insert_ne in Hq by done.
    assert (forall qn0, h !! q = Some qn0 -> child qn0 e' = Some x ->
        exists n', h' !! x = Some n' /\ parent n' = Some q /\ edge_in n' = Some e') as Hdown.
    { intros qn0 Hq0 Hx0. destruct (ho_down _ Hok _ _ _ _ Hq0 Hx0) as (xn & Hxn & <- & <-).
      destruct (Hold _ _ Hxn) as (n' & ? & ? & ? & _). eauto. }
    destruct (decide (q = p)) as [->|].
    + rewrite lookup_insert_eq in Hq. injection Hq as <-. rewrite Hch in Hx. case_decide; [|by eauto].
      simplify_eq. exists cn. unfold h'. by rewrite lookup_insert_eq.
    + rewrite lookup_insert_ne in Hq by done. by eapply Hdown.
  - intros l n Hl. unfold h' in Hl. destruct (decide (l = c)) as [->|Hlc].
    + destruct (ho_reach _ Hok _ _ Hp) as [es Hes]. exists (es ++ [e]). apply path_snoc.
      exists p, pn'. split; [by apply Hpath|]. unfold h'.
      rewrite lookup_insert_ne, lookup_insert_eq by done. split; [done|]. rewrite Hch.
      by rewrite decide_True.
    + assert (is_Some (h !! l)) as [n0 Hl0].
      { rewrite lookup_insert_ne in Hl by done. destruct (decide (l = p)) as [->|]; [eauto|].
        rewrite lookup_insert_ne in Hl by done. eauto. }
      destruct (ho_reach _ Hok _ _ Hl0) as [es Hes]. exists es. by apply Hpath.
Qed.

Lemma heap_ok_unlink h l n p pn pn' e :
  heap_ok h -> h !! l = Some n -> (forall e', child n e' = None) ->
  h !! p = Some pn -> child pn e = Some l -> same_but_child pn pn' e None ->
  heap_ok (delete l (<[p := pn']> h)) /\
  (forall es x, path h root es = Some x -> x <> l -> path (delete l (<[p := pn']> h)) root es = Some x).
Proof.
  intros Hok Hl Hleaf Hp Hpl (Hch & Hpp & Hpe & Hpk & _).
  assert (l <> p) as Hlp by (intros ->; rewrite Hl in Hp; injection Hp as ->; by rewrite Hleaf in Hpl).
  assert (l <> root) as Hlr by (intros ->; by eapply root_no_parent).
  set (h' := delete l (<[p := pn']> h)).
  assert (forall q qn, h !! q = Some qn -> q <> l -> exists qn', h' !! q = Some qn' /\
            parent qn' = parent qn /\ edge_in qn' = edge_in qn /\ kind qn' = kind qn /\
            (forall e' x, child qn e' = Some x -> x <> l -> child qn' e' = Some x)) as Hold.
  { intros q qn Hq Hql. unfold h'. rewrite lookup_delete_ne by done. destruct (decide (q = p)) as [->|].
    - rewrite lookup_insert_eq. simplify_eq. exists pn'. repeat split; try done.
      intros e' x He Hx. rewrite Hch. case_decide; congruence.
    - rewrite lookup_insert_ne by done. eauto 10. }
  assert (forall es a x, path h a es = Some x -> a <> l -> x <> l -> path h' a es = Some x) as Hpath.
  { intros es. induction es as [|e0 es IH]; intros a x; cbn [path]; [done|].
    destruct (h !! a) as [an|] eqn:Ea; simpl; [|done].
    destruct (child an e0) as [c|] eqn:Ec; simpl; [|done]. intros Hx Hal Hxl.
    destruct (Hold _ _ Ea Hal) as (an' & -> & _ & _ & _ & Hc). simpl.
    destruct (decide (c = l)) as [->|Hcl].
    - destruct es as [|e1 es]; [by injection Hx as <-|]. cbn [path] in Hx.
      rewrite Hl in Hx. simpl in Hx. by rewrite Hleaf in Hx.
    - rewrite (Hc _ _ Ec Hcl). simpl. by apply IH. }
  split; [|by eauto]. split.
  - destruct (ho_root _ Hok) as (rn & Hr & Hk).
    destruct (Hold _ _ Hr) as (n' & ? & _ & _ & Hk' & _); [done|]. exists n'. by rewrite Hk'.
  - intros q qn' e' x Hq Hx. unfold h' in Hq. apply lookup_delete_Some in Hq as [Hql Hq].
    assert (exists qn, h !! q = Some qn /\ child qn e' = Some x /\ x <> l) as (qn & Hq0 & Hx0 & Hxl).
    { destruct (decide (q = p)) as [->|Hqp].
      - rewrite lookup_insert_eq in Hq. injection Hq as <-. rewrite Hch in Hx.
        case_decide; [done|]. exists pn. split_and!; [done|done|]. intros ->.
        destruct (ho_down _ Hok _ _ _ _ Hp Hx) as (? & ? & _ & ?).
        destruct (ho_down _ Hok _ _ _ _ Hp Hpl) as (? & ? & _ & ?). simplify_eq.
      - rewrite lookup_insert_ne in Hq by done. exists qn'. split_and!; [done|done|]. intros ->.
        destruct (ho_down _ Hok _ _ _ _ Hq Hx) as (? & ? & ? & _).
        destruct (ho_down _ Hok _ _ _ _ Hp Hpl) as (? & ? & ? & _). simplify_eq. }
    destruct (ho_down _ Hok _ _ _ _ Hq0 Hx0) as (xn & Hxn & <- & <-).
    destruct (Hold _ _ Hxn Hxl) as (n' & ? & ? & ? & _). eauto.
  - intros x xn Hx. unfold h' in Hx. apply lookup_delete_Some in Hx as [Hxl Hx].
    assert (is_Some (h !! x)) as [x0 Hx0].
    { destruct (decide (x = p)) as [->|]; [eauto|]. rewrite lookup_insert_ne in Hx by done. eauto. }
    destruct (ho_reach _ Hok _ _ Hx0) as [es Hes]. exists es. by apply Hpath.
Qed.

(** ** Emptiness and pruning *)

Lemma is_empty_spec n : ws_node_is_empty n = true <-> subs n = [] /\ forall e, child n e = None.
Proof.
  unfold ws_node_is_empty. rewrite !andb_true_iff, Nat.eqb_eq, length_zero_iff_nil. split.
  - intros [[[Hs Hp] Hh] Hc]. split; [done|]. intros [k| |]; simpl.
    + destruct (children n) as [m|]; [|done]. simpl.
      apply Nat.eqb_eq, map_size_empty_inv in Hc as ->. done.
    + by destruct (plus n).
    + by destruct (hash n).
  - intros [Hs He]. pose proof (He EPlus) as Hp. pose proof (He EHash) as Hh. simpl in Hp, Hh.
    rewrite Hs, Hp, Hh. repeat split. destruct (children n) as [m|] eqn:E; [|done].
    apply Nat.eqb_eq, map_size_empty_iff, map_empty. intros k.
    pose proof (He (ELit k)) as Hk. simpl in Hk. by rewrite E in Hk.
Qed.

Lemma below_nil n : (forall e, child n e = None) -> below n = [].
Proof.
  intros He. pose proof (He EPlus) as Hp. pose proof (He EHash) as Hh. simpl in Hp, Hh.
  unfold below. rewrite Hp, Hh. rewrite !app_nil_r. destruct (children n) as [m|] eqn:E; [|done].
  assert (m = ∅) as ->.
  { apply map_empty. intros k. pose proof (He (ELit k)) as Hk. simpl in Hk. by rewrite E in Hk. }
  by rewrite map_to_list_empty.
Qed.

(** All nodes but the root and [x] carry a subscriber or a child. *)
Definition tidy_but (x : nat) (h : heap) : Prop :=
  forall l n, h !! l = Some n -> l <> root -> l <> x -> ws_node_is_empty n = false.

Abbreviation tidy := (tidy_but root).

(** [h'] is [h] less some nodes without subscribers. *)
Record pruned (h h' : heap) : Prop := {
  pr_old : forall l n', h' !! l = Some n' -> exists n, h !! l = Some n /\ data n' = data n;
  pr_keep : forall l n, h !! l = Some n -> subs n <> [] -> is_Some (h' !! l);
  pr_path : forall es l n, path h root es = Some l -> h !! l = Some n -> subs n <> [] ->
    path h' root es = Some l;
}.

#[export] Instance pruned_refl : Reflexive pruned.
Proof. intros h. split; eauto. Qed.

#[export] Instance pruned_trans : Transitive pruned.
Proof.
  intros h1 h2 h3 [O1 K1 P1] [O2 K2 P2].
  assert (forall l n, h1 !! l = Some n -> subs n <> [] ->
            exists n2, h2 !! l = Some n2 /\ subs n2 <> []) as Hs.
  { intros l n Hl Hn. destruct (K1 _ _ Hl Hn) as [n2 H2]. exists n2. split; [done|].
    destruct (O1 _ _ H2) as (n' & ? & Hd). simplify_eq. unfold data in Hd. congruence. }
  split.
  - intros l n3 H3. destruct (O2 _ _ H3) as (n2 & H2 & D2). destruct (O1 _ _ H2) as (n1 & H1 & D1).
    exists n1. by rewrite D2.
  - intros l n Hl Hn. destruct (Hs _ _ Hl Hn) as (n2 & H2 & Hn2). by eapply K2.
  - intros es l n Hp Hl Hn. destruct (Hs _ _ Hl Hn) as (n2 & H2 & Hn2). eapply P2; eauto.
Qed.

Lemma unlink_spec n pn e l :
  edge_in n = Some e -> child pn e = Some l ->
  exists pn', unlink n pn = Some pn' /\ same_but_child pn pn' e None.
Proof.
  unfold edge_in, unlink. destruct (kind n) eqn:Ek; intros [= <-] Hc; simpl in Hc.
  - destruct (children pn) as [m|] eqn:Em; [|done]. simpl. eexists. split; [done|].
    split; [|done]. intros [k| |]; simpl; [|done..]. rewrite Em. simpl.
    case_decide as Hk; [injection Hk as ->; by rewrite lookup_delete_eq|].
    rewrite lookup_delete_ne; [done | congruence].
  - eexists. split; [done|]. split; [|done]. by intros [k| |].
  - eexists. split; [done|]. split; [|done]. by intros [k| |].
Qed.

Lemma pruned_unlink h l n p pn pn' e :
  heap_ok h -> h !! l = Some n -> subs n = [] -> (forall e', child n e' = None) ->
  h !! p = Some pn -> child pn e = Some l -> same_but_child pn pn' e None ->
  pruned h (delete l (<[p := pn']> h)).
Proof.
  intros Hok Hl Hs Hleaf Hp Hc Hsame.
  destruct (heap_ok_unlink _ _ _ _ _ _ _ Hok Hl Hleaf Hp Hc Hsame) as [_ Hpath].
  destruct Hsame as (_ & _ & _ & _ & Hd). split.
  - intros q qn Hq. apply lookup_delete_Some in Hq as [_ Hq]. destruct (decide (q = p)) as [->|].
    + rewrite lookup_insert_eq in Hq. injection Hq as <-. by exists pn.
    + rewrite lookup_insert_ne in Hq by done. eauto.
  - intros q qn Hq Hne. destruct (decide (q = l)) as [->|]; [congruence|].
    rewrite lookup_delete_ne by done. destruct (decide (q = p)) as [->|].
    + by rewrite lookup_insert_eq.
    + by rewrite lookup_insert_ne.
  - intros es q qn Hq Hqn Hne. apply Hpath; [done|]. congruence.
Qed.

(** Pruning succeeds and restores tidiness. *)
Lemma ws_node_prune_ok fuel h l :
  heap_ok h -> is_Some (h !! l) -> tidy_but l h -> (size h <= fuel)%nat ->
  exists h', ws_node_prune fuel h l = Some h' /\ heap_ok h' /\ tidy h' /\ pruned h h'.
Proof.
  revert h l. induction fuel as [|fuel IH]; intros h l Hok [n Hl] Htidy Hsz.
  { assert (h = ∅) as -> by (apply map_size_empty_inv; lia). done. }
  cbn [ws_node_prune]. rewrite Hl. simpl.
  destruct (is_root n || negb (ws_node_is_empty n)) eqn:E.
  - exists h. split_and!; try done. intros q qn Hq Hr _.
    destruct (decide (q = l)) as [->|]; [|by eapply Htidy]. simplify_eq.
    apply orb_true_iff in E as [E|E]; [|by apply negb_true_iff in E].
    by apply (is_root_spec _ Hok _ _ Hl) in E.
  - apply orb_false_iff in E as [Er Ee]. apply negb_false_iff, is_empty_spec in Ee as [Hs Hleaf].
    assert (l <> root) as Hlr by (intros ->; by rewrite (proj2 (is_root_spec _ Hok _ _ Hl)) in Er).
    destruct (ho_up _ Hok _ _ Hl Hlr) as (p & pn & e & Hpar & Hin & Hp & Hc).
    destruct (unlink_spec n pn e l Hin Hc) as (pn' & Hu & Hsame).
    assert (l <> p) as Hlp by (intros ->; simplify_eq; by rewrite Hleaf in Hc).
    rewrite Hpar. simpl. rewrite Hp. simpl. rewrite Hu. simpl.
    rewrite lookup_insert_ne by done. rewrite Hl. simpl. rewrite below_nil by done. simpl.
    destruct (heap_ok_unlink _ _ _ _ _ _ _ Hok Hl Hleaf Hp Hc Hsame) as [Hok' _].
    destruct (IH (delete l (<[p := pn']> h)) p) as (h' & Hr & Hh' & Ht' & Hpr').
    + done.
    + exists pn'. by rewrite lookup_delete_ne, lookup_insert_eq.
    + intros q qn Hq Hqr Hqp. apply lookup_delete_Some in Hq as [Hql Hq].
      rewrite lookup_insert_ne in Hq by done. by eapply Htidy.
    + assert (<[p := pn']> h !! l = Some n) as Hl' by (by rewrite lookup_insert_ne).
      rewrite map_size_delete_Some by eauto. rewrite map_size_insert_Some by eauto. lia.
    + exists h'. split_and!; try done. etrans; [|done]. by eapply pruned_unlink.
Qed.

(** ** The shape of the tree

    Updates that leave the links alone. *)
Definition links (n : ws_topic_node_t) := (parent n, kind n, level n, children n, plus n, hash n).

Definition same_shape (h h' : heap) : Prop := forall l, links <$> h !! l = links <$> h' !! l.

#[export] Instance same_shape_equiv : Equivalence same_shape.
Proof.
  split; [by intros h l | by intros h h' H l; symmetry |].
  intros h1 h2 h3 H1 H2 l. by rewrite H1.
Qed.

Lemma child_links n n' e : links n = links n' -> child n e = child n' e.
Proof. intros [=]. destruct e; simpl; congruence. Qed.

Lemma edge_in_links n n' : links n = links n' -> edge_in n = edge_in n'.
Proof. intros [=]. unfold edge_in. destruct (kind n), (kind n'); congruence. Qed.

Lemma same_shape_lookup h h' l n :
  same_shape h h' -> h !! l = Some n -> exists n', h' !! l = Some n' /\ links n = links n'.
Proof.
  intros H Hl. specialize (H l). rewrite Hl in H.
  destruct (h' !! l) as [n'|]; simpl in H; [|done]. apply (inj Some) in H. eauto.
Qed.

#[export] Instance path_shape : Proper (same_shape ==> eq ==> eq ==> eq) path.
Proof.
  intros h h' H l l' <- es es' <-. revert l. induction es as [|e es IH]; intros l; cbn [path]; [done|].
  pose proof (H l) as Hl. destruct (h !! l) as [n|], (h' !! l) as [n'|]; simpl in *; try done.
  apply (inj Some) in Hl. rewrite (child_links n n' e) by done. destruct (child n' e); [apply IH | done].
Qed.

Lemma path_same h h' l es : same_shape h h' -> path h' l es = path h l es.
Proof. intros H. symmetry. by apply path_shape. Qed.

Lemma heap_ok_shape h h' : same_shape h h' -> heap_ok h -> heap_ok h'.
Proof.
  intros H Hok. assert (same_shape h' h) as H' by (by symmetry). split.
  - destruct (ho_root _ Hok) as (rn & Hr & Hk).
    destruct (same_shape_lookup _ _ _ _ H Hr) as (rn' & ? & [=]). exists rn'. split; congruence.
  - intros p pn e c Hp Hc. destruct (same_shape_lookup _ _ _ _ H' Hp) as (pn0 & Hp0 & E0).
    rewrite (child_links _ _ _ E0) in Hc.
    destruct (ho_down _ Hok _ _ _ _ Hp0 Hc) as (cn & Hcn & Hpar & Hin).
    destruct (same_shape_lookup _ _ _ _ H Hcn) as (cn' & ? & E). exists cn'. split; [done|].
    rewrite <- (edge_in_links _ _ E). split; [|done]. unfold links in E. congruence.
  - intros l n Hl. destruct (same_shape_lookup _ _ _ _ H' Hl) as (n0 & Hl0 & _).
    destruct (ho_reach _ Hok _ _ Hl0) as [es Hes]. exists es. by rewrite (path_same _ _ _ _ H).
Qed.

Lemma same_shape_insert h l n n' :
  h !! l = Some n -> links n' = links n -> same_shape h (<[l := n']> h).
Proof.
  intros Hl E q. destruct (decide (q = l)) as [->|].
  - rewrite lookup_insert_eq, Hl. simpl. by rewrite E.
  - by rewrite lookup_insert_ne.
Qed.

(** ** The content of the tree *)

(** The subscriber array of a node; a missing node has none. *)
Definition ent (h : heap) (l : nat) : list (option nat) :=
  match h !! l with Some n => subs n | None => [] end.

Definition dirty_of (h : heap) (l : nat) : bool :=
  match h !! l with Some n => dirty n | None => false end.

(** The sessions in an array, and its tombstones. *)
Definition live (a : list (option nat)) : list nat := omap id a.
Definition tombs (a : list (option nat)) : nat := length a - length (live a).

Lemma live_length a : (length (live a) <= length a)%nat.
Proof. induction a as [|[s|] a IH]; simpl; lia. Qed.

Lemma elem_of_live s a : s ∈ live a <-> Some s ∈ a.
Proof.
  unfold live. rewrite list_elem_of_omap. split; [by intros (x & ? & <-) | by exists (Some s)].
Qed.

(** Each topic of a session leads to a node that lists the session, each entry
    of a node belongs to a topic of its session, and no session is listed twice
    at one node. *)
Record subs_ok (h : heap) (ss : gmap nat ws_session_t) : Prop := {
  so_topic : forall s x sub, ss !! s = Some x -> sub ∈ topics x ->
    ws_topic_split (sub_filter sub) <> None /\
    path h root (edges (sub_filter sub)) = Some (sub_node sub) /\ Some s ∈ ent h (sub_node sub);
  so_entry : forall s l, Some s ∈ ent h l ->
    exists x sub, ss !! s = Some x /\ sub ∈ topics x /\ sub_node sub = l;
  so_once : forall l, NoDup (live (ent h l));
  so_filters : forall s x, ss !! s = Some x -> NoDup (map sub_filter (topics x));
}.

Definition node_ok (n : ws_topic_node_t) : Prop :=
  dead n = tombs (subs n) /\ (length (subs n) <= cap n)%nat /\ (dirty n = true <-> dead n <> 0%nat).

(** *** The interest updates

    For any weight of keys, the updates sent to the hub add up to the
    subscriptions held now: nothing is announced twice or withdrawn too early. *)
Definition key (f : bytes) : bytes := take (ws_topic_interest_prefix f) f.

Fixpoint log_weight (w : bytes -> Z) (log : list (bool * bytes * nat)) : Z :=
  match log with
  | [] => 0
  | (joining, f, p) :: rest => (if joining : bool then w (take p f) else - w (take p f)) + log_weight w rest
  end.

Fixpoint topics_weight (w : bytes -> Z) (ts : list ws_topic_sub_t) : Z :=
  match ts with
  | [] => 0
  | sub :: rest => w (key (sub_filter sub)) + topics_weight w rest
  end.

Definition total_weight (w : bytes -> Z) (ss : gmap nat ws_session_t) : Z :=
  map_fold (fun _ x acc => topics_weight w (topics x) + acc) 0 ss.

Lemma log_weight_snoc w log j f p :
  log_weight w (log ++ [(j, f, p)]) = log_weight w log + (if j : bool then w (take p f) else - w (take p f)).
Proof. induction log as [|[[j0 f0] p0] log IH]; simpl; lia. Qed.

Lemma topics_weight_app w a b : topics_weight w (a ++ b) = topics_weight w a + topics_weight w b.
Proof. induction a as [|sub a IH]; simpl; lia. Qed.

Lemma total_weight_insert_None w ss s y :
  ss !! s = None -> total_weight w (<[s := y]> ss) = topics_weight w (topics y) + total_weight w ss.
Proof. intros H. unfold total_weight. rewrite map_fold_insert_L; [done| |done]. intros; lia. Qed.

Lemma total_weight_delete w ss s x :
  ss !! s = Some x -> total_weight w ss = topics_weight w (topics x) + total_weight w (delete s ss).
Proof.
  intros H. rewrite <- (insert_delete_id ss s x) at 1 by done.
  apply total_weight_insert_None. apply lookup_delete_eq.
Qed.

Lemma total_weight_insert w ss s x y :
  ss !! s = Some x ->
  total_weight w (<[s := y]> ss) = total_weight w ss - topics_weight w (topics x) + topics_weight w (topics y).
Proof.
  intros H. rewrite (total_weight_delete w ss s x) by done.
  rewrite <- insert_delete_eq, total_weight_insert_None by apply lookup_delete_eq. lia.
Qed.

Definition log_ok (t : ws_topic_tree_t) : Prop :=
  forall w, log_weight w (interest_log t) = total_weight w (sessions t).

(** The invariant of the tree. *)
Record tree_ok (t : ws_topic_tree_t) : Prop := {
  ok_heap : heap_ok (nodes t);
  ok_fresh : forall l, (next_loc t <= l)%nat -> nodes t !! l = None;
  ok_subs : subs_ok (nodes t) (sessions t);
  ok_nodes : forall l n, nodes t !! l = Some n -> node_ok n;
  ok_tidy : tidy (nodes t);
  ok_dirty_nodup : NoDup (dirty_list t);
  ok_dirty : forall l, l ∈ dirty_list t <-> dirty_of (nodes t) l = true;
  ok_settled : walking t = 0%nat -> dirty_list t = [];
  ok_log : log_ok t;
}.

Lemma ent_pruned h h' l : pruned h h' -> ent h' l = ent h l.
Proof.
  intros [O K _]. unfold ent. destruct (h' !! l) as [n'|] eqn:E'.
  - destruct (O _ _ E') as (n & -> & D). unfold data in D. congruence.
  - destruct (h !! l) as [n|] eqn:E; [|done]. destruct (subs n) eqn:Es; [done|].
    destruct (K _ _ E) as [? ?]; congruence.
Qed.

Lemma ent_lookup h l s : Some s ∈ ent h l -> exists n, h !! l = Some n /\ subs n <> [].
Proof.
  unfold ent. destruct (h !! l) as [n|]; [|by intros ?%elem_of_nil].
  intros H. exists n. split; [done|]. intros E. rewrite E in H. by apply elem_of_nil in H.
Qed.

Lemma subs_ok_pruned h h' ss : pruned h h' -> subs_ok h ss -> subs_ok h' ss.
Proof.
  intros Hp [T E O F]. split.
  - intros s x sub Hs Hsub. destruct (T _ _ _ Hs Hsub) as (Hf & Hpath & He).
    rewrite (ent_pruned h h') by done. split_and!; [done| |done].
    destruct (ent_lookup _ _ _ He) as (n & ? & ?). by eapply pr_path.
  - intros s l. rewrite (ent_pruned h h') by done. apply E.
  - intros l. rewrite (ent_pruned h h') by done. apply O.
  - done.
Qed.

Lemma nodes_ok_pruned h h' :
  pruned h h' -> (forall l n, h !! l = Some n -> node_ok n) -> forall l n, h' !! l = Some n -> node_ok n.
Proof.
  intros Hp H l n' Hl. destruct (pr_old _ _ Hp _ _ Hl) as (n & Hn & D). specialize (H _ _ Hn).
  unfold data in D. injection D as D1 D2 D3 D4. unfold node_ok in *. by rewrite D1, D2, D3, D4.
Qed.

Lemma node_ok_dirty n : node_ok n -> dirty n = true -> subs n <> [].
Proof. intros (Hd & _ & Hb) H E. apply Hb in H. rewrite E in Hd. by rewrite Hd in H. Qed.

Lemma dirty_pruned h h' l :
  pruned h h' -> (forall l n, h !! l = Some n -> node_ok n) -> dirty_of h' l = dirty_of h l.
Proof.
  intros [O K _] H. unfold dirty_of. destruct (h' !! l) as [n'|] eqn:E'.
  - destruct (O _ _ E') as (n & -> & D). unfold data in D. congruence.
  - destruct (h !! l) as [n|] eqn:E; [|done]. destruct (dirty n) eqn:Ed; [|done].
    destruct (K _ _ E) as [? ?]; [|congruence]. by eapply node_ok_dirty; [eapply H|].
Qed.

Lemma fresh_pruned h h' l : pruned h h' -> h !! l = None -> h' !! l = None.
Proof.
  intros [O _ _] H. destruct (h' !! l) as [n'|] eqn:E; [|done].
  destruct (O _ _ E) as (n & ? & _). congruence.
Qed.

(** ** Removing one entry *)

Lemma ent_insert h l n q : ent (<[l := n]> h) q = if decide (q = l) then subs n else ent h q.
Proof.
  unfold ent. case_decide as E; [subst; by rewrite lookup_insert_eq | by rewrite lookup_insert_ne].
Qed.

Lemma subs_ok_remove h ss s x before sub after n n' :
  heap_ok h -> subs_ok h ss -> ss !! s = Some x -> topics x = before ++ sub :: after ->
  h !! sub_node sub = Some n -> links n' = links n ->
  (forall s', Some s' ∈ subs n' <-> s' <> s /\ Some s' ∈ subs n) -> NoDup (live (subs n')) ->
  subs_ok (<[sub_node sub := n']> h) (<[s := set_topics (before ++ after) x]> ss).
Proof.
  intros Hok [T E O F] Hs Ht Hn Hlinks Hmem Hnd.
  pose proof (same_shape_insert h _ n n' Hn Hlinks) as Hshape.
  assert (forall sub', sub' ∈ before ++ after -> sub' ∈ topics x /\ sub_node sub' <> sub_node sub) as Hother.
  { intros sub' Hin. assert (sub' ∈ topics x) as Hin' by (rewrite Ht; set_solver).
    split; [done|]. intros Heq. pose proof (F _ _ Hs) as Hf.
    destruct (T _ _ _ Hs Hin') as (_ & Hp' & _).
    destruct (T s x sub Hs) as (_ & Hp & _); [rewrite Ht; set_solver|].
    rewrite Heq in Hp'. assert (sub_filter sub' = sub_filter sub) as Hfeq.
    { apply edges_inj. by eapply path_inj. }
    rewrite Ht, map_app in Hf. cbn [map] in Hf. apply NoDup_app in Hf as (_ & Hd & Hf2).
    apply NoDup_cons in Hf2 as [Hf2 _]. apply elem_of_app in Hin as [Hin|Hin].
    - apply (Hd (sub_filter sub')); [by apply list_elem_of_fmap_2|]. rewrite Hfeq. by left.
    - apply Hf2. rewrite <- Hfeq. by apply list_elem_of_fmap_2. }
  assert (ent h (sub_node sub) = subs n) as Hent by (unfold ent; by rewrite Hn).
  split.
  - intros s0 x0 sub0 Hs0 Hsub0. rewrite (path_same _ _ _ _ Hshape), ent_insert.
    destruct (decide (s0 = s)) as [->|Hne].
    + rewrite lookup_insert_eq in Hs0. injection Hs0 as <-. cbn [set_topics topics] in Hsub0.
      destruct (Hother _ Hsub0) as [Hin Hnode]. destruct (T _ _ _ Hs Hin) as (? & ? & ?).
      rewrite decide_False by done. done.
    + rewrite lookup_insert_ne in Hs0 by done. destruct (T _ _ _ Hs0 Hsub0) as (? & ? & He).
      split_and!; [done..|]. case_decide as Hd; [|done]. apply Hmem. split; [done|].
      by rewrite <- Hent, <- Hd.
  - intros s0 l. rewrite ent_insert. intros He.
    assert (Some s0 ∈ ent h l /\ (l = sub_node sub -> s0 <> s)) as [He0 Hl].
    { case_decide as Hd; [|done]. subst l. rewrite Hent. apply Hmem in He. naive_solver. }
    destruct (E _ _ He0) as (x0 & sub0 & Hs0 & Hsub0 & <-).
    destruct (decide (s0 = s)) as [->|Hne].
    + rewrite Hs in Hs0. injection Hs0 as <-. exists (set_topics (before ++ after) x), sub0. rewrite lookup_insert_eq.
      split_and!; [done| |done]. cbn [set_topics topics]. rewrite Ht in Hsub0.
      apply elem_of_app in Hsub0 as [?|[->|?]%elem_of_cons]; [set_solver| |set_solver].
      by destruct (Hl eq_refl).
    + exists x0, sub0. by rewrite lookup_insert_ne.
  - intros l. rewrite ent_insert. case_decide; [done | apply O].
  - intros s0 x0. destruct (decide (s0 = s)) as [->|Hne].
    + rewrite lookup_insert_eq. intros [= <-]. cbn [set_topics topics]. pose proof (F _ _ Hs) as Hf.
      rewrite Ht in Hf. rewrite map_app in *. cbn [map] in Hf. apply NoDup_app in Hf as (? & Hd & Hf).
      apply NoDup_cons in Hf as [_ ?]. apply NoDup_app. split_and!; [done| |done].
      intros f Hfb Hfa. apply (Hd f Hfb). by right.
    + rewrite lookup_insert_ne by done. apply F.
Qed.

(** ** Subscriber arrays *)

Lemma find_sub_Some a s i : find_sub a s = Some i -> a !! i = Some (Some s).
Proof.
  revert i. induction a as [|[x|] a IH]; intros i; cbn [find_sub]; [done| |].
  - destruct (Nat.eqb_spec x s) as [->|]; [by intros [= <-]|].
    intros (j & Hj & ->)%fmap_Some. by apply IH.
  - intros (j & Hj & ->)%fmap_Some. by apply IH.
Qed.

Lemma find_sub_None a s : find_sub a s = None -> Some s ∉ a.
Proof.
  induction a as [|[x|] a IH]; cbn [find_sub]; [by intros _ ?%elem_of_nil| |].
  - destruct (Nat.eqb_spec x s) as [->|]; [done|]. intros H%fmap_None.
    apply not_elem_of_cons. split; [congruence | by apply IH].
  - intros H%fmap_None. apply not_elem_of_cons. split; [done | by apply IH].
Qed.

Lemma live_app a b : live (a ++ b) = live a ++ live b.
Proof. apply omap_app. Qed.

Lemma live_perm a b : a ≡ₚ b -> live a ≡ₚ live b.
Proof.
  induction 1 as [|[x|] a b _ IH|[x|] [y|] a|a b c _ IH1 _ IH2]; simpl; auto; [constructor|].
  by rewrite IH1.
Qed.

Lemma live_tombstone a i s :
  a !! i = Some (Some s) -> live a ≡ₚ s :: live (<[i := None]> a).
Proof.
  intros H. rewrite <- (take_drop_middle a i (Some s)) at 1 by done.
  rewrite insert_take_drop by (by apply lookup_lt_Some in H). rewrite !live_app. simpl.
  solve_Permutation.
Qed.

Lemma swap_remove_perm a i s :
  a !! i = Some (Some s) -> a ≡ₚ Some s :: swap_remove i a.
Proof.
  intros H. destruct a as [|x a _] using rev_ind; [done|].
  unfold swap_remove. rewrite last_snoc, length_app. simpl length.
  replace (length a + 1 - 1)%nat with (length a) by lia.
  destruct (decide (i < length a)%nat) as [Hi|Hi].
  - rewrite lookup_app_l in H by done. rewrite insert_app_l by done.
    rewrite take_app_length' by (by rewrite length_insert).
    rewrite insert_take_drop by done. rewrite <- (take_drop_middle a i (Some s)) at 1 by done.
    solve_Permutation.
  - assert (i = length a) as ->.
    { apply lookup_lt_Some in H. rewrite length_app in H. simpl in H. lia. }
    rewrite list_lookup_middle in H by done. injection H as ->.
    replace (length a) with (length a + 0)%nat at 2 by lia. rewrite insert_app_r. simpl.
    rewrite take_app_length. solve_Permutation.
Qed.

(** What taking one session out of an array leaves. *)
Lemma live_remove a a' s :
  live a ≡ₚ s :: live a' -> NoDup (live a) ->
  (forall s', Some s' ∈ a' <-> s' <> s /\ Some s' ∈ a) /\ NoDup (live a').
Proof.
  intros Hp Hn. rewrite Hp in Hn. apply NoDup_cons in Hn as [Hs Hn]. split; [|done].
  intros s'. rewrite <- !elem_of_live, Hp, elem_of_cons. naive_solver.
Qed.

Lemma tombs_tombstone a i s :
  a !! i = Some (Some s) -> tombs (<[i := None]> a) = S (tombs a).
Proof.
  intros H. pose proof (live_tombstone _ _ _ H) as Hp. apply Permutation_length in Hp.
  simpl in Hp. unfold tombs. rewrite length_insert. pose proof (live_length a). lia.
Qed.

Lemma tombs_swap a i s :
  a !! i = Some (Some s) ->
  tombs (swap_remove i a) = tombs a /\ length a = S (length (swap_remove i a)).
Proof.
  intros H. pose proof (swap_remove_perm _ _ _ H) as Hp.
  pose proof (Permutation_length (live_perm _ _ Hp)) as Hl. apply Permutation_length in Hp.
  simpl in Hl, Hp. unfold tombs. lia.
Qed.

Lemma is_empty_subs n : subs n <> [] -> ws_node_is_empty n = false.
Proof.
  intros H. destruct (ws_node_is_empty n) eqn:E; [|done]. by apply is_empty_spec in E as [? _].
Qed.

Lemma is_empty_child n e c : child n e = Some c -> ws_node_is_empty n = false.
Proof.
  intros H. destruct (ws_node_is_empty n) eqn:E; [|done].
  apply is_empty_spec in E as [_ E]. by rewrite E in H.
Qed.

Lemma insert_nonempty (a : list (option nat)) i x e : a !! i = Some e -> <[i := x]> a <> [].
Proof.
  intros H E. apply lookup_lt_Some in H. apply (f_equal length) in E.
  rewrite length_insert in E. simpl in E. lia.
Qed.

(** Entries may only be struck out. *)
Definition struck (a a' : list (option nat)) : Prop := Forall2 (fun e e' => e' = e \/ e' = None) a a'.

#[export] Instance struck_refl : Reflexive struck.
Proof. intros a. apply Forall_Forall2_diag, Forall_true. by left. Qed.

#[export] Instance struck_trans : Transitive struck.
Proof.
  intros a b c Hab. revert c. induction Hab as [|e e' a b He _ IH]; intros c; [done|].
  inversion 1; subst. constructor; [naive_solver | by apply IH].
Qed.

Lemma struck_insert a i : struck a (<[i := None]> a).
Proof.
  revert i. induction a as [|e a IH]; intros [|i]; simpl; try reflexivity.
  - constructor; [by right | by apply struck_refl].
  - constructor; [by left | apply IH].
Qed.

(** [t'] is [t] with the links untouched and entries struck out: all that can
    happen while a walk is in flight. *)
Definition tombstoned (t t' : ws_topic_tree_t) : Prop :=
  same_shape (nodes t) (nodes t') /\ forall l, struck (ent (nodes t) l) (ent (nodes t') l).

#[export] Instance tombstoned_refl : Reflexive tombstoned.
Proof. intros t. by split. Qed.

#[export] Instance tombstoned_trans : Transitive tombstoned.
Proof. intros a b c [S1 E1] [S2 E2]. split; [by etrans|]. intros l. etrans; eauto. Qed.

(** ** Unsubscribing *)

(** Detaching while a walk is in flight. *)
Lemma detach_walking t l n s i :
  nodes t !! l = Some n -> find_sub (subs n) s = Some i -> (0 < walking t)%nat ->
  ws_node_detach t l s =
    Some (set_dirty_list
            (<[l := set_dirty true (set_subs (<[i := None]> (subs n)) (cap n) (S (dead n)) n)]> (nodes t))
            (if dirty n then dirty_list t else dirty_list t ++ [l]) t).
Proof.
  intros Hl Hf Hw. unfold ws_node_detach. rewrite Hl. simpl. rewrite Hf.
  rewrite (proj2 (Nat.ltb_lt _ _) Hw). unfold ws_tree_mark_dirty. simpl.
  rewrite lookup_insert_eq. simpl. destruct (dirty n) eqn:E.
  - unfold set_nodes, set_dirty_list, set_dirty, set_subs. simpl. by rewrite E.
  - by rewrite insert_insert_eq.
Qed.

Lemma detach_idle t l n s i :
  nodes t !! l = Some n -> find_sub (subs n) s = Some i -> walking t = 0%nat ->
  ws_node_detach t l s =
    let h := <[l := set_subs (swap_remove i (subs n)) (cap n) (dead n) n]> (nodes t) in
    h' ← ws_node_prune (size h) h l; Some (set_nodes h' t).
Proof.
  intros Hl Hf Hw. unfold ws_node_detach. rewrite Hl. simpl. rewrite Hf.
  by rewrite (proj2 (Nat.ltb_ge 0 (walking t))) by lia.
Qed.

Lemma dirty_of_insert h l n q :
  dirty_of (<[l := n]> h) q = if decide (q = l) then dirty n else dirty_of h q.
Proof.
  unfold dirty_of. case_decide; [subst; by rewrite lookup_insert_eq | by rewrite lookup_insert_ne].
Qed.

(** The subscription a drop removes is found at its node. *)
Lemma topic_entry t s x sub :
  tree_ok t -> sessions t !! s = Some x -> sub ∈ topics x ->
  exists n i, nodes t !! sub_node sub = Some n /\ find_sub (subs n) s = Some i /\
    subs n !! i = Some (Some s).
Proof.
  intros Hok Hs Hin. destruct (so_topic _ _ (ok_subs _ Hok) _ _ _ Hs Hin) as (_ & _ & He).
  unfold ent in He. destruct (nodes t !! sub_node sub) as [n|]; [|by apply elem_of_nil in He].
  destruct (find_sub (subs n) s) as [i|] eqn:Ef; [|by apply find_sub_None in Ef].
  exists n, i. by apply find_sub_Some in Ef as ?.
Qed.

(** The parts of the invariant that do not mention the sessions survive a
    detach, the others hold for the session without the subscription. *)
Definition dropped (t t' : ws_topic_tree_t) (s : nat) (x : ws_session_t) (ts : list ws_topic_sub_t) : Prop :=
  sessions t' = <[s := set_topics ts x]> (sessions t) /\ mark t' = mark t /\
  walking t' = walking t /\ ((0 < walking t)%nat -> tombstoned t t').

Lemma log_ok_drop (log : list (bool * bytes * nat)) ss s x before sub after :
  (forall w, log_weight w log = total_weight w ss) -> ss !! s = Some x -> topics x = before ++ sub :: after ->
  forall w, log_weight w (log ++ [(false, sub_filter sub, ws_topic_interest_prefix (sub_filter sub))]) =
    total_weight w (<[s := set_topics (before ++ after) x]> ss).
Proof.
  intros H Hs Ht w. rewrite log_weight_snoc, H, (total_weight_insert w ss s x) by done.
  rewrite Ht. cbn [set_topics topics]. rewrite !topics_weight_app. cbn [topics_weight].
  unfold key. lia.
Qed.

Lemma drop_walking t s x before sub after :
  tree_ok t -> sessions t !! s = Some x -> topics x = before ++ sub :: after -> (0 < walking t)%nat ->
  exists t', ws_sub_drop t s before sub after = Some t' /\ tree_ok t' /\ dropped t t' s x (before ++ after).
Proof.
  intros Hok Hs Ht Hw. destruct (topic_entry t s x sub Hok Hs) as (n & i & Hn & Hf & Hi).
  { rewrite Ht. set_solver. }
  unfold ws_sub_drop. rewrite (detach_walking _ _ _ _ _ Hn Hf Hw). simpl. rewrite Hs. simpl.
  eexists. split; [done|]. set (n' := set_dirty true _).
  assert (links n' = links n) as Hlinks by done.
  pose proof (same_shape_insert _ _ _ _ Hn Hlinks) as Hshape.
  destruct (ok_nodes _ Hok _ _ Hn) as (Hdead & Hcap & Hdirty).
  destruct (live_remove (subs n) (subs n') s (live_tombstone _ _ _ Hi)) as [Hmem Hnd].
  { pose proof (so_once _ _ (ok_subs _ Hok) (sub_node sub)) as H. unfold ent in H. by rewrite Hn in H. }
  split.
  - split; simpl.
    + by eapply heap_ok_shape, ok_heap.
    + intros l Hl. destruct (decide (l = sub_node sub)) as [->|].
      { by rewrite (ok_fresh _ Hok) in Hn. }
      rewrite lookup_insert_ne by done. by apply ok_fresh.
    + by eapply subs_ok_remove; [apply ok_heap | apply ok_subs | ..].
    + intros l m Hl. destruct (decide (l = sub_node sub)) as [->|].
      * rewrite lookup_insert_eq in Hl. injection Hl as <-. unfold node_ok. simpl.
        rewrite (tombs_tombstone _ _ _ Hi), length_insert. by rewrite Hdead.
      * rewrite lookup_insert_ne in Hl by done. by eapply ok_nodes.
    + intros l m Hl Hr Hr'. destruct (decide (l = sub_node sub)) as [->|].
      * rewrite lookup_insert_eq in Hl. injection Hl as <-. apply is_empty_subs.
        by eapply insert_nonempty.
      * rewrite lookup_insert_ne in Hl by done. by eapply ok_tidy.
    + pose proof (ok_dirty_nodup _ Hok) as Hnodup. destruct (dirty n) eqn:Ed; [done|].
      apply NoDup_app. split_and!; [done| |apply NoDup_singleton].
      intros l Hl ->%list_elem_of_singleton. apply (ok_dirty _ Hok) in Hl. unfold dirty_of in Hl.
      rewrite Hn in Hl. congruence.
    + intros l. rewrite dirty_of_insert. pose proof (ok_dirty _ Hok l) as Hl.
      destruct (dirty n) eqn:Ed; case_decide as Hd; subst; simpl.
      * rewrite Hl. unfold dirty_of. by rewrite Hn, Ed.
      * done.
      * split; [done|]. intros _. set_solver.
      * rewrite <- Hl. set_solver.
    + lia.
    + exact (log_ok_drop _ _ _ _ _ _ _ (ok_log _ Hok) Hs Ht).
  - split_and!; try done. intros _. split; [done|]. intros l. simpl. rewrite ent_insert.
    case_decide as Hd; [subst l|done]. unfold ent. rewrite Hn. apply struck_insert.
Qed.

Lemma drop_idle t s x before sub after :
  tree_ok t -> sessions t !! s = Some x -> topics x = before ++ sub :: after -> walking t = 0%nat ->
  exists t', ws_sub_drop t s before sub after = Some t' /\ tree_ok t' /\ dropped t t' s x (before ++ after).
Proof.
  intros Hok Hs Ht Hw. destruct (topic_entry t s x sub Hok Hs) as (n & i & Hn & Hf & Hi).
  { rewrite Ht. set_solver. }
  destruct (tombs_swap _ _ _ Hi) as [Htombs Hlen].
  destruct (ok_nodes _ Hok _ _ Hn) as (Hdead & Hcap & Hdirty).
  assert (dirty_list t = []) as Hdl by (by apply ok_settled).
  unfold ws_sub_drop. rewrite (detach_idle _ _ _ _ _ Hn Hf Hw). cbv zeta.
  set (n' := set_subs _ _ _ _). set (h := <[_ := _]> _).
  assert (links n' = links n) as Hlinks by done.
  pose proof (same_shape_insert _ _ _ _ Hn Hlinks) as Hshape.
  assert (forall l m, h !! l = Some m -> node_ok m) as Hnodes.
  { intros l m Hl. unfold h in Hl. destruct (decide (l = sub_node sub)) as [->|].
    - rewrite lookup_insert_eq in Hl. injection Hl as <-. unfold node_ok. simpl.
      rewrite Htombs. split_and!; [done|lia|done].
    - rewrite lookup_insert_ne in Hl by done. by eapply ok_nodes. }
  destruct (ws_node_prune_ok (size h) h (sub_node sub)) as (h' & -> & Hok' & Htidy' & Hpr).
  { by eapply heap_ok_shape, ok_heap. }
  { unfold h. by rewrite lookup_insert_eq. }
  { intros l m Hl Hr Hl'. unfold h in Hl. rewrite lookup_insert_ne in Hl by done. by eapply ok_tidy. }
  { done. }
  destruct (live_remove (subs n) (subs n') s) as [Hmem Hnd].
  { apply (live_perm _ _ (swap_remove_perm _ _ _ Hi)). }
  { pose proof (so_once _ _ (ok_subs _ Hok) (sub_node sub)) as H. unfold ent in H. by rewrite Hn in H. }
  simpl. rewrite Hs. simpl. eexists. split; [done|]. split.
  - split; simpl.
    + done.
    + intros l Hl. apply (fresh_pruned h); [done|]. unfold h.
      destruct (decide (l = sub_node sub)) as [->|]; [by rewrite (ok_fresh _ Hok) in Hn|].
      rewrite lookup_insert_ne by done. by apply ok_fresh.
    + apply (subs_ok_pruned h); [done|].
      by eapply subs_ok_remove; [apply ok_heap | apply ok_subs | ..].
    + by eapply nodes_ok_pruned.
    + done.
    + apply Hok.
    + intros l. rewrite (dirty_pruned h h') by done. unfold h. rewrite dirty_of_insert.
      rewrite (ok_dirty _ Hok). case_decide; [subst|done]. unfold dirty_of. by rewrite Hn.
    + done.
    + exact (log_ok_drop _ _ _ _ _ _ _ (ok_log _ Hok) Hs Ht).
  - split_and!; try done. lia.
Qed.

(** Dropping a subscription is safe in both modes. *)
Lemma ws_sub_drop_ok t s x before sub after :
  tree_ok t -> sessions t !! s = Some x -> topics x = before ++ sub :: after ->
  exists t', ws_sub_drop t s before sub after = Some t' /\ tree_ok t' /\ dropped t t' s x (before ++ after).
Proof.
  intros. destruct (decide (walking t = 0%nat)); [by apply drop_idle | apply drop_walking; try done; lia].
Qed.

Lemma unsubscribe_loop_ok t s x before rest f :
  tree_ok t -> sessions t !! s = Some x -> topics x = before ++ rest ->
  exists r t', unsubscribe_loop t s before rest f = Some (r, t') /\ tree_ok t' /\
    if r : bool then
      exists b sub a, rest = b ++ sub :: a /\ sub_filter sub = f /\ dropped t t' s x (before ++ b ++ a)
    else t' = t /\ ws_sub_find rest f = None.
Proof.
  revert before. induction rest as [|sub rest IH]; intros before Hok Hs Ht; cbn [unsubscribe_loop ws_sub_find].
  - exists false, t. done.
  - destruct (eqb_bytes (sub_filter sub) f) eqn:E.
    + apply eqb_bytes_eq in E.
      destruct (ws_sub_drop_ok t s x before sub rest Hok Hs Ht) as (t' & -> & ? & ?). simpl.
      exists true, t'. split_and!; [done..|]. exists [], sub, rest. done.
    + destruct (IH (before ++ [sub]) Hok Hs) as (r & t' & -> & ? & Hr).
      { by rewrite <- app_assoc. }
      exists r, t'. split_and!; [done..|]. destruct r; [|done].
      destruct Hr as (b & sub' & a & -> & ? & Hd). exists (sub :: b), sub', a.
      split_and!; [done..|]. by rewrite <- app_assoc in Hd.
Qed.

(** Unsubscribing everything: the session ends without topics, the other
    sessions keep theirs. *)
Definition left_all (t t' : ws_topic_tree_t) (s : nat) (x : ws_session_t) : Prop := dropped t t' s x [].

Lemma unsubscribe_all_loop_ok fuel t s x :
  tree_ok t -> sessions t !! s = Some x -> (length (topics x) <= fuel)%nat ->
  exists t', unsubscribe_all_loop fuel t s = Some t' /\ tree_ok t' /\ left_all t t' s x.
Proof.
  revert t x. induction fuel as [|fuel IH]; intros t x Hok Hs Hlen; cbn [unsubscribe_all_loop];
    rewrite Hs; simpl; destruct (topics x) as [|sub rest] eqn:Et.
  1,3: exists t; split_and!; [done..|]; repeat split; try done; simpl;
    symmetry; apply insert_id; rewrite Hs; f_equal; unfold set_topics; rewrite <- Et; by destruct x.
  - simpl in Hlen. lia.
  - destruct (ws_sub_drop_ok t s x [] sub rest Hok Hs Et) as (t1 & -> & Hok1 & Hs1 & Hm1 & Hw1 & Ht1).
    simpl. destruct (IH t1 (set_topics rest x)) as (t2 & -> & Hok2 & Hs2 & Hm2 & Hw2 & Ht2).
    + done.
    + by rewrite Hs1, lookup_insert_eq.
    + simpl in *. lia.
    + exists t2. split_and!; [done..|]. split_and!; [|congruence..|].
      * by rewrite Hs2, Hs1, insert_insert_eq.
      * intros Hw. etrans; [by apply Ht1|]. apply Ht2. lia.
Qed.

Lemma unsubscribe_all_ok t s x :
  tree_ok t -> sessions t !! s = Some x ->
  exists t', ws_topic_unsubscribe_all t s = Some t' /\ tree_ok t' /\ left_all t t' s x.
Proof.
  intros Hok Hs. unfold ws_topic_unsubscribe_all. rewrite Hs. simpl.
  by apply unsubscribe_all_loop_ok.
Qed.

(** ** Settling *)

Lemma live_filter a :
  List.filter (fun s => match s with Some _ => true | None => false end) a = Some <$> live a.
Proof. induction a as [|[s|] a IH]; simpl; by rewrite ?IH. Qed.

Lemma live_Some (a : list nat) : live (Some <$> a) = a.
Proof. unfold live in *. induction a as [|s a IH]; csimpl; [done|]. by f_equal. Qed.

(** Compacting after clearing the flag drops the tombstones and nothing else. *)
Lemma compact_spec n :
  node_ok n -> dead n <> 0%nat ->
  let n' := ws_node_compact (set_dirty false n) in
  node_ok n' /\ links n' = links n /\ subs n' = Some <$> live (subs n) /\ dead n' = 0%nat.
Proof.
  intros (Hd & Hc & _) Hn. unfold ws_node_compact. simpl.
  rewrite (proj2 (Nat.eqb_neq _ _) Hn). unfold node_ok. simpl. rewrite live_filter.
  unfold tombs. rewrite live_Some, length_fmap. pose proof (live_length (subs n)).
  split_and!; try done; lia.
Qed.

Definition same_live (h h' : heap) : Prop := forall l, live (ent h' l) = live (ent h l).

Lemma elem_of_same_live h h' l s : same_live h h' -> Some s ∈ ent h' l <-> Some s ∈ ent h l.
Proof. intros H. by rewrite <- !elem_of_live, H. Qed.

Lemma subs_ok_same_live h h' ss :
  same_shape h h' -> same_live h h' -> subs_ok h ss -> subs_ok h' ss.
Proof.
  intros Hsh Hl [T E O F]. split.
  - intros s x sub Hs Hsub. rewrite (path_same _ _ _ _ Hsh), (elem_of_same_live h h') by done. eauto.
  - intros s l. rewrite (elem_of_same_live h h') by done. eauto.
  - intros l. by rewrite Hl.
  - done.
Qed.

(** The loop of [ws_tree_settle]: the nodes still to be processed hold
    tombstones, so pruning an earlier one cannot free them. *)
Lemma settle_loop_ok ls h ss :
  heap_ok h -> subs_ok h ss -> tidy h -> (forall l n, h !! l = Some n -> node_ok n) ->
  NoDup ls -> (forall l, l ∈ ls <-> dirty_of h l = true) ->
  exists h', settle_loop ls h = Some h' /\ heap_ok h' /\ subs_ok h' ss /\ tidy h' /\
    (forall l n, h' !! l = Some n -> node_ok n /\ dirty n = false) /\
    (forall l, h !! l = None -> h' !! l = None).
Proof.
  revert h. induction ls as [|l ls IH]; intros h Hok Hsubs Htidy Hnodes Hnd Hdirty; cbn [settle_loop].
  - exists h. split_and!; try done. intros l n Hl. split; [by eapply Hnodes|].
    destruct (dirty n) eqn:E; [|done]. assert (l ∈ []) as H; [|by apply elem_of_nil in H].
    apply Hdirty. unfold dirty_of. by rewrite Hl.
  - apply NoDup_cons in Hnd as [Hl Hnd]. assert (dirty_of h l = true) as Hd by (apply Hdirty; by left).
    unfold dirty_of in Hd. destruct (h !! l) as [n|] eqn:En; [|done]. simpl.
    pose proof (Hnodes _ _ En) as Hn. assert (dead n <> 0%nat) as Hdead by (by apply Hn).
    destruct (compact_spec n Hn Hdead) as (Hn' & Hlinks & Hsub' & Hdead').
    set (n' := ws_node_compact _) in *. set (h1 := <[l := n']> h).
    assert (same_shape h h1) as Hsh by (by eapply same_shape_insert).
    assert (same_live h h1) as Hlive.
    { intros q. unfold h1. rewrite ent_insert. case_decide; [subst q|done].
      rewrite Hsub', live_Some. unfold ent. by rewrite En. }
    assert (forall q m, h1 !! q = Some m -> node_ok m) as Hnodes1.
    { intros q m Hq. unfold h1 in Hq. destruct (decide (q = l)) as [->|].
      - rewrite lookup_insert_eq in Hq. by injection Hq as <-.
      - rewrite lookup_insert_ne in Hq by done. by eapply Hnodes. }
    destruct (ws_node_prune_ok (size h1) h1 l) as (h2 & -> & Hok2 & Htidy2 & Hpr).
    { by eapply heap_ok_shape. }
    { unfold h1. by rewrite lookup_insert_eq. }
    { intros q m Hq Hr Hql. unfold h1 in Hq. rewrite lookup_insert_ne in Hq by done. by eapply Htidy. }
    { done. }
    simpl. destruct (IH h2) as (h' & -> & ? & ? & ? & ? & Hfresh); try done.
    + apply (subs_ok_pruned h1); [done|]. by eapply subs_ok_same_live.
    + by eapply nodes_ok_pruned.
    + intros q. rewrite (dirty_pruned h1 h2) by done. unfold h1. rewrite dirty_of_insert.
      case_decide as Hq.
      * subst q. split; [done|]. intros Hc. apply Hn' in Hc. by rewrite Hdead' in Hc.
      * rewrite <- Hdirty, elem_of_cons. naive_solver.
    + exists h'. split_and!; try done. intros q Hq. apply Hfresh, (fresh_pruned h1); [done|].
      unfold h1. rewrite lookup_insert_ne; [done | congruence].
Qed.

Lemma ws_tree_settle_ok t :
  tree_ok t ->
  exists t', ws_tree_settle t = Some t' /\ tree_ok t' /\
    sessions t' = sessions t /\ mark t' = mark t /\ walking t' = walking t.
Proof.
  intros Hok. unfold ws_tree_settle.
  destruct (settle_loop_ok (dirty_list t) (nodes t) (sessions t)) as (h & -> & ? & ? & ? & Hn & Hf);
    try apply Hok.
  simpl. eexists. split; [done|]. split; [|done]. split; simpl; try done.
  - intros l Hl. by apply Hf, ok_fresh.
  - intros l n Hl. by eapply Hn.
  - apply NoDup_nil_2.
  - intros l. unfold dirty_of. destruct (h !! l) as [n|] eqn:E.
    + destruct (Hn _ _ E) as [_ ->]. split; [by intros ?%elem_of_nil | done].
    + split; [by intros ?%elem_of_nil | done].
  - apply Hok.
Qed.

(** ** Subscribing *)

Lemma ws_node_child_spec t p pn lv :
  nodes t !! p = Some pn ->
  let e := edge_of_level lv in
  match child pn e with
  | Some c => ws_node_child t p lv true = Some (Some c, t)
  | None => exists pn' cn, same_but_child pn pn' e (Some (next_loc t)) /\
      parent cn = Some p /\ edge_in cn = Some e /\ (forall e', child cn e' = None) /\
      data cn = ([], 0%nat, 0%nat, false) /\
      ws_node_child t p lv true =
        Some (Some (next_loc t),
              set_alloc (<[next_loc t := cn]> (<[p := pn']> (nodes t))) (S (next_loc t)) t)
  end.
Proof.
  intros Hp. unfold ws_node_child, edge_of_level. rewrite Hp. simpl.
  destruct (is_plus lv); [|destruct (is_hash lv)]; simpl.
  - destruct (plus pn); [done|]. exists (set_plus (Some (next_loc t)) pn), (new_node (Some p) WS_NODE_PLUS []).
    repeat split; try done; by intros [].
  - destruct (hash pn); [done|]. exists (set_hash (Some (next_loc t)) pn), (new_node (Some p) WS_NODE_HASH []).
    repeat split; try done; by intros [].
  - assert (forall m : gmap bytes nat, m !! lv = None ->
      (forall k, children pn ≫= (fun m => m !! k) = m !! k) ->
      same_but_child pn (set_children (Some (<[lv := next_loc t]> m)) pn) (ELit lv) (Some (next_loc t))) as Hadd.
    { intros m Hm Hk. split; [|done]. intros [k| |]; simpl; [|done..].
      rewrite Hk. case_decide as E; [injection E as ->; by rewrite lookup_insert_eq|].
      rewrite lookup_insert_ne; [done | congruence]. }
    destruct (children pn) as [m|] eqn:Em; simpl.
    + destruct (m !! lv) eqn:El; [done|].
      eexists _, (new_node (Some p) WS_NODE_LITERAL lv).
      split; [by apply (Hadd m)|]. repeat split; try done. by intros [].
    + rewrite lookup_empty. eexists _, (new_node (Some p) WS_NODE_LITERAL lv).
      split; [by apply (Hadd ∅)|]. repeat split; try done. by intros [].
Qed.

(** The tree grew: old nodes keep what they hold, new ones hold nothing, and
    paths are kept. *)
Record grown (t t' : ws_topic_tree_t) : Prop := {
  gr_old : forall l n, nodes t !! l = Some n -> exists n', nodes t' !! l = Some n' /\ data n' = data n;
  gr_new : forall l n', nodes t' !! l = Some n' -> nodes t !! l = None -> data n' = ([], 0%nat, 0%nat, false);
  gr_path : forall es l, path (nodes t) root es = Some l -> path (nodes t') root es = Some l;
  gr_rest : sessions t' = sessions t /\ mark t' = mark t /\ walking t' = walking t /\
    dirty_list t' = dirty_list t /\ interest_log t' = interest_log t;
}.

#[export] Instance grown_refl : Reflexive grown.
Proof. intros t. split; eauto. congruence. Qed.

#[export] Instance grown_trans : Transitive grown.
Proof.
  intros a b c [O1 N1 P1 R1] [O2 N2 P2 R2]. split; [| |by auto|intuition congruence].
  - intros l n Hl. destruct (O1 _ _ Hl) as (n1 & H1 & D1). destruct (O2 _ _ H1) as (n2 & H2 & D2).
    exists n2. by rewrite D2.
  - intros l n Hl Hnone. destruct (nodes b !! l) as [m|] eqn:Em; [|by eapply N2].
    destruct (O2 _ _ Em) as (n' & ? & D). rewrite Hl in H. injection H as <-. rewrite D. by eapply N1.
Qed.

Lemma grown_ent t t' l : grown t t' -> ent (nodes t') l = ent (nodes t) l.
Proof.
  intros [O N _ _]. unfold ent. destruct (nodes t !! l) as [n|] eqn:E.
  - destruct (O _ _ E) as (n' & -> & D). unfold data in D. congruence.
  - destruct (nodes t' !! l) as [n'|] eqn:E'; [|done]. specialize (N _ _ E' E). unfold data in N. congruence.
Qed.

Lemma grown_dirty t t' l : grown t t' -> dirty_of (nodes t') l = dirty_of (nodes t) l.
Proof.
  intros [O N _ _]. unfold dirty_of. destruct (nodes t !! l) as [n|] eqn:E.
  - destruct (O _ _ E) as (n' & -> & D). unfold data in D. congruence.
  - destruct (nodes t' !! l) as [n'|] eqn:E'; [|done]. specialize (N _ _ E' E). unfold data in N. congruence.
Qed.

Lemma grown_nodes t t' :
  grown t t' -> (forall l n, nodes t !! l = Some n -> node_ok n) ->
  forall l n, nodes t' !! l = Some n -> node_ok n.
Proof.
  intros [O N _ _] H l n' Hl. unfold node_ok. destruct (nodes t !! l) as [n|] eqn:E.
  - destruct (O _ _ E) as (n0 & H0 & D). rewrite Hl in H0. injection H0 as <-.
    pose proof (H _ _ E) as Hn. unfold node_ok, data in *. injection D as D1 D2 D3 D4. by rewrite D1, D2, D3, D4.
  - specialize (N _ _ Hl E). unfold data in N. injection N as D1 D2 D3 D4.
    rewrite D1, D2, D3, D4. done.
Qed.

(** One step of the descent. *)
Lemma child_step t p pn lv :
  heap_ok (nodes t) -> (forall l, (next_loc t <= l)%nat -> nodes t !! l = None) ->
  tidy_but p (nodes t) -> nodes t !! p = Some pn ->
  exists c t', ws_node_child t p lv true = Some (Some c, t') /\ heap_ok (nodes t') /\
    (forall l, (next_loc t' <= l)%nat -> nodes t' !! l = None) /\
    tidy_but c (nodes t') /\ is_Some (nodes t' !! c) /\ grown t t' /\
    (exists pn', nodes t' !! p = Some pn' /\ child pn' (edge_of_level lv) = Some c).
Proof.
  intros Hok Hfresh Htidy Hp. pose proof (ws_node_child_spec t p pn lv Hp) as Hch. cbv zeta in Hch.
  destruct (child pn (edge_of_level lv)) as [c|] eqn:Ec.
  - exists c, t. destruct (ho_down _ Hok _ _ _ _ Hp Ec) as (cn & Hc & _).
    split_and!; eauto; [|reflexivity].
    intros l n Hl Hr _. destruct (decide (l = p)) as [->|]; [|by eapply Htidy].
    simplify_eq. by eapply is_empty_child.
  - destruct Hch as (pn' & cn & Hsame & Hpar & Hin & Hleaf & Hdata & ->).
    set (c := next_loc t) in *. assert (nodes t !! c = None) as Hc by (by apply Hfresh).
    assert (c <> p) as Hcp by congruence.
    destruct (heap_ok_alloc _ _ _ _ _ _ _ Hok Hp Ec Hc Hpar Hin Hleaf Hsame) as [Hok' Hpath].
    destruct Hsame as (Hch & _ & _ & _ & Hd).
    assert (child pn' (edge_of_level lv) = Some c) as Hpc by (rewrite Hch; by rewrite decide_True).
    assert (<[c := cn]> (<[p := pn']> (nodes t)) !! p = Some pn') as Hp'
      by (by rewrite lookup_insert_ne, lookup_insert_eq).
    eexists c, _. split; [done|]. simpl. split_and!; try done.
    + intros l Hl. rewrite lookup_insert_ne by lia. destruct (decide (l = p)) as [->|].
      { rewrite Hfresh in Hp by lia. done. }
      rewrite lookup_insert_ne by done. apply Hfresh. lia.
    + intros l n Hl Hr Hlc. rewrite lookup_insert_ne in Hl by done.
      destruct (decide (l = p)) as [->|].
      * rewrite lookup_insert_eq in Hl. injection Hl as <-. by eapply is_empty_child.
      * rewrite lookup_insert_ne in Hl by done. by eapply Htidy.
    + by rewrite lookup_insert_eq.
    + split; simpl; [| |done|done].
      * intros l n Hl. destruct (decide (l = c)) as [->|]; [congruence|].
        rewrite lookup_insert_ne by done. destruct (decide (l = p)) as [->|].
        -- rewrite lookup_insert_eq. rewrite Hp in Hl. injection Hl as <-. by exists pn'.
        -- rewrite lookup_insert_ne by done. eauto.
      * intros l n Hl Hnone. destruct (decide (l = c)) as [->|].
        -- rewrite lookup_insert_eq in Hl. by injection Hl as <-.
        -- rewrite lookup_insert_ne in Hl by done. destruct (decide (l = p)) as [->|]; [congruence|].
           rewrite lookup_insert_ne in Hl by done. congruence.
    + eauto.
Qed.

Lemma descend_ok t l es levels :
  heap_ok (nodes t) -> (forall l, (next_loc t <= l)%nat -> nodes t !! l = None) ->
  tidy_but l (nodes t) -> path (nodes t) root es = Some l ->
  exists l' t', descend t l levels = Some (l', t') /\ heap_ok (nodes t') /\
    (forall l, (next_loc t' <= l)%nat -> nodes t' !! l = None) /\
    tidy_but l' (nodes t') /\ grown t t' /\
    path (nodes t') root (es ++ map edge_of_level levels) = Some l'.
Proof.
  revert t l es. induction levels as [|lv levels IH]; intros t l es Hok Hfresh Htidy Hpath;
    cbn [descend map].
  - exists l, t. by rewrite app_nil_r.
  - destruct (root_path_live _ Hok _ _ Hpath) as [n Hn].
    destruct (child_step t l n lv Hok Hfresh Htidy Hn)
      as (c & t1 & -> & Hok1 & Hf1 & Htidy1 & _ & Hg1 & n' & Hn' & Hc). simpl.
    destruct (IH t1 c (es ++ [edge_of_level lv]) Hok1 Hf1 Htidy1) as (l' & t2 & -> & ? & ? & ? & Hg2 & Hp2).
    { apply path_snoc. exists l, n'. split_and!; [by apply Hg1|done|done]. }
    exists l', t2. split_and!; try done; [by etrans|]. by rewrite <- app_assoc in Hp2.
Qed.

(** A node of a filter that the session does not hold does not list it. *)
Lemma not_listed t s x f l :
  tree_ok t -> sessions t !! s = Some x -> ws_sub_find (topics x) f = None ->
  path (nodes t) root (edges f) = Some l -> Some s ∉ ent (nodes t) l.
Proof.
  intros Hok Hs Hf Hp He.
  destruct (so_entry _ _ (ok_subs _ Hok) _ _ He) as (x' & sub & Hs' & Hin & <-). simplify_eq.
  destruct (so_topic _ _ (ok_subs _ Hok) _ _ _ Hs Hin) as (_ & Hp' & _).
  assert (edges f = edges (sub_filter sub)) as Ee by (by eapply path_inj; [apply ok_heap| |]).
  apply edges_inj in Ee. clear -Hf Hin Ee. induction (topics x) as [|sub' ts IH]; [by apply elem_of_nil in Hin|].
  cbn [ws_sub_find] in Hf. destruct (eqb_bytes (sub_filter sub') f) eqn:E; [done|].
  apply elem_of_cons in Hin as [->|Hin]; [|by auto]. by rewrite Ee, eqb_bytes_refl in E.
Qed.

Lemma ws_sub_find_filters ts f : ws_sub_find ts f = None -> f ∉ map sub_filter ts.
Proof.
  induction ts as [|sub ts IH]; cbn [ws_sub_find map]; [by intros _ ?%elem_of_nil|].
  destruct (eqb_bytes (sub_filter sub) f) eqn:E; [done|]. intros H.
  apply not_elem_of_cons. split; [|by apply IH]. intros ->. by rewrite eqb_bytes_refl in E.
Qed.

Lemma subs_ok_add t1 t s x f l n n' :
  tree_ok t -> grown t t1 -> heap_ok (nodes t1) -> sessions t !! s = Some x ->
  ws_topic_split f <> None -> ws_sub_find (topics x) f = None ->
  path (nodes t1) root (edges f) = Some l -> nodes t1 !! l = Some n ->
  links n' = links n -> subs n' = subs n ++ [Some s] -> Some s ∉ subs n ->
  subs_ok (<[l := n']> (nodes t1))
    (<[s := set_topics ({| sub_node := l; sub_filter := f |} :: topics x) x]> (sessions t)).
Proof.
  intros Hok Hg Hok1 Hs Hsplit Hf Hp Hn Hlinks Hsubs Hnot.
  destruct (ok_subs _ Hok) as [T E O F].
  pose proof (same_shape_insert _ _ _ _ Hn Hlinks) as Hsh.
  assert (ent (nodes t) l = subs n) as Hent.
  { rewrite <- (grown_ent t t1) by done. unfold ent. by rewrite Hn. }
  assert (forall s0 q, Some s0 ∈ ent (<[l := n']> (nodes t1)) q <->
            Some s0 ∈ ent (nodes t) q \/ (q = l /\ s0 = s)) as Hmem.
  { intros s0 q. rewrite ent_insert. case_decide as Hq.
    - subst q. rewrite Hsubs, Hent. rewrite elem_of_app, list_elem_of_singleton. naive_solver.
    - rewrite (grown_ent t t1) by done. naive_solver. }
  split.
  - intros s0 x0 sub0 Hs0 Hsub0. rewrite (path_same _ _ _ _ Hsh), Hmem.
    assert (forall x1, sessions t !! s0 = Some x1 -> sub0 ∈ topics x1 ->
      ws_topic_split (sub_filter sub0) <> None /\
      path (nodes t1) root (edges (sub_filter sub0)) = Some (sub_node sub0) /\
      (Some s0 ∈ ent (nodes t) (sub_node sub0) \/ (sub_node sub0 = l /\ s0 = s))) as Hold.
    { intros x1 H1 H2. destruct (T _ _ _ H1 H2) as (? & ? & ?). split_and!; [done|by apply Hg|by left]. }
    destruct (decide (s0 = s)) as [->|].
    + rewrite lookup_insert_eq in Hs0. injection Hs0 as <-. cbn [set_topics topics] in Hsub0.
      apply elem_of_cons in Hsub0 as [->|Hsub0]; [|by eapply Hold]. simpl. auto.
    + rewrite lookup_insert_ne in Hs0 by done. by eapply Hold.
  - intros s0 q He. apply Hmem in He as [He|[-> ->]].
    + destruct (E _ _ He) as (x0 & sub0 & Hs0 & Hsub0 & <-). destruct (decide (s0 = s)) as [->|].
      * rewrite Hs in Hs0. injection Hs0 as <-. eexists _, sub0. rewrite lookup_insert_eq.
        split_and!; [done|by right|done].
      * exists x0, sub0. by rewrite lookup_insert_ne.
    + eexists _, _. rewrite lookup_insert_eq. split_and!; [done|by left|done].
  - intros q. rewrite ent_insert. case_decide as Hq; [|rewrite (grown_ent t t1) by done; apply O].
    rewrite Hsubs, live_app, NoDup_app. split_and!.
    + rewrite <- Hent. apply O.
    + intros s0 H0 H1. apply elem_of_live in H0, H1. apply list_elem_of_singleton in H1. naive_solver.
    + apply NoDup_singleton.
  - intros s0 x0. destruct (decide (s0 = s)) as [->|].
    + rewrite lookup_insert_eq. intros [= <-]. cbn [set_topics topics map]. apply NoDup_cons.
      split; [by apply ws_sub_find_filters | by eapply F].
    + rewrite lookup_insert_ne by done. apply F.
Qed.

(** What a subscribe call answers. *)
Definition subscribe_result (x : ws_session_t) (f : bytes) (max : nat) : bool :=
  match ws_topic_split f, ws_sub_find (topics x) f with
  | None, _ => false
  | Some _, Some _ => true
  | Some _, None => (max =? 0)%nat || (length (topics x) <? max)%nat
  end.

Lemma subscribe_ok t s x f max :
  tree_ok t -> sessions t !! s = Some x ->
  exists t', ws_topic_subscribe t s f max = Some (subscribe_result x f max, t') /\ tree_ok t' /\
    mark t' = mark t /\ walking t' = walking t /\
    ((subscribe_result x f max = false \/ is_Some (ws_sub_find (topics x) f)) /\ t' = t \/
     subscribe_result x f max = true /\ ws_sub_find (topics x) f = None /\
     exists l, sessions t' =
       <[s := set_topics ({| sub_node := l; sub_filter := f |} :: topics x) x]> (sessions t)).
Proof.
  intros Hok Hs. unfold ws_topic_subscribe, subscribe_result.
  destruct (ws_topic_split f) as [levels|] eqn:Esplit; [|exists t; naive_solver].
  rewrite Hs. simpl. destruct (ws_sub_find (topics x) f) as [sub|] eqn:Ef; [exists t; naive_solver|].
  unfold ws_sub_count. rewrite Nat.leb_antisym, <- negb_orb.
  destruct ((max =? 0)%nat || (length (topics x) <? max)%nat) eqn:Emax; simpl; [|exists t; naive_solver].
  apply ws_topic_split_levels in Esplit as Hl. destruct Hl as [_ ->].
  destruct (descend_ok t root [] (split_on SLASH f)) as (l & t1 & -> & Hok1 & Hf1 & Ht1 & Hg & Hp);
    [apply Hok | apply Hok | apply Hok | done |]. simpl.
  destruct (root_path_live _ Hok1 _ _ Hp) as [n Hn]. rewrite Hn. simpl.
  assert (sessions t1 = sessions t) as -> by apply Hg.
  pose proof (grown_nodes _ _ Hg (ok_nodes _ Hok)) as Hnodes.
  eexists. split; [done|].
  assert (Some s ∉ subs n) as Hnot.
  { assert (subs n = ent (nodes t1) l) as -> by (unfold ent; by rewrite Hn).
    rewrite (grown_ent t t1) by done. intros He.
    destruct (ent_lookup _ _ _ He) as (n0 & Hn0 & _).
    destruct (ho_reach _ (ok_heap _ Hok) _ _ Hn0) as [es Hes].
    assert (es = edges f) as -> by (eapply path_inj; [apply Hok1|by apply Hg|done]).
    by eapply not_listed. }
  set (n' := set_subs _ _ _ _). assert (links n' = links n) as Hlinks by done.
  destruct (Hnodes _ _ Hn) as (Hd & Hc & Hb).
  split; [|split_and!; [by apply Hg..|]; right; split_and!; [done..|by eexists]].
  split; simpl.
  - eapply heap_ok_shape; [by eapply same_shape_insert|done].
  - intros q Hq. rewrite lookup_insert_ne; [by apply Hf1|]. intros <-. by rewrite Hf1 in Hn.
  - eapply subs_ok_add; try done. by rewrite Esplit.
  - intros q m Hq. destruct (decide (q = l)) as [->|].
    + rewrite lookup_insert_eq in Hq. injection Hq as <-. unfold node_ok. simpl. split_and!.
      * unfold tombs in *. rewrite live_app, !length_app. simpl. pose proof (live_length (subs n)). lia.
      * rewrite length_app. simpl. destruct (Nat.eqb_spec (length (subs n)) (cap n)); [|lia].
        destruct (Nat.eqb_spec (cap n) 0); lia.
      * done.
    + rewrite lookup_insert_ne in Hq by done. by eapply Hnodes.
  - intros q m Hq Hr _. destruct (decide (q = l)) as [->|].
    + rewrite lookup_insert_eq in Hq. injection Hq as <-. apply is_empty_subs. simpl. by destruct (subs n).
    + rewrite lookup_insert_ne in Hq by done. by eapply Ht1.
  - replace (dirty_list t1) with (dirty_list t) by (symmetry; apply Hg). apply Hok.
  - intros q. rewrite dirty_of_insert. replace (dirty_list t1) with (dirty_list t) by (symmetry; apply Hg).
    rewrite (ok_dirty _ Hok), <- (grown_dirty t t1) by done. case_decide; [subst|done].
    unfold dirty_of. by rewrite Hn.
  - replace (dirty_list t1) with (dirty_list t) by (symmetry; apply Hg).
    replace (walking t1) with (walking t) by (symmetry; apply Hg). apply Hok.
  - intros w. cbn [ws_interest_publish log_interest interest_log set_sessions set_nodes sessions].
    replace (interest_log t1) with (interest_log t) by (symmetry; apply Hg).
    rewrite log_weight_snoc, (total_weight_insert w _ s x), (ok_log _ Hok w) by done.
    cbn [set_topics topics topics_weight sub_filter]. unfold key. lia.
Qed.

End TopicTreeInv.
