(* ===== verification/TopicTreeMatch.v ===== *)
(** * Publishing through the topic tree

    Which sessions a publish reaches (src/src/websocket/ws_topic_tree.c,
    [ws_topic_visit] to [ws_topic_count]): exactly those holding a filter that
    matches the topic, each once, even when a send tears sessions down while the
    tree is being walked; and the refinement of the whole tree to a table of
    filters per session. *)

From S2P Require Import Prelude TopicFilter TopicTree TopicTreeInv.

Module TopicTreeMatch.
Import TopicFilter TopicTree TopicTreeInv.

(** ** The nodes a walk visits *)

Fixpoint visited (h : heap) (l : nat) (levels : list bytes) : list nat :=
  match h !! l with
  | None => []
  | Some n =>
      option_list (hash n) ++
      match levels with
      | [] => [l]
      | lv :: rest =>
          match child n (ELit lv) with Some c => visited h c rest | None => [] end ++
          match plus n with Some c => visited h c rest | None => [] end
      end
  end.

(** Matching of a path of edges against topic levels. *)
Inductive ematch : list edge -> list bytes -> Prop :=
  | em_end : ematch [] []
  | em_hash ls : ematch [EHash] ls
  | em_plus es l ls : ematch es ls -> ematch (EPlus :: es) (l :: ls)
  | em_lit es l ls : ematch es ls -> ematch (ELit l :: es) (l :: ls).

Lemma ematch_matches fs ls : ematch (map edge_of_level fs) ls <-> matches fs ls.
Proof.
  split.
  - remember (map edge_of_level fs) as es eqn:Ees. intros H. revert fs Ees.
    induction H as [|ls|es l ls _ IH|es l ls _ IH]; intros [|f fs] Ees;
      cbn [map] in Ees; try discriminate Ees.
    1: apply m_end.
    all: injection Ees as Ef Efs; unfold edge_of_level in Ef; destruct (is_plus f) eqn:Ep; [|destruct (is_hash f) eqn:Eh];
      simplify_eq.
    + apply eqb_bytes_eq in Eh as ->. symmetry in Efs. apply map_eq_nil in Efs as ->. constructor.
    + apply eqb_bytes_eq in Ep as ->. constructor. by apply IH.
    + by constructor; [done..|apply IH].
  - induction 1 as [|ls|fs l ls _ IH|l fs ls Hp Hh _ IH]; cbn [map]; [constructor..| |].
    + by constructor.
    + unfold edge_of_level at 1. rewrite Hp, Hh. by constructor.
Qed.

Lemma elem_of_slot (o : option nat) q : q ∈ option_list o <-> o = Some q.
Proof. destruct o; simpl; [rewrite list_elem_of_singleton; naive_solver | split; [by intros ?%elem_of_nil | done]]. Qed.

Lemma elem_of_visited h l levels q :
  is_Some (h !! l) -> (forall p n e c, h !! p = Some n -> child n e = Some c -> is_Some (h !! c)) ->
  q ∈ visited h l levels <-> exists es, path h l es = Some q /\ ematch es levels.
Proof.
  intros Hl Hlive. revert l Hl. induction levels as [|lv rest IH]; intros l [n Hn]; cbn [visited];
    rewrite Hn, elem_of_app, elem_of_slot.
  - rewrite list_elem_of_singleton. split.
    + intros [Hh| ->]; [|exists []; split; [done|constructor]].
      exists [EHash]. split; [|constructor]. cbn [path]. rewrite Hn. simpl. by rewrite Hh.
    + intros (es & Hp & Hm). inversion Hm; subst; [right; by injection Hp|].
      left. cbn [path] in Hp. rewrite Hn in Hp. simpl in Hp. by destruct (hash n).
  - rewrite elem_of_app. split.
    + intros [Hh|[Hc|Hc]].
      * exists [EHash]. split; [|constructor]. cbn [path]. rewrite Hn. simpl. by rewrite Hh.
      * destruct (child n (ELit lv)) as [c|] eqn:Ec; [|by apply elem_of_nil in Hc].
        apply IH in Hc as (es & Hp & Hm); [|by eapply Hlive].
        exists (ELit lv :: es). split; [|by constructor]. cbn [path]. rewrite Hn. simpl in *. by rewrite Ec.
      * destruct (plus n) as [c|] eqn:Ec; [|by apply elem_of_nil in Hc].
        apply IH in Hc as (es & Hp & Hm); [|by eapply (Hlive _ _ EPlus)].
        exists (EPlus :: es). split; [|by constructor]. cbn [path]. rewrite Hn. simpl. by rewrite Ec.
    + intros (es & Hp & Hm). inversion Hm as [|ls|es' l' ls Hm'|es' l' ls Hm']; subst; cbn [path] in Hp;
        rewrite Hn in Hp; simpl in Hp.
      * left. by destruct (hash n).
      * right; right. destruct (plus n) as [c|] eqn:Ec; [|done].
        apply IH; [by eapply (Hlive _ _ EPlus) | by eauto].
      * right; left. cbn [child]. destruct (children n ≫= _) as [c|] eqn:Ec; [|done].
        apply IH; [by eapply (Hlive _ _ (ELit lv)) | by eauto].
Qed.

Lemma heap_ok_live h : heap_ok h ->
  forall p n e c, h !! p = Some n -> child n e = Some c -> is_Some (h !! c).
Proof. intros Hok p n e c Hp Hc. destruct (ho_down _ Hok _ _ _ _ Hp Hc) as (cn & ? & _). eauto. Qed.

(** ** Tearing sessions down *)

(** Two session tables agree but for the topics of the sessions in [gone] and
    the marks of the sessions in [marked]. *)
Definition sessions_rel (m : Z) (gone marked : list nat) (ss ss' : gmap nat ws_session_t) : Prop :=
  forall s, match ss !! s, ss' !! s with
            | Some x, Some y => ws_id y = ws_id x /\
                topics y = (if decide (s ∈ gone) then [] else topics x) /\
                topic_mark y = (if decide (s ∈ marked) then m else topic_mark x)
            | None, None => True
            | _, _ => False
            end.

Lemma sessions_rel_lookup m g k ss ss' s x :
  sessions_rel m g k ss ss' -> ss !! s = Some x ->
  exists y, ss' !! s = Some y /\ ws_id y = ws_id x /\
    topics y = (if decide (s ∈ g) then [] else topics x) /\
    topic_mark y = (if decide (s ∈ k) then m else topic_mark x).
Proof. intros H Hs. specialize (H s). rewrite Hs in H. destruct (ss' !! s) as [y|]; [eauto|done]. Qed.

Lemma sessions_rel_lookup_inv m g k ss ss' s y :
  sessions_rel m g k ss ss' -> ss' !! s = Some y ->
  exists x, ss !! s = Some x /\ ws_id y = ws_id x /\
    topics y = (if decide (s ∈ g) then [] else topics x) /\
    topic_mark y = (if decide (s ∈ k) then m else topic_mark x).
Proof. intros H Hs. specialize (H s). rewrite Hs in H. destruct (ss !! s) as [x|]; [eauto|done]. Qed.

Lemma sessions_rel_refl m ss : sessions_rel m [] [] ss ss.
Proof. intros s. by destruct (ss !! s). Qed.

Lemma sessions_rel_drop m g k ss ss' s y :
  sessions_rel m g k ss ss' -> ss' !! s = Some y ->
  sessions_rel m (s :: g) k ss (<[s := set_topics [] y]> ss').
Proof.
  intros H Hs q. specialize (H q). destruct (decide (q = s)) as [->|].
  - rewrite lookup_insert_eq. rewrite Hs in H. destruct (ss !! s) as [x|]; [|done].
    destruct H as (? & _ & ?). split_and!; try done. simpl. rewrite decide_True by (by left). done.
  - rewrite lookup_insert_ne by done. destruct (ss !! q) as [x|], (ss' !! q) as [z|]; try done.
    destruct H as (? & -> & ?). split_and!; try done.
    destruct (decide (q ∈ g)); [rewrite decide_True by (by right) | rewrite decide_False by set_solver]; done.
Qed.

Lemma sessions_rel_mark m g k ss ss' s y :
  sessions_rel m g k ss ss' -> ss' !! s = Some y ->
  sessions_rel m g (k ++ [s]) ss (<[s := set_mark m y]> ss').
Proof.
  intros H Hs q. specialize (H q). destruct (decide (q = s)) as [->|].
  - rewrite lookup_insert_eq. rewrite Hs in H. destruct (ss !! s) as [x|]; [|done].
    destruct H as (? & ? & _). split_and!; try done. simpl. rewrite decide_True by set_solver. done.
  - rewrite lookup_insert_ne by done. destruct (ss !! q) as [x|], (ss' !! q) as [z|]; try done.
    destruct H as (? & ? & ->). split_and!; try done.
    destruct (decide (q ∈ k)); [rewrite decide_True by set_solver | rewrite decide_False by set_solver]; done.
Qed.

Lemma sessions_rel_equiv m g g' k ss ss' :
  (forall s, s ∈ g <-> s ∈ g') -> sessions_rel m g k ss ss' -> sessions_rel m g' k ss ss'.
Proof.
  intros E H s. specialize (H s). destruct (ss !! s), (ss' !! s); try done.
  destruct H as (? & -> & ?). split_and!; try done. specialize (E s).
  destruct (decide (s ∈ g)), (decide (s ∈ g')); tauto.
Qed.

Lemma tear_down_ok m g k ss t torn :
  tree_ok t -> (0 < walking t)%nat -> sessions_rel m g k ss (sessions t) ->
  Forall (fun s => is_Some (ss !! s)) torn ->
  exists t', tear_down t torn = Some t' /\ tree_ok t' /\ tombstoned t t' /\ mark t' = mark t /\
    walking t' = walking t /\ sessions_rel m (torn ++ g) k ss (sessions t').
Proof.
  intros Hok Hw Hrel Htorn. revert t g Hok Hw Hrel.
  induction Htorn as [|s torn [x Hs] _ IH]; intros t g Hok Hw Hrel; cbn [tear_down].
  - exists t. split_and!; done.
  - destruct (sessions_rel_lookup _ _ _ _ _ _ _ Hrel Hs) as (y & Hy & _).
    destruct (unsubscribe_all_ok t s y Hok Hy) as (t1 & -> & Hok1 & Hs1 & Hm1 & Hw1 & Ht1). simpl.
    destruct (IH t1 (s :: g) Hok1) as (t2 & -> & Hok2 & Ht2 & Hm2 & Hw2 & Hr2).
    + lia.
    + rewrite Hs1. by apply sessions_rel_drop.
    + exists t2. split_and!; try done; try congruence.
      * etrans; [by apply Ht1 | done].
      * eapply sessions_rel_equiv; [|done]. set_solver.
Qed.

(** ** The walk *)

Section walk.
Variable try_send : nat -> bool * list nat.
Variable v : ws_topic_visit_t.
(** The tree when the walk starts, and the nodes it will visit. *)
Variable t0 : ws_topic_tree_t.
Variable V : list nat.

Hypothesis Hwalking : (0 < walking t0)%nat.
Hypothesis Hmarks : forall s x, sessions t0 !! s = Some x -> topic_mark x <> mark t0.
Hypothesis Htorn : forall s, Forall (fun q => is_Some (sessions t0 !! q)) (snd (try_send s)).
Hypothesis Hok0 : tree_ok t0.

(** The sessions torn down by the sends made so far, and the sends counted. *)
Definition gone (served : list nat) : list nat :=
  if should_deliver v then concat (map (fun s => snd (try_send s)) served) else [].

Definition counted (served : list nat) : list nat :=
  if should_deliver v then List.filter (fun s => fst (try_send s)) served else served.

Record walk_inv (t : ws_topic_tree_t) (g : progress) : Prop := {
  wi_ok : tree_ok t;
  wi_tomb : tombstoned t0 t;
  wi_mark : mark t = mark t0;
  wi_walking : walking t = walking t0;
  wi_sessions : sessions_rel (mark t0) (gone (served g)) (served g) (sessions t0) (sessions t);
  wi_nodup : NoDup (served g);
  wi_served : forall s, s ∈ served g -> exists x l,
    sessions t0 !! s = Some x /\ ws_id x <> except_id v /\ l ∈ V /\ Some s ∈ ent (nodes t0) l;
  wi_hits : hits g = u32 (Z.of_nat (length (counted (served g))));
}.

Lemma gone_snoc l s :
  gone (l ++ [s]) = gone l ++ (if should_deliver v then snd (try_send s) else []).
Proof.
  unfold gone. destruct (should_deliver v); [|done].
  rewrite map_app, concat_app. simpl. by rewrite app_nil_r.
Qed.

Lemma counted_snoc l s :
  counted (l ++ [s]) =
    counted l ++ (if negb (should_deliver v) || fst (try_send s) then [s] else []).
Proof.
  unfold counted. destruct (should_deliver v); [|done].
  rewrite List.filter_app. simpl. by destruct (fst (try_send s)).
Qed.

Lemma u32_succ a : u32 (u32 a + 1) = u32 (a + 1).
Proof. unfold u32. by rewrite Zplus_mod_idemp_l. Qed.

(** The subscribers of a node that are still listed have been served. *)
Definition covered (t : ws_topic_tree_t) (g : progress) (l : nat) : Prop :=
  forall s x, Some s ∈ ent (nodes t) l -> sessions t0 !! s = Some x -> ws_id x <> except_id v ->
    s ∈ served g.

(** Later states of a walk. *)
Definition later (t : ws_topic_tree_t) (g : progress) (t' : ws_topic_tree_t) (g' : progress) : Prop :=
  tombstoned t t' /\ (forall s, s ∈ served g -> s ∈ served g').

Lemma later_refl t g : later t g t g.
Proof. split; [reflexivity | done]. Qed.

Lemma later_trans t g t' g' t'' g'' :
  later t g t' g' -> later t' g' t'' g'' -> later t g t'' g''.
Proof. intros [? ?] [? ?]. split; [by etrans | auto]. Qed.

Lemma struck_lookup a a' i s : struck a a' -> a' !! i = Some (Some s) -> a !! i = Some (Some s).
Proof.
  intros H Hi. destruct (Forall2_lookup_r _ _ _ _ _ H Hi) as (e & He & [E|E]); [by rewrite E | done].
Qed.

Lemma struck_elem_of a a' s : struck a a' -> Some s ∈ a' -> Some s ∈ a.
Proof.
  intros H (i & Hi)%list_elem_of_lookup_1. eapply list_elem_of_lookup_2, struck_lookup; eauto.
Qed.

Lemma covered_later t g t' g' l : later t g t' g' -> covered t g l -> covered t' g' l.
Proof.
  intros [[_ Hst] Hs] Hc s x He Hx Hid. apply Hs. eapply Hc; [|done..].
  eapply struck_elem_of; [apply Hst | done].
Qed.

(** One entry of an array. *)
Lemma visit_one_ok t g l entry i :
  walk_inv t g -> l ∈ V -> ent (nodes t) l !! i = Some entry ->
  exists t' g', visit_one try_send v entry t g = Some (t', g') /\ walk_inv t' g' /\ later t g t' g' /\
    (forall s x, entry = Some s -> sessions t0 !! s = Some x -> ws_id x <> except_id v -> s ∈ served g').
Proof.
  intros Hi Hl He. destruct entry as [s|]; cbn [visit_one];
    [|exists t, g; split_and!; [done|done|apply later_refl|done]].
  assert (Some s ∈ ent (nodes t) l) as Hin by (by eapply list_elem_of_lookup_2).
  destruct (so_entry _ _ (ok_subs _ (wi_ok _ _ Hi)) _ _ Hin) as (y & sub & Hy & Hsub & _).
  destruct (sessions_rel_lookup_inv _ _ _ _ _ _ _ (wi_sessions _ _ Hi) Hy) as (x & Hx & Hid & Htop & Hm).
  rewrite Hy. simpl. destruct (ws_id y =? except_id v) eqn:Eid; b2p.
  { exists t, g. split_and!; [done|done|apply later_refl|]. intros ? x' [= <-] Hx' ?. congruence. }
  rewrite (wi_mark _ _ Hi). destruct (topic_mark y =? mark t0) eqn:Em; b2p.
  { exists t, g. split_and!; [done|done|apply later_refl|]. intros ? x' [= <-] Hx' ?.
    destruct (decide (s ∈ served g)) as [|Hn]; [done|]. rewrite Em in Hm. by destruct (Hmarks _ _ Hx). }
  assert (s ∉ served g) as Hns by (intros ?; rewrite decide_True in Hm by done; congruence).
  pose proof (sessions_rel_mark _ _ _ _ _ _ _ (wi_sessions _ _ Hi) Hy) as Hrel.
  set (t1 := set_sessions _ t). assert (tree_ok t1) as Hok1.
  { destruct (wi_ok _ _ Hi) as [H1 H2 H3 H4 H5 H6 H7 H8 H9]. split; try done.
    2:{ intros w. cbn [t1 set_sessions interest_log sessions]. rewrite (total_weight_insert w _ s y) by done.
        rewrite (H9 w). cbn [set_mark topics]. lia. }
    destruct H3 as [T E O F]. split; cbn [t1 sessions set_sessions].
    - intros s0 x0 sub0. destruct (decide (s0 = s)) as [->|].
      + rewrite lookup_insert_eq. intros [= <-]. apply (T s y sub0 Hy).
      + rewrite lookup_insert_ne by done. apply T.
    - intros s0 l0 H0. destruct (E _ _ H0) as (x0 & sub0 & Hs0 & ? & ?).
      destruct (decide (s0 = s)) as [->|].
      + rewrite Hy in Hs0. injection Hs0 as <-. eexists _, sub0. by rewrite lookup_insert_eq.
      + exists x0, sub0. by rewrite lookup_insert_ne.
    - done.
    - intros s0 x0. destruct (decide (s0 = s)) as [->|].
      + rewrite lookup_insert_eq. intros [= <-]. apply (F s y Hy).
      + rewrite lookup_insert_ne by done. apply F. }
  assert (exists t2, tree_ok t2 /\ tombstoned t t2 /\ mark t2 = mark t /\ walking t2 = walking t /\
      sessions_rel (mark t0) (gone (served g ++ [s])) (served g ++ [s]) (sessions t0) (sessions t2) /\
      visit_one try_send v (Some s) t g =
        Some (t2, {| hits := u32 (Z.of_nat (length (counted (served g ++ [s]))));
                     served := served g ++ [s] |})) as (t2 & Hok2 & Htomb2 & Hm2 & Hw2 & Hrel2 & Hrun).
  { cbn [visit_one]. rewrite Hy. simpl. rewrite (proj2 (Z.eqb_neq _ _) Eid), (wi_mark _ _ Hi).
    rewrite (proj2 (Z.eqb_neq _ _) Em). fold t1. rewrite gone_snoc, counted_snoc, (wi_hits _ _ Hi).
    destruct (should_deliver v) eqn:Ed; cbn [negb orb].
    - destruct (try_send s) as [ok torn] eqn:Es. cbn [fst snd].
      pose proof (Htorn s) as Hts. rewrite Es in Hts. cbn [snd] in Hts.
      destruct (tear_down_ok (mark t0) (gone (served g)) (served g ++ [s]) (sessions t0) t1 torn)
        as (t2 & -> & ? & ? & Hmk & ? & Hr2); [done| |done|done|].
      { cbn [t1 walking set_sessions]. rewrite (wi_walking _ _ Hi). done. }
      exists t2. split_and!; try done.
      + rewrite Hmk. apply Hi.
      + eapply sessions_rel_equiv; [|exact Hr2]. set_solver.
      + apply (f_equal (fun z => Some (t2, {| hits := z; served := served g ++ [s] |}))).
        rewrite length_app. destruct ok; [rewrite u32_succ|]; f_equal; simpl; lia.
    - exists t1. split_and!; try done.
      + apply Hi.
      + by rewrite app_nil_r.
      + apply (f_equal (fun z => Some (t1, {| hits := z; served := served g ++ [s] |}))).
        rewrite u32_succ, length_app. f_equal. simpl. lia. }
  exists t2, {| hits := u32 (Z.of_nat (length (counted (served g ++ [s])))); served := served g ++ [s] |}.
  split_and!.
  - cbn [visit_one] in Hrun. rewrite Hy in Hrun. simpl in Hrun.
    rewrite (proj2 (Z.eqb_neq _ _) Eid), (wi_mark _ _ Hi), (proj2 (Z.eqb_neq _ _) Em) in Hrun. exact Hrun.
  - split; cbn [served]; try done.
    + etrans; [apply Hi|done].
    + by rewrite Hm2, (wi_mark _ _ Hi).
    + rewrite Hw2. apply Hi.
    + apply NoDup_app. split_and!; [apply Hi| |apply NoDup_singleton].
      by intros q Hq ->%list_elem_of_singleton.
    + intros q [Hq| ->%list_elem_of_singleton]%elem_of_app; [by apply Hi|].
      exists x, l. split_and!; [done|congruence|done|]. eapply struck_elem_of; [|done]. apply (wi_tomb _ _ Hi).
  - split; [done|]. cbn [served]. set_solver.
  - intros ? ? [= <-] _ _. cbn [served]. set_solver.
Qed.

(** The loop over one array: after it, everyone still listed was served. *)
Lemma visit_loop_ok fuel t g l i :
  walk_inv t g -> l ∈ V -> is_Some (nodes t !! l) -> (length (ent (nodes t) l) <= i + fuel)%nat ->
  (forall j s x, (j < i)%nat -> ent (nodes t) l !! j = Some (Some s) ->
     sessions t0 !! s = Some x -> ws_id x <> except_id v -> s ∈ served g) ->
  exists t' g', visit_loop try_send fuel v l i t g = Some (t', g') /\ walk_inv t' g' /\ later t g t' g' /\
    covered t' g' l.
Proof.
  revert t g i. induction fuel as [|fuel IH]; intros t g i Hi Hl [n Hn] Hlen Hdone; cbn [visit_loop].
  all: assert (ent (nodes t) l = subs n) as Hent by (unfold ent; by rewrite Hn).
  all: rewrite Hn; simpl; rewrite <- Hent in *.
  all: destruct (ent (nodes t) l !! i) as [entry|] eqn:Ei.
  1: apply lookup_lt_Some in Ei; lia.
  2: destruct (visit_one_ok t g l entry i Hi Hl Ei) as (t1 & g1 & -> & Hi1 & Hlat & Hserved); simpl;
     assert (is_Some (nodes t1 !! l)) as Hl1 by
       (destruct (same_shape_lookup _ _ _ _ (proj1 (proj1 Hlat)) Hn) as (? & ? & _); eauto);
     destruct (IH t1 g1 (S i) Hi1 Hl Hl1) as (t2 & g2 & -> & Hi2 & Hlat2 & Hc).
  4: exists t2, g2; split_and!; try done; by eapply later_trans.
  1,4: exists t, g; split_and!; [done|done|apply later_refl|]; intros s x Hin Hx Hid;
     apply list_elem_of_lookup_1 in Hin as [j Hj]; apply lookup_lt_Some in Hj as ?;
     apply lookup_ge_None_1 in Ei; by eapply (Hdone j); [lia|..].
  - destruct Hlat as [[_ Hst] _]. rewrite <- (Forall2_length _ _ _ (Hst l)). lia.
  - destruct Hlat as [[_ Hst] Hsv]. intros j s x Hj Hjs Hx Hid.
    apply (struck_lookup _ _ _ _ (Hst l)) in Hjs. destruct (decide (j = i)) as [->|].
    + rewrite Ei in Hjs. injection Hjs as ->. by eapply Hserved.
    + apply Hsv. by eapply (Hdone j); [lia|..].
Qed.

Lemma visit_ok t g l :
  walk_inv t g -> l ∈ V -> is_Some (nodes t !! l) ->
  exists t' g', ws_topic_visit try_send v l t g = Some (t', g') /\ walk_inv t' g' /\ later t g t' g' /\
    covered t' g' l.
Proof.
  intros Hi Hl [n Hn]. unfold ws_topic_visit. rewrite Hn. simpl.
  apply visit_loop_ok; [done|done|by eauto| |lia].
  unfold ent. rewrite Hn. lia.
Qed.

(** The recursive walk reaches exactly the nodes of [visited]. *)
Lemma walk_ok levels l t g :
  walk_inv t g -> is_Some (nodes t0 !! l) -> (forall q, q ∈ visited (nodes t0) l levels -> q ∈ V) ->
  exists t' g', ws_topic_walk try_send v l levels t g = Some (t', g') /\ walk_inv t' g' /\
    later t g t' g' /\ forall q, q ∈ visited (nodes t0) l levels -> covered t' g' q.
Proof.
  revert l t g. induction levels as [|lv rest IH]; intros l t g Hi [n0 Hn0] HV;
    cbn [ws_topic_walk visited] in *; rewrite Hn0 in *.
  all: assert (forall t1 g1, walk_inv t1 g1 -> exists n1, nodes t1 !! l = Some n1 /\ links n0 = links n1)
    as Hnode by (intros t1 g1 H1; apply (same_shape_lookup _ _ _ _ (proj1 (wi_tomb _ _ H1)) Hn0)).
  all: destruct (Hnode t g Hi) as (n & Hn & Hln); rewrite Hn; simpl.
  all: assert (hash n = hash n0) as Hh by (symmetry; apply (child_links _ _ EHash Hln)); rewrite Hh.
  all: assert (exists t1 g1, match hash n0 with
         | Some hl => ws_topic_visit try_send v hl t g | None => Some (t, g) end = Some (t1, g1) /\
         walk_inv t1 g1 /\ later t g t1 g1 /\ (forall q, q ∈ option_list (hash n0) -> covered t1 g1 q))
    as (t1 & g1 & Hr1 & Hi1 & Hlat1 & Hcov1).
  1,3: destruct (hash n0) as [hl|] eqn:Eh;
      [|exists t, g; split_and!; [done|done|apply later_refl|by intros ? ?%elem_of_nil]];
      destruct (visit_ok t g hl Hi) as (t1 & g1 & ? & ? & ? & Hc);
      [ apply HV, elem_of_app; left; by left
      | destruct (ho_down _ (ok_heap _ Hok0) _ _ EHash _ Hn0 Eh) as (hn & Hhn & _);
        destruct (same_shape_lookup _ _ _ _ (proj1 (wi_tomb _ _ Hi)) Hhn) as (? & ? & _); by eauto
      | exists t1, g1; split_and!; try done; by intros q ->%list_elem_of_singleton ].
  all: rewrite Hr1; simpl; destruct (Hnode t1 g1 Hi1) as (n1 & Hn1 & Hln1).
  - destruct (visit_ok t1 g1 l Hi1) as (t2 & g2 & -> & ? & Hlat2 & Hc).
    { apply HV, elem_of_app. right. by left. }
    { eauto. }
    exists t2, g2. split_and!; try done; [by eapply later_trans|].
    intros q [Hq| ->%list_elem_of_singleton]%elem_of_app; [|done]. by eapply covered_later, Hcov1.
  - rewrite Hn1. simpl.
    assert (forall e c t2 g2, walk_inv t2 g2 -> child n0 e = Some c ->
      (forall q, q ∈ visited (nodes t0) c rest -> q ∈ V) ->
      exists t3 g3, ws_topic_walk try_send v c rest t2 g2 = Some (t3, g3) /\ walk_inv t3 g3 /\
        later t2 g2 t3 g3 /\ forall q, q ∈ visited (nodes t0) c rest -> covered t3 g3 q) as Hrec.
    { intros e c t2 g2 H2 Hc HVc. apply IH; [done| |done].
      by eapply (heap_ok_live _ (ok_heap _ Hok0)). }
    assert (children n1 ≫= (fun m => m !! lv) = child n0 (ELit lv)) as ->
      by (symmetry; apply (child_links _ _ (ELit lv) Hln1)).
    assert (exists t2 g2, match child n0 (ELit lv) with
         | Some c => ws_topic_walk try_send v c rest t1 g1 | None => Some (t1, g1) end = Some (t2, g2) /\
         walk_inv t2 g2 /\ later t1 g1 t2 g2 /\
         (forall q, q ∈ match child n0 (ELit lv) with Some c => visited (nodes t0) c rest | None => [] end ->
            covered t2 g2 q)) as (t2 & g2 & -> & Hi2 & Hlat2 & Hcov2).
    { destruct (child n0 (ELit lv)) as [c|] eqn:Ec.
      - eapply Hrec; [done|done|]. intros q Hq. apply HV, elem_of_app. right. apply elem_of_app. by left.
      - exists t1, g1. split_and!; [done|done|apply later_refl|by intros ? ?%elem_of_nil]. }
    simpl. destruct (Hnode t2 g2 Hi2) as (n2 & Hn2 & Hln2). rewrite Hn2. simpl.
    assert (plus n2 = plus n0) as -> by (symmetry; apply (child_links _ _ EPlus Hln2)).
    assert (exists t3 g3, match plus n0 with
         | Some c => ws_topic_walk try_send v c rest t2 g2 | None => Some (t2, g2) end = Some (t3, g3) /\
         walk_inv t3 g3 /\ later t2 g2 t3 g3 /\
         (forall q, q ∈ match plus n0 with Some c => visited (nodes t0) c rest | None => [] end ->
            covered t3 g3 q)) as (t3 & g3 & -> & Hi3 & Hlat3 & Hcov3).
    { destruct (plus n0) as [c|] eqn:Ec.
      - eapply (Hrec EPlus); [done|done|]. intros q Hq. apply HV, elem_of_app. right. apply elem_of_app. by right.
      - exists t2, g2. split_and!; [done|done|apply later_refl|by intros ? ?%elem_of_nil]. }
    exists t3, g3. split_and!; try done; [by eapply later_trans, later_trans|].
    intros q [Hq|[Hq|Hq]%elem_of_app]%elem_of_app; [| |by apply Hcov3].
    + by eapply covered_later, covered_later, Hcov1.
    + by eapply covered_later, Hcov2.
Qed.
End walk.

(** ** A whole publish *)

(** The session holds a filter that matches the topic and is not the excluded
    one. *)
Definition receives (t : ws_topic_tree_t) (topic : bytes) (except : Z) (s : nat) : Prop :=
  exists x sub, sessions t !! s = Some x /\ ws_id x <> except /\ sub ∈ topics x /\
    matches (split_on SLASH (sub_filter sub)) (split_on SLASH topic).

(** No session carries the mark of a pass to come. *)
Definition marks_ok (t : ws_topic_tree_t) : Prop :=
  0 <= mark t /\ forall s x, sessions t !! s = Some x -> 0 <= topic_mark x <= mark t.

Lemma tree_ok_pass t m w :
  tree_ok t -> (w <> 0%nat \/ dirty_list t = []) -> tree_ok (set_pass m w t).
Proof. intros [H1 H2 H3 H4 H5 H6 H7 H8 H9] Hw. split; try done. simpl. intros ->. by destruct Hw. Qed.

(** The sessions listed at the visited nodes are those that receive. *)
Lemma visited_receives t topic s x :
  tree_ok t -> sessions t !! s = Some x ->
  (exists l, l ∈ visited (nodes t) root (split_on SLASH topic) /\ Some s ∈ ent (nodes t) l) <->
  exists sub, sub ∈ topics x /\ matches (split_on SLASH (sub_filter sub)) (split_on SLASH topic).
Proof.
  intros Hok Hs. pose proof (ok_heap _ Hok) as Hh.
  assert (is_Some (nodes t !! root)) as Hroot by (destruct (ho_root _ Hh) as (rn & -> & _); done).
  split.
  - intros (l & Hl & He). destruct (so_entry _ _ (ok_subs _ Hok) _ _ He) as (x' & sub & Hs' & Hin & <-).
    rewrite Hs in Hs'. injection Hs' as <-. exists sub. split; [done|].
    apply elem_of_visited in Hl as (es & Hp & Hm); [|done|by apply heap_ok_live].
    destruct (so_topic _ _ (ok_subs _ Hok) _ _ _ Hs Hin) as (_ & Hp' & _).
    apply ematch_matches. by rewrite (path_inj _ Hh _ _ _ Hp Hp') in Hm.
  - intros (sub & Hin & Hm). destruct (so_topic _ _ (ok_subs _ Hok) _ _ _ Hs Hin) as (_ & Hp & He).
    exists (sub_node sub). split; [|done].
    apply elem_of_visited; [done|by apply heap_ok_live|].
    exists (edges (sub_filter sub)). split; [done|]. by apply ematch_matches.
Qed.

Lemma ws_topic_match_ok try_send t topic v :
  tree_ok t -> marks_ok t -> mark t + 1 < 2 ^ 64 ->
  (forall s, Forall (fun q => is_Some (sessions t !! q)) (snd (try_send s))) ->
  ws_topic_split topic <> None ->
  exists t' g, ws_topic_match try_send t topic v = Some (t', g) /\ tree_ok t' /\
    mark t' = mark t + 1 /\ walking t' = walking t /\
    sessions_rel (mark t') (gone try_send v (served g)) (served g) (sessions t) (sessions t') /\
    NoDup (served g) /\
    (forall s, s ∈ served g -> receives t topic (except_id v) s) /\
    (forall s, receives t topic (except_id v) s -> s ∈ served g \/ s ∈ gone try_send v (served g)) /\
    hits g = u32 (Z.of_nat (length (counted try_send v (served g)))).
Proof.
  intros Hok [Hm0 Hmarks] Hmax Htorn Hsplit. unfold ws_topic_match.
  destruct (ws_topic_split topic) as [levels|] eqn:Es; [|done].
  apply ws_topic_split_levels in Es as [_ ->].
  assert (u64 (mark t + 1) = mark t + 1) as -> by (unfold u64; apply Z.mod_small; lia).
  set (t0 := set_pass (mark t + 1) (S (walking t)) t).
  assert (tree_ok t0) as Hok0 by (apply tree_ok_pass; [done | by left]).
  set (V := visited (nodes t0) root (split_on SLASH topic)).
  assert (forall s x, sessions t0 !! s = Some x -> topic_mark x <> mark t0) as Hfresh.
  { intros s x Hx. destruct (Hmarks _ _ Hx). simpl. lia. }
  assert (walk_inv try_send v t0 V t0 {| hits := 0; served := [] |}) as Hi.
  { split; simpl; try done.
    - unfold gone. destruct (should_deliver v); apply sessions_rel_refl.
    - apply NoDup_nil_2.
    - by intros s ?%elem_of_nil.
    - unfold counted. by destruct (should_deliver v). }
  destruct (walk_ok try_send v t0 V) with (levels := split_on SLASH topic) (l := root) (t := t0)
    (g := {| hits := 0; served := @nil nat |}) as (t1 & g & -> & Hi1 & _ & Hcov); try done.
  { simpl. lia. }
  { destruct (ho_root _ (ok_heap _ Hok0)) as (rn & -> & _). done. }
  simpl. rewrite (wi_walking _ _ _ _ _ _ Hi1), (wi_mark _ _ _ _ _ _ Hi1). cbn [t0 walking mark set_pass].
  replace (S (walking t) - 1)%nat with (walking t) by lia.
  assert (forall s, s ∈ served g -> receives t topic (except_id v) s) as Hsound.
  { intros s Hs. destruct (wi_served _ _ _ _ _ _ Hi1 _ Hs) as (x & l & Hx & Hid & Hl & He).
    destruct (proj1 (visited_receives t topic s x Hok Hx)) as (sub & ? & ?); [by exists l|].
    by exists x, sub. }
  assert (forall s, receives t topic (except_id v) s -> s ∈ served g \/ s ∈ gone try_send v (served g)) as Hcompl.
  { intros s (x & sub & Hx & Hid & Hin & Hm).
    destruct (proj2 (visited_receives t topic s x Hok Hx)) as (l & Hl & He); [by exists sub|].
    destruct (decide (s ∈ gone try_send v (served g))) as [|Hng]; [by right|]. left.
    destruct (sessions_rel_lookup _ _ _ _ _ _ _ (wi_sessions _ _ _ _ _ _ Hi1) Hx) as (y & Hy & _ & Hty & _).
    rewrite decide_False in Hty by done.
    destruct (so_entry _ _ (ok_subs _ Hok) _ _ He) as (x' & sub' & Hx' & Hin' & <-).
    rewrite Hx in Hx'. injection Hx' as <-. rewrite <- Hty in Hin'.
    destruct (so_topic _ _ (ok_subs _ (wi_ok _ _ _ _ _ _ Hi1)) _ _ _ Hy Hin') as (_ & _ & He').
    by eapply (Hcov _ Hl). }
  pose proof (wi_sessions _ _ _ _ _ _ Hi1) as Hrel.
  destruct (Nat.eqb_spec (walking t) 0) as [Hw|Hw].
  - destruct (ws_tree_settle_ok t1 (wi_ok _ _ _ _ _ _ Hi1)) as (t2 & Hr & Hok2 & Hs2 & Hm2 & Hw2).
    unfold ws_tree_settle in *. simpl. destruct (settle_loop _ _) as [h|]; [|done]. simpl in *.
    injection Hr as <-. eexists _, g. split; [done|]. split_and!; try done.
    + apply (tree_ok_pass _ (mark t + 1) (walking t)) in Hok2; [|by right]. exact Hok2.
    + apply Hi1.
    + apply Hi1.
  - eexists _, g. split; [done|]. split_and!; try done; [|by apply Hi1..].
    apply tree_ok_pass; [apply Hi1 | by left].
Qed.

(** ** Sequences of operations *)

(** What a worker does with its tree.  A session appears without topics; its
    destruction unsubscribes it from everything first. *)
Inductive op :=
  | OSession (s : nat) (id : Z)
  | ODestroy (s : nat)
  | OSubscribe (s : nat) (filter : bytes) (max : nat)
  | OUnsubscribe (s : nat) (filter : bytes)
  | OPublish (topic : bytes) (except : Z) (try_send : nat -> bool * list nat)
  | OCount (topic : bytes).

Definition run_op (t : ws_topic_tree_t) (o : op) : option ws_topic_tree_t :=
  match o with
  | OSession s id =>
      Some (set_sessions (<[s := {| ws_id := id; topics := []; topic_mark := 0 |}]> (sessions t)) t)
  | ODestroy s => t' ← ws_topic_unsubscribe_all t s; Some (set_sessions (delete s (sessions t')) t')
  | OSubscribe s f max => snd <$> ws_topic_subscribe t s f max
  | OUnsubscribe s f => snd <$> ws_topic_unsubscribe t s f
  | OPublish topic except try_send => fst <$> ws_topic_publish try_send t topic except
  | OCount topic => fst <$> ws_topic_count (fun _ => (true, [])) t topic
  end.

(** Sessions named by an operation exist (a new one does not yet), and the
    64-bit pass counter does not wrap. *)
Definition op_ok (t : ws_topic_tree_t) (o : op) : Prop :=
  match o with
  | OSession s _ => sessions t !! s = None
  | ODestroy s | OSubscribe s _ _ | OUnsubscribe s _ => is_Some (sessions t !! s)
  | OPublish _ _ try_send =>
      mark t + 1 < 2 ^ 64 /\ forall s, Forall (fun q => is_Some (sessions t !! q)) (snd (try_send s))
  | OCount _ => mark t + 1 < 2 ^ 64
  end.

Inductive reachable : ws_topic_tree_t -> Prop :=
  | r_create : reachable ws_topic_tree_create
  | r_op t o t' : reachable t -> op_ok t o -> run_op t o = Some t' -> reachable t'.

(** The abstract tree: the id and the filters of every session. *)
Abbreviation spec := (gmap nat (Z * list bytes)).

Definition abs_session (x : ws_session_t) : Z * list bytes := (ws_id x, ws_topic_list x).
Definition abs (t : ws_topic_tree_t) : spec := abs_session <$> sessions t.

Definition spec_receives (a : spec) (topic : bytes) (except : Z) (s : nat) : Prop :=
  exists id fs f, a !! s = Some (id, fs) /\ id <> except /\ f ∈ fs /\
    matches (split_on SLASH f) (split_on SLASH topic).

Definition valid (f : bytes) : bool := match ws_topic_split f with Some _ => true | None => false end.

(** Adding a filter: malformed ones and those above the limit are refused, one
    that is there stays. *)
Definition spec_subscribe (fs : list bytes) (f : bytes) (max : nat) : list bytes :=
  if decide (f ∈ fs) then fs
  else if valid f && ((max =? 0)%nat || (length fs <? max)%nat) then f :: fs else fs.

Fixpoint spec_remove (f : bytes) (fs : list bytes) : list bytes :=
  match fs with
  | [] => []
  | g :: rest => if eqb_bytes g f then rest else g :: spec_remove f rest
  end.

(** Sessions that lose their filters. *)
Definition clear (gone : list nat) (a : spec) : spec :=
  map_imap (fun s x => Some (fst x, if decide (s ∈ gone) then [] else snd x)) a.

Inductive spec_step (a : spec) : op -> spec -> Prop :=
  | ss_session s id : spec_step a (OSession s id) (<[s := (id, [])]> a)
  | ss_destroy s : spec_step a (ODestroy s) (delete s a)
  | ss_subscribe s f max id fs :
      a !! s = Some (id, fs) ->
      spec_step a (OSubscribe s f max) (<[s := (id, spec_subscribe fs f max)]> a)
  | ss_unsubscribe s f id fs :
      a !! s = Some (id, fs) ->
      spec_step a (OUnsubscribe s f) (<[s := (id, spec_remove f fs)]> a)
  | ss_publish topic except try_send served :
      NoDup served ->
      (forall s, s ∈ served -> spec_receives a topic except s) ->
      (valid topic = true -> forall s, spec_receives a topic except s ->
         s ∈ served \/ exists s', s' ∈ served /\ s ∈ snd (try_send s')) ->
      spec_step a (OPublish topic except try_send)
        (clear (concat (map (fun s => snd (try_send s)) served)) a)
  | ss_count topic : spec_step a (OCount topic) a.

Lemma abs_lookup t s x : sessions t !! s = Some x -> abs t !! s = Some (ws_id x, ws_topic_list x).
Proof. intros H. unfold abs. by rewrite lookup_fmap, H. Qed.

Lemma receives_abs t topic except s : receives t topic except s <-> spec_receives (abs t) topic except s.
Proof.
  unfold receives, spec_receives, abs. split.
  - intros (x & sub & Hx & Hid & Hin & Hm). exists (ws_id x), (ws_topic_list x), (sub_filter sub).
    rewrite lookup_fmap, Hx. split_and!; try done. by apply list_elem_of_fmap_2.
  - intros (id & fs & f & Hl & Hid & Hin & Hm). rewrite lookup_fmap in Hl.
    apply fmap_Some in Hl as (x & Hx & [= -> ->]).
    apply list_elem_of_fmap in Hin as (sub & -> & Hsub). by exists x, sub.
Qed.

Lemma sessions_rel_abs m g k t t' :
  sessions_rel m g k (sessions t) (sessions t') -> abs t' = clear g (abs t).
Proof.
  intros H. apply map_eq. intros s. unfold abs, clear. rewrite map_lookup_imap, !lookup_fmap.
  specialize (H s). destruct (sessions t !! s) as [x|], (sessions t' !! s) as [y|]; try done. simpl.
  destruct H as (Hid & Htop & _). unfold abs_session, ws_topic_list. rewrite Hid, Htop. simpl.
  by destruct (decide (s ∈ g)).
Qed.

Lemma clear_nil a : clear [] a = a.
Proof.
  apply map_eq. intros s. unfold clear. rewrite map_lookup_imap. by destruct (a !! s) as [[id fs]|].
Qed.

Lemma sub_find_elem x f : is_Some (ws_sub_find (topics x) f) <-> f ∈ ws_topic_list x.
Proof.
  unfold ws_topic_list. induction (topics x) as [|sub ts IH]; cbn [ws_sub_find map].
  - split; [by intros [] | by intros ?%elem_of_nil].
  - rewrite elem_of_cons. destruct (eqb_bytes (sub_filter sub) f) eqn:E.
    + apply eqb_bytes_eq in E. split; [by left | done].
    + rewrite IH. split; [by right|]. intros [->|]; [by rewrite eqb_bytes_refl in E | done].
Qed.

Lemma spec_remove_not_in f fs : f ∉ fs -> spec_remove f fs = fs.
Proof.
  induction fs as [|g fs IH]; cbn [spec_remove]; [done|]. intros [Hg Hf]%not_elem_of_cons.
  destruct (eqb_bytes g f) eqn:E; [apply eqb_bytes_eq in E; congruence|]. by rewrite IH.
Qed.

Lemma spec_remove_app f b a : f ∉ b -> spec_remove f (b ++ f :: a) = b ++ a.
Proof.
  induction b as [|g b IH]; cbn [spec_remove app]; [by rewrite eqb_bytes_refl|].
  intros [Hg Hf]%not_elem_of_cons. destruct (eqb_bytes g f) eqn:E; [apply eqb_bytes_eq in E; congruence|].
  by rewrite IH.
Qed.

Lemma marks_rel m g k t t' :
  marks_ok t -> mark t <= m -> mark t' = m ->
  sessions_rel m g k (sessions t) (sessions t') -> marks_ok t'.
Proof.
  intros [H0 Hm] Hle Heq Hrel. split; [lia|]. intros s y Hy.
  destruct (sessions_rel_lookup_inv _ _ _ _ _ _ _ Hrel Hy) as (x & Hx & _ & _ & ->).
  destruct (Hm _ _ Hx). case_decide; lia.
Qed.

(** Replacing the sessions when every entry still has its topic. *)
Lemma tree_ok_sessions t ss :
  tree_ok t -> subs_ok (nodes t) ss -> (forall w, total_weight w ss = total_weight w (sessions t)) ->
  tree_ok (set_sessions ss t).
Proof.
  intros [H1 H2 H3 H4 H5 H6 H7 H8 H9] H Hw. split; try done.
  intros w. cbn [set_sessions sessions interest_log]. by rewrite Hw.
Qed.

Lemma marks_ok_topics t t' s x ts :
  marks_ok t -> sessions t !! s = Some x -> mark t' = mark t ->
  sessions t' = <[s := set_topics ts x]> (sessions t) -> marks_ok t'.
Proof.
  intros [H0 Hm] Hs Hmark Hss. split; [lia|]. rewrite Hss, Hmark. intros q y.
  destruct (decide (q = s)) as [->|].
  - rewrite lookup_insert_eq. intros [= <-]. apply (Hm s x Hs).
  - rewrite lookup_insert_ne by done. apply Hm.
Qed.

Definition op_correct (t : ws_topic_tree_t) (o : op) : Prop :=
  exists t', run_op t o = Some t' /\ tree_ok t' /\ marks_ok t' /\ spec_step (abs t) o (abs t').

Lemma session_correct t s id :
  tree_ok t -> marks_ok t -> sessions t !! s = None -> op_correct t (OSession s id).
Proof.
  intros Hok [H0 Hm] Hs. eexists. split; [done|]. split_and!.
  - apply tree_ok_sessions; [done| |by intros w; rewrite total_weight_insert_None].
    destruct (ok_subs _ Hok) as [T E O F]. split.
    + intros q x sub Hq. destruct (decide (q = s)) as [->|].
      * rewrite lookup_insert_eq in Hq. injection Hq as <-. by intros ?%elem_of_nil.
      * rewrite lookup_insert_ne in Hq by done. by apply T.
    + intros q l He. destruct (E _ _ He) as (x & sub & Hq & ? & ?). exists x, sub.
      rewrite lookup_insert_ne by congruence. done.
    + done.
    + intros q x Hq. destruct (decide (q = s)) as [->|].
      * rewrite lookup_insert_eq in Hq. injection Hq as <-. apply NoDup_nil_2.
      * rewrite lookup_insert_ne in Hq by done. by eapply F.
  - split; [done|]. intros q x Hq. simpl in *. destruct (decide (q = s)) as [->|].
    + rewrite lookup_insert_eq in Hq. injection Hq as <-. simpl. lia.
    + rewrite lookup_insert_ne in Hq by done. by eapply Hm.
  - unfold abs. simpl. rewrite fmap_insert. constructor.
Qed.

Lemma destroy_correct t s :
  tree_ok t -> marks_ok t -> is_Some (sessions t !! s) -> op_correct t (ODestroy s).
Proof.
  intros Hok Hm [x Hs]. unfold op_correct, run_op.
  destruct (unsubscribe_all_ok t s x Hok Hs) as (t1 & -> & Hok1 & Hs1 & Hm1 & _). simpl.
  assert (marks_ok t1) as [H0 Hmk] by (by eapply marks_ok_topics).
  eexists. split; [done|]. split_and!.
  - apply tree_ok_sessions; [done| |].
    2:{ intros w. rewrite (total_weight_delete w (sessions t1) s (set_topics [] x)); [done|].
        by rewrite Hs1, lookup_insert_eq. }
    destruct (ok_subs _ Hok1) as [T E O F]. split; try done.
    + intros q y sub [_ Hq]%lookup_delete_Some. by apply T.
    + intros q l He. destruct (E _ _ He) as (y & sub & Hq & Hin & ?). exists y, sub.
      rewrite lookup_delete_ne; [done|]. intros <-.
      rewrite Hs1, lookup_insert_eq in Hq. injection Hq as <-. by apply elem_of_nil in Hin.
    + intros q y [_ Hq]%lookup_delete_Some. by eapply F.
  - split; [done|]. simpl. intros q y [_ Hq]%lookup_delete_Some. by eapply Hmk.
  - unfold abs. simpl. rewrite Hs1, delete_insert_eq, fmap_delete. constructor.
Qed.

Lemma subscribe_correct t s f max :
  tree_ok t -> marks_ok t -> is_Some (sessions t !! s) -> op_correct t (OSubscribe s f max).
Proof.
  intros Hok Hm [x Hs]. unfold op_correct, run_op.
  destruct (subscribe_ok t s x f max Hok Hs) as (t' & -> & Hok' & Hmark & _ & Hcase). simpl.
  exists t'. split; [done|]. split; [done|].
  pose proof (ss_subscribe (abs t) s f max _ _ (abs_lookup _ _ _ Hs)) as Hstep.
  unfold spec_subscribe in Hstep. assert (length (ws_topic_list x) = length (topics x)) as Hlen by apply length_map.
  rewrite Hlen in Hstep.
  destruct Hcase as [[Hr ->]|(Hr & Hnone & l & Hss)].
  - split; [done|].
    assert ((if decide (f ∈ ws_topic_list x) then ws_topic_list x
             else if valid f && ((max =? 0)%nat || (length (topics x) <? max)%nat)
                  then f :: ws_topic_list x else ws_topic_list x) = ws_topic_list x) as E.
    { destruct (decide (f ∈ ws_topic_list x)) as [|Hn]; [done|]. destruct Hr as [Hr|Hr].
      - unfold subscribe_result, valid in *. destruct (ws_topic_split f); [|done]. simpl.
        destruct (ws_sub_find (topics x) f); [done|]. by rewrite Hr.
      - by apply sub_find_elem in Hr. }
    rewrite E, insert_id in Hstep by (by apply abs_lookup). done.
  - split; [by eapply marks_ok_topics|].
    rewrite decide_False in Hstep.
    2:{ rewrite <- sub_find_elem, Hnone. by intros []. }
    unfold subscribe_result, valid in *. destruct (ws_topic_split f); [|done]. simpl in Hstep.
    rewrite Hnone in Hr. rewrite Hr in Hstep. unfold abs. rewrite Hss, fmap_insert. exact Hstep.
Qed.

Lemma unsubscribe_correct t s f :
  tree_ok t -> marks_ok t -> is_Some (sessions t !! s) -> op_correct t (OUnsubscribe s f).
Proof.
  intros Hok Hm [x Hs]. unfold op_correct, run_op, ws_topic_unsubscribe. rewrite Hs. simpl.
  destruct (unsubscribe_loop_ok t s x [] (topics x) f Hok Hs eq_refl) as (r & t' & -> & Hok' & Hr). simpl.
  exists t'. split; [done|]. split; [done|].
  pose proof (ss_unsubscribe (abs t) s f _ _ (abs_lookup _ _ _ Hs)) as Hstep.
  destruct r.
  - destruct Hr as (b & sub & a & Et & Hf & Hss & Hmk & _). simpl in Hss.
    split; [by eapply marks_ok_topics|]. unfold abs at 2. rewrite Hss, fmap_insert.
    unfold ws_topic_list in Hstep. rewrite Et, map_app in Hstep. cbn [map] in Hstep.
    rewrite Hf, spec_remove_app in Hstep.
    + unfold abs_session, ws_topic_list. cbn [set_topics ws_id topics]. by rewrite map_app.
    + pose proof (so_filters _ _ (ok_subs _ Hok) _ _ Hs) as Hnd. rewrite Et, map_app in Hnd.
      cbn [map] in Hnd. apply NoDup_app in Hnd as (_ & Hnd & _). rewrite <- Hf. intros Hin.
      apply (Hnd _ Hin). by left.
  - destruct Hr as [-> Hnone]. split; [done|].
    rewrite spec_remove_not_in, insert_id in Hstep; [done|by apply abs_lookup|].
    rewrite <- sub_find_elem, Hnone. by intros [].
Qed.

Lemma publish_correct t topic except try_send :
  tree_ok t -> marks_ok t -> op_ok t (OPublish topic except try_send) ->
  op_correct t (OPublish topic except try_send).
Proof.
  intros Hok Hm [Hmax Htorn]. unfold op_correct, run_op, ws_topic_publish.
  set (v := {| except_id := except; should_deliver := true |}).
  destruct (ws_topic_split topic) as [ls|] eqn:Es.
  - destruct (ws_topic_match_ok try_send t topic v Hok Hm Hmax Htorn) as
      (t' & g & -> & Hok' & Hmk & _ & Hrel & Hnd & Hsound & Hcompl & _); [by rewrite Es|]. simpl.
    exists t'. split_and!; [done|done|by eapply (marks_rel (mark t') _ _ t t' Hm); [lia|..]|].
    rewrite (sessions_rel_abs _ _ _ _ _ Hrel). constructor.
    + done.
    + intros s Hs. by apply receives_abs, Hsound.
    + intros _ s Hs%receives_abs. destruct (Hcompl s Hs) as [?|Hg]; [by left|]. right.
      apply list_elem_of_In, in_concat in Hg as (q & Hq & Hg). apply in_map_iff in Hq as (s' & <- & Hs').
      exists s'. by rewrite !list_elem_of_In.
  - unfold ws_topic_match. rewrite Es. simpl. exists t. split_and!; try done.
    replace (abs t) with (clear (concat (map (fun s => snd (try_send s)) [])) (abs t)) at 2
      by (apply clear_nil).
    constructor; [apply NoDup_nil_2|by intros s ?%elem_of_nil|]. unfold valid. by rewrite Es.
Qed.

Lemma count_correct t topic :
  tree_ok t -> marks_ok t -> op_ok t (OCount topic) -> op_correct t (OCount topic).
Proof.
  intros Hok Hm Hmax. unfold op_correct, run_op, ws_topic_count.
  set (v := {| except_id := 0; should_deliver := false |}).
  destruct (ws_topic_split topic) as [ls|] eqn:Es.
  - destruct (ws_topic_match_ok (fun _ => (true, [])) t topic v Hok Hm Hmax) as
      (t' & g & -> & Hok' & Hmk & _ & Hrel & _); [by constructor|by rewrite Es|]. simpl.
    exists t'. split_and!; [done|done|by eapply (marks_rel (mark t') _ _ t t' Hm); [lia|..]|].
    rewrite (sessions_rel_abs _ _ _ _ _ Hrel). unfold gone. simpl. rewrite clear_nil. constructor.
  - unfold ws_topic_match. rewrite Es. simpl. exists t. split_and!; try done. constructor.
Qed.

Lemma op_correct_all t o : tree_ok t -> marks_ok t -> op_ok t o -> op_correct t o.
Proof.
  intros Hok Hm Ho. destruct o; [by apply session_correct | by apply destroy_correct |
    by apply subscribe_correct | by apply unsubscribe_correct | by apply publish_correct |
    by apply count_correct].
Qed.

Lemma create_ok : tree_ok ws_topic_tree_create /\ marks_ok ws_topic_tree_create.
Proof.
  split; [|split; [simpl; lia | by intros s x]].
  assert (forall l n, nodes ws_topic_tree_create !! l = Some n ->
            l = root /\ n = new_node None WS_NODE_ROOT []) as Hone.
  { intros l n H. cbn [ws_topic_tree_create nodes] in H. by apply lookup_singleton_Some in H as [<- <-]. }
  assert (forall l, ent (nodes ws_topic_tree_create) l = []) as Hent.
  { intros l. unfold ent. destruct (nodes _ !! l) as [n|] eqn:E; [|done]. by apply Hone in E as [_ ->]. }
  split.
  - split.
    + by exists (new_node None WS_NODE_ROOT []).
    + intros p pn e c [_ ->]%Hone. by destruct e.
    + intros l n [-> _]%Hone. by exists [].
  - intros l Hl. cbn [ws_topic_tree_create nodes next_loc] in *. apply lookup_singleton_ne. unfold root. lia.
  - split; try done.
    + intros s l. rewrite Hent. by intros ?%elem_of_nil.
    + intros l. rewrite Hent. apply NoDup_nil_2.
  - intros l n [_ ->]%Hone. unfold node_ok. simpl. split_and!; [done|lia|done].
  - intros l n [-> _]%Hone. done.
  - apply NoDup_nil_2.
  - intros l. unfold dirty_of. split; [by intros ?%elem_of_nil|].
    destruct (nodes _ !! l) as [n|] eqn:E; [|done]. by apply Hone in E as [_ ->].
  - done.
  - intros w. cbn [ws_topic_tree_create interest_log sessions log_weight].
    unfold total_weight. by rewrite map_fold_empty.
Qed.

Lemma reachable_ok t : reachable t -> tree_ok t /\ marks_ok t.
Proof.
  induction 1 as [|t o t' _ [Hok Hm] Ho Hr]; [apply create_ok|].
  destruct (op_correct_all t o Hok Hm Ho) as (t'' & Hr' & ? & ? & _). by simplify_eq.
Qed.

(** ** Theorems *)

(** C1: Memory safety of the topic tree.  After any sequence of subscribes,
    unsubscribes, session destructions, publishes (with arbitrary sends that tear
    sessions down in the middle of the walk) and counts, the tree satisfies its
    invariant, and every further operation completes: no node is ever read,
    unlinked or freed after it was freed. *)
Theorem topic_tree_safe (t : ws_topic_tree_t) (o : op) :
  reachable t -> op_ok t o -> tree_ok t /\ exists t', run_op t o = Some t' /\ tree_ok t'.
Proof.
  intros Hr Ho. destruct (reachable_ok t Hr) as [Hok Hm]. split; [done|].
  destruct (op_correct_all t o Hok Hm Ho) as (t' & ? & ? & _). eauto.
Qed.

(** C2: The tree refines a table of filters per session: every operation on a
    reachable tree is a step of the abstract table.  Subscribing refuses
    malformed filters and respects the limit, is idempotent and adds the filter
    in front; unsubscribing removes it; a publish reaches exactly the sessions
    with a matching filter, each once, less those its own sends tore down. *)
Theorem topic_tree_refines (t : ws_topic_tree_t) (o : op) :
  reachable t -> op_ok t o -> exists t', run_op t o = Some t' /\ spec_step (abs t) o (abs t').
Proof.
  intros Hr Ho. destruct (reachable_ok t Hr) as [Hok Hm].
  destruct (op_correct_all t o Hok Hm Ho) as (t' & ? & _ & _ & ?). eauto.
Qed.

(** C3: Publishing is exact: when no send tears a session down, the sessions
    served are precisely those that hold a matching filter and are not the
    excluded one, each is served once although several of its filters may match,
    and the result counts the successful sends modulo [2 ^ 32]. *)
Theorem ws_topic_publish_exact (t : ws_topic_tree_t) (topic : bytes) (except : Z)
    (try_send : nat -> bool * list nat) :
  reachable t -> mark t + 1 < 2 ^ 64 -> ws_topic_split topic <> None ->
  (forall s, snd (try_send s) = []) ->
  exists t' g, ws_topic_publish try_send t topic except = Some (t', g) /\
    NoDup (served g) /\ (forall s, s ∈ served g <-> receives t topic except s) /\
    hits g = u32 (Z.of_nat (length (List.filter (fun s => fst (try_send s)) (served g)))) /\
    abs t' = abs t.
Proof.
  intros Hr Hmax Hs Hnone. destruct (reachable_ok t Hr) as [Hok Hm].
  set (v := {| except_id := except; should_deliver := true |}).
  destruct (ws_topic_match_ok try_send t topic v Hok Hm Hmax) as
    (t' & g & Hrun & _ & _ & _ & Hrel & Hnd & Hsound & Hcompl & Hh); [by intros s; rewrite Hnone|done|].
  assert (gone try_send v (served g) = []) as Hgone.
  { unfold gone. simpl. clear -Hnone. induction (served g) as [|s l IH]; simpl; [done|]. by rewrite Hnone, IH. }
  exists t', g. split_and!; try done.
  - intros s. split; [apply Hsound|]. intros H. destruct (Hcompl s H) as [|Hg]; [done|].
    rewrite Hgone in Hg. by apply elem_of_nil in Hg.
  - rewrite (sessions_rel_abs _ _ _ _ _ Hrel), Hgone. apply clear_nil.
Qed.

(** Counting the subscribers of a topic returns the number of distinct
    sessions with a matching filter, and leaves every subscription in place. *)
Theorem ws_topic_count_exact (t : ws_topic_tree_t) (topic : bytes) (try_send : nat -> bool * list nat) :
  reachable t -> mark t + 1 < 2 ^ 64 -> ws_topic_split topic <> None ->
  (forall s, snd (try_send s) = []) ->
  exists t' g who, ws_topic_count try_send t topic = Some (t', g) /\
    NoDup who /\ (forall s, s ∈ who <-> receives t topic 0 s) /\
    hits g = u32 (Z.of_nat (length who)) /\ abs t' = abs t.
Proof.
  intros Hr Hmax Hs Hnone. destruct (reachable_ok t Hr) as [Hok Hm].
  set (v := {| except_id := 0; should_deliver := false |}).
  destruct (ws_topic_match_ok try_send t topic v Hok Hm Hmax) as
    (t' & g & Hrun & _ & _ & _ & Hrel & Hnd & Hsound & Hcompl & Hh); [by intros s; rewrite Hnone|done|].
  exists t', g, (served g). split_and!; try done.
  - intros s. split; [apply Hsound|]. intros H. destruct (Hcompl s H) as [|Hg]; [done|].
    by apply elem_of_nil in Hg.
  - rewrite (sessions_rel_abs _ _ _ _ _ Hrel). apply clear_nil.
Qed.

(** *** A concrete tree *)

(** Two sessions; the first holds two overlapping filters. *)
Definition demo_ops : list op :=
  [ OSession 1 11; OSession 2 22; OSubscribe 1 (lit "sport/#") 0; OSubscribe 1 (lit "sport/+") 0;
    OSubscribe 2 (lit "sport/tennis") 8 ].

Fixpoint run_ops (t : ws_topic_tree_t) (os : list op) : option ws_topic_tree_t :=
  match os with [] => Some t | o :: rest => t' ← run_op t o; run_ops t' rest end.

Definition demo_after (k : nat) : ws_topic_tree_t :=
  default ws_topic_tree_create (run_ops ws_topic_tree_create (take k demo_ops)).
Definition demo_tree : ws_topic_tree_t := demo_after 5.

(** Serving session 1 tears session 2 down. *)
Definition demo_send (s : nat) : bool * list nat := (true, if (s =? 1)%nat then [2%nat] else []).

Lemma demo_reachable : reachable demo_tree.
Proof.
  apply (r_op (demo_after 4) (OSubscribe 2 (lit "sport/tennis") 8));
    [|vm_compute; eexists; reflexivity | vm_compute; reflexivity].
  apply (r_op (demo_after 3) (OSubscribe 1 (lit "sport/+") 0));
    [|vm_compute; eexists; reflexivity | vm_compute; reflexivity].
  apply (r_op (demo_after 2) (OSubscribe 1 (lit "sport/#") 0));
    [|vm_compute; eexists; reflexivity | vm_compute; reflexivity].
  apply (r_op (demo_after 1) (OSession 2 22)); [|vm_compute; reflexivity | vm_compute; reflexivity].
  apply (r_op (demo_after 0) (OSession 1 11)); [apply r_create | vm_compute; reflexivity | vm_compute; reflexivity].
Qed.

Lemma demo_publish_ok : op_ok demo_tree (OPublish (lit "sport/tennis") 0 demo_send).
Proof.
  split; [vm_compute; reflexivity|]. intros s. unfold demo_send. simpl. case_if; repeat constructor.
  vm_compute. eexists. reflexivity.
Qed.

Lemma topic_tree_safe_witness :
  tree_ok demo_tree /\
  exists t', run_op demo_tree (OPublish (lit "sport/tennis") 0 demo_send) = Some t' /\ tree_ok t'.
Proof. apply topic_tree_safe; [apply demo_reachable | apply demo_publish_ok]. Defined.

Lemma topic_tree_refines_witness :
  exists t', run_op demo_tree (OPublish (lit "sport/tennis") 0 demo_send) = Some t' /\
    spec_step (abs demo_tree) (OPublish (lit "sport/tennis") 0 demo_send) (abs t').
Proof. apply topic_tree_refines; [apply demo_reachable | apply demo_publish_ok]. Defined.

Lemma ws_topic_publish_exact_witness :
  exists t' g, ws_topic_publish (fun _ => (true, [])) demo_tree (lit "sport/tennis") 22 = Some (t', g) /\
    NoDup (served g) /\ (forall s, s ∈ served g <-> receives demo_tree (lit "sport/tennis") 22 s) /\
    hits g = u32 (Z.of_nat (length (List.filter (fun s => true) (served g)))) /\
    abs t' = abs demo_tree.
Proof.
  apply (ws_topic_publish_exact demo_tree (lit "sport/tennis") 22 (fun _ => (true, [])));
    [apply demo_reachable | vm_compute; reflexivity | vm_compute; discriminate | done].
Defined.

Lemma ws_topic_count_exact_witness :
  exists t' g who, ws_topic_count (fun _ => (true, [])) demo_tree (lit "sport/tennis") = Some (t', g) /\
    NoDup who /\ (forall s, s ∈ who <-> receives demo_tree (lit "sport/tennis") 0 s) /\
    hits g = u32 (Z.of_nat (length who)) /\ abs t' = abs demo_tree.
Proof.
  apply ws_topic_count_exact;
    [apply demo_reachable | vm_compute; reflexivity | vm_compute; discriminate | done].
Defined.

(** The overlapping filters of session 1 count once. *)
Example demo_count :
  option_map (fun r => hits (snd r)) (ws_topic_count (fun _ => (true, [])) demo_tree (lit "sport/tennis")) = Some 2.
Proof. vm_compute. reflexivity. Qed.

End TopicTreeMatch.
