(* ===== verification/TopicInterest.v ===== *)
(** * The interest filter

    Models the counting Bloom filter of src/src/websocket/topic_hub.c (lines 325
    to 428): a worker announces the literal prefix of every filter its sessions
    hold, a publisher probes the level prefixes of the topic and skips workers
    that cannot have a match.  The theorems say that the filter never hides a
    live subscription and that a worker without subscriptions is skipped. *)

From S2P Require Import Prelude TopicFilter TopicTree TopicTreeInv TopicTreeMatch.

Module TopicInterest.
Import TopicFilter TopicTree TopicTreeInv TopicTreeMatch.

Definition WS_INTEREST_BUCKETS : Z := 1024.
Definition WS_INTEREST_PROBES : nat := 3.

(** A [zend_atomic_int]: 32 bits, two's complement. *)
Definition i32 (z : Z) : Z := (z + 2 ^ 31) mod 2 ^ 32 - 2 ^ 31.

Abbreviation counters_t := (list Z).

(** PHP's string hash: any function of the bytes will do. *)
Class ZendHash := zend_inline_hash_func : bytes -> Z.

Section interest.
Context `{ZendHash}.

(** The FNV-1a loop. *)
Fixpoint fnv1a (h2 : Z) (key : bytes) : Z :=
  match key with
  | [] => h2
  | c :: rest => fnv1a (u32 (Z.lxor h2 (u8 c) * 16777619)) rest
  end.

Definition ws_interest_probe (key : bytes) : list nat :=
  let h1 := u32 (zend_inline_hash_func key) in
  let h2 := Z.lor (fnv1a 2166136261 key) 1 in
  map (fun i => Z.to_nat (Z.land (u32 (h1 + u32 (Z.of_nat i * h2))) (WS_INTEREST_BUCKETS - 1)))
    (seq 0 WS_INTEREST_PROBES).

Fixpoint bump_all (buckets : list nat) (delta : Z) (counters : counters_t) : counters_t :=
  match buckets with
  | [] => counters
  | b :: rest => bump_all rest delta (alter (fun c => i32 (c + delta)) b counters)
  end.

(** The filters of the hub's slots; [NULL] is [None].  [local] is the slot of
    the calling worker, [None] when it is not attached. *)
Definition ws_interest_bump (interest : list (option counters_t)) (local : option nat)
    (filter : bytes) (prefix_len : nat) (delta : Z) : list (option counters_t) :=
  match local with
  | None => interest
  | Some slot =>
      match interest !! slot with
      | Some (Some counters) =>
          <[slot := Some (bump_all (ws_interest_probe (take prefix_len filter)) delta counters)]> interest
      | _ => interest
      end
  end.

Definition topic_hub_interest_add interest local filter prefix_len :=
  ws_interest_bump interest local filter prefix_len 1.
Definition topic_hub_interest_remove interest local filter prefix_len :=
  ws_interest_bump interest local filter prefix_len (-1).

(** [count = 0] is the empty list. *)
Abbreviation ws_interest_t := (list (list nat)).

Definition ws_interest_build (topic : bytes) : ws_interest_t :=
  match ws_topic_prefixes topic with
  | None => []
  | Some prefixes => map (fun len => ws_interest_probe (take len topic)) prefixes
  end.

(** All probes of one prefix hit. *)
Fixpoint prefix_hit (counters : counters_t) (buckets : list nat) : bool :=
  match buckets with
  | [] => true
  | b :: rest => if negb (nth b counters 0 =? 0) then prefix_hit counters rest else false
  end.

Fixpoint any_prefix (counters : counters_t) (interest : ws_interest_t) : bool :=
  match interest with
  | [] => false
  | buckets :: rest => if prefix_hit counters buckets then true else any_prefix counters rest
  end.

Definition ws_interest_matches (table : list (option counters_t)) (slot : nat) (interest : ws_interest_t) : bool :=
  match table !! slot with
  | Some (Some counters) =>
      match interest with [] => true | _ => any_prefix counters interest end
  | _ => true
  end.

(** The fresh filter of [topic_hub_attach]. *)
Definition fresh_counters : counters_t := replicate (Z.to_nat WS_INTEREST_BUCKETS) 0.

(** The updates of a worker's tree, in order. *)
Fixpoint apply_log (table : list (option counters_t)) (slot : nat) (log : list (bool * bytes * nat))
    : list (option counters_t) :=
  match log with
  | [] => table
  | (joining, f, p) :: rest =>
      let table' := if joining : bool then topic_hub_interest_add table (Some slot) f p
                    else topic_hub_interest_remove table (Some slot) f p in
      apply_log table' slot rest
  end.

(** ** Counting *)

(** How often a key hits a bucket. *)
Definition hits_of (b : nat) (k : bytes) : Z := Z.of_nat (count_occ Nat.eq_dec (ws_interest_probe k) b).

Lemma i32_add a d : i32 (i32 a + d) = i32 (a + d).
Proof.
  unfold i32. replace (((a + 2 ^ 31) mod 2 ^ 32 - 2 ^ 31) + d + 2 ^ 31) with ((a + 2 ^ 31) mod 2 ^ 32 + d) by lia.
  rewrite Zplus_mod_idemp_l. do 2 f_equal. lia.
Qed.

Lemma i32_zero_iff z : 0 <= z < 2 ^ 32 -> i32 z = 0 <-> z = 0.
Proof. unfold i32. intros Hz. split; intros E; [|by subst]. dlia. Qed.

Lemma probe_bound k b : b ∈ ws_interest_probe k -> (b < Z.to_nat WS_INTEREST_BUCKETS)%nat.
Proof.
  unfold ws_interest_probe. intros (i & -> & _)%list_elem_of_fmap. unfold WS_INTEREST_BUCKETS.
  set (x := u32 _). assert (0 <= Z.land x (1024 - 1) < 1024) as ?; [|lia].
  change (1024 - 1) with (Z.ones 10). rewrite Z.land_ones by lia. apply Z.mod_pos_bound. lia.
Qed.

Lemma bump_all_length bs d c : length (bump_all bs d c) = length c.
Proof. revert c. induction bs as [|b bs IH]; intros c; cbn [bump_all]; [done|]. by rewrite IH, length_alter. Qed.

Lemma nth_alter (c : list Z) b b' f :
  (b < length c)%nat -> nth b' (alter f b c) 0 = if (b =? b')%nat then f (nth b' c 0) else nth b' c 0.
Proof.
  intros Hb. rewrite !nth_lookup. destruct (Nat.eqb_spec b b') as [->|Hne].
  - rewrite list_lookup_alter_eq. destruct (lookup_lt_is_Some_2 _ _ Hb) as [x ->]. done.
  - by rewrite list_lookup_alter_ne.
Qed.

Lemma bump_all_nth bs d c b n :
  Forall (fun q => (q < length c)%nat) bs -> nth b c 0 = i32 n ->
  nth b (bump_all bs d c) 0 = i32 (n + d * Z.of_nat (count_occ Nat.eq_dec bs b)).
Proof.
  revert c n. induction bs as [|q bs IH]; intros c n Hb Hn; cbn [bump_all count_occ].
  - rewrite Hn. f_equal. lia.
  - apply Forall_cons_iff in Hb as [Hq Hb].
    destruct (Nat.eq_dec q b) as [->|Hne].
    + rewrite (IH _ (n + d)).
      * f_equal. lia.
      * by rewrite length_alter.
      * rewrite nth_alter, Nat.eqb_refl, Hn by done. apply i32_add.
    + apply IH; [by rewrite length_alter|]. rewrite nth_alter by done.
      by rewrite (proj2 (Nat.eqb_neq _ _) Hne).
Qed.

(** The counters a log leaves. *)
Lemma apply_log_counters log table slot c :
  table !! slot = Some (Some c) -> length c = Z.to_nat WS_INTEREST_BUCKETS ->
  exists c', apply_log table slot log !! slot = Some (Some c') /\
    length c' = Z.to_nat WS_INTEREST_BUCKETS /\
    forall b n, nth b c 0 = i32 n -> nth b c' 0 = i32 (n + log_weight (hits_of b) log).
Proof.
  revert table c. induction log as [|[[j f] p] log IH]; intros table c Ht Hc; cbn [apply_log log_weight].
  { exists c. split_and!; try done. intros b n ->. f_equal. lia. }
  set (d := if j then 1 else -1).
  set (c1 := bump_all (ws_interest_probe (take p f)) d c).
  assert (Forall (fun q => (q < length c)%nat) (ws_interest_probe (take p f))) as Hbs.
  { apply Forall_forall. intros q Hq. rewrite Hc. by eapply probe_bound. }
  assert ((if j then topic_hub_interest_add table (Some slot) f p
           else topic_hub_interest_remove table (Some slot) f p) = <[slot := Some c1]> table) as ->.
  { unfold topic_hub_interest_add, topic_hub_interest_remove, ws_interest_bump. rewrite Ht. by destruct j. }
  destruct (IH (<[slot := Some c1]> table) c1) as (c' & E & Hl & Hn).
  - apply list_lookup_insert_eq. by eapply lookup_lt_Some.
  - unfold c1. by rewrite bump_all_length.
  - exists c'. split_and!; try done. intros b n Hb.
    rewrite (Hn b (n + d * hits_of b (take p f))) by (apply bump_all_nth; done).
    f_equal. unfold d, hits_of. destruct j; lia.
Qed.

(** ** What the sessions contribute *)

Lemma topics_weight_nonneg w ts : (forall k, 0 <= w k) -> 0 <= topics_weight w ts.
Proof. intros Hw. induction ts as [|sub ts IH]; simpl; [lia|]. specialize (Hw (key (sub_filter sub))). lia. Qed.

Lemma topics_weight_ge w ts sub :
  (forall k, 0 <= w k) -> sub ∈ ts -> w (key (sub_filter sub)) <= topics_weight w ts.
Proof.
  intros Hw. induction ts as [|sub' ts IH]; [by intros ?%elem_of_nil|]. cbn [topics_weight].
  pose proof (topics_weight_nonneg w ts Hw). pose proof (Hw (key (sub_filter sub'))).
  intros [->|Hin]%elem_of_cons; [lia|]. specialize (IH Hin). lia.
Qed.

Lemma total_weight_nonneg w ss : (forall k, 0 <= w k) -> 0 <= total_weight w ss.
Proof.
  intros Hw. induction ss as [|s x ss Hs IH] using map_ind.
  - unfold total_weight. by rewrite map_fold_empty.
  - rewrite total_weight_insert_None by done. pose proof (topics_weight_nonneg w (topics x) Hw). lia.
Qed.

Lemma total_weight_ge w ss s x sub :
  (forall k, 0 <= w k) -> ss !! s = Some x -> sub ∈ topics x ->
  w (key (sub_filter sub)) <= total_weight w ss.
Proof.
  intros Hw Hs Hin. rewrite (total_weight_delete w ss s x) by done.
  pose proof (topics_weight_ge w _ _ Hw Hin). pose proof (total_weight_nonneg w (delete s ss) Hw). lia.
Qed.

(** The number of subscriptions held on the worker. *)
Definition subscriptions (t : ws_topic_tree_t) : Z := total_weight (fun _ => 1) (sessions t).

Lemma total_weight_le w ss n :
  (forall k, w k <= n) -> total_weight w ss <= n * total_weight (fun _ => 1) ss.
Proof.
  intros Hw. assert (forall ts, topics_weight w ts <= n * topics_weight (fun _ => 1) ts) as Ht.
  { induction ts as [|sub ts IH]; simpl; [lia|]. specialize (Hw (key (sub_filter sub))). lia. }
  induction ss as [|s x ss Hs IH] using map_ind.
  - unfold total_weight. rewrite !map_fold_empty. lia.
  - rewrite !total_weight_insert_None by done. specialize (Ht (topics x)). lia.
Qed.

Lemma hits_of_bound b k : 0 <= hits_of b k <= 3.
Proof.
  unfold hits_of. pose proof (count_occ_bound Nat.eq_dec b (ws_interest_probe k)).
  assert (length (ws_interest_probe k) = 3%nat) by done. lia.
Qed.

Lemma prefix_hit_spec c bs : prefix_hit c bs = true <-> Forall (fun b => nth b c 0 <> 0) bs.
Proof.
  induction bs as [|b bs IH]; cbn [prefix_hit]; [done|]. rewrite Forall_cons_iff, <- IH.
  destruct (nth b c 0 =? 0) eqn:E; b2p; simpl; naive_solver.
Qed.

Lemma any_prefix_spec c int : any_prefix c int = true <-> Exists (fun bs => prefix_hit c bs = true) int.
Proof.
  induction int as [|bs int IH]; cbn [any_prefix]; [by rewrite Exists_nil|].
  rewrite Exists_cons, <- IH. destruct (prefix_hit c bs); naive_solver.
Qed.

(** A worker whose filter has been kept since it attached. *)
Definition filter_of (t : ws_topic_tree_t) (table : list (option counters_t)) (slot : nat) : Prop :=
  exists table0, table0 !! slot = Some (Some fresh_counters) /\
    table = apply_log table0 slot (interest_log t).

Lemma filter_counters t table slot :
  reachable t -> filter_of t table slot ->
  exists c, table !! slot = Some (Some c) /\
    forall b, nth b c 0 = i32 (total_weight (hits_of b) (sessions t)).
Proof.
  intros Hr (table0 & H0 & ->). destruct (reachable_ok t Hr) as [Hok _].
  destruct (apply_log_counters (interest_log t) table0 slot fresh_counters H0) as (c & Hc & _ & Hn).
  { apply length_replicate. }
  exists c. split; [done|]. intros b. rewrite <- (ok_log _ Hok).
  rewrite (Hn b 0); [f_equal; lia|]. unfold fresh_counters.
  rewrite nth_lookup. destruct (replicate _ _ !! b) as [z|] eqn:E; [|done].
  by apply lookup_replicate in E as [-> _].
Qed.

(** C24: The filter never hides a live subscription: on a worker in any reachable
    state (with fewer than [2 ^ 32 / 3] subscriptions, so that the 32-bit counters
    cannot come round to zero), whenever some session holds a filter that matches
    the topic, the publisher's probe reports interest and the worker is not
    skipped.  PHP's string hash is arbitrary. *)
Theorem ws_interest_no_false_negative (t : ws_topic_tree_t) (table : list (option counters_t))
    (slot : nat) (topic : bytes) (except : Z) (s : nat) :
  reachable t -> filter_of t table slot -> 3 * subscriptions t < 2 ^ 32 ->
  receives t topic except s ->
  ws_interest_matches table slot (ws_interest_build topic) = true.
Proof.
  intros Hr Hf Hmax (x & sub & Hx & _ & Hin & Hm).
  destruct (filter_counters _ _ _ Hr Hf) as (c & Hc & Hn).
  destruct (reachable_ok t Hr) as [Hok _].
  unfold ws_interest_matches, ws_interest_build. rewrite Hc.
  destruct (ws_topic_prefixes topic) as [prefixes|] eqn:Ep; [|done].
  destruct (so_topic _ _ (ok_subs _ Hok) _ _ _ Hx Hin) as (Hsplit & _).
  assert (In (ws_topic_interest_prefix (sub_filter sub)) prefixes /\ key (sub_filter sub) =
            take (ws_topic_interest_prefix (sub_filter sub)) topic) as [Hpre Hkey].
  { by apply interest_prefix_covers. }
  destruct prefixes as [|p0 prefixes]; [done|]. cbn [map]. apply any_prefix_spec.
  apply List.Exists_exists. exists (ws_interest_probe (key (sub_filter sub))).
  split; [change (In (ws_interest_probe (key (sub_filter sub)))
            (map (fun len => ws_interest_probe (take len topic)) (p0 :: prefixes)));
          apply in_map_iff; eexists; split; [by rewrite Hkey|done]|].
  apply prefix_hit_spec, Forall_forall. intros b Hb. rewrite Hn.
  assert (forall k, 0 <= hits_of b k) as Hpos by (intros k; apply hits_of_bound).
  pose proof (total_weight_ge (hits_of b) _ _ _ _ Hpos Hx Hin) as Hge.
  assert (0 < hits_of b (key (sub_filter sub))) as Hhit.
  { unfold hits_of. apply list_elem_of_In, (count_occ_In Nat.eq_dec) in Hb. lia. }
  pose proof (total_weight_le (hits_of b) (sessions t) 3 (fun k => proj2 (hits_of_bound b k))) as Hle.
  unfold subscriptions in Hmax. rewrite i32_zero_iff; lia.
Qed.

(** A worker that holds no subscription any more is skipped: when every
    session has left its topics, all counters are back at zero and a valid topic
    does not match. *)
Theorem ws_interest_idle_skipped (t : ws_topic_tree_t) (table : list (option counters_t))
    (slot : nat) (topic : bytes) :
  reachable t -> filter_of t table slot -> ws_topic_split topic <> None ->
  (forall s x, sessions t !! s = Some x -> topics x = []) ->
  ws_interest_matches table slot (ws_interest_build topic) = false.
Proof.
  intros Hr Hf Hsplit Hidle. destruct (filter_counters _ _ _ Hr Hf) as (c & Hc & Hn).
  assert (forall w, total_weight w (sessions t) = 0) as Hz.
  { intros w. clear -Hidle. revert Hidle. induction (sessions t) as [|s x ss Hs IH] using map_ind; intros Hidle.
    - unfold total_weight. by rewrite map_fold_empty.
    - rewrite total_weight_insert_None by done. rewrite (Hidle s x) by apply lookup_insert_eq.
      rewrite IH; [done|]. intros s' x' Hs'. apply (Hidle s'). rewrite lookup_insert_ne; congruence. }
  unfold ws_interest_matches, ws_interest_build, ws_topic_prefixes. rewrite Hc.
  destruct (ws_topic_split topic) as [ls|]; [|done]. cbn [map].
  apply not_true_is_false. rewrite any_prefix_spec, List.Exists_exists. intros (bs & Hbs & Hhit).
  assert (exists k, bs = ws_interest_probe k) as [k ->].
  { destruct Hbs as [<-|Hbs]; [by eexists|]. apply in_map_iff in Hbs as (? & <- & _). by eexists. }
  apply prefix_hit_spec in Hhit. unfold ws_interest_probe in Hhit. cbn [seq WS_INTEREST_PROBES map] in Hhit.
  apply Forall_cons_iff in Hhit as [Hhit _]. apply Hhit. by rewrite Hn, Hz.
Qed.
End interest.

(** ** Witnesses *)

#[local] Instance demo_hash : ZendHash := fun k => Z.of_nat (length k) * 33 + 5381.

Definition demo_table : list (option counters_t) :=
  apply_log [Some fresh_counters] 0 (interest_log demo_tree).

Lemma ws_interest_no_false_negative_witness :
  ws_interest_matches demo_table 0 (ws_interest_build (lit "sport/tennis")) = true.
Proof.
  apply (ws_interest_no_false_negative demo_tree demo_table 0 (lit "sport/tennis") 0 2).
  - apply demo_reachable.
  - exists [Some fresh_counters]. done.
  - vm_compute. reflexivity.
  - eexists _, {| sub_node := 4; sub_filter := lit "sport/tennis" |}.
    split; [vm_compute; reflexivity|]. split; [vm_compute; discriminate|]. split; [by left|].
    apply (m_literal (lit "sport")); [reflexivity..|]. apply (m_literal (lit "tennis")); [reflexivity..|].
    apply m_end.
Defined.

Lemma ws_interest_idle_skipped_witness :
  ws_interest_matches [Some fresh_counters] 0 (ws_interest_build (lit "sport/tennis")) = false.
Proof.
  apply (ws_interest_idle_skipped ws_topic_tree_create [Some fresh_counters] 0 (lit "sport/tennis")).
  - apply r_create.
  - by exists [Some fresh_counters].
  - vm_compute. discriminate.
  - by intros s x.
Defined.

End TopicInterest.
