(* ===== verification/Multipart.v ===== *)
(** * The multipart/form-data parser

    Models src/src/formats/multipart_parser.c: a push parser fed with chunks of
    arbitrary size that reports headers and body data through callbacks.  The
    buffer cursor [p] is the unread suffix; [mark], the start of the current data
    segment, is the slice between [mark] and [p].  Callbacks act on the user data
    [U] and answer whether they succeeded. *)

From S2P Require Import Prelude.

Module Multipart.

Definition MULTIPART_MAX_BOUNDARY_LEN : nat := 70.

Inductive multipart_state_t :=
  | MP_STATE_START
  | MP_STATE_BOUNDARY_START
  | MP_STATE_BOUNDARY
  | MP_STATE_BOUNDARY_ALMOST_DONE
  | MP_STATE_BOUNDARY_DONE
  | MP_STATE_HEADER_FIELD_START
  | MP_STATE_HEADER_FIELD
  | MP_STATE_HEADER_VALUE_START
  | MP_STATE_HEADER_VALUE
  | MP_STATE_HEADER_VALUE_ALMOST_DONE
  | MP_STATE_HEADERS_ALMOST_DONE
  | MP_STATE_HEADERS_DONE
  | MP_STATE_PART_DATA
  | MP_STATE_PART_DATA_CR
  | MP_STATE_PART_DATA_LF
  | MP_STATE_PART_DATA_BOUNDARY_START
  | MP_STATE_PART_DATA_BOUNDARY_DASH
  | MP_STATE_PART_DATA_BOUNDARY
  | MP_STATE_PART_DATA_END
  | MP_STATE_BODY_END
  | MP_STATE_END
  | MP_STATE_ERROR.

#[export] Instance multipart_state_eq_dec : EqDecision multipart_state_t.
Proof. solve_decision. Defined.

(** [boundary_len] and [lookbehind_len] are the lengths of the lists. *)
Record multipart_parser_t := {
  boundary : bytes;
  state : multipart_state_t;
  boundary_index : nat;
  lookbehind : bytes;
  part_started : bool;
  error_reason : option bytes;
}.

Definition set_state (s : multipart_state_t) (p : multipart_parser_t) : multipart_parser_t :=
  {| boundary := boundary p; state := s; boundary_index := boundary_index p;
     lookbehind := lookbehind p; part_started := part_started p; error_reason := error_reason p |}.
Definition set_index (i : nat) (p : multipart_parser_t) : multipart_parser_t :=
  {| boundary := boundary p; state := state p; boundary_index := i;
     lookbehind := lookbehind p; part_started := part_started p; error_reason := error_reason p |}.
Definition set_lookbehind (l : bytes) (p : multipart_parser_t) : multipart_parser_t :=
  {| boundary := boundary p; state := state p; boundary_index := boundary_index p;
     lookbehind := l; part_started := part_started p; error_reason := error_reason p |}.
Definition set_started (b : bool) (p : multipart_parser_t) : multipart_parser_t :=
  {| boundary := boundary p; state := state p; boundary_index := boundary_index p;
     lookbehind := lookbehind p; part_started := b; error_reason := error_reason p |}.
Definition set_error (r : bytes) (p : multipart_parser_t) : multipart_parser_t :=
  {| boundary := boundary p; state := MP_STATE_ERROR; boundary_index := boundary_index p;
     lookbehind := lookbehind p; part_started := part_started p; error_reason := Some r |}.

(** The boundary argument is a C string; [NULL] is [None]. *)
Definition multipart_parser_init (b : option bytes) : option multipart_parser_t :=
  match b with
  | None => None
  | Some s =>
      let s := c_str s in
      if (length s =? 0)%nat || (MULTIPART_MAX_BOUNDARY_LEN <? length s)%nat then None
      else Some {| boundary := s; state := MP_STATE_START; boundary_index := 0; lookbehind := [];
                   part_started := false; error_reason := None |}
  end.

Definition multipart_parser_create (b : option bytes) : option multipart_parser_t :=
  multipart_parser_init b.

Definition multipart_parser_reset (p : multipart_parser_t) : multipart_parser_t :=
  {| boundary := boundary p; state := MP_STATE_START; boundary_index := 0; lookbehind := [];
     part_started := false; error_reason := None |}.

Definition is_state_END (s : multipart_state_t) : bool := match s with MP_STATE_END => true | _ => false end.
Definition is_state_ERROR (s : multipart_state_t) : bool := match s with MP_STATE_ERROR => true | _ => false end.

Definition multipart_parser_is_complete (p : multipart_parser_t) : bool := is_state_END (state p).
Definition multipart_parser_has_error (p : multipart_parser_t) : bool := is_state_ERROR (state p).
Definition multipart_parser_get_error (p : multipart_parser_t) : option bytes :=
  if is_state_ERROR (state p) then error_reason p else None.

(** ** Execution *)

Section execute.
Context {U : Type}.

(** Callbacks; [None] is a [NULL] pointer.  A callback answers [true] for the
    return value 0. *)
Record multipart_callbacks_t := {
  on_part_begin : option (U -> bool * U);
  on_header_field : option (U -> bytes -> bool * U);
  on_header_value : option (U -> bytes -> bool * U);
  on_headers_complete : option (U -> bool * U);
  on_part_data : option (U -> bytes -> bool * U);
  on_part_end : option (U -> bool * U);
  on_body_end : option (U -> bool * U);
}.

Variable callbacks : multipart_callbacks_t.

(** [MP_CALLBACK] and [CALLBACK_DATA]: on failure the parser is in the error
    state and execution stops. *)
Definition MP_CALLBACK (cb : option (U -> bool * U)) (u : U) : bool * U :=
  match cb with None => (true, u) | Some f => f u end.

Definition CALLBACK_DATA (cb : option (U -> bytes -> bool * U)) (u : U) (l : bytes) : bool * U :=
  match cb with
  | None => (true, u)
  | Some f => match l with [] => (true, u) | _ => f u l end
  end.

(** One turn of the loop: the byte was consumed, the byte is to be processed
    again in a new state, or the call returns -1. *)
Inductive outcome :=
  | Next (p : multipart_parser_t) (u : U) (mark : option bytes)
  | Again (p : multipart_parser_t) (u : U) (mark : option bytes)
  | Fail (p : multipart_parser_t) (u : U).

Definition after (name : bytes) (r : bool * U) (p : multipart_parser_t) (k : U -> outcome) : outcome :=
  if fst r then k (snd r)
  else Fail (set_error (lit "callback " ++ name ++ lit " returned error") p) (snd r).

(** [flush_lookbehind], then back to the data state with the byte unread. *)
Definition flush_lookbehind (p : multipart_parser_t) (u : U) (k : multipart_parser_t -> U -> outcome) : outcome :=
  match lookbehind p with
  | [] => k p u
  | l => after (lit "on_part_data") (CALLBACK_DATA (on_part_data callbacks) u l) p
           (fun u' => k (set_lookbehind [] p) u')
  end.

Definition not_boundary (p : multipart_parser_t) (u : U) (mark : option bytes) : outcome :=
  flush_lookbehind p u (fun p' u' => Again (set_state MP_STATE_PART_DATA p') u' mark).

(** [mark = p] for the states that accumulate data. *)
Definition init_mark (s : multipart_state_t) (mark : option bytes) : option bytes :=
  match mark with
  | Some _ => mark
  | None => match s with
            | MP_STATE_HEADER_FIELD | MP_STATE_HEADER_VALUE | MP_STATE_PART_DATA => Some []
            | _ => None
            end
  end.

(** The slice from [mark] to [p]. *)
Definition slice (mark : option bytes) : bytes := match mark with Some l => l | None => [] end.

(** The states of a part's body and of its end; [mark] and [mark'] are the
    pending slice before and after the byte. *)
Definition step_data (p : multipart_parser_t) (u : U) (mark mark' : option bytes) (c : Z) : outcome :=
  let next s := Next (set_state s p) u mark' in
  let error r := Fail (set_error (lit r) p) u in
  match state p with
  | MP_STATE_PART_DATA =>
      if c =? CR then
        after (lit "on_part_data") (CALLBACK_DATA (on_part_data callbacks) u (slice mark)) p
          (fun u' => Next (set_state MP_STATE_PART_DATA_CR (set_lookbehind [CR] p)) u' None)
      else if c =? LF then
        after (lit "on_part_data") (CALLBACK_DATA (on_part_data callbacks) u (slice mark)) p
          (fun u' => Next (set_state MP_STATE_PART_DATA_LF (set_lookbehind [LF] p)) u' None)
      else Next p u mark'
  | MP_STATE_PART_DATA_CR =>
      if c =? LF then Next (set_state MP_STATE_PART_DATA_LF (set_lookbehind (lookbehind p ++ [LF]) p)) u mark'
      else not_boundary p u mark
  | MP_STATE_PART_DATA_LF =>
      if c =? DASH then
        Next (set_state MP_STATE_PART_DATA_BOUNDARY_START (set_lookbehind (lookbehind p ++ [DASH]) p)) u mark'
      else not_boundary p u mark
  | MP_STATE_PART_DATA_BOUNDARY_START =>
      if c =? DASH then
        Next (set_state MP_STATE_PART_DATA_BOUNDARY
                (set_index 0 (set_lookbehind (lookbehind p ++ [DASH]) p))) u mark'
      else not_boundary p u mark
  | MP_STATE_PART_DATA_BOUNDARY =>
      if (boundary_index p <? length (boundary p))%nat
         && negb (c =? nth (boundary_index p) (boundary p) 0) then not_boundary p u mark
      else
        let p1 := if (boundary_index p <? length (boundary p))%nat
                  then set_index (S (boundary_index p)) (set_lookbehind (lookbehind p ++ [c]) p) else p in
        Next (if (boundary_index p1 =? length (boundary p1))%nat
              then set_state MP_STATE_PART_DATA_END (set_lookbehind [] p1) else p1) u mark'
  | MP_STATE_PART_DATA_END =>
      if c =? DASH then next MP_STATE_BODY_END
      else if c =? CR then
        after (lit "on_part_end") (MP_CALLBACK (on_part_end callbacks) u) p
          (fun u' => Next (set_state MP_STATE_BOUNDARY_DONE (set_started false p)) u' mark')
      else if c =? LF then
        after (lit "on_part_end") (MP_CALLBACK (on_part_end callbacks) u) p (fun u1 =>
        after (lit "on_part_begin") (MP_CALLBACK (on_part_begin callbacks) u1) (set_started false p) (fun u2 =>
          Next (set_state MP_STATE_HEADER_FIELD_START (set_started true p)) u2 mark'))
      else error "expected CRLF or '--' after boundary"%string
  | MP_STATE_BODY_END =>
      if c =? DASH then
        let finish p u := after (lit "on_body_end") (MP_CALLBACK (on_body_end callbacks) u) p
                            (fun u' => Next (set_state MP_STATE_END p) u' mark') in
        if part_started p then
          after (lit "on_part_end") (MP_CALLBACK (on_part_end callbacks) u) p
            (fun u' => finish (set_started false p) u')
        else finish p u
      else error "expected '--' at end of body"%string
  | MP_STATE_END => Next p u mark'
  | MP_STATE_ERROR => Fail p u
  | _ => error "unknown state"%string
  end.

Definition step (p : multipart_parser_t) (u : U) (mark0 : option bytes) (c : Z) : outcome :=
  let mark := init_mark (state p) mark0 in
  let mark' := option_map (fun l => l ++ [c]) mark in
  let next s := Next (set_state s p) u mark' in
  let error r := Fail (set_error (lit r) p) u in
  let begin_part u m := after (lit "on_part_begin") (MP_CALLBACK (on_part_begin callbacks) u) p
      (fun u' => Next (set_state MP_STATE_HEADER_FIELD_START (set_started true p)) u' m) in
  match state p with
  | MP_STATE_START => if c =? DASH then next MP_STATE_BOUNDARY_START else Next p u mark'
  | MP_STATE_BOUNDARY_START =>
      if c =? DASH then Next (set_state MP_STATE_BOUNDARY (set_index 0 p)) u mark'
      else next MP_STATE_START
  | MP_STATE_BOUNDARY =>
      let p1 := if (boundary_index p <? length (boundary p))%nat then
                  if c =? nth (boundary_index p) (boundary p) 0 then set_index (S (boundary_index p)) p
                  else set_state MP_STATE_START p
                else p in
      let p2 := if (boundary_index p1 =? length (boundary p1))%nat
                then set_state MP_STATE_BOUNDARY_ALMOST_DONE p1 else p1 in
      Next p2 u mark'
  | MP_STATE_BOUNDARY_ALMOST_DONE =>
      if c =? CR then next MP_STATE_BOUNDARY_DONE
      else if c =? DASH then next MP_STATE_BODY_END
      else if c =? LF then begin_part u mark'
      else error "expected CR or LF after boundary"%string
  | MP_STATE_BOUNDARY_DONE =>
      if c =? LF then begin_part u mark' else error "expected LF after CR"%string
  | MP_STATE_HEADER_FIELD_START =>
      if c =? CR then Next (set_state MP_STATE_HEADERS_ALMOST_DONE p) u (Some [c])
      else if c =? LF then
        after (lit "on_headers_complete") (MP_CALLBACK (on_headers_complete callbacks) u) p
          (fun u' => Next (set_state MP_STATE_PART_DATA p) u' (Some []))
      else Next (set_state MP_STATE_HEADER_FIELD p) u (Some [c])
  | MP_STATE_HEADER_FIELD =>
      if c =? COLON then
        after (lit "on_header_field") (CALLBACK_DATA (on_header_field callbacks) u (slice mark)) p
          (fun u' => Next (set_state MP_STATE_HEADER_VALUE_START p) u' None)
      else if (c =? CR) || (c =? LF) then error "unexpected end of line in header name"%string
      else Next p u mark'
  | MP_STATE_HEADER_VALUE_START =>
      if (c =? SP) || (c =? HTAB) then Next p u mark'
      else Again (set_state MP_STATE_HEADER_VALUE p) u (Some [])
  | MP_STATE_HEADER_VALUE =>
      if c =? CR then
        after (lit "on_header_value") (CALLBACK_DATA (on_header_value callbacks) u (slice mark)) p
          (fun u' => Next (set_state MP_STATE_HEADER_VALUE_ALMOST_DONE p) u' None)
      else if c =? LF then
        after (lit "on_header_value") (CALLBACK_DATA (on_header_value callbacks) u (slice mark)) p
          (fun u' => Next (set_state MP_STATE_HEADER_FIELD_START p) u' None)
      else Next p u mark'
  | MP_STATE_HEADER_VALUE_ALMOST_DONE =>
      if c =? LF then next MP_STATE_HEADER_FIELD_START else error "expected LF after CR in header"%string
  | MP_STATE_HEADERS_ALMOST_DONE =>
      if c =? LF then
        after (lit "on_headers_complete") (MP_CALLBACK (on_headers_complete callbacks) u) p
          (fun u' => Next (set_state MP_STATE_PART_DATA p) u' (Some []))
      else error "expected LF after CR"%string
  | _ => step_data p u mark mark' c
  end.

(** The loop over the chunk.  [None]: out of fuel. *)
Inductive result :=
  | Done (p : multipart_parser_t) (u : U) (mark : option bytes)
  | Stop (p : multipart_parser_t) (u : U).

Fixpoint execute_loop (fuel : nat) (p : multipart_parser_t) (u : U) (mark : option bytes) (data : bytes)
    : option result :=
  match data with
  | [] => Some (Done p u mark)
  | c :: rest =>
      match fuel with
      | O => None
      | S f =>
          match step p u mark c with
          | Next p' u' m' => execute_loop f p' u' m' rest
          | Again p' u' m' => execute_loop f p' u' m' data
          | Fail p' u' => Some (Stop p' u')
          end
      end
  end.

(** The data left at the end of a chunk. *)
Definition flush_chunk (p : multipart_parser_t) (u : U) (mark : option bytes) : bool * bytes * U :=
  match mark with
  | None | Some [] => (true, [], u)
  | Some l =>
      match state p with
      | MP_STATE_HEADER_FIELD =>
          let r := CALLBACK_DATA (on_header_field callbacks) u l in (fst r, lit "on_header_field", snd r)
      | MP_STATE_HEADER_VALUE =>
          let r := CALLBACK_DATA (on_header_value callbacks) u l in (fst r, lit "on_header_value", snd r)
      | MP_STATE_PART_DATA =>
          let r := CALLBACK_DATA (on_part_data callbacks) u l in (fst r, lit "on_part_data", snd r)
      | _ => (true, [], u)
      end
  end.

(** Every byte is processed at most twice: [2 * len] turns are enough. *)
Definition execute_fuel (data : bytes) : nat := 2 * length data.

(** The returned [ssize_t], the parser and the user data; [None] is running out
    of fuel. *)
Definition multipart_parser_execute (p : multipart_parser_t) (u : U) (data : bytes)
    : option (Z * multipart_parser_t * U) :=
  match state p with
  | MP_STATE_ERROR => Some (-1, p, u)
  | MP_STATE_END => Some (0, p, u)
  | _ =>
      match execute_loop (execute_fuel data) p u None data with
      | None => None
      | Some (Stop p' u') => Some (-1, p', u')
      | Some (Done p' u' mark) =>
          let '(ok, name, u'') := flush_chunk p' u' mark in
          if ok then Some (Z.of_nat (length data), p', u'')
          else Some (-1, set_error (lit "callback " ++ name ++ lit " returned error") p', u'')
      end
  end.
End execute.
Arguments multipart_callbacks_t : clear implicits.

End Multipart.
