(* ===== verification/MultipartProofs.v ===== *)
(** * Correctness of the multipart parser

    Termination, the bound on the lookbehind buffer, independence of the chunk
    sizes, and the round trip with the textbook rendering of a form, for
    src/src/formats/multipart_parser.c as modelled in Multipart.v. *)

From S2P Require Import Prelude Multipart.

Module MultipartProofs.
Import Multipart.

(** Resolve the comparisons of a byte with the delimiters. *)
Ltac bytes_case c :=
  repeat match goal with
    | |- context [c =? ?x] => destruct (Z.eqb_spec c x) as [->|?]; cbn [orb andb negb]
    end.

Section parser.
Context {U : Type} (cbs : multipart_callbacks_t U).

Abbreviation step := (step cbs).
Abbreviation parser := multipart_parser_t.

(** ** One byte

    A byte is reprocessed at most once. *)
Definition consume (p : parser) (u : U) (mark : option bytes) (c : Z) : outcome :=
  match step p u mark c with
  | Again p' u' m' => step p' u' m' c
  | r => r
  end.

Fixpoint run (p : parser) (u : U) (mark : option bytes) (data : bytes) : result :=
  match data with
  | [] => Done p u mark
  | c :: rest =>
      match consume p u mark c with
      | Next p' u' m' | Again p' u' m' => run p' u' m' rest
      | Fail p' u' => Stop p' u'
      end
  end.

Lemma run_cons p u m c rest :
  run p u m (c :: rest) =
    match consume p u m c with
    | Next p' u' m' | Again p' u' m' => run p' u' m' rest
    | Fail p' u' => Stop p' u'
    end.
Proof. done. Qed.

Definition accumulates (s : multipart_state_t) : bool :=
  match s with MP_STATE_HEADER_VALUE | MP_STATE_PART_DATA => true | _ => false end.

Lemma step_settles p u m c : accumulates (state p) = true ->
  match step p u m c with Again _ _ _ => False | _ => True end.
Proof.
  unfold Multipart.step, Multipart.step_data. destruct (state p); try done; intros _; repeat case_if; try done;
    unfold after; by case_if.
Qed.

Lemma step_again p u m c p' u' m' :
  step p u m c = Again p' u' m' -> accumulates (state p') = true.
Proof.
  unfold Multipart.step, Multipart.step_data, not_boundary, flush_lookbehind, after.
  destruct (state p); repeat case_if; try discriminate;
    try (destruct (lookbehind p)); repeat case_if; intros [= <- <- <-]; done.
Qed.

Lemma consume_settles p u m c : match consume p u m c with Again _ _ _ => False | _ => True end.
Proof.
  unfold consume. destruct (step p u m c) as [| p' u' m' |] eqn:E; try done.
  by apply step_settles, (step_again _ _ _ _ _ _ _ E).
Qed.

(** Two turns per byte are enough. *)
Lemma execute_loop_run fuel p u m data :
  (2 * length data <= fuel)%nat -> execute_loop cbs fuel p u m data = Some (run p u m data).
Proof.
  revert fuel p u m. induction data as [|c rest IH]; intros fuel p u m Hf; cbn [run].
  { by destruct fuel. }
  cbn [length] in Hf. destruct fuel as [|fuel]; [lia|]. cbn [execute_loop].
  unfold consume. destruct (step p u m c) as [p' u' m' | p' u' m' | p' u'] eqn:E; [apply IH; lia | | done].
  destruct fuel as [|fuel]; [lia|]. cbn [execute_loop].
  pose proof (step_settles p' u' m' c (step_again _ _ _ _ _ _ _ E)) as Hs.
  destruct (step p' u' m' c); [apply IH; lia | done | done].
Qed.

Lemma run_app p u m a b :
  run p u m (a ++ b) = match run p u m a with Done p' u' m' => run p' u' m' b | r => r end.
Proof.
  revert p u m. induction a as [|c a IH]; intros p u m; cbn [run app]; [done|].
  destruct (consume p u m c); [apply IH..|done].
Qed.

(** The call as a function: it always returns. *)
Definition finish (data : bytes) (r : result) : Z * parser * U :=
  match r with
  | Stop p' u' => (-1, p', u')
  | Done p' u' mark =>
      let '(ok, name, u'') := flush_chunk cbs p' u' mark in
      if ok : bool then (Z.of_nat (length data), p', u'')
      else (-1, set_error (lit "callback " ++ name ++ lit " returned error") p', u'')
  end.

Lemma execute_run p u data :
  multipart_parser_execute cbs p u data =
    Some (match state p with
          | MP_STATE_ERROR => (-1, p, u)
          | MP_STATE_END => (0, p, u)
          | _ => finish data (run p u None data)
          end).
Proof.
  unfold multipart_parser_execute.
  rewrite execute_loop_run by (unfold execute_fuel; lia).
  destruct (state p); try done; unfold finish; destruct (run p u None data); try done;
    destruct (flush_chunk _ _ _ _) as [[ok name] u'']; by destruct ok.
Qed.

(** ** The lookbehind buffer *)

(** What the buffer holds in each state: the part of the delimiter matched so
    far. *)
Definition eol (l : bytes) : Prop := l = [CR; LF] \/ l = [LF].

Definition lookbehind_ok (p : parser) : Prop :=
  match state p with
  | MP_STATE_PART_DATA_CR => lookbehind p = [CR]
  | MP_STATE_PART_DATA_LF => eol (lookbehind p)
  | MP_STATE_PART_DATA_BOUNDARY_START => exists e, eol e /\ lookbehind p = e ++ [DASH]
  | MP_STATE_PART_DATA_BOUNDARY => exists e, eol e /\ (boundary_index p < length (boundary p))%nat /\
      lookbehind p = e ++ [DASH; DASH] ++ take (boundary_index p) (boundary p)
  | MP_STATE_ERROR => (length (lookbehind p) < MULTIPART_MAX_BOUNDARY_LEN + 4)%nat
  | MP_STATE_BOUNDARY => lookbehind p = [] /\ (boundary_index p < length (boundary p))%nat
  | MP_STATE_HEADERS_DONE | MP_STATE_PART_DATA_BOUNDARY_DASH => False
  | _ => lookbehind p = []
  end.

Definition parser_ok (p : parser) : Prop :=
  (1 <= length (boundary p) <= MULTIPART_MAX_BOUNDARY_LEN)%nat /\ lookbehind_ok p.

(** Room for one more byte in the 74-byte buffer, in every state. *)
Lemma parser_ok_room p : parser_ok p -> (length (lookbehind p) < MULTIPART_MAX_BOUNDARY_LEN + 4)%nat.
Proof.
  unfold parser_ok, lookbehind_ok, MULTIPART_MAX_BOUNDARY_LEN. intros [Hb H].
  destruct (state p); try (rewrite H; simpl; lia); try done.
  - destruct H as [-> _]. simpl. lia.
  - destruct H as [-> | ->]; simpl; lia.
  - destruct H as (e & [-> | ->] & ->); simpl; lia.
  - destruct H as (e & He & Hi & ->). rewrite !length_app, length_take. destruct He as [-> | ->]; simpl; lia.
Qed.

Lemma set_error_ok p r : parser_ok p -> parser_ok (set_error r p).
Proof. intros H. pose proof (parser_ok_room p H). destruct H as [Hb _]. split; [done|]. done. Qed.

Lemma after_ok p name r (k : U -> outcome) :
  parser_ok p ->
  (forall u, match k u with Next q _ _ | Again q _ _ | Fail q _ => parser_ok q end) ->
  match after name r p k with Next q _ _ | Again q _ _ | Fail q _ => parser_ok q end.
Proof. intros H Hk. unfold after. case_if; [apply Hk | by apply set_error_ok]. Qed.

Lemma not_boundary_ok p u m :
  parser_ok p -> match not_boundary cbs p u m with Next q _ _ | Again q _ _ | Fail q _ => parser_ok q end.
Proof.
  intros H. unfold not_boundary, flush_lookbehind. destruct (lookbehind p) eqn:E.
  - destruct H as [Hb _]. split; [done|]. done.
  - apply after_ok; [done|]. intros u'. destruct H as [Hb _]. split; done.
Qed.

Lemma step_ok p u m c :
  parser_ok p -> match step p u m c with Next q _ _ | Again q _ _ | Fail q _ => parser_ok q end.
Proof.
  intros H. pose proof H as [Hb Hl]. unfold Multipart.step, Multipart.step_data, lookbehind_ok in *.
  destruct (state p) eqn:Es; repeat case_if;
    try (apply set_error_ok; assumption); try (by apply not_boundary_ok);
    repeat (apply after_ok; [first [assumption | split; [assumption|]; unfold lookbehind_ok; by rewrite Es]|];
            intros);
    cbn [set_state set_started set_index set_lookbehind boundary boundary_index lookbehind state] in *;
    try (split; [assumption|]; unfold lookbehind_ok; cbn; first [assumption | by rewrite Es | idtac]);
    try done.
  1: split; [done | lia].
  1-3: by destruct Hl.
  - rewrite Es. destruct Hl as [-> Hl]. split; [done|].
    match goal with H : (_ =? _)%nat = false |- _ => apply Nat.eqb_neq in H end. lia.
  - by destruct Hl.
  - by right.
  - rewrite Hl. by left.
  - by exists (lookbehind p).
  - destruct Hl as (e & He & ->). exists e. split_and!; [done | lia|]. by rewrite <- app_assoc.
  - rewrite Es. destruct Hl as (e & He & Hi & ->). exists e.
    cbn [andb] in Heqb.
    apply negb_false_iff, Z.eqb_eq in Heqb.
    match goal with H : (_ =? _)%nat = false |- _ => apply Nat.eqb_neq in H end.
    split_and!; [done | lia|]. rewrite <- !app_assoc. cbn [app]. do 3 f_equal.
    rewrite (take_S_r _ _ c); [done|]. rewrite Heqb.
    destruct (lookup_lt_is_Some_2 _ _ Hi) as [x Hx]. by rewrite Hx, (nth_lookup_Some _ _ _ _ Hx).
Qed.

Lemma consume_ok p u m c :
  parser_ok p -> match consume p u m c with Next q _ _ | Again q _ _ | Fail q _ => parser_ok q end.
Proof.
  intros H. unfold consume. pose proof (step_ok p u m c H) as H1.
  destruct (step p u m c) as [| p' u' m' |]; try done. by apply step_ok.
Qed.

Lemma run_ok p u m data :
  parser_ok p -> match run p u m data with Done q _ _ | Stop q _ => parser_ok q end.
Proof.
  revert p u m. induction data as [|c rest IH]; intros p u m H; cbn [run]; [done|].
  pose proof (consume_ok p u m c H) as H1. destruct (consume p u m c); [by apply IH..|done].
Qed.

Lemma execute_ok p u data r p' u' :
  parser_ok p -> multipart_parser_execute cbs p u data = Some (r, p', u') -> parser_ok p'.
Proof.
  intros H. rewrite execute_run. pose proof (run_ok p u None data H) as Hr.
  assert (forall x, finish data (run p u None data) = x -> parser_ok (snd (fst x))) as Hf.
  { intros x <-. unfold finish. destruct (run p u None data) as [q v mk|q v]; [|done].
    destruct (flush_chunk _ _ _ _) as [[ok name] v']. destruct ok; [done|]. by apply set_error_ok. }
  destruct (state p); intros [= E]; try (by specialize (Hf _ E)); by simplify_eq.
Qed.

(** ** Chunks *)

(** Callbacks that take data in pieces: two calls are one call with the
    concatenation. *)
Definition additive (cb : option (U -> bytes -> bool * U)) : Prop :=
  forall f u a b u', cb = Some f -> a <> [] -> b <> [] -> f u a = (true, u') -> f u (a ++ b) = f u' b.

Definition streaming : Prop :=
  additive (on_header_field cbs) /\ additive (on_header_value cbs) /\ additive (on_part_data cbs).

Lemma data_app cb u a b u' :
  additive cb -> CALLBACK_DATA cb u a = (true, u') -> CALLBACK_DATA cb u (a ++ b) = CALLBACK_DATA cb u' b.
Proof.
  intros Hadd. unfold CALLBACK_DATA. destruct cb as [f|]; [|by intros [= <-]].
  destruct a as [|x a]; [by intros [= <-]|]. intros E. destruct b as [|y b].
  - rewrite app_nil_r. done.
  - by apply (Hadd f u (x :: a) (y :: b) u').
Qed.

(** The callback that data of a state goes to. *)
Definition data_cb (s : multipart_state_t) : option (U -> bytes -> bool * U) :=
  match s with
  | MP_STATE_HEADER_FIELD => on_header_field cbs
  | MP_STATE_HEADER_VALUE => on_header_value cbs
  | MP_STATE_PART_DATA => on_part_data cbs
  | _ => None
  end.

Definition marks (s : multipart_state_t) : bool :=
  match s with MP_STATE_HEADER_FIELD | MP_STATE_HEADER_VALUE | MP_STATE_PART_DATA => true | _ => false end.

(** Two runs in the same parser state: the second one has already delivered the
    first part of the pending slice. *)
Definition agree (s : multipart_state_t) (u : U) (m : option bytes) (u' : U) (m' : option bytes) : Prop :=
  if marks s then exists x, slice m = x ++ slice m' /\ CALLBACK_DATA (data_cb s) u x = (true, u')
  else u = u' /\ match s with MP_STATE_HEADERS_ALMOST_DONE => True | _ => m = None /\ m' = None end.

Definition agree_out (o o' : @outcome U) : Prop :=
  match o, o' with
  | Next p u m, Next p' u' m' => p = p' /\ agree (state p) u m u' m'
  | Again p u m, Again p' u' m' => p = p' /\ agree (state p) u m u' m'
  | Fail p _, Fail p' _ => p = p'
  | _, _ => False
  end.

Lemma agree_nil s u m : marks s = true -> agree s u m u m.
Proof.
  unfold agree. intros ->. exists []. split; [done|]. by destruct (data_cb s).
Qed.

Lemma agree_after name r p (k k' : U -> outcome) :
  (forall u, agree_out (k u) (k' u)) -> agree_out (after name r p k) (after name r p k').
Proof. intros Hk. unfold after. case_if; [apply Hk | done]. Qed.

(** The slice delivered by the ahead run plus its pending one is the slice of the
    other run. *)
Lemma agree_call s u m u' m' :
  marks s = true -> additive (data_cb s) -> agree s u m u' m' ->
  CALLBACK_DATA (data_cb s) u (slice (init_mark s m)) = CALLBACK_DATA (data_cb s) u' (slice (init_mark s m')).
Proof.
  intros Hs Hadd. unfold agree. rewrite Hs. intros (x & Hx & Hc).
  assert (forall m, slice (init_mark s m) = slice m) as Hi by (intros [|]; destruct s; done).
  rewrite !Hi, Hx. by apply data_app.
Qed.

Lemma agree_push s u m u' m' c :
  marks s = true -> agree s u m u' m' ->
  agree s u (option_map (fun l => l ++ [c]) (init_mark s m)) u' (option_map (fun l => l ++ [c]) (init_mark s m')).
Proof.
  intros Hs. unfold agree. rewrite Hs. intros (x & Hx & Hc). exists x. split; [|done].
  assert (forall m, slice (option_map (fun l => l ++ [c]) (init_mark s m)) = slice m ++ [c]) as Hi
    by (intros [|]; destruct s; done).
  by rewrite !Hi, Hx, app_assoc.
Qed.

Lemma step_agree p u m u' m' c :
  streaming -> agree (state p) u m u' m' -> agree_out (step p u m c) (step p u' m' c).
Proof.
  intros (Hf & Hv & Hd) Ha. unfold Multipart.step, Multipart.step_data.
  destruct (marks (state p)) eqn:Em.
  - pose proof (agree_push (state p) u m u' m' c Em Ha) as Hpush.
    assert (additive (data_cb (state p))) as Hadd by (by destruct (state p)).
    pose proof (agree_call (state p) u m u' m' Em Hadd Ha) as Hcall.
    destruct (state p) eqn:Es; try done; cbn [data_cb] in Hcall; rewrite ?Hcall; repeat case_if;
      try (apply agree_after; intros v; split; [done|]; cbn; done);
      try (split; [done|]; by rewrite Es); done.
  - unfold agree in Ha. rewrite Em in Ha. destruct Ha as [-> Hm].
    destruct (state p) eqn:Es; try done;
      try (destruct Hm as [E1 E2]; rewrite E1, E2; cbn [init_mark option_map slice]); repeat case_if;
      try (unfold not_boundary, flush_lookbehind; destruct (lookbehind p));
      repeat (apply agree_after; intros);
      cbn [agree_out]; try done; (split; [done|]);
      cbn [state set_state set_started set_index set_lookbehind];
      first [done | by apply agree_nil | by rewrite Es].
Qed.

Lemma consume_agree p u m u' m' c :
  streaming -> agree (state p) u m u' m' -> agree_out (consume p u m c) (consume p u' m' c).
Proof.
  intros Hs Ha. unfold consume. pose proof (step_agree p u m u' m' c Hs Ha) as H.
  destruct (step p u m c) as [p1 u1 m1|p1 u1 m1|p1 u1], (step p u' m' c) as [p2 u2 m2|p2 u2 m2|p2 u2];
    try done.
  destruct H as [-> H]. by apply step_agree.
Qed.

Lemma run_agree p u m u' m' data :
  streaming -> agree (state p) u m u' m' ->
  match run p u m data, run p u' m' data with
  | Done p1 u1 m1, Done p2 u2 m2 => p1 = p2 /\ agree (state p1) u1 m1 u2 m2
  | Stop p1 _, Stop p2 _ => p1 = p2
  | _, _ => False
  end.
Proof.
  intros Hs. revert p u m u' m'. induction data as [|c rest IH]; intros p u m u' m' Ha; cbn [run]; [done|].
  pose proof (consume_agree p u m u' m' c Hs Ha) as H.
  destruct (consume p u m c), (consume p u' m' c); try done; destruct H as [-> H]; by apply IH.
Qed.

Definition data_name (s : multipart_state_t) : bytes :=
  match s with
  | MP_STATE_HEADER_FIELD => lit "on_header_field"
  | MP_STATE_HEADER_VALUE => lit "on_header_value"
  | _ => lit "on_part_data"
  end.

Lemma flush_spec p u m :
  marks (state p) = true ->
  flush_chunk cbs p u m =
    let r := CALLBACK_DATA (data_cb (state p)) u (slice m) in
    (fst r, match slice m with [] => [] | _ => data_name (state p) end, snd r).
Proof.
  intros Hm. unfold flush_chunk. destruct m as [[|x l]|].
  2: by destruct (state p).
  all: cbn [slice]; unfold CALLBACK_DATA; by destruct (data_cb (state p)).
Qed.

Lemma flush_none p u m : marks (state p) = false -> flush_chunk cbs p u m = (true, [], u).
Proof. intros Hm. unfold flush_chunk. destruct m as [[|x l]|]; try done. by destruct (state p). Qed.

(** The mark is only set where it is used. *)
Definition mark_ok (s : multipart_state_t) (m : option bytes) : Prop :=
  marks s = true \/ s = MP_STATE_HEADERS_ALMOST_DONE \/ m = None.

Lemma agree_mark_ok s u m : agree s u m u m -> mark_ok s m.
Proof.
  unfold agree, mark_ok. destruct (marks s); [by left|]. intros [_ H]. right.
  destruct s; first [by right; destruct H | by left].
Qed.

Lemma run_mark_ok p u m data p1 u1 m1 :
  streaming -> agree (state p) u m u m -> run p u m data = Done p1 u1 m1 -> mark_ok (state p1) m1.
Proof.
  intros Hs Ha E. pose proof (run_agree p u m u m data Hs Ha) as H. rewrite E in H.
  by apply (agree_mark_ok _ u1), H.
Qed.

Lemma agree_start p u : agree (state p) u None u None.
Proof.
  unfold agree. destruct (marks (state p)).
  - exists []. split; [done|]. by destruct (data_cb (state p)).
  - split; [done|]. by destruct (state p).
Qed.

(** Delivering the pending slice at the end of a chunk keeps the runs in step. *)
Lemma flush_agree p u m name u' :
  mark_ok (state p) m -> flush_chunk cbs p u m = (true, name, u') -> agree (state p) u m u' None.
Proof.
  intros Hm E. unfold agree. destruct (marks (state p)) eqn:Es.
  - rewrite (flush_spec p u m Es) in E. cbv zeta in E.
    exists (slice m). split; [by rewrite app_nil_r|].
    destruct (CALLBACK_DATA _ _ _) as [ok v]. cbn [fst snd] in E. by simplify_eq.
  - rewrite flush_none in E by done. injection E as <- <-. split; [done|].
    destruct Hm as [?|[->| ->]]; [congruence | done | by destruct (state p)].
Qed.

(** At the end, flushing both runs gives the same user data. *)
Lemma flush_both p u m u' m' :
  streaming -> agree (state p) u m u' m' ->
  exists ok n n' v, flush_chunk cbs p u m = (ok, n, v) /\ flush_chunk cbs p u' m' = (ok, n', v) /\
    (ok = false -> n = n').
Proof.
  intros (Hf & Hv & Hd) Ha. destruct (marks (state p)) eqn:Es.
  - rewrite !flush_spec by done. cbv zeta.
    assert (additive (data_cb (state p))) as Hadd by (by destruct (state p)).
    unfold agree in Ha. rewrite Es in Ha. destruct Ha as (x & -> & Hc).
    rewrite (data_app _ _ _ _ _ Hadd Hc). do 4 eexists. split_and!; [done..|].
    unfold CALLBACK_DATA. destruct (data_cb (state p)); [|done].
    destruct (slice m'); [done|]. intros _. by destruct x.
  - rewrite !flush_none by done. unfold agree in Ha. rewrite Es in Ha. destruct Ha as [-> _].
    by exists true, [], [], u'.
Qed.

Lemma run_end p u m data : state p = MP_STATE_END -> exists m', run p u m data = Done p u m'.
Proof.
  revert m. induction data as [|c rest IH]; intros m Hs; cbn [run]; [by eexists|].
  unfold consume, Multipart.step, Multipart.step_data. rewrite Hs. apply IH, Hs.
Qed.

Lemma step_no_error p u m c :
  state p <> MP_STATE_ERROR ->
  match step p u m c with Next q _ _ | Again q _ _ => state q <> MP_STATE_ERROR | Fail _ _ => True end.
Proof.
  intros H. unfold Multipart.step, Multipart.step_data, not_boundary, flush_lookbehind, after.
  destruct (state p) eqn:Es; repeat case_if; try done; try (destruct (lookbehind p)); repeat case_if;
    cbn; first [done | congruence].
Qed.

Lemma run_no_error p u m data p' u' m' :
  state p <> MP_STATE_ERROR -> run p u m data = Done p' u' m' -> state p' <> MP_STATE_ERROR.
Proof.
  revert p u m. induction data as [|c rest IH]; intros p u m Hs; cbn [run]; [by intros [= <- <- <-]|].
  assert (match consume p u m c with Next q _ _ | Again q _ _ => state q <> MP_STATE_ERROR | Fail _ _ => True end).
  { unfold consume. pose proof (step_no_error p u m c Hs).
    destruct (step p u m c) as [| p1 u1 m1 |]; try done. by apply step_no_error. }
  destruct (consume p u m c); [by apply IH..|done].
Qed.

(** The outcome of two runs in step. *)
Definition same_end (x y : Z * parser * U) : Prop :=
  let '(r, p, u) := x in let '(r', p', u') := y in
  p = p' /\ (0 <= r <-> 0 <= r') /\ (0 <= r -> u = u').

Lemma finish_both d d' p u m u' m' data :
  streaming -> agree (state p) u m u' m' ->
  same_end (finish d (run p u m data)) (finish d' (run p u' m' data)).
Proof.
  intros Hs Ha. pose proof (run_agree p u m u' m' data Hs Ha) as Hrun.
  destruct (run p u m data) as [p1 u1 m1|p1 u1], (run p u' m' data) as [p2 u2 m2|p2 u2]; try done.
  destruct Hrun as [-> Hag]. destruct (flush_both _ _ _ _ _ Hs Hag) as (ok & n & n' & v & E & E' & En).
  unfold finish. rewrite E, E'. destruct ok; unfold same_end; split_and!; try done; try lia.
  by rewrite En.
Qed.

(** Two chunks are one. *)
Lemma execute_app p u a b r p1 u1 :
  streaming -> multipart_parser_execute cbs p u a = Some (r, p1, u1) -> 0 <= r ->
  exists x y, multipart_parser_execute cbs p1 u1 b = Some x /\
    multipart_parser_execute cbs p u (a ++ b) = Some y /\ same_end x y.
Proof.
  intros Hs Ha Hr. destruct (decide (state p = MP_STATE_END)) as [Hend|Hend].
  { rewrite execute_run, Hend in Ha. injection Ha as <- <- <-. rewrite !execute_run, Hend.
    do 2 eexists. split_and!; [done..|]. unfold same_end. done. }
  rewrite !execute_run in *. injection Ha as Ha.
  assert (state p <> MP_STATE_ERROR) as Herr by (intros E; rewrite E in Ha; simplify_eq; lia).
  assert (forall d, match state p with
          | MP_STATE_ERROR => (-1, p, u) | MP_STATE_END => (0, p, u)
          | _ => finish d (run p u None d) end = finish d (run p u None d)) as Hst
    by (intros d; by destruct (state p)).
  rewrite Hst in *. unfold finish in Ha at 1.
  destruct (run p u None a) as [q v m|q v] eqn:Erun; [|simplify_eq; lia].
  destruct (flush_chunk cbs q v m) as [[ok name] v'] eqn:Ef. destruct ok; [|simplify_eq; lia].
  injection Ha as <- <- <-. rewrite run_app, Erun.
  assert (mark_ok (state q) m) as Hmk by (eapply run_mark_ok; [done|apply agree_start|done]).
  pose proof (flush_agree q v m name v' Hmk Ef) as Hag.
  pose proof (run_no_error _ _ _ _ _ _ _ Herr Erun) as Hq.
  do 2 eexists. split_and!; [done..|].
  destruct (decide (state q = MP_STATE_END)) as [Eq|Eq].
  - rewrite Eq. destruct (run_end q v m b Eq) as [m' ->]. unfold finish.
    rewrite flush_none in * by (by rewrite Eq). injection Ef as <- <-. unfold same_end.
    split_and!; [done | lia | done].
  - assert (same_end (finish b (run q v' None b)) (finish (a ++ b) (run q v m b))) as H.
    { pose proof (finish_both (a ++ b) b q v m v' None b Hs Hag) as H. unfold same_end in *.
      destruct (finish (a ++ b) _) as [[r1 p1] x1], (finish b _) as [[r2 p2] x2]. naive_solver. }
    destruct (state q); done.
Qed.

(** Feeding a list of chunks until one is refused. *)
Fixpoint feed (p : parser) (u : U) (chunks : list bytes) : option (bool * parser * U) :=
  match chunks with
  | [] => Some (true, p, u)
  | d :: rest =>
      '(r, p', u') ← multipart_parser_execute cbs p u d;
      if r <? 0 then Some (false, p', u') else feed p' u' rest
  end.

Lemma feed_concat p u chunks p' u' :
  streaming -> state p <> MP_STATE_ERROR -> feed p u chunks = Some (true, p', u') ->
  exists r, multipart_parser_execute cbs p u (concat chunks) = Some (r, p', u') /\ 0 <= r.
Proof.
  intros Hs. revert p u. induction chunks as [|d rest IH]; intros p u Herr Hf; cbn [feed concat] in *.
  - injection Hf as <- <-. rewrite execute_run. cbn [run finish flush_chunk length].
    destruct (state p); try done; eexists; split; try done.
  - destruct (multipart_parser_execute cbs p u d) as [[[r q] v]|] eqn:E; [|done]. simpl in Hf.
    destruct (r <? 0) eqn:Er; [done|]. b2p.
    assert (state q <> MP_STATE_ERROR) as Hq.
    { clear -Herr E Er. rewrite execute_run in E. injection E as E.
      destruct (decide (state p = MP_STATE_END)) as [Hend|Hend]; [rewrite Hend in E; naive_solver|].
      assert (finish d (run p u None d) = (r, q, v)) as Hfin by (by destruct (state p)).
      unfold finish in Hfin. destruct (run p u None d) as [p1 u1 m1|p1 u1] eqn:Erun; [|simplify_eq; lia].
      destruct (flush_chunk cbs p1 u1 m1) as [[ok n] v1]. destruct ok; [|simplify_eq; lia].
      injection Hfin as _ <- _. by eapply run_no_error. }
    destruct (execute_app p u d (concat rest) r q v Hs E Er) as ([[r1 p1] x1] & [[r2 p2] x2] & E1 & E2 & H).
    destruct (IH q v Hq Hf) as (r3 & E3 & Hr3). rewrite E1 in E3. injection E3 as -> -> ->.
    unfold same_end in H. destruct H as (-> & Hsign & Hu). exists r2.
    rewrite E2. rewrite (Hu Hr3). split; [done|]. by apply Hsign.
Qed.

(** ** Parsing a rendered form

    From here on the callbacks take pieces and never refuse. *)
Hypothesis Hstream : streaming.

Definition never_fails : Prop :=
  (forall f u, on_part_begin cbs = Some f -> fst (f u) = true) /\
  (forall f u l, on_header_field cbs = Some f -> fst (f u l) = true) /\
  (forall f u l, on_header_value cbs = Some f -> fst (f u l) = true) /\
  (forall f u, on_headers_complete cbs = Some f -> fst (f u) = true) /\
  (forall f u l, on_part_data cbs = Some f -> fst (f u l) = true) /\
  (forall f u, on_part_end cbs = Some f -> fst (f u) = true) /\
  (forall f u, on_body_end cbs = Some f -> fst (f u) = true).

Hypothesis Hnf : never_fails.

(** The callbacks as functions on the user data. *)
Definition call (cb : option (U -> bool * U)) (u : U) : U := snd (MP_CALLBACK cb u).
Definition data (cb : option (U -> bytes -> bool * U)) (u : U) (l : bytes) : U := snd (CALLBACK_DATA cb u l).

Lemma call_ok cb u :
  (forall f u, cb = Some f -> fst (f u) = true) -> MP_CALLBACK cb u = (true, call cb u).
Proof.
  intros H. unfold call, MP_CALLBACK. destruct cb as [f|]; [|done].
  rewrite (surjective_pairing (f u)) at 1. by rewrite (H f u).
Qed.

Lemma data_ok cb u l :
  (forall f u l, cb = Some f -> fst (f u l) = true) -> CALLBACK_DATA cb u l = (true, data cb u l).
Proof.
  intros H. unfold data, CALLBACK_DATA. destruct cb as [f|]; [|done]. destruct l as [|x l]; [done|].
  rewrite (surjective_pairing (f u (x :: l))) at 1. by rewrite (H f u).
Qed.

Lemma data_split cb u a b :
  additive cb -> (forall f u l, cb = Some f -> fst (f u l) = true) -> data cb u (a ++ b) = data cb (data cb u a) b.
Proof. intros Hadd H. unfold data at 1. by rewrite (data_app cb u a b _ Hadd (data_ok cb u a H)). Qed.

Lemma data_nil cb u : data cb u [] = u.
Proof. unfold data, CALLBACK_DATA. by destruct cb. Qed.

Variable B : bytes.
Hypothesis HB : (1 <= length B <= MULTIPART_MAX_BOUNDARY_LEN)%nat.
Hypothesis HBplain : Forall (fun c => c <> CR /\ c <> LF /\ c <> NUL) B.

Definition mk (s : multipart_state_t) (i : nat) (lb : bytes) (st : bool) : parser :=
  {| boundary := B; state := s; boundary_index := i; lookbehind := lb; part_started := st;
     error_reason := None |}.

Abbreviation pdata := (data (on_part_data cbs)).

(** The partial matches of the delimiter. *)
Inductive pending : multipart_state_t -> nat -> bytes -> Prop :=
  | pd_cr i : pending MP_STATE_PART_DATA_CR i [CR]
  | pd_lf i e : eol e -> pending MP_STATE_PART_DATA_LF i e
  | pd_dash i e : eol e -> pending MP_STATE_PART_DATA_BOUNDARY_START i (e ++ [DASH])
  | pd_boundary i e : eol e -> (i < length B)%nat ->
      pending MP_STATE_PART_DATA_BOUNDARY i (e ++ [DASH; DASH] ++ take i B).

Lemma eol_nonempty e : eol e -> e <> [].
Proof. by intros [-> | ->]. Qed.

(** A byte that does not continue the match: what was held back is data, and the
    byte is looked at again as data. *)
Lemma mismatch s i lb st u c :
  lb <> [] -> (forall m, step (mk s i lb st) u m c = not_boundary cbs (mk s i lb st) u (init_mark s m)) ->
  init_mark s None = None ->
  consume (mk s i lb st) u None c = consume (mk MP_STATE_PART_DATA i [] st) (pdata u lb) (Some []) c.
Proof.
  intros Hlb Hstep Hm. unfold consume at 1. rewrite Hstep, Hm.
  destruct Hnf as (_ & _ & _ & _ & Hd & _).
  unfold not_boundary, flush_lookbehind. cbn [lookbehind mk]. destruct lb as [|x lb]; [done|].
  rewrite (data_ok _ u (x :: lb) Hd). unfold after. cbn [fst snd].
  change (set_state MP_STATE_PART_DATA (set_lookbehind [] (mk s i (x :: lb) st)))
    with (mk MP_STATE_PART_DATA i [] st).
  assert (forall v c, step (mk MP_STATE_PART_DATA i [] st) v None c =
                      step (mk MP_STATE_PART_DATA i [] st) v (Some []) c) as E by done.
  unfold consume. rewrite E.
  pose proof (step_settles (mk MP_STATE_PART_DATA i [] st) (pdata u (x :: lb)) (Some []) c eq_refl) as H.
  by destruct (step _ _ (Some []) c).
Qed.

Lemma nth_B i : (i < length B)%nat -> B !! i = Some (nth i B 0).
Proof. intros Hi. destruct (lookup_lt_is_Some_2 _ _ Hi) as [x Hx]. by rewrite Hx, (nth_lookup_Some _ _ _ _ Hx). Qed.

Lemma nth_B_plain i : (i < length B)%nat -> nth i B 0 <> CR /\ nth i B 0 <> LF.
Proof.
  intros Hi. pose proof (Forall_lookup_1 _ _ _ _ HBplain (nth_B i Hi)) as (? & ? & _). done.
Qed.

Lemma pending_step s i lb st u c :
  pending s i lb ->
  (exists s' i', pending s' i' (lb ++ [c]) /\
     consume (mk s i lb st) u None c = Next (mk s' i' (lb ++ [c]) st) u None) \/
  ((exists e, eol e /\ lb ++ [c] = e ++ [DASH; DASH] ++ B) /\
     consume (mk s i lb st) u None c = Next (mk MP_STATE_PART_DATA_END (length B) [] st) u None) \/
  consume (mk s i lb st) u None c = consume (mk MP_STATE_PART_DATA i [] st) (pdata u lb) (Some []) c.
Proof.
  intros H. destruct H as [i|i e He|i e He|i e He Hi].
  - destruct (Z.eqb_spec c LF) as [->|Hc].
    + left. exists MP_STATE_PART_DATA_LF, i. split; [|done]. constructor. by left.
    + right; right. apply mismatch; [done| |done]. intros m. unfold Multipart.step, Multipart.step_data. cbn [state mk].
      by rewrite (proj2 (Z.eqb_neq _ _) Hc).
  - destruct (Z.eqb_spec c DASH) as [->|Hc].
    + left. exists MP_STATE_PART_DATA_BOUNDARY_START, i. split; [by constructor | done].
    + right; right. apply mismatch; [by apply eol_nonempty| |done]. intros m. unfold Multipart.step, Multipart.step_data.
      cbn [state mk]. by rewrite (proj2 (Z.eqb_neq _ _) Hc).
  - destruct (Z.eqb_spec c DASH) as [->|Hc].
    + left. exists MP_STATE_PART_DATA_BOUNDARY, 0%nat. split; [|done].
      rewrite <- app_assoc. apply (pd_boundary 0 e He). lia.
    + right; right. apply mismatch; [by destruct e| |done]. intros m. unfold Multipart.step, Multipart.step_data.
      cbn [state mk]. by rewrite (proj2 (Z.eqb_neq _ _) Hc).
  - pose proof (proj2 (Nat.ltb_lt _ _) Hi) as Hlt.
    destruct (Z.eqb_spec c (nth i B 0)) as [->|Hc].
    + assert ((e ++ [DASH; DASH] ++ take i B) ++ [nth i B 0] = e ++ [DASH; DASH] ++ take (S i) B) as E.
      { rewrite (take_S_r _ _ _ (nth_B i Hi)). by rewrite <- !app_assoc. }
      destruct (decide (S i = length B)) as [Hend|Hend].
      * right; left. split.
        { exists e. split; [done|]. rewrite E, Hend, firstn_all. done. }
        unfold consume, Multipart.step, Multipart.step_data. cbn [state mk boundary_index boundary].
        rewrite Hlt, Z.eqb_refl. cbn [negb andb set_index set_lookbehind boundary_index boundary mk].
        rewrite Hend, Nat.eqb_refl. done.
      * left. exists MP_STATE_PART_DATA_BOUNDARY, (S i). rewrite E. split; [constructor; [done|lia]|].
        unfold consume, Multipart.step, Multipart.step_data. cbn [state mk boundary_index boundary].
        rewrite Hlt, Z.eqb_refl. cbn [negb andb set_index set_lookbehind boundary_index boundary lookbehind mk].
        rewrite (proj2 (Nat.eqb_neq _ _) Hend), E. done.
    + right; right. apply mismatch; [by destruct e| |done]. intros m. unfold Multipart.step, Multipart.step_data.
      cbn [state mk boundary_index boundary]. rewrite Hlt, (proj2 (Z.eqb_neq _ _) Hc). done.
Qed.

(** A carriage return never continues a match. *)
Lemma pending_cr s i lb st u :
  pending s i lb ->
  consume (mk s i lb st) u None CR = consume (mk MP_STATE_PART_DATA i [] st) (pdata u lb) (Some []) CR.
Proof.
  intros H. destruct H as [i|i e He|i e He|i e He Hi].
  - by apply mismatch.
  - apply mismatch; [by apply eol_nonempty|done..].
  - apply mismatch; [by destruct e|done..].
  - apply mismatch; [by destruct e| |done]. intros m. unfold Multipart.step, Multipart.step_data.
    cbn [state mk boundary_index boundary]. destruct (nth_B_plain i Hi) as [Hc _].
    by rewrite (proj2 (Nat.ltb_lt _ _) Hi), (proj2 (Z.eqb_neq CR (nth i B 0))) by congruence.
Qed.

(** Matching the boundary after a line end in the data. *)
Lemma run_match i e st u rest :
  eol e -> (i < length B)%nat ->
  run (mk MP_STATE_PART_DATA_BOUNDARY i (e ++ [DASH; DASH] ++ take i B) st) u None (drop i B ++ rest) =
  run (mk MP_STATE_PART_DATA_END (length B) [] st) u None rest.
Proof.
  intros He Hi. remember (length B - i)%nat as n eqn:En. revert i Hi En.
  induction n as [|n IH]; intros i Hi En; [lia|].
  rewrite (drop_S _ _ _ (nth_B i Hi)). cbn [app run].
  unfold consume, Multipart.step, Multipart.step_data. cbn [state mk boundary_index boundary].
  rewrite (proj2 (Nat.ltb_lt _ _) Hi), Z.eqb_refl.
  cbn [negb andb set_index set_lookbehind boundary_index boundary lookbehind mk init_mark option_map].
  destruct (decide (S i = length B)) as [Hend|Hend].
  - rewrite Hend, Nat.eqb_refl, drop_all. done.
  - rewrite (proj2 (Nat.eqb_neq _ _) Hend). rewrite <- IH with (i := S i) by lia.
    rewrite (take_S_r _ _ _ (nth_B i Hi)), <- !app_assoc. done.
Qed.

(** The end of a part: line end, two dashes, boundary. *)
Definition delimiter : bytes := crlf ++ [DASH; DASH] ++ B.

(** The body contains no delimiter, with or without the carriage return. *)
Definition no_delimiter (l : bytes) : Prop := forall x y, l <> x ++ LF :: [DASH; DASH] ++ B ++ y.

Lemma no_delimiter_suffix a b : no_delimiter (a ++ b) -> no_delimiter b.
Proof. intros H x y ->. apply (H (a ++ x) y). by rewrite <- app_assoc. Qed.

Lemma no_delimiter_full lb c rest e :
  eol e -> lb ++ [c] = e ++ [DASH; DASH] ++ B -> no_delimiter (lb ++ c :: rest) -> False.
Proof.
  intros He E H. assert (exists e0, e = e0 ++ [LF]) as [e0 ->].
  { destruct He as [-> | ->]; [by exists [CR] | by exists []]. }
  apply (H e0 rest). replace (lb ++ c :: rest) with ((lb ++ [c]) ++ rest) by (by rewrite <- app_assoc).
  rewrite E, <- !app_assoc. done.
Qed.

Lemma run_delimiter i st u m rest :
  run (mk MP_STATE_PART_DATA i [] st) u (Some m) (delimiter ++ rest) =
  run (mk MP_STATE_PART_DATA_END (length B) [] st) (pdata u m) None rest.
Proof.
  destruct Hnf as (_ & _ & _ & _ & Hd & _).
  unfold delimiter, crlf. rewrite <- app_assoc. cbn [app run]. unfold consume at 1. cbn [Multipart.step Multipart.step_data state mk init_mark].
  change (CR =? CR) with true. cbn [slice]. rewrite (data_ok _ u m Hd). cbn [after fst snd].
  change (run (mk MP_STATE_PART_DATA_BOUNDARY 0 ([CR; LF] ++ [DASH; DASH] ++ take 0 B) st) (pdata u m) None
            (drop 0 B ++ rest) = run (mk MP_STATE_PART_DATA_END (length B) [] st) (pdata u m) None rest).
  apply run_match; [by left | lia].
Qed.

Lemma run_body n :
  (forall i st u m body rest, (length body <= n)%nat -> no_delimiter body ->
     run (mk MP_STATE_PART_DATA i [] st) u (Some m) (body ++ delimiter ++ rest) =
     run (mk MP_STATE_PART_DATA_END (length B) [] st) (pdata u (m ++ body)) None rest) /\
  (forall s i lb st u body rest, (length body <= n)%nat -> pending s i lb -> no_delimiter (lb ++ body) ->
     run (mk s i lb st) u None (body ++ delimiter ++ rest) =
     run (mk MP_STATE_PART_DATA_END (length B) [] st) (pdata u (lb ++ body)) None rest).
Proof.
  destruct Hnf as (_ & _ & _ & _ & Hd & _). destruct Hstream as (_ & _ & Hadd).
  assert (forall u a b, pdata u (a ++ b) = pdata (pdata u a) b) as Hsplit by (intros; by apply data_split).
  (* the second part at a length follows from the first *)
  assert (forall n,
    (forall i st u m body rest, (length body <= n)%nat -> no_delimiter body ->
     run (mk MP_STATE_PART_DATA i [] st) u (Some m) (body ++ delimiter ++ rest) =
     run (mk MP_STATE_PART_DATA_END (length B) [] st) (pdata u (m ++ body)) None rest) ->
    forall body s i lb st u rest, (length body <= n)%nat -> pending s i lb -> no_delimiter (lb ++ body) ->
     run (mk s i lb st) u None (body ++ delimiter ++ rest) =
     run (mk MP_STATE_PART_DATA_END (length B) [] st) (pdata u (lb ++ body)) None rest) as Hpending.
  { clear n. intros n HP body. induction body as [|c body IH]; intros s i lb st u rest Hn Hp Hno.
    - rewrite app_nil_r. transitivity (run (mk MP_STATE_PART_DATA i [] st) (pdata u lb) (Some []) (delimiter ++ rest)).
      + cbn [app]. unfold delimiter, crlf. cbn [app run]. by rewrite (pending_cr s i lb st u Hp).
      + by rewrite run_delimiter, data_nil.
    - cbn [app run]. destruct (pending_step s i lb st u c Hp) as [(s' & i' & Hp' & E)|[[(e & He & Ee) _]|E]].
      + rewrite E. replace (lb ++ c :: body) with ((lb ++ [c]) ++ body) in * by (by rewrite <- app_assoc).
        rewrite IH; [done|simpl in Hn; lia|done|done].
      + by destruct (no_delimiter_full _ _ _ _ He Ee Hno).
      + rewrite E. rewrite Hsplit.
        change (pdata (pdata u lb) (c :: body)) with (pdata (pdata u lb) ([] ++ c :: body)).
        rewrite <- (HP i st (pdata u lb) [] (c :: body) rest); [done|done|].
        by apply no_delimiter_suffix in Hno. }
  induction n as [|n [IHP IHQ]].
  - assert (forall i st u m body rest, (length body <= 0)%nat -> no_delimiter body ->
     run (mk MP_STATE_PART_DATA i [] st) u (Some m) (body ++ delimiter ++ rest) =
     run (mk MP_STATE_PART_DATA_END (length B) [] st) (pdata u (m ++ body)) None rest) as HP.
    { intros i st u m body rest Hn _. destruct body; [|simpl in Hn; lia]. rewrite app_nil_r.
      apply run_delimiter. }
    split; [done|]. intros. by eapply Hpending.
  - assert (forall i st u m body rest, (length body <= S n)%nat -> no_delimiter body ->
     run (mk MP_STATE_PART_DATA i [] st) u (Some m) (body ++ delimiter ++ rest) =
     run (mk MP_STATE_PART_DATA_END (length B) [] st) (pdata u (m ++ body)) None rest) as HP.
    { intros i st u m body rest Hn Hno. destruct body as [|c body]; [rewrite app_nil_r; apply run_delimiter|].
      simpl in Hn. assert (length body <= n)%nat as Hn' by lia.
      cbn [app run]. unfold consume. cbn [Multipart.step Multipart.step_data state mk init_mark slice].
      destruct (Z.eqb_spec c CR) as [->|Hcr].
      { rewrite (data_ok _ u m Hd). cbn [after fst snd].
        change (set_state MP_STATE_PART_DATA_CR (set_lookbehind [CR] (mk MP_STATE_PART_DATA i [] st)))
          with (mk MP_STATE_PART_DATA_CR i [CR] st).
        rewrite IHQ; [|done|constructor|done]. by rewrite (Hsplit u m). }
      destruct (Z.eqb_spec c LF) as [->|Hlf].
      { rewrite (data_ok _ u m Hd). cbn [after fst snd].
        change (set_state MP_STATE_PART_DATA_LF (set_lookbehind [LF] (mk MP_STATE_PART_DATA i [] st)))
          with (mk MP_STATE_PART_DATA_LF i [LF] st).
        rewrite IHQ; [|done|constructor; by right|done]. by rewrite (Hsplit u m). }
      cbn [option_map]. rewrite IHP; [by rewrite <- app_assoc|done|].
      by apply (no_delimiter_suffix [c]). }
    split; [done|]. intros. by eapply Hpending.
Qed.

(** *** Headers *)

Abbreviation hfield := (data (on_header_field cbs)).
Abbreviation hvalue := (data (on_header_value cbs)).

Definition name_char (c : Z) : Prop := c <> COLON /\ c <> CR /\ c <> LF.
Definition value_char (c : Z) : Prop := c <> CR /\ c <> LF.

Definition header_ok (h : bytes * bytes) : Prop :=
  fst h <> [] /\ Forall name_char (fst h) /\ Forall value_char (snd h) /\
  match snd h with c :: _ => is_ows c = false | [] => True end.

Definition render_header (h : bytes * bytes) : bytes := fst h ++ [COLON; SP] ++ snd h ++ crlf.

Lemma run_name i st u m n rest :
  Forall name_char n ->
  run (mk MP_STATE_HEADER_FIELD i [] st) u (Some m) (n ++ COLON :: rest) =
  run (mk MP_STATE_HEADER_VALUE_START i [] st) (hfield u (m ++ n)) None rest.
Proof.
  destruct Hnf as (_ & Hf & _). intros Hn. revert m. induction Hn as [|c n (H1 & H2 & H3) _ IH]; intros m.
  - cbn [app run]. unfold consume. cbn [Multipart.step Multipart.step_data state mk init_mark slice].
    rewrite Z.eqb_refl, (data_ok _ u m Hf). cbn [after fst snd]. by rewrite app_nil_r.
  - cbn [app run]. unfold consume. cbn [Multipart.step Multipart.step_data state mk init_mark slice].
    rewrite (proj2 (Z.eqb_neq _ _) H1), (proj2 (Z.eqb_neq _ _) H2), (proj2 (Z.eqb_neq _ _) H3).
    cbn [orb option_map]. change (set_state MP_STATE_HEADER_FIELD (mk MP_STATE_HEADER_FIELD i [] st))
      with (mk MP_STATE_HEADER_FIELD i [] st). rewrite IH. by rewrite <- app_assoc.
Qed.

Lemma run_value i st u m v rest :
  Forall value_char v ->
  run (mk MP_STATE_HEADER_VALUE i [] st) u (Some m) (v ++ crlf ++ rest) =
  run (mk MP_STATE_HEADER_FIELD_START i [] st) (hvalue u (m ++ v)) None rest.
Proof.
  destruct Hnf as (_ & _ & Hv & _). intros Hn. revert m. induction Hn as [|c v (H1 & H2) _ IH]; intros m.
  - unfold crlf. cbn [app run]. unfold consume at 1. cbn [Multipart.step Multipart.step_data state mk init_mark slice].
    rewrite Z.eqb_refl, (data_ok _ u m Hv). cbn [after fst snd]. by rewrite app_nil_r.
  - cbn [app run]. unfold consume. cbn [Multipart.step Multipart.step_data state mk init_mark slice].
    rewrite (proj2 (Z.eqb_neq _ _) H1), (proj2 (Z.eqb_neq _ _) H2).
    cbn [option_map]. rewrite IH. by rewrite <- app_assoc.
Qed.

Lemma run_value_start i st u c rest :
  is_ows c = false ->
  run (mk MP_STATE_HEADER_VALUE_START i [] st) u None (c :: rest) =
  run (mk MP_STATE_HEADER_VALUE i [] st) u (Some []) (c :: rest).
Proof.
  intros Hc. cbn [run]. assert (consume (mk MP_STATE_HEADER_VALUE_START i [] st) u None c =
    consume (mk MP_STATE_HEADER_VALUE i [] st) u (Some []) c) as ->; [|done].
  unfold consume at 1. cbn [Multipart.step Multipart.step_data state mk init_mark]. unfold is_ows in Hc. rewrite Hc.
  change (set_state MP_STATE_HEADER_VALUE (mk MP_STATE_HEADER_VALUE_START i [] st))
    with (mk MP_STATE_HEADER_VALUE i [] st).
  unfold consume. pose proof (step_settles (mk MP_STATE_HEADER_VALUE i [] st) u (Some []) c eq_refl) as H.
  by destruct (step _ _ (Some []) c).
Qed.

Lemma run_header i st u h rest :
  header_ok h ->
  run (mk MP_STATE_HEADER_FIELD_START i [] st) u None (render_header h ++ rest) =
  run (mk MP_STATE_HEADER_FIELD_START i [] st) (hvalue (hfield u (fst h)) (snd h)) None rest.
Proof.
  intros (Hne & Hn & Hv & Hfirst). destruct h as [n v]. cbn [fst snd] in *. unfold render_header.
  rewrite <- !app_assoc. cbn [fst snd]. destruct n as [|c n]; [done|].
  apply Forall_cons_iff in Hn as [(H1 & H2 & H3) Hn].
  cbn [app run]. unfold consume at 1. cbn [Multipart.step Multipart.step_data state mk init_mark].
  rewrite (proj2 (Z.eqb_neq _ _) H2), (proj2 (Z.eqb_neq _ _) H3).
  change (set_state MP_STATE_HEADER_FIELD (mk MP_STATE_HEADER_FIELD_START i [] st))
    with (mk MP_STATE_HEADER_FIELD i [] st).
  rewrite run_name by done. cbn [app run]. unfold consume at 1. cbn [Multipart.step Multipart.step_data state mk init_mark].
  change ((SP =? SP) || (SP =? HTAB)) with true. cbn [option_map].
  rewrite <- (run_value i st _ [] v rest Hv).
  destruct v as [|c' v]; [by apply run_value_start | by apply run_value_start].
Qed.

Definition apply_headers (u : U) (hs : list (bytes * bytes)) : U :=
  fold_left (fun u h => hvalue (hfield u (fst h)) (snd h)) hs u.

Lemma run_headers i st u hs rest :
  Forall header_ok hs ->
  run (mk MP_STATE_HEADER_FIELD_START i [] st) u None (concat (map render_header hs) ++ rest) =
  run (mk MP_STATE_HEADER_FIELD_START i [] st) (apply_headers u hs) None rest.
Proof.
  intros H. revert u. induction H as [|h hs Hh _ IH]; intros u; cbn [map concat]; [done|].
  rewrite <- app_assoc, run_header by done. apply IH.
Qed.

(** *** Parts and forms *)

Record part := { headers : list (bytes * bytes); body : bytes }.

Definition part_ok (q : part) : Prop := Forall header_ok (headers q) /\ no_delimiter (body q).

Definition render_part (q : part) : bytes :=
  crlf ++ concat (map render_header (headers q)) ++ crlf ++ body q ++ delimiter.

Definition render_form (ps : list part) (epilogue : bytes) : bytes :=
  [DASH; DASH] ++ B ++ concat (map render_part ps) ++ [DASH; DASH] ++ epilogue.

(** What the callbacks see of a part and of a form. *)
Definition open_part (u : U) (q : part) : U :=
  pdata (call (on_headers_complete cbs) (apply_headers (call (on_part_begin cbs) u) (headers q))) (body q).
Definition apply_part (u : U) (q : part) : U := call (on_part_end cbs) (open_part u q).
Definition apply_form (u : U) (ps : list part) : U := call (on_body_end cbs) (fold_left apply_part ps u).

Lemma run_part i u q rest :
  part_ok q ->
  run (mk MP_STATE_BOUNDARY_DONE i [] false) u None
    (LF :: concat (map render_header (headers q)) ++ crlf ++ body q ++ delimiter ++ rest) =
  run (mk MP_STATE_PART_DATA_END (length B) [] true) (open_part u q) None rest.
Proof.
  intros [Hh Hb]. destruct Hnf as (Hbegin & _ & _ & Hhc & _).
  cbn [run]. unfold consume at 1. cbn [Multipart.step Multipart.step_data state mk init_mark].
  rewrite Z.eqb_refl, (call_ok _ u Hbegin). cbn [after fst snd option_map].
  change (set_state MP_STATE_HEADER_FIELD_START (set_started true (mk MP_STATE_BOUNDARY_DONE i [] false)))
    with (mk MP_STATE_HEADER_FIELD_START i [] true).
  rewrite run_headers by done. unfold crlf at 1. cbn [app run].
  unfold consume at 1. cbn [Multipart.step Multipart.step_data state mk init_mark]. change (CR =? CR) with true. cbn [run].
  unfold consume at 1. cbn [Multipart.step Multipart.step_data state mk init_mark set_state]. change (LF =? LF) with true.
  rewrite (call_ok _ _ Hhc). cbn [after fst snd].
  change (run (mk MP_STATE_PART_DATA i [] true)
    (call (on_headers_complete cbs) (apply_headers (call (on_part_begin cbs) u) (headers q))) (Some [])
    (body q ++ delimiter ++ rest) =
    run (mk MP_STATE_PART_DATA_END (length B) [] true) (open_part u q) None rest).
  by rewrite (proj1 (run_body (length (body q)))).
Qed.

Lemma run_end_none p u data : state p = MP_STATE_END -> run p u None data = Done p u None.
Proof.
  intros Hs. induction data as [|c rest IH]; cbn [run]; [done|].
  unfold consume, Multipart.step, Multipart.step_data. rewrite Hs. cbn [init_mark option_map]. apply IH.
Qed.

Lemma run_parts u ps epilogue :
  Forall part_ok ps ->
  run (mk MP_STATE_PART_DATA_END (length B) [] true) u None
    (concat (map render_part ps) ++ [DASH; DASH] ++ epilogue) =
  Done (mk MP_STATE_END (length B) [] false) (apply_form (call (on_part_end cbs) u) ps) None.
Proof.
  destruct Hnf as (Hbegin & _ & _ & Hhc & _ & Hend & Hbe). intros Hps. revert u.
  induction Hps as [|q ps Hq _ IH]; intros u; cbn [map concat].
  - cbn [app run]. unfold consume at 1. cbn [Multipart.step Multipart.step_data state mk init_mark]. change (DASH =? DASH) with true.
    cbn [run option_map]. unfold consume at 1.
    cbn [Multipart.step Multipart.step_data state mk init_mark set_state part_started]. change (DASH =? DASH) with true.
    cbn iota. rewrite (call_ok _ u Hend). cbn [after fst snd]. rewrite (call_ok _ _ Hbe).
    cbn [after fst snd option_map]. by rewrite run_end_none.
  - unfold render_part at 1. rewrite <- !app_assoc. unfold crlf at 1. cbn [app]. rewrite run_cons.
    unfold consume at 1. cbn [Multipart.step Multipart.step_data state mk init_mark].
    change (CR =? DASH) with false. change (CR =? CR) with true. cbn iota.
    rewrite (call_ok _ u Hend). cbn [after fst snd option_map].
    change (set_state MP_STATE_BOUNDARY_DONE (set_started false (mk MP_STATE_PART_DATA_END (length B) [] true)))
      with (mk MP_STATE_BOUNDARY_DONE (length B) [] false).
    pose proof (run_part (length B) (call (on_part_end cbs) u) q
      (concat (map render_part ps) ++ [DASH; DASH] ++ epilogue) Hq) as E.
    rewrite <- ?app_assoc in E. cbn [app] in E. rewrite E. apply IH.
Qed.

Lemma run_first_boundary i u rest :
  run (mk MP_STATE_START i [] false) u None ([DASH; DASH] ++ B ++ rest) =
  run (mk MP_STATE_BOUNDARY_ALMOST_DONE (length B) [] false) u None rest.
Proof.
  assert (forall k n, (k < length B)%nat -> n = (length B - k)%nat ->
    run (mk MP_STATE_BOUNDARY k [] false) u None (drop k B ++ rest) =
    run (mk MP_STATE_BOUNDARY_ALMOST_DONE (length B) [] false) u None rest) as H.
  { intros k n. revert k. induction n as [|n IH]; intros k Hk En; [lia|].
    rewrite (drop_S _ _ _ (nth_B k Hk)). cbn [app run]. unfold consume, Multipart.step, Multipart.step_data.
    cbn [state mk boundary_index boundary]. rewrite (proj2 (Nat.ltb_lt _ _) Hk), Z.eqb_refl.
    cbn [set_index boundary_index boundary mk init_mark option_map].
    destruct (decide (S k = length B)) as [Hend|Hend].
    - rewrite Hend, Nat.eqb_refl, drop_all. done.
    - rewrite (proj2 (Nat.eqb_neq _ _) Hend). apply (IH (S k)); lia. }
  cbn [app run]. apply (H 0%nat (length B)); lia.
Qed.

Lemma run_form i u ps epilogue :
  Forall part_ok ps ->
  exists st, run (mk MP_STATE_START i [] false) u None (render_form ps epilogue) =
    Done (mk MP_STATE_END (length B) [] st) (apply_form u ps) None.
Proof.
  destruct Hnf as (_ & _ & _ & _ & _ & _ & Hbe). intros Hps. exists false.
  unfold render_form. rewrite run_first_boundary. destruct ps as [|q ps]; cbn [map concat].
  - cbn [app run]. unfold consume at 1. cbn [Multipart.step Multipart.step_data state mk init_mark].
    change (DASH =? CR) with false. change (DASH =? DASH) with true. cbn iota.
    cbn [run option_map]. unfold consume at 1.
    cbn [Multipart.step Multipart.step_data state mk init_mark set_state part_started]. change (DASH =? DASH) with true.
    cbn iota. rewrite (call_ok _ _ Hbe). cbn [after fst snd option_map]. by rewrite run_end_none.
  - apply Forall_cons_iff in Hps as [Hq Hps]. unfold render_part at 1. rewrite <- !app_assoc.
    unfold crlf at 1. cbn [app]. rewrite run_cons. unfold consume at 1. cbn [Multipart.step Multipart.step_data state mk init_mark].
    change (CR =? CR) with true. cbn iota.
    change (set_state MP_STATE_BOUNDARY_DONE (mk MP_STATE_BOUNDARY_ALMOST_DONE (length B) [] false))
      with (mk MP_STATE_BOUNDARY_DONE (length B) [] false). cbn [option_map].
    pose proof (run_part (length B) u q (concat (map render_part ps) ++ [DASH; DASH] ++ epilogue) Hq) as E.
    rewrite <- ?app_assoc in E. cbn [app] in E. rewrite E. by apply run_parts.
Qed.

(** A call that would succeed on everything succeeds on every piece. *)
Lemma flush_never_fails p u m : exists n v, flush_chunk cbs p u m = (true, n, v).
Proof.
  destruct Hnf as (_ & Hf & Hv & _ & Hd & _). unfold flush_chunk.
  destruct m as [[|x l]|]; [by do 2 eexists| |by do 2 eexists].
  destruct (state p); try (by do 2 eexists);
    [rewrite (data_ok _ _ _ Hf) | rewrite (data_ok _ _ _ Hv) | rewrite (data_ok _ _ _ Hd)];
    by do 2 eexists.
Qed.

Lemma feed_split p u chunks r p' u' :
  multipart_parser_execute cbs p u (concat chunks) = Some (r, p', u') -> 0 <= r ->
  feed p u chunks = Some (true, p', u').
Proof.
  revert p u r. induction chunks as [|d rest IH]; intros p u r He Hr; cbn [feed concat] in *.
  - rewrite execute_run in He. cbn [run finish flush_chunk length] in He. injection He as He.
    destruct (state p); simplify_eq; done.
  - destruct (multipart_parser_execute cbs p u d) as [[[r1 q] v]|] eqn:E;
      [|by rewrite execute_run in E]. simpl.
    destruct (r1 <? 0) eqn:Er; b2p.
    + exfalso. rewrite execute_run in He, E. injection He as He. injection E as E.
      destruct (state p) eqn:Es; try (simplify_eq; lia).
      all: unfold finish in He, E; rewrite run_app in He;
        destruct (run p u None d) as [p1 u1 m1|p1 u1]; [|simplify_eq; lia];
        destruct (flush_never_fails p1 u1 m1) as (n & w & Ef); rewrite Ef in E; simplify_eq; lia.
    + destruct (execute_app p u d (concat rest) r1 q v Hstream E Er) as ([[r2 p2] x2] & [[r3 p3] x3] & E1 & E2 & H).
      rewrite He in E2. injection E2 as <- <- <-. unfold same_end in H. destruct H as (-> & Hsign & Hu).
      apply (IH q v r2); [|by apply Hsign]. rewrite E1. do 2 f_equal. apply Hu. by apply Hsign.
Qed.

Lemma c_str_plain : c_str B = B.
Proof.
  unfold c_str. apply take_while_id. eapply Forall_impl; [exact HBplain|].
  intros c (_ & _ & Hc). unfold isnt. by rewrite (proj2 (Z.eqb_neq _ _) Hc).
Qed.

Lemma create_mk : multipart_parser_create (Some B) = Some (mk MP_STATE_START 0 [] false).
Proof.
  unfold multipart_parser_create, multipart_parser_init. rewrite c_str_plain.
  rewrite (proj2 (Nat.eqb_neq _ _)), (proj2 (Nat.ltb_ge _ _)) by lia. done.
Qed.

Lemma form_chunks u ps epilogue chunks :
  Forall part_ok ps -> concat chunks = render_form ps epilogue ->
  exists p', feed (mk MP_STATE_START 0 [] false) u chunks = Some (true, p', apply_form u ps) /\
    multipart_parser_is_complete p' = true.
Proof.
  intros Hps Hc. destruct (run_form 0 u ps epilogue Hps) as [st E].
  exists (mk MP_STATE_END (length B) [] st). split; [|done].
  apply (feed_split _ _ _ (Z.of_nat (length (render_form ps epilogue)))); [|lia].
  rewrite execute_run, Hc, E. done.
Qed.
End parser.

(** ** Theorems *)

(** The parser always returns, and the lookbehind buffer never overflows:
    for a boundary the parser accepts, after any chunks (and hence after any
    prefix of a chunk) the buffer holds at most 73 bytes, the delimiter matched so
    far, so the next byte still fits its 74 bytes. *)
Theorem multipart_lookbehind_bounded {U : Type} (cbs : multipart_callbacks_t U) (b : bytes)
    (p : multipart_parser_t) (u : U) (chunks : list bytes) :
  multipart_parser_create (Some b) = Some p ->
  exists ok p' u', feed cbs p u chunks = Some (ok, p', u') /\ lookbehind_ok p' /\
    (length (lookbehind p') < 74)%nat.
Proof.
  intros Hc. assert (parser_ok p) as Hok.
  { unfold multipart_parser_create, multipart_parser_init in Hc.
    destruct (_ || _) eqn:Eb in Hc; [done|]. injection Hc as <-.
    apply orb_false_iff in Eb as [H1 H2]. apply Nat.eqb_neq in H1. apply Nat.ltb_ge in H2.
    split; [cbn [boundary]; lia | done]. }
  clear Hc. revert p u Hok. induction chunks as [|d rest IH]; intros p u Hok; cbn [feed].
  - exists true, p, u. split_and!; [done | apply Hok | by apply parser_ok_room].
  - destruct (multipart_parser_execute cbs p u d) as [[[r q] v]|] eqn:E; [|by rewrite execute_run in E].
    pose proof (execute_ok cbs p u d r q v Hok E) as Hq. simpl.
    case_if; [|by apply IH]. exists false, q, v. split_and!; [done | apply Hq | by apply parser_ok_room].
Qed.

(** C26: The result does not depend on how the body is cut: for callbacks that
    accept data in pieces, if the chunks are accepted then one call with their
    concatenation is accepted too and leaves the same parser and the same user
    data. *)
Theorem multipart_chunking {U : Type} (cbs : multipart_callbacks_t U) (b : bytes)
    (p p' : multipart_parser_t) (u u' : U) (chunks : list bytes) :
  streaming cbs -> multipart_parser_create (Some b) = Some p ->
  feed cbs p u chunks = Some (true, p', u') ->
  exists r, multipart_parser_execute cbs p u (concat chunks) = Some (r, p', u') /\ 0 <= r.
Proof.
  intros Hs Hc. apply feed_concat; [done|].
  unfold multipart_parser_create, multipart_parser_init in Hc.
  destruct (_ || _) in Hc; [done|]. by injection Hc as <-.
Qed.

(** C25: Round trip: a form rendered with a boundary that does not occur in its
    bodies is parsed back completely, in whatever chunks it arrives: each part's
    begin, headers, body and end are reported once and in order, then the end of
    the body, and nothing of the delimiters or of the epilogue leaks into the
    data. *)
Theorem multipart_roundtrip {U : Type} (cbs : multipart_callbacks_t U) (b epilogue : bytes)
    (ps : list part) (u : U) (chunks : list bytes) :
  streaming cbs -> never_fails cbs ->
  (1 <= length b <= MULTIPART_MAX_BOUNDARY_LEN)%nat ->
  Forall (fun c => c <> CR /\ c <> LF /\ c <> NUL) b ->
  Forall (part_ok b) ps -> concat chunks = render_form b ps epilogue ->
  exists p p', multipart_parser_create (Some b) = Some p /\
    feed cbs p u chunks = Some (true, p', apply_form cbs u ps) /\
    multipart_parser_is_complete p' = true.
Proof.
  intros Hs Hn Hb Hp Hps Hc. eexists.
  destruct (form_chunks cbs Hs Hn b Hb Hp u ps epilogue chunks Hps Hc) as (p' & Hf & Hd).
  exists p'. split_and!; [by apply create_mk | exact Hf | done].
Qed.

(** *** Witnesses: callbacks that append to a transcript *)

Definition demo_cbs : multipart_callbacks_t bytes :=
  {| on_part_begin := Some (fun u => (true, u ++ lit "<"));
     on_header_field := Some (fun u l => (true, u ++ l));
     on_header_value := Some (fun u l => (true, u ++ l));
     on_headers_complete := Some (fun u => (true, u ++ lit "|"));
     on_part_data := Some (fun u l => (true, u ++ l));
     on_part_end := Some (fun u => (true, u ++ lit ">"));
     on_body_end := Some (fun u => (true, u ++ lit ".")) |}.

Lemma demo_streaming : streaming demo_cbs.
Proof.
  split_and!; intros f u a b u' [= <-] _ _ [= <-]; by rewrite app_assoc.
Qed.

Lemma demo_never_fails : never_fails demo_cbs.
Proof. unfold never_fails, demo_cbs. repeat split; intros; simplify_eq/=; done. Qed.

Definition demo_form : list part :=
  [ {| headers := [(lit "A", lit "1")]; body := lit "x" ++ crlf ++ lit "--B" |};
    {| headers := []; body := [] |} ].

(** Searching for the delimiter. *)
Definition contains (pat l : bytes) : bool :=
  existsb (fun k => starts_with pat (drop k l)) (seq 0 (S (length l))).

Lemma no_delimiter_check b l : contains (LF :: [DASH; DASH] ++ b) l = false -> no_delimiter b l.
Proof.
  intros H x y E. apply not_true_iff_false in H. apply H. apply existsb_exists. exists (length x).
  split; [apply in_seq; rewrite E, length_app; lia|].
  rewrite E, drop_app_length. apply starts_with_spec. exists y. cbn [app]. done.
Qed.

Lemma demo_form_ok : Forall (part_ok (lit "BB")) demo_form.
Proof.
  repeat constructor; try (apply no_delimiter_check; reflexivity); vm_compute; congruence.
Qed.

Definition demo_chunks : list bytes :=
  let d := render_form (lit "BB") demo_form (lit "!") in [take 3 d; take 18 (drop 3 d); drop 21 d].

Lemma multipart_roundtrip_witness :
  exists p p', multipart_parser_create (Some (lit "BB")) = Some p /\
    feed demo_cbs p [] demo_chunks = Some (true, p', apply_form demo_cbs [] demo_form) /\
    multipart_parser_is_complete p' = true.
Proof.
  apply (multipart_roundtrip demo_cbs (lit "BB") (lit "!") demo_form [] demo_chunks).
  - apply demo_streaming.
  - apply demo_never_fails.
  - vm_compute. lia.
  - repeat constructor; vm_compute; congruence.
  - apply demo_form_ok.
  - vm_compute. reflexivity.
Defined.

(** What the callbacks saw. *)
Example demo_transcript : apply_form demo_cbs [] demo_form = lit "<A1|x" ++ crlf ++ lit "--B><|>.".
Proof. vm_compute. reflexivity. Qed.

Definition demo_parser : multipart_parser_t := mk (lit "BB") MP_STATE_START 0 [] false.

Lemma multipart_lookbehind_bounded_witness :
  exists ok p' u', feed demo_cbs demo_parser [] [lit "--BB"; crlf; crlf ++ lit "x"; crlf ++ lit "--B"] = Some (ok, p', u') /\
    lookbehind_ok p' /\ (length (lookbehind p') < 74)%nat.
Proof. apply (multipart_lookbehind_bounded demo_cbs (lit "BB")). vm_compute. reflexivity. Defined.

Lemma multipart_chunking_witness :
  exists r, multipart_parser_execute demo_cbs demo_parser [] (concat [lit "--BB"; crlf; lit "A:1"]) =
      Some (r, mk (lit "BB") MP_STATE_HEADER_VALUE 2 [] true, lit "<A1") /\ 0 <= r.
Proof.
  apply (multipart_chunking demo_cbs (lit "BB") demo_parser).
  - apply demo_streaming.
  - vm_compute. reflexivity.
  - vm_compute. reflexivity.
Defined.
End MultipartProofs.
