(* ===== verification/HttpRange.v ===== *)
(** * Range and If-None-Match

    Models src/src/http_range.c (the single-range parser of RFC 9110 section 14)
    and src/src/http_etag.c (weak entity tags and their comparison). *)

From S2P Require Import Prelude.

Module HttpRange.

(** The result; [HTTP_RANGE_OK] carries the two out parameters. *)
Inductive http_range_result_t :=
  | HTTP_RANGE_ABSENT
  | HTTP_RANGE_OK (out_first out_last : Z)
  | HTTP_RANGE_NOT_SATISFIABLE
  | HTTP_RANGE_UNSUPPORTED.

(** A digit loop: the value so far and whether a digit was seen.  [None] is the
    early return of the overflow guard. *)
Fixpoint digits_loop (p : bytes) (v : Z) (seen : bool) : option (Z * bool * bytes) :=
  match p with
  | c :: rest =>
      if is_digit c then
        if UINT64_MAX / 10 <? v then None
        else digits_loop rest (u64 (v * 10 + (c - 48))) true
      else Some (v, seen, p)
  | [] => Some (v, seen, [])
  end.

(** The part of the function after the first position (or the leading dash) has
    been read. *)
Definition range_tail (suffix_form : bool) (first : Z) (p : bytes) (content_length : Z) : http_range_result_t :=
  match digits_loop p 0 false with
  | None => HTTP_RANGE_UNSUPPORTED
  | Some (last, last_set, q) =>
      match drop_while is_ows q with
      | _ :: _ => HTTP_RANGE_UNSUPPORTED
      | [] =>
          if content_length =? 0 then HTTP_RANGE_NOT_SATISFIABLE
          else if suffix_form then
            if negb last_set || (last =? 0) then HTTP_RANGE_UNSUPPORTED
            else if content_length <=? last then HTTP_RANGE_OK 0 (content_length - 1)
            else HTTP_RANGE_OK (content_length - last) (content_length - 1)
          else if content_length <=? first then HTTP_RANGE_NOT_SATISFIABLE
          else if negb last_set then HTTP_RANGE_OK first (content_length - 1)
          else if last <? first then HTTP_RANGE_UNSUPPORTED
          else HTTP_RANGE_OK first (if content_length <=? last then content_length - 1 else last)
      end
  end.

(** The function on a header that is there. *)
Definition range_header (h : bytes) (content_length : Z) : http_range_result_t :=
  if (length h <? 7)%nat then HTTP_RANGE_UNSUPPORTED
  else if negb (starts_with (lit "bytes=") h) then HTTP_RANGE_UNSUPPORTED
  else
    let p := drop_while is_ows (drop 6 h) in
    if mem_byte COMMA p then HTTP_RANGE_UNSUPPORTED
    else
      match p with
      | [] => HTTP_RANGE_UNSUPPORTED
      | c :: rest =>
          if c =? DASH then range_tail true 0 rest content_length
          else
            match digits_loop p 0 false with
            | None => HTTP_RANGE_UNSUPPORTED
            | Some (first, first_set, q) =>
                match q with
                | d :: rest' =>
                    if negb first_set || negb (d =? DASH) then HTTP_RANGE_UNSUPPORTED
                    else range_tail false first rest' content_length
                | [] => HTTP_RANGE_UNSUPPORTED
                end
            end
      end.

Definition http_range_parse (header : option bytes) (content_length : Z) : http_range_result_t :=
  match header with
  | None => HTTP_RANGE_ABSENT
  | Some h => if (length h =? 0)%nat then HTTP_RANGE_ABSENT else range_header h content_length
  end.

(** ** Entity tags *)

(** The fields of [zend_stat_t] that enter the tag. *)
Record zend_stat_t := { st_mtim_sec : Z; st_mtim_nsec : Z; st_size : Z; st_ino : Z }.

Definition mtime_ns_from_stat (st : zend_stat_t) : Z :=
  u64 (u64 (u64 (st_mtim_sec st) * 1000000000) + u64 (st_mtim_nsec st)).

Definition hex_lower (v : Z) : Z := if v <? 10 then 48 + v else 97 + (v - 10).

(** The loop writes from the last digit to the first. *)
Fixpoint put_hex (n : nat) (v : Z) (out : bytes) : bytes :=
  match n with
  | O => out
  | S m => put_hex m (Z.shiftr v 4) (hex_lower (Z.land v 15) :: out)
  end.

Definition put_u64_16hex (v : Z) : bytes := put_hex 16 v [].

Definition etag_mix (st : zend_stat_t) : Z :=
  Z.lxor (Z.lxor (mtime_ns_from_stat st) (u64 (Z.shiftl (u64 (st_size st)) 17))) (u64 (st_ino st)).

Definition http_etag_format_strong (st : zend_stat_t) : bytes :=
  [ch "W"; SLASH; DQUOTE] ++ put_u64_16hex (etag_mix st) ++ [DQUOTE].

Definition trim_ws (s : bytes) : bytes := trim is_ows s.

Definition strip_weak_prefix (s : bytes) : bytes :=
  if starts_with (lit "W/") s then drop 2 s else s.

(** The entry loop over the header; [fuel] bounds the number of entries. *)
Fixpoint inm_loop (fuel : nat) (rest etag : bytes) : bool :=
  match rest, fuel with
  | [], _ => false
  | _, O => false
  | _, S f =>
      let entry := trim_ws (take_while (isnt COMMA) rest) in
      if eqb_bytes entry [STAR] then true
      else if eqb_bytes (strip_weak_prefix entry) etag then true
      else
        match drop_while (isnt COMMA) rest with
        | [] => false
        | _ :: rest' => inm_loop f rest' etag
        end
  end.

Definition http_etag_match_inm (header etag : bytes) : bool :=
  inm_loop (length header) header (strip_weak_prefix etag).

(** ** Decimal values *)

Definition dec_value (ds : bytes) : Z := fold_left (fun v c => v * 10 + (c - 48)) ds 0.

Lemma dec_value_snoc ds c : dec_value (ds ++ [c]) = dec_value ds * 10 + (c - 48).
Proof. unfold dec_value. by rewrite fold_left_app. Qed.

Lemma is_digit_range c : is_digit c = true <-> 48 <= c <= 57.
Proof. unfold is_digit. rewrite andb_true_iff, !Z.leb_le. lia. Qed.

Lemma fold_digits_mono ds v :
  0 <= v -> Forall (fun c => is_digit c = true) ds -> v <= fold_left (fun v c => v * 10 + (c - 48)) ds v.
Proof.
  intros Hv Hd. revert v Hv. induction Hd as [|c ds Hc _ IH]; intros v Hv; cbn [fold_left]; [lia|].
  apply is_digit_range in Hc. transitivity (v * 10 + (c - 48)); [lia|]. apply IH. lia.
Qed.

(** The loop computes the value as long as it fits. *)
Lemma digits_loop_value ds v seen rest :
  Forall (fun c => is_digit c = true) ds -> 0 <= v ->
  fold_left (fun v c => v * 10 + (c - 48)) ds v < 2 ^ 64 ->
  stops is_digit rest ->
  digits_loop (ds ++ rest) v seen =
    Some (fold_left (fun v c => v * 10 + (c - 48)) ds v, seen || negb (length ds =? 0)%nat, rest).
Proof.
  intros Hd. revert v seen. induction Hd as [|c ds Hc Hd IH]; intros v seen Hv Hmax Hstop.
  - cbn [app fold_left length]. rewrite Nat.eqb_refl, orb_false_r.
    destruct rest as [|c rest]; cbn [digits_loop]; [done|]. by rewrite Hstop.
  - cbn [app digits_loop fold_left length] in *. rewrite Hc. apply is_digit_range in Hc.
    pose proof (fold_digits_mono ds (v * 10 + (c - 48)) ltac:(lia) Hd) as Hm.
    assert (v * 10 + (c - 48) < 2 ^ 64) as Hlt by lia.
    rewrite (proj2 (Z.ltb_ge _ _)) by (unfold UINT64_MAX; dlia).
    assert (u64 (v * 10 + (c - 48)) = v * 10 + (c - 48)) as -> by (unfold u64; apply Z.mod_small; lia).
    rewrite IH by (done || lia). cbn [Nat.eqb negb]. by rewrite orb_true_l, orb_true_r.
Qed.

Lemma digits_loop_bound p v seen v' seen' q :
  0 <= v < 2 ^ 64 -> digits_loop p v seen = Some (v', seen', q) -> 0 <= v' < 2 ^ 64.
Proof.
  revert v seen. induction p as [|c p IH]; intros v seen Hv; cbn [digits_loop]; [by intros [= <- <- <-]|].
  case_if; [|by intros [= <- <- <-]]. case_if; [done|]. apply IH. unfold u64. apply Z.mod_pos_bound. lia.
Qed.

(** ** Theorems *)

(** A satisfiable range stays inside the resource: whatever the header,
    including one whose digits overflow, when the parser answers 206 the interval
    is non-empty and inside the content. *)
Theorem http_range_in_bounds (header : option bytes) (content_length first last : Z) :
  0 <= content_length < 2 ^ 64 ->
  http_range_parse header content_length = HTTP_RANGE_OK first last ->
  0 <= first <= last /\ last < content_length.
Proof.
  intros HL. assert (forall sfx f p, 0 <= f < 2 ^ 64 ->
    range_tail sfx f p content_length = HTTP_RANGE_OK first last -> 0 <= first <= last /\ last < content_length) as Htail.
  { intros sfx f p Hf. unfold range_tail.
    destruct (digits_loop p 0 false) as [[[l ls] q]|] eqn:El; [|done].
    assert (0 <= l < 2 ^ 64) as Hl by (eapply digits_loop_bound; [|exact El]; lia).
    destruct (drop_while is_ows q); [|done]. repeat case_if; try done; intros [= <- <-]; b2p; lia. }
  unfold http_range_parse, range_header. destruct header as [h|]; [|done].
  destruct (length h =? 0)%nat; [done|]. destruct (length h <? 7)%nat; [done|].
  destruct (negb _); [done|]. cbv zeta. destruct (mem_byte _ _); [done|].
  destruct (drop_while is_ows (drop 6 h)) as [|d p]; [done|].
  destruct (d =? DASH); [apply Htail; lia|].
  destruct (digits_loop (d :: p) 0 false) as [[[f fs] q]|] eqn:Ef; [|done].
  destruct q as [|e q]; [done|]. case_if; [done|]. apply Htail.
  eapply digits_loop_bound; [|exact Ef]. lia.
Qed.

(** The reference reading of the three forms. *)
Definition resolve (a b : bytes) (L : Z) : http_range_result_t :=
  if L =? 0 then HTTP_RANGE_NOT_SATISFIABLE
  else match a with
  | [] => if dec_value b =? 0 then HTTP_RANGE_UNSUPPORTED
          else HTTP_RANGE_OK (Z.max 0 (L - dec_value b)) (L - 1)
  | _ => if L <=? dec_value a then HTTP_RANGE_NOT_SATISFIABLE
         else match b with
              | [] => HTTP_RANGE_OK (dec_value a) (L - 1)
              | _ => if dec_value b <? dec_value a then HTTP_RANGE_UNSUPPORTED
                     else HTTP_RANGE_OK (dec_value a) (Z.min (dec_value b) (L - 1))
              end
  end.

Lemma digits_stop_dash rest : stops is_digit (DASH :: rest).
Proof. done. Qed.

Lemma ows_not_digit ws : Forall (fun c => is_ows c = true) ws -> stops is_digit ws.
Proof.
  intros [|c ws' Hc _]; [done|]. simpl. unfold is_ows, is_digit in *.
  apply orb_true_iff in Hc as [Hc|Hc]; b2p; by subst.
Qed.

Lemma mem_comma_none l : Forall (fun c => is_digit c = true \/ is_ows c = true \/ c = DASH) l -> mem_byte COMMA l = false.
Proof.
  intros H. apply mem_byte_false. eapply Forall_impl; [exact H|].
  intros c Hc. unfold isnt. apply negb_true_iff, Z.eqb_neq. intros ->. by destruct Hc as [Hc|[Hc|Hc]].
Qed.

Lemma range_tail_resolve a b ws L :
  Forall (fun c => is_digit c = true) b -> Forall (fun c => is_ows c = true) ws ->
  dec_value b < 2 ^ 64 -> (a = [] -> b <> []) -> 0 <= L ->
  range_tail (match a with [] => true | _ => false end) (dec_value a) (b ++ ws) L = resolve a b L.
Proof.
  intros Hb Hws Hmax Hne HL. unfold range_tail, resolve.
  rewrite (digits_loop_value b 0 false ws) by (done || lia || by apply ows_not_digit).
  change (fold_left (fun v c => v * 10 + (c - 48)) b 0) with (dec_value b).
  rewrite drop_while_id by done. destruct (L =? 0) eqn:EL; [done|].
  destruct a as [|x a].
  - destruct b as [|y b]; [by destruct Hne|]. cbn [length Nat.eqb negb orb].
    pose proof (fold_digits_mono (y :: b) 0 ltac:(lia) Hb) as H0. fold (dec_value (y :: b)) in H0.
    destruct (dec_value (y :: b) =? 0) eqn:Ez; [done|]. b2p.
    case_if; b2p; f_equal; lia.
  - destruct (L <=? dec_value (x :: a)) eqn:Ea; [done|].
    destruct b as [|y b]; [done|]. cbn [length Nat.eqb negb orb].
    case_if; [done|]. f_equal. b2p. case_if; b2p; lia.
Qed.

(** On every well-formed single range (from-to, from, or suffix; optional
    white space; numbers that fit 64 bits, in any number of digits) the parser
    answers what RFC 9110 prescribes: the clipped interval, 416 when the start is
    past the end, and "serve everything" for an inverted or empty one. *)
Theorem http_range_parse_spec (a b ws ws' : bytes) (L : Z) :
  Forall (fun c => is_digit c = true) a -> Forall (fun c => is_digit c = true) b ->
  Forall (fun c => is_ows c = true) ws -> Forall (fun c => is_ows c = true) ws' ->
  dec_value a < 2 ^ 64 -> dec_value b < 2 ^ 64 -> (a = [] -> b <> []) -> 0 <= L ->
  http_range_parse (Some (lit "bytes=" ++ ws ++ a ++ [DASH] ++ b ++ ws')) L = resolve a b L.
Proof.
  intros Ha Hb Hws Hws' Hma Hmb Hne HL.
  set (body := a ++ [DASH] ++ b ++ ws').
  assert (http_range_parse (Some (lit "bytes=" ++ ws ++ body)) L =
    match body with
    | [] => HTTP_RANGE_UNSUPPORTED
    | c :: rest =>
        if c =? DASH then range_tail true 0 rest L
        else match digits_loop body 0 false with
             | None => HTTP_RANGE_UNSUPPORTED
             | Some (first, first_set, d :: rest') =>
                 if negb first_set || negb (d =? DASH) then HTTP_RANGE_UNSUPPORTED
                 else range_tail false first rest' L
             | Some (_, _, []) => HTTP_RANGE_UNSUPPORTED
             end
    end) as ->.
  { assert (drop 6 (lit "bytes=" ++ ws ++ body) = ws ++ body) as Hd by done.
    assert (drop_while is_ows (ws ++ body) = body) as Hdw.
    { assert (stops is_ows body) as Hst.
      { unfold body. destruct Ha as [|c a Hc _]; [done|]. simpl. apply is_digit_range in Hc.
        unfold is_ows. rewrite orb_false_iff, !Z.eqb_neq. lia. }
      rewrite drop_while_stops by done. by rewrite drop_while_id. }
    assert (mem_byte COMMA body = false) as Hcomma.
    { apply mem_comma_none. unfold body. rewrite !Forall_app. split_and!.
      - eapply Forall_impl; [exact Ha|]. auto.
      - constructor; [by right; right | constructor].
      - eapply Forall_impl; [exact Hb|]. auto.
      - eapply Forall_impl; [exact Hws'|]. auto. }
    unfold http_range_parse, range_header. rewrite Hd, Hdw, Hcomma.
    assert ((length (lit "bytes=" ++ ws ++ body) <? 7)%nat = false) as ->.
    { apply Nat.ltb_ge. rewrite !length_app. unfold body. rewrite !length_app. simpl. lia. }
    assert ((length (lit "bytes=" ++ ws ++ body) =? 0)%nat = false) as -> by (apply Nat.eqb_neq; done).
    rewrite starts_with_app. cbn [negb]. destruct body; [done|]. case_if; [done|].
    destruct (digits_loop _ 0 false) as [[[? ?] [|? ?]]|]; done. }
  destruct a as [|c a].
  - unfold body. cbn [app]. change (DASH =? DASH) with true. cbn iota.
    apply (range_tail_resolve [] b ws' L); done.
  - unfold body at 1. cbn [app]. pose proof (proj1 (Forall_cons_iff _ _ _) Ha) as [Hc _].
    apply is_digit_range in Hc. rewrite (proj2 (Z.eqb_neq c DASH)) by lia.
    unfold body. rewrite (digits_loop_value (c :: a) 0 false) by (done || lia).
    cbn [app length Nat.eqb negb orb]. rewrite Z.eqb_refl. cbn [negb].
    apply (range_tail_resolve (c :: a) b ws' L); done.
Qed.

(** The overflow guard has a hole at its edge: with twenty digits the value
    wraps, and a range that starts far beyond any resource is answered 206 from
    byte 0 instead of 416. *)
Theorem http_range_overflow (L : Z) :
  0 < L ->
  http_range_parse (Some (lit "bytes=18446744073709551616-")) L = HTTP_RANGE_OK 0 (L - 1) /\
  dec_value (lit "18446744073709551616") = 2 ^ 64.
Proof.
  intros HL. split; [|reflexivity].
  assert (http_range_parse (Some (lit "bytes=18446744073709551616-")) L = range_tail false 0 [] L) as -> by reflexivity.
  unfold range_tail. cbn [digits_loop drop_while negb].
  rewrite (proj2 (Z.eqb_neq _ _)), (proj2 (Z.leb_gt _ _)) by lia. done.
Qed.

(** *** Entity tags *)

(** The value of a lower-case hexadecimal string. *)
Definition unhex (c : Z) : Z := if is_digit c then c - 48 else c - 87.
Definition hex_value (s : bytes) : Z := fold_left (fun v c => v * 16 + unhex c) s 0.

Lemma unhex_hex v : 0 <= v < 16 -> unhex (hex_lower v) = v.
Proof.
  intros Hv. unfold hex_lower, unhex, is_digit. destruct (Z.ltb_spec v 10).
  - rewrite (proj2 (Z.leb_le _ _)), (proj2 (Z.leb_le _ _)) by lia. simpl. lia.
  - rewrite (proj2 (Z.leb_le _ _)), (proj2 (Z.leb_gt (97 + (v - 10)) 57)) by lia. simpl. lia.
Qed.

Lemma put_hex_length n v out : length (put_hex n v out) = (n + length out)%nat.
Proof. revert v out. induction n as [|n IH]; intros v out; simpl; [done|]. rewrite IH. simpl. lia. Qed.

Lemma put_hex_app n v out : put_hex n v out = put_hex n v [] ++ out.
Proof.
  revert v out. induction n as [|n IH]; intros v out; cbn [put_hex]; [done|].
  rewrite IH, (IH _ [_]), <- app_assoc. done.
Qed.

Lemma put_hex_value n v :
  0 <= v < 16 ^ Z.of_nat n -> hex_value (put_hex n v []) = v.
Proof.
  revert v. induction n as [|n IH]; intros v Hv.
  - change (16 ^ Z.of_nat 0) with 1 in Hv. change (hex_value (put_hex 0 v [])) with 0. lia.
  - cbn [put_hex]. rewrite put_hex_app. unfold hex_value. rewrite fold_left_app. cbn [fold_left].
    fold (hex_value (put_hex n (Z.shiftr v 4) [])).
    change 15 with (Z.ones 4). rewrite Z.land_ones, Z.shiftr_div_pow2 by lia. change (2 ^ 4) with 16.
    rewrite Nat2Z.inj_succ, Z.pow_succ_r in Hv by lia.
    assert (0 <= v mod 16 < 16) by (apply Z.mod_pos_bound; lia).
    assert (0 <= v / 16 < 16 ^ Z.of_nat n) by (split; [apply Z.div_pos | apply Z.div_lt_upper_bound]; lia).
    rewrite IH, unhex_hex by done. pose proof (Z.div_mod v 16). lia.
Qed.

Lemma u64_range z : 0 <= u64 z < 2 ^ 64.
Proof. unfold u64. apply Z.mod_pos_bound. lia. Qed.

Lemma lxor_range a b : 0 <= a < 2 ^ 64 -> 0 <= b < 2 ^ 64 -> 0 <= Z.lxor a b < 2 ^ 64.
Proof.
  intros Ha Hb. split; [apply Z.lxor_nonneg; lia|].
  destruct (Z.eq_dec (Z.lxor a b) 0) as [->|Hne]; [lia|].
  assert (0 <= Z.lxor a b) by (apply Z.lxor_nonneg; lia).
  apply Z.log2_lt_pow2; [lia|]. eapply Z.le_lt_trans; [apply Z.log2_lxor; lia|].
  assert (forall x, 0 <= x < 2 ^ 64 -> Z.log2 x < 64) as Hl.
  { intros x Hx. destruct (Z.eq_dec x 0) as [->|]; [simpl; lia|]. apply Z.log2_lt_pow2; lia. }
  apply Z.max_lub_lt; by apply Hl.
Qed.

Lemma etag_mix_range st : 0 <= etag_mix st < 2 ^ 64.
Proof.
  unfold etag_mix, mtime_ns_from_stat. repeat apply lxor_range; apply u64_range.
Qed.

(** The tag of a file is 20 bytes, [W/] and 16 hexadecimal digits in quotes,
    and carries the 64-bit mix of mtime, size and inode without loss: two files
    have the same tag exactly when their mixes agree. *)
Theorem http_etag_format_faithful (st st' : zend_stat_t) :
  length (http_etag_format_strong st) = 20%nat /\
  (http_etag_format_strong st = http_etag_format_strong st' <-> etag_mix st = etag_mix st').
Proof.
  unfold http_etag_format_strong, put_u64_16hex. split; [rewrite !length_app, put_hex_length; done|].
  split; [|by intros ->]. intros E. apply app_inv_head, app_inv_tail in E.
  apply (f_equal hex_value) in E.
  by rewrite !(put_hex_value 16) in E by apply etag_mix_range.
Qed.

(** An entry of the header weak-matches the tag. *)
Definition entry_matches (etag entry : bytes) : bool :=
  eqb_bytes (trim_ws entry) [STAR] ||
  eqb_bytes (strip_weak_prefix (trim_ws entry)) (strip_weak_prefix etag).

Lemma inm_loop_spec fuel rest etag :
  strip_weak_prefix etag <> [] -> (length rest <= fuel)%nat ->
  inm_loop fuel rest (strip_weak_prefix etag) = existsb (entry_matches etag) (split_on COMMA rest).
Proof.
  intros Hne. assert (entry_matches etag [] = false) as Hnil.
  { unfold entry_matches. change (trim_ws []) with (@nil Z). change (strip_weak_prefix []) with (@nil Z).
    destruct (strip_weak_prefix etag); [done|]. done. }
  revert rest. induction fuel as [|fuel IH]; intros rest Hf.
  { destruct rest; [|simpl in Hf; lia]. simpl. by rewrite Hnil. }
  destruct rest as [|c rest]; [simpl; by rewrite Hnil|]. cbn [inm_loop].
  rewrite (split_on_unfold COMMA (c :: rest)). cbn [existsb]. unfold entry_matches at 1.
  destruct (eqb_bytes (trim_ws _) [STAR]); [done|]. cbn [orb].
  destruct (eqb_bytes (strip_weak_prefix _) _); [done|]. cbn [orb].
  pose proof (drop_while_length (isnt COMMA) (c :: rest)) as Hl.
  destruct (drop_while (isnt COMMA) (c :: rest)) as [|d rest'] eqn:Ed; [done|].
  rewrite IH by (simpl in *; lia). done.
Qed.

(** If-None-Match: the scan over the header answers whether one entry of its
    comma-separated list is [*] or weakly equals the tag (RFC 9110 section
    13.1.2), and a client that echoes the tag of the file always gets its 304. *)
Theorem http_etag_match_inm_spec (header etag : bytes) (st : zend_stat_t) :
  strip_weak_prefix etag <> [] ->
  http_etag_match_inm header etag = existsb (entry_matches etag) (split_on COMMA header) /\
  http_etag_match_inm (http_etag_format_strong st) (http_etag_format_strong st) = true.
Proof.
  intros Hne. split; [by apply inm_loop_spec|].
  set (e := http_etag_format_strong st).
  assert (strip_weak_prefix e <> []) as He by done.
  unfold http_etag_match_inm. rewrite inm_loop_spec by done.
  assert (Forall (fun c => isnt COMMA c = true /\ is_ows c = false) (put_u64_16hex (etag_mix st))) as Hhex.
  { unfold put_u64_16hex. generalize 16%nat, (etag_mix st).
    assert (forall n v out, Forall (fun c => isnt COMMA c = true /\ is_ows c = false) out ->
      Forall (fun c => isnt COMMA c = true /\ is_ows c = false) (put_hex n v out)) as H; [|by intros; apply H].
    induction n as [|n IH]; intros v out Hout; cbn [put_hex]; [done|]. apply IH. constructor; [|done].
    set (d := Z.land v 15). assert (0 <= d < 16) as Hd.
    { unfold d. change 15 with (Z.ones 4). rewrite Z.land_ones by lia. apply Z.mod_pos_bound. lia. }
    unfold hex_lower, isnt, is_ows. rewrite negb_true_iff, orb_false_iff, !Z.eqb_neq. case_if; b2p; lia. }
  assert (mem_byte COMMA e = false) as Hc.
  { apply mem_byte_false. unfold e, http_etag_format_strong. rewrite !Forall_app. split_and!.
    - repeat constructor.
    - eapply Forall_impl; [exact Hhex|]. by intros c [? _].
    - repeat constructor. }
  rewrite split_on_none by done. cbn [existsb]. rewrite orb_false_r. unfold entry_matches.
  assert (trim_ws e = e) as ->.
  { unfold trim_ws, trim, e, http_etag_format_strong. cbn [app drop_while].
    change (is_ows (ch "W")) with false. cbn iota.
    rewrite !app_comm_cons. by apply trim_end_stop. }
  by rewrite eqb_bytes_refl, orb_true_r.
Qed.

(** ** Witnesses *)

Lemma http_range_in_bounds_witness : 0 <= 5 <= 9 /\ 9 < 10.
Proof.
  apply (http_range_in_bounds (Some (lit "bytes=5-100")) 10); [lia | vm_compute; reflexivity].
Defined.

Lemma http_range_parse_spec_witness :
  http_range_parse (Some (lit "bytes=" ++ [SP] ++ lit "0500" ++ [DASH] ++ lit "999" ++ [])) 1000 =
  resolve (lit "0500") (lit "999") 1000.
Proof.
  apply http_range_parse_spec; try (repeat constructor; fail); try (vm_compute; congruence).
Defined.

Lemma http_range_overflow_witness :
  http_range_parse (Some (lit "bytes=18446744073709551616-")) 100 = HTTP_RANGE_OK 0 99 /\
  dec_value (lit "18446744073709551616") = 2 ^ 64.
Proof. apply (http_range_overflow 100). lia. Defined.

Definition demo_stat : zend_stat_t :=
  {| st_mtim_sec := 1700000000; st_mtim_nsec := 5; st_size := 1234; st_ino := 42 |}.

Lemma http_etag_match_inm_spec_witness :
  http_etag_match_inm (lit "a, W/b") (lit "b") =
    existsb (entry_matches (lit "b")) (split_on COMMA (lit "a, W/b")) /\
  http_etag_match_inm (http_etag_format_strong demo_stat) (http_etag_format_strong demo_stat) = true.
Proof. apply http_etag_match_inm_spec. vm_compute. discriminate. Defined.

End HttpRange.
