(* ===== verification/AcceptEncoding.v ===== *)
(** * Content-coding negotiation

    Models src/src/compression/http_compression_negotiate.c and the codec table
    of src/src/compression/http_compression.c: parsing Accept-Encoding, choosing
    a codec and normalising a media type. *)

From S2P Require Import Prelude.

Module AcceptEncoding.

Inductive q_t := Q_UNSEEN | Q_OK | Q_REJECT.

Inductive http_codec_id_t :=
  | HTTP_CODEC_IDENTITY | HTTP_CODEC_GZIP | HTTP_CODEC_BROTLI | HTTP_CODEC_ZSTD | HTTP_CODEC__COUNT.

#[export] Instance codec_eq_dec : EqDecision http_codec_id_t.
Proof. solve_decision. Defined.

Record http_accept_encoding_t := {
  gzip_acceptable : bool;
  brotli_acceptable : bool;
  zstd_acceptable : bool;
  identity_acceptable : bool;
}.

Definition ascii_lower (c : Z) : Z := if (65 <=? c) && (c <=? 90) then c - 65 + 97 else c.

(** [lit] is a literal in lower case. *)
Definition ascii_eq_ci (s name : bytes) : bool := eqb_bytes (map ascii_lower s) name.

Definition q_is_zero (s : bytes) : bool :=
  match trim is_ows s with
  | [] => false
  | c :: t =>
      if negb (c =? 48) then false
      else match t with
           | [] => true
           | d :: rest => if negb (d =? DOT) then false else forallb (Z.eqb 48) rest
           end
  end.

Definition http_accept_encoding_init_default : http_accept_encoding_t :=
  {| gzip_acceptable := false; brotli_acceptable := false; zstd_acceptable := false;
     identity_acceptable := true |}.

(** The two cursor loops have one shape: skip blanks and separators, run to the
    next separator, trim trailing blanks, treat the element.  The fuel bounds the
    iterations; each consumes a byte. *)
Section sep_loop.
Context {A : Type}.
Variable sep : Z.
Variable treat : A -> bytes -> A.

Definition blank_or_sep (c : Z) : bool := is_ows c || (c =? sep).

Fixpoint sep_loop (fuel : nat) (acc : A) (v : bytes) : A :=
  match fuel, v with
  | O, _ => acc
  | _, [] => acc
  | S f, _ =>
      match drop_while blank_or_sep v with
      | [] => acc
      | s => sep_loop f (treat acc (trim_end is_ows (take_while (isnt sep) s))) (drop_while (isnt sep) s)
      end
  end.
End sep_loop.

(** [found_q && qzero], updated by one parameter. *)
Definition param_step (acc : bool * bool) (param : bytes) : bool * bool :=
  match param with
  | c :: d :: rest =>
      if (ascii_lower c =? ch "q") && (d =? EQUALS) then (true, q_is_zero rest) else acc
  | _ => acc
  end.

(** The outcome of one coding: its name ends at [;] or a blank. *)
Definition name_stop (c : Z) : bool := negb ((c =? SEMI) || is_ows c).

Definition token_name (tok : bytes) : bytes := take_while name_stop tok.

Definition token_outcome (tok : bytes) : q_t :=
  let params := drop_while name_stop tok in
  let '(found_q, qzero) := sep_loop SEMI param_step (length params) (false, false) params in
  if (found_q : bool) && qzero then Q_REJECT else Q_OK.

Record ae_state := { q_gzip : q_t; q_brotli : q_t; q_zstd : q_t; q_identity : q_t; q_star : q_t }.

Definition token_step (st : ae_state) (tok : bytes) : ae_state :=
  let name := token_name tok in
  let o := token_outcome tok in
  if ascii_eq_ci name (lit "gzip") || ascii_eq_ci name (lit "x-gzip") then
    {| q_gzip := o; q_brotli := q_brotli st; q_zstd := q_zstd st; q_identity := q_identity st; q_star := q_star st |}
  else if ascii_eq_ci name (lit "br") then
    {| q_gzip := q_gzip st; q_brotli := o; q_zstd := q_zstd st; q_identity := q_identity st; q_star := q_star st |}
  else if ascii_eq_ci name (lit "zstd") then
    {| q_gzip := q_gzip st; q_brotli := q_brotli st; q_zstd := o; q_identity := q_identity st; q_star := q_star st |}
  else if ascii_eq_ci name (lit "identity") then
    {| q_gzip := q_gzip st; q_brotli := q_brotli st; q_zstd := q_zstd st; q_identity := o; q_star := q_star st |}
  else if eqb_bytes name [STAR] then
    {| q_gzip := q_gzip st; q_brotli := q_brotli st; q_zstd := q_zstd st; q_identity := q_identity st; q_star := o |}
  else st.

Definition is_ok (q : q_t) : bool := match q with Q_OK => true | _ => false end.
Definition is_unseen (q : q_t) : bool := match q with Q_UNSEEN => true | _ => false end.
Definition is_reject (q : q_t) : bool := match q with Q_REJECT => true | _ => false end.

Definition all_unseen : ae_state :=
  {| q_gzip := Q_UNSEEN; q_brotli := Q_UNSEEN; q_zstd := Q_UNSEEN; q_identity := Q_UNSEEN; q_star := Q_UNSEEN |}.

Definition http_accept_encoding_parse (hdr : bytes) : http_accept_encoding_t :=
  let st := sep_loop COMMA token_step (length hdr) all_unseen hdr in
  {| gzip_acceptable := is_ok (q_gzip st) || (is_unseen (q_gzip st) && is_ok (q_star st));
     brotli_acceptable := is_ok (q_brotli st) || (is_unseen (q_brotli st) && is_ok (q_star st));
     zstd_acceptable := is_ok (q_zstd st) || (is_unseen (q_zstd st) && is_ok (q_star st));
     identity_acceptable := is_ok (q_identity st) || (is_unseen (q_identity st) && negb (is_reject (q_star st))) |}.

(** The build: which codecs are linked in. *)
Record build := { HAVE_HTTP_COMPRESSION : bool; HAVE_HTTP_BROTLI : bool; HAVE_HTTP_ZSTD : bool }.

(** Whether [http_compression_lookup] finds a vtable. *)
Definition http_compression_lookup (b : build) (id : http_codec_id_t) : bool :=
  match id with
  | HTTP_CODEC_GZIP => true
  | HTTP_CODEC_BROTLI => HAVE_HTTP_BROTLI b
  | HTTP_CODEC_ZSTD => HAVE_HTTP_ZSTD b
  | _ => false
  end.

Definition http_compression_codec_token (id : http_codec_id_t) : option bytes :=
  match id with
  | HTTP_CODEC_IDENTITY => Some (lit "identity")
  | HTTP_CODEC_GZIP => Some (lit "gzip")
  | HTTP_CODEC_BROTLI => Some (lit "br")
  | HTTP_CODEC_ZSTD => Some (lit "zstd")
  | HTTP_CODEC__COUNT => None
  end.

Definition http_accept_encoding_select (b : build) (ae : http_accept_encoding_t) : http_codec_id_t :=
  if HAVE_HTTP_COMPRESSION b && zstd_acceptable ae && http_compression_lookup b HTTP_CODEC_ZSTD
  then HTTP_CODEC_ZSTD
  else if HAVE_HTTP_COMPRESSION b && gzip_acceptable ae && http_compression_lookup b HTTP_CODEC_GZIP
  then HTTP_CODEC_GZIP
  else if HAVE_HTTP_COMPRESSION b && brotli_acceptable ae && http_compression_lookup b HTTP_CODEC_BROTLI
  then HTTP_CODEC_BROTLI
  else if identity_acceptable ae then HTTP_CODEC_IDENTITY
  else HTTP_CODEC__COUNT.

(** The bytes written to [dst]; their number is returned, 0 when the result is
    empty or does not fit. *)
Definition http_compression_mime_normalize (ct : bytes) (dst_cap : nat) : bytes :=
  let t := trim_end is_ows (take_while (isnt SEMI) (drop_while is_ows ct)) in
  if (length t =? 0)%nat || (dst_cap <? length t)%nat then [] else map ascii_lower t.

(** ** The loops over separated elements *)

(** The non-empty elements of a separated list, trimmed. *)
Definition elements (sep : Z) (v : bytes) : list bytes :=
  List.filter (fun e => negb (length e =? 0)%nat) (map (trim is_ows) (split_on sep v)).

Section sep_loop_spec.
Context {A : Type}.
Variable sep : Z.
Variable treat : A -> bytes -> A.
Hypothesis sep_not_blank : is_ows sep = false.

Lemma elements_nil : elements sep [] = [].
Proof. done. Qed.

Lemma elements_skip v : elements sep v = elements sep (drop_while (blank_or_sep sep) v).
Proof.
  unfold elements. induction v as [|c v IH]; [done|]. cbn [drop_while]. unfold blank_or_sep at 1.
  destruct (is_ows c) eqn:Eo; cbn [orb].
  - rewrite <- IH. cbn [split_on].
    destruct (c =? sep) eqn:Ec; [b2p; subst; congruence|].
    destruct (split_on sep v) as [|x xs] eqn:Es; [by apply split_on_nonempty in Es|].
    cbn [map]. assert (trim is_ows (c :: x) = trim is_ows x) as ->; [|done].
    unfold trim. cbn [drop_while]. by rewrite Eo.
  - destruct (c =? sep) eqn:Ec; [|done]. rewrite <- IH. cbn [split_on]. by rewrite Ec.
Qed.

Lemma elements_step c s :
  blank_or_sep sep c = false ->
  elements sep (c :: s) =
    trim_end is_ows (take_while (isnt sep) (c :: s)) :: elements sep (drop_while (isnt sep) (c :: s)).
Proof.
  intros Hc. unfold blank_or_sep in Hc. apply orb_false_iff in Hc as [Ho Hc].
  assert (isnt sep c = true) as Hi by (unfold isnt; by rewrite Hc).
  unfold elements at 1. rewrite split_on_unfold. cbn [map].
  assert (trim is_ows (take_while (isnt sep) (c :: s)) = trim_end is_ows (take_while (isnt sep) (c :: s))) as ->.
  { unfold trim. f_equal. cbn [take_while]. rewrite Hi. by apply drop_while_stop. }
  assert (trim_end is_ows (take_while (isnt sep) (c :: s)) <> []) as Hne.
  { cbn [take_while]. rewrite Hi. cbn [trim_end]. rewrite Ho. by destruct (trim_end _ _). }
  cbn [List.filter]. rewrite (proj2 (Nat.eqb_neq _ _)) by (by rewrite length_zero_iff_nil). cbn [negb].
  f_equal. destruct (drop_while (isnt sep) (c :: s)) as [|d t] eqn:E; [done|].
  apply drop_while_head in E. unfold isnt in E. apply negb_false_iff in E.
  unfold elements at 1. cbn [split_on]. by rewrite E.
Qed.

Lemma sep_loop_spec fuel acc v :
  (length v <= fuel)%nat -> sep_loop sep treat fuel acc v = fold_left treat (elements sep v) acc.
Proof.
  revert acc v. induction fuel as [|f IH]; intros acc v Hlen.
  - destruct v; [done | simpl in Hlen; lia].
  - destruct v as [|b v]; [done|]. cbn [sep_loop]. rewrite elements_skip.
    pose proof (drop_while_length (blank_or_sep sep) (b :: v)) as Hd.
    destruct (drop_while (blank_or_sep sep) (b :: v)) as [|c s] eqn:E; [done|].
    apply drop_while_head in E. rewrite elements_step by done. cbn [fold_left].
    rewrite IH; [done|]. unfold blank_or_sep in E. apply orb_false_iff in E as [_ E].
    cbn [drop_while]. unfold isnt at 1. rewrite E. cbn [negb].
    pose proof (drop_while_length (isnt sep) s). simpl in *. lia.
Qed.
End sep_loop_spec.

(** ** What an Accept-Encoding value means *)

(** The codings of a value, and those with a given name. *)
Definition codings (hdr : bytes) : list bytes := elements COMMA hdr.

(** The weight of a coding is zero: its last [q] parameter says so. *)
Definition rejected (tok : bytes) : bool :=
  let params := elements SEMI (drop_while name_stop tok) in
  match last (List.filter (fun p => match p with c :: d :: _ => (ascii_lower c =? ch "q") && (d =? EQUALS) | _ => false end) params) with
  | Some p => q_is_zero (drop 2 p)
  | None => false
  end.

(** The last coding of a given kind decides. *)
Definition verdict (kind : bytes -> bool) (hdr : bytes) : option bool :=
  (fun tok => negb (rejected tok)) <$> last (List.filter (fun tok => kind (token_name tok)) (codings hdr)).

Definition is_gzip (n : bytes) : bool := ascii_eq_ci n (lit "gzip") || ascii_eq_ci n (lit "x-gzip").
Definition is_br (n : bytes) : bool := ascii_eq_ci n (lit "br").
Definition is_zstd (n : bytes) : bool := ascii_eq_ci n (lit "zstd").
Definition is_identity (n : bytes) : bool := ascii_eq_ci n (lit "identity").
Definition is_any (n : bytes) : bool := eqb_bytes n [STAR].

Lemma params_spec ps acc :
  fold_left param_step ps acc =
    match last (List.filter (fun p => match p with c :: d :: _ => (ascii_lower c =? ch "q") && (d =? EQUALS) | _ => false end) ps) with
    | Some p => (true, q_is_zero (drop 2 p))
    | None => acc
    end.
Proof.
  induction ps as [|p ps IH] using rev_ind; [done|].
  rewrite fold_left_app, List.filter_app. cbn [fold_left List.filter]. rewrite IH.
  destruct p as [|c [|d rest]]; cbn [param_step]; rewrite ?app_nil_r; [done..|].
  case_if; [by rewrite last_snoc | by rewrite app_nil_r].
Qed.

Lemma token_outcome_spec tok : token_outcome tok = if rejected tok then Q_REJECT else Q_OK.
Proof.
  unfold token_outcome, rejected. rewrite sep_loop_spec by done. rewrite params_spec.
  destruct (last _) as [p|]; cbn [andb]; [by destruct (q_is_zero _) | done].
Qed.

(** What the fields of the scan state hold. *)
Definition q_of (v : option bool) : q_t :=
  match v with None => Q_UNSEEN | Some true => Q_OK | Some false => Q_REJECT end.

Definition verdict_of (kind : bytes -> bool) (toks : list bytes) : option bool :=
  (fun tok => negb (rejected tok)) <$> last (List.filter (fun tok => kind (token_name tok)) toks).

Lemma verdict_snoc kind toks tok :
  verdict_of kind (toks ++ [tok]) =
    if kind (token_name tok) then Some (negb (rejected tok)) else verdict_of kind toks.
Proof.
  unfold verdict_of. rewrite List.filter_app. cbn [List.filter].
  case_if; [by rewrite last_snoc | by rewrite app_nil_r].
Qed.

(** The names are told apart. *)
Lemma kinds_disjoint n :
  (is_gzip n = true -> is_br n = false /\ is_zstd n = false /\ is_identity n = false /\ is_any n = false) /\
  (is_br n = true -> is_zstd n = false /\ is_identity n = false /\ is_any n = false) /\
  (is_zstd n = true -> is_identity n = false /\ is_any n = false) /\
  (is_identity n = true -> is_any n = false).
Proof.
  unfold is_gzip, is_br, is_zstd, is_identity, is_any, ascii_eq_ci.
  assert (forall l l' : bytes, eqb_bytes (map ascii_lower n) l = true -> eqb_bytes l l' = false ->
    eqb_bytes (map ascii_lower n) l' = false) as Hd.
  { intros l l' H%eqb_bytes_eq H'. by rewrite H. }
  assert (forall l : bytes, eqb_bytes (map ascii_lower n) l = true -> eqb_bytes l [STAR] = false ->
    eqb_bytes n [STAR] = false) as Hs.
  { intros l H H'. destruct (eqb_bytes n [STAR]) eqn:E; [|done]. apply eqb_bytes_eq in E as ->.
    apply eqb_bytes_eq in H. rewrite <- H in H'. done. }
  rewrite orb_true_iff. split_and!; intros H; [destruct H as [H|H]|..]; repeat apply conj;
    first [by eapply Hd | by eapply Hs].
Qed.

Lemma token_step_spec toks :
  fold_left token_step toks all_unseen =
    {| q_gzip := q_of (verdict_of is_gzip toks); q_brotli := q_of (verdict_of is_br toks);
       q_zstd := q_of (verdict_of is_zstd toks); q_identity := q_of (verdict_of is_identity toks);
       q_star := q_of (verdict_of is_any toks) |}.
Proof.
  induction toks as [|tok toks IH] using rev_ind; [done|].
  rewrite fold_left_app, IH. cbn [fold_left]. rewrite !verdict_snoc. unfold token_step.
  rewrite token_outcome_spec. set (n := token_name tok).
  destruct (kinds_disjoint n) as (Hg & Hb & Hz & Hi).
  assert ((if rejected tok then Q_REJECT else Q_OK) = q_of (Some (negb (rejected tok)))) as -> by (by destruct (rejected tok)).
  fold (is_gzip n). fold (is_br n). fold (is_zstd n). fold (is_identity n). fold (is_any n).
  destruct (is_gzip n) eqn:E1; [destruct (Hg eq_refl) as (-> & -> & -> & ->); done|].
  destruct (is_br n) eqn:E2; [destruct (Hb eq_refl) as (-> & -> & ->); done|].
  destruct (is_zstd n) eqn:E3; [destruct (Hz eq_refl) as (-> & ->); done|].
  destruct (is_identity n) eqn:E4; [rewrite (Hi eq_refl); done|].
  by destruct (is_any n).
Qed.

(** ** Theorems *)

(** The parser implements RFC 9110 section 12.5.3 for each coding: the last
    entry that names it decides (rejected exactly when its [q] is zero); without
    one, the last [*] entry decides; without that, compression is off and identity
    is on. *)
Theorem http_accept_encoding_parse_spec (hdr : bytes) :
  let ae := http_accept_encoding_parse hdr in
  let any := verdict is_any hdr in
  gzip_acceptable ae = default (default false any) (verdict is_gzip hdr) /\
  brotli_acceptable ae = default (default false any) (verdict is_br hdr) /\
  zstd_acceptable ae = default (default false any) (verdict is_zstd hdr) /\
  identity_acceptable ae = default (default true any) (verdict is_identity hdr).
Proof.
  unfold http_accept_encoding_parse. rewrite sep_loop_spec by done.
  fold (codings hdr). rewrite token_step_spec.
  cbn [gzip_acceptable brotli_acceptable zstd_acceptable identity_acceptable q_gzip q_brotli q_zstd q_identity q_star].
  unfold verdict, codings. fold (verdict_of is_gzip (elements COMMA hdr)).
  fold (verdict_of is_br (elements COMMA hdr)). fold (verdict_of is_zstd (elements COMMA hdr)).
  fold (verdict_of is_identity (elements COMMA hdr)). fold (verdict_of is_any (elements COMMA hdr)).
  destruct (verdict_of is_any _) as [[]|]; split_and!;
    match goal with |- context [q_of ?v] => by destruct v as [[]|] end.
Qed.

(** A codec the build has and the client accepts. *)
Definition offered (b : build) (ae : http_accept_encoding_t) (id : http_codec_id_t) : bool :=
  match id with
  | HTTP_CODEC_IDENTITY => identity_acceptable ae
  | HTTP_CODEC_GZIP => HAVE_HTTP_COMPRESSION b && gzip_acceptable ae
  | HTTP_CODEC_BROTLI => HAVE_HTTP_COMPRESSION b && HAVE_HTTP_BROTLI b && brotli_acceptable ae
  | HTTP_CODEC_ZSTD => HAVE_HTTP_COMPRESSION b && HAVE_HTTP_ZSTD b && zstd_acceptable ae
  | HTTP_CODEC__COUNT => false
  end.

Definition preference : list http_codec_id_t :=
  [HTTP_CODEC_ZSTD; HTTP_CODEC_GZIP; HTTP_CODEC_BROTLI; HTTP_CODEC_IDENTITY].

(** Selection is the first codec in the order zstd, gzip, brotli, identity
    that the build offers and the client accepts; the 406 sentinel comes back
    exactly when there is none.  In particular a coding the client rejected is
    never chosen. *)
Theorem http_accept_encoding_select_spec (b : build) (ae : http_accept_encoding_t) :
  http_accept_encoding_select b ae = default HTTP_CODEC__COUNT (List.find (offered b ae) preference) /\
  (http_accept_encoding_select b ae <> HTTP_CODEC__COUNT ->
   offered b ae (http_accept_encoding_select b ae) = true).
Proof.
  unfold http_accept_encoding_select, preference. cbn [List.find offered http_compression_lookup].
  destruct b as [[] [] []], ae as [[] [] [] []]; cbn; by split.
Qed.

(** Weights other than zero are ignored: a client that prefers brotli over
    gzip by q-values is served gzip, although the comment in the selector says it
    still gets brotli. *)
Theorem http_accept_encoding_weights_ignored (b : build) :
  HAVE_HTTP_COMPRESSION b = true ->
  http_accept_encoding_select b (http_accept_encoding_parse (lit "br;q=1.0, gzip;q=0.5")) = HTTP_CODEC_GZIP.
Proof. intros H. unfold http_accept_encoding_select. rewrite H. reflexivity. Qed.

Lemma http_accept_encoding_weights_ignored_witness :
  http_accept_encoding_select {| HAVE_HTTP_COMPRESSION := true; HAVE_HTTP_BROTLI := true; HAVE_HTTP_ZSTD := true |}
    (http_accept_encoding_parse (lit "br;q=1.0, gzip;q=0.5")) = HTTP_CODEC_GZIP.
Proof. apply http_accept_encoding_weights_ignored. reflexivity. Defined.

(** *** Media types *)

Lemma ascii_lower_class c :
  is_ows (ascii_lower c) = is_ows c /\ isnt SEMI (ascii_lower c) = isnt SEMI c /\
  ascii_lower (ascii_lower c) = ascii_lower c.
Proof.
  unfold ascii_lower. destruct ((65 <=? c) && (c <=? 90)) eqn:E; b2p; [|by rewrite E].
  unfold is_ows, isnt.
  repeat match goal with |- context [?a =? ?b] => rewrite (proj2 (Z.eqb_neq a b)) by lia end.
  rewrite (proj2 (Z.leb_gt (c - 65 + 97) 90)) by lia. by rewrite andb_false_r.
Qed.

(** Normalising a media type never writes more than the buffer holds, leaves
    no parameters, no upper case and no surrounding blanks, and is idempotent. *)
Theorem http_compression_mime_normalize_spec (ct : bytes) (cap : nat) :
  let m := http_compression_mime_normalize ct cap in
  (length m <= cap)%nat /\ mem_byte SEMI m = false /\
  Forall (fun c => is_upper c = false) m /\
  http_compression_mime_normalize m cap = m.
Proof.
  cbv zeta. unfold http_compression_mime_normalize at 1 2 3 5 6.
  set (t := trim_end is_ows (take_while (isnt SEMI) (drop_while is_ows ct))).
  destruct ((length t =? 0)%nat || (cap <? length t)%nat) eqn:E.
  { split_and!; [simpl; lia | done | constructor | done]. }
  apply orb_false_iff in E as [E0 E1]. apply Nat.eqb_neq in E0. apply Nat.ltb_ge in E1.
  assert (Forall (fun c => isnt SEMI c = true) t) as Hsemi.
  { apply trim_end_Forall, take_while_all. }
  assert (t <> []) as Hne by (by intros ->).
  assert (Forall (fun c => isnt SEMI c = true) (map ascii_lower t)) as Hsemi'.
  { apply List.Forall_map. eapply Forall_impl; [exact Hsemi|]. intros c Hc.
    by rewrite (proj1 (proj2 (ascii_lower_class c))). }
  split_and!.
  - by rewrite length_map.
  - by apply mem_byte_false.
  - apply List.Forall_map, List.Forall_forall. intros c _. unfold is_upper, ascii_lower.
    destruct ((65 <=? c) && (c <=? 90)) eqn:E; [|done]. b2p. apply andb_false_iff. right. apply Z.leb_gt. lia.
  - unfold http_compression_mime_normalize.
    assert (forall l, drop_while is_ows (map ascii_lower l) = map ascii_lower (drop_while is_ows l)) as Hdrop.
    { induction l as [|c l IH]; cbn [drop_while map]; [done|]. rewrite (proj1 (ascii_lower_class c)). by case_if. }
    assert (forall l, trim_end is_ows (map ascii_lower l) = map ascii_lower (trim_end is_ows l)) as Htrim.
    { induction l as [|c l IH]; cbn [trim_end map]; [done|]. rewrite IH, (proj1 (ascii_lower_class c)).
      destruct (trim_end is_ows l); cbn [map]; [by case_if | done]. }
    assert (drop_while is_ows t = t /\ trim_end is_ows t = t) as [Hd Ht].
    { unfold t in *. destruct (drop_while is_ows ct) as [|c s] eqn:Ed; [done|].
      apply drop_while_head in Ed. cbn [take_while] in *.
      destruct (isnt SEMI c); [|done]. split.
      - cbn [trim_end]. rewrite Ed.
        destruct (trim_end is_ows (take_while (isnt SEMI) s)); by apply drop_while_stop.
      - apply trim_end_idem. }
    rewrite Hdrop, Hd, take_while_id by done. rewrite Htrim, Ht, length_map.
    rewrite (proj2 (Nat.eqb_neq _ _)), (proj2 (Nat.ltb_ge _ _)) by done. cbn [orb].
    rewrite map_map. apply map_ext. intros c. apply ascii_lower_class.
Qed.
End AcceptEncoding.
