(* ===== verification/StaticPath.v ===== *)
(** * Mapping request paths to files

    Models src/src/static/http_static_path.c: percent-decoding, the segment
    grammar, concatenation with the root directory, index-file joining and the
    hide patterns, and [validate_url_prefix] of
    src/src/static/static_handler_class.c.  Output buffers are byte lists without
    their terminating NUL; their capacities are arguments. *)

From S2P Require Import Prelude.

Module StaticPath.

Inductive http_static_path_result_t :=
  | HTTP_STATIC_PATH_OK
  | HTTP_STATIC_PATH_BAD_REQUEST
  | HTTP_STATIC_PATH_FORBIDDEN
  | HTTP_STATIC_PATH_HIDE
  | HTTP_STATIC_PATH_NO_MATCH.

Definition HTTP_STATIC_FLAG_DOTFILES_DENY : Z := Z.shiftl 1 0.
Definition HTTP_STATIC_FLAG_DOTFILES_IGNORE : Z := Z.shiftl 1 2.

Record http_static_handler_t := {
  url_prefix : bytes;
  root_directory : bytes;
  flags : Z;
  hide_globs : list bytes;
}.

(** [MAXPATHLEN] on Linux. *)
Definition MAXPATHLEN : nat := Z.to_nat 4096.
Definition HTTP_STATIC_PATH_MAX_SEGMENTS : nat := 256.

(** [None] is -1. *)
Definition hex_value (c : Z) : option Z :=
  if (48 <=? c) && (c <=? 57) then Some (c - 48)
  else if (97 <=? c) && (c <=? 102) then Some (10 + (c - 97))
  else if (65 <=? c) && (c <=? 70) then Some (10 + (c - 65))
  else None.

(** The decoding loop; [out] holds the bytes written so far.  [None] is
    [HTTP_STATIC_PATH_BAD_REQUEST], the only failure. *)
Fixpoint percent_decode (src : bytes) (dst_cap : nat) (out : bytes) : option bytes :=
  match src with
  | [] => Some out
  | c :: rest =>
      if c =? NUL then None
      else if c =? PERCENT then
        match rest with
        | h :: l :: rest' =>
            match hex_value h, hex_value l with
            | Some hi, Some lo =>
                let byte := u8 (Z.lor (Z.shiftl hi 4) lo) in
                if (byte =? 0) || (byte =? BACKSLASH) then None
                else if (dst_cap <=? length out + 1)%nat then None
                else percent_decode rest' dst_cap (out ++ [byte])
            | _, _ => None
            end
        | _ => None
        end
      else if c =? BACKSLASH then None
      else if (dst_cap <=? length out + 1)%nat then None
      else percent_decode rest dst_cap (out ++ [c])
  end.

(** The checks on one segment. *)
Definition segment_check (mount : http_static_handler_t) (seg : bytes) : http_static_path_result_t :=
  match seg with
  | [] => HTTP_STATIC_PATH_BAD_REQUEST
  | c :: _ =>
      if eqb_bytes seg [DOT] then HTTP_STATIC_PATH_FORBIDDEN
      else if eqb_bytes seg [DOT; DOT] then HTTP_STATIC_PATH_FORBIDDEN
      else if c =? DOT then
        if negb (Z.land (flags mount) HTTP_STATIC_FLAG_DOTFILES_DENY =? 0) then HTTP_STATIC_PATH_FORBIDDEN
        else if negb (Z.land (flags mount) HTTP_STATIC_FLAG_DOTFILES_IGNORE =? 0) then HTTP_STATIC_PATH_HIDE
        else HTTP_STATIC_PATH_OK
      else HTTP_STATIC_PATH_OK
  end.

(** The segment loop: at most 256 segments, so the fuel is that bound. *)
Fixpoint segment_loop (fuel : nat) (mount : http_static_handler_t) (path : bytes) : http_static_path_result_t :=
  match path, fuel with
  | [], _ => HTTP_STATIC_PATH_OK
  | _, O => HTTP_STATIC_PATH_BAD_REQUEST
  | _, S f =>
      match segment_check mount (take_while (isnt SLASH) path) with
      | HTTP_STATIC_PATH_OK =>
          match drop_while (isnt SLASH) path with
          | [] => HTTP_STATIC_PATH_OK
          | _ :: rest => segment_loop f mount rest
          end
      | r => r
      end
  end.

Definition validate_segments (mount : http_static_handler_t) (path : bytes) : http_static_path_result_t :=
  segment_loop HTTP_STATIC_PATH_MAX_SEGMENTS mount
    (match path with c :: rest => if c =? SLASH then rest else path | [] => path end).

(** The result with the out parameters: the path and the part of it that is
    relative to the root. *)
Inductive resolved :=
  | ROk (out_buf relative : bytes)
  | RFail (r : http_static_path_result_t).

Definition with_slash (root : bytes) : bytes :=
  match last root with
  | Some c => if negb (c =? SLASH) then root ++ [SLASH] else root
  | None => root
  end.

Definition http_static_path_resolve (mount : http_static_handler_t) (request_path : bytes) (out_buf_cap : nat)
    : resolved :=
  match request_path with
  | [] => RFail HTTP_STATIC_PATH_BAD_REQUEST
  | c :: _ =>
      if negb (c =? SLASH) then RFail HTTP_STATIC_PATH_BAD_REQUEST
      else if negb (starts_with (url_prefix mount) request_path) then RFail HTTP_STATIC_PATH_NO_MATCH
      else
        let tail := take_while (fun c => negb ((c =? QUESTION) || (c =? HASH)))
                      (drop (length (url_prefix mount)) request_path) in
        match percent_decode tail MAXPATHLEN [] with
        | None => RFail HTTP_STATIC_PATH_BAD_REQUEST
        | Some decoded =>
            match (if (0 <? length decoded)%nat then validate_segments mount decoded else HTTP_STATIC_PATH_OK) with
            | HTTP_STATIC_PATH_OK =>
                let root := root_directory mount in
                if (out_buf_cap <? length root + 1 + length decoded + 1)%nat then RFail HTTP_STATIC_PATH_BAD_REQUEST
                else ROk (with_slash root ++ decoded) decoded
            | r => RFail r
            end
        end
  end.

(** [None] is [false]: the name does not fit and the buffer is unchanged. *)
Definition http_static_path_join (buf : bytes) (cap : nat) (name : bytes) : option bytes :=
  let need_sep := match last buf with None => true | Some c => negb (c =? SLASH) end in
  let extra := ((if need_sep then 1 else 0) + length name + 1)%nat in
  if (cap <? length buf + extra)%nat then None
  else Some ((if need_sep then buf ++ [SLASH] else buf) ++ name).

(** [fnmatch(glob, s, FNM_PATHNAME) == 0], from libc. *)
Class Fnmatch := fnmatch_pathname : bytes -> bytes -> bool.

Definition http_static_path_is_hidden `{Fnmatch} (mount : http_static_handler_t) (relative : bytes) : bool :=
  existsb (fun glob => fnmatch_pathname (c_str glob) (c_str relative)) (hide_globs mount).

(** The scan of [validate_url_prefix]: no NUL and no double slash. *)
Fixpoint prefix_scan (s : bytes) : bool :=
  match s with
  | [] => true
  | c :: rest =>
      if c =? NUL then false
      else match rest with
           | d :: _ => if (c =? SLASH) && (d =? SLASH) then false else prefix_scan rest
           | [] => true
           end
  end.

Definition validate_url_prefix (prefix : bytes) : bool :=
  if (length prefix <? 2)%nat || negb (hd 0 prefix =? SLASH) || negb (List.last prefix 0 =? SLASH) then false
  else prefix_scan prefix.

(** ** Decoding *)

Definition safe_byte (c : Z) : Prop := c <> NUL /\ c <> BACKSLASH.

Lemma percent_decode_inv src cap out d :
  (length out < cap)%nat -> Forall safe_byte out -> percent_decode src cap out = Some d ->
  Forall safe_byte d /\ (length d < cap)%nat /\ (length d <= length out + length src)%nat.
Proof.
  remember (length src) as n eqn:En. assert (length src <= n)%nat as Hn by lia. clear En.
  revert src out Hn. induction n as [|n IH]; intros src out Hn Hcap Hsafe.
  - destruct src; [|simpl in Hn; lia]. intros [= <-]. repeat split; [done|done|lia].
  - assert (forall b rest k, (length rest <= n)%nat -> (1 + k <= S n)%nat -> (length rest <= k)%nat -> safe_byte b ->
      (cap <=? length out + 1)%nat = false -> percent_decode rest cap (out ++ [b]) = Some d ->
      Forall safe_byte d /\ (length d < cap)%nat /\ (length d <= length out + S n)%nat) as Hpush.
    { intros b rest k Hr Hk Hk' Hb Hc Hd. apply Nat.leb_gt in Hc.
      destruct (IH rest (out ++ [b])) as (? & ? & ?); [done| | |done|].
      - rewrite length_app. simpl. lia.
      - apply Forall_app; split; [done|]. apply List.Forall_cons; [done | apply List.Forall_nil].
      - repeat split; [done|done|]. rewrite length_app in *. simpl in *. lia. }
    destruct src as [|c rest]; [intros [= <-]; repeat split; [done|done|lia]|].
    cbn [percent_decode]. simpl in Hn. destruct (c =? NUL) eqn:E0; [done|].
    destruct (c =? PERCENT) eqn:Ep.
    + destruct rest as [|h [|l rest]]; try done. simpl in Hn.
      destruct (hex_value h); [|done]. destruct (hex_value l); [|done].
      destruct (_ || _) eqn:Eb; [done|]. destruct (cap <=? length out + 1)%nat eqn:Ec; [done|].
      apply orb_false_iff in Eb as [Eb0 Eb1]. b2p.
      apply (Hpush _ rest n); [lia|lia|lia|done|done].
    + destruct (c =? BACKSLASH) eqn:Es; [done|]. destruct (cap <=? length out + 1)%nat eqn:Ec; [done|]. b2p.
      apply (Hpush _ rest n); [lia|lia|lia|done|done].
Qed.

(** Percent-encoding every byte. *)
Definition hex_upper (v : Z) : Z := if v <? 10 then 48 + v else 65 + (v - 10).
Definition percent_encode (s : bytes) : bytes :=
  concat (map (fun c => [PERCENT; hex_upper (c / 16); hex_upper (c mod 16)]) s).

Lemma hex_value_upper v : 0 <= v < 16 -> hex_value (hex_upper v) = Some v.
Proof.
  intros Hv. unfold hex_upper, hex_value. destruct (Z.ltb_spec v 10).
  - rewrite (proj2 (Z.leb_le _ _)), (proj2 (Z.leb_le _ _)) by lia. cbn [andb]. f_equal. lia.
  - rewrite (proj2 (Z.leb_gt (65 + (v - 10)) 57)), andb_false_r by lia.
    rewrite (proj2 (Z.leb_gt 97 (65 + (v - 10)))) by lia. cbn [andb].
    rewrite (proj2 (Z.leb_le 65 (65 + (v - 10)))), (proj2 (Z.leb_le (65 + (v - 10)) 70)) by lia. cbn [andb].
    f_equal. lia.
Qed.

Lemma nibbles c : is_byte c -> u8 (Z.lor (Z.shiftl (c / 16) 4) (c mod 16)) = c.
Proof.
  unfold is_byte. intros Hc. assert (Z.lor (Z.shiftl (c / 16) 4) (c mod 16) = c) as ->.
  { change (c mod 16) with (c mod 2 ^ 4). change (c / 16) with (c / 2 ^ 4).
    rewrite <- Z.land_ones, <- Z.shiftr_div_pow2 by lia.
    apply Z.bits_inj'. intros n Hn. rewrite Z.lor_spec, Z.land_spec.
    destruct (Z.ltb_spec n 4) as [Hlt|Hge].
    - rewrite Z.shiftl_spec_low, Z.ones_spec_low by lia. by rewrite andb_true_r.
    - rewrite Z.shiftl_spec, Z.shiftr_spec, Z.ones_spec_high by lia. rewrite andb_false_r, orb_false_r.
      f_equal. lia. }
  unfold u8. apply Z.mod_small. lia.
Qed.

Lemma percent_decode_encode s cap out rest :
  Forall is_byte s -> Forall safe_byte s -> (length out + length s < cap)%nat ->
  percent_decode (percent_encode s ++ rest) cap out = percent_decode rest cap (out ++ s).
Proof.
  intros Hb Hs. revert out. induction s as [|c s IH]; intros out Hc; [by rewrite app_nil_r|].
  apply Forall_cons_iff in Hb as [Hc0 Hb]. apply Forall_cons_iff in Hs as [[H0 H1] Hs].
  unfold percent_encode. cbn [map concat]. fold (percent_encode s). cbn [app percent_decode].
  change (PERCENT =? NUL) with false. change (PERCENT =? PERCENT) with true. cbn iota.
  unfold is_byte in Hc0. rewrite !hex_value_upper by dlia. rewrite nibbles by done.
  rewrite (proj2 (Z.eqb_neq _ _) H0), (proj2 (Z.eqb_neq _ _) H1). cbn [orb].
  simpl in Hc. rewrite (proj2 (Nat.leb_gt _ _)) by lia.
  rewrite IH by (first [done | rewrite length_app; simpl; lia]). by rewrite <- app_assoc.
Qed.

(** ** Segments *)

(** The segments a path names: one leading and one trailing slash do not count. *)
Definition segments (path : bytes) : list bytes :=
  let p := match path with c :: rest => if c =? SLASH then rest else path | [] => path end in
  match p with
  | [] => []
  | _ => match last (split_on SLASH p) with
         | Some [] => removelast (split_on SLASH p)
         | _ => split_on SLASH p
         end
  end.

Definition good_segment (seg : bytes) : Prop :=
  seg <> [] /\ seg <> [DOT] /\ seg <> [DOT; DOT] /\ mem_byte SLASH seg = false.

Lemma segment_check_ok mount seg :
  segment_check mount seg = HTTP_STATIC_PATH_OK -> mem_byte SLASH seg = false -> good_segment seg.
Proof.
  intros H Hs. destruct seg as [|c seg]; [done|]. cbn [segment_check] in H.
  destruct (eqb_bytes (c :: seg) [DOT]) eqn:E1; [done|].
  destruct (eqb_bytes (c :: seg) [DOT; DOT]) eqn:E2; [done|].
  split_and!; [done| | |done]; intros E; rewrite E in *; done.
Qed.

Lemma take_while_no_sep sep p : mem_byte sep (take_while (isnt sep) p) = false.
Proof. apply mem_byte_false, take_while_all. Qed.

(** The loop accepts only lists of good segments. *)
Definition path_segments (p : bytes) : list bytes :=
  match p with
  | [] => []
  | _ => match last (split_on SLASH p) with
         | Some [] => removelast (split_on SLASH p)
         | _ => split_on SLASH p
         end
  end.

Lemma path_segments_cons p rest :
  drop_while (isnt SLASH) p = SLASH :: rest ->
  path_segments p = take_while (isnt SLASH) p :: path_segments rest.
Proof.
  intros E. assert (p <> []) as Hp by (by intros ->).
  unfold path_segments at 1. destruct p as [|c p]; [done|]. rewrite split_on_unfold, E.
  unfold path_segments. pose proof (split_on_nonempty SLASH rest) as Hne.
  destruct rest as [|d rest]; [done|].
  destruct (split_on SLASH (d :: rest)) as [|x xs] eqn:Es; [done|].
  assert (last (take_while (isnt SLASH) (c :: p) :: x :: xs) = last (x :: xs)) as -> by done.
  destruct (last (x :: xs)) as [[|]|] eqn:El; done.
Qed.

Lemma drop_while_sep p c rest : drop_while (isnt SLASH) p = c :: rest -> c = SLASH.
Proof. intros E. apply drop_while_head in E. unfold isnt in E. by b2p. Qed.

Lemma path_segments_last p :
  p <> [] -> drop_while (isnt SLASH) p = [] -> path_segments p = [take_while (isnt SLASH) p].
Proof.
  intros Hp E. unfold path_segments. destruct p as [|c p]; [done|]. rewrite split_on_unfold, E.
  cbn [last]. destruct (take_while (isnt SLASH) (c :: p)) eqn:Et; [|done].
  cbn [take_while] in Et. cbn [drop_while] in E. destruct (isnt SLASH c); done.
Qed.

Lemma segment_loop_ok fuel mount p :
  segment_loop fuel mount p = HTTP_STATIC_PATH_OK ->
  Forall good_segment (path_segments p) /\ (length (path_segments p) <= fuel)%nat.
Proof.
  revert p. induction fuel as [|fuel IH]; intros p.
  { destruct p; [|done]. intros _. split; [constructor | simpl; lia]. }
  destruct p as [|c p]; [intros _; split; [constructor | simpl; lia]|]. cbn [segment_loop].
  destruct (segment_check mount (take_while (isnt SLASH) (c :: p))) eqn:Es; try done.
  pose proof (segment_check_ok _ _ Es (take_while_no_sep _ _)) as Hg.
  destruct (drop_while (isnt SLASH) (c :: p)) as [|d rest] eqn:Ed.
  - intros _. rewrite path_segments_last by done. split; [by apply Forall_singleton | simpl; lia].
  - pose proof (drop_while_sep _ _ _ Ed) as ->. intros H. destruct (IH rest H) as [H1 H2].
    rewrite (path_segments_cons _ rest Ed). split; [by constructor | simpl; lia].
Qed.

(** ** Staying under the root *)

(** Lexical resolution of a path: what the kernel does with [.], [..] and empty
    components, on the stack of directories entered so far (innermost first). *)
Fixpoint walk (stack : list bytes) (comps : list bytes) : list bytes :=
  match comps with
  | [] => stack
  | c :: rest =>
      if eqb_bytes c [] || eqb_bytes c [DOT] then walk stack rest
      else if eqb_bytes c [DOT; DOT] then walk (tl stack) rest
      else walk (c :: stack) rest
  end.

Definition resolve_path (p : bytes) : list bytes := rev (walk [] (split_on SLASH p)).

Lemma walk_app stack a b : walk stack (a ++ b) = walk (walk stack a) b.
Proof. revert stack. induction a as [|c a IH]; intros stack; cbn [walk app]; [done|]. by repeat case_if. Qed.

Lemma walk_good stack segs : Forall good_segment segs -> walk stack segs = rev segs ++ stack.
Proof.
  intros H. revert stack. induction H as [|s segs (H1 & H2 & H3 & _) _ IH]; intros stack; cbn [walk rev]; [done|].
  assert (forall l, s <> l -> eqb_bytes s l = false) as Hne.
  { intros l Hl. destruct (eqb_bytes s l) eqn:E; [|done]. by apply eqb_bytes_eq in E. }
  rewrite !Hne by done. cbn [orb]. rewrite IH. by rewrite <- app_assoc.
Qed.

Lemma split_on_slash_app a b : split_on SLASH (a ++ SLASH :: b) = split_on SLASH a ++ split_on SLASH b.
Proof.
  induction a as [|c a IH]; cbn [app split_on]; [done|]. rewrite IH.
  destruct (c =? SLASH); [done|].
  pose proof (split_on_nonempty SLASH a). by destruct (split_on SLASH a).
Qed.

Lemma walk_path_segments stack p : walk stack (split_on SLASH p) = walk stack (path_segments p).
Proof.
  unfold path_segments. destruct p as [|c p]; [done|].
  destruct (last (split_on SLASH (c :: p))) as [[|]|] eqn:E; try done.
  pose proof (split_on_nonempty SLASH (c :: p)) as Hne.
  destruct (split_on SLASH (c :: p)) as [|x l _] using rev_ind; [done|].
  rewrite last_snoc in E. injection E as ->. rewrite removelast_last, walk_app. done.
Qed.

Lemma walk_decoded stack p : walk stack (split_on SLASH p) = walk stack (segments p).
Proof.
  unfold segments. destruct p as [|c p]; [done|]. destruct (c =? SLASH) eqn:E.
  - cbn [split_on]. rewrite E. cbn [walk]. apply walk_path_segments.
  - apply walk_path_segments.
Qed.

Lemma resolve_confined (mount : http_static_handler_t) (request out relative : bytes) (cap : nat) :
  http_static_path_resolve mount request cap = ROk out relative ->
  root_directory mount <> [] ->
  resolve_path out = resolve_path (root_directory mount) ++ segments relative /\
  Forall good_segment (segments relative) /\ (length (segments relative) <= 256)%nat /\
  Forall safe_byte relative /\ (length out < cap)%nat /\
  out = with_slash (root_directory mount) ++ relative.
Proof.
  unfold http_static_path_resolve. intros H Hroot.
  destruct request as [|c request]; [done|]. destruct (negb (c =? SLASH)); [done|].
  destruct (negb (starts_with _ _)); [done|]. cbv zeta in H.
  destruct (percent_decode _ MAXPATHLEN []) as [d|] eqn:Ed; [|done].
  apply percent_decode_inv in Ed as (Hsafe & _ & _); [|unfold MAXPATHLEN; simpl; lia|constructor].
  destruct (if (0 <? length d)%nat then validate_segments mount d else HTTP_STATIC_PATH_OK) eqn:Ev; try done.
  destruct (cap <? _)%nat eqn:Ec; [done|]. injection H as <- <-. apply Nat.ltb_ge in Ec.
  assert (Forall good_segment (segments d) /\ (length (segments d) <= 256)%nat) as [Hg Hl].
  { destruct d as [|x d]; [split; [constructor | simpl; lia]|]. cbn [length Nat.ltb Nat.leb] in Ev.
    unfold validate_segments in Ev. apply segment_loop_ok in Ev. unfold segments.
    destruct (x =? SLASH); exact Ev. }
  assert (exists r0, with_slash (root_directory mount) = r0 ++ [SLASH] /\
    (with_slash (root_directory mount) = root_directory mount \/ r0 = root_directory mount)) as (r0 & Er & Hr0).
  { unfold with_slash. destruct (root_directory mount) as [|x r _] using rev_ind; [done|].
    rewrite last_snoc. destruct (negb (x =? SLASH)) eqn:E; [eauto|]. b2p. subst. eauto. }
  split_and!; try done.
  - unfold resolve_path. rewrite Er, <- app_assoc. cbn [app]. rewrite split_on_slash_app, walk_app.
    rewrite walk_decoded, (walk_good _ (segments d)) by done. rewrite rev_app_distr, rev_involutive. f_equal.
    destruct Hr0 as [Hr0| ->]; [|done]. rewrite Hr0 in Er. rewrite Er.
    by rewrite (split_on_slash_app r0 []), walk_app.
  - rewrite length_app. unfold with_slash. destruct (last (root_directory mount)) as [x|]; [|lia].
    case_if; rewrite ?length_app; simpl; lia.
Qed.


(** A segment a directory listing can contain and that needs no dotfile policy. *)
Definition plain_segment (s : bytes) : Prop :=
  good_segment s /\ Forall is_byte s /\ Forall safe_byte s /\ hd 0 s <> DOT.

Lemma plain_segment_check mount s : plain_segment s -> segment_check mount s = HTTP_STATIC_PATH_OK.
Proof.
  intros ((H1 & H2 & H3 & _) & _ & _ & H4). destruct s as [|c s]; [done|]. cbn [segment_check hd] in *.
  assert (forall l, c :: s <> l -> eqb_bytes (c :: s) l = false) as Hne.
  { intros l Hl. destruct (eqb_bytes (c :: s) l) eqn:E; [|done]. by apply eqb_bytes_eq in E. }
  rewrite !Hne by done. by rewrite (proj2 (Z.eqb_neq _ _) H4).
Qed.

Lemma segment_loop_join mount segs fuel :
  Forall plain_segment segs -> (length segs <= fuel)%nat ->
  segment_loop fuel mount (join_with [SLASH] segs) = HTTP_STATIC_PATH_OK.
Proof.
  intros H. revert fuel. induction H as [|s segs Hs Hsegs IH]; intros fuel Hf; [by destruct fuel|].
  destruct fuel as [|fuel]; [simpl in Hf; lia|]. simpl in Hf.
  pose proof Hs as ((Hne & _ & _ & Hsl) & _). apply mem_byte_false in Hsl.
  destruct segs as [|s' segs].
  - cbn [join_with]. destruct s as [|c s]; [done|]. cbn [segment_loop].
    rewrite take_while_id, drop_while_id by done. by rewrite plain_segment_check.
  - set (tl := join_with [SLASH] (s' :: segs)) in *.
    change (join_with [SLASH] (s :: s' :: segs)) with (s ++ SLASH :: tl).
    destruct s as [|c s]; [done|]. cbn [app segment_loop].
    change (c :: s ++ SLASH :: tl) with ((c :: s) ++ SLASH :: tl).
    rewrite take_while_app, drop_while_app by done. rewrite plain_segment_check by done. apply IH. lia.
Qed.

Lemma join_plain segs :
  Forall plain_segment segs ->
  Forall is_byte (join_with [SLASH] segs) /\ Forall safe_byte (join_with [SLASH] segs).
Proof.
  induction 1 as [|s segs Hs _ [IH1 IH2]]; [by split; constructor|]. destruct Hs as (_ & Hb & Hs & _).
  destruct segs as [|s' segs]; [done|].
  change (join_with [SLASH] (s :: s' :: segs)) with (s ++ SLASH :: join_with [SLASH] (s' :: segs)).
  split; apply Forall_app; (split; [done|]); apply List.Forall_cons; done.
Qed.

Lemma hex_upper_cases v : 0 <= v < 16 -> 48 <= hex_upper v <= 57 \/ 65 <= hex_upper v <= 70.
Proof. intros H. unfold hex_upper. case_if; b2p; lia. Qed.

Lemma percent_encode_no_query s :
  Forall is_byte s -> take_while (fun c => negb ((c =? QUESTION) || (c =? HASH))) (percent_encode s) = percent_encode s.
Proof.
  intros H. apply take_while_id. induction H as [|c s Hc _ IH]; [constructor|].
  unfold percent_encode. cbn [map concat app]. fold (percent_encode s). unfold is_byte in Hc.
  pose proof (hex_upper_cases (c / 16) ltac:(dlia)). pose proof (hex_upper_cases (c mod 16) ltac:(dlia)).
  repeat (apply List.Forall_cons; [apply negb_true_iff, orb_false_iff; split; apply Z.eqb_neq; lia|]). done.
Qed.

(** What [http_static_path_resolve] answers for a target whose remainder decodes. *)
Lemma resolve_ok mount tail decoded cap :
  hd 0 (url_prefix mount) = SLASH -> url_prefix mount <> [] ->
  take_while (fun c => negb ((c =? QUESTION) || (c =? HASH))) tail = tail ->
  percent_decode tail MAXPATHLEN [] = Some decoded ->
  validate_segments mount decoded = HTTP_STATIC_PATH_OK ->
  (length (root_directory mount) + 1 + length decoded + 1 <= cap)%nat ->
  http_static_path_resolve mount (url_prefix mount ++ tail) cap =
  ROk (with_slash (root_directory mount) ++ decoded) decoded.
Proof.
  intros Hh Hne Ht Hd Hv Hc. unfold http_static_path_resolve.
  rewrite starts_with_app, drop_app_length, Ht, Hd. destruct (url_prefix mount) as [|c pre]; [done|].
  cbn [hd] in Hh. subst c. cbn [app]. change (negb (SLASH =? SLASH)) with false. cbn [negb].
  rewrite Hv. replace (cap <? _)%nat with false by (symmetry; apply Nat.ltb_ge; lia). by destruct (0 <? length decoded)%nat.
Qed.

Lemma validate_url_prefix_head pre : validate_url_prefix pre = true -> hd 0 pre = SLASH /\ pre <> [].
Proof.
  unfold validate_url_prefix. destruct pre as [|c pre]; [done|]. destruct (_ || _) eqn:E; [done|]. intros _.
  b2p. cbn [hd] in *. done.
Qed.

(** Every ordinary file is reachable: a relative path of good segments
    (no NUL, slash or backslash, no leading dot) can be requested under the mount's
    prefix in percent-encoded form, and resolves to itself under the root. *)
Theorem http_static_path_reaches (mount : http_static_handler_t) (segs : list bytes) (cap : nat) :
  validate_url_prefix (url_prefix mount) = true ->
  (length segs <= 256)%nat ->
  Forall plain_segment segs ->
  (length (join_with [SLASH] segs) < MAXPATHLEN)%nat ->
  (length (root_directory mount) + 1 + length (join_with [SLASH] segs) + 1 <= cap)%nat ->
  http_static_path_resolve mount (url_prefix mount ++ percent_encode (join_with [SLASH] segs)) cap =
  ROk (with_slash (root_directory mount) ++ join_with [SLASH] segs) (join_with [SLASH] segs).
Proof.
  intros Hp Hl Hs Hm Hc. apply validate_url_prefix_head in Hp as [Hh Hne].
  destruct (join_plain _ Hs) as [Hb Hsafe].
  apply resolve_ok; try done.
  - by apply percent_encode_no_query.
  - rewrite <- (app_nil_r (percent_encode _)). by rewrite percent_decode_encode by done.
  - unfold validate_segments. pose proof (segment_loop_join mount segs 256 Hs Hl) as Hok.
    destruct Hs as [|s segs Hs1 Hs]; [done|]. pose proof Hs1 as ((Hne1 & _ & _ & Hsl) & _).
    destruct s as [|c s]; [done|]. cbn [mem_byte existsb] in Hsl. apply orb_false_iff in Hsl as [Hsl _].
    destruct segs as [|s' segs]; cbn [join_with app] in *; by rewrite Z.eqb_sym, Hsl.
Qed.

Lemma percent_decode_literal s cap out :
  Forall safe_byte s -> mem_byte PERCENT s = false -> (length out + length s < cap)%nat ->
  percent_decode s cap out = Some (out ++ s).
Proof.
  intros Hs. revert out. induction Hs as [|c s [H0 H1] _ IH]; intros out Hm Hc; [by rewrite app_nil_r|].
  cbn [mem_byte existsb] in Hm. apply orb_false_iff in Hm as [Hm1 Hm]. rewrite Z.eqb_sym in Hm1. simpl in Hc.
  cbn [percent_decode]. rewrite Hm1, (proj2 (Z.eqb_neq _ _) H0), (proj2 (Z.eqb_neq _ _) H1).
  rewrite (proj2 (Nat.leb_gt _ _)) by lia.
  rewrite IH by (first [done | rewrite length_app; simpl; lia]). by rewrite <- app_assoc.
Qed.

(** ** Hide patterns *)

(** [FNM_PATHNAME]: a slash in the string is matched only by a slash in the
    pattern, so a pattern without one matches no string with one. *)
Definition fnmatch_pathname_law `{Fnmatch} : Prop :=
  forall glob s, mem_byte SLASH glob = false -> mem_byte SLASH s = true -> fnmatch_pathname glob s = false.

(** The hide patterns do not protect a file against a doubled slash.
    Let a pattern list of slash-free globs hide the file [name] at the root of the
    mount.  The request [prefix/name] (the prefix itself ends in a slash) still
    resolves, to the root directory followed by [/name], which the kernel resolves
    to the same file; but the relative path the patterns are tried on starts with a
    slash, so none of them matches. *)
Theorem http_static_path_hide_bypass `{Fnmatch} (mount : http_static_handler_t) (name : bytes) (cap : nat) :
  fnmatch_pathname_law ->
  validate_url_prefix (url_prefix mount) = true ->
  root_directory mount <> [] ->
  Forall (fun g => mem_byte SLASH g = false) (hide_globs mount) ->
  http_static_path_is_hidden mount name = true ->
  plain_segment name -> Forall (fun c => c <> PERCENT /\ c <> QUESTION /\ c <> HASH) name ->
  (1 + length name < MAXPATHLEN)%nat -> (length (root_directory mount) + length name + 3 <= cap)%nat ->
  exists out, http_static_path_resolve mount (url_prefix mount ++ SLASH :: name) cap = ROk out (SLASH :: name) /\
    resolve_path out = resolve_path (root_directory mount) ++ [name] /\
    http_static_path_is_hidden mount (SLASH :: name) = false.
Proof.
  intros Hlaw Hp Hroot Hglobs _ Hn Hq Hm Hc. apply validate_url_prefix_head in Hp as [Hh Hne].
  pose proof Hn as ((Hn1 & _ & _ & Hsl) & _ & Hsafe & _).
  assert (http_static_path_resolve mount (url_prefix mount ++ SLASH :: name) cap =
    ROk (with_slash (root_directory mount) ++ SLASH :: name) (SLASH :: name)) as Hok.
  { apply resolve_ok; try done.
    - apply take_while_id. apply List.Forall_cons; [done|]. eapply Forall_impl; [exact Hq|].
      intros c (_ & H1 & H2). by rewrite (proj2 (Z.eqb_neq _ _) H1), (proj2 (Z.eqb_neq _ _) H2).
    - apply (percent_decode_literal _ _ []); [by apply List.Forall_cons| |simpl; lia].
      cbn [mem_byte existsb]. change (PERCENT =? SLASH) with false. apply mem_byte_false.
      eapply Forall_impl; [exact Hq|]. intros c (H1 & _). unfold isnt. by rewrite (proj2 (Z.eqb_neq _ _) H1).
    - unfold validate_segments. change (SLASH =? SLASH) with true. cbn iota.
      apply (segment_loop_join mount [name] HTTP_STATIC_PATH_MAX_SEGMENTS);
        [by apply Forall_singleton | unfold HTTP_STATIC_PATH_MAX_SEGMENTS; simpl; lia].
    - simpl. lia. }
  eexists. split; [exact Hok|]. split.
  - apply resolve_confined in Hok as [-> _]; [|done]. f_equal. unfold segments.
    change (SLASH =? SLASH) with true. cbn iota. destruct name as [|c name]; [done|].
    rewrite split_on_none by done. done.
  - unfold http_static_path_is_hidden. apply not_true_is_false. rewrite existsb_exists.
    intros (g & Hg & Hmatch). rewrite List.Forall_forall in Hglobs. specialize (Hglobs g Hg).
    rewrite Hlaw in Hmatch; [done| |done]. apply mem_byte_false.
    unfold c_str. apply take_while_Forall. by apply mem_byte_false.
Qed.

(** A matcher with [FNM_PATHNAME] semantics for literals, [?] and [*]. *)
Fixpoint glob_match (fuel : nat) (g s : bytes) : bool :=
  match fuel with
  | O => false
  | S f =>
      match g, s with
      | [], [] => true
      | [], _ => false
      | c :: g', _ =>
          if c =? STAR then
            glob_match f g' s || match s with x :: s' => negb (x =? SLASH) && glob_match f g s' | [] => false end
          else match s with
               | x :: s' => (if c =? QUESTION then negb (x =? SLASH) else c =? x) && glob_match f g' s'
               | [] => false
               end
      end
  end.

Definition demo_fnmatch : Fnmatch := fun g s => glob_match (length g + length s + 1) g s.

Lemma glob_match_slash fuel g s :
  mem_byte SLASH g = false -> mem_byte SLASH s = true -> glob_match fuel g s = false.
Proof.
  revert g s. induction fuel as [|fuel IH]; intros g s Hg Hs; [done|].
  destruct g as [|c g]; [by destruct s|].
  pose proof Hg as Hg0. cbn [mem_byte existsb] in Hg. apply orb_false_iff in Hg as [Hc Hg].
  destruct s as [|x s]; [done|]. cbn [mem_byte existsb] in Hs. cbn [glob_match].
  destruct (x =? SLASH) eqn:Ex.
  - rewrite Z.eqb_eq in Ex. subst x. cbn [negb andb]. rewrite Z.eqb_sym in Hc. rewrite Hc, orb_false_r.
    destruct (c =? STAR); [by apply IH|]. by destruct (c =? QUESTION).
  - rewrite Z.eqb_sym, Ex in Hs. cbn [orb] in Hs.
    assert (mem_byte SLASH (x :: s) = true) as Hs' by (cbn [mem_byte existsb]; rewrite (Z.eqb_sym SLASH), Ex; done).
    rewrite !IH by done. rewrite andb_false_r, andb_false_r. by destruct (c =? STAR).
Qed.

Definition demo_mount : http_static_handler_t :=
  {| url_prefix := lit "/static/"; root_directory := lit "/srv/www"; flags := 1; hide_globs := [lit "*.key"] |}.


Lemma demo_plain s :
  forallb (fun c => (0 <? c) && (c <? 256) && negb (c =? BACKSLASH) && negb (c =? SLASH)) s = true ->
  hd 0 s <> DOT -> s <> [] -> plain_segment s.
Proof.
  intros H Hh Hne. rewrite forallb_forall in H. unfold plain_segment, good_segment. split_and!; try done.
  - by intros ->.
  - by intros ->.
  - apply mem_byte_false, List.Forall_forall. intros c Hc. specialize (H c Hc). b2p.
    unfold isnt. by apply negb_true_iff, Z.eqb_neq.
  - apply List.Forall_forall. intros c Hc. specialize (H c Hc). b2p. unfold is_byte. lia.
  - apply List.Forall_forall. intros c Hc. specialize (H c Hc). b2p. unfold safe_byte. lia.
Qed.

Lemma http_static_path_reaches_witness :
  http_static_path_resolve demo_mount (lit "/static/" ++ percent_encode (lit "img/logo.png")) 4096 =
  ROk (lit "/srv/www/img/logo.png") (lit "img/logo.png").
Proof.
  apply (http_static_path_reaches demo_mount [lit "img"; lit "logo.png"] 4096).
  - reflexivity.
  - simpl; lia.
  - repeat (apply List.Forall_cons; [by apply demo_plain|]). apply List.Forall_nil.
  - apply Nat.ltb_lt. vm_compute. reflexivity.
  - apply Nat.leb_le. vm_compute. reflexivity.
Defined.

Lemma http_static_path_hide_bypass_witness :
  exists out, http_static_path_resolve demo_mount (lit "/static//server.key") 4096 = ROk out (lit "/server.key") /\
    resolve_path out = resolve_path (lit "/srv/www") ++ [lit "server.key"] /\
    @http_static_path_is_hidden demo_fnmatch demo_mount (lit "/server.key") = false.
Proof.
  apply (@http_static_path_hide_bypass demo_fnmatch demo_mount (lit "server.key") 4096).
  - intros g s Hg Hs. by apply glob_match_slash.
  - reflexivity.
  - done.
  - apply List.Forall_cons; [reflexivity | apply List.Forall_nil].
  - vm_compute. reflexivity.
  - by apply demo_plain.
  - repeat (apply List.Forall_cons; [split_and!; discriminate|]). apply List.Forall_nil.
  - apply Nat.ltb_lt. vm_compute. reflexivity.
  - apply Nat.leb_le. vm_compute. reflexivity.
Defined.
End StaticPath.
