(* ===== verification/BodyStream.v ===== *)
(** * Streamed request bodies

    Models src/src/http_body_stream.c (the chunk queue, its end-of-stream and error
    marks, and the flow-control credit returned as the handler drains it), the
    HTTP/2 producer in src/src/http2/http2_session.c (content-length policy, DATA
    chunks, buffered-to-stream upgrade, end of body), the teardown of a stream in
    src/src/http2/http2_stream.c and [HttpRequest::readBody] of
    src/src/http_request.c.

    A handler coroutine that suspends is a value of [reader_t]: parked on an event,
    or woken by it and not yet resumed.  [nghttp2_session_consume] is a library
    call; what the code passes to it is summed in [granted]. *)

From S2P Require Import Prelude.

Module BodyStream.

(** Where a suspended reader continues. *)
Inductive wait_point :=
  | AtBodyEvent
  | AtDataEvent
  | AtMessage.

Inductive reader_t :=
  | Idle
  | Parked (p : wait_point)
  | Woken (p : wait_point).

Record http_request_t := MkReq {
  content_length : Z;
  grpc_mode : Z;
  body : option bytes;
  complete : bool;
  body_streaming : bool;
  body_upgrade_to_stream : bool;
  body_eof : bool;
  body_error : bool;
  body_queue : list bytes;
  body_bytes_queued : Z;
  body_bytes_consumed : Z;
  body_precredited : Z;
  body_data_event : bool;
  body_h2_session : bool;
  request_body_buf : option bytes;
  granted : Z;
  reader : reader_t;
}.

Section setters.
Variable r : http_request_t.
Definition set_body b := MkReq (content_length r) (grpc_mode r) b (complete r) (body_streaming r)
  (body_upgrade_to_stream r) (body_eof r) (body_error r) (body_queue r) (body_bytes_queued r)
  (body_bytes_consumed r) (body_precredited r) (body_data_event r) (body_h2_session r) (request_body_buf r)
  (granted r) (reader r).
Definition set_complete b := MkReq (content_length r) (grpc_mode r) (body r) b (body_streaming r)
  (body_upgrade_to_stream r) (body_eof r) (body_error r) (body_queue r) (body_bytes_queued r)
  (body_bytes_consumed r) (body_precredited r) (body_data_event r) (body_h2_session r) (request_body_buf r)
  (granted r) (reader r).
Definition set_mode (streaming upgrade : bool) := MkReq (content_length r) (grpc_mode r) (body r) (complete r) streaming
  upgrade (body_eof r) (body_error r) (body_queue r) (body_bytes_queued r)
  (body_bytes_consumed r) (body_precredited r) (body_data_event r) (body_h2_session r) (request_body_buf r)
  (granted r) (reader r).
Definition set_end (eof error : bool) := MkReq (content_length r) (grpc_mode r) (body r) (complete r) (body_streaming r)
  (body_upgrade_to_stream r) eof error (body_queue r) (body_bytes_queued r)
  (body_bytes_consumed r) (body_precredited r) (body_data_event r) (body_h2_session r) (request_body_buf r)
  (granted r) (reader r).
Definition set_queue (q : list bytes) (queued consumed : Z) := MkReq (content_length r) (grpc_mode r) (body r) (complete r)
  (body_streaming r) (body_upgrade_to_stream r) (body_eof r) (body_error r) q queued
  consumed (body_precredited r) (body_data_event r) (body_h2_session r) (request_body_buf r)
  (granted r) (reader r).
Definition set_precredited (n : Z) := MkReq (content_length r) (grpc_mode r) (body r) (complete r) (body_streaming r)
  (body_upgrade_to_stream r) (body_eof r) (body_error r) (body_queue r) (body_bytes_queued r)
  (body_bytes_consumed r) n (body_data_event r) (body_h2_session r) (request_body_buf r)
  (granted r) (reader r).
Definition set_event (b : bool) := MkReq (content_length r) (grpc_mode r) (body r) (complete r) (body_streaming r)
  (body_upgrade_to_stream r) (body_eof r) (body_error r) (body_queue r) (body_bytes_queued r)
  (body_bytes_consumed r) (body_precredited r) b (body_h2_session r) (request_body_buf r)
  (granted r) (reader r).
Definition set_session (b : bool) := MkReq (content_length r) (grpc_mode r) (body r) (complete r) (body_streaming r)
  (body_upgrade_to_stream r) (body_eof r) (body_error r) (body_queue r) (body_bytes_queued r)
  (body_bytes_consumed r) (body_precredited r) (body_data_event r) b (request_body_buf r)
  (granted r) (reader r).
Definition set_buf (b : option bytes) := MkReq (content_length r) (grpc_mode r) (body r) (complete r) (body_streaming r)
  (body_upgrade_to_stream r) (body_eof r) (body_error r) (body_queue r) (body_bytes_queued r)
  (body_bytes_consumed r) (body_precredited r) (body_data_event r) (body_h2_session r) b
  (granted r) (reader r).
(** [nghttp2_session_consume(ng, stream_id, n)]. *)
Definition session_consume (n : Z) := MkReq (content_length r) (grpc_mode r) (body r) (complete r) (body_streaming r)
  (body_upgrade_to_stream r) (body_eof r) (body_error r) (body_queue r) (body_bytes_queued r)
  (body_bytes_consumed r) (body_precredited r) (body_data_event r) (body_h2_session r) (request_body_buf r)
  (granted r + n) (reader r).
Definition set_reader (x : reader_t) := MkReq (content_length r) (grpc_mode r) (body r) (complete r) (body_streaming r)
  (body_upgrade_to_stream r) (body_eof r) (body_error r) (body_queue r) (body_bytes_queued r)
  (body_bytes_consumed r) (body_precredited r) (body_data_event r) (body_h2_session r) (request_body_buf r)
  (granted r) x.
End setters.

Definition zlen (s : bytes) : Z := Z.of_nat (length s).

(** ** The queue *)

(** Firing [body_data_event] wakes the coroutine suspended on it. *)
Definition fire_data_event (req : http_request_t) : http_request_t :=
  if body_data_event req then
    match reader req with
    | Parked AtDataEvent => set_reader req (Woken AtDataEvent)
    | Parked AtMessage => set_reader req (Woken AtMessage)
    | _ => req
    end
  else req.

(** The event is allocated on first use; the allocator never returns [NULL]. *)
Definition ensure_data_event (req : http_request_t) : bool * http_request_t :=
  if body_data_event req then (true, req) else (true, set_event req true).

Definition http_body_stream_push (req : http_request_t) (data : bytes) : bool * http_request_t :=
  let '(ok, req) := ensure_data_event req in
  if negb ok then (false, set_end req (body_eof req) true)
  else
    let req := set_queue req (body_queue req ++ [data]) (u64 (body_bytes_queued req + zlen data))
                 (body_bytes_consumed req) in
    (true, fire_data_event req).

Definition http_body_stream_close (req : http_request_t) : http_request_t :=
  if body_eof req then req else fire_data_event (set_end req true (body_error req)).

Definition http_body_stream_error (req : http_request_t) : http_request_t :=
  http_body_stream_close (set_end req (body_eof req) true).

Definition http_body_stream_pop (req : http_request_t) : option bytes * http_request_t :=
  match body_queue req with
  | [] => (None, req)
  | data :: q =>
      let req := set_queue req q (u64 (body_bytes_queued req - zlen data)) (u64 (body_bytes_consumed req + zlen data)) in
      let skip := if 0 <? body_precredited req then
                    (if zlen data <? body_precredited req then zlen data else body_precredited req)
                  else 0 in
      let req := set_precredited req (body_precredited req - skip) in
      let credit := zlen data - skip in
      (Some data, if body_h2_session req && (0 <? credit) then session_consume req credit else req)
  end.

Definition http_body_stream_dispose (req : http_request_t) : http_request_t :=
  set_event (set_queue req [] 0 (body_bytes_consumed req)) false.

(** ** The HTTP/2 producer *)

Definition HTTP_BODY_STREAM_THRESHOLD : Z := 64 * 1024.
Definition HTTP_BODY_STREAM_AUTO_THRESHOLD : Z := 1 * 1024 * 1024.
Definition HTTP2_MAX_BODY_SIZE : Z := 10 * 1024 * 1024.
Definition GRPC_MODE_NONE : Z := 0.
Definition GRPC_MODE_NATIVE : Z := 1.
Definition GRPC_MODE_WEB : Z := 2.
Definition GRPC_MODE_WEB_TEXT : Z := 3.

Definition http_request_body_must_buffer (req : http_request_t) : bool := grpc_mode req =? GRPC_MODE_WEB_TEXT.
Definition http_request_body_size_uncapped (req : http_request_t) : bool := negb (grpc_mode req =? GRPC_MODE_NONE).

(** A request as [http2_stream_new] makes it, after its headers were parsed. *)
Definition http2_stream_new (clen mode : Z) : http_request_t :=
  MkReq clen mode None false false false false false [] 0 0 0 false true None 0 Idle.

(** The dispatch part of [cb_on_frame_recv]. *)
Definition body_policy (body_streaming_enabled : bool) (r : http_request_t) : http_request_t :=
  if body_streaming_enabled && negb (http_request_body_must_buffer r) then
    if (content_length r =? 0) || (HTTP_BODY_STREAM_AUTO_THRESHOLD <=? content_length r) then
      set_mode r true (body_upgrade_to_stream r)
    else if HTTP_BODY_STREAM_THRESHOLD <=? content_length r then set_mode r (body_streaming r) true
    else r
  else r.

Definition http2_request_body_upgrade (req : http_request_t) : http_request_t :=
  if body_streaming req || complete req then req
  else
    let req :=
      match request_body_buf req with
      | Some initial =>
          if 0 <? zlen initial then
            let req := set_buf req None in
            let req := set_precredited req (body_precredited req + zlen initial) in
            snd (http_body_stream_push req initial)
          else req
      | None => req
      end in
    set_mode req true (body_upgrade_to_stream req).

Definition body_cap (max_body_size : Z) : Z := if max_body_size =? 0 then HTTP2_MAX_BODY_SIZE else max_body_size.

(** A DATA chunk of a stream that is not a WebSocket tunnel; [oom] is the memory
    limit bailing out of the append.  [false] is
    [NGHTTP2_ERR_TEMPORAL_CALLBACK_FAILURE]. *)
Definition cb_on_data_chunk_recv (max_body_size : Z) (oom : bool) (data : bytes) (req : http_request_t)
    : bool * http_request_t :=
  let cap := body_cap max_body_size in
  let len := zlen data in
  if body_streaming req then
    if (cap <? u64 (body_bytes_queued req + len))
       || (negb (http_request_body_size_uncapped req)
           && (cap <? u64 (body_bytes_consumed req + body_bytes_queued req + len)))
    then (false, req)
    else http_body_stream_push req data
  else
    let current := match request_body_buf req with Some s => zlen s | None => 0 end in
    if (UINT64_MAX - current <? len) || (cap <? current + len) then (false, req)
    else if oom then (false, req)
    else
      let req := set_buf req (Some (default [] (request_body_buf req) ++ data)) in
      (true, session_consume req len).

(** Firing [body_event]; it exists once a reader suspended on it. *)
Definition fire_body_event (req : http_request_t) : http_request_t :=
  match reader req with
  | Parked AtBodyEvent => set_reader req (Woken AtBodyEvent)
  | _ => req
  end.

Definition finalize_request_body (req : http_request_t) : http_request_t :=
  if body_streaming req then fire_body_event (set_complete (http_body_stream_close req) true)
  else
    let req := match request_body_buf req with
               | Some s => set_buf (set_body req (Some s)) None
               | None => req
               end in
    fire_body_event (set_complete req true).

(** The request's share of [http2_stream_release]. *)
Definition http2_stream_release (req : http_request_t) : http_request_t :=
  if body_h2_session req then
    let req := set_session req false in
    if body_streaming req && negb (complete req) then http_body_stream_error req else req
  else req.

(** ** readBody *)

Inductive read_result :=
  | RStr (s : bytes)
  | RNull
  | RThrow
  | RSuspend.

(** Handing out the buffered body, once. *)
Definition take_body (req : http_request_t) : read_result * http_request_t :=
  match body req with
  | Some s => if 0 <? zlen s then (RStr s, set_body req None) else (RNull, req)
  | None => (RNull, req)
  end.

(** One round of the pop/park loop; [in_coroutine] is false on the main stack and
    in the scheduler. *)
Definition pop_or_park (in_coroutine : bool) (req : http_request_t) : read_result * http_request_t :=
  match http_body_stream_pop req with
  | (Some chunk, req) => (RStr chunk, req)
  | (None, req) =>
      if body_eof req then (if body_error req then (RThrow, req) else (RNull, req))
      else
        let req := set_event req true in
        if negb in_coroutine then (RNull, req) else (RSuspend, set_reader req (Parked AtDataEvent))
  end.

Definition readBody (in_coroutine : bool) (req : http_request_t) : read_result * http_request_t :=
  if negb (body_streaming req) && complete req then take_body req
  else if negb (body_streaming req) && negb (body_upgrade_to_stream req) then
    if negb in_coroutine then (RNull, req) else (RSuspend, set_reader req (Parked AtBodyEvent))
  else
    let req := if negb (body_streaming req) && body_upgrade_to_stream req
               then http2_request_body_upgrade req else req in
    pop_or_park in_coroutine req.

(** Resuming a woken reader; a cancelled coroutine returns with its exception. *)
Definition readBody_resume (cancelled : bool) (req : http_request_t) : read_result * http_request_t :=
  let p := reader req in
  let req := set_reader req Idle in
  if cancelled then (RThrow, req)
  else match p with
       | Woken AtBodyEvent => take_body req
       | _ => pop_or_park true req
       end.

(** ** Histories

    What can happen to one HTTP/2 request: [received] is the body bytes the
    transport accepted, [delivered] what readBody handed to the handler.  The
    transport sends no DATA after the end of the body or the death of the stream;
    a reader starts only when it is not suspended, resumes when woken, and may be
    cancelled while it waits. *)

Definition chunk_of (res : read_result) : bytes := match res with RStr s => s | _ => [] end.

Section reach.
Variables (enabled : bool) (max_body_size clen mode : Z).

Inductive reach : bytes -> bytes -> http_request_t -> Prop :=
  | reach_start : reach [] [] (body_policy enabled (http2_stream_new clen mode))
  | reach_data rcv dlv req req' oom data :
      reach rcv dlv req -> complete req = false -> body_h2_session req = true -> zlen data < 2 ^ 63 ->
      cb_on_data_chunk_recv max_body_size oom data req = (true, req') ->
      reach (rcv ++ data) dlv req'
  | reach_data_refused rcv dlv req req' oom data :
      reach rcv dlv req -> complete req = false -> body_h2_session req = true ->
      cb_on_data_chunk_recv max_body_size oom data req = (false, req') ->
      reach rcv dlv req'
  | reach_end rcv dlv req :
      reach rcv dlv req -> complete req = false -> body_h2_session req = true ->
      reach rcv dlv (finalize_request_body req)
  | reach_release rcv dlv req :
      reach rcv dlv req -> reach rcv dlv (http2_stream_release req)
  | reach_read rcv dlv req req' co res :
      reach rcv dlv req -> reader req = Idle -> readBody co req = (res, req') ->
      reach rcv (dlv ++ chunk_of res) req'
  | reach_resume rcv dlv req req' p c res :
      reach rcv dlv req -> reader req = Woken p -> readBody_resume c req = (res, req') ->
      reach rcv (dlv ++ chunk_of res) req'
  | reach_cancel rcv dlv req req' p res :
      reach rcv dlv req -> reader req = Parked p -> readBody_resume true req = (res, req') ->
      reach rcv (dlv ++ chunk_of res) req'.
End reach.

(** ** The invariant *)

Definition qbytes (req : http_request_t) : bytes := concat (body_queue req).

Record inv (cap : Z) (rcv dlv : bytes) (req : http_request_t) : Prop := {
  inv_bytes : rcv = dlv ++ qbytes req ++ default [] (request_body_buf req) ++ default [] (body req);
  inv_queued : body_bytes_queued req = zlen (qbytes req);
  inv_cap : zlen (qbytes req) <= cap /\ zlen (default [] (request_body_buf req)) <= cap;
  inv_capped : grpc_mode req = GRPC_MODE_NONE -> zlen rcv <= cap;
  inv_credit : 0 <= body_precredited req <= zlen (qbytes req) /\
    (body_h2_session req = true -> granted req = zlen rcv - (zlen (qbytes req) - body_precredited req));
  inv_buffered : body_streaming req = false ->
    body_queue req = [] /\ body_bytes_consumed req = 0 /\ body_eof req = false /\
    (if complete req then request_body_buf req = None else body req = None /\ dlv = []);
  inv_streaming : body_streaming req = true ->
    body req = None /\ default [] (request_body_buf req) = [] /\
    body_bytes_consumed req = u64 (zlen dlv) /\ (complete req = true -> body_eof req = true);
  inv_eof : (body_error req = true -> body_eof req = true) /\
    (body_eof req = true -> body_error req = false -> complete req = true);
  inv_reader : match reader req with
    | Idle => True
    | Parked AtBodyEvent => complete req = false /\ body_streaming req = false
    | Parked _ => body_queue req = [] /\ body_eof req = false /\ body_streaming req = true /\ body_data_event req = true
    | Woken AtBodyEvent => complete req = true /\ body_streaming req = false
    | Woken _ => body_streaming req = true
    end;
}.

Lemma zlen_app a b : zlen (a ++ b) = zlen a + zlen b.
Proof. unfold zlen. rewrite length_app. lia. Qed.

Lemma zlen_nonneg a : 0 <= zlen a.
Proof. unfold zlen. lia. Qed.

Lemma zlen_zero a : zlen a = 0 -> a = [].
Proof. unfold zlen. destruct a; simpl; [done|lia]. Qed.

Lemma qbytes_snoc (q : list bytes) (d : bytes) : concat (q ++ [d]) = concat q ++ d.
Proof. rewrite concat_app. cbn [concat]. by rewrite app_nil_r. Qed.

(** Records with their fields computed. *)
Ltac req_simpl :=
  cbn [content_length grpc_mode body complete body_streaming body_upgrade_to_stream body_eof body_error body_queue
       body_bytes_queued body_bytes_consumed body_precredited body_data_event body_h2_session request_body_buf granted
       reader set_body set_complete set_mode set_end set_queue set_precredited set_event set_session set_buf
       session_consume set_reader from_option id] in *.

(** Firing the data event only changes the reader, from parked to woken. *)
Lemma fire_data_inv cap rcv dlv req :
  inv cap rcv dlv (set_reader req Idle) ->
  match reader req with
  | Idle => True
  | Parked AtBodyEvent => complete req = false /\ body_streaming req = false
  | Woken AtBodyEvent => complete req = true /\ body_streaming req = false
  | Parked _ => body_streaming req = true /\ body_data_event req = true
  | Woken _ => body_streaming req = true
  end ->
  inv cap rcv dlv (fire_data_event req).
Proof.
  intros [] H. unfold fire_data_event. destruct req as [????????????????[|[]|[]]]; req_simpl;
    repeat match goal with |- context [if ?b then _ else _] => destruct b end; req_simpl; try (by split; intuition).
  all: destruct H as [? ?]; done.
Qed.

Lemma push_eq req data :
  http_body_stream_push req data =
  (true, fire_data_event (set_queue (set_event req true) (body_queue req ++ [data])
           (u64 (body_bytes_queued req + zlen data)) (body_bytes_consumed req))).
Proof.
  unfold http_body_stream_push, ensure_data_event. destruct req as [????????????[] ????]; req_simpl; done.
Qed.

Lemma inv_idle cap rcv dlv req : inv cap rcv dlv req -> inv cap rcv dlv (set_reader req Idle).
Proof. intros []. destruct req. req_simpl. by split. Qed.

Lemma data_streaming_inv cap rcv dlv req data :
  0 <= cap < 2 ^ 63 -> zlen data < 2 ^ 63 -> inv cap rcv dlv req ->
  body_streaming req = true ->
  u64 (body_bytes_queued req + zlen data) <= cap ->
  (grpc_mode req = GRPC_MODE_NONE -> u64 (body_bytes_consumed req + body_bytes_queued req + zlen data) <= cap) ->
  inv cap (rcv ++ data) dlv (snd (http_body_stream_push req data)).
Proof.
  intros Hcap Hlen H Hs Hq Hc. rewrite push_eq. cbn [snd].
  pose proof (zlen_nonneg data). pose proof (zlen_nonneg dlv). pose proof (zlen_nonneg (qbytes req)).
  pose proof H as [Hb Hqd [Hq1 Hq2] Hcd [Hcr1 Hcr2] _ Hst Heof Hr].
  destruct (Hst Hs) as (Hbody & Hbuf & Hcons & Hcomp). rewrite Hbody, Hbuf in Hb. cbn [from_option id app] in Hb.
  rewrite !app_nil_r in Hb.
  rewrite Hqd in *. rewrite u64_small in Hq by lia.
  assert (zlen rcv = zlen dlv + zlen (qbytes req)) as Hrcv by (rewrite Hb; by rewrite zlen_app).
  apply fire_data_inv.
  - unfold qbytes in *. destruct req. req_simpl. subst body0 body_streaming0. split; req_simpl; unfold qbytes; req_simpl;
      rewrite ?qbytes_snoc, ?zlen_app; try done; try lia.
    + rewrite Hb, Hbuf. cbn [from_option id app]. by rewrite !app_nil_r, app_assoc.
    + rewrite u64_small by lia. done.
    + intros Hm. specialize (Hcd Hm). specialize (Hc Hm). rewrite Hcons in Hc.
      rewrite (u64_small (zlen dlv)) in Hc by lia. rewrite u64_small in Hc by lia. lia.
    + split; [lia|]. intros Hses. rewrite (Hcr2 Hses). lia.
  - destruct req as [????????????????[|[]|[]]]; req_simpl; tauto.
Qed.

Lemma data_inv mbs oom rcv dlv req req' data :
  0 <= mbs < 2 ^ 63 -> zlen data < 2 ^ 63 -> complete req = false -> inv (body_cap mbs) rcv dlv req ->
  cb_on_data_chunk_recv mbs oom data req = (true, req') -> inv (body_cap mbs) (rcv ++ data) dlv req'.
Proof.
  intros Hm Hlen Hnc H. assert (0 <= body_cap mbs < 2 ^ 63) as Hcap.
  { unfold body_cap, HTTP2_MAX_BODY_SIZE. destruct (mbs =? 0) eqn:E; b2p; lia. }
  unfold cb_on_data_chunk_recv. destruct (body_streaming req) eqn:Es.
  - destruct (_ || _) eqn:Eg; [done|]. apply orb_false_iff in Eg as [Eg1 Eg2]. b2p.
    intros E. replace req' with (snd (http_body_stream_push req data)) by (by rewrite E).
    apply data_streaming_inv; try done.
    intros Hmode. unfold http_request_body_size_uncapped in Eg2. rewrite Hmode in Eg2. cbn in Eg2. by b2p.
  - destruct (_ || _) eqn:Eg; [done|]. destruct oom; [done|]. intros [= <-]. b2p.
    pose proof H as [Hb Hqd [Hq1 Hq2] Hcd [Hcr1 Hcr2] Hbf _ Heof Hr]. specialize (Hbf Es).
    destruct Hbf as (Hq & Hcons & Hnoeof & Hbf). rewrite Hnc in Hbf. destruct Hbf as [Hbody ->].
    assert (zlen (default [] (request_body_buf req)) + zlen data <= body_cap mbs) as Hcur.
    { destruct (request_body_buf req); cbn [from_option id app] in *; unfold zlen in *; simpl in *; lia. }
    unfold qbytes in *. destruct req. req_simpl. subst. cbn [concat app] in *.
    split; req_simpl; unfold qbytes; req_simpl; rewrite ?zlen_app, ?app_nil_r in *; try done; try lia.
    + change (zlen []) with 0. lia.
    + cbn [concat]. change (zlen []) with 0 in *. split; [lia|]. intros Hses. specialize (Hcr2 Hses). lia.
Qed.

Lemma close_inv cap rcv dlv req :
  inv cap rcv dlv req -> body_streaming req = true ->
  inv cap rcv dlv (set_complete (http_body_stream_close req) true).
Proof.
  intros H Hs. unfold http_body_stream_close.
  destruct (body_eof req) eqn:E.
  - destruct H. destruct req as [????????????????[|[]|[]]]; req_simpl; split; req_simpl; try done; intuition congruence.
  - destruct H. unfold fire_data_event.
    destruct req as [????????????[] ???[|[]|[]]]; req_simpl; split; req_simpl; try done; intuition congruence.
Qed.

Lemma finalize_inv cap rcv dlv req :
  inv cap rcv dlv req -> complete req = false -> inv cap rcv dlv (finalize_request_body req).
Proof.
  intros H Hnc. unfold finalize_request_body. destruct (body_streaming req) eqn:Es.
  - pose proof (close_inv _ _ _ _ H Es) as Hc.
    assert (body_streaming (set_complete (http_body_stream_close req) true) = true) as Hs.
    { unfold http_body_stream_close, fire_data_event.
      destruct req as [??????[] ?????[] ???[|[]|[]]]; req_simpl; done. }
    unfold fire_body_event. destruct (reader (set_complete _ _)) as [|[]|[]] eqn:Er; try done.
    pose proof (inv_reader _ _ _ _ Hc) as Hr. rewrite Er in Hr. destruct Hr as [_ Hr]. congruence.
  - destruct H as [Hb Hqd [Hq1 Hq2] Hcd [Hcr1 Hcr2] Hbf _ Heof Hr]. specialize (Hbf Es). rewrite Hnc in Hbf.
    destruct Hbf as (Hq & Hcons & Hnoeof & Hbody & ->). unfold fire_body_event, qbytes in *.
    destruct req as [??????????????[buf|] ?[|[]|[]]]; req_simpl; subst; req_simpl;
      split; unfold qbytes; req_simpl; rewrite ?app_nil_r in *; cbn [concat app] in *; try done; try tauto; try intuition congruence.
Qed.

Lemma error_inv cap rcv dlv req :
  inv cap rcv dlv req -> body_streaming req = true -> inv cap rcv dlv (http_body_stream_error req).
Proof.
  intros [] Hs. unfold http_body_stream_error, http_body_stream_close, fire_data_event.
  destruct req as [??????[] ?????[] ???[|[]|[]]]; req_simpl; split; req_simpl; try done; intuition congruence.
Qed.

Lemma sever_inv cap rcv dlv req : inv cap rcv dlv req -> inv cap rcv dlv (set_session req false).
Proof. intros []. destruct req; req_simpl. split; req_simpl; try done. by destruct inv_credit0. Qed.

Lemma release_inv cap rcv dlv req : inv cap rcv dlv req -> inv cap rcv dlv (http2_stream_release req).
Proof.
  intros H. unfold http2_stream_release. destruct (body_h2_session req); [|done].
  destruct (_ && _) eqn:E; [|by apply sever_inv]. b2p. apply error_inv; [by apply sever_inv | done].
Qed.

(** Popping moves the head of the queue to the handler and returns the credit
    that was not returned before. *)
Lemma pop_inv cap rcv dlv req data req' :
  cap < 2 ^ 63 -> inv cap rcv dlv req -> body_streaming req = true -> reader req = Idle ->
  http_body_stream_pop req = (Some data, req') ->
  inv cap rcv (dlv ++ data) req' /\ body_streaming req' = true /\ reader req' = Idle.
Proof.
  intros Hcap H Hs Hi E.
  destruct H as [Hb Hqd [Hq1 Hq2] Hcd [Hcr1 Hcr2] _ Hst Heof _].
  specialize (Hst Hs). destruct Hst as (Hbody & Hbuf & Hcons & Hcomp).
  unfold http_body_stream_pop in E. destruct (body_queue req) as [|d q] eqn:Eq; [done|].
  assert (qbytes req = d ++ concat q) as Eqb by (unfold qbytes; by rewrite Eq).
  pose proof (zlen_nonneg d). pose proof (zlen_nonneg (concat q)).
  rewrite Eqb in *. rewrite !zlen_app in *. rewrite Hbody, Hbuf in Hb. cbn [from_option id app] in Hb.
  set (skip := if 0 <? body_precredited _ then _ else _) in E.
  assert (skip = Z.min (zlen d) (body_precredited req)) as Hskip.
  { subst skip. req_simpl. destruct (Z.ltb_spec 0 (body_precredited req)); [|lia].
    destruct (Z.ltb_spec (zlen d) (body_precredited req)); lia. }
  clearbody skip. injection E as <- <-.
  assert (granted req + (if body_h2_session req && (0 <? zlen d - skip) then zlen d - skip else 0) =
    granted req + (if body_h2_session req then zlen d - skip else 0)) as Hgr.
  { destruct (body_h2_session req); cbn [andb]; [|done]. destruct (Z.ltb_spec 0 (zlen d - skip)); lia. }
  assert (forall g, g = granted req + (if body_h2_session req then zlen d - skip else 0) ->
    inv cap rcv (dlv ++ d) (MkReq (content_length req) (grpc_mode req) (body req) (complete req) (body_streaming req)
      (body_upgrade_to_stream req) (body_eof req) (body_error req) q (u64 (body_bytes_queued req - zlen d))
      (u64 (body_bytes_consumed req + zlen d)) (body_precredited req - skip) (body_data_event req)
      (body_h2_session req) (request_body_buf req) g (reader req))) as Hinv.
  { intros g Hg. unfold qbytes in *. destruct req; req_simpl. subst.
    split; unfold qbytes; req_simpl; rewrite ?zlen_app in *; try done; try lia.
    - rewrite Hbuf. cbn [from_option id]. by rewrite !app_nil_r, <- !app_assoc.
    - rewrite u64_small; rewrite ?zlen_app; lia.
    - split; [lia|]. intros ->. specialize (Hcr2 eq_refl). lia.
    - intros _. split_and!; try done. unfold u64. apply Zplus_mod_idemp_l. }
  destruct (body_h2_session req && _) eqn:Eh; unfold set_precredited, set_queue, session_consume in *; req_simpl;
    rewrite ?Eh in Hgr.
  - split; [|split; [exact Hs | exact Hi]]. apply Hinv. lia.
  - split; [|split; [exact Hs | exact Hi]]. apply Hinv. rewrite <- Hgr. lia.
Qed.

Lemma event_inv cap rcv dlv req : inv cap rcv dlv req -> inv cap rcv dlv (set_event req true).
Proof.
  intros []. destruct req as [????????????????[|[]|[]]]; req_simpl; split; req_simpl; try done; tauto.
Qed.

Lemma pop_or_park_inv cap rcv dlv co req res req' :
  cap < 2 ^ 63 -> inv cap rcv dlv req -> body_streaming req = true -> reader req = Idle ->
  pop_or_park co req = (res, req') -> inv cap rcv (dlv ++ chunk_of res) req'.
Proof.
  intros Hcap H Hs Hi. unfold pop_or_park. destruct (http_body_stream_pop req) as [[d|] r] eqn:Ep.
  - intros [= <- <-]. eapply pop_inv in Ep as [? _]; done.
  - unfold http_body_stream_pop in Ep. destruct (body_queue req) as [|d q] eqn:Eq; [|by case_if_in Ep].
    injection Ep as <-. destruct (body_eof req) eqn:Ee.
    + destruct (body_error req); intros [= <- <-]; cbn [chunk_of]; by rewrite app_nil_r.
    + destruct co; cbn [negb]; intros [= <- <-]; cbn [chunk_of]; rewrite app_nil_r; [|by apply event_inv].
      apply event_inv in H. destruct H. destruct req; req_simpl. by split.
Qed.

Lemma upgrade_inv cap rcv dlv req :
  0 <= cap < 2 ^ 63 -> inv cap rcv dlv req -> reader req = Idle ->
  inv cap rcv dlv (http2_request_body_upgrade req) /\ reader (http2_request_body_upgrade req) = Idle.
Proof.
  intros Hcap H Hi. unfold http2_request_body_upgrade. destruct (_ || _) eqn:E; [done|]. b2p.
  destruct H as [Hb Hqd [Hq1 Hq2] Hcd [Hcr1 Hcr2] Hbf _ Heof _]. destruct (Hbf H0) as (Hq & Hcons & Hnoeof & Hbf').
  rewrite H1 in Hbf'. destruct Hbf' as [Hbody ->]. unfold qbytes in *.
  assert (default [] (request_body_buf req) = [] ->
    inv cap rcv [] (set_mode req true (body_upgrade_to_stream req))) as Hnone.
  { intros Hbuf. destruct req; req_simpl. subst. split; req_simpl; unfold qbytes; req_simpl; try done. }
  destruct (request_body_buf req) as [ini|] eqn:Eb.
  2: { split; [by apply Hnone | destruct req; exact Hi]. }
  destruct (Z.ltb_spec 0 (zlen ini)) as [Hpos|Hneg].
  2: { split; [|destruct req; exact Hi]. apply Hnone. cbn. apply zlen_zero. pose proof (zlen_nonneg ini). lia. }
  rewrite push_eq. cbn [snd]. unfold fire_data_event. destruct req; req_simpl. subst. req_simpl.
  cbn [concat app] in *. change (zlen []) with 0 in *. split; [|done]. cbn [from_option id] in *.
  rewrite !app_nil_r in *.
  split; unfold qbytes; req_simpl; cbn [concat]; rewrite ?app_nil_r; try done; try lia.
  - rewrite u64_small by lia. lia.
  - split; [lia|]. intros Hses. specialize (Hcr2 Hses). lia.
Qed.

Lemma take_body_inv cap rcv dlv req res req' :
  inv cap rcv dlv req -> body_streaming req = false -> complete req = true ->
  take_body req = (res, req') -> inv cap rcv (dlv ++ chunk_of res) req'.
Proof.
  intros H Hs Hc. unfold take_body. destruct (body req) as [s|] eqn:Eb; [destruct (0 <? zlen s)|];
    intros [= <- <-]; cbn [chunk_of]; rewrite ?app_nil_r; try done.
  destruct H as [Hb Hqd Hcap Hcd Hcr Hbf _ Heof Hr]. specialize (Hbf Hs). rewrite Hc in Hbf.
  destruct Hbf as (Hq & Hcons & Hnoeof & Hbuf). unfold qbytes in *.
  destruct req; req_simpl. subst. split; req_simpl; unfold qbytes; req_simpl; try done.
  cbn [concat from_option id app]. by rewrite app_nil_r.
Qed.

Lemma readBody_inv cap rcv dlv co req res req' :
  0 <= cap < 2 ^ 63 -> inv cap rcv dlv req -> reader req = Idle ->
  readBody co req = (res, req') -> inv cap rcv (dlv ++ chunk_of res) req'.
Proof.
  intros Hcap H Hi. unfold readBody. destruct (body_streaming req) eqn:Es; cbn [negb andb].
  - apply pop_or_park_inv; [lia|done..].
  - destruct (complete req) eqn:Ec; [by apply take_body_inv|]. destruct (body_upgrade_to_stream req) eqn:Eu.
    + cbn [negb]. destruct (upgrade_inv _ _ _ _ Hcap H Hi) as [Hu Hr]. apply pop_or_park_inv; [lia|done|..|done].
      unfold http2_request_body_upgrade. rewrite Es, Ec. cbn [orb]. by destruct req.
    + cbn [negb]. destruct co; cbn [negb]; intros [= <- <-]; cbn [chunk_of]; rewrite app_nil_r; [|done].
      destruct H. destruct req; req_simpl. by split.
Qed.

Lemma resume_inv cap rcv dlv c req res req' :
  0 <= cap < 2 ^ 63 -> inv cap rcv dlv req ->
  (match reader req with Woken _ => True | Parked _ => c = true | Idle => False end) ->
  readBody_resume c req = (res, req') -> inv cap rcv (dlv ++ chunk_of res) req'.
Proof.
  intros Hcap H Hw. unfold readBody_resume. pose proof (inv_idle _ _ _ _ H) as Hid.
  destruct c; [intros [= <- <-]; cbn [chunk_of]; by rewrite app_nil_r|].
  pose proof (inv_reader _ _ _ _ H) as Hr. destruct (reader req) as [|p|[]] eqn:Er; try done.
  - destruct Hr as [Hc Hs]. apply take_body_inv; by destruct req.
  - apply pop_or_park_inv; [lia|done|by destruct req..].
  - apply pop_or_park_inv; [lia|done|by destruct req..].
Qed.

Lemma start_inv cap enabled clen mode :
  0 <= cap -> inv cap [] [] (body_policy enabled (http2_stream_new clen mode)).
Proof.
  intros Hcap. unfold body_policy, http2_stream_new. repeat case_if; split; req_simpl; unfold qbytes; req_simpl;
    cbn [concat app from_option id]; try done; change (zlen []) with 0; intuition.
Qed.

Lemma reach_inv enabled mbs clen mode rcv dlv req :
  0 <= mbs < 2 ^ 63 -> reach enabled mbs clen mode rcv dlv req -> inv (body_cap mbs) rcv dlv req.
Proof.
  intros Hm. assert (0 <= body_cap mbs < 2 ^ 63) as Hcap.
  { unfold body_cap, HTTP2_MAX_BODY_SIZE. destruct (mbs =? 0) eqn:E; b2p; lia. }
  induction 1 as [|??????? IH|??????? IH|??? ? IH|??? ? IH|?????? ? IH|??????? ? IH|?????? ? IH].
  - apply start_inv. lia.
  - by eapply data_inv.
  - assert (req' = req) as ->; [|done].
    match goal with E : cb_on_data_chunk_recv _ _ _ _ = _ |- _ => unfold cb_on_data_chunk_recv in E;
      rewrite push_eq in E; repeat case_if_in E; congruence end.
  - by apply finalize_inv.
  - by apply release_inv.
  - by eapply readBody_inv.
  - eapply resume_inv; [done|done|..|done]. match goal with E : reader _ = _ |- _ => by rewrite E end.
  - eapply resume_inv; [done|done|..|done]. match goal with E : reader _ = _ |- _ => by rewrite E end.
Qed.


(** C31: Flow-control credit is exact: while the stream lives, the bytes returned
    to the HTTP/2 window are the accepted bytes less those in the queue that were
    not credited before an upgrade.  So no byte is credited twice, none that the
    handler has not drained is credited in streaming mode, and an empty queue means
    full credit. *)
Theorem h2_body_credit_exact (enabled : bool) (mbs clen mode : Z) (rcv dlv : bytes) (req : http_request_t) :
  0 <= mbs < 2 ^ 63 -> reach enabled mbs clen mode rcv dlv req -> body_h2_session req = true ->
  granted req = zlen rcv - (zlen (concat (body_queue req)) - body_precredited req) /\
  0 <= body_precredited req <= zlen (concat (body_queue req)) /\
  (body_queue req = [] -> granted req = zlen rcv).
Proof.
  intros Hm H Hs. apply reach_inv in H as []; [|done]. destruct inv_credit0 as [H1 H2]. specialize (H2 Hs).
  unfold qbytes in *. split_and!; try done; try lia. intros Hq. rewrite Hq in *. change (zlen (concat [])) with 0 in *. lia.
Qed.

(** What a round of readBody that ends in null has seen. *)
Lemma pop_or_park_null cap rcv dlv req req' :
  inv cap rcv dlv req -> body_streaming req = true -> pop_or_park true req = (RNull, req') ->
  rcv = dlv /\ complete req = true.
Proof.
  intros H Hs. unfold pop_or_park, http_body_stream_pop. destruct (body_queue req) as [|d q] eqn:Eq; [|done].
  destruct H. unfold qbytes in *. rewrite Eq in *. destruct (inv_streaming0 Hs) as (Hbody & Hbuf & _ & _).
  destruct (body_eof req) eqn:Ee; [|done]. destruct (body_error req) eqn:Eer; [done|]. intros _. split.
  - rewrite inv_bytes0, Hbody, Hbuf. cbn. by rewrite app_nil_r.
  - by apply inv_eof0.
Qed.

Lemma take_body_null cap rcv dlv req req' :
  inv cap rcv dlv req -> body_streaming req = false -> complete req = true -> take_body req = (RNull, req') ->
  rcv = dlv.
Proof.
  intros [Hb _ _ _ _ Hbf _ _ _] Hs Hc. specialize (Hbf Hs). rewrite Hc in Hbf. destruct Hbf as (Hq & _ & _ & Hbuf).
  unfold qbytes, take_body in *. rewrite Hq, Hbuf in Hb. cbn in Hb.
  destruct (body req) as [s|]; [|cbn in Hb; by rewrite app_nil_r in Hb].
  destruct (Z.ltb_spec 0 (zlen s)); [done|]. intros _. pose proof (zlen_nonneg s).
  rewrite (zlen_zero s) in Hb by lia. cbn in Hb. by rewrite app_nil_r in Hb.
Qed.

(** Null means the end: when readBody, called in or resumed by a coroutine
    that was not cancelled, answers null, the request is complete and the handler
    has received every byte of the body. *)
Theorem h2_readBody_null_is_eof (enabled : bool) (mbs clen mode : Z) (rcv dlv : bytes) (req req' : http_request_t) :
  0 <= mbs < 2 ^ 63 -> reach enabled mbs clen mode rcv dlv req ->
  (reader req = Idle /\ readBody true req = (RNull, req')) \/
  ((exists p, reader req = Woken p) /\ readBody_resume false req = (RNull, req')) ->
  rcv = dlv /\ complete req = true.
Proof.
  intros Hm H%reach_inv Hr; [|done]. assert (0 <= body_cap mbs < 2 ^ 63) as Hcap.
  { unfold body_cap, HTTP2_MAX_BODY_SIZE. destruct (mbs =? 0) eqn:E; b2p; lia. }
  destruct Hr as [[Hi E]|[[p Hp] E]].
  - unfold readBody in E. destruct (body_streaming req) eqn:Es; cbn [negb andb] in E.
    + by eapply pop_or_park_null.
    + destruct (complete req) eqn:Ec; [split; [by eapply take_body_null | done]|].
      destruct (body_upgrade_to_stream req) eqn:Eu; [|done]. cbn [negb] in E.
      destruct (upgrade_inv _ _ _ _ Hcap H Hi) as [Hu _].
      assert (complete (http2_request_body_upgrade req) = false /\
        body_streaming (http2_request_body_upgrade req) = true) as [Hc Hs].
      { unfold http2_request_body_upgrade. rewrite Es, Ec. cbn [orb].
        destruct (request_body_buf req) as [s|]; [destruct (0 <? zlen s)|]; rewrite ?push_eq; unfold fire_data_event;
          destruct req as [????????????????[|[]|[]]]; req_simpl; done. }
      eapply pop_or_park_null in E as [_ E]; [|done|done]. congruence.
  - unfold readBody_resume in E. pose proof (inv_reader _ _ _ _ H) as Hr. rewrite Hp in *.
    pose proof (inv_idle _ _ _ _ H) as Hid.
    destruct p; cbn [negb] in E.
    + destruct Hr as [Hc Hs]. split; [|done]. eapply take_body_null; [exact Hid|by destruct req..|exact E].
    + eapply pop_or_park_null in E as [? Hc]; [|exact Hid|by destruct req]. split; [done|]. by destruct req.
    + eapply pop_or_park_null in E as [? Hc]; [|exact Hid|by destruct req]. split; [done|]. by destruct req.
Qed.

(** No wake-up is lost: a reader that is suspended has nothing it could
    return.  One waiting for chunks sees an empty queue and no end of stream, one
    waiting for the whole body an incomplete request. *)
Theorem h2_reader_never_stuck (enabled : bool) (mbs clen mode : Z) (rcv dlv : bytes) (req : http_request_t)
    (p : wait_point) :
  0 <= mbs < 2 ^ 63 -> reach enabled mbs clen mode rcv dlv req -> reader req = Parked p ->
  match p with
  | AtBodyEvent => complete req = false
  | _ => body_queue req = [] /\ body_eof req = false /\ rcv = dlv
  end.
Proof.
  intros Hm H%reach_inv Hp; [|done]. pose proof (inv_reader _ _ _ _ H) as Hr. rewrite Hp in Hr.
  destruct p; [by destruct Hr| |]; destruct Hr as (Hq & He & Hs & _); (split_and!; [done|done|]);
    destruct H; destruct (inv_streaming0 Hs) as (Hbody & Hbuf & _ & _); unfold qbytes in *;
    rewrite inv_bytes0, Hq, Hbody, Hbuf; cbn; by rewrite app_nil_r.
Qed.

(** A body of 70000 declared bytes: three arrive while it is buffered, the first
    read upgrades it and drains them, one more arrives. *)
Definition demo_req : http_request_t :=
  snd (cb_on_data_chunk_recv 0 false [4]
    (snd (readBody true (snd (cb_on_data_chunk_recv 0 false [1; 2; 3] (body_policy true (http2_stream_new 70000 0))))))).

Lemma demo_reach : reach true 0 70000 0 [1; 2; 3; 4] [1; 2; 3] demo_req.
Proof.
  eapply (reach_data _ _ _ _ [1; 2; 3] [1; 2; 3]
    (snd (readBody true (snd (cb_on_data_chunk_recv 0 false [1; 2; 3] (body_policy true (http2_stream_new 70000 0))))))
    _ false [4]); [|vm_compute; reflexivity..].
  apply (reach_read _ _ _ _ [1; 2; 3] []
    (snd (cb_on_data_chunk_recv 0 false [1; 2; 3] (body_policy true (http2_stream_new 70000 0)))) _ true (RStr [1; 2; 3]));
    [|vm_compute; reflexivity..].
  eapply (reach_data _ _ _ _ [] [] (body_policy true (http2_stream_new 70000 0)) _ false [1; 2; 3]); [|vm_compute; reflexivity..].
  apply reach_start.
Qed.


Lemma h2_body_credit_exact_witness : granted demo_req = 3.
Proof.
  destruct (h2_body_credit_exact true 0 70000 0 [1; 2; 3; 4] [1; 2; 3] demo_req) as (H1 & _); [lia | exact demo_reach | vm_compute; reflexivity|].
  rewrite H1. vm_compute. reflexivity.
Defined.

Definition demo_end : http_request_t := finalize_request_body (snd (readBody true demo_req)).

Lemma demo_end_reach : reach true 0 70000 0 [1; 2; 3; 4] [1; 2; 3; 4] demo_end.
Proof.
  apply reach_end; [|vm_compute; reflexivity..].
  apply (reach_read _ _ _ _ [1; 2; 3; 4] [1; 2; 3] demo_req _ true (RStr [4])); [exact demo_reach|vm_compute; reflexivity..].
Qed.

Lemma h2_readBody_null_is_eof_witness :
  readBody true demo_end = (RNull, demo_end) /\ complete demo_end = true.
Proof.
  split; [vm_compute; reflexivity|].
  apply (h2_readBody_null_is_eof true 0 70000 0 _ _ demo_end demo_end ltac:(lia) demo_end_reach).
  left. split; vm_compute; reflexivity.
Defined.

Lemma h2_reader_never_stuck_witness :
  exists req, reader req = Parked AtDataEvent /\ body_queue req = [].
Proof.
  exists (snd (readBody true (snd (readBody true demo_req)))). split; [vm_compute; reflexivity|].
  refine (proj1 (h2_reader_never_stuck true 0 70000 0 [1; 2; 3; 4] ([1; 2; 3; 4] ++ []) _ AtDataEvent ltac:(lia) _ _)); [|vm_compute; reflexivity].
  apply (reach_read _ _ _ _ _ _ (snd (readBody true demo_req)) _ true RSuspend); [|vm_compute; reflexivity..].
  apply (reach_read _ _ _ _ [1; 2; 3; 4] [1; 2; 3] demo_req _ true (RStr [4])); [exact demo_reach|vm_compute; reflexivity..].
Defined.
End BodyStream.
