(* ===== verification/Grpc.v ===== *)
(** * gRPC over HTTP/2

    Models src/src/grpc/grpc.c (request classification, grpc-timeout, the 5-byte
    frame codec, grpc-web trailers and base64 text bodies), the registry and mode
    gates of src/src/core/http_protocol_handlers.c, and the two PHP methods that
    move messages: [HttpRequest::readMessage] of src/src/http_request.c and
    [HttpResponse::writeMessage] of src/src/http_response.c.

    PHP's base64 functions and the zlib-backed gzip routines are parameters. *)

From S2P Require Import Prelude BodyStream.

Module Grpc.
Import BodyStream.

Definition GRPC_MAX_RECV_MESSAGE : Z := 16 * 1024 * 1024.
Definition GRPC_CONTENT_TYPE : bytes := lit "application/grpc".
Definition GRPC_WEB_SUFFIX : bytes := lit "-web".
Definition GRPC_WEB_TEXT_SUFFIX : bytes := lit "-web-text".

(** ** Classification *)

(** [len >= n && strncasecmp(val, pre, n) == 0] *)
Definition has_prefix_ci (pre s : bytes) : bool :=
  (length pre <=? length s)%nat && eqb_ci (take (length pre) s) pre.

Definition grpc_request_mode (headers : hashtable) : Z :=
  match find_string headers (lit "content-type") with
  | None => GRPC_MODE_NONE
  | Some val =>
      if negb (has_prefix_ci GRPC_CONTENT_TYPE val) then GRPC_MODE_NONE
      else
        let rest := drop (length GRPC_CONTENT_TYPE) val in
        if has_prefix_ci GRPC_WEB_TEXT_SUFFIX rest then GRPC_MODE_WEB_TEXT
        else if has_prefix_ci GRPC_WEB_SUFFIX rest then GRPC_MODE_WEB
        else GRPC_MODE_NATIVE
  end.

(** Protocol handlers by name. *)
Inductive http_protocol_type_t :=
  | HTTP_PROTOCOL_HTTP1
  | HTTP_PROTOCOL_HTTP2
  | HTTP_PROTOCOL_HTTP3
  | HTTP_PROTOCOL_WEBSOCKET
  | HTTP_PROTOCOL_SSE
  | HTTP_PROTOCOL_GRPC
  | HTTP_PROTOCOL_UNKNOWN.

Definition http_protocol_type_to_string (type : http_protocol_type_t) : bytes :=
  match type with
  | HTTP_PROTOCOL_HTTP1 => lit "http"
  | HTTP_PROTOCOL_HTTP2 => lit "http2"
  | HTTP_PROTOCOL_HTTP3 => lit "http3"
  | HTTP_PROTOCOL_WEBSOCKET => lit "websocket"
  | HTTP_PROTOCOL_SSE => lit "sse"
  | HTTP_PROTOCOL_GRPC => lit "grpc"
  | HTTP_PROTOCOL_UNKNOWN => lit "unknown"
  end.

Definition http_protocol_string_to_type (str : bytes) : http_protocol_type_t :=
  if eqb_bytes str (lit "http") then HTTP_PROTOCOL_HTTP1
  else if eqb_bytes str (lit "http2") then HTTP_PROTOCOL_HTTP2
  else if eqb_bytes str (lit "http3") then HTTP_PROTOCOL_HTTP3
  else if eqb_bytes str (lit "websocket") then HTTP_PROTOCOL_WEBSOCKET
  else if eqb_bytes str (lit "sse") then HTTP_PROTOCOL_SSE
  else if eqb_bytes str (lit "grpc") then HTTP_PROTOCOL_GRPC
  else HTTP_PROTOCOL_UNKNOWN.

(** The table of [zend_fcall_t] pointers; a handler is an opaque id. *)
Abbreviation handlers_t := (gmap bytes Z).

Definition http_protocol_add_handler (handlers : handlers_t) (protocol : http_protocol_type_t) (fcall : Z) : handlers_t :=
  <[http_protocol_type_to_string protocol := fcall]> handlers.

Definition http_protocol_get_handler (handlers : handlers_t) (protocol : http_protocol_type_t) : option Z :=
  handlers !! http_protocol_type_to_string protocol.

Definition http_protocol_has_handler (handlers : handlers_t) (protocol : http_protocol_type_t) : bool :=
  match handlers !! http_protocol_type_to_string protocol with Some _ => true | None => false end.

Definition http_protocol_remove_handler (handlers : handlers_t) (protocol : http_protocol_type_t) : handlers_t :=
  delete (http_protocol_type_to_string protocol) handlers.

Definition http_protocol_pick_handler (handlers : handlers_t) (is_grpc : bool) : option Z :=
  let fcall := if is_grpc then http_protocol_get_handler handlers HTTP_PROTOCOL_GRPC else None in
  let fcall := match fcall with None => http_protocol_get_handler handlers HTTP_PROTOCOL_HTTP1 | f => f end in
  match fcall with None => http_protocol_get_handler handlers HTTP_PROTOCOL_HTTP2 | f => f end.

Definition grpc_classify (mode : Z) (handlers : handlers_t) : Z :=
  if (mode =? GRPC_MODE_NONE) || negb (http_protocol_has_handler handlers HTTP_PROTOCOL_GRPC) then GRPC_MODE_NONE
  else mode.

(** ** Text bodies *)

(** [php_base64_encode] and the non-strict [php_base64_decode_ex]. *)
Class Base64 := {
  php_base64_encode : bytes -> bytes;
  php_base64_decode : bytes -> option bytes;
}.

Section text.
Context `{Base64}.

Definition grpc_web_text_encode (s : bytes) : bytes := php_base64_encode s.

(** Appending the decoded block; [None] is a malformed block. *)
Definition b64_decode_append (out block : bytes) : option bytes :=
  match php_base64_decode block with
  | None => None
  | Some part => Some (out ++ part)
  end.

Definition is_pad (c : Z) : bool := c =? EQUALS.

(** The scan for padding runs: [block] is [in[start..i)], [s] starts at [i]. *)
Fixpoint text_loop (fuel : nat) (out block s : bytes) : option bytes :=
  match s, fuel with
  | [], _ => match block with [] => Some out | _ => b64_decode_append out block end
  | _, O => None
  | c :: rest, S f =>
      if negb (c =? EQUALS) then text_loop f out (block ++ [c]) rest
      else match b64_decode_append out (block ++ take_while is_pad s) with
           | None => None
           | Some out => text_loop f out [] (drop_while is_pad s)
           end
  end.

Definition grpc_web_text_decode (s : bytes) : option bytes := text_loop (length s) [] [] s.
End text.

(** ** Frames *)

Definition grpc_write_frame_header (flag len : Z) : bytes :=
  [u8 flag; Z.land (Z.shiftr len 24) 255; Z.land (Z.shiftr len 16) 255; Z.land (Z.shiftr len 8) 255; Z.land len 255].

(** The entries the two loops over the trailers keep: string keys with string
    values. *)
Definition trailer_lines (trailers : php_array) : list bytes :=
  omap (fun e => match e with (Some name, ZString v) => Some (name ++ [COLON; SP] ++ v ++ crlf) | _ => None end) trailers.

Definition grpc_web_trailer_frame (trailers : option php_array) : bytes :=
  let lines := match trailers with None => [] | Some t => trailer_lines t end in
  grpc_write_frame_header 128 (zlen (concat lines)) ++ concat lines.

Fixpoint timeout_digits (value : Z) (s : bytes) : option Z :=
  match s with
  | [] => Some value
  | c :: s' => if (c <? 48) || (57 <? c) then None else timeout_digits (u64 (value * 10 + (c - 48))) s'
  end.

Definition unit_ns (c : Z) : option Z :=
  if c =? ch "H" then Some (3600 * 1000000000)
  else if c =? ch "M" then Some (60 * 1000000000)
  else if c =? ch "S" then Some 1000000000
  else if c =? ch "m" then Some 1000000
  else if c =? ch "u" then Some 1000
  else if c =? ch "n" then Some 1
  else None.

Definition grpc_parse_timeout_ns (headers : hashtable) : Z :=
  match find_string headers (lit "grpc-timeout") with
  | None => 0
  | Some s =>
      if (length s <? 2)%nat || (9 <? length s)%nat then 0
      else match timeout_digits 0 (removelast s), unit_ns (List.last s 0) with
           | Some value, Some u => if UINT64_MAX / u <? value then UINT64_MAX else u64 (value * u)
           | _, _ => 0
           end
  end.

Definition grpc_frame_message (msg : bytes) (compressed : bool) : bytes :=
  grpc_write_frame_header (if compressed then 1 else 0) (zlen msg) ++ msg.

(** 1, 0 and -1. *)
Inductive deframe_result :=
  | DMessage (compressed : bool) (msg : bytes) (cursor : nat)
  | DMore
  | DTooLarge.

Definition grpc_deframe_next (buf : bytes) (pos : nat) (max_msg : Z) : deframe_result :=
  match drop pos buf with
  | h0 :: h1 :: h2 :: h3 :: h4 :: _ =>
      let mlen := Z.lor (Z.lor (Z.lor (Z.shiftl h1 24) (Z.shiftl h2 16)) (Z.shiftl h3 8)) h4 in
      if max_msg <? mlen then DTooLarge
      else if zlen buf <? Z.of_nat pos + 5 + mlen then DMore
      else DMessage (negb (h0 =? 0)) (take (Z.to_nat mlen) (drop (pos + 5) buf)) (pos + 5 + Z.to_nat mlen)
  | _ => DMore
  end.

(** [http_compression_gzip_inflate_buffer] with its output bound and
    [http_compression_gzip_deflate_buffer] at level 6; [None] is failure. *)
Class Gzip := {
  gzip_inflate : bytes -> Z -> option bytes;
  gzip_deflate : bytes -> option bytes;
}.

Section gzip.
Context `{Gzip}.

Definition grpc_message_inflate (headers : hashtable) (msg : bytes) : option bytes :=
  match find_string headers (lit "grpc-encoding") with
  | Some enc => if eqb_bytes enc (lit "gzip") then gzip_inflate msg GRPC_MAX_RECV_MESSAGE else None
  | None => None
  end.

Definition grpc_message_deflate_gzip (msg : bytes) : option bytes := gzip_deflate msg.
End gzip.

(** ** readMessage *)

Record grpc_request := {
  base : http_request_t;
  headers : hashtable;
  grpc_read_offset : nat;
  grpc_reassembly : option bytes;
  grpc_text_body : option bytes;
}.

Definition set_base g b := {| base := b; headers := headers g; grpc_read_offset := grpc_read_offset g;
  grpc_reassembly := grpc_reassembly g; grpc_text_body := grpc_text_body g |}.
Definition set_offset g o := {| base := base g; headers := headers g; grpc_read_offset := o;
  grpc_reassembly := grpc_reassembly g; grpc_text_body := grpc_text_body g |}.
Definition set_reassembly g r := {| base := base g; headers := headers g; grpc_read_offset := grpc_read_offset g;
  grpc_reassembly := r; grpc_text_body := grpc_text_body g |}.
Definition set_text g t := {| base := base g; headers := headers g; grpc_read_offset := grpc_read_offset g;
  grpc_reassembly := grpc_reassembly g; grpc_text_body := t |}.

Section read.
Context `{Base64} `{Gzip}.

(** What follows the extraction: oversize, nothing left, or a message that may
    have to be inflated. *)
Definition finish_message (g : grpc_request) (rc : deframe_result) : read_result * grpc_request :=
  match rc with
  | DTooLarge => (RThrow, g)
  | DMore => (RNull, g)
  | DMessage compressed msg cursor =>
      let g := set_offset g cursor in
      if compressed then
        match grpc_message_inflate (headers g) msg with
        | Some inflated => (RStr inflated, g)
        | None => (RThrow, g)
        end
      else (RStr msg, g)
  end.

(** Dropping the consumed prefix once it dominates the buffer. *)
Definition compact (g : grpc_request) : grpc_request :=
  match grpc_reassembly g with
  | Some s =>
      if (0 <? grpc_read_offset g)%nat then
        let total := length s in
        let remain := (if grpc_read_offset g <? total then total - grpc_read_offset g else 0)%nat in
        if (remain =? 0)%nat then set_offset (set_reassembly g (Some [])) 0
        else if (remain <=? grpc_read_offset g)%nat then
          set_offset (set_reassembly g (Some (take remain (drop (grpc_read_offset g) s)))) 0
        else g
      else g
  | None => g
  end.

(** The reassembly loop up to its suspension; each round pops a chunk, so one
    more round than there are chunks is enough fuel.  [None] is fuel running
    out. *)
Fixpoint message_loop (fuel : nat) (in_coroutine : bool) (g : grpc_request) : option (read_result * grpc_request) :=
  match fuel with
  | O => None
  | S f =>
      match grpc_deframe_next (default [] (grpc_reassembly g)) (grpc_read_offset g) GRPC_MAX_RECV_MESSAGE with
      | DMore =>
          match http_body_stream_pop (base g) with
          | (Some chunk, b) =>
              message_loop f in_coroutine (set_reassembly (set_base g b) (Some (default [] (grpc_reassembly g) ++ chunk)))
          | (None, b) =>
              let g := set_base g b in
              if body_eof b then Some (if body_error b then (RThrow, g) else (RNull, g))
              else
                let g := set_base g (set_event b true) in
                if negb in_coroutine then Some (RNull, g)
                else Some (RSuspend, set_base g (set_reader (base g) (Parked AtMessage)))
          end
      | rc => Some (finish_message g rc)
      end
  end.

Definition run_loop (in_coroutine : bool) (g : grpc_request) : option (read_result * grpc_request) :=
  message_loop (S (length (body_queue (base g)))) in_coroutine g.

Definition readMessage (in_coroutine : bool) (g : grpc_request) : option (read_result * grpc_request) :=
  let web_text := grpc_mode (base g) =? GRPC_MODE_WEB_TEXT in
  if web_text then
    let text := match grpc_text_body g with
                | Some t => inl t
                | None => match body (base g) with
                          | None => inr RNull
                          | Some b => match grpc_web_text_decode b with Some t => inl t | None => inr RThrow end
                          end
                end in
    match text with
    | inr r => Some (r, g)
    | inl t =>
        let g := set_text g (Some t) in
        Some (finish_message g (grpc_deframe_next t (grpc_read_offset g) GRPC_MAX_RECV_MESSAGE))
    end
  else
    let g := if negb (body_streaming (base g)) && body_upgrade_to_stream (base g)
             then set_base g (http2_request_body_upgrade (base g)) else g in
    if body_streaming (base g) then run_loop in_coroutine (compact g)
    else match body (base g) with
         | None => Some (RNull, g)
         | Some b => Some (finish_message g (grpc_deframe_next b (grpc_read_offset g) GRPC_MAX_RECV_MESSAGE))
         end.

(** Resuming after the data event: the loop goes on. *)
Definition readMessage_resume (cancelled : bool) (g : grpc_request) : option (read_result * grpc_request) :=
  let g := set_base g (set_reader (base g) Idle) in
  if cancelled then Some (RThrow, g) else run_loop true g.
End read.

(** ** writeMessage *)

Record grpc_response := {
  closed : bool;
  send_file_req : bool;
  stream_ops : bool;
  grpc_compress : bool;
  streaming : bool;
  committed : bool;
  headers_sent : bool;
  res_grpc_mode : Z;
  appended : list bytes;
}.

Inductive write_result := WOk | WThrow.

(** [dead] is [append_chunk] answering that the stream is gone. *)
Definition writeMessage `{Base64} `{Gzip} (dead : bool) (response : grpc_response) (message : bytes)
    : write_result * grpc_response :=
  if closed response then (WThrow, response)
  else if send_file_req response then (WThrow, response)
  else if negb (stream_ops response) then (WThrow, response)
  else
    let '(payload, gzipped) :=
      if grpc_compress response then
        match grpc_message_deflate_gzip message with Some gz => (gz, true) | None => (message, false) end
      else (message, false) in
    let framed := grpc_frame_message payload gzipped in
    let framed := if res_grpc_mode response =? GRPC_MODE_WEB_TEXT then grpc_web_text_encode framed else framed in
    let response :=
      {| closed := closed response; send_file_req := send_file_req response; stream_ops := stream_ops response;
         grpc_compress := grpc_compress response; streaming := true;
         committed := committed response || negb (streaming response);
         headers_sent := headers_sent response || negb (streaming response);
         res_grpc_mode := res_grpc_mode response;
         appended := if dead then appended response else appended response ++ [framed] |} in
    (if dead then WThrow else WOk, response).
End Grpc.
