(* ===== verification/GrpcProofs.v ===== *)
(** * gRPC: proofs

    The frame codec is inverse to itself, the base64 text body decodes to the
    concatenation of its frames, readMessage recovers the messages of a streamed
    body however it is cut into chunks and however reads and arrivals interleave. *)

From S2P Require Import Prelude BodyStream Grpc.

Module GrpcProofs.
Import BodyStream Grpc.

(** ** Frames *)

Definition be32 (h1 h2 h3 h4 : Z) : Z :=
  Z.lor (Z.lor (Z.lor (Z.shiftl h1 24) (Z.shiftl h2 16)) (Z.shiftl h3 8)) h4.

Lemma be32_sum h1 h2 h3 h4 :
  is_byte h1 -> is_byte h2 -> is_byte h3 -> is_byte h4 ->
  be32 h1 h2 h3 h4 = h1 * 2 ^ 24 + h2 * 2 ^ 16 + h3 * 2 ^ 8 + h4.
Proof.
  unfold is_byte, be32. intros. rewrite !Z.shiftl_mul_pow2 by lia.
  rewrite (lor_add _ (h2 * 2 ^ 16) 24), (lor_add _ (h3 * 2 ^ 8) 16), (lor_add _ h4 8); try lia; dlia.
Qed.

Lemma be32_header len :
  0 <= len < 2 ^ 32 ->
  be32 (Z.land (Z.shiftr len 24) 255) (Z.land (Z.shiftr len 16) 255) (Z.land (Z.shiftr len 8) 255) (Z.land len 255) = len.
Proof.
  intros H. rewrite !land_255, !Z.shiftr_div_pow2 by lia.
  rewrite be32_sum by (unfold is_byte; dlia). dlia.
Qed.

(** The first frame of the bytes still to be read. *)
Inductive frame_view :=
  | FMsg (compressed : bool) (msg rest : bytes)
  | FMore
  | FTooLarge.

Definition next_frame (p : bytes) : frame_view :=
  match p with
  | h0 :: h1 :: h2 :: h3 :: h4 :: rest =>
      if GRPC_MAX_RECV_MESSAGE <? be32 h1 h2 h3 h4 then FTooLarge
      else if zlen rest <? be32 h1 h2 h3 h4 then FMore
      else FMsg (negb (h0 =? 0)) (take (Z.to_nat (be32 h1 h2 h3 h4)) rest) (drop (Z.to_nat (be32 h1 h2 h3 h4)) rest)
  | _ => FMore
  end.

Lemma be32_nonneg h1 h2 h3 h4 :
  is_byte h1 -> is_byte h2 -> is_byte h3 -> is_byte h4 -> 0 <= be32 h1 h2 h3 h4.
Proof. intros. rewrite be32_sum by done. unfold is_byte in *. lia. Qed.

(** Deframing at a cursor looks only at what follows the cursor. *)
Lemma deframe_next_frame buf pos :
  Forall is_byte buf -> (pos <= length buf)%nat ->
  match next_frame (drop pos buf) with
  | FMsg c m r => exists cur, grpc_deframe_next buf pos GRPC_MAX_RECV_MESSAGE = DMessage c m cur /\
                    (cur <= length buf)%nat /\ drop cur buf = r
  | FMore => grpc_deframe_next buf pos GRPC_MAX_RECV_MESSAGE = DMore
  | FTooLarge => grpc_deframe_next buf pos GRPC_MAX_RECV_MESSAGE = DTooLarge
  end.
Proof.
  intros Hb Hpos. unfold grpc_deframe_next, next_frame.
  assert (Forall is_byte (drop pos buf)) as Hd by (by apply Forall_drop).
  destruct (drop pos buf) as [|h0 [|h1 [|h2 [|h3 [|h4 rest]]]]] eqn:Ed; try done.
  fold (be32 h1 h2 h3 h4). do 5 (apply Forall_cons_iff in Hd as [? Hd]).
  assert (0 <= be32 h1 h2 h3 h4) as Hnn by (by apply be32_nonneg).
  set (mlen := be32 h1 h2 h3 h4) in *. clearbody mlen. destruct (_ <? mlen); [done|].
  assert (length buf = (pos + 5 + length rest)%nat) as Hl.
  { apply (f_equal length) in Ed. rewrite length_drop in Ed. simpl in Ed. lia. }
  assert (drop (pos + 5) buf = rest) as Hr by (rewrite <- drop_drop, Ed; done).
  assert ((zlen buf <? Z.of_nat pos + 5 + mlen) = (zlen rest <? mlen)) as ->.
  { unfold zlen. rewrite Hl. apply Bool.eq_true_iff_eq. rewrite !Z.ltb_lt. lia. }
  destruct (Z.ltb_spec (zlen rest) mlen) as [|Hlen]; [done|]. unfold zlen in Hlen.
  rewrite Hr. eexists. split; [done|]. split; [lia|]. by rewrite <- drop_drop, Hr.
Qed.

Lemma frame_view_cons c m rest :
  zlen m <= GRPC_MAX_RECV_MESSAGE -> next_frame (grpc_frame_message m c ++ rest) = FMsg c m rest.
Proof.
  intros Hm. unfold grpc_frame_message, grpc_write_frame_header. cbn [app next_frame].
  pose proof (zlen_nonneg m). unfold GRPC_MAX_RECV_MESSAGE in *. rewrite be32_header by lia.
  replace (_ <? zlen m) with false by (symmetry; apply Z.ltb_ge; lia).
  rewrite zlen_app. pose proof (zlen_nonneg rest).
  replace (zlen m + zlen rest <? zlen m) with false by (symmetry; apply Z.ltb_ge; lia).
  unfold zlen. rewrite Nat2Z.id, take_app_length, drop_app_length. by destruct c.
Qed.

(** A message, or a longer input, does not change a frame that was found. *)
Lemma next_frame_app p q c m r : next_frame p = FMsg c m r -> next_frame (p ++ q) = FMsg c m (r ++ q).
Proof.
  unfold next_frame. destruct p as [|h0 [|h1 [|h2 [|h3 [|h4 rest]]]]]; try done. cbn [app].
  set (mlen := be32 h1 h2 h3 h4). destruct (_ <? mlen); [done|].
  destruct (Z.ltb_spec (zlen rest) mlen) as [|Hl]; [done|]. intros [= <- <- <-].
  rewrite zlen_app. pose proof (zlen_nonneg q). unfold zlen in *.
  replace (_ <? mlen) with false by (symmetry; apply Z.ltb_ge; lia).
  rewrite take_app_le, drop_app_le by lia. done.
Qed.

Lemma next_frame_large_app p q : next_frame p = FTooLarge -> next_frame (p ++ q) = FTooLarge.
Proof.
  unfold next_frame. destruct p as [|h0 [|h1 [|h2 [|h3 [|h4 rest]]]]]; try done. cbn [app].
  destruct (_ <? be32 h1 h2 h3 h4); [done|]. by case_if.
Qed.

Lemma next_frame_split p c m r :
  next_frame p = FMsg c m r -> exists raw, p = raw ++ r.
Proof.
  unfold next_frame. destruct p as [|h0 [|h1 [|h2 [|h3 [|h4 rest]]]]]; try done.
  set (mlen := be32 h1 h2 h3 h4). destruct (_ <? mlen); [done|]. case_if; [done|]. intros [= _ _ <-].
  exists (h0 :: h1 :: h2 :: h3 :: h4 :: take (Z.to_nat mlen) rest). cbn [app]. by rewrite take_drop.
Qed.

(** What can be seen of a stream of frames that is still arriving. *)
Lemma next_frame_prefix p q c m rest :
  zlen m <= GRPC_MAX_RECV_MESSAGE -> p ++ q = grpc_frame_message m c ++ rest ->
  next_frame p = FMore \/ exists r, next_frame p = FMsg c m r /\ r ++ q = rest /\ p = grpc_frame_message m c ++ r.
Proof.
  intros Hm E. pose proof (frame_view_cons c m rest Hm) as Hf. rewrite <- E in Hf.
  destruct (next_frame p) as [c' m' r| |] eqn:En; [right|by left|].
  - pose proof (next_frame_split _ _ _ _ En) as [raw Hraw].
    pose proof (next_frame_app _ q _ _ _ En) as Ha. rewrite Hf in Ha. injection Ha as <- <- ->.
    exists r. split; [done|]. split; [done|].
    rewrite app_assoc in E. by apply app_inv_tail in E.
  - apply (next_frame_large_app _ q) in En. congruence.
Qed.

(** ** Streamed reads *)

Section stream.
Context `{Base64} `{Gzip}.
Variable cap : Z.
Hypothesis cap_ok : 0 <= cap < 2 ^ 63.

Definition unread (g : grpc_request) : bytes := drop (grpc_read_offset g) (default [] (grpc_reassembly g)).
Definition pending (g : grpc_request) : bytes := unread g ++ qbytes (base g).

(** [taken] is the bytes of the frames taken so far. *)
Record ginv (rcv taken : bytes) (g : grpc_request) : Prop := {
  g_body : inv cap rcv (taken ++ unread g) (base g);
  g_offset : (grpc_read_offset g <= length (default [] (grpc_reassembly g)))%nat;
  g_streaming : body_streaming (base g) = true;
  g_bytes : Forall is_byte rcv /\ Forall is_byte (default [] (grpc_reassembly g));
}.

Lemma ginv_pending rcv taken g : ginv rcv taken g -> rcv = taken ++ pending g.
Proof.
  intros [Hi _ Hs _]. destruct Hi. destruct (inv_streaming0 Hs) as (Hb & Hbuf & _ & _).
  rewrite inv_bytes0 at 1; rewrite Hb, Hbuf. unfold pending. cbn [from_option id app]. by rewrite !app_nil_r, <- app_assoc.
Qed.

Lemma compact_ginv rcv taken g : ginv rcv taken g -> ginv rcv taken (compact g) /\ base (compact g) = base g /\
  headers (compact g) = headers g.
Proof.
  intros Hg. unfold compact. destruct (grpc_reassembly g) as [s|] eqn:Er; [|done].
  destruct (Nat.ltb_spec 0 (grpc_read_offset g)) as [Hpos|]; [|done].
  destruct Hg as [Hi Ho Hs [Hb1 Hb2]]. unfold unread in *. rewrite Er in *. cbn [from_option id] in *.
  assert ((if grpc_read_offset g <? length s then length s - grpc_read_offset g else 0)%nat =
    (length s - grpc_read_offset g)%nat) as -> by (destruct (Nat.ltb_spec (grpc_read_offset g) (length s)); lia).
  destruct (Nat.eqb_spec (length s - grpc_read_offset g) 0) as [E|E].
  - rewrite drop_ge in Hi by lia. split; [|done]. split; unfold unread; cbn; [done|lia|done|split; [done|constructor]].
  - destruct (Nat.leb_spec (length s - grpc_read_offset g) (grpc_read_offset g)).
    + rewrite take_ge by (rewrite length_drop; lia). split; [|done].
      split; unfold unread; cbn; [by rewrite drop_0|lia|done|split; [done|by apply Forall_drop]].
    + split; [|done]. split; unfold unread; rewrite ?Er; done.
Qed.

(** What a message answers, once its frame was found. *)
Definition opened (hs : hashtable) (c : bool) (m : bytes) : read_result :=
  if c then match grpc_message_inflate hs m with Some x => RStr x | None => RThrow end else RStr m.

Definition loop_post (co : bool) (rcv taken : bytes) (g : grpc_request) (res : read_result) (g' : grpc_request) : Prop :=
  headers g' = headers g /\ grpc_mode (base g') = grpc_mode (base g) /\
  match next_frame (pending g) with
  | FMsg c m r => res = opened (headers g) c m /\ reader (base g') = Idle /\
      exists raw, pending g = raw ++ r /\ ginv rcv (taken ++ raw) g'
  | FTooLarge => res = RThrow /\ reader (base g') = Idle /\ ginv rcv taken g'
  | FMore => ginv rcv taken g' /\ body_queue (base g') = [] /\
      match res with
      | RStr _ => False
      | RNull => co = true -> complete (base g') = true
      | _ => True
      end
  end.

Lemma finish_found co rcv taken g c m cur :
  ginv rcv taken g -> reader (base g) = Idle -> (cur <= length (default [] (grpc_reassembly g)))%nat ->
  next_frame (unread g) = FMsg c m (drop cur (default [] (grpc_reassembly g))) ->
  loop_post co rcv taken g (opened (headers g) c m) (set_offset g cur).
Proof.
  intros Hg Hi Hcur Hf. split; [done|]. split; [done|]. unfold pending. rewrite (next_frame_app _ _ _ _ _ Hf).
  split; [done|]. split; [done|]. destruct (next_frame_split _ _ _ _ Hf) as [raw Hraw]. exists raw.
  rewrite Hraw, <- app_assoc. split; [done|]. destruct Hg. split; [|exact Hcur|done|done].
  unfold unread at 1. cbn [grpc_read_offset grpc_reassembly set_offset]. by rewrite <- app_assoc, <- Hraw.
Qed.

Lemma message_loop_spec fuel co rcv taken g :
  ginv rcv taken g -> reader (base g) = Idle -> (length (body_queue (base g)) < fuel)%nat ->
  exists res g', message_loop fuel co g = Some (res, g') /\ loop_post co rcv taken g res g'.
Proof.
  revert g. induction fuel as [|fuel IH]; intros g Hg Hi Hf; [lia|]. cbn [message_loop].
  pose proof Hg as [Hinv Ho Hs [Hb1 Hb2]]. pose proof (deframe_next_frame _ _ Hb2 Ho) as Hd.
  fold (unread g) in Hd. destruct (next_frame (unread g)) as [c m r| |] eqn:En.
  - destruct Hd as (cur & -> & Hc & <-). pose proof (finish_found co _ _ _ _ _ _ Hg Hi Hc En) as Hp.
    assert (finish_message g (DMessage c m cur) = (opened (headers g) c m, set_offset g cur)) as ->.
    { unfold finish_message, opened. cbn [headers set_offset]. destruct c; [|done].
      by destruct (grpc_message_inflate _ _). }
    by eexists _, _.
  - rewrite Hd. destruct (http_body_stream_pop (base g)) as [[chunk|] b] eqn:Ep.
    + destruct (pop_inv _ _ _ _ _ _ (proj2 cap_ok) Hinv Hs Hi Ep) as (Hinv' & Hs' & Hi').
      assert (body_queue (base g) = chunk :: body_queue b /\ grpc_mode b = grpc_mode (base g)) as [Hq Hmode].
      { unfold http_body_stream_pop in Ep. destruct (body_queue (base g)) as [|d q]; [done|]. injection Ep as <- <-.
        by case_if. }
      set (g1 := set_reassembly _ _). assert (unread g1 = unread g ++ chunk) as Hu.
      { unfold unread, g1. cbn. by rewrite drop_app_le by done. }
      assert (pending g1 = pending g) as Hpend.
      { unfold pending. rewrite Hu. unfold qbytes at 2. rewrite Hq. cbn. by rewrite <- app_assoc. }
      assert (Forall is_byte chunk) as Hcb.
      { pose proof (ginv_pending _ _ _ Hg) as E. unfold pending, qbytes in E. rewrite Hq in E. cbn in E.
        rewrite E in Hb1. rewrite !Forall_app in Hb1. tauto. }
      assert (ginv rcv taken g1) as Hg1.
      { split; [rewrite Hu; rewrite app_assoc; exact Hinv'| |exact Hs'|split; [done|]].
        - unfold g1. cbn. rewrite length_app. lia.
        - unfold g1. cbn. by apply Forall_app. }
      destruct (IH g1 Hg1 Hi') as (res & g' & E & Hp).
      { rewrite Hq in Hf. simpl in Hf. unfold g1. cbn. lia. }
      exists res, g'. split; [exact E|]. unfold loop_post in *. rewrite Hpend in Hp.
      destruct Hp as (Hp1 & Hp2 & Hp). split; [exact Hp1|]. split; [|exact Hp]. by rewrite Hp2.
    + assert (body_queue (base g) = [] /\ b = base g) as [Hq ->].
      { unfold http_body_stream_pop in Ep. by destruct (body_queue (base g)); simplify_eq. }
      assert (pending g = unread g) as Hpend by (unfold pending, qbytes; rewrite Hq; cbn; by rewrite app_nil_r).
      unfold loop_post. rewrite Hpend, En. destruct (body_eof (base g)) eqn:Ee.
      * destruct (body_error (base g)) eqn:Eer; eexists _, _; (split; [done|]); (split; [done|]); (split; [done|]);
          (split; [by destruct g | split; [done|]]); [done|]. intros _. cbn. destruct Hinv. by apply inv_eof0.
      * pose proof (event_inv _ _ _ _ Hinv) as Hev.
        destruct co; cbn [negb]; eexists _, _; (split; [done|]); (split; [done|]); (split; [done|]).
        -- split; [|split; done]. split; [|exact Ho|exact Hs|done]. cbn [base set_base].
           destruct Hev. destruct (base g); req_simpl. by split.
        -- split; [|split; [done|by intros]]. by split.
  - rewrite Hd. eexists _, _. split; [done|]. split; [done|]. split; [done|]. unfold pending.
    rewrite (next_frame_large_app _ _ En). done.
Qed.
End stream.

(** ** Interleavings of arrival and reading *)

Definition msg_of (res : read_result) : list bytes := match res with RStr s => [s] | _ => [] end.

Section history.
Context `{Base64} `{Gzip}.
Variables (mbs clen mode : Z) (hs : hashtable).

Definition grpc_request_new : grpc_request :=
  {| base := body_policy true (http2_stream_new clen mode); headers := hs;
     grpc_read_offset := 0; grpc_reassembly := None; grpc_text_body := None |}.

(** As [BodyStream.reach], with a handler that calls readMessage; the second
    index is the messages it got. *)
Inductive greach : bytes -> list bytes -> grpc_request -> Prop :=
  | greach_start : greach [] [] grpc_request_new
  | greach_data rcv dlv g b oom data :
      greach rcv dlv g -> complete (base g) = false -> body_h2_session (base g) = true ->
      zlen data < 2 ^ 63 -> Forall is_byte data ->
      cb_on_data_chunk_recv mbs oom data (base g) = (true, b) -> greach (rcv ++ data) dlv (set_base g b)
  | greach_end rcv dlv g :
      greach rcv dlv g -> complete (base g) = false -> body_h2_session (base g) = true ->
      greach rcv dlv (set_base g (finalize_request_body (base g)))
  | greach_release rcv dlv g :
      greach rcv dlv g -> greach rcv dlv (set_base g (http2_stream_release (base g)))
  | greach_read rcv dlv g g' co res :
      greach rcv dlv g -> reader (base g) = Idle -> readMessage co g = Some (res, g') ->
      greach rcv (dlv ++ msg_of res) g'
  | greach_resume rcv dlv g g' p c res :
      greach rcv dlv g -> reader (base g) = Woken p -> readMessage_resume c g = Some (res, g') ->
      greach rcv (dlv ++ msg_of res) g'
  | greach_cancel rcv dlv g g' p res :
      greach rcv dlv g -> reader (base g) = Parked p -> readMessage_resume true g = Some (res, g') ->
      greach rcv (dlv ++ msg_of res) g'.

(** The frames a peer sends and the messages they carry. *)
Definition wire (fs : list (bool * bytes)) : bytes := concat (map (fun f => grpc_frame_message (snd f) (fst f)) fs).

Definition carries (f : bool * bytes) (m : bytes) : Prop :=
  zlen (snd f) <= GRPC_MAX_RECV_MESSAGE /\ opened hs (fst f) (snd f) = RStr m.

Hypothesis mbs_ok : 0 <= mbs < 2 ^ 63.
Hypothesis mode_ok : mode = GRPC_MODE_NATIVE \/ mode = GRPC_MODE_WEB.
Hypothesis clen_ok : clen = 0 \/ HTTP_BODY_STREAM_AUTO_THRESHOLD <= clen.

Lemma cap_bound : 0 <= body_cap mbs < 2 ^ 63.
Proof. unfold body_cap, HTTP2_MAX_BODY_SIZE. destruct (mbs =? 0) eqn:E; b2p; lia. Qed.

(** The first [length dlv] frames were taken, and gave the messages delivered. *)
Record hinv (fs : list (bool * bytes)) (msgs : list bytes) (rcv : bytes) (dlv : list bytes) (g : grpc_request) : Prop := {
  h_ginv : ginv (body_cap mbs) rcv (wire (take (length dlv) fs)) g;
  h_dlv : dlv = take (length dlv) msgs;
  h_hs : headers g = hs;
  h_mode : grpc_mode (base g) = mode;
}.

Lemma wire_app a b : wire (a ++ b) = wire a ++ wire b.
Proof. unfold wire. by rewrite map_app, concat_app. Qed.

(** The bytes ahead of the reader are the start of the frames not yet taken. *)
Lemma hinv_ahead fs msgs rcv dlv g rest :
  hinv fs msgs rcv dlv g -> wire fs = rcv ++ rest -> pending g ++ rest = wire (drop (length dlv) fs).
Proof.
  intros [Hg _ _ _] Hw. apply ginv_pending in Hg.
  rewrite <- (take_drop (length dlv) fs) in Hw at 1. rewrite wire_app, Hg, <- app_assoc in Hw.
  by apply app_inv_head in Hw.
Qed.

Lemma loop_hinv fs msgs rcv dlv rest co g res g' :
  Forall2 carries fs msgs -> hinv fs msgs rcv dlv g -> wire fs = rcv ++ rest ->
  loop_post (body_cap mbs) co rcv (wire (take (length dlv) fs)) g res g' ->
  hinv fs msgs rcv (dlv ++ msg_of res) g' /\ (res = RNull -> co = true -> rest = [] -> dlv = msgs /\ complete (base g') = true).
Proof.
  intros Hc Hh Hw (Hhd & Hm & Hp). pose proof (hinv_ahead _ _ _ _ _ _ Hh Hw) as Ha.
  destruct Hh as [Hg Hd Hhs Hmode]. rewrite Hmode in Hm.
  assert (forall r, msg_of r = [] -> ginv (body_cap mbs) rcv (wire (take (length dlv) fs)) g' ->
    hinv fs msgs rcv (dlv ++ msg_of r) g') as Hsame.
  { intros r -> Hg'. rewrite app_nil_r. split; [done|done|congruence|done]. }
  destruct (next_frame (pending g)) as [c m r| |] eqn:En.
  - destruct Hp as (-> & Hi & raw & Hraw & Hg').
    destruct (drop (length dlv) fs) as [|[c' p] fs'] eqn:Ef.
    { cbn in Ha. apply app_eq_nil in Ha as [Ha _]. rewrite Ha in En. done. }
    pose proof (Forall2_drop _ _ _ (length dlv) Hc) as Hcd. rewrite Ef in Hcd.
    inversion Hcd as [|? y ? msgs' [Hsz Hop] Hcd' E1 E2]; subst. cbn [fst snd] in *.
    unfold wire in Ha. cbn [map concat fst snd] in Ha.
    destruct (next_frame_prefix _ _ _ _ _ Hsz Ha) as [?|(r' & Hn & _ & Hpe)]; [congruence|].
    rewrite En in Hn. injection Hn as -> -> ->. rewrite Hraw in Hpe. apply app_inv_tail in Hpe. subst raw.
    rewrite Hhs, Hop. cbn [msg_of]. split; [|done].
    assert (fs !! length dlv = Some (c', p)) as Hlk by (rewrite <- (Nat.add_0_r (length dlv)), <- lookup_drop, Ef; done).
    assert (msgs !! length dlv = Some y) as Hlm by (rewrite <- (Nat.add_0_r (length dlv)), <- lookup_drop, <- E2; done).
    split; [| |congruence|done]; rewrite length_app; cbn [length]; rewrite Nat.add_1_r.
    + rewrite (take_S_r _ _ _ Hlk), wire_app. unfold wire at 2. cbn [map concat fst snd]. by rewrite app_nil_r.
    + rewrite (take_S_r _ _ _ Hlm). by rewrite <- Hd.
  - destruct Hp as (Hg' & Hq & Hres). split.
    + apply Hsame; [by destruct res | done].
    + intros -> -> ->. split; [|by apply Hres]. rewrite app_nil_r in Ha.
      destruct (drop (length dlv) fs) as [|[c' p] fs'] eqn:Ef.
      * apply (f_equal length) in Ef. rewrite length_drop in Ef. cbn in Ef.
        pose proof (Forall2_length _ _ _ Hc). rewrite Hd. rewrite take_ge by lia. done.
      * pose proof (Forall2_drop _ _ _ (length dlv) Hc) as Hcd. rewrite Ef in Hcd.
        inversion Hcd as [|? y ? msgs' [Hsz Hop] Hcd' E1 E2]; subst. cbn [fst snd] in *.
        unfold wire in Ha. cbn [map concat fst snd] in Ha. rewrite Ha, frame_view_cons in En by done. done.
  - destruct Hp as (-> & Hi & Hg'). split; [by apply Hsame | done].
Qed.
Lemma streaming_data m oom d r r' :
  cb_on_data_chunk_recv m oom d r = (true, r') -> body_streaming r = true ->
  body_streaming r' = true /\ grpc_mode r' = grpc_mode r.
Proof.
  intros E Hs. unfold cb_on_data_chunk_recv in E. rewrite Hs in E. case_if_in E; [done|].
  rewrite push_eq in E. injection E as <-. unfold fire_data_event.
  destruct r as [????????????[] ???[|[]|[]]]; req_simpl; done.
Qed.

Lemma streaming_finalize r :
  body_streaming r = true ->
  body_streaming (finalize_request_body r) = true /\ grpc_mode (finalize_request_body r) = grpc_mode r.
Proof.
  intros Hs. unfold finalize_request_body, http_body_stream_close, fire_body_event, fire_data_event. rewrite Hs.
  destruct r as [??????[] ?????[] ???[|[]|[]]]; req_simpl; done.
Qed.

Lemma streaming_release r :
  body_streaming r = true ->
  body_streaming (http2_stream_release r) = true /\ grpc_mode (http2_stream_release r) = grpc_mode r.
Proof.
  intros Hs. unfold http2_stream_release, http_body_stream_error, http_body_stream_close, fire_data_event.
  destruct r as [???[] ??[] ?????[] [] ??[|[]|[]]]; req_simpl; subst; done.
Qed.

Lemma ginv_base cap rcv rcv' taken g b :
  ginv cap rcv taken g -> inv cap rcv' (taken ++ unread g) b -> body_streaming b = true -> Forall is_byte rcv' ->
  ginv cap rcv' taken (set_base g b).
Proof. intros [_ Ho _ [_ Hb]] Hi Hs Hb'. by split. Qed.

Lemma ginv_idle cap rcv taken g :
  ginv cap rcv taken g -> ginv cap rcv taken (set_base g (set_reader (base g) Idle)).
Proof.
  intros Hg. pose proof Hg as [Hi _ Hs [Hb _]].
  apply ginv_base with (rcv := rcv); [done|by apply inv_idle|by destruct (base g)|done].
Qed.

Lemma readMessage_streaming co g :
  body_streaming (base g) = true -> grpc_mode (base g) = mode -> readMessage co g = run_loop co (compact g).
Proof.
  intros Hs Hm. unfold readMessage. rewrite Hm, Hs.
  replace (mode =? GRPC_MODE_WEB_TEXT) with false by (by destruct mode_ok as [-> | ->]). cbn [negb andb].
  by rewrite Hs.
Qed.

Lemma loop_post_compact co rcv taken g res g' :
  ginv (body_cap mbs) rcv taken g -> loop_post (body_cap mbs) co rcv taken (compact g) res g' ->
  loop_post (body_cap mbs) co rcv taken g res g'.
Proof.
  intros Hg. destruct (compact_ginv (body_cap mbs) _ _ _ Hg) as (Hg' & Hb & Hh).
  unfold loop_post. rewrite Hh, Hb. assert (pending (compact g) = pending g) as ->; [|done].
  apply ginv_pending in Hg, Hg'. rewrite Hg in Hg'. by apply app_inv_head in Hg'.
Qed.

(** A read, from an idle handler or a resumed one, ends and does what the frames
    ahead say. *)
Lemma read_post co rcv taken g :
  ginv (body_cap mbs) rcv taken g -> grpc_mode (base g) = mode -> reader (base g) = Idle ->
  exists res g', readMessage co g = Some (res, g') /\ loop_post (body_cap mbs) co rcv taken g res g'.
Proof.
  intros Hg Hm Hi. rewrite readMessage_streaming by (done || apply Hg).
  destruct (compact_ginv (body_cap mbs) _ _ _ Hg) as (Hg' & Hb & Hh).
  destruct (message_loop_spec (body_cap mbs) cap_bound (S (length (body_queue (base (compact g))))) co rcv taken (compact g))
    as (res & g' & E & Hp); [done|by rewrite Hb|lia|].
  exists res, g'. split; [exact E|]. by apply loop_post_compact.
Qed.

Lemma resume_post rcv taken g :
  ginv (body_cap mbs) rcv taken g ->
  exists res g', readMessage_resume false g = Some (res, g') /\
    loop_post (body_cap mbs) true rcv taken (set_base g (set_reader (base g) Idle)) res g'.
Proof.
  intros Hg%ginv_idle. unfold readMessage_resume. set (g1 := set_base g _) in *.
  destruct (message_loop_spec (body_cap mbs) cap_bound (S (length (body_queue (base g1)))) true rcv taken g1)
    as (res & g' & E & Hp); [done|done|lia|].
  by exists res, g'.
Qed.

Lemma idle_hinv fs msgs rcv dlv g :
  hinv fs msgs rcv dlv g -> hinv fs msgs rcv dlv (set_base g (set_reader (base g) Idle)).
Proof. intros [Hg Hd Hhs Hm]. split; [by apply ginv_idle|done|done|done]. Qed.

Lemma start_hinv fs msgs : hinv fs msgs [] [] grpc_request_new.
Proof.
  pose proof cap_bound. assert (body_streaming (base grpc_request_new) = true /\ grpc_mode (base grpc_request_new) = mode)
    as [Hs Hm].
  { unfold grpc_request_new, body_policy, http_request_body_must_buffer. cbn.
    replace (mode =? GRPC_MODE_WEB_TEXT) with false by (by destruct mode_ok as [-> | ->]). cbn.
    destruct clen_ok as [-> | Hcl]; [done|]. by rewrite (proj2 (Z.leb_le _ _) Hcl), orb_true_r. }
  split; [|done|done|done]. split; [apply start_inv; lia|cbn; lia|done|by split; constructor].
Qed.

Lemma greach_hinv fs msgs rcv dlv g rest :
  Forall2 carries fs msgs -> greach rcv dlv g -> wire fs = rcv ++ rest -> hinv fs msgs rcv dlv g.
Proof.
  intros Hc Hr. revert rest.
  induction Hr as [|rcv dlv g b oom data Hr IH Hnc Hse Hl Hb E|rcv dlv g Hr IH Hnc Hse|rcv dlv g Hr IH|
    rcv dlv g g' co res Hr IH Hi E|rcv dlv g g' p c res Hr IH Hp E|rcv dlv g g' p res Hr IH Hp E]; intros rest Hw.
  - apply start_hinv.
  - rewrite <- app_assoc in Hw. destruct (IH _ Hw) as [Hg Hd Hhs Hm]. pose proof Hg as [Hinv _ Hs [Hb1 _]].
    destruct (streaming_data _ _ _ _ _ E Hs) as [Hs' Hm']. split; [|done|done|cbn [base set_base]; congruence].
    eapply ginv_base; [done| |done|by apply Forall_app]. eapply data_inv; [..|exact E]; try done.
  - destruct (IH _ Hw) as [Hg Hd Hhs Hm]. pose proof Hg as [Hinv _ Hs [Hb1 _]].
    destruct (streaming_finalize _ Hs) as [Hs' Hm']. split; [|done|done|cbn [base set_base]; congruence].
    eapply ginv_base; [done| |done|done]. by apply finalize_inv.
  - destruct (IH _ Hw) as [Hg Hd Hhs Hm]. pose proof Hg as [Hinv _ Hs [Hb1 _]].
    destruct (streaming_release _ Hs) as [Hs' Hm']. split; [|done|done|cbn [base set_base]; congruence].
    eapply ginv_base; [done| |done|done]. by apply release_inv.
  - pose proof (IH _ Hw) as Hh. destruct (read_post co _ _ _ (h_ginv _ _ _ _ _ Hh) (h_mode _ _ _ _ _ Hh) Hi)
      as (res' & g'' & E' & Hpost). rewrite E in E'. injection E' as <- <-.
    by eapply loop_hinv in Hpost as [? _].
  - pose proof (IH _ Hw) as Hh. destruct c.
    + unfold readMessage_resume in E. injection E as <- <-. cbn [msg_of]. rewrite app_nil_r. by apply idle_hinv.
    + destruct (resume_post _ _ _ (h_ginv _ _ _ _ _ Hh)) as (res' & g'' & E' & Hpost). rewrite E in E'. injection E' as <- <-.
      eapply loop_hinv in Hpost as [? _]; [done|done|by apply idle_hinv|done].
  - unfold readMessage_resume in E. injection E as <- <-. cbn [msg_of]. rewrite app_nil_r. by apply idle_hinv, (IH rest).
Qed.
End history.

(** A frame that has wholly arrived is what the next read answers. *)
Lemma next_arrived `{Base64} `{Gzip} mbs mode hs fs msgs rcv dlv g more m :
  0 <= mbs < 2 ^ 63 -> Forall2 (carries hs) fs msgs -> hinv mbs mode hs fs msgs rcv dlv g ->
  msgs !! length dlv = Some m -> rcv = wire (take (S (length dlv)) fs) ++ more ->
  exists c p r, next_frame (pending g) = FMsg c p r /\ opened (headers g) c p = RStr m.
Proof.
  intros Hmbs Hc [Hg _ Hhs _] Hm Hrcv. apply ginv_pending in Hg.
  destruct (Forall2_lookup_r _ _ _ _ _ Hc Hm) as ([c p] & Hf & Hsz & Hop). cbn [fst snd] in *.
  rewrite (take_S_r _ _ _ Hf), wire_app, <- app_assoc in Hrcv. rewrite Hg in Hrcv. apply app_inv_head in Hrcv.
  unfold wire in Hrcv. cbn [map concat fst snd] in Hrcv. rewrite app_nil_r in Hrcv.
  exists c, p, more. rewrite Hrcv, Hhs. by rewrite frame_view_cons.
Qed.

End GrpcProofs.
