(* ===== verification/GrpcText.v ===== *)
(** * gRPC: text bodies and the message round trip

    The base64 text body of grpc-web-text decodes to the concatenation of its
    frames although PHP's decoder does not restart at padding, and what
    writeMessage sends in any of the three modes is what readMessage returns.  The
    documented behaviour of base64 and gzip is stated as type classes, with an
    RFC 4648 codec as the concrete instance. *)

From S2P Require Import Prelude BodyStream Grpc GrpcProofs HttpRange.

Module GrpcText.
Import BodyStream Grpc GrpcProofs.

(** RFC 4648: the encoding is a run of alphabet characters and a run of padding,
    which is empty exactly for whole triples; triples are encoded independently;
    decoding inverts encoding. *)
Class Base64Laws `{Base64} : Prop := {
  b64_shape s : exists b pad, php_base64_encode s = b ++ pad /\ mem_byte EQUALS b = false /\
    Forall (fun c => is_pad c = true) pad /\ (pad = [] -> (length s mod 3 = 0)%nat) /\ (s <> [] -> b <> []);
  b64_aligned a b : (length a mod 3 = 0)%nat -> php_base64_encode (a ++ b) = php_base64_encode a ++ php_base64_encode b;
  b64_decode_encode s : Forall is_byte s -> php_base64_decode (php_base64_encode s) = Some s;
}.

(** gzip: what deflates inflates back, within the receive limit. *)
Class GzipLaws `{Gzip} : Prop := {
  gzip_inverse m z : gzip_deflate m = Some z -> zlen m <= GRPC_MAX_RECV_MESSAGE ->
    gzip_inflate z GRPC_MAX_RECV_MESSAGE = Some m;
}.

Section text.
Context `{Base64Laws}.

Lemma encode_nil : php_base64_encode [] = [].
Proof.
  pose proof (b64_aligned [] [] eq_refl) as E. cbn [app] in E.
  apply (f_equal length) in E. rewrite length_app in E. destruct (php_base64_encode []); [done|simpl in E; lia].
Qed.

Lemma decode_block a : Forall is_byte a -> forall out,
  match php_base64_encode a with [] => Some out | _ => b64_decode_append out (php_base64_encode a) end = Some (out ++ a).
Proof.
  intros Ha out. pose proof (b64_decode_encode a Ha) as E. unfold b64_decode_append.
  destruct (php_base64_encode a) eqn:Ea; [|by rewrite E].
  pose proof (b64_decode_encode [] (List.Forall_nil _)) as E0. rewrite encode_nil in E0. rewrite E in E0.
  injection E0 as ->. by rewrite app_nil_r.
Qed.

(** Bytes that are not padding join the block. *)
Lemma text_loop_body b : forall fuel out block s,
  mem_byte EQUALS b = false -> (length (b ++ s) <= fuel)%nat ->
  exists fuel', (length s <= fuel')%nat /\ text_loop fuel out block (b ++ s) = text_loop fuel' out (block ++ b) s.
Proof.
  induction b as [|c b IH]; intros fuel out block s Hb Hf.
  - exists fuel. by rewrite app_nil_r.
  - destruct fuel as [|fuel]; [simpl in Hf; lia|]. cbn [mem_byte existsb] in Hb. apply orb_false_iff in Hb as [Hc Hb].
    simpl in Hf. destruct (IH fuel out (block ++ [c]) s Hb) as (f' & Hf' & E); [lia|].
    exists f'. split; [done|]. cbn [app text_loop]. rewrite Z.eqb_sym, Hc. cbn [negb]. rewrite E. by rewrite <- app_assoc.
Qed.

(** A sequence of encoded frames starts with padding only if it is empty. *)
Lemma frames_stop frames : stops is_pad (concat (map php_base64_encode frames)).
Proof.
  induction frames as [|x frames IH]; cbn [map concat]; [done|].
  destruct (b64_shape x) as (b & pad & E & Hb & _ & _ & Hne). rewrite E.
  destruct x as [|z x]; [rewrite encode_nil in E; symmetry in E; apply app_eq_nil in E as [-> ->]; exact IH|].
  destruct b as [|c b]; [by destruct (Hne ltac:(done))|]. cbn [app stops]. cbn [mem_byte existsb] in Hb.
  apply orb_false_iff in Hb as [Hc _]. unfold is_pad. by rewrite Z.eqb_sym.
Qed.

Lemma text_loop_frames frames : Forall (Forall is_byte) frames ->
  forall fuel out a, Forall is_byte a -> (length a mod 3 = 0)%nat ->
  (length (concat (map php_base64_encode frames)) <= fuel)%nat ->
  text_loop fuel out (php_base64_encode a) (concat (map php_base64_encode frames)) = Some (out ++ a ++ concat frames).
Proof.
  induction 1 as [|x frames Hx Hfr IH]; intros fuel out a Ha Hal Hf.
  - cbn [map concat]. rewrite app_nil_r. destruct fuel; cbn [text_loop]; by apply decode_block.
  - cbn [map concat] in *. set (s := concat (map php_base64_encode frames)) in *.
    destruct (b64_shape x) as (b & pad & E & Hb & Hpad & Hal3 & _). rewrite E, <- app_assoc in *.
    destruct (text_loop_body b fuel out (php_base64_encode a) (pad ++ s) Hb Hf) as (f & Hf' & ->).
    assert (Forall is_byte (a ++ x)) as Hax by (by apply Forall_app).
    destruct pad as [|c pad].
    + cbn [app] in *. rewrite app_nil_r in E. rewrite <- E, <- b64_aligned by done.
      rewrite IH; [by rewrite <- app_assoc|done| |done].
      rewrite length_app, Nat.Div0.add_mod, Hal, (Hal3 eq_refl). done.
    + destruct f as [|f]; [simpl in Hf'; lia|]. cbn [app text_loop]. simpl in Hf'.
      apply Forall_cons_iff in Hpad as [Hc Hpad]. unfold is_pad in Hc. rewrite Hc. cbn [negb].
      change (c :: pad ++ s) with ((c :: pad) ++ s).
      rewrite take_while_stops, drop_while_stops by apply frames_stop.
      rewrite take_while_id, drop_while_id by (apply List.Forall_cons; done). cbn [app].
      rewrite <- app_assoc, <- E, <- b64_aligned by done. unfold b64_decode_append.
      rewrite b64_decode_encode by done. rewrite <- encode_nil at 1.
      rewrite length_app in Hf'. rewrite IH; [by rewrite <- !app_assoc|constructor|done|lia].
Qed.

Lemma text_decode_frames frames :
  Forall (Forall is_byte) frames ->
  text_loop (length (concat (map php_base64_encode frames))) [] [] (concat (map php_base64_encode frames)) =
  Some (concat frames).
Proof.
  intros Hf. pose proof (text_loop_frames frames Hf (length (concat (map php_base64_encode frames))) [] []
    (List.Forall_nil _) eq_refl (le_n _)) as E.
  by rewrite encode_nil in E.
Qed.
End text.

(** A grpc-web-text body decodes to its frames: the concatenation of
    independently base64-encoded frames, padded or not, decodes to the
    concatenation of the frames. *)
Theorem grpc_web_text_decode_frames `{Base64Laws} (frames : list bytes) :
  Forall (Forall is_byte) frames ->
  grpc_web_text_decode (concat (map grpc_web_text_encode frames)) = Some (concat frames).
Proof.
  apply text_decode_frames.
Qed.

(** ** An RFC 4648 codec *)

Definition b64_table : bytes := lit "ABCDEFGHIJKLMNOPQRSTUVWXYZabcdefghijklmnopqrstuvwxyz0123456789+/".
Definition b64_char (v : Z) : Z := nth (Z.to_nat v) b64_table 0.
Fixpoint index_of (c : Z) (t : bytes) (i : Z) : option Z :=
  match t with [] => None | x :: t' => if x =? c then Some i else index_of c t' (i + 1) end.
Definition b64_val (c : Z) : Z := default 0 (index_of c b64_table 0).

Fixpoint b64_encode (s : bytes) : bytes :=
  match s with
  | a :: b :: c :: rest =>
      [b64_char (a / 4); b64_char (a mod 4 * 16 + b / 16); b64_char (b mod 16 * 4 + c / 64); b64_char (c mod 64)]
      ++ b64_encode rest
  | [a; b] => [b64_char (a / 4); b64_char (a mod 4 * 16 + b / 16); b64_char (b mod 16 * 4); EQUALS]
  | [a] => [b64_char (a / 4); b64_char (a mod 4 * 16); EQUALS; EQUALS]
  | [] => []
  end.

Fixpoint b64_quads (s : bytes) : bytes :=
  match s with
  | w :: x :: y :: z :: rest =>
      [w * 4 + x / 16; x mod 16 * 16 + y / 4; y mod 4 * 64 + z] ++ b64_quads rest
  | [w; x; y] => [w * 4 + x / 16; x mod 16 * 16 + y / 4]
  | [w; x] => [w * 4 + x / 16]
  | _ => []
  end.

Definition b64_decode (s : bytes) : option bytes := Some (b64_quads (map b64_val (take_while (isnt EQUALS) s))).

Lemma list3_ind (P : bytes -> Prop) :
  P [] -> (forall a, P [a]) -> (forall a b, P [a; b]) -> (forall a b c s, P s -> P (a :: b :: c :: s)) -> forall s, P s.
Proof.
  intros H0 H1 H2 H3 s. remember (length s) as n eqn:E. assert (length s <= n)%nat as Hn by lia. clear E. revert s Hn.
  induction n as [|n IH]; intros s Hn; destruct s as [|a [|b [|c s]]]; try done; simpl in Hn; [lia..|].
  apply H3, IH. lia.
Qed.

Lemma b64_char_pad v : (EQUALS =? b64_char v) = false.
Proof.
  apply Z.eqb_neq. unfold b64_char. destruct (nth_in_or_default (Z.to_nat v) b64_table 0) as [H| ->]; [|done].
  intros E. rewrite <- E in H. apply mem_byte_In in H. by vm_compute in H.
Qed.

Lemma b64_val_char v : 0 <= v < 64 -> b64_val (b64_char v) = v.
Proof.
  intros Hv. assert (forallb (fun n => b64_val (b64_char (Z.of_nat n)) =? Z.of_nat n) (seq 0 64) = true) as H
    by (vm_compute; reflexivity).
  rewrite forallb_forall in H. specialize (H (Z.to_nat v)). rewrite Z2Nat.id in H by lia.
  apply Z.eqb_eq, H, in_seq. lia.
Qed.

Lemma b64_encode_shape s : exists b pad, b64_encode s = b ++ pad /\ mem_byte EQUALS b = false /\
    Forall (fun c => is_pad c = true) pad /\ (pad = [] -> (length s mod 3 = 0)%nat) /\ (s <> [] -> b <> []).
Proof.
  induction s as [|a|a b|a b c s (x & pad & E & Hx & Hp & Hl & Hn)] using list3_ind; cbn [b64_encode].
  - by exists [], [].
  - eexists [_; _], [_; _]. split; [done|]. cbn [mem_byte existsb]. rewrite !b64_char_pad.
    repeat split; try done. by repeat constructor.
  - eexists [_; _; _], [_]. split; [done|]. cbn [mem_byte existsb]. rewrite !b64_char_pad.
    repeat split; try done. by repeat constructor.
  - eexists (_ :: _ :: _ :: _ :: x), pad. rewrite E. split; [done|]. cbn [mem_byte existsb]. rewrite !b64_char_pad.
    repeat split; try done. intros Hpad. specialize (Hl Hpad).
    change (length (a :: b :: c :: s)) with (3 + length s)%nat.
    by rewrite Nat.Div0.add_mod, Hl.
Qed.

Lemma b64_encode_aligned a b : (length a mod 3 = 0)%nat -> b64_encode (a ++ b) = b64_encode a ++ b64_encode b.
Proof.
  induction a as [|x|x y|x y z a IH] using list3_ind; try done. intros Hl. cbn [b64_encode app]. rewrite IH; [done|].
  change (length (x :: y :: z :: a)) with (3 + length a)%nat in Hl. rewrite Nat.Div0.add_mod in Hl.
  change (3 mod 3)%nat with 0%nat in Hl. by rewrite Nat.add_0_l, Nat.Div0.mod_mod in Hl.
Qed.

Lemma b64_decode_encode_id s : Forall is_byte s -> b64_decode (b64_encode s) = Some s.
Proof.
  intros Hs. unfold b64_decode. f_equal. revert Hs. assert (forall v, isnt EQUALS (b64_char v) = true) as Hi.
  { intros v. unfold isnt. by rewrite Z.eqb_sym, b64_char_pad. }
  induction s as [|a|a b|a b c s IH] using list3_ind; cbn [b64_encode app]; intros Hs; [done|..];
    repeat match goal with Hs : Forall is_byte (_ :: _) |- _ => apply Forall_cons_iff in Hs as [? Hs] end;
    unfold is_byte in *; cbn [take_while]; rewrite !Hi; cbn [map take_while isnt Z.eqb Pos.eqb negb b64_quads app];
    rewrite !b64_val_char by dlia.
  - f_equal. dlia.
  - f_equal; [|f_equal]; dlia.
  - rewrite IH by done. f_equal; [|f_equal; [|f_equal]]; dlia.
Qed.

#[global] Instance demo_base64 : Base64 := { php_base64_encode := b64_encode; php_base64_decode := b64_decode }.
#[global] Instance demo_base64_laws : Base64Laws.
Proof. split; [exact b64_encode_shape | exact b64_encode_aligned | exact b64_decode_encode_id]. Qed.

(** ** From writeMessage to readMessage *)

Section roundtrip.
Context `{Base64Laws} `{GzipLaws}.

Fixpoint write_messages (r : grpc_response) (msgs : list bytes) : grpc_response :=
  match msgs with
  | [] => r
  | m :: msgs' => write_messages (snd (writeMessage false r m)) msgs'
  end.

Fixpoint read_messages (n : nat) (g : grpc_request) : list read_result :=
  match n with
  | O => []
  | S n' => match readMessage true g with
            | Some (res, g') => res :: read_messages n' g'
            | None => []
            end
  end.

(** A response that accepts messages. *)
Definition writable (r : grpc_response) : Prop :=
  closed r = false /\ send_file_req r = false /\ stream_ops r = true.

(** The frame writeMessage makes of a message. *)
Definition pack (compress : bool) (m : bytes) : bool * bytes :=
  if compress then match gzip_deflate m with Some z => (true, z) | None => (false, m) end else (false, m).

Definition on_wire (mode : Z) (framed : bytes) : bytes :=
  if mode =? GRPC_MODE_WEB_TEXT then grpc_web_text_encode framed else framed.

Lemma write_messages_appended msgs : forall r, writable r ->
  appended (write_messages r msgs) = appended r ++
    map (fun m => on_wire (res_grpc_mode r) (grpc_frame_message (snd (pack (grpc_compress r) m)) (fst (pack (grpc_compress r) m)))) msgs.
Proof.
  induction msgs as [|m msgs IH]; intros r Hw; cbn [write_messages map]; [by rewrite app_nil_r|].
  destruct Hw as (Hc & Hs & Ho). unfold writeMessage. rewrite Hc, Hs, Ho. cbn [negb].
  unfold pack, grpc_message_deflate_gzip, on_wire in *.
  destruct (grpc_compress r) eqn:Ecm; [destruct (gzip_deflate m) eqn:Ed|]; cbn [snd fst];
    (rewrite IH; [|done]); cbn [appended res_grpc_mode grpc_compress]; by rewrite ?Ecm, <- app_assoc.
Qed.

Lemma pack_carries hs compress m :
  (compress = true -> find_string hs (lit "grpc-encoding") = Some (lit "gzip")) ->
  zlen m <= GRPC_MAX_RECV_MESSAGE -> (forall z, gzip_deflate m = Some z -> zlen z <= GRPC_MAX_RECV_MESSAGE) ->
  carries hs (pack compress m) m.
Proof.
  intros Hhs Hm Hz. unfold carries, pack. destruct compress; [|done].
  destruct (gzip_deflate m) as [z|] eqn:Ed; [|done]. cbn [fst snd]. split; [by apply Hz|].
  unfold opened, grpc_message_inflate. rewrite Hhs by done. cbn [eqb_bytes].
  change (eqb_bytes (lit "gzip") (lit "gzip")) with true. cbn iota. by erewrite gzip_inverse.
Qed.

Lemma frame_bytes c p : Forall is_byte p -> Forall is_byte (grpc_frame_message p c).
Proof.
  intros Hp. unfold grpc_frame_message, grpc_write_frame_header. cbn [app]. rewrite !land_255.
  repeat (apply List.Forall_cons; [unfold is_byte, u8; first [by destruct c | dlia] |]). done.
Qed.

Lemma wire_bytes fs : Forall (fun f => Forall is_byte (snd f)) fs -> Forall is_byte (wire fs).
Proof.
  induction 1 as [|f fs Hf _ IH]; [apply List.Forall_nil|]. unfold wire. cbn [map concat].
  apply Forall_app. split; [by apply frame_bytes | exact IH].
Qed.

(** The buffer a fully received request reads from. *)
Definition reads_from (g : grpc_request) (buf : bytes) : Prop :=
  if grpc_mode (base g) =? GRPC_MODE_WEB_TEXT then
    match grpc_text_body g with
    | Some t => t = buf
    | None => exists b, body (base g) = Some b /\ grpc_web_text_decode b = Some buf
    end
  else body_streaming (base g) = false /\ (body_upgrade_to_stream (base g) = false \/ complete (base g) = true) /\
       body (base g) = Some buf.

Lemma readMessage_buffered g buf :
  reads_from g buf ->
  exists g1, readMessage true g = Some (finish_message g1 (grpc_deframe_next buf (grpc_read_offset g) GRPC_MAX_RECV_MESSAGE)) /\
    headers g1 = headers g /\ grpc_read_offset g1 = grpc_read_offset g /\
    (forall o, reads_from (set_offset g1 o) buf).
Proof.
  unfold reads_from, readMessage. destruct (grpc_mode (base g) =? GRPC_MODE_WEB_TEXT) eqn:Em.
  - intros Ht. exists (set_text g (Some buf)). cbn. rewrite Em.
    destruct (grpc_text_body g) as [t|]; [by subst|]. destruct Ht as (b & -> & ->). done.
  - intros (Hs & Hu & Hb). exists g. cbn. rewrite Em, Hs. cbn [negb andb].
    assert ((if body_upgrade_to_stream (base g) then set_base g (http2_request_body_upgrade (base g)) else g) = g) as ->.
    { destruct (body_upgrade_to_stream (base g)) eqn:Eu; [|done]. destruct Hu as [|Hc]; [done|].
      unfold http2_request_body_upgrade. rewrite Hs, Hc. cbn [orb]. by destruct g. }
    rewrite Hs, Hb. done.
Qed.

(** Reading a buffer of frames to its end. *)
Lemma read_messages_frames hs fs msgs : Forall2 (carries hs) fs msgs -> forall g buf,
  headers g = hs -> reads_from g buf -> Forall is_byte buf -> (grpc_read_offset g <= length buf)%nat ->
  drop (grpc_read_offset g) buf = wire fs ->
  read_messages (S (length msgs)) g = map RStr msgs ++ [RNull].
Proof.
  induction 1 as [|[c p] m fs msgs [Hsz Hop] Hc IH]; intros g buf Hhs Hr Hb Ho Hd.
  - cbn [read_messages length map app]. destruct (readMessage_buffered _ _ Hr) as (g1 & -> & _).
    pose proof (deframe_next_frame _ _ Hb Ho) as E. rewrite Hd in E. cbn in E. rewrite E. done.
  - cbn [length]. remember (S (length msgs)) as n eqn:En. cbn [read_messages map app]. cbn [fst snd] in *.
    destruct (readMessage_buffered _ _ Hr) as (g1 & -> & Hh1 & Ho1 & Hr1).
    pose proof (deframe_next_frame _ _ Hb Ho) as E. rewrite Hd in E. unfold wire in E. cbn [map concat fst snd] in E.
    rewrite frame_view_cons in E by done. destruct E as (cur & -> & Hcur & Hdr).
    assert (finish_message g1 (DMessage c p cur) = (RStr m, set_offset g1 cur)) as ->.
    { rewrite <- Hhs, <- Hh1 in Hop. unfold finish_message, opened in *. cbn [headers set_offset].
      destruct c; [|congruence]. destruct (grpc_message_inflate _ _); congruence. }
    f_equal. subst n. apply (IH _ buf); [cbn; congruence|apply Hr1|done|done|exact Hdr].
Qed.

(** The body a peer receives when the response is sent. *)
Lemma write_messages_decodes r msgs :
  writable r -> appended r = [] ->
  Forall (fun m => Forall is_byte (snd (pack (grpc_compress r) m))) msgs ->
  (if res_grpc_mode r =? GRPC_MODE_WEB_TEXT then grpc_web_text_decode (concat (appended (write_messages r msgs)))
   else Some (concat (appended (write_messages r msgs)))) = Some (wire (map (pack (grpc_compress r)) msgs)).
Proof.
  intros Hw Ha Hb. rewrite write_messages_appended by done. rewrite Ha. cbn [app]. unfold on_wire, wire.
  set (fr := fun f => grpc_frame_message (snd f) (fst f)). rewrite map_map.
  destruct (res_grpc_mode r =? GRPC_MODE_WEB_TEXT); [|done].
  set (frames := map (fun m => fr (pack (grpc_compress r) m)) msgs).
  rewrite <- (map_map (fun m => fr (pack (grpc_compress r) m)) grpc_web_text_encode).
  fold frames. unfold grpc_web_text_decode, grpc_web_text_encode. rewrite text_decode_frames; [done|].
  unfold frames. apply List.Forall_map. eapply Forall_impl; [exact Hb|]. intros m Hm. by apply frame_bytes.
Qed.
End roundtrip.

Lemma grpc_web_text_decode_frames_witness :
  grpc_web_text_decode (lit "aGVsbG8=d29ybGQhISE=") = Some (lit "helloworld!!!").
Proof.
  pose proof (grpc_web_text_decode_frames [lit "hello"; lit "world!!!"]) as E.
  vm_compute in E. apply E.
  repeat (apply List.Forall_cons; [repeat (apply List.Forall_cons; [done|]); apply List.Forall_nil|]). apply List.Forall_nil.
Defined.

(** Messages round-trip through the wire format in every mode.  Whatever
    messages a handler writes with writeMessage, native, grpc-web or
    grpc-web-text, gzipped or not, a request that carries the resulting bytes in
    the same mode yields with readMessage exactly those messages, in order, and
    then null. *)
Theorem grpc_message_roundtrip `{Base64Laws} `{GzipLaws} (r : grpc_response) (g : grpc_request) (msgs : list bytes) :
  writable r -> appended r = [] ->
  Forall (fun m => Forall is_byte m /\ zlen m <= GRPC_MAX_RECV_MESSAGE /\
            forall z, gzip_deflate m = Some z -> Forall is_byte z /\ zlen z <= GRPC_MAX_RECV_MESSAGE) msgs ->
  (grpc_compress r = true -> find_string (headers g) (lit "grpc-encoding") = Some (lit "gzip")) ->
  grpc_mode (base g) = res_grpc_mode r -> body_streaming (base g) = false -> complete (base g) = true ->
  body (base g) = Some (concat (appended (write_messages r msgs))) ->
  grpc_text_body g = None -> grpc_read_offset g = 0%nat ->
  read_messages (S (length msgs)) g = map RStr msgs ++ [RNull].
Proof.
  intros Hw Ha Hm Hhs Hmode Hs Hc Hb Ht Ho.
  assert (Forall (fun m => Forall is_byte (snd (pack (grpc_compress r) m))) msgs) as Hpb.
  { eapply Forall_impl; [exact Hm|]. intros m (H3 & _ & H4). unfold pack. destruct (grpc_compress r); [|done].
    destruct (gzip_deflate m) eqn:Ed; [by apply H4 | done]. }
  apply (read_messages_frames (headers g) (map (pack (grpc_compress r)) msgs) msgs) with (buf := wire (map (pack (grpc_compress r)) msgs)).
  - apply Forall2_fmap_l, Forall_Forall2_diag. eapply Forall_impl; [exact Hm|]. intros m (H3 & H4 & H5).
    apply pack_carries; [done|done|]. intros z Hz. by apply H5.
  - done.
  - pose proof (write_messages_decodes r msgs Hw Ha Hpb) as Hd. unfold reads_from. rewrite Hmode, Ht, Hb.
    destruct (res_grpc_mode r =? GRPC_MODE_WEB_TEXT); [by eexists|]. split; [done|]. split; [by right|done].
  - apply wire_bytes, List.Forall_map. eapply Forall_impl; [exact Hpb|]. done.
  - rewrite Ho. lia.
  - by rewrite Ho, drop_0.
Qed.

(** A toy codec with a one-byte header. *)
#[global] Instance demo_gzip : Gzip := {
  gzip_inflate z max := match z with 31 :: m => if zlen m <=? max then Some m else None | _ => None end;
  gzip_deflate m := Some (31 :: m);
}.

#[global] Instance demo_gzip_laws : GzipLaws.
Proof. split. intros m z [= <-] Hm. cbn. by rewrite (proj2 (Z.leb_le _ _) Hm). Qed.

Definition demo_response (mode : Z) : grpc_response :=
  {| closed := false; send_file_req := false; stream_ops := true; grpc_compress := true; streaming := false;
     committed := false; headers_sent := false; res_grpc_mode := mode; appended := [] |}.

Definition demo_buffered (mode : Z) (b : bytes) : grpc_request :=
  {| base := MkReq 0 mode (Some b) true false false false false [] 0 0 0 false true None 0 Idle;
     headers := Some {[ lit "grpc-encoding" := ZString (lit "gzip") ]};
     grpc_read_offset := 0; grpc_reassembly := None; grpc_text_body := None |}.

Lemma grpc_message_roundtrip_witness :
  read_messages 3 (demo_buffered GRPC_MODE_WEB_TEXT
    (concat (appended (write_messages (demo_response GRPC_MODE_WEB_TEXT) [lit "ping"; lit "pong!"])))) =
  [RStr (lit "ping"); RStr (lit "pong!"); RNull].
Proof.
  apply (grpc_message_roundtrip (demo_response GRPC_MODE_WEB_TEXT) _ [lit "ping"; lit "pong!"]).
  - done.
  - done.
  - repeat (apply List.Forall_cons;
      [split_and!; [repeat (apply List.Forall_cons; [done|]); apply List.Forall_nil | done |
        intros z [= <-]; split; [repeat (apply List.Forall_cons; [done|]); apply List.Forall_nil | done]]|]).
    apply List.Forall_nil.
  - intros _. vm_compute. reflexivity.
  - done.
  - done.
  - done.
  - done.
  - done.
  - done.
Defined.

(** Two messages, of which the first and three header bytes of the second have
    arrived in two chunks. *)
Definition demo_frames : list (bool * bytes) := [(false, [104; 105]); (false, [])].
Definition demo_g0 : grpc_request := grpc_request_new 0 GRPC_MODE_NATIVE None.
Definition demo_g1 : grpc_request :=
  set_base demo_g0 (snd (cb_on_data_chunk_recv 0 false [0; 0; 0] (base demo_g0))).
Definition demo_g2 : grpc_request :=
  set_base demo_g1 (snd (cb_on_data_chunk_recv 0 false [0; 2; 104; 105; 0; 0; 0] (base demo_g1))).


(** ** grpc-timeout *)

Lemma timeout_digits_spec ds v :
  0 <= v -> (length ds <= 18)%nat -> v * 10 ^ Z.of_nat (length ds) + 10 ^ Z.of_nat (length ds) <= 10 ^ 19 ->
  timeout_digits v ds = if forallb is_digit ds then Some (fold_left (fun v c => v * 10 + (c - 48)) ds v) else None.
Proof.
  revert v. induction ds as [|c ds IH]; intros v Hv Hl Hb; [done|]. cbn [timeout_digits forallb fold_left].
  assert ((c <? 48) || (57 <? c) = negb (is_digit c)) as ->.
  { unfold is_digit. rewrite negb_andb, <- !Z.ltb_antisym. done. }
  destruct (is_digit c) eqn:Ec; [|done]. cbn [negb andb]. unfold is_digit in Ec. b2p.
  cbn [length] in Hl, Hb. rewrite Nat2Z.inj_succ, Z.pow_succ_r in Hb by lia.
  assert (0 < 10 ^ Z.of_nat (length ds)) by (apply Z.pow_pos_nonneg; lia).
  rewrite u64_small by nia. apply IH; [lia|lia|nia].
Qed.

(** The grpc-timeout header is parsed by the specification: one to eight
    digits and a unit give the exact number of nanoseconds, clamped to the largest
    64-bit value instead of wrapping; anything else gives 0. *)
Theorem grpc_parse_timeout_spec (h : gmap bytes zval) (s : bytes) :
  h !! lit "grpc-timeout" = Some (ZString s) ->
  grpc_parse_timeout_ns (Some h) =
    if (2 <=? length s)%nat && (length s <=? 9)%nat && forallb is_digit (removelast s) then
      match unit_ns (List.last s 0) with
      | Some u => Z.min UINT64_MAX (HttpRange.dec_value (removelast s) * u)
      | None => 0
      end
    else 0.
Proof.
  intros Hh. unfold grpc_parse_timeout_ns, find_string. rewrite Hh.
  destruct (Nat.ltb_spec (length s) 2); [by rewrite (proj2 (Nat.leb_gt _ _)) by lia|].
  rewrite (proj2 (Nat.leb_le 2 _)) by lia. cbn [orb andb].
  destruct (Nat.ltb_spec 9 (length s)); [by rewrite (proj2 (Nat.leb_gt _ _)) by lia|].
  rewrite (proj2 (Nat.leb_le _ 9)) by lia. cbn [andb].
  assert (length (removelast s) = (length s - 1)%nat) as Hl.
  { destruct s as [|x s _] using rev_ind; [done|]. rewrite removelast_last, length_app. simpl. lia. }
  assert (10 ^ Z.of_nat (length (removelast s)) <= 10 ^ 8) as Hp by (apply Z.pow_le_mono_r; lia).
  rewrite timeout_digits_spec by lia. fold (HttpRange.dec_value (removelast s)).
  destruct (forallb is_digit (removelast s)) eqn:Ed; [|done].
  destruct (unit_ns (List.last s 0)) as [u|] eqn:Eu; [|done].
  assert (0 < u) as Hu by (unfold unit_ns in Eu; repeat case_if_in Eu; simplify_eq; lia).
  assert (0 <= HttpRange.dec_value (removelast s)) as Hv.
  { unfold HttpRange.dec_value. enough (forall v, 0 <= v -> 0 <= fold_left (fun v c => v * 10 + (c - 48)) (removelast s) v) by auto with lia.
    revert Ed. clear. generalize (removelast s) as l. induction l as [|c l IH]; intros Hd v Hv; [done|].
    cbn [forallb fold_left] in *. unfold is_digit in *. b2p. apply IH; [done|lia]. }
  set (v := HttpRange.dec_value (removelast s)) in *. clearbody v. unfold UINT64_MAX in *.
  destruct (Z.ltb_spec ((2 ^ 64 - 1) / u) v) as [Hov|Hok].
  - assert (2 ^ 64 - 1 < v * u) by (pose proof (Z.mul_succ_div_gt (2 ^ 64 - 1) u); nia). lia.
  - assert (v * u <= 2 ^ 64 - 1) by (pose proof (Z.mul_div_le (2 ^ 64 - 1) u); nia).
    rewrite u64_small by nia. lia.
Qed.

Lemma grpc_parse_timeout_spec_witness :
  grpc_parse_timeout_ns (Some {[ lit "grpc-timeout" := ZString (lit "250m") ]}) = 250000000.
Proof. rewrite (grpc_parse_timeout_spec _ (lit "250m")) by reflexivity. vm_compute. reflexivity. Defined.

(** With a declared content length below the streaming threshold, readMessage
    does not wait: while such a request is still arriving it answers null, whatever
    has been received, a complete message included. *)
Theorem grpc_small_body_unread `{Base64} `{Gzip} (mbs clen : Z) (hs : hashtable) (data : bytes) (b : http_request_t) :
  0 < clen < HTTP_BODY_STREAM_THRESHOLD ->
  cb_on_data_chunk_recv mbs false data (base (grpc_request_new clen GRPC_MODE_NATIVE hs)) = (true, b) ->
  readMessage true (set_base (grpc_request_new clen GRPC_MODE_NATIVE hs) b) =
    Some (RNull, set_base (grpc_request_new clen GRPC_MODE_NATIVE hs) b).
Proof.
  intros Hc. assert (base (grpc_request_new clen GRPC_MODE_NATIVE hs) = http2_stream_new clen GRPC_MODE_NATIVE) as ->.
  { unfold grpc_request_new, body_policy, HTTP_BODY_STREAM_THRESHOLD, HTTP_BODY_STREAM_AUTO_THRESHOLD in *. cbn.
    rewrite (proj2 (Z.eqb_neq clen 0)) by lia. rewrite !(proj2 (Z.leb_gt _ clen)) by lia. done. }
  unfold cb_on_data_chunk_recv. cbn [body_streaming http2_stream_new request_body_buf].
  case_if; [done|]. intros [= <-]. reflexivity.
Qed.

Lemma grpc_small_body_unread_witness :
  exists b, cb_on_data_chunk_recv 0 false (grpc_frame_message (lit "hi") false)
      (base (grpc_request_new 7 GRPC_MODE_NATIVE None)) = (true, b) /\
    readMessage true (set_base (grpc_request_new 7 GRPC_MODE_NATIVE None) b) =
      Some (RNull, set_base (grpc_request_new 7 GRPC_MODE_NATIVE None) b).
Proof.
  eexists. split; [vm_compute; reflexivity|].
  apply (grpc_small_body_unread 0 7 None (grpc_frame_message (lit "hi") false)); [done | vm_compute; reflexivity].
Defined.
End GrpcText.
