(* ===== verification/StreamCredit.v ===== *)
(** * Flow-control credit shared by a worker and a reactor

    Models include/core/stream_credit.h, the one object that two threads touch, as
    a system of atomic steps, with its two users: the worker of
    src/src/core/worker_dispatch.c ([worker_stream_append_chunk],
    [worker_stream_wait_credit] and the disposal of the dispatch context) and the
    reactor of src/src/http3/http3_callbacks.c and http3_stream.c (acknowledgements,
    peer close and stream teardown).  Every load, store and read-modify-write of the
    shared object is one step; the threads interleave freely.  The trigger event is
    the worker's: signalling it from the reactor makes it pending, and the worker's
    loop delivers it when the coroutine is suspended. *)

From S2P Require Import Prelude.

Module StreamCredit.

Record stream_credit_t := {
  acked : Z;
  dead : bool;
  refs : Z;
  waker : bool;
  waker_busy : Z;
  freed : bool;
}.

Definition stream_credit_create : stream_credit_t :=
  {| acked := 0; dead := false; refs := 2; waker := false; waker_busy := 0; freed := false |}.

Section fields.
Variable sc : stream_credit_t.
Definition set_acked v := {| acked := v; dead := dead sc; refs := refs sc; waker := waker sc; waker_busy := waker_busy sc; freed := freed sc |}.
Definition set_dead := {| acked := acked sc; dead := true; refs := refs sc; waker := waker sc; waker_busy := waker_busy sc; freed := freed sc |}.
Definition set_waker w := {| acked := acked sc; dead := dead sc; refs := refs sc; waker := w; waker_busy := waker_busy sc; freed := freed sc |}.
Definition add_busy n := {| acked := acked sc; dead := dead sc; refs := refs sc; waker := waker sc; waker_busy := waker_busy sc + n; freed := freed sc |}.
(** [fetch_sub] and, on the last reference, [free]. *)
Definition stream_credit_release := {| acked := acked sc; dead := dead sc; refs := refs sc - 1; waker := waker sc;
  waker_busy := waker_busy sc; freed := refs sc =? 1 |}.
End fields.

(** The worker's [credit_wake]. *)
Inductive event_t :=
  | EvNull
  | EvLive (signalled : bool)
  | EvDisposed.

(** Where the reactor is.  The flag says that the wake belongs to
    [stream_credit_abandon], which goes on to release. *)
Inductive reactor_pc :=
  | RIdle
  | RAckLoaded (v n : Z)
  | RWake (abandon : bool)
  | RWakeBusy (abandon : bool)
  | RWakeLoaded (t : bool) (abandon : bool)
  | RWakeDone (abandon : bool)
  | RRelease
  | RGone.

(** Where the worker is: in the handler, at the tests of the waiting loop, about
    to publish the trigger, suspended, or disposing of its context. *)
Inductive worker_pc :=
  | WRun
  | WCheckAcked
  | WCheckDead
  | WArm
  | WPublish
  | WParked
  | WClear
  | WSpin
  | WRelease
  | WDispose
  | WDone.

Record state := {
  credit : stream_credit_t;
  event : event_t;
  posted : Z;
  failed : bool;
  rpc : reactor_pc;
  wpc : worker_pc;
}.

Definition with_r (s : state) (sc : stream_credit_t) (ev : event_t) (r : reactor_pc) : state :=
  {| credit := sc; event := ev; posted := posted s; failed := failed s; rpc := r; wpc := wpc s |}.
Definition with_w (s : state) (sc : stream_credit_t) (ev : event_t) (w : worker_pc) : state :=
  {| credit := sc; event := ev; posted := posted s; failed := failed s; rpc := rpc s; wpc := w |}.
Definition set_failed (s : state) : state :=
  {| credit := credit s; event := event s; posted := posted s; failed := true; rpc := rpc s; wpc := WRun |}.
Definition post (s : state) (n : Z) : state :=
  {| credit := credit s; event := event s; posted := u64 (posted s + n); failed := failed s; rpc := rpc s; wpc := WCheckAcked |}.

Definition init : state :=
  {| credit := stream_credit_create; event := EvNull; posted := 0; failed := false; rpc := RIdle; wpc := WRun |}.

(** A step goes to a state, touches freed memory, or is not enabled. *)
Inductive outcome :=
  | Step (s : state)
  | Crash
  | Disabled.

(** An access to the shared object. *)
Definition touch (s : state) (k : outcome) : outcome := if freed (credit s) then Crash else k.

(** ** The reactor *)

(** What the transport makes an idle reactor do: bytes acknowledged (never more
    than were posted), the peer closing the stream, the stream going away. *)
Inductive reactor_event :=
  | EvAck (n : Z)
  | EvPeerClosed
  | EvStreamFreed
  | EvContinue.

(** [t->trigger(t)]. *)
Definition trigger (s : state) (k : event_t -> outcome) : outcome :=
  match event s with
  | EvLive _ => k (EvLive true)
  | _ => Crash
  end.

Definition reactor_step (e : reactor_event) (s : state) : outcome :=
  let sc := credit s in
  let go sc r := Step (with_r s sc (event s) r) in
  match rpc s, e with
  | RIdle, EvAck n => if (0 <=? n) && (acked sc + n <=? posted s) then touch s (go sc (RAckLoaded (acked sc) n)) else Disabled
  | RIdle, EvPeerClosed => touch s (go (set_dead sc) RIdle)
  | RIdle, EvStreamFreed => touch s (go (set_dead sc) (RWake true))
  | RAckLoaded v n, EvContinue => touch s (go (set_acked sc (v + n)) (RWake false))
  | RWake a, EvContinue => touch s (go (add_busy sc 1) (RWakeBusy a))
  | RWakeBusy a, EvContinue => touch s (go sc (RWakeLoaded (waker sc) a))
  | RWakeLoaded true a, EvContinue => trigger s (fun ev => Step (with_r s sc ev (RWakeDone a)))
  | RWakeLoaded false a, EvContinue => go sc (RWakeDone a)
  | RWakeDone a, EvContinue => touch s (go (add_busy sc (-1)) (if a then RRelease else RIdle))
  | RRelease, EvContinue => touch s (go (stream_credit_release sc) RGone)
  | _, _ => Disabled
  end.

(** ** The worker *)

Definition WORKER_STREAM_INFLIGHT_CAP : Z := 1024 * 1024.

(** What may happen to the worker next: the handler appends a chunk or ends, the
    code goes on, the coroutine cannot suspend, the suspended coroutine gets its
    pending signal, or it times out or is cancelled. *)
Inductive worker_event :=
  | EvAppend (n : Z)
  | EvEnd
  | EvGo
  | EvNoCoroutine
  | EvSignal
  | EvTimeout.

Definition worker_step (e : worker_event) (s : state) : outcome :=
  let sc := credit s in
  let go sc w := Step (with_w s sc (event s) w) in
  match wpc s, e with
  | WRun, EvAppend n =>
      if failed s || negb (0 <=? n) then Disabled
      else touch s (if dead sc then Disabled else Step (post s n))
  | WRun, EvEnd => go sc (match event s with EvNull => WRelease | _ => WClear end)
  | WCheckAcked, EvGo =>
      touch s (go sc (if WORKER_STREAM_INFLIGHT_CAP <=? u64 (posted s - acked sc) then WCheckDead else WRun))
  | WCheckDead, EvGo => touch s (if dead sc then Step (set_failed s) else go sc WArm)
  | WArm, EvNoCoroutine => go sc WRun
  | WArm, EvGo =>
      match event s with
      | EvNull => Step (with_w s sc (EvLive false) WPublish)
      | _ => go sc WParked
      end
  | WPublish, EvGo => touch s (go (set_waker sc true) WCheckAcked)
  | WParked, EvSignal =>
      match event s with
      | EvLive true => Step (with_w s sc (EvLive false) WCheckAcked)
      | _ => Disabled
      end
  | WParked, EvTimeout => Step (set_failed s)
  | WClear, EvGo => touch s (go (set_waker sc false) WSpin)
  | WSpin, EvGo => touch s (if waker_busy sc =? 0 then go sc WRelease else go sc WSpin)
  | WRelease, EvGo => touch s (go (stream_credit_release sc) WDispose)
  | WDispose, EvGo => Step (with_w s sc (match event s with EvNull => EvNull | _ => EvDisposed end) WDone)
  | _, _ => Disabled
  end.

Inductive reach : state -> Prop :=
  | reach_init : reach init
  | reach_reactor s e s' : reach s -> reactor_step e s = Step s' -> reach s'
  | reach_worker s e s' : reach s -> worker_step e s = Step s' -> reach s'.
(** ** The invariant *)

Definition reactor_ref (r : reactor_pc) : Z := match r with RGone => 0 | _ => 1 end.
Definition worker_ref (w : worker_pc) : Z := match w with WDispose | WDone => 0 | _ => 1 end.
Definition signalling (r : reactor_pc) : Z := match r with RWakeBusy _ | RWakeLoaded _ _ | RWakeDone _ => 1 | _ => 0 end.

(** The worker has not begun to retract its trigger. *)
Definition armed (w : worker_pc) : bool :=
  match w with WRun | WCheckAcked | WCheckDead | WArm | WParked | WClear => true | _ => false end.
(** The worker has fenced out the signallers. *)
Definition fenced (w : worker_pc) : bool := match w with WRelease | WDispose | WDone => true | _ => false end.
Definition is_live (e : event_t) : bool := match e with EvLive _ => true | _ => false end.
(** The worker decided to wait on the credit it saw. *)
Definition waiting (w : worker_pc) : bool := match w with WCheckDead | WArm | WParked => true | _ => false end.
Definition committed (w : worker_pc) : bool := match w with WArm | WParked => true | _ => false end.
(** A wake is on its way to the published trigger. *)
Definition waking (r : reactor_pc) : bool :=
  match r with RWake _ | RWakeBusy _ | RWakeLoaded true _ => true | _ => false end.
(** The reactor is past the wake of its teardown. *)
Definition leaving (r : reactor_pc) : bool :=
  match r with RWakeLoaded false true | RWakeDone true | RRelease | RGone => true | _ => false end.
(** The reactor is tearing the stream down. *)
Definition abandoning (r : reactor_pc) : bool :=
  match r with RWake true | RWakeBusy true | RWakeLoaded _ true | RWakeDone true | RRelease | RGone => true | _ => false end.

Record inv (s : state) : Prop := {
  i_refs : refs (credit s) = reactor_ref (rpc s) + worker_ref (wpc s);
  i_freed : freed (credit s) = (refs (credit s) =? 0);
  i_busy : waker_busy (credit s) = signalling (rpc s);
  i_waker : waker (credit s) = true -> is_live (event s) = true /\ armed (wpc s) = true;
  i_loaded : forall a, rpc s = RWakeLoaded true a -> is_live (event s) = true /\ fenced (wpc s) = false;
  i_event : match event s with
            | EvNull => wpc s <> WParked /\ wpc s <> WPublish /\ wpc s <> WClear /\ wpc s <> WSpin
            | EvLive _ => wpc s <> WDone /\ (waker (credit s) = true \/ armed (wpc s) = false)
            | EvDisposed => wpc s = WDone
            end;
  i_wait : waiting (wpc s) = true -> waker (credit s) = true -> event s = EvLive false ->
    WORKER_STREAM_INFLIGHT_CAP <= u64 (posted s - acked (credit s)) \/ waking (rpc s) = true;
  i_dead : abandoning (rpc s) = true -> dead (credit s) = true;
  i_gone : leaving (rpc s) = true -> committed (wpc s) = true -> waker (credit s) = true -> event s <> EvLive false;
}.

Ltac cases_on_step H :=
  repeat match type of H with
  | context [match ?x with _ => _ end] => destruct x eqn:?; try discriminate H
  end.

Ltac inv_solve :=
  split; cbn in *; intros; subst; cbn in *; b2p;
  repeat match goal with
  | H : _ /\ _ |- _ => destruct H
  | H : Some _ = Some _ |- _ => injection H as H
  end; subst; try done; try lia; try (intuition congruence).

Lemma reactor_inv s e s' : inv s -> reactor_step e s = Step s' -> inv s'.
Proof.
  intros [] H. destruct s as [[ak dd rf wk bz fr] ev ps fl rp wp]. unfold reactor_step, touch, trigger, with_r in H. cbn in *.
  cases_on_step H; injection H as <-; subst; cbn in *; inv_solve.
  match goal with H : RWakeLoaded _ _ = _ |- _ => injection H as -> _ end.
  destruct (i_waker0 eq_refl) as [? ?]. split; [done|]. by destruct wp.
Qed.

Lemma worker_inv s e s' : inv s -> worker_step e s = Step s' -> inv s'.
Proof.
  intros [] H. destruct s as [[ak dd rf wk bz fr] ev ps fl rp wp]. unfold worker_step, touch, with_w, post, set_failed in H.
  cbn in *. cases_on_step H; injection H as <-; subst; cbn in *; inv_solve.
  all: try (destruct (i_loaded0 _ eq_refl) as [? ?]).
  all: try (destruct ev as [|[]|]; cbn in *; intuition congruence).
  all: try discriminate.
  destruct rp as [| |[]|[]|[] []|[]| |]; cbn in *; intuition congruence.
Qed.

Lemma init_inv : inv init.
Proof. split; cbn; done. Qed.

Lemma credit_reach_inv s : reach s -> inv s.
Proof. induction 1; [apply init_inv | by eapply reactor_inv | by eapply worker_inv]. Qed.

(** A thread that still holds its reference finds the object allocated. *)
Lemma not_freed s : inv s -> reactor_ref (rpc s) = 1 \/ worker_ref (wpc s) = 1 -> freed (credit s) = false.
Proof.
  intros [] Hr. rewrite i_freed0, i_refs0. apply Z.eqb_neq.
  destruct (rpc s), (wpc s); cbn in *; lia.
Qed.

Lemma touch_safe s k : inv s -> reactor_ref (rpc s) = 1 \/ worker_ref (wpc s) = 1 -> k <> Crash -> touch s k <> Crash.
Proof. intros Hi Hr Hk. unfold touch. by rewrite (not_freed s Hi Hr). Qed.

(** C32: The credit object is used safely by both threads, under every
    interleaving of their atomic steps: no access to it after it was freed, no
    signal on a trigger the worker has disposed of, and when both sides have let go
    it was freed and the trigger, if there was one, disposed of. *)
Theorem stream_credit_safe (s : state) (re : reactor_event) (we : worker_event) :
  reach s ->
  reactor_step re s <> Crash /\ worker_step we s <> Crash /\
  (rpc s = RGone -> wpc s = WDone -> freed (credit s) = true /\ is_live (event s) = false).
Proof.
  intros H%credit_reach_inv. split_and!.
  - unfold reactor_step. destruct (rpc s) as [| |a|a|[] a|a| |] eqn:Er; destruct re; try done;
      try (destruct (_ && _); [|done]); try (apply touch_safe; [done|rewrite Er; by left|by try case_if]).
    destruct (i_loaded _ H _ Er) as [Hl _]. unfold trigger. by destruct (event s).
  - unfold worker_step. destruct (wpc s) eqn:Ew; destruct we; try done; try (destruct (failed s || _); [done|]);
      try (apply touch_safe; [done|rewrite Ew; by right|by repeat case_if]).
    all: by destruct (event s) as [|[]|].
  - intros Hr Hw. destruct H. rewrite i_freed0, i_refs0, Hr, Hw. split; [done|].
    rewrite Hw in i_event0. destruct (event s); try done. by destruct i_event0.
Qed.

(** No acknowledgement is lost on a suspended producer.  When the worker is
    suspended and no signal is pending for it, a reactor that is idle has given it
    no credit to go on (the bytes in flight still reach the cap), and the reactor
    cannot have torn the stream down. *)
Theorem stream_credit_no_lost_wakeup (s : state) :
  reach s -> wpc s = WParked -> event s = EvLive false ->
  (rpc s = RIdle -> WORKER_STREAM_INFLIGHT_CAP <= u64 (posted s - acked (credit s))) /\ rpc s <> RGone.
Proof.
  intros H%credit_reach_inv Hw He. destruct H. rewrite Hw, He in *. destruct i_event0 as [_ [Hwk|]]; [|done]. split.
  - intros Hr. rewrite Hr in *. destruct i_wait0 as [|]; done.
  - intros Hr. rewrite Hr in *. by apply i_gone0.
Qed.

(** The peer closing a stream does not unblock the worker that waits on it:
    the step marks the credit dead but signals nothing, so a suspended worker stays
    suspended, with only its timeout enabled, until the stream object itself is
    freed. *)
Theorem stream_credit_peer_close_keeps_waiting (s s' : state) :
  reach s -> wpc s = WParked -> event s = EvLive false -> reactor_step EvPeerClosed s = Step s' ->
  dead (credit s') = true /\ wpc s' = WParked /\ rpc s' = RIdle /\ worker_step EvSignal s' = Disabled /\
  worker_step EvGo s' = Disabled.
Proof.
  intros _ Hw He H. unfold reactor_step, touch in H. destruct (rpc s) as [| | | |[]| | |]; try done.
  destruct (freed (credit s)); [done|]. injection H as <-. unfold with_r, worker_step. cbn. rewrite Hw, He. done.
Qed.

(** ** A run

    The worker posts a full window, finds no credit, publishes its trigger and
    suspends. *)
Fixpoint run_worker (es : list worker_event) (s : state) : option state :=
  match es with
  | [] => Some s
  | e :: es' => match worker_step e s with Step s' => run_worker es' s' | _ => None end
  end.

Lemma run_worker_reach es s s' : reach s -> run_worker es s = Some s' -> reach s'.
Proof.
  revert s. induction es as [|e es IH]; intros s H E; cbn [run_worker] in E; [by injection E as <-|].
  destruct (worker_step e s) as [s1| |] eqn:Es; try done. eapply IH; [by eapply reach_worker|done].
Qed.

Definition demo_parked : state :=
  default init (run_worker [EvAppend (1024 * 1024); EvGo; EvGo; EvGo; EvGo; EvGo; EvGo; EvGo] init).

Lemma demo_parked_reach : reach demo_parked.
Proof.
  eapply (run_worker_reach [EvAppend (1024 * 1024); EvGo; EvGo; EvGo; EvGo; EvGo; EvGo; EvGo] init);
    [apply reach_init | vm_compute; reflexivity].
Qed.

Lemma stream_credit_safe_witness : reactor_step (EvAck 100) demo_parked <> Crash.
Proof. apply (stream_credit_safe demo_parked (EvAck 100) EvGo), demo_parked_reach. Defined.

Lemma stream_credit_no_lost_wakeup_witness :
  WORKER_STREAM_INFLIGHT_CAP <= u64 (posted demo_parked - acked (credit demo_parked)).
Proof.
  apply (stream_credit_no_lost_wakeup demo_parked); [apply demo_parked_reach | vm_compute; reflexivity..].
Defined.

Lemma stream_credit_peer_close_keeps_waiting_witness :
  exists s', reactor_step EvPeerClosed demo_parked = Step s' /\ wpc s' = WParked.
Proof.
  eexists. split; [vm_compute; reflexivity|].
  apply (stream_credit_peer_close_keeps_waiting demo_parked); [apply demo_parked_reach | vm_compute; reflexivity..].
Defined.
End StreamCredit.
