(* ===== verification/Ledger.v ===== *)
(** * Reference ledgers

    Several components share objects by an explicit reference count: the last
    release frees.  A ledger relates such a heap to the list of references that
    are held somewhere: every live object counts exactly its holders and has at
    least one, a freed object has none. *)

From S2P Require Import Prelude.

Module Ledger.

(** ** Occurrences *)

Fixpoint cnt (i : nat) (l : list nat) : Z :=
  match l with
  | [] => 0
  | x :: r => (if (x =? i)%nat then 1 else 0) + cnt i r
  end.

Lemma cnt_app i a b : cnt i (a ++ b) = cnt i a + cnt i b.
Proof. induction a as [|x a IH]; cbn [app cnt]; lia. Qed.

Lemma cnt_nonneg i l : 0 <= cnt i l.
Proof. induction l as [|x l IH]; cbn [cnt]; [lia|]. destruct (x =? i)%nat; lia. Qed.

Lemma cnt_perm i a b : a ≡ₚ b -> cnt i a = cnt i b.
Proof. induction 1; cbn [cnt]; lia. Qed.

#[global] Instance cnt_proper i : Proper ((≡ₚ) ==> (=)) (cnt i).
Proof. intros a b. apply cnt_perm. Qed.

Lemma cnt_pos i l : 0 < cnt i l <-> i ∈ l.
Proof.
  induction l as [|x l IH]; cbn [cnt].
  - split; [lia|]. by intros ?%elem_of_nil.
  - pose proof (cnt_nonneg i l). rewrite elem_of_cons, <- IH. destruct (Nat.eqb_spec x i) as [->|Hne]; [|intuition lia].
    split; [by left|lia].
Qed.

Lemma cnt_zero i l : cnt i l = 0 <-> i ∉ l.
Proof. rewrite <- cnt_pos. pose proof (cnt_nonneg i l). lia. Qed.

Lemma cnt_NoDup i l : NoDup l -> i ∈ l -> cnt i l = 1.
Proof.
  induction 1 as [|x l Hx Hl IH]; [by intros ?%elem_of_nil|]. cbn [cnt]. intros [->|Hi]%elem_of_cons.
  - rewrite Nat.eqb_refl. apply cnt_zero in Hx. lia.
  - rewrite IH by done. destruct (Nat.eqb_spec x i) as [->|]; [done|lia].
Qed.

(** ** The ledger *)

Section ledger.
Context {A : Type} (refs : A -> Z).

Definition ledger (m : gmap nat A) (held : list nat) : Prop :=
  forall i, match m !! i with
            | Some a => refs a = cnt i held /\ 0 < refs a
            | None => cnt i held = 0
            end.

Lemma ledger_perm m a b : a ≡ₚ b -> ledger m a -> ledger m b.
Proof. intros Hp H i. specialize (H i). by rewrite (cnt_perm i _ _ Hp) in H. Qed.

#[global] Instance ledger_proper m : Proper ((≡ₚ) ==> iff) (ledger m).
Proof. intros a b Hp. split; apply ledger_perm; done. Qed.

Lemma ledger_live m held i : ledger m held -> i ∈ held -> exists a, m !! i = Some a /\ refs a = cnt i held /\ 0 < refs a.
Proof.
  intros H Hi%cnt_pos. specialize (H i). destruct (m !! i) as [a|]; [|lia]. by exists a.
Qed.

Lemma ledger_held m held i a : ledger m held -> m !! i = Some a -> i ∈ held.
Proof. intros H Hi. apply cnt_pos. specialize (H i). rewrite Hi in H. lia. Qed.

Lemma ledger_new m held i a : ledger m held -> m !! i = None -> refs a = 1 -> ledger (<[i := a]> m) (i :: held).
Proof.
  intros H Hi Ha j. cbn [cnt]. specialize (H j) as Hj. destruct (Nat.eqb_spec i j) as [<-|Hne].
  - rewrite lookup_insert_eq. rewrite Hi in Hj. lia.
  - rewrite lookup_insert_ne by done. destruct (m !! j); lia.
Qed.

Lemma ledger_add m held i a a' k :
  ledger m held -> i ∈ held -> m !! i = Some a -> refs a' = refs a + Z.of_nat k ->
  ledger (<[i := a']> m) (replicate k i ++ held).
Proof.
  intros H Hin Hi Ha j. rewrite cnt_app.
  assert (cnt j (replicate k i) = if (i =? j)%nat then Z.of_nat k else 0) as ->.
  { clear H Ha. induction k as [|k IH]; cbn [replicate cnt]; [by destruct (i =? j)%nat|]. rewrite IH. destruct (i =? j)%nat; lia. }
  specialize (H j) as Hj. destruct (Nat.eqb_spec i j) as [<-|Hne].
  - rewrite lookup_insert_eq. rewrite Hi in Hj. lia.
  - rewrite lookup_insert_ne by done. destruct (m !! j); lia.
Qed.

(** An update that keeps the count. *)
Lemma ledger_same m held i a a' :
  ledger m held -> m !! i = Some a -> refs a' = refs a -> ledger (<[i := a']> m) held.
Proof.
  intros H Hi Ha. apply (ledger_add m held i a a' 0); [done| |done|lia]. by eapply ledger_held.
Qed.

Lemma ledger_ref m held i a a' :
  ledger m held -> i ∈ held -> m !! i = Some a -> refs a' = refs a + 1 -> ledger (<[i := a']> m) (i :: held).
Proof. intros. by apply (ledger_add m held i a a' 1). Qed.

Lemma ledger_dec m held i a a' :
  ledger m (i :: held) -> m !! i = Some a -> refs a' = refs a - 1 -> refs a <> 1 -> ledger (<[i := a']> m) held.
Proof.
  intros H Hi Ha Hne j. specialize (H j) as Hj. cbn [cnt] in Hj. destruct (Nat.eqb_spec i j) as [Hd|Hd].
  - subst j. rewrite lookup_insert_eq. rewrite Hi in Hj. lia.
  - rewrite lookup_insert_ne by done. by destruct (m !! j).
Qed.

Lemma ledger_free m held i a : ledger m (i :: held) -> m !! i = Some a -> refs a = 1 -> ledger (delete i m) held.
Proof.
  intros H Hi Ha j. specialize (H j) as Hj. cbn [cnt] in Hj. destruct (Nat.eqb_spec i j) as [Hd|Hd].
  - subst j. rewrite lookup_delete_eq. rewrite Hi in Hj. lia.
  - rewrite lookup_delete_ne by done. by destruct (m !! j).
Qed.

(** Nothing is held: nothing is left. *)
Lemma ledger_nil m : ledger m [] -> m = ∅.
Proof.
  intros H. apply map_eq. intros i. rewrite lookup_empty. specialize (H i). destruct (m !! i); [|done]. cbn [cnt] in H. lia.
Qed.

End ledger.

(** ** The values of a map, as one list *)

Section values.
Context {A : Type}.

Definition pool (m : gmap nat (list A)) : list A := concat (map_to_list m).*2.

Lemma pool_empty : pool ∅ = [].
Proof. unfold pool. by rewrite map_to_list_empty. Qed.

Lemma pool_insert_new m i l : m !! i = None -> pool (<[i := l]> m) ≡ₚ l ++ pool m.
Proof. intros Hi. unfold pool. by rewrite map_to_list_insert. Qed.

Lemma pool_delete m i l : m !! i = Some l -> pool m ≡ₚ l ++ pool (delete i m).
Proof. intros Hi. rewrite <- (insert_delete_id m i l) at 1 by done. apply pool_insert_new, lookup_delete_eq. Qed.

Lemma pool_insert m i l l' : m !! i = Some l -> exists r, pool m ≡ₚ l ++ r /\ pool (<[i := l']> m) ≡ₚ l' ++ r.
Proof.
  intros Hi. exists (pool (delete i m)). split; [by apply pool_delete|].
  rewrite <- insert_delete_eq. apply pool_insert_new, lookup_delete_eq.
Qed.

Lemma elem_of_pool m x : x ∈ pool m <-> exists i l, m !! i = Some l /\ x ∈ l.
Proof.
  unfold pool. rewrite list_elem_of_In, in_concat. split.
  - intros (l & Hl & Hx). apply list_elem_of_In, list_elem_of_fmap in Hl as ([i l'] & -> & Hil%elem_of_map_to_list).
    exists i, l'. split; [done|by apply list_elem_of_In].
  - intros (i & l & Hl & Hx). exists l. split; [|by apply list_elem_of_In].
    apply list_elem_of_In, list_elem_of_fmap. exists (i, l). split; [done|by apply elem_of_map_to_list].
Qed.

End values.

End Ledger.
