(* ===== verification/TopicHub.v ===== *)
(** * The topic hub

    Models src/src/websocket/topic_hub.c: the slot table through which the workers
    find each other's mailboxes, the fan-out of a publish, the scatter/gather
    count, and the reliable sends with their per-worker retry queue.  Payloads,
    queries and retry entries live in heaps and are counted; a read or write
    through a dangling pointer makes an operation [None].  The threads share the
    state below; an operation runs from its call to its end or to its suspension.
    What an operation does outside the admin lock is local to its thread or an
    atomic counter update, so that finer interleavings reorder only commuting
    actions. *)

From S2P Require Import Prelude TopicFilter TopicTree TopicInterest Ledger.

Module TopicHub.
Import TopicInterest Ledger.

Definition TOPIC_HUB_MAX_WORKERS : nat := 1024.

(** How many commands a mailbox takes.  The hub creates its mailboxes with
    [TOPIC_HUB_MAILBOX_CAPACITY]; the capacity is an argument of the model, so that
    the theorems hold for every capacity and runs with small mailboxes evaluate. *)
Class MailboxCapacity := mailbox_capacity : nat.
Definition TOPIC_HUB_MAILBOX_CAPACITY : MailboxCapacity := 4096%nat.

(** The local topic tree, as far as the hub uses it. *)
Class TopicTreeOps := {
  tree : Type;
  tree_create : tree;
  tree_publish : tree -> bytes -> bytes -> bool -> Z -> tree * Z;
  tree_count : tree -> bytes -> tree * Z;
}.

Section hub.
Context {zend_hash : ZendHash} {tree_ops : TopicTreeOps} {mailboxes : MailboxCapacity}.

(** ** Data *)

Record ws_payload_t := { p_refcount : Z; p_data : bytes; p_binary : bool }.

Record ws_query_t := {
  q_refcount : Z;
  q_slot : nat;
  q_gen : Z;
  q_pending : Z;
  q_total : Z;
  q_abandoned : bool;
  q_done : option nat;
}.

(** The kind and the fields that belong to it. *)
Inductive ws_cmd_t :=
  | WS_CMD_PUBLISH (payload : nat) (except_id : Z) (topic : bytes)
  | WS_CMD_COUNT (query : nat) (topic : bytes)
  | WS_CMD_COUNT_REPLY (query : nat) (count : Z).

Record retry_target_t := { t_slot : nat; t_gen : Z }.

(** [npending] is the length of [e_pending]. *)
Record retry_entry_t := {
  e_next : option nat;
  e_refcount : Z;
  e_abandoned : bool;
  e_shutdown : bool;
  e_payload : nat;
  e_pending : list retry_target_t;
  e_delivered : Z;
  e_gone : Z;
  e_except : Z;
  e_deadline : Z;
  e_waiter : option nat;
  e_topic : bytes;
}.

Record ws_local_t := {
  l_slot : nat;
  l_gen : Z;
  l_inbox : nat;
  l_tree : tree;
  retry_head : option nat;
  retry_tail : option nat;
  retry_count : Z;
  retry_interval_ms : Z;
  retry_timer : bool;
  retry_timer_armed : bool;
}.

Record slot_t := { inbox : option nat; gen : Z; taken : bool; interest : option (list Z) }.

Inductive counter :=
  | c_posted | c_skipped | c_dropped | c_queued | c_delivered | c_expired | c_rejected | c_gone | c_shutdown.

#[global] Instance counter_eq_dec : EqDecision counter.
Proof. solve_decision. Defined.

(** A coroutine inside [topic_hub_send], with what it keeps on its stack. *)
Record sender_t := { s_entry : nat; s_done : nat; s_posted : Z; s_nfull : Z }.
(** A coroutine inside [topic_hub_count]. *)
Record asker_t := { a_query : nat; a_done : nat }.

(** The hub, the heaps, the attachments of the threads and the coroutines that are
    inside a call.  An event is a flag, set when it fired. *)
Record world := {
  next_ws_id : Z;
  stats : counter -> Z;
  slots : list slot_t;
  slots_used : nat;
  payloads : gmap nat ws_payload_t;
  queries : gmap nat ws_query_t;
  entries : gmap nat retry_entry_t;
  boxes : gmap nat (list ws_cmd_t);
  events : gmap nat bool;
  locals : gmap nat ws_local_t;
  senders : list sender_t;
  askers : list asker_t;
}.

(** ** Field updates *)

Section world_fields.
Variable w : world.
Definition set_next_id v := {| next_ws_id := v; stats := stats w; slots := slots w; slots_used := slots_used w; payloads := payloads w; queries := queries w; entries := entries w; boxes := boxes w; events := events w; locals := locals w; senders := senders w; askers := askers w |}.
Definition set_stats v := {| next_ws_id := next_ws_id w; stats := v; slots := slots w; slots_used := slots_used w; payloads := payloads w; queries := queries w; entries := entries w; boxes := boxes w; events := events w; locals := locals w; senders := senders w; askers := askers w |}.
Definition set_slots v n := {| next_ws_id := next_ws_id w; stats := stats w; slots := v; slots_used := n; payloads := payloads w; queries := queries w; entries := entries w; boxes := boxes w; events := events w; locals := locals w; senders := senders w; askers := askers w |}.
Definition set_payloads v := {| next_ws_id := next_ws_id w; stats := stats w; slots := slots w; slots_used := slots_used w; payloads := v; queries := queries w; entries := entries w; boxes := boxes w; events := events w; locals := locals w; senders := senders w; askers := askers w |}.
Definition set_queries v := {| next_ws_id := next_ws_id w; stats := stats w; slots := slots w; slots_used := slots_used w; payloads := payloads w; queries := v; entries := entries w; boxes := boxes w; events := events w; locals := locals w; senders := senders w; askers := askers w |}.
Definition set_entries v := {| next_ws_id := next_ws_id w; stats := stats w; slots := slots w; slots_used := slots_used w; payloads := payloads w; queries := queries w; entries := v; boxes := boxes w; events := events w; locals := locals w; senders := senders w; askers := askers w |}.
Definition set_boxes v := {| next_ws_id := next_ws_id w; stats := stats w; slots := slots w; slots_used := slots_used w; payloads := payloads w; queries := queries w; entries := entries w; boxes := v; events := events w; locals := locals w; senders := senders w; askers := askers w |}.
Definition set_events v := {| next_ws_id := next_ws_id w; stats := stats w; slots := slots w; slots_used := slots_used w; payloads := payloads w; queries := queries w; entries := entries w; boxes := boxes w; events := v; locals := locals w; senders := senders w; askers := askers w |}.
Definition set_locals v := {| next_ws_id := next_ws_id w; stats := stats w; slots := slots w; slots_used := slots_used w; payloads := payloads w; queries := queries w; entries := entries w; boxes := boxes w; events := events w; locals := v; senders := senders w; askers := askers w |}.
Definition set_senders v := {| next_ws_id := next_ws_id w; stats := stats w; slots := slots w; slots_used := slots_used w; payloads := payloads w; queries := queries w; entries := entries w; boxes := boxes w; events := events w; locals := locals w; senders := v; askers := askers w |}.
Definition set_askers v := {| next_ws_id := next_ws_id w; stats := stats w; slots := slots w; slots_used := slots_used w; payloads := payloads w; queries := queries w; entries := entries w; boxes := boxes w; events := events w; locals := locals w; senders := senders w; askers := v |}.
End world_fields.

Definition p_add (n : Z) (p : ws_payload_t) := {| p_refcount := p_refcount p + n; p_data := p_data p; p_binary := p_binary p |}.
Definition q_add (n : Z) (q : ws_query_t) :=
  {| q_refcount := q_refcount q + n; q_slot := q_slot q; q_gen := q_gen q; q_pending := q_pending q; q_total := q_total q; q_abandoned := q_abandoned q; q_done := q_done q |}.
Definition q_set_pending (n : Z) (q : ws_query_t) :=
  {| q_refcount := q_refcount q; q_slot := q_slot q; q_gen := q_gen q; q_pending := n; q_total := q_total q; q_abandoned := q_abandoned q; q_done := q_done q |}.
Definition q_set_total (n : Z) (q : ws_query_t) :=
  {| q_refcount := q_refcount q; q_slot := q_slot q; q_gen := q_gen q; q_pending := q_pending q; q_total := n; q_abandoned := q_abandoned q; q_done := q_done q |}.
Definition q_abandon (q : ws_query_t) :=
  {| q_refcount := q_refcount q; q_slot := q_slot q; q_gen := q_gen q; q_pending := q_pending q; q_total := q_total q; q_abandoned := true; q_done := None |}.

Section entry_fields.
Variable e : retry_entry_t.
Definition e_set_next v := {| e_next := v; e_refcount := e_refcount e; e_abandoned := e_abandoned e; e_shutdown := e_shutdown e; e_payload := e_payload e; e_pending := e_pending e; e_delivered := e_delivered e; e_gone := e_gone e; e_except := e_except e; e_deadline := e_deadline e; e_waiter := e_waiter e; e_topic := e_topic e |}.
Definition e_add n := {| e_next := e_next e; e_refcount := e_refcount e + n; e_abandoned := e_abandoned e; e_shutdown := e_shutdown e; e_payload := e_payload e; e_pending := e_pending e; e_delivered := e_delivered e; e_gone := e_gone e; e_except := e_except e; e_deadline := e_deadline e; e_waiter := e_waiter e; e_topic := e_topic e |}.
Definition e_set_shutdown := {| e_next := e_next e; e_refcount := e_refcount e; e_abandoned := e_abandoned e; e_shutdown := true; e_payload := e_payload e; e_pending := e_pending e; e_delivered := e_delivered e; e_gone := e_gone e; e_except := e_except e; e_deadline := e_deadline e; e_waiter := e_waiter e; e_topic := e_topic e |}.
Definition e_set_pending kept d g := {| e_next := e_next e; e_refcount := e_refcount e; e_abandoned := e_abandoned e; e_shutdown := e_shutdown e; e_payload := e_payload e; e_pending := kept; e_delivered := u32 (e_delivered e + d); e_gone := u32 (e_gone e + g); e_except := e_except e; e_deadline := e_deadline e; e_waiter := e_waiter e; e_topic := e_topic e |}.
Definition e_set_waiter a v := {| e_next := e_next e; e_refcount := e_refcount e; e_abandoned := a; e_shutdown := e_shutdown e; e_payload := e_payload e; e_pending := e_pending e; e_delivered := e_delivered e; e_gone := e_gone e; e_except := e_except e; e_deadline := e_deadline e; e_waiter := v; e_topic := e_topic e |}.
End entry_fields.

Section local_fields.
Variable l : ws_local_t.
Definition l_set_tree v := {| l_slot := l_slot l; l_gen := l_gen l; l_inbox := l_inbox l; l_tree := v; retry_head := retry_head l; retry_tail := retry_tail l; retry_count := retry_count l; retry_interval_ms := retry_interval_ms l; retry_timer := retry_timer l; retry_timer_armed := retry_timer_armed l |}.
Definition l_set_queue h t n i := {| l_slot := l_slot l; l_gen := l_gen l; l_inbox := l_inbox l; l_tree := l_tree l; retry_head := h; retry_tail := t; retry_count := n; retry_interval_ms := i; retry_timer := retry_timer l; retry_timer_armed := retry_timer_armed l |}.
Definition l_set_timer t a := {| l_slot := l_slot l; l_gen := l_gen l; l_inbox := l_inbox l; l_tree := l_tree l; retry_head := retry_head l; retry_tail := retry_tail l; retry_count := retry_count l; retry_interval_ms := retry_interval_ms l; retry_timer := t; retry_timer_armed := a |}.
End local_fields.

Definition set_local (t : nat) (l : ws_local_t) (w : world) : world := set_locals w (<[t := l]> (locals w)).

(** [ws_atomic_u64_add]. *)
Definition ws_atomic_u64_add (c : counter) (delta : Z) (w : world) : world :=
  set_stats w (fun c' => if decide (c' = c) then u64 (stats w c' + delta) else stats w c').

Definition topic_hub_note_drop (w : world) : world := ws_atomic_u64_add c_dropped 1 w.

(** ** Counted objects *)

Definition ws_payload_new (data : bytes) (binary : bool) (w : world) : world * nat :=
  let p := fresh (dom (payloads w)) in
  (set_payloads w (<[p := {| p_refcount := 1; p_data := data; p_binary := binary |}]> (payloads w)), p).

Definition ws_payload_ref (p : nat) (w : world) : option world :=
  x ← payloads w !! p;
  Some (set_payloads w (<[p := p_add 1 x]> (payloads w))).

Definition ws_payload_release (p : nat) (w : world) : option world :=
  x ← payloads w !! p;
  Some (set_payloads w (if p_refcount x =? 1 then delete p (payloads w)
                        else <[p := p_add (-1) x]> (payloads w))).

Definition ws_query_ref (q : nat) (w : world) : option world :=
  x ← queries w !! q;
  Some (set_queries w (<[q := q_add 1 x]> (queries w))).

(** [fetch_add(-1)] that cannot be the last one. *)
Definition ws_query_unref (q : nat) (w : world) : option world :=
  x ← queries w !! q;
  Some (set_queries w (<[q := q_add (-1) x]> (queries w))).

Definition ws_query_release (q : nat) (w : world) : option world :=
  x ← queries w !! q;
  Some (set_queries w (if q_refcount x =? 1 then delete q (queries w)
                       else <[q := q_add (-1) x]> (queries w))).

Definition retry_entry_release (e : nat) (w : world) : option world :=
  x ← entries w !! e;
  Some (set_entries w (if e_refcount x =? 1 then delete e (entries w)
                       else <[e := e_add x (-1)]> (entries w))).

(** [async_plain_event_new], [async_plain_event_fire] and [dispose]. *)
Definition event_new (w : world) : world * nat :=
  let d := fresh (dom (events w)) in (set_events w (<[d := false]> (events w)), d).

Definition async_plain_event_fire (d : option nat) (w : world) : option world :=
  match d with
  | None => Some w
  | Some d => _ ← events w !! d; Some (set_events w (<[d := true]> (events w)))
  end.

Definition event_dispose (d : nat) (w : world) : option world :=
  _ ← events w !! d; Some (set_events w (delete d (events w))).

(** ** Slots *)

Definition topic_hub_create : world :=
  {| next_ws_id := 1; stats := fun _ => 0;
     slots := replicate TOPIC_HUB_MAX_WORKERS {| inbox := None; gen := 0; taken := false; interest := None |};
     slots_used := 0; payloads := ∅; queries := ∅; entries := ∅; boxes := ∅; events := ∅; locals := ∅;
     senders := []; askers := [] |}.

Definition topic_hub_next_id (w : world) : world * Z :=
  (set_next_id w (u64 (next_ws_id w + 1)), next_ws_id w).

(** [thread_mailbox_post] on the slot's mailbox. *)
Definition topic_hub_post_locked (slot : nat) (cmd : ws_cmd_t) (w : world) : option (world * bool) :=
  s ← slots w !! slot;
  match inbox s with
  | None => Some (w, false)
  | Some b =>
      q ← boxes w !! b;
      if (length q <? mailbox_capacity)%nat
      then Some (set_boxes w (<[b := q ++ [cmd]]> (boxes w)), true)
      else Some (w, false)
  end.

(** The first slot that is not taken. *)
Fixpoint free_slot (i : nat) (ss : list slot_t) : option nat :=
  match ss with
  | [] => None
  | s :: rest => if taken s then free_slot (S i) rest else Some i
  end.

Definition claim (b : nat) (s : slot_t) : slot_t :=
  {| inbox := Some b; gen := u32 (gen s + 1); taken := true; interest := Some fresh_counters |}.

Definition retire (s : slot_t) : slot_t :=
  {| inbox := None; gen := gen s; taken := false; interest := None |}.

Definition new_local (slot : nat) (g : Z) (b : nat) : ws_local_t :=
  {| l_slot := slot; l_gen := g; l_inbox := b; l_tree := tree_create; retry_head := None; retry_tail := None;
     retry_count := 0; retry_interval_ms := 0; retry_timer := false; retry_timer_armed := false |}.

(** [mailbox]: whether the mailbox could be created.  [None] is -1. *)
Definition topic_hub_attach (t : nat) (mailbox : bool) (w : world) : world * option nat :=
  match locals w !! t with
  | Some _ => (w, None)
  | None =>
      if negb mailbox then (w, None)
      else
        let b := fresh (dom (boxes w)) in
        match free_slot 0 (slots w) with
        | None => (w, None)
        | Some i =>
            let ss := alter (claim b) i (slots w) in
            let g := match ss !! i with Some s => gen s | None => 0 end in
            let w1 := set_slots w ss (Nat.max (slots_used w) (S i)) in
            let w2 := set_boxes w1 (<[b := []]> (boxes w1)) in
            (set_local t (new_local i g b) w2, Some i)
        end
  end.

(** ** Commands *)

Definition topic_hub_answer_count (t q : nat) (topic : bytes) (w : world) : option world :=
  let '(w, n) := match locals w !! t with
                 | Some l => let r := tree_count (l_tree l) topic in (set_local t (l_set_tree l (fst r)) w, snd r)
                 | None => (w, 0)
                 end in
  x ← queries w !! q;
  s ← slots w !! q_slot x;
  '(w, posted) ← if q_gen x =? gen s then topic_hub_post_locked (q_slot x) (WS_CMD_COUNT_REPLY q n) w
                 else Some (w, false);
  if posted : bool then Some w else ws_query_release q (topic_hub_note_drop w).

Definition ws_query_settle (q : nat) (answered : Z) (w : world) : option world :=
  x ← queries w !! q;
  w ← (if q_abandoned x then Some w
       else
         let x1 := q_set_pending (u32 (q_pending x - 1)) (q_set_total (u32 (q_total x + answered)) x) in
         let w1 := set_queries w (<[q := x1]> (queries w)) in
         if q_pending x1 =? 0 then async_plain_event_fire (q_done x1) w1 else Some w1);
  ws_query_release q w.

(** One command of [topic_hub_drain]. *)
Definition drain_one (t : nat) (cmd : ws_cmd_t) (w : world) : option world :=
  match cmd with
  | WS_CMD_PUBLISH p except topic =>
      x ← payloads w !! p;
      let w1 := match locals w !! t with
                | Some l => set_local t (l_set_tree l (fst (tree_publish (l_tree l) topic (p_data x) (p_binary x) except))) w
                | None => w
                end in
      ws_payload_release p w1
  | WS_CMD_COUNT q topic => topic_hub_answer_count t q topic w
  | WS_CMD_COUNT_REPLY q n => ws_query_settle q n w
  end.

(** The oldest command of a mailbox. *)
Definition mailbox_pop (b : nat) (w : world) : option (option ws_cmd_t * world) :=
  q ← boxes w !! b;
  match q with
  | [] => Some (None, w)
  | cmd :: rest => Some (Some cmd, set_boxes w (<[b := rest]> (boxes w)))
  end.

(** [thread_mailbox_drain_pending]: until the mailbox is empty.  [fuel] bounds the
    number of commands. *)
Fixpoint drain_pending (fuel : nat) (t b : nat) (w : world) : option world :=
  '(c, w1) ← mailbox_pop b w;
  match c, fuel with
  | None, _ => Some w1
  | Some _, O => None
  | Some cmd, S f => w2 ← drain_one t cmd w1; drain_pending f t b w2
  end.

(** One command delivered by the mailbox's signal. *)
Definition topic_hub_drain (t : nat) (w : world) : option world :=
  match locals w !! t with
  | None => Some w
  | Some l =>
      '(c, w1) ← mailbox_pop (l_inbox l) w;
      match c with None => Some w1 | Some cmd => drain_one t cmd w1 end
  end.

(** ** Publish *)

(** What the slot walk has done so far. *)
Record fanout_t := { f_payload : option nat; f_posted : Z; f_skipped : Z; f_dropped : Z; f_full : list retry_target_t }.

Definition fanout_start : fanout_t := {| f_payload := None; f_posted := 0; f_skipped := 0; f_dropped := 0; f_full := [] |}.

Record message := { m_topic : bytes; m_data : bytes; m_binary : bool; m_except : Z }.

(** A slot that is not skipped: [reliable] is [full != NULL]. *)
Definition fanout_post (m : message) (reliable : bool) (slot : nat) (g : Z) (f : fanout_t) (w : world)
    : option (world * fanout_t) :=
  let '(w, p) := match f_payload f with
                 | Some p => (w, p)
                 | None => ws_payload_new (m_data m) (m_binary m) w
                 end in
  w ← ws_payload_ref p w;
  '(w, posted) ← topic_hub_post_locked slot (WS_CMD_PUBLISH p (m_except m) (m_topic m)) w;
  if posted : bool then
    Some (w, {| f_payload := Some p; f_posted := f_posted f + 1; f_skipped := f_skipped f; f_dropped := f_dropped f; f_full := f_full f |})
  else
    w ← ws_payload_release p w;
    Some (w, {| f_payload := Some p; f_posted := f_posted f; f_skipped := f_skipped f;
                f_dropped := if reliable then f_dropped f else f_dropped f + 1;
                f_full := if reliable then f_full f ++ [{| t_slot := slot; t_gen := g |}] else f_full f |}).

(** The slots that are left, from [slot] on. *)
Fixpoint fanout_loop (own : option nat) (m : message) (probes : list (list nat)) (reliable : bool)
    (left slot : nat) (f : fanout_t) (w : world) : option (world * fanout_t) :=
  match left with
  | O => Some (w, f)
  | S left' =>
      s ← slots w !! slot;
      '(w, f) ←
        (if match inbox s with None => true | Some _ => bool_decide (own = Some slot) end then Some (w, f)
         else if negb (ws_interest_matches (interest <$> slots w) slot probes) then
           Some (w, {| f_payload := f_payload f; f_posted := f_posted f; f_skipped := f_skipped f + 1; f_dropped := f_dropped f; f_full := f_full f |})
         else fanout_post m reliable slot (gen s) f w);
      fanout_loop own m probes reliable left' (S slot) f w
  end.

Definition topic_hub_fanout_locked (own : option nat) (m : message) (probes : list (list nat)) (reliable : bool) (w : world)
    : option (world * fanout_t) :=
  fanout_loop own m probes reliable (slots_used w) 0 fanout_start w.

(** The sessions of the calling worker. *)
Definition publish_local (t : nat) (m : message) (w : world) : world * Z :=
  match locals w !! t with
  | Some l => let r := tree_publish (l_tree l) (m_topic m) (m_data m) (m_binary m) (m_except m) in
              (set_local t (l_set_tree l (fst r)) w, snd r)
  | None => (w, 0)
  end.

Definition own_slot (t : nat) (w : world) : option nat := l_slot <$> locals w !! t.

Definition release_opt (p : option nat) (w : world) : option world :=
  match p with Some p => ws_payload_release p w | None => Some w end.

(** Subscribers served here, mailboxes that accepted, mailboxes that were full. *)
Definition topic_hub_publish (t : nat) (m : message) (w : world) : option (world * (Z * Z * Z)) :=
  let '(w, sent) := publish_local t m w in
  '(w, f) ← topic_hub_fanout_locked (own_slot t w) m (ws_interest_build (m_topic m)) false w;
  let w := ws_atomic_u64_add c_dropped (f_dropped f)
             (ws_atomic_u64_add c_skipped (f_skipped f) (ws_atomic_u64_add c_posted (f_posted f) w)) in
  w ← release_opt (f_payload f) w;
  Some (w, (sent, f_posted f, f_dropped f)).

(** ** Count *)

Fixpoint ask_loop (own q : nat) (topic : bytes) (probes : list (list nat)) (left slot : nat) (w : world) : option world :=
  match left with
  | O => Some w
  | S left' =>
      s ← slots w !! slot;
      w ← (if bool_decide (slot = own) || match inbox s with None => true | Some _ => false end
              || negb (ws_interest_matches (interest <$> slots w) slot probes) then Some w
           else
             w ← ws_query_ref q w;
             '(w, posted) ← topic_hub_post_locked slot (WS_CMD_COUNT q topic) w;
             if posted : bool then
               x ← queries w !! q;
               Some (set_queries w (<[q := q_set_pending (u32 (q_pending x + 1)) x]> (queries w)))
             else
               w ← ws_query_unref q w;
               Some (topic_hub_note_drop w));
      ask_loop own q topic probes left' (S slot) w
  end.

Definition topic_hub_ask_others (own q : nat) (topic : bytes) (w : world) : option world :=
  ask_loop own q topic (ws_interest_build topic) (slots_used w) 0 w.

(** What follows the suspension. *)
Definition count_finish (a : asker_t) (w : world) : option (world * Z) :=
  x ← queries w !! a_query a;
  let total := q_total x in
  let w := set_queries w (<[a_query a := q_abandon x]> (queries w)) in
  w ← event_dispose (a_done a) w;
  w ← ws_query_release (a_query a) (set_askers w (filter (fun b => a_query b <> a_query a) (askers w)));
  Some (w, total).

(** A call returns a value or is suspended. *)
Inductive call (A B : Type) :=
  | Returned (r : A)
  | Suspended (c : B).
Arguments Returned {A B}.
Arguments Suspended {A B}.

(** [coroutine]: there is one to suspend; [waker]: its waker could be created. *)
Definition topic_hub_count (t : nat) (topic : bytes) (coroutine waker : bool) (w : world)
    : option (world * call Z asker_t) :=
  match locals w !! t with
  | None => Some (w, Returned 0)
  | Some l =>
      let r := tree_count (l_tree l) topic in
      let w := set_local t (l_set_tree l (fst r)) w in
      if negb coroutine then Some (w, Returned (snd r))
      else
        let '(w, done) := event_new w in
        let q := fresh (dom (queries w)) in
        let a := {| a_query := q; a_done := done |} in
        let w := set_queries w (<[q := {| q_refcount := 1; q_slot := l_slot l; q_gen := l_gen l; q_pending := 0;
                                          q_total := snd r; q_abandoned := false; q_done := Some done |}]> (queries w)) in
        let w := set_askers w (a :: askers w) in
        w ← topic_hub_ask_others (l_slot l) q topic w;
        x ← queries w !! q;
        if (0 <? q_pending x) && waker then Some (w, Suspended a)
        else '(w, total) ← count_finish a w; Some (w, Returned total)
  end.

(** ** Reliable sends: entries *)

Definition retry_entry_new (m : message) (payload : nat) (deadline : Z) (targets : list retry_target_t)
    (waiter : option nat) (w : world) : world * nat :=
  let e := fresh (dom (entries w)) in
  let x := {| e_next := None; e_refcount := match waiter with Some _ => 2 | None => 1 end; e_abandoned := false;
              e_shutdown := false; e_payload := payload; e_pending := targets; e_delivered := 0; e_gone := 0;
              e_except := m_except m; e_deadline := deadline; e_waiter := waiter; e_topic := m_topic m |} in
  (set_entries w (<[e := x]> (entries w)), e).

Definition retry_entry_discard (e : nat) (w : world) : option world :=
  x ← entries w !! e;
  w ← ws_payload_release (e_payload x) w;
  Some (set_entries w (delete e (entries w))).

Definition retry_entry_finish (e : nat) (w : world) : option world :=
  x ← entries w !! e;
  w ← (match e_waiter x with
       | Some d => if e_abandoned x then Some w
                   else async_plain_event_fire (Some d) (set_entries w (<[e := e_set_waiter x (e_abandoned x) None]> (entries w)))
       | None => Some w
       end);
  w ← ws_payload_release (e_payload x) w;
  retry_entry_release e w.

(** ** The drainer *)

(** The targets of one entry, in order: delivered, gone, or kept because the
    mailbox is still full. *)
Fixpoint retry_targets (x : retry_entry_t) (ts : list retry_target_t) (kept : list retry_target_t) (d g : Z) (w : world)
    : option (world * (list retry_target_t * Z * Z)) :=
  match ts with
  | [] => Some (w, (kept, d, g))
  | tg :: rest =>
      s ← slots w !! t_slot tg;
      if match inbox s with None => true | Some _ => negb (gen s =? t_gen tg) end
      then retry_targets x rest kept d (g + 1) w
      else
        w ← ws_payload_ref (e_payload x) w;
        '(w, posted) ← topic_hub_post_locked (t_slot tg) (WS_CMD_PUBLISH (e_payload x) (e_except x) (e_topic x)) w;
        if posted : bool then retry_targets x rest kept (d + 1) g w
        else
          w ← ws_payload_release (e_payload x) w;
          retry_targets x rest (kept ++ [tg]) d g w
  end.

(** The registers of the walk. *)
Record walk_t := {
  k_head : option nat; k_tail : option nat; k_count : Z;
  k_resolved : option nat;
  k_delivered : Z; k_gone : Z; k_expired : Z;
}.

(** [prev->next = v]. *)
Definition set_next (e : nat) (v : option nat) (w : world) : option world :=
  x ← entries w !! e; Some (set_entries w (<[e := e_set_next x v]> (entries w))).

(** The loop over the queue: [prev] and [cur] are its cursors. *)
Fixpoint retry_walk (fuel : nat) (now : Z) (prev cur : option nat) (k : walk_t) (w : world) : option (world * walk_t) :=
  match cur, fuel with
  | None, _ => Some (w, k)
  | Some _, O => None
  | Some e, S f =>
      x ← entries w !! e;
      let next := e_next x in
      '(w, (kept, d, g)) ← retry_targets x (e_pending x) [] 0 0 w;
      let w := set_entries w (<[e := e_set_pending x kept d g]> (entries w)) in
      let expired := match kept with [] => false | _ => e_deadline x <=? now end in
      if match kept with [] => true | _ => expired end then
        w ← match prev with Some p => set_next p next w | None => Some w end;
        w ← set_next e (k_resolved k) w;
        retry_walk f now prev next
          {| k_head := match prev with Some _ => k_head k | None => next end;
             k_tail := if bool_decide (k_tail k = Some e) then prev else k_tail k;
             k_count := u32 (k_count k - 1);
             k_resolved := Some e;
             k_delivered := k_delivered k + d; k_gone := k_gone k + g;
             k_expired := if expired then k_expired k + Z.of_nat (length kept) else k_expired k |} w
      else
        retry_walk f now cur next
          {| k_head := k_head k; k_tail := k_tail k; k_count := k_count k; k_resolved := k_resolved k;
             k_delivered := k_delivered k + d; k_gone := k_gone k + g; k_expired := k_expired k |} w
  end.

(** [while (resolved != NULL)]. *)
Fixpoint finish_chain (fuel : nat) (cur : option nat) (w : world) : option world :=
  match cur, fuel with
  | None, _ => Some w
  | Some _, O => None
  | Some e, S f =>
      x ← entries w !! e;
      w ← retry_entry_finish e w;
      finish_chain f (e_next x) w
  end.

(** The entries bound both loops. *)
Definition fuel_of (w : world) : nat := size (entries w).

Definition topic_hub_retry_drain (t : nat) (l : ws_local_t) (now : Z) (w : world) : option world :=
  '(w, k) ← retry_walk (fuel_of w) now None (retry_head l)
              {| k_head := retry_head l; k_tail := retry_tail l; k_count := retry_count l; k_resolved := None;
                 k_delivered := 0; k_gone := 0; k_expired := 0 |} w;
  let w := set_local t (l_set_queue l (k_head k) (k_tail k) (k_count k) (retry_interval_ms l)) w in
  w ← finish_chain (fuel_of w) (k_resolved k) w;
  Some (ws_atomic_u64_add c_expired (k_expired k)
         (ws_atomic_u64_add c_gone (k_gone k) (ws_atomic_u64_add c_delivered (k_delivered k) w))).

(** [closing]: the loop is being torn down and the callback carries an exception. *)
Definition topic_hub_retry_tick (t : nat) (now : Z) (closing : bool) (w : world) : option world :=
  if closing then Some w
  else
    match locals w !! t with
    | None => Some w
    | Some l =>
        w ← topic_hub_retry_drain t l now w;
        l ← locals w !! t;
        if match retry_head l with None => retry_timer l && retry_timer_armed l | Some _ => false end
        then Some (set_local t (l_set_timer l (retry_timer l) false) w)
        else Some w
    end.

(** [timer]: the timer and its callback could be created; [started]: it could be
    started. *)
Definition topic_hub_retry_arm (timer started : bool) (l : ws_local_t) : ws_local_t * bool :=
  if retry_timer_armed l then (l, true)
  else if negb (retry_timer l) && negb timer then (l, false)
  else if negb started then (l_set_timer l true (retry_timer_armed l), false)
  else (l_set_timer l true true, true).

Definition topic_hub_retry_timer_dispose (l : ws_local_t) : ws_local_t := l_set_timer l false false.

Fixpoint teardown_loop (fuel : nat) (cur : option nat) (lost : Z) (w : world) : option (world * Z) :=
  match cur, fuel with
  | None, _ => Some (w, lost)
  | Some _, O => None
  | Some e, S f =>
      x ← entries w !! e;
      w ← retry_entry_finish e (set_entries w (<[e := e_set_shutdown x]> (entries w)));
      teardown_loop f (e_next x) (lost + Z.of_nat (length (e_pending x))) w
  end.

Definition topic_hub_retry_teardown (t : nat) (l : ws_local_t) (w : world) : option world :=
  let l1 := topic_hub_retry_timer_dispose l in
  '(w, lost) ← teardown_loop (fuel_of w) (retry_head l1) 0 w;
  Some (ws_atomic_u64_add c_shutdown lost (set_local t (l_set_queue l1 None None 0 0) w)).

Definition topic_hub_detach (t : nat) (w : world) : option world :=
  match locals w !! t with
  | None => Some w
  | Some l =>
      let w := set_slots w (alter retire (l_slot l) (slots w)) (slots_used w) in
      w ← topic_hub_retry_teardown t l w;
      q ← boxes w !! l_inbox l;
      w ← drain_pending (length q) t (l_inbox l) w;
      Some (set_locals (set_boxes w (delete (l_inbox l) (boxes w))) (delete t (locals w)))
  end.

Definition topic_hub_retry_enqueue (t : nat) (e : nat) (interval_ms : Z) (timer started : bool) (w : world)
    : option (world * bool) :=
  l ← locals w !! t;
  let prev_tail := retry_tail l in
  w ← set_next e None w;
  w ← match prev_tail with Some p => set_next p (Some e) w | None => Some w end;
  let l1 := l_set_queue l (match prev_tail with Some _ => retry_head l | None => Some e end) (Some e)
              (u32 (retry_count l + 1))
              (if retry_interval_ms l =? 0 then if interval_ms =? 0 then 50 else interval_ms else retry_interval_ms l) in
  let '(l2, armed) := topic_hub_retry_arm timer started l1 in
  if armed then Some (set_local t l2 w, true)
  else
    w ← match prev_tail with Some p => set_next p None w | None => Some w end;
    Some (set_local t (l_set_queue l2 (match prev_tail with Some _ => retry_head l2 | None => None end) prev_tail
                         (u32 (retry_count l2 - 1)) (retry_interval_ms l)) w, false).

(** ** Reliable sends: calls *)

Definition topic_hub_send_fanout (t : nat) (m : message) (w : world) : option (world * fanout_t) :=
  let '(w, _) := publish_local t m w in
  '(w, f) ← topic_hub_fanout_locked (own_slot t w) m (ws_interest_build (m_topic m)) true w;
  Some (ws_atomic_u64_add c_skipped (f_skipped f) (ws_atomic_u64_add c_posted (f_posted f) w), f).

Record send_config := { timeout_ms : Z; interval_ms : Z; queue_max : Z }.
(** What the event loop answers: the time, and whether an event, a timer and its
    start succeed. *)
Record loop_env := { now_ms : Z; event_ok : bool; timer_ok : bool; start_ok : bool }.

Definition topic_hub_try_send (t : nat) (m : message) (cfg : send_config) (env : loop_env) (w : world)
    : option (world * bool) :=
  '(w, f) ← topic_hub_send_fanout t m w;
  match f_full f, f_payload f, locals w !! t with
  | [], p, _ => w ← release_opt p w; Some (w, true)
  | _, p, None => w ← release_opt p w; Some (w, false)
  | full, p, Some l =>
      if queue_max cfg <=? retry_count l then
        w ← release_opt p w; Some (ws_atomic_u64_add c_rejected 1 w, false)
      else
        p ← p;
        let '(w, e) := retry_entry_new m p (now_ms env + timeout_ms cfg) full None w in
        '(w, ok) ← topic_hub_retry_enqueue t e (interval_ms cfg) (timer_ok env) (start_ok env) w;
        if ok : bool then Some (ws_atomic_u64_add c_queued (Z.of_nat (length full)) w, true)
        else
          w ← retry_entry_discard e w;
          Some (ws_atomic_u64_add c_rejected 1 w, false)
  end.

Inductive send_status :=
  | TOPIC_HUB_SEND_OK
  | TOPIC_HUB_SEND_QUEUE_FULL
  | TOPIC_HUB_SEND_EXPIRED
  | TOPIC_HUB_SEND_NO_CONTEXT
  | TOPIC_HUB_SEND_NO_QUEUE
  | TOPIC_HUB_SEND_SHUTDOWN.

Record send_result := { r_status : send_status; r_delivered : Z; r_pending : Z }.

(** What follows the suspension. *)
Definition send_finish (s : sender_t) (w : world) : option (world * send_result) :=
  x ← entries w !! s_entry s;
  let w := set_entries w (<[s_entry s := e_set_waiter x true None]> (entries w)) in
  w ← event_dispose (s_done s) w;
  w ← retry_entry_release (s_entry s) (set_senders w (filter (fun b => s_entry b <> s_entry s) (senders w)));
  let d := u32 (s_posted s + e_delivered x) in
  let n := Z.of_nat (length (e_pending x)) in
  Some (w, if e_shutdown x then {| r_status := TOPIC_HUB_SEND_SHUTDOWN; r_delivered := d; r_pending := n |}
           else if n =? 0 then {| r_status := TOPIC_HUB_SEND_OK; r_delivered := d; r_pending := 0 |}
           else {| r_status := TOPIC_HUB_SEND_EXPIRED; r_delivered := d; r_pending := n |}).

Definition topic_hub_send (t : nat) (m : message) (cfg : send_config) (env : loop_env) (coroutine : bool) (w : world)
    : option (world * call send_result sender_t) :=
  if negb coroutine then
    Some (w, Returned {| r_status := TOPIC_HUB_SEND_NO_CONTEXT; r_delivered := 0; r_pending := 0 |})
  else
    '(w, f) ← topic_hub_send_fanout t m w;
    let n := Z.of_nat (length (f_full f)) in
    let refuse st w := (w, Returned {| r_status := st; r_delivered := f_posted f; r_pending := n |}) in
    match f_full f, f_payload f, locals w !! t with
    | [], p, _ =>
        w ← release_opt p w;
        Some (w, Returned {| r_status := TOPIC_HUB_SEND_OK; r_delivered := f_posted f; r_pending := 0 |})
    | _, p, None => w ← release_opt p w; Some (refuse TOPIC_HUB_SEND_NO_QUEUE w)
    | full, p, Some l =>
        if (queue_max cfg <=? retry_count l) || negb (event_ok env) then
          w ← release_opt p w;
          Some (refuse TOPIC_HUB_SEND_QUEUE_FULL (ws_atomic_u64_add c_rejected 1 w))
        else
          p ← p;
          let '(w, d) := event_new w in
          let '(w, e) := retry_entry_new m p (now_ms env + timeout_ms cfg) full (Some d) w in
          '(w, ok) ← topic_hub_retry_enqueue t e (interval_ms cfg) (timer_ok env) (start_ok env) w;
          if ok : bool then
            let s := {| s_entry := e; s_done := d; s_posted := f_posted f; s_nfull := n |} in
            Some (set_senders (ws_atomic_u64_add c_queued n w) (s :: senders w), Suspended s)
          else
            w ← event_dispose d w;
            w ← retry_entry_discard e w;
            Some (refuse TOPIC_HUB_SEND_QUEUE_FULL (ws_atomic_u64_add c_rejected 1 w))
    end.

End hub.
#[global] Arguments Returned {A B} _.
#[global] Arguments Suspended {A B} _.
End TopicHub.
