(* ===== verification/TopicHubInv.v ===== *)
(** * The invariant of the topic hub

    Every reference to a payload, a query or a retry entry is held by a command in
    a mailbox, by a queued entry, by a suspended caller or by the running
    operation; the slot table and the attachments agree; the retry queues are
    well-formed lists whose timer is armed; every caller suspended in a send will
    be woken; the retry counters account for every parked target.  Each primitive
    and each operation preserves this, so none of them touches freed memory. *)

From S2P Require Import Prelude TopicFilter TopicTree TopicInterest Ledger TopicHub.

Module TopicHubInv.
Import TopicInterest Ledger TopicHub.

(** Rebuild the invariant from its clauses; what did not change is an assumption. *)
Ltac rebuild := split; cbn -[u64 ledger]; try done.

Section inv.
Context {zend_hash : ZendHash} {tree_ops : TopicTreeOps} {mailboxes : MailboxCapacity}.

(** ** What a command holds *)

Definition pay_of (c : ws_cmd_t) : list nat := match c with WS_CMD_PUBLISH p _ _ => [p] | _ => [] end.
Definition qry_of (c : ws_cmd_t) : list nat := match c with WS_CMD_COUNT q _ | WS_CMD_COUNT_REPLY q _ => [q] | _ => [] end.
Definition pays (m : gmap nat (list ws_cmd_t)) : list nat := pool m ≫= pay_of.
Definition qrys (m : gmap nat (list ws_cmd_t)) : list nat := pool m ≫= qry_of.

(** The payloads of queued entries. *)
Definition entry_pays (m : gmap nat retry_entry_t) (ids : list nat) : list nat :=
  ids ≫= fun i => match m !! i with Some x => [e_payload x] | None => [] end.

(** Targets still parked. *)
Definition npending (x : retry_entry_t) : Z := Z.of_nat (length (e_pending x)).
Fixpoint parked (m : gmap nat retry_entry_t) (ids : list nat) : Z :=
  match ids with
  | [] => 0
  | i :: r => match m !! i with Some x => npending x | None => 0 end + parked m r
  end.

(** The list that starts at a pointer. *)
Fixpoint chain (m : gmap nat retry_entry_t) (p : option nat) (ids : list nat) : Prop :=
  match ids with
  | [] => p = None
  | i :: r => p = Some i /\ exists x, m !! i = Some x /\ chain m (e_next x) r
  end.

Record queue_ok (m : gmap nat retry_entry_t) (l : ws_local_t) (ids : list nat) : Prop := {
  u_chain : chain m (retry_head l) ids;
  u_tail : retry_tail l = last ids;
  u_count : retry_count l = Z.of_nat (length ids);
  u_bound : Z.of_nat (length ids) < 2 ^ 32;
  u_armed : ids <> [] -> retry_timer_armed l = true;
  u_timer : retry_timer_armed l = true -> retry_timer l = true;
}.

(** ** The slot table; [ret] is the thread that is detaching *)

Record table_ok (ret : option nat) (ss : list slot_t) (used : nat) (ls : gmap nat ws_local_t)
    (bs : gmap nat (list ws_cmd_t)) : Prop := {
  tb_len : length (ss) = TOPIC_HUB_MAX_WORKERS;
  tb_used : (used <= TOPIC_HUB_MAX_WORKERS)%nat;
  tb_local : forall t l, ls !! t = Some l ->
    exists s, ss !! l_slot l = Some s /\ is_Some (bs !! l_inbox l) /\
      (ret <> Some t -> inbox s = Some (l_inbox l) /\ taken s = true /\ gen s = l_gen l);
  tb_slot : forall i s b, ss !! i = Some s -> inbox s = Some b ->
    (i < used)%nat /\ exists t l, ls !! t = Some l /\ ret <> Some t /\ l_slot l = i /\ l_inbox l = b;
  tb_box : forall b, is_Some (bs !! b) -> exists t l, ls !! t = Some l /\ l_inbox l = b;
  tb_inj : forall t t' l l', ls !! t = Some l -> ls !! t' = Some l' -> l_inbox l = l_inbox l' -> t = t';
  tb_free : forall i s, ss !! i = Some s -> taken s = false -> inbox s = None;
  tb_cap : forall b q, bs !! b = Some q -> (length q <= mailbox_capacity)%nat;
}.

(** ** The invariant

    [Q] gives the queue of each attached thread, [R] the entries taken off a queue
    and not finished yet, [hp] and [hq] the payload and query references in the
    hands of the running operation, [hc] the targets it has resolved and not
    counted yet. *)

Definition owned (Q : gmap nat (list nat)) (R : list nat) : list nat := pool Q ++ R.

Definition asked (w : world) (hq : list nat) (q : nat) (x : ws_query_t) : Prop :=
  (q_abandoned x = false /\ cnt q hq + cnt q (qrys (boxes w)) <= q_pending x < 2 ^ 32 /\
   exists a, a ∈ askers w /\ a_query a = q /\ q_done x = Some (a_done a)) \/
  (q_abandoned x = true /\ q ∉ map a_query (askers w)).

(** A sender waits for an entry that is queued and will fire its event, or its
    event has fired. *)
Definition sent (w : world) (Q : gmap nat (list nat)) (R : list nat) (e : nat) (x : retry_entry_t) : Prop :=
  (exists s, s ∈ senders w /\ s_entry s = e /\ e_abandoned x = false /\
     e_delivered x + e_gone x + npending x = s_nfull s /\
     ((e_waiter x = Some (s_done s) /\ e ∈ owned Q R) \/
      (e_waiter x = None /\ e ∉ owned Q R /\ events w !! s_done s = Some true))) \/
  (e ∉ map s_entry (senders w) /\ e_waiter x = None).

#[local] Arguments asked : simpl never.
#[local] Arguments sent : simpl never.

Definition dones (w : world) : list nat := map s_done (senders w) ++ map a_done (askers w).

Record inv (Q : gmap nat (list nat)) (R hp hq : list nat) (hc : Z) (ret : option nat) (w : world) : Prop := {
  i_pay : ledger p_refcount (payloads w) (hp ++ pays (boxes w) ++ entry_pays (entries w) (owned Q R));
  i_qry : ledger q_refcount (queries w) (hq ++ qrys (boxes w) ++ map a_query (askers w));
  i_ent : ledger e_refcount (entries w) (owned Q R ++ map s_entry (senders w));
  i_own : NoDup (owned Q R);
  i_queue : forall t, match locals w !! t with
                      | Some l => exists ids, Q !! t = Some ids /\ queue_ok (entries w) l ids
                      | None => Q !! t = None
                      end;
  i_table : table_ok ret (slots w) (slots_used w) (locals w) (boxes w);
  i_asked : forall q x, queries w !! q = Some x -> (q_slot x < TOPIC_HUB_MAX_WORKERS)%nat /\ asked w hq q x;
  i_sent : forall e x, entries w !! e = Some x -> sent w Q R e x;
  i_target : forall e x, entries w !! e = Some x ->
    Forall (fun tg => (t_slot tg < TOPIC_HUB_MAX_WORKERS)%nat) (e_pending x) /\
    0 <= e_delivered x /\ 0 <= e_gone x /\ e_delivered x + e_gone x + npending x < 2 ^ 32;
  i_asker : NoDup (map a_query (askers w));
  i_sender : NoDup (map s_entry (senders w));
  i_done : NoDup (dones w);
  i_event : forall d, is_Some (events w !! d) <-> d ∈ dones w;
  i_acct : u64 (stats w c_queued) =
    u64 (stats w c_delivered + stats w c_gone + stats w c_expired + stats w c_shutdown + parked (entries w) (pool Q) + hc);
}.

(** ** Lists *)

Lemma cnt_bind_perm {A} (f : A -> list nat) i a b : a ≡ₚ b -> cnt i (a ≫= f) = cnt i (b ≫= f).
Proof. induction 1; cbn [mbind list_bind]; rewrite ?cnt_app; lia. Qed.

Lemma cnt_bind_app {A} (f : A -> list nat) i a b : cnt i ((a ++ b) ≫= f) = cnt i (a ≫= f) + cnt i (b ≫= f).
Proof. by rewrite bind_app, cnt_app. Qed.

(** Replacing the contents of one mailbox. *)
Lemma cnt_boxes (f : ws_cmd_t -> list nat) i m b q q' :
  m !! b = Some q -> cnt i (pool (<[b := q']> m) ≫= f) = cnt i (pool m ≫= f) - cnt i (q ≫= f) + cnt i (q' ≫= f).
Proof.
  intros Hb. destruct (pool_insert m b q q' Hb) as (r & H1 & H2).
  rewrite (cnt_bind_perm f i _ _ H1), (cnt_bind_perm f i _ _ H2), !cnt_bind_app. lia.
Qed.

Lemma entry_pays_ext a b ids :
  (forall i, i ∈ ids -> e_payload <$> a !! i = e_payload <$> b !! i) -> entry_pays a ids = entry_pays b ids.
Proof.
  induction ids as [|i ids IH]; intros Hx; [done|]. unfold entry_pays in *. cbn [mbind list_bind].
  rewrite IH by (intros; apply Hx; by right). f_equal. specialize (Hx i ltac:(by left)).
  destruct (a !! i), (b !! i); cbn in Hx; congruence.
Qed.

Lemma parked_ext a b ids :
  (forall i, i ∈ ids -> npending <$> a !! i = npending <$> b !! i) -> parked a ids = parked b ids.
Proof.
  induction ids as [|i ids IH]; intros Hx; [done|]. cbn [parked].
  rewrite IH by (intros; apply Hx; by right). f_equal. specialize (Hx i ltac:(by left)).
  destruct (a !! i), (b !! i); cbn in Hx; congruence.
Qed.

Lemma parked_perm m a b : a ≡ₚ b -> parked m a = parked m b.
Proof. induction 1; cbn [parked]; lia. Qed.

Lemma parked_app m a b : parked m (a ++ b) = parked m a + parked m b.
Proof. induction a as [|i a IH]; cbn [app parked]; lia. Qed.

Lemma chain_ext a b p ids :
  (forall i, i ∈ ids -> e_next <$> a !! i = e_next <$> b !! i) -> chain a p ids -> chain b p ids.
Proof.
  revert p. induction ids as [|i ids IH]; intros p Hx; [done|]. intros (-> & x & Hi & Hc). split; [done|].
  pose proof (Hx i ltac:(by left)) as E. rewrite Hi in E. destruct (b !! i) as [y|] eqn:Ey; [|done].
  exists y. split; [done|]. injection E as <-. apply IH; [|done]. intros; apply Hx; by right.
Qed.

Lemma filter_true_all {A} (P : A -> Prop) `{!forall x, Decision (P x)} (l : list A) :
  (forall x, x ∈ l -> P x) -> filter P l = l.
Proof.
  induction l as [|x l IH]; intros Hl; [done|]. rewrite filter_cons_True by (apply Hl; by left).
  f_equal. apply IH. intros y Hy. apply Hl. by right.
Qed.

(** Removing the element with a key. *)
Lemma filter_key {A} (f : A -> nat) (l : list A) (a : A) :
  NoDup (map f l) -> a ∈ l -> l ≡ₚ a :: filter (fun b => f b <> f a) l.
Proof.
  induction l as [|b l IH]; [by intros _ ?%elem_of_nil|]. cbn [map]. intros [Hb Hn]%NoDup_cons Ha.
  destruct (decide (f b = f a)) as [E|E].
  - rewrite filter_cons_False by (by intros ?). apply elem_of_cons in Ha as [->|Ha].
    + constructor. rewrite (filter_true_all _ l); [done|]. intros c Hc E2. apply Hb. rewrite <- E2.
      by apply list_elem_of_fmap_2.
    + destruct Hb. rewrite E. by apply list_elem_of_fmap_2.
  - rewrite filter_cons_True by done. apply elem_of_cons in Ha as [->|Ha]; [done|]. rewrite (IH Hn Ha) at 1. constructor.
Qed.

(** ** Primitives *)

Lemma table_boxes ret ss used ls bs b q q' :
  table_ok ret ss used ls bs -> bs !! b = Some q -> (length q' <= mailbox_capacity)%nat ->
  table_ok ret ss used ls (<[b := q']> bs).
Proof.
  intros [] Hb Hq. split; try done.
  - intros t l Hl. destruct (tb_local0 _ _ Hl) as (s & Hs & Hx & Hr). exists s. split_and!; [done| |done].
    destruct (decide (b = l_inbox l)) as [->|]; [by rewrite lookup_insert_eq|by rewrite lookup_insert_ne].
  - intros b' Hx. apply tb_box0. destruct (decide (b = b')) as [->|]; [by rewrite Hb|by rewrite lookup_insert_ne in Hx].
  - intros b' q2 Hx. destruct (decide (b = b')) as [->|].
    + rewrite lookup_insert_eq in Hx. by simplify_eq.
    + rewrite lookup_insert_ne in Hx by done. by eapply tb_cap0.
Qed.

Lemma ledger_ext {A} (f : A -> Z) m a b : (forall i, cnt i a = cnt i b) -> ledger f m a -> ledger f m b.
Proof. intros E Hl i. rewrite <- E. apply Hl. Qed.

Lemma asked_mono w w' hq hq' q x :
  askers w' = askers w -> cnt q hq' + cnt q (qrys (boxes w')) <= cnt q hq + cnt q (qrys (boxes w)) ->
  asked w hq q x -> asked w' hq' q x.
Proof. unfold asked. intros -> Hc [(H1 & H2 & H3)|H4]; [left|by right]. split_and!; [done|lia..|done]. Qed.

(** What operations on commands leave alone: the slots, the entries, the callers,
    the attachments up to the tree, and every mailbox no slot points to. *)
Definition core (l : ws_local_t) : ws_local_t := l_set_tree l tree_create.

Record calm (w w' : world) : Prop := {
  m_slots : slots w' = slots w;
  m_used : slots_used w' = slots_used w;
  m_entries : entries w' = entries w;
  m_senders : senders w' = senders w;
  m_askers : askers w' = askers w;
  m_locals : forall t, core <$> locals w' !! t = core <$> locals w !! t;
  m_boxes : forall b, (forall i s, slots w !! i = Some s -> inbox s <> Some b) -> boxes w' !! b = boxes w !! b;
}.

Lemma calm_same w w' :
  slots w' = slots w -> slots_used w' = slots_used w -> entries w' = entries w -> senders w' = senders w -> askers w' = askers w ->
  locals w' = locals w -> boxes w' = boxes w -> calm w w'.
Proof. intros. split; congruence. Qed.

Lemma calm_trans w1 w2 w3 : calm w1 w2 -> calm w2 w3 -> calm w1 w3.
Proof.
  intros [A1 A2 A3 A4 A0 A5 A6] [B1 B2 B3 B4 B0 B5 B6]. split; [congruence..| |].
  - intros t. etrans; [apply B5|apply A5].
  - intros b Hb. rewrite B6, A6; [done..|]. by rewrite A1.
Qed.

Section primitives.
Context (Q : gmap nat (list nat)) (R hp hq : list nat) (hc : Z) (ret : option nat) (w : world).

Lemma inv_push c b q :
  inv Q R (pay_of c ++ hp) (qry_of c ++ hq) hc ret w -> boxes w !! b = Some q ->
  (length q < mailbox_capacity)%nat ->
  inv Q R hp hq hc ret (set_boxes w (<[b := q ++ [c]]> (boxes w))).
Proof.
  intros [] Hb Hq. rebuild.
  - eapply ledger_ext, i_pay0. intros i. unfold pays. rewrite !cnt_app, (cnt_boxes _ i _ _ _ _ Hb), cnt_bind_app.
    cbn [mbind list_bind]. rewrite cnt_app. cbn [cnt]. lia.
  - eapply ledger_ext, i_qry0. intros i. unfold qrys. rewrite !cnt_app, (cnt_boxes _ i _ _ _ _ Hb), cnt_bind_app.
    cbn [mbind list_bind]. rewrite cnt_app. cbn [cnt]. lia.
  - eapply table_boxes; [done..|]. rewrite length_app. cbn [length]. lia.
  - intros q2 x Hx. destruct (i_asked0 _ _ Hx) as [Hs Ha]. split; [done|]. eapply asked_mono, Ha; [done|].
    unfold qrys. cbn [boxes set_boxes]. rewrite (cnt_boxes _ q2 _ _ _ _ Hb), cnt_bind_app, cnt_app.
    cbn [mbind list_bind]. rewrite cnt_app. cbn [cnt]. lia.
Qed.

Lemma inv_pop c b q :
  inv Q R hp hq hc ret w -> boxes w !! b = Some (c :: q) ->
  inv Q R (pay_of c ++ hp) (qry_of c ++ hq) hc ret (set_boxes w (<[b := q]> (boxes w))).
Proof.
  intros [] Hb. assert (forall f, (c :: q) ≫= f = (f c : list nat) ++ (q ≫= f)) as Hc by done. rebuild.
  - eapply ledger_ext, i_pay0. intros i. unfold pays. rewrite !cnt_app, (cnt_boxes _ i _ _ _ _ Hb), Hc, cnt_app. lia.
  - eapply ledger_ext, i_qry0. intros i. unfold qrys. rewrite !cnt_app, (cnt_boxes _ i _ _ _ _ Hb), Hc, cnt_app. lia.
  - eapply table_boxes; [done..|]. apply (tb_cap _ _ _ _ _ i_table0) in Hb. cbn [length] in Hb. lia.
  - intros q2 x Hx. destruct (i_asked0 _ _ Hx) as [Hs Ha]. split; [done|]. eapply asked_mono, Ha; [done|].
    unfold qrys. cbn [boxes set_boxes]. rewrite (cnt_boxes _ q2 _ _ _ _ Hb), Hc, !cnt_app. lia.
Qed.

Lemma inv_payload_new data binary :
  inv Q R hp hq hc ret w ->
  inv Q R (snd (ws_payload_new data binary w) :: hp) hq hc ret (fst (ws_payload_new data binary w)).
Proof.
  intros []. unfold ws_payload_new. cbn [fst snd]. rebuild. apply ledger_new; [done| |done].
  apply not_elem_of_dom, is_fresh.
Qed.

Lemma inv_payload_ref p :
  inv Q R hp hq hc ret w -> p ∈ hp ++ pays (boxes w) ++ entry_pays (entries w) (owned Q R) ->
  exists w', ws_payload_ref p w = Some w' /\ inv Q R (p :: hp) hq hc ret w' /\ calm w w'.
Proof.
  intros [] Hp. destruct (ledger_live _ _ _ _ i_pay0 Hp) as (x & Hx & _).
  unfold ws_payload_ref. rewrite Hx. eexists. split_and!; [done| |by apply calm_same]. rebuild.
  by eapply (ledger_ref _ _ _ _ x).
Qed.

Lemma inv_payload_release p :
  inv Q R (p :: hp) hq hc ret w ->
  exists w', ws_payload_release p w = Some w' /\ inv Q R hp hq hc ret w' /\ calm w w'.
Proof.
  intros []. destruct (ledger_live _ _ _ p i_pay0 ltac:(by left)) as (x & Hx & _).
  unfold ws_payload_release. rewrite Hx. eexists. split_and!; [done| |by apply calm_same]. rebuild.
  destruct (Z.eqb_spec (p_refcount x) 1) as [E|E]; [by eapply ledger_free|by eapply (ledger_dec _ _ _ _ x)].
Qed.

End primitives.

(** ** Mailboxes *)

Lemma inv_post Q R hp hq hc ret w c slot :
  inv Q R (pay_of c ++ hp) (qry_of c ++ hq) hc ret w -> (slot < TOPIC_HUB_MAX_WORKERS)%nat ->
  exists w' posted, topic_hub_post_locked slot c w = Some (w', posted) /\ calm w w' /\
    if posted : bool then inv Q R hp hq hc ret w' else w' = w.
Proof.
  intros Hi Hs. pose proof (i_table _ _ _ _ _ _ _ Hi) as Ht.
  unfold topic_hub_post_locked. destruct (lookup_lt_is_Some_2 (slots w) slot) as [s Es].
  { by rewrite (tb_len _ _ _ _ _ Ht). }
  rewrite Es. cbn [mbind option_bind]. destruct (inbox s) as [b|] eqn:Eb.
  2: { exists w, false. split_and!; [done|by apply calm_same|done]. }
  destruct (tb_slot _ _ _ _ _ Ht _ _ _ Es Eb) as (_ & t & l & Hl & _ & _ & <-).
  destruct (tb_local _ _ _ _ _ Ht _ _ Hl) as (_ & _ & [q Hq] & _).
  rewrite Hq. cbn [mbind option_bind]. destruct (Nat.ltb_spec (length q) mailbox_capacity).
  - eexists _, true. split_and!; [done| |by apply inv_push]. split; try done. intros b' Hb'. cbn.
    apply lookup_insert_ne. intros <-. by apply (Hb' slot s).
  - exists w, false. split_and!; [done|by apply calm_same|done].
Qed.

(** ** Attachments and counters *)

Lemma table_locals ret ss used ls bs t l l' :
  table_ok ret ss used ls bs -> ls !! t = Some l -> l_slot l' = l_slot l -> l_gen l' = l_gen l -> l_inbox l' = l_inbox l ->
  table_ok ret ss used (<[t := l']> ls) bs.
Proof.
  intros [] Hl E1 E2 E3.
  assert (forall u x, <[t := l']> ls !! u = Some x ->
    exists y, ls !! u = Some y /\ l_slot x = l_slot y /\ l_gen x = l_gen y /\ l_inbox x = l_inbox y) as Hd.
  { intros u x. destruct (decide (t = u)) as [->|Hne].
    - rewrite lookup_insert_eq. intros [= <-]. by exists l.
    - rewrite lookup_insert_ne by done. by exists x. }
  assert (forall u y, ls !! u = Some y ->
    exists x, <[t := l']> ls !! u = Some x /\ l_slot x = l_slot y /\ l_inbox x = l_inbox y) as Hu.
  { intros u y Hy. destruct (decide (t = u)) as [->|Hne].
    - exists l'. rewrite lookup_insert_eq. rewrite Hl in Hy. by injection Hy as <-.
    - exists y. by rewrite lookup_insert_ne. }
  split; try done.
  - intros u x (y & Hy & -> & -> & ->)%Hd. by apply tb_local0.
  - intros i s b Hs Hb. destruct (tb_slot0 _ _ _ Hs Hb) as (Hi & u & y & Hy & Hr & <- & <-). split; [done|].
    destruct (Hu _ _ Hy) as (x & Hx & E4 & E5). by exists u, x.
  - intros b Hb. destruct (tb_box0 _ Hb) as (u & y & Hy & <-). destruct (Hu _ _ Hy) as (x & Hx & E4 & E5). by exists u, x.
  - intros u u' x x' (y & Hy & _ & _ & ->)%Hd (y' & Hy' & _ & _ & ->)%Hd. by eapply tb_inj0.
Qed.

Lemma inv_local Q R hp hq hc ret w t l l' ids :
  inv Q R hp hq hc ret w -> locals w !! t = Some l -> Q !! t = Some ids ->
  l_slot l' = l_slot l -> l_gen l' = l_gen l -> l_inbox l' = l_inbox l -> queue_ok (entries w) l' ids ->
  inv Q R hp hq hc ret (set_local t l' w).
Proof.
  intros [] Hl HQ E1 E2 E3 Hq. rebuild.
  - intros u. destruct (decide (t = u)) as [->|Hne]; [rewrite lookup_insert_eq; by exists ids|rewrite lookup_insert_ne by done; apply i_queue0].
  - by eapply table_locals.
Qed.

Lemma queue_ok_same m l l' ids :
  queue_ok m l ids -> retry_head l' = retry_head l -> retry_tail l' = retry_tail l -> retry_count l' = retry_count l ->
  retry_timer l' = retry_timer l -> retry_timer_armed l' = retry_timer_armed l -> queue_ok m l' ids.
Proof. intros [] E1 E2 E3 E4 E5. split; rewrite ?E1, ?E2, ?E3, ?E4, ?E5; done. Qed.

Lemma inv_tree Q R hp hq hc ret w t l x :
  inv Q R hp hq hc ret w -> locals w !! t = Some l ->
  inv Q R hp hq hc ret (set_local t (l_set_tree l x) w) /\ calm w (set_local t (l_set_tree l x) w).
Proof.
  intros Hi Hl. pose proof (i_queue _ _ _ _ _ _ _ Hi t) as Ht. rewrite Hl in Ht. destruct Ht as (ids & HQ & Hq).
  split; [by eapply inv_local; [| |done|..|eapply queue_ok_same]|].
  split; try done. intros u. cbn. destruct (decide (t = u)) as [->|]; [by rewrite lookup_insert_eq, Hl|by rewrite lookup_insert_ne].
Qed.

Lemma u64_eq a b : u64 a = u64 b <-> exists k, a = b + k * 2 ^ 64.
Proof.
  unfold u64. split.
  - intros E. exists (a / 2 ^ 64 - b / 2 ^ 64). pose proof (Z.div_mod a (2 ^ 64)). pose proof (Z.div_mod b (2 ^ 64)). lia.
  - intros [k ->]. apply Z_mod_plus_full.
Qed.

Lemma u64_ex a : exists k, u64 a = a + k * 2 ^ 64.
Proof. exists (- (a / 2 ^ 64)). unfold u64. pose proof (Z.div_mod a (2 ^ 64)). lia. Qed.

(** What a counter contributes to the balance of the parked targets. *)
Definition sign (c : counter) : Z :=
  match c with c_queued => -1 | c_delivered | c_gone | c_expired | c_shutdown => 1 | _ => 0 end.

Lemma inv_stats Q R hp hq hc ret w c d :
  inv Q R hp hq hc ret w -> inv Q R hp hq (hc - sign c * d) ret (ws_atomic_u64_add c d w).
Proof.
  intros []. rebuild. destruct (u64_ex (stats w c + d)) as [k Hk]. apply u64_eq in i_acct0 as [j Hj]. apply u64_eq.
  destruct c; cbn -[u64 decide] in *; repeat (case_decide; try done); rewrite ?Hk;
    [exists j|exists j|exists j|exists (j + k)|exists (j - k)|exists (j - k)|exists j|exists (j - k)|exists (j - k)]; lia.
Qed.

Lemma inv_stats0 Q R hp hq hc ret w c d :
  sign c = 0 -> inv Q R hp hq hc ret w -> inv Q R hp hq hc ret (ws_atomic_u64_add c d w).
Proof. intros E Hi%(inv_stats _ _ _ _ _ _ _ c d). by rewrite E, Z.mul_0_l, Z.sub_0_r in Hi. Qed.

(** ** Events *)

Lemma inv_fire Q R hp hq hc ret w d :
  inv Q R hp hq hc ret w -> d ∈ dones w ->
  exists b, events w !! d = Some b /\ inv Q R hp hq hc ret (set_events w (<[d := true]> (events w))).
Proof.
  intros [] Hd. destruct (proj2 (i_event0 d) Hd) as [b Hb]. exists b. split; [done|].
  assert (forall e, <[d := true]> (events w) !! e = Some true <-> e = d \/ events w !! e = Some true) as He.
  { intros e. destruct (decide (d = e)) as [->|]; [rewrite lookup_insert_eq|rewrite lookup_insert_ne by done]; naive_solver. }
  rebuild.
  - intros e x Hx. destruct (i_sent0 _ _ Hx) as [(s & H1 & H2 & H3 & H4 & H5)|]; [left|by right].
    exists s. split_and!; [done..|]. destruct H5 as [|(H5 & H6 & H7)]; [by left|right]. split_and!; [done..|]. apply He. by right.
  - intros e. rewrite <- i_event0. destruct (decide (d = e)) as [->|].
    + rewrite lookup_insert_eq, Hb. done.
    + by rewrite lookup_insert_ne.
Qed.

(** ** Queries *)

(** A release that comes with an update of the query's tally. *)
Lemma inv_query_drop Q R hp hq hc ret w q x x' :
  inv Q R hp (q :: hq) hc ret w -> queries w !! q = Some x -> q_refcount x' = q_refcount x -> q_slot x' = q_slot x ->
  asked w hq q x' ->
  exists w', ws_query_release q (set_queries w (<[q := x']> (queries w))) = Some w' /\
    inv Q R hp hq hc ret w' /\ calm w w'.
Proof.
  intros [] Hx E1 E2 Ha. unfold ws_query_release. cbn [queries set_queries]. rewrite lookup_insert_eq. cbn [mbind option_bind].
  eexists. split_and!; [done| |by apply calm_same].
  assert (ledger q_refcount (<[q := x']> (queries w)) (q :: hq ++ qrys (boxes w) ++ map a_query (askers w))) as Hl.
  { by eapply ledger_same. }
  assert (forall q2 y, queries w !! q2 = Some y -> asked w hq q2 y) as Hm.
  { intros q2 y Hy. eapply asked_mono, (i_asked0 _ _ Hy); [done|]. cbn [cnt]. destruct (q =? q2)%nat; lia. }
  rebuild.
  - destruct (Z.eqb_spec (q_refcount x') 1) as [E|E]; [by eapply ledger_free; [|apply lookup_insert_eq|]|].
    by eapply (ledger_dec _ _ _ _ x'); [|apply lookup_insert_eq|..].
  - assert (forall q2 y, <[q := x']> (queries w) !! q2 = Some y -> (q_slot y < TOPIC_HUB_MAX_WORKERS)%nat /\ asked w hq q2 y) as Hn.
    { intros q2 y. destruct (decide (q = q2)) as [<-|].
      - rewrite lookup_insert_eq. intros [= <-]. rewrite E2. split; [by eapply i_asked0|done].
      - rewrite lookup_insert_ne by done. intros Hy. split; [by eapply i_asked0|by apply Hm]. }
    intros q2 y Hy. destruct (Z.eqb_spec (q_refcount x') 1) as [E|E].
    + apply Hn. by apply lookup_delete_Some in Hy as [_ ?].
    + destruct (decide (q = q2)) as [<-|]; [|rewrite lookup_insert_ne in Hy by done; by apply Hn].
      rewrite lookup_insert_eq in Hy. injection Hy as <-. destruct (Hn q x') as [Hs Ha']; [apply lookup_insert_eq|]. done.
Qed.

Lemma inv_query_release Q R hp hq hc ret w q :
  inv Q R hp (q :: hq) hc ret w ->
  exists w', ws_query_release q w = Some w' /\ inv Q R hp hq hc ret w' /\ calm w w'.
Proof.
  intros Hi. destruct (ledger_live _ _ _ q (i_qry _ _ _ _ _ _ _ Hi) ltac:(by left)) as (x & Hx & _).
  destruct (inv_query_drop _ _ _ _ _ _ _ _ x x Hi Hx) as (w' & E & Hw); [done..| |].
  - eapply asked_mono, (i_asked _ _ _ _ _ _ _ Hi _ _ Hx); [done|]. cbn [cnt]. destruct (q =? q)%nat; lia.
  - exists w'. split; [|done]. rewrite insert_id in E by done. by destruct w.
Qed.

Lemma inv_query_settle Q R hp hq hc ret w q answered :
  inv Q R hp (q :: hq) hc ret w ->
  exists w', ws_query_settle q answered w = Some w' /\ inv Q R hp hq hc ret w' /\ calm w w'.
Proof.
  intros Hi. destruct (ledger_live _ _ _ q (i_qry _ _ _ _ _ _ _ Hi) ltac:(by left)) as (x & Hx & _).
  destruct (i_asked _ _ _ _ _ _ _ Hi _ _ Hx) as [Hs Ha].
  unfold ws_query_settle. rewrite Hx. cbn [mbind option_bind].
  destruct Ha as [(Ea & Hp & a & Hin & Eq & Ed)|(Ea & Hn)]; rewrite Ea; [|by apply inv_query_release].
  cbn [cnt] in Hp. rewrite Nat.eqb_refl in Hp.
  pose proof (cnt_nonneg q hq). pose proof (cnt_nonneg q (qrys (boxes w))).
  assert (u32 (q_pending x - 1) = q_pending x - 1) as Eu by (unfold u32; apply Z.mod_small; lia).
  set (x1 := q_set_pending _ _). assert (asked w hq q x1) as Ha1.
  { left. split_and!; [done|subst x1; cbn; rewrite Eu; lia..|]. by exists a. }
  case_if.
  - assert (a_done a ∈ dones w) as Hd. { apply elem_of_app. right. apply list_elem_of_fmap. by exists a. }
    destruct (inv_fire _ _ _ _ _ _ _ _ Hi Hd) as (b & Hb & Hf).
    unfold async_plain_event_fire. replace (q_done x1) with (Some (a_done a)) by done. cbn [events set_queries].
    rewrite Hb. cbn [mbind option_bind].
    destruct (inv_query_drop _ _ _ _ _ _ _ q x x1 Hf Hx) as (w' & E & Hw & Hc); [done..|].
    exists w'. split_and!; [exact E|done|]. eapply calm_trans, Hc. by apply calm_same.
  - destruct (inv_query_drop _ _ _ _ _ _ _ q x x1 Hi Hx) as (w' & E & Hw); [done..|]. by exists w'.
Qed.

Lemma inv_answer_count Q R hp hq hc ret w t q topic :
  inv Q R hp (q :: hq) hc ret w ->
  exists w', topic_hub_answer_count t q topic w = Some w' /\ inv Q R hp hq hc ret w' /\ calm w w'.
Proof.
  intros Hi. unfold topic_hub_answer_count.
  set (p := match locals w !! t with Some l => _ | None => _ end).
  assert (inv Q R hp (q :: hq) hc ret (fst p) /\ calm w (fst p)) as [Hi1 Hc1].
  { subst p. destruct (locals w !! t) as [l|] eqn:El; [by apply inv_tree|]. split; [done|by apply calm_same]. }
  destruct p as [w1 n]. cbn [fst] in *. clear Hi.
  destruct (ledger_live _ _ _ q (i_qry _ _ _ _ _ _ _ Hi1) ltac:(by left)) as (x & Hx & _).
  destruct (i_asked _ _ _ _ _ _ _ Hi1 _ _ Hx) as [Hs _]. rewrite Hx. cbn [mbind option_bind].
  destruct (lookup_lt_is_Some_2 (slots w1) (q_slot x)) as [s Es].
  { by rewrite (tb_len _ _ _ _ _ (i_table _ _ _ _ _ _ _ Hi1)). }
  rewrite Es. cbn [mbind option_bind].
  assert (exists w2 posted, (if q_gen x =? gen s then topic_hub_post_locked (q_slot x) (WS_CMD_COUNT_REPLY q n) w1
      else Some (w1, false)) = Some (w2, posted) /\ calm w1 w2 /\ if posted : bool then inv Q R hp hq hc ret w2 else w2 = w1)
    as (w2 & posted & -> & Hc2 & Hp).
  { case_if; [by apply (inv_post _ _ _ _ _ _ _ (WS_CMD_COUNT_REPLY q n))|]. exists w1, false. split_and!; [done|by apply calm_same|done]. }
  cbn [mbind option_bind]. destruct posted.
  - exists w2. split_and!; [done..|]. by eapply calm_trans.
  - subst w2. destruct (inv_query_release Q R hp hq hc ret (topic_hub_note_drop w1) q) as (w' & E & Hi' & Hc').
    { by apply inv_stats0. }
    exists w'. split_and!; [done..|]. eapply calm_trans, calm_trans, Hc'; [done|by apply calm_same].
Qed.

Lemma inv_drain_one Q R hp hq hc ret w t c :
  inv Q R (pay_of c ++ hp) (qry_of c ++ hq) hc ret w ->
  exists w', drain_one t c w = Some w' /\ inv Q R hp hq hc ret w' /\ calm w w'.
Proof.
  intros Hi. destruct c as [p except topic|q topic|q n]; cbn [pay_of qry_of app drain_one] in *.
  - destruct (ledger_live _ _ _ p (i_pay _ _ _ _ _ _ _ Hi) ltac:(by left)) as (x & Hx & _). rewrite Hx. cbn [mbind option_bind].
    destruct (locals w !! t) as [l|] eqn:El; [|by apply inv_payload_release].
    destruct (inv_tree _ _ _ _ _ _ _ t l (tree_publish (l_tree l) topic (p_data x) (p_binary x) except).1 Hi El) as [Hi1 Hc1].
    destruct (inv_payload_release _ _ _ _ _ _ _ p Hi1) as (w' & E & Hi' & Hc'). exists w'. split_and!; [done..|].
    by eapply calm_trans.
  - by apply inv_answer_count.
  - by apply inv_query_settle.
Qed.

Lemma inv_drain Q hc w t :
  inv Q [] [] [] hc None w -> exists w', topic_hub_drain t w = Some w' /\ inv Q [] [] [] hc None w' /\ slots w' = slots w.
Proof.
  intros Hi. unfold topic_hub_drain. destruct (locals w !! t) as [l|] eqn:El; [|by exists w].
  destruct (tb_local _ _ _ _ _ (i_table _ _ _ _ _ _ _ Hi) _ _ El) as (_ & _ & [q Hq] & _).
  unfold mailbox_pop. rewrite Hq. cbn [mbind option_bind]. destruct q as [|c q]; cbn [mbind option_bind]; [by exists w|].
  destruct (inv_drain_one Q [] [] [] hc None (set_boxes w (<[l_inbox l := q]> (boxes w))) t c) as (w' & E & Hi' & Hc).
  { by apply inv_pop. }
  exists w'. split_and!; [done..|]. by rewrite (m_slots _ _ Hc).
Qed.

(** ** Publish *)

Lemma calm_refl w : calm w w.
Proof. by apply calm_same. Qed.
Hint Resolve calm_refl : core.

Lemma slot_live Q R hp hq hc ret w i :
  inv Q R hp hq hc ret w -> (i < TOPIC_HUB_MAX_WORKERS)%nat -> exists s, slots w !! i = Some s.
Proof. intros Hi Hl. apply lookup_lt_is_Some_2. by rewrite (tb_len _ _ _ _ _ (i_table _ _ _ _ _ _ _ Hi)). Qed.

Definition hand (f : fanout_t) : list nat := match f_payload f with Some p => [p] | None => [] end.

(** The registers of the slot walk before [slot]. *)
Record fanout_ok (slot : nat) (f : fanout_t) : Prop := {
  fo_slots : Forall (fun tg => (t_slot tg < TOPIC_HUB_MAX_WORKERS)%nat) (f_full f);
  fo_payload : f_full f <> [] -> is_Some (f_payload f);
  fo_length : (length (f_full f) <= slot)%nat;
}.

Lemma inv_fanout_post Q R hq hc ret w m reliable slot g f :
  inv Q R (hand f) hq hc ret w -> fanout_ok slot f -> (slot < TOPIC_HUB_MAX_WORKERS)%nat ->
  exists w' f', fanout_post m reliable slot g f w = Some (w', f') /\ inv Q R (hand f') hq hc ret w' /\ calm w w' /\
    fanout_ok (S slot) f'.
Proof.
  intros Hi [] Hs. unfold fanout_post.
  set (pr := match f_payload f with Some p => (w, p) | None => _ end).
  assert (inv Q R [snd pr] hq hc ret (fst pr) /\ calm w (fst pr)) as [Hi1 Hc1].
  { subst pr. unfold hand in Hi. destruct (f_payload f) as [p|]; [done|]. split; [by apply inv_payload_new|by apply calm_same]. }
  destruct pr as [w1 p]. cbn [fst snd] in *.
  destruct (inv_payload_ref _ _ _ _ _ _ _ p Hi1) as (w2 & E2 & Hi2 & Hc2); [by left|]. rewrite E2. cbn [mbind option_bind].
  destruct (inv_post _ _ _ _ _ _ _ (WS_CMD_PUBLISH p (m_except m) (m_topic m)) slot Hi2 Hs) as (w3 & posted & E3 & Hc3 & H3).
  rewrite E3. cbn [mbind option_bind]. assert (calm w w3) as Hc by eauto using calm_trans. destruct posted.
  - eexists w3, _. split_and!; [done..|]. split; cbn; [done..|lia].
  - subst w3. destruct (inv_payload_release _ _ _ _ _ _ _ p Hi2) as (w4 & E4 & Hi4 & Hc4). rewrite E4. cbn [mbind option_bind].
    eexists w4, _. split_and!; [done..|by eapply calm_trans|]. destruct reliable; split; cbn; try done; try lia.
    + apply Forall_app. split; [done|]. by apply Forall_singleton.
    + rewrite length_app. cbn [length]. lia.
Qed.

Lemma inv_fanout_loop Q R hq hc ret own m probes reliable left slot f w :
  inv Q R (hand f) hq hc ret w -> fanout_ok slot f -> (left + slot = slots_used w)%nat ->
  exists w' f', fanout_loop own m probes reliable left slot f w = Some (w', f') /\ inv Q R (hand f') hq hc ret w' /\
    calm w w' /\ fanout_ok (slots_used w) f'.
Proof.
  revert slot f w. induction left as [|left IH]; intros slot f w Hi Hf Hl; cbn [fanout_loop].
  { exists w, f. replace (slots_used w) with slot by lia. split_and!; done. }
  pose proof (tb_used _ _ _ _ _ (i_table _ _ _ _ _ _ _ Hi)) as Hu.
  destruct (slot_live _ _ _ _ _ _ _ slot Hi ltac:(lia)) as [s Es]. rewrite Es. cbn [mbind option_bind].
  assert (fanout_ok (S slot) f) as Hf'. { destruct Hf. split; [done..|lia]. }
  assert (forall w1 f1, inv Q R (hand f1) hq hc ret w1 -> calm w w1 -> fanout_ok (S slot) f1 ->
    exists w' f', fanout_loop own m probes reliable left (S slot) f1 w1 = Some (w', f') /\ inv Q R (hand f') hq hc ret w' /\
    calm w w' /\ fanout_ok (slots_used w) f') as Hnext.
  { intros w1 f1 Hi1 Hc1 Hf1. destruct (IH (S slot) f1 w1 Hi1 Hf1) as (w' & f' & E & Hi' & Hc' & Hf2).
    { rewrite (m_used _ _ Hc1). lia. }
    exists w', f'. rewrite (m_used _ _ Hc1) in Hf2. split_and!; [done..|by eapply calm_trans|done]. }
  case_if; [by apply Hnext|]. case_if.
  - cbn [mbind option_bind]. apply Hnext; [done..|]. by destruct Hf'.
  - destruct (inv_fanout_post _ _ _ _ _ _ m reliable slot (gen s) f Hi Hf ltac:(lia)) as (w1 & f1 & E1 & Hi1 & Hc1 & Hf1).
    rewrite E1. cbn [mbind option_bind]. by apply Hnext.
Qed.

Lemma inv_publish_local Q R hp hq hc ret w t m :
  inv Q R hp hq hc ret w ->
  inv Q R hp hq hc ret (fst (publish_local t m w)) /\ calm w (fst (publish_local t m w)).
Proof.
  intros Hi. unfold publish_local. destruct (locals w !! t) as [l|] eqn:El; [|done]. cbn [fst]. by apply inv_tree.
Qed.

Lemma inv_release_opt Q R hq hc ret w f :
  inv Q R (hand f) hq hc ret w ->
  exists w', release_opt (f_payload f) w = Some w' /\ inv Q R [] hq hc ret w' /\ calm w w'.
Proof.
  unfold hand, release_opt. destruct (f_payload f) as [p|]; intros Hi; [by apply inv_payload_release|]. by exists w.
Qed.

Lemma inv_fanout Q R hq hc ret w own m probes reliable :
  inv Q R [] hq hc ret w ->
  exists w' f, topic_hub_fanout_locked own m probes reliable w = Some (w', f) /\ inv Q R (hand f) hq hc ret w' /\
    calm w w' /\ fanout_ok (slots_used w) f.
Proof.
  intros Hi. apply inv_fanout_loop; [done| |lia]. split; cbn; [by apply List.Forall_nil|done|lia].
Qed.

Lemma inv_publish Q hc w t m :
  inv Q [] [] [] hc None w ->
  exists r, topic_hub_publish t m w = Some r /\ inv Q [] [] [] hc None (fst r) /\ slots (fst r) = slots w.
Proof.
  intros Hi. unfold topic_hub_publish. destruct (inv_publish_local _ _ _ _ _ _ _ t m Hi) as [Hi1 Hc1].
  destruct (publish_local t m w) as [w1 n]. cbn [fst] in Hi1, Hc1.
  destruct (inv_fanout _ _ _ _ _ _ (own_slot t w1) m (ws_interest_build (m_topic m)) false Hi1) as (w2 & f & E & Hi2 & Hc2 & _).
  rewrite E. cbn [mbind option_bind].
  set (w3 := ws_atomic_u64_add _ _ _). assert (inv Q [] (hand f) [] hc None w3) as Hi3 by (by repeat (apply inv_stats0; [done|])).
  destruct (inv_release_opt _ _ _ _ _ _ f Hi3) as (w4 & E4 & Hi4 & Hc4). rewrite E4. cbn [mbind option_bind]. eexists. split_and!; [done..|].
  cbn [fst]. rewrite (m_slots _ _ Hc4). subst w3. cbn. by rewrite (m_slots _ _ Hc2), (m_slots _ _ Hc1).
Qed.

(** ** Count *)

Lemma post_queries slot c w v :
  topic_hub_post_locked slot c (set_queries w v) =
  (fun r => (set_queries (fst r) v, snd r)) <$> topic_hub_post_locked slot c w.
Proof.
  unfold topic_hub_post_locked. cbn [slots set_queries]. destruct (slots w !! slot) as [s|]; [|done]. cbn [mbind option_bind].
  destruct (inbox s) as [b|]; [|done]. cbn [boxes set_queries]. destruct (boxes w !! b) as [l|]; [|done].
  cbn [mbind option_bind]. by case_if.
Qed.

(** One more question out: a reference and a pending answer. *)
Lemma inv_query_ask Q R hp hc ret w q x :
  inv Q R hp [] hc ret w -> queries w !! q = Some x -> q_abandoned x = false -> q_pending x + 1 < 2 ^ 32 ->
  inv Q R hp [q] hc ret (set_queries w (<[q := q_set_pending (q_pending x + 1) (q_add 1 x)]> (queries w))).
Proof.
  intros [] Hx Ha Hp. rebuild.
  - eapply (ledger_ref _ _ _ _ x); [done| |done|done]. by eapply ledger_held.
  - intros q2 y. destruct (decide (q = q2)) as [<-|Hne].
    + rewrite lookup_insert_eq. intros [= <-]. destruct (i_asked0 _ _ Hx) as [Hs [(_ & H2 & H3)|[H4 _]]]; [|congruence].
      split; [done|]. left. cbn [cnt] in H2. cbn [q_abandoned q_set_pending q_add q_pending cnt boxes set_queries]. rewrite Nat.eqb_refl.
      split_and!; [done|lia..|done].
    + rewrite lookup_insert_ne by done. intros Hy. destruct (i_asked0 _ _ Hy) as [Hs Hq]. split; [done|].
      eapply asked_mono, Hq; [done|]. cbn [cnt boxes set_queries]. destruct (Nat.eqb_spec q q2); [done|lia].
Qed.

Lemma post_false slot c w u : topic_hub_post_locked slot c w = Some (u, false) -> u = w.
Proof.
  unfold topic_hub_post_locked. destruct (slots w !! slot) as [s|]; [|done]. cbn [mbind option_bind].
  destruct (inbox s) as [b|]; [|by intros [= ->]]. destruct (boxes w !! b) as [l|]; [|done]. cbn [mbind option_bind].
  case_if; [done|by intros [= ->]].
Qed.

Lemma inv_ask_one Q R hp hc ret w q x topic slot :
  inv Q R hp [] hc ret w -> queries w !! q = Some x -> q_abandoned x = false ->
  (slot < TOPIC_HUB_MAX_WORKERS)%nat -> q_pending x + 1 < 2 ^ 32 ->
  exists w', (w ← ws_query_ref q w;
             '(w, posted) ← topic_hub_post_locked slot (WS_CMD_COUNT q topic) w;
             if posted : bool then
               x ← queries w !! q;
               Some (set_queries w (<[q := q_set_pending (u32 (q_pending x + 1)) x]> (queries w)))
             else
               w ← ws_query_unref q w;
               Some (topic_hub_note_drop w)) = Some w' /\
    inv Q R hp [] hc ret w' /\ calm w w' /\ askers w' = askers w /\
    exists x', queries w' !! q = Some x' /\ q_abandoned x' = false /\ q_pending x' <= q_pending x + 1.
Proof.
  intros Hi Hx Ha Hs Hp. pose proof (inv_query_ask _ _ _ _ _ _ _ _ Hi Hx Ha Hp) as Hi1.
  destruct (i_asked _ _ _ _ _ _ _ Hi _ _ Hx) as [_ [(_ & Hb & _)|[? _]]]; [|congruence].
  pose proof (cnt_nonneg q []) as Hn1. pose proof (cnt_nonneg q (qrys (boxes w))) as Hn2.
  assert (u32 (q_pending x + 1) = q_pending x + 1) as Eu by (unfold u32; apply Z.mod_small; lia).
  set (x' := q_set_pending _ _) in Hi1. set (v' := <[q := x']> (queries w)) in Hi1.
  destruct (inv_post _ _ _ _ _ _ _ (WS_CMD_COUNT q topic) slot Hi1 Hs) as (w2 & posted & E & Hc & H2).
  rewrite post_queries in E. destruct (topic_hub_post_locked slot (WS_CMD_COUNT q topic) w) as [[u pd]|] eqn:Ep; [|done].
  injection E as Eu2 ->. cbn [fst] in Eu2.
  unfold ws_query_ref. rewrite Hx. cbn [mbind option_bind]. rewrite post_queries, Ep. cbn [fmap option_fmap option_map mbind option_bind fst snd].
  destruct posted; cbn [queries set_queries].
  - rewrite lookup_insert_eq. cbn [mbind option_bind q_pending q_add]. rewrite Eu, insert_insert_eq.
    exists w2. subst w2. split_and!; [done|done| |by rewrite (m_askers _ _ Hc)|].
    + eapply calm_trans, Hc. by apply calm_same.
    + exists x'. split_and!; [apply lookup_insert_eq|done|subst x'; cbn; lia].
  - unfold ws_query_unref. cbn [queries set_queries]. rewrite lookup_insert_eq. cbn [mbind option_bind].
    rewrite insert_insert_eq. assert (q_add (-1) (q_add 1 x) = x) as ->. { destruct x. unfold q_add. cbn. f_equal. lia. }
    rewrite (insert_id _ q x) by done. apply post_false in Ep as ->. exists (topic_hub_note_drop w).
    assert (set_queries w (queries w) = w) as Ew by (by destruct w). rewrite <- Ew at 2.
    split_and!; [done|by apply inv_stats0|by apply calm_same|done|]. exists x. split_and!; [done..|lia].
Qed.

Lemma inv_ask_loop Q R hp hc ret own q topic probes left slot w x :
  inv Q R hp [] hc ret w -> queries w !! q = Some x -> q_abandoned x = false ->
  q_pending x <= Z.of_nat slot -> (left + slot = slots_used w)%nat ->
  exists w' x', ask_loop own q topic probes left slot w = Some w' /\ inv Q R hp [] hc ret w' /\ calm w w' /\
    askers w' = askers w /\ queries w' !! q = Some x'.
Proof.
  revert slot w x. induction left as [|left IH]; intros slot w x Hi Hx Ha Hp Hl; cbn [ask_loop].
  { by exists w, x. }
  pose proof (tb_used _ _ _ _ _ (i_table _ _ _ _ _ _ _ Hi)) as Hu. unfold TOPIC_HUB_MAX_WORKERS in Hu.
  destruct (slot_live _ _ _ _ _ _ _ slot Hi) as [s Es]; [unfold TOPIC_HUB_MAX_WORKERS; lia|]. rewrite Es. cbn [mbind option_bind].
  assert (forall w1 x1, inv Q R hp [] hc ret w1 -> calm w w1 -> askers w1 = askers w -> queries w1 !! q = Some x1 ->
    q_abandoned x1 = false -> q_pending x1 <= Z.of_nat (S slot) ->
    exists w' x', ask_loop own q topic probes left (S slot) w1 = Some w' /\ inv Q R hp [] hc ret w' /\ calm w w' /\
      askers w' = askers w /\ queries w' !! q = Some x') as Hnext.
  { intros w1 x1 Hi1 Hc1 Ea1 Hx1 Ha1 Hp1. destruct (IH (S slot) w1 x1) as (w' & x' & E & Hi' & Hc' & Ea' & Hx'); [done..| |].
    { rewrite (m_used _ _ Hc1). lia. }
    exists w', x'. split_and!; [done..|by eapply calm_trans|congruence|done]. }
  case_if; [by apply (Hnext w x); [..|lia]|].
  destruct (inv_ask_one Q R hp hc ret w q x topic slot Hi Hx Ha) as (w1 & E1 & Hi1 & Hc1 & Ea1 & x1 & Hx1 & Ha1 & Hp1); [unfold TOPIC_HUB_MAX_WORKERS; lia|lia|].
  rewrite E1. cbn [mbind option_bind]. eapply Hnext; [done..|lia].
Qed.

Lemma inv_count_finish Q hp hc w a :
  inv Q [] hp [] hc None w -> a ∈ askers w -> exists r, count_finish a w = Some r /\ inv Q [] hp [] hc None (fst r) /\
    slots (fst r) = slots w.
Proof.
  intros Hi Ha. pose proof Hi as [].
  destruct (ledger_live _ _ _ (a_query a) i_qry0) as (x & Hx & _).
  { rewrite !elem_of_app. right. right. apply list_elem_of_fmap. by exists a. }
  unfold count_finish. rewrite Hx. cbn [mbind option_bind].
  assert (a_done a ∈ dones w) as Hd. { apply elem_of_app. right. apply list_elem_of_fmap. by exists a. }
  destruct (proj2 (i_event0 _) Hd) as [b Hb]. unfold event_dispose. cbn [events set_queries]. rewrite Hb. cbn [mbind option_bind].

  assert (map a_query (askers w) ≡ₚ a_query a :: map a_query (filter (fun b => a_query b <> a_query a) (askers w))) as Hpq.
  { by rewrite (filter_key a_query _ _ i_asker0 Ha) at 1. }
  assert (dones w ≡ₚ a_done a :: map s_done (senders w) ++ map a_done (filter (fun b => a_query b <> a_query a) (askers w))) as Hpd.
  { unfold dones. rewrite (filter_key a_query _ _ i_asker0 Ha) at 1. cbn [map]. by rewrite Permutation_middle. }
  set (fa := filter _ _) in *.
  set (w1 := set_askers _ _). assert (inv Q [] hp [a_query a] hc None w1) as Hi1.
  { subst w1. rewrite Hpq in i_asker0. apply NoDup_cons in i_asker0 as [Hq0 Hq1].
    rewrite Hpd in i_done0. apply NoDup_cons in i_done0 as [Hd0 Hd1].
    rebuild.
    - eapply (ledger_same _ _ _ _ x); [|done..]. eapply ledger_perm, i_qry0. rewrite Hpq. cbn [app]. by rewrite Permutation_middle.
    - intros q2 y. destruct (decide (a_query a = q2)) as [<-|Hne].
      + rewrite lookup_insert_eq. intros [= <-]. split; [by destruct (i_asked0 _ _ Hx)|]. right. by split.
      + rewrite lookup_insert_ne by done. intros Hy. destruct (i_asked0 _ _ Hy) as [Hs [(H1' & H2' & a' & H3' & H4' & H5')|[H1' H2']]]; (split; [done|]).
        * left. cbn [cnt] in H2'. split_and!; [done|cbn [cnt boxes set_queries set_events set_askers]; destruct (Nat.eqb_spec (a_query a) q2); [done|lia]..|].
          exists a'. split_and!; [|done..]. apply list_elem_of_filter. split; [congruence|done].
        * right. split; [done|]. intros Hin. apply H2'. rewrite Hpq. by right.
    - intros e y Hy. destruct (i_sent0 _ _ Hy) as [(s & H1' & H2' & H3' & H4' & H5')|]; [left|by right].
      exists s. split_and!; [done..|]. destruct H5' as [|(H5' & H6' & H7')]; [by left|right]. split_and!; [done..|].
      cbn [events set_askers set_events]. rewrite lookup_delete_ne; [done|]. intros E. apply Hd0. rewrite E. apply elem_of_app. left.
      by apply list_elem_of_fmap_2.
    - intros d. unfold dones. cbn [senders askers set_askers set_events set_queries]. destruct (decide (a_done a = d)) as [<-|Hne].
      + rewrite lookup_delete_eq. split; [by intros []|done].
      + rewrite lookup_delete_ne by done. rewrite i_event0, Hpd, elem_of_cons. naive_solver. }
  destruct (inv_query_release _ _ _ _ _ _ _ _ Hi1) as (w2 & E2 & Hi2 & Hc2). rewrite E2. cbn [mbind option_bind].
  eexists. split_and!; [done..|]. cbn [fst]. by rewrite (m_slots _ _ Hc2).
Qed.

(** A fresh event and a fresh query, held by a new asker. *)
Lemma inv_query_open Q R hp hc ret w slot g total :
  inv Q R hp [] hc ret w -> (slot < TOPIC_HUB_MAX_WORKERS)%nat ->
  let d := fresh (dom (events w)) in
  let q := fresh (dom (queries w)) in
  let x := {| q_refcount := 1; q_slot := slot; q_gen := g; q_pending := 0; q_total := total; q_abandoned := false; q_done := Some d |} in
  inv Q R hp [] hc ret (set_askers (set_queries (set_events w (<[d := false]> (events w))) (<[q := x]> (queries w)))
                          ({| a_query := q; a_done := d |} :: askers w)).
Proof.
  intros [] Hs d q x.
  assert (events w !! d = None) as Hd by apply not_elem_of_dom, is_fresh.
  assert (queries w !! q = None) as Hq by apply not_elem_of_dom, is_fresh.
  assert (d ∉ dones w) as Hd2. { intros Hin%i_event0. rewrite Hd in Hin. by destruct Hin. }
  pose proof (i_qry0 q) as Hz. rewrite Hq in Hz. rewrite !cnt_app in Hz. cbn [cnt] in Hz.
  pose proof (cnt_nonneg q (qrys (boxes w))) as Hz1. pose proof (cnt_nonneg q (map a_query (askers w))) as Hz2.
  assert (q ∉ map a_query (askers w)) as Hq2 by (apply cnt_zero; lia).
  rebuild.
  - eapply ledger_perm; [|by apply ledger_new]. cbn [app]. by rewrite Permutation_middle.
  - intros q2 y. destruct (decide (q = q2)) as [<-|Hne].
    + rewrite lookup_insert_eq. intros [= <-]. split; [done|]. left. subst x. cbn [q_abandoned q_pending cnt boxes set_askers set_queries set_events].
      split_and!; [done|lia..|]. eexists. split_and!; [by left|done..].
    + rewrite lookup_insert_ne by done. intros Hy. destruct (i_asked0 _ _ Hy) as [Hs2 [(H1' & H2' & a' & H3' & H4' & H5')|[H1' H2']]]; (split; [done|]).
      * left. split_and!; [done|apply H2'..|]. exists a'. split_and!; [by right|done..].
      * right. split; [done|]. cbn. intros [E|E]%elem_of_cons; congruence.
  - intros e y Hy. destruct (i_sent0 _ _ Hy) as [(s & H1' & H2' & H3' & H4' & H5')|]; [left|by right].
    exists s. split_and!; [done..|]. destruct H5' as [|(H5' & H6' & H7')]; [by left|right]. split_and!; [done..|].
    cbn [events set_askers set_events set_queries]. rewrite lookup_insert_ne; [done|]. intros E. rewrite <- E, Hd in H7'. done.
  - apply NoDup_cons. by split.
  - unfold dones in *. cbn. rewrite <- Permutation_middle. apply NoDup_cons. by split.
  - intros d2. unfold dones in *. cbn. rewrite <- Permutation_middle, elem_of_cons. destruct (decide (d = d2)) as [<-|Hne].
    + rewrite lookup_insert_eq. split; [by left|done].
    + rewrite lookup_insert_ne by done. rewrite i_event0. naive_solver.
Qed.

Lemma inv_count Q hc w t topic coroutine waker :
  inv Q [] [] [] hc None w -> exists r, topic_hub_count t topic coroutine waker w = Some r /\ inv Q [] [] [] hc None (fst r) /\
    slots (fst r) = slots w.
Proof.
  intros Hi. unfold topic_hub_count. destruct (locals w !! t) as [l|] eqn:El; [|by eexists].
  destruct (inv_tree _ _ _ _ _ _ _ t l (tree_count (l_tree l) topic).1 Hi El) as [Hi1 _].
  set (w1 := set_local _ _ _) in *. destruct coroutine; cbn [negb]; [|by eexists].
  unfold event_new. cbn [queries set_events askers].
  assert ((l_slot l < TOPIC_HUB_MAX_WORKERS)%nat) as Hs.
  { destruct (tb_local _ _ _ _ _ (i_table _ _ _ _ _ _ _ Hi) _ _ El) as (s & Hs & _). apply lookup_lt_Some in Hs.
    by rewrite (tb_len _ _ _ _ _ (i_table _ _ _ _ _ _ _ Hi)) in Hs. }
  pose proof (inv_query_open _ _ _ _ _ _ (l_slot l) (l_gen l) (tree_count (l_tree l) topic).2 Hi1 Hs) as Hi2.
  cbn zeta in Hi2. set (q := fresh (dom (queries w1))) in *. set (d := fresh (dom (events w1))) in *. set (w2 := set_askers _ _) in *.
  unfold topic_hub_ask_others.
  edestruct (inv_ask_loop Q [] [] hc None (l_slot l) q topic (ws_interest_build topic) (slots_used w2) 0 w2)
    as (w3 & x3 & E3 & Hi3 & Hc3 & Ea3 & Hx3); [done|apply lookup_insert_eq|done|cbn; lia|lia|].
  rewrite E3. cbn [mbind option_bind]. rewrite Hx3. cbn [mbind option_bind].
  assert (slots w3 = slots w) as Hs3 by (by rewrite (m_slots _ _ Hc3)).
  case_if; [by eexists|].
  destruct (inv_count_finish _ _ _ _ {| a_query := q; a_done := d |} Hi3) as ([w4 n] & E4 & Hi4 & Hs4).
  { rewrite Ea3. subst w2. cbn. by left. }
  rewrite E4. cbn [mbind option_bind]. eexists. split_and!; [done..|]. cbn [fst] in *. congruence.
Qed.

End inv.
#[export] Hint Resolve calm_refl : core.
#[global] Arguments asked {_} _ _ _ _ : simpl never.
#[global] Arguments sent {_} _ _ _ _ _ : simpl never.
End TopicHubInv.
