(* ===== verification/TopicHubRetry.v ===== *)
(** * The retry queue of the topic hub

    The operations on the outbound queue (appending, the periodic walk, teardown)
    and the calls built on them preserve the invariant of TopicHubInv.  The walk
    is verified with the queue taken off its thread: all its entries are then in
    the hands of the operation, and what remains is put back at the end. *)

From S2P Require Import Prelude TopicFilter TopicTree TopicInterest Ledger TopicHub TopicHubInv.

Module TopicHubRetry.
Import TopicInterest Ledger TopicHub TopicHubInv.

Section retry.
Context {zend_hash : ZendHash} {tree_ops : TopicTreeOps} {mailboxes : MailboxCapacity}.

(** ** Moving entries between queues and hands *)

Lemma sent_perm w Q R Q' R' e x : owned Q R ≡ₚ owned Q' R' -> sent w Q R e x -> sent w Q' R' e x.
Proof. unfold sent. intros Hp Hs. by setoid_rewrite <- Hp. Qed.

Lemma entry_pays_perm m a b i : a ≡ₚ b -> cnt i (entry_pays m a) = cnt i (entry_pays m b).
Proof. apply cnt_bind_perm. Qed.

Lemma entry_pays_cons m e x l i : m !! e = Some x -> cnt i (entry_pays m (e :: l)) = cnt i [e_payload x] + cnt i (entry_pays m l).
Proof. intros Hx. unfold entry_pays. cbn [mbind list_bind]. rewrite Hx. apply cnt_app. Qed.

Lemma inv_requeue Q R hp hq hc ret w t l l' ids ids' R' :
  inv Q R hp hq hc ret w -> locals w !! t = Some l -> Q !! t = Some ids -> ids ++ R ≡ₚ ids' ++ R' ->
  l_slot l' = l_slot l -> l_gen l' = l_gen l -> l_inbox l' = l_inbox l -> queue_ok (entries w) l' ids' ->
  inv (<[t := ids']> Q) R' hp hq (hc + parked (entries w) ids - parked (entries w) ids') ret (set_local t l' w).
Proof.
  intros [] Hl HQ Hp E1 E2 E3 Hq. destruct (pool_insert Q t ids ids' HQ) as (r & Hr1 & Hr2).
  assert (owned Q R ≡ₚ owned (<[t := ids']> Q) R') as Ho.
  { unfold owned. rewrite Hr1, Hr2, (Permutation_app_comm ids), (Permutation_app_comm ids'), <- !app_assoc. by rewrite Hp. }
  rebuild.
  - eapply ledger_ext, i_pay0. intros i. rewrite !cnt_app. by rewrite (entry_pays_perm _ _ _ i Ho).
  - eapply ledger_perm, i_ent0. by rewrite Ho.
  - by rewrite <- Ho.
  - intros u. destruct (decide (t = u)) as [<-|Hne].
    + rewrite !lookup_insert_eq. by exists ids'.
    + rewrite !lookup_insert_ne by done. apply i_queue0.
  - by eapply table_locals.
  - intros e x Hx. eapply sent_perm; [done|]. by apply i_sent0.
  - rewrite i_acct0. f_equal. rewrite (parked_perm _ _ _ Hr1), (parked_perm _ _ _ Hr2), !parked_app. lia.
Qed.

Lemma inv_perm Q R R' hp hq hc ret w : R ≡ₚ R' -> inv Q R hp hq hc ret w -> inv Q R' hp hq hc ret w.
Proof.
  intros Hp []. assert (owned Q R ≡ₚ owned Q R') as Ho by (unfold owned; by rewrite Hp). rebuild.
  - eapply ledger_ext, i_pay0. intros i. rewrite !cnt_app. by rewrite (entry_pays_perm _ _ _ i Ho).
  - eapply ledger_perm, i_ent0. by rewrite Ho.
  - by rewrite <- Ho.
  - intros e x Hx. eapply sent_perm; [done|]. by apply i_sent0.
Qed.

(** ** Updating an entry *)

Definition target_ok (x : retry_entry_t) : Prop :=
  Forall (fun tg => (t_slot tg < TOPIC_HUB_MAX_WORKERS)%nat) (e_pending x) /\
  0 <= e_delivered x /\ 0 <= e_gone x /\ e_delivered x + e_gone x + npending x < 2 ^ 32.

(** An entry that is in hand may be relinked and its targets may change. *)
Lemma inv_entry Q R hp hq hc ret w e x y :
  inv Q R hp hq hc ret w -> entries w !! e = Some x -> e ∈ R ->
  e_refcount y = e_refcount x -> e_payload y = e_payload x -> sent w Q R e y -> target_ok y ->
  inv Q R hp hq hc ret (set_entries w (<[e := y]> (entries w))).
Proof.
  intros [] Hx He E1 E2 Hs Ht.
  assert (e ∉ pool Q) as Hn. { apply NoDup_app in i_own0 as (_ & Hd & _). intros Hin. by apply (Hd e). }
  assert (forall i, i ∈ pool Q -> <[e := y]> (entries w) !! i = entries w !! i) as Hq.
  { intros i Hi. apply lookup_insert_ne. by intros ->. }
  rebuild.
  - replace (entry_pays (<[e:=y]> (entries w)) (owned Q R)) with (entry_pays (entries w) (owned Q R)); [done|].
    apply entry_pays_ext. intros i _. destruct (decide (e = i)) as [<-|]; [rewrite lookup_insert_eq, Hx; by cbn; rewrite E2|].
    by rewrite lookup_insert_ne.
  - by eapply ledger_same.
  - intros u. specialize (i_queue0 u). destruct (locals w !! u) as [l|]; [|done]. destruct i_queue0 as (ids & HQ & []).
    exists ids. split; [done|]. split; try done. eapply chain_ext; [|done]. intros i Hi. rewrite Hq; [done|].
    apply elem_of_pool. by exists u, ids.
  - intros i z. destruct (decide (e = i)) as [<-|]; [rewrite lookup_insert_eq; by intros [= <-]|].
    rewrite lookup_insert_ne by done. apply i_sent0.
  - intros i z. destruct (decide (e = i)) as [<-|]; [rewrite lookup_insert_eq; by intros [= <-]|].
    rewrite lookup_insert_ne by done. apply i_target0.
  - rewrite (parked_ext (<[e:=y]> (entries w)) (entries w)); [done|]. intros i Hi. by rewrite Hq.
Qed.

Lemma inv_hand Q R hp hq hc ret w e : inv Q R hp hq hc ret w -> e ∈ R -> exists x, entries w !! e = Some x.
Proof.
  intros [] He. destruct (ledger_live _ _ _ e i_ent0) as (x & Hx & _); [|by exists x].
  unfold owned. rewrite !elem_of_app. auto.
Qed.

Lemma inv_set_next Q R hp hq hc ret w e x v :
  inv Q R hp hq hc ret w -> entries w !! e = Some x -> e ∈ R ->
  set_next e v w = Some (set_entries w (<[e := e_set_next x v]> (entries w))) /\
  inv Q R hp hq hc ret (set_entries w (<[e := e_set_next x v]> (entries w))).
Proof.
  intros Hi Hx He. unfold set_next. rewrite Hx. split; [done|]. eapply inv_entry; [done..| |].
  - by apply (i_sent _ _ _ _ _ _ _ Hi) in Hx.
  - by apply (i_target _ _ _ _ _ _ _ Hi) in Hx.
Qed.

(** ** Finishing an entry *)

(** What finishing [e] leaves alone. *)
Record finished (e : nat) (w w' : world) : Prop := {
  z_entries : forall i, i <> e -> entries w' !! i = entries w !! i;
  z_locals : locals w' = locals w;
  z_slots : slots w' = slots w;
  z_used : slots_used w' = slots_used w;
  z_boxes : boxes w' = boxes w;
  z_senders : senders w' = senders w;
}.

(** The entry leaves the queue: its payload reference stays with the caller, its
    own count drops by one and a sender waiting for it is woken. *)
Lemma inv_unown_sender Q R hp hq hc ret w e x s :
  inv Q (e :: R) hp hq hc ret w -> entries w !! e = Some x ->
  s ∈ senders w -> s_entry s = e -> e_abandoned x = false -> e_delivered x + e_gone x + npending x = s_nfull s ->
  e_refcount x <> 1 /\ is_Some (events w !! s_done s) /\
  inv Q R (e_payload x :: hp) hq hc ret
    (set_events (set_entries w (<[e := e_add (e_set_waiter x false None) (-1)]> (entries w))) (<[s_done s := true]> (events w))).
Proof.
  intros [] Hx Hs Ee Ea En.
  assert (s_entry s ∈ map s_entry (senders w)) as Hse by (by apply list_elem_of_fmap_2).
  assert (s_done s ∈ dones w) as Hd by (apply elem_of_app; left; by apply list_elem_of_fmap_2).
  assert (owned Q (e :: R) ≡ₚ e :: owned Q R) as Ho by (unfold owned; by rewrite Permutation_middle).
  pose proof i_own0 as Hnd. rewrite Ho in Hnd. apply NoDup_cons in Hnd as [Hen Hnd].
  assert (e ∉ pool Q) as Hn. { intros Hin. apply Hen, elem_of_app. by left. }
  assert (forall i, i ∈ pool Q -> <[e := e_add (e_set_waiter x false None) (-1)]> (entries w) !! i = entries w !! i) as Hq.
  { intros i Hi. apply lookup_insert_ne. by intros ->. }
  assert (e_refcount x <> 1) as Hr.
  { specialize (i_ent0 e) as Hc. rewrite Hx, Ho, cnt_app in Hc. cbn [cnt] in Hc. rewrite Nat.eqb_refl in Hc.
    rewrite Ee in Hse. apply cnt_pos in Hse. pose proof (cnt_nonneg e (owned Q R)). lia. }
  split_and!; [done|by apply i_event0|].
  assert (forall d, <[s_done s := true]> (events w) !! d = Some true <-> d = s_done s \/ events w !! d = Some true) as Hf.
  { intros d. destruct (decide (s_done s = d)) as [->|]; [rewrite lookup_insert_eq|rewrite lookup_insert_ne by done]; naive_solver. }
  rebuild.
  - eapply ledger_ext, i_pay0. intros i. rewrite !cnt_app, (entry_pays_perm _ _ _ i Ho). cbn [app cnt].
    rewrite (entry_pays_cons _ _ _ _ i Hx), (entry_pays_ext (<[e:=_]> (entries w)) (entries w)).
    + rewrite !cnt_app. cbn [cnt]. lia.
    + intros j Hj. rewrite lookup_insert_ne; [done|]. by intros ->.
  - eapply (ledger_dec _ _ _ e x); [|done|done|done]. eapply ledger_perm, i_ent0. by rewrite Ho.
  - intros u. specialize (i_queue0 u). destruct (locals w !! u) as [l|]; [|done]. destruct i_queue0 as (ids & HQ & []).
    exists ids. split; [done|]. split; try done. eapply chain_ext; [|done]. intros i Hi. rewrite Hq; [done|].
    apply elem_of_pool. by exists u, ids.
  - intros i z. destruct (decide (e = i)) as [<-|Hne].
    + rewrite lookup_insert_eq. intros [= <-]. left. exists s. split_and!; [done..|]. right. split_and!; [done..|]. apply Hf. by left.
    + rewrite lookup_insert_ne by done. intros Hz. destruct (i_sent0 _ _ Hz) as [(s' & H1 & H2 & H3 & H4 & H5)|]; [left|by right].
      exists s'. split_and!; [done..|]. rewrite Ho in H5. destruct H5 as [[H5 H6]|(H5 & H6 & H7)]; [left|right].
      * split; [done|]. apply elem_of_cons in H6 as [->|]; done.
      * split_and!; [done| |by apply Hf; right]. intros Hin. apply H6. by right.
  - intros i z. destruct (decide (e = i)) as [<-|]; [rewrite lookup_insert_eq; intros [= <-]; by apply i_target0 in Hx|].
    rewrite lookup_insert_ne by done. apply i_target0.
  - intros d. rewrite <- i_event0. destruct (decide (s_done s = d)) as [<-|]; [|by rewrite lookup_insert_ne].
    rewrite lookup_insert_eq. apply i_event0 in Hd. by split.
  - rewrite (parked_ext (<[e:=_]> (entries w)) (entries w)); [done|]. intros i Hi. by rewrite Hq.
Qed.

Lemma inv_unown_free Q R hp hq hc ret w e x :
  inv Q (e :: R) hp hq hc ret w -> entries w !! e = Some x -> e ∉ map s_entry (senders w) ->
  e_refcount x = 1 /\ inv Q R (e_payload x :: hp) hq hc ret (set_entries w (delete e (entries w))).
Proof.
  intros [] Hx Hs.
  assert (owned Q (e :: R) ≡ₚ e :: owned Q R) as Ho by (unfold owned; by rewrite Permutation_middle).
  pose proof i_own0 as Hnd. rewrite Ho in Hnd. apply NoDup_cons in Hnd as [Hen Hnd].
  assert (forall i, i ∈ owned Q R -> delete e (entries w) !! i = entries w !! i) as Hq.
  { intros i Hi. apply lookup_delete_ne. by intros ->. }
  assert (e_refcount x = 1) as Hr.
  { specialize (i_ent0 e) as Hc. rewrite Hx, Ho, cnt_app in Hc. cbn [cnt] in Hc. rewrite Nat.eqb_refl in Hc.
    apply cnt_zero in Hs, Hen. lia. }
  assert (forall i, i ∈ pool Q -> delete e (entries w) !! i = entries w !! i) as Hq2.
  { intros i Hi. apply Hq. unfold owned. apply elem_of_app. by left. }
  split; [done|]. rebuild.
  - eapply ledger_ext, i_pay0. intros i. rewrite !cnt_app, (entry_pays_perm _ _ _ i Ho). cbn [app cnt].
    rewrite (entry_pays_cons _ _ _ _ i Hx), (entry_pays_ext (delete e (entries w)) (entries w)).
    + rewrite !cnt_app. cbn [cnt]. lia.
    + intros j Hj. by rewrite Hq.
  - eapply ledger_free; [|done|done]. eapply ledger_perm, i_ent0. by rewrite Ho.
  - intros u. specialize (i_queue0 u). destruct (locals w !! u) as [l|]; [|done]. destruct i_queue0 as (ids & HQ & []).
    exists ids. split; [done|]. split; try done. eapply chain_ext; [|done]. intros i Hi. rewrite Hq2; [done|].
    apply elem_of_pool. by exists u, ids.
  - intros i z [Hne Hz]%lookup_delete_Some. destruct (i_sent0 _ _ Hz) as [(s' & H1 & H2 & H3 & H4 & H5)|]; [left|by right].
    exists s'. split_and!; [done..|]. rewrite Ho in H5. destruct H5 as [[H5 H6]|(H5 & H6 & H7)]; [left|right].
    + split; [done|]. apply elem_of_cons in H6 as [->|]; done.
    + split_and!; [done| |done]. intros Hin. apply H6. by right.
  - intros i z [_ Hz]%lookup_delete_Some. by apply i_target0 in Hz.
  - rewrite (parked_ext (delete e (entries w)) (entries w)); [done|]. intros i Hi. by rewrite Hq2.
Qed.

Lemma inv_finish Q R hp hq hc ret w e :
  inv Q (e :: R) hp hq hc ret w ->
  exists w', retry_entry_finish e w = Some w' /\ inv Q R hp hq hc ret w' /\ finished e w w'.
Proof.
  intros Hi. destruct (inv_hand _ _ _ _ _ _ _ e Hi) as [x Hx]; [by left|].
  assert (e ∈ owned Q (e :: R)) as Ho by (unfold owned; rewrite elem_of_app; right; by left).
  unfold retry_entry_finish. rewrite Hx. cbn [mbind option_bind].
  destruct (i_sent _ _ _ _ _ _ _ Hi _ _ Hx) as [(s & H1 & H2 & H3 & H4 & H5)|[Hs Hw]].
  - destruct H5 as [[Hw _]|(_ & Hn & _)]; [|done]. rewrite Hw, H3.
    destruct (inv_unown_sender _ _ _ _ _ _ _ _ _ _ Hi Hx H1 H2 H3 H4) as (Hr & [b Hb] & Hi1).
    unfold async_plain_event_fire. cbn [events set_entries]. rewrite Hb. cbn [mbind option_bind].
    destruct (inv_payload_release _ _ _ _ _ _ _ _ Hi1) as (w2 & E2 & Hi2 & _). unfold ws_payload_release in *.
    cbn [payloads set_events set_entries] in *. destruct (payloads w !! e_payload x) as [y|]; [|done].
    cbn [mbind option_bind] in *. injection E2 as <-.
    unfold retry_entry_release. cbn [entries set_payloads set_events set_entries]. rewrite lookup_insert_eq. cbn [mbind option_bind e_refcount e_set_waiter].
    destruct (Z.eqb_spec (e_refcount x) 1); [done|]. rewrite insert_insert_eq. eexists. split_and!; [done|exact Hi2|].
    split; [|done..]. intros i Hne. cbn. by rewrite lookup_insert_ne.
  - rewrite Hw. destruct (inv_unown_free _ _ _ _ _ _ _ _ _ Hi Hx Hs) as (Hr & Hi1). cbn [mbind option_bind].
    destruct (inv_payload_release _ _ _ _ _ _ _ _ Hi1) as (w2 & E2 & Hi2 & _). unfold ws_payload_release in *.
    cbn [payloads set_entries] in *. destruct (payloads w !! e_payload x) as [y|]; [|done].
    cbn [mbind option_bind] in *. injection E2 as <-.
    unfold retry_entry_release. cbn [entries set_payloads]. rewrite Hx. cbn [mbind option_bind]. rewrite Hr, Z.eqb_refl.
    eexists. split_and!; [done|exact Hi2|]. split; [|done..]. intros i Hne. cbn. by rewrite lookup_delete_ne.
Qed.

(** ** Chains *)

Lemma chain_live m p ids i : chain m p ids -> i ∈ ids -> is_Some (m !! i).
Proof.
  revert p. induction ids as [|j ids IH]; intros p; [by intros _ ?%elem_of_nil|]. intros (-> & x & Hx & Hc) [->|Hi]%elem_of_cons; [done|].
  by eapply IH.
Qed.

Lemma chain_insert m p ids i x : i ∉ ids -> chain m p ids -> chain (<[i := x]> m) p ids.
Proof. intros Hi. apply chain_ext. intros j Hj. rewrite lookup_insert_ne; [done|]. by intros ->. Qed.

(** The list is cut after [i] and continues elsewhere. *)
Lemma chain_relink m p a i x b p2 c :
  chain m p (a ++ i :: b) -> i ∉ a -> m !! i = Some x -> chain m p2 c -> i ∉ c ->
  chain (<[i := e_set_next x p2]> m) p (a ++ i :: c).
Proof.
  intros Hc Ha Hx H2 Hi. revert p Hc. induction a as [|j a IH]; cbn [app chain]; intros p.
  - intros (-> & y & Hy & _). split; [done|]. exists (e_set_next x p2). split; [apply lookup_insert_eq|]. by apply chain_insert.
  - apply not_elem_of_cons in Ha as [Hne Ha]. intros (-> & y & Hy & Hc). split; [done|]. exists y.
    rewrite lookup_insert_ne by done. split; [done|]. by apply IH.
Qed.

(** The rest of a list starts at the pointer its predecessor holds. *)
Lemma chain_suffix m p a i x b : chain m p (a ++ i :: b) -> m !! i = Some x -> chain m (Some i) (i :: b) /\ chain m (e_next x) b.
Proof.
  intros Hc Hx. revert p Hc. induction a as [|j a IH]; cbn [app chain]; intros p.
  - intros (-> & y & Hy & Hc). assert (y = x) as -> by congruence. split; [|done]. split; [done|]. by exists x.
  - intros (-> & y & Hy & Hc). by eapply IH.
Qed.

Lemma size_bound (m : gmap nat retry_entry_t) ids :
  NoDup ids -> (forall i, i ∈ ids -> is_Some (m !! i)) -> (length ids <= size m)%nat.
Proof.
  intros Hn Hl. rewrite <- size_dom. rewrite <- (size_list_to_set (C := gset nat) ids) by done.
  apply subseteq_size. intros i Hi. apply elem_of_list_to_set in Hi. apply elem_of_dom. by apply Hl.
Qed.

(** ** The finishing loops *)

Lemma inv_finish_chain Q R hp hq hc ret fuel p ids w :
  inv Q (ids ++ R) hp hq hc ret w -> chain (entries w) p ids -> (length ids <= fuel)%nat ->
  exists w', finish_chain fuel p w = Some w' /\ inv Q R hp hq hc ret w' /\ locals w' = locals w /\ slots w' = slots w /\
    senders w' = senders w /\ forall i, i ∉ ids -> entries w' !! i = entries w !! i.
Proof.
  revert p ids w. induction fuel as [|fuel IH]; intros p ids w Hi Hc Hl; (destruct ids as [|e ids]; cbn [chain length] in *; [subst p|destruct Hc as (-> & x & Hx & Hc)]).
  - by exists w.
  - lia.
  - by exists w.
  - cbn [finish_chain]. rewrite Hx. cbn [mbind option_bind].
    pose proof (i_own _ _ _ _ _ _ _ Hi) as Hnd. apply NoDup_app in Hnd as (_ & _ & Hnd). apply NoDup_cons in Hnd as [Hne _].
    destruct (inv_finish _ _ _ _ _ _ _ _ Hi) as (w1 & E1 & Hi1 & []). rewrite E1. cbn [mbind option_bind].
    destruct (IH (e_next x) ids w1) as (w' & E' & Hi' & Hl'); [done| |lia|].
    + eapply chain_ext; [|done]. intros i Hin. rewrite z_entries0; [done|]. intros ->. apply Hne, elem_of_app. by left.
    + exists w'. destruct Hl' as (-> & -> & -> & Hl'). split_and!; [done..|]. intros i [Hi1' Hi2']%not_elem_of_cons. rewrite Hl' by done. by apply z_entries0.
Qed.

Lemma inv_teardown_loop Q R hp hq hc ret fuel p ids lost w :
  inv Q (ids ++ R) hp hq hc ret w -> chain (entries w) p ids -> (length ids <= fuel)%nat ->
  exists w', teardown_loop fuel p lost w = Some (w', lost + parked (entries w) ids) /\ inv Q R hp hq hc ret w' /\
    locals w' = locals w /\ slots w' = slots w /\ slots_used w' = slots_used w /\ boxes w' = boxes w.
Proof.
  revert p ids lost w. induction fuel as [|fuel IH]; intros p ids lost w Hi Hc Hl; (destruct ids as [|e ids]; cbn [chain length parked] in *; [subst p|destruct Hc as (-> & x & Hx & Hc)]).
  - exists w. by rewrite Z.add_0_r.
  - lia.
  - exists w. cbn. by rewrite Z.add_0_r.
  - cbn [teardown_loop]. rewrite Hx. cbn [mbind option_bind].
    pose proof (i_own _ _ _ _ _ _ _ Hi) as Hnd. apply NoDup_app in Hnd as (_ & _ & Hnd). apply NoDup_cons in Hnd as [Hne _].
    assert (inv Q ((e :: ids) ++ R) hp hq hc ret (set_entries w (<[e := e_set_shutdown x]> (entries w)))) as Hi0.
    { eapply inv_entry; [done|done|by left|done|done| |].
      - by apply (i_sent _ _ _ _ _ _ _ Hi) in Hx.
      - by apply (i_target _ _ _ _ _ _ _ Hi) in Hx. }
    destruct (inv_finish _ _ _ _ _ _ _ _ Hi0) as (w1 & E1 & Hi1 & []). rewrite E1. cbn [mbind option_bind].
    assert (forall i, i ∈ ids -> entries w1 !! i = entries w !! i) as Hs.
    { intros i Hin. assert (i <> e) as Hie. { intros ->. apply Hne, elem_of_app. by left. }
      rewrite z_entries0 by done. cbn. by rewrite lookup_insert_ne. }
    destruct (IH (e_next x) ids (lost + npending x) w1) as (w' & E' & Hi' & Hl'); [done| |lia|].
    + eapply chain_ext; [|done]. intros i Hin. by rewrite Hs.
    + exists w'. unfold npending in E' at 1. rewrite E'. rewrite (parked_ext (entries w1) (entries w)) by (intros; by rewrite Hs).
      split; [do 2 f_equal; lia|]. destruct Hl' as (-> & -> & -> & ->). split_and!; done.
Qed.

(** ** The periodic walk *)

Lemma entry_pays_in m e x ids : m !! e = Some x -> e ∈ ids -> e_payload x ∈ entry_pays m ids.
Proof. intros Hx He. apply list_elem_of_bind. exists e. rewrite Hx. split; [by left|done]. Qed.

Lemma inv_targets Q R hp hq hc ret e x ts : forall kept d g w,
  inv Q R hp hq hc ret w -> entries w !! e = Some x -> e ∈ R ->
  Forall (fun tg => (t_slot tg < TOPIC_HUB_MAX_WORKERS)%nat) ts ->
  exists w' k2 d' g', retry_targets x ts kept d g w = Some (w', (kept ++ k2, d', g')) /\ inv Q R hp hq hc ret w' /\ calm w w' /\
    Forall (fun tg => (t_slot tg < TOPIC_HUB_MAX_WORKERS)%nat) k2 /\ d <= d' /\ g <= g' /\
    d' + g' + Z.of_nat (length k2) = d + g + Z.of_nat (length ts).
Proof.
  induction ts as [|tg ts IH]; intros kept d g w Hi Hx He Hf; cbn [retry_targets].
  { exists w, [], d, g. rewrite app_nil_r. split_and!; try done; lia. }
  apply Forall_cons_iff in Hf as [Ht Hf].
  destruct (slot_live _ _ _ _ _ _ _ (t_slot tg) Hi Ht) as [s Es]. rewrite Es. cbn [mbind option_bind length].
  case_if.
  { destruct (IH kept d (g + 1) w) as (w' & k2 & d' & g' & E & Hi' & Hc' & Hk & H1 & H2 & H3); [done..|].
    exists w', k2, d', g'. split_and!; try done; lia. }
  destruct (inv_payload_ref _ _ _ _ _ _ _ (e_payload x) Hi) as (w1 & E1 & Hi1 & Hc1).
  { rewrite !elem_of_app. right. right. eapply entry_pays_in; [done|]. unfold owned. apply elem_of_app. by right. }
  rewrite E1. cbn [mbind option_bind].
  destruct (inv_post _ _ _ _ _ _ _ (WS_CMD_PUBLISH (e_payload x) (e_except x) (e_topic x)) (t_slot tg) Hi1 Ht) as (w2 & posted & E2 & Hc2 & H2).
  rewrite E2. cbn [mbind option_bind]. assert (calm w w2) as Hc by (by eapply calm_trans). destruct posted.
  - destruct (IH kept (d + 1) g w2) as (w' & k2 & d' & g' & E & Hi' & Hc' & Hk & H3 & H4 & H5); [done|by rewrite (m_entries _ _ Hc)|done..|].
    exists w', k2, d', g'. split_and!; try done; try lia. by eapply calm_trans.
  - subst w2. destruct (inv_payload_release _ _ _ _ _ _ _ _ Hi1) as (w3 & E3 & Hi3 & Hc3). rewrite E3. cbn [mbind option_bind].
    assert (calm w w3) as Hc' by (by eapply calm_trans).
    destruct (IH (kept ++ [tg]) d g w3) as (w' & k2 & d' & g' & E & Hi' & Hc4 & Hk & H3 & H4 & H5); [done|by rewrite (m_entries _ _ Hc')|done..|].
    exists w', (tg :: k2), d', g'. rewrite E, <- app_assoc. cbn [length]. split_and!; try done; try lia.
    + by eapply calm_trans.
    + by apply List.Forall_cons.
Qed.

Lemma sent_upd w Q R e x y :
  sent w Q R e x -> e_abandoned y = e_abandoned x -> e_waiter y = e_waiter x ->
  e_delivered y + e_gone y + npending y = e_delivered x + e_gone x + npending x -> sent w Q R e y.
Proof. unfold sent. intros Hs -> -> ->. done. Qed.

(** The cursors of the walk: [kept] is behind them, [rest] ahead, [res] resolved. *)
Record walk_ok (m : gmap nat retry_entry_t) (kept rest res : list nat) (prev cur : option nat) (k : walk_t) : Prop := {
  v_chain : chain m (k_head k) (kept ++ rest);
  v_prev : prev = last kept;
  v_cur : cur = head rest;
  v_tail : k_tail k = last (kept ++ rest);
  v_count : k_count k = Z.of_nat (length (kept ++ rest));
  v_bound : Z.of_nat (length (kept ++ rest)) < 2 ^ 32;
  v_res : chain m (k_resolved k) res;
  v_expired : k_expired k = parked m res;
}.

(** Targets resolved or still parked, in the course of the walk. *)
Definition balance (m : gmap nat retry_entry_t) (ids res : list nat) (k : walk_t) : Z :=
  k_delivered k + k_gone k + parked m ids + parked m res.

Lemma chain_head m p ids : chain m p ids -> p = head ids.
Proof. destruct ids as [|i ids]; [done|]. by intros [-> _]. Qed.

(** Visiting an entry: its targets are served and its pending set compacted. *)
Lemma inv_visit Q R hp hq hc ret w e x :
  inv Q R hp hq hc ret w -> entries w !! e = Some x -> e ∈ R ->
  exists w1 k2 d g, retry_targets x (e_pending x) [] 0 0 w = Some (w1, (k2, d, g)) /\
    let y := e_set_pending x k2 d g in
    inv Q R hp hq hc ret (set_entries w1 (<[e := y]> (entries w1))) /\ entries w1 = entries w /\ calm w w1 /\
    d + g + Z.of_nat (length k2) = npending x /\ 0 <= d /\ 0 <= g.
Proof.
  intros Hi Hx He. destruct (i_target _ _ _ _ _ _ _ Hi _ _ Hx) as (Ht & Hd & Hg & Hb).
  destruct (inv_targets _ _ _ _ _ _ e x (e_pending x) [] 0 0 w Hi Hx He Ht) as (w1 & k2 & d & g & E & Hi1 & Hc & Hk & Hd' & Hg' & Hs).
  exists w1, k2, d, g. split; [done|]. intros y. unfold npending in *.
  assert (e_delivered y = e_delivered x + d /\ e_gone y = e_gone x + g) as [Ed Eg].
  { subst y. cbn. unfold u32. rewrite !Z.mod_small; lia. }
  split_and!; [|by apply m_entries|done|lia..].
  eapply (inv_entry _ _ _ _ _ _ _ _ x); [done|by rewrite (m_entries _ _ Hc)|done..| |].
  - eapply (sent_upd _ _ _ _ x); [|done|done|].
    + apply (i_sent _ _ _ _ _ _ _ Hi1). by rewrite (m_entries _ _ Hc).
    + rewrite Ed, Eg. unfold npending. replace (e_pending y) with k2 by done. lia.
  - unfold target_ok, npending. rewrite Ed, Eg. replace (e_pending y) with k2 by done. split_and!; [done|lia..].
Qed.

(** Taking [e] off the live list and onto the resolved one. *)
Lemma inv_unlink Q R hp hq hc ret w hd kept e rest res p y :
  inv Q R hp hq hc ret w -> R ≡ₚ (kept ++ e :: rest) ++ res ->
  chain (entries w) hd (kept ++ e :: rest) -> chain (entries w) p res -> entries w !! e = Some y ->
  exists m2, (w ← match last kept with Some i => set_next i (e_next y) w | None => Some w end; set_next e p w)
      = Some (set_entries w m2) /\ inv Q R hp hq hc ret (set_entries w m2) /\
    chain m2 (match last kept with Some _ => hd | None => e_next y end) (kept ++ rest) /\ chain m2 (Some e) (e :: res) /\
    forall i, npending <$> m2 !! i = npending <$> entries w !! i /\ e_deadline <$> m2 !! i = e_deadline <$> entries w !! i.
Proof.
  intros Hi HR Hc Hp Hy.
  assert (NoDup ((kept ++ e :: rest) ++ res)) as Hnd.
  { rewrite <- HR. pose proof (i_own _ _ _ _ _ _ _ Hi) as Hn. by apply NoDup_app in Hn as (_ & _ & Hn). }
  apply NoDup_app in Hnd as (Hnd1 & Hdis & Hnd2). apply NoDup_app in Hnd1 as (Hk & Hke & Her). apply NoDup_cons in Her as [Her Hr].
  assert (e ∉ kept) as Hek. { intros Hin. apply (Hke e Hin). by left. }
  assert (e ∉ res) as Hes. { apply Hdis, elem_of_app. right. by left. }
  assert (e ∈ R) as HeR. { rewrite HR, !elem_of_app. left. right. by left. }
  assert (forall m z, m !! e = Some z -> chain m p res -> chain (<[e := e_set_next z p]> m) (Some e) (e :: res)) as Hres.
  { intros m z Hz Hm. split; [done|]. eexists. split; [apply lookup_insert_eq|]. by apply chain_insert. }
  assert (forall (m : gmap nat retry_entry_t) i z v j, m !! i = Some z -> npending <$> <[i := e_set_next z v]> m !! j = npending <$> m !! j /\ e_deadline <$> <[i := e_set_next z v]> m !! j = e_deadline <$> m !! j) as Hnp.
  { intros m i z v j Hz. destruct (decide (i = j)) as [<-|]; [by rewrite lookup_insert_eq, Hz|by rewrite lookup_insert_ne]. }
  destruct kept as [|i kept _] using rev_ind.
  - cbn [last app mbind option_bind] in *. destruct (inv_set_next _ _ _ _ _ _ _ e y p Hi Hy HeR) as [E1 Hi1]. rewrite E1.
    eexists. split_and!; [done|done| |by apply Hres|]. { apply chain_insert; [done|]. by eapply (chain_suffix _ _ []). }
    intros j. by apply Hnp.
  - rewrite last_snoc. cbn [mbind option_bind].
    assert (i ∈ R) as HiR. { rewrite HR, !elem_of_app. left. left. right. by left. }
    destruct (inv_hand _ _ _ _ _ _ _ i Hi HiR) as [x Hx].
    destruct (inv_set_next _ _ _ _ _ _ _ i x (e_next y) Hi Hx HiR) as [E1 Hi1]. rewrite E1. cbn [mbind option_bind].
    assert (e <> i) as Hei. { intros ->. apply Hek, elem_of_app. right. by left. }
    set (w1 := set_entries w _) in *.
    assert (entries w1 !! e = Some y) as Hy1 by (subst w1; cbn; by rewrite lookup_insert_ne).
    destruct (inv_set_next _ _ _ _ _ _ _ e y p Hi1 Hy1 HeR) as [E2 Hi2]. rewrite E2.
    rewrite <- app_assoc in Hc. cbn [app] in Hc.
    assert (i ∉ kept /\ i ∉ rest /\ i ∉ res) as (Hik & Hir & Hires).
    { apply NoDup_app in Hk as (_ & Hk & _). split_and!.
      - intros Hin. apply (Hk i Hin). by left.
      - intros Hin. apply (Hke i); [apply elem_of_app; right; by left|by right].
      - apply Hdis. rewrite !elem_of_app. left. right. by left. }
    eexists. split_and!; [done|done| | |].
    + apply chain_insert.
      { rewrite !not_elem_of_app in *. naive_solver. }
      rewrite <- app_assoc. cbn [app]. eapply chain_relink; [done|done|done| |done].
      eapply (chain_suffix _ _ (kept ++ [i])); [|done]. by rewrite <- app_assoc.
    + apply Hres; [done|]. by apply chain_insert.
    + intros j. destruct (Hnp _ e y p j Hy1) as [-> ->]. by apply Hnp.
Qed.

Lemma last_unlink (kept rest : list nat) e :
  NoDup (kept ++ e :: rest) ->
  (if bool_decide (last (kept ++ e :: rest) = Some e) then last kept else last (kept ++ e :: rest)) = last (kept ++ rest).
Proof.
  intros Hn. destruct rest as [|i rest _] using rev_ind.
  - rewrite last_snoc, bool_decide_eq_true_2 by done. by rewrite app_nil_r.
  - rewrite (app_comm_cons rest), app_assoc, last_snoc. rewrite bool_decide_eq_false_2; [by rewrite app_assoc, last_snoc|].
    intros [= ->]. apply NoDup_app in Hn as (_ & _ & Hn). apply NoDup_cons in Hn as [Hn _]. apply Hn, elem_of_app. right. by left.
Qed.

Lemma parked_insert m e x y ids :
  NoDup ids -> e ∈ ids -> m !! e = Some x -> parked (<[e := y]> m) ids = parked m ids - npending x + npending y.
Proof.
  induction 1 as [|i ids Hi Hn IH]; [by intros ?%elem_of_nil|]. intros He Hx. cbn [parked]. apply elem_of_cons in He as [->|He].
  - rewrite lookup_insert_eq, Hx. rewrite (parked_ext (<[i := y]> m) m); [lia|]. intros j Hj. rewrite lookup_insert_ne; [done|]. by intros ->.
  - rewrite lookup_insert_ne by (by intros ->). rewrite IH by done. lia.
Qed.

Lemma chain_same_next m p ids e x y :
  chain m p ids -> m !! e = Some x -> e_next y = e_next x -> chain (<[e := y]> m) p ids.
Proof.
  intros Hc Hx E. eapply chain_ext, Hc. intros i _. destruct (decide (e = i)) as [<-|]; [|by rewrite lookup_insert_ne].
  rewrite lookup_insert_eq, Hx. cbn. by rewrite E.
Qed.

Definition same_cores (w w' : world) : Prop :=
  slots w' = slots w /\ senders w' = senders w /\ forall t, core <$> locals w' !! t = core <$> locals w !! t.

Lemma parked_fresh m e y ids : e ∉ ids -> parked (<[e := y]> m) ids = parked m ids.
Proof. intros He. apply parked_ext. intros i Hi. rewrite lookup_insert_ne; [done|]. by intros ->. Qed.

(** The entries the walk has kept are not due. *)
Definition later (now : Z) (m : gmap nat retry_entry_t) (ids : list nat) : Prop :=
  forall i z, i ∈ ids -> m !! i = Some z -> now < e_deadline z.

Lemma later_ext now m m' ids :
  (forall i, e_deadline <$> m' !! i = e_deadline <$> m !! i) -> later now m ids -> later now m' ids.
Proof.
  intros He Hl i z Hi Hz. specialize (He i). rewrite Hz in He. destruct (m !! i) as [y|] eqn:Ey; [|done]. injection He as ->. by eapply Hl.
Qed.

Lemma inv_walk Q hp hq hc ret now fuel : forall kept rest res prev cur k R w,
  inv Q R hp hq hc ret w -> R ≡ₚ (kept ++ rest) ++ res -> walk_ok (entries w) kept rest res prev cur k ->
  (length rest <= fuel)%nat -> later now (entries w) kept ->
  exists w' kept' res' prev' k', retry_walk fuel now prev cur k w = Some (w', k') /\
    inv Q (kept' ++ res') hp hq hc ret w' /\ walk_ok (entries w') kept' [] res' prev' None k' /\ same_cores w w' /\ kept' ++ res' ≡ₚ R /\
    later now (entries w') kept' /\ (forall i, e_deadline <$> entries w' !! i = e_deadline <$> entries w !! i) /\
    balance (entries w') kept' res' k' = balance (entries w) (kept ++ rest) res k.
Proof.
  induction fuel as [|fuel IH]; intros kept rest res prev cur k R w Hi HR Hw Hl Hlate; (destruct rest as [|e rest]; [|cbn [length] in Hl]).
  - exists w, kept, res, prev, k. pose proof (v_cur _ _ _ _ _ _ _ Hw) as ->. rewrite app_nil_r in HR |- *.
    split_and!; [done|by eapply inv_perm|done..].
  - lia.
  - exists w, kept, res, prev, k. pose proof (v_cur _ _ _ _ _ _ _ Hw) as ->. rewrite app_nil_r in HR |- *.
    split_and!; [done|by eapply inv_perm|done..].
  - destruct Hw as [Vc -> -> Vt Vn Vb Vr Ve]. cbn [head retry_walk].
    assert (NoDup ((kept ++ e :: rest) ++ res)) as Hnd.
    { rewrite <- HR. pose proof (i_own _ _ _ _ _ _ _ Hi) as Hn. by apply NoDup_app in Hn as (_ & _ & Hn). }
    apply NoDup_app in Hnd as (Hnd & Hdis & _).
    assert (e ∈ kept ++ e :: rest) as Hek by (rewrite elem_of_app; right; by left).
    assert (e ∈ R) as HeR. { rewrite HR, elem_of_app. by left. }
    assert (e ∉ res) as Hes by (by apply Hdis).
    destruct (inv_hand _ _ _ _ _ _ _ e Hi HeR) as [x Hx]. rewrite Hx. cbn [mbind option_bind].
    destruct (inv_visit _ _ _ _ _ _ _ e x Hi Hx HeR) as (w1 & k2 & d & g & E1 & Hi1 & Em & Hc1 & Hs & Hd & Hg).
    rewrite E1. cbn [mbind option_bind]. rewrite Em in *.
    set (y := e_set_pending x k2 d g) in *. set (m1 := <[e := y]> (entries w)) in *.
    assert (m1 !! e = Some y) as Hy by apply lookup_insert_eq.
    pose proof (chain_same_next _ _ _ e x y Vc Hx eq_refl) as Vc1. fold m1 in Vc1.
    pose proof (chain_same_next _ _ _ e x y Vr Hx eq_refl) as Vr1. fold m1 in Vr1.
    assert (forall i, e_deadline <$> m1 !! i = e_deadline <$> entries w !! i) as Hdl.
    { intros i. destruct (decide (e = i)) as [<-|]; [by rewrite Hy, Hx|]. unfold m1. by rewrite lookup_insert_ne. }
    destruct (chain_suffix _ _ _ _ _ _ Vc Hx) as [_ Hnext%chain_head].
    assert (npending y = Z.of_nat (length k2)) as Hny by done.
    pose proof (parked_insert (entries w) e x y _ Hnd Hek Hx) as P1. fold m1 in P1.
    pose proof (parked_fresh (entries w) e y res Hes) as P2. fold m1 in P2.
    set (expired := match k2 with [] => false | _ => _ end).
    destruct (match k2 with [] => true | _ => expired end) eqn:Efin.
    + destruct (inv_unlink _ _ _ _ _ _ _ (k_head k) kept e rest res (k_resolved k) y Hi1 HR Vc1 Vr1 Hy) as (m2 & E2 & Hi2 & Hc2 & Hr2 & Hn3).
      change (e_next y) with (e_next x) in *. cbn [entries set_entries] in Hn3.
      assert (forall i, npending <$> m2 !! i = npending <$> m1 !! i) as Hn2 by apply Hn3.
      assert (forall i, e_deadline <$> m2 !! i = e_deadline <$> entries w !! i) as Hdl2 by (intros i; rewrite <- Hdl; apply Hn3).
      destruct (match last kept with Some p => _ | None => _ end) as [wA|]; [|done]. cbn [mbind option_bind] in E2 |- *. rewrite E2.
      cbn [mbind option_bind]. set (k' := {| k_head := _ |}).
      destruct (IH kept rest (e :: res) (last kept) (e_next x) k' R (set_entries (set_entries w1 m1) m2)) as (w' & kept' & res' & prev' & k'' & E' & Hi' & Hw' & Hcore & HpR & Hlt & Hdl' & Hb); [done| | |lia| |].
      * rewrite HR. rewrite <- !app_assoc. cbn [app]. by rewrite <- !Permutation_middle.
      * split; subst k'; cbn; [done|done|done| | | |done|].
        -- rewrite Vt. by apply last_unlink.
        -- rewrite Vn, !length_app in *. cbn [length] in *. unfold u32. rewrite Z.mod_small; lia.
        -- rewrite !length_app in *. cbn [length] in *. lia.
        -- specialize (Hn2 e) as Hne. rewrite Hy in Hne. destruct (m2 !! e) as [z|]; [|done]. injection Hne as Hne.
           rewrite (parked_ext m2 m1) by (intros; apply Hn2). rewrite P2, Ve. unfold expired in *. destruct k2; [cbn in Hny; lia|].
           rewrite Efin. lia.
      * eapply later_ext, Hlate. done.
      * exists w', kept', res', prev', k''. split_and!; [done|done|done| |done|done| |].
        -- destruct Hcore as (Hsl & Hse & Hcore). split_and!; [by rewrite Hsl; apply (m_slots _ _ Hc1)|by rewrite Hse; apply (m_senders _ _ Hc1)|]. intros u. rewrite Hcore. cbn. apply (m_locals _ _ Hc1).
        -- intros i. rewrite Hdl'. apply Hdl2.
        -- rewrite Hb. subst k'. unfold balance. cbn [k_delivered k_gone parked entries set_entries].
           specialize (Hn2 e) as Hne. rewrite Hy in Hne. destruct (m2 !! e) as [z|] eqn:Ez; [|done]. injection Hne as Hne.
           rewrite (parked_ext m2 m1 (kept ++ rest)) by (intros; apply Hn2). rewrite (parked_ext m2 m1 res) by (intros; apply Hn2).
           rewrite P2, Hne. revert P1. rewrite !parked_app. cbn [parked]. rewrite Hy, Hx, Hny. lia.
    + set (k' := {| k_head := _ |}).
      destruct (IH (kept ++ [e]) rest res (Some e) (e_next x) k' R (set_entries w1 m1)) as (w' & kept' & res' & prev' & k'' & E' & Hi' & Hw' & Hcore & HpR & Hlt & Hdl' & Hb); [done| | |lia| |].
      * rewrite <- (app_assoc kept). done.
      * subst k'. split; cbn; rewrite <- ?(app_assoc kept); rewrite ?last_snoc; try done. cbn. by rewrite P2.
      * intros i z [Hin|[->|[]%elem_of_nil]%elem_of_cons]%elem_of_app Hz.
        -- by eapply (later_ext _ (entries w)); [|exact Hlate|exact Hin|exact Hz].
        -- cbn in Hz. rewrite Hy in Hz. injection Hz as <-. unfold expired in Efin. destruct k2; [done|]. cbn. lia.
      * exists w', kept', res', prev', k''. split_and!; [done|done|done| |done|done| |].
        -- destruct Hcore as (Hsl & Hse & Hcore). split_and!; [by rewrite Hsl; apply (m_slots _ _ Hc1)|by rewrite Hse; apply (m_senders _ _ Hc1)|]. intros u. rewrite Hcore. cbn. apply (m_locals _ _ Hc1).
        -- intros i. rewrite Hdl'. apply Hdl.
        -- rewrite Hb. subst k'. unfold balance. cbn [k_delivered k_gone entries set_entries]. rewrite <- app_assoc. cbn [app]. lia.
Qed.

(** ** The queue operations do not read the attachments *)

Abbreviation in_locals v := (fun r => (set_locals (fst r) v, snd r)).

Lemma payload_ref_locals p w v : ws_payload_ref p (set_locals w v) = (fun u => set_locals u v) <$> ws_payload_ref p w.
Proof. unfold ws_payload_ref. cbn. by destruct (payloads w !! p). Qed.

Lemma payload_release_locals p w v : ws_payload_release p (set_locals w v) = (fun u => set_locals u v) <$> ws_payload_release p w.
Proof. unfold ws_payload_release. cbn. by destruct (payloads w !! p). Qed.

Lemma post_locals slot c w v : topic_hub_post_locked slot c (set_locals w v) = in_locals v <$> topic_hub_post_locked slot c w.
Proof.
  unfold topic_hub_post_locked. cbn. destruct (slots w !! slot) as [s|]; [|done]. cbn. destruct (inbox s) as [b|]; [|done].
  cbn. destruct (boxes w !! b); [|done]. cbn. by case_if.
Qed.

Lemma targets_locals x ts kept d g w v : retry_targets x ts kept d g (set_locals w v) = in_locals v <$> retry_targets x ts kept d g w.
Proof.
  revert kept d g w. induction ts as [|tg ts IH]; intros kept d g w; [done|]. cbn [retry_targets slots set_locals].
  destruct (slots w !! t_slot tg) as [s|]; [|done]. cbn [mbind option_bind]. case_if; [apply IH|].
  rewrite payload_ref_locals. destruct (ws_payload_ref _ w) as [w1|]; [|done]. cbn [fmap option_fmap option_map mbind option_bind].
  rewrite post_locals. destruct (topic_hub_post_locked _ _ w1) as [[w2 []]|]; [| |done]; cbn [fmap option_fmap option_map mbind option_bind fst snd].
  - apply IH.
  - rewrite payload_release_locals. destruct (ws_payload_release _ w2) as [w3|]; [|done]. cbn [fmap option_fmap option_map mbind option_bind]. apply IH.
Qed.

Lemma set_next_locals e p w v : set_next e p (set_locals w v) = (fun u => set_locals u v) <$> set_next e p w.
Proof. unfold set_next. cbn. by destruct (entries w !! e). Qed.

Lemma walk_locals fuel now prev cur k w v : retry_walk fuel now prev cur k (set_locals w v) = in_locals v <$> retry_walk fuel now prev cur k w.
Proof.
  revert prev cur k w. induction fuel as [|fuel IH]; intros prev cur k w; (destruct cur as [e|]; [|done]); [done|].
  cbn [retry_walk entries set_locals]. destruct (entries w !! e) as [x|]; [|done]. cbn [mbind option_bind].
  rewrite targets_locals. destruct (retry_targets _ _ _ _ _ w) as [[w1 [[k2 d] g]]|]; [|done].
  cbn [fmap option_fmap option_map mbind option_bind fst snd entries set_locals].
  set (w2 := set_entries w1 _). set (fin := match k2 with [] => true | _ => _ end). destruct fin; [|exact (IH _ _ _ w2)].
  change (set_entries (set_locals w1 v) _) with (set_locals w2 v).
  assert (match prev with Some p => set_next p (e_next x) (set_locals w2 v) | None => Some (set_locals w2 v) end =
          (fun u => set_locals u v) <$> match prev with Some p => set_next p (e_next x) w2 | None => Some w2 end) as ->.
  { destruct prev; [apply set_next_locals|done]. }
  destruct (match prev with Some p => set_next p (e_next x) w2 | None => Some w2 end) as [w3|]; [|done]. cbn [fmap option_fmap option_map mbind option_bind].
  rewrite set_next_locals. destruct (set_next e _ w3) as [w4|]; [|done]. cbn [fmap option_fmap option_map mbind option_bind]. apply IH.
Qed.

Lemma finish_locals e w v : retry_entry_finish e (set_locals w v) = (fun u => set_locals u v) <$> retry_entry_finish e w.
Proof.
  unfold retry_entry_finish. cbn [entries set_locals]. destruct (entries w !! e) as [x|]; [|done]. cbn [mbind option_bind].
  assert (forall u, (w1 ← ws_payload_release (e_payload x) (set_locals u v); retry_entry_release e w1) =
    (fun z => set_locals z v) <$> (w1 ← ws_payload_release (e_payload x) u; retry_entry_release e w1)) as Hr.
  { intros u. rewrite payload_release_locals. destruct (ws_payload_release _ u) as [w1|]; [|done].
    cbn [fmap option_fmap option_map mbind option_bind]. unfold retry_entry_release. cbn. by destruct (entries w1 !! e). }
  destruct (e_waiter x) as [d|]; [|apply Hr]. destruct (e_abandoned x); [apply Hr|].
  unfold async_plain_event_fire. cbn [events set_entries set_locals]. destruct (events w !! d); [|done]. cbn [mbind option_bind].
  exact (Hr (set_events (set_entries w _) _)).
Qed.

Lemma teardown_locals fuel cur lost w v : teardown_loop fuel cur lost (set_locals w v) = in_locals v <$> teardown_loop fuel cur lost w.
Proof.
  revert cur lost w. induction fuel as [|fuel IH]; intros cur lost w; (destruct cur as [e|]; [|done]); [done|].
  cbn [teardown_loop entries set_locals]. destruct (entries w !! e) as [x|]; [|done]. cbn [mbind option_bind].
  change (set_entries (set_locals w v) _) with (set_locals (set_entries w (<[e := e_set_shutdown x]> (entries w))) v).
  rewrite finish_locals. destruct (retry_entry_finish e _) as [w1|]; [|done]. cbn [fmap option_fmap option_map mbind option_bind]. apply IH.
Qed.

Lemma set_locals_id w : set_locals w (locals w) = w.
Proof. by destruct w. Qed.

Lemma walk_keeps_locals fuel now prev cur k w r : retry_walk fuel now prev cur k w = Some r -> locals (fst r) = locals w.
Proof.
  intros E. pose proof (walk_locals fuel now prev cur k w (locals w)) as Hl. rewrite set_locals_id, E in Hl.
  destruct r as [w1 k1]. cbn in Hl. injection Hl as Hl. rewrite Hl at 1. done.
Qed.

(** ** Drain and tick *)

Lemma queue_of Q R hp hq hc ret w t l :
  inv Q R hp hq hc ret w -> locals w !! t = Some l -> exists ids, Q !! t = Some ids /\ queue_ok (entries w) l ids.
Proof. intros [] Hl. specialize (i_queue0 t). by rewrite Hl in i_queue0. Qed.

Lemma queue_ok_nil m l i : (retry_timer_armed l = true -> retry_timer l = true) -> queue_ok m (l_set_queue l None None 0 i) [].
Proof. intros Ht. by split. Qed.

Lemma fuel_enough Q R hp hq hc ret w ids :
  inv Q R hp hq hc ret w -> NoDup ids -> (forall i, i ∈ ids -> i ∈ owned Q R) -> (length ids <= fuel_of w)%nat.
Proof.
  intros [] Hn Hs. apply size_bound; [done|]. intros i Hi.
  destruct (ledger_live _ _ _ i i_ent0) as (x & Hx & _); [|by exists x]. apply elem_of_app. left. by apply Hs.
Qed.

Lemma inv_retry_drain Q hc w t l now :
  inv Q [] [] [] hc None w -> locals w !! t = Some l ->
  exists w' kept l', topic_hub_retry_drain t l now w = Some w' /\ inv (<[t := kept]> Q) [] [] [] hc None w' /\
    locals w' !! t = Some l' /\ slots w' = slots w /\ senders w' = senders w /\ later now (entries w') kept /\
    (forall i, i ∈ kept -> e_deadline <$> entries w' !! i = e_deadline <$> entries w !! i).
Proof.
  intros Hi Hl. destruct (queue_of _ _ _ _ _ _ _ _ _ Hi Hl) as (ids & HQ & Hq).
  set (l0 := l_set_queue l None None 0 (retry_interval_ms l)).
  pose proof (inv_requeue _ _ _ _ _ _ _ t l l0 ids [] ids Hi Hl HQ ltac:(by rewrite app_nil_r) eq_refl eq_refl eq_refl
    (queue_ok_nil _ _ _ (u_timer _ _ _ Hq))) as Hi0. cbn [parked] in Hi0.
  set (Q0 := <[t := []]> Q) in *. set (v := <[t := l0]> (locals w)).
  assert (set_local t l0 w = set_locals w v) as Ev by done. rewrite Ev in Hi0.
  set (k0 := {| k_head := retry_head l; k_tail := retry_tail l; k_count := retry_count l; k_resolved := None;
                k_delivered := 0; k_gone := 0; k_expired := 0 |}).
  pose proof (i_own _ _ _ _ _ _ _ Hi0) as Hnd. apply NoDup_app in Hnd as (_ & _ & Hnd).
  destruct (inv_walk Q0 [] [] _ None now (fuel_of w) [] ids [] None (retry_head l) k0 ids (set_locals w v) Hi0)
    as (w0 & kept & res & prev & k & E & Hi1 & Hw & (Hsl & Hse & Hcore) & HpR & Hlt & Hdl & Hb); [by rewrite app_nil_r| | | |].
  { destruct Hq. split; cbn; try done. by eapply chain_head. }
  { eapply fuel_enough; [exact Hi|done|]. intros i Hin. unfold owned. apply elem_of_app. left. apply elem_of_pool. by exists t, ids. }
  { by intros i z ?%elem_of_nil. }
  rewrite walk_locals in E. unfold topic_hub_retry_drain. fold k0.
  destruct (retry_walk (fuel_of w) now None (retry_head l) k0 w) as [[wA kA]|] eqn:EA; [|done].
  injection E as <- ->. cbn [fst] in *. apply walk_keeps_locals in EA. cbn [fst] in EA. cbn [mbind option_bind].
  set (l1 := l_set_queue l (k_head k) (k_tail k) (k_count k) (retry_interval_ms l)).
  assert (queue_ok (entries wA) l1 kept) as Hq1.
  { destruct Hw. rewrite app_nil_r in *. destruct Hq. split; cbn; try done. intros Hk. apply u_armed0. intros ->.
    apply Permutation_nil_r, app_eq_nil in HpR as [-> _]. done. }
  pose proof (inv_requeue _ _ _ _ _ _ _ t l0 l1 [] kept res Hi1 (lookup_insert_eq _ _ _) (lookup_insert_eq _ _ _)
    ltac:(done) eq_refl eq_refl eq_refl Hq1) as Hi2.
  assert (set_local t l1 (set_locals wA v) = set_local t l1 wA) as E1.
  { unfold set_local, v. cbn. by rewrite EA, insert_insert_eq. }
  rewrite E1 in Hi2. cbn [parked entries set_locals set_local] in Hi2.
  pose proof (i_own _ _ _ _ _ _ _ Hi2) as Hnd2. apply NoDup_app in Hnd2 as (_ & _ & Hnd2).
  destruct (inv_finish_chain _ [] _ _ _ _ (fuel_of (set_local t l1 wA)) (k_resolved k) res (set_local t l1 wA)
    ltac:(rewrite app_nil_r; exact Hi2) (v_res _ _ _ _ _ _ _ Hw)) as (w3 & E3 & Hi3 & Hl3 & Hs3 & Hse3 & He3).
  { eapply fuel_enough; [exact Hi2|done|]. intros i Hin. unfold owned. apply elem_of_app. by right. }
  rewrite E3. cbn [mbind option_bind]. assert (forall i, i ∈ kept -> entries w3 !! i = entries wA !! i) as Hk3.
  { intros i Hin. apply He3. intros Hr. pose proof (i_own _ _ _ _ _ _ _ Hi1) as Hn. apply NoDup_app in Hn as (_ & _ & Hn).
    apply NoDup_app in Hn as (_ & Hn & _). by apply (Hn i). }
  eexists _, kept, l1. split_and!; [done| | | | | |].
  - unfold Q0 in Hi3. rewrite insert_insert_eq in Hi3. apply (inv_stats _ _ _ _ _ _ _ c_delivered (k_delivered k)), (inv_stats _ _ _ _ _ _ _ c_gone (k_gone k)),
      (inv_stats _ _ _ _ _ _ _ c_expired (k_expired k)) in Hi3. cbn [sign] in Hi3.
    replace hc with (hc + parked (entries w) ids - 0 + 0 - parked (entries wA) kept - 1 * k_delivered k - 1 * k_gone k - 1 * k_expired k); [exact Hi3|].
    rewrite (v_expired _ _ _ _ _ _ _ Hw). unfold balance in Hb. cbn in Hb. cbn [entries set_locals]. lia.
  - cbn. rewrite Hl3. apply lookup_insert_eq.
  - cbn. by rewrite Hs3.
  - cbn. by rewrite Hse3.
  - intros i z Hin Hz. cbn in Hz. rewrite Hk3 in Hz by done. by eapply Hlt.
  - intros i Hin. cbn. rewrite Hk3 by done. apply Hdl.
Qed.

Lemma inv_tick_open Q hc w t l now :
  inv Q [] [] [] hc None w -> locals w !! t = Some l ->
  exists w' kept, topic_hub_retry_tick t now false w = Some w' /\ inv (<[t := kept]> Q) [] [] [] hc None w' /\ slots w' = slots w /\
    senders w' = senders w /\ later now (entries w') kept /\
    (forall i, i ∈ kept -> e_deadline <$> entries w' !! i = e_deadline <$> entries w !! i).
Proof.
  intros Hi El. unfold topic_hub_retry_tick. rewrite El.
  destruct (inv_retry_drain _ _ _ _ _ now Hi El) as (w1 & kept & l1 & E1 & Hi1 & El1 & Hs1 & Hse1 & Hlt & Hdl). rewrite E1. cbn [mbind option_bind].
  rewrite El1. cbn [mbind option_bind]. case_if; [|by eexists _, _]. eexists _, kept. split_and!; [done| |done..].
  destruct (queue_of _ _ _ _ _ _ _ _ _ Hi1 El1) as (ids & HQ & []).
  destruct (retry_head l1) eqn:Eh; [done|].
  assert (ids = []) as -> by (destruct ids; [done|by destruct u_chain0]).
  eapply inv_local; [done|done|done|done..|]. by split.
Qed.

Lemma inv_tick Q hc w t now closing :
  inv Q [] [] [] hc None w ->
  exists w' Q', topic_hub_retry_tick t now closing w = Some w' /\ inv Q' [] [] [] hc None w' /\ slots w' = slots w.
Proof.
  intros Hi. destruct closing; [by eexists _, _|]. destruct (locals w !! t) as [l|] eqn:El.
  - destruct (inv_tick_open _ _ _ _ _ now Hi El) as (w1 & kept & E1 & Hi1 & Hs1 & _). by eexists _, _.
  - unfold topic_hub_retry_tick. rewrite El. by eexists _, _.
Qed.

(** ** Attach and detach *)

Lemma lookup_alter_cases {A} (f : A -> A) (ss : list A) i j x :
  alter f i ss !! j = Some x -> (j = i /\ exists y, ss !! i = Some y /\ x = f y) \/ (j <> i /\ ss !! j = Some x).
Proof.
  destruct (decide (i = j)) as [<-|Hne].
  - rewrite list_lookup_alter_eq. destruct (ss !! i) as [y|]; [|done]. intros [= <-]. left. eauto.
  - rewrite list_lookup_alter_ne by done. by right.
Qed.

Lemma inv_retire Q R hp hq hc w t l :
  inv Q R hp hq hc None w -> locals w !! t = Some l ->
  inv Q R hp hq hc (Some t) (set_slots w (alter retire (l_slot l) (slots w)) (slots_used w)).
Proof.
  intros [] Hl. pose proof i_table0 as []. rebuild. split; try done.
  - by rewrite length_alter.
  - intros u x Hx. destruct (tb_local0 _ _ Hx) as (s & Hs & Hb & Hr). destruct (decide (l_slot x = l_slot l)) as [E|E].
    + exists (retire s). split_and!; [|done|].
      * rewrite E, list_lookup_alter_eq, <- E, Hs. done.
      * intros Hne. destruct (Hr ltac:(done)) as (H1 & _). destruct (tb_local0 _ _ Hl) as (s' & Hs' & _ & Hr').
        rewrite E in Hs. assert (s' = s) as -> by congruence. destruct (Hr' ltac:(done)) as (H1' & _).
        destruct Hne. f_equal. eapply tb_inj0; [done..|congruence].
    + exists s. rewrite list_lookup_alter_ne by done. split_and!; [done..|]. intros _. by apply Hr.
  - intros i s b [(-> & y & Hy & ->)|[Hne Hs]]%lookup_alter_cases Hb; [done|].
    destruct (tb_slot0 _ _ _ Hs Hb) as (Hi & u & x & Hx & _ & <- & <-). split; [done|]. exists u, x. split_and!; [done| |done..].
    intros [= <-]. apply Hne. congruence.
  - intros i s [(-> & y & Hy & ->)|[Hne Hs]]%lookup_alter_cases; [done|]. by eapply tb_free0.
Qed.

Lemma inv_teardown Q hc w t l :
  inv Q [] [] [] hc (Some t) w -> locals w !! t = Some l ->
  exists w', topic_hub_retry_teardown t l w = Some w' /\ inv (<[t := []]> Q) [] [] [] hc (Some t) w' /\
    locals w' = <[t := l_set_queue (topic_hub_retry_timer_dispose l) None None 0 0]> (locals w) /\ slots w' = slots w /\ boxes w' = boxes w.
Proof.
  intros Hi Hl. destruct (queue_of _ _ _ _ _ _ _ _ _ Hi Hl) as (ids & HQ & Hq).
  set (l1 := topic_hub_retry_timer_dispose l). set (l0 := l_set_queue l1 None None 0 0).
  pose proof (inv_requeue _ _ _ _ _ _ _ t l l0 ids [] ids Hi Hl HQ ltac:(by rewrite app_nil_r) eq_refl eq_refl eq_refl
    (queue_ok_nil _ l1 _ ltac:(done))) as Hi0. cbn [parked] in Hi0.
  set (v := <[t := l0]> (locals w)). assert (set_local t l0 w = set_locals w v) as Ev by done. rewrite Ev in Hi0.
  pose proof (i_own _ _ _ _ _ _ _ Hi0) as Hnd. apply NoDup_app in Hnd as (_ & _ & Hnd).
  destruct (inv_teardown_loop _ [] _ _ _ _ (fuel_of w) (retry_head l) ids 0 (set_locals w v)
    ltac:(rewrite app_nil_r; exact Hi0) (u_chain _ _ _ Hq)) as (w1 & E1 & Hi1 & Hl1 & Hs1 & _ & Hb1).
  { eapply fuel_enough; [exact Hi|done|]. intros i Hin. unfold owned. apply elem_of_app. left. apply elem_of_pool. by exists t, ids. }
  rewrite teardown_locals in E1. unfold topic_hub_retry_teardown. fold l1. change (retry_head l1) with (retry_head l).
  destruct (teardown_loop (fuel_of w) (retry_head l) 0 w) as [[wA n]|] eqn:EA; [|done]. injection E1 as E1 ->. cbn [fst] in E1.
  cbn [mbind option_bind]. pose proof (teardown_locals (fuel_of w) (retry_head l) 0 w (locals w)) as Hk.
  rewrite set_locals_id, EA in Hk. injection Hk as Hk. cbn [fst] in Hk.
  assert (locals wA = locals w) as HlA by (rewrite Hk; done).
  assert (set_local t l0 wA = w1) as Ew. { rewrite <- E1. unfold set_local, v. by rewrite HlA. }
  fold l0. rewrite Ew. eexists. split_and!; [done| |by cbn; rewrite Hl1|done|done].
  apply (inv_stats _ _ _ _ _ _ _ c_shutdown (0 + parked (entries (set_locals w v)) ids)) in Hi1. cbn [sign] in Hi1.
  replace hc with (hc + parked (entries w) ids - 0 - 1 * (0 + parked (entries (set_locals w v)) ids)); [exact Hi1|].
  cbn [entries set_locals]. lia.
Qed.

Lemma inv_drain_pending Q hc t b fuel : forall w q,
  inv Q [] [] [] hc (Some t) w -> boxes w !! b = Some q -> length q = fuel ->
  (forall i s, slots w !! i = Some s -> inbox s <> Some b) ->
  exists w', drain_pending fuel t b w = Some w' /\ inv Q [] [] [] hc (Some t) w' /\ boxes w' !! b = Some [] /\
    same_cores w w'.
Proof.
  induction fuel as [|fuel IH]; intros w q Hi Hb Hq Hn; (destruct q as [|c q]; cbn [length] in Hq); try lia; cbn [drain_pending];
    unfold mailbox_pop; rewrite Hb; cbn [mbind option_bind].
  - by exists w.
  - pose proof (inv_pop _ _ _ _ _ _ _ _ _ _ Hi Hb) as Hi1. set (w1 := set_boxes w _) in *.
    destruct (inv_drain_one _ _ _ _ _ _ _ t c Hi1) as (w2 & E2 & Hi2 & Hc2). rewrite E2. cbn [mbind option_bind].
    destruct (IH w2 q) as (w' & E' & Hi' & Hb' & Hs' & Hse' & Hc'); [done| |lia| |].
    + rewrite (m_boxes _ _ Hc2); [apply lookup_insert_eq|done].
    + rewrite (m_slots _ _ Hc2). done.
    + exists w'. split_and!; [done..|]. split_and!; [by rewrite Hs', (m_slots _ _ Hc2)|by rewrite Hse', (m_senders _ _ Hc2)|].
      intros u. rewrite Hc'. apply (m_locals _ _ Hc2).
Qed.

Lemma inv_leave Q R hp hq hc w t l :
  inv Q R hp hq hc (Some t) w -> locals w !! t = Some l -> Q !! t = Some [] -> boxes w !! l_inbox l = Some [] ->
  inv (delete t Q) R hp hq hc None (set_locals (set_boxes w (delete (l_inbox l) (boxes w))) (delete t (locals w))).
Proof.
  intros [] Hl HQ Hb. pose proof i_table0 as [].
  pose proof (pool_delete _ _ _ Hb) as Pb. pose proof (pool_delete _ _ _ HQ) as PQ. cbn [app] in Pb, PQ.
  assert (owned Q R ≡ₚ owned (delete t Q) R) as Ho by (unfold owned; by rewrite PQ).
  rebuild.
  - eapply ledger_ext, i_pay0. intros i. rewrite !cnt_app. rewrite (entry_pays_perm _ _ _ i Ho).
    unfold pays. by rewrite (cnt_bind_perm pay_of i _ _ Pb).
  - eapply ledger_ext, i_qry0. intros i. rewrite !cnt_app. unfold qrys. by rewrite (cnt_bind_perm qry_of i _ _ Pb).
  - by rewrite <- Ho.
  - by rewrite <- Ho.
  - intros u. destruct (decide (t = u)) as [<-|]; [by rewrite !lookup_delete_eq|]. rewrite !lookup_delete_ne by done. apply i_queue0.
  - split; try done.
    + intros u x [Hne Hx]%lookup_delete_Some. destruct (tb_local0 _ _ Hx) as (s & Hs & Hbx & Hr). exists s. split_and!; [done| |].
      * rewrite lookup_delete_ne; [done|]. intros E. apply Hne. by eapply tb_inj0.
      * intros _. apply Hr. congruence.
    + intros i s b Hs Hsb. destruct (tb_slot0 _ _ _ Hs Hsb) as (Hi & u & x & Hx & Hr & <- & <-). split; [done|].
      exists u, x. split_and!; [|done..]. rewrite lookup_delete_ne; [done|]. congruence.
    + intros b [q [Hne Hq]%lookup_delete_Some]. destruct (tb_box0 b ltac:(by rewrite Hq)) as (u & x & Hx & <-).
      exists u, x. split; [|done]. rewrite lookup_delete_ne; [done|]. intros <-. congruence.
    + intros u u' x x' [_ Hx]%lookup_delete_Some [_ Hx']%lookup_delete_Some. by eapply tb_inj0.
    + intros b q [_ Hq]%lookup_delete_Some. by eapply tb_cap0.
  - intros q x Hx. destruct (i_asked0 _ _ Hx) as [Hs Ha]. split; [done|]. eapply asked_mono, Ha; [done|]. cbn.
    unfold qrys. rewrite (cnt_bind_perm qry_of q _ _ Pb). lia.
  - intros e x Hx. eapply (sent_perm w); [done|]. by apply i_sent0.
  - by rewrite i_acct0, (parked_perm _ _ _ PQ).
Qed.

Lemma inv_detach Q hc w t :
  inv Q [] [] [] hc None w -> exists w' Q', topic_hub_detach t w = Some w' /\ inv Q' [] [] [] hc None w' /\
    (slots w' = slots w \/ exists i, slots w' = alter retire i (slots w)).
Proof.
  intros Hi. unfold topic_hub_detach. destruct (locals w !! t) as [l|] eqn:El; [|eexists _, _; split_and!; [done|done|by left]].
  pose proof (inv_retire _ _ _ _ _ _ _ _ Hi El) as Hi1. set (w1 := set_slots _ _ _) in *.
  destruct (inv_teardown _ _ _ t l Hi1 El) as (w2 & E2 & Hi2 & Hl2 & Hs2 & Hb2). rewrite E2. cbn [mbind option_bind].
  set (l0 := l_set_queue _ _ _ _ _) in Hl2.
  assert (locals w2 !! t = Some l0) as El2 by (rewrite Hl2; apply lookup_insert_eq).
  pose proof (i_table _ _ _ _ _ _ _ Hi2) as Ht2.
  destruct (tb_local _ _ _ _ _ Ht2 _ _ El2) as (s & _ & [q Hq] & _). change (l_inbox l0) with (l_inbox l) in Hq.
  rewrite Hq. cbn [mbind option_bind].
  destruct (inv_drain_pending _ _ t (l_inbox l) (length q) w2 q Hi2 Hq eq_refl) as (w3 & E3 & Hi3 & Hb3 & Hs3 & _ & Hc3).
  { intros i s' Hs' Hb'. destruct (tb_slot _ _ _ _ _ Ht2 _ _ _ Hs' Hb') as (_ & u & x & Hx & Hne & _ & E).
    apply Hne. f_equal. by eapply (tb_inj _ _ _ _ _ Ht2 t u l0 x). }
  rewrite E3. cbn [mbind option_bind]. specialize (Hc3 t). rewrite El2 in Hc3. destruct (locals w3 !! t) as [l3|] eqn:El3; [|done].
  injection Hc3 as Hc3. assert (l_inbox l3 = l_inbox l) as Eb by congruence.
  eexists _, _. split_and!; [done| |right; exists (l_slot l); cbn; by rewrite Hs3, Hs2].
  rewrite <- Eb. eapply inv_leave; [done|done| |by rewrite Eb]. apply lookup_insert_eq.
Qed.

End retry.
End TopicHubRetry.
