(* ===== verification/TopicHubSafe.v ===== *)
(** * The topic hub as a system

    The remaining operations (attach, the reliable sends and the resumption of
    their callers), the system of all of them, and the properties of its reachable
    states: no operation touches freed memory, nothing leaks, a suspended sender is
    always woken, the retry counters balance, and a parked message never reaches
    a worker that took over a slot. *)

From S2P Require Import Prelude TopicFilter TopicTree TopicInterest Ledger TopicHub TopicHubInv TopicHubRetry.

Module TopicHubSafe.
Import TopicInterest Ledger TopicHub TopicHubInv TopicHubRetry.

Section safe.
Context {zend_hash : ZendHash} {tree_ops : TopicTreeOps} {mailboxes : MailboxCapacity}.

(** ** Attach *)

Lemma free_slot_spec ss k i : free_slot k ss = Some i -> exists j s, i = (k + j)%nat /\ ss !! j = Some s /\ taken s = false.
Proof.
  revert k. induction ss as [|s ss IH]; intros k; cbn [free_slot]; [done|]. destruct (taken s) eqn:Et.
  - intros (j & s' & -> & Hs & Ht)%IH. exists (S j), s'. split_and!; [lia|done..].
  - intros [= <-]. exists O, s. split_and!; [lia|done..].
Qed.

Lemma inv_attach Q hc w t mailbox :
  inv Q [] [] [] hc None w -> exists Q', inv Q' [] [] [] hc None (fst (topic_hub_attach t mailbox w)) /\
    (slots (fst (topic_hub_attach t mailbox w)) = slots w \/
     exists i b, boxes w !! b = None /\ slots (fst (topic_hub_attach t mailbox w)) = alter (claim b) i (slots w)).
Proof.
  intros Hi. unfold topic_hub_attach. destruct (locals w !! t) as [l|] eqn:El; [by eauto|]. destruct mailbox; [|by eauto].
  cbn [negb]. destruct (free_slot 0 (slots w)) as [i|] eqn:Ef; [|by eauto].
  apply free_slot_spec in Ef as (j & s & -> & Hs & Ht). cbn [Nat.add fst].
  set (b := fresh (dom (boxes w))). assert (boxes w !! b = None) as Hb by apply not_elem_of_dom, is_fresh.
  rewrite list_lookup_alter_eq, Hs. cbn [fmap option_fmap option_map gen claim].
  pose proof Hi as []. pose proof i_table0 as [].
  assert (Q !! t = None) as HQ by (specialize (i_queue0 t); by rewrite El in i_queue0).
  assert (pool (<[t := []]> Q) ≡ₚ pool Q) as PQ by (by apply (pool_insert_new Q t [])).
  assert (pool (<[b := []]> (boxes w)) ≡ₚ pool (boxes w)) as Pb by (by apply (pool_insert_new (boxes w) b [])).
  assert (owned (<[t := []]> Q) [] ≡ₚ owned Q []) as Ho by (unfold owned; by rewrite PQ).
  assert (forall u x, locals w !! u = Some x -> l_inbox x <> b) as Hfresh.
  { intros u x Hx <-. destruct (tb_local0 _ _ Hx) as (_ & _ & [q Hq] & _). congruence. }
  assert (forall u x, locals w !! u = Some x -> u <> t) as Hne by congruence.
  exists (<[t := []]> Q). split; [|right; by exists j, b]. rebuild.
  - eapply ledger_ext, i_pay0. intros k. rewrite !cnt_app. rewrite (entry_pays_perm _ _ _ k Ho).
    unfold pays. by rewrite (cnt_bind_perm pay_of k _ _ Pb).
  - eapply ledger_ext, i_qry0. intros k. rewrite !cnt_app. unfold qrys. by rewrite (cnt_bind_perm qry_of k _ _ Pb).
  - by rewrite Ho.
  - by rewrite Ho.
  - intros u. destruct (decide (t = u)) as [<-|]; [|rewrite !lookup_insert_ne by done; apply i_queue0].
    rewrite !lookup_insert_eq. exists []. split; [done|]. by split.
  - split; try done.
    + by rewrite length_alter.
    + apply lookup_lt_Some in Hs. lia.
    + intros u x. destruct (decide (t = u)) as [<-|Hd]; [rewrite lookup_insert_eq|rewrite lookup_insert_ne by done].
      * intros [= <-]. exists (claim b s). cbn. rewrite list_lookup_alter_eq, Hs, lookup_insert_eq. done.
      * intros Hx. destruct (tb_local0 _ _ Hx) as (s' & Hs' & Hbx & Hr). exists s'.
        assert (l_slot x <> j) as Hj. { intros <-. destruct (Hr ltac:(done)) as (H1 & _). assert (s' = s) as -> by congruence.
          rewrite (tb_free0 _ _ Hs Ht) in H1. done. }
        rewrite list_lookup_alter_ne by done. split_and!; [done| |done]. rewrite lookup_insert_ne; [done|]. intros E. by eapply Hfresh.
    + intros k s' b' [(-> & y & Hy & ->)|[Hk Hs']]%lookup_alter_cases Hb'.
      * injection Hb' as <-. split; [lia|]. exists t, (new_local j (u32 (gen s + 1)) b). by rewrite lookup_insert_eq.
      * destruct (tb_slot0 _ _ _ Hs' Hb') as (Hlt & u & x & Hx & _ & <- & <-). split; [lia|]. exists u, x.
        split_and!; [|done..]. rewrite lookup_insert_ne; [done|]. by apply not_eq_sym, (Hne _ x).
    + intros b' Hb'. destruct (decide (b = b')) as [<-|Hd].
      * exists t, (new_local j (u32 (gen s + 1)) b). by rewrite lookup_insert_eq.
      * rewrite lookup_insert_ne in Hb' by done. destruct (tb_box0 _ Hb') as (u & x & Hx & <-). exists u, x. split; [|done].
        rewrite lookup_insert_ne; [done|]. by apply not_eq_sym, (Hne _ x).
    + intros u u' x x'. destruct (decide (t = u)) as [<-|Hd], (decide (t = u')) as [<-|Hd']; rewrite ?lookup_insert_eq, ?lookup_insert_ne by done; [done| | |].
      * intros [= <-] Hx' E. cbn in E. by destruct (Hfresh _ _ Hx').
      * intros Hx [= <-] E. cbn in E. by destruct (Hfresh _ _ Hx).
      * apply tb_inj0.
    + intros k s' [(-> & y & Hy & ->)|[Hk Hs']]%lookup_alter_cases; [done|]. by eapply tb_free0.
    + intros b' q. destruct (decide (b = b')) as [<-|Hd]; [rewrite lookup_insert_eq|rewrite lookup_insert_ne by done; apply tb_cap0].
      intros [= <-]. cbn [length]. lia.
  - intros q x Hx. destruct (i_asked0 _ _ Hx) as [Hq Ha]. split; [done|]. eapply asked_mono, Ha; [done|]. cbn.
    unfold qrys. rewrite (cnt_bind_perm qry_of q _ _ Pb). lia.
  - intros e x Hx. eapply (sent_perm w Q []); [by symmetry|]. by apply i_sent0.
  - by rewrite i_acct0, (parked_perm _ _ _ PQ).
Qed.

(** ** Appending to the queue *)

Lemma arm_spec timer started l l' armed :
  topic_hub_retry_arm timer started l = (l', armed) -> (retry_timer_armed l = true -> retry_timer l = true) ->
  l_slot l' = l_slot l /\ l_gen l' = l_gen l /\ l_inbox l' = l_inbox l /\ retry_head l' = retry_head l /\
  retry_tail l' = retry_tail l /\ retry_count l' = retry_count l /\ (retry_timer_armed l' = true -> retry_timer l' = true) /\
  retry_timer_armed l' = armed /\ (armed = false -> retry_timer_armed l = false).
Proof.
  unfold topic_hub_retry_arm. intros E Ht. destruct (retry_timer_armed l) eqn:Ea; [injection E as <- <-; naive_solver|].
  destruct (negb (retry_timer l) && negb timer); [injection E as <- <-; naive_solver|].
  destruct started; cbn [negb] in E; injection E as <- <-; cbn; naive_solver.
Qed.

(** The list with [e] at its end. *)
Lemma append_links m hd ids e x :
  chain m hd ids -> m !! e = Some x -> NoDup (ids ++ [e]) ->
  exists m', (forall w, entries w = m -> (w ← set_next e None w; match last ids with Some p => set_next p (Some e) w | None => Some w end)
      = Some (set_entries w m')) /\
    chain m' (match last ids with Some _ => hd | None => Some e end) (ids ++ [e]) /\
    (forall i, npending <$> m' !! i = npending <$> m !! i) /\
    m' = match last ids with
         | Some p => match m !! p with Some z => <[p := e_set_next z (Some e)]> (<[e := e_set_next x None]> m) | None => m end
         | None => <[e := e_set_next x None]> m
         end.
Proof.
  intros Hc Hx Hn. apply NoDup_app in Hn as (Hn & Hd & _).
  assert (e ∉ ids) as He. { intros Hin. apply (Hd e Hin). by left. }
  assert (forall (n : gmap nat retry_entry_t) i z v j, n !! i = Some z -> npending <$> <[i := e_set_next z v]> n !! j = npending <$> n !! j) as Hnp.
  { intros n i z v j Hz. destruct (decide (i = j)) as [<-|]; [by rewrite lookup_insert_eq, Hz|by rewrite lookup_insert_ne]. }
  set (m1 := <[e := e_set_next x None]> m).
  assert (chain m1 (Some e) [e]) as H1. { split; [done|]. eexists. split; [apply lookup_insert_eq|done]. }
  destruct ids as [|p ids _] using rev_ind.
  - exists m1. split_and!; [|done| |done].
    + intros w Hw. unfold set_next. by rewrite Hw, Hx.
    + intros i. by apply Hnp.
  - rewrite last_snoc in *. destruct (chain_live _ _ _ p Hc) as [z Hz]; [apply elem_of_app; right; by left|]. rewrite Hz.
    assert (p <> e) as Hpe. { intros ->. apply He, elem_of_app. right. by left. }
    assert (m1 !! p = Some z) as Hz1 by (subst m1; by rewrite lookup_insert_ne).
    eexists. split_and!; [| | |done].
    + intros w Hw. unfold set_next. rewrite Hw, Hx. cbn [mbind option_bind entries set_entries]. fold m1. rewrite Hz1. done.
    + rewrite <- app_assoc. cbn [app]. apply (chain_relink _ _ _ _ _ []); [|by apply NoDup_app in Hn as (_ & Hn & _); intros Hin; apply (Hn p Hin); left|done|done|].
      * by apply chain_insert.
      * apply not_elem_of_cons. split; [done|by intros ?%elem_of_nil].
    + intros i. rewrite Hnp by done. by apply Hnp.
Qed.

Lemma inv_enqueue Q hp hq hc ret w t l ids e x interval timer started :
  inv Q [e] hp hq hc ret w -> locals w !! t = Some l -> Q !! t = Some ids -> queue_ok (entries w) l ids ->
  entries w !! e = Some x -> Z.of_nat (length ids) + 1 < 2 ^ 32 ->
  exists w' ok, topic_hub_retry_enqueue t e interval timer started w = Some (w', ok) /\
    if ok : bool then inv (<[t := ids ++ [e]]> Q) [] hp hq (hc - npending x) ret w'
    else exists l', w' = set_local t l' (set_entries w (<[e := e_set_next x None]> (entries w))) /\
      l_slot l' = l_slot l /\ l_gen l' = l_gen l /\ l_inbox l' = l_inbox l /\ ids = [] /\ forall m, queue_ok m l' [].
Proof.
  intros Hi Hl HQ Hq Hx Hb. unfold topic_hub_retry_enqueue. rewrite Hl. cbn [mbind option_bind].
  assert (NoDup (ids ++ [e])) as Hnd.
  { pose proof (i_own _ _ _ _ _ _ _ Hi) as Hn. unfold owned in Hn. rewrite (pool_delete _ _ _ HQ), <- app_assoc in Hn.
    rewrite (Permutation_app_comm _ [e]) in Hn. rewrite app_assoc in Hn. by apply NoDup_app in Hn as [Hn _]. }
  destruct (append_links (entries w) (retry_head l) ids e x (u_chain _ _ _ Hq) Hx Hnd) as (m' & E & Hc & Hnp & Em).
  rewrite (u_tail _ _ _ Hq). specialize (E w eq_refl) as Ew.
  destruct (set_next e None w) as [wa|] eqn:Ea; [|done]. cbn [mbind option_bind] in Ew |- *. rewrite Ew. cbn [mbind option_bind].
  set (l1 := l_set_queue _ _ _ _ _). destruct (topic_hub_retry_arm timer started l1) as [l2 armed] eqn:Earm.
  destruct (arm_spec _ _ _ _ _ Earm (u_timer _ _ _ Hq)) as (A1 & A2 & A3 & A4 & A5 & A6 & A7 & A8 & A9).
  assert (u32 (retry_count l + 1) = Z.of_nat (length ids) + 1) as Ec.
  { rewrite (u_count _ _ _ Hq). unfold u32. apply Z.mod_small. lia. }
  destruct armed.
  - eexists _, true. split; [done|].
    set (l0 := l_set_queue l None None 0 (retry_interval_ms l)).
    pose proof (inv_requeue _ _ _ _ _ _ _ t l l0 ids [] (ids ++ [e]) Hi Hl HQ ltac:(done) eq_refl eq_refl eq_refl
      (queue_ok_nil _ _ _ (u_timer _ _ _ Hq))) as Hi0. cbn [parked] in Hi0.
    set (w0 := set_local t l0 w) in *.
    assert (inv (<[t := []]> Q) (ids ++ [e]) hp hq (hc + parked (entries w) ids - 0) ret (set_entries w0 m')) as Hi1.
    { destruct (inv_set_next _ _ _ _ _ _ w0 e x None Hi0 Hx) as [E1 Hi1]; [apply elem_of_app; right; by left|].
      rewrite Em. destruct (last ids) as [p|] eqn:Elast; [|exact Hi1].
      assert (p ∈ ids) as Hp by (apply last_Some in Elast as [l'' ->]; apply elem_of_app; right; by left).
      destruct (chain_live _ _ _ p (u_chain _ _ _ Hq) Hp) as [z Hz]. rewrite Hz.
      assert (p <> e) as Hpe. { intros ->. apply NoDup_app in Hnd as (_ & Hd & _). apply (Hd e Hp). by left. }
      destruct (inv_set_next _ _ _ _ _ _ _ p z (Some e) Hi1) as [E2 Hi2].
      - cbn. by rewrite lookup_insert_ne.
      - apply elem_of_app. by left.
      - exact Hi2. }
    pose proof (inv_requeue _ _ _ _ _ _ _ t l0 l2 [] (ids ++ [e]) [] Hi1 (lookup_insert_eq _ _ _) (lookup_insert_eq _ _ _)
      ltac:(by rewrite app_nil_r) ltac:(by rewrite A1) ltac:(by rewrite A2) ltac:(by rewrite A3)) as Hi2.
    rewrite insert_insert_eq in Hi2. cbn [parked entries set_entries] in Hi2.
    replace (hc - npending x) with (hc + parked (entries w) ids - 0 + 0 - parked m' (ids ++ [e])).
    2: { rewrite (parked_ext m' (entries w)) by (intros; apply Hnp). rewrite parked_app. cbn [parked]. rewrite Hx. lia. }
    assert (set_local t l2 (set_entries w0 m') = set_local t l2 (set_entries w m')) as <-.
    { unfold set_local, w0. cbn. by rewrite insert_insert_eq. }
    apply Hi2. split; rewrite ?A4, ?A5, ?A6; cbn; try done.
    + by rewrite last_snoc.
    + rewrite length_app. cbn. lia.
    + rewrite length_app. cbn. lia.
  - specialize (A9 eq_refl). cbn in A9.
    assert (ids = []) as ->. { destruct ids; [done|]. rewrite (u_armed _ _ _ Hq) in A9; done. }
    cbn [last mbind option_bind] in *. eexists _, false. split; [done|]. eexists. split_and!; [subst m'; done|done..|].
    intros m. split; cbn; try done. rewrite A6. cbn. rewrite Ec. done.
Qed.

(** ** New entries *)

Definition fresh_entry (w : world) : nat := fresh (dom (entries w)).

Lemma fresh_entry_spec Q R hp hq hc ret w :
  inv Q R hp hq hc ret w -> entries w !! fresh_entry w = None /\ fresh_entry w ∉ owned Q R /\ fresh_entry w ∉ map s_entry (senders w).
Proof.
  intros []. assert (entries w !! fresh_entry w = None) as He by (unfold fresh_entry; apply not_elem_of_dom, is_fresh). split; [done|].
  specialize (i_ent0 (fresh_entry w)). rewrite He in i_ent0. apply cnt_zero, not_elem_of_app in i_ent0. done.
Qed.

(** The clauses about a heap with one entry more that is in hand. *)
Lemma entry_open Q hp hq hc ret w p x :
  inv Q [] (p :: hp) hq hc ret w -> e_payload x = p ->
  let e := fresh_entry w in
  ledger p_refcount (payloads w) (hp ++ pays (boxes w) ++ entry_pays (<[e := x]> (entries w)) (owned Q [e])) /\
  NoDup (owned Q [e]) /\
  (forall t, match locals w !! t with
             | Some l => exists ids, Q !! t = Some ids /\ queue_ok (<[e := x]> (entries w)) l ids
             | None => Q !! t = None
             end) /\
  parked (<[e := x]> (entries w)) (pool Q) = parked (entries w) (pool Q).
Proof.
  intros Hi Hp e. destruct (fresh_entry_spec _ _ _ _ _ _ _ Hi) as (He & Hn & _). fold e in He, Hn. destruct Hi.
  assert (forall i, i ∈ owned Q [] -> <[e := x]> (entries w) !! i = entries w !! i) as Hs.
  { intros i Hin. apply lookup_insert_ne. by intros ->. }
  assert (owned Q [e] ≡ₚ e :: owned Q []) as Ho by (unfold owned; by rewrite app_nil_r, Permutation_app_comm).
  split_and!.
  - eapply ledger_ext, i_pay0. intros i. rewrite !cnt_app, (entry_pays_perm _ _ _ i Ho).
    rewrite (entry_pays_cons _ _ x) by apply lookup_insert_eq. rewrite (entry_pays_ext (<[e:=x]> (entries w)) (entries w)) by (intros; by rewrite Hs).
    rewrite Hp. cbn [cnt]. lia.
  - rewrite Ho. by apply NoDup_cons.
  - intros t. specialize (i_queue0 t). destruct (locals w !! t) as [l|]; [|done]. destruct i_queue0 as (ids & HQ & []).
    exists ids. split; [done|]. split; try done. eapply chain_ext; [|done]. intros i Hin. rewrite Hs; [done|].
    unfold owned. rewrite app_nil_r. apply elem_of_pool. by exists t, ids.
  - apply parked_ext. intros i Hin. rewrite Hs; [done|]. unfold owned. by rewrite app_nil_r.
Qed.

Lemma owned_one Q e : owned Q [e] ≡ₚ e :: owned Q [].
Proof. unfold owned. by rewrite app_nil_r, Permutation_app_comm. Qed.

Lemma sent_grow w w' Q e0 e x :
  senders w' = senders w \/ (exists s, senders w' = s :: senders w /\ s_entry s <> e) ->
  (forall d, events w !! d = Some true -> events w' !! d = Some true) -> e <> e0 ->
  sent w Q [] e x -> sent w' Q [e0] e x.
Proof.
  intros Hs He Hne [(s & H1 & H2 & H3 & H4 & H5)|[H1 H2]].
  - left. exists s. split_and!; try done.
    + destruct Hs as [->|(s' & -> & _)]; [done|by right].
    + destruct H5 as [[H5 H6]|(H5 & H6 & H7)]; [left|right].
      * split; [done|]. rewrite owned_one. by right.
      * split_and!; [done| |by apply He]. rewrite owned_one. by intros [?|?]%elem_of_cons.
  - right. split; [|done]. destruct Hs as [->|(s' & -> & Hs')]; [done|]. cbn. by intros [E|?]%elem_of_cons.
Qed.

Lemma inv_entry_new Q hp hq hc ret w m p dl full :
  inv Q [] (p :: hp) hq hc ret w -> Forall (fun tg => (t_slot tg < TOPIC_HUB_MAX_WORKERS)%nat) full ->
  Z.of_nat (length full) < 2 ^ 32 ->
  inv Q [fresh_entry w] hp hq hc ret (fst (retry_entry_new m p dl full None w)).
Proof.
  intros Hi Hf Hb. unfold retry_entry_new. cbn [fst]. fold (fresh_entry w). set (x := {| e_next := _ |}).
  destruct (fresh_entry_spec _ _ _ _ _ _ _ Hi) as (He & Hn & Hs). destruct (entry_open _ _ _ _ _ _ p x Hi eq_refl) as (Hp & Hnd & Hq & Hpk).
  set (e := fresh_entry w) in *. destruct Hi. rebuild.
  - eapply ledger_perm; [|by apply (ledger_new _ _ (owned Q [] ++ map s_entry (senders w)))]. by rewrite owned_one.
  - intros i z. destruct (decide (e = i)) as [<-|Hne]; [rewrite lookup_insert_eq; intros [= <-]; by right|].
    rewrite lookup_insert_ne by done. intros Hz. eapply (sent_grow w); [by left|done|done|by apply i_sent0].
  - intros i z. destruct (decide (e = i)) as [<-|Hne]; [|rewrite lookup_insert_ne by done; apply i_target0].
    rewrite lookup_insert_eq. intros [= <-]. subst x. unfold npending. cbn [e_pending e_delivered e_gone]. split_and!; [done|lia..].
  - by rewrite Hpk.
Qed.

(** The entry of a blocking send, with its event and its sender. *)
Lemma inv_sender_new Q hp hq hc ret w m p dl full posted :
  inv Q [] (p :: hp) hq hc ret w -> Forall (fun tg => (t_slot tg < TOPIC_HUB_MAX_WORKERS)%nat) full ->
  Z.of_nat (length full) < 2 ^ 32 ->
  let w1 := fst (event_new w) in let d := snd (event_new w) in
  let s := {| s_entry := fresh_entry w; s_done := d; s_posted := posted; s_nfull := Z.of_nat (length full) |} in
  inv Q [fresh_entry w] hp hq hc ret (set_senders (fst (retry_entry_new m p dl full (Some d) w1)) (s :: senders w)).
Proof.
  intros Hi Hf Hb. unfold retry_entry_new, event_new. cbn [fst snd entries set_events]. fold (fresh_entry w).
  set (d := fresh (dom (events w))). set (x := {| e_next := _ |}). set (s := {| s_entry := _ |}).
  destruct (fresh_entry_spec _ _ _ _ _ _ _ Hi) as (He & Hn & Hs). destruct (entry_open _ _ _ _ _ _ p x Hi eq_refl) as (Hp & Hnd & Hq & Hpk).
  assert (events w !! d = None) as Hd by apply not_elem_of_dom, is_fresh.
  set (e := fresh_entry w) in *. destruct Hi.
  assert (d ∉ dones w) as Hd2. { intros Hin%i_event0. rewrite Hd in Hin. by destruct Hin. }
  rebuild.
  - apply (ledger_ext _ _ ([e] ++ e :: owned Q [] ++ map s_entry (senders w))).
    { intros i. rewrite !cnt_app. cbn [cnt app map]. rewrite owned_one. cbn [cnt]. rewrite cnt_app. change (s_entry s) with e. lia. }
    rewrite <- (insert_insert_eq (entries w) e x (e_add x (-1))). eapply (ledger_ref _ _ _ e (e_add x (-1))).
    + by apply ledger_new.
    + by left.
    + apply lookup_insert_eq.
    + done.
  - intros i z. destruct (decide (e = i)) as [<-|Hne].
    + rewrite lookup_insert_eq. intros [= <-]. left. exists s. split_and!; [by left|done|done|done|]. left. split; [done|].
      rewrite owned_one. by left.
    + rewrite lookup_insert_ne by done. intros Hz. eapply (sent_grow w); [right; by exists s| |done|by apply i_sent0].
      intros d' Hd'. cbn. rewrite lookup_insert_ne; [done|]. congruence.
  - intros i z. destruct (decide (e = i)) as [<-|Hne]; [|rewrite lookup_insert_ne by done; apply i_target0].
    rewrite lookup_insert_eq. intros [= <-]. subst x. unfold npending. cbn [e_pending e_delivered e_gone]. split_and!; [done|lia..].
  - by apply NoDup_cons.
  - by apply NoDup_cons.
  - intros d'. unfold dones in *. cbn. rewrite elem_of_cons. destruct (decide (d = d')) as [<-|Hne].
    + rewrite lookup_insert_eq. split; [by left|done].
    + rewrite lookup_insert_ne by done. rewrite i_event0. naive_solver.
  - by rewrite Hpk.
Qed.

(** ** Reliable sends *)

Lemma inv_send_fanout Q hc w t m :
  inv Q [] [] [] hc None w ->
  exists w' f, topic_hub_send_fanout t m w = Some (w', f) /\ inv Q [] (hand f) [] hc None w' /\
    Forall (fun tg => (t_slot tg < TOPIC_HUB_MAX_WORKERS)%nat) (f_full f) /\ Z.of_nat (length (f_full f)) < 2 ^ 32 /\
    (f_full f <> [] -> exists p, f_payload f = Some p /\ hand f = [p]) /\ slots w' = slots w.
Proof.
  intros Hi. unfold topic_hub_send_fanout. destruct (inv_publish_local _ _ _ _ _ _ _ t m Hi) as [Hi1 Hc1].
  destruct (publish_local t m w) as [w1 n]. cbn [fst] in Hi1, Hc1.
  destruct (inv_fanout _ _ _ _ _ _ (own_slot t w1) m (ws_interest_build (m_topic m)) true Hi1) as (w2 & f & E & Hi2 & Hc2 & []).
  rewrite E. cbn [mbind option_bind]. eexists _, f. split_and!; [done| |done| | |].
  - by repeat (apply inv_stats0; [done|]).
  - pose proof (tb_used _ _ _ _ _ (i_table _ _ _ _ _ _ _ Hi1)) as Hu. unfold TOPIC_HUB_MAX_WORKERS in Hu. lia.
  - intros Hf. destruct (fo_payload0 Hf) as [p Hp]. exists p. unfold hand. by rewrite Hp.
  - cbn. by rewrite (m_slots _ _ Hc2), (m_slots _ _ Hc1).
Qed.

(** An entry that could not be parked leaves no trace. *)
Lemma inv_discard Q hp hq hc ret w t l l' e x :
  inv Q [] (e_payload x :: hp) hq hc ret w -> locals w !! t = Some l -> Q !! t = Some [] -> entries w !! e = None ->
  l_slot l' = l_slot l -> l_gen l' = l_gen l -> l_inbox l' = l_inbox l -> queue_ok (entries w) l' [] ->
  exists w', retry_entry_discard e (set_local t l' (set_entries w (<[e := x]> (entries w)))) = Some w' /\ inv Q [] hp hq hc ret w' /\
    slots w' = slots w.
Proof.
  intros Hi Hl HQ He E1 E2 E3 Hq. pose proof (inv_local _ _ _ _ _ _ _ _ _ _ _ Hi Hl HQ E1 E2 E3 Hq) as Hi1.
  destruct (inv_payload_release _ _ _ _ _ _ _ _ Hi1) as (w2 & Ew & Hi2 & _).
  unfold retry_entry_discard. cbn [entries set_local set_entries set_locals]. rewrite lookup_insert_eq. cbn [mbind option_bind].
  unfold ws_payload_release in *. cbn [payloads set_local set_entries set_locals] in *.
  destruct (payloads w !! e_payload x) as [y|]; [|done]. cbn [mbind option_bind] in *. injection Ew as <-.
  eexists. split; [done|]. split; [|done]. cbn [entries set_payloads set_local set_entries set_locals]. rewrite delete_insert_id by done. exact Hi2.
Qed.

Lemma enqueue_queue Q R hp hq hc ret w t l cfg :
  inv Q R hp hq hc ret w -> locals w !! t = Some l -> retry_count l < queue_max cfg < 2 ^ 32 ->
  exists ids, Q !! t = Some ids /\ queue_ok (entries w) l ids /\ Z.of_nat (length ids) + 1 < 2 ^ 32.
Proof.
  intros Hi Hl Hc. destruct (queue_of _ _ _ _ _ _ _ _ _ Hi Hl) as (ids & HQ & Hq). exists ids. split_and!; [done..|].
  rewrite <- (u_count _ _ _ Hq). lia.
Qed.

Lemma queue_ok_entries Q R hp hq hc ret w m t l ids :
  inv Q R hp hq hc ret (set_entries w m) -> locals w !! t = Some l -> Q !! t = Some ids -> queue_ok m l ids.
Proof. intros Hi Hl HQ. destruct (queue_of _ _ _ _ _ _ _ t l Hi Hl) as (ids' & HQ' & Hq). by assert (ids' = ids) as -> by congruence. Qed.

Lemma set_next_slots e p w w' : set_next e p w = Some w' -> slots w' = slots w.
Proof. unfold set_next. destruct (entries w !! e); [|done]. by intros [= <-]. Qed.

Lemma enqueue_slots t e interval timer started w w' ok :
  topic_hub_retry_enqueue t e interval timer started w = Some (w', ok) -> slots w' = slots w.
Proof.
  unfold topic_hub_retry_enqueue. destruct (locals w !! t) as [l|]; [|done]. cbn [mbind option_bind].
  destruct (set_next e None w) as [w1|] eqn:E1; [|done]. apply set_next_slots in E1. cbn [mbind option_bind].
  assert (forall q u u', match retry_tail l with Some p => set_next p q u | None => Some u end = Some u' -> slots u' = slots u) as Hs.
  { intros q u u'. destruct (retry_tail l); [apply set_next_slots|by intros [= <-]]. }
  destruct (match retry_tail l with Some p => set_next p (Some e) w1 | None => Some w1 end) as [w2|] eqn:E2; [|done]. apply Hs in E2.
  cbn [mbind option_bind]. destruct (topic_hub_retry_arm _ _ _) as [l2 []]; [intros [= <- _]; cbn; congruence|].
  destruct (match retry_tail l with Some p => set_next p None w2 | None => Some w2 end) as [w3|] eqn:E3; [|done]. apply Hs in E3.
  cbn [mbind option_bind]. intros [= <- _]. cbn. congruence.
Qed.

Lemma inv_try_send Q hc w t m cfg env :
  inv Q [] [] [] hc None w -> queue_max cfg < 2 ^ 32 ->
  exists w' ok Q', topic_hub_try_send t m cfg env w = Some (w', ok) /\ inv Q' [] [] [] hc None w' /\ slots w' = slots w.
Proof.
  intros Hi Hm. unfold topic_hub_try_send. destruct (inv_send_fanout _ _ _ t m Hi) as (w1 & f & E & Hi1 & Hf & Hlen & Hp & Hs1).
  rewrite E. cbn [mbind option_bind]. destruct (inv_release_opt _ _ _ _ _ _ f Hi1) as (w2 & E2 & Hi2 & Hc2). assert (slots w2 = slots w) as Hs2 by (by rewrite (m_slots _ _ Hc2)).
  assert (forall (ok : bool) w3, inv Q [] [] [] hc None w3 -> slots w3 = slots w ->
    exists w' ok' Q', Some (w3, ok) = Some (w', ok') /\ inv Q' [] [] [] hc None w' /\ slots w' = slots w) as Hret
    by eauto 10.
  destruct (f_full f) as [|tg full] eqn:Efull. { rewrite E2. by apply Hret. }
  destruct (locals w1 !! t) as [l|] eqn:El. 2: { rewrite E2. by apply Hret. }
  case_if. { rewrite E2. apply Hret; [by apply inv_stats0|done]. }
  destruct (Hp ltac:(done)) as (p & Ep & Eh). rewrite Ep. cbn [mbind option_bind]. rewrite Eh in Hi1. rewrite <- Efull in *.
  pose proof (inv_entry_new _ _ _ _ _ _ m p (now_ms env + timeout_ms cfg) (f_full f) Hi1 Hf Hlen) as Hi3.
  unfold retry_entry_new in *. cbn [fst] in Hi3. fold (fresh_entry w1) in *. set (e := fresh_entry w1) in *. set (x := {| e_next := _ |}) in *.
  destruct (enqueue_queue _ _ _ _ _ _ _ t l cfg Hi1 El ltac:(lia)) as (ids & HQ & Hq & Hb).
  assert (queue_ok (<[e := x]> (entries w1)) l ids) as Hq3 by (by eapply queue_ok_entries).
  destruct (inv_enqueue _ _ _ _ _ _ t l ids e x (interval_ms cfg) (timer_ok env) (start_ok env) Hi3 El HQ Hq3 (lookup_insert_eq _ _ _) Hb)
    as (w4 & ok & E4 & H4). rewrite E4. cbn [mbind option_bind]. apply enqueue_slots in E4. cbn in E4. destruct ok.
  - eexists _, true, _. split; [done|]. split; [|cbn; congruence]. apply (inv_stats _ _ _ _ _ _ _ c_queued (Z.of_nat (length (f_full f)))) in H4.
    cbn [sign] in H4. replace hc with (hc - npending x - -1 * Z.of_nat (length (f_full f))); [exact H4|]. change (npending x) with (Z.of_nat (length (f_full f))). lia.
  - destruct H4 as (l' & -> & E5 & E6 & E7 & -> & Hq').
    destruct (fresh_entry_spec _ _ _ _ _ _ _ Hi1) as (He & _).
    destruct (inv_discard Q [] [] hc None w1 t l l' e (e_set_next x None)) as (w5 & E8 & Hi5 & Hs5); [done..|].
    cbn [entries set_entries]. rewrite insert_insert_eq. unfold set_entries in E8 at 1. 
    assert (set_entries (set_entries w1 (<[e := x]> (entries w1))) (<[e := e_set_next x None]> (entries w1)) =
            set_entries w1 (<[e := e_set_next x None]> (entries w1))) as -> by done.
    unfold set_entries at 1. rewrite E8. cbn [mbind option_bind]. apply Hret; [by apply inv_stats0|]. cbn. congruence.
Qed.

Lemma set_next_senders e p w v : set_next e p (set_senders w v) = (fun u => set_senders u v) <$> set_next e p w.
Proof. unfold set_next. cbn. by destruct (entries w !! e). Qed.

Lemma enqueue_senders t e interval timer started w v :
  topic_hub_retry_enqueue t e interval timer started (set_senders w v) =
  (fun r => (set_senders (fst r) v, snd r)) <$> topic_hub_retry_enqueue t e interval timer started w.
Proof.
  unfold topic_hub_retry_enqueue. cbn [locals set_senders]. destruct (locals w !! t) as [l|]; [|done]. cbn [mbind option_bind].
  rewrite set_next_senders. destruct (set_next e None w) as [w1|]; [|done]. cbn [fmap option_fmap option_map mbind option_bind].
  assert (forall q u, match retry_tail l with Some p => set_next p q (set_senders u v) | None => Some (set_senders u v) end =
    (fun z : world => set_senders z v) <$> (match retry_tail l with Some p => set_next p q u | None => Some u end : option world)) as Hs.
  { intros q u. destruct (retry_tail l); [apply set_next_senders|done]. }
  rewrite Hs. destruct (match retry_tail l with Some p => set_next p (Some e) w1 | None => Some w1 end) as [w2|]; [|done].
  cbn [fmap option_fmap option_map mbind option_bind]. destruct (topic_hub_retry_arm _ _ _) as [l2 []]; [done|].
  rewrite Hs. by destruct (match retry_tail l with Some p => set_next p None w2 | None => Some w2 end).
Qed.

Lemma inv_send Q hc w t m cfg env coroutine :
  inv Q [] [] [] hc None w -> queue_max cfg < 2 ^ 32 ->
  exists w' r Q', topic_hub_send t m cfg env coroutine w = Some (w', r) /\ inv Q' [] [] [] hc None w' /\ slots w' = slots w /\
    match r with Suspended s => s ∈ senders w' | Returned _ => True end.
Proof.
  intros Hi Hm. unfold topic_hub_send. destruct coroutine; cbn [negb]; [|by eexists _, _, _].
  destruct (inv_send_fanout _ _ _ t m Hi) as (w1 & f & E & Hi1 & Hf & Hlen & Hp & Hs1).
  rewrite E. cbn [mbind option_bind]. destruct (inv_release_opt _ _ _ _ _ _ f Hi1) as (w2 & E2 & Hi2 & Hc2). assert (slots w2 = slots w) as Hs2 by (by rewrite (m_slots _ _ Hc2)).
  assert (forall (r : send_result) w3, inv Q [] [] [] hc None w3 -> slots w3 = slots w ->
    exists w' (r' : call send_result sender_t) Q', Some (w3, Returned r) = Some (w', r') /\ inv Q' [] [] [] hc None w' /\ slots w' = slots w /\
      match r' with Suspended s => s ∈ senders w' | Returned _ => True end) as Hret.
  { intros r w3 Hi3 Hs3. by exists w3, (Returned r), Q. }
  destruct (f_full f) as [|tg full] eqn:Efull. { rewrite E2. by apply Hret. }
  destruct (locals w1 !! t) as [l|] eqn:El. 2: { rewrite E2. by apply Hret. }
  case_if. { rewrite E2. cbn [mbind option_bind]. apply Hret; [by apply inv_stats0|done]. }
  destruct (Hp ltac:(done)) as (p & Ep & Eh). rewrite Ep. cbn [mbind option_bind]. rewrite Eh in Hi1. rewrite <- Efull in *.
  b2p. assert (queue_max cfg <= retry_count l -> False) as Hcap by lia.
  pose proof (inv_sender_new _ _ _ _ _ _ m p (now_ms env + timeout_ms cfg) (f_full f) (f_posted f) Hi1 Hf Hlen) as Hi3.
  unfold event_new, retry_entry_new in *. cbn [fst snd entries set_events] in Hi3 |- *. fold (fresh_entry w1) in *.
  set (e := fresh_entry w1) in *. set (d := fresh (dom (events w1))) in *. set (x := {| e_next := _ |}) in *.
  set (s := {| s_entry := e |}) in *. set (wn := set_entries (set_events _ _) _) in *.
  destruct (enqueue_queue _ _ _ _ _ _ _ t l cfg Hi1 El ltac:(lia)) as (ids & HQ & Hq & Hb).
  destruct (queue_of _ _ _ _ _ _ _ t l Hi3 El) as (ids' & HQ' & Hq3). assert (ids' = ids) as -> by congruence.
  destruct (inv_enqueue _ _ _ _ _ _ t l ids e x (interval_ms cfg) (timer_ok env) (start_ok env) Hi3 El HQ Hq3 (lookup_insert_eq _ _ _) Hb)
    as (w4 & ok & E4 & H4).
  pose proof (enqueue_senders t e (interval_ms cfg) (timer_ok env) (start_ok env) wn (senders w1)) as Hk.
  change (set_senders wn (senders w1)) with wn in Hk.
  rewrite enqueue_senders in E4. destruct (topic_hub_retry_enqueue t e (interval_ms cfg) (timer_ok env) (start_ok env) wn) as [[w5 ok5]|] eqn:E5; [|done].
  injection E4 as E4 ->. injection Hk as Hk. cbn [fst mbind option_bind] in *.
  assert (senders w5 = senders w1) as Hs5 by (by rewrite Hk). apply enqueue_slots in E5. cbn in E5. destruct ok.
  - eexists _, _, _. split; [done|]. split_and!; [|cbn; congruence|by left].
    apply (inv_stats _ _ _ _ _ _ _ c_queued (Z.of_nat (length (f_full f)))) in H4. cbn [sign] in H4.
    replace hc with (hc - npending x - -1 * Z.of_nat (length (f_full f))).
    2: { change (npending x) with (Z.of_nat (length (f_full f))). lia. }
    rewrite Hs5. rewrite <- E4 in H4. exact H4.
  - destruct H4 as (l' & Hw4 & E6 & E7 & E8 & -> & Hq').
    assert (w5 = set_local t l' (set_entries (set_events w1 (<[d := false]> (events w1))) (<[e := e_set_next x None]> (entries w1)))) as Hw5.
    { rewrite Hk. rewrite <- E4 in Hw4. apply (f_equal (fun z => set_senders z (senders w1))) in Hw4. cbn in Hw4.
      rewrite insert_insert_eq in Hw4. exact Hw4. }
    rewrite Hw5.
    assert (events w1 !! d = None) as Hd by (unfold d; apply not_elem_of_dom, is_fresh).
    unfold event_dispose. cbn [events set_local set_locals set_entries set_events]. rewrite lookup_insert_eq. cbn [mbind option_bind].
    rewrite delete_insert_id by done.
    destruct (fresh_entry_spec _ _ _ _ _ _ _ Hi1) as (He & _).
    destruct (inv_discard Q [] [] hc None w1 t l l' e (e_set_next x None)) as (w6 & E9 & Hi6 & Hs6); [done..|].
    assert (set_events (set_local t l' (set_entries (set_events w1 (<[d:=false]> (events w1))) (<[e:=e_set_next x None]> (entries w1)))) (events w1) =
      set_local t l' (set_entries w1 (<[e := e_set_next x None]> (entries w1)))) as -> by done.
    rewrite E9. cbn [mbind option_bind]. apply Hret; [by apply inv_stats0|]. cbn. congruence.
Qed.

(** ** The sender resumes *)

Lemma inv_send_finish Q hp hq hc ret w s :
  inv Q [] hp hq hc ret w -> s ∈ senders w ->
  exists w' r, send_finish s w = Some (w', r) /\ inv Q [] hp hq hc ret w' /\ slots w' = slots w.
Proof.
  intros Hi Hs. pose proof Hi as [].
  assert (s_entry s ∈ map s_entry (senders w)) as Hin by (by apply list_elem_of_fmap_2).
  destruct (ledger_live _ _ _ (s_entry s) i_ent0) as (x & Hx & Hc & _); [by apply elem_of_app; right|].
  set (e := s_entry s) in *.
  assert (s_done s ∈ dones w) as Hd by (apply elem_of_app; left; by apply list_elem_of_fmap_2).
  destruct (proj2 (i_event0 _) Hd) as [b Hb].
  assert (map s_entry (senders w) ≡ₚ e :: map s_entry (filter (fun b => s_entry b <> e) (senders w))) as Hpe.
  { by rewrite (filter_key s_entry _ _ i_sender0 Hs) at 1. }
  assert (dones w ≡ₚ s_done s :: map s_done (filter (fun b => s_entry b <> e) (senders w)) ++ map a_done (askers w)) as Hpd.
  { unfold dones. by rewrite (filter_key s_entry _ _ i_sender0 Hs) at 1. }
  set (fs := filter _ _) in *. pose proof i_sender0 as Hnd. rewrite Hpe in Hnd. apply NoDup_cons in Hnd as [He0 He1].
  pose proof i_done0 as Hdd. rewrite Hpd in Hdd. apply NoDup_cons in Hdd as [Hd0 Hd1].
  unfold send_finish. fold e. rewrite Hx. cbn [mbind option_bind]. unfold event_dispose. cbn [events set_entries]. rewrite Hb. cbn [mbind option_bind].
  unfold retry_entry_release. cbn [entries set_senders set_events set_entries]. rewrite lookup_insert_eq. cbn [mbind option_bind e_refcount e_set_waiter].
  fold fs. eexists _, _. split; [done|]. split; [|done]. set (y := e_set_waiter x true None).
  set (m' := if e_refcount x =? 1 then _ else _).
  assert (ledger e_refcount m' (owned Q [] ++ map s_entry fs)) as Hled.
  { assert (ledger e_refcount (<[e := y]> (entries w)) (e :: owned Q [] ++ map s_entry fs)) as Hl.
    { eapply (ledger_same _ _ _ e x); [|done..]. eapply ledger_perm, i_ent0. rewrite Hpe. by rewrite Permutation_middle. }
    subst m'. destruct (Z.eqb_spec (e_refcount x) 1) as [E|E]; [by eapply ledger_free; [|apply lookup_insert_eq|]|].
    by eapply (ledger_dec _ _ _ _ y); [|apply lookup_insert_eq|..]. }
  assert (forall i, i <> e -> m' !! i = entries w !! i) as Hoth.
  { intros i Hne. subst m'. destruct (e_refcount x =? 1); [rewrite lookup_delete_ne by done|rewrite lookup_insert_ne by done]; by rewrite lookup_insert_ne. }
  assert (forall z, m' !! e = Some z -> z = e_add y (-1)) as Hsame.
  { intros z. subst m'. destruct (e_refcount x =? 1); [by rewrite lookup_delete_eq|]. rewrite lookup_insert_eq. by intros [= <-]. }
  assert (forall i, i ∈ owned Q [] -> exists z u, m' !! i = Some z /\ entries w !! i = Some u /\ e_payload z = e_payload u /\
    e_next z = e_next u /\ npending z = npending u) as Hown.
  { intros i Hi0. destruct (ledger_live _ _ _ i Hled) as (z & Hz & _); [by apply elem_of_app; left|].
    destruct (decide (i = e)) as [->|Hne]; [|rewrite Hoth in Hz by done; by exists z, z; rewrite Hoth].
    pose proof (Hsame _ Hz) as ->. by eexists _, x. }
  rebuild.
  - rewrite (entry_pays_ext m' (entries w)); [done|]. intros i Hi0. destruct (Hown _ Hi0) as (z & u & -> & -> & E & _). cbn. by rewrite E.
  - intros t. specialize (i_queue0 t). destruct (locals w !! t) as [l|]; [|done]. destruct i_queue0 as (ids & HQ & []).
    exists ids. split; [done|]. split; try done. eapply chain_ext; [|done]. intros i Hi0.
    destruct (Hown i) as (z & u & -> & -> & _ & E & _); [unfold owned; rewrite app_nil_r; apply elem_of_pool; by exists t, ids|]. cbn. by rewrite E.
  - intros i z Hz. destruct (decide (i = e)) as [->|Hne].
    + right. apply Hsame in Hz as ->. done.
    + rewrite Hoth in Hz by done. destruct (i_sent0 _ _ Hz) as [(s' & H1 & H2 & H3 & H4 & H5)|[H1 H2]].
      * left. exists s'. split_and!; [apply list_elem_of_filter; split; [congruence|done]|done..|].
        destruct H5 as [|(H5 & H6 & H7)]; [by left|right]. split_and!; [done..|]. cbn. rewrite lookup_delete_ne; [done|].
        intros Ed. apply Hd0. rewrite Ed. apply elem_of_app. left. apply list_elem_of_fmap_2, list_elem_of_filter. split; [congruence|done].
      * right. split; [|done]. intros Hin'. apply H1. rewrite Hpe. by right.
  - intros i z Hz. destruct (decide (i = e)) as [->|Hne]; [apply Hsame in Hz as ->; by apply i_target0 in Hx|].
    rewrite Hoth in Hz by done. by apply i_target0 in Hz.
  - intros d. unfold dones. cbn. destruct (decide (s_done s = d)) as [<-|Hne].
    + rewrite lookup_delete_eq. split; [by intros []|done].
    + rewrite lookup_delete_ne by done. rewrite i_event0, Hpd, elem_of_cons. naive_solver.
  - rewrite (parked_ext m' (entries w)); [done|]. intros i Hi0.
    destruct (Hown i) as (z & u & -> & -> & _ & _ & E); [unfold owned; by rewrite app_nil_r|]. cbn. by rewrite E.
Qed.

(** ** The system *)

Definition set_interest (c : option (list Z)) (s : slot_t) : slot_t :=
  {| inbox := inbox s; gen := gen s; taken := taken s; interest := c |}.

(** A session of thread [t] changed its subscriptions: the tree is [tr] now and the
    interest filter of the slot was bumped. *)
Definition resubscribe (t : nat) (tr : tree) (filter : bytes) (prefix_len : nat) (delta : Z) (w : world) : world :=
  match locals w !! t with
  | None => w
  | Some l =>
      let table := ws_interest_bump (interest <$> slots w) (Some (l_slot l)) filter prefix_len delta in
      set_local t (l_set_tree l tr) (set_slots w (zip_with set_interest table (slots w)) (slots_used w))
  end.

Inductive op :=
  | OpAttach (t : nat) (mailbox : bool)
  | OpDetach (t : nat)
  | OpResubscribe (t : nat) (tr : tree) (filter : bytes) (prefix_len : nat) (delta : Z)
  | OpNextId
  | OpDrain (t : nat)
  | OpPublish (t : nat) (m : message)
  | OpCount (t : nat) (topic : bytes) (coroutine waker : bool)
  | OpCountResume (a : asker_t)
  | OpTrySend (t : nat) (m : message) (cfg : send_config) (env : loop_env)
  | OpSend (t : nat) (m : message) (cfg : send_config) (env : loop_env) (coroutine : bool)
  | OpSendResume (s : sender_t)
  | OpTick (t : nat) (now : Z) (closing : bool).

Definition apply_op (o : op) (w : world) : option world :=
  match o with
  | OpAttach t mailbox => Some (fst (topic_hub_attach t mailbox w))
  | OpDetach t => topic_hub_detach t w
  | OpResubscribe t tr filter prefix_len delta => Some (resubscribe t tr filter prefix_len delta w)
  | OpNextId => Some (fst (topic_hub_next_id w))
  | OpDrain t => topic_hub_drain t w
  | OpPublish t m => fst <$> topic_hub_publish t m w
  | OpCount t topic coroutine waker => fst <$> topic_hub_count t topic coroutine waker w
  | OpCountResume a => fst <$> count_finish a w
  | OpTrySend t m cfg env => fst <$> topic_hub_try_send t m cfg env w
  | OpSend t m cfg env coroutine => fst <$> topic_hub_send t m cfg env coroutine w
  | OpSendResume s => fst <$> send_finish s w
  | OpTick t now closing => topic_hub_retry_tick t now closing w
  end.

(** A resumption needs its coroutine, the queue bound is a 32-bit number; everything
    else may happen at any time. *)
Definition enabled (o : op) (w : world) : Prop :=
  match o with
  | OpCountResume a => a ∈ askers w
  | OpSendResume s => s ∈ senders w
  | OpTrySend _ _ cfg _ | OpSend _ _ cfg _ _ => queue_max cfg < 2 ^ 32
  | _ => True
  end.

Inductive reach : world -> Prop :=
  | reach_create : reach topic_hub_create
  | reach_step w o w' : reach w -> enabled o w -> apply_op o w = Some w' -> reach w'.

(** ** Every step preserves the invariant *)

Definition ok (Q : gmap nat (list nat)) (w : world) : Prop := inv Q [] [] [] 0 None w.

(** How a step changes the slot table. *)
Inductive slots_step (w : world) : list slot_t -> Prop :=
  | ss_same ss : Forall2 (fun s s' => inbox s' = inbox s /\ gen s' = gen s) (slots w) ss -> slots_step w ss
  | ss_claim i b : boxes w !! b = None -> slots_step w (alter (claim b) i (slots w))
  | ss_retire i : slots_step w (alter retire i (slots w)).

Lemma ss_eq w ss : ss = slots w -> slots_step w ss.
Proof. intros ->. apply ss_same, Forall_Forall2_diag. apply Forall_forall. done. Qed.

Lemma zip_interest table ss :
  length table = length ss ->
  Forall2 (fun s s' => inbox s' = inbox s /\ gen s' = gen s /\ taken s' = taken s) ss (zip_with set_interest table ss).
Proof.
  revert table. induction ss as [|s ss IH]; intros [|c table] Hl; try done; cbn [zip_with].
  apply Forall2_cons. split; [done|]. apply IH. by injection Hl.
Qed.

Lemma bump_length table l f p d : length (ws_interest_bump table l f p d) = length table.
Proof. unfold ws_interest_bump. destruct l as [i|]; [|done]. destruct (table !! i) as [[c|]|]; [|done..]. apply length_insert. Qed.

Lemma table_interest ret ss ss' used ls bs :
  Forall2 (fun s s' => inbox s' = inbox s /\ gen s' = gen s /\ taken s' = taken s) ss ss' ->
  table_ok ret ss used ls bs -> table_ok ret ss' used ls bs.
Proof.
  intros Hf []. split; try done.
  - by rewrite <- (Forall2_length _ _ _ Hf).
  - intros t l Hl. destruct (tb_local0 _ _ Hl) as (s & Hs & Hb & Hr).
    destruct (Forall2_lookup_l _ _ _ _ _ Hf Hs) as (s' & Hs' & E1 & E2 & E3). exists s'. split_and!; [done..|]. by rewrite E1, E2, E3.
  - intros i s' b Hs' Hb. destruct (Forall2_lookup_r _ _ _ _ _ Hf Hs') as (s & Hs & E1 & _). eapply tb_slot0; [done|]. by rewrite <- E1.
  - intros i s' Hs' Ht. destruct (Forall2_lookup_r _ _ _ _ _ Hf Hs') as (s & Hs & E1 & E2 & E3). rewrite E1. eapply tb_free0; [done|]. by rewrite <- E3.
Qed.

Lemma inv_resubscribe Q w t tr f p d : ok Q w -> ok Q (resubscribe t tr f p d w) /\ slots_step w (slots (resubscribe t tr f p d w)).
Proof.
  intros Hi. unfold resubscribe. destruct (locals w !! t) as [l|] eqn:El; [|split; [done|by apply ss_eq]].
  set (table := ws_interest_bump _ _ _ _ _). assert (length table = length (slots w)) as Hl.
  { unfold table. by rewrite bump_length, length_fmap. }
  pose proof (zip_interest table (slots w) Hl) as Hz. split.
  - apply inv_tree; [|done]. destruct Hi. rebuild. by eapply table_interest.
  - apply ss_same. cbn. eapply Forall2_impl; [done|]. naive_solver.
Qed.

Lemma apply_op_ok Q w o : ok Q w -> enabled o w -> exists w' Q', apply_op o w = Some w' /\ ok Q' w' /\ slots_step w (slots w').
Proof.
  unfold ok. intros Hi He. destruct o; cbn [apply_op enabled] in *.
  - destruct (inv_attach _ _ _ t mailbox Hi) as (Q' & Hi' & Hs). eexists _, Q'. split_and!; [done..|].
    destruct Hs as [Hs|(i & b & Hb & Hs)]; [by apply ss_eq|rewrite Hs; by apply ss_claim].
  - destruct (inv_detach _ _ _ t Hi) as (w' & Q' & E & Hi' & Hs). exists w', Q'. split_and!; [done..|].
    destruct Hs as [Hs|(i & ->)]; [by apply ss_eq|by apply ss_retire].
  - eexists _, Q. split; [done|]. by apply inv_resubscribe.
  - eexists _, Q. split; [done|]. split; [|by apply ss_eq]. destruct Hi. by split.
  - destruct (inv_drain _ _ _ t Hi) as (w' & E & Hi' & Hs). exists w', Q. split_and!; [done..|by apply ss_eq].
  - destruct (inv_publish _ _ _ t m Hi) as (r & -> & Hi' & Hs). exists (fst r), Q. split_and!; [done..|by apply ss_eq].
  - destruct (inv_count _ _ _ t topic coroutine waker Hi) as (r & -> & Hi' & Hs). exists (fst r), Q. split_and!; [done..|by apply ss_eq].
  - destruct (inv_count_finish _ _ _ _ a Hi He) as (r & -> & Hi' & Hs). exists (fst r), Q. split_and!; [done..|by apply ss_eq].
  - destruct (inv_try_send _ _ _ t m cfg env Hi He) as (w' & b & Q' & -> & Hi' & Hs). exists w', Q'. split_and!; [done..|by apply ss_eq].
  - destruct (inv_send _ _ _ t m cfg env coroutine Hi He) as (w' & r & Q' & -> & Hi' & Hs & _). exists w', Q'. split_and!; [done..|by apply ss_eq].
  - destruct (inv_send_finish _ _ _ _ _ _ s Hi He) as (w' & r & -> & Hi' & Hs). exists w', Q. split_and!; [done..|by apply ss_eq].
  - destruct (inv_tick _ _ _ t now closing Hi) as (w' & Q' & E & Hi' & Hs). exists w', Q'. split_and!; [done..|by apply ss_eq].
Qed.

Lemma hub_create_ok : ok ∅ topic_hub_create.
Proof.
  split; cbn -[u64 replicate TOPIC_HUB_MAX_WORKERS]; unfold pays, qrys, owned, dones; rewrite ?pool_empty; cbn -[replicate TOPIC_HUB_MAX_WORKERS]; try done;
    try (intros ? ?; rewrite lookup_empty; done); try (by intros i; rewrite lookup_empty); try by apply NoDup_nil.
  - split; try done.
    + unfold TOPIC_HUB_MAX_WORKERS. lia.
    + intros i s b [-> _]%lookup_replicate. done.
    + intros b Hb. by rewrite lookup_empty in Hb; destruct Hb.
    + intros i s [-> _]%lookup_replicate. done.
  - intros d. rewrite lookup_empty. split; [by intros []|by intros ?%elem_of_nil].
Qed.

Lemma reach_ok w : reach w -> exists Q, ok Q w.
Proof.
  induction 1 as [|w o w' Hr [Q IH] He Hs]; [exists ∅; apply hub_create_ok|].
  destruct (apply_op_ok _ _ _ IH He) as (w2 & Q2 & E2 & Hi2 & _). assert (w2 = w') as <- by congruence. by exists Q2.
Qed.

(** C4: No operation of the topic hub touches freed memory: in every state the
    workers can reach by attaching, detaching, subscribing, publishing, counting,
    sending, ticking and resuming in any order, every operation that may happen
    next completes. *)
Theorem topic_hub_safe (w : world) (o : op) : reach w -> enabled o w -> exists w', apply_op o w = Some w' /\ reach w'.
Proof.
  intros Hr He. destruct (reach_ok _ Hr) as [Q Hi]. destruct (apply_op_ok _ _ _ Hi He) as (w' & Q' & E & _ & _).
  exists w'. split; [done|]. by eapply reach_step.
Qed.

End safe.
End TopicHubSafe.
