(* ===== verification/TopicHubProps.v ===== *)
(** * Properties of the topic hub

    What the invariant means for the users of the hub: nothing leaks, a suspended
    sender is resolved by the first tick after its deadline, the retry counters
    balance, the result of a reliable send accounts for every target, a parked
    message reaches only the worker it was parked for, and a publish reaches
    exactly the interested mailboxes. *)

From S2P Require Import Prelude TopicFilter TopicTree TopicInterest Ledger TopicHub TopicHubInv TopicHubRetry TopicHubSafe.

Module TopicHubProps.
Import TopicInterest Ledger TopicHub TopicHubInv TopicHubRetry TopicHubSafe.

Section props.
Context {zend_hash : ZendHash} {tree_ops : TopicTreeOps} {mailboxes : MailboxCapacity}.

Lemma bind_nil {A B} (f : A -> list B) l : (forall x, x ∈ l -> f x = []) -> l ≫= f = [].
Proof.
  induction l as [|x l IH]; intros Hf; [done|]. cbn [mbind list_bind]. rewrite (Hf x) by (by left). apply IH. intros y Hy. apply Hf. by right.
Qed.

Lemma pool_nil {A} (m : gmap nat (list A)) : (forall i l, m !! i = Some l -> l = []) -> pool m = [].
Proof.
  intros Hm. destruct (pool m) as [|x l] eqn:E; [done|]. exfalso.
  assert (x ∈ pool m) as Hx by (rewrite E; by left). apply elem_of_pool in Hx as (i & l' & Hi & Hx). apply Hm in Hi as ->. by apply elem_of_nil in Hx.
Qed.

(** Nothing leaks: once no caller is suspended, every mailbox is drained and
    every retry queue is empty, no payload, query, retry entry or event is left
    allocated. *)
Theorem topic_hub_no_leak (w : world) :
  reach w -> senders w = [] -> askers w = [] -> (forall b q, boxes w !! b = Some q -> q = []) ->
  (forall t l, locals w !! t = Some l -> retry_head l = None) ->
  payloads w = ∅ /\ queries w = ∅ /\ entries w = ∅ /\ events w = ∅.
Proof.
  intros Hr Hs Ha Hb Hq. destruct (reach_ok _ Hr) as [Q []].
  assert (pool Q = []) as HQ.
  { apply pool_nil. intros t ids Ht. specialize (i_queue0 t). destruct (locals w !! t) as [l|] eqn:El; [|congruence].
    destruct i_queue0 as (ids' & E & []). assert (ids' = ids) as -> by congruence. destruct ids; [done|].
    destruct u_chain0 as [Hh _]. by rewrite (Hq _ _ El) in Hh. }
  assert (pool (boxes w) = []) as HB by (by apply pool_nil).
  unfold owned, pays, qrys in *. rewrite HQ, HB, ?Hs, ?Ha in *. split_and!.
  - by eapply (ledger_nil p_refcount).
  - by eapply (ledger_nil q_refcount).
  - by eapply (ledger_nil e_refcount).
  - apply map_eq. intros d. rewrite lookup_empty. destruct (events w !! d) as [b|] eqn:Ed; [|done]. exfalso.
    assert (d ∈ dones w) as Hd by (apply i_event0; by exists b). unfold dones in Hd. rewrite Hs, Ha in Hd. by apply elem_of_nil in Hd.
Qed.

(** A sender is known by its entry. *)
Lemma sender_unique w s s' : NoDup (map s_entry (senders w)) -> s ∈ senders w -> s' ∈ senders w -> s_entry s = s_entry s' -> s = s'.
Proof.
  intros Hn Hs Hs' E. rewrite (filter_key s_entry _ _ Hn Hs) in Hs'. apply elem_of_cons in Hs' as [->|Hs']; [done|].
  apply list_elem_of_filter in Hs' as [Hne _]. congruence.
Qed.

Lemma sender_entry Q w s :
  ok Q w -> s ∈ senders w ->
  exists x, entries w !! s_entry s = Some x /\ e_abandoned x = false /\ e_delivered x + e_gone x + npending x = s_nfull s /\
    ((e_waiter x = Some (s_done s) /\ s_entry s ∈ pool Q) \/ events w !! s_done s = Some true).
Proof.
  intros [] Hs. assert (s_entry s ∈ map s_entry (senders w)) as Hin by (by apply list_elem_of_fmap_2).
  destruct (ledger_live _ _ _ (s_entry s) i_ent0) as (x & Hx & _); [by apply elem_of_app; right|]. exists x. split; [done|].
  destruct (i_sent0 _ _ Hx) as [(s' & H1 & H2 & H3 & H4 & H5)|[H1 _]]; [|done].
  assert (s' = s) as -> by (by eapply sender_unique). split_and!; [done..|]. unfold owned in H5. rewrite app_nil_r in H5. naive_solver.
Qed.

Lemma pool_thread (Q : gmap nat (list nat)) t ids e t' ids' :
  NoDup (pool Q) -> Q !! t = Some ids -> e ∈ ids -> Q !! t' = Some ids' -> e ∈ ids' -> t' = t.
Proof.
  intros Hn Ht He Ht' He'. destruct (decide (t' = t)) as [|Hne]; [done|]. exfalso.
  rewrite (pool_delete _ _ _ Ht) in Hn. apply NoDup_app in Hn as (_ & Hd & _). apply (Hd e He), elem_of_pool.
  exists t', ids'. by rewrite lookup_delete_ne.
Qed.

(** C5: A sender is never forgotten: while its event has not fired, its entry is
    queued at an attached worker whose retry timer is running, and the first tick of
    that timer at or after the entry's deadline fires the event. *)
Theorem topic_hub_sender_resolved (w : world) (s : sender_t) :
  reach w -> s ∈ senders w -> events w !! s_done s <> Some true ->
  exists t l x, locals w !! t = Some l /\ retry_timer_armed l = true /\ entries w !! s_entry s = Some x /\
    forall now, e_deadline x <= now ->
      exists w', topic_hub_retry_tick t now false w = Some w' /\ events w' !! s_done s = Some true.
Proof.
  intros Hr Hs Hf. destruct (reach_ok _ Hr) as [Q Hi]. destruct (sender_entry _ _ _ Hi Hs) as (x & Hx & _ & _ & [[_ He]|]); [|done].
  apply elem_of_pool in He as (t & ids & HQ & He). pose proof (i_queue _ _ _ _ _ _ _ Hi t) as Hq.
  destruct (locals w !! t) as [l|] eqn:El; [|congruence]. destruct Hq as (ids' & HQ' & Hq). assert (ids' = ids) as -> by congruence.
  exists t, l, x. split_and!; [done| |done|].
  { apply (u_armed _ _ _ Hq). intros ->. by apply elem_of_nil in He. }
  intros now Hnow. destruct (inv_tick_open _ _ _ _ _ now Hi El) as (w' & kept & E & Hi' & _ & Hse & Hlt & Hdl).
  exists w'. split; [done|]. destruct (sender_entry _ _ s Hi') as (x' & Hx' & _ & _ & [[_ He']|]); [by rewrite Hse| |done].
  exfalso. assert (s_entry s ∈ kept) as Hk.
  { apply elem_of_pool in He' as (t' & ids' & HQ2 & He2). destruct (decide (t = t')) as [<-|Hne].
    - rewrite lookup_insert_eq in HQ2. by injection HQ2 as <-.
    - rewrite lookup_insert_ne in HQ2 by done. destruct Hne. symmetry. eapply pool_thread; [|exact HQ|exact He|exact HQ2|exact He2].
      pose proof (i_own _ _ _ _ _ _ _ Hi) as Hn. unfold owned in Hn. by rewrite app_nil_r in Hn. }
  specialize (Hdl _ Hk). rewrite Hx, Hx' in Hdl. injection Hdl as Hdl. specialize (Hlt _ _ Hk Hx'). lia.
Qed.

(** ** Accounting *)

(** Targets parked in the queue that starts at a pointer, and in all queues. *)
Fixpoint queue_waiting (fuel : nat) (m : gmap nat retry_entry_t) (p : option nat) : Z :=
  match p, fuel with
  | Some e, S f => match m !! e with Some x => npending x + queue_waiting f m (e_next x) | None => 0 end
  | _, _ => 0
  end.

Definition waiting (w : world) : Z :=
  map_fold (fun _ l acc => queue_waiting (fuel_of w) (entries w) (retry_head l) + acc) 0 (locals w).

Lemma queue_waiting_chain m ids fuel p : chain m p ids -> (length ids <= fuel)%nat -> queue_waiting fuel m p = parked m ids.
Proof.
  revert p fuel. induction ids as [|e ids IH]; intros p fuel; cbn [chain length parked].
  - intros -> _. by destruct fuel.
  - intros (-> & x & Hx & Hc) Hl. destruct fuel as [|fuel]; [lia|]. cbn [queue_waiting]. rewrite Hx. f_equal. apply IH; [done|lia].
Qed.

Lemma waiting_pool (g : ws_local_t -> Z) m (ls : gmap nat ws_local_t) (Q : gmap nat (list nat)) :
  (forall t, match ls !! t with Some l => exists ids, Q !! t = Some ids /\ g l = parked m ids | None => Q !! t = None end) ->
  map_fold (fun _ l acc => g l + acc) 0 ls = parked m (pool Q).
Proof.
  revert Q. induction ls as [|t l ls Hl IH] using map_ind; intros Q HQ.
  - rewrite map_fold_empty. assert (Q = ∅) as ->; [|by rewrite pool_empty].
    apply map_eq. intros t. rewrite lookup_empty. exact (HQ t).
  - rewrite map_fold_insert_L; [|intros; lia|done]. pose proof (HQ t) as Ht. rewrite lookup_insert_eq in Ht. destruct Ht as (ids & Ht & ->).
    rewrite (parked_perm _ _ _ (pool_delete _ _ _ Ht)), parked_app. f_equal. apply IH. intros u. specialize (HQ u).
    destruct (decide (t = u)) as [<-|Hne]; [by rewrite Hl, lookup_delete_eq|]. rewrite lookup_insert_ne in HQ by done. by rewrite lookup_delete_ne.
Qed.

(** The retry counters account for every parked target: the number ever parked
    is the number delivered, gone, expired and abandoned by shutdown plus those that
    wait in a queue, modulo the width of the counters. *)
Theorem topic_hub_retry_balance (w : world) :
  reach w ->
  u64 (stats w c_queued) =
  u64 (stats w c_delivered + stats w c_gone + stats w c_expired + stats w c_shutdown + waiting w).
Proof.
  intros Hr. destruct (reach_ok _ Hr) as [Q Hi]. pose proof Hi as []. rewrite i_acct0, Z.add_0_r. do 2 f_equal. symmetry.
  apply waiting_pool. intros t. specialize (i_queue0 t). destruct (locals w !! t) as [l|] eqn:El; [|done].
  destruct i_queue0 as (ids & HQ & Hq). exists ids. split; [done|]. apply queue_waiting_chain; [apply Hq|].
  eapply fuel_enough; [exact Hi| |].
  - pose proof i_own0 as Hn. unfold owned in Hn. rewrite (pool_delete _ _ _ HQ), <- app_assoc in Hn. by apply NoDup_app in Hn as [Hn _].
  - intros i Hin. unfold owned. apply elem_of_app. left. apply elem_of_pool. by exists t, ids.
Qed.

(** The result of a blocking send accounts for every target that was full: it
    was delivered later, is reported as pending, or its worker was gone.  The call
    reports success only if nothing is pending, and expiry only if something is. *)
Theorem topic_hub_send_result (w : world) (s : sender_t) :
  reach w -> s ∈ senders w ->
  exists w' r d g, send_finish s w = Some (w', r) /\ r_delivered r = u32 (s_posted s + d) /\ 0 <= d /\ 0 <= g /\
    d + g + r_pending r = s_nfull s /\
    (r_status r = TOPIC_HUB_SEND_OK -> r_pending r = 0) /\ (r_status r = TOPIC_HUB_SEND_EXPIRED -> 0 < r_pending r) /\
    (r_status r = TOPIC_HUB_SEND_OK \/ r_status r = TOPIC_HUB_SEND_EXPIRED \/ r_status r = TOPIC_HUB_SEND_SHUTDOWN).
Proof.
  intros Hr Hs. destruct (reach_ok _ Hr) as [Q Hi]. destruct (sender_entry _ _ _ Hi Hs) as (x & Hx & _ & Hn & _).
  destruct (inv_send_finish _ _ _ _ _ _ s Hi Hs) as (w' & r & E & _). exists w', r, (e_delivered x), (e_gone x).
  split; [done|]. destruct (i_target _ _ _ _ _ _ _ Hi _ _ Hx) as (_ & Hd & Hg & _).
  unfold send_finish in E. rewrite Hx in E. cbn [mbind option_bind] in E. unfold event_dispose in E. cbn [events set_entries] in E.
  destruct (events w !! s_done s) as [b|]; [|done]. cbn [mbind option_bind] in E.
  destruct (retry_entry_release _ _) as [w2|]; [|done]. cbn [mbind option_bind] in E. injection E as _ <-.
  unfold npending in Hn. destruct (e_shutdown x); [|destruct (Z.eqb_spec (Z.of_nat (length (e_pending x))) 0)]; cbn [r_delivered r_pending r_status];
    split_and!; try done; try lia; auto.
Qed.

(** ** Slot reuse *)

Inductive run : world -> list op -> world -> Prop :=
  | run_nil w : run w [] w
  | run_cons w o w1 os w' : enabled o w -> apply_op o w = Some w1 -> run w1 os w' -> run w (o :: os) w'.

(** How often the slot was claimed again, and what it means for its mailbox. *)
Definition aged (s s' : slot_t) (k : Z) : Prop :=
  gen s' = u32 (gen s + k) /\ 0 <= k /\ (k = 0 -> inbox s' = inbox s \/ inbox s' = None).

Definition gens_ok (w : world) : Prop := forall i s, slots w !! i = Some s -> 0 <= gen s < 2 ^ 32.

Lemma reach_gens w : reach w -> gens_ok w.
Proof.
  induction 1 as [|w o w' Hr IH He Hs].
  - intros i s [-> _]%lookup_replicate. cbn. lia.
  - destruct (reach_ok _ Hr) as [Q Hq]. destruct (apply_op_ok _ _ _ Hq He) as (w2 & Q2 & E2 & _ & Hss). assert (w2 = w') as -> by congruence.
    intros i s Hi. remember (slots w') as ss. destruct Hss as [ss Hf|i' b Hb|i'].
    + destruct (Forall2_lookup_r _ _ _ _ _ Hf Hi) as (s' & Hs' & _ & ->). by eapply IH.
    + apply lookup_alter_cases in Hi as [(-> & y & Hy & ->)|[_ Hi]]; [|by eapply IH]. cbn. unfold u32. apply Z.mod_pos_bound. lia.
    + apply lookup_alter_cases in Hi as [(-> & y & Hy & ->)|[_ Hi]]; [exact (IH _ _ Hy)|by eapply IH].
Qed.

Lemma slots_step_aged w ss i s s0 k :
  slots_step w ss -> slots w !! i = Some s -> aged s0 s k ->
  exists s' j, ss !! i = Some s' /\ aged s0 s' j /\ k <= j <= k + 1.
Proof.
  intros Hs Hi (Hg & Hk & Hz). destruct Hs as [ss Hf|i' b Hb|i'].
  - destruct (Forall2_lookup_l _ _ _ _ _ Hf Hi) as (s' & Hs' & E1 & E2). exists s', k. split_and!; [done| |lia..].
    unfold aged. by rewrite E1, E2.
  - destruct (decide (i' = i)) as [->|Hne].
    + exists (claim b s), (k + 1). rewrite list_lookup_alter_eq, Hi. split_and!; [done| |lia..].
      split_and!; [|lia|lia]. cbn. rewrite Hg. unfold u32. rewrite Zplus_mod_idemp_l. f_equal. lia.
    + exists s, k. rewrite list_lookup_alter_ne by done. by split_and!; [|split_and!|lia..].
  - destruct (decide (i' = i)) as [->|Hne].
    + exists (retire s), k. rewrite list_lookup_alter_eq, Hi. split_and!; [done| |lia..]. unfold aged. cbn. auto.
    + exists s, k. rewrite list_lookup_alter_ne by done. by split_and!; [|split_and!|lia..].
Qed.

Lemma run_aged w os w' i s0 : run w os w' -> forall s k,
  reach w -> slots w !! i = Some s -> aged s0 s k ->
  exists s' j, slots w' !! i = Some s' /\ aged s0 s' j /\ k <= j <= k + Z.of_nat (length os) /\ reach w'.
Proof.
  induction 1 as [w|w o w1 os w' He Hs Hr IH]; intros s k Hw Hi Ha.
  { exists s, k. cbn. split_and!; try done; lia. }
  destruct (reach_ok _ Hw) as [Q Hq]. destruct (apply_op_ok _ _ _ Hq He) as (w2 & Q2 & E2 & _ & Hss). assert (w2 = w1) as -> by congruence.
  destruct (slots_step_aged _ _ _ _ _ _ Hss Hi Ha) as (s1 & k1 & Hi1 & Ha1 & Hk1).
  destruct (IH s1 k1) as (s' & j & Hi' & Ha' & Hj & Hr'); [by eapply reach_step|done|done|].
  exists s', j. cbn [length]. split_and!; try done; lia.
Qed.

Lemma post_one slot c w w' posted b s :
  topic_hub_post_locked slot c w = Some (w', posted) -> slots w !! slot = Some s -> inbox s = Some b ->
  forall b', b' <> b -> boxes w' !! b' = boxes w !! b'.
Proof.
  unfold topic_hub_post_locked. intros E Hs Hb b' Hne. rewrite Hs in E. cbn [mbind option_bind] in E. rewrite Hb in E.
  destruct (boxes w !! b); [|done]. cbn [mbind option_bind] in E. case_if_in E; injection E as <- _; [|done].
  cbn. by rewrite lookup_insert_ne.
Qed.

(** A message parked for a worker never reaches another one.  When the slot of a
    target had mailbox [b] and generation [t_gen tg], then after any run of fewer than
    2^32 operations, in which workers may detach and others take over the slot, a
    retry of the target leaves every mailbox other than [b] untouched. *)
Theorem topic_hub_retry_same_worker (w w1 w2 : world) (os : list op) (x : retry_entry_t) (tg : retry_target_t) (s : slot_t)
    (b : nat) (r : list retry_target_t * Z * Z) :
  reach w -> slots w !! t_slot tg = Some s -> inbox s = Some b -> t_gen tg = gen s ->
  run w os w1 -> Z.of_nat (length os) < 2 ^ 32 ->
  retry_targets x [tg] [] 0 0 w1 = Some (w2, r) ->
  forall b', b' <> b -> boxes w2 !! b' = boxes w1 !! b'.
Proof.
  intros Hr Hs Hb Ht Hrun Hn E b' Hne. pose proof (reach_gens _ Hr _ _ Hs) as Hg.
  assert (aged s s 0) as Ha0. { split_and!; [|lia|by left]. rewrite Z.add_0_r. unfold u32. by rewrite Z.mod_small. }
  destruct (run_aged _ _ _ _ s Hrun s 0 Hr Hs Ha0) as (s' & j & Hs' & (Hgj & Hj0 & Hz) & Hj & _).
  cbn [retry_targets] in E. rewrite Hs' in E. cbn [mbind option_bind] in E. case_if_in E; [by injection E as <- _|].
  assert (gen s' = gen s /\ is_Some (inbox s')) as [Egen [b1 Eb1]].
  { rewrite <- Ht. destruct (inbox s') as [b1|]; [|done]. b2p. eauto. }
  assert (j = 0) as Ej.
  { rewrite Egen in Hgj. unfold u32 in Hgj. destruct (Z.eq_dec j 0) as [|Hjne]; [done|]. exfalso. dlia. }
  destruct (Hz Ej) as [Ein|Ein]; [|congruence].
  destruct (ws_payload_ref (e_payload x) w1) as [w3|] eqn:E3; [|done]. cbn [mbind option_bind] in E.
  assert (slots w3 = slots w1 /\ boxes w3 = boxes w1) as [Es3 Eb3].
  { unfold ws_payload_ref in E3. destruct (payloads w1 !! _); [|done]. by injection E3 as <-. }
  destruct (topic_hub_post_locked _ _ w3) as [[w4 posted]|] eqn:E4; [|done]. cbn [mbind option_bind] in E.
  pose proof (post_one _ _ _ _ _ b s' E4 ltac:(by rewrite Es3) ltac:(congruence) b' Hne) as Hp. rewrite Eb3 in Hp.
  destruct posted; [by injection E as <- _|]. destruct (ws_payload_release _ w4) as [w5|] eqn:E5; [|done]. cbn [mbind option_bind] in E.
  injection E as <- _. unfold ws_payload_release in E5. destruct (payloads w4 !! _); [|done]. by injection E5 as <-.
Qed.

(** ** The fan-out *)

(** The mailbox a publish addresses in a slot: attached, not the publisher's own,
    and interested. *)
Definition addressed (own : option nat) (probes : list (list nat)) (w : world) (i : nat) : option nat :=
  match slots w !! i with
  | Some s => if bool_decide (own = Some i) || negb (ws_interest_matches (interest <$> slots w) i probes) then None else inbox s
  | None => None
  end.

Definition addressees (own : option nat) (probes : list (list nat)) (w : world) (first n : nat) : list nat :=
  omap (addressed own probes w) (seq first n).

(** There is room in the mailbox. *)
Definition room (w : world) (b : nat) : bool :=
  match boxes w !! b with Some q => (length q <? mailbox_capacity)%nat | None => false end.

Definition n_room (w : world) (bs : list nat) : Z := Z.of_nat (length (List.filter (room w) bs)).
Definition n_full (w : world) (bs : list nat) : Z := Z.of_nat (length (List.filter (fun b => negb (room w b)) bs)).

Lemma addressees_cons own probes w i n :
  addressees own probes w i (S n) =
  match addressed own probes w i with Some b => b :: addressees own probes w (S i) n | None => addressees own probes w (S i) n end.
Proof. done. Qed.

Lemma addressees_same own probes w w' i n : slots w' = slots w -> addressees own probes w' i n = addressees own probes w i n.
Proof. intros E. unfold addressees, addressed. by rewrite E. Qed.

Lemma addressed_later Q R hp hq hc ret own probes w i n b s :
  inv Q R hp hq hc ret w -> slots w !! i = Some s -> inbox s = Some b -> b ∉ addressees own probes w (S i) n.
Proof.
  intros Hi Hs Hb (j & Hj & Ha)%list_elem_of_omap. apply elem_of_seq in Hj. unfold addressed in Ha.
  destruct (slots w !! j) as [s'|] eqn:Es; [|done]. case_if_in Ha; [done|].
  pose proof (i_table _ _ _ _ _ _ _ Hi) as Ht. destruct (tb_slot _ _ _ _ _ Ht _ _ _ Hs Hb) as (_ & t & l & Hl & _ & E1 & E2).
  destruct (tb_slot _ _ _ _ _ Ht _ _ _ Es Ha) as (_ & t' & l' & Hl' & _ & E1' & E2').
  assert (t = t') as <- by (eapply (tb_inj _ _ _ _ _ Ht); [done..|congruence]). assert (l = l') as <- by congruence. lia.
Qed.

Lemma post_exact Q R hp hq hc ret w slot c s b :
  inv Q R hp hq hc ret w -> slots w !! slot = Some s -> inbox s = Some b ->
  exists q, boxes w !! b = Some q /\
    topic_hub_post_locked slot c w = Some (if room w b then (set_boxes w (<[b := q ++ [c]]> (boxes w)), true) else (w, false)).
Proof.
  intros Hi Hs Hb. pose proof (i_table _ _ _ _ _ _ _ Hi) as Ht. destruct (tb_slot _ _ _ _ _ Ht _ _ _ Hs Hb) as (_ & t & l & Hl & _ & _ & <-).
  destruct (tb_local _ _ _ _ _ Ht _ _ Hl) as (_ & _ & [q Hq] & _). exists q. split; [done|].
  unfold topic_hub_post_locked, room. rewrite Hs. cbn [mbind option_bind]. rewrite Hb, Hq. cbn [mbind option_bind]. by case_if.
Qed.

(** One addressed slot of a best-effort publish. *)
Lemma fanout_post_exact Q R hq hc ret w m slot g f s b :
  inv Q R (hand f) hq hc ret w -> slots w !! slot = Some s -> inbox s = Some b ->
  exists w' f' p, fanout_post m false slot g f w = Some (w', f') /\ f_payload f' = Some p /\
    (forall p0, f_payload f = Some p0 -> p = p0) /\ f_skipped f' = f_skipped f /\
    f_posted f' = f_posted f + (if room w b then 1 else 0) /\ f_dropped f' = f_dropped f + (if room w b then 0 else 1) /\
    boxes w' = (if room w b then match boxes w !! b with Some q => <[b := q ++ [WS_CMD_PUBLISH p (m_except m) (m_topic m)]]> (boxes w) | None => boxes w end
                else boxes w).
Proof.
  intros Hi Hs Hb. unfold fanout_post. set (pr := match f_payload f with Some p => (w, p) | None => _ end).
  assert (inv Q R [snd pr] hq hc ret (fst pr) /\ slots (fst pr) = slots w /\ boxes (fst pr) = boxes w /\ forall p0, f_payload f = Some p0 -> snd pr = p0)
    as (Hi1 & Es & Eb & Ep).
  { subst pr. unfold hand in Hi. destruct (f_payload f) as [p|]; [split_and!; try done; by intros p0 [= ->]|]. split_and!; try done. by apply inv_payload_new. }
  destruct pr as [w1 p]. cbn [fst snd] in *.
  destruct (inv_payload_ref _ _ _ _ _ _ _ p Hi1) as (w2 & E2 & Hi2 & Hc2); [by left|]. rewrite E2. cbn [mbind option_bind].
  assert (boxes w2 = boxes w) as Eb2. { unfold ws_payload_ref in E2. destruct (payloads w1 !! p); [|done]. by injection E2 as <-. }
  assert (slots w2 = slots w) as Es2 by (by rewrite (m_slots _ _ Hc2)).
  destruct (post_exact _ _ _ _ _ _ _ slot (WS_CMD_PUBLISH p (m_except m) (m_topic m)) s b Hi2 ltac:(by rewrite Es2) Hb) as (q & Hq & Ep2).
  assert (room w2 b = room w b) as Er by (unfold room; by rewrite Eb2). rewrite Er in Ep2. rewrite Ep2. cbn [mbind option_bind]. rewrite Eb2 in *.
  destruct (room w b).
  - eexists _, _, p. split_and!; [done..|cbn; lia|cbn; lia|]. rewrite Hq. cbn. by rewrite ?Eb2.
  - destruct (inv_payload_release _ _ _ _ _ _ _ p Hi2) as (w4 & E4 & _ & _). rewrite E4. cbn [mbind option_bind].
    eexists _, _, p. split_and!; [done..|cbn; lia|cbn; lia|]. unfold ws_payload_release in E4. destruct (payloads w2 !! p); [|done].
    injection E4 as <-. cbn. by rewrite ?Eb2.
Qed.

Lemma room_same w w' (bs : list nat) : (forall b, b ∈ bs -> boxes w' !! b = boxes w !! b) -> forall b, b ∈ bs -> room w' b = room w b.
Proof. intros Hs b Hb. unfold room. by rewrite Hs. Qed.

Lemma filter_same (f g : nat -> bool) bs : (forall b, b ∈ bs -> f b = g b) -> List.filter f bs = List.filter g bs.
Proof.
  induction bs as [|b bs IH]; intros Hs; [done|]. cbn [List.filter]. rewrite (Hs b) by (by left).
  rewrite IH by (intros; apply Hs; by right). done.
Qed.

Lemma fanout_exact Q R hq hc ret own m probes left : forall slot f w,
  inv Q R (hand f) hq hc ret w -> fanout_ok slot f -> (left + slot = slots_used w)%nat ->
  exists w' f', fanout_loop own m probes false left slot f w = Some (w', f') /\
    let bs := addressees own probes w slot left in
    f_posted f' = f_posted f + n_room w bs /\ f_dropped f' = f_dropped f + n_full w bs /\
    (forall p, f_payload f = Some p -> f_payload f' = Some p) /\
    (forall b, b ∉ bs -> boxes w' !! b = boxes w !! b) /\
    (forall b, b ∈ bs -> exists p, f_payload f' = Some p /\ forall q, boxes w !! b = Some q ->
       boxes w' !! b = Some (if room w b then q ++ [WS_CMD_PUBLISH p (m_except m) (m_topic m)] else q)).
Proof.
  induction left as [|left IH]; intros slot f w Hi Hf Hl; cbn [fanout_loop].
  { exists w, f. split; [done|]. cbn. split_and!; try (unfold n_room, n_full; cbn; lia); try done. intros b Hb. by apply elem_of_nil in Hb. }
  pose proof (tb_used _ _ _ _ _ (i_table _ _ _ _ _ _ _ Hi)) as Hu.
  destruct (slot_live _ _ _ _ _ _ _ slot Hi ltac:(lia)) as [s Es]. rewrite Es. cbn [mbind option_bind].
  assert (fanout_ok (S slot) f) as Hf'. { destruct Hf. split; [done..|lia]. }
  rewrite addressees_cons.
  assert (addressed own probes w slot = if bool_decide (own = Some slot) || negb (ws_interest_matches (interest <$> slots w) slot probes) then None else inbox s)
    as -> by (unfold addressed; by rewrite Es).
  destruct (inbox s) as [b|] eqn:Eb.
  2: { cbn [mbind option_bind]. destruct (bool_decide (own = Some slot) || _); apply IH; [done|done|lia|done|done|lia]. }
  destruct (bool_decide (own = Some slot)); cbn [orb mbind option_bind]; [by apply IH; [..|lia]|].
  destruct (ws_interest_matches _ slot probes); cbn [negb mbind option_bind].
  2: { set (f1 := {| f_payload := _ |}). destruct (IH (S slot) f1 w) as (w' & f' & E & Hrest); [done|by destruct Hf'; split|lia|]. by exists w', f'. }
  destruct (inv_fanout_post _ _ _ _ _ _ m false slot (gen s) f Hi Hf ltac:(lia)) as (w1 & f1 & E1 & Hi1 & Hc1 & Hf1).
  destruct (fanout_post_exact _ _ _ _ _ _ m slot (gen s) f s b Hi Es Eb) as (w1' & f1' & p & E1' & Hp & Hp0 & _ & Hpost & Hdrop & Hbox).
  rewrite E1 in E1'. injection E1' as <- <-. rewrite E1. cbn [mbind option_bind].
  destruct (IH (S slot) f1 w1) as (w' & f' & E & Hr). { done. } { done. } { rewrite (m_used _ _ Hc1). lia. }
  exists w', f'. split; [done|]. cbn zeta in Hr. rewrite (addressees_same _ _ _ _ _ _ (m_slots _ _ Hc1)) in Hr.
  pose proof (addressed_later _ _ _ _ _ _ own probes w slot left b s Hi Es Eb) as Hnew.
  set (bs := addressees own probes w (S slot) left) in *. destruct Hr as (R1 & R2 & R3 & R4 & R5).
  assert (forall b', b' <> b -> boxes w1 !! b' = boxes w !! b') as Hother.
  { intros b' Hne. rewrite Hbox. destruct (room w b); [|done]. destruct (boxes w !! b); [|done]. by rewrite lookup_insert_ne. }
  assert (forall b', b' ∈ bs -> boxes w1 !! b' = boxes w !! b') as Hbs by (intros b' Hb'; apply Hother; by intros ->).
  pose proof (room_same _ _ _ Hbs) as Hroom.
  assert (n_room w1 bs = n_room w bs) as N1 by (unfold n_room; by rewrite (filter_same _ _ _ Hroom)).
  assert (n_full w1 bs = n_full w bs) as N2.
  { unfold n_full. rewrite (filter_same (fun b => negb (room w1 b)) (fun b => negb (room w b))); [done|]. intros b' Hb'. by rewrite Hroom. }
  rewrite N1 in R1. rewrite N2 in R2. split_and!.
  - rewrite R1, Hpost. unfold n_room. cbn [List.filter]. destruct (room w b); cbn [length]; lia.
  - rewrite R2, Hdrop. unfold n_full. cbn [List.filter]. destruct (room w b); cbn [length negb]; lia.
  - intros p0 Hp1. rewrite (R3 p) by done. by rewrite (Hp0 p0).
  - intros b' [Hne Hb']%not_elem_of_cons. rewrite R4 by done. by apply Hother.
  - intros b' Hb'. destruct (decide (b' = b)) as [->|Hne].
    + exists p. split; [by apply R3|]. intros q Hq. rewrite R4 by done. rewrite Hbox, Hq. destruct (room w b); [apply lookup_insert_eq|done].
    + apply elem_of_cons in Hb' as [->|Hb']; [done|]. destruct (R5 b' Hb') as (p' & Hp' & Hq'). exists p'. split; [done|].
      intros q Hq. rewrite <- (Hroom b' Hb'). apply Hq'. by rewrite Hbs.
Qed.


End props.

(** ** The trees of TopicTree behind the hub *)

Definition topic_tree_ops (try_send : nat -> bool * list nat) : TopicTreeOps := {|
  tree := TopicTree.ws_topic_tree_t;
  tree_create := TopicTree.ws_topic_tree_create;
  tree_publish := fun t topic _ _ except =>
    match TopicTree.ws_topic_publish try_send t topic except with
    | Some (t', g) => (t', TopicTree.hits g)
    | None => (t, 0)
    end;
  tree_count := fun t topic =>
    match TopicTree.ws_topic_count try_send t topic with
    | Some (t', g) => (t', TopicTree.hits g)
    | None => (t, 0)
    end;
|}.

(** ** Runs

    Two workers with mailboxes of capacity one; the second is interested in
    "news". *)

#[local] Instance hub_hash : ZendHash := fun k => Z.of_nat (length k) * 33 + 5381.
#[local] Instance demo_ops : TopicTreeOps := topic_tree_ops (fun _ => (true, [])).
#[local] Instance demo_capacity : MailboxCapacity := 1%nat.

Fixpoint exec (os : list op) (w : world) : option world :=
  match os with
  | [] => Some w
  | o :: rest => w' ← apply_op o w; exec rest w'
  end.

(** An operation that is enabled in every state. *)
Definition free (o : op) : bool :=
  match o with
  | OpCountResume _ | OpSendResume _ => false
  | OpTrySend _ _ cfg _ | OpSend _ _ cfg _ _ => queue_max cfg <? 2 ^ 32
  | _ => true
  end.

Lemma free_enabled o w : free o = true -> enabled o w.
Proof. destruct o; cbn; try done; lia. Qed.

Lemma exec_run os w w' : forallb free os = true -> exec os w = Some w' -> run w os w'.
Proof.
  revert w. induction os as [|o os IH]; intros w Hf E; cbn in Hf, E; [injection E as <-; apply run_nil|].
  apply andb_true_iff in Hf as [Hf Hr]. destruct (apply_op o w) as [w1|] eqn:E1; [|done]. cbn in E.
  eapply run_cons; [by apply free_enabled|done|by apply IH].
Qed.

Lemma run_reach w os w' : run w os w' -> reach w -> reach w'.
Proof. induction 1 as [|w o w1 os w' He Hs Hr IH]; [done|]. intros Hw. apply IH. by eapply reach_step. Qed.

Lemma exec_reach os w : forallb free os = true -> exec os topic_hub_create = Some w -> reach w.
Proof. intros Hf E. eapply run_reach; [by apply exec_run|apply reach_create]. Qed.

Definition demo_msg : message := {| m_topic := lit "news"; m_data := lit "hello"; m_binary := false; m_except := 0 |}.
Definition demo_cfg : send_config := {| timeout_ms := 1000; interval_ms := 50; queue_max := 8 |}.
Definition demo_env : loop_env := {| now_ms := 0; event_ok := true; timer_ok := true; start_ok := true |}.
Definition demo_attached : list op :=
  [OpAttach 0 true; OpAttach 1 true; OpResubscribe 1 TopicTree.ws_topic_tree_create (lit "news") 4 1].
(** The mailbox of the second worker is full and a sender of the first waits. *)
Definition demo_parked : list op := demo_attached ++ [OpPublish 0 demo_msg; OpSend 0 demo_msg demo_cfg demo_env true].

Definition at_end (os : list op) : world := match exec os topic_hub_create with Some w => w | None => topic_hub_create end.
Definition runs (os : list op) : bool := match exec os topic_hub_create with Some _ => true | None => false end.

Lemma at_end_exec os : runs os = true -> exec os topic_hub_create = Some (at_end os).
Proof. unfold runs, at_end. by destruct (exec os topic_hub_create). Qed.

Definition demo_sender : sender_t := {| s_entry := 0; s_done := 0; s_posted := 0; s_nfull := 1 |}.

Lemma hub_parked_reach : reach (at_end demo_parked).
Proof.
  apply (exec_reach demo_parked); [vm_compute; reflexivity|].
  apply at_end_exec. vm_compute. reflexivity.
Qed.

Lemma demo_waits : senders (at_end demo_parked) = [demo_sender] /\ events (at_end demo_parked) !! 0%nat = Some false.
Proof. split; vm_compute; reflexivity. Qed.

Lemma topic_hub_safe_witness : exists w', apply_op (OpDetach 1) (at_end demo_parked) = Some w' /\ reach w'.
Proof. apply (topic_hub_safe (at_end demo_parked) (OpDetach 1)); [apply hub_parked_reach|exact I]. Defined.

(** The message was delivered. *)
Definition demo_quiet : list op := demo_attached ++ [OpPublish 0 demo_msg; OpDrain 1].

Lemma map_all {A} (P : A -> Prop) (m : gmap nat A) l :
  map_to_list m = l -> Forall (fun p => P (snd p)) l -> forall i x, m !! i = Some x -> P x.
Proof. intros <- Hf i x Hx%elem_of_map_to_list. rewrite Forall_forall in Hf. exact (Hf _ Hx). Qed.

Lemma topic_hub_no_leak_witness :
  let w := at_end demo_quiet in
  stats w c_posted = 1 /\ payloads w = ∅ /\ queries w = ∅ /\ entries w = ∅ /\ events w = ∅.
Proof.
  intros w. split; [vm_compute; reflexivity|]. apply (topic_hub_no_leak w).
  - apply (exec_reach demo_quiet); [vm_compute; reflexivity|]. apply at_end_exec. vm_compute. reflexivity.
  - vm_compute. reflexivity.
  - vm_compute. reflexivity.
  - apply (map_all (fun q => q = []) (boxes w) [(1%nat, []); (0%nat, [])]); [vm_compute; reflexivity|].
    apply List.Forall_cons; [done|]. apply List.Forall_cons; [done|]. apply List.Forall_nil.
  - assert (forall t h, (retry_head <$> locals w) !! t = Some h -> h = None) as Hh.
    { apply (map_all (fun h => h = None) _ [(1%nat, None); (0%nat, None)]); [vm_compute; reflexivity|].
      apply List.Forall_cons; [done|]. apply List.Forall_cons; [done|]. apply List.Forall_nil. }
    intros t l Hl. apply (Hh t). rewrite lookup_fmap, Hl. reflexivity.
Defined.

Lemma topic_hub_sender_resolved_witness :
  exists t l x, locals (at_end demo_parked) !! t = Some l /\ retry_timer_armed l = true /\
    entries (at_end demo_parked) !! 0%nat = Some x /\
    forall now, e_deadline x <= now ->
      exists w', topic_hub_retry_tick t now false (at_end demo_parked) = Some w' /\ events w' !! 0%nat = Some true.
Proof.
  apply (topic_hub_sender_resolved (at_end demo_parked) demo_sender).
  - apply hub_parked_reach.
  - rewrite (proj1 demo_waits). by left.
  - cbn [s_done demo_sender]. rewrite (proj2 demo_waits). discriminate.
Defined.

Lemma topic_hub_retry_balance_witness :
  let w := at_end demo_parked in
  waiting w = 1 /\ u64 (stats w c_queued) =
    u64 (stats w c_delivered + stats w c_gone + stats w c_expired + stats w c_shutdown + waiting w).
Proof. intros w. split; [vm_compute; reflexivity|]. apply (topic_hub_retry_balance w), hub_parked_reach. Defined.

Lemma topic_hub_send_result_witness :
  exists w' r d g, send_finish demo_sender (at_end demo_parked) = Some (w', r) /\ r_delivered r = u32 (0 + d) /\ 0 <= d /\ 0 <= g /\
    d + g + r_pending r = 1 /\
    (r_status r = TOPIC_HUB_SEND_OK -> r_pending r = 0) /\ (r_status r = TOPIC_HUB_SEND_EXPIRED -> 0 < r_pending r) /\
    (r_status r = TOPIC_HUB_SEND_OK \/ r_status r = TOPIC_HUB_SEND_EXPIRED \/ r_status r = TOPIC_HUB_SEND_SHUTDOWN).
Proof.
  apply (topic_hub_send_result (at_end demo_parked) demo_sender); [apply hub_parked_reach|]. rewrite (proj1 demo_waits). by left.
Defined.

(** The second worker leaves and a third takes its slot. *)
Definition demo_reuse : list op := [OpDetach 1; OpAttach 2 true].
Definition demo_target : retry_target_t := {| t_slot := 1; t_gen := 1 |}.
Definition demo_entry : retry_entry_t :=
  {| e_next := None; e_refcount := 1; e_abandoned := false; e_shutdown := false; e_payload := 0; e_pending := [demo_target];
     e_delivered := 0; e_gone := 0; e_except := 0; e_deadline := 0; e_waiter := None; e_topic := lit "news" |}.

Lemma exec_app os os' w w' : exec os w = Some w' -> exec (os ++ os') w = exec os' w'.
Proof.
  revert w. induction os as [|o os IH]; intros w E; cbn in *; [by injection E as ->|]. destruct (apply_op o w) as [w1|]; [|done]. cbn in *. by apply IH.
Qed.

Lemma topic_hub_retry_same_worker_witness :
  exists w2 r, retry_targets demo_entry [demo_target] [] 0 0 (at_end (demo_parked ++ demo_reuse)) = Some (w2, r) /\
    forall b', b' <> 1%nat -> boxes w2 !! b' = boxes (at_end (demo_parked ++ demo_reuse)) !! b'.
Proof.
  set (w := at_end demo_parked). set (w1 := at_end (demo_parked ++ demo_reuse)).
  destruct (slots w !! 1%nat) as [s|] eqn:Es; [|vm_compute in Es; discriminate].
  assert ((fun s => (inbox s, gen s)) <$> slots w !! 1%nat = Some (Some 1%nat, 1)) as Eg by (vm_compute; reflexivity).
  rewrite Es in Eg. injection Eg as Eb Eg.
  assert (snd <$> retry_targets demo_entry [demo_target] [] 0 0 w1 = Some ([], 0, 1)) as Er by (vm_compute; reflexivity).
  destruct (retry_targets demo_entry [demo_target] [] 0 0 w1) as [[w2 r]|] eqn:Et; [|discriminate].
  exists w2, r. split; [reflexivity|].
  apply (topic_hub_retry_same_worker w w1 w2 demo_reuse demo_entry demo_target s 1 r).
  - apply hub_parked_reach.
  - exact Es.
  - exact Eb.
  - symmetry. exact Eg.
  - apply exec_run; [vm_compute; reflexivity|]. unfold w1. rewrite <- (exec_app demo_parked demo_reuse topic_hub_create w).
    + apply at_end_exec. vm_compute. reflexivity.
    + apply at_end_exec. vm_compute. reflexivity.
  - vm_compute. reflexivity.
  - exact Et.
Defined.


(** A blocking send reports success for a target it never reached: the only
    target's mailbox is full, its worker detaches while the message is parked, the
    next tick finds it gone, and the call returns the status that stands for delivery
    to every target, with nothing delivered and nothing pending. *)
Theorem topic_hub_send_ok_undelivered :
  exists w s w' r, reach w /\ s ∈ senders w /\ s_nfull s = 1 /\ s_posted s = 0 /\
    send_finish s w = Some (w', r) /\
    r = {| r_status := TOPIC_HUB_SEND_OK; r_delivered := 0; r_pending := 0 |}.
Proof.
  set (os := demo_parked ++ [OpDetach 1; OpTick 0 10 false]). set (w := at_end os).
  assert (snd <$> send_finish demo_sender w = Some {| r_status := TOPIC_HUB_SEND_OK; r_delivered := 0; r_pending := 0 |}) as Er by (vm_compute; reflexivity).
  destruct (send_finish demo_sender w) as [[w' r]|] eqn:E; [|discriminate]. injection Er as ->.
  exists w, demo_sender, w', {| r_status := TOPIC_HUB_SEND_OK; r_delivered := 0; r_pending := 0 |}. 
  split; [|split; [|split; [reflexivity|split; [reflexivity|split; [exact E|reflexivity]]]]].
  - apply (exec_reach os); [vm_compute; reflexivity|]. apply at_end_exec. vm_compute. reflexivity.
  - assert (senders w = [demo_sender]) as -> by (vm_compute; reflexivity). by left.
Qed.

End TopicHubProps.
