(* ===== verification/Slab.v ===== *)
(** * Slab allocators

    Models src/src/core/conn_arena.c and src/src/http3/http3_stream_pool.c: slots
    are carved out of chunks of a fixed number of slots, free slots are chained
    through a link field of the slot itself, and the connection arena also keeps
    its live slots in a doubly linked list.  Chunks and slots live in heaps, and an
    access through a dangling pointer, or a failed assertion, makes an operation
    [None]. *)

From S2P Require Import Prelude.

Module Chain.

(** ** Chains of pointers *)

Section chain.
Context {K : Type}.

(** [chain nxt h l]: following [nxt] from [h] visits [l] and ends at NULL. *)
Fixpoint chain (nxt : K -> option (option K)) (h : option K) (l : list K) : Prop :=
  match l with
  | [] => h = None
  | x :: r => h = Some x /\ exists n, nxt x = Some n /\ chain nxt n r
  end.

Lemma links_ext nxt nxt' h l :
  (forall x, x ∈ l -> nxt' x = nxt x) -> chain nxt h l -> chain nxt' h l.
Proof.
  revert h. induction l as [|x r IH]; intros h He; cbn [chain]; [done|].
  intros (-> & n & Hn & Hr). split; [done|]. exists n. rewrite He by left. split; [done|].
  apply IH; [|done]. intros y Hy. apply He. by right.
Qed.

Lemma chain_nil nxt l : chain nxt None l -> l = [].
Proof. destruct l; [done|]. by intros [[=] _]. Qed.

End chain.

(** ** The slots of a list of chunks *)

Section slots.
Context (n : nat).

(** A slot is a chunk and an index into it. *)
Definition chunk_slots (c : nat) : list (nat * nat) := map (pair c) (seq 0 n).

Definition slots_of (chs : list nat) : list (nat * nat) := concat (map chunk_slots chs).

Lemma elem_of_chunk_slots c p : p ∈ chunk_slots c <-> p.1 = c /\ (p.2 < n)%nat.
Proof.
  unfold chunk_slots. rewrite list_elem_of_In, in_map_iff. split.
  - intros (i & <- & Hi%in_seq). cbn. lia.
  - destruct p as [c' i]. cbn. intros [-> Hi]. exists i. rewrite in_seq. split; [done|lia].
Qed.

Lemma elem_of_slots_of chs p : p ∈ slots_of chs <-> p.1 ∈ chs /\ (p.2 < n)%nat.
Proof.
  unfold slots_of. induction chs as [|c chs IH]; cbn [map concat].
  - rewrite elem_of_nil. set_solver.
  - rewrite elem_of_app, IH, elem_of_chunk_slots, elem_of_cons. tauto.
Qed.

Lemma NoDup_chunk_slots c : NoDup (chunk_slots c).
Proof.
  unfold chunk_slots. apply (NoDup_fmap_2 (pair c)), NoDup_seq.
Qed.

Lemma NoDup_slots_of chs : NoDup chs -> NoDup (slots_of chs).
Proof.
  induction 1 as [|c chs Hc Hn IH]; cbn; [by constructor|]. apply NoDup_app. split_and!; [apply NoDup_chunk_slots| |done].
  intros p [E _]%elem_of_chunk_slots [Hp _]%elem_of_slots_of. by rewrite E in Hp.
Qed.

Lemma length_slots_of chs : length (slots_of chs) = (n * length chs)%nat.
Proof.
  unfold slots_of. induction chs as [|c chs IH]; cbn [map concat length]; [lia|].
  rewrite length_app, IH. unfold chunk_slots. rewrite length_map, length_seq. lia.
Qed.

Lemma slots_of_cons c chs : slots_of (c :: chs) = chunk_slots c ++ slots_of chs.
Proof. done. Qed.

End slots.

#[global] Arguments chunk_slots : simpl never.
#[global] Arguments slots_of : simpl never.

(** ** Loops over heaps *)

(** A loop whose body can go wrong. *)
Fixpoint for_each {A S : Type} (body : A -> S -> option S) (l : list A) (s : S) : option S :=
  match l with
  | [] => Some s
  | x :: r => s' ← body x s; for_each body r s'
  end.

End Chain.

Module Slab.
Import Chain.

(** ** The memory of a slab

    [T] is the slot type; a chunk holds a link to the next chunk and [N] slots. *)

Section slab.
Context {T : Type} (N : nat).

Record heap := { h_slots : gmap (nat * nat) T; h_chunks : gmap nat (option nat) }.

Definition empty_heap : heap := {| h_slots := ∅; h_chunks := ∅ |}.

Definition deref (p : nat * nat) (h : heap) : option T := h_slots h !! p.

(** Writing through a pointer needs the slot to exist. *)
Definition update (p : nat * nat) (f : T -> T) (h : heap) : option heap :=
  x ← h_slots h !! p; Some {| h_slots := <[p := f x]> (h_slots h); h_chunks := h_chunks h |}.

(** The memory a successful allocation of a chunk returns: an address that is not
    in use, and whatever the slots hold. *)
Record chunk_mem := { m_addr : nat; m_junk : nat -> T }.

Fixpoint put_slots (l : list (nat * nat)) (f : nat -> T) (m : gmap (nat * nat) T) : gmap (nat * nat) T :=
  match l with
  | [] => m
  | p :: r => <[p := f p.2]> (put_slots r f m)
  end.

(** The allocation of a chunk and [chunk->next_chunk = head]. *)
Definition new_chunk (cm : chunk_mem) (head : option nat) (h : heap) : heap :=
  {| h_slots := put_slots (chunk_slots N (m_addr cm)) (m_junk cm) (h_slots h);
     h_chunks := <[m_addr cm := head]> (h_chunks h) |}.

Definition free_chunk (a : nat) (h : heap) : option heap :=
  _ ← h_chunks h !! a;
  Some {| h_slots := filter (fun kv => kv.1.1 <> a) (h_slots h); h_chunks := delete a (h_chunks h) |}.

(** [while (c != NULL) { next = c->next_chunk; free(c); c = next; }] *)
Fixpoint free_chunks (fuel : nat) (c : option nat) (h : heap) : option heap :=
  match c, fuel with
  | None, _ => Some h
  | Some _, O => None
  | Some a, S f => n ← h_chunks h !! a; h' ← free_chunk a h; free_chunks f n h'
  end.

(** [for (c = chunks; c != NULL; c = c->next_chunk) n++] *)
Fixpoint count_chunks (fuel : nat) (c : option nat) (h : heap) : option Z :=
  match c, fuel with
  | None, _ => Some 0
  | Some _, O => None
  | Some a, S f => n ← h_chunks h !! a; k ← count_chunks f n h; Some (k + 1)
  end.

(** No more chunks can be walked than exist. *)
Definition chunk_fuel (h : heap) : nat := size (h_chunks h).

(** ** Ownership

    [owns h head chs all]: the chunk list from [head] is [chs], the slots [all]
    are exactly the slots of these chunks and exactly the slots in memory. *)
Definition owns (h : heap) (head : option nat) (chs : list nat) (all : list (nat * nat)) : Prop :=
  chain (fun c => h_chunks h !! c) head chs /\
  NoDup chs /\
  (forall c, is_Some (h_chunks h !! c) <-> c ∈ chs) /\
  all ≡ₚ slots_of N chs /\
  (forall p, is_Some (h_slots h !! p) <-> p ∈ all).

#[global] Instance owns_proper h head chs : Proper ((≡ₚ) ==> iff) (owns h head chs).
Proof.
  intros a b Hp. unfold owns. rewrite Hp. do 4 (apply and_iff_compat_l).
  apply forall_proper. intros p. by rewrite Hp.
Qed.

Lemma owns_empty : owns empty_heap None [] [].
Proof.
  split_and!; [done|constructor| |done|]; intros c; cbn; rewrite lookup_empty, elem_of_nil, is_Some_alt; done.
Qed.

Lemma owns_NoDup h head chs all : owns h head chs all -> NoDup all.
Proof. intros (_ & Hn & _ & -> & _). by apply NoDup_slots_of. Qed.

Lemma owns_length h head chs all : owns h head chs all -> length all = (N * length chs)%nat.
Proof. intros (_ & _ & _ & -> & _). apply length_slots_of. Qed.

Lemma owns_deref h head chs all p : owns h head chs all -> p ∈ all -> is_Some (deref p h).
Proof. intros (_ & _ & _ & _ & Hd) Hp. by apply Hd. Qed.

(** A write through a valid pointer succeeds and changes that slot only. *)
Lemma update_ok h p x f : deref p h = Some x ->
  exists h', update p f h = Some h' /\ h_chunks h' = h_chunks h /\ deref p h' = Some (f x) /\
    forall q, q <> p -> deref q h' = deref q h.
Proof.
  unfold deref, update. intros ->. cbn. eexists. split; [done|]. cbn. split_and!; [done|apply lookup_insert_eq|].
  intros q Hq. by rewrite lookup_insert_ne.
Qed.

Lemma owns_update h h' p f head chs all :
  owns h head chs all -> update p f h = Some h' -> owns h' head chs all.
Proof.
  intros (Hc & Hn & Hcd & Hall & Hd). unfold update. destruct (h_slots h !! p) as [x|] eqn:E; [|done].
  intros [= <-]. split_and!; cbn; try done. intros q. destruct (decide (q = p)) as [->|Hne].
  - rewrite lookup_insert_eq, <- Hd, E. done.
  - by rewrite lookup_insert_ne.
Qed.

Lemma put_slots_lookup l f m p : put_slots l f m !! p = if decide (p ∈ l) then Some (f p.2) else m !! p.
Proof.
  induction l as [|q r IH]; cbn [put_slots].
  - rewrite decide_False; [done|apply not_elem_of_nil].
  - destruct (decide (p = q)) as [->|Hne].
    + rewrite lookup_insert_eq, decide_True; [done|left].
    + rewrite lookup_insert_ne, IH by done. apply decide_ext. rewrite elem_of_cons. tauto.
Qed.

Lemma new_chunk_deref cm head h p :
  deref p (new_chunk cm head h) = if decide (p ∈ chunk_slots N (m_addr cm)) then Some (m_junk cm p.2) else deref p h.
Proof. apply put_slots_lookup. Qed.

Lemma owns_new_chunk h head chs all cm :
  owns h head chs all -> h_chunks h !! m_addr cm = None ->
  owns (new_chunk cm head h) (Some (m_addr cm)) (m_addr cm :: chs) (chunk_slots N (m_addr cm) ++ all).
Proof.
  intros (Hc & Hn & Hcd & Hall & Hd) Hf.
  assert (m_addr cm ∉ chs) as Hfr by (rewrite <- Hcd, Hf; apply is_Some_None).
  split_and!.
  - split; [done|]. exists head. cbn. rewrite lookup_insert_eq. split; [done|].
    eapply links_ext; [|exact Hc]. intros c Hx. cbn. rewrite lookup_insert_ne; [done|]. by intros <-.
  - by constructor.
  - intros c. cbn. destruct (decide (c = m_addr cm)) as [->|Hne].
    + rewrite lookup_insert_eq. split; [left|done].
    + rewrite lookup_insert_ne by done. rewrite Hcd, elem_of_cons. tauto.
  - by rewrite slots_of_cons, Hall.
  - intros p. cbn. rewrite put_slots_lookup, elem_of_app. case_decide; [split; [by left|done]|]. rewrite Hd. tauto.
Qed.

(** Releasing the chunk list releases everything. *)
Lemma free_chunks_ok fuel h head chs all :
  owns h head chs all -> (length chs <= fuel)%nat -> free_chunks fuel head h = Some empty_heap.
Proof.
  revert h head all fuel. induction chs as [|c chs IH]; intros h head all fuel (Hc & Hn & Hcd & Hall & Hd) Hf.
  - cbn in Hc. subst head. destruct h as [ms mc]; cbn in *. destruct fuel; cbn; f_equal; unfold empty_heap; f_equal;
      apply map_eq; intros k; rewrite lookup_empty; apply eq_None_not_Some; rewrite ?Hd, ?Hcd, ?Hall; apply not_elem_of_nil.
  - destruct Hc as (-> & n & En & Hc). destruct fuel as [|fuel]; cbn [length] in Hf; [lia|].
    apply NoDup_cons in Hn as [Hnc Hn]. cbn. rewrite En. cbn. unfold free_chunk. rewrite En. cbn.
    apply (IH _ _ (slots_of N chs)); [|lia]. split_and!; try done.
    + eapply links_ext; [|exact Hc]. intros x Hx. cbn. rewrite lookup_delete_ne; [done|]. by intros <-.
    + intros x. cbn. destruct (decide (x = c)) as [->|Hne].
      * rewrite lookup_delete_eq. rewrite is_Some_alt. done.
      * rewrite lookup_delete_ne by done. rewrite Hcd, elem_of_cons. tauto.
    + intros p. cbn. rewrite map_lookup_filter, elem_of_slots_of.
      specialize (Hd p). rewrite Hall, slots_of_cons, elem_of_app, elem_of_chunk_slots, elem_of_slots_of in Hd.
      destruct (h_slots h !! p) as [x|]; cbn.
      * destruct (decide (p.1 = c)) as [E|E].
        -- rewrite option_guard_False by (cbn; tauto). rewrite is_Some_alt. split; [done|]. intros [Hp _]. by rewrite E in Hp.
        -- rewrite option_guard_True by done. split; [|done]. intros _. destruct Hd as [[[? _]|]  _]; done.
      * split; [by intros [? ?]|]. intros Hp. apply Hd. by right.
Qed.

Lemma count_chunks_ok fuel h head chs :
  chain (fun c => h_chunks h !! c) head chs -> (length chs <= fuel)%nat ->
  count_chunks fuel head h = Some (Z.of_nat (length chs)).
Proof.
  revert head fuel. induction chs as [|c chs IH]; intros head fuel; cbn [chain length].
  - intros -> _. by destruct fuel.
  - intros (-> & n & En & Hc) Hf. destruct fuel as [|fuel]; [lia|]. cbn. rewrite En. cbn. rewrite (IH n) by (done || lia). cbn.
    f_equal. lia.
Qed.

Lemma chunk_fuel_ok h head chs all : owns h head chs all -> (length chs <= chunk_fuel h)%nat.
Proof.
  intros (_ & Hn & Hcd & _). unfold chunk_fuel. rewrite <- size_dom, <- (size_list_to_set (C := gset nat) chs) by done.
  apply subseteq_size. intros c. rewrite elem_of_list_to_set, elem_of_dom. apply Hcd.
Qed.

(** ** The free list

    Free slots are chained through a link field of the slot, read by [get] and
    written by [set]. *)

Section freelist.
Context (get : T -> option (nat * nat)) (set : option (nat * nat) -> T -> T).
Context (get_set : forall n x, get (set n x) = n).

(** [slot->next = free_head; free_head = slot] *)
Definition push_slot (p : nat * nat) (s : heap * option (nat * nat)) : option (heap * option (nat * nat)) :=
  h ← update p (set s.2) s.1; Some (h, Some p).

Definition free_list (h : heap) (head : option (nat * nat)) (free : list (nat * nat)) : Prop :=
  chain (fun p => get <$> deref p h) head free.

Lemma free_list_ext h h' head free :
  (forall x, x ∈ free -> deref x h' = deref x h) -> free_list h head free -> free_list h' head free.
Proof. intros He. apply links_ext. intros x Hx. by rewrite He. Qed.

(** Pushing a slot that is not on the list changes that slot only. *)
Lemma push_slot_ok h head free p :
  free_list h head free -> is_Some (deref p h) -> p ∉ free ->
  exists h', push_slot p (h, head) = Some (h', Some p) /\ free_list h' (Some p) (p :: free) /\
    (forall q, q <> p -> deref q h' = deref q h) /\
    (forall hd chs all, owns h hd chs all -> owns h' hd chs all).
Proof.
  intros Hch [x Hx] Hpf. destruct (update_ok h p x (set head) Hx) as (h' & Hu & _ & Hp & Hq).
  exists h'. unfold push_slot. cbn [fst snd]. rewrite Hu. split_and!; try done.
  - split; [done|]. exists head. rewrite Hp. cbn. rewrite get_set. split; [done|].
    eapply free_list_ext; [|exact Hch]. intros y Hy. apply Hq. by intros ->.
  - intros hd chs all Ho. by eapply owns_update.
Qed.

(** A loop that pushes distinct slots that are not on the list. *)
Lemma push_slots_ok ps h head free :
  free_list h head free -> (forall p, p ∈ ps -> is_Some (deref p h) /\ p ∉ free) -> NoDup ps ->
  exists h' head', for_each push_slot ps (h, head) = Some (h', head') /\ free_list h' head' (rev ps ++ free) /\
    (forall q, q ∉ ps -> deref q h' = deref q h) /\
    (forall hd chs all, owns h hd chs all -> owns h' hd chs all).
Proof.
  revert h head free. induction ps as [|p ps IH]; intros h head free Hch Hps Hn; [by exists h, head|].
  apply NoDup_cons in Hn as [Hp Hn]. destruct (Hps p) as (Hx & Hf); [by left|].
  destruct (push_slot_ok h head free p Hch Hx Hf) as (h1 & E1 & Hch1 & Q1 & Ho1).
  destruct (IH h1 (Some p) (p :: free) Hch1) as (h2 & head2 & E2 & Hch2 & Q2 & Ho2); [|done|].
  - intros q Hq. destruct (Hps q) as (Hx' & Hf'); [by right|]. assert (q <> p) by (by intros ->).
    rewrite Q1 by done. split; [done|]. rewrite elem_of_cons. tauto.
  - exists h2, head2. cbn [for_each]. rewrite E1. cbn [mbind option_bind]. rewrite E2. split_and!; auto.
    + cbn [rev]. by rewrite <- app_assoc.
    + intros q Hq. rewrite elem_of_cons in Hq. rewrite Q2, Q1; tauto.
Qed.

(** Linking a new chunk in and pushing all its slots. *)
Lemma grow_chunk_ok h chunks chs head used cm :
  owns h chunks chs used -> free_list h head [] -> h_chunks h !! m_addr cm = None ->
  exists h' head', for_each push_slot (chunk_slots N (m_addr cm)) (new_chunk cm chunks h, head) = Some (h', head') /\
    free_list h' head' (rev (chunk_slots N (m_addr cm))) /\
    owns h' (Some (m_addr cm)) (m_addr cm :: chs) (used ++ rev (chunk_slots N (m_addr cm))) /\
    (forall q, q ∈ used -> deref q h' = deref q h).
Proof.
  intros Ho Hfl Hm. assert (forall p, p ∈ chunk_slots N (m_addr cm) -> p ∉ used) as Hnew.
  { intros p [E _]%elem_of_chunk_slots Hp. destruct Ho as (_ & _ & Hcd & Hall & _).
    rewrite Hall, elem_of_slots_of, E, <- Hcd, Hm in Hp. destruct Hp as [[? ?] _]. done. }
  destruct (push_slots_ok (chunk_slots N (m_addr cm)) (new_chunk cm chunks h) head []) as (h' & head' & E & Hch & Q & Ho').
  - exact Hfl.
  - intros p Hp. rewrite new_chunk_deref, decide_True by done. split; [done|apply not_elem_of_nil].
  - apply NoDup_chunk_slots.
  - exists h', head'. rewrite app_nil_r in Hch. split_and!; try done.
    + rewrite <- Permutation_rev, (comm app used). by apply Ho', owns_new_chunk.
    + intros q Hq. assert (q ∉ chunk_slots N (m_addr cm)) as Hq' by (intros H%Hnew; done).
      by rewrite Q, new_chunk_deref, decide_False.
Qed.

End freelist.

End slab.

Arguments heap : clear implicits.
Arguments chunk_mem : clear implicits.

End Slab.
