(* ===== verification/ConnArena.v ===== *)
(** * The connection arena and the HTTP/3 stream pool

    Models src/src/core/conn_arena.c and src/src/http3/http3_stream_pool.c on the slab
    memory of Slab.  The fields of a slot other than its links are an argument
    [rest], with the value [memset] to zero leaves there. *)

From S2P Require Import Prelude Slab.

Module ConnArena.
Import Chain Slab.

Definition CONN_ARENA_CHUNK_SLOTS : nat := 256.

Section arena.
Context {rest : Type} (zero_rest : rest).

Abbreviation ptr := (nat * nat)%type.

(** ** Data *)

Record http_connection_t := { next_conn : option ptr; prev_conn : option ptr; c_rest : rest }.

Definition set_next (n : option ptr) (c : http_connection_t) : http_connection_t :=
  {| next_conn := n; prev_conn := prev_conn c; c_rest := c_rest c |}.
Definition set_prev (p : option ptr) (c : http_connection_t) : http_connection_t :=
  {| next_conn := next_conn c; prev_conn := p; c_rest := c_rest c |}.
Definition set_rest (r : rest) (c : http_connection_t) : http_connection_t :=
  {| next_conn := next_conn c; prev_conn := prev_conn c; c_rest := r |}.

Record conn_arena_t := {
  chunks : option nat;
  free_head : option ptr;
  alive_head : option ptr;
  live_count : Z;
  slot_count : Z;
}.

Definition set_free_head (p : option ptr) (a : conn_arena_t) : conn_arena_t :=
  {| chunks := chunks a; free_head := p; alive_head := alive_head a; live_count := live_count a; slot_count := slot_count a |}.
Definition set_alive_head (p : option ptr) (a : conn_arena_t) : conn_arena_t :=
  {| chunks := chunks a; free_head := free_head a; alive_head := p; live_count := live_count a; slot_count := slot_count a |}.
Definition set_live_count (n : Z) (a : conn_arena_t) : conn_arena_t :=
  {| chunks := chunks a; free_head := free_head a; alive_head := alive_head a; live_count := n; slot_count := slot_count a |}.

Abbreviation state := (heap http_connection_t * conn_arena_t)%type.

(** ** Operations *)

Definition conn_arena_init : conn_arena_t :=
  {| chunks := None; free_head := None; alive_head := None; live_count := 0; slot_count := 0 |}.

Definition conn_arena_cleanup (s : state) : option state :=
  let '(h, a) := s in
  if negb (bool_decide (alive_head a = None)) || negb (live_count a =? 0) then None
  else
    h' ← free_chunks (chunk_fuel h) (chunks a) h;
    Some (h', {| chunks := None; free_head := None; alive_head := alive_head a;
                 live_count := live_count a; slot_count := 0 |}).

(** [mem] is what [pemalloc] returns. *)
Definition conn_arena_grow (mem : option (chunk_mem http_connection_t)) (s : state) : option (state * bool) :=
  let '(h, a) := s in
  match mem with
  | None => Some (s, false)
  | Some cm =>
      let h := new_chunk CONN_ARENA_CHUNK_SLOTS cm (chunks a) h in
      '(h, fh) ← for_each (push_slot set_next) (chunk_slots CONN_ARENA_CHUNK_SLOTS (m_addr cm)) (h, free_head a);
      Some (h, {| chunks := Some (m_addr cm); free_head := fh; alive_head := alive_head a; live_count := live_count a;
                  slot_count := u64 (slot_count a + Z.of_nat CONN_ARENA_CHUNK_SLOTS) |}, true)
  end.

Definition alloc_slot (s : state) : option (state * option ptr) :=
  let '(h, a) := s in
  slot ← free_head a;
  c ← deref slot h;
  let a := set_free_head (next_conn c) a in
  h ← update slot (fun _ => {| next_conn := None; prev_conn := None; c_rest := zero_rest |}) h;
  h ← update slot (set_next (alive_head a)) h;
  h ← update slot (set_prev None) h;
  h ← match alive_head a with
      | Some q => update q (set_prev (Some slot)) h
      | None => Some h
      end;
  let a := set_alive_head (Some slot) a in
  Some (h, set_live_count (u64 (live_count a + 1)) a, Some slot).

Definition conn_arena_alloc (mem : option (chunk_mem http_connection_t)) (s : state) : option (state * option ptr) :=
  if bool_decide (free_head s.2 = None) then
    '(s, ok) ← conn_arena_grow mem s;
    if (ok : bool) then alloc_slot s else Some (s, None)
  else alloc_slot s.

Definition conn_arena_free (conn : ptr) (s : state) : option state :=
  let '(h, a) := s in
  c ← deref conn h;
  '(h, a) ← match prev_conn c with
            | Some q => h ← update q (set_next (next_conn c)) h; Some (h, a)
            | None => if bool_decide (alive_head a = Some conn) then Some (h, set_alive_head (next_conn c) a) else None
            end;
  c ← deref conn h;
  h ← match next_conn c with
      | Some n => update n (set_prev (prev_conn c)) h
      | None => Some h
      end;
  let a := set_live_count (u64 (live_count a - 1)) a in
  '(h, fh) ← push_slot set_next conn (h, free_head a);
  Some (h, set_free_head fh a).

Record conn_arena_stats_t := { st_live : Z; st_slots : Z; st_chunks : Z }.

Definition conn_arena_get_stats (s : state) : option conn_arena_stats_t :=
  n ← count_chunks (chunk_fuel s.1) (chunks s.2) s.1;
  Some {| st_live := live_count s.2; st_slots := slot_count s.2; st_chunks := n |}.

(** The owner of a connection writes its fields. *)
Definition conn_write (p : ptr) (r : rest) (s : state) : option state :=
  h ← update p (set_rest r) s.1; Some (h, s.2).

(** A walk of the live list, as the drain and shutdown paths do. *)
Fixpoint walk_alive (fuel : nat) (p : option ptr) (h : heap http_connection_t) : option (list (ptr * rest)) :=
  match p, fuel with
  | None, _ => Some []
  | Some _, O => None
  | Some q, S f => c ← deref q h; l ← walk_alive f (next_conn c) h; Some ((q, c_rest c) :: l)
  end.

(** ** Doubly linked segments

    [dseg h pv p l pv' p']: from [p], whose predecessor is [pv], the links visit
    [l] and stop before [p'], whose predecessor is then [pv']. *)
Fixpoint dseg (h : heap http_connection_t) (pv p : option ptr) (l : list (ptr * rest)) (pv' p' : option ptr) : Prop :=
  match l with
  | [] => pv = pv' /\ p = p'
  | (q, r) :: l' =>
      p = Some q /\ exists c, deref q h = Some c /\ prev_conn c = pv /\ c_rest c = r /\ dseg h (Some q) (next_conn c) l' pv' p'
  end.

Lemma dseg_app h l1 l2 pv p pv' p' :
  dseg h pv p (l1 ++ l2) pv' p' <-> exists a b, dseg h pv p l1 a b /\ dseg h a b l2 pv' p'.
Proof.
  revert pv p. induction l1 as [|[q r] l1 IH]; intros pv p; cbn [app dseg].
  - split; [by eauto|]. by intros (a & b & [-> ->] & ?).
  - setoid_rewrite IH. naive_solver.
Qed.

Lemma dseg_ext h h' pv p l pv' p' :
  (forall x, x ∈ l.*1 -> deref x h' = deref x h) -> dseg h pv p l pv' p' -> dseg h' pv p l pv' p'.
Proof.
  revert pv p. induction l as [|[q r] l IH]; intros pv p He; cbn [dseg]; [done|].
  intros (-> & c & Hc & Hp & Hr & Hl). split; [done|]. exists c. rewrite He; [|by cbn; left]. split_and!; try done.
  apply IH; [|done]. intros x Hx. apply He. cbn. by right.
Qed.

(** The predecessor at the end of a segment is its last element. *)
Lemma dseg_last h pv p l pv' p' : dseg h pv p l pv' p' -> pv' = match last l with Some (q, _) => Some q | None => pv end.
Proof.
  revert pv p. induction l as [|[q r] l IH]; intros pv p; cbn [dseg]; [by intros [-> _]|].
  intros (_ & c & _ & _ & _ & Hl). rewrite (IH _ _ Hl), last_cons. by destruct (last l) as [[? ?]|].
Qed.

Lemma walk_alive_ok fuel h pv p l pv' :
  dseg h pv p l pv' None -> (length l <= fuel)%nat -> walk_alive fuel p h = Some l.
Proof.
  revert pv p fuel. induction l as [|[q r] l IH]; intros pv p fuel; cbn [dseg length].
  - intros [_ ->] _. by destruct fuel.
  - intros (-> & c & Hc & _ & <- & Hl) Hf. destruct fuel as [|fuel]; [lia|]. cbn. rewrite Hc. cbn.
    rewrite (IH _ _ fuel Hl) by lia. done.
Qed.

(** ** The invariant

    [live] is the list of the slots handed out and not returned, newest first, with
    what their owners last wrote; [free] and [chs] are the free list and the chunks. *)
Record arena_inv (s : state) (live : list (ptr * rest)) (free : list ptr) (chs : list nat) : Prop := {
  inv_free : free_list next_conn s.1 (free_head s.2) free;
  inv_live : exists e, dseg s.1 None (alive_head s.2) live e None;
  inv_owns : owns CONN_ARENA_CHUNK_SLOTS s.1 (chunks s.2) chs (live.*1 ++ free);
  inv_live_count : live_count s.2 = u64 (Z.of_nat (length live));
  inv_slot_count : slot_count s.2 = u64 (Z.of_nat CONN_ARENA_CHUNK_SLOTS * Z.of_nat (length chs));
}.

Lemma arena_inv_init : arena_inv (empty_heap, conn_arena_init) [] [] [].
Proof. split; cbn; try done; [by exists None|apply owns_empty]. Qed.

Lemma u64_add_mod a b : u64 (u64 a + b) = u64 (a + b).
Proof. unfold u64. by rewrite Zplus_mod_idemp_l. Qed.

Lemma u64_sub_mod a b : u64 (u64 a - b) = u64 (a - b).
Proof. unfold u64. by rewrite Zminus_mod_idemp_l. Qed.

Lemma grow_ok mem s live chs :
  arena_inv s live [] chs ->
  (forall cm, mem = Some cm -> h_chunks s.1 !! m_addr cm = None) ->
  match mem with
  | None => conn_arena_grow mem s = Some (s, false)
  | Some cm => exists s', conn_arena_grow mem s = Some (s', true) /\
      arena_inv s' live (rev (chunk_slots CONN_ARENA_CHUNK_SLOTS (m_addr cm))) (m_addr cm :: chs)
  end.
Proof.
  destruct s as [h a]. intros [Hch [e Hd] Ho Hl Hs] Hm. cbn [fst snd] in *. destruct mem as [cm|]; [|done].
  rewrite app_nil_r in Ho.
  destruct (grow_chunk_ok _ next_conn set_next (fun _ _ => eq_refl) h (chunks a) chs (free_head a) live.*1 cm Ho Hch (Hm cm eq_refl))
    as (h' & fh & E & Hch' & Ho' & Q).
  unfold conn_arena_grow. rewrite E. cbn [mbind option_bind]. eexists. split; [reflexivity|]. split; cbn [fst snd]; try done.
  - exists e. by eapply dseg_ext.
  - cbn. rewrite Hs, u64_add_mod. f_equal. lia.
Qed.

(** Giving the head of a segment another predecessor. *)
Lemma relink_prev h p pv pv1 l e :
  dseg h pv p l e None -> NoDup l.*1 ->
  exists h', match p with Some q => update q (set_prev pv1) h | None => Some h end = Some h' /\
    (exists e', dseg h' pv1 p l e' None) /\ (forall q, q ∉ l.*1 -> deref q h' = deref q h) /\
    (forall head chs all, owns CONN_ARENA_CHUNK_SLOTS h head chs all -> owns CONN_ARENA_CHUNK_SLOTS h' head chs all).
Proof.
  destruct l as [|[q r] l]; cbn [dseg].
  - intros [_ ->] _. exists h. split_and!; eauto.
  - intros (-> & c & Hc & _ & Hr & Hl) [Hq _]%NoDup_cons.
    destruct (update_ok h q c (set_prev pv1) Hc) as (h' & U & _ & P & Q). exists h'. split; [done|]. split_and!.
    + exists e. split; [done|]. rewrite P. eexists. split_and!; try done. eapply dseg_ext; [|exact Hl].
      intros x Hx. apply Q. by intros ->.
    + intros x Hx. apply Q. intros ->. apply Hx. by left.
    + intros head chs all Ho. by eapply owns_update.
Qed.

(** Giving the last element of a segment another successor. *)
Lemma relink_next h p l e p' n :
  dseg h None p l e p' -> NoDup l.*1 ->
  match e with
  | None => l = [] /\ p = p'
  | Some q => exists h', update q (set_next n) h = Some h' /\ dseg h' None p l e n /\
      (forall x, x ∉ l.*1 -> deref x h' = deref x h) /\
      (forall head chs all, owns CONN_ARENA_CHUNK_SLOTS h head chs all -> owns CONN_ARENA_CHUNK_SLOTS h' head chs all)
  end.
Proof.
  destruct l as [|[q r] l _] using rev_ind; [by intros [<- ->]|].
  rewrite dseg_app, fmap_app. intros (a & b & Hl & -> & c & Hc & Hpv & Hr & <- & _) (Hn & Hq & _)%NoDup_app.
  destruct (update_ok h q c (set_next n) Hc) as (h' & U & _ & P & Q). exists h'. split; [done|]. split_and!.
  - rewrite dseg_app. exists a, (Some q). split.
    + eapply dseg_ext; [|exact Hl]. intros x Hx. apply Q. intros ->. apply (Hq _ Hx). by left.
    + split; [done|]. rewrite P. eexists. split_and!; try done.
  - intros x Hx. apply Q. intros ->. apply Hx. rewrite elem_of_app. right. by left.
  - intros head chs all Ho. by eapply owns_update.
Qed.

(** Linking a slot taken from the free list in front of the live list. *)
Lemma alloc_slot_ok s live p free chs :
  arena_inv s live (p :: free) chs ->
  exists s', alloc_slot s = Some (s', Some p) /\ arena_inv s' ((p, zero_rest) :: live) free chs.
Proof.
  destruct s as [h a]. intros [Hch [e Hd] Ho Hl Hs]. cbn [fst snd] in *.
  destruct Hch as (Ef & n & Hn & Hch). pose proof (owns_NoDup _ _ _ _ _ Ho) as Hnd.
  apply NoDup_app in Hnd as (Hnl & Hdis & Hnf). apply NoDup_cons in Hnf as [Hpf Hnf].
  assert (p ∉ live.*1) as Hpl by (intros Hx; apply (Hdis _ Hx); left).
  destruct (deref p h) as [c|] eqn:Hc; [|done]. cbn in Hn. injection Hn as Hn.
  destruct (update_ok h p c (fun _ => {| next_conn := None; prev_conn := None; c_rest := zero_rest |}) Hc) as (h1 & U1 & _ & P1 & Q1).
  destruct (update_ok h1 p _ (set_next (alive_head a)) P1) as (h2 & U2 & _ & P2 & Q2).
  destruct (update_ok h2 p _ (set_prev None) P2) as (h3 & U3 & _ & P3 & Q3).
  assert (forall q, q <> p -> deref q h3 = deref q h) as Q by (intros q Hq; by rewrite Q3, Q2, Q1).
  pose proof (owns_update _ _ _ _ _ _ _ _ (owns_update _ _ _ _ _ _ _ _ (owns_update _ _ _ _ _ _ _ _ Ho U1) U2) U3) as Ho3.
  destruct (relink_prev h3 (alive_head a) None (Some p) live e) as (h4 & U4 & Hd4 & Q4 & Ho4).
  { eapply dseg_ext; [|exact Hd]. intros x Hx. apply Q. by intros ->. }
  { done. }
  unfold alloc_slot. rewrite Ef. cbn. rewrite Hc. cbn. rewrite U1. cbn. rewrite U2. cbn. rewrite U3. cbn. rewrite U4. cbn.
  eexists. split; [reflexivity|]. split; cbn [fst snd].
  - cbn. rewrite Hn. eapply free_list_ext; [|exact Hch]. intros x Hx. rewrite Q4, Q; [done| |].
    + by intros ->.
    + intros Hxl. apply (Hdis _ Hxl). by right.
  - destruct Hd4 as [e' Hd4]. exists e'. cbn. split; [done|]. rewrite Q4, P3 by done. eexists. split; [done|]. cbn. done.
  - cbn. specialize (Ho4 _ _ _ Ho3). by rewrite Permutation_middle.
  - cbn. rewrite Hl, u64_add_mod. f_equal. lia.
  - done.
Qed.

Lemma conn_arena_alloc_ok mem s live free chs :
  arena_inv s live free chs ->
  (forall cm, mem = Some cm -> h_chunks s.1 !! m_addr cm = None) ->
  exists s' r, conn_arena_alloc mem s = Some (s', r) /\
    match r with
    | None => mem = None /\ free = [] /\ s' = s
    | Some p => p ∉ live.*1 /\ exists free' chs', arena_inv s' ((p, zero_rest) :: live) free' chs'
    end.
Proof.
  intros I Hm. assert (exists s1 free1 chs1, arena_inv s1 live free1 chs1 /\
      conn_arena_alloc mem s = (if bool_decide (free1 = []) then Some (s1, None) else alloc_slot s1) /\
      (free1 = [] -> mem = None /\ free = [] /\ s1 = s)) as (s1 & free1 & chs1 & I1 & E & Hf).
  { unfold conn_arena_alloc. destruct free as [|p free].
    - rewrite bool_decide_eq_true_2 by apply (inv_free _ _ _ _ I).
      pose proof (grow_ok mem s live chs I Hm) as Hg. destruct mem as [cm|].
      + destruct Hg as (s' & -> & I'). exists s'. do 2 eexists. split; [exact I'|]. cbn [mbind option_bind].
        assert (rev (chunk_slots CONN_ARENA_CHUNK_SLOTS (m_addr cm)) <> []) as Hne.
        { intros E%(f_equal length). rewrite length_rev in E. unfold chunk_slots in E. by rewrite length_map, length_seq in E. }
        rewrite bool_decide_eq_false_2 by done. done.
      + rewrite Hg. exists s, [], chs. done.
    - destruct (inv_free _ _ _ _ I) as [-> _]. rewrite bool_decide_eq_false_2 by done. exists s, (p :: free), chs.
      by rewrite bool_decide_eq_false_2. }
  destruct free1 as [|p free1].
  - exists s1, None. split; [done|]. by apply Hf.
  - destruct (alloc_slot_ok s1 live p free1 chs1 I1) as (s2 & E2 & I2). exists s2, (Some p).
    rewrite E, bool_decide_eq_false_2 by done. split_and!; [done| |eauto].
    pose proof (owns_NoDup _ _ _ _ _ (inv_owns _ _ _ _ I2)) as Hn. cbn in Hn. apply NoDup_cons in Hn as [Hp _].
    rewrite elem_of_app in Hp. tauto.
Qed.

Lemma conn_arena_free_ok s l1 p r l2 free chs :
  arena_inv s (l1 ++ (p, r) :: l2) free chs ->
  exists s', conn_arena_free p s = Some s' /\ arena_inv s' (l1 ++ l2) (p :: free) chs.
Proof.
  destruct s as [h a]. intros [Hch [e Hd] Ho Hl Hs]. cbn [fst snd] in *.
  pose proof (owns_NoDup _ _ _ _ _ Ho) as Hnd. rewrite fmap_app in Hnd. cbn [fmap list_fmap fst] in Hnd.
  rewrite dseg_app in Hd. destruct Hd as (pv & b & Hd1 & -> & c & Hc & Hpv & Hr & Hd2).
  apply NoDup_app in Hnd as ((Hn1 & Hx1 & Hn2)%NoDup_app & Hxf & Hnf).
  apply NoDup_cons in Hn2 as [Hp2 Hn2].
  assert (p ∉ l1.*1) as Hp1 by (intros Hx; apply (Hx1 _ Hx); left).
  (* the predecessor *)
  assert (exists h1 ah, match prev_conn c with
            | Some q => h ← update q (set_next (next_conn c)) h; Some (h, a)
            | None => if bool_decide (alive_head a = Some p) then Some (h, set_alive_head (next_conn c) a) else None
            end = Some (h1, set_alive_head ah a) /\ dseg h1 None ah l1 pv (next_conn c) /\
            (forall x, x ∉ l1.*1 -> deref x h1 = deref x h) /\
            owns CONN_ARENA_CHUNK_SLOTS h1 (chunks a) chs ((l1 ++ (p, r) :: l2).*1 ++ free)) as (h1 & ah & E1 & Hd1' & Q1 & Ho1).
  { rewrite Hpv. pose proof (relink_next h _ l1 pv _ (next_conn c) Hd1 Hn1) as Hre. destruct pv as [q|].
    - destruct Hre as (h1 & -> & Hd' & Q & Ho'). exists h1, (alive_head a). cbn. destruct a; cbn. eauto.
    - destruct Hre as [-> Ea]. rewrite bool_decide_eq_true_2 by done. exists h, (next_conn c). done. }
  assert (p ∉ l2.*1 ++ free) as Hpx.
  { rewrite elem_of_app. intros [?|Hf]; [done|]. apply (Hxf p); [|done]. rewrite elem_of_app. right. by left. }
  (* the successor *)
  destruct (relink_prev h1 (next_conn c) (Some p) pv l2 e) as (h2 & E2 & [e' Hd2'] & Q2 & Ho2).
  { eapply dseg_ext; [|exact Hd2]. intros x Hx. apply Q1. intros Hx'. apply (Hx1 _ Hx'). by right. }
  { done. }
  assert (dseg h2 None ah l1 pv (next_conn c)) as Hd1''.
  { eapply dseg_ext; [|exact Hd1']. intros x Hx. apply Q2. intros Hx'. apply (Hx1 _ Hx). by right. }
  assert (deref p h2 = Some c) as Hc2 by (rewrite Q2, Q1; done).
  (* the free list *)
  destruct (push_slot_ok CONN_ARENA_CHUNK_SLOTS next_conn set_next (fun _ _ => eq_refl) h2 (free_head a) free p) as (h' & E3 & Hch' & Q3 & Ho').
  { eapply free_list_ext; [|exact Hch]. intros x Hx. rewrite Q2, Q1; [done| |];
      intros Hx'; apply (Hxf x); try done; rewrite elem_of_app; [by left|right; by right]. }
  { by exists c. }
  { intros Hf. apply Hpx. rewrite elem_of_app. by right. }
  eexists. split.
  - unfold conn_arena_free. rewrite Hc. cbn [mbind option_bind]. rewrite E1. cbn [mbind option_bind]. rewrite Q1, Hc by done.
    cbn [mbind option_bind]. rewrite Hpv, E2. cbn [mbind option_bind free_head set_live_count set_alive_head]. rewrite E3. reflexivity.
  - split; cbn [fst snd]; try done.
    + exists e'. eapply dseg_ext; [|cbn; rewrite dseg_app; eauto]. intros x Hx. apply Q3. intros ->.
      rewrite fmap_app, elem_of_app in Hx. tauto.
    + cbn. apply Ho2, Ho' in Ho1. revert Ho1.
      enough ((l1 ++ (p, r) :: l2).*1 ++ free ≡ₚ (l1 ++ l2).*1 ++ p :: free) as -> by done.
      rewrite !fmap_app. cbn. by rewrite <- !Permutation_middle.
    + cbn. rewrite Hl, u64_sub_mod, !length_app. cbn [length]. f_equal. lia.
Qed.

Lemma conn_write_ok s l1 p r l2 free chs r' :
  arena_inv s (l1 ++ (p, r) :: l2) free chs ->
  exists s', conn_write p r' s = Some s' /\ arena_inv s' (l1 ++ (p, r') :: l2) free chs.
Proof.
  destruct s as [h a]. intros [Hch [e Hd] Ho Hl Hs]. cbn [fst snd] in *.
  pose proof (owns_NoDup _ _ _ _ _ Ho) as Hnd. rewrite fmap_app in Hnd. cbn in Hnd.
  apply NoDup_app in Hnd as ((Hn1 & Hx1 & [Hp2 Hn2]%NoDup_cons)%NoDup_app & Hxf & Hnf).
  rewrite dseg_app in Hd. destruct Hd as (pv & b & Hd1 & -> & c & Hc & Hpv & Hr & Hd2).
  destruct (update_ok h p c (set_rest r') Hc) as (h' & U & _ & P & Q).
  unfold conn_write. cbn [fst snd]. rewrite U. cbn. eexists. split; [done|]. split; cbn [fst snd].
  - assert (forall x, x ∈ free -> x <> p) as Hfp.
    { intros x Hx ->. apply (Hxf p); [|done]. rewrite elem_of_app. right. by left. }
    eapply free_list_ext; [|exact Hch]. intros x Hx. rewrite Q; auto.
  - exists e. rewrite dseg_app. exists pv, (Some p). split.
    + eapply dseg_ext; [|exact Hd1]. intros x Hx. apply Q. intros ->. apply (Hx1 _ Hx). by left.
    + split; [done|]. rewrite P. eexists. split_and!; try done. eapply dseg_ext; [|exact Hd2].
      intros x Hx. apply Q. by intros ->.
  - revert Ho. rewrite !fmap_app. cbn. intros Ho. by eapply owns_update.
  - rewrite Hl, !length_app. done.
  - done.
Qed.

(** ** Reachable arenas

    Owners allocate, write to and free the connections they were given; [live] is
    the history of that. *)
Definition fresh_mem (mem : option (chunk_mem http_connection_t)) (s : state) : Prop :=
  forall cm, mem = Some cm -> h_chunks s.1 !! m_addr cm = None.

Inductive arena_reach : state -> list (ptr * rest) -> Prop :=
  | reach_init : arena_reach (empty_heap, conn_arena_init) []
  | reach_alloc s live mem s' p : arena_reach s live -> fresh_mem mem s ->
      conn_arena_alloc mem s = Some (s', Some p) -> arena_reach s' ((p, zero_rest) :: live)
  | reach_null s live mem s' : arena_reach s live -> fresh_mem mem s ->
      conn_arena_alloc mem s = Some (s', None) -> arena_reach s' live
  | reach_write s l1 p r l2 r' s' : arena_reach s (l1 ++ (p, r) :: l2) ->
      conn_write p r' s = Some s' -> arena_reach s' (l1 ++ (p, r') :: l2)
  | reach_free s l1 p r l2 s' : arena_reach s (l1 ++ (p, r) :: l2) ->
      conn_arena_free p s = Some s' -> arena_reach s' (l1 ++ l2).

Lemma arena_reach_inv s live : arena_reach s live -> exists free chs, arena_inv s live free chs.
Proof.
  induction 1 as [|s live mem s' p _ (free & chs & I) Hm E|s live mem s' _ (free & chs & I) Hm E
    |s l1 p r l2 r' s' _ (free & chs & I) E|s l1 p r l2 s' _ (free & chs & I) E].
  - do 2 eexists. apply arena_inv_init.
  - destruct (conn_arena_alloc_ok mem s live free chs I Hm) as (s1 & r & E1 & Hr). rewrite E in E1. injection E1 as <- <-.
    by destruct Hr as [_ Hr].
  - destruct (conn_arena_alloc_ok mem s live free chs I Hm) as (s1 & r & E1 & Hr). rewrite E in E1. injection E1 as <- <-.
    destruct Hr as (_ & _ & ->). eauto.
  - destruct (conn_write_ok s l1 p r l2 free chs r' I) as (s1 & E1 & I1). rewrite E in E1. injection E1 as <-. eauto.
  - destruct (conn_arena_free_ok s l1 p r l2 free chs I) as (s1 & E1 & I1). rewrite E in E1. injection E1 as <-. eauto.
Qed.

Lemma live_split (p : ptr) (live : list (ptr * rest)) : p ∈ live.*1 -> exists l1 r l2, live = l1 ++ (p, r) :: l2.
Proof.
  intros ([p' r] & -> & Hin)%list_elem_of_fmap. apply list_elem_of_split in Hin as (l1 & l2 & ->). eauto.
Qed.

(** C29: the connection arena is safe and implements its abstract state.  After any
    sequence of allocations (with chunk allocation succeeding or failing), writes to
    and frees of connections that are live, the live list in memory is exactly the
    connections handed out and not returned, newest first and with what their owners
    wrote; no further operation on a live connection touches freed memory or fails an
    assertion; an allocation gives a slot that is not in use, and NULL only when the
    chunk allocation failed; the statistics are exact modulo 2^64 and there are never
    more live connections than slots; with no connection left, cleanup releases all
    memory. *)
Theorem conn_arena_refines s live : arena_reach s live ->
  NoDup live.*1 /\
  walk_alive (length live) (alive_head s.2) s.1 = Some live /\
  (forall mem, fresh_mem mem s -> exists s' r, conn_arena_alloc mem s = Some (s', r) /\
     (r = None -> mem = None) /\ (forall p, r = Some p -> p ∉ live.*1)) /\
  (forall p r, p ∈ live.*1 -> is_Some (conn_write p r s) /\ is_Some (conn_arena_free p s)) /\
  (exists st, conn_arena_get_stats s = Some st /\ st_live st = u64 (Z.of_nat (length live)) /\
     st_slots st = u64 (256 * st_chunks st) /\ Z.of_nat (length live) <= 256 * st_chunks st) /\
  (live = [] -> conn_arena_cleanup s = Some (empty_heap, conn_arena_init)).
Proof.
  intros (free & chs & I)%arena_reach_inv. pose proof (inv_owns _ _ _ _ I) as Ho.
  pose proof (owns_NoDup _ _ _ _ _ Ho) as Hn. pose proof (owns_length _ _ _ _ _ Ho) as Hlen.
  pose proof (chunk_fuel_ok _ _ _ _ _ Ho) as Hfuel. split_and!.
  - by apply NoDup_app in Hn as [? _].
  - destruct (inv_live _ _ _ _ I) as [e He]. by eapply walk_alive_ok.
  - intros mem Hm. destruct (conn_arena_alloc_ok mem s live free chs I Hm) as (s' & r & E & Hr). exists s', r.
    split_and!; [done| |]; [intros ->|intros p ->]; apply Hr.
  - intros p r (l1 & r0 & l2 & ->)%live_split. split.
    + destruct (conn_write_ok s l1 p r0 l2 free chs r I) as (s' & -> & _). done.
    + destruct (conn_arena_free_ok s l1 p r0 l2 free chs I) as (s' & -> & _). done.
  - unfold conn_arena_get_stats. rewrite (count_chunks_ok _ _ _ chs) by (apply Ho || done). cbn. eexists. split; [done|]. cbn.
    rewrite length_app, length_fmap in Hlen. split_and!; [apply I|apply I|]. unfold CONN_ARENA_CHUNK_SLOTS in Hlen. lia.
  - intros ->. destruct s as [h a]. destruct I as [_ [e [_ Ha]] _ Hl _]. cbn [fst snd] in *. unfold conn_arena_cleanup.
    rewrite Ha, Hl. cbn. rewrite (free_chunks_ok _ _ _ _ _ _ Ho Hfuel). cbn. done.
Qed.

End arena.

(** ** A concrete arena *)

Definition demo_mem : option (chunk_mem (@http_connection_t Z)) :=
  Some {| m_addr := 7%nat; m_junk := fun i => {| next_conn := Some (9, i)%nat; prev_conn := None; c_rest := 5 |} |}.

Definition demo_state (r : option (heap (@http_connection_t Z) * conn_arena_t)) : heap (@http_connection_t Z) * conn_arena_t :=
  default (empty_heap, conn_arena_init) r.

(** Two connections are accepted, the second is written to, the first is closed. *)
Definition demo1 := demo_state (fst <$> conn_arena_alloc 0 demo_mem (empty_heap, conn_arena_init)).
Definition demo2 := demo_state (fst <$> conn_arena_alloc 0 None demo1).
Definition demo3 := demo_state (conn_write (7, 254)%nat 42 demo2).
Definition demo4 := demo_state (conn_arena_free (7, 255)%nat demo3).

Lemma conn_arena_refines_witness :
  arena_reach 0 demo4 [((7, 254)%nat, 42)] /\
  walk_alive 1 (alive_head demo4.2) demo4.1 = Some [((7, 254)%nat, 42)].
Proof.
  assert (arena_reach 0 demo4 [((7, 254)%nat, 42)]) as Hr.
  { apply (reach_free 0 demo3 [((7, 254)%nat, 42)] (7, 255)%nat 0 []); [|vm_compute; reflexivity].
    apply (reach_write 0 demo2 [] (7, 254)%nat 0 [((7, 255)%nat, 0)] 42); [|vm_compute; reflexivity].
    apply (reach_alloc 0 demo1 _ None); [|done|vm_compute; reflexivity].
    apply (reach_alloc 0 (empty_heap, conn_arena_init) _ demo_mem); [apply reach_init| |vm_compute; reflexivity].
    intros cm _. apply lookup_empty. }
  split; [exact Hr|]. exact (proj1 (proj2 (conn_arena_refines 0 demo4 _ Hr))).
Defined.

End ConnArena.
