(* ===== verification/StreamPool.v ===== *)
(** * The HTTP/3 stream pool

    Models src/src/http3/http3_stream_pool.c on the slab memory of Slab.  A live
    stream's [list_next] is its connection's stream list; a free slot's is the free
    list.  The pool does not know the live slots; it counts them. *)

From S2P Require Import Prelude Slab.

Module StreamPool.
Import Chain Slab.

Definition HTTP3_STREAM_POOL_CHUNK_SLOTS : nat := 64.

Section pool.
Context {rest : Type} (zero_rest : rest).

Abbreviation ptr := (nat * nat)%type.

Record http3_stream_t := { list_next : option ptr; s_rest : rest }.

Definition set_list_next (n : option ptr) (x : http3_stream_t) : http3_stream_t :=
  {| list_next := n; s_rest := s_rest x |}.

Definition zero_stream : http3_stream_t := {| list_next := None; s_rest := zero_rest |}.

Record http3_stream_pool_t := {
  sp_chunks : option nat;
  sp_free_head : option ptr;
  sp_slot_count : Z;
  sp_live_count : Z;
}.

Definition sp_set_free (p : option ptr) (a : http3_stream_pool_t) : http3_stream_pool_t :=
  {| sp_chunks := sp_chunks a; sp_free_head := p; sp_slot_count := sp_slot_count a; sp_live_count := sp_live_count a |}.
Definition sp_set_live (n : Z) (a : http3_stream_pool_t) : http3_stream_pool_t :=
  {| sp_chunks := sp_chunks a; sp_free_head := sp_free_head a; sp_slot_count := sp_slot_count a; sp_live_count := n |}.

Abbreviation state := (heap http3_stream_t * http3_stream_pool_t)%type.

(** ** Operations *)

Definition http3_stream_pool_init : http3_stream_pool_t :=
  {| sp_chunks := None; sp_free_head := None; sp_slot_count := 0; sp_live_count := 0 |}.

Definition http3_stream_pool_cleanup (s : state) : option state :=
  let '(h, a) := s in
  if negb (sp_live_count a =? 0) then None
  else h' ← free_chunks (chunk_fuel h) (sp_chunks a) h; Some (h', http3_stream_pool_init).

(** [mem] is what [emalloc] returns. *)
Definition http3_stream_pool_grow (mem : option (chunk_mem http3_stream_t)) (s : state) : option (state * bool) :=
  let '(h, a) := s in
  match mem with
  | None => Some (s, false)
  | Some cm =>
      let h := new_chunk HTTP3_STREAM_POOL_CHUNK_SLOTS cm (sp_chunks a) h in
      '(h, fh) ← for_each (push_slot set_list_next) (chunk_slots HTTP3_STREAM_POOL_CHUNK_SLOTS (m_addr cm)) (h, sp_free_head a);
      Some (h, {| sp_chunks := Some (m_addr cm); sp_free_head := fh;
                  sp_slot_count := u64 (sp_slot_count a + Z.of_nat HTTP3_STREAM_POOL_CHUNK_SLOTS);
                  sp_live_count := sp_live_count a |}, true)
  end.

Definition sp_take (s : state) : option (state * option ptr) :=
  let '(h, a) := s in
  slot ← sp_free_head a;
  x ← deref slot h;
  let a := sp_set_free (list_next x) a in
  h ← update slot (fun _ => zero_stream) h;
  Some (h, sp_set_live (u64 (sp_live_count a + 1)) a, Some slot).

Definition http3_stream_pool_alloc (mem : option (chunk_mem http3_stream_t)) (s : state) : option (state * option ptr) :=
  if bool_decide (sp_free_head s.2 = None) then
    '(s, ok) ← http3_stream_pool_grow mem s;
    if (ok : bool) then sp_take s else Some (s, None)
  else sp_take s.

Definition http3_stream_pool_free (slot : ptr) (s : state) : option state :=
  let '(h, a) := s in
  '(h, fh) ← push_slot set_list_next slot (h, sp_free_head a);
  let a := sp_set_free fh a in
  Some (h, sp_set_live (u64 (sp_live_count a - 1)) a).

(** The owner of a live stream writes any of its fields, the link included. *)
Definition stream_write (p : ptr) (x : http3_stream_t) (s : state) : option state :=
  h ← update p (fun _ => x) s.1; Some (h, s.2).

(** ** The invariant *)

Definition holds (h : heap http3_stream_t) (live : list (ptr * http3_stream_t)) : Prop :=
  Forall (fun px => deref px.1 h = Some px.2) live.

Lemma holds_ext h h' live :
  (forall x, x ∈ live.*1 -> deref x h' = deref x h) -> holds h live -> holds h' live.
Proof.
  unfold holds. rewrite !Forall_forall. intros He H [p x] Hin. rewrite He; [by apply H|].
  apply list_elem_of_fmap. by exists (p, x).
Qed.

Record pool_inv (s : state) (live : list (ptr * http3_stream_t)) (free : list ptr) (chs : list nat) : Prop := {
  inv_free : free_list list_next s.1 (sp_free_head s.2) free;
  inv_live : holds s.1 live;
  inv_owns : owns HTTP3_STREAM_POOL_CHUNK_SLOTS s.1 (sp_chunks s.2) chs (live.*1 ++ free);
  inv_live_count : sp_live_count s.2 = u64 (Z.of_nat (length live));
  inv_slot_count : sp_slot_count s.2 = u64 (Z.of_nat HTTP3_STREAM_POOL_CHUNK_SLOTS * Z.of_nat (length chs));
}.

Lemma pool_inv_init : pool_inv (empty_heap, http3_stream_pool_init) [] [] [].
Proof. split; cbn; try done; [constructor|apply owns_empty]. Qed.

Lemma sp_grow_ok mem s live chs :
  pool_inv s live [] chs ->
  (forall cm, mem = Some cm -> h_chunks s.1 !! m_addr cm = None) ->
  match mem with
  | None => http3_stream_pool_grow mem s = Some (s, false)
  | Some cm => exists s', http3_stream_pool_grow mem s = Some (s', true) /\
      pool_inv s' live (rev (chunk_slots HTTP3_STREAM_POOL_CHUNK_SLOTS (m_addr cm))) (m_addr cm :: chs)
  end.
Proof.
  destruct s as [h a]. intros [Hch Hd Ho Hl Hs] Hm. cbn [fst snd] in *. destruct mem as [cm|]; [|done].
  rewrite app_nil_r in Ho.
  destruct (grow_chunk_ok _ list_next set_list_next (fun _ _ => eq_refl) h (sp_chunks a) chs (sp_free_head a) live.*1 cm Ho Hch (Hm cm eq_refl))
    as (h' & fh & E & Hch' & Ho' & Q).
  unfold http3_stream_pool_grow. rewrite E. cbn [mbind option_bind]. eexists. split; [reflexivity|]. split; cbn [fst snd]; try done.
  - by eapply holds_ext.
  - cbn. rewrite Hs. unfold u64. rewrite Zplus_mod_idemp_l. f_equal. lia.
Qed.

Lemma sp_take_ok s live p free chs :
  pool_inv s live (p :: free) chs ->
  exists s', sp_take s = Some (s', Some p) /\ pool_inv s' ((p, zero_stream) :: live) free chs.
Proof.
  destruct s as [h a]. intros [Hch Hd Ho Hl Hs]. cbn [fst snd] in *. destruct Hch as (Ef & n & Hn & Hch).
  pose proof (owns_NoDup _ _ _ _ _ Ho) as (Hnl & Hdis & [Hpf Hnf]%NoDup_cons)%NoDup_app.
  assert (p ∉ live.*1) as Hpl by (intros Hx; apply (Hdis _ Hx); left).
  destruct (deref p h) as [c|] eqn:Hc; [|done]. cbn in Hn. injection Hn as Hn.
  destruct (update_ok h p c (fun _ => zero_stream) Hc) as (h1 & U1 & _ & P1 & Q1).
  unfold sp_take. rewrite Ef. cbn. rewrite Hc. cbn. rewrite U1. cbn. eexists. split; [reflexivity|]. split; cbn [fst snd].
  - cbn. rewrite Hn. eapply free_list_ext; [|exact Hch]. intros x Hx. apply Q1. by intros ->.
  - apply List.Forall_cons; [done|]. eapply holds_ext; [|exact Hd]. intros x Hx. apply Q1. by intros ->.
  - cbn. apply (owns_update _ _ _ _ _ _ _ _ Ho) in U1. by rewrite Permutation_middle.
  - cbn. rewrite Hl. unfold u64. rewrite Zplus_mod_idemp_l. f_equal. lia.
  - done.
Qed.

Lemma http3_stream_pool_alloc_ok mem s live free chs :
  pool_inv s live free chs ->
  (forall cm, mem = Some cm -> h_chunks s.1 !! m_addr cm = None) ->
  exists s' r, http3_stream_pool_alloc mem s = Some (s', r) /\
    match r with
    | None => mem = None /\ s' = s
    | Some p => p ∉ live.*1 /\ exists free' chs', pool_inv s' ((p, zero_stream) :: live) free' chs'
    end.
Proof.
  intros I Hm.
  assert (forall s1 p free chs, pool_inv s1 live (p :: free) chs -> exists s' r, sp_take s1 = Some (s', r) /\
    match r with
    | None => mem = None /\ s' = s
    | Some p => p ∉ live.*1 /\ exists free' chs', pool_inv s' ((p, zero_stream) :: live) free' chs'
    end) as Htake.
  { intros s1 p free1 chs1 I1. destruct (sp_take_ok s1 live p free1 chs1 I1) as (s2 & E2 & I2). exists s2, (Some p).
    split_and!; [done| |eauto]. pose proof (owns_NoDup _ _ _ _ _ (inv_owns _ _ _ _ I2)) as Hn. cbn in Hn.
    apply NoDup_cons in Hn as [Hp _]. rewrite elem_of_app in Hp. tauto. }
  unfold http3_stream_pool_alloc. destruct free as [|p free].
  - rewrite bool_decide_eq_true_2 by apply (inv_free _ _ _ _ I).
    pose proof (sp_grow_ok mem s live chs I Hm) as Hg. destruct mem as [cm|].
    + destruct Hg as (s' & -> & I'). cbn [mbind option_bind].
      destruct (rev (chunk_slots HTTP3_STREAM_POOL_CHUNK_SLOTS (m_addr cm))) as [|p free] eqn:Er; [|by eapply Htake].
      apply (f_equal length) in Er. rewrite length_rev in Er. unfold chunk_slots in Er. by rewrite length_map, length_seq in Er.
    + rewrite Hg. by exists s, None.
  - destruct (inv_free _ _ _ _ I) as [-> _]. rewrite bool_decide_eq_false_2 by done. by eapply Htake.
Qed.

(** A live slot, taken out of the list. *)
Lemma holds_split h l1 p x l2 : holds h (l1 ++ (p, x) :: l2) -> deref p h = Some x /\ holds h (l1 ++ l2).
Proof.
  unfold holds. rewrite !Forall_app, Forall_cons_iff. cbn. tauto.
Qed.

Lemma http3_stream_pool_free_ok s l1 p x l2 free chs :
  pool_inv s (l1 ++ (p, x) :: l2) free chs ->
  exists s', http3_stream_pool_free p s = Some s' /\ pool_inv s' (l1 ++ l2) (p :: free) chs.
Proof.
  destruct s as [h a]. intros [Hch Hd Ho Hl Hs]. cbn [fst snd] in *. apply holds_split in Hd as [Hc Hd].
  assert ((l1 ++ (p, x) :: l2).*1 ++ free ≡ₚ (l1 ++ l2).*1 ++ p :: free) as Hperm.
  { rewrite !fmap_app. cbn. by rewrite <- !Permutation_middle. }
  rewrite Hperm in Ho. pose proof (owns_NoDup _ _ _ _ _ Ho) as (Hn1 & Hx & [Hpf _]%NoDup_cons)%NoDup_app.
  destruct (push_slot_ok HTTP3_STREAM_POOL_CHUNK_SLOTS list_next set_list_next (fun _ _ => eq_refl) h (sp_free_head a) free p)
    as (h' & E & Hch' & Q & Ho'); [done|by exists x|done|].
  unfold http3_stream_pool_free. rewrite E. cbn. eexists. split; [done|]. split; cbn [fst snd]; try done.
  - eapply holds_ext; [|exact Hd]. intros y Hy. apply Q. intros ->. apply (Hx _ Hy). by left.
  - by apply Ho'.
  - cbn. rewrite Hl, !length_app. cbn [length]. unfold u64. rewrite Zminus_mod_idemp_l. f_equal. lia.
Qed.

Lemma stream_write_ok s l1 p x l2 free chs y :
  pool_inv s (l1 ++ (p, x) :: l2) free chs ->
  exists s', stream_write p y s = Some s' /\ pool_inv s' (l1 ++ (p, y) :: l2) free chs.
Proof.
  destruct s as [h a]. intros [Hch Hd Ho Hl Hs]. cbn [fst snd] in *. apply holds_split in Hd as [Hc Hd].
  assert ((l1 ++ (p, x) :: l2).*1 ++ free ≡ₚ p :: (l1 ++ l2).*1 ++ free) as Hperm.
  { rewrite !fmap_app. cbn. by rewrite <- !Permutation_middle. }
  pose proof (owns_NoDup _ _ _ _ _ Ho) as Hn. rewrite Hperm in Hn. apply NoDup_cons in Hn as [Hp _].
  rewrite elem_of_app in Hp. apply Decidable.not_or in Hp as [Hpl Hpf].
  destruct (update_ok h p x (fun _ => y) Hc) as (h' & U & _ & P & Q).
  unfold stream_write. cbn [fst snd]. rewrite U. cbn. eexists. split; [done|].
  assert (holds h' (l1 ++ l2)) as Hd' by (eapply holds_ext; [|exact Hd]; intros z Hz; apply Q; by intros ->).
  split; cbn [fst snd].
  - eapply free_list_ext; [|exact Hch]. intros z Hz. apply Q. by intros ->.
  - unfold holds in *. rewrite !Forall_app, Forall_cons_iff in *. cbn. tauto.
  - eapply owns_update in U; [|exact Ho]. rewrite !fmap_app in *. done.
  - rewrite Hl, !length_app. done.
  - done.
Qed.

(** ** Reachable pools *)

Definition fresh_mem (mem : option (chunk_mem http3_stream_t)) (s : state) : Prop :=
  forall cm, mem = Some cm -> h_chunks s.1 !! m_addr cm = None.

Inductive pool_reach : state -> list (ptr * http3_stream_t) -> Prop :=
  | pr_init : pool_reach (empty_heap, http3_stream_pool_init) []
  | pr_alloc s live mem s' p : pool_reach s live -> fresh_mem mem s ->
      http3_stream_pool_alloc mem s = Some (s', Some p) -> pool_reach s' ((p, zero_stream) :: live)
  | pr_null s live mem s' : pool_reach s live -> fresh_mem mem s ->
      http3_stream_pool_alloc mem s = Some (s', None) -> pool_reach s' live
  | pr_write s l1 p x l2 y s' : pool_reach s (l1 ++ (p, x) :: l2) ->
      stream_write p y s = Some s' -> pool_reach s' (l1 ++ (p, y) :: l2)
  | pr_free s l1 p x l2 s' : pool_reach s (l1 ++ (p, x) :: l2) ->
      http3_stream_pool_free p s = Some s' -> pool_reach s' (l1 ++ l2).

Lemma stream_reach_inv s live : pool_reach s live -> exists free chs, pool_inv s live free chs.
Proof.
  induction 1 as [|s live mem s' p _ (free & chs & I) Hm E|s live mem s' _ (free & chs & I) Hm E
    |s l1 p x l2 y s' _ (free & chs & I) E|s l1 p x l2 s' _ (free & chs & I) E].
  - do 2 eexists. apply pool_inv_init.
  - destruct (http3_stream_pool_alloc_ok mem s live free chs I Hm) as (s1 & r & E1 & Hr). simplify_eq. by destruct Hr.
  - destruct (http3_stream_pool_alloc_ok mem s live free chs I Hm) as (s1 & r & E1 & Hr). simplify_eq.
    destruct Hr as (_ & ->). eauto.
  - destruct (stream_write_ok s l1 p x l2 free chs y I) as (s1 & E1 & I1). simplify_eq. eauto.
  - destruct (http3_stream_pool_free_ok s l1 p x l2 free chs I) as (s1 & E1 & I1). simplify_eq. eauto.
Qed.

(** the HTTP/3 stream pool never hands out a slot that is in use and never
    touches one.  After any sequence of allocations, writes of any field of a live
    stream (the dual-use link included) and frees of live streams, every live stream
    holds what its owner last wrote (zero after the allocation), a further allocation
    runs without error and gives a slot that is not in use, or NULL when the chunk
    allocation failed, and a further free runs without error; both counters are exact
    modulo 2^64, and cleanup with no live stream releases all memory. *)
Theorem http3_stream_pool_safe s live : pool_reach s live ->
  NoDup live.*1 /\
  (forall p x, (p, x) ∈ live -> deref p s.1 = Some x) /\
  (forall mem, fresh_mem mem s -> exists s' r, http3_stream_pool_alloc mem s = Some (s', r) /\
     (r = None -> mem = None) /\ (forall p, r = Some p -> p ∉ live.*1)) /\
  (forall p, p ∈ live.*1 -> is_Some (http3_stream_pool_free p s)) /\
  sp_live_count s.2 = u64 (Z.of_nat (length live)) /\
  (exists chunks, sp_slot_count s.2 = u64 (64 * chunks) /\ Z.of_nat (length live) <= 64 * chunks) /\
  (live = [] -> http3_stream_pool_cleanup s = Some (empty_heap, http3_stream_pool_init)).
Proof.
  intros (free & chs & I)%stream_reach_inv. pose proof (inv_owns _ _ _ _ I) as Ho.
  pose proof (owns_NoDup _ _ _ _ _ Ho) as Hn. pose proof (owns_length _ _ _ _ _ Ho) as Hlen.
  pose proof (chunk_fuel_ok _ _ _ _ _ Ho) as Hfuel. split_and!.
  - by apply NoDup_app in Hn as [? _].
  - intros p x Hin. pose proof (inv_live _ _ _ _ I) as H. unfold holds in H. rewrite Forall_forall in H. by apply (H (p, x)).
  - intros mem Hm. destruct (http3_stream_pool_alloc_ok mem s live free chs I Hm) as (s' & r & E & Hr). exists s', r.
    split_and!; [done| |]; [intros ->|intros p ->]; apply Hr.
  - intros p ([p' x] & -> & (l1 & l2 & ->)%list_elem_of_split)%list_elem_of_fmap.
    destruct (http3_stream_pool_free_ok s l1 p' x l2 free chs I) as (s' & E & _). cbn. by rewrite E.
  - apply I.
  - exists (Z.of_nat (length chs)). split; [apply I|]. rewrite length_app, length_fmap in Hlen.
    unfold HTTP3_STREAM_POOL_CHUNK_SLOTS in Hlen. lia.
  - intros ->. destruct s as [h a]. destruct I as [_ _ _ Hl _]. cbn [fst snd] in *. unfold http3_stream_pool_cleanup.
    rewrite Hl. cbn. by rewrite (free_chunks_ok _ _ _ _ _ _ Ho Hfuel).
Qed.

End pool.

(** ** A concrete pool *)

Definition demo_mem : option (chunk_mem (@http3_stream_t Z)) :=
  Some {| m_addr := 3%nat; m_junk := fun i => {| list_next := Some (9, i)%nat; s_rest := 5 |} |}.

Definition demo_state (r : option (heap (@http3_stream_t Z) * http3_stream_pool_t)) : heap (@http3_stream_t Z) * http3_stream_pool_t :=
  default (empty_heap, http3_stream_pool_init) r.

(** Two streams open and are linked into their connection's list; the first closes. *)
Definition demo1 := demo_state (fst <$> http3_stream_pool_alloc 0 demo_mem (empty_heap, http3_stream_pool_init)).
Definition demo2 := demo_state (fst <$> http3_stream_pool_alloc 0 None demo1).
Definition demo3 := demo_state (stream_write (3, 62)%nat {| list_next := Some (3, 63)%nat; s_rest := 42 |} demo2).
Definition demo4 := demo_state (http3_stream_pool_free (3, 63)%nat demo3).

Lemma http3_stream_pool_safe_witness :
  pool_reach 0 demo4 [((3, 62)%nat, {| list_next := Some (3, 63)%nat; s_rest := 42 |})] /\
  sp_live_count demo4.2 = 1.
Proof.
  assert (pool_reach 0 demo4 [((3, 62)%nat, {| list_next := Some (3, 63)%nat; s_rest := 42 |})]) as Hr.
  { apply (pr_free 0 demo3 [((3, 62)%nat, {| list_next := Some (3, 63)%nat; s_rest := 42 |})] (3, 63)%nat (zero_stream 0) []); [|vm_compute; reflexivity].
    apply (pr_write 0 demo2 [] (3, 62)%nat (zero_stream 0) [((3, 63)%nat, zero_stream 0)]); [|vm_compute; reflexivity].
    apply (pr_alloc 0 demo1 _ None); [|done|vm_compute; reflexivity].
    apply (pr_alloc 0 (empty_heap, http3_stream_pool_init) _ demo_mem); [apply pr_init| |vm_compute; reflexivity].
    intros cm _. apply lookup_empty. }
  split; [exact Hr|]. exact (proj1 (proj2 (proj2 (proj2 (proj2 (http3_stream_pool_safe 0 demo4 _ Hr)))))).
Defined.

End StreamPool.
