(* ===== verification/BodyPool.v ===== *)
(** * The body buffer pool

    Models src/src/core/body_pool.c: a per-thread pool of large request-body buffers
    in power-of-two size classes, each a bounded stack.  Strings live in a heap; the
    marks [IS_STR_INTERNED] and the 22-bit [GC_INFO] by which the pool recognises its
    own buffers are fields.  An access through a dangling pointer, a second free or a
    write past the end of a buffer makes an operation [None]. *)

From S2P Require Import Prelude.

Module BodyPool.

Definition BODY_POOL_MIN_SIZE : Z := 2 ^ 20.
Definition BODY_POOL_MAX_SIZE : Z := 2 ^ 27.
Definition BODY_POOL_NUM_CLASSES : nat := 8.
Definition BODY_POOL_SLOTS_PER_CLASS : nat := 32.
Definition POOL_MAGIC : Z := 2879501.

(** ** Data *)

(** A [zend_string]; [z_cap] is the number of bytes of [ZSTR_VAL] that its
    allocation has room for before the terminating NUL. *)
Record zend_string := {
  z_cap : Z;
  z_refcount : Z;
  z_interned : bool;
  z_gc_info : Z;
  z_len : Z;
}.

(** [slots[0 .. count-1]] with the last one first. *)
Record body_pool_class_t := { bp_slots : list nat; bp_capacity : Z }.

Definition bp_count (c : body_pool_class_t) : nat := length (bp_slots c).

Record pool_state := {
  strings : gmap nat zend_string;
  pool_classes : list body_pool_class_t;
  pool_initialised : bool;
}.

Definition set_strings (m : gmap nat zend_string) (s : pool_state) : pool_state :=
  {| strings := m; pool_classes := pool_classes s; pool_initialised := pool_initialised s |}.
Definition set_classes (l : list body_pool_class_t) (s : pool_state) : pool_state :=
  {| strings := strings s; pool_classes := l; pool_initialised := pool_initialised s |}.

(** Thread-local storage starts zeroed. *)
Definition pool_zero : pool_state :=
  {| strings := ∅; pool_classes := replicate BODY_POOL_NUM_CLASSES {| bp_slots := []; bp_capacity := 0 |};
     pool_initialised := false |}.

(** ** Operations *)

(** [while (cap < len) { cap <<= 1; cls++; }] *)
Fixpoint class_loop (fuel : nat) (cap len cls : Z) : option Z :=
  if cap <? len then
    match fuel with
    | O => None
    | S f => class_loop f (u64 (Z.shiftl cap 1)) len (cls + 1)
    end
  else Some cls.

Definition size_to_class (len : Z) : option Z :=
  if len <=? BODY_POOL_MIN_SIZE then Some 0
  else if BODY_POOL_MAX_SIZE <? len then Some (-1)
  else class_loop BODY_POOL_NUM_CLASSES BODY_POOL_MIN_SIZE len 0.

(** [count] and [capacity] of each class; [slots] is left as it is, of length 0 then. *)
Fixpoint init_classes (cap : Z) (l : list body_pool_class_t) : list body_pool_class_t :=
  match l with
  | [] => []
  | _ :: r => {| bp_slots := []; bp_capacity := cap |} :: init_classes (u64 (Z.shiftl cap 1)) r
  end.

Definition pool_init_once (s : pool_state) : pool_state :=
  if pool_initialised s then s
  else {| strings := strings s; pool_classes := init_classes BODY_POOL_MIN_SIZE (pool_classes s); pool_initialised := true |}.

Definition body_pool_owns (p : option nat) (s : pool_state) : option bool :=
  match p with
  | None => Some false
  | Some a => z ← strings s !! a;
      Some (if z_interned z then z_gc_info z =? POOL_MAGIC else false)
  end.

(** The header writes at the end of [body_pool_acquire] and the NUL at [len]. *)
Definition stamp (a : nat) (len : Z) (s : pool_state) : option (pool_state * option nat) :=
  z ← strings s !! a;
  if z_cap z <? len then None
  else Some (set_strings (<[a := {| z_cap := z_cap z; z_refcount := 1; z_interned := true;
                                    z_gc_info := POOL_MAGIC; z_len := len |}]> (strings s)) s, Some a).

(** [mem]: where [emalloc] puts the string, [None] when it bails out. *)
Definition body_pool_acquire (mem : option nat) (len : Z) (s : pool_state) : option (pool_state * option nat) :=
  let s := pool_init_once s in
  cls ← size_to_class len;
  if cls <? 0 then Some (s, None)
  else
    bucket ← pool_classes s !! Z.to_nat cls;
    match bp_slots bucket with
    | a :: rest =>
        stamp a len (set_classes (<[Z.to_nat cls := {| bp_slots := rest; bp_capacity := bp_capacity bucket |}]> (pool_classes s)) s)
    | [] =>
        match mem with
        | None => Some (s, None)
        | Some a =>
            stamp a len (set_strings (<[a := {| z_cap := bp_capacity bucket; z_refcount := 0; z_interned := false;
                                                z_gc_info := 0; z_len := 0 |}]> (strings s)) s)
        end
    end.

Definition efree (a : nat) (s : pool_state) : option pool_state :=
  _ ← strings s !! a; Some (set_strings (delete a (strings s)) s).

Definition body_pool_release (p : option nat) (s : pool_state) : option pool_state :=
  owned ← body_pool_owns p s;
  if negb owned then Some s
  else
    a ← p;
    if negb (pool_initialised s) then efree a s
    else
      z ← strings s !! a;
      cls ← size_to_class (z_len z);
      if cls <? 0 then efree a s
      else
        bucket ← pool_classes s !! Z.to_nat cls;
        if (bp_count bucket <? BODY_POOL_SLOTS_PER_CLASS)%nat
        then Some (set_classes (<[Z.to_nat cls := {| bp_slots := a :: bp_slots bucket; bp_capacity := bp_capacity bucket |}]> (pool_classes s)) s)
        else efree a s.

(** Freeing the cached slots of one class. *)
Fixpoint efree_all (l : list nat) (s : pool_state) : option pool_state :=
  match l with
  | [] => Some s
  | a :: r => s' ← efree a s; efree_all r s'
  end.

Fixpoint drain_classes (l : list body_pool_class_t) (s : pool_state) : option (pool_state * list body_pool_class_t) :=
  match l with
  | [] => Some (s, [])
  | c :: r =>
      s1 ← efree_all (rev (bp_slots c)) s;
      '(s2, r') ← drain_classes r s1;
      Some (s2, {| bp_slots := []; bp_capacity := bp_capacity c |} :: r')
  end.

Definition body_pool_shutdown (s : pool_state) : option pool_state :=
  if negb (pool_initialised s) then Some s
  else
    '(s', l) ← drain_classes (pool_classes s) s;
    Some {| strings := strings s'; pool_classes := l; pool_initialised := false |}.

Record body_pool_class_stats_t := { ps_slot_bytes : Z; ps_count : Z; ps_bytes : Z }.

Fixpoint class_stats (init : bool) (cap : Z) (l : list body_pool_class_t) : list body_pool_class_stats_t :=
  match l with
  | [] => []
  | c :: r =>
      let slot_bytes := if init then bp_capacity c else cap in
      let count := Z.of_nat (bp_count c) in
      {| ps_slot_bytes := slot_bytes; ps_count := count; ps_bytes := u64 (count * slot_bytes) |}
        :: class_stats init (u64 (Z.shiftl cap 1)) r
  end.

Definition body_pool_get_stats (s : pool_state) : list body_pool_class_stats_t :=
  class_stats (pool_initialised s) BODY_POOL_MIN_SIZE (pool_classes s).

(** ** The users of the pool *)

(** [zend_string_alloc(len, 0)] and [zend_string_release] of an ordinary string. *)
Definition zend_string_alloc (a : nat) (len : Z) (s : pool_state) : pool_state :=
  set_strings (<[a := {| z_cap := len; z_refcount := 1; z_interned := false; z_gc_info := 0; z_len := len |}]> (strings s)) s.

Definition zend_string_release (a : nat) (s : pool_state) : option pool_state :=
  z ← strings s !! a;
  if z_interned z then Some s
  else if z_refcount z - 1 =? 0 then efree a s
  else Some (set_strings (<[a := {| z_cap := z_cap z; z_refcount := z_refcount z - 1; z_interned := false;
                                    z_gc_info := z_gc_info z; z_len := z_len z |}]> (strings s)) s).

Definition body_release (p : option nat) (s : pool_state) : option pool_state :=
  match p with
  | None => Some s
  | Some a =>
      owned ← body_pool_owns p s;
      if (owned : bool) then body_pool_release p s else zend_string_release a s
  end.

(** The body buffer of a request with [Content-Length: len] in [on_headers_complete];
    [fallback] is where [zend_string_alloc] puts its string, [None] when it bails
    out.  The result is [req->body], or the out-of-memory parse error. *)
Definition alloc_body (can_pool : bool) (mem fallback : option nat) (len : Z) (s : pool_state) : option (pool_state * option nat) :=
  '(s, body) ← (if can_pool then body_pool_acquire mem len s else Some (s, None));
  match body, fallback with
  | Some a, _ => Some (s, Some a)
  | None, Some a => Some (zend_string_alloc a len s, Some a)
  | None, None => Some (s, None)
  end.

(** The pre-allocated branch of [on_body]: [at_len] bytes at [off]; the result is the
    new offset, or [None] for the too-large error. *)
Definition body_append (a : nat) (content_length off at_len : Z) (s : pool_state) : option (pool_state * option Z) :=
  if content_length <? u64 (off + at_len) then Some (s, None)
  else
    z ← strings s !! a;
    if z_cap z <? off + at_len then None
    else Some (set_strings (<[a := {| z_cap := z_cap z; z_refcount := z_refcount z; z_interned := z_interned z;
                                      z_gc_info := z_gc_info z; z_len := u64 (off + at_len) |}]> (strings s)) s,
               Some (u64 (off + at_len))).


(** ** Size classes *)

Lemma class_loop_ok fuel c len :
  0 <= c -> 20 + c + Z.of_nat fuel < 64 -> len <= 2 ^ (20 + c + Z.of_nat fuel) ->
  exists cls, class_loop fuel (2 ^ (20 + c)) len c = Some cls /\ c <= cls <= c + Z.of_nat fuel /\ len <= 2 ^ (20 + cls) /\
    forall k, c <= k -> len <= 2 ^ (20 + k) -> cls <= k.
Proof.
  revert c. induction fuel as [|fuel IH]; intros c Hc Hb Hl; cbn [class_loop].
  - rewrite (proj2 (Z.ltb_ge _ _)) by (by replace (20 + c + Z.of_nat 0) with (20 + c) in Hl by lia).
    exists c. replace (20 + c + Z.of_nat 0) with (20 + c) in Hl by lia. split_and!; try done; intros; lia.
  - case_if; b2p.
    + assert (u64 (Z.shiftl (2 ^ (20 + c)) 1) = 2 ^ (20 + (c + 1))) as ->.
      { rewrite Z.shiftl_mul_pow2, <- Z.pow_add_r by lia. rewrite u64_small; [f_equal; lia|].
        split; [lia|]. apply Z.pow_lt_mono_r; lia. }
      destruct (IH (c + 1)) as (cls & E & Hr & Hle & Hmin); [lia|lia|by replace (20 + (c + 1) + Z.of_nat fuel) with (20 + c + Z.of_nat (S fuel)) by lia|].
      exists cls. split_and!; [done|lia|lia|done|]. intros k Hk Hlk. apply Hmin; [|done].
      destruct (Z.eq_dec k c) as [->|]; lia.
    + exists c. split_and!; try done; intros; lia.
Qed.

Lemma class_loop_mono fuel cap len c cls : class_loop fuel cap len c = Some cls -> class_loop (S fuel) cap len c = Some cls.
Proof.
  revert cap c. induction fuel as [|fuel IH]; intros cap c; cbn [class_loop]; case_if; try done. apply IH.
Qed.

Lemma size_to_class_ok len : 0 <= len ->
  exists cls, size_to_class len = Some cls /\
    ((cls = -1 /\ BODY_POOL_MAX_SIZE < len) \/
     (0 <= cls < Z.of_nat BODY_POOL_NUM_CLASSES /\ len <= 2 ^ (20 + cls) /\ forall k, 0 <= k -> len <= 2 ^ (20 + k) -> cls <= k)).
Proof.
  intros H. unfold size_to_class. case_if; b2p; [|case_if; b2p].
  - exists 0. split; [done|]. right. split_and!; [done|done|done|lia].
  - exists (-1). split; [done|]. by left.
  - destruct (class_loop_ok 7 0 len) as (cls & E & Hr & Hle & Hmin); [done|done|done|].
    exists cls. split.
    + by apply (class_loop_mono 7).
    + right. unfold BODY_POOL_NUM_CLASSES. split_and!; try done; intros; lia.
Qed.

(** ** The invariant *)

Definition pooled (l : list body_pool_class_t) : list nat := concat (map bp_slots l).

(** A buffer the pool made: the capacity of one of its classes. *)
Definition pool_cap (z : zend_string) (i : nat) : Prop :=
  exists k, Z.of_nat i <= k < Z.of_nat BODY_POOL_NUM_CLASSES /\ z_cap z = 2 ^ (20 + k).

Definition pool_buffer (z : zend_string) : Prop := z_interned z = true /\ z_gc_info z = POOL_MAGIC /\ pool_cap z 0.

Definition plain_buffer (z : zend_string) : Prop := z_interned z = false /\ z_refcount z = 1.

(** A body in use: its request's content length and how much of it has arrived. *)
Abbreviation body := (nat * (Z * Z))%type.

Definition body_ok (m : gmap nat zend_string) (b : body) : Prop :=
  let '(a, (len, off)) := b in
  exists z, m !! a = Some z /\ (pool_buffer z \/ plain_buffer z) /\ 0 <= off <= len /\ len <= z_cap z < 2 ^ 63 /\ 0 <= z_len z <= z_cap z.

Definition class_ok (m : gmap nat zend_string) (i : nat) (c : body_pool_class_t) : Prop :=
  bp_capacity c = 2 ^ (20 + Z.of_nat i) /\ (bp_count c <= BODY_POOL_SLOTS_PER_CLASS)%nat /\
  Forall (fun a => exists z, m !! a = Some z /\ pool_cap z i) (bp_slots c).

Record pool_inv (s : pool_state) (held : list body) : Prop := {
  inv_classes : length (pool_classes s) = BODY_POOL_NUM_CLASSES;
  inv_init : pool_initialised s = true -> forall i c, pool_classes s !! i = Some c -> class_ok (strings s) i c;
  inv_uninit : pool_initialised s = false -> pooled (pool_classes s) = [];
  inv_nodup : NoDup (held.*1 ++ pooled (pool_classes s));
  inv_dom : forall a, is_Some (strings s !! a) <-> a ∈ held.*1 ++ pooled (pool_classes s);
  inv_held : Forall (body_ok (strings s)) held;
}.

Lemma pooled_insert l i c c' : l !! i = Some c ->
  exists r, pooled l ≡ₚ bp_slots c ++ r /\ pooled (<[i := c']> l) ≡ₚ bp_slots c' ++ r.
Proof.
  intros Hi. exists (pooled (take i l) ++ pooled (drop (S i) l)). unfold pooled. split.
  - rewrite <- (take_drop_middle l i c Hi) at 1. rewrite map_app, concat_app. cbn [map concat]. by rewrite Permutation_app_swap_app.
  - rewrite insert_take_drop by (by eapply lookup_lt_Some). rewrite map_app, concat_app. cbn [map concat]. by rewrite Permutation_app_swap_app.
Qed.

Lemma init_classes_lookup l i c k : init_classes (2 ^ (20 + k)) l !! i = Some c -> 0 <= k -> 20 + k + Z.of_nat (length l) < 64 ->
  c = {| bp_slots := []; bp_capacity := 2 ^ (20 + k + Z.of_nat i) |}.
Proof.
  revert i k. induction l as [|x l IH]; intros [|i] k; cbn [init_classes length]; try done.
  - intros [= <-] _ _. do 2 f_equal. lia.
  - cbn [lookup list_lookup]. intros Hl Hk Hb.
    assert (u64 (Z.shiftl (2 ^ (20 + k)) 1) = 2 ^ (20 + (k + 1))) as E.
    { rewrite Z.shiftl_mul_pow2, <- Z.pow_add_r by lia. rewrite u64_small; [f_equal; lia|].
      split; [lia|]. apply Z.pow_lt_mono_r; lia. }
    rewrite E in Hl. rewrite (IH i (k + 1) Hl) by lia. do 2 f_equal. lia.
Qed.

Lemma init_classes_length cap l : length (init_classes cap l) = length l.
Proof. revert cap. induction l as [|x l IH]; intros cap; cbn; [done|]. by rewrite IH. Qed.

Lemma init_classes_pooled cap l : pooled (init_classes cap l) = [].
Proof. revert cap. induction l as [|x l IH]; intros cap; cbn; [done|]. apply IH. Qed.

Lemma pool_init_ok s held : pool_inv s held -> pool_inv (pool_init_once s) held /\ pool_initialised (pool_init_once s) = true.
Proof.
  intros [Hc Hi Hu Hn Hd Hh]. unfold pool_init_once. destruct (pool_initialised s) eqn:E; [by split; [split; rewrite ?E|]|].
  split; [|done]. rewrite (Hu eq_refl) in *. split; cbn [pool_classes pool_initialised strings]; rewrite ?init_classes_length, ?init_classes_pooled; try done.
  intros _ i c H. apply (init_classes_lookup _ _ _ 0) in H; [|done|rewrite Hc; done]. subst c.
  split_and!; cbn; [done|lia|constructor].
Qed.

Lemma pool_zero_inv : pool_inv pool_zero [].
Proof.
  split; cbn; try done; [by apply NoDup_nil|]. intros a. rewrite lookup_empty, is_Some_alt, elem_of_nil. done.
Qed.

(** ** Changes of the state *)

Lemma elem_of_pooled l i c a : l !! i = Some c -> a ∈ bp_slots c -> a ∈ pooled l.
Proof. intros Hi Ha. destruct (pooled_insert l i c c Hi) as (r & -> & _). rewrite elem_of_app. by left. Qed.

Lemma body_ok_ext m m' b : m' !! b.1 = m !! b.1 -> body_ok m b -> body_ok m' b.
Proof. destruct b as [a [len off]]. cbn. by intros ->. Qed.

Lemma bodies_ok_ext m m' held : (forall a, a ∈ held.*1 -> m' !! a = m !! a) -> Forall (body_ok m) held -> Forall (body_ok m') held.
Proof.
  rewrite !Forall_forall. intros He H b Hb. apply (body_ok_ext m); [|by apply H]. apply He, list_elem_of_fmap. by exists b.
Qed.

Lemma class_ok_ext m m' i c : (forall a, a ∈ bp_slots c -> m' !! a = m !! a) -> class_ok m i c -> class_ok m' i c.
Proof.
  intros He (Hc & Hn & Hs). split_and!; [done|done|]. rewrite Forall_forall in *. intros a Ha. rewrite He by done. by apply Hs.
Qed.

Lemma pool_inv_perm s held held' : held ≡ₚ held' -> pool_inv s held -> pool_inv s held'.
Proof.
  intros Hp [Hc Hi Hu Hn Hd Hh]. split; try done; [|intros a|]; by rewrite <- Hp.
Qed.

(** A buffer that is not cached comes into use, or changes. *)
Lemma inv_hold m held l ini a b z :
  length l = BODY_POOL_NUM_CLASSES ->
  (ini = true -> forall i c, l !! i = Some c -> class_ok m i c) -> (ini = false -> pooled l = []) ->
  NoDup (a :: held.*1 ++ pooled l) -> (forall x, x <> a -> is_Some (m !! x) <-> x ∈ held.*1 ++ pooled l) ->
  Forall (body_ok m) held -> body_ok {[a := z]} (a, b) ->
  pool_inv {| strings := <[a := z]> m; pool_classes := l; pool_initialised := ini |} ((a, b) :: held).
Proof.
  intros Hc Hi Hu [Ha Hn]%NoDup_cons Hd Hh Hb. rewrite elem_of_app in Ha.
  split; cbn [strings pool_classes pool_initialised]; try done.
  - intros E i c Hl. apply (class_ok_ext m); [|by apply Hi]. intros x Hx. rewrite lookup_insert_ne; [done|].
    intros ->. apply Ha. right. by eapply elem_of_pooled.
  - cbn. apply NoDup_cons. split; [by rewrite elem_of_app|done].
  - intros x. cbn. rewrite elem_of_cons. destruct (decide (x = a)) as [->|Hne].
    + rewrite lookup_insert_eq. split; [by left|done].
    + rewrite lookup_insert_ne by done. rewrite Hd by done. tauto.
  - apply List.Forall_cons.
    + apply (body_ok_ext {[a := z]}); [|done]. cbn. by rewrite lookup_insert_eq, lookup_singleton_eq.
    + eapply bodies_ok_ext; [|exact Hh]. intros x Hx. rewrite lookup_insert_ne; [done|]. intros ->. tauto.
Qed.

(** A buffer in use is freed. *)
Lemma inv_drop s held a b :
  pool_inv s ((a, b) :: held) -> exists s', efree a s = Some s' /\ pool_inv s' held.
Proof.
  intros [Hc Hi Hu Hn Hd Hh]. cbn in Hn, Hd. apply NoDup_cons in Hn as [Ha Hn].
  destruct (proj2 (Hd a)) as [z Hz]; [left|]. unfold efree. rewrite Hz. cbn. eexists. split; [done|].
  assert (forall x, x ∈ held.*1 ++ pooled (pool_classes s) -> delete a (strings s) !! x = strings s !! x) as He.
  { intros x Hx. rewrite lookup_delete_ne; [done|]. by intros ->. }
  split; cbn [set_strings strings pool_classes pool_initialised]; try done.
  - intros E i c Hl. apply (class_ok_ext (strings s)); [|by apply Hi]. intros x Hx. apply He. rewrite elem_of_app. right. by eapply elem_of_pooled.
  - intros x. destruct (decide (x = a)) as [->|Hne].
    + rewrite lookup_delete_eq, is_Some_alt. done.
    + rewrite lookup_delete_ne, Hd, elem_of_cons by done. tauto.
  - inversion Hh as [|? ? _ Hh']. subst. eapply bodies_ok_ext; [|done]. intros x Hx. apply He. rewrite elem_of_app. by left.
Qed.

(** ** The operations keep the invariant *)

Lemma stamp_ok a len s z : strings s !! a = Some z -> len <= z_cap z ->
  stamp a len s = Some (set_strings (<[a := {| z_cap := z_cap z; z_refcount := 1; z_interned := true;
                                               z_gc_info := POOL_MAGIC; z_len := len |}]> (strings s)) s, Some a).
Proof. intros Hz Hl. unfold stamp. rewrite Hz. cbn. by rewrite (proj2 (Z.ltb_ge _ _)). Qed.

Lemma pool_cap_bound z i : pool_cap z i -> 2 ^ (20 + Z.of_nat i) <= z_cap z < 2 ^ 63.
Proof.
  intros (k & Hk & ->). unfold BODY_POOL_NUM_CLASSES in Hk. split; [apply Z.pow_le_mono_r|apply Z.pow_lt_mono_r]; lia.
Qed.

(** The body of a fresh acquisition. *)
Lemma stamped_body_ok a len cap k : 0 <= len <= cap -> 0 <= k < Z.of_nat BODY_POOL_NUM_CLASSES -> cap = 2 ^ (20 + k) ->
  body_ok {[a := {| z_cap := cap; z_refcount := 1; z_interned := true; z_gc_info := POOL_MAGIC; z_len := len |}]} (a, (len, 0)).
Proof.
  intros Hl Hk Hc. assert (pool_cap {| z_cap := cap; z_refcount := 1; z_interned := true; z_gc_info := POOL_MAGIC; z_len := len |} 0) as Hp
    by (exists k; split; [cbn; lia|done]).
  eexists. split; [apply lookup_singleton_eq|]. pose proof (pool_cap_bound _ _ Hp) as Hb. cbn in Hb |- *.
  split_and!; try lia. by left.
Qed.

Lemma body_pool_acquire_ok mem len s held :
  pool_inv s held -> (forall a, mem = Some a -> strings s !! a = None) -> 0 <= len ->
  exists s' r, body_pool_acquire mem len s = Some (s', r) /\
    match r with
    | None => pool_inv s' held /\ strings s' = strings s /\ (mem = None \/ BODY_POOL_MAX_SIZE < len)
    | Some a => a ∉ held.*1 /\ pool_inv s' ((a, (len, 0)) :: held)
    end.
Proof.
  intros I0 Hm Hlen. destruct (pool_init_ok s held I0) as [I Ei].
  assert (strings (pool_init_once s) = strings s) as Es by (unfold pool_init_once; by case_if).
  unfold body_pool_acquire. set (s1 := pool_init_once s) in *. clearbody s1. rewrite <- Es in Hm.
  destruct (size_to_class_ok len Hlen) as (cls & -> & [[-> Hbig]|(Hcls & Hle & _)]); cbn [mbind option_bind].
  - cbn. do 2 eexists. split; [done|]. cbn. auto.
  - rewrite (proj2 (Z.ltb_ge _ _)) by lia. destruct I as [Hc Hi Hu Hn Hd Hh]. specialize (Hi Ei).
    destruct (lookup_lt_is_Some_2 (pool_classes s1) (Z.to_nat cls)) as [bucket Hb]; [rewrite Hc; lia|].
    rewrite Hb. cbn [mbind option_bind]. destruct (Hi _ _ Hb) as (Hcap & Hcnt & Hsl). rewrite Z2Nat.id in Hcap by lia.
    destruct (bp_slots bucket) as [|a rest] eqn:Esl.
    + destruct mem as [a|]; [|by do 2 eexists; split; [done|]; cbn; split_and!; auto; split].
      specialize (Hm a eq_refl). assert (a ∉ held.*1 ++ pooled (pool_classes s1)) as Ha by (rewrite <- Hd, Hm; apply is_Some_None).
      rewrite <- Hcap in Hle. erewrite stamp_ok; [|cbn; apply lookup_insert_eq|done]. cbn. do 2 eexists. split; [done|]. cbn.
      split; [rewrite elem_of_app in Ha; tauto|]. unfold set_strings. cbn. rewrite insert_insert_eq, Ei. apply inv_hold; try done.
      * by apply NoDup_cons.
      * by eapply stamped_body_ok.
    + apply Forall_cons_iff in Hsl as [(z & Hz & Hzc) Hrest].
      destruct (pooled_insert (pool_classes s1) _ bucket {| bp_slots := rest; bp_capacity := bp_capacity bucket |} Hb) as (r & Hp1 & Hp2).
      rewrite Esl in Hp1. cbn in Hp2.
      assert (held.*1 ++ pooled (pool_classes s1) ≡ₚ a :: held.*1 ++ pooled (<[Z.to_nat cls := {| bp_slots := rest; bp_capacity := bp_capacity bucket |}]> (pool_classes s1))) as Hperm.
      { rewrite Hp1, Hp2. cbn. by rewrite <- Permutation_middle. }
      rewrite Hperm in Hn. pose proof (pool_cap_bound _ _ Hzc) as Hzb. rewrite Z2Nat.id in Hzb by lia.
      erewrite stamp_ok; [|cbn; exact Hz|lia]. do 2 eexists. split; [done|]. cbn.
      split; [apply NoDup_cons in Hn as [Ha _]; rewrite elem_of_app in Ha; tauto|].
      unfold set_strings. cbn. rewrite Ei. apply inv_hold; try done.
      * by rewrite length_insert.
      * intros _ i c Hl. destruct (decide (i = Z.to_nat cls)) as [->|Hne].
        -- rewrite list_lookup_insert_eq in Hl by (by eapply lookup_lt_Some). injection Hl as <-. split_and!; cbn; [by rewrite Z2Nat.id by lia| |done].
           unfold bp_count in *. rewrite Esl in Hcnt. cbn in *. lia.
        -- rewrite list_lookup_insert_ne in Hl by done. by apply Hi.
      * intros x Hx. rewrite Hd, Hperm, elem_of_cons. tauto.
      * destruct Hzc as (k & Hk & Ek). eapply (stamped_body_ok _ _ _ k); [lia|lia|done].
Qed.

Lemma alloc_body_ok can_pool mem fallback len s held :
  pool_inv s held -> (forall a, mem = Some a \/ fallback = Some a -> strings s !! a = None) -> 0 <= len < 2 ^ 63 ->
  exists s' r, alloc_body can_pool mem fallback len s = Some (s', r) /\
    match r with
    | None => pool_inv s' held /\ fallback = None /\ (can_pool = true -> mem = None \/ BODY_POOL_MAX_SIZE < len)
    | Some a => a ∉ held.*1 /\ pool_inv s' ((a, (len, 0)) :: held)
    end.
Proof.
  intros I Hf Hlen. unfold alloc_body.
  assert (exists s1 r, (if can_pool then body_pool_acquire mem len s else Some (s, None)) = Some (s1, r) /\
    match r with
    | None => pool_inv s1 held /\ strings s1 = strings s /\ (can_pool = true -> mem = None \/ BODY_POOL_MAX_SIZE < len)
    | Some a => a ∉ held.*1 /\ pool_inv s1 ((a, (len, 0)) :: held)
    end) as (s1 & r & -> & Hr).
  { destruct can_pool; [|by exists s, None].
    destruct (body_pool_acquire_ok mem len s held I) as (s1 & r & E & Hr); [auto|lia|].
    exists s1, r. split; [done|]. destruct r; [done|]. destruct Hr as (? & ? & ?). auto. }
  cbn [mbind option_bind]. destruct r as [a|]; [by exists s1, (Some a)|].
  destruct Hr as (I1 & Es & Hn1). destruct fallback as [a|]; [|by exists s1, None].
  do 2 eexists. split; [done|]. cbn. destruct I1 as [Hc Hi Hu Hn Hd Hh].
  assert (a ∉ held.*1 ++ pooled (pool_classes s1)) as Ha by (rewrite <- Hd, Es, Hf by auto; apply is_Some_None).
  split; [rewrite elem_of_app in Ha; tauto|]. unfold zend_string_alloc, set_strings. apply inv_hold; try done.
  - by apply NoDup_cons.
  - eexists. split; [apply lookup_singleton_eq|]. cbn. split_and!; try lia. by right.
Qed.

Lemma body_append_ok a len off n s held :
  pool_inv s ((a, (len, off)) :: held) -> 0 <= n < 2 ^ 63 ->
  exists s' r, body_append a len off n s = Some (s', r) /\
    if off + n <=? len then r = Some (off + n) /\ pool_inv s' ((a, (len, off + n)) :: held) else r = None /\ s' = s.
Proof.
  intros I Hn. destruct I as [Hc Hi Hu Hnd Hd Hh]. inversion Hh as [|? ? Hb Hh']. subst.
  destruct Hb as (z & Hz & Hk & Hoff & Hlen & Hzl). unfold body_append. rewrite u64_small by lia.
  destruct (Z.leb_spec (off + n) len) as [Hle|Hgt].
  - rewrite (proj2 (Z.ltb_ge _ _)) by lia. rewrite Hz. cbn [mbind option_bind]. rewrite (proj2 (Z.ltb_ge _ _)) by lia.
    do 2 eexists. split; [done|]. split; [done|]. destruct s as [m l ini]. unfold set_strings. cbn in *. apply inv_hold; try done.
    + intros x Hx. rewrite Hd, elem_of_cons. tauto.
    + eexists. split; [apply lookup_singleton_eq|]. cbn. split_and!; try lia. done.
  - rewrite (proj2 (Z.ltb_lt _ _)) by lia. by do 2 eexists.
Qed.

Lemma body_release_ok a b s held :
  pool_inv s ((a, b) :: held) -> exists s', body_release (Some a) s = Some s' /\ pool_inv s' held.
Proof.
  intros I. destruct (inv_drop s held a b I) as (s' & Ef & I'). destruct I as [Hc Hi Hu Hnd Hd Hh]. destruct b as [len off].
  inversion Hh as [|? ? Hb Hh']. subst. destruct Hb as (z & Hz & Hk & Hoff & Hlen & Hzl).
  unfold body_release, body_pool_owns. rewrite Hz. cbn [mbind option_bind]. destruct Hk as [(Hin & Hinfo & Hcap)|[Hin Hrc]].
  - unfold body_pool_release, body_pool_owns. rewrite Hz. cbn [mbind option_bind]. rewrite Hin, Hinfo, Z.eqb_refl. cbn [negb mbind option_bind].
    destruct (pool_initialised s) eqn:Ei; cbn [negb]; [|eauto]. rewrite Hz. cbn [mbind option_bind].
    destruct (size_to_class_ok (z_len z)) as (cls & -> & [[-> Hbig]|(Hcls & Hle & Hmin)]); [lia|by eauto|]. cbn [mbind option_bind].
    rewrite (proj2 (Z.ltb_ge _ _)) by lia. specialize (Hi eq_refl).
    destruct (lookup_lt_is_Some_2 (pool_classes s) (Z.to_nat cls)) as [bucket Hb]; [rewrite Hc; lia|].
    rewrite Hb. cbn [mbind option_bind]. destruct (Nat.ltb_spec (bp_count bucket) BODY_POOL_SLOTS_PER_CLASS) as [Hlt|]; [|eauto].
    eexists. split; [done|].
    destruct (pooled_insert (pool_classes s) _ bucket {| bp_slots := a :: bp_slots bucket; bp_capacity := bp_capacity bucket |} Hb) as (r & Hp1 & Hp2).
    cbn in Hp2, Hnd. destruct (Hi _ _ Hb) as (Hcapb & Hcnt & Hsl).
    assert (held.*1 ++ pooled (<[Z.to_nat cls := {| bp_slots := a :: bp_slots bucket; bp_capacity := bp_capacity bucket |}]> (pool_classes s))
            ≡ₚ a :: held.*1 ++ pooled (pool_classes s)) as Hperm.
    { rewrite Hp2, Hp1. cbn. by rewrite <- Permutation_middle. }
    split; cbn [set_classes strings pool_classes pool_initialised]; try done.
    + by rewrite length_insert.
    + intros _ i c Hl. destruct (decide (i = Z.to_nat cls)) as [->|Hne].
      * rewrite list_lookup_insert_eq in Hl by (by eapply lookup_lt_Some). injection Hl as <-. split_and!; cbn; [done|unfold bp_count in *; cbn; lia|].
        apply List.Forall_cons; [|done]. exists z. split; [done|]. destruct Hcap as (k & Hk & Ek). exists k. split; [|done].
        rewrite Z2Nat.id by lia. split; [|lia]. apply Hmin; [lia|]. rewrite <- Ek. lia.
      * rewrite list_lookup_insert_ne in Hl by done. by apply Hi.
    + intros E. by rewrite E in Ei.
    + by rewrite Hperm.
    + intros x. rewrite Hperm. apply Hd.
  - unfold zend_string_release. rewrite Hz. cbn [mbind option_bind]. rewrite Hin, Hrc. cbn. eauto.
Qed.

(** ** Draining *)

Lemma efree_all_ok l s (keep : list nat) :
  NoDup (l ++ keep) -> (forall a, is_Some (strings s !! a) <-> a ∈ l ++ keep) ->
  exists m, efree_all l s = Some (set_strings m s) /\ (forall a, a ∈ keep -> m !! a = strings s !! a) /\
    (forall a, is_Some (m !! a) <-> a ∈ keep).
Proof.
  revert s. induction l as [|a l IH]; intros s Hn Hd.
  - exists (strings s). cbn. destruct s. done.
  - cbn in Hn. apply NoDup_cons in Hn as [Ha Hn]. cbn. unfold efree. destruct (proj2 (Hd a)) as [z Hz]; [left|].
    rewrite Hz. cbn.
    destruct (IH (set_strings (delete a (strings s)) s)) as (m & E & Hk & Hm); [done| |].
    + intros x. cbn. destruct (decide (x = a)) as [->|Hne].
      * rewrite lookup_delete_eq, is_Some_alt. done.
      * rewrite lookup_delete_ne, Hd by done. cbn. rewrite elem_of_cons. tauto.
    + exists m. split; [done|]. split; [|done]. intros x Hx. rewrite Hk by done. cbn. rewrite lookup_delete_ne; [done|].
      intros ->. apply Ha. rewrite elem_of_app. by right.
Qed.

Lemma drain_classes_ok l s (keep : list nat) :
  NoDup (pooled l ++ keep) -> (forall a, is_Some (strings s !! a) <-> a ∈ pooled l ++ keep) ->
  exists m, drain_classes l s = Some (set_strings m s, map (fun c => {| bp_slots := []; bp_capacity := bp_capacity c |}) l) /\
    (forall a, a ∈ keep -> m !! a = strings s !! a) /\ (forall a, is_Some (m !! a) <-> a ∈ keep).
Proof.
  revert s. induction l as [|c l IH]; intros s Hn Hd.
  - exists (strings s). destruct s. done.
  - cbn [pooled map concat drain_classes] in *. rewrite <- app_assoc in Hn. fold (pooled l) in Hn, Hd.
    destruct (efree_all_ok (rev (bp_slots c)) s (pooled l ++ keep)) as (m & E & Hk & Hm).
    + by rewrite <- Permutation_rev.
    + intros a. rewrite <- Permutation_rev, app_assoc. apply Hd.
    + rewrite E. cbn [mbind option_bind]. apply NoDup_app in Hn as (_ & _ & Hn).
      destruct (IH (set_strings m s) Hn Hm) as (m2 & E2 & Hk2 & Hm2). rewrite E2. cbn. exists m2. split_and!; [done| |done].
      intros a Ha. rewrite Hk2 by done. cbn. apply Hk. rewrite elem_of_app. by right.
Qed.

Lemma pooled_drained l : pooled (map (fun c => {| bp_slots := []; bp_capacity := bp_capacity c |}) l) = [].
Proof. induction l; cbn; done. Qed.

Lemma body_pool_shutdown_ok s held : pool_inv s held ->
  exists s', body_pool_shutdown s = Some s' /\ pool_inv s' held /\ pool_initialised s' = false.
Proof.
  intros I. unfold body_pool_shutdown. destruct (pool_initialised s) eqn:Ei; cbn [negb]; [|by exists s].
  destruct I as [Hc Hi Hu Hnd Hd Hh]. destruct (drain_classes_ok (pool_classes s) s held.*1) as (m & E & Hk & Hm).
  - by rewrite (comm app).
  - intros a. by rewrite (comm app).
  - rewrite E. cbn. eexists. split; [done|]. split; [|done]. split; cbn [strings pool_classes pool_initialised set_strings]; rewrite ?pooled_drained, ?app_nil_r; try done.
    + by rewrite length_map.
    + by apply NoDup_app in Hnd as [? _].
    + by eapply bodies_ok_ext.
Qed.

(** ** Reachable pools

    Requests with a known content length get a body, the body arrives in pieces, and
    the body is released, at any time also in the middle of an upload; the pool can
    be shut down with bodies in use, and used again. *)
Inductive pool_reach : pool_state -> list body -> Prop :=
  | reach_zero : pool_reach pool_zero []
  | reach_alloc s held can_pool mem fallback len s' a : pool_reach s held ->
      (forall x, mem = Some x \/ fallback = Some x -> strings s !! x = None) -> 0 <= len < 2 ^ 63 ->
      alloc_body can_pool mem fallback len s = Some (s', Some a) -> pool_reach s' ((a, (len, 0)) :: held)
  | reach_oom s held can_pool mem fallback len s' : pool_reach s held ->
      (forall x, mem = Some x \/ fallback = Some x -> strings s !! x = None) -> 0 <= len < 2 ^ 63 ->
      alloc_body can_pool mem fallback len s = Some (s', None) -> pool_reach s' held
  | reach_append s held a len off n s' off' : pool_reach s ((a, (len, off)) :: held) -> 0 <= n < 2 ^ 63 ->
      body_append a len off n s = Some (s', Some off') -> pool_reach s' ((a, (len, off')) :: held)
  | reach_release s held a b s' : pool_reach s ((a, b) :: held) ->
      body_release (Some a) s = Some s' -> pool_reach s' held
  | reach_shutdown s held s' : pool_reach s held -> body_pool_shutdown s = Some s' -> pool_reach s' held
  | reach_perm s held held' : pool_reach s held -> held ≡ₚ held' -> pool_reach s held'.

Lemma pool_reach_inv s held : pool_reach s held -> pool_inv s held.
Proof.
  induction 1 as [|s held can_pool mem fb len s' a _ I Hf Hl E|s held can_pool mem fb len s' _ I Hf Hl E
    |s held a len off n s' off' _ I Hn E|s held a b s' _ I E|s held s' _ I E|s held held' _ I Hp].
  - apply pool_zero_inv.
  - destruct (alloc_body_ok can_pool mem fb len s held I Hf Hl) as (s1 & r & E1 & Hr). simplify_eq. by destruct Hr.
  - destruct (alloc_body_ok can_pool mem fb len s held I Hf Hl) as (s1 & r & E1 & Hr). simplify_eq. by destruct Hr.
  - destruct (body_append_ok a len off n s held I Hn) as (s1 & r & E1 & Hr). simplify_eq. case_if_in Hr; [|by destruct Hr].
    destruct Hr as [[= <-] Hr]. done.
  - destruct (body_release_ok a b s held I) as (s1 & E1 & I1). by simplify_eq.
  - destruct (body_pool_shutdown_ok s held I) as (s1 & E1 & I1 & _). by simplify_eq.
  - by eapply pool_inv_perm.
Qed.

(** the body pool is memory safe, bounded and does not leak.  After any sequence
    of body allocations (pooled or not, the allocator succeeding or failing), appends,
    releases in the middle of an upload, and shutdowns with bodies in use: an
    allocation runs without error, gives a buffer no other request has, and fails only
    when both allocations did; an append of any length stays inside the buffer, and is
    refused exactly when it exceeds the content length; a release runs without error;
    no class caches more than 32 buffers; and shutting down with no body in use frees
    every string. *)
Theorem body_pool_safe s held : pool_reach s held ->
  (forall can_pool mem fallback len,
     (forall x, mem = Some x \/ fallback = Some x -> strings s !! x = None) -> 0 <= len < 2 ^ 63 ->
     exists s' r, alloc_body can_pool mem fallback len s = Some (s', r) /\
       (r = None -> fallback = None /\ (can_pool = true -> mem = None \/ BODY_POOL_MAX_SIZE < len)) /\
       (forall a, r = Some a -> a ∉ held.*1)) /\
  (forall a len off n, (a, (len, off)) ∈ held -> 0 <= n < 2 ^ 63 ->
     exists s', body_append a len off n s = Some (s', if off + n <=? len then Some (off + n) else None)) /\
  (forall a, a ∈ held.*1 -> is_Some (body_release (Some a) s)) /\
  (forall i c, pool_classes s !! i = Some c -> (bp_count c <= 32)%nat) /\
  (exists s', body_pool_shutdown s = Some s' /\ (held = [] -> strings s' = ∅)).
Proof.
  intros I%pool_reach_inv. split_and!.
  - intros can_pool mem fb len Hf Hl. destruct (alloc_body_ok can_pool mem fb len s held I Hf Hl) as (s' & r & E & Hr).
    exists s', r. split; [done|]. split; [intros ->|intros a ->]; apply Hr.
  - intros a len off n (l1 & l2 & ->)%list_elem_of_split Hn. apply (pool_inv_perm _ _ ((a, (len, off)) :: l1 ++ l2)) in I; [|by rewrite Permutation_middle].
    destruct (body_append_ok a len off n s _ I Hn) as (s' & r & E & Hr). exists s'. rewrite E. case_if; by destruct Hr as [-> _].
  - intros a ([a' b] & -> & (l1 & l2 & ->)%list_elem_of_split)%list_elem_of_fmap.
    apply (pool_inv_perm _ _ ((a', b) :: l1 ++ l2)) in I; [|by rewrite Permutation_middle].
    destruct (body_release_ok a' b s _ I) as (s' & E & _). by exists s'.
  - intros i c Hc. destruct (pool_initialised s) eqn:Ei.
    + by destruct (inv_init _ _ I Ei i c Hc) as (_ & ? & _).
    + pose proof (inv_uninit _ _ I Ei) as Hp. destruct (pooled_insert _ _ _ c Hc) as (r & Hp1 & _). rewrite Hp in Hp1.
      apply Permutation_nil_l in Hp1; symmetry in Hp1; apply app_eq_nil in Hp1 as [Hs _]. unfold bp_count. rewrite Hs. cbn. lia.
  - destruct (body_pool_shutdown_ok s held I) as (s' & E & I' & Eu). exists s'. split; [done|]. intros ->.
    apply map_eq. intros a. rewrite lookup_empty. apply eq_None_not_Some. rewrite (inv_dom _ _ I'), (inv_uninit _ _ I' Eu). apply not_elem_of_nil.
Qed.

(** A 100 MiB upload of which one kilobyte arrives before the peer goes away. *)
Definition aborted_upload : option pool_state :=
  '(s, _) ← alloc_body true (Some 0%nat) None (100 * 2 ^ 20) pool_zero;
  '(s, _) ← body_append 0 (100 * 2 ^ 20) 0 1024 s;
  body_release (Some 0%nat) s.

(** a body released in the middle of an upload is filed by how much had arrived,
    not by the size of its buffer.  After one aborted 100 MiB upload the pool caches
    a 128 MiB buffer in its 1 MiB class: the statistics report 1 MiB cached, and the
    next one-byte body is given the 128 MiB buffer. *)
Theorem body_pool_stats_undercount :
  match aborted_upload with
  | None => False
  | Some s =>
      z_cap <$> strings s !! 0%nat = Some (2 ^ 27) /\
      foldr (fun st n => ps_bytes st + n) 0 (body_pool_get_stats s) = 2 ^ 20 /\
      (snd <$> body_pool_acquire None 1 s) = Some (Some 0%nat)
  end.
Proof. vm_compute. done. Qed.

Lemma body_pool_safe_witness :
  exists s, pool_reach s [(0%nat, (5, 3))] /\
    exists s', body_append 0 5 3 2 s = Some (s', Some 5).
Proof.
  destruct (alloc_body true (Some 0%nat) None 5 pool_zero) as [[s1 r1]|] eqn:E1; [|by vm_compute in E1].
  destruct (body_append 0 5 0 3 s1) as [[s2 r2]|] eqn:E2; [|vm_compute in E1; injection E1 as <- _; by vm_compute in E2].
  assert (r1 = Some 0%nat /\ r2 = Some 3) as [-> ->].
  { vm_compute in E1. injection E1 as <- <-. vm_compute in E2. by injection E2 as _ <-. }
  assert (pool_reach s2 [(0%nat, (5, 3))]) as Hr.
  { eapply (reach_append s1 [] 0%nat 5 0 3); [|lia|exact E2].
    eapply (reach_alloc pool_zero [] true (Some 0%nat) None 5); [apply reach_zero|done|lia|exact E1]. }
  exists s2. split; [exact Hr|].
  exact (proj1 (proj2 (body_pool_safe s2 _ Hr)) 0%nat 5 3 2 ltac:(by left) ltac:(lia)).
Defined.
End BodyPool.
