(* ===== verification/ConnOut.v ===== *)
(** * Output batching and teardown of a plaintext connection

    Models, of src/src/core/http_connection.c, the batched writer
    ([http_connection_send_batched] and its variants with their completion
    callbacks), the direct writers, and the teardown protocol: the gates of
    [http_connection_destroy], the deferred destroy, and the places that finish it.

    The reactor is outside the repository.  Of [ZEND_ASYNC_IO_WRITE_EX] the code
    relies on this: an accepted write goes on the wire after those accepted before,
    and its callback runs later; a refused write runs its callback at once and then
    returns NULL.  A socket that refused a write refuses all later ones.  Freed
    memory is tracked: reading a freed connection or freeing a buffer twice is a
    [Fault]. *)

From S2P Require Import Prelude.

Module ConnOut.

(** ** Results *)

Inductive fault := UseAfterFree | DoubleFree | OutOfBounds | NoFuel | AssertFailed.

Inductive res (A : Type) := Ok (a : A) | Fault (f : fault).
#[global] Arguments Ok {A} a.
#[global] Arguments Fault {A} f.

#[global] Instance res_ret : MRet res := @Ok.
#[global] Instance res_bind : MBind res := fun A B f m =>
  match m with Ok a => f a | Fault e => Fault e end.

(** ** Data

    The fields of [http_connection_t] that the writer and the teardown use: those
    of the writer ([out_pending] is the coalesced tail, in the buffer
    [out_pending_buf]) and those of the lifetime.  [destroying] is not among them:
    [http_connection_destroy] runs to its end here once past its gates. *)
Record out_t := {
  out_in_flight : bool;
  out_pending_buf : option nat;
  out_pending : bytes;
  out_pending_cap : Z;
  out_writev_user : option nat;
  write_timed_out : bool;
}.

Record life_t := {
  handler_refcount : Z;
  destroy_pending : bool;
  in_parser_feed : bool;
  tls_send_in_flight : bool;
  destroy_microtask : option nat;
}.

Record http_connection_t := { c_out : out_t; c_life : life_t }.

Definition set_in_flight (b : bool) (o : out_t) : out_t :=
  {| out_in_flight := b; out_pending_buf := out_pending_buf o; out_pending := out_pending o; out_pending_cap := out_pending_cap o; out_writev_user := out_writev_user o; write_timed_out := write_timed_out o |}.
Definition set_pending (buf : option nat) (p : bytes) (cap : Z) (o : out_t) : out_t :=
  {| out_in_flight := out_in_flight o; out_pending_buf := buf; out_pending := p; out_pending_cap := cap; out_writev_user := out_writev_user o; write_timed_out := write_timed_out o |}.
Definition set_user (u : option nat) (o : out_t) : out_t :=
  {| out_in_flight := out_in_flight o; out_pending_buf := out_pending_buf o; out_pending := out_pending o; out_pending_cap := out_pending_cap o; out_writev_user := u; write_timed_out := write_timed_out o |}.
Definition set_timed_out (o : out_t) : out_t :=
  {| out_in_flight := out_in_flight o; out_pending_buf := out_pending_buf o; out_pending := out_pending o; out_pending_cap := out_pending_cap o; out_writev_user := out_writev_user o; write_timed_out := true |}.

Definition set_refcount (n : Z) (l : life_t) : life_t :=
  {| handler_refcount := n; destroy_pending := destroy_pending l; in_parser_feed := in_parser_feed l; tls_send_in_flight := tls_send_in_flight l; destroy_microtask := destroy_microtask l |}.
Definition set_destroy_pending (b : bool) (l : life_t) : life_t :=
  {| handler_refcount := handler_refcount l; destroy_pending := b; in_parser_feed := in_parser_feed l; tls_send_in_flight := tls_send_in_flight l; destroy_microtask := destroy_microtask l |}.
Definition set_feed (b : bool) (l : life_t) : life_t :=
  {| handler_refcount := handler_refcount l; destroy_pending := destroy_pending l; in_parser_feed := b; tls_send_in_flight := tls_send_in_flight l; destroy_microtask := destroy_microtask l |}.
Definition set_tls_send (b : bool) (l : life_t) : life_t :=
  {| handler_refcount := handler_refcount l; destroy_pending := destroy_pending l; in_parser_feed := in_parser_feed l; tls_send_in_flight := b; destroy_microtask := destroy_microtask l |}.
Definition set_microtask (t : option nat) (l : life_t) : life_t :=
  {| handler_refcount := handler_refcount l; destroy_pending := destroy_pending l; in_parser_feed := in_parser_feed l; tls_send_in_flight := tls_send_in_flight l; destroy_microtask := t |}.

(** What a write hands to the reactor, and so what its callback releases: an
    [emalloc]ed buffer, a string, the connection (vectored write), or the strings
    of a direct write, whose callback does not touch the connection. *)
Inductive write_data :=
  | DBuf (buf : nat)
  | DZstr (str : nat)
  | DWritev
  | DDirect (strs : list nat).

(** [w_conn] is [None] once the slot is back in the arena.  [w_bufs] are the live
    buffers, strings and user blocks; [w_wire] is what the reactor accepted, in
    order; [w_queue] the writes whose callbacks are outstanding, oldest first;
    [w_tasks] the queued microtasks with their cancelled flag. *)
Record world := {
  w_conn : option http_connection_t;
  w_bufs : gset nat;
  w_next : nat;
  w_wire : bytes;
  w_queue : list write_data;
  w_dead : bool;
  w_tasks : list (nat * bool);
  w_drains : nat;
}.

Definition put_conn (c : option http_connection_t) (w : world) : world :=
  {| w_conn := c; w_bufs := w_bufs w; w_next := w_next w; w_wire := w_wire w; w_queue := w_queue w; w_dead := w_dead w; w_tasks := w_tasks w; w_drains := w_drains w |}.
Definition put_bufs (b : gset nat) (w : world) : world :=
  {| w_conn := w_conn w; w_bufs := b; w_next := w_next w; w_wire := w_wire w; w_queue := w_queue w; w_dead := w_dead w; w_tasks := w_tasks w; w_drains := w_drains w |}.
Definition put_tasks (t : list (nat * bool)) (w : world) : world :=
  {| w_conn := w_conn w; w_bufs := w_bufs w; w_next := w_next w; w_wire := w_wire w; w_queue := w_queue w; w_dead := w_dead w; w_tasks := t; w_drains := w_drains w |}.
Definition put_queue (q : list write_data) (w : world) : world :=
  {| w_conn := w_conn w; w_bufs := w_bufs w; w_next := w_next w; w_wire := w_wire w; w_queue := q; w_dead := w_dead w; w_tasks := w_tasks w; w_drains := w_drains w |}.

(** ** Memory *)

Definition get_conn (w : world) : res http_connection_t :=
  match w_conn w with Some c => Ok c | None => Fault UseAfterFree end.

Definition put_out (f : out_t -> out_t) (w : world) : res world :=
  c ← get_conn w; Ok (put_conn (Some {| c_out := f (c_out c); c_life := c_life c |}) w).

Definition put_life (f : life_t -> life_t) (w : world) : res world :=
  c ← get_conn w; Ok (put_conn (Some {| c_out := c_out c; c_life := f (c_life c) |}) w).

(** [efree], [zend_string_release] of a last reference, a user's release callback. *)
Definition release (b : nat) (w : world) : res world :=
  if bool_decide (b ∈ w_bufs w) then Ok (put_bufs (w_bufs w ∖ {[b]}) w) else Fault DoubleFree.

Fixpoint release_all (l : list nat) (w : world) : res world :=
  match l with
  | [] => Ok w
  | b :: r => w ← release b w; release_all r w
  end.

Definition alloc (w : world) : world * nat :=
  ({| w_conn := w_conn w; w_bufs := {[w_next w]} ∪ w_bufs w; w_next := S (w_next w); w_wire := w_wire w;
      w_queue := w_queue w; w_dead := w_dead w; w_tasks := w_tasks w; w_drains := w_drains w |}, w_next w).

(** The reactor takes a write. *)
Definition accept (d : write_data) (payload : bytes) (w : world) : world :=
  {| w_conn := w_conn w; w_bufs := w_bufs w; w_next := w_next w; w_wire := w_wire w ++ payload;
     w_queue := w_queue w ++ [d]; w_dead := w_dead w; w_tasks := w_tasks w; w_drains := w_drains w |}.

(** ** Teardown *)

Fixpoint cancel_task (t : nat) (l : list (nat * bool)) : list (nat * bool) :=
  match l with
  | [] => []
  | (i, b) :: r => if (i =? t)%nat then (i, true) :: r else (i, b) :: cancel_task t r
  end.

Definition http_connection_destroy (w : world) : res world :=
  c ← get_conn w;
  w ← match destroy_microtask (c_life c) with
      | None => Ok w
      | Some t => put_life (set_microtask None) (put_tasks (cancel_task t (w_tasks w)) w)
      end;
  c ← get_conn w;
  if 0 <? handler_refcount (c_life c) then put_life (set_destroy_pending true) w
  else if tls_send_in_flight (c_life c) then put_life (set_destroy_pending true) w
  else if out_in_flight (c_out c) then put_life (set_destroy_pending true) w
  else if in_parser_feed (c_life c) then put_life (set_destroy_pending true) w
  else
    w ← match out_pending_buf (c_out c) with
        | Some b => release b w
        | None => Ok w
        end;
    Ok (put_conn None w).

(** The places that finish a deferred destroy. *)
Definition finish_deferred (w : world) : res (world * bool) :=
  c ← get_conn w;
  if destroy_pending (c_life c) && (handler_refcount (c_life c) =? 0) then
    w ← put_life (set_destroy_pending false) w;
    w ← http_connection_destroy w;
    Ok (w, true)
  else Ok (w, false).

Definition conn_destroy_microtask_handler (w : world) : res world :=
  w ← put_life (set_microtask None) w;
  '(w, _) ← finish_deferred w;
  Ok w.

Definition http_connection_destroy_if_idle_deferred (w : world) : res world :=
  c ← get_conn w;
  let l := c_life c in
  if negb (handler_refcount l =? 0) || negb (destroy_pending l) || bool_decide (is_Some (destroy_microtask l)) then Ok w
  else
    let '(w, t) := alloc w in
    w ← put_life (set_microtask (Some t)) w;
    Ok (put_tasks (w_tasks w ++ [(t, false)]) w).

(** The loop runs the oldest microtask, if it is not cancelled, and frees it. *)
Definition run_microtask (w : world) : res world :=
  match w_tasks w with
  | [] => Ok w
  | (t, cancelled) :: r =>
      let w := put_tasks r w in
      w ← (if (cancelled : bool) then Ok w else conn_destroy_microtask_handler w);
      release t w
  end.

(** ** The batched writer *)

Section writer.

(** Whether a producer waits for the drain, and [stream_write_buffer_bytes]. *)
Context (drain_hook : bool) (high : Z).

Definition out_below_lowwater (o : out_t) : bool :=
  (high =? 0) || (Z.of_nat (length (out_pending o)) <=? high / 2).

Definition http_connection_outbound_over_highwater (o : out_t) : bool :=
  negb (high =? 0) && (high <=? Z.of_nat (length (out_pending o))).

Definition out_signal_drain (w : world) : res world :=
  c ← get_conn w;
  if drain_hook && out_below_lowwater (c_out c) then
    Ok {| w_conn := w_conn w; w_bufs := w_bufs w; w_next := w_next w; w_wire := w_wire w; w_queue := w_queue w;
          w_dead := w_dead w; w_tasks := w_tasks w; w_drains := S (w_drains w) |}
  else Ok w.

(** [http2_conn_notify_emit] is the last thing done and starts new sends: they are
    further operations. *)
Definition http_send_batched_finish (w : world) : res world :=
  w ← put_out (set_in_flight false) w;
  '(w, destroyed) ← finish_deferred w;
  if (destroyed : bool) then Ok w else out_signal_drain w.

(** [while (new_cap < need) new_cap *= 2] *)
Fixpoint grow_cap (fuel : nat) (cap need : Z) : Z :=
  match fuel with
  | O => cap
  | S f => if cap <? need then grow_cap f (u64 (cap * 2)) need else cap
  end.

Definition out_pending_append (src : bytes) (w : world) : res world :=
  c ← get_conn w;
  let o := c_out c in
  let len := Z.of_nat (length (out_pending o)) + Z.of_nat (length src) in
  let need := u64 len in
  '(w, buf, cap) ←
    (if out_pending_cap o <? need then
       let cap := grow_cap 64 (if out_pending_cap o =? 0 then 16384 else out_pending_cap o) need in
       w ← match out_pending_buf o with Some b => release b w | None => Ok w end;
       let '(w, b) := alloc w in
       w ← put_out (set_pending (Some b) (out_pending o) cap) w;
       Ok (w, Some b, cap)
     else Ok (w, out_pending_buf o, out_pending_cap o));
  (* memcpy(out_pending_buf + out_pending_len, src, len) *)
  if cap <? len then Fault OutOfBounds else put_out (set_pending buf (out_pending o ++ src) cap) w.

(** Taking the coalesced tail: [out_pending_buf = NULL], [out_pending_len = 0]. *)
Definition take_pending (w : world) : res (world * nat * bytes) :=
  c ← get_conn w;
  w' ← put_out (set_pending None [] 0) w;
  match out_pending_buf (c_out c) with
  | Some b => Ok (w', b, out_pending (c_out c))
  | None => Fault AssertFailed
  end.

(** The callbacks of the batched writes.  [fuel] bounds the nesting: a callback that
    submits the tail runs the callback of that write when it is refused. *)
Fixpoint completion (fuel : nat) (d : write_data) (w : world) : res world :=
  match fuel with
  | O => Fault NoFuel
  | S f =>
      (* ZEND_ASYNC_IO_WRITE_EX of the tail *)
      let submit (b : nat) (payload : bytes) (w : world) : res (world * bool) :=
        if w_dead w then w ← completion f (DBuf b) w; Ok (w, false)
        else Ok (accept (DBuf b) payload w, true) in
      let has_pending (w : world) : res bool :=
        c ← get_conn w; Ok (negb (bool_decide (out_pending (c_out c) = []))) in
      match d with
      | DBuf b =>
          (* http_send_batched_completion_cb *)
          w ← release b w;
          more ← has_pending w;
          if (more : bool) then
            '(w, next_buf, next) ← take_pending w;
            '(w, ok) ← submit next_buf next w;
            if (ok : bool) then out_signal_drain w else put_out (set_in_flight false) w
          else http_send_batched_finish w
      | DZstr s =>
          (* http_send_batched_zstr_completion_cb, h1_batched_drain_pending *)
          w ← release s w;
          more ← has_pending w;
          if (more : bool) then
            '(w, next_buf, next) ← take_pending w;
            '(w, ok) ← submit next_buf next w;
            if (ok : bool) then Ok w
            else w ← put_out (set_in_flight false) w; http_send_batched_finish w
          else http_send_batched_finish w
      | DWritev =>
          (* http_send_batched_writev_completion_cb *)
          c ← get_conn w;
          w ← put_out (set_user None) w;
          w ← match out_writev_user (c_out c) with Some u => release u w | None => Ok w end;
          more ← has_pending w;
          if (more : bool) then
            '(w, next_buf, next) ← take_pending w;
            '(w, ok) ← submit next_buf next w;
            if (ok : bool) then out_signal_drain w else put_out (set_in_flight false) w
          else http_send_batched_finish w
      | DDirect strs => release_all strs w
      end
  end.

Definition COMPLETION_FUEL : nat := 2.

(** A submission by one of the senders. *)
Definition io_write (d : write_data) (payload : bytes) (w : world) : res (world * bool) :=
  if w_dead w then w ← completion COMPLETION_FUEL d w; Ok (w, false)
  else Ok (accept d payload w, true).

Definition http_connection_send_batched (buf : option nat) (payload : bytes) (w : world) : res (world * bool) :=
  match buf with
  | None => Ok (w, true)
  | Some b =>
      if bool_decide (payload = []) then w ← release b w; Ok (w, true)
      else
        c ← get_conn w;
        if write_timed_out (c_out c) then w ← release b w; Ok (w, false)
        else if out_in_flight (c_out c) then
          w ← out_pending_append payload w;
          w ← release b w;
          Ok (w, true)
        else
          w ← put_out (set_in_flight true) w;
          io_write (DBuf b) payload w
  end.

Definition http_connection_send_zstr_batched (body : option nat) (payload : bytes) (w : world) : res (world * bool) :=
  match body with
  | None => Ok (w, true)
  | Some s =>
      if bool_decide (payload = []) then w ← release s w; Ok (w, true)
      else
        c ← get_conn w;
        if write_timed_out (c_out c) then w ← release s w; Ok (w, false)
        else if out_in_flight (c_out c) then
          w ← out_pending_append payload w;
          w ← release s w;
          Ok (w, true)
        else
          w ← put_out (set_in_flight true) w;
          io_write (DZstr s) payload w
  end.

(** The coalescing loop over the vector. *)
Fixpoint append_all (iov : list bytes) (w : world) : res world :=
  match iov with
  | [] => Ok w
  | v :: r => w ← out_pending_append v w; append_all r w
  end.

Definition http_connection_send_batched_writev (iov : list bytes) (user : option nat) (w : world) : res (world * bool) :=
  let free_cb (w : world) := match user with Some u => release u w | None => Ok w end in
  match iov with
  | [] => w ← free_cb w; Ok (w, true)
  | _ =>
      c ← get_conn w;
      if write_timed_out (c_out c) then w ← free_cb w; Ok (w, false)
      else if out_in_flight (c_out c) then
        w ← append_all iov w;
        w ← free_cb w;
        Ok (w, true)
      else
        w ← put_out (set_user user) w;
        w ← put_out (set_in_flight true) w;
        io_write DWritev (concat iov) w
  end.

(** [http_connection_send_str_owned] and [http_connection_send_strv_owned]. *)
Definition http_connection_send_strv_owned (bufs : list (nat * bytes)) (w : world) : res (world * bool) :=
  match bufs with
  | [] => Ok (w, true)
  | _ =>
      c ← get_conn w;
      if write_timed_out (c_out c) then w ← release_all bufs.*1 w; Ok (w, false)
      else io_write (DDirect bufs.*1) (concat bufs.*2) w
  end.

Definition HTTP_WRITEV_THRESHOLD : Z := 1024.

(** How the end of a plaintext HTTP/1 request sends its response: formatted into one
    string below the threshold, headers and body apart above it. *)
Definition h1_send_response (headers body : bytes) (w : world) : res (world * bool) :=
  if Z.of_nat (length body) <? HTTP_WRITEV_THRESHOLD then
    let '(w, str) := alloc w in
    http_connection_send_zstr_batched (Some str) (headers ++ body) w
  else
    let '(w, hs) := alloc w in
    let '(w, bs) := alloc w in
    if bool_decide (headers = []) then w ← release hs w; http_connection_send_strv_owned [(bs, body)] w
    else http_connection_send_strv_owned [(hs, headers); (bs, body)] w.

(** ** Pins *)

Definition pin (w : world) : res world :=
  c ← get_conn w; put_life (set_refcount (u32 (handler_refcount (c_life c) + 1))) w.

(** The end of [http_request_finalize], without the pipelined tail. *)
Definition http_request_finalize (should_continue : bool) (w : world) : res world :=
  c ← get_conn w;
  if handler_refcount (c_life c) <=? 0 then Fault AssertFailed
  else
    w ← put_life (set_refcount (handler_refcount (c_life c) - 1)) w;
    '(w, destroyed) ← finish_deferred w;
    if (destroyed : bool) then Ok w
    else if should_continue then Ok w
    else http_connection_destroy w.

(** The release of the pins of HTTP/2 streams, static responses and WebSocket
    flushers. *)
Definition unpin_deferred (w : world) : res world :=
  c ← get_conn w;
  w ← (if 0 <? handler_refcount (c_life c) then put_life (set_refcount (handler_refcount (c_life c) - 1)) w else Ok w);
  http_connection_destroy_if_idle_deferred w.

(** The tail of the WebSocket handler's dispose. *)
Definition ws_handler_dispose (committed : bool) (w : world) : res world :=
  c ← get_conn w;
  if handler_refcount (c_life c) <=? 0 then Fault AssertFailed
  else
    let n := handler_refcount (c_life c) - 1 in
    w ← put_life (set_refcount n) w;
    if (committed : bool) then
      if n =? 0 then http_connection_destroy w else put_life (set_destroy_pending true) w
    else Ok w.

(** ** The parser and the TLS sender *)

Definition feed_begin (w : world) : res world := put_life (set_feed true) w.

(** The end of [feed] and the check that follows it in
    [http_connection_handle_read_completion]. *)
Definition feed_end (w : world) : res world :=
  w ← put_life (set_feed false) w;
  c ← get_conn w;
  if destroy_pending (c_life c) && (handler_refcount (c_life c) =? 0) then http_connection_destroy w else Ok w.

Definition tls_send_begin (w : world) : res world := put_life (set_tls_send true) w.

Definition tls_send_done (w : world) : res world :=
  w ← put_life (set_tls_send false) w;
  '(w, _) ← finish_deferred w;
  Ok w.

End writer.

End ConnOut.
