(* ===== verification/ConnOutInv.v ===== *)
(** * The invariant of a connection's output and teardown *)

From S2P Require Import Prelude ConnOut.

Module ConnOutInv.
Import ConnOut.

(** ** Memory

    [mem w l]: the live blocks are exactly [l], each owned once. *)
Definition mem (w : world) (l : list nat) : Prop :=
  NoDup l /\ (forall b, b ∈ w_bufs w <-> b ∈ l) /\ (forall b, b ∈ l -> (b < w_next w)%nat).

Lemma mem_perm w a b : a ≡ₚ b -> mem w a -> mem w b.
Proof.
  intros Hp (Hn & Hd & Hlt). split_and!; [by rewrite <- Hp|intros x; by rewrite <- Hp|]. intros x. rewrite <- Hp. apply Hlt.
Qed.

#[global] Instance mem_proper w : Proper ((≡ₚ) ==> iff) (mem w).
Proof. intros a b Hp. split; by apply mem_perm. Qed.

Lemma release_ok w b l : mem w (b :: l) ->
  exists B, release b w = Ok (put_bufs B w) /\ mem (put_bufs B w) l.
Proof.
  intros ([Hb Hn]%NoDup_cons & Hd & Hlt). exists (w_bufs w ∖ {[b]}). unfold release.
  rewrite bool_decide_eq_true_2 by (apply Hd; left). split; [done|]. split_and!; [done| |].
  - intros x. cbn. rewrite elem_of_difference, Hd, elem_of_cons, elem_of_singleton. naive_solver.
  - intros x Hx. apply Hlt. by right.
Qed.

Lemma release_opt_ok w (o : option nat) l : mem w (option_list o ++ l) ->
  exists B, match o with Some b => release b w | None => Ok w end = Ok (put_bufs B w) /\ mem (put_bufs B w) l.
Proof.
  destruct o as [b|]; cbn; [apply release_ok|]. intros H. exists (w_bufs w). by destruct w.
Qed.

Lemma release_all_ok bs w l : mem w (bs ++ l) ->
  exists B, release_all bs w = Ok (put_bufs B w) /\ mem (put_bufs B w) l.
Proof.
  revert w. induction bs as [|b bs IH]; intros w H; cbn [release_all].
  - exists (w_bufs w). by destruct w.
  - destruct (release_ok w b (bs ++ l) H) as (B & -> & H1). cbn.
    destruct (IH _ H1) as (B2 & E & H2). exists B2. by rewrite E.
Qed.

Lemma alloc_ok w l : mem w l -> mem (alloc w).1 ((alloc w).2 :: l).
Proof.
  intros (Hn & Hd & Hlt). split_and!; cbn.
  - apply NoDup_cons. split; [|done]. intros Hx%Hlt. lia.
  - intros b. rewrite elem_of_union, Hd, elem_of_singleton, elem_of_cons. done.
  - intros b [->|Hb]%elem_of_cons; [lia|]. specialize (Hlt b Hb). lia.
Qed.

(** ** Ownership *)

Definition data_bufs (d : write_data) : list nat :=
  match d with
  | DBuf b => [b]
  | DZstr s => [s]
  | DWritev => []
  | DDirect l => l
  end.

Definition queue_bufs (q : list write_data) : list nat := concat (map data_bufs q).

Definition out_bufs (o : out_t) : list nat := option_list (out_pending_buf o) ++ option_list (out_writev_user o).

Definition owned (w : world) : list nat :=
  queue_bufs (w_queue w) ++ match w_conn w with Some c => out_bufs (c_out c) | None => [] end ++ (w_tasks w).*1.

(** ** Batched writes and microtasks outstanding *)

Definition batched (d : write_data) : bool := match d with DDirect _ => false | _ => true end.

Definition batched_in (q : list write_data) : nat := length (List.filter batched q).

Definition live_tasks (l : list (nat * bool)) : list nat := (List.filter (fun tb => negb tb.2) l).*1.

Definition fits (n : Z) : Prop := n <= 2 ^ 62.

Record out_ok (o : out_t) (q : list write_data) : Prop := {
  ok_flight : batched_in q = if out_in_flight o then 1%nat else 0%nat;
  ok_idle : out_in_flight o = false -> out_pending o = [] /\ out_writev_user o = None;
  ok_buf : is_Some (out_pending_buf o) <-> out_pending o <> [];
  ok_cap : 0 <= out_pending_cap o < 2 ^ 63 /\ Z.of_nat (length (out_pending o)) <= out_pending_cap o /\
    (out_pending o = [] -> out_pending_cap o = 0);
  ok_user : is_Some (out_writev_user o) -> DWritev ∈ q;
}.

Record life_ok (l : life_t) (tasks : list (nat * bool)) : Prop := {
  ok_ref : 0 <= handler_refcount l < 2 ^ 32;
  ok_tasks : live_tasks tasks = option_list (destroy_microtask l);
}.

(** A teardown that was asked for and that nothing holds back is under way. *)
Definition not_stuck (c : http_connection_t) : Prop :=
  destroy_pending (c_life c) = true -> handler_refcount (c_life c) = 0 ->
  tls_send_in_flight (c_life c) = true \/ out_in_flight (c_out c) = true \/ in_parser_feed (c_life c) = true \/
  is_Some (destroy_microtask (c_life c)).

(** [extra] are blocks that belong to a call in progress. *)
Definition inv0x (extra : list nat) (w : world) : Prop :=
  mem w (extra ++ owned w) /\
  match w_conn w with
  | Some c => out_ok (c_out c) (w_queue w) /\ life_ok (c_life c) (w_tasks w)
  | None => batched_in (w_queue w) = 0%nat /\ live_tasks (w_tasks w) = []
  end.

Definition invx (extra : list nat) (w : world) : Prop :=
  inv0x extra w /\ match w_conn w with Some c => not_stuck c | None => True end.

Abbreviation inv0 := (inv0x []).
Abbreviation inv := (invx []).

(** What teardown does not touch. *)
Definition same_io (w w' : world) : Prop :=
  w_wire w' = w_wire w /\ w_queue w' = w_queue w /\ w_dead w' = w_dead w.

Definition same_out (w w' : world) : Prop :=
  match w_conn w, w_conn w' with
  | Some c, Some c' => c_out c' = c_out c
  | _, None => True
  | None, Some _ => False
  end.

(** ** Microtasks *)

Lemma cancel_task_fst t l : (cancel_task t l).*1 = l.*1.
Proof. induction l as [|[i b] l IH]; cbn; [done|]. destruct (i =? t)%nat; cbn; by rewrite ?IH. Qed.

Lemma cancel_task_live t l : NoDup l.*1 -> live_tasks l = [t] -> live_tasks (cancel_task t l) = [].
Proof.
  unfold live_tasks. induction l as [|[i b] l IH]; cbn [cancel_task List.filter]; [done|].
  cbn. intros [Hi Hn]%NoDup_cons. destruct b; cbn.
  - intros Hl. destruct (Nat.eqb_spec i t) as [->|]; cbn; [|by apply IH].
    exfalso. apply Hi. assert (t ∈ (List.filter (fun tb : nat * bool => negb tb.2) l).*1) as Ht by (rewrite Hl; left).
    apply list_elem_of_fmap in Ht as ([t' b'] & -> & Hx). apply list_elem_of_fmap. exists (t', b').
    split; [done|]. apply list_elem_of_In in Hx. apply filter_In in Hx as [Hx _]. by apply list_elem_of_In.
  - intros [= -> Hl]. rewrite Nat.eqb_refl. cbn. exact Hl.
Qed.

Lemma owned_tasks_NoDup x w : mem w (x ++ owned w) -> NoDup (w_tasks w).*1.
Proof.
  intros (Hn & _ & _). unfold owned in Hn. by apply NoDup_app in Hn as (_ & _ & (_ & _ & (_ & _ & ?)%NoDup_app)%NoDup_app).
Qed.


(** ** Teardown *)

(** A gate of [http_connection_destroy] is shut. *)
Definition held_back (c : http_connection_t) : bool :=
  (0 <? handler_refcount (c_life c)) || tls_send_in_flight (c_life c) || out_in_flight (c_out c) || in_parser_feed (c_life c).

(** A change of the lifetime fields that leaves the counts and the microtask. *)
Lemma life_change x w c l' : inv0x x w -> w_conn w = Some c ->
  0 <= handler_refcount l' < 2 ^ 32 -> destroy_microtask l' = destroy_microtask (c_life c) ->
  inv0x x (put_conn (Some {| c_out := c_out c; c_life := l' |}) w).
Proof.
  intros [Hm H] Ec Hr Ht. rewrite Ec in H. destruct H as [Ho [_ Htk]]. split.
  - unfold owned in *. cbn. rewrite Ec in Hm. exact Hm.
  - cbn. split; [done|]. split; [done|]. by rewrite Ht.
Qed.

Lemma put_life_eq f w c : w_conn w = Some c ->
  put_life f w = Ok (put_conn (Some {| c_out := c_out c; c_life := f (c_life c) |}) w).
Proof. intros E. unfold put_life, get_conn. by rewrite E. Qed.

Lemma put_out_eq f w c : w_conn w = Some c ->
  put_out f w = Ok (put_conn (Some {| c_out := f (c_out c); c_life := c_life c |}) w).
Proof. intros E. unfold put_out, get_conn. by rewrite E. Qed.

Lemma get_conn_eq w c : w_conn w = Some c -> get_conn w = Ok c.
Proof. intros E. unfold get_conn. by rewrite E. Qed.

(** Cancelling the microtask. *)
Lemma cancel_ok x w c : inv0x x w -> w_conn w = Some c ->
  exists w' c', match destroy_microtask (c_life c) with
      | None => Ok w
      | Some t => put_life (set_microtask None) (put_tasks (cancel_task t (w_tasks w)) w)
      end = Ok w' /\ inv0x x w' /\ w_conn w' = Some c' /\ c_out c' = c_out c /\ c_life c' = set_microtask None (c_life c) /\ same_io w w'.
Proof.
  intros I Ec. destruct (destroy_microtask (c_life c)) as [t|] eqn:Et.
  - rewrite (put_life_eq _ _ c) by done. do 2 eexists. split; [done|]. destruct I as [Hm H]. rewrite Ec in H.
    destruct H as [Ho [Hr Htk]]. rewrite Et in Htk. cbn in Htk. split; [|done]. split.
    + unfold owned in *. cbn. rewrite Ec in Hm. rewrite cancel_task_fst. exact Hm.
    + cbn. split; [done|]. split; [done|]. cbn. apply cancel_task_live; [by eapply owned_tasks_NoDup|done].
  - exists w, c. split_and!; try done. destruct (c_life c); cbn in *. by subst.
Qed.

Lemma destroy_ok x w c : inv0x x w -> w_conn w = Some c ->
  exists w', http_connection_destroy w = Ok w' /\ invx x w' /\ same_io w w' /\ same_out w w' /\
    w_conn w' = if held_back c then Some {| c_out := c_out c; c_life := set_destroy_pending true (set_microtask None (c_life c)) |} else None.
Proof.
  intros I Ec. destruct (cancel_ok x w c I Ec) as (w1 & c1 & E1 & I1 & Ec1 & Eo & El & Hio).
  unfold http_connection_destroy. rewrite (get_conn_eq _ _ Ec). cbn [mbind res_bind]. rewrite E1. cbn [mbind res_bind].
  rewrite (get_conn_eq _ _ Ec1). cbn [mbind res_bind]. rewrite Eo, El. cbn [handler_refcount tls_send_in_flight in_parser_feed set_microtask].
  assert (held_back c = true -> invx x (put_conn (Some {| c_out := c_out c1; c_life := set_destroy_pending true (c_life c1) |}) w1)) as Hgate.
  { intros Hh. split.
    - apply life_change; [done|done| |done]. destruct I1 as [_ H]. rewrite Ec1 in H. destruct H as [_ [Hr _]]. exact Hr.
    - cbn. unfold not_stuck. cbn. rewrite Eo, El. cbn. intros _ H0. unfold held_back in Hh. rewrite H0 in Hh. cbn in Hh.
      destruct (tls_send_in_flight (c_life c)), (out_in_flight (c_out c)), (in_parser_feed (c_life c)); auto. }
  assert (held_back c = true -> exists w', put_life (set_destroy_pending true) w1 = Ok w' /\ invx x w' /\ same_io w w' /\ same_out w w' /\
      w_conn w' = Some {| c_out := c_out c; c_life := set_destroy_pending true (set_microtask None (c_life c)) |}) as Hg.
  { intros Hh. rewrite (put_life_eq _ _ _ Ec1). eexists. split; [done|]. split; [by apply Hgate|]. split; [done|]. cbn.
    unfold same_out. rewrite Ec. cbn. rewrite Eo, El. done. }
  unfold held_back in *. destruct (0 <? handler_refcount (c_life c)); [by apply Hg|]. destruct (tls_send_in_flight (c_life c)); [by apply Hg|].
  destruct (out_in_flight (c_out c)) eqn:Ef; [by apply Hg|]. destruct (in_parser_feed (c_life c)); [by apply Hg|]. cbn [orb].
  destruct I1 as [Hm H]. rewrite Ec1 in H. destruct H as [[Hfl Hid Hb _ _] [_ Htk]]. rewrite Eo in *.
  destruct (Hid Ef) as [Hp Hu]. rewrite Hp in Hb. rewrite Ef in Hfl.
  assert (out_pending_buf (c_out c) = None) as Hpb.
  { destruct (out_pending_buf (c_out c)); [|done]. by destruct (proj1 Hb (mk_is_Some _ _ eq_refl)). }
  rewrite Hpb. cbn [mbind res_bind]. eexists. split; [done|]. rewrite El in Htk. cbn in Htk. split_and!; [|done|by unfold same_out; rewrite Ec|done].
  split; [|done]. split; [|done]. unfold owned in *. cbn. rewrite Ec1 in Hm. unfold out_bufs in Hm. by rewrite Eo, Hpb, Hu in Hm.
Qed.

Lemma finish_deferred_ok x w c : inv0x x w -> w_conn w = Some c ->
  exists w' b, finish_deferred w = Ok (w', b) /\ same_io w w' /\ same_out w w' /\ inv0x x w' /\
    match b with
    | true => invx x w' /\ destroy_pending (c_life c) = true /\ handler_refcount (c_life c) = 0 /\
        (held_back c = false -> w_conn w' = None)
    | false => w' = w /\ (destroy_pending (c_life c) = true -> handler_refcount (c_life c) <> 0)
    end.
Proof.
  intros I Ec. unfold finish_deferred. rewrite (get_conn_eq _ _ Ec). cbn [mbind res_bind].
  destruct (destroy_pending (c_life c)) eqn:Ep; cbn [andb].
  - destruct (handler_refcount (c_life c) =? 0) eqn:Er; b2p.
    + rewrite (put_life_eq _ _ _ Ec). cbn [mbind res_bind].
      set (c1 := {| c_out := c_out c; c_life := set_destroy_pending false (c_life c) |}).
      destruct (destroy_ok x (put_conn (Some c1) w) c1) as (w' & E & I' & Hio & Hso & Ec').
      { apply life_change; try done. destruct I as [_ H]. rewrite Ec in H. apply H. }
      { done. }
      rewrite E. cbn [mbind res_bind]. exists w', true. split; [done|]. split; [done|]. split.
      { unfold same_out in *. rewrite Ec. cbn in Hso. exact Hso. }
      split; [apply I'|]. split_and!; try done. intros Hh. rewrite Ec'. change (held_back c1) with (held_back c). by rewrite Hh.
    + exists w, false. split_and!; try done. unfold same_out. by rewrite Ec.
  - exists w, false. split_and!; try done. unfold same_out. by rewrite Ec.
Qed.


(** ** Completions *)

Definition pend (w : world) : bytes := match w_conn w with Some c => out_pending (c_out c) | None => [] end.

(** The state inside a completion callback, once the data of the write is released:
    the flag is still set but no batched write is outstanding. *)
Record mid (w : world) (c : http_connection_t) : Prop := {
  mid_conn : w_conn w = Some c;
  mid_mem : mem w (owned w);
  mid_queue : batched_in (w_queue w) = 0%nat;
  mid_user : out_writev_user (c_out c) = None;
  mid_buf : is_Some (out_pending_buf (c_out c)) <-> out_pending (c_out c) <> [];
  mid_cap : 0 <= out_pending_cap (c_out c) < 2 ^ 63 /\ Z.of_nat (length (out_pending (c_out c))) <= out_pending_cap (c_out c) /\
    (out_pending (c_out c) = [] -> out_pending_cap (c_out c) = 0);
  mid_life : life_ok (c_life c) (w_tasks w);
}.

Section writer.
Context (drain_hook : bool) (high : Z).

Abbreviation finish := (http_send_batched_finish drain_hook high).
Abbreviation signal := (out_signal_drain drain_hook high).

(** Signalling changes nothing but the count of signals. *)
Lemma signal_ok w c : w_conn w = Some c ->
  exists w', signal w = Ok w' /\ w_conn w' = Some c /\ same_io w w' /\ (inv0 w -> inv0 w').
Proof.
  intros Ec. unfold out_signal_drain. rewrite (get_conn_eq _ _ Ec). cbn [mbind res_bind]. case_if.
  - eexists. split; [done|]. cbn. split_and!; try done.
  - exists w. by split_and!.
Qed.

(** After the last outstanding write. *)
Lemma finish_ok w c : w_conn w = Some c -> mem w (owned w) -> batched_in (w_queue w) = 0%nat ->
  out_pending (c_out c) = [] -> out_pending_buf (c_out c) = None -> out_writev_user (c_out c) = None ->
  out_pending_cap (c_out c) = 0 -> life_ok (c_life c) (w_tasks w) ->
  exists w', finish w = Ok w' /\ inv w' /\ same_io w w' /\ pend w' = [] /\
    (destroy_pending (c_life c) = true -> handler_refcount (c_life c) = 0 ->
       tls_send_in_flight (c_life c) = false -> in_parser_feed (c_life c) = false -> w_conn w' = None) /\
    (~ (destroy_pending (c_life c) = true /\ handler_refcount (c_life c) = 0) ->
       w_conn w' = Some {| c_out := set_in_flight false (c_out c); c_life := c_life c |}).
Proof.
  intros Ec Hm Hq Hp Hb Hu Hcap Hl. unfold http_send_batched_finish. rewrite (put_out_eq _ _ _ Ec). cbn [mbind res_bind].
  set (c1 := {| c_out := set_in_flight false (c_out c); c_life := c_life c |}). set (w1 := put_conn (Some c1) w).
  assert (inv0 w1) as I1.
  { split; [unfold owned in *; cbn; rewrite Ec in Hm; exact Hm|]. cbn. split; [|done]. split; cbn; rewrite ?Hp, ?Hb, ?Hu; cbn; try done; try lia.
    all: by rewrite is_Some_alt. }
  destruct (finish_deferred_ok [] w1 c1 I1 eq_refl) as (w2 & b & E & Hio & Hso & I2 & Hres). rewrite E. cbn [mbind res_bind].
  assert (pend w2 = []) as Hpd.
  { unfold pend. unfold same_out in Hso. cbn in Hso. destruct (w_conn w2); [|done]. by rewrite Hso. }
  destruct b.
  - destruct Hres as (I2' & Hd & Hr & Hfree). cbn in Hd, Hr. exists w2. split_and!; try done.
    + intros _ _ Ht Hf. apply Hfree. unfold held_back. cbn. by rewrite Hr, Ht, Hf.
    + tauto.
  - destruct Hres as (-> & Hd). destruct (signal_ok w1 c1 eq_refl) as (w3 & E3 & Ec3 & Hio3 & I3). rewrite E3. exists w3.
    split_and!; try done; try apply Hio3.
    + split; [by apply I3|]. rewrite Ec3. intros H1 H2. by destruct Hd.
    + unfold pend. by rewrite Ec3.
    + intros H1 H2. by destruct Hd.
Qed.

Lemma take_pending_ok w c : mid w c -> out_pending (c_out c) <> [] ->
  exists b w', take_pending w = Ok (w', b, out_pending (c_out c)) /\
    w' = put_conn (Some {| c_out := set_pending None [] 0 (c_out c); c_life := c_life c |}) w /\
    mem w' (b :: owned w').
Proof.
  intros [Ec Hm Hq Hu Hb Hcap Hl] Hp. destruct (proj2 Hb Hp) as [b Eb]. unfold take_pending. rewrite (get_conn_eq _ _ Ec). cbn [mbind res_bind].
  rewrite (put_out_eq _ _ _ Ec). cbn [mbind res_bind]. rewrite Eb. exists b. eexists. split; [done|]. split; [done|].
  unfold owned in *. rewrite Ec in Hm. cbn. unfold out_bufs in *. rewrite Eb in Hm. cbn in *. by rewrite Permutation_middle.
Qed.

(** What a completion does to the stream. *)
Definition flows (w w' : world) : Prop :=
  w_dead w' = w_dead w /\
  (if w_dead w then w_wire w' = w_wire w /\ pend w' = [] else w_wire w' ++ pend w' = w_wire w ++ pend w).

(** Submitting the tail, when the reactor takes it. *)
Lemma submit_ok w c : mid w c -> out_in_flight (c_out c) = true -> out_pending (c_out c) <> [] ->
  exists b w', take_pending w = Ok (w', b, out_pending (c_out c)) /\ w_dead w' = w_dead w /\
    w_conn w' = Some {| c_out := set_pending None [] 0 (c_out c); c_life := c_life c |} /\
    inv (accept (DBuf b) (out_pending (c_out c)) w') /\
    w_wire w' = w_wire w /\ w_queue w' = w_queue w /\ w_tasks w' = w_tasks w /\ mem w' (b :: owned w').
Proof.
  intros M Hf Hp. destruct (take_pending_ok w c M Hp) as (b & w' & E & -> & Hm'). destruct M as [Ec Hm Hq Hu Hb Hcap Hl].
  exists b. eexists. split; [exact E|]. split_and!; try done. split; [split|].
  - unfold owned in *. cbn in *. unfold queue_bufs. rewrite map_app, concat_app. cbn. rewrite <- app_assoc. cbn.
    eapply mem_perm; [|exact Hm']. by rewrite Permutation_middle.
  - cbn. split; [|done]. split; cbn.
    + unfold batched_in. rewrite List.filter_app, length_app. unfold batched_in in Hq. rewrite Hq, Hf. done.
    + congruence.
    + rewrite is_Some_alt. done.
    + lia.
    + rewrite Hu, is_Some_alt. done.
  - cbn. intros _ _. cbn. auto.
Qed.


(** The combination the callbacks do not survive: see [refused_tail_use_after_free]. *)
Definition hazard (w : world) (c : http_connection_t) : Prop :=
  w_dead w = true /\ out_pending (c_out c) <> [] /\ destroy_pending (c_life c) = true /\ handler_refcount (c_life c) = 0.

(** What a callback achieves. *)
Definition completed (c : http_connection_t) (w w' : world) : Prop :=
  inv w' /\ flows w w' /\
  (out_pending (c_out c) = [] -> w_queue w' = w_queue w /\
     (destroy_pending (c_life c) = true -> handler_refcount (c_life c) = 0 ->
        tls_send_in_flight (c_life c) = false -> in_parser_feed (c_life c) = false -> w_conn w' = None)) /\
  (out_pending (c_out c) <> [] -> w_dead w = false ->
     exists b c', w_queue w' = w_queue w ++ [DBuf b] /\ w_conn w' = Some c' /\ c_life c' = c_life c /\ out_pending (c_out c') = []) /\
  (handler_refcount (c_life c) <> 0 -> is_Some (w_conn w')).

Lemma mid_finish w c : mid w c -> out_pending (c_out c) = [] ->
  exists w', http_send_batched_finish drain_hook high w = Ok w' /\ completed c w w'.
Proof.
  intros [Ec Hm Hq Hu Hb Hcap Hl] Hp.
  assert (out_pending_buf (c_out c) = None) as Hbn.
  { destruct (out_pending_buf (c_out c)); [|done]. by destruct (proj1 Hb (mk_is_Some _ _ eq_refl)). }
  destruct (finish_ok w c Ec Hm Hq Hp Hbn Hu (proj2 (proj2 Hcap) Hp) Hl) as (w' & E & I & (Hw & Hqq & Hd) & Hpd & Hfree & Hstay).
  exists w'. split; [done|]. split; [done|]. unfold flows. rewrite Hw, Hd, Hpd. assert (pend w = []) as -> by (unfold pend; by rewrite Ec).
  split_and!; try done; [by case_if|]. intros Hr. rewrite Hstay by tauto. done.
Qed.

(** The tail submitted and accepted. *)
Lemma mid_accept w c : mid w c -> out_in_flight (c_out c) = true -> out_pending (c_out c) <> [] -> w_dead w = false ->
  exists b w1 w', take_pending w = Ok (w1, b, out_pending (c_out c)) /\ w_dead w1 = false /\
    completed c w (accept (DBuf b) (out_pending (c_out c)) w1) /\
    out_signal_drain drain_hook high (accept (DBuf b) (out_pending (c_out c)) w1) = Ok w' /\ completed c w w'.
Proof.
  intros M Hf Hp Hdead. destruct (submit_ok w c M Hf Hp) as (b & w1 & E & Hd & Ec1 & I & Hw & Hq & _ & _).
  set (w2 := accept (DBuf b) (out_pending (c_out c)) w1) in *.
  assert (completed c w w2) as H2.
  { split; [done|]. unfold flows, pend. cbn. rewrite Ec1, (mid_conn _ _ M), Hd, Hw, Hq, Hdead. split_and!; try done.
    - by rewrite app_nil_r.
    - intros _ _. do 2 eexists. split_and!; done. }
  destruct (signal_ok w2 {| c_out := set_pending None [] 0 (c_out c); c_life := c_life c |}) as (w3 & E3 & Ec3 & (Hw3 & Hq3 & Hd3) & I3); [done|].
  exists b, w1, w3. split_and!; try done; [by rewrite Hd|]. destruct H2 as (I2 & (Hfd & Hfw) & Hpe & Hpn & Hst). split_and!.
  - destruct I2 as [I2 Hns]. split; [by apply I3|]. rewrite Ec3. change (w_conn w2) with (w_conn w1) in Hns. by rewrite Ec1 in Hns.
  - unfold flows, pend. rewrite Hd3, Ec3, Hw3, (mid_conn _ _ M), Hdead. cbn. by rewrite Hd, Hw, app_nil_r.
  - done.
  - intros _ _. rewrite Hq3, Ec3. cbn. rewrite Hq. by do 2 eexists.
  - intros _. by rewrite Ec3.
Qed.

(** The tail submitted and refused, the connection staying. *)
Lemma mid_refused f w c : mid w c -> out_in_flight (c_out c) = true -> out_pending (c_out c) <> [] -> w_dead w = true -> ~ hazard w c ->
  exists b w1 w2 w3 w4, take_pending w = Ok (w1, b, out_pending (c_out c)) /\ w_dead w1 = true /\
    completion drain_hook high (S f) (DBuf b) w1 = Ok w2 /\
    put_out (set_in_flight false) w2 = Ok w3 /\ completed c w w3 /\
    http_send_batched_finish drain_hook high w3 = Ok w4 /\ completed c w w4.
Proof.
  intros M Hf Hp Hdead Hz. destruct (submit_ok w c M Hf Hp) as (b & w1 & E & Hd & Ec1 & _ & Hw & Hq & Htk & Hm1).
  set (c1 := {| c_out := set_pending None [] 0 (c_out c); c_life := c_life c |}) in *.
  destruct M as [Ec Hm Hqq Hu Hb Hcap Hl].
  assert (~ (destroy_pending (c_life c) = true /\ handler_refcount (c_life c) = 0)) as Hnd by (intros [? ?]; by apply Hz).
  destruct (release_ok w1 b _ Hm1) as (B & Er & Hmr). set (w1' := put_bufs B w1) in *.
  assert (w_conn w1' = Some c1) as Ec1' by done.
  assert (life_ok (c_life c) (w_tasks w1')) as Hl1 by (cbn; by rewrite Htk).
  destruct (finish_ok w1' c1 Ec1' Hmr) as (w2 & E2 & I2 & (Hw2 & Hq2 & Hd2) & Hp2 & _ & Hc2); try done; [by cbn; rewrite Hq|].
  specialize (Hc2 Hnd). cbn in Hc2.
  exists b, w1, w2. assert (put_out (set_in_flight false) w2 = Ok w2) as Eid.
  { rewrite (put_out_eq _ _ _ Hc2). cbn. f_equal. destruct w2; cbn in *. by subst. }
  set (c2 := {| c_out := set_in_flight false (set_pending None [] 0 (c_out c)); c_life := c_life c |}) in *.
  destruct I2 as [[Hm2 H2] Hns]. rewrite Hc2 in H2, Hns. destruct H2 as [Ho2 Hl2].
  destruct (finish_ok w2 c2 Hc2 Hm2) as (w4 & E4 & I4 & (Hw4 & Hq4 & Hd4) & Hp4 & _ & Hc4); try done; [by apply Ho2|].
  exists w2, w4. split_and!; try done.
  - by rewrite Hd.
  - cbn [completion]. rewrite Er. cbn [mbind res_bind]. fold w1'. rewrite (get_conn_eq _ _ Ec1'). cbn [mbind res_bind]. cbn. exact E2.
  - split; [split; [split; [done|by rewrite Hc2]|by rewrite Hc2]|]. unfold flows. rewrite Hdead. split_and!; try done.
    + rewrite Hd2. cbn. by rewrite Hd.
    + by rewrite Hw2.
  - split; [done|]. unfold flows. rewrite Hdead. split_and!; try done.
    + rewrite Hd4, Hd2. cbn. by rewrite Hd.
    + by rewrite Hw4, Hw2.
    + intros _. by rewrite Hc4.
Qed.

(** The callback of a batched write, run with no other one outstanding. *)
Lemma completion_ok d w c f :
  w_conn w = Some c -> mem w (data_bufs d ++ owned w) -> batched d = true -> batched_in (w_queue w) = 0%nat ->
  out_in_flight (c_out c) = true -> (d = DWritev \/ out_writev_user (c_out c) = None) ->
  (is_Some (out_pending_buf (c_out c)) <-> out_pending (c_out c) <> []) ->
  (0 <= out_pending_cap (c_out c) < 2 ^ 63 /\ Z.of_nat (length (out_pending (c_out c))) <= out_pending_cap (c_out c) /\
    (out_pending (c_out c) = [] -> out_pending_cap (c_out c) = 0)) ->
  life_ok (c_life c) (w_tasks w) -> ~ hazard w c ->
  exists w', completion drain_hook high (S (S f)) d w = Ok w' /\ completed c w w'.
Proof.
  intros Ec Hm Hd Hq Hf Hu Hb Hcap Hl Hz.
  (* releasing the data leaves a state of the middle *)
  assert (exists w1 c1, match d with
      | DBuf b | DZstr b => release b w
      | DWritev => w ← put_out (set_user None) w; match out_writev_user (c_out c) with Some u => release u w | None => Ok w end
      | DDirect l => Ok w
      end = Ok w1 /\ mid w1 c1 /\ c_out c1 = set_user None (c_out c) /\ c_life c1 = c_life c /\
      w_wire w1 = w_wire w /\ w_dead w1 = w_dead w /\ w_queue w1 = w_queue w) as (w1 & c1 & E1 & M & Eo & El & Hw1 & Hd1 & Hq1).
  { destruct d as [b|b| |l]; [| | |done].
    1-2: destruct Hu as [Hu|Hu]; [discriminate|]; destruct (release_ok w b _ Hm) as (B & -> & Hm'); exists (put_bufs B w), c;
      (split; [done|]); (split; [by split|]); split_and!; try done; destruct (c_out c); cbn in *; by subst.
    rewrite (put_out_eq _ _ _ Ec). cbn [mbind res_bind].
    set (w0 := put_conn _ w). destruct (release_opt_ok w0 (out_writev_user (c_out c)) (owned w0)) as (B & -> & Hm').
    { unfold w0, owned in *. cbn in *. rewrite Ec in Hm. unfold out_bufs in *. cbn. refine (mem_perm w0 _ _ _ Hm).
      rewrite app_nil_r. solve_Permutation. }
    do 2 eexists. split; [done|]. split_and!; try done. }
  assert (completed c1 w1 = completed c w1) as Ecc by (unfold completed; by rewrite Eo, El).
  assert (pend w1 = pend w) as Hpe by (unfold pend; rewrite (mid_conn _ _ M), Ec, Eo; done).
  assert (forall w', completed c1 w1 w' -> completed c w w') as Hcc.
  { intros w'. rewrite Ecc. unfold completed, flows. by rewrite Hw1, Hd1, Hq1, Hpe. }
  assert (out_in_flight (c_out c1) = true) as Hf1 by (by rewrite Eo).
  assert (~ hazard w1 c1) as Hz1 by (unfold hazard; by rewrite Hd1, Eo, El).
  (* then the common tail *)
  assert (has : get_conn w1 = Ok c1) by (apply get_conn_eq, M).
  assert (Ebr : bool_decide (out_pending (c_out c1) = []) = true \/ bool_decide (out_pending (c_out c1) = []) = false) by (destruct (bool_decide _); auto).
  assert (exists w', (if d is DZstr _ then
        (if bool_decide (out_pending (c_out c1) = []) then http_send_batched_finish drain_hook high w1
         else '(w, b, p) ← take_pending w1;
              '(w, ok) ← (if w_dead w then w ← completion drain_hook high (S f) (DBuf b) w; Ok (w, false) else Ok (accept (DBuf b) p w, true));
              if (ok : bool) then Ok w else w ← put_out (set_in_flight false) w; http_send_batched_finish drain_hook high w)
      else
        (if bool_decide (out_pending (c_out c1) = []) then http_send_batched_finish drain_hook high w1
         else '(w, b, p) ← take_pending w1;
              '(w, ok) ← (if w_dead w then w ← completion drain_hook high (S f) (DBuf b) w; Ok (w, false) else Ok (accept (DBuf b) p w, true));
              if (ok : bool) then out_signal_drain drain_hook high w else put_out (set_in_flight false) w)) = Ok w' /\
      completed c w w') as (w' & Et & C).
  { destruct (decide (out_pending (c_out c1) = [])) as [Hp|Hp].
    - rewrite bool_decide_eq_true_2 by done. destruct (mid_finish w1 c1 M Hp) as (w' & E & C). exists w'. split; [by destruct d|auto].
    - rewrite bool_decide_eq_false_2 by done. destruct (w_dead w1) eqn:Edead.
      + destruct (mid_refused f w1 c1 M Hf1 Hp Edead Hz1) as (b & w2 & w3 & w4 & w5 & E2 & D2 & E3 & E4 & C4 & E5 & C5).
        rewrite E2. cbn [mbind res_bind]. rewrite D2, E3. cbn [mbind res_bind]. rewrite E4. cbn [mbind res_bind]. rewrite E5.
        destruct d; eauto.
      + destruct (mid_accept w1 c1 M Hf1 Hp Edead) as (b & w2 & w3 & E2 & D2 & C2 & E3 & C3).
        rewrite E2. cbn [mbind res_bind]. rewrite D2. cbn [mbind res_bind]. rewrite E3. destruct d; eauto. }
  exists w'. split; [|done]. destruct d as [b|b| |l]; [| | |done]; cbn [completion].
  1-2: rewrite E1; cbn [mbind res_bind]; rewrite has; cbn [mbind res_bind]; destruct Ebr as [Ebr|Ebr]; rewrite Ebr in Et |- *; exact Et.
  rewrite (get_conn_eq _ _ Ec). cbn [mbind res_bind]. destruct (put_out _ w) as [w0|]; [|done]. cbn [mbind res_bind] in E1 |- *.
  rewrite E1; cbn [mbind res_bind]; rewrite has; cbn [mbind res_bind]; destruct Ebr as [Ebr|Ebr]; rewrite Ebr in Et |- *; exact Et.
Qed.
End writer.

End ConnOutInv.
