(* ===== verification/ConnOutProps.v ===== *)
(** * Output order and teardown of a connection

    The operations of ConnOut as a system: producers send, the reactor completes or
    refuses writes, handlers pin and unpin, anyone asks for the teardown. *)

From S2P Require Import Prelude ConnOut ConnOutInv.

Module ConnOutProps.
Import ConnOut ConnOutInv.

(** ** Coalescing *)

Lemma grow_cap_ok n cap need : 0 < cap < 2 ^ 63 -> need <= 2 ^ 62 -> need <= cap * 2 ^ Z.of_nat n ->
  need <= grow_cap n cap need /\ 0 < grow_cap n cap need < 2 ^ 63.
Proof.
  revert cap. induction n as [|n IH]; intros cap Hc Hn Hle; cbn [grow_cap].
  - split; [|done]. replace (2 ^ Z.of_nat 0) with 1 in Hle by done. lia.
  - case_if; b2p; [|lia]. rewrite u64_small by lia. apply IH; [lia|done|]. rewrite Nat2Z.inj_succ, Z.pow_succ_r in Hle by lia. lia.
Qed.

Lemma append_ok w c src l :
  w_conn w = Some c -> mem w (l ++ owned w) -> out_ok (c_out c) (w_queue w) -> out_in_flight (c_out c) = true ->
  fits (Z.of_nat (length (out_pending (c_out c))) + Z.of_nat (length src)) ->
  exists w' c', out_pending_append src w = Ok w' /\ w_conn w' = Some c' /\ mem w' (l ++ owned w') /\
    out_ok (c_out c') (w_queue w') /\ out_in_flight (c_out c') = true /\ c_life c' = c_life c /\ w_tasks w' = w_tasks w /\
    write_timed_out (c_out c') = write_timed_out (c_out c) /\
    same_io w w' /\ out_pending (c_out c') = out_pending (c_out c) ++ src.
Proof.
  intros Ec Hm [Hfl Hid Hb Hcap Hu] Hf Hfit. unfold out_pending_append. rewrite (get_conn_eq _ _ Ec). cbn [mbind res_bind].
  unfold fits in Hfit. rewrite u64_small by lia.
  set (len := Z.of_nat (length (out_pending (c_out c))) + Z.of_nat (length src)) in *.
  assert (length (out_pending (c_out c) ++ src) = Z.to_nat len) as Hlen by (rewrite length_app; lia).
  destruct (out_pending_cap (c_out c) <? len) eqn:El; b2p.
  - set (cap0 := if out_pending_cap (c_out c) =? 0 then 16384 else out_pending_cap (c_out c)).
    assert (0 < cap0 < 2 ^ 63) as Hc0 by (unfold cap0; case_if; b2p; lia).
    destruct (grow_cap_ok 64 cap0 len Hc0 Hfit) as [Hg1 Hg2]; [change (2 ^ Z.of_nat 64) with (2 ^ 64); nia|].
    set (cap := grow_cap 64 cap0 len) in *. clearbody cap.
    assert (exists R, owned w ≡ₚ option_list (out_pending_buf (c_out c)) ++ R /\
      forall w' c' b, w_conn w' = Some c' -> out_pending_buf (c_out c') = Some b -> out_writev_user (c_out c') = out_writev_user (c_out c) ->
        w_queue w' = w_queue w -> w_tasks w' = w_tasks w -> owned w' ≡ₚ b :: R) as (R & HR1 & HR2).
    { exists (queue_bufs (w_queue w) ++ option_list (out_writev_user (c_out c)) ++ (w_tasks w).*1). unfold owned, out_bufs. rewrite Ec. cbn.
      split; [solve_Permutation|]. intros w' c' b -> -> -> -> ->. cbn. solve_Permutation. }
    rewrite HR1 in Hm.
    destruct (release_opt_ok w (out_pending_buf (c_out c)) (l ++ R)) as (B & -> & Hm1).
    { eapply mem_perm; [|exact Hm]. solve_Permutation. }
    cbn [mbind res_bind]. apply alloc_ok in Hm1. set (wa := alloc (put_bufs B w)) in *. destruct wa as [w1 b] eqn:Ea.
    rewrite (put_out_eq _ _ c) by (unfold wa in Ea; injection Ea as <- <-; done). cbn [mbind res_bind].
    rewrite (proj2 (Z.ltb_ge _ _)) by lia. erewrite put_out_eq by done. unfold wa in Ea. injection Ea as <- <-.
    do 2 eexists. split; [done|]. split; [done|]. split_and!; try done.
    + eapply mem_perm; [|exact Hm1]. erewrite HR2 by done. solve_Permutation.
    + split; cbn; try done.
      * congruence.
      * split; [|done]. intros _ E. apply (f_equal length) in E. rewrite Hlen in E. cbn in E. lia.
      * rewrite Hlen. split_and!; try lia. intros E. apply (f_equal length) in E. rewrite Hlen in E. cbn in E. lia.
  - cbn [mbind res_bind]. rewrite (proj2 (Z.ltb_ge _ _)) by lia. rewrite (put_out_eq _ _ _ Ec). do 2 eexists. split; [done|]. split; [done|].
    cbn. split_and!; try done.
    + unfold owned in *. cbn. rewrite Ec in Hm. exact Hm.
    + split; cbn; try done.
      * congruence.
      * rewrite Hb. split; [by intros Hne [? ?]%app_eq_nil|]. intros Hne Hp. apply Hne. rewrite Hp in *. cbn.
        apply length_zero_iff_nil. destruct Hcap as (_ & _ & Hc). specialize (Hc eq_refl). unfold len in El. cbn in El. lia.
      * rewrite Hlen. split_and!; try lia. intros [? ?]%app_eq_nil. tauto.
Qed.


Lemma append_all_ok iov w c l :
  w_conn w = Some c -> mem w (l ++ owned w) -> out_ok (c_out c) (w_queue w) -> out_in_flight (c_out c) = true ->
  fits (Z.of_nat (length (out_pending (c_out c))) + Z.of_nat (length (concat iov))) ->
  exists w' c', append_all iov w = Ok w' /\ w_conn w' = Some c' /\ mem w' (l ++ owned w') /\
    out_ok (c_out c') (w_queue w') /\ out_in_flight (c_out c') = true /\ c_life c' = c_life c /\ w_tasks w' = w_tasks w /\
    same_io w w' /\ out_pending (c_out c') = out_pending (c_out c) ++ concat iov.
Proof.
  revert w c. induction iov as [|v iov IH]; intros w c Ec Hm Ho Hf Hfit; cbn [append_all concat].
  - exists w, c. rewrite app_nil_r. by split_and!.
  - cbn [concat] in Hfit. rewrite length_app in Hfit. unfold fits in *.
    destruct (append_ok w c v l Ec Hm Ho Hf) as (w1 & c1 & -> & Ec1 & Hm1 & Ho1 & Hf1 & Hl1 & Ht1 & _ & Hio1 & Hp1); [unfold fits; lia|].
    cbn [mbind res_bind]. destruct (IH w1 c1 Ec1 Hm1 Ho1 Hf1) as (w2 & c2 & E2 & Ec2 & Hm2 & Ho2 & Hf2 & Hl2 & Ht2 & Hio2 & Hp2).
    { rewrite Hp1, length_app. lia. }
    exists w2, c2. destruct Hio1 as (? & ? & ?), Hio2 as (? & ? & ?). split_and!; try congruence; [split_and!; congruence|].
    by rewrite Hp2, Hp1, app_assoc.
Qed.

(** ** The system *)

Inductive op :=
  | OpSend (payload : bytes)
  | OpSendZstr (payload : bytes)
  | OpWritev (iov : list bytes)
  | OpDirect (payload : bytes)
  | OpComplete
  | OpDie
  | OpTimeout
  | OpPin
  | OpFinalize (should_continue : bool)
  | OpUnpin
  | OpWsDispose
  | OpFeedBegin
  | OpFeedEnd
  | OpTlsBegin
  | OpTlsDone
  | OpDestroy
  | OpMicrotask.

Section system.
Context (drain_hook : bool) (high : Z).

(** A sender allocates what it hands over.  The second result is what was accepted:
    the payload when the call returned true. *)
Definition exec (o : op) (w : world) : res (world * bytes) :=
  match o with
  | OpSend p => let '(w, b) := alloc w in
      '(w, ok) ← http_connection_send_batched drain_hook high (Some b) p w; Ok (w, if (ok : bool) then p else [])
  | OpSendZstr p => let '(w, b) := alloc w in
      '(w, ok) ← http_connection_send_zstr_batched drain_hook high (Some b) p w; Ok (w, if (ok : bool) then p else [])
  | OpWritev iov => let '(w, u) := alloc w in
      '(w, ok) ← http_connection_send_batched_writev drain_hook high iov (Some u) w; Ok (w, if (ok : bool) then concat iov else [])
  | OpDirect p => let '(w, s) := alloc w in
      '(w, ok) ← http_connection_send_strv_owned drain_hook high [(s, p)] w; Ok (w, if (ok : bool) then p else [])
  | OpComplete =>
      match w_queue w with
      | [] => Ok (w, [])
      | d :: q => w ← completion drain_hook high COMPLETION_FUEL d (put_queue q w); Ok (w, [])
      end
  | OpDie => Ok ({| w_conn := w_conn w; w_bufs := w_bufs w; w_next := w_next w; w_wire := w_wire w; w_queue := w_queue w;
                    w_dead := true; w_tasks := w_tasks w; w_drains := w_drains w |}, [])
  | OpTimeout => w ← put_out set_timed_out w; Ok (w, [])
  | OpPin => w ← pin w; Ok (w, [])
  | OpFinalize b => w ← http_request_finalize b w; Ok (w, [])
  | OpUnpin => w ← unpin_deferred w; Ok (w, [])
  | OpWsDispose => w ← ws_handler_dispose true w; Ok (w, [])
  | OpFeedBegin => w ← feed_begin w; Ok (w, [])
  | OpFeedEnd => w ← feed_end w; Ok (w, [])
  | OpTlsBegin => w ← tls_send_begin w; Ok (w, [])
  | OpTlsDone => w ← tls_send_done w; Ok (w, [])
  | OpDestroy => w ← http_connection_destroy w; Ok (w, [])
  | OpMicrotask => w ← run_microtask w; Ok (w, [])
  end.

(** When an operation may be called.  The connection's users have a live pointer;
    who drops a pin has one; buffers fit in memory. *)
Definition enabled (o : op) (w : world) : Prop :=
  match o with
  | OpDie | OpMicrotask => True
  | OpComplete => forall c, w_conn w = Some c -> ~ hazard w c
  | _ => exists c, w_conn w = Some c /\
      match o with
      | OpSend p | OpSendZstr p => fits (Z.of_nat (length (out_pending (c_out c))) + Z.of_nat (length p))
      | OpWritev iov => fits (Z.of_nat (length (out_pending (c_out c))) + Z.of_nat (length (concat iov)))
      | OpPin => handler_refcount (c_life c) + 1 < 2 ^ 32
      | OpFinalize _ | OpUnpin | OpWsDispose => 0 < handler_refcount (c_life c)
      | _ => True
      end
  end.

(** The bytes accepted so far and the wire: equal up to the tail, or cut off where
    the socket failed. *)
Definition stream_ok (w : world) (sent : bytes) : Prop :=
  if w_dead w then w_wire w `prefix_of` sent else w_wire w ++ pend w = sent.

(** The stream after a step that accepted [acc] at the end. *)
Definition extends (w w' : world) (acc : bytes) : Prop := forall sent, stream_ok w sent -> stream_ok w' (sent ++ acc).

(** A step that moves nothing. *)
Lemma extends_still w w' : w_wire w' = w_wire w -> w_dead w' = w_dead w -> pend w' = pend w -> extends w w' [].
Proof. intros Hw Hd Hp sent. unfold stream_ok. by rewrite Hw, Hd, Hp, app_nil_r. Qed.

Lemma extends_same w w' : same_io w w' -> pend w' = pend w \/ w_conn w' = None /\ pend w = [] -> extends w w' [].
Proof.
  intros (Hw & _ & Hd) Hp. apply extends_still; try done. destruct Hp as [?|[E ->]]; [done|]. unfold pend. by rewrite E.
Qed.

Lemma extends_flows w w' : flows w w' -> extends w w' [].
Proof.
  intros [Hd Hf] sent. unfold stream_ok. rewrite Hd, app_nil_r. destruct (w_dead w); [by destruct Hf as [-> _]|by rewrite Hf].
Qed.


(** ** The senders *)

Lemma out_ok_buf_none o q : out_ok o q -> out_pending o = [] -> out_pending_buf o = None /\ out_pending_cap o = 0.
Proof.
  intros [_ _ Hb Hc _] Hp. split; [|by apply Hc]. destruct (out_pending_buf o); [|done].
  by destruct (proj1 Hb (mk_is_Some _ _ eq_refl)).
Qed.

(** The connection outlives a call that drops [n] pins while more are held. *)
Definition stays (n : Z) (c : http_connection_t) (w' : world) : Prop := n < handler_refcount (c_life c) -> is_Some (w_conn w').

(** The first write of a batch: [d] is submitted with nothing outstanding. *)
Lemma io_write_ok d p w c :
  w_conn w = Some c -> mem w (data_bufs d ++ owned w) -> batched d = true -> batched_in (w_queue w) = 0%nat ->
  out_in_flight (c_out c) = true -> out_pending (c_out c) = [] -> out_pending_buf (c_out c) = None -> out_pending_cap (c_out c) = 0 ->
  (d = DWritev \/ out_writev_user (c_out c) = None) -> life_ok (c_life c) (w_tasks w) ->
  exists w' ok, io_write drain_hook high d p w = Ok (w', ok) /\ inv w' /\ extends w w' (if (ok : bool) then p else []) /\ stays 0 c w'.
Proof.
  intros Ec Hm Hd Hq Hf Hp Hb Hcap Hu Hl. unfold io_write. destruct (w_dead w) eqn:Edead.
  - destruct (completion_ok drain_hook high d w c 0 Ec Hm Hd Hq Hf Hu) as (w' & E & I & Hfl & _ & _ & Hst); try done.
    + by rewrite Hb, Hp, is_Some_alt.
    + by rewrite Hp, Hcap.
    + intros (_ & ? & _). done.
    + unfold COMPLETION_FUEL. rewrite E. cbn. exists w', false. split_and!; try done; [by apply extends_flows|]. intros Hr. apply Hst. lia.
  - do 2 eexists. split; [done|]. split; [split; [split|]|split; [|intros _; cbn; by rewrite Ec]].
    + unfold owned in *. cbn. unfold queue_bufs in *. rewrite map_app, concat_app. cbn. rewrite app_nil_r.
      refine (mem_perm w _ _ _ Hm). solve_Permutation.
    + cbn. rewrite Ec. split; [|done]. split.
      * unfold batched_in in *. rewrite List.filter_app, length_app, Hq, Hf. cbn. by rewrite Hd.
      * congruence.
      * by rewrite Hb, Hp, is_Some_alt.
      * by rewrite Hp, Hcap.
      * destruct Hu as [->| ->]; [|by rewrite is_Some_alt]. intros _. rewrite elem_of_app. right. by left.
    + cbn. rewrite Ec. intros _ _. auto.
    + intros sent. unfold stream_ok. cbn. rewrite Edead. unfold pend. cbn. rewrite Ec, Hp, !app_nil_r. by intros ->.
Qed.


(** The common body of the two batched senders of one buffer. *)
Definition send_core (d : nat -> write_data) (b : nat) (p : bytes) (w : world) : res (world * bool) :=
  if bool_decide (p = []) then w ← release b w; Ok (w, true)
  else
    c ← get_conn w;
    if write_timed_out (c_out c) then w ← release b w; Ok (w, false)
    else if out_in_flight (c_out c) then
      w ← out_pending_append p w; w ← release b w; Ok (w, true)
    else w ← put_out (set_in_flight true) w; io_write drain_hook high (d b) p w.

(** Releasing what a call was given restores the invariant. *)
Lemma block_release_inv w b : mem w (b :: owned w) -> (forall B, mem (put_bufs B w) (owned w) -> inv (put_bufs B w)) ->
  exists w', release b w = Ok w' /\ inv w' /\ w_conn w' = w_conn w /\ same_io w w'.
Proof.
  intros Hm HI. destruct (release_ok w b _ Hm) as (B & E & Hm'). exists (put_bufs B w). split_and!; try done. by apply HI.
Qed.

(** The state after a coalesced append, once the caller's block is gone. *)
Lemma coalesced_inv w c B : w_conn w = Some c -> out_ok (c_out c) (w_queue w) -> out_in_flight (c_out c) = true ->
  life_ok (c_life c) (w_tasks w) -> mem (put_bufs B w) (owned w) -> inv (put_bufs B w).
Proof.
  intros Ec Ho Hf Hl Hm. split; [split; [exact Hm|]|]; cbn; rewrite Ec; [done|]. intros _ _. auto.
Qed.

Lemma send_core_ok d p w c : (forall b, data_bufs (d b) = [b] /\ batched (d b) = true) -> inv w -> w_conn w = Some c ->
  fits (Z.of_nat (length (out_pending (c_out c))) + Z.of_nat (length p)) ->
  exists w' ok, send_core d (alloc w).2 p (alloc w).1 = Ok (w', ok) /\ inv w' /\ extends w w' (if (ok : bool) then p else []) /\ stays 0 c w'.
Proof.
  intros Hd [[Hm H] Hns] Ec Hfit. rewrite Ec in H, Hns. destruct H as [Ho Hl].
  pose proof (alloc_ok w _ Hm) as Hm1. set (w1 := (alloc w).1) in *. set (b := (alloc w).2) in *.
  assert (w_conn w1 = Some c) as Ec1 by done. assert (owned w1 = owned w) as Eow by done. rewrite <- Eow in Hm1.
  assert (forall B, mem (put_bufs B w1) (owned w1) -> inv (put_bufs B w1)) as Hback.
  { intros B HB. split; [split; [exact HB|]|]; cbn; rewrite Ec; done. }
  assert (forall w', same_io w1 w' -> w_conn w' = w_conn w1 -> extends w w' [] /\ stays 0 c w') as Hquiet.
  { intros w' Hio Ec'. split; [|intros _; by rewrite Ec']. apply extends_same; [exact Hio|]. left. unfold pend. by rewrite Ec'. }
  unfold send_core. case_bool_decide as Hp.
  { destruct (block_release_inv w1 b Hm1 Hback) as (w' & -> & I & E & Hio). exists w', true. subst p. cbn. eauto. }
  rewrite (get_conn_eq _ _ Ec1). cbn [mbind res_bind]. destruct (write_timed_out (c_out c)).
  { destruct (block_release_inv w1 b Hm1 Hback) as (w' & -> & I & E & Hio). exists w', false. cbn. eauto. }
  destruct (out_in_flight (c_out c)) eqn:Ef.
  - destruct (append_ok w1 c p [b] Ec1 Hm1 Ho Ef Hfit) as (w2 & c2 & -> & Ec2 & Hm2 & Ho2 & Hf2 & Hl2 & Ht2 & _ & Hio2 & Hp2).
    cbn [mbind res_bind].
    destruct (block_release_inv w2 b Hm2) as (w3 & -> & I3 & E3 & Hio3).
    { intros B. apply (coalesced_inv w2 c2); try done. by rewrite Hl2, Ht2. }
    exists w3, true. split_and!; try done; [|intros _; by rewrite E3, Ec2]. intros sent. unfold stream_ok, pend. rewrite E3, Ec2, Ec.
    destruct Hio2 as (Hw2 & _ & Hd2), Hio3 as (Hw3 & _ & Hd3). rewrite Hd3, Hd2, Hw3, Hw2, Hp2. cbn.
    destruct (w_dead w); [by apply prefix_app_r|]. by rewrite app_assoc; intros ->.
  - rewrite (put_out_eq _ _ _ Ec1). cbn [mbind res_bind]. destruct (ok_idle _ _ Ho Ef) as [Hpn Hun]. destruct (out_ok_buf_none _ _ Ho Hpn) as [Hbn Hcn].
    set (w2 := put_conn _ w1). destruct (Hd b) as [Hdb Hdt]. pose proof (ok_flight _ _ Ho) as Hqn. rewrite Ef in Hqn.
    destruct (io_write_ok (d b) p w2 {| c_out := set_in_flight true (c_out c); c_life := c_life c |}) as (w3 & ok & E & I & Hx & Hst); try done.
    + rewrite Hdb. unfold owned in *. cbn. rewrite Ec1 in Hm1. exact Hm1.
    + by right.
    + exists w3, ok. split_and!; try done. intros sent Hs. apply Hx. unfold stream_ok, pend in *. cbn. by rewrite Ec in Hs.
Qed.

Lemma writev_ok iov w c : inv w -> w_conn w = Some c ->
  fits (Z.of_nat (length (out_pending (c_out c))) + Z.of_nat (length (concat iov))) ->
  exists w' ok, http_connection_send_batched_writev drain_hook high iov (Some (alloc w).2) (alloc w).1 = Ok (w', ok) /\ inv w' /\
    extends w w' (if (ok : bool) then concat iov else []) /\ stays 0 c w'.
Proof.
  intros [[Hm H] Hns] Ec Hfit. rewrite Ec in H, Hns. destruct H as [Ho Hl].
  pose proof (alloc_ok w _ Hm) as Hm1. set (w1 := (alloc w).1) in *. set (b := (alloc w).2) in *.
  assert (w_conn w1 = Some c) as Ec1 by done. assert (owned w1 = owned w) as Eow by done. rewrite <- Eow in Hm1.
  assert (forall B, mem (put_bufs B w1) (owned w1) -> inv (put_bufs B w1)) as Hback.
  { intros B HB. split; [split; [exact HB|]|]; cbn; rewrite Ec; done. }
  assert (forall w', same_io w1 w' -> w_conn w' = w_conn w1 -> extends w w' [] /\ stays 0 c w') as Hquiet.
  { intros w' Hio Ec'. split; [|intros _; by rewrite Ec']. apply extends_same; [exact Hio|]. left. unfold pend. by rewrite Ec'. }
  unfold http_connection_send_batched_writev. destruct iov as [|v iov].
  { destruct (block_release_inv w1 b Hm1 Hback) as (w' & -> & I & E & Hio). exists w', true. cbn. eauto. }
  set (vs := v :: iov) in *. rewrite (get_conn_eq _ _ Ec1). cbn [mbind res_bind]. destruct (write_timed_out (c_out c)).
  { destruct (block_release_inv w1 b Hm1 Hback) as (w' & -> & I & E & Hio). exists w', false. cbn. eauto. }
  destruct (out_in_flight (c_out c)) eqn:Ef.
  - destruct (append_all_ok vs w1 c [b] Ec1 Hm1 Ho Ef Hfit) as (w2 & c2 & -> & Ec2 & Hm2 & Ho2 & Hf2 & Hl2 & Ht2 & Hio2 & Hp2).
    cbn [mbind res_bind].
    destruct (block_release_inv w2 b Hm2) as (w3 & -> & I3 & E3 & Hio3).
    { intros B. apply (coalesced_inv w2 c2); try done. by rewrite Hl2, Ht2. }
    exists w3, true. split_and!; try done; [|intros _; by rewrite E3, Ec2]. intros sent. unfold stream_ok, pend. rewrite E3, Ec2, Ec.
    destruct Hio2 as (Hw2 & _ & Hd2), Hio3 as (Hw3 & _ & Hd3). rewrite Hd3, Hd2, Hw3, Hw2, Hp2. cbn [w_dead w_wire w1 alloc fst].
    destruct (w_dead w); [by apply prefix_app_r|]. by rewrite app_assoc; intros ->.
  - rewrite (put_out_eq _ _ _ Ec1). cbn [mbind res_bind]. erewrite put_out_eq by done. cbn [mbind res_bind].
    destruct (ok_idle _ _ Ho Ef) as [Hpn Hun]. destruct (out_ok_buf_none _ _ Ho Hpn) as [Hbn Hcn].
    set (w2 := put_conn _ _). pose proof (ok_flight _ _ Ho) as Hqn. rewrite Ef in Hqn.
    destruct (io_write_ok DWritev (concat vs) w2 {| c_out := set_in_flight true (set_user (Some b) (c_out c)); c_life := c_life c |}) as (w3 & ok & E & I & Hx & Hst); try done.
    + unfold w2, owned, out_bufs in *. cbn. rewrite Ec1, Hun in Hm1. rewrite Hbn in *. cbn in *. refine (mem_perm w1 _ _ _ Hm1). solve_Permutation.
    + by left.
    + exists w3, ok. split_and!; try done. intros sent Hs. apply Hx. unfold stream_ok, pend in *. cbn. by rewrite Ec in Hs.
Qed.

(** A direct write keeps the order when nothing is coalesced behind it. *)
Lemma direct_ok p w c : inv w -> w_conn w = Some c ->
  exists w' ok, http_connection_send_strv_owned drain_hook high [((alloc w).2, p)] (alloc w).1 = Ok (w', ok) /\ inv w' /\
    (pend w = [] -> extends w w' (if (ok : bool) then p else [])) /\ is_Some (w_conn w').
Proof.
  intros [[Hm H] Hns] Ec. rewrite Ec in H, Hns. destruct H as [Ho Hl].
  pose proof (alloc_ok w _ Hm) as Hm1. set (w1 := (alloc w).1) in *. set (b := (alloc w).2) in *.
  assert (w_conn w1 = Some c) as Ec1 by done. assert (owned w1 = owned w) as Eow by done. rewrite <- Eow in Hm1.
  assert (forall B, mem (put_bufs B w1) (owned w1) -> inv (put_bufs B w1)) as Hback.
  { intros B HB. split; [split; [exact HB|]|]; cbn; rewrite Ec; done. }
  assert (exists w', (w ← release b w1; Ok w) = Ok w' /\ inv w' /\ extends w w' [] /\ is_Some (w_conn w')) as (wr & Er & Ir & Hr & Hs).
  { destruct (block_release_inv w1 b Hm1 Hback) as (w' & -> & I & E & Hio). exists w'. split_and!; try done; [|by rewrite E].
    apply extends_same; [exact Hio|]. left. unfold pend. by rewrite E. }
  unfold http_connection_send_strv_owned. rewrite (get_conn_eq _ _ Ec1). cbn [mbind res_bind].
  destruct (write_timed_out (c_out c)).
  { cbn [fmap list_fmap fst release_all]. rewrite Er. cbn. by exists wr, false. }
  unfold io_write. destruct (w_dead w1) eqn:Ed.
  { cbn [completion COMPLETION_FUEL fmap list_fmap fst release_all]. rewrite Er. cbn. by exists wr, false. }
  do 2 eexists. split; [done|]. split; [split; [split|]|split; [|cbn; by rewrite Ec]].
  - unfold owned, queue_bufs in *. cbn. rewrite map_app, concat_app. cbn. refine (mem_perm w1 _ _ _ Hm1). cbn. solve_Permutation.
  - cbn. rewrite Ec. split; [|done]. destruct Ho as [Hfl Hid Hb Hcap Hu]. split; try done.
    + unfold batched_in in *. rewrite List.filter_app, length_app. cbn. by rewrite Nat.add_0_r.
    + intros Hx. rewrite elem_of_app. left. auto.
  - cbn. by rewrite Ec.
  - change (w_dead w = false) in Ed. unfold pend. rewrite Ec. intros Hpe sent. unfold stream_ok, pend. cbn. rewrite Ed, Ec, Hpe, !app_nil_r. by intros ->.
Qed.


(** ** Completions, pins and teardown *)

Lemma batched_in_cons d q : batched_in (d :: q) = ((if batched d then 1 else 0) + batched_in q)%nat.
Proof. unfold batched_in. cbn. by destruct (batched d). Qed.

Lemma writev_batched q : DWritev ∈ q -> batched_in q <> 0%nat.
Proof.
  induction q as [|d q IH]; [by intros ?%elem_of_nil|]. rewrite batched_in_cons. intros [<-|Hx]%elem_of_cons; [done|].
  specialize (IH Hx). lia.
Qed.

Lemma queue_pop w d q x : w_queue w = d :: q -> mem w (x ++ owned w) -> mem (put_queue q w) (data_bufs d ++ x ++ owned (put_queue q w)).
Proof.
  intros E Hm. unfold owned in *. cbn. rewrite E in Hm. cbn in Hm. refine (mem_perm w _ _ _ Hm). unfold queue_bufs. solve_Permutation.
Qed.

Lemma complete_ok w d q : inv w -> w_queue w = d :: q -> (forall c, w_conn w = Some c -> ~ hazard w c) ->
  exists w', completion drain_hook high COMPLETION_FUEL d (put_queue q w) = Ok w' /\ inv w' /\ extends w w' [] /\
    (batched d = true -> exists c, w_conn w = Some c /\ completed c (put_queue q w) w') /\
    (batched d = false -> w_conn w' = w_conn w /\ w_queue w' = q /\ w_dead w' = w_dead w).
Proof.
  intros [[Hm H] Hns] Eq Hz. pose proof (queue_pop w d q [] Eq Hm) as Hm1. rewrite Eq in H. destruct (batched d) eqn:Ed.
  - destruct (w_conn w) as [c|] eqn:Ec.
    2: { destruct H as [H _]. by rewrite batched_in_cons, Ed in H. }
    destruct H as [[Hfl Hid Hb Hcap Hu] Hl]. rewrite batched_in_cons, Ed in Hfl.
    destruct (out_in_flight (c_out c)) eqn:Ef; [|done]. assert (batched_in q = 0%nat) as Hq by lia.
    destruct (completion_ok drain_hook high d (put_queue q w) c 0) as (w' & E & C); try done.
    + destruct (out_writev_user (c_out c)) as [u|]; [|by right]. left.
      destruct (proj1 (elem_of_cons _ _ _) (Hu (mk_is_Some _ _ eq_refl))) as [?|Hx]; [done|]. by apply writev_batched in Hx.
    + by apply Hz.
    + exists w'. pose proof C as (I & Hfw & _). split_and!; try done; [|by exists c].
      intros sent Hs. apply (extends_flows _ _ Hfw). exact Hs.
  - destruct d as [| | |l]; [done..|]. destruct (release_all_ok l (put_queue q w) _ Hm1) as (B & E & Hm2).
    unfold COMPLETION_FUEL. cbn [completion]. rewrite E. eexists. split; [done|]. split; [|split; [by apply extends_still|done]].
    split; [split; [exact Hm2|]|]; cbn; [|done]. destruct (w_conn w) as [c|].
    + destruct H as [[Hfl Hid Hb Hcap Hu] Hl]. split; [|done]. split; try done. intros Hx. specialize (Hu Hx). by apply elem_of_cons in Hu as [?|?].
    + done.
Qed.

(** A step of the lifetime fields moves no bytes. *)
Definition quiet (w w' : world) : Prop := same_io w w' /\ same_out w w'.

Lemma quiet_extends w w' c : quiet w w' -> inv0 w -> w_conn w = Some c -> (w_conn w' = None -> out_pending (c_out c) = []) -> extends w w' [].
Proof.
  intros [Hio Hso] I Ec Hn. apply extends_same; [done|]. unfold same_out, pend in *. rewrite Ec in *. destruct (w_conn w') as [c'|].
  - left. by rewrite Hso.
  - right. auto.
Qed.

(** The connection goes only when no write is outstanding, so nothing is lost. *)
Lemma quiet_step w w' c : inv w -> w_conn w = Some c -> inv w' -> quiet w w' -> extends w w' [].
Proof.
  intros [[Hm H] _] Ec [[Hm' H'] _] Hq. eapply quiet_extends; [done|by split|done|]. intros En. rewrite En in H'. rewrite Ec in H.
  destruct H as [[Hfl Hid _ _ _] _], H' as [H' _]. destruct Hq as [(_ & Eq & _) _]. rewrite Eq, Hfl in H'.
  destruct (out_in_flight (c_out c)); [done|]. by apply Hid.
Qed.

Lemma quiet_trans w w' w'' : quiet w w' -> quiet w' w'' -> quiet w w''.
Proof.
  intros [(Ha & Hb & Hc) Hs] [(Ha' & Hb' & Hc') Hs']. split; [split_and!; congruence|]. unfold same_out in *.
  destruct (w_conn w), (w_conn w'), (w_conn w''); try done; congruence.
Qed.

Lemma life_quiet w c f : w_conn w = Some c -> quiet w (put_conn (Some {| c_out := c_out c; c_life := f (c_life c) |}) w).
Proof. intros Ec. split; [done|]. unfold same_out. cbn. by rewrite Ec. Qed.

(** Where [destroy_pending] is tested and the destroy run, from any state. *)
Lemma finish_or_leave x w c : inv0x x w -> w_conn w = Some c ->
  exists w' b, finish_deferred w = Ok (w', b) /\ invx x w' /\ quiet w w' /\ (b = false -> w' = w) /\ stays 0 c w'.
Proof.
  intros I Ec. destruct (finish_deferred_ok x w c I Ec) as (w' & b & E & Hio & Hso & I' & Hb). exists w', b. split; [done|].
  destruct b.
  - destruct Hb as (? & _ & Hr & _). split_and!; try done. intros H0. lia.
  - destruct Hb as [-> Hb]. split_and!; try done; [|intros _; by rewrite Ec]. split; [done|]. rewrite Ec. intros H1 H2. by destruct Hb.
Qed.

Lemma idle_deferred_ok w c : inv0 w -> w_conn w = Some c ->
  exists w', http_connection_destroy_if_idle_deferred w = Ok w' /\ inv w' /\ quiet w w' /\ is_Some (w_conn w').
Proof.
  intros [Hm H] Ec. pose proof H as H0. rewrite Ec in H0. destruct H0 as [Ho [Hr Ht]].
  unfold http_connection_destroy_if_idle_deferred. rewrite (get_conn_eq _ _ Ec). cbn [mbind res_bind].
  destruct (negb (handler_refcount (c_life c) =? 0) || negb (destroy_pending (c_life c)) || bool_decide (is_Some (destroy_microtask (c_life c)))) eqn:E.
  - exists w. split; [done|]. split; [split; [done|]|split; [split; [done|]|by rewrite Ec]]; [|unfold same_out; by rewrite Ec].
    rewrite Ec. intros Hd Hz. rewrite Hd, Hz in E. cbn in E. apply bool_decide_eq_true in E. auto.
  - apply orb_false_iff in E as [_ E]. apply bool_decide_eq_false, eq_None_not_Some in E. rewrite E in Ht. cbn in Ht.
    unfold alloc. cbv beta iota. rewrite (put_life_eq _ _ c) by done. cbn [mbind res_bind]. eexists. split; [done|].
    pose proof (alloc_ok w _ Hm) as Hm1. split; [|split; [split; [done|unfold same_out; cbn; by rewrite Ec]|done]].
    split; [split|].
    + unfold owned in *. cbn. rewrite Ec in Hm1. cbn in Hm1. rewrite fmap_app. cbn. refine (mem_perm (alloc w).1 _ _ _ Hm1). solve_Permutation.
    + cbn. split; [done|]. split; [done|]. cbn. unfold live_tasks in *. rewrite List.filter_app, fmap_app, Ht. done.
    + cbn. intros _ _. cbn. do 3 right. done.
Qed.

Lemma destroy_stays c w' : w_conn w' = (if held_back c then Some {| c_out := c_out c; c_life := set_destroy_pending true (set_microtask None (c_life c)) |} else None) ->
  stays 0 c w'.
Proof. intros E Hr. rewrite E. unfold held_back. rewrite (proj2 (Z.ltb_lt _ _)) by done. done. Qed.

Section lifetime.
Context (w : world) (c : http_connection_t) (I : inv0 w) (Ec : w_conn w = Some c).

(** The state after a change of a lifetime field. *)
Abbreviation lived f := (put_conn (Some {| c_out := c_out c; c_life := f (c_life c) |}) w).

Lemma ref_bounds : 0 <= handler_refcount (c_life c) < 2 ^ 32.
Proof. destruct I as [_ H]. rewrite Ec in H. apply H. Qed.

Lemma ref_change n : 0 <= n < 2 ^ 32 -> inv0 (lived (set_refcount n)).
Proof. intros Hn. by apply life_change. Qed.

Lemma pin_ok : handler_refcount (c_life c) + 1 < 2 ^ 32 -> exists w', pin w = Ok w' /\ inv w' /\ quiet w w' /\ stays 0 c w'.
Proof.
  intros Hen. pose proof ref_bounds as Hr. unfold pin. rewrite (get_conn_eq _ _ Ec). cbn [mbind res_bind]. rewrite (put_life_eq _ _ _ Ec).
  unfold u32. rewrite Z.mod_small by lia. eexists. split; [done|]. split; [|split; [by apply life_quiet|by intros _]].
  split; [apply ref_change; lia|]. cbn. intros _ E. cbn in E. lia.
Qed.

Lemma unpinned_destroy n w' : 0 <= n < 2 ^ 32 -> quiet w w' -> w' = lived (set_refcount n) ->
  exists w2, http_connection_destroy w' = Ok w2 /\ inv w2 /\ quiet w w2 /\ (0 < n -> is_Some (w_conn w2)).
Proof.
  intros Hn Hq ->. destruct (destroy_ok [] (lived (set_refcount n)) _ (ref_change n Hn) eq_refl) as (w2 & E & I2 & Hio & Hso & Hc).
  exists w2. split_and!; try done; [eapply quiet_trans; [exact Hq|by split]|]. exact (destroy_stays _ _ Hc).
Qed.

Lemma finalize_ok b : 0 < handler_refcount (c_life c) -> exists w', http_request_finalize b w = Ok w' /\ inv w' /\ quiet w w' /\ stays 1 c w'.
Proof.
  intros Hen. pose proof ref_bounds as Hr. unfold http_request_finalize. rewrite (get_conn_eq _ _ Ec). cbn [mbind res_bind].
  rewrite (proj2 (Z.leb_gt _ _)) by lia. rewrite (put_life_eq _ _ _ Ec). cbn [mbind res_bind].
  set (n := handler_refcount (c_life c) - 1). assert (0 <= n < 2 ^ 32) as Hn by lia.
  destruct (finish_or_leave [] (lived (set_refcount n)) _ (ref_change n Hn) eq_refl) as (w' & d & -> & I' & Hq & Hb & Hst). cbn [mbind res_bind].
  assert (quiet w w') as Hq' by (eapply quiet_trans; [by apply life_quiet|exact Hq]).
  assert (stays 1 c w') as Hst' by (intros ?; apply Hst; cbn; lia).
  destruct d; [by exists w'|]. destruct b; [by exists w'|].
  destruct (unpinned_destroy n w') as (w2 & -> & I2 & Hq2 & Hs2); auto. exists w2. split_and!; try done. intros ?. apply Hs2. lia.
Qed.

Lemma unpin_ok : 0 < handler_refcount (c_life c) -> exists w', unpin_deferred w = Ok w' /\ inv w' /\ quiet w w' /\ stays 1 c w'.
Proof.
  intros Hen. pose proof ref_bounds as Hr. unfold unpin_deferred. rewrite (get_conn_eq _ _ Ec). cbn [mbind res_bind].
  rewrite (proj2 (Z.ltb_lt _ _)) by lia. rewrite (put_life_eq _ _ _ Ec). cbn [mbind res_bind].
  set (n := handler_refcount (c_life c) - 1). assert (0 <= n < 2 ^ 32) as Hn by lia.
  destruct (idle_deferred_ok (lived (set_refcount n)) _ (ref_change n Hn) eq_refl) as (w' & -> & I' & Hq & Hs).
  exists w'. split_and!; try done; [|by intros _]. eapply quiet_trans; [by apply life_quiet|exact Hq].
Qed.

Lemma ws_dispose_ok : 0 < handler_refcount (c_life c) -> exists w', ws_handler_dispose true w = Ok w' /\ inv w' /\ quiet w w' /\ stays 1 c w'.
Proof.
  intros Hen. pose proof ref_bounds as Hr. unfold ws_handler_dispose. rewrite (get_conn_eq _ _ Ec). cbn [mbind res_bind].
  rewrite (proj2 (Z.leb_gt _ _)) by lia. rewrite (put_life_eq _ _ _ Ec). cbn [mbind res_bind].
  set (n := handler_refcount (c_life c) - 1). assert (0 <= n < 2 ^ 32) as Hn by lia. case_if; b2p.
  - destruct (unpinned_destroy n (lived (set_refcount n))) as (w2 & -> & I2 & Hq2 & Hs2); [done|by apply life_quiet|done|].
    exists w2. split_and!; try done. intros ?. apply Hs2. lia.
  - erewrite put_life_eq by done. eexists. split; [done|]. split; [|split; [split; [done|unfold same_out; cbn; by rewrite Ec]|by intros _]].
    split; [eapply (life_change [] (lived (set_refcount n))); [by apply ref_change|done|done|done]|]. cbn. intros _ E. cbn in E. done.
Qed.

Lemma feed_begin_ok : exists w', feed_begin w = Ok w' /\ inv w' /\ quiet w w' /\ stays 0 c w'.
Proof.
  unfold feed_begin. rewrite (put_life_eq _ _ _ Ec). eexists. split; [done|]. split; [|split; [by apply life_quiet|by intros _]].
  split; [by apply life_change; [| |apply ref_bounds|]|]. cbn. intros _ _. cbn. auto.
Qed.

Lemma feed_end_ok : exists w', feed_end w = Ok w' /\ inv w' /\ quiet w w' /\ stays 0 c w'.
Proof.
  unfold feed_end. rewrite (put_life_eq _ _ _ Ec). cbn [mbind res_bind].
  assert (inv0 (lived (set_feed false))) as I1 by (by apply life_change; [| |apply ref_bounds|]).
  rewrite (get_conn_eq _ {| c_out := c_out c; c_life := set_feed false (c_life c) |}) by done. cbn [mbind res_bind].
  destruct (_ && _) eqn:Eb.
  - destruct (destroy_ok [] (lived (set_feed false)) _ I1 eq_refl) as (w2 & -> & I2 & Hio & Hso & Hc). exists w2.
    split_and!; try done; [eapply quiet_trans; [by apply life_quiet|by split]|]. exact (destroy_stays _ _ Hc).
  - eexists. split; [done|]. split; [|split; [by apply life_quiet|by intros _]]. split; [done|]. cbn in Eb |- *. intros H1 H2. cbn in H1, H2. by rewrite H1, H2 in Eb.
Qed.

Lemma tls_begin_ok : exists w', tls_send_begin w = Ok w' /\ inv w' /\ quiet w w' /\ stays 0 c w'.
Proof.
  unfold tls_send_begin. rewrite (put_life_eq _ _ _ Ec). eexists. split; [done|]. split; [|split; [by apply life_quiet|by intros _]].
  split; [by apply life_change; [| |apply ref_bounds|]|]. cbn. intros _ _. cbn. auto.
Qed.

Lemma tls_done_ok : exists w', tls_send_done w = Ok w' /\ inv w' /\ quiet w w' /\ stays 0 c w'.
Proof.
  unfold tls_send_done. rewrite (put_life_eq _ _ _ Ec). cbn [mbind res_bind].
  assert (inv0 (lived (set_tls_send false))) as I1 by (by apply life_change; [| |apply ref_bounds|]).
  destruct (finish_or_leave [] (lived (set_tls_send false)) _ I1 eq_refl) as (w' & b & -> & I' & Hq & _ & Hst). cbn. exists w'.
  split_and!; try done. eapply quiet_trans; [by apply life_quiet|exact Hq].
Qed.

End lifetime.

(** The lifetime operations. *)
Definition life_op (o : op) : bool :=
  match o with
  | OpPin | OpFinalize _ | OpUnpin | OpWsDispose | OpFeedBegin | OpFeedEnd | OpTlsBegin | OpTlsDone | OpDestroy => true
  | _ => false
  end.

Definition unpins (o : op) : Z := match o with OpFinalize _ | OpUnpin | OpWsDispose => 1 | _ => 0 end.

Lemma life_op_ok o w : life_op o = true -> inv w -> enabled o w ->
  exists w', exec o w = Ok (w', []) /\ inv w' /\ quiet w w' /\ (forall c, w_conn w = Some c -> stays (unpins o) c w').
Proof.
  intros Hop [I _] Hen.
  assert (exists c, w_conn w = Some c) as [c Ec] by (destruct o; try done; destruct Hen as (c & ? & _); eauto).
  enough (exists w', (match o with
      | OpPin => pin w | OpFinalize b => http_request_finalize b w | OpUnpin => unpin_deferred w
      | OpWsDispose => ws_handler_dispose true w | OpFeedBegin => feed_begin w | OpFeedEnd => feed_end w
      | OpTlsBegin => tls_send_begin w | OpTlsDone => tls_send_done w | _ => http_connection_destroy w end) = Ok w' /\ inv w' /\ quiet w w' /\ stays (unpins o) c w')
    as (w' & E & I' & Hq & Hst).
  { exists w'. split_and!; try done; [|by intros c'; rewrite Ec; intros [= <-]]. destruct o; try done; cbn [exec]; by rewrite E. }
  destruct o; try done; try (destruct Hen as (c' & Ec' & Hen); assert (c' = c) as -> by congruence).
  - by apply (pin_ok w c).
  - by apply (finalize_ok w c).
  - by apply (unpin_ok w c).
  - by apply (ws_dispose_ok w c).
  - by apply (feed_begin_ok w c).
  - by apply (feed_end_ok w c).
  - by apply (tls_begin_ok w c).
  - by apply (tls_done_ok w c).
  - destruct (destroy_ok [] w c I Ec) as (w' & E & I' & Hio & Hso & Hc). exists w'. split_and!; try done. exact (destroy_stays _ _ Hc).
Qed.


(** Running the oldest microtask. *)
Lemma microtask_ok w : inv w ->
  exists w', run_microtask w = Ok w' /\ inv w' /\ extends w w' [] /\ (forall c, w_conn w = Some c -> stays 0 c w') /\
    (forall t r, w_tasks w = (t, true) :: r -> w_conn w' = w_conn w /\ w_tasks w' = r /\ same_io w w') /\
    (forall c t r, w_tasks w = (t, false) :: r -> w_conn w = Some c -> destroy_pending (c_life c) = true -> held_back c = false -> w_conn w' = None).
Proof.
  intros I. pose proof I as [[Hm H] Hns]. unfold run_microtask. destruct (w_tasks w) as [|[t cancelled] r] eqn:Et.
  { exists w. split_and!; try done; [by apply extends_still|]. intros c Ec _. by rewrite Ec. }
  set (w1 := put_tasks r w).
  assert (mem w1 ([t] ++ owned w1)) as Hm1.
  { unfold owned in *. cbn. rewrite Et in Hm. cbn in Hm. refine (mem_perm w _ _ _ Hm). solve_Permutation. }
  destruct cancelled; cbn [mbind res_bind].
  - destruct (release_ok w1 t _ Hm1) as (B & -> & Hm2). eexists. split; [done|]. split; [|split_and!; try done].
    + split; [split; [exact Hm2|]|done]. cbn. destruct (w_conn w) as [c|]; [|done]. destruct H as [Ho [Hr Hl]]. by split.
    + by apply extends_still.
    + intros c Ec _. cbn. by rewrite Ec.
    + intros t' r' [= <- <-]. done.
  - destruct (w_conn w) as [c|] eqn:Ec; [|by destruct H]. destruct H as [Ho [Hr Hl]]. unfold live_tasks in Hl. cbn in Hl.
    destruct (destroy_microtask (c_life c)) as [t'|] eqn:Em; [|done]. cbn in Hl. injection Hl as <- Hl.
    unfold conn_destroy_microtask_handler. rewrite (put_life_eq _ _ c) by done. cbn [mbind res_bind].
    set (c1 := {| c_out := c_out c; c_life := set_microtask None (c_life c) |}). set (w2 := put_conn (Some c1) w1).
    assert (inv0x [t] w2) as I2.
    { split; [unfold owned in *; cbn in Hm1; rewrite Ec in Hm1; exact Hm1|]. cbn. split; [done|]. split; [done|]. exact Hl. }
    destruct (finish_deferred_ok [t] w2 c1 I2 eq_refl) as (w3 & b & E3 & Hio3 & Hso3 & I3 & Hb3).
    destruct (finish_or_leave [t] w2 c1 I2 eq_refl) as (w3' & b' & E3' & I3' & Hq & _ & Hst). rewrite E3 in E3'. injection E3' as <- <-.
    rewrite E3. cbn [mbind res_bind]. destruct I3' as [[Hm3 H3] Hns3]. destruct (release_ok w3 t _ Hm3) as (B & -> & Hm4).
    eexists. split; [done|]. assert (inv (put_bufs B w3)) as I4 by done. split; [done|]. split_and!; try done.
    + eapply (quiet_step w); try done.
      destruct Hq as [Hq1 Hq2]. split; [exact Hq1|]. unfold same_out in *. cbn in Hq2. by rewrite Ec.
    + intros c' [= <-]. exact Hst.
    + intros c' t' r' _ [= <-] Hd Hh. destruct b.
      * apply Hb3. exact Hh.
      * destruct Hb3 as [_ Hb3]. exfalso. apply (Hb3 Hd). unfold held_back in Hh. cbn.
        apply orb_false_iff in Hh as [Hh _]. apply orb_false_iff in Hh as [Hh _]. apply orb_false_iff in Hh as [Hh _]. b2p. lia.
Qed.

(** ** Every enabled operation runs *)

Definition is_direct (o : op) : bool := match o with OpDirect _ => true | _ => false end.

Lemma op_step_ok o w : inv w -> enabled o w ->
  exists w' acc, exec o w = Ok (w', acc) /\ inv w' /\ (is_direct o = false \/ pend w = [] -> extends w w' acc) /\
    (forall c, w_conn w = Some c -> stays (unpins o) c w').
Proof.
  intros I Hen. destruct (life_op o) eqn:Elife.
  { destruct (life_op_ok o w Elife I Hen) as (w' & E & I' & Hq & Hst). exists w', []. split_and!; try done. intros _.
    assert (exists c, w_conn w = Some c) as [c Ec] by (destruct o; try done; destruct Hen as (c & ? & _); eauto). by eapply quiet_step. }
  assert (forall c c', w_conn w = Some c -> w_conn w = Some c' -> c' = c) as Huq by (intros c c' -> [= ->]; done).
  destruct o; try done; cbn [exec].
  - destruct Hen as (c & Ec & Hfit). destruct (send_core_ok DBuf payload w c) as (w' & ok & E & I' & Hx & Hst); try done.
    change (http_connection_send_batched drain_hook high (Some (alloc w).2) payload (alloc w).1 = Ok (w', ok)) in E. cbn [alloc fst snd] in E.
    unfold alloc. rewrite E. cbn. exists w', (if ok then payload else []). split_and!; [done|done|auto|]. intros c' Ec'. by rewrite (Huq c c').
  - destruct Hen as (c & Ec & Hfit). destruct (send_core_ok DZstr payload w c) as (w' & ok & E & I' & Hx & Hst); try done.
    change (http_connection_send_zstr_batched drain_hook high (Some (alloc w).2) payload (alloc w).1 = Ok (w', ok)) in E. cbn [alloc fst snd] in E.
    unfold alloc. rewrite E. cbn. exists w', (if ok then payload else []). split_and!; [done|done|auto|]. intros c' Ec'. by rewrite (Huq c c').
  - destruct Hen as (c & Ec & Hfit). destruct (writev_ok iov w c I Ec Hfit) as (w' & ok & E & I' & Hx & Hst).
    cbn [alloc fst snd] in E. unfold alloc. rewrite E. cbn. exists w', (if ok then concat iov else []). split_and!; [done|done|auto|].
    intros c' Ec'. by rewrite (Huq c c').
  - destruct Hen as (c & Ec & _). destruct (direct_ok payload w c I Ec) as (w' & ok & E & I' & Hx & Hst).
    cbn [alloc fst snd] in E. unfold alloc. rewrite E. cbn. exists w', (if ok then payload else []). split_and!; [done|done| |by intros ? ? _].
    intros [?|Hp]; [done|auto].
  - destruct (w_queue w) as [|d q] eqn:Eq.
    + exists w, []. split_and!; try done; [intros _; by apply extends_still|]. intros c Ec _. by rewrite Ec.
    + destruct (complete_ok w d q I Eq Hen) as (w' & -> & I' & Hx & Hb & Hd). cbn. exists w', []. split_and!; [done|done|auto|].
      intros c Ec Hr. destruct (batched d); [|by rewrite (proj1 (Hd eq_refl)), Ec].
      destruct (Hb eq_refl) as (c' & Ec' & (_ & _ & _ & _ & Hst)). rewrite (Huq c c') in Hst by done. apply Hst. cbn in Hr. lia.
  - do 2 eexists. split; [done|]. split_and!; try done.
    + intros _ sent. unfold stream_ok. cbn. rewrite app_nil_r. destruct (w_dead w); [done|]. intros <-. by apply prefix_app_r.
    + intros c Ec _. cbn. by rewrite Ec.
  - destruct Hen as (c & Ec & _). rewrite (put_out_eq _ _ _ Ec). cbn. do 2 eexists. split; [done|]. destruct I as [[Hm H] Hns].
    rewrite Ec in H, Hns. destruct H as [[Hfl Hid Hb Hcap Hu] Hl]. split_and!.
    + split; [split; [unfold owned in *; cbn; rewrite Ec in Hm; exact Hm|]|done]. cbn. split; [by split|done].
    + intros _. apply extends_still; try done. unfold pend. cbn. by rewrite Ec.
    + by intros ? ? _.
  - destruct (microtask_ok w I) as (w' & -> & I' & Hx & Hst & _). cbn. exists w', []. split_and!; auto.
Qed.

(** ** Reachable states *)

Definition conn_init : http_connection_t :=
  {| c_out := {| out_in_flight := false; out_pending_buf := None; out_pending := []; out_pending_cap := 0;
                 out_writev_user := None; write_timed_out := false |};
     c_life := {| handler_refcount := 0; destroy_pending := false; in_parser_feed := false;
                  tls_send_in_flight := false; destroy_microtask := None |} |}.

Definition world_init : world :=
  {| w_conn := Some conn_init; w_bufs := ∅; w_next := 0; w_wire := []; w_queue := []; w_dead := false; w_tasks := []; w_drains := 0 |}.

(** [sent] is what callers were told is accepted, in order; [ordered] is whether every
    direct write was made with nothing coalesced. *)
Inductive reach : world -> bytes -> bool -> Prop :=
  | reach_init : reach world_init [] true
  | reach_step w sent ordered o w' acc : reach w sent ordered -> enabled o w -> exec o w = Ok (w', acc) ->
      reach w' (sent ++ acc) (ordered && (negb (is_direct o) || bool_decide (pend w = []))).

Lemma inv_init : inv world_init.
Proof.
  split; [split|done].
  - split_and!; [by apply NoDup_nil|intros b; cbn; set_solver|]. intros b Hb. by apply elem_of_nil in Hb.
  - cbn. split; [|by split]. split; cbn; try done; by rewrite is_Some_alt.
Qed.

Lemma conn_reach_inv w sent ordered : reach w sent ordered -> inv w /\ (ordered = true -> stream_ok w sent).
Proof.
  induction 1 as [|w sent ordered o w' acc _ [I Hs] Hen E].
  - split; [apply inv_init|done].
  - destruct (op_step_ok o w I Hen) as (w1 & acc1 & E1 & I1 & Hx & _). rewrite E in E1. injection E1 as <- <-. split; [done|].
    intros [Ho Hd]%andb_true_iff. apply Hx; [|by apply Hs]. apply orb_true_iff in Hd as [Hd|Hd]; [left; by apply negb_true_iff|right; by apply bool_decide_eq_true in Hd].
Qed.

Fixpoint exec_all (ops : list op) (w : world) : res world :=
  match ops with
  | [] => Ok w
  | o :: r => '(w, _) ← exec o w; exec_all r w
  end.




(** ** Teardown completes *)

Lemma exec_all_app a b w : exec_all (a ++ b) w = (w ← exec_all a w; exec_all b w).
Proof.
  revert w. induction a as [|o a IH]; intros w; cbn [app exec_all]; [done|]. destruct (exec o w) as [[w1 acc]|]; cbn; [apply IH|done].
Qed.

(** A queue with a batched write in it, split at the first one. *)
Lemma split_batched q : batched_in q <> 0%nat ->
  exists ds d r, q = ds ++ d :: r /\ Forall (fun d => batched d = false) ds /\ batched d = true.
Proof.
  induction q as [|d q IH]; [done|]. rewrite batched_in_cons. destruct (batched d) eqn:Ed; intros H.
  - exists [], d, q. by split_and!.
  - destruct IH as (ds & d' & r & -> & Hds & Hd'); [lia|]. exists (d :: ds), d', r. split_and!; try done. by apply List.Forall_cons.
Qed.

Lemma complete_directs ds w d q c : w_queue w = ds ++ d :: q -> Forall (fun d => batched d = false) ds ->
  inv w -> w_conn w = Some c -> w_dead w = false ->
  exists w', exec_all (replicate (length ds) OpComplete) w = Ok w' /\ inv w' /\ w_conn w' = Some c /\ w_queue w' = d :: q /\ w_dead w' = false.
Proof.
  revert w. induction ds as [|x ds IH]; intros w Eq Hds I Ec Hd; [by exists w|]. apply Forall_cons_iff in Hds as [Hx Hds].
  cbn [length replicate exec_all exec]. rewrite Eq. cbn [app].
  destruct (complete_ok w x (ds ++ d :: q) I Eq) as (w' & -> & I' & _ & _ & Hk); [intros ? _ [E _]; congruence|].
  destruct (Hk Hx) as (Ec' & Eq' & Hd'). cbn [mbind res_bind]. apply IH; congruence.
Qed.

Definition idle_pending (c : http_connection_t) : Prop :=
  destroy_pending (c_life c) = true /\ handler_refcount (c_life c) = 0 /\
  tls_send_in_flight (c_life c) = false /\ in_parser_feed (c_life c) = false.

(** The completion of the outstanding batched write. *)
Lemma complete_batched w c : inv w -> w_conn w = Some c -> w_dead w = false -> out_in_flight (c_out c) = true -> idle_pending c ->
  exists n w', exec_all (replicate n OpComplete) w = Ok w' /\ inv w' /\ w_dead w' = false /\
    match w_conn w' with
    | None => True
    | Some c' => out_pending (c_out c) <> [] /\ out_pending (c_out c') = [] /\ out_in_flight (c_out c') = true /\ c_life c' = c_life c
    end.
Proof.
  intros I Ec Hd Hf (Hp & Hr & Ht & Hfe). pose proof I as [[_ H] _]. rewrite Ec in H. destruct H as [Ho _].
  destruct (split_batched (w_queue w)) as (ds & d & q & Eq & Hds & Hb); [by rewrite (ok_flight _ _ Ho), Hf|].
  destruct (complete_directs ds w d q c Eq Hds I Ec Hd) as (w1 & E1 & I1 & Ec1 & Eq1 & Hd1).
  destruct (complete_ok w1 d q I1 Eq1) as (w2 & E2 & I2 & _ & Hcb & _); [intros ? _ [E _]; congruence|].
  destruct (Hcb Hb) as (c' & Ec' & C). rewrite Ec1 in Ec'. injection Ec' as <-.
  exists (length ds + 1)%nat, w2. rewrite replicate_add, exec_all_app, E1. cbn [mbind res_bind replicate exec_all exec]. rewrite Eq1, E2. cbn.
  destruct C as (_ & [Hd2 _] & Hpe & Hpn & _). cbn in Hd2, Hpn. split_and!; try done; [congruence|].
  destruct (decide (out_pending (c_out c) = [])) as [Hz|Hz].
  - by rewrite (proj2 (Hpe Hz) Hp Hr Ht Hfe).
  - destruct (Hpn Hz Hd1) as (b & c2 & Eq2 & Ec2 & Hl2 & Hp2). rewrite Ec2. split_and!; try done.
    destruct I2 as [[_ H2] _]. rewrite Ec2, Eq2 in H2. destruct H2 as [Ho2 _]. destruct (out_in_flight (c_out c2)) eqn:E; [done|].
    pose proof (ok_flight _ _ Ho2) as Hfl. rewrite E in Hfl. unfold batched_in in Hfl. rewrite List.filter_app, length_app in Hfl. cbn in Hfl. lia.
Qed.

Lemma tasks_split l t : live_tasks l = [t] -> exists ts r, l = map (fun i => (i, true)) ts ++ (t, false) :: r.
Proof.
  unfold live_tasks. induction l as [|[i b] l IH]; cbn; [done|]. destruct b; cbn.
  - intros H. destruct (IH H) as (ts & r & ->). by exists (i :: ts), r.
  - intros [= -> _]. by exists [], l.
Qed.

(** The microtask that was queued runs, after those that were cancelled. *)
Lemma run_tasks ts t r w c : w_tasks w = map (fun i => (i, true)) ts ++ (t, false) :: r -> inv w -> w_conn w = Some c ->
  destroy_pending (c_life c) = true -> held_back c = false ->
  exists w', exec_all (replicate (S (length ts)) OpMicrotask) w = Ok w' /\ w_conn w' = None.
Proof.
  revert w. induction ts as [|i ts IH]; intros w Et I Ec Hp Hh; cbn [length replicate exec_all exec].
  - destruct (microtask_ok w I) as (w' & -> & _ & _ & _ & _ & Hrun). cbn. exists w'. split; [done|]. exact (Hrun c t r Et Ec Hp Hh).
  - destruct (microtask_ok w I) as (w' & -> & I' & _ & _ & Hc & _). cbn [mbind res_bind]. destruct (Hc _ _ Et) as (Ec' & Et' & _).
    apply IH; (done || congruence).
Qed.

(** C22: a teardown that was asked for happens.  In every reachable state in which a
    destroy is pending, no pin is held, the parser is not running and no TLS write is
    outstanding, running the callbacks of the writes already submitted and the
    microtasks already queued frees the connection, whatever was coalesced meanwhile:
    no connection is left behind, deferred. *)
Theorem conn_teardown_completes w sent ordered c :
  reach w sent ordered -> w_conn w = Some c -> w_dead w = false -> idle_pending c ->
  exists ops w', Forall (fun o => o = OpComplete \/ o = OpMicrotask) ops /\ exec_all ops w = Ok w' /\ w_conn w' = None.
Proof.
  intros [I _]%conn_reach_inv Ec Hd Hi.
  destruct (out_in_flight (c_out c)) eqn:Ef.
  - destruct (complete_batched w c I Ec Hd Ef Hi) as (n & w1 & E1 & I1 & Hd1 & H1). destruct (w_conn w1) as [c1|] eqn:Ec1.
    + destruct H1 as (_ & Hp1 & Hf1 & Hl1). assert (idle_pending c1) as Hi1 by (unfold idle_pending in *; by rewrite Hl1).
      destruct (complete_batched w1 c1 I1 Ec1 Hd1 Hf1 Hi1) as (m & w2 & E2 & _ & _ & H2).
      exists (replicate n OpComplete ++ replicate m OpComplete), w2. rewrite exec_all_app, E1. cbn. split_and!; [|done|].
      * apply Forall_app. split; apply Forall_replicate; by left.
      * destruct (w_conn w2); [by destruct H2|done].
    + exists (replicate n OpComplete), w1. split_and!; try done. apply Forall_replicate. by left.
  - destruct Hi as (Hp & Hr & Ht & Hfe). pose proof I as [[_ H] Hns]. rewrite Ec in H, Hns. destruct H as [_ [_ Hlt]].
    destruct (Hns Hp Hr) as [?|[?|[?|[t Et]]]]; [congruence..|]. rewrite Et in Hlt. destruct (tasks_split _ _ Hlt) as (ts & r & Etk).
    destruct (run_tasks ts t r w c Etk I Ec Hp) as (w' & E & En); [unfold held_back; by rewrite Hr, Ht, Ef, Hfe|].
    exists (replicate (S (length ts)) OpMicrotask), w'. split_and!; try done. apply Forall_replicate. by right.
Qed.

End system.

(** ** What goes wrong *)

(** a refused tail is a use after free.  A connection with a write outstanding
    and bytes coalesced behind it is torn down (the destroy waits for the write), and
    when the write completes the reactor refuses the tail: the callback of the refused
    write finishes the teardown, and the callback that submitted it then writes to the
    freed connection. *)
Theorem refused_tail_use_after_free :
  exec_all true 0 [OpSend (lit "a"); OpSend (lit "b"); OpDestroy; OpDie; OpComplete] world_init = Fault UseAfterFree.
Proof. vm_compute. reflexivity. Qed.

(** Three pipelined requests are answered while the first write is outstanding, and
    then the writes complete. *)
Definition pipelined_responses : res (world * list bool) :=
  '(w, ok1) ← h1_send_response true 0 (lit "H1:") (lit "one") world_init;
  '(w, ok2) ← h1_send_response true 0 (lit "H2:") (lit "two") w;
  '(w, ok3) ← h1_send_response true 0 (lit "H3:") (repeat 120 1024) w;
  w ← exec_all true 0 [OpComplete; OpComplete; OpComplete] w;
  Ok (w, [ok1; ok2; ok3]).

(** responses to pipelined requests can leave in the wrong order.  Small responses
    are batched and large ones are written directly, past what is coalesced: with a
    small, a small and a large response to three pipelined requests, all reported as
    sent, the third is on the wire before the second. *)
Theorem pipelined_responses_reordered :
  match pipelined_responses with
  | Ok (w, oks) => oks = [true; true; true] /\
      w_wire w = (lit "H1:" ++ lit "one") ++ (lit "H3:" ++ repeat 120 1024) ++ (lit "H2:" ++ lit "two")
  | Fault _ => False
  end.
Proof. vm_compute. done. Qed.

(** ** Concrete runs *)

Definition enabledb (o : op) (w : world) : bool :=
  match o with
  | OpDie | OpMicrotask => true
  | OpComplete =>
      match w_conn w with
      | Some c => negb (w_dead w && negb (bool_decide (out_pending (c_out c) = [])) && destroy_pending (c_life c) && (handler_refcount (c_life c) =? 0))
      | None => true
      end
  | _ =>
      match w_conn w with
      | None => false
      | Some c =>
          match o with
          | OpSend p | OpSendZstr p => Z.of_nat (length (out_pending (c_out c))) + Z.of_nat (length p) <=? 2 ^ 62
          | OpWritev iov => Z.of_nat (length (out_pending (c_out c))) + Z.of_nat (length (concat iov)) <=? 2 ^ 62
          | OpPin => handler_refcount (c_life c) + 1 <? 2 ^ 32
          | OpFinalize _ | OpUnpin | OpWsDispose => 0 <? handler_refcount (c_life c)
          | _ => true
          end
      end
  end.

Lemma enabledb_enabled o w : enabledb o w = true -> enabled o w.
Proof.
  destruct o; cbn; try done; destruct (w_conn w) as [c|] eqn:Ec; try done; intros H;
    try (exists c; split; [done|]); unfold fits; b2p; try done; try lia.
  intros c' [= <-] (Hd & Hp & Hdp & Hr). rewrite Hd, Hdp, Hr in H. rewrite bool_decide_eq_false_2 in H by done. done.
Qed.

(** A run whose steps are all enabled, with what it accepted. *)
Fixpoint run (ops : list op) (w : world) (sent : bytes) : option (world * bytes) :=
  match ops with
  | [] => Some (w, sent)
  | o :: r =>
      if enabledb o w then
        match exec true 8 o w with Ok (w', acc) => run r w' (sent ++ acc) | Fault _ => None end
      else None
  end.

Lemma conn_run_reach ops w sent w' sent' : reach true 8 w sent true -> forallb (fun o => negb (is_direct o)) ops = true ->
  run ops w sent = Some (w', sent') -> reach true 8 w' sent' true.
Proof.
  revert w sent. induction ops as [|o ops IH]; intros w sent Hr; cbn [run forallb]; [by intros _ [= <- <-]|].
  intros [Hd Hf]%andb_true_iff. destruct (enabledb o w) eqn:Een; [|done]. destruct (exec true 8 o w) as [[w1 acc]|] eqn:E; [|done].
  apply IH; [|done]. pose proof (reach_step _ _ _ _ _ _ _ _ Hr (enabledb_enabled _ _ Een) E) as H. by rewrite Hd in H.
Qed.

(** Two sends behind an outstanding one, then a teardown while a handler runs. *)
Definition demo_ops : list op :=
  [OpPin; OpSend (lit "a"); OpWritev [lit "b"; lit "c"]; OpSendZstr (lit "d"); OpDestroy; OpUnpin].

Definition demo : world := match run demo_ops world_init [] with Some (w, _) => w | None => world_init end.

Lemma conn_demo_reach : reach true 8 demo (lit "abcd") true.
Proof. apply (conn_run_reach demo_ops world_init []); [apply reach_init|done|]. vm_compute. reflexivity. Qed.



Lemma conn_teardown_completes_witness : exists ops w', exec_all true 8 ops demo = Ok w' /\ w_conn w' = None.
Proof.
  destruct (w_conn demo) as [c|] eqn:Ec; [|by vm_compute in Ec].
  destruct (conn_teardown_completes true 8 demo _ _ c conn_demo_reach Ec eq_refl) as (ops & w' & _ & E & En).
  - assert (Some c = w_conn demo) as E by done. vm_compute in E. injection E as ->. split_and!; reflexivity.
  - exists ops, w'. split; [exact E|exact En].
Defined.

End ConnOutProps.
