(* ===== verification/HttpDate.v ===== *)
(** * Dates

    Models src/src/http_date.c: the IMF-fixdate writer and the parser of the three
    date formats.  [gmtime_r] and [timegm] are the C library's: a date here is a
    [struct tm]. *)

From S2P Require Import Prelude.

Module HttpDate.

Record tm := { tm_sec : Z; tm_min : Z; tm_hour : Z; tm_mday : Z; tm_mon : Z; tm_year : Z; tm_wday : Z }.

(** ** Writing *)

Definition put_u8_2digit (v : Z) : bytes := [48 + v / 10 mod 10; 48 + v mod 10].

Definition put_u16_4digit (v : Z) : bytes := [48 + v / 1000 mod 10; 48 + v / 100 mod 10; 48 + v / 10 mod 10; 48 + v mod 10].

Definition day_names : list bytes := [lit "Sun"; lit "Mon"; lit "Tue"; lit "Wed"; lit "Thu"; lit "Fri"; lit "Sat"].
Definition month_names : list bytes :=
  [lit "Jan"; lit "Feb"; lit "Mar"; lit "Apr"; lit "May"; lit "Jun"; lit "Jul"; lit "Aug"; lit "Sep"; lit "Oct"; lit "Nov"; lit "Dec"].

Definition http_date_format_imf (t : tm) : bytes :=
  let year := let y := tm_year t + 1900 in if (y <? 0) || (9999 <? y) then 9999 else y in
  nth (Z.to_nat (Z.land (tm_wday t) 7)) day_names [] ++ [COMMA; SP] ++ put_u8_2digit (tm_mday t) ++ [SP]
    ++ nth (Z.to_nat (Z.rem (tm_mon t) 12)) month_names [] ++ [SP] ++ put_u16_4digit year ++ [SP]
    ++ put_u8_2digit (tm_hour t) ++ [COLON] ++ put_u8_2digit (tm_min t) ++ [COLON] ++ put_u8_2digit (tm_sec t)
    ++ lit " GMT".

(** ** Parsing *)

Definition tm_fields_in_range (t : tm) : bool :=
  if (tm_mon t <? 0) || (11 <? tm_mon t) then false
  else if (tm_mday t <? 1) || (31 <? tm_mday t) then false
  else if (tm_hour t <? 0) || (23 <? tm_hour t) then false
  else if (tm_min t <? 0) || (59 <? tm_min t) then false
  else if (tm_sec t <? 0) || (59 <? tm_sec t) then false
  else true.

Fixpoint month_index (i : Z) (names : list bytes) (mon : bytes) : option Z :=
  match names with
  | [] => None
  | n :: r => if starts_with n mon then Some i else month_index (i + 1) r mon
  end.

(** [None] for [-1]. *)
Definition http_date_month_from_abbr (mon : bytes) : option Z := month_index 0 month_names mon.

(** What [sscanf] does with the conversions the formats use; the value converted and
    the input left. *)
Definition is_space (c : Z) : bool := (c =? SP) || ((9 <=? c) && (c <=? 13)).

Fixpoint digits_value (acc : Z) (s : bytes) : Z :=
  match s with [] => acc | c :: r => digits_value (10 * acc + (c - 48)) r end.

Definition scan_d (s : bytes) : option (Z * bytes) :=
  let s := drop_while is_space s in
  let '(neg, s) := match s with
                   | c :: r => if c =? DASH then (true, r) else if c =? PLUS then (false, r) else (false, s)
                   | [] => (false, s)
                   end in
  match take_while is_digit s with
  | [] => None
  | ds => Some ((if neg : bool then - digits_value 0 ds else digits_value 0 ds), drop_while is_digit s)
  end.

Definition not_space (c : Z) : bool := negb (is_space c).

(** [%3s] and [%*s]. *)
Definition scan_3s (s : bytes) : option (bytes * bytes) :=
  let s := drop_while is_space s in
  match take 3 (take_while not_space s) with
  | [] => None
  | w => Some (w, drop (length w) s)
  end.

Definition scan_word (s : bytes) : option bytes :=
  let s := drop_while is_space s in
  match take_while not_space s with [] => None | _ => Some (drop_while not_space s) end.

Definition scan_char (c : Z) (s : bytes) : option bytes :=
  match s with d :: r => if c =? d then Some r else None | [] => None end.

(** ["%d:%d:%d"] *)
Definition scan_time (s : bytes) : option (Z * Z * Z * bytes) :=
  '(hour, s) ← scan_d s; s ← scan_char COLON s;
  '(min, s) ← scan_d s; s ← scan_char COLON s;
  '(sec, s) ← scan_d s;
  Some (hour, min, sec, s).

(** The result: an error, the date, or a read behind the end of the text. *)
Inductive date_result := DateError | Date (t : tm) | ReadsOutside.

Definition make_date (mday year : Z) (mon : bytes) (hour min sec : Z) : date_result :=
  match http_date_month_from_abbr mon with
  | None => DateError
  | Some m =>
      let t := {| tm_sec := sec; tm_min := min; tm_hour := hour; tm_mday := mday; tm_mon := m; tm_year := year; tm_wday := 0 |} in
      if tm_fields_in_range t then Date t else DateError
  end.

Definition scan_imf (s : bytes) : option date_result :=
  '(mday, s) ← scan_d s; '(mon, s) ← scan_3s s; '(year, s) ← scan_d s; '(hour, min, sec, _) ← scan_time s;
  Some (make_date mday (year - 1900) mon hour min sec).

Definition scan_rfc850 (s : bytes) : option date_result :=
  '(mday, s) ← scan_d s; s ← scan_char DASH s; '(mon, s) ← scan_3s s; s ← scan_char DASH s;
  '(year, s) ← scan_d s; '(hour, min, sec, _) ← scan_time s;
  Some (make_date mday (if year <? 69 then year + 100 else year) mon hour min sec).

Definition scan_asctime (s : bytes) : option date_result :=
  s ← scan_word s; '(mon, s) ← scan_3s s; '(mday, s) ← scan_d s; '(hour, min, sec, s) ← scan_time s;
  '(year, _) ← scan_d s;
  Some (make_date mday (year - 1900) mon hour min sec).

Definition http_date_parse_imf (src : bytes) : date_result :=
  let src_len := length src in
  if (src_len =? 0)%nat || (64 <=? src_len)%nat then DateError
  else if (26 <=? src_len)%nat && (nth 3 src 0 =? COMMA) then
    default DateError (scan_imf (c_str (drop 5 src)))
  else
    match drop_while (isnt COMMA) src with
    | [] => default DateError (scan_asctime (c_str src))
    | [_] => ReadsOutside
    | _ :: _ :: rest => default DateError (scan_rfc850 (c_str rest))
    end.

(** ** Lemmas *)

Lemma digit_ok n : 0 <= n -> is_digit (48 + n mod 10) = true.
Proof. intros Hn. unfold is_digit. pose proof (Z.mod_pos_bound n 10 ltac:(lia)). apply andb_true_intro; split; apply Z.leb_le; lia. Qed.

Lemma stop_digit c t : is_digit c = false -> forall c' r, c :: t = c' :: r -> is_digit c' = false.
Proof. by intros Hc c' r [= <- <-]. Qed.

Lemma two_digits v t :
  0 <= v < 100 -> (forall c r, t = c :: r -> is_digit c = false) ->
  take_while is_digit (put_u8_2digit v ++ t) = put_u8_2digit v /\
  drop_while is_digit (put_u8_2digit v ++ t) = t /\ digits_value 0 (put_u8_2digit v) = v.
Proof.
  intros Hv Ht. unfold put_u8_2digit. cbn [app take_while drop_while digits_value].
  rewrite !digit_ok by (try apply Z.div_pos; lia).
  assert (take_while is_digit t = [] /\ drop_while is_digit t = t) as [-> ->].
  { destruct t as [|c r]; [done|]. cbn. by rewrite (Ht c r). }
  split_and!; [done..|]. dlia.
Qed.

Lemma four_digits v t :
  0 <= v < 10000 -> (forall c r, t = c :: r -> is_digit c = false) ->
  take_while is_digit (put_u16_4digit v ++ t) = put_u16_4digit v /\
  drop_while is_digit (put_u16_4digit v ++ t) = t /\ digits_value 0 (put_u16_4digit v) = v.
Proof.
  intros Hv Ht. unfold put_u16_4digit. cbn [app take_while drop_while digits_value].
  rewrite !digit_ok by (try apply Z.div_pos; lia).
  assert (take_while is_digit t = [] /\ drop_while is_digit t = t) as [-> ->].
  { destruct t as [|c r]; [done|]. cbn. by rewrite (Ht c r). }
  split_and!; [done..|]. dlia.
Qed.

(** A run of digits is read as the number it writes. *)
Lemma scan_d_digits ds v t :
  take_while is_digit (ds ++ t) = ds -> drop_while is_digit (ds ++ t) = t -> digits_value 0 ds = v -> ds <> [] ->
  scan_d (ds ++ t) = Some (v, t) /\ scan_d (SP :: ds ++ t) = Some (v, t).
Proof.
  intros Hta Hdr Hv Hne. destruct ds as [|d ds]; [done|].
  assert (is_digit d = true) as Hd.
  { cbn [app take_while] in Hta. destruct (is_digit d); [done|discriminate]. }
  assert (drop_while is_space ((d :: ds) ++ t) = (d :: ds) ++ t) as Hs.
  { cbn [app]. apply drop_while_stop. unfold is_digit in Hd. unfold is_space. b2p. apply orb_false_iff; split;
      [apply Z.eqb_neq; lia|]. apply andb_false_iff; right. apply Z.leb_gt. lia. }
  assert (scan_d ((d :: ds) ++ t) = Some (v, t)) as E.
  { unfold scan_d. rewrite Hs. cbn [app]. unfold is_digit in Hd. b2p.
    rewrite (proj2 (Z.eqb_neq d DASH)), (proj2 (Z.eqb_neq d PLUS)) by lia.
    change (d :: ds ++ t) with ((d :: ds) ++ t). by rewrite Hta, Hdr, Hv. }
  split; [done|]. rewrite <- E. done.
Qed.

Lemma scan_two v c t : 0 <= v < 100 -> is_digit c = false ->
  scan_d (put_u8_2digit v ++ c :: t) = Some (v, c :: t) /\ scan_d (SP :: put_u8_2digit v ++ c :: t) = Some (v, c :: t).
Proof. intros Hv Hc. destruct (two_digits v _ Hv (stop_digit c t Hc)) as (? & ? & ?). by apply scan_d_digits. Qed.

Lemma scan_four v c t : 0 <= v < 10000 -> is_digit c = false ->
  scan_d (SP :: put_u16_4digit v ++ c :: t) = Some (v, c :: t).
Proof. intros Hv Hc. destruct (four_digits v _ Hv (stop_digit c t Hc)) as (? & ? & ?). by apply scan_d_digits. Qed.

Lemma scan_month m t : 0 <= m <= 11 ->
  exists n, nth (Z.to_nat (Z.rem m 12)) month_names [] = n /\ scan_3s (SP :: n ++ SP :: t) = Some (n, SP :: t) /\
    http_date_month_from_abbr n = Some m.
Proof.
  intros Hm. eexists; split; [done|].
  assert (m = 0 \/ m = 1 \/ m = 2 \/ m = 3 \/ m = 4 \/ m = 5 \/ m = 6 \/ m = 7 \/ m = 8 \/ m = 9 \/ m = 10 \/ m = 11) as Hc by lia.
  repeat destruct Hc as [->|Hc]; [..|subst m]; done.
Qed.

Lemma c_str_clean s : Forall (fun c => 0 < c) s -> c_str s = s.
Proof.
  intros Hs. unfold c_str. apply take_while_id. eapply Forall_impl; [exact Hs|]. intros c Hc. unfold isnt.
  apply negb_true_iff, Z.eqb_neq. cbn in Hc. lia.
Qed.

(** The fields a date in the years 0 to 9999 has. *)
Definition valid_tm (t : tm) : Prop :=
  tm_fields_in_range t = true /\ 0 <= tm_wday t <= 6 /\ 0 <= tm_year t + 1900 <= 9999.

Lemma day_shape w : 0 <= w <= 6 -> exists x y z, nth (Z.to_nat (Z.land w 7)) day_names [] = [x; y; z] /\ 0 < x /\ 0 < y /\ 0 < z.
Proof.
  intros Hw. assert (w = 0 \/ w = 1 \/ w = 2 \/ w = 3 \/ w = 4 \/ w = 5 \/ w = 6) as Hc by lia.
  repeat destruct Hc as [->|Hc]; [..|subst w]; vm_compute; by do 3 eexists.
Qed.

Lemma month_shape m : 0 <= m <= 11 -> exists x y z, nth (Z.to_nat (Z.rem m 12)) month_names [] = [x; y; z] /\ 0 < x /\ 0 < y /\ 0 < z.
Proof.
  intros Hm.
  assert (m = 0 \/ m = 1 \/ m = 2 \/ m = 3 \/ m = 4 \/ m = 5 \/ m = 6 \/ m = 7 \/ m = 8 \/ m = 9 \/ m = 10 \/ m = 11) as Hc by lia.
  repeat destruct Hc as [->|Hc]; [..|subst m]; vm_compute; by do 3 eexists.
Qed.

Lemma digits_pos v : Forall (fun c => 0 < c) (put_u8_2digit v) /\ Forall (fun c => 0 < c) (put_u16_4digit v).
Proof.
  unfold put_u8_2digit, put_u16_4digit. split; repeat constructor;
    match goal with |- 0 < 48 + ?x mod 10 => pose proof (Z.mod_pos_bound x 10 ltac:(lia)); lia end.
Qed.

(** The part of a formatted date behind the day name. *)
Definition imf_tail (t : tm) (year : Z) : bytes :=
  put_u8_2digit (tm_mday t) ++ SP :: nth (Z.to_nat (Z.rem (tm_mon t) 12)) month_names [] ++ SP :: put_u16_4digit year
    ++ SP :: put_u8_2digit (tm_hour t) ++ COLON :: put_u8_2digit (tm_min t) ++ COLON :: put_u8_2digit (tm_sec t) ++ lit " GMT".

Lemma format_shape t : valid_tm t ->
  exists x y z, http_date_format_imf t = [x; y; z; COMMA; SP] ++ imf_tail t (tm_year t + 1900) /\
    Forall (fun c => 0 < c) (http_date_format_imf t) /\ length (http_date_format_imf t) = 29%nat.
Proof.
  intros (Hr & Hw & Hy). unfold tm_fields_in_range in Hr. repeat case_if_in Hr; try done. b2p.
  destruct (day_shape _ Hw) as (x & y & z & Ed & ? & ? & ?).
  destruct (month_shape (tm_mon t) ltac:(lia)) as (p & q & r & Em & ? & ? & ?).
  exists x, y, z. unfold http_date_format_imf, imf_tail. rewrite Ed, Em.
  rewrite (proj2 (Z.ltb_ge _ _)), (proj2 (Z.ltb_ge 9999 _)) by lia. cbn [orb].
  split; [done|]. split; [|done].
  repeat (apply Forall_app; split); try apply digits_pos; repeat constructor; done || lia.
Qed.

Lemma imf_tail_scans t : valid_tm t ->
  scan_imf (imf_tail t (tm_year t + 1900)) =
    Some (Date {| tm_sec := tm_sec t; tm_min := tm_min t; tm_hour := tm_hour t; tm_mday := tm_mday t;
                  tm_mon := tm_mon t; tm_year := tm_year t; tm_wday := 0 |}).
Proof.
  intros (Hr & Hw & Hy). pose proof Hr as Hr'. unfold tm_fields_in_range in Hr'. repeat case_if_in Hr'; try done. b2p.
  unfold scan_imf, imf_tail.
  rewrite (proj1 (scan_two (tm_mday t) SP _ ltac:(lia) eq_refl)). cbn [mbind option_bind].
  match goal with |- context [nth _ month_names [] ++ SP :: ?s] => destruct (scan_month (tm_mon t) s ltac:(lia)) as (n & -> & -> & En) end.
  cbn [mbind option_bind]. rewrite scan_four by (lia || done). cbn [mbind option_bind].
  unfold scan_time. rewrite (proj2 (scan_two (tm_hour t) COLON _ ltac:(lia) eq_refl)). cbn [mbind option_bind scan_char].
  rewrite Z.eqb_refl. cbn [mbind option_bind].
  rewrite (proj1 (scan_two (tm_min t) COLON _ ltac:(lia) eq_refl)). cbn [mbind option_bind scan_char].
  rewrite Z.eqb_refl. cbn [mbind option_bind].
  change (lit " GMT") with (SP :: lit "GMT"). rewrite (proj1 (scan_two (tm_sec t) SP _ ltac:(lia) eq_refl)). cbn [mbind option_bind].
  unfold make_date. rewrite En. replace (tm_year t + 1900 - 1900) with (tm_year t) by lia.
  unfold tm_fields_in_range in *. cbn in *. by rewrite Hr.
Qed.

(** a date the server writes is 29 bytes long and is read back as the same date:
    year, month, day and time of day agree (the week day is not read). *)
Theorem http_date_roundtrip (t : tm) :
  valid_tm t ->
  length (http_date_format_imf t) = 29%nat /\
  http_date_parse_imf (http_date_format_imf t) =
    Date {| tm_sec := tm_sec t; tm_min := tm_min t; tm_hour := tm_hour t; tm_mday := tm_mday t;
            tm_mon := tm_mon t; tm_year := tm_year t; tm_wday := 0 |}.
Proof.
  intros Hv. destruct (format_shape t Hv) as (x & y & z & E & Hpos & Hlen). split; [done|].
  unfold http_date_parse_imf. rewrite Hlen. cbn [Nat.eqb Nat.leb orb andb].
  rewrite E in *. cbn [app nth]. rewrite Z.eqb_refl.
  change (drop 5 _) with (imf_tail t (tm_year t + 1900)).
  rewrite c_str_clean by (by do 5 apply Forall_inv_tail in Hpos). by rewrite imf_tail_scans.
Qed.

(** 6 November 1994, 08:49:37. *)
Lemma http_date_roundtrip_witness :
  http_date_parse_imf (lit "Sun, 06 Nov 1994 08:49:37 GMT") =
    Date {| tm_sec := 37; tm_min := 49; tm_hour := 8; tm_mday := 6; tm_mon := 10; tm_year := 94; tm_wday := 0 |}.
Proof.
  exact (proj2 (http_date_roundtrip {| tm_sec := 37; tm_min := 49; tm_hour := 8; tm_mday := 6; tm_mon := 10; tm_year := 94; tm_wday := 0 |}
    ltac:(unfold valid_tm; cbn; split_and!; done || lia))).
Defined.

(** A date that ends in its only comma makes the parser read behind the terminator of
    its copy; for a text of 63 bytes that is behind the end of the buffer. *)
Theorem http_date_reads_outside :
  http_date_parse_imf (replicate 62 (ch "x") ++ [COMMA]) = ReadsOutside.
Proof. reflexivity. Qed.
End HttpDate.
