(* ===== verification/HttpResponse.v ===== *)
(** * The response object

    Models src/src/http_response.c (the object and the methods a handler builds a
    response with), src/src/http_response_internal.h and the server's own setters in
    src/src/http_response_server_api.c.  Streaming, the wire format and the end of a
    request are in Http1Response.  The slot of the compression module is opaque here,
    as in the source: its type is the parameter [C]. *)

From S2P Require Import Prelude.

Module Response.

(** ** Data *)

(** The value of a header: a string, or an array when there are several.  Values of
    other types are turned into strings by the engine before they get here. *)
Inductive hval := HStr (s : bytes) | HArr (l : list bytes).

(** A table with its entries in insertion order. *)
Abbreviation headers_t := (list (bytes * hval)).

Section table.
Context {V : Type}.

Fixpoint ht_find (k : bytes) (h : list (bytes * V)) : option V :=
  match h with
  | [] => None
  | (k', v) :: r => if eqb_bytes k k' then Some v else ht_find k r
  end.

Definition ht_exists (k : bytes) (h : list (bytes * V)) : bool :=
  match ht_find k h with Some _ => true | None => false end.

(** [zend_hash_update]: an existing entry keeps its place. *)
Fixpoint ht_update (k : bytes) (v : V) (h : list (bytes * V)) : list (bytes * V) :=
  match h with
  | [] => [(k, v)]
  | (k', v') :: r => if eqb_bytes k k' then (k', v) :: r else (k', v') :: ht_update k v r
  end.

Fixpoint ht_del (k : bytes) (h : list (bytes * V)) : list (bytes * V) :=
  match h with
  | [] => []
  | (k', v) :: r => if eqb_bytes k k' then r else (k', v) :: ht_del k r
  end.
End table.

Record http_send_file_options_t := {
  content_type : option bytes;
  download_name : option bytes;
  cache_control : option bytes;
  opt_status : Z;
  disposition : Z;
  disposition_set : bool;
  etag : bool;
  last_modified : bool;
  accept_ranges : bool;
  precompressed : bool;
  conditional : bool;
  delete_after_send : bool;
}.

Record http_send_file_request_t := { sf_path : bytes; sf_opts : http_send_file_options_t }.

(** The tables [stream_ops] can point to on HTTP/1; the contexts are kept by the
    modules that own them. *)
Inductive stream_ops_t := h1_stream_ops | compressing_stream_ops.

Inductive throwable := RuntimeException | InvalidArgument | HttpException (code : Z).
Inductive outcome := Returns | Throws (e : throwable).

Section response.
Context {C : Type}.

(** A [smart_str] is its string, [None] before the first append. *)
Record http_response_object := {
  reason_phrase : option bytes;
  headers : headers_t;
  trailers : option (list (bytes * bytes));
  protocol_version : option bytes;
  body : option bytes;
  body_view : option bytes;
  stream_ops : option stream_ops_t;
  status_code : Z;
  headers_sent : bool;
  closed : bool;
  committed : bool;
  streaming : bool;
  sse_mode : bool;
  is_head : bool;
  grpc_mode : Z;
  grpc_compress : bool;
  compression_state : option C;
  default_json_flags : Z;
  send_file_req : option http_send_file_request_t;
}.

Definition set_reason_phrase (x : option bytes) (r : http_response_object) : http_response_object :=
  {| reason_phrase := x; headers := headers r; trailers := trailers r; protocol_version := protocol_version r;
     body := body r; body_view := body_view r; stream_ops := stream_ops r; status_code := status_code r;
     headers_sent := headers_sent r; closed := closed r; committed := committed r; streaming := streaming r;
     sse_mode := sse_mode r; is_head := is_head r; grpc_mode := grpc_mode r; grpc_compress := grpc_compress r;
     compression_state := compression_state r; default_json_flags := default_json_flags r;
     send_file_req := send_file_req r |}.
Definition set_headers (x : headers_t) (r : http_response_object) : http_response_object :=
  {| reason_phrase := reason_phrase r; headers := x; trailers := trailers r;
     protocol_version := protocol_version r; body := body r; body_view := body_view r;
     stream_ops := stream_ops r; status_code := status_code r; headers_sent := headers_sent r;
     closed := closed r; committed := committed r; streaming := streaming r; sse_mode := sse_mode r;
     is_head := is_head r; grpc_mode := grpc_mode r; grpc_compress := grpc_compress r;
     compression_state := compression_state r; default_json_flags := default_json_flags r;
     send_file_req := send_file_req r |}.
Definition set_trailers (x : option (list (bytes * bytes))) (r : http_response_object) : http_response_object :=
  {| reason_phrase := reason_phrase r; headers := headers r; trailers := x;
     protocol_version := protocol_version r; body := body r; body_view := body_view r;
     stream_ops := stream_ops r; status_code := status_code r; headers_sent := headers_sent r;
     closed := closed r; committed := committed r; streaming := streaming r; sse_mode := sse_mode r;
     is_head := is_head r; grpc_mode := grpc_mode r; grpc_compress := grpc_compress r;
     compression_state := compression_state r; default_json_flags := default_json_flags r;
     send_file_req := send_file_req r |}.
Definition set_protocol_version (x : option bytes) (r : http_response_object) : http_response_object :=
  {| reason_phrase := reason_phrase r; headers := headers r; trailers := trailers r; protocol_version := x;
     body := body r; body_view := body_view r; stream_ops := stream_ops r; status_code := status_code r;
     headers_sent := headers_sent r; closed := closed r; committed := committed r; streaming := streaming r;
     sse_mode := sse_mode r; is_head := is_head r; grpc_mode := grpc_mode r; grpc_compress := grpc_compress r;
     compression_state := compression_state r; default_json_flags := default_json_flags r;
     send_file_req := send_file_req r |}.
Definition set_body (x : option bytes) (r : http_response_object) : http_response_object :=
  {| reason_phrase := reason_phrase r; headers := headers r; trailers := trailers r;
     protocol_version := protocol_version r; body := x; body_view := body_view r; stream_ops := stream_ops r;
     status_code := status_code r; headers_sent := headers_sent r; closed := closed r;
     committed := committed r; streaming := streaming r; sse_mode := sse_mode r; is_head := is_head r;
     grpc_mode := grpc_mode r; grpc_compress := grpc_compress r; compression_state := compression_state r;
     default_json_flags := default_json_flags r; send_file_req := send_file_req r |}.
Definition set_body_view (x : option bytes) (r : http_response_object) : http_response_object :=
  {| reason_phrase := reason_phrase r; headers := headers r; trailers := trailers r;
     protocol_version := protocol_version r; body := body r; body_view := x; stream_ops := stream_ops r;
     status_code := status_code r; headers_sent := headers_sent r; closed := closed r;
     committed := committed r; streaming := streaming r; sse_mode := sse_mode r; is_head := is_head r;
     grpc_mode := grpc_mode r; grpc_compress := grpc_compress r; compression_state := compression_state r;
     default_json_flags := default_json_flags r; send_file_req := send_file_req r |}.
Definition set_stream_ops (x : option stream_ops_t) (r : http_response_object) : http_response_object :=
  {| reason_phrase := reason_phrase r; headers := headers r; trailers := trailers r;
     protocol_version := protocol_version r; body := body r; body_view := body_view r; stream_ops := x;
     status_code := status_code r; headers_sent := headers_sent r; closed := closed r;
     committed := committed r; streaming := streaming r; sse_mode := sse_mode r; is_head := is_head r;
     grpc_mode := grpc_mode r; grpc_compress := grpc_compress r; compression_state := compression_state r;
     default_json_flags := default_json_flags r; send_file_req := send_file_req r |}.
Definition set_status_code (x : Z) (r : http_response_object) : http_response_object :=
  {| reason_phrase := reason_phrase r; headers := headers r; trailers := trailers r;
     protocol_version := protocol_version r; body := body r; body_view := body_view r;
     stream_ops := stream_ops r; status_code := x; headers_sent := headers_sent r; closed := closed r;
     committed := committed r; streaming := streaming r; sse_mode := sse_mode r; is_head := is_head r;
     grpc_mode := grpc_mode r; grpc_compress := grpc_compress r; compression_state := compression_state r;
     default_json_flags := default_json_flags r; send_file_req := send_file_req r |}.
Definition set_headers_sent (x : bool) (r : http_response_object) : http_response_object :=
  {| reason_phrase := reason_phrase r; headers := headers r; trailers := trailers r;
     protocol_version := protocol_version r; body := body r; body_view := body_view r;
     stream_ops := stream_ops r; status_code := status_code r; headers_sent := x; closed := closed r;
     committed := committed r; streaming := streaming r; sse_mode := sse_mode r; is_head := is_head r;
     grpc_mode := grpc_mode r; grpc_compress := grpc_compress r; compression_state := compression_state r;
     default_json_flags := default_json_flags r; send_file_req := send_file_req r |}.
Definition set_closed (x : bool) (r : http_response_object) : http_response_object :=
  {| reason_phrase := reason_phrase r; headers := headers r; trailers := trailers r;
     protocol_version := protocol_version r; body := body r; body_view := body_view r;
     stream_ops := stream_ops r; status_code := status_code r; headers_sent := headers_sent r; closed := x;
     committed := committed r; streaming := streaming r; sse_mode := sse_mode r; is_head := is_head r;
     grpc_mode := grpc_mode r; grpc_compress := grpc_compress r; compression_state := compression_state r;
     default_json_flags := default_json_flags r; send_file_req := send_file_req r |}.
Definition set_committed (x : bool) (r : http_response_object) : http_response_object :=
  {| reason_phrase := reason_phrase r; headers := headers r; trailers := trailers r;
     protocol_version := protocol_version r; body := body r; body_view := body_view r;
     stream_ops := stream_ops r; status_code := status_code r; headers_sent := headers_sent r;
     closed := closed r; committed := x; streaming := streaming r; sse_mode := sse_mode r;
     is_head := is_head r; grpc_mode := grpc_mode r; grpc_compress := grpc_compress r;
     compression_state := compression_state r; default_json_flags := default_json_flags r;
     send_file_req := send_file_req r |}.
Definition set_streaming (x : bool) (r : http_response_object) : http_response_object :=
  {| reason_phrase := reason_phrase r; headers := headers r; trailers := trailers r;
     protocol_version := protocol_version r; body := body r; body_view := body_view r;
     stream_ops := stream_ops r; status_code := status_code r; headers_sent := headers_sent r;
     closed := closed r; committed := committed r; streaming := x; sse_mode := sse_mode r;
     is_head := is_head r; grpc_mode := grpc_mode r; grpc_compress := grpc_compress r;
     compression_state := compression_state r; default_json_flags := default_json_flags r;
     send_file_req := send_file_req r |}.
Definition set_sse_mode (x : bool) (r : http_response_object) : http_response_object :=
  {| reason_phrase := reason_phrase r; headers := headers r; trailers := trailers r;
     protocol_version := protocol_version r; body := body r; body_view := body_view r;
     stream_ops := stream_ops r; status_code := status_code r; headers_sent := headers_sent r;
     closed := closed r; committed := committed r; streaming := streaming r; sse_mode := x;
     is_head := is_head r; grpc_mode := grpc_mode r; grpc_compress := grpc_compress r;
     compression_state := compression_state r; default_json_flags := default_json_flags r;
     send_file_req := send_file_req r |}.
Definition set_is_head (x : bool) (r : http_response_object) : http_response_object :=
  {| reason_phrase := reason_phrase r; headers := headers r; trailers := trailers r;
     protocol_version := protocol_version r; body := body r; body_view := body_view r;
     stream_ops := stream_ops r; status_code := status_code r; headers_sent := headers_sent r;
     closed := closed r; committed := committed r; streaming := streaming r; sse_mode := sse_mode r;
     is_head := x; grpc_mode := grpc_mode r; grpc_compress := grpc_compress r;
     compression_state := compression_state r; default_json_flags := default_json_flags r;
     send_file_req := send_file_req r |}.
Definition set_grpc_mode (x : Z) (r : http_response_object) : http_response_object :=
  {| reason_phrase := reason_phrase r; headers := headers r; trailers := trailers r;
     protocol_version := protocol_version r; body := body r; body_view := body_view r;
     stream_ops := stream_ops r; status_code := status_code r; headers_sent := headers_sent r;
     closed := closed r; committed := committed r; streaming := streaming r; sse_mode := sse_mode r;
     is_head := is_head r; grpc_mode := x; grpc_compress := grpc_compress r;
     compression_state := compression_state r; default_json_flags := default_json_flags r;
     send_file_req := send_file_req r |}.
Definition set_grpc_compress (x : bool) (r : http_response_object) : http_response_object :=
  {| reason_phrase := reason_phrase r; headers := headers r; trailers := trailers r;
     protocol_version := protocol_version r; body := body r; body_view := body_view r;
     stream_ops := stream_ops r; status_code := status_code r; headers_sent := headers_sent r;
     closed := closed r; committed := committed r; streaming := streaming r; sse_mode := sse_mode r;
     is_head := is_head r; grpc_mode := grpc_mode r; grpc_compress := x;
     compression_state := compression_state r; default_json_flags := default_json_flags r;
     send_file_req := send_file_req r |}.
Definition set_compression_state (x : option C) (r : http_response_object) : http_response_object :=
  {| reason_phrase := reason_phrase r; headers := headers r; trailers := trailers r;
     protocol_version := protocol_version r; body := body r; body_view := body_view r;
     stream_ops := stream_ops r; status_code := status_code r; headers_sent := headers_sent r;
     closed := closed r; committed := committed r; streaming := streaming r; sse_mode := sse_mode r;
     is_head := is_head r; grpc_mode := grpc_mode r; grpc_compress := grpc_compress r; compression_state := x;
     default_json_flags := default_json_flags r; send_file_req := send_file_req r |}.
Definition set_default_json_flags (x : Z) (r : http_response_object) : http_response_object :=
  {| reason_phrase := reason_phrase r; headers := headers r; trailers := trailers r;
     protocol_version := protocol_version r; body := body r; body_view := body_view r;
     stream_ops := stream_ops r; status_code := status_code r; headers_sent := headers_sent r;
     closed := closed r; committed := committed r; streaming := streaming r; sse_mode := sse_mode r;
     is_head := is_head r; grpc_mode := grpc_mode r; grpc_compress := grpc_compress r;
     compression_state := compression_state r; default_json_flags := x; send_file_req := send_file_req r |}.
Definition set_send_file_req (x : option http_send_file_request_t) (r : http_response_object) : http_response_object :=
  {| reason_phrase := reason_phrase r; headers := headers r; trailers := trailers r;
     protocol_version := protocol_version r; body := body r; body_view := body_view r;
     stream_ops := stream_ops r; status_code := status_code r; headers_sent := headers_sent r;
     closed := closed r; committed := committed r; streaming := streaming r; sse_mode := sse_mode r;
     is_head := is_head r; grpc_mode := grpc_mode r; grpc_compress := grpc_compress r;
     compression_state := compression_state r; default_json_flags := default_json_flags r; send_file_req := x |}.

Abbreviation method := (http_response_object -> http_response_object * outcome).

(** ** Guards *)

Definition response_check_closed (r : http_response_object) : bool :=
  if closed r then true
  else if streaming r then true
  else match send_file_req r with Some _ => true | None => false end.

Definition response_check_trailer_sealed (r : http_response_object) : bool :=
  if closed r then true
  else match send_file_req r with Some _ => true | None => false end.

Definition response_clear_body_view (r : http_response_object) : http_response_object := set_body_view None r.

(** [smart_str_append] of a string to a buffer that may not exist yet. *)
Definition smart_append (b : option bytes) (s : bytes) : option bytes := Some (default [] b ++ s).

(** [smart_str_free(&body); smart_str_append(&body, s)] behind a dropped view. *)
Definition replace_body (s : bytes) (r : http_response_object) : http_response_object :=
  set_body (smart_append None s) (response_clear_body_view r).

(** ** Headers *)

Definition normalize_header_name (name : bytes) : bytes := map to_lower name.

Definition add_header_value (h : headers_t) (name : bytes) (value : hval) (replace : bool) : headers_t :=
  let lower_name := normalize_header_name name in
  match replace, ht_find lower_name h with
  | false, Some existing =>
      let old := match existing with HStr s => [s] | HArr l => l end in
      ht_update lower_name (HArr (old ++ match value with HStr s => [s] | HArr l => l end)) h
  | _, _ =>
      match value with
      | HArr [s] => ht_update lower_name (HStr s) h
      | HArr l => ht_update lower_name (HArr l) h
      | HStr s => ht_update lower_name (HStr s) h
      end
  end.

(** A method that is refused once the response can no longer be changed. *)
Definition guarded (f : http_response_object -> http_response_object * outcome) : method :=
  fun r => if response_check_closed r then (r, Throws RuntimeException) else f r.

Definition setStatusCode (code : Z) : method := guarded (fun r =>
  if (code <? 100) || (599 <? code) then (r, Throws InvalidArgument)
  else (set_status_code code r, Returns)).

Definition setReasonPhrase (phrase : bytes) : method := guarded (fun r =>
  (set_reason_phrase (Some phrase) r, Returns)).

Definition setHeader (name : bytes) (value : hval) : method := guarded (fun r =>
  (set_headers (add_header_value (headers r) name value true) r, Returns)).

Definition addHeader (name : bytes) (value : hval) : method := guarded (fun r =>
  (set_headers (add_header_value (headers r) name value false) r, Returns)).

Definition hasHeader (name : bytes) (r : http_response_object) : bool :=
  ht_exists (normalize_header_name name) (headers r).

Definition getHeader (name : bytes) (r : http_response_object) : option bytes :=
  match ht_find (normalize_header_name name) (headers r) with
  | None => None
  | Some (HStr s) => Some s
  | Some (HArr l) => head l
  end.

Definition getHeaderLine (name : bytes) (r : http_response_object) : bytes :=
  match ht_find (normalize_header_name name) (headers r) with
  | None => []
  | Some (HStr s) => s
  | Some (HArr l) => join_with (lit ", ") l
  end.

Definition resetHeaders : method := guarded (fun r => (set_headers [] r, Returns)).

(** ** Trailers *)

Definition ensure_trailers_table (r : http_response_object) : list (bytes * bytes) := default [] (trailers r).

Definition http_response_promote_trailers_to_headers (r : http_response_object) : http_response_object :=
  match trailers r with
  | None | Some [] => r
  | Some t => set_trailers (Some []) (set_headers (foldl (fun h '(n, v) => ht_update n (HStr v) h) (headers r) t) r)
  end.

Definition http_response_clear_trailers (r : http_response_object) : http_response_object :=
  match trailers r with None => r | Some _ => set_trailers (Some []) r end.

Definition http_response_ensure_grpc_status (status : Z) (r : http_response_object) : http_response_object :=
  let t := ensure_trailers_table r in
  if ht_exists (lit "grpc-status") t then set_trailers (Some t) r
  else set_trailers (Some (ht_update (lit "grpc-status") (print_d status) t)) r.

Definition trailer_guarded (f : http_response_object -> http_response_object * outcome) : method :=
  fun r => if response_check_trailer_sealed r then (r, Throws RuntimeException) else f r.

Definition setTrailer (name value : bytes) : method := trailer_guarded (fun r =>
  (set_trailers (Some (ht_update (map to_lower name) value (ensure_trailers_table r))) r, Returns)).

Definition set_trailer_entry (t : list (bytes * bytes)) (e : option bytes * zval) : list (bytes * bytes) :=
  match e with
  | (Some name, ZString v) => ht_update (map to_lower name) v t
  | _ => t
  end.

Definition setTrailers (input : php_array) : method := trailer_guarded (fun r =>
  (set_trailers (Some (foldl set_trailer_entry (ensure_trailers_table r) input)) r, Returns)).

Definition resetTrailers : method := trailer_guarded (fun r => (http_response_clear_trailers r, Returns)).

Definition getTrailers (r : http_response_object) : list (bytes * bytes) := default [] (trailers r).

(** ** Body *)

Definition write (data : bytes) : method := guarded (fun r =>
  (set_body (smart_append (body r) data) (response_clear_body_view r), Returns)).

Definition getBody (r : http_response_object) : bytes :=
  match body_view r with Some v => v | None => default [] (body r) end.

Definition setBody (s : bytes) : method := guarded (fun r => (replace_body s r, Returns)).

(** The argument of [json]: JSON text, or a value with what [php_json_encode_ex] makes
    of it under given flags ([None] on failure). *)
Inductive json_data := JText (s : bytes) | JValue (encode : Z -> option bytes).

Definition PHP_JSON_THROW_ON_ERROR : Z := Z.shiftl 1 22.

Definition json_flags (flags : Z) (r : http_response_object) : Z :=
  Z.ldiff (if negb (flags =? 0) then u32 flags else default_json_flags r) PHP_JSON_THROW_ON_ERROR.

Definition json_error_body : bytes :=
  [123; DQUOTE] ++ lit "error" ++ [DQUOTE; COLON; DQUOTE] ++ lit "json encoding failed" ++ [DQUOTE; 125].

Definition json (data : json_data) (status flags : Z) : method := guarded (fun r =>
  if (status <? 100) || (599 <? status) then (r, Throws InvalidArgument)
  else
    let h := if ht_exists (lit "content-type") (headers r) then headers r
             else add_header_value (headers r) (lit "content-type") (HStr (lit "application/json")) true in
    let r := set_status_code status (set_headers h r) in
    match data with
    | JText s => (replace_body s r, Returns)
    | JValue encode =>
        match encode (json_flags flags r) with
        | None => (set_status_code 500 (replace_body json_error_body r), Returns)
        | Some encoded => (replace_body encoded r, Returns)
        end
    end).

Definition html (s : bytes) : method := guarded (fun r =>
  (replace_body s (set_headers (add_header_value (headers r) (lit "content-type") (HStr (lit "text/html; charset=utf-8")) true) r), Returns)).

Definition redirect (url : bytes) (status : Z) : method := guarded (fun r =>
  if (status <? 300) || (399 <? status) then (r, Throws InvalidArgument)
  else
    let r := set_status_code status r in
    (set_headers (add_header_value (headers r) (lit "location") (HStr url) true) r, Returns)).

Definition setGrpcEncoding (encoding : bytes) : method := fun r =>
  if grpc_mode r =? 0 then (r, Throws RuntimeException)
  else if closed r || streaming r || headers_sent r then (r, Throws RuntimeException)
  else if eqb_ci encoding (lit "identity") then
    (set_headers (ht_del (lit "grpc-encoding") (headers r)) (set_grpc_compress false r), Returns)
  else if negb (eqb_ci encoding (lit "gzip")) then (r, Throws RuntimeException)
  else (set_headers (ht_update (lit "grpc-encoding") (HStr (lit "gzip")) (headers r)) (set_grpc_compress true r), Returns).

(** ** Files *)

Definition has_crlf (o : option bytes) : bool :=
  match o with Some s => mem_byte CR s || mem_byte LF s | None => false end.

(** Without the opt-out from compression, which is done by [sendFile] of Http1Response. *)
Definition sendFile_record (path : bytes) (opts : http_send_file_options_t) : method := fun r =>
  if closed r then (r, Throws RuntimeException)
  else if streaming r || headers_sent r then (r, Throws RuntimeException)
  else match send_file_req r with
  | Some _ => (r, Throws RuntimeException)
  | None =>
      match path with
      | [] => (r, Throws RuntimeException)
      | c :: _ =>
          if negb (c =? SLASH) then (r, Throws RuntimeException)
          else if negb (opt_status opts =? 0) && ((opt_status opts <? 100) || (599 <? opt_status opts))
          then (r, Throws RuntimeException)
          else if has_crlf (content_type opts) || has_crlf (download_name opts) || has_crlf (cache_control opts)
          then (r, Throws RuntimeException)
          else (set_send_file_req (Some {| sf_path := path; sf_opts := opts |}) r, Returns)
      end
  end.

Definition http_response_take_send_file (r : http_response_object) : http_response_object * option http_send_file_request_t :=
  (set_send_file_req None r, send_file_req r).

(** ** The object *)

Definition http_response_create : http_response_object :=
  {| reason_phrase := None; headers := []; trailers := None; protocol_version := None; body := None;
     body_view := None; stream_ops := None; status_code := 200; headers_sent := false; closed := false;
     committed := false; streaming := false; sse_mode := false; is_head := false; grpc_mode := 0;
     grpc_compress := false; compression_state := None; default_json_flags := 0; send_file_req := None |}.

(** ** The server's setters *)

Definition http_response_set_protocol_version (version : bytes) : http_response_object -> http_response_object :=
  set_protocol_version (Some (c_str version)).

Definition http_response_get_body_len (r : http_response_object) : Z :=
  match body_view r with
  | Some v => Z.of_nat (length v)
  | None => match body r with Some s => Z.of_nat (length s) | None => 0 end
  end.

Definition http_response_get_body_str (r : http_response_object) : option bytes :=
  match body_view r with Some v => Some v | None => body r end.

Definition http_response_force_connection_close (r : http_response_object) : http_response_object :=
  set_headers (ht_update (lit "connection") (HArr [lit "close"]) (headers r)) r.

Definition http_response_set_alt_svc_if_unset (value : bytes) (r : http_response_object) : http_response_object :=
  match value with
  | [] => r
  | _ => if ht_exists (lit "alt-svc") (headers r) then r
         else set_headers (ht_update (lit "alt-svc") (HArr [value]) (headers r)) r
  end.

Definition http_response_static_set_header (name value : bytes) (r : http_response_object) : http_response_object :=
  set_headers (ht_update (map (fun c => if (65 <=? c) && (c <=? 90) then c - 65 + 97 else c) name) (HStr value) (headers r)) r.

(** [smart_str_0] leaves a buffer that was never appended to unallocated. *)
Definition response_set_body_bytes (data : option bytes) (r : http_response_object) : http_response_object :=
  let r := set_body None (response_clear_body_view r) in
  match data with
  | Some ((_ :: _) as s) => set_body (smart_append None s) r
  | _ => r
  end.

Definition http_response_static_set_body_view (s : option bytes) (r : http_response_object) : http_response_object :=
  let r := set_body None (response_clear_body_view r) in
  match s with
  | Some (_ :: _) => set_body_view s r
  | _ => r
  end.

Definition http_response_set_error (status : Z) (message : bytes) (r : http_response_object) : http_response_object :=
  let r := set_status_code status r in
  let r := set_headers (ht_update (lit "content-type") (HStr (lit "text/plain; charset=utf-8")) (headers r)) r in
  replace_body (c_str message) r.

Definition http_response_reset_to_error (status : Z) (message : bytes) (r : http_response_object) : http_response_object :=
  let r := response_set_body_bytes (Some (c_str message)) (set_status_code status r) in
  set_committed true (set_reason_phrase (Some (c_str message)) (set_headers [] r)).

(** The digits, least significant first: [do { ... } while (v != 0)]; a [uint64_t] has
    at most twenty. *)
Fixpoint u64_digits (fuel : nat) (v : Z) : bytes :=
  match fuel with
  | O => []
  | S f => (48 + v mod 10) :: (if negb (v / 10 =? 0) then u64_digits f (v / 10) else [])
  end.

Definition format_u64 (v : Z) : bytes := rev (u64_digits 20 v).

Definition http_response_set_content_length (length : Z) : http_response_object -> http_response_object :=
  http_response_static_set_header (lit "content-length") (format_u64 length).

Definition extra_header (include_content_headers : bool) (r : http_response_object) (e : option bytes * zval) : http_response_object :=
  match e with
  | (Some name, ZString value) =>
      if negb include_content_headers && (8 <=? Z.of_nat (length name)) && eqb_ci (take 8 name) (lit "content-") then r
      else http_response_static_set_header name value r
  | _ => r
  end.

Definition http_response_apply_extra_headers (extra : option php_array) (include_content_headers : bool) (r : http_response_object) : http_response_object :=
  match extra with
  | None => r
  | Some l => foldl (extra_header include_content_headers) r l
  end.

Definition http_response_set_connection (keep_alive : bool) : http_response_object -> http_response_object :=
  http_response_static_set_header (lit "connection") (if keep_alive then lit "keep-alive" else lit "close").

Definition http_response_header_allowed_h2h3 (name : bytes) : bool :=
  let n := length name in
  if (n =? 7)%nat then negb (eqb_ci name (lit "upgrade"))
  else if (n =? 10)%nat then negb (eqb_ci name (lit "connection")) && negb (eqb_ci name (lit "keep-alive"))
  else if (n =? 14)%nat then negb (eqb_ci name (lit "content-length"))
  else if (n =? 17)%nat then negb (eqb_ci name (lit "transfer-encoding"))
  else true.

Definition http_response_emit_status_body (status : Z) (text : option bytes) (r : http_response_object) : http_response_object :=
  let r := http_response_static_set_header (lit "content-type") (lit "text/plain; charset=utf-8") (set_status_code status r) in
  match text with
  | Some ((_ :: _) as s) => response_set_body_bytes (Some s) r
  | _ => r
  end.

Definition http_response_synth_error (status : Z) (message : option bytes) : http_response_object -> http_response_object :=
  http_response_emit_status_body status (c_str <$> message).
End response.

Arguments http_response_object : clear implicits.

#[global] Arguments add_header_value : simpl never.

(** ** Lemmas on tables *)

Section table_lemmas.
Context {V : Type}.
Implicit Type h : list (bytes * V).

Lemma ht_find_update k k' v h : ht_find k (ht_update k' v h) = if eqb_bytes k k' then Some v else ht_find k h.
Proof.
  induction h as [|[k1 v1] h IH]; cbn [ht_update ht_find]; [done|].
  destruct (eqb_bytes k' k1) eqn:E1; cbn [ht_find].
  - apply eqb_bytes_eq in E1 as <-. by destruct (eqb_bytes k k').
  - rewrite IH. destruct (eqb_bytes k k1) eqn:E2, (eqb_bytes k k') eqn:E3; try done.
    apply eqb_bytes_eq in E2, E3. subst. by rewrite eqb_bytes_refl in E1.
Qed.

Lemma ht_find_del_ne k k' h : eqb_bytes k k' = false -> ht_find k (ht_del k' h) = ht_find k h.
Proof.
  intros Hk. induction h as [|[k1 v1] h IH]; cbn [ht_del ht_find]; [done|].
  destruct (eqb_bytes k' k1) eqn:E1; cbn [ht_find]; [|by rewrite IH].
  apply eqb_bytes_eq in E1 as <-. by rewrite Hk.
Qed.

Lemma ht_exists_update k k' v h : ht_exists k (ht_update k' v h) = eqb_bytes k k' || ht_exists k h.
Proof. unfold ht_exists. rewrite ht_find_update. by destruct (eqb_bytes k k'). Qed.

Lemma ht_update_Forall (P : bytes * V -> Prop) k v h :
  P (k, v) -> Forall P h -> Forall P (ht_update k v h).
Proof.
  intros Hp. induction 1 as [|[k1 v1] h Hx Hh IH]; cbn [ht_update]; [by constructor|].
  destruct (eqb_bytes k k1) eqn:E; [apply eqb_bytes_eq in E as <-|]; by constructor.
Qed.

Lemma ht_del_Forall (P : bytes * V -> Prop) k h : Forall P h -> Forall P (ht_del k h).
Proof.
  induction 1 as [|[k1 v1] h Hx Hh IH]; cbn [ht_del]; [constructor|]. destruct (eqb_bytes k k1); [done|by constructor].
Qed.

Lemma ht_find_Forall (P : bytes * V -> Prop) k v h : Forall P h -> ht_find k h = Some v -> P (k, v).
Proof.
  induction 1 as [|[k1 v1] h Hx Hh IH]; cbn [ht_find]; [done|].
  destruct (eqb_bytes k k1) eqn:E; [|done]. intros [= ->]. by apply eqb_bytes_eq in E as ->.
Qed.
End table_lemmas.
End Response.
