(* ===== verification/ResponseCompress.v ===== *)
(** * Compression of responses

    Models src/src/compression/http_compression_response.c: the decision whether to
    compress, the header changes it entails, the buffered rewrite of a body, and the
    wrapper around the stream operations.  The encoders behind the vtable of
    src/include/compression/http_encoder.h are the class [Encoder]; [EncoderLaws] is
    what that header promises of them. *)

From S2P Require Import Prelude AcceptEncoding HttpResponse.

Module Compress.
Import AcceptEncoding Response.

(** ** Encoders *)

Inductive http_encoder_status_t := HTTP_ENC_OK | HTTP_ENC_NEED_OUTPUT | HTTP_ENC_DONE | HTTP_ENC_ERROR.

(** [vt_write enc in out_cap] is the encoder after the call, the number of bytes
    consumed, the bytes produced and the status.  [write_calls] and [finish_calls]
    bound how often a caller has to call until the input is consumed, or the footer is
    out. *)
Class Encoder := {
  http_encoder_t : Type;
  http_compression_pool_acquire : http_codec_id_t -> Z -> option http_encoder_t;
  vt_write : http_encoder_t -> bytes -> Z -> http_encoder_t * nat * bytes * http_encoder_status_t;
  vt_finish : http_encoder_t -> Z -> http_encoder_t * bytes * http_encoder_status_t;
  compress_oneshot : http_codec_id_t -> option (Z -> bytes -> Z -> option bytes);
  max_compressed_size : http_codec_id_t -> option (Z -> Z);
  write_calls : http_encoder_t -> bytes -> nat;
  finish_calls : http_encoder_t -> nat;
}.

(** Room an encoder is given by its callers. *)
Definition WRITE_ROOM : Z := 64.
Definition FINISH_ROOM : Z := 32.

(** [enc_state codec enc i o]: the encoder has been fed [i] and has put out [o];
    [enc_final] the same once the footer is being written. *)
Class EncoderLaws `{Encoder} := {
  decode : http_codec_id_t -> bytes -> option bytes;
  enc_state : http_codec_id_t -> http_encoder_t -> bytes -> bytes -> Prop;
  enc_final : http_codec_id_t -> http_encoder_t -> bytes -> bytes -> Prop;
  acquire_law : forall c l e, http_compression_pool_acquire c l = Some e -> enc_state c e [] [];
  state_final : forall c e i o, enc_state c e i o -> enc_final c e i o;
  write_law : forall c e i o inp cap e' n out st, enc_state c e i o -> inp <> [] -> WRITE_ROOM <= cap ->
    vt_write e inp cap = (e', n, out, st) -> st <> HTTP_ENC_ERROR ->
    enc_state c e' (i ++ take n inp) (o ++ out) /\ (n <= length inp)%nat /\ Z.of_nat (length out) <= cap /\
    (drop n inp <> [] -> (write_calls e' (drop n inp) < write_calls e inp)%nat);
  write_calls_pos : forall c e i o inp, enc_state c e i o -> inp <> [] -> (0 < write_calls e inp)%nat;
  finish_law : forall c e i o cap e' out st, enc_final c e i o -> FINISH_ROOM <= cap ->
    vt_finish e cap = (e', out, st) ->
    Z.of_nat (length out) <= cap /\
    match st with
    | HTTP_ENC_DONE => decode c (o ++ out) = Some i
    | HTTP_ENC_NEED_OUTPUT => enc_final c e' i (o ++ out) /\ (finish_calls e' < finish_calls e)%nat
    | _ => True
    end;
  finish_calls_pos : forall c e i o, enc_final c e i o -> (0 < finish_calls e)%nat;
  write_calls_bound : forall c e i o inp, enc_state c e i o -> Z.of_nat (write_calls e inp) <= 2 ^ 32 + Z.of_nat (length inp);
  finish_calls_bound : forall c e i o, enc_final c e i o -> Z.of_nat (finish_calls e) <= 2 ^ 32;
  oneshot_law : forall c f l inp cap out, compress_oneshot c = Some f -> f l inp cap = Some out ->
    decode c out = Some inp;
}.

(** An encoder that never reports an error. *)
Class EncoderReliable `{Encoder} := {
  write_reliable : forall e inp cap, snd (vt_write e inp cap) <> HTTP_ENC_ERROR;
  finish_reliable : forall e cap, snd (vt_finish e cap) = HTTP_ENC_DONE \/ snd (vt_finish e cap) = HTTP_ENC_NEED_OUTPUT;
}.

(** ** State *)

Record http_request_t := { rq_method : option bytes; rq_headers : hashtable }.

(** The fields of [http_server_config_t] the module reads. *)
Record http_server_config_t := {
  compression_enabled : bool;
  compression_level : Z;
  brotli_level : Z;
  zstd_level : Z;
  compression_min_size : Z;
  compression_mime_types : option (list bytes);
}.

Section compress.
Context `{Encoder}.

(** The encoder is shared with [st->encoder], which only frees it. *)
Record ws_ctx_t := {
  underlying_ops : stream_ops_t;
  w_encoder : http_encoder_t;
  w_codec : http_codec_id_t;
  first_chunk_done : bool;
}.

Record http_compression_state_t := {
  st_request : option http_request_t;
  st_cfg : option http_server_config_t;
  no_compression : bool;
  applied : bool;
  wrapper_ctx : option ws_ctx_t;
  wrapper_installed : bool;
}.

Definition http_compression_state_zero : http_compression_state_t :=
  {| st_request := None; st_cfg := None; no_compression := false; applied := false;
     wrapper_ctx := None; wrapper_installed := false |}.

Abbreviation response := (http_response_object http_compression_state_t).

(** ** Headers *)

Definition put_header_string (h : headers_t) (name value : bytes) : headers_t := ht_update name (HStr value) h.
Definition delete_header (h : headers_t) (name : bytes) : headers_t := ht_del name h.
Definition has_header (h : headers_t) (name : bytes) : bool := ht_exists name h.

Definition accept_encoding : bytes := lit "Accept-Encoding".

(** [strncasecmp] at every position that leaves room. *)
Fixpoint contains_ci (needle s : bytes) : bool :=
  if eqb_ci (take (length needle) s) needle then true
  else match s with [] => false | _ :: s' => contains_ci needle s' end.

Definition merge_vary_accept_encoding (h : headers_t) : headers_t :=
  match ht_find (lit "vary") h with
  | None => put_header_string h (lit "vary") accept_encoding
  | Some (HStr cur) =>
      if (length accept_encoding <=? length cur)%nat && contains_ci accept_encoding cur then h
      else ht_update (lit "vary") (HStr (cur ++ lit ", " ++ accept_encoding)) h
  | Some (HArr l) => ht_update (lit "vary") (HArr (l ++ [accept_encoding])) h
  end.

Definition mutate_headers_for_codec (h : headers_t) (codec : http_codec_id_t) : headers_t :=
  let tok := default [] (http_compression_codec_token codec) in
  let h := put_header_string h (lit "content-encoding") tok in
  let h := delete_header h (lit "content-length") in
  merge_vary_accept_encoding h.

(** ** The decision *)

Definition http_request_method_is_head (req : option http_request_t) : bool :=
  match req with
  | Some q => match rq_method q with Some m => eqb_bytes m (lit "HEAD") | None => false end
  | None => false
  end.

Definition request_header_value (req : option http_request_t) (name : bytes) : option bytes :=
  match req with Some q => find_string (rq_headers q) name | None => None end.

Definition request_has_header (req : option http_request_t) (name : bytes) : bool :=
  match req with
  | Some q => match rq_headers q with Some m => bool_decide (is_Some (m !! name)) | None => false end
  | None => false
  end.

Definition response_content_type (h : headers_t) (buf_cap : nat) : bytes :=
  match ht_find (lit "content-type") h with
  | Some (HStr s) => http_compression_mime_normalize s buf_cap
  | _ => []
  end.

Variable b : build.

Definition decide_codec (st : option http_compression_state_t) (r : response) (size_hint : Z) : http_codec_id_t :=
  match st with
  | None => HTTP_CODEC_IDENTITY
  | Some st =>
      match st_cfg st with
      | None => HTTP_CODEC_IDENTITY
      | Some cfg =>
          if no_compression st || negb (compression_enabled cfg) then HTTP_CODEC_IDENTITY
          else if http_request_method_is_head (st_request st) then HTTP_CODEC_IDENTITY
          else if request_has_header (st_request st) (lit "range") then HTTP_CODEC_IDENTITY
          else
            let ae := match request_header_value (st_request st) (lit "accept-encoding") with
                      | Some v => http_accept_encoding_parse v
                      | None => http_accept_encoding_init_default
                      end in
            let chosen := http_accept_encoding_select b ae in
            match chosen with
            | HTTP_CODEC_GZIP | HTTP_CODEC_BROTLI | HTTP_CODEC_ZSTD =>
                let status := status_code r in
                if (status <? 200) || (status =? 204) || (status =? 304) then HTTP_CODEC_IDENTITY
                else if has_header (headers r) (lit "content-encoding") then HTTP_CODEC_IDENTITY
                else if (0 <? size_hint) && (size_hint <? compression_min_size cfg) then HTTP_CODEC_IDENTITY
                else
                  match response_content_type (headers r) 128 with
                  | [] => HTTP_CODEC_IDENTITY
                  | ct => match compression_mime_types cfg with
                          | None => HTTP_CODEC_IDENTITY
                          | Some types => if existsb (eqb_bytes ct) types then chosen else HTTP_CODEC_IDENTITY
                          end
                  end
            | _ => HTTP_CODEC_IDENTITY
            end
      end
  end.

Definition level_for_codec (cfg : http_server_config_t) (codec : http_codec_id_t) : Z :=
  match codec with
  | HTTP_CODEC_GZIP => compression_level cfg
  | HTTP_CODEC_BROTLI => brotli_level cfg
  | HTTP_CODEC_ZSTD => zstd_level cfg
  | _ => 0
  end.

(** ** Attach and opt out *)

Definition http_compression_attach (request : http_request_t) (cfg : http_server_config_t) (r : response) : response :=
  if negb (compression_enabled cfg) then r
  else
    let st := default http_compression_state_zero (compression_state r) in
    set_compression_state (Some {| st_request := Some request; st_cfg := Some cfg; no_compression := no_compression st;
      applied := applied st; wrapper_ctx := wrapper_ctx st; wrapper_installed := wrapper_installed st |}) r.

Definition http_compression_mark_no_compression (r : response) : response :=
  let st := default http_compression_state_zero (compression_state r) in
  set_compression_state (Some {| st_request := st_request st; st_cfg := st_cfg st; no_compression := true;
    applied := applied st; wrapper_ctx := wrapper_ctx st; wrapper_installed := wrapper_installed st |}) r.

(** ** Draining an encoder *)

(** [smart_str_alloc]: the capacity for [extra] more bytes after [len]. *)
Definition SMART_STR_OVERHEAD : Z := 25.
Definition SMART_STR_NEW_LEN (n : Z) : Z := (n + SMART_STR_OVERHEAD + 4095) / 4096 * 4096 - SMART_STR_OVERHEAD.
Definition smart_str_alloc_new (extra : Z) : Z := if extra <=? 231 then 231 else SMART_STR_NEW_LEN extra.
Definition smart_str_alloc (a len extra : Z) : Z := if a <=? len + extra then SMART_STR_NEW_LEN (len + extra) else a.

Definition blen (s : bytes) : Z := Z.of_nat (length s).

(** The output buffer is its capacity and its content; [None] when the encoder takes
    more calls than it promised. *)
Fixpoint encoder_drain_write (fuel : nat) (enc : http_encoder_t) (inp : bytes) (a : Z) (out : bytes)
  : option (http_encoder_t * Z * bytes * http_encoder_status_t) :=
  match inp with
  | [] => Some (enc, a, out, HTTP_ENC_OK)
  | _ =>
      match fuel with
      | O => None
      | S f =>
          let a := if a - blen out <? 64 then smart_str_alloc a (blen out) 4096 else a in
          let '(enc, consumed, produced, s) := vt_write enc inp (a - blen out) in
          match s with
          | HTTP_ENC_ERROR => Some (enc, a, out ++ produced, HTTP_ENC_ERROR)
          | _ => encoder_drain_write f enc (drop consumed inp) a (out ++ produced)
          end
      end
  end.

Fixpoint encoder_drain_finish (fuel : nat) (enc : http_encoder_t) (a : Z) (out : bytes)
  : option (http_encoder_t * bytes * http_encoder_status_t) :=
  match fuel with
  | O => None
  | S f =>
      let a := if a - blen out <? 32 then smart_str_alloc a (blen out) 64 else a in
      let '(enc, produced, s) := vt_finish enc (a - blen out) in
      match s with
      | HTTP_ENC_DONE => Some (enc, out ++ produced, HTTP_ENC_DONE)
      | HTTP_ENC_NEED_OUTPUT => encoder_drain_finish f enc a (out ++ produced)
      | _ => Some (enc, out ++ produced, HTTP_ENC_ERROR)
      end
  end.

(** ** Buffered bodies *)

Definition mark_applied (st : http_compression_state_t) (r : response) : response :=
  set_compression_state (Some {| st_request := st_request st; st_cfg := st_cfg st; no_compression := no_compression st;
    applied := true; wrapper_ctx := wrapper_ctx st; wrapper_installed := wrapper_installed st |}) r.

Definition swap_body (codec : http_codec_id_t) (out : bytes) (r : response) : response :=
  set_headers (mutate_headers_for_codec (headers r) codec) (set_body (Some out) r).

(** The streaming encoder over the whole body; an error keeps the original. *)
Definition apply_streaming (codec : http_codec_id_t) (level : Z) (s : bytes) (r : response) : option response :=
  match http_compression_pool_acquire codec level with
  | None => Some r
  | Some enc =>
      let a := smart_str_alloc_new (blen s + Z.shiftr (blen s) 10 + 64) in
      '(enc, a, out, st1) ← encoder_drain_write (write_calls enc s) enc s a [];
      match st1 with
      | HTTP_ENC_ERROR => Some r
      | _ =>
          '(_, out, st2) ← encoder_drain_finish (finish_calls enc) enc a out;
          match st2 with
          | HTTP_ENC_ERROR => Some r
          | _ => Some (swap_body codec out r)
          end
      end
  end.

Definition http_compression_apply_buffered (r : response) : option response :=
  match compression_state r with
  | None => Some r
  | Some st =>
      if applied st || wrapper_installed st then Some r
      else
        let s := default [] (body r) in
        let codec := decide_codec (Some st) r (blen s) in
        let r := mark_applied st r in
        match codec, s, st_cfg st with
        | HTTP_CODEC_IDENTITY, _, _ | _, [], _ | _, _, None => Some r
        | _, _, Some cfg =>
            let level := level_for_codec cfg codec in
            match (if http_compression_lookup b codec then compress_oneshot codec else None) with
            | None => apply_streaming codec level s r
            | Some oneshot =>
                let cap := match max_compressed_size codec with
                           | Some f => f (blen s)
                           | None => blen s + Z.shiftr (blen s) 4 + 64
                           end in
                match oneshot level s cap with
                | Some out => Some (swap_body codec out r)
                | None => apply_streaming codec level s r
                end
            end
        end
  end.

(** ** The stream wrapper *)

Definition set_wrapper (st : http_compression_state_t) (w : ws_ctx_t) : http_compression_state_t :=
  {| st_request := st_request st; st_cfg := st_cfg st; no_compression := no_compression st; applied := applied st;
     wrapper_ctx := Some w; wrapper_installed := true |}.

Definition http_compression_maybe_install_stream_wrapper (r : response) : response :=
  match compression_state r with
  | None => r
  | Some st =>
      if wrapper_installed st then r
      else
        match decide_codec (Some st) r 0, st_cfg st with
        | HTTP_CODEC_IDENTITY, _ | _, None => r
        | codec, Some cfg =>
            match http_compression_pool_acquire codec (level_for_codec cfg codec), stream_ops r with
            | Some enc, Some ops =>
                set_compression_state (Some (set_wrapper st {| underlying_ops := ops; w_encoder := enc; w_codec := codec;
                                                               first_chunk_done := false |}))
                  (set_stream_ops (Some compressing_stream_ops) r)
            | _, _ => r
            end
        end
  end.

(** The headers change at the first chunk; the encoder the wrapper holds afterwards. *)
Definition ws_first_chunk (w : ws_ctx_t) (r : response) : response :=
  if first_chunk_done w then r else set_headers (mutate_headers_for_codec (headers r) (w_codec w)) r.

Definition ws_put (st : http_compression_state_t) (w : ws_ctx_t) (enc : http_encoder_t) (r : response) : response :=
  set_compression_state (Some (set_wrapper st {| underlying_ops := underlying_ops w; w_encoder := enc; w_codec := w_codec w;
                                                 first_chunk_done := true |})) r.

(** What [ws_append_chunk] does before it hands a chunk on: the new response, and the
    chunk, or that the encoder failed. *)
Definition ws_encode (st : http_compression_state_t) (w : ws_ctx_t) (chunk : bytes) (r : response)
  : option (response * option bytes) :=
  let r := ws_first_chunk w r in
  '(enc, _, out, s) ← encoder_drain_write (write_calls (w_encoder w) chunk) (w_encoder w) chunk (smart_str_alloc_new (blen chunk + 32)) [];
  Some (ws_put st w enc r, match s with HTTP_ENC_ERROR => None | _ => Some out end).

(** What [ws_mark_ended] puts out before it ends the stream below. *)
Definition ws_finish (st : http_compression_state_t) (w : ws_ctx_t) (r : response) : option (response * bytes) :=
  let r := ws_first_chunk w r in
  '(enc, out, _) ← encoder_drain_finish (finish_calls (w_encoder w)) (w_encoder w) (smart_str_alloc_new 64) [];
  Some (ws_put st w enc r, out).
End compress.

(** ** Draining gives the encoding *)

Section drain.
Context `{Encoder} {Laws : EncoderLaws} {Reliable : EncoderReliable}.

Lemma new_len_bound n : 0 <= n -> n <= SMART_STR_NEW_LEN n <= n + 4095.
Proof. intros Hn. unfold SMART_STR_NEW_LEN, SMART_STR_OVERHEAD. dlia. Qed.

Lemma alloc_new_bound n : 0 <= n -> n <= smart_str_alloc_new n <= n + 4095.
Proof. intros Hn. unfold smart_str_alloc_new. case_if; b2p; [lia|]. by apply new_len_bound. Qed.

(** The room left after a buffer was made to have some. *)
Lemma room_bound a len need extra : 0 <= len <= a -> 0 <= need <= extra -> extra <= 4096 ->
  let a' := if a - len <? need then smart_str_alloc a len extra else a in
  need <= a' - len /\ a <= a' <= a + 8192.
Proof.
  intros Hl Hn He a'. subst a'. case_if; b2p; [|lia]. unfold smart_str_alloc.
  rewrite (proj2 (Z.leb_le _ _)) by lia. pose proof (new_len_bound (len + extra) ltac:(lia)). lia.
Qed.

Lemma drain_write_ok c fuel e inp a i o out :
  enc_state c e i (o ++ out) -> 0 <= blen out <= a -> (inp = [] \/ (write_calls e inp <= fuel)%nat) ->
  exists e' a' out', encoder_drain_write fuel e inp a out = Some (e', a', out', HTTP_ENC_OK) /\
    enc_state c e' (i ++ inp) (o ++ out') /\ 0 <= blen out' <= a' /\ a' <= a + 8192 * Z.of_nat fuel.
Proof.
  revert e inp a i out. induction fuel as [|f IH]; intros e inp a i out Hst Ha Hf;
    (destruct inp as [|x inp]; [exists e, a, out; rewrite app_nil_r; split_and!; [done..|lia|lia|lia]|]);
    pose proof (write_calls_pos _ _ _ _ (x :: inp) Hst ltac:(done)); destruct Hf as [|Hf]; try done; [lia|].
  cbn [encoder_drain_write]. pose proof (room_bound a (blen out) 64 4096 Ha ltac:(lia) ltac:(lia)) as (Hroom & Hgrow).
  set (a1 := if _ <? 64 then _ else _) in *. clearbody a1.
  destruct (vt_write e (x :: inp) (a1 - blen out)) as [[[e1 n] pr] s] eqn:Ew.
  pose proof (write_reliable e (x :: inp) (a1 - blen out)) as Hs. rewrite Ew in Hs. cbn in Hs.
  destruct (write_law _ _ _ _ (x :: inp) _ _ _ _ _ Hst ltac:(done) Hroom Ew Hs) as (Hst1 & Hn & Hlen & Hdec).
  rewrite <- app_assoc in Hst1. destruct (IH e1 (drop n (x :: inp)) a1 _ (out ++ pr) Hst1) as (e' & a' & out' & E & Hst' & Hb & Hb').
  - unfold blen in *. rewrite length_app. lia.
  - destruct (drop n (x :: inp)) eqn:Ed; [by left|right]. specialize (Hdec ltac:(done)). lia.
  - exists e', a', out'. rewrite <- app_assoc, take_drop in Hst'. split_and!; [|done|lia|lia|lia]. by destruct s.
Qed.

Lemma drain_finish_ok c fuel e a i o out :
  enc_final c e i (o ++ out) -> 0 <= blen out <= a -> (finish_calls e <= fuel)%nat ->
  exists e' out', encoder_drain_finish fuel e a out = Some (e', out', HTTP_ENC_DONE) /\
    decode c (o ++ out') = Some i /\ blen out' <= a + 8192 * Z.of_nat fuel.
Proof.
  revert e a out. induction fuel as [|f IH]; intros e a out Hst Ha Hf;
    pose proof (finish_calls_pos _ _ _ _ Hst); [lia|].
  cbn [encoder_drain_finish]. pose proof (room_bound a (blen out) 32 64 Ha ltac:(lia) ltac:(lia)) as (Hroom & Hgrow).
  set (a' := if _ <? 32 then _ else _) in *. clearbody a'.
  destruct (vt_finish e (a' - blen out)) as [[e1 pr] s] eqn:Ew.
  pose proof (finish_reliable e (a' - blen out)) as Hs. rewrite Ew in Hs. cbn in Hs.
  destruct (finish_law _ _ _ _ _ _ _ _ Hst Hroom Ew) as (Hlen & Hm). destruct Hs as [-> | ->].
  - exists e1, (out ++ pr). rewrite app_assoc. split_and!; [done..|]. unfold blen in *. rewrite length_app. lia.
  - destruct Hm as [Hst1 Hdec]. rewrite <- app_assoc in Hst1.
    destruct (IH e1 a' (out ++ pr) Hst1) as (e' & out' & E & Hd & Hb); [|lia|].
    + unfold blen in *. rewrite length_app. lia.
    + exists e', out'. split_and!; [done..|lia].
Qed.
End drain.
End Compress.
