(* ===== verification/Http1Response.v ===== *)
(** * HTTP/1 responses: wire format, streaming and the end of a request

    Models src/src/http1/http1_format.c (the formatters), src/src/http1/http1_stream.c
    (chunked streaming), the streaming methods of src/src/http_response.c, the
    server-sent events of src/src/http_sse.c, and the part of
    src/src/core/http_connection.c that dispatches a request and disposes of its
    handler.  A connection is the bytes written to it and the results of the writes
    to come. *)

From S2P Require Import Prelude AcceptEncoding HttpDate HttpResponse ResponseCompress.

Module Http1.
Import AcceptEncoding HttpDate Response Compress.

(** ** Status lines *)

Definition status_reasons : list (Z * bytes) :=
  [(100, lit "Continue"); (101, lit "Switching Protocols"); (200, lit "OK"); (201, lit "Created");
   (202, lit "Accepted"); (204, lit "No Content"); (206, lit "Partial Content"); (301, lit "Moved Permanently");
   (302, lit "Found"); (303, lit "See Other"); (304, lit "Not Modified"); (307, lit "Temporary Redirect");
   (308, lit "Permanent Redirect"); (400, lit "Bad Request"); (401, lit "Unauthorized"); (403, lit "Forbidden");
   (404, lit "Not Found"); (405, lit "Method Not Allowed"); (408, lit "Request Timeout"); (409, lit "Conflict");
   (410, lit "Gone"); (411, lit "Length Required"); (413, lit "Payload Too Large"); (414, lit "URI Too Long");
   (415, lit "Unsupported Media Type"); (416, lit "Range Not Satisfiable"); (422, lit "Unprocessable Entity");
   (429, lit "Too Many Requests"); (500, lit "Internal Server Error"); (501, lit "Not Implemented");
   (502, lit "Bad Gateway"); (503, lit "Service Unavailable"); (504, lit "Gateway Timeout")].

Fixpoint code_find (code : Z) (l : list (Z * bytes)) : option bytes :=
  match l with
  | [] => None
  | (c, s) :: r => if code =? c then Some s else code_find code r
  end.

Definition http_status_reason (code : Z) : bytes := default (lit "Unknown") (code_find code status_reasons).

(** The entries of the table that are not NULL; its size is one more than the largest
    index. *)
Definition http11_status_lines : list (Z * bytes) :=
  [(200, lit "HTTP/1.1 200 OK" ++ crlf); (201, lit "HTTP/1.1 201 Created" ++ crlf); (202, lit "HTTP/1.1 202 Accepted" ++ crlf);
   (204, lit "HTTP/1.1 204 No Content" ++ crlf); (206, lit "HTTP/1.1 206 Partial Content" ++ crlf);
   (301, lit "HTTP/1.1 301 Moved Permanently" ++ crlf); (302, lit "HTTP/1.1 302 Found" ++ crlf);
   (304, lit "HTTP/1.1 304 Not Modified" ++ crlf); (400, lit "HTTP/1.1 400 Bad Request" ++ crlf);
   (401, lit "HTTP/1.1 401 Unauthorized" ++ crlf); (403, lit "HTTP/1.1 403 Forbidden" ++ crlf);
   (404, lit "HTTP/1.1 404 Not Found" ++ crlf); (405, lit "HTTP/1.1 405 Method Not Allowed" ++ crlf);
   (409, lit "HTTP/1.1 409 Conflict" ++ crlf); (413, lit "HTTP/1.1 413 Payload Too Large" ++ crlf);
   (414, lit "HTTP/1.1 414 URI Too Long" ++ crlf); (416, lit "HTTP/1.1 416 Range Not Satisfiable" ++ crlf);
   (429, lit "HTTP/1.1 429 Too Many Requests" ++ crlf); (500, lit "HTTP/1.1 500 Internal Server Error" ++ crlf);
   (502, lit "HTTP/1.1 502 Bad Gateway" ++ crlf); (503, lit "HTTP/1.1 503 Service Unavailable" ++ crlf);
   (504, lit "HTTP/1.1 504 Gateway Timeout" ++ crlf)].

Definition HTTP11_STATUS_LINES_CNT : Z := 505.

Definition http_response_status_line_http11 (code : Z) : option bytes :=
  if (code <=? 0) || (HTTP11_STATUS_LINES_CNT <=? code) then None else code_find code http11_status_lines.

(** Whether a header is one of those that frame the body. *)
Definition header_is_framing (name : bytes) : bool :=
  eqb_ci name (lit "content-length") || eqb_ci name (lit "transfer-encoding").

Definition append_header_line (name value : bytes) : bytes := name ++ [COLON; SP] ++ value ++ crlf.

Definition values_of (v : hval) : list bytes := match v with HStr s => [s] | HArr l => l end.

Definition emit_headers_only (h : headers_t) (skip_framing : bool) : bytes :=
  flat_map (fun '(name, v) =>
    if skip_framing && header_is_framing name then []
    else flat_map (append_header_line name) (values_of v)) h.

Definition emit_date_header (h : headers_t) (now : tm) : bytes :=
  if ht_exists (lit "date") h then [] else lit "Date: " ++ http_date_format_imf now ++ crlf.

Section format.
Context {C : Type}.
Implicit Type r : http_response_object C.

Definition emit_status_line r : bytes :=
  let code := status_code r in
  let is_http11 := match protocol_version r with None => true | Some v => eqb_bytes v (lit "1.1") end in
  match is_http11, reason_phrase r, http_response_status_line_http11 code with
  | true, None, Some line => line
  | _, _, _ =>
      let version := match protocol_version r with Some v => c_str v | None => lit "1.1" end in
      let reason := match reason_phrase r with Some s => c_str s | None => http_status_reason code end in
      lit "HTTP/" ++ version ++ [SP] ++ print_d code ++ [SP] ++ reason ++ crlf
  end.

Definition emit_headers_block r (now : tm) (body_len : Z) : bytes :=
  emit_status_line r ++ emit_date_header (headers r) now
    ++ (if ht_exists (lit "content-length") (headers r) then [] else lit "Content-Length: " ++ print_u body_len ++ crlf)
    ++ emit_headers_only (headers r) false ++ crlf.

Definition http_response_format_streaming_headers r (now : tm) : bytes :=
  emit_status_line r ++ emit_date_header (headers r) now ++ lit "Transfer-Encoding: chunked" ++ crlf
    ++ emit_headers_only (headers r) true ++ crlf.

Definition http_response_format_static_head r (include_inline_body : bool) : bytes :=
  emit_status_line r ++ emit_headers_only (headers r) false ++ crlf
    ++ (if include_inline_body then match body_view r with Some v => v | None => default [] (body r) end else []).
End format.

(** ** Server-sent events: framing *)

Definition is_newline (c : Z) : bool := (c =? LF) || (c =? CR).
Definition not_newline (c : Z) : bool := negb (is_newline c).

Definition sse_has_newline (s : option bytes) : bool :=
  match s with Some p => existsb is_newline p | None => false end.

Definition data_line (line : bytes) : bytes := lit "data: " ++ line ++ [LF].

(** The fuel bounds the lines; each takes a byte. *)
Fixpoint sse_append_data (fuel : nat) (p : bytes) : bytes :=
  match fuel with
  | O => []
  | S f =>
      data_line (take_while not_newline p) ++
      match drop_while not_newline p with
      | [] => []
      | c :: rest =>
          let p' := match rest with
                    | d :: rest' => if (c =? CR) && (d =? LF) then rest' else rest
                    | [] => rest
                    end in
          match p' with
          | [] => data_line []
          | _ => sse_append_data f p'
          end
      end
  end.

Definition sse_append_field (field value : bytes) : bytes := field ++ [COLON; SP] ++ value ++ [LF].

Definition sse_payload (data event id : option bytes) (retry : option Z) : bytes :=
  match id with Some s => sse_append_field (lit "id") s | None => [] end
    ++ match event with Some s => sse_append_field (lit "event") s | None => [] end
    ++ match retry with Some n => sse_append_field (lit "retry") (print_d n) | None => [] end
    ++ match data with Some s => sse_append_data (S (length s)) s | None => [] end
    ++ [LF].

Definition sse_comment_payload (text : bytes) : bytes :=
  [COLON] ++ match text with [] => [] | _ => SP :: text end ++ [LF; LF].

(** ** The connection *)

(** A write succeeds, or fails after some of its bytes went out. *)
Inductive io_result := WriteOk | WriteFails (n : nat).

Section stream.
Context `{Encoder}.
Variable b : build.

Abbreviation response := (http_response_object http_compression_state_t).

(** The context of a request, [http1_request_ctx_t], with the parts of its connection
    the response path uses. *)
Record h1_world := {
  request : http_request_t;
  resp : response;
  h1_stream_headers_sent : bool;
  keep_alive : bool;
  alt_svc : option bytes;
  now : tm;
  wire : bytes;
  io : list io_result;
}.

Definition set_resp (r : response) (w : h1_world) : h1_world :=
  {| request := request w; resp := r; h1_stream_headers_sent := h1_stream_headers_sent w; keep_alive := keep_alive w;
     alt_svc := alt_svc w; now := now w; wire := wire w; io := io w |}.
Definition set_sent (x : bool) (w : h1_world) : h1_world :=
  {| request := request w; resp := resp w; h1_stream_headers_sent := x; keep_alive := keep_alive w;
     alt_svc := alt_svc w; now := now w; wire := wire w; io := io w |}.
Definition set_keep_alive (x : bool) (w : h1_world) : h1_world :=
  {| request := request w; resp := resp w; h1_stream_headers_sent := h1_stream_headers_sent w; keep_alive := x;
     alt_svc := alt_svc w; now := now w; wire := wire w; io := io w |}.
Definition written (s : bytes) (rest : list io_result) (w : h1_world) : h1_world :=
  {| request := request w; resp := resp w; h1_stream_headers_sent := h1_stream_headers_sent w; keep_alive := keep_alive w;
     alt_svc := alt_svc w; now := now w; wire := wire w ++ s; io := rest |}.

(** [http_connection_send]: nothing to do for no bytes; writes past the known results
    succeed. *)
Definition http_connection_send (data : bytes) (w : h1_world) : h1_world * bool :=
  match data with
  | [] => (w, true)
  | _ => match io w with
         | [] => (written data [] w, true)
         | WriteOk :: rest => (written data rest w, true)
         | WriteFails n :: rest => (written (take n data) rest w, false)
         end
  end.

(** ** Chunked streaming *)

(** HTTP/1 never reports backpressure; the kernel's send buffer is its own. *)
Inductive append_rc := HTTP_STREAM_APPEND_OK | HTTP_STREAM_APPEND_BACKPRESSURE | HTTP_STREAM_APPEND_STREAM_DEAD.

Definition inject_alt_svc (w : h1_world) : h1_world :=
  match alt_svc w with
  | Some v => set_resp (http_response_set_alt_svc_if_unset v (resp w)) w
  | None => w
  end.

Definition h1_emit_headers_once (w : h1_world) : h1_world * bool :=
  let w := inject_alt_svc w in
  match http_response_format_streaming_headers (resp w) (now w) with
  | [] => (w, false)
  | hs => http_connection_send hs w
  end.

(** [%zx]; sixteen digits are enough for 64 bits. *)
Definition hex_digit (n : Z) : Z := if n <? 10 then 48 + n else 87 + n.

Fixpoint hex_digits (fuel : nat) (n : Z) : bytes :=
  match fuel with
  | O => []
  | S f => if n <? 16 then [hex_digit n] else hex_digits f (n / 16) ++ [hex_digit (n mod 16)]
  end.

Definition H1_CHUNK_HEADER_MAX : Z := 18.

Definition send_all (l : list bytes) (w : h1_world) : h1_world * bool :=
  fold_left (fun '(w, ok) s => if (ok : bool) then http_connection_send s w else (w, false)) l (w, true).

Definition h1_stream_append_chunk (chunk : bytes) (w : h1_world) : h1_world * append_rc :=
  let '(w, ok) :=
    if h1_stream_headers_sent w then (w, true)
    else let '(w, ok) := h1_emit_headers_once w in if (ok : bool) then (set_sent true w, true) else (w, false) in
  if negb ok then (w, HTTP_STREAM_APPEND_STREAM_DEAD)
  else
    match chunk with
    | [] => (w, HTTP_STREAM_APPEND_OK)
    | _ =>
        let header := hex_digits 16 (blen chunk) ++ crlf in
        if H1_CHUNK_HEADER_MAX <=? blen header then (w, HTTP_STREAM_APPEND_STREAM_DEAD)
        else
          let '(w, ok) := send_all [header; chunk; crlf] w in
          (w, if (ok : bool) then HTTP_STREAM_APPEND_OK else HTTP_STREAM_APPEND_STREAM_DEAD)
    end.

Definition last_chunk : bytes := [48] ++ crlf ++ crlf.

Definition h1_stream_mark_ended (w : h1_world) : h1_world :=
  let '(w, ok) :=
    if h1_stream_headers_sent w then (w, true)
    else let '(w, ok) := h1_emit_headers_once w in if (ok : bool) then (set_sent true w, true) else (w, false) in
  if (ok : bool) then fst (http_connection_send last_chunk w) else w.

(** Calls through [response->stream_ops].  The wrapper forwards to the operations it
    replaced, which are those of HTTP/1. *)
Definition append_chunk (chunk : bytes) (w : h1_world) : option (h1_world * append_rc) :=
  match stream_ops (resp w) with
  | None => None
  | Some h1_stream_ops => Some (h1_stream_append_chunk chunk w)
  | Some compressing_stream_ops =>
      st ← compression_state (resp w);
      ws ← wrapper_ctx st;
      '(r, out) ← ws_encode st ws chunk (resp w);
      let w := set_resp r w in
      match out with
      | None => Some (w, HTTP_STREAM_APPEND_STREAM_DEAD)
      | Some [] => Some (w, HTTP_STREAM_APPEND_OK)
      | Some out => Some (h1_stream_append_chunk out w)
      end
  end.

Definition mark_ended (w : h1_world) : option h1_world :=
  match stream_ops (resp w) with
  | None => None
  | Some h1_stream_ops => Some (h1_stream_mark_ended w)
  | Some compressing_stream_ops =>
      st ← compression_state (resp w);
      ws ← wrapper_ctx st;
      '(r, out) ← ws_finish st ws (resp w);
      let w := set_resp r w in
      let w := match out with [] => w | _ => fst (h1_stream_append_chunk out w) end in
      Some (h1_stream_mark_ended w)
  end.

(** ** Methods that stream *)

Definition throws (e : throwable) (w : h1_world) : option (h1_world * outcome) := Some (w, Throws e).

Definition dead_outcome (rc : append_rc) : outcome :=
  match rc with HTTP_STREAM_APPEND_STREAM_DEAD => Throws (HttpException 499) | _ => Returns end.

Definition start_streaming (r : response) : response := set_headers_sent true (set_committed true (set_streaming true r)).

Definition send (chunk : bytes) (w : h1_world) : option (h1_world * outcome) :=
  let r := resp w in
  if closed r then throws RuntimeException w
  else if sse_mode r then throws RuntimeException w
  else match send_file_req r, stream_ops r with
  | Some _, _ => throws RuntimeException w
  | None, None => throws RuntimeException w
  | None, Some _ =>
      if is_head r then Some (w, Returns)
      else
        let r := if streaming r then r else http_compression_maybe_install_stream_wrapper b (start_streaming r) in
        '(w, rc) ← append_chunk chunk (set_resp r w);
        Some (w, dead_outcome rc)
  end.

Definition end_ (data : option bytes) (w : h1_world) : option (h1_world * outcome) :=
  let r := resp w in
  if closed r then throws RuntimeException w
  else match send_file_req r with
  | Some _ => throws RuntimeException w
  | None =>
      if streaming r then
        w ← match data with
            | Some ((_ :: _) as s) => '(w, _) ← append_chunk s w; Some w
            | _ => Some w
            end;
        w ← mark_ended w;
        Some (set_resp (set_closed true (resp w)) w, Returns)
      else
        let r := match data with
                 | Some s => let r := response_clear_body_view r in set_body (smart_append (body r) s) r
                 | None => r
                 end in
        Some (set_resp (set_headers_sent true (set_closed true r)) w, Returns)
  end.

Definition sendFile (path : bytes) (opts : http_send_file_options_t) (w : h1_world) : option (h1_world * outcome) :=
  match sendFile_record path opts (resp w) with
  | (r, Returns) => Some (set_resp (http_compression_mark_no_compression r) w, Returns)
  | (r, o) => Some (set_resp r w, o)
  end.

(** ** Server-sent events: methods *)

Definition sse_content_type_conflicts (h : headers_t) : bool :=
  let val := match ht_find (lit "content-type") h with
             | Some (HStr s) => Some s
             | Some (HArr l) => head l
             | None => None
             end in
  match val with
  | None => false
  | Some v => negb (eqb_ci (take (length (lit "text/event-stream")) v) (lit "text/event-stream"))
  end.

Definition sse_headers (h : headers_t) : headers_t :=
  let h := ht_update (lit "content-type") (HStr (lit "text/event-stream")) h in
  let h := ht_update (lit "cache-control") (HStr (lit "no-cache, no-transform")) h in
  ht_update (lit "x-accel-buffering") (HStr (lit "no")) h.

Definition sse_ensure_started (r : response) : response * outcome :=
  if streaming r then
    if negb (sse_mode r) then (r, Throws RuntimeException) else (r, Returns)
  else if closed r then (r, Throws RuntimeException)
  else match send_file_req r, stream_ops r with
  | Some _, _ => (r, Throws RuntimeException)
  | None, None => (r, Throws RuntimeException)
  | None, Some _ =>
      if sse_content_type_conflicts (headers r) then (r, Throws InvalidArgument)
      else
        let r := http_compression_mark_no_compression (set_headers (sse_headers (headers r)) r) in
        (set_headers_sent true (set_committed true (set_sse_mode true (set_streaming true r))), Returns)
  end.

Definition sse_dispatch (payload : bytes) (w : h1_world) : option (h1_world * outcome) :=
  '(w, rc) ← append_chunk payload w; Some (w, dead_outcome rc).

Definition sse_start_and_dispatch (payload : bytes) (w : h1_world) : option (h1_world * outcome) :=
  match sse_ensure_started (resp w) with
  | (r, Returns) => sse_dispatch payload (set_resp r w)
  | (r, o) => Some (set_resp r w, o)
  end.

Definition sseStart (w : h1_world) : option (h1_world * outcome) :=
  if streaming (resp w) then throws RuntimeException w
  else let '(r, o) := sse_ensure_started (resp w) in Some (set_resp r w, o).

Definition sseEvent (data event id : option bytes) (retry : option Z) (w : h1_world) : option (h1_world * outcome) :=
  if closed (resp w) then throws RuntimeException w
  else if sse_has_newline event then throws InvalidArgument w
  else if sse_has_newline id then throws InvalidArgument w
  else if match id with Some s => mem_byte NUL s | None => false end then throws InvalidArgument w
  else if match retry with Some n => n <? 0 | None => false end then throws InvalidArgument w
  else match data, event, id, retry with
  | None, None, None, None => Some (w, Returns)
  | _, _, _, _ => sse_start_and_dispatch (sse_payload data event id retry) w
  end.

Definition sseComment (text : option bytes) (w : h1_world) : option (h1_world * outcome) :=
  if closed (resp w) then throws RuntimeException w
  else if sse_has_newline text then throws InvalidArgument w
  else sse_start_and_dispatch (sse_comment_payload (default [] text)) w.

Definition sseRetry (milliseconds : Z) (w : h1_world) : option (h1_world * outcome) :=
  if closed (resp w) then throws RuntimeException w
  else if milliseconds <? 0 then throws InvalidArgument w
  else sse_start_and_dispatch (sse_append_field (lit "retry") (print_d milliseconds) ++ [LF]) w.

(** ** Formatting a buffered response *)

(** [http_response_format_parts]: the header block and the body, if any. *)
Definition http_response_format_parts (now : tm) (r : response) : option (response * bytes * option bytes) :=
  r ← http_compression_apply_buffered b r;
  let body_len := http_response_get_body_len r in
  let hs := emit_headers_block r now body_len in
  Some (r, hs, match body_view r, body r with
               | Some v, _ => Some v
               | None, Some ((_ :: _) as s) => Some s
               | _, _ => None
               end).

Definition http_response_format (now : tm) (r : response) : option (response * bytes) :=
  r ← http_compression_apply_buffered b r;
  let body_len := http_response_get_body_len r in
  Some (r, emit_headers_block r now body_len ++
           match body_view r, body r with
           | Some v, _ => v
           | None, Some s => s
           | None, None => []
           end).

(** ** Dispatch and dispose *)

(** The response [http_connection_dispatch_request] hands to the handler. *)
Definition http_connection_dispatch_request (req : http_request_t) (http_version : bytes) (config : option http_server_config_t)
    (json_encode_flags : Z) (keep : bool) (alt : option bytes) (date : tm) (results : list io_result) : h1_world :=
  let r := http_response_set_protocol_version http_version http_response_create in
  let r := set_is_head (http_request_method_is_head (Some req)) r in
  let r := set_stream_ops (Some h1_stream_ops) r in
  let r := match config with Some cfg => http_compression_attach req cfg r | None => r end in
  let r := match config with Some _ => set_default_json_flags json_encode_flags r | None => r end in
  {| request := req; resp := r; h1_stream_headers_sent := false; keep_alive := keep; alt_svc := alt; now := date;
     wire := []; io := results |}.

(** How the handler ended: it returned, was cut off by a fatal error, or threw; code
    and message of the exception are [None] when they have another type. *)
Inductive handler_end := Finished | Bailout | Exception (code : option Z) (message : option bytes).

Definition exception_status (code : option Z) : Z :=
  let code := default 0 code in if (400 <=? code) && (code <=? 599) then code else 500.

Definition exception_reason (code : option Z) (message : option bytes) : bytes :=
  match message with
  | Some ((_ :: _) as m) => m
  | _ => if negb (exception_status code =? 500) then [] else lit "Internal Server Error"
  end.

Definition derive_error (e : handler_end) (r : response) : response :=
  if committed r then r
  else match e with
  | Finished => r
  | Bailout => http_response_reset_to_error 500 (lit "Internal Server Error") r
  | Exception code message => http_response_reset_to_error (exception_status code) (exception_reason code message) r
  end.

Inductive disposed := Flushed (should_continue : bool) | HandedToSendFile (req : http_send_file_request_t).

Definition HTTP_WRITEV_THRESHOLD : Z := 1024.

(** Sending the finished response.  [tls]: the payload goes through the encryption
    ring in one piece; otherwise small bodies are joined to the header block. *)
Definition h1_flush (tls : bool) (w : h1_world) : option (h1_world * bool) :=
  if match rq_method (request w) with Some m => eqb_bytes m (lit "HEAD") | None => false end then
    '(r, hs, _) ← http_response_format_parts (now w) (resp w);
    let w := set_resp r w in
    match hs with [] => Some (w, false) | _ => Some (http_connection_send hs w) end
  else if (tls : bool) || (http_response_get_body_len (resp w) <? HTTP_WRITEV_THRESHOLD) then
    '(r, s) ← http_response_format (now w) (resp w);
    Some (http_connection_send s (set_resp r w))
  else
    '(r, hs, body_str) ← http_response_format_parts (now w) (resp w);
    Some (http_connection_send (hs ++ default [] body_str) (set_resp r w)).

(** [drain]: the server is draining.  [refusal]: the text of the 500 the file engine
    leaves when it does not take the request. *)
Definition http_handler_coroutine_dispose (e : handler_end) (drain tls : bool) (refusal : option bytes) (w : h1_world) : option (h1_world * disposed) :=
  let r := derive_error e (resp w) in
  let r := if committed r then r else set_committed true r in
  let w := inject_alt_svc (set_resp r w) in
  let w := if drain then set_keep_alive false (set_resp (http_response_force_connection_close (resp w)) w)
           else if keep_alive w then w
           else set_resp (http_response_force_connection_close (resp w)) w in
  let '(r, sf) := http_response_take_send_file (resp w) in
  let w := set_resp r w in
  match sf, refusal with
  | Some req, None => Some (w, HandedToSendFile req)
  | _, _ =>
      let w := match sf with
               | Some _ => set_resp (http_response_synth_error 500 refusal (resp w)) w
               | None => w
               end in
      if streaming (resp w) then
        let w := if closed (resp w) then w else fst (http_connection_send last_chunk w) in
        Some (w, Flushed (keep_alive w))
      else
        '(w, sent) ← h1_flush tls w;
        Some (w, Flushed ((sent : bool) && keep_alive w))
  end.

(** ** Handlers *)

Inductive call :=
  | SetStatusCode (code : Z)
  | SetReasonPhrase (phrase : bytes)
  | SetHeader (name : bytes) (value : hval)
  | AddHeader (name : bytes) (value : hval)
  | ResetHeaders
  | SetTrailer (name value : bytes)
  | SetTrailers (l : php_array)
  | ResetTrailers
  | Write (s : bytes)
  | SetBody (s : bytes)
  | Json (data : json_data) (status flags : Z)
  | Html (s : bytes)
  | Redirect (url : bytes) (status : Z)
  | SetNoCompression
  | Send (chunk : bytes)
  | SendFile (path : bytes) (opts : http_send_file_options_t)
  | SseStart
  | SseEvent (data event id : option bytes) (retry : option Z)
  | SseComment (text : option bytes)
  | SseRetry (milliseconds : Z)
  | End (data : option bytes).

Definition on_resp (m : response -> response * outcome) (w : h1_world) : option (h1_world * outcome) :=
  let '(r, o) := m (resp w) in Some (set_resp r w, o).

Definition exec (c : call) : h1_world -> option (h1_world * outcome) :=
  match c with
  | SetStatusCode code => on_resp (setStatusCode code)
  | SetReasonPhrase s => on_resp (setReasonPhrase s)
  | SetHeader n v => on_resp (setHeader n v)
  | AddHeader n v => on_resp (addHeader n v)
  | ResetHeaders => on_resp resetHeaders
  | SetTrailer n v => on_resp (setTrailer n v)
  | SetTrailers l => on_resp (setTrailers l)
  | ResetTrailers => on_resp resetTrailers
  | Write s => on_resp (write s)
  | SetBody s => on_resp (setBody s)
  | Json d s f => on_resp (json d s f)
  | Html s => on_resp (html s)
  | Redirect u s => on_resp (redirect u s)
  | SetNoCompression => on_resp (fun r => (http_compression_mark_no_compression r, Returns))
  | Send s => send s
  | SendFile p o => sendFile p o
  | SseStart => sseStart
  | SseEvent d e i t => sseEvent d e i t
  | SseComment t => sseComment t
  | SseRetry n => sseRetry n
  | End d => end_ d
  end.

(** A handler: calls in turn, whether they throw or not. *)
Fixpoint run (calls : list call) (w : h1_world) : option h1_world :=
  match calls with
  | [] => Some w
  | c :: r => '(w, _) ← exec c w; run r w
  end.
End stream.
End Http1.
