(* ===== verification/HttpClient.v ===== *)
(** * A reference client

    What a client makes of a byte stream, after RFC 9112 (message syntax, chunked
    coding, the rules of section 6.3 for where a response ends) and after the HTML
    standard's event stream format.  The theorems on responses are stated against
    these readers; they are specifications, not code of the repository. *)

From S2P Require Import Prelude HttpDate.

Module Client.

(** ** Lines *)

(** A line ends in LF; a CR before it belongs to the ending. *)
Definition chomp (l : bytes) : bytes :=
  match last l with Some c => if c =? CR then removelast l else l | None => l end.

Definition read_line (s : bytes) : option (bytes * bytes) :=
  match drop_while (isnt LF) s with
  | [] => None
  | _ :: rest => Some (chomp (take_while (isnt LF) s), rest)
  end.

(** Lines up to an empty one. *)
Fixpoint read_lines (fuel : nat) (s : bytes) : option (list bytes * bytes) :=
  match fuel with
  | O => None
  | S f =>
      '(l, rest) ← read_line s;
      match l with
      | [] => Some ([], rest)
      | _ => '(ls, rest) ← read_lines f rest; Some (l :: ls, rest)
      end
  end.

(** ** Status line and fields *)

Definition read_field (l : bytes) : option (bytes * bytes) :=
  match drop_while (isnt COLON) l with
  | [] => None
  | _ :: v => Some (take_while (isnt COLON) l, trim is_ows v)
  end.

Record status_line := { sl_version : bytes; sl_status : Z; sl_reason : bytes }.

Definition read_status (l : bytes) : option status_line :=
  if starts_with (lit "HTTP/") l then
    let s := drop 5 l in
    match drop_while (isnt SP) s with
    | _ :: a :: b :: c :: sp :: reason =>
        if forallb is_digit [a; b; c] && (sp =? SP) then
          Some {| sl_version := take_while (isnt SP) s; sl_status := HttpDate.digits_value 0 [a; b; c]; sl_reason := reason |}
        else None
    | _ => None
    end
  else None.

(** ** Bodies *)

Definition field_values (name : bytes) (fields : list (bytes * bytes)) : list bytes :=
  (List.filter (fun f => eqb_ci (fst f) name) fields).*2.

Definition hex_value (c : Z) : option Z :=
  if is_digit c then Some (c - 48)
  else if (97 <=? c) && (c <=? 102) then Some (c - 87)
  else if (65 <=? c) && (c <=? 70) then Some (c - 55)
  else None.

Fixpoint read_hex (acc : Z) (s : bytes) : option Z :=
  match s with
  | [] => Some acc
  | c :: r => d ← hex_value c; read_hex (16 * acc + d) r
  end.

Definition chunk_size (l : bytes) : option Z :=
  match take_while (isnt SEMI) l with [] => None | ds => read_hex 0 ds end.

Fixpoint read_chunks (fuel : nat) (s : bytes) : option (bytes * bytes) :=
  match fuel with
  | O => None
  | S f =>
      '(l, s) ← read_line s;
      n ← chunk_size l;
      if n =? 0 then '(_, s) ← read_lines (length s) s; Some ([], s)
      else if Z.of_nat (length s) <? n then None
      else
        let data := take (Z.to_nat n) s in
        '(l, s) ← read_line (drop (Z.to_nat n) s);
        match l with
        | [] => '(b, s) ← read_chunks f s; Some (data ++ b, s)
        | _ => None
        end
  end.

Definition bodiless (status : Z) : bool := (status <? 200) || (status =? 204) || (status =? 304).

Definition read_decimal (s : bytes) : option Z :=
  match s with [] => None | _ => if forallb is_digit s then Some (HttpDate.digits_value 0 s) else None end.

(** RFC 9112, section 6.3. *)
Definition read_body (is_head : bool) (status : Z) (fields : list (bytes * bytes)) (s : bytes) : option (bytes * bytes) :=
  if is_head || bodiless status then Some ([], s)
  else
    match field_values (lit "transfer-encoding") fields with
    | [v] => if eqb_ci v (lit "chunked") then read_chunks (length s) s else None
    | _ :: _ => None
    | [] =>
        match field_values (lit "content-length") fields with
        | [v] => n ← read_decimal v;
                 if Z.of_nat (length s) <? n then None else Some (take (Z.to_nat n) s, drop (Z.to_nat n) s)
        | _ :: _ => None
        | [] => Some (s, [])
        end
    end.

Record response := { c_status : status_line; c_fields : list (bytes * bytes); c_body : bytes }.

(** One response at the start of a stream, to a request with or without method HEAD;
    what is left belongs to the next. *)
Definition read_response (is_head : bool) (s : bytes) : option (response * bytes) :=
  '(ls, s) ← read_lines (length s) s;
  match ls with
  | [] => None
  | l :: ls =>
      st ← read_status l;
      fields ← mapM read_field ls;
      '(b, s) ← read_body is_head (sl_status st) fields s;
      Some ({| c_status := st; c_fields := fields; c_body := b |}, s)
  end.

(** ** Event streams (HTML standard, section 9.2) *)

(** Lines ended by CRLF, LF or CR; a last line that is not ended is dropped. *)
Fixpoint event_lines (cur s : bytes) : list bytes :=
  match s with
  | [] => []
  | c :: r =>
      if c =? LF then cur :: event_lines [] r
      else if c =? CR then
        cur :: event_lines [] (match r with d :: r' => if d =? LF then r' else r | [] => r end)
      else event_lines (cur ++ [c]) r
  end.

Record sse_event := { ev_type : bytes; ev_data : bytes; ev_id : bytes }.

Record event_source := { es_data : bytes; es_type : bytes; es_id : bytes; es_retry : option Z }.

Definition es_start : event_source := {| es_data := []; es_type := []; es_id := []; es_retry := None |}.

Definition es_field (name value : bytes) (s : event_source) : event_source :=
  if eqb_bytes name (lit "event") then {| es_data := es_data s; es_type := value; es_id := es_id s; es_retry := es_retry s |}
  else if eqb_bytes name (lit "data") then {| es_data := es_data s ++ value ++ [LF]; es_type := es_type s; es_id := es_id s; es_retry := es_retry s |}
  else if eqb_bytes name (lit "id") then
    if mem_byte NUL value then s else {| es_data := es_data s; es_type := es_type s; es_id := value; es_retry := es_retry s |}
  else if eqb_bytes name (lit "retry") then
    match read_decimal value with
    | Some n => {| es_data := es_data s; es_type := es_type s; es_id := es_id s; es_retry := Some n |}
    | None => s
    end
  else s.

Definition strip_space (v : bytes) : bytes := match v with c :: r => if c =? SP then r else v | [] => [] end.

(** The state after a line, and the event it dispatches. *)
Definition es_line (s : event_source) (l : bytes) : event_source * list sse_event :=
  match l with
  | [] =>
      ({| es_data := []; es_type := []; es_id := es_id s; es_retry := es_retry s |},
       match es_data s with
       | [] => []
       | d => [{| ev_type := match es_type s with [] => lit "message" | t => t end; ev_data := removelast d; ev_id := es_id s |}]
       end)
  | c :: _ =>
      if c =? COLON then (s, [])
      else match drop_while (isnt COLON) l with
           | [] => (es_field l [] s, [])
           | _ :: v => (es_field (take_while (isnt COLON) l) (strip_space v) s, [])
           end
  end.

Fixpoint es_run (s : event_source) (ls : list bytes) : event_source * list sse_event :=
  match ls with
  | [] => (s, [])
  | l :: r => let '(s, e) := es_line s l in let '(s, es) := es_run s r in (s, e ++ es)
  end.

Definition read_events (body : bytes) : event_source * list sse_event := es_run es_start (event_lines [] body).

(** ** Lemmas on lines *)

Lemma chomp_crlf l : chomp (l ++ [CR]) = l.
Proof. unfold chomp. rewrite last_snoc, Z.eqb_refl. apply removelast_last. Qed.

Lemma read_line_crlf l rest : mem_byte LF l = false -> read_line (l ++ crlf ++ rest) = Some (l, rest).
Proof.
  intros Hl. assert (Forall (fun x => isnt LF x = true) (l ++ [CR])) as Ha.
  { apply Forall_app; split; [by apply mem_byte_false | by constructor]. }
  unfold read_line, crlf. replace (l ++ [CR; LF] ++ rest) with ((l ++ [CR]) ++ LF :: rest) by by rewrite <- app_assoc.
  by rewrite drop_while_app, take_while_app, chomp_crlf by done.
Qed.

Lemma read_lines_head ls rest fuel :
  Forall clean_line ls -> (length ls < fuel)%nat -> read_lines fuel (render_head ls ++ rest) = Some (ls, rest).
Proof.
  intros Hls. revert fuel. induction Hls as [|l ls [Hne Hl] _ IH]; intros [|f] Hf; cbn [length] in Hf; try lia.
  - cbn [read_lines]. change (render_head [] ++ rest) with ([] ++ crlf ++ rest).
    by rewrite read_line_crlf.
  - rewrite render_head_cons. cbn [read_lines]. rewrite <- app_assoc, <- app_assoc.
    rewrite read_line_crlf by done. cbn [mbind option_bind]. rewrite IH by lia. cbn [mbind option_bind].
    by destruct l.
Qed.

Lemma render_head_length ls : (length ls < length (render_head ls))%nat.
Proof.
  induction ls as [|l ls IH]; [cbn; lia|]. rewrite render_head_cons, !length_app. cbn [length]. unfold crlf. cbn [length]. lia.
Qed.

(** ** Lemmas on fields *)

Definition field_line (f : bytes * bytes) : bytes := fst f ++ [COLON; SP] ++ snd f.

(** What makes a field survive on a line of its own. *)
Definition clean_field (f : bytes * bytes) : Prop :=
  mem_byte COLON (fst f) = false /\ mem_byte LF (fst f) = false /\ mem_byte LF (snd f) = false.

(** A field as its reader sees it. *)
Definition seen (f : bytes * bytes) : bytes * bytes := (fst f, trim is_ows (snd f)).

Lemma field_line_clean f : clean_field f -> clean_line (field_line f).
Proof.
  intros (_ & Hn & Hv). split; [by destruct f as [[|? ?] ?]|].
  unfold field_line. rewrite !mem_byte_app, Hn, Hv. done.
Qed.

Lemma read_field_line f : clean_field f -> read_field (field_line f) = Some (seen f).
Proof.
  intros (Hc & _ & _). destruct f as [n v]. cbn in *. unfold read_field, field_line, seen. cbn [fst snd app].
  apply mem_byte_false in Hc. rewrite drop_while_app, take_while_app by done. done.
Qed.

Lemma read_fields fs : Forall clean_field fs -> mapM read_field (map field_line fs) = Some (map seen fs).
Proof.
  induction 1 as [|f fs Hf _ IH]; [done|]. cbn. rewrite read_field_line by done. cbn. by rewrite IH.
Qed.

Lemma field_values_seen name fs : field_values name (map seen fs) = map (trim is_ows) (field_values name fs).
Proof.
  unfold field_values. induction fs as [|[n v] fs IH]; [done|]. cbn [map seen fst snd List.filter].
  case_if; cbn [fmap list_fmap map fst snd]; by rewrite IH.
Qed.

Lemma field_values_app name a b : field_values name (a ++ b) = field_values name a ++ field_values name b.
Proof. unfold field_values. by rewrite List.filter_app, fmap_app. Qed.

(** ** Lemmas on status lines *)

Lemma digits3 n : 100 <= n <= 999 ->
  print_d n = [48 + n / 100; 48 + n / 10 mod 10; 48 + n mod 10] /\
  forallb is_digit (print_d n) = true /\ HttpDate.digits_value 0 (print_d n) = n.
Proof.
  intros Hn. assert (print_d n = [48 + n / 100; 48 + n / 10 mod 10; 48 + n mod 10]) as E.
  { unfold print_d, print_u. rewrite (proj2 (Z.ltb_ge n 0)) by lia. cbn [dec_digits].
    rewrite (proj2 (Z.ltb_ge n 10)) by lia. rewrite (proj2 (Z.ltb_ge (n / 10) 10)) by dlia.
    rewrite Z.div_div by lia. change (10 * 10) with 100. rewrite (proj2 (Z.ltb_lt (n / 100) 10)) by dlia. done. }
  rewrite E. split; [done|]. split.
  - cbn [forallb]. unfold is_digit. repeat (apply andb_true_intro; split); try apply Z.leb_le; try dlia; done.
  - cbn [HttpDate.digits_value]. dlia.
Qed.

Lemma read_status_line version code reason :
  mem_byte SP version = false -> 100 <= code <= 999 ->
  read_status (lit "HTTP/" ++ version ++ [SP] ++ print_d code ++ [SP] ++ reason) =
    Some {| sl_version := version; sl_status := code; sl_reason := reason |}.
Proof.
  intros Hv Hc. destruct (digits3 code Hc) as (E & Hd & Hval). unfold read_status.
  rewrite starts_with_app. change (drop 5 (lit "HTTP/" ++ ?x)) with x.
  apply mem_byte_false in Hv. cbn [app]. rewrite drop_while_app, take_while_app by done.
  rewrite E in *. cbn [app]. rewrite Hd, Hval, Z.eqb_refl. done.
Qed.

(** ** Lemmas on bodies *)

Lemma digits_value_app acc a b : HttpDate.digits_value acc (a ++ b) = HttpDate.digits_value (HttpDate.digits_value acc a) b.
Proof. revert acc. induction a as [|c a IH]; intros acc; [done|]. cbn. by rewrite IH. Qed.

Lemma dec_digits_read fuel n : 0 <= n < 10 ^ Z.of_nat fuel -> (0 < fuel)%nat ->
  dec_digits fuel n <> [] /\ forallb is_digit (dec_digits fuel n) = true /\ HttpDate.digits_value 0 (dec_digits fuel n) = n.
Proof.
  revert n. induction fuel as [|f IH]; intros n Hn Hf; [lia|]. cbn [dec_digits]. case_if; b2p.
  - cbn. split_and!; [done| |lia]. unfold is_digit. rewrite andb_true_r. apply andb_true_intro; split; apply Z.leb_le; lia.
  - destruct f as [|f]; [change (10 ^ Z.of_nat 1) with 10 in Hn; lia|].
    rewrite Nat2Z.inj_succ, Z.pow_succ_r in Hn by lia.
    destruct (IH (n / 10)) as (Hne & Hd & Hv); [|lia|].
    { split; [apply Z.div_pos; lia|]. apply Z.div_lt_upper_bound; lia. }
    split_and!; [by destruct (dec_digits (S f) (n / 10))| |].
    + rewrite forallb_app, Hd. cbn. unfold is_digit. pose proof (Z.mod_pos_bound n 10 ltac:(lia)).
      rewrite andb_true_r. apply andb_true_intro; split; apply Z.leb_le; lia.
    + rewrite digits_value_app, Hv. cbn. pose proof (Z.div_mod n 10 ltac:(lia)). lia.
Qed.

Lemma print_u_read n : 0 <= n < 10 ^ 20 -> read_decimal (print_u n) = Some n.
Proof.
  intros Hn. destruct (dec_digits_read 20 n Hn ltac:(lia)) as (Hne & Hd & Hv).
  unfold read_decimal, print_u. rewrite Hd, Hv. by destruct (dec_digits 20 n).
Qed.

Lemma digits_no_ws s : forallb is_digit s = true -> trim is_ows s = s /\ mem_byte LF s = false.
Proof.
  intros Hs. assert (Forall (fun c => is_ows c = false /\ isnt LF c = true) s) as Ha.
  { apply List.Forall_forall. intros c Hc. rewrite forallb_forall in Hs. specialize (Hs c Hc). unfold is_digit in Hs. b2p.
    unfold is_ows, isnt. split; [apply orb_false_iff; split; apply Z.eqb_neq; lia | apply negb_true_iff, Z.eqb_neq; lia]. }
  split.
  - unfold trim. assert (drop_while is_ows s = s) as ->.
    { destruct Ha as [|c l [Hc _] _]; [done|]. by apply drop_while_stop. }
    induction s as [|c s IH] using rev_ind; [done|]. apply trim_end_stop.
    apply Forall_app in Ha as [_ Ha]. by apply Forall_inv in Ha as [? _].
  - apply mem_byte_false. eapply Forall_impl; [exact Ha|]. by intros c [_ ?].
Qed.
End Client.
