(* ===== verification/Http1Wire.v ===== *)
(** * The wire format read back

    Lemmas between the formatters of Http1Response and the reader of HttpClient: a
    header block is a status line and fields, and chunks decode to their payload. *)

From S2P Require Import Prelude HttpDate HttpResponse ResponseCompress Http1Response HttpClient.

Module Http1Wire.
Import Response Compress Http1 Client.

(** ** The fields of a response *)

Definition table_fields (h : headers_t) (skip_framing : bool) : list (bytes * bytes) :=
  flat_map (fun '(n, v) => if skip_framing && header_is_framing n then [] else map (pair n) (values_of v)) h.

Definition date_fields (h : headers_t) (now : HttpDate.tm) : list (bytes * bytes) :=
  if ht_exists (lit "date") h then [] else [(lit "Date", HttpDate.http_date_format_imf now)].

Definition length_fields (h : headers_t) (body_len : Z) : list (bytes * bytes) :=
  if ht_exists (lit "content-length") h then [] else [(lit "Content-Length", print_u body_len)].

Definition buffered_fields (h : headers_t) (now : HttpDate.tm) (body_len : Z) : list (bytes * bytes) :=
  date_fields h now ++ length_fields h body_len ++ table_fields h false.

Definition streaming_fields (h : headers_t) (now : HttpDate.tm) : list (bytes * bytes) :=
  date_fields h now ++ [(lit "Transfer-Encoding", lit "chunked")] ++ table_fields h true.

Definition lines (fs : list (bytes * bytes)) : list bytes := map field_line fs.

Lemma append_header_line_field n v : append_header_line n v = field_line (n, v) ++ crlf.
Proof. unfold append_header_line, field_line. cbn [fst snd]. by rewrite <- !app_assoc. Qed.

Lemma render_lines_cons f fs : render_lines (lines (f :: fs)) = field_line f ++ crlf ++ render_lines (lines fs).
Proof. unfold render_lines, lines. cbn. by rewrite <- app_assoc. Qed.

Lemma render_fields_app a b : render_lines (lines (a ++ b)) = render_lines (lines a) ++ render_lines (lines b).
Proof. unfold lines. by rewrite map_app, render_lines_app. Qed.

Lemma values_lines n vs : flat_map (append_header_line n) vs = render_lines (lines (map (pair n) vs)).
Proof.
  induction vs as [|v vs IH]; [done|]. cbn [flat_map map]. by rewrite render_lines_cons, IH, append_header_line_field, <- app_assoc.
Qed.

Lemma emit_headers_only_lines h skip : emit_headers_only h skip = render_lines (lines (table_fields h skip)).
Proof.
  unfold emit_headers_only, table_fields. induction h as [|[n v] h IH]; [done|]. cbn [flat_map].
  rewrite render_fields_app, IH. f_equal. destruct (skip && header_is_framing n); [done|]. apply values_lines.
Qed.

Lemma emit_date_lines h now : emit_date_header h now = render_lines (lines (date_fields h now)).
Proof.
  unfold emit_date_header, date_fields. destruct (ht_exists _ _); [done|].
  rewrite render_lines_cons. unfold field_line. cbn [fst snd lines map]. unfold render_lines. cbn [map concat].
  by rewrite app_nil_r, <- !app_assoc.
Qed.

(** ** Status lines *)

(** The pre-built lines are what the piecewise builder makes. *)
Lemma status_lines_table :
  forallb (fun '(code, line) => eqb_bytes line (lit "HTTP/1.1 " ++ print_d code ++ [SP] ++ http_status_reason code ++ crlf)
                                && (0 <? code) && (code <? HTTP11_STATUS_LINES_CNT)) http11_status_lines = true.
Proof. vm_compute. reflexivity. Qed.

Lemma code_find_In code l s : code_find code l = Some s -> In (code, s) l.
Proof.
  induction l as [|[c t] l IH]; [done|]. cbn. destruct (code =? c) eqn:E; b2p; [intros [= ->]; subst; by left | right; by apply IH].
Qed.

Section status.
Context {C : Type}.
Implicit Type r : http_response_object C.

Definition version_of r : bytes := match protocol_version r with Some v => c_str v | None => lit "1.1" end.
Definition reason_of r : bytes := match reason_phrase r with Some s => c_str s | None => http_status_reason (status_code r) end.
Definition status_of r : bytes := lit "HTTP/" ++ version_of r ++ [SP] ++ print_d (status_code r) ++ [SP] ++ reason_of r.

Lemma emit_status_line_spec r : emit_status_line r = status_of r ++ crlf.
Proof.
  assert (lit "HTTP/" ++ version_of r ++ [SP] ++ print_d (status_code r) ++ [SP] ++ reason_of r ++ crlf = status_of r ++ crlf) as Hslow.
  { unfold status_of. by rewrite <- !app_assoc. }
  unfold emit_status_line. fold (version_of r) (reason_of r). rewrite Hslow.
  destruct (match protocol_version r with Some v => eqb_bytes v (lit "1.1") | None => true end) eqn:Ev; [|done].
  destruct (reason_phrase r) eqn:Er; [done|].
  destruct (http_response_status_line_http11 (status_code r)) as [line|] eqn:El; [|done].
  unfold http_response_status_line_http11 in El. case_if_in El; [done|].
  apply code_find_In in El. pose proof status_lines_table as Ht. rewrite forallb_forall in Ht. specialize (Ht _ El).
  cbn beta iota in Ht. b2p. match goal with H : eqb_bytes _ _ = true |- _ => apply eqb_bytes_eq in H as -> end.
  unfold status_of, reason_of, version_of. rewrite Er.
  assert (match protocol_version r with Some v => c_str v | None => lit "1.1" end = lit "1.1") as ->.
  { destruct (protocol_version r); [|done]. by apply eqb_bytes_eq in Ev as ->. }
  by rewrite <- !app_assoc.
Qed.

Lemma headers_block_lines r now n :
  emit_headers_block r now n = render_head (status_of r :: lines (buffered_fields (headers r) now n)).
Proof.
  unfold emit_headers_block. rewrite emit_status_line_spec, emit_date_lines, emit_headers_only_lines, render_head_cons.
  unfold render_head, buffered_fields. rewrite !render_fields_app, <- !app_assoc. do 3 f_equal.
  unfold length_fields. destruct (ht_exists _ _); [done|].
  rewrite render_lines_cons. unfold field_line. cbn [fst snd lines map]. unfold render_lines at 1. cbn [map concat].
  by rewrite <- !app_assoc.
Qed.

Lemma streaming_headers_lines r now :
  http_response_format_streaming_headers r now = render_head (status_of r :: lines (streaming_fields (headers r) now)).
Proof.
  unfold http_response_format_streaming_headers.
  rewrite emit_status_line_spec, emit_date_lines, emit_headers_only_lines, render_head_cons.
  unfold render_head, streaming_fields. rewrite !render_fields_app, <- !app_assoc. do 3 f_equal.
Qed.
End status.

(** ** Chunks *)

Definition encode_chunk (s : bytes) : bytes := hex_digits 16 (blen s) ++ crlf ++ s ++ crlf.
Definition encode_chunks (ps : list bytes) : bytes := concat (map encode_chunk ps).

Lemma hex_value_digit n : 0 <= n < 16 -> hex_value (hex_digit n) = Some n.
Proof.
  intros Hn. unfold hex_value, hex_digit, is_digit. destruct (n <? 10) eqn:E; b2p.
  - rewrite (proj2 (Z.leb_le 48 _)), (proj2 (Z.leb_le _ 57)) by lia. cbn. f_equal. lia.
  - rewrite (proj2 (Z.leb_gt _ 57)), andb_false_r by lia. rewrite (proj2 (Z.leb_le 97 _)), (proj2 (Z.leb_le _ 102)) by lia.
    cbn. f_equal. lia.
Qed.

Lemma read_hex_app acc a b : read_hex acc (a ++ b) = n ← read_hex acc a; read_hex n b.
Proof. revert acc. induction a as [|c a IH]; intros acc; [done|]. cbn. destruct (hex_value c); [apply IH|done]. Qed.

Lemma hex_digit_plain n : 0 <= n < 16 -> isnt SEMI (hex_digit n) = true /\ isnt LF (hex_digit n) = true.
Proof. intros Hn. unfold isnt, hex_digit. split; apply negb_true_iff, Z.eqb_neq; case_if; b2p; lia. Qed.

Lemma hex_digits_spec fuel n : 0 <= n < 16 ^ Z.of_nat fuel -> (0 < fuel)%nat ->
  hex_digits fuel n <> [] /\ Forall (fun c => isnt SEMI c = true /\ isnt LF c = true) (hex_digits fuel n) /\
  read_hex 0 (hex_digits fuel n) = Some n.
Proof.
  revert n. induction fuel as [|f IH]; intros n Hn Hf; [lia|]. cbn [hex_digits]. case_if; b2p.
  - split_and!; [done| |].
    + constructor; [apply hex_digit_plain; lia | constructor].
    + cbn. rewrite hex_value_digit by lia. done.
  - destruct f as [|f]; [change (16 ^ Z.of_nat 1) with 16 in Hn; lia|].
    rewrite Nat2Z.inj_succ, Z.pow_succ_r in Hn by lia. pose proof (Z.mod_pos_bound n 16 ltac:(lia)) as Hm.
    destruct (IH (n / 16)) as (Hne & Hd & Hv); [|lia|].
    { split; [apply Z.div_pos; lia|]. apply Z.div_lt_upper_bound; lia. }
    split_and!; [by destruct (hex_digits (S f) (n / 16))| |].
    + apply Forall_app; split; [done|]. constructor; [by apply hex_digit_plain | constructor].
    + rewrite read_hex_app, Hv. cbn [mbind option_bind read_hex]. rewrite hex_value_digit by lia. cbn.
      f_equal. pose proof (Z.div_mod n 16 ltac:(lia)). lia.
Qed.

Lemma hex_digits_length fuel n k : 0 <= n < 16 ^ Z.of_nat k -> (0 < k)%nat -> (length (hex_digits fuel n) <= k)%nat.
Proof.
  revert n k. induction fuel as [|f IH]; intros n k Hn Hk; cbn [hex_digits]; [cbn; lia|]. case_if; b2p; [cbn; lia|].
  destruct k as [|[|k]]; [lia|change (16 ^ Z.of_nat 1) with 16 in Hn; lia|].
  rewrite Nat2Z.inj_succ, Z.pow_succ_r in Hn by lia.
  rewrite length_app. cbn [length]. specialize (IH (n / 16) (S k)).
  assert (0 <= n / 16 < 16 ^ Z.of_nat (S k)) as Hb.
  { split; [apply Z.div_pos; lia|]. apply Z.div_lt_upper_bound; lia. }
  specialize (IH Hb ltac:(lia)). lia.
Qed.

Lemma hex_read_line n rest : 0 <= n < 2 ^ 64 ->
  read_line (hex_digits 16 n ++ crlf ++ rest) = Some (hex_digits 16 n, rest) /\ chunk_size (hex_digits 16 n) = Some n.
Proof.
  intros Hn. destruct (hex_digits_spec 16 n) as (Hne & Hd & Hv); [exact Hn|lia|]. split.
  - apply read_line_crlf, mem_byte_false. eapply Forall_impl; [exact Hd|]. by intros c [_ ?].
  - unfold chunk_size. rewrite take_while_id by (eapply Forall_impl; [exact Hd|]; by intros c [? _]).
    by destruct (hex_digits 16 n).
Qed.

Lemma read_last_chunk rest f : read_chunks (S f) (last_chunk ++ rest) = Some ([], rest).
Proof.
  change (last_chunk ++ rest) with (hex_digits 16 0 ++ crlf ++ ([] ++ crlf ++ rest)). cbn [read_chunks].
  destruct (hex_read_line 0 ([] ++ crlf ++ rest) ltac:(lia)) as [E1 E2]. rewrite E1. cbn [mbind option_bind]. rewrite E2. cbn [mbind option_bind Z.eqb].
  change (length ([] ++ crlf ++ rest)) with (S (S (length rest))).
  change ([] ++ crlf ++ rest) with (render_head [] ++ rest). by rewrite (read_lines_head [] rest _ (List.Forall_nil _)) by (cbn; lia).
Qed.

Lemma read_encoded_chunks ps rest fuel :
  Forall (fun p => p <> [] /\ blen p < 2 ^ 64) ps -> (length ps < fuel)%nat ->
  read_chunks fuel (encode_chunks ps ++ last_chunk ++ rest) = Some (concat ps, rest).
Proof.
  intros Hps. revert fuel. induction Hps as [|p ps [Hne Hlen] _ IH]; intros [|f] Hf; cbn [length] in Hf; try lia.
  - exact (read_last_chunk rest f).
  - unfold encode_chunks in *. cbn [map concat read_chunks]. unfold encode_chunk at 1. rewrite <- !app_assoc.
    destruct (hex_read_line (blen p) (p ++ crlf ++ encode_chunks ps ++ last_chunk ++ rest)) as [E1 E2];
      [unfold blen in *; lia|]. unfold encode_chunks in E1. rewrite E1. cbn [mbind option_bind]. rewrite E2. cbn [mbind option_bind].
    assert (0 < blen p) as Hp by (destruct p; [done|unfold blen; cbn [length]; lia]).
    rewrite (proj2 (Z.eqb_neq (blen p) 0)) by lia.
    rewrite (proj2 (Z.ltb_ge _ _)) by (unfold blen; rewrite length_app; lia).
    unfold blen. rewrite Nat2Z.id, take_app_length, drop_app_length.
    match goal with |- context [read_line ?s] => change s with ([] ++ s) at 1 end.
    rewrite (read_line_crlf []) by done. cbn [mbind option_bind]. rewrite IH by lia. done.
Qed.

Lemma encode_chunks_length ps : (length ps <= length (encode_chunks ps))%nat.
Proof.
  induction ps as [|p ps IH]; [done|]. unfold encode_chunks in *. cbn [map concat length]. rewrite length_app.
  unfold encode_chunk at 1. rewrite !length_app. unfold crlf. cbn [length]. lia.
Qed.

Lemma encode_chunks_app a b : encode_chunks (a ++ b) = encode_chunks a ++ encode_chunks b.
Proof. unfold encode_chunks. by rewrite map_app, concat_app. Qed.
End Http1Wire.
