(* ===== verification/Http1Inv.v ===== *)
(** * The state of an HTTP/1 response while its handler runs

    The invariant that relates the response object, the encoder and the bytes on the
    wire, and that every call of a handler preserves it. *)

From S2P Require Import Prelude AcceptEncoding HttpDate HttpResponse ResponseCompress Http1Response HttpClient Http1Wire.

Module Http1Inv.
Import AcceptEncoding Response Compress Http1 Client Http1Wire.

(** ** Clean headers *)

Definition clean_value (v : bytes) : Prop := mem_byte LF v = false.
Definition clean_name (n : bytes) : Prop := mem_byte COLON n = false /\ mem_byte LF n = false.
Definition clean_entry (e : bytes * hval) : Prop := clean_name (fst e) /\ Forall clean_value (values_of (snd e)).
Definition clean_table (h : headers_t) : Prop := Forall clean_entry h.

Lemma to_lower_neq c k : is_upper k = false -> is_lower k = false -> (to_lower c =? k) = (c =? k).
Proof.
  unfold to_lower. intros Hu Hl. destruct (is_upper c) eqn:Ec; [|done].
  unfold is_upper, is_lower in *. b2p. apply andb_false_iff in Hu, Hl.
  rewrite (proj2 (Z.eqb_neq (c + 32) k)), (proj2 (Z.eqb_neq c k)); [done| |]; intros <-;
    destruct Hu, Hl; b2p; lia.
Qed.

Lemma lower_mem k n : is_upper k = false -> is_lower k = false -> mem_byte k (map to_lower n) = mem_byte k n.
Proof.
  intros Hu Hl. unfold mem_byte. induction n as [|c n IH]; [done|]. cbn. by rewrite IH, !(Z.eqb_sym k), to_lower_neq.
Qed.

Lemma clean_lower n : clean_name n -> clean_name (normalize_header_name n).
Proof. intros [Hc Hl]. unfold normalize_header_name. split; by rewrite lower_mem. Qed.

Lemma clean_update h n v : clean_table h -> clean_name n -> Forall clean_value (values_of v) -> clean_table (ht_update n v h).
Proof. intros Hh Hn Hv. by apply ht_update_Forall. Qed.

Lemma clean_add h n v rep :
  clean_table h -> clean_name n -> Forall clean_value (values_of v) -> clean_table (add_header_value h n v rep).
Proof.
  intros Hh Hn%clean_lower Hv. unfold add_header_value.
  assert (clean_table (match v with
    | HArr [s] => ht_update (normalize_header_name n) (HStr s) h
    | HArr l => ht_update (normalize_header_name n) (HArr l) h
    | HStr s => ht_update (normalize_header_name n) (HStr s) h end)) as Hrep.
  { destruct v as [s|[|s [|s' l]]]; by apply clean_update. }
  destruct rep; [done|]. destruct (ht_find _ h) as [old|] eqn:Ef; [|done].
  apply clean_update; [done..|]. cbn [values_of]. apply Forall_app; split; [|by destruct v].
  destruct (ht_find_Forall _ _ _ _ Hh Ef) as [_ Ho]. by destruct old.
Qed.

Lemma clean_vary h : clean_table h -> clean_table (merge_vary_accept_encoding h).
Proof.
  intros Hh. unfold merge_vary_accept_encoding, put_header_string.
  destruct (ht_find (lit "vary") h) as [[cur|l]|] eqn:Ef.
  - case_if; [done|]. apply clean_update; [done..|]. constructor; [|constructor].
    destruct (ht_find_Forall _ _ _ _ Hh Ef) as [_ Hc]. apply Forall_inv in Hc.
    unfold clean_value in *. cbn [snd] in Hc. rewrite mem_byte_app, Hc. done.
  - apply clean_update; [done..|]. cbn [values_of]. apply Forall_app; split; [|by repeat constructor].
    by destruct (ht_find_Forall _ _ _ _ Hh Ef).
  - apply clean_update; [done..|]. by repeat constructor.
Qed.

Lemma clean_mutate h c : clean_table h -> clean_table (mutate_headers_for_codec h c).
Proof.
  intros Hh. unfold mutate_headers_for_codec. apply clean_vary, ht_del_Forall. unfold put_header_string.
  apply clean_update; [done..|]. constructor; [|constructor]. by destruct c.
Qed.

Lemma clean_sse h : clean_table h -> clean_table (sse_headers h).
Proof. intros Hh. unfold sse_headers. repeat (apply clean_update; [|done|by repeat constructor]). done. Qed.

Lemma table_fields_clean h skip : clean_table h -> Forall clean_field (table_fields h skip).
Proof.
  unfold table_fields. induction 1 as [|[n v] h [Hn Hv] _ IH]; [constructor|]. cbn [flat_map].
  apply Forall_app; split; [|done]. destruct (skip && header_is_framing n); [constructor|].
  cbn [fst snd] in *. induction Hv as [|x l Hx _ IHl]; constructor; [|done]. destruct Hn. by repeat split.
Qed.

(** ** The name of the coding on the wire *)

Definition coding (h : headers_t) : option hval := ht_find (lit "content-encoding") h.

#[global] Arguments coding : simpl never.

Lemma coding_update h k v : eqb_bytes (lit "content-encoding") k = false -> coding (ht_update k v h) = coding h.
Proof. intros Hk. unfold coding. by rewrite ht_find_update, Hk. Qed.

Lemma coding_mutate h c :
  coding (mutate_headers_for_codec h c) = Some (HStr (default [] (http_compression_codec_token c))).
Proof.
  unfold mutate_headers_for_codec, merge_vary_accept_encoding, put_header_string, delete_header.
  set (h1 := ht_del _ _).
  assert (coding h1 = Some (HStr (default [] (http_compression_codec_token c)))) as Hc.
  { subst h1. unfold coding. by rewrite ht_find_del_ne, ht_find_update. }
  destruct (ht_find (lit "vary") h1) as [[cur|l]|]; [case_if; [done|]|..]; by rewrite coding_update.
Qed.

Section inv.
Context `{Encoder} {Laws : EncoderLaws} {Reliable : EncoderReliable}.
Variable b : build.

Abbreviation response := (http_response_object http_compression_state_t).
Abbreviation world := h1_world.

(** ** The invariant *)

(** What the header block is made of. *)
Record good (r : response) : Prop := {
  good_table : clean_table (headers r);
  good_status : 100 <= status_code r <= 599;
  good_reason : clean_value (reason_of r);
  good_version : mem_byte SP (version_of r) = false /\ clean_value (version_of r);
  good_view : body_view r = None;
}.

(** A chunk the framing can carry. *)
Definition small (p : bytes) : Prop := p <> [] /\ blen p < 2 ^ 60.

(** The header block and the chunks [ps] are on the wire, then [tail]; or nothing is. *)
Definition on_wire (w : world) (ps : list bytes) (tail : bytes) : Prop :=
  if h1_stream_headers_sent w
  then wire w = http_response_format_streaming_headers (resp w) (now w) ++ encode_chunks ps ++ tail
  else wire w = [] /\ ps = [] /\ tail = [].

(** The chunks [ps] carry what was [sent]. *)
Definition carries (w : world) (ps : list bytes) (sent : bytes) : Prop :=
  match stream_ops (resp w) with
  | None => False
  | Some h1_stream_ops => concat ps = sent
  | Some compressing_stream_ops =>
      exists st ws, compression_state (resp w) = Some st /\ wrapper_ctx st = Some ws /\
        http_compression_codec_token (w_codec ws) <> None /\
        (h1_stream_headers_sent w = true -> first_chunk_done ws = true) /\
        (first_chunk_done ws = true -> coding (headers (resp w)) = Some (HStr (default [] (http_compression_codec_token (w_codec ws))))) /\
        if closed (resp w) then decode (w_codec ws) (concat ps) = Some sent /\ h1_stream_headers_sent w = true
        else enc_state (w_codec ws) (w_encoder ws) sent (concat ps)
  end.

Definition streamed (w : world) (sent : bytes) : Prop :=
  committed (resp w) = true /\ send_file_req (resp w) = None /\
  exists ps, Forall small ps /\ on_wire w ps (if closed (resp w) then last_chunk else []) /\
    (closed (resp w) = true -> h1_stream_headers_sent w = true) /\ carries w ps sent.

Definition unsent (w : world) : Prop :=
  wire w = [] /\ h1_stream_headers_sent w = false /\ stream_ops (resp w) = Some h1_stream_ops /\
  sse_mode (resp w) = false /\ committed (resp w) = false /\
  (forall st, compression_state (resp w) = Some st -> wrapper_installed st = false /\ applied st = false).

Record inv (w : world) (sent : bytes) : Prop := {
  inv_io : io w = [];
  inv_good : good (resp w);
  inv_alt : clean_value (default [] (alt_svc w));
  inv_head : is_head (resp w) = http_request_method_is_head (Some (request w));
  inv_phase : if streaming (resp w) then streamed w sent else unsent w /\ sent = [];
}.

(** ** Calls that only touch the object *)

(** What the invariant looks at besides the header block. *)
Definition frame (r : response) :=
  (streaming r, committed r, sse_mode r, is_head r, stream_ops r, compression_state r).

Lemma inv_quiet w sent r' :
  inv w sent -> streaming (resp w) = false -> frame r' = frame (resp w) -> good r' -> inv (set_resp r' w) sent.
Proof.
  intros [Hio Hg Ha Hh Hp] Hs Hf Hg'. unfold frame in Hf. injection Hf as E1 E2 E3 E4 E5 E6.
  rewrite Hs in Hp. constructor; cbn; [done..|by rewrite E4|]. rewrite E1, Hs. unfold unsent in *. cbn. by rewrite E2, E3, E5, E6.
Qed.

Lemma inv_guarded f w sent r' o :
  inv w sent ->
  (forall r o, streaming (resp w) = false -> f (resp w) = (r, o) -> frame r = frame (resp w) /\ good r) ->
  guarded f (resp w) = (r', o) -> inv (set_resp r' w) sent.
Proof.
  intros Hi Hf E. unfold guarded in E. destruct (response_check_closed (resp w)) eqn:Ec.
  - injection E as <- _. by destruct w.
  - assert (streaming (resp w) = false) as Hs.
    { unfold response_check_closed in Ec. by destruct (closed (resp w)), (streaming (resp w)). }
    destruct (Hf _ _ Hs E). by apply inv_quiet.
Qed.

(** Trailers are not on the wire of HTTP/1. *)
Lemma inv_trailers w sent t : inv w sent -> inv (set_resp (set_trailers t (resp w)) w) sent.
Proof. intros [Hio [? ? ? ? ?] Ha Hh Hp]. by constructor; [|constructor|..]. Qed.

(** Opting out of compression does not undo a wrapper. *)
Lemma inv_no_compression w sent : inv w sent -> inv (set_resp (http_compression_mark_no_compression (resp w)) w) sent.
Proof.
  intros [Hio [? ? ? ? ?] Ha Hh Hp]. constructor; [done|by constructor|done..|]. cbn.
  destruct (streaming (resp w)).
  - destruct Hp as (? & ? & ps & ? & ? & ? & Hc). split; [done|]. split; [done|]. exists ps.
    split_and!; [done..|]. unfold carries in *. cbn. destruct (stream_ops (resp w)) as [[]|]; [done| |done].
    destruct Hc as (st & ws & Es & Ew & ?). rewrite Es. cbn. by eexists _, ws.
  - destruct Hp as ((? & ? & ? & ? & ? & Hst) & ?). split; [|done]. unfold unsent. cbn. split_and!; [done..|].
    intros st [= <-]. cbn. destruct (compression_state (resp w)) as [st|]; [|done]. by apply Hst.
Qed.


(** ** Writing chunks *)

(** The object with other headers that are as clean and name the same coding. *)
Definition rehead (r r' : response) : Prop :=
  exists h, r' = set_headers h r /\ clean_table h /\ coding h = coding (headers r).

Lemma rehead_refl r : clean_table (headers r) -> rehead r r.
Proof. intros Hc. exists (headers r). split; [by destruct r|done]. Qed.

Lemma good_rehead r r' : good r -> rehead r r' -> good r'.
Proof. intros [? ? ? ? ?] (h & -> & Hh & _). by constructor. Qed.

Lemma inject_alt_svc_ok w : good (resp w) -> clean_value (default [] (alt_svc w)) ->
  exists r, inject_alt_svc w = set_resp r w /\ rehead (resp w) r.
Proof.
  intros Hg Ha. unfold inject_alt_svc, http_response_set_alt_svc_if_unset. pose proof (good_table _ Hg) as Ht.
  destruct (alt_svc w) as [[|x v]|].
  - exists (resp w). split; [by destruct w|by apply rehead_refl].
  - case_if; [exists (resp w); split; [done|by apply rehead_refl]|].
    eexists; split; [done|]. eexists; split; [done|]. split; [|by rewrite coding_update].
    apply clean_update; [done..|]. constructor; [done|constructor].
  - exists (resp w). split; [by destruct w|by apply rehead_refl].
Qed.

Lemma send_ok s w : io w = [] -> http_connection_send s w = (written s [] w, true).
Proof.
  intros Hio. unfold http_connection_send. rewrite Hio. destruct s; [|done].
  destruct w; cbn in *; subst. unfold written. cbn. by rewrite app_nil_r.
Qed.

Lemma send_all_ok l w : io w = [] -> send_all l w = (written (concat l) [] w, true).
Proof.
  intros Hio. unfold send_all. revert w Hio. induction l as [|s l IH]; intros w Hio; cbn [fold_left concat].
  - destruct w; cbn in *; subst. unfold written. cbn. by rewrite app_nil_r.
  - rewrite send_ok by done. rewrite IH by done. unfold written. cbn. by rewrite <- app_assoc.
Qed.

(** The first step of both stream operations: the header block is on the wire. *)
Lemma commit_ok w ps tail : io w = [] -> good (resp w) -> clean_value (default [] (alt_svc w)) -> on_wire w ps tail ->
  exists w', (if h1_stream_headers_sent w then (w, true)
              else let '(w, ok) := h1_emit_headers_once w in if (ok : bool) then (set_sent true w, true) else (w, false)) = (w', true) /\
    on_wire w' ps tail /\ h1_stream_headers_sent w' = true /\ io w' = [] /\ request w' = request w /\ alt_svc w' = alt_svc w /\
    now w' = now w /\ rehead (resp w) (resp w').
Proof.
  intros Hio Hg Ha Hw. unfold on_wire in *. destruct (h1_stream_headers_sent w) eqn:Es.
  - exists w. rewrite Es. split_and!; try done. apply rehead_refl, Hg.
  - destruct (inject_alt_svc_ok w Hg Ha) as (r & Ei & Hr). unfold h1_emit_headers_once. rewrite Ei.
    cbn [resp set_resp now]. destruct Hw as (Hwire & -> & ->).
    set (hs := http_response_format_streaming_headers r (now w)) in *.
    assert (hs <> []) as Hne.
    { unfold hs. rewrite streaming_headers_lines, render_head_cons. intros E. apply (f_equal length) in E.
      rewrite !length_app in E. cbn in E. lia. }
    destruct hs as [|x hs'] eqn:Ehs; [done|]. rewrite send_ok by done.
    eexists; split; [done|]. cbn. rewrite Hwire, <- Ehs. split_and!; try done. unfold encode_chunks. cbn. by rewrite app_nil_r.
Qed.

Definition as_chunk (s : bytes) : list bytes := match s with [] => [] | _ => [s] end.

Lemma concat_as_chunk s : concat (as_chunk s) = s.
Proof. destruct s; [done|]. cbn. by rewrite app_nil_r. Qed.

Lemma h1_append_ok chunk w ps : io w = [] -> good (resp w) -> clean_value (default [] (alt_svc w)) -> on_wire w ps [] ->
  blen chunk < 2 ^ 60 ->
  exists w', h1_stream_append_chunk chunk w = (w', HTTP_STREAM_APPEND_OK) /\
    on_wire w' (ps ++ as_chunk chunk) [] /\ h1_stream_headers_sent w' = true /\ io w' = [] /\ request w' = request w /\
    alt_svc w' = alt_svc w /\ now w' = now w /\ rehead (resp w) (resp w').
Proof.
  intros Hio Hg Ha Hw Hl. destruct (commit_ok w ps [] Hio Hg Ha Hw) as (w' & E & Hw' & Hs' & Hio' & Hrq & Halt & Hnow & Hr).
  unfold h1_stream_append_chunk. rewrite E. cbn [negb]. destruct chunk as [|x chunk].
  - exists w'. cbn [as_chunk]. by rewrite app_nil_r.
  - set (s := x :: chunk) in *. rewrite (proj2 (Z.leb_gt _ _)).
    2: { unfold H1_CHUNK_HEADER_MAX, blen. rewrite length_app. unfold crlf. cbn [length].
         pose proof (hex_digits_length 16 (blen s) 15). unfold blen in *. change (16 ^ Z.of_nat 15) with (2 ^ 60) in *. lia. }
    rewrite send_all_ok by done. eexists; split; [done|]. unfold on_wire in *. cbn. rewrite Hs' in *.
    split_and!; try done. rewrite Hw', !app_nil_r, encode_chunks_app. unfold encode_chunks at 3. cbn [map concat].
    unfold encode_chunk. by rewrite app_nil_r, <- !app_assoc.
Qed.

Lemma h1_mark_ended_ok w ps : io w = [] -> good (resp w) -> clean_value (default [] (alt_svc w)) -> on_wire w ps [] ->
  exists w', h1_stream_mark_ended w = w' /\
    on_wire w' ps last_chunk /\ h1_stream_headers_sent w' = true /\ io w' = [] /\ request w' = request w /\
    alt_svc w' = alt_svc w /\ now w' = now w /\ rehead (resp w) (resp w').
Proof.
  intros Hio Hg Ha Hw. destruct (commit_ok w ps [] Hio Hg Ha Hw) as (w' & E & Hw' & Hs' & Hio' & Hrq & Halt & Hnow & Hr).
  unfold h1_stream_mark_ended. rewrite E, send_ok by done. eexists; split; [done|]. unfold on_wire in *. cbn.
  rewrite Hs' in *. split_and!; try done. by rewrite Hw', app_nil_r, <- app_assoc.
Qed.


(** ** Calls through the stream operations *)

(** What is left alone by them. *)
Definition flags (r : response) := (streaming r, closed r, committed r, sse_mode r, is_head r, send_file_req r, stream_ops r).

Lemma flags_rehead r r' : rehead r r' -> flags r' = flags r /\ compression_state r' = compression_state r /\ coding (headers r') = coding (headers r).
Proof. by intros (h & -> & _ & Hc). Qed.

Lemma small_as_chunk ps s : Forall small ps -> blen s < 2 ^ 60 -> Forall small (ps ++ as_chunk s).
Proof. intros Hp Hs. apply Forall_app; split; [done|]. destruct s; [constructor|]. by constructor. Qed.

(** The response in the hands of the wrapper, after the headers were changed. *)
Lemma ws_resp_ok st ws enc r :
  good r -> exists r', ws_put st ws enc (ws_first_chunk ws r) = r' /\ good r' /\ flags r' = flags r /\
    compression_state r' = Some (set_wrapper st {| underlying_ops := underlying_ops ws; w_encoder := enc; w_codec := w_codec ws; first_chunk_done := true |}) /\
    (first_chunk_done ws = true -> headers r' = headers r) /\
    ((first_chunk_done ws = true -> coding (headers r) = Some (HStr (default [] (http_compression_codec_token (w_codec ws))))) ->
     coding (headers r') = Some (HStr (default [] (http_compression_codec_token (w_codec ws))))) /\
    (first_chunk_done ws = true -> forall t, http_response_format_streaming_headers r' t = http_response_format_streaming_headers r t).
Proof.
  intros [? ? ? ? ?]. eexists; split; [done|]. unfold ws_put, ws_first_chunk. destruct (first_chunk_done ws).
  - split_and!; try done. intros Hc. by apply Hc.
  - split_and!; try done. { constructor; [|done..]. by apply clean_mutate. } intros _. apply coding_mutate.
Qed.

Lemma on_wire_unsent w r ps tail : on_wire w ps tail ->
  (h1_stream_headers_sent w = true -> forall t, http_response_format_streaming_headers r t = http_response_format_streaming_headers (resp w) t) ->
  on_wire (set_resp r w) ps tail.
Proof. unfold on_wire. cbn. destruct (h1_stream_headers_sent w); [|done]. intros -> Hr. by rewrite Hr. Qed.

Lemma streamed_intro w sent ps : streaming (resp w) = true -> committed (resp w) = true -> send_file_req (resp w) = None ->
  Forall small ps -> on_wire w ps (if closed (resp w) then last_chunk else []) ->
  (closed (resp w) = true -> h1_stream_headers_sent w = true) -> carries w ps sent ->
  if streaming (resp w) then streamed w sent else unsent w /\ sent = [].
Proof. intros -> ? ? ? ? ? ?. split_and!; [done..|]. by exists ps. Qed.

Lemma append_chunk_ok chunk w sent :
  inv w sent -> streaming (resp w) = true -> closed (resp w) = false -> blen chunk < 2 ^ 40 ->
  exists w', append_chunk chunk w = Some (w', HTTP_STREAM_APPEND_OK) /\ inv w' (sent ++ chunk) /\ flags (resp w') = flags (resp w).
Proof.
  intros [Hio Hg Ha Hh Hp] Hs Hc Hl. rewrite Hs in Hp. destruct Hp as (Hcm & Hsf & ps & Hps & Hw & Hcl & Hca).
  rewrite Hc in Hw. unfold append_chunk, carries in *. destruct (stream_ops (resp w)) as [[]|] eqn:Eo; [..|done].
  - destruct (h1_append_ok chunk w ps Hio Hg Ha Hw ltac:(lia)) as (w' & E & Hw' & Hs' & Hio' & Hrq & Halt & Hnow & Hr).
    rewrite E. exists w'. destruct (flags_rehead _ _ Hr) as (Hf & _). split; [done|]. split; [|done].
    pose proof Hf as Hf'. unfold flags in Hf'. injection Hf' as E1 E2 E3 E4 E5 E6 E7. constructor; [done|by eapply good_rehead| | |].
    + by rewrite Halt.
    + by rewrite E5, Hrq.
    + apply (streamed_intro _ _ (ps ++ as_chunk chunk)); try congruence.
      * apply small_as_chunk; [done|lia].
      * by rewrite E2, Hc.
      * unfold carries. rewrite E7, Eo, concat_app, concat_as_chunk. congruence.
  - destruct Hca as (st & ws & Est & Ews & Htok & Hfs & Hfc & Hen). rewrite Hc in Hen.
    rewrite Est. cbn [mbind option_bind]. rewrite Ews. cbn [mbind option_bind].
    pose proof (alloc_new_bound (blen chunk + 32) ltac:(unfold blen; lia)) as Hab.
    destruct (drain_write_ok (w_codec ws) (write_calls (w_encoder ws) chunk) (w_encoder ws) chunk
      (smart_str_alloc_new (blen chunk + 32)) sent (concat ps) []) as (e' & a' & out & E & Hst' & Hb & Hb').
    { by rewrite app_nil_r. } { unfold blen in *. cbn [length]. lia. } { by right. }
    pose proof (write_calls_bound _ _ _ _ chunk Hen) as Hwb.
    assert (blen out < 2 ^ 60) as Hout by (unfold blen in *; lia).
    unfold ws_encode. rewrite E. cbn [mbind option_bind].
    destruct (ws_resp_ok st ws e' (resp w) Hg) as (r' & -> & Hg' & Hf & Ecs & Hhd & Hcod & Hfmt).
    specialize (Hcod Hfc). pose proof Hf as Hf'. unfold flags in Hf'. injection Hf' as E1 E2 E3 E4 E5 E6 E7.
    assert (on_wire (set_resp r' w) ps []) as Hw1 by (apply on_wire_unsent; auto).
    destruct out as [|x out'].
    + exists (set_resp r' w). split; [done|]. split; [|done]. constructor; [done..|cbn; by rewrite E5|].
      apply (streamed_intro _ _ ps); cbn [resp set_resp]; try congruence; [by rewrite E2, Hc|].
      unfold carries. cbn [resp set_resp]. rewrite E7, Eo. do 2 eexists. split_and!; [done..| |].
      { by intros _. } cbn. rewrite E2, Hc. cbn. by rewrite app_nil_r in Hst'.
    + set (out := x :: out') in *.
      destruct (h1_append_ok out (set_resp r' w) ps Hio Hg' Ha Hw1 ltac:(lia)) as (w' & E' & Hw' & Hs' & Hio' & Hrq & Halt & Hnow & Hr).
      rewrite E'. exists w'. destruct (flags_rehead _ _ Hr) as (Hf1 & Hcs1 & Hcod1). cbn [resp set_resp] in *. split; [done|].
      rewrite Hf1. split; [|done]. unfold flags in Hf1. injection Hf1 as F1 F2 F3 F4 F5 F6 F7. constructor; [done|by eapply good_rehead| | |].
      * by rewrite Halt.
      * by rewrite F5, E5, Hrq.
      * apply (streamed_intro _ _ (ps ++ as_chunk out)); try congruence.
        { by apply small_as_chunk. } { by rewrite F2, E2, Hc. }
        unfold carries. rewrite F7, E7, Eo, F2, E2, Hc. do 2 eexists. rewrite Hcs1, Ecs. split_and!; [done..| |].
        { intros _. cbn. by rewrite Hcod1. } by rewrite concat_app, concat_as_chunk.
Qed.

Lemma mark_ended_ok w sent :
  inv w sent -> streaming (resp w) = true -> closed (resp w) = false ->
  exists w', mark_ended w = Some w' /\ inv (set_resp (set_closed true (resp w')) w') sent.
Proof.
  intros [Hio Hg Ha Hh Hp] Hs Hc. rewrite Hs in Hp. destruct Hp as (Hcm & Hsf & ps & Hps & Hw & Hcl & Hca).
  rewrite Hc in Hw. unfold mark_ended, carries in *. destruct (stream_ops (resp w)) as [[]|] eqn:Eo; [..|done].
  - destruct (h1_mark_ended_ok w ps Hio Hg Ha Hw) as (w' & E & Hw' & Hs' & Hio' & Hrq & Halt & Hnow & Hr).
    rewrite E. exists w'. destruct (flags_rehead _ _ Hr) as (Hf & _). split; [done|].
    unfold flags in Hf. injection Hf as E1 E2 E3 E4 E5 E6 E7. pose proof (good_rehead _ _ Hg Hr) as [? ? ? ? ?]. constructor; [done|by constructor| | |].
    + cbn. by rewrite Halt.
    + cbn. by rewrite E5, Hrq.
    + apply (streamed_intro _ _ ps); cbn; try congruence; [exact Hw'|]. unfold carries. cbn. by rewrite E7, Eo.
  - destruct Hca as (st & ws & Est & Ews & Htok & Hfs & Hfc & Hen). rewrite Hc in Hen.
    rewrite Est. cbn [mbind option_bind]. rewrite Ews. cbn [mbind option_bind]. apply state_final in Hen.
    pose proof (alloc_new_bound 64 ltac:(lia)) as Hab.
    destruct (drain_finish_ok (w_codec ws) (finish_calls (w_encoder ws)) (w_encoder ws) (smart_str_alloc_new 64) sent (concat ps) [])
      as (e' & out & E & Hd & Hb).
    { by rewrite app_nil_r. } { unfold blen in *. cbn [length]. lia. } { done. }
    pose proof (finish_calls_bound _ _ _ _ Hen) as Hwb.
    unfold ws_finish. rewrite E. cbn [mbind option_bind].
    destruct (ws_resp_ok st ws e' (resp w) Hg) as (r' & -> & Hg' & Hf & Ecs & Hhd & Hcod & Hfmt).
    specialize (Hcod Hfc). unfold flags in Hf. injection Hf as E1 E2 E3 E4 E5 E6 E7.
    assert (on_wire (set_resp r' w) ps []) as Hw1 by (apply on_wire_unsent; auto).
    assert (exists w1, match out with [] => set_resp r' w | _ => fst (h1_stream_append_chunk out (set_resp r' w)) end = w1 /\
      on_wire w1 (ps ++ as_chunk out) [] /\ io w1 = [] /\ request w1 = request w /\ alt_svc w1 = alt_svc w /\ rehead r' (resp w1))
      as (w1 & -> & Hw2 & Hio1 & Hrq1 & Halt1 & Hr1).
    { destruct out as [|x out']; [eexists; split; [done|]; cbn [as_chunk]; rewrite app_nil_r; split_and!; try done; apply rehead_refl, Hg'|].
      destruct (h1_append_ok (x :: out') (set_resp r' w) ps Hio Hg' Ha Hw1 ltac:(lia)) as (w1 & -> & ?). exists w1. by destruct_and!. }
    destruct (h1_mark_ended_ok w1 (ps ++ as_chunk out)) as (w' & -> & Hw' & Hs' & Hio' & Hrq & Halt & Hnow & Hr); [done|by eapply good_rehead|by rewrite Halt1|done|].
    exists w'. split; [done|].
    destruct (flags_rehead _ _ Hr1) as (Hf1 & Hcs1 & Hcod1). destruct (flags_rehead _ _ Hr) as (Hf2 & Hcs2 & Hcod2).
    pose proof (good_rehead _ _ (good_rehead _ _ Hg' Hr1) Hr) as [? ? ? ? ?].
    unfold flags in Hf1, Hf2. injection Hf1 as F1 F2 F3 F4 F5 F6 F7. injection Hf2 as G1 G2 G3 G4 G5 G6 G7.
    constructor; [done|by constructor| | |].
    + cbn. by rewrite Halt, Halt1.
    + cbn. by rewrite G5, F5, E5, Hrq, Hrq1.
    + apply (streamed_intro _ _ (ps ++ as_chunk out)); cbn; try congruence.
      { apply small_as_chunk; [done|lia]. } { exact Hw'. }
      unfold carries. cbn. rewrite G7, F7, E7, Eo. do 2 eexists. rewrite Hcs2, Hcs1, Ecs. split_and!; [done..| | |done].
      { intros _. cbn. by rewrite Hcod2, Hcod1. } { by rewrite concat_app, concat_as_chunk. }
Qed.


(** ** Starting to stream *)

Lemma decide_codec_token st r n : http_compression_codec_token (decide_codec b st r n) <> None.
Proof.
  unfold decide_codec. destruct st as [st|]; [|done]. destruct (st_cfg st) as [cfg|]; [|done]. cbv zeta.
  repeat (case_if; [done|]). destruct (http_accept_encoding_select _ _) eqn:Es; try done; repeat (case_if; [done|]);
    (destruct (response_content_type _ _); [done|]); (destruct (compression_mime_types cfg); [|done]); by case_if.
Qed.

Lemma unsent_streamed w r' :
  unsent w -> io w = [] -> good r' -> clean_value (default [] (alt_svc w)) ->
  is_head r' = http_request_method_is_head (Some (request w)) ->
  streaming r' = true -> committed r' = true -> closed r' = false -> send_file_req r' = None ->
  carries (set_resp r' w) [] [] -> inv (set_resp r' w) [].
Proof.
  intros (Hw & Hs & _) Hio Hg Ha Hh H1 H2 H3 H4 Hc. constructor; [done..|]. cbn. rewrite H1. unfold streamed. cbn.
  split_and!; [done..|]. exists []. rewrite H3. split_and!; [constructor| |done|done]. unfold on_wire. cbn. by rewrite Hs.
Qed.

Lemma start_streaming_ok w sent :
  inv w sent -> streaming (resp w) = false -> closed (resp w) = false -> send_file_req (resp w) = None ->
  exists r', http_compression_maybe_install_stream_wrapper b (start_streaming (resp w)) = r' /\
    inv (set_resp r' w) [] /\ streaming r' = true /\ closed r' = false.
Proof.
  intros [Hio [? ? ? ? ?] Ha Hh Hp] Hs Hc Hsf. rewrite Hs in Hp. destruct Hp as [Hu _].
  pose proof Hu as (_ & _ & Ho & _ & _ & Hst). set (r := start_streaming (resp w)).
  assert (inv (set_resp r w) [] /\ streaming r = true /\ closed r = false) as Hr.
  { split; [|done]. apply unsent_streamed; [done|done|by constructor|done..|]. unfold carries. cbn. by rewrite Ho. }
  unfold http_compression_maybe_install_stream_wrapper. change (compression_state r) with (compression_state (resp w)).
  destruct (compression_state (resp w)) as [st|]; [|by exists r]. destruct (Hst st eq_refl) as [-> _].
  change (stream_ops r) with (stream_ops (resp w)). rewrite Ho.
  pose proof (decide_codec_token (Some st) r 0) as Htok. destruct (decide_codec b (Some st) r 0); [by exists r|..|done];
    (destruct (st_cfg st) as [cfg|]; [|by exists r]);
    (destruct (http_compression_pool_acquire _ _) as [enc|] eqn:Ea; [|by exists r]);
    (eexists; split; [done|]; split; [|done]; apply unsent_streamed; [done|done|by constructor|done..|];
     unfold carries; cbn; eexists _, _; split_and!; [done|done|cbn..]; try done;
     [by destruct Hu as (_ & -> & _) | rewrite Hc; by eapply acquire_law]).
Qed.

Lemma sse_ensure_started_ok w sent r' o :
  inv w sent -> closed (resp w) = false -> sse_ensure_started (resp w) = (r', o) ->
  inv (set_resp r' w) sent /\ closed r' = false /\ (o = Returns -> streaming r' = true).
Proof.
  intros Hi Hc. unfold sse_ensure_started. destruct (streaming (resp w)) eqn:Hs.
  { destruct (negb _); intros [= <- <-]; (split; [by destruct w|done]). }
  rewrite Hc. destruct (send_file_req (resp w)) eqn:Hsf; [intros [= <- <-]; split; [by destruct w|done]|].
  destruct Hi as [Hio [? ? ? ? ?] Ha Hh Hp]. rewrite Hs in Hp. pose proof Hp as ((? & ? & Ho & ?) & ->).
  rewrite Ho. case_if; intros [= <- <-].
  - split; [|done]. constructor; [done|by constructor|done..|]. cbn. by rewrite Hs.
  - split; [|done]. apply unsent_streamed; [by destruct Hp|done| |done..|].
    + constructor; [by apply clean_sse|done..].
    + unfold carries. cbn. by rewrite Ho.
Qed.
End inv.
End Http1Inv.
