(* ===== verification/Http1Run.v ===== *)
(** * Handlers keep the invariant

    Every call of a handler preserves the invariant of Http1Inv, with what it asked
    to have streamed appended. *)

From S2P Require Import Prelude AcceptEncoding HttpDate HttpResponse ResponseCompress Http1Response HttpClient Http1Wire Http1Inv.

Module Http1Run.
Import AcceptEncoding Response Compress Http1 Client Http1Wire Http1Inv.

Section run.
Context `{Encoder} {Laws : EncoderLaws} {Reliable : EncoderReliable}.
Variable b : build.

Abbreviation response := (http_response_object http_compression_state_t).
Abbreviation world := h1_world.

(** What a call that returned asked to have streamed. *)
Definition delivered (c : call) (w : world) (o : outcome) : bytes :=
  match o with
  | Throws _ => []
  | Returns =>
      match c with
      | Send s => if is_head (resp w) then [] else s
      | SseEvent None None None None => []
      | SseEvent d e i t => sse_payload d e i t
      | SseComment t => sse_comment_payload (default [] t)
      | SseRetry n => sse_append_field (lit "retry") (print_d n) ++ [LF]
      | End (Some s) => if streaming (resp w) then s else []
      | _ => []
      end
  end.

(** Header names without colon and line feed, values and phrases without line feed,
    and no piece of a terabyte or more. *)
Definition clean_call (c : call) : Prop :=
  match c with
  | SetReasonPhrase s => clean_value s
  | SetHeader n v | AddHeader n v => clean_name n /\ Forall clean_value (values_of v)
  | Redirect url _ => clean_value url
  | Send s | End (Some s) => blen s < 2 ^ 40
  | SseEvent d e i t => blen (sse_payload d e i t) < 2 ^ 40
  | SseComment t => blen (sse_comment_payload (default [] t)) < 2 ^ 40
  | _ => True
  end.

Lemma clean_c_str s : clean_value s -> clean_value (c_str s).
Proof. unfold clean_value. rewrite !mem_byte_false. intros Hs. by apply take_while_Forall. Qed.

Lemma reasons_clean : forallb (fun p => negb (mem_byte LF (snd p))) status_reasons = true.
Proof. vm_compute. reflexivity. Qed.

Lemma status_reason_clean code : clean_value (http_status_reason code).
Proof.
  unfold http_status_reason. destruct (code_find code status_reasons) as [s|] eqn:E; [|done].
  apply code_find_In in E. pose proof reasons_clean as Hr. rewrite forallb_forall in Hr. apply Hr in E.
  by apply negb_true_iff in E.
Qed.

(** ** The object's parts *)

Implicit Type r : response.

Lemma good_headers r h : good r -> clean_table h -> good (set_headers h r).
Proof. intros [? ? ? ? ?] Hh. by constructor. Qed.

Lemma good_status_code r code : good r -> 100 <= code <= 599 -> good (set_status_code code r).
Proof.
  intros [? ? Hr ? ?] Hc. constructor; [done|done| |done|done]. unfold reason_of in *. cbn.
  destruct (reason_phrase r); [done|apply status_reason_clean].
Qed.

Lemma good_reason_phrase r s : good r -> clean_value s -> good (set_reason_phrase (Some s) r).
Proof. intros [? ? Hr ? ?] Hs. constructor; [done|done| |done|done]. unfold reason_of. cbn. by apply clean_c_str. Qed.

Lemma good_body r x : good r -> good (set_body x (set_body_view None r)).
Proof. intros [? ? ? ? ?]. by constructor. Qed.

Lemma range_ok c lo hi : (c <? lo) || (hi <? c) = false -> lo <= c <= hi.
Proof. intros Hc. b2p. lia. Qed.

(** ** Each call *)

Definition preserves (c : call) : Prop :=
  forall w sent, inv w sent -> clean_call c ->
  exists w' o, exec b c w = Some (w', o) /\ inv w' (sent ++ delivered c w o).

(** A guarded method that streams nothing. *)
Lemma guarded_preserves c f :
  (forall w, exec b c w = on_resp (guarded f) w) -> (forall w o, delivered c w o = []) ->
  (forall w r o, good (resp w) -> clean_call c -> f (resp w) = (r, o) -> frame r = frame (resp w) /\ good r) ->
  preserves c.
Proof.
  intros Hx Hd Hf w sent Hi Hc. rewrite Hx. unfold on_resp. destruct (guarded f (resp w)) as [r o] eqn:E.
  exists (set_resp r w), o. split; [done|]. rewrite Hd, app_nil_r. eapply inv_guarded; [done| |exact E].
  intros r' o' _ E'. eapply Hf; [apply Hi|done|exact E'].
Qed.

Ltac quiet := intros w r o Hg Hc E; injection E as <- <-; split; [done|].

Lemma set_calls_preserve c :
  match c with SetStatusCode _ | SetReasonPhrase _ | SetHeader _ _ | AddHeader _ _ | ResetHeaders | Write _ | SetBody _
             | Json _ _ _ | Html _ | Redirect _ _ => True | _ => False end -> preserves c.
Proof.
  destruct c; intros []; (eapply guarded_preserves; [done|by intros ? []|]).
  - intros w r o Hg _. case_if; intros [= <- <-]; (split; [done|]); [done|]. by apply good_status_code, range_ok.
  - quiet. by apply good_reason_phrase.
  - quiet. destruct Hc. apply good_headers; [done|]. apply clean_add; [apply Hg|done..].
  - quiet. destruct Hc. apply good_headers; [done|]. apply clean_add; [apply Hg|done..].
  - quiet. by apply good_headers, List.Forall_nil.
  - quiet. by apply good_body.
  - quiet. by apply good_body.
  - intros w r o Hg _. cbn zeta. case_if; [intros [= <- <-]; by split|].
    set (h := if ht_exists _ _ then _ else _).
    assert (good (set_status_code status (set_headers h (resp w)))) as Hg1.
    { apply good_status_code; [|by apply range_ok]. apply good_headers; [done|]. subst h.
      case_if; [apply Hg|]. apply clean_add; [apply Hg|done|by repeat constructor]. }
    destruct data as [s|encode]; [intros [= <- <-]; split; [done|by apply good_body]|].
    destruct (encode _); intros [= <- <-]; (split; [done|]); [by apply good_body|].
    apply good_status_code; [by apply good_body|lia].
  - quiet. apply good_body, good_headers; [done|]. apply clean_add; [apply Hg|done|by repeat constructor].
  - intros w r o Hg Hc. case_if; intros [= <- <-]; (split; [done|]); [done|].
    apply good_headers; [apply good_status_code; [done|]|].
    + match goal with H : _ = false |- _ => apply range_ok in H; lia end.
    + apply clean_add; [apply Hg|done|by repeat constructor].
Qed.

Lemma trailer_calls_preserve c :
  match c with SetTrailer _ _ | SetTrailers _ | ResetTrailers => True | _ => False end -> preserves c.
Proof.
  intros Hk w sent Hi _.
  assert (forall f, exec b c w = on_resp (trailer_guarded f) w -> (forall r, exists t, fst (f r) = set_trailers t r) ->
    exists w' o, exec b c w = Some (w', o) /\ inv w' (sent ++ delivered c w o)) as Hgen.
  { intros f -> Hf. unfold on_resp, trailer_guarded. assert (forall o, delivered c w o = []) as Hd by (intros []; by destruct c).
    case_if; [do 2 eexists; split; [done|]; rewrite Hd, app_nil_r; by destruct w|].
    destruct (Hf (resp w)) as (t & Ht). destruct (f (resp w)) as [r o]. cbn in Ht. subst r. do 2 eexists; split; [done|].
    rewrite Hd, app_nil_r. by apply inv_trailers. }
  destruct c; try done; eapply Hgen; try reflexivity; intros r; [by eexists..|].
  cbn. unfold http_response_clear_trailers. destruct (trailers r) eqn:Et; [by eexists|]. exists None. destruct r; cbn in *. by subst.
Qed.


Lemma no_delivery_preserved c w sent o : inv w sent -> delivered c w o = [] -> inv w (sent ++ delivered c w o).
Proof. intros Hi ->. by rewrite app_nil_r. Qed.

(** A call that is refused leaves the world alone. *)
Lemma refused c w sent e : inv w sent -> exec b c w = throws e w ->
  exists w' o, exec b c w = Some (w', o) /\ inv w' (sent ++ delivered c w o).
Proof. intros Hi ->. do 2 eexists; split; [done|]. by apply no_delivery_preserved. Qed.

Lemma send_preserves s : preserves (Send s).
Proof.
  intros w sent Hi Hl. cbn in Hl. cbn [exec]. unfold send.
  destruct (closed (resp w)) eqn:Hc; [do 2 eexists; split; [done|by apply no_delivery_preserved]|].
  destruct (sse_mode (resp w)); [do 2 eexists; split; [done|by apply no_delivery_preserved]|].
  destruct (send_file_req (resp w)) eqn:Hsf; [do 2 eexists; split; [done|by apply no_delivery_preserved]|].
  destruct (stream_ops (resp w)); [|do 2 eexists; split; [done|by apply no_delivery_preserved]].
  destruct (is_head (resp w)) eqn:Hh; [do 2 eexists; split; [done|apply no_delivery_preserved; [done|cbn; by rewrite Hh]]|].
  assert (exists r', (if streaming (resp w) then resp w else http_compression_maybe_install_stream_wrapper b (start_streaming (resp w))) = r' /\
    inv (set_resp r' w) sent /\ streaming r' = true /\ closed r' = false) as (r' & -> & Hi' & Hs' & Hc').
  { destruct (streaming (resp w)) eqn:Hs; [exists (resp w); split; [done|]; split; [by destruct w|done]|].
    destruct (start_streaming_ok b w sent Hi Hs Hc Hsf) as (r' & E & Hi' & ?). exists r'.
    pose proof (inv_phase _ _ Hi) as Hp. rewrite Hs in Hp. by destruct Hp as [_ ->]. }
  destruct (append_chunk_ok s _ _ Hi' Hs' Hc' Hl) as (w' & E & Hi'' & _). rewrite E. cbn [mbind option_bind].
  do 2 eexists; split; [done|]. cbn. by rewrite Hh.
Qed.

Lemma dec_digits_length fuel n : (length (dec_digits fuel n) <= fuel)%nat.
Proof.
  revert n. induction fuel as [|f IH]; intros n; [done|]. cbn [dec_digits]. case_if; [cbn; lia|].
  rewrite length_app. cbn [length]. specialize (IH (n / 10)). lia.
Qed.

Lemma print_d_length n : (length (print_d n) <= 21)%nat.
Proof.
  unfold print_d, print_u. case_if; [|pose proof (dec_digits_length 20 n); lia].
  cbn [length]. pose proof (dec_digits_length 20 (- n)). lia.
Qed.

Lemma sse_dispatch_ok payload w sent :
  inv w sent -> closed (resp w) = false -> blen payload < 2 ^ 40 ->
  exists w' o, sse_start_and_dispatch payload w = Some (w', o) /\
    inv w' (sent ++ match o with Returns => payload | Throws _ => [] end).
Proof.
  intros Hi Hc Hl. unfold sse_start_and_dispatch. destruct (sse_ensure_started (resp w)) as [r o] eqn:E.
  destruct (sse_ensure_started_ok w sent r o Hi Hc E) as (Hi' & Hc' & Hs'). destruct o as [|e].
  - destruct (append_chunk_ok payload _ _ Hi' (Hs' eq_refl) Hc' Hl) as (w' & E' & Hi'' & _). unfold sse_dispatch. rewrite E'.
    cbn [mbind option_bind]. by do 2 eexists.
  - do 2 eexists; split; [done|]. by rewrite app_nil_r.
Qed.

Lemma sse_preserves c : match c with SseStart | SseEvent _ _ _ _ | SseComment _ | SseRetry _ => True | _ => False end -> preserves c.
Proof.
  intros Hk w sent Hi Hl. destruct c; try done; cbn [exec].
  - unfold sseStart. destruct (streaming (resp w)) eqn:Hs; [do 2 eexists; split; [done|by apply no_delivery_preserved]|].
    destruct (sse_ensure_started (resp w)) as [r o] eqn:E. do 2 eexists; split; [done|].
    replace (delivered _ _ _) with ([] : bytes) by by destruct o. rewrite app_nil_r.
    destruct (closed (resp w)) eqn:Hc; [|by eapply sse_ensure_started_ok].
    unfold sse_ensure_started in E. rewrite Hs, Hc in E. injection E as <- <-. by destruct w.
  - unfold sseEvent. destruct (closed (resp w)) eqn:Hc; [do 2 eexists; split; [done|by apply no_delivery_preserved]|].
    do 4 (case_if; [do 2 eexists; split; [done|by apply no_delivery_preserved]|]).
    destruct (sse_dispatch_ok (sse_payload data event id retry) w sent Hi Hc Hl) as (w' & o & E & Hi').
    destruct data, event, id, retry; try (exists w', o; split; [exact E|]; by destruct o).
    do 2 eexists; split; [done|by apply no_delivery_preserved].
  - unfold sseComment. destruct (closed (resp w)) eqn:Hc; [do 2 eexists; split; [done|by apply no_delivery_preserved]|].
    case_if; [do 2 eexists; split; [done|by apply no_delivery_preserved]|].
    destruct (sse_dispatch_ok _ w sent Hi Hc Hl) as (w' & o & E & Hi'). exists w', o. split; [done|]. by destruct o.
  - unfold sseRetry. destruct (closed (resp w)) eqn:Hc; [do 2 eexists; split; [done|by apply no_delivery_preserved]|].
    case_if; [do 2 eexists; split; [done|by apply no_delivery_preserved]|]. cbn in Hl.
    destruct (sse_dispatch_ok (sse_append_field (lit "retry") (print_d milliseconds) ++ [LF]) w sent Hi Hc) as (w' & o & E & Hi').
    { pose proof (print_d_length milliseconds). unfold blen, sse_append_field. rewrite !length_app.
      change (length (lit "retry")) with 5%nat. cbn [length]. lia. }
    exists w', o. split; [done|]. by destruct o.
Qed.

Lemma end_preserves d : preserves (End d).
Proof.
  intros w sent Hi Hl. cbn [exec]. unfold end_.
  destruct (closed (resp w)) eqn:Hc; [do 2 eexists; split; [done|by apply no_delivery_preserved]|].
  destruct (send_file_req (resp w)) eqn:Hsf; [do 2 eexists; split; [done|by apply no_delivery_preserved]|].
  destruct (streaming (resp w)) eqn:Hs.
  - assert (exists w1, match d with Some ((_ :: _) as s) => '(w, _) ← append_chunk s w; Some w | _ => Some w end = Some w1 /\
      inv w1 (sent ++ default [] d) /\ flags (resp w1) = flags (resp w)) as (w1 & -> & Hi1 & Hf).
    { destruct d as [[|x s]|]; [exists w; by rewrite app_nil_r| |exists w; by rewrite app_nil_r].
      destruct (append_chunk_ok (x :: s) w sent Hi Hs Hc Hl) as (w1 & E & ? & ?). rewrite E. by exists w1. }
    cbn [mbind option_bind]. unfold flags in Hf. injection Hf as E1 E2 _ _ _ _ _.
    destruct (mark_ended_ok w1 _ Hi1 ltac:(congruence) ltac:(congruence)) as (w2 & E & Hi2). rewrite E. cbn [mbind option_bind].
    do 2 eexists; split; [done|]. cbn. rewrite Hs. by destruct d.
  - do 2 eexists; split; [done|]. cbn. rewrite Hs. replace (match d with Some _ => [] | None => [] end) with ([] : bytes) by by destruct d.
    rewrite app_nil_r. apply inv_quiet; [done..| |]; [by destruct d|]. destruct (inv_good _ _ Hi). destruct d; by constructor.
Qed.

Lemma send_file_record_shape p opts r r' o :
  sendFile_record p opts r = (r', o) ->
  (r' = r /\ o = Throws RuntimeException) \/ (streaming r = false /\ o = Returns /\ exists q, r' = set_send_file_req (Some q) r).
Proof.
  unfold sendFile_record. destruct (closed r), (streaming r), (headers_sent r); cbn [orb]; try (intros [= <- <-]; by left).
  destruct (send_file_req r); [intros [= <- <-]; by left|]. destruct p as [|c p]; [intros [= <- <-]; by left|].
  repeat (case_if; [intros [= <- <-]; by left|]). intros [= <- <-]. right. split_and!; [done..|]. by eexists.
Qed.

Lemma send_file_preserves p opts : preserves (SendFile p opts).
Proof.
  intros w sent Hi _. cbn [exec]. unfold sendFile. destruct (sendFile_record p opts (resp w)) as [r o] eqn:E.
  destruct (send_file_record_shape _ _ _ _ _ E) as [(-> & ->)|(Hs & -> & q & ->)].
  - do 2 eexists; split; [done|]. rewrite app_nil_r. by destruct w.
  - do 2 eexists; split; [done|]. rewrite app_nil_r.
    apply (inv_no_compression (set_resp (set_send_file_req (Some q) (resp w)) w)).
    apply inv_quiet; [done..|]. destruct (inv_good _ _ Hi). by constructor.
Qed.

Lemma exec_ok c : preserves c.
Proof.
  destruct c; try (by apply set_calls_preserve); try (by apply trailer_calls_preserve); try (by apply sse_preserves).
  - intros w sent Hi _. do 2 eexists; split; [done|]. rewrite app_nil_r. by apply inv_no_compression.
  - apply send_preserves.
  - apply send_file_preserves.
  - apply end_preserves.
Qed.

(** A handler that is run to its end, with all it asked to have streamed. *)
Fixpoint run_sent (calls : list call) (w : world) (sent : bytes) : option (world * bytes) :=
  match calls with
  | [] => Some (w, sent)
  | c :: rest => '(w', o) ← exec b c w; run_sent rest w' (sent ++ delivered c w o)
  end.

Lemma run_sent_run calls w sent : fst <$> run_sent calls w sent = run b calls w.
Proof.
  revert w sent. induction calls as [|c calls IH]; intros w sent; [done|]. cbn [run_sent run].
  destruct (exec b c w) as [[w' o]|]; [|done]. cbn [mbind option_bind]. apply IH.
Qed.

Lemma run_calls_ok calls w sent : inv w sent -> Forall clean_call calls ->
  exists w' sent', run_sent calls w sent = Some (w', sent') /\ inv w' sent'.
Proof.
  intros Hi Hc. revert w sent Hi. induction Hc as [|c calls Hc _ IH]; intros w sent Hi; [by do 2 eexists|].
  cbn [run_sent]. destruct (exec_ok c w sent Hi Hc) as (w' & o & E & Hi'). rewrite E. cbn [mbind option_bind]. by apply IH.
Qed.

(** ** The state at dispatch *)

Lemma dispatch_inv req version config flags keep alt date :
  mem_byte SP version = false -> clean_value version -> clean_value (default [] alt) ->
  inv (http_connection_dispatch_request req version config flags keep alt date []) [].
Proof.
  intros Hv Hl Ha. assert (mem_byte SP (c_str (c_str version)) = false /\ clean_value (c_str (c_str version))) as Hver.
  { split; [|by apply clean_c_str, clean_c_str]. rewrite mem_byte_false in *. by apply take_while_Forall, take_while_Forall. }
  constructor; [done| |done| |].
  - unfold http_connection_dispatch_request, http_compression_attach. destruct config as [cfg|]; [destruct (compression_enabled cfg); cbn [negb]|];
      (constructor; [apply List.Forall_nil|cbn; lia|apply status_reason_clean|exact Hver|done]).
  - unfold http_connection_dispatch_request, http_compression_attach. destruct config as [cfg|]; [destruct (compression_enabled cfg); cbn [negb]|]; done.
  - unfold http_connection_dispatch_request, http_compression_attach. destruct config as [cfg|]; [destruct (compression_enabled cfg); cbn [negb]|]; cbn;
      (split; [|done]); (split_and!; [done..|]); intros st [= <-]; done.
Qed.
End run.
End Http1Run.
