(* ===== verification/Http1Props.v ===== *)
(** * What a client reads

    The end-to-end theorem on HTTP/1 responses: whatever calls a handler makes, the
    bytes the server writes for it are one response in the sense of HttpClient, with
    the handler's status, headers and body; and the ways in which the conditions of
    that theorem can fail in the code. *)

From S2P Require Import Prelude AcceptEncoding HttpDate HttpResponse ResponseCompress Http1Response HttpClient Http1Wire Http1Inv Http1Run.

Module Http1Props.
Import AcceptEncoding Response Compress Http1 Client Http1Wire Http1Inv Http1Run.

(** ** Header blocks read back *)

Lemma day_name_clean i : clean_value (nth i HttpDate.day_names []).
Proof. do 7 (destruct i as [|i]; [done|]). by destruct i. Qed.

Lemma month_name_clean i : clean_value (nth i HttpDate.month_names []).
Proof. do 12 (destruct i as [|i]; [done|]). by destruct i. Qed.

Lemma digit_not_lf n : (LF =? 48 + n mod 10) = false.
Proof. apply Z.eqb_neq. pose proof (Z.mod_pos_bound n 10 ltac:(lia)). lia. Qed.

Lemma date_clean t : clean_value (HttpDate.http_date_format_imf t).
Proof.
  unfold clean_value, HttpDate.http_date_format_imf. rewrite !mem_byte_app, day_name_clean, month_name_clean.
  unfold HttpDate.put_u8_2digit, HttpDate.put_u16_4digit, mem_byte. cbn [existsb]. by rewrite !digit_not_lf.
Qed.

Lemma date_fields_clean h t : Forall clean_field (date_fields h t).
Proof. unfold date_fields. case_if; [constructor|]. constructor; [|constructor]. split_and!; [done..|apply date_clean]. Qed.

Lemma print_u_clean n : 0 <= n < 10 ^ 20 -> trim is_ows (print_u n) = print_u n /\ mem_byte LF (print_u n) = false.
Proof. intros Hn. destruct (dec_digits_read 20 n Hn ltac:(lia)) as (_ & Hd & _). by apply digits_no_ws. Qed.

Lemma buffered_clean h t n : clean_table h -> 0 <= n < 10 ^ 20 -> Forall clean_field (buffered_fields h t n).
Proof.
  intros Hh Hn. unfold buffered_fields. repeat (apply Forall_app; split); [apply date_fields_clean| |by apply table_fields_clean].
  unfold length_fields. case_if; [constructor|]. constructor; [|constructor]. split_and!; [done..|]. by apply print_u_clean.
Qed.

Lemma streaming_clean h t : clean_table h -> Forall clean_field (streaming_fields h t).
Proof.
  intros Hh. unfold streaming_fields. repeat (apply Forall_app; split); [apply date_fields_clean| |by apply table_fields_clean].
  by repeat constructor.
Qed.

(** No header of the table frames the body. *)
Definition no_framing (h : headers_t) : Prop := Forall (fun e => header_is_framing (fst e) = false) h.

Lemma framing_names n k :
  header_is_framing n = false -> k = lit "content-length" \/ k = lit "transfer-encoding" -> eqb_ci n k = false.
Proof. unfold header_is_framing. intros Hn. apply orb_false_iff in Hn as [? ?]. by intros [-> | ->]. Qed.

Lemma table_framing h skip k :
  (skip = true \/ no_framing h) -> k = lit "content-length" \/ k = lit "transfer-encoding" ->
  field_values k (table_fields h skip) = [].
Proof.
  intros Hs Hk. unfold table_fields. induction h as [|[n v] h IH]; [done|]. cbn [flat_map].
  rewrite field_values_app, IH by (destruct Hs as [|Hs]; [by left|right; by apply Forall_cons_iff in Hs as [_ ?]]).
  rewrite app_nil_r. destruct (skip && header_is_framing n) eqn:E; [done|].
  assert (header_is_framing n = false) as Hf.
  { destruct Hs as [->|Hs]; [done|]. by apply Forall_cons_iff in Hs as [? _]. }
  pose proof (framing_names n k Hf Hk) as En. unfold field_values.
  induction (values_of v) as [|x l IHl]; [done|]. cbn [map List.filter fst]. by rewrite En.
Qed.

Lemma date_framing h t k : k = lit "content-length" \/ k = lit "transfer-encoding" -> field_values k (date_fields h t) = [].
Proof. unfold date_fields. case_if; [done|]. by intros [-> | ->]. Qed.

Lemma no_framing_length h : no_framing h -> ht_exists (lit "content-length") h = false.
Proof.
  intros Hh. unfold ht_exists. destruct (ht_find _ h) as [v|] eqn:E; [|done].
  by pose proof (ht_find_Forall _ _ _ _ Hh E).
Qed.

Section read.
Context {C : Type}.
Implicit Type r : http_response_object C.

Definition client_status r : status_line :=
  {| sl_version := version_of r; sl_status := status_code r; sl_reason := reason_of r |}.

(** The header block of a response with clean parts. *)
Lemma read_block hd r fs out rest :
  100 <= status_code r <= 599 -> clean_value (reason_of r) -> mem_byte SP (version_of r) = false -> clean_value (version_of r) ->
  Forall clean_field fs ->
  read_response hd (render_head (status_of r :: lines fs) ++ out ++ rest) =
    '(body, s) ← read_body hd (status_code r) (map seen fs) (out ++ rest);
    Some ({| c_status := client_status r; c_fields := map seen fs; c_body := body |}, s).
Proof.
  intros Hst Hr Hsp Hv Hfs. unfold read_response.
  assert (Forall clean_line (status_of r :: lines fs)) as Hls.
  { constructor.
    - unfold status_of. split; [done|]. rewrite !mem_byte_app. unfold clean_value in *. rewrite Hv, Hr.
      destruct (digits3 (status_code r) ltac:(lia)) as (_ & Hd & _). by rewrite (proj2 (digits_no_ws _ Hd)).
    - unfold lines. induction Hfs; constructor; [by apply field_line_clean|done]. }
  rewrite read_lines_head; [|done|].
  2: { rewrite !length_app. pose proof (render_head_length (status_of r :: lines fs)). lia. }
  cbn [mbind option_bind]. unfold status_of at 1. rewrite read_status_line by (done || lia). cbn [mbind option_bind].
  unfold lines. rewrite read_fields by done. done.
Qed.

Lemma read_streaming r t ps rest :
  clean_table (headers r) -> 100 <= status_code r <= 599 -> clean_value (reason_of r) ->
  mem_byte SP (version_of r) = false -> clean_value (version_of r) -> bodiless (status_code r) = false -> Forall small ps ->
  read_response false (http_response_format_streaming_headers r t ++ encode_chunks ps ++ last_chunk ++ rest) =
    Some ({| c_status := client_status r; c_fields := map seen (streaming_fields (headers r) t); c_body := concat ps |}, rest).
Proof.
  intros Ht Hst Hr Hsp Hv Hb Hps. rewrite streaming_headers_lines.
  replace (encode_chunks ps ++ last_chunk ++ rest) with ((encode_chunks ps ++ last_chunk) ++ rest) by by rewrite <- app_assoc.
  rewrite read_block by (try done; by apply streaming_clean). unfold read_body. rewrite Hb. cbn [orb].
  rewrite field_values_seen. unfold streaming_fields. rewrite !field_values_app, date_framing, table_framing by auto.
  cbn [app]. change (field_values (lit "transfer-encoding") [(lit "Transfer-Encoding", lit "chunked")]) with [lit "chunked"].
  cbn [map app]. change (eqb_ci (trim is_ows (lit "chunked")) (lit "chunked")) with true. cbn match. rewrite <- app_assoc.
  rewrite read_encoded_chunks; [done| |].
  - eapply Forall_impl; [exact Hps|]. intros p [? ?]. split; [done|]. lia.
  - rewrite !length_app. pose proof (encode_chunks_length ps). cbn. lia.
Qed.

Lemma read_buffered hd r t body rest :
  clean_table (headers r) -> 100 <= status_code r <= 599 -> clean_value (reason_of r) ->
  mem_byte SP (version_of r) = false -> clean_value (version_of r) -> no_framing (headers r) -> blen body < 2 ^ 63 ->
  let out := if hd || bodiless (status_code r) then [] else body in
  read_response hd (emit_headers_block r t (blen body) ++ out ++ rest) =
    Some ({| c_status := client_status r; c_fields := map seen (buffered_fields (headers r) t (blen body)); c_body := out |}, rest).
Proof.
  intros Ht Hst Hr Hsp Hv Hf Hb out. rewrite headers_block_lines.
  assert (0 <= blen body < 10 ^ 20) as Hn by (unfold blen in *; lia).
  rewrite read_block by (try done; by apply buffered_clean). unfold read_body, out.
  destruct (hd || bodiless (status_code r)); [done|]. rewrite !field_values_seen.
  unfold buffered_fields, length_fields. rewrite (no_framing_length _ Hf), !field_values_app, !date_framing, !table_framing by auto.
  change (field_values (lit "transfer-encoding") [(lit "Content-Length", print_u (blen body))]) with ([] : list bytes).
  change (field_values (lit "content-length") [(lit "Content-Length", print_u (blen body))]) with [print_u (blen body)].
  cbn [map app]. rewrite (proj1 (print_u_clean _ Hn)), print_u_read by done. cbn [mbind option_bind].
  rewrite (proj2 (Z.ltb_ge _ _)) by (unfold blen; rewrite length_app; lia).
  unfold blen. by rewrite Nat2Z.id, take_app_length, drop_app_length.
Qed.
End read.


Section delivery.
Context `{Encoder} {Laws : EncoderLaws} {Reliable : EncoderReliable}.
Variable b : build.

Abbreviation response := (http_response_object http_compression_state_t).
Abbreviation world := h1_world.
Implicit Type r : response.

(** ** Buffered compression *)

(** [body] is [plain], or its encoding with the coding named by the headers. *)
Definition represents (h : headers_t) (body plain : bytes) : Prop :=
  body = plain \/
  exists c tok, http_compression_codec_token c = Some tok /\ coding h = Some (HStr tok) /\ decode c body = Some plain.

(** The response after the compression hook. *)
Definition compressed (r r' : response) : Prop :=
  status_code r' = status_code r /\ reason_phrase r' = reason_phrase r /\ protocol_version r' = protocol_version r /\
  body_view r' = body_view r /\ is_head r' = is_head r /\
  ((headers r' = headers r /\ body r' = body r) \/
   exists c out, headers r' = mutate_headers_for_codec (headers r) c /\ body r' = Some out /\
     http_compression_codec_token c <> None /\ decode c out = Some (default [] (body r))).

Lemma apply_streaming_ok c level s r :
  http_compression_codec_token c <> None -> default [] (body r) = s ->
  exists r', apply_streaming c level s r = Some r' /\ compressed r r'.
Proof.
  intros Hc Hs. unfold apply_streaming. destruct (http_compression_pool_acquire c level) as [enc|] eqn:Ea.
  2: { exists r. split; [done|]. split_and!; [done..|]. by left. }
  apply acquire_law in Ea. set (a := smart_str_alloc_new _).
  assert (0 <= a) as Ha.
  { subst a. pose proof (alloc_new_bound (blen s + Z.shiftr (blen s) 10 + 64)) as Hb.
    assert (0 <= Z.shiftr (blen s) 10) by (apply Z.shiftr_nonneg; unfold blen; lia). unfold blen in *. lia. }
  destruct (drain_write_ok c (write_calls enc s) enc s a [] [] []) as (e1 & a1 & out & -> & Hst & Hb & _); [done|by cbn|by right|].
  cbn [mbind option_bind]. cbn [app] in Hst.
  destruct (drain_finish_ok c (finish_calls e1) e1 a1 s [] out) as (e2 & out2 & -> & Hd & _); [by apply state_final|done|done|].
  cbn [mbind option_bind]. eexists; split; [done|]. split_and!; [done..|]. right. exists c, out2. by rewrite Hs.
Qed.

Lemma apply_buffered_ok r : exists r', http_compression_apply_buffered b r = Some r' /\ compressed r r'.
Proof.
  assert (forall r1, status_code r1 = status_code r /\ reason_phrase r1 = reason_phrase r /\ protocol_version r1 = protocol_version r /\
    body_view r1 = body_view r /\ is_head r1 = is_head r /\ headers r1 = headers r /\ body r1 = body r -> compressed r r1) as Hid.
  { intros r1 (? & ? & ? & ? & ? & ? & ?). split_and!; [done..|by left]. }
  unfold http_compression_apply_buffered. destruct (compression_state r) as [st|]; [|exists r; split; [done|by apply Hid]].
  case_if; [exists r; split; [done|by apply Hid]|].
  set (s := default [] (body r)). set (r1 := mark_applied st r).
  assert (forall c, http_compression_codec_token c <> None -> forall level, exists r', apply_streaming c level s r1 = Some r' /\ compressed r r') as Hstr.
  { intros c Hc level. destruct (apply_streaming_ok c level s r1 Hc eq_refl) as (r' & E & Hr'). by exists r'. }
  assert (forall c out, http_compression_codec_token c <> None -> decode c out = Some s -> compressed r (swap_body c out r1)) as Hswap.
  { intros c out Hc Hd. split_and!; [done..|]. right. by exists c, out. }
  assert (exists r', Some r1 = Some r' /\ compressed r r') as Hsame by (eexists; split; [done|by apply Hid]).
  pose proof (decide_codec_token b (Some st) r (blen s)) as Htok. destruct (decide_codec b (Some st) r (blen s)); [done|..|done];
    (destruct s as [|x s'] eqn:Es; [done|]); (destruct (st_cfg st) as [cfg|]; [|done]); rewrite <- Es in *;
    (destruct (if http_compression_lookup b _ then _ else _) as [oneshot|] eqn:Eo; [|by apply Hstr]);
    (destruct (oneshot _ _ _) as [out|] eqn:Eout; [|by apply Hstr]);
    (eexists; split; [done|]); (apply Hswap; [done|]); (case_if_in Eo; [|done]); by eapply oneshot_law.
Qed.


(** ** The end of a request *)

Lemma body_len_spec r : body_view r = None -> http_response_get_body_len r = blen (getBody r).
Proof. intros Hv. unfold http_response_get_body_len, getBody. rewrite Hv. by destruct (body r). Qed.

Lemma compressed_represents r r' :
  body_view r = None -> compressed r r' -> represents (headers r') (getBody r') (getBody r).
Proof.
  intros Hv (_ & _ & _ & Hv' & _ & Hb). unfold getBody, represents. rewrite Hv', Hv. destruct Hb as [[-> ->]|(c & out & -> & -> & Hc & Hd)]; [by left|].
  right. exists c, (default [] (http_compression_codec_token c)). cbn [default]. split_and!; [by destruct (http_compression_codec_token c)| |done].
  apply coding_mutate.
Qed.

Lemma compressed_good r r' : good r -> compressed r r' -> good r'.
Proof.
  intros [Ht Hs Hr Hv Hbv] (E1 & E2 & E3 & E4 & _ & Hb). constructor.
  - destruct Hb as [[-> _]|(c & out & -> & _)]; [done|by apply clean_mutate].
  - by rewrite E1.
  - unfold reason_of in *. by rewrite E1, E2.
  - unfold version_of in *. by rewrite E3.
  - by rewrite E4.
Qed.

Lemma flush_ok tls w :
  io w = [] -> wire w = [] -> good (resp w) -> is_head (resp w) = http_request_method_is_head (Some (request w)) ->
  exists w', h1_flush b tls w = Some (w', true) /\ compressed (resp w) (resp w') /\ keep_alive w' = keep_alive w /\
    wire w' = emit_headers_block (resp w') (now w) (blen (getBody (resp w'))) ++ (if is_head (resp w) then [] else getBody (resp w')).
Proof.
  intros Hio Hw Hg Hh. unfold h1_flush. unfold http_request_method_is_head in Hh. rewrite <- Hh.
  destruct (apply_buffered_ok (resp w)) as (r' & E & Hr'). pose proof (compressed_good _ _ Hg Hr') as Hg'.
  pose proof (good_view _ Hg') as Hv'. pose proof (body_len_spec r' Hv') as Hlen.
  assert (http_response_format b (now w) (resp w) =
    Some (r', emit_headers_block r' (now w) (blen (getBody r')) ++ getBody r')) as Ef.
  { unfold http_response_format. rewrite E. cbn [mbind option_bind]. rewrite Hlen. unfold getBody. rewrite Hv'. by destruct (body r'). }
  assert (exists o, default [] o = getBody r' /\ http_response_format_parts b (now w) (resp w) =
    Some (r', emit_headers_block r' (now w) (blen (getBody r')), o)) as (o & Eo & Ep).
  { unfold http_response_format_parts. rewrite E. cbn [mbind option_bind]. rewrite Hlen. unfold getBody. rewrite Hv'.
    destruct (body r') as [[|x s]|]; (eexists; split; [|reflexivity]; done). }
  assert (emit_headers_block r' (now w) (blen (getBody r')) <> []) as Hne.
  { rewrite headers_block_lines, render_head_cons. intros En. apply (f_equal length) in En. rewrite !length_app in En. cbn in En. lia. }
  destruct (is_head (resp w)).
  - rewrite Ep. cbn [mbind option_bind]. destruct (emit_headers_block _ _ _) as [|x hs] eqn:Eh; [done|].
    rewrite send_ok by done. eexists; split; [done|]. cbn. by rewrite Hw, Eh, app_nil_r.
  - case_if.
    + rewrite Ef. cbn [mbind option_bind]. rewrite send_ok by done. eexists; split; [done|]. cbn. by rewrite Hw.
    + rewrite Ep. cbn [mbind option_bind]. rewrite send_ok by done. eexists; split; [done|]. cbn. by rewrite Hw, Eo.
Qed.

(** The body a client should get of a response that is not streamed. *)
Definition intended (e : handler_end) (refusal : option bytes) (w : world) : bytes :=
  let r := derive_error e (resp w) in
  match send_file_req r, c_str (default [] refusal) with
  | Some _, (_ :: _) as m => m
  | _, _ => getBody r
  end.

Definition clean_end (e : handler_end) : Prop :=
  match e with Exception code message => clean_value (exception_reason code message) | _ => True end.

Lemma good_derive_error e r : good r -> clean_end e -> good (derive_error e r).
Proof.
  intros Hg He. unfold derive_error. destruct (committed r); [done|].
  assert (forall code m, 100 <= code <= 599 -> clean_value m -> good (http_response_reset_to_error code m r)) as Hgen.
  { intros code m Hc Hm. destruct Hg as [? ? ? ? ?]. set (r' := http_response_reset_to_error code m r).
    assert (headers r' = [] /\ status_code r' = code /\ reason_phrase r' = Some (c_str m) /\
      protocol_version r' = protocol_version r /\ body_view r' = None) as (E1 & E2 & E3 & E4 & E5).
    { subst r'. unfold http_response_reset_to_error, response_set_body_bytes. by destruct (c_str m). }
    constructor; [rewrite E1; apply List.Forall_nil|by rewrite E2| |unfold version_of in *; by rewrite E4|done].
    unfold reason_of. rewrite E3. by apply clean_c_str, clean_c_str. }
  destruct e; [done|by apply Hgen|]. apply Hgen; [|done]. unfold exception_status. case_if; b2p; lia.
Qed.

Lemma derive_error_streaming e w sent : inv w sent -> streaming (resp w) = true -> derive_error e (resp w) = resp w.
Proof. intros Hi Hs. pose proof (inv_phase _ _ Hi) as Hp. rewrite Hs in Hp. destruct Hp as [Hc _]. unfold derive_error. by rewrite Hc. Qed.

(** What dispose does before it sends: header changes only. *)
Lemma dispose_headers_ok (drain : bool) w : good (resp w) -> clean_value (default [] (alt_svc w)) ->
  exists r k, (let w := inject_alt_svc w in
     if drain then set_keep_alive false (set_resp (http_response_force_connection_close (resp w)) w)
     else if keep_alive w then w else set_resp (http_response_force_connection_close (resp w)) w) = set_keep_alive k (set_resp r w) /\
    good r /\ exists h, r = set_headers h (resp w).
Proof.
  intros Hg Ha. destruct (inject_alt_svc_ok w Hg Ha) as (r & -> & Hr). pose proof (good_rehead _ _ Hg Hr) as Hg1.
  destruct Hr as (h & -> & Hh & _). cbn zeta.
  assert (good (http_response_force_connection_close (set_headers h (resp w)))) as Hg2.
  { apply good_headers; [done|]. apply clean_update; [done..|]. by repeat constructor. }
  destruct drain; [|destruct (keep_alive w) eqn:Ek].
  - exists (http_response_force_connection_close (set_headers h (resp w))), false. split; [done|]. split; [done|by eexists].
  - exists (set_headers h (resp w)), true. split; [destruct w; cbn in *; by rewrite Ek|]. split; [done|by eexists].
  - exists (http_response_force_connection_close (set_headers h (resp w))), false. split; [destruct w; cbn in *; by rewrite Ek|]. split; [done|by eexists].
Qed.


(** A streamed response is complete on the wire when the handler ended it, or when
    it streams without an encoder and has sent something. *)
Definition completes (w : world) : Prop :=
  closed (resp w) = true \/ (stream_ops (resp w) = Some h1_stream_ops /\ h1_stream_headers_sent w = true).

Lemma streamed_read w sent :
  inv w sent -> streaming (resp w) = true -> completes w -> bodiless (status_code (resp w)) = false ->
  exists body, represents (headers (resp w)) body sent /\ (stream_ops (resp w) = Some h1_stream_ops -> body = sent) /\
    forall rest, read_response false ((wire w ++ if closed (resp w) then [] else last_chunk) ++ rest) =
      Some ({| c_status := client_status (resp w); c_fields := map seen (streaming_fields (headers (resp w)) (now w)); c_body := body |}, rest).
Proof.
  intros Hi Hs Hcomp Hb. pose proof (inv_phase _ _ Hi) as Hp. rewrite Hs in Hp.
  destruct Hp as (_ & _ & ps & Hps & Hw & Hcl & Hca). destruct (inv_good _ _ Hi) as [Ht Hst Hr [Hsp Hv] _]. exists (concat ps).
  split; [|split].
  - unfold carries in Hca. destruct (stream_ops (resp w)) as [[]|] eqn:Eo; [by left| |done].
    destruct Hca as (st & ws & _ & _ & Htok & Hf & Hcod & Hdec). destruct Hcomp as [Hc|[? _]]; [|congruence]. rewrite Hc in Hdec.
    destruct Hdec as [Hdec Hsent]. right. exists (w_codec ws), (default [] (http_compression_codec_token (w_codec ws))).
    split_and!; [by destruct (http_compression_codec_token (w_codec ws))|by apply Hcod, Hf|done].
  - intros Eo. unfold carries in Hca. by rewrite Eo in Hca.
  - intros rest. assert (h1_stream_headers_sent w = true) as Hsent by (destruct Hcomp as [Hc|[_ ?]]; [by apply Hcl|done]).
    unfold on_wire in Hw. rewrite Hsent in Hw. rewrite Hw, <- read_streaming by done. f_equal.
    destruct (closed (resp w)); rewrite ?app_nil_r, <- !app_assoc; done.
Qed.

(** The 500 left by the file engine. *)
Lemma synth_error_ok r refusal : good r ->
  exists r', http_response_synth_error 500 refusal r = r' /\ good r' /\ streaming r' = streaming r /\ is_head r' = is_head r /\
    getBody r' = match c_str (default [] refusal) with [] => getBody r | m => m end.
Proof.
  intros Hg. eexists; split; [done|]. unfold http_response_synth_error, http_response_emit_status_body.
  set (r1 := http_response_static_set_header _ _ _).
  assert (good r1 /\ streaming r1 = streaming r /\ is_head r1 = is_head r /\ getBody r1 = getBody r) as (Hg1 & E1 & E2 & E3).
  { split_and!; [|done..]. apply good_headers; [by apply good_status_code; [|lia]|].
    apply clean_update; [apply Hg|done|by repeat constructor]. }
  destruct refusal as [m|]; cbn [fmap option_fmap option_map default from_option id]; [|by split_and!].
  destruct (c_str m) as [|x s]; [by split_and!|]. destruct Hg1 as [? ? ? ? ?]. split_and!; [by constructor|done..].
Qed.

(** Up to the sending of the response, disposing changes no more than headers, or
    replaces the response by one for the error. *)
Lemma dispose_shape e drain tls refusal w sent :
  inv w sent -> clean_end e ->
  (send_file_req (resp w) <> None /\ exists w' q, http_handler_coroutine_dispose b e drain tls refusal w = Some (w', HandedToSendFile q)) \/
  exists r k, good r /\ streaming r = streaming (resp w) /\ is_head r = is_head (resp w) /\ getBody r = intended e refusal w /\
    (streaming (resp w) = true -> closed r = closed (resp w)) /\
    let w3 := set_keep_alive k (set_resp r w) in
    http_handler_coroutine_dispose b e drain tls refusal w =
      if streaming r then Some (if closed r then w3 else fst (http_connection_send last_chunk w3), Flushed k)
      else '(w', ok) ← h1_flush b tls w3; Some (w', Flushed ((ok : bool) && keep_alive w')).
Proof.
  intros Hi He. pose proof (good_derive_error e _ (inv_good _ _ Hi) He) as Hg0.
  unfold http_handler_coroutine_dispose, intended. pose proof (derive_error_streaming e w sent Hi) as Hds.
  assert (streaming (derive_error e (resp w)) = streaming (resp w) /\ is_head (derive_error e (resp w)) = is_head (resp w) /\
    send_file_req (derive_error e (resp w)) = send_file_req (resp w)) as (Es0 & Eh0 & Ef0).
  { unfold derive_error, http_response_reset_to_error, response_set_body_bytes.
    destruct (committed (resp w)), e as [| |code message]; try done. by destruct (c_str (exception_reason code message)). }
  set (r0 := derive_error e (resp w)) in *.
  assert (exists c, (if committed r0 then r0 else set_committed true r0) = set_committed c r0) as (c & ->).
  { destruct (committed r0) eqn:Ec; [exists true; by destruct r0; cbn in *; subst|by eexists]. }
  assert (good (set_committed c r0)) as Hg1 by (destruct Hg0; by constructor).
  destruct (dispose_headers_ok drain (set_resp (set_committed c r0) w) Hg1 (inv_alt _ _ Hi)) as (r2 & k & Ed & Hg2 & h & Eh).
  cbn zeta in Ed. rewrite Ed. cbn [resp set_resp set_keep_alive http_response_take_send_file] in *.
  assert (good (set_send_file_req None r2)) as Hg3 by (destruct Hg2; by constructor).
  assert (send_file_req r2 = send_file_req r0) as -> by by rewrite Eh.
  assert (streaming r2 = streaming r0 /\ is_head r2 = is_head r0 /\ closed r2 = closed r0 /\ getBody r2 = getBody r0) as (E1 & E2 & E3 & E4) by by subst r2.
  assert (streaming (resp w) = true -> closed r2 = closed (resp w)) as Hcl by (intros Hs; rewrite E3; by rewrite Hds).
  destruct (send_file_req r0) as [q|] eqn:Esf.
  - destruct refusal as [m|]; [right|left; split; [congruence|by do 2 eexists]].
    destruct (synth_error_ok _ (Some m) Hg3) as (r3 & E & Hgr & F1 & F2 & F3). exists r3, k. rewrite E.
    change (streaming (set_send_file_req None r2)) with (streaming r2) in F1. change (is_head (set_send_file_req None r2)) with (is_head r2) in F2.
    change (getBody (set_send_file_req None r2)) with (getBody r2) in F3. cbn [default from_option id] in *.
    split_and!; [done|congruence|congruence| | |].
    + rewrite F3. destruct (c_str m); [congruence|done].
    + intros Hs. pose proof (inv_phase _ _ Hi) as Hp. rewrite Hs in Hp. destruct Hp as (_ & Hsf & _). rewrite (Hds Hs) in Esf. congruence.
    + cbn zeta. cbn [resp set_resp]. destruct (streaming r3); [|done]. destruct (closed r3); [done|]. by rewrite !send_ok by apply Hi.
  - right. exists (set_send_file_req None r2), k. split_and!; [done|cbn; congruence|cbn; congruence|exact E4|exact Hcl|].
    cbn zeta. cbn [resp set_resp streaming closed set_send_file_req].
    destruct refusal, (streaming r2); try done; (destruct (closed r2); [done|]); by rewrite !send_ok by apply Hi.
Qed.


End delivery.


(** ** An encoder

    The coding that changes nothing, by an encoder that holds one byte back until the
    next call. *)
Module Held.

Definition keep_last (pend : option Z) (chunk : bytes) : option Z * bytes :=
  match chunk with
  | [] => (pend, [])
  | _ => (last chunk, option_list pend ++ removelast chunk)
  end.

Definition held_write (pend : option Z) (inp : bytes) (cap : Z) : option Z * nat * bytes * http_encoder_status_t :=
  let chunk := take (Z.to_nat cap) inp in
  let '(pend, out) := keep_last pend chunk in
  (pend, length chunk, out, HTTP_ENC_OK).

Definition held_finish (pend : option Z) (cap : Z) : option Z * bytes * http_encoder_status_t :=
  (None, option_list pend, HTTP_ENC_DONE).

#[export] Instance held_encoder : Encoder := {
  http_encoder_t := option Z;
  http_compression_pool_acquire := fun _ _ => Some None;
  vt_write := held_write;
  vt_finish := held_finish;
  compress_oneshot := fun _ => None;
  max_compressed_size := fun _ => None;
  write_calls := fun _ inp => length inp;
  finish_calls := fun _ => 1%nat;
}.

Lemma held_write_law (c : http_codec_id_t) e i o inp cap e' n out st :
  i = o ++ option_list e -> inp <> [] -> WRITE_ROOM <= cap -> held_write e inp cap = (e', n, out, st) ->
  i ++ take n inp = (o ++ out) ++ option_list e' /\ (n <= length inp)%nat /\ Z.of_nat (length out) <= cap /\
  (drop n inp <> [] -> (length (drop n inp) < length inp)%nat).
Proof.
  intros -> Hne Hcap. unfold WRITE_ROOM in Hcap. unfold held_write, keep_last.
  destruct (take (Z.to_nat cap) inp) as [|x l] eqn:Et.
  { destruct inp; [done|]. destruct (Z.to_nat cap) eqn:En; [lia|done]. }
  assert (exists s c0, x :: l = s ++ [c0]) as (s & c0 & E) by (destruct (exists_last (l := x :: l) ltac:(done)) as (s & c0 & ->); by exists s, c0).
  rewrite E in *. rewrite last_snoc, removelast_last. intros [= <- <- <- <-]. cbn [option_list].
  assert (take (length (s ++ [c0])) inp = s ++ [c0] /\ (length (s ++ [c0]) <= length inp)%nat /\ (length (s ++ [c0]) <= Z.to_nat cap)%nat) as (E1 & E2 & E3).
  { rewrite <- Et, length_take. split_and!; [|lia|lia].
    destruct (Nat.le_ge_cases (Z.to_nat cap) (length inp)); [by rewrite Nat.min_l|]. by rewrite Nat.min_r, !take_ge by lia. }
  rewrite E1. split_and!; [by rewrite <- !app_assoc|done| |].
  - rewrite length_app in *. cbn [length] in E3. destruct e; cbn; lia.
  - intros _. rewrite length_drop, length_app. rewrite length_app in E2. cbn [length] in *. lia.
Qed.

#[export] Instance held_laws : EncoderLaws.
Proof.
  refine {| decode := fun _ s => Some s; enc_state := fun _ e i o => i = o ++ option_list e;
            enc_final := fun _ e i o => i = o ++ option_list e |}.
  - by intros c l e [= <-].
  - done.
  - intros. by eapply held_write_law.
  - intros c e i o inp _ Hne. destruct inp; [done|cbn; lia].
  - intros c e i o cap e' out st -> Hcap [= <- <- <-]. unfold FINISH_ROOM in Hcap. split; [destruct e; cbn; lia|done].
  - intros. cbn. lia.
  - intros. cbn. lia.
  - intros. cbn. lia.
  - done.
Defined.

#[export] Instance held_reliable : EncoderReliable.
Proof.
  constructor.
  - intros e inp cap. cbn. unfold held_write, keep_last. by destruct (take (Z.to_nat cap) inp).
  - intros e cap. by left.
Qed.

Definition get : http_request_t := {| rq_method := Some (lit "GET"); rq_headers := Some {[ lit "accept-encoding" := ZString (lit "gzip") ]} |}.
Definition head : http_request_t := {| rq_method := Some (lit "HEAD"); rq_headers := None |}.
Definition all_codecs : build := {| HAVE_HTTP_COMPRESSION := true; HAVE_HTTP_BROTLI := true; HAVE_HTTP_ZSTD := true |}.
Definition gzip_config : http_server_config_t :=
  {| compression_enabled := true; compression_level := 6; brotli_level := 4; zstd_level := 3; compression_min_size := 0;
     compression_mime_types := Some [lit "text/plain"] |}.
Definition noon : HttpDate.tm :=
  {| HttpDate.tm_sec := 0; HttpDate.tm_min := 0; HttpDate.tm_hour := 12; HttpDate.tm_mday := 6; HttpDate.tm_mon := 10;
     HttpDate.tm_year := 94; HttpDate.tm_wday := 0 |}.

(** A request with what the handler does and how it ends. *)
Definition serve (req : http_request_t) (config : option http_server_config_t) (calls : list call) (e : handler_end) : option (bytes * disposed) :=
  w ← run all_codecs calls (http_connection_dispatch_request req (lit "1.1") config 0 true None noon []);
  '(w', d) ← http_handler_coroutine_dispose all_codecs e false false None w;
  Some (wire w', d).

Definition text_plain : call := SetHeader (lit "Content-Type") (HStr (lit "text/plain")).
End Held.


Import Held.


(** a compressed stream that the handler does not end is cut off.  When the
    handler returns without calling [end], the connection writes the last chunk itself
    and never asks the encoder for what it holds back: the client reads a complete
    response, but its body lacks the end. *)
Theorem h1_unended_stream_truncated :
  exists w r, serve get (Some gzip_config) [text_plain; Send (lit "hello "); Send (lit "world")] Finished = Some (w, Flushed true) /\
    read_response false w = Some (r, []) /\
    In (lit "content-encoding", lit "gzip") (c_fields r) /\ decode HTTP_CODEC_GZIP (c_body r) = Some (lit "hello worl").
Proof. do 2 eexists. split; [vm_compute; reflexivity|]. split; [vm_compute; reflexivity|]. vm_compute. split_and!; auto 10. Qed.


(** A handler that switches to server-sent events and returns leaves a last chunk
    without a header block. *)
Theorem h1_events_without_headers :
  serve get None [SseStart] Finished = Some (last_chunk, Flushed true) /\ read_response false last_chunk = None.
Proof. by vm_compute. Qed.

(** Events are written as the answer to HEAD; a client takes them for the next
    response. *)
Theorem h1_head_events :
  exists w r, serve head None [SseEvent (Some (lit "x")) None None None] Finished = Some (w, Flushed true) /\
    read_response true w = Some (r, encode_chunk (lit "data: x" ++ [LF; LF]) ++ last_chunk).
Proof. do 2 eexists. split; vm_compute; reflexivity. Qed.

(** A line break in a header value adds a field, one in front of an empty line ends
    the header block. *)
Theorem h1_header_injection :
  exists w r, serve get None [SetHeader (lit "x") (HStr (lit "1" ++ crlf ++ lit "Set-Cookie: a=b"))] Finished = Some (w, Flushed true) /\
    read_response false w = Some (r, []) /\ In (lit "Set-Cookie", lit "a=b") (c_fields r).
Proof. do 2 eexists. split; [vm_compute; reflexivity|]. split; [vm_compute; reflexivity|]. vm_compute. auto. Qed.

(** A streamed response whose handler throws is ended like a complete one. *)
Theorem h1_exception_ends_stream :
  serve get None [Send (lit "a")] (Exception None (Some (lit "bad"))) = serve get None [Send (lit "a"); End None] Finished.
Proof. by vm_compute. Qed.
End Http1Props.
