(* ===== verification/Sse.v ===== *)
(** * Server-sent events read back

    What the methods of src/src/http_sse.c write is what an event source of the HTML
    standard reads: the framing alone, and over an HTTP/1 response. *)

From S2P Require Import Prelude AcceptEncoding HttpDate HttpResponse ResponseCompress Http1Response HttpClient Http1Wire Http1Inv Http1Run Http1Props.

Module Sse.
Import AcceptEncoding Response Compress Http1 Client Http1Wire Http1Inv Http1Run Http1Props.

(** ** Lines *)

Definition plain (l : bytes) : Prop := Forall (fun c => not_newline c = true) l.

Lemma event_lines_plain l cur s : plain l -> event_lines cur (l ++ LF :: s) = (cur ++ l) :: event_lines [] s.
Proof.
  intros Hl. revert cur. induction Hl as [|c l Hc _ IH]; intros cur; cbn [app event_lines].
  - by rewrite app_nil_r.
  - unfold not_newline, is_newline in Hc. apply negb_true_iff, orb_false_iff in Hc as [-> ->].
    by rewrite IH, <- app_assoc.
Qed.

(** The lines of a text by any of the three line ends, the last one included. *)
Fixpoint text_lines (cur s : bytes) : list bytes :=
  match s with
  | [] => [cur]
  | c :: r =>
      if c =? LF then cur :: text_lines [] r
      else if c =? CR then cur :: text_lines [] (match r with d :: r' => if d =? LF then r' else r | [] => r end)
      else text_lines (cur ++ [c]) r
  end.

(** The text with every line end turned into LF. *)
Definition normalize (s : bytes) : bytes := join_with [LF] (text_lines [] s).

Lemma text_lines_plain l cur s : plain l -> text_lines cur (l ++ s) = text_lines (cur ++ l) s.
Proof.
  intros Hl. revert cur. induction Hl as [|c l Hc _ IH]; intros cur; cbn [app text_lines]; [by rewrite app_nil_r|].
  unfold not_newline, is_newline in Hc. apply negb_true_iff, orb_false_iff in Hc as [-> ->]. by rewrite IH, <- app_assoc.
Qed.

Lemma text_lines_all_plain n s cur : (length s <= n)%nat -> plain cur -> Forall plain (text_lines cur s).
Proof.
  revert s cur. induction n as [|n IH]; intros [|c s] cur Hn Hc; cbn [length] in Hn; try lia; cbn [text_lines]; try (by constructor).
  destruct (c =? LF) eqn:E1; [constructor; [done|apply IH; [lia|constructor]]|].
  destruct (c =? CR) eqn:E2.
  - constructor; [done|]. destruct s as [|d s]; [apply IH; [cbn; lia|constructor]|]. cbn [length] in Hn.
    case_if; apply IH; (cbn [length]; lia) || constructor.
  - apply IH; [lia|]. apply Forall_app; split; [done|]. constructor; [|constructor].
    unfold not_newline, is_newline. by rewrite E1, E2.
Qed.

(** The loop of [sse_append_data] writes one line per line of the text. *)
Lemma append_data_lines fuel p : (length p < fuel)%nat -> sse_append_data fuel p = concat (map data_line (text_lines [] p)).
Proof.
  revert p. induction fuel as [|f IH]; intros p Hf; [lia|]. cbn [sse_append_data].
  pose proof (take_drop_while not_newline p) as Ep. pose proof (take_while_all not_newline p) as Hpl.
  assert (text_lines [] p = text_lines (take_while not_newline p) (drop_while not_newline p)) as ->.
  { rewrite <- Ep at 1. by rewrite text_lines_plain. }
  set (l := take_while not_newline p) in *. destruct (drop_while not_newline p) as [|c rest] eqn:Ed.
  - cbn. by rewrite !app_nil_r.
  - apply drop_while_head in Ed as Hc.
    assert (length rest < f)%nat as Hlen.
    { rewrite <- Ep, length_app in Hf. cbn [length] in Hf. lia. }
    set (p' := match rest with d :: rest' => if (c =? CR) && (d =? LF) then rest' else rest | [] => rest end).
    assert (text_lines l (c :: rest) = l :: text_lines [] p') as ->.
    { cbn [text_lines]. subst p'. unfold not_newline, is_newline in Hc. apply negb_false_iff in Hc.
      destruct (c =? LF) eqn:E1.
      - assert ((c =? CR) = false) as -> by (apply Z.eqb_neq; apply Z.eqb_eq in E1; lia). by destruct rest.
      - cbn [orb] in Hc. rewrite Hc. destruct rest as [|d rest]; [done|]. by cbn [andb]. }
    cbn [map concat]. f_equal. destruct p' as [|x p''] eqn:Ep'; [done|]. apply IH.
    assert (length p' <= length rest)%nat as Hle.
    { subst p'. destruct rest as [|d rest']; [done|]. case_if; cbn; lia. }
    rewrite Ep' in Hle. lia.
Qed.

(** ** Reading one payload *)

Lemma es_run_app s a c : es_run s (a ++ c) = let '(s1, e1) := es_run s a in let '(s2, e2) := es_run s1 c in (s2, e1 ++ e2).
Proof.
  revert s. induction a as [|l a IH]; intros s; cbn [app es_run]; [by destruct (es_run s c)|].
  destruct (es_line s l) as [s1 e1]. rewrite IH. destruct (es_run s1 a) as [s2 e2]. destruct (es_run s2 c) as [s3 e3]. by rewrite app_assoc.
Qed.

Lemma es_line_field s name value :
  name <> [] -> mem_byte COLON name = false ->
  es_line s (name ++ [COLON; SP] ++ value) = (es_field name value s, []).
Proof.
  intros Hne Hc. unfold es_line. destruct name as [|c name]; [done|]. cbn [app].
  assert ((c =? COLON) = false) as ->. { cbn in Hc. apply orb_false_iff in Hc as [Hc _]. by rewrite Z.eqb_sym. }
  change (c :: name ++ COLON :: SP :: value) with ((c :: name) ++ COLON :: SP :: value).
  apply mem_byte_false in Hc. rewrite drop_while_app, take_while_app by done. done.
Qed.

Definition add_data (s : event_source) (d : bytes) : event_source :=
  {| es_data := es_data s ++ d; es_type := es_type s; es_id := es_id s; es_retry := es_retry s |}.

Lemma es_run_data ls s :
  es_run s (map (fun l => lit "data" ++ [COLON; SP] ++ l) ls) = (add_data s (concat (map (fun l => l ++ [LF]) ls)), []).
Proof.
  revert s. induction ls as [|l ls IH]; intros s; cbn [map es_run concat].
  - unfold add_data. rewrite app_nil_r. by destruct s.
  - rewrite es_line_field by done. change (es_field (lit "data") l s) with (add_data s (l ++ [LF])). rewrite IH. cbn [app].
    unfold add_data. cbn [es_data es_type es_id es_retry]. by rewrite <- !app_assoc.
Qed.

Lemma lines_join ls : ls <> [] -> concat (map (fun l : bytes => l ++ [LF]) ls) = join_with [LF] ls ++ [LF].
Proof.
  induction ls as [|l ls IH]; [done|]. intros _. cbn [map concat join_with]. destruct ls as [|l' ls]; [cbn; by rewrite app_nil_r|].
  rewrite IH by done. by rewrite <- !app_assoc.
Qed.

Lemma text_lines_ne n s cur : (length s <= n)%nat -> text_lines cur s <> [].
Proof.
  revert s cur. induction n as [|n IH]; intros [|c s] cur Hn; cbn [length] in Hn; try lia; cbn [text_lines]; try done.
  destruct (c =? LF); [done|]. destruct (c =? CR); [done|]. apply IH. lia.
Qed.

Lemma data_lines_read s rest :
  event_lines [] (sse_append_data (S (length s)) s ++ rest) =
    map (fun l => lit "data" ++ [COLON; SP] ++ l) (text_lines [] s) ++ event_lines [] rest.
Proof.
  rewrite append_data_lines by lia. pose proof (text_lines_all_plain _ s [] (Nat.le_refl _) (List.Forall_nil _)) as Hp.
  induction Hp as [|l ls Hl _ IH]; [done|]. cbn [map concat app].
  change (data_line l) with ((lit "data: " ++ l) ++ [LF]). rewrite <- !app_assoc.
  replace (lit "data: " ++ l ++ [LF] ++ concat (map data_line ls) ++ rest)
    with ((lit "data: " ++ l) ++ LF :: (concat (map data_line ls) ++ rest)) by by rewrite <- app_assoc.
  rewrite event_lines_plain; [by rewrite IH|]. apply Forall_app; split; [by repeat constructor|done].
Qed.


Lemma has_newline_plain s : sse_has_newline (Some s) = false -> plain s.
Proof.
  cbn. intros Hs. apply List.Forall_forall. intros c Hc. unfold not_newline. apply negb_true_iff.
  destruct (is_newline c) eqn:E; [|done]. assert (existsb is_newline s = true) by (apply existsb_exists; by exists c). congruence.
Qed.

Lemma field_line_read name value rest : plain name -> plain value ->
  event_lines [] (sse_append_field name value ++ rest) = (name ++ [COLON; SP] ++ value) :: event_lines [] rest.
Proof.
  intros Hn Hv. unfold sse_append_field.
  replace ((name ++ [COLON; SP] ++ value ++ [LF]) ++ rest) with ((name ++ [COLON; SP] ++ value) ++ LF :: rest) by by rewrite <- !app_assoc.
  rewrite event_lines_plain; [done|]. apply Forall_app; split; [done|]. by repeat constructor.
Qed.

Lemma print_d_plain n : 0 <= n < 2 ^ 63 -> plain (print_d n) /\ read_decimal (print_d n) = Some n.
Proof.
  intros Hn. unfold print_d. rewrite (proj2 (Z.ltb_ge _ _)) by lia. split; [|apply print_u_read; lia].
  destruct (dec_digits_read 20 n ltac:(lia) ltac:(lia)) as (_ & Hd & _). apply List.Forall_forall. intros c Hc.
  rewrite forallb_forall in Hd. apply Hd in Hc. unfold is_digit in Hc. b2p. unfold not_newline, is_newline.
  apply negb_true_iff, orb_false_iff. split; apply Z.eqb_neq; lia.
Qed.

(** ** What the methods write and what it means *)

Inductive item :=
  | Event (data event id : option bytes) (retry : option Z)
  | Comment (text : bytes)
  | Retry (milliseconds : Z).

Definition item_payload (it : item) : bytes :=
  match it with
  | Event d e i t => sse_payload d e i t
  | Comment s => sse_comment_payload s
  | Retry n => sse_append_field (lit "retry") (print_d n) ++ [LF]
  end.

(** The arguments the methods accept; a [zend_long] is below [2 ^ 63]. *)
Definition accepted (it : item) : Prop :=
  match it with
  | Event d e i t =>
      sse_has_newline e = false /\ sse_has_newline i = false /\ mem_byte NUL (default [] i) = false /\ 0 <= default 0 t < 2 ^ 63
  | Comment s => sse_has_newline (Some s) = false
  | Retry n => 0 <= n < 2 ^ 63
  end.

(** The last event id and the reconnection time of the source, and the event it
    dispatches for an item. *)
Definition item_event (st : bytes * option Z) (it : item) : (bytes * option Z) * list sse_event :=
  match it with
  | Event d e i t =>
      let id := default (fst st) i in
      ((id, match t with Some n => Some n | None => snd st end),
       match d with
       | Some s => [{| ev_type := match default [] e with [] => lit "message" | ty => ty end; ev_data := normalize s; ev_id := id |}]
       | None => []
       end)
  | Comment _ => (st, [])
  | Retry n => ((fst st, Some n), [])
  end.

Fixpoint item_events (st : bytes * option Z) (l : list item) : (bytes * option Z) * list sse_event :=
  match l with
  | [] => (st, [])
  | it :: r => let '(st, e) := item_event st it in let '(st, es) := item_events st r in (st, e ++ es)
  end.

Definition at_rest (st : bytes * option Z) : event_source :=
  {| es_data := []; es_type := []; es_id := fst st; es_retry := snd st |}.

Lemma es_dispatch s d : es_line {| es_data := d ++ [LF]; es_type := es_type s; es_id := es_id s; es_retry := es_retry s |} [] =
  ({| es_data := []; es_type := []; es_id := es_id s; es_retry := es_retry s |},
   [{| ev_type := match es_type s with [] => lit "message" | t => t end; ev_data := d; ev_id := es_id s |}]).
Proof.
  unfold es_line. cbn [es_data es_type es_id es_retry]. destruct (d ++ [LF]) as [|x l] eqn:E; [by destruct d|].
  by rewrite <- E, removelast_last.
Qed.

Lemma event_read d e i t st rest : accepted (Event d e i t) ->
  es_run (at_rest st) (event_lines [] (sse_payload d e i t ++ rest)) =
    let '(st', ev) := item_event st (Event d e i t) in
    let '(s, es) := es_run (at_rest st') (event_lines [] rest) in (s, ev ++ es).
Proof.
  intros (He & Hi & Hn & Ht). unfold sse_payload. rewrite <- !app_assoc.
  set (s0 := at_rest st).
  set (s1 := {| es_data := []; es_type := []; es_id := default (fst st) i; es_retry := snd st |}).
  assert (forall tl, es_run s0 (event_lines [] (match i with Some x => sse_append_field (lit "id") x | None => [] end ++ tl)) = es_run s1 (event_lines [] tl)) as ->.
  { intros tl. subst s0 s1. destruct i as [x|]; [|done]. rewrite field_line_read by (by repeat constructor || by apply has_newline_plain).
    cbn [es_run]. rewrite es_line_field by done. unfold es_field. cbn [default from_option id] in Hn.
    change (eqb_bytes (lit "id") (lit "event")) with false. change (eqb_bytes (lit "id") (lit "data")) with false.
    change (eqb_bytes (lit "id") (lit "id")) with true. cbn match. rewrite Hn. cbn. by destruct (es_run _ _). }
  set (s2 := {| es_data := []; es_type := default [] e; es_id := default (fst st) i; es_retry := snd st |}).
  assert (forall tl, es_run s1 (event_lines [] (match e with Some x => sse_append_field (lit "event") x | None => [] end ++ tl)) = es_run s2 (event_lines [] tl)) as ->.
  { intros tl. subst s1 s2. destruct e as [x|]; [|done]. rewrite field_line_read by (by repeat constructor || by apply has_newline_plain).
    cbn [es_run]. rewrite es_line_field by done. cbn. by destruct (es_run _ _). }
  set (s3 := {| es_data := []; es_type := default [] e; es_id := default (fst st) i; es_retry := match t with Some n => Some n | None => snd st end |}).
  assert (forall tl, es_run s2 (event_lines [] (match t with Some n => sse_append_field (lit "retry") (print_d n) | None => [] end ++ tl)) = es_run s3 (event_lines [] tl)) as ->.
  { intros tl. subst s2 s3. destruct t as [n|]; [|done]. destruct (print_d_plain n Ht) as [Hp Hr].
    rewrite field_line_read by (done || by repeat constructor).
    cbn [es_run]. rewrite es_line_field by done. unfold es_field.
    change (eqb_bytes (lit "retry") (lit "event")) with false. change (eqb_bytes (lit "retry") (lit "data")) with false.
    change (eqb_bytes (lit "retry") (lit "id")) with false. change (eqb_bytes (lit "retry") (lit "retry")) with true.
    cbn match. rewrite Hr. cbn. by destruct (es_run _ _). }
  cbn [item_event]. destruct d as [s|].
  - rewrite data_lines_read, es_run_app, es_run_data, (lines_join _ (text_lines_ne _ s [] (Nat.le_refl _))). fold (normalize s).
    change ([LF] ++ rest) with ([] ++ LF :: rest). rewrite (event_lines_plain [] [] rest (List.Forall_nil _)). cbn [app es_run].
    subst s3. unfold add_data. cbn [es_data es_type es_id es_retry app].
    pose proof (es_dispatch {| es_data := []; es_type := default [] e; es_id := default (fst st) i;
      es_retry := match t with Some n => Some n | None => snd st end |} (normalize s)) as Hd. cbn [es_type es_id es_retry] in Hd.
    rewrite Hd. by destruct (es_run _ _).
  - change ([] ++ [LF] ++ rest) with ([] ++ LF :: rest). rewrite (event_lines_plain [] [] rest (List.Forall_nil _)).
    subst s3. cbn [app es_run es_line es_data es_id es_retry]. unfold at_rest. cbn [fst snd]. by destruct (es_run _ _).
Qed.

Lemma item_read it st rest : accepted it ->
  es_run (at_rest st) (event_lines [] (item_payload it ++ rest)) =
    let '(st', ev) := item_event st it in
    let '(s, es) := es_run (at_rest st') (event_lines [] rest) in (s, ev ++ es).
Proof.
  destruct it as [d e i t|s|n]; intros Ha; cbn [item_payload].
  - by apply event_read.
  - unfold sse_comment_payload. set (l := [COLON] ++ match s with [] => [] | _ => SP :: s end).
    replace (([COLON] ++ match s with [] => [] | _ => SP :: s end ++ [LF; LF]) ++ rest) with (l ++ LF :: ([] ++ LF :: rest))
      by (subst l; by rewrite <- !app_assoc).
    assert (plain l) as Hl.
    { subst l. constructor; [done|]. apply has_newline_plain in Ha. destruct s; [constructor|]. by constructor. }
    rewrite event_lines_plain by done. rewrite (event_lines_plain [] [] rest (List.Forall_nil _)). cbn [app es_run]. subst l. cbn [app es_line].
    rewrite Z.eqb_refl. cbn. by destruct (es_run _ _).
  - refine (event_read None None None (Some n) st rest _). by repeat split; apply Ha.
Qed.

Lemma items_read l st : Forall accepted l ->
  es_run (at_rest st) (event_lines [] (concat (map item_payload l))) =
    let '(st', es) := item_events st l in (at_rest st', es).
Proof.
  intros Hl. revert st. induction Hl as [|it l Hi _ IH]; intros st; [done|]. cbn [map concat item_events].
  rewrite item_read by done. destruct (item_event st it) as [st1 e]. rewrite IH. by destruct (item_events st1 l).
Qed.

Lemma at_rest_start : at_rest ([], None) = es_start.
Proof. done. Qed.

(** server-sent events round trip.  Whatever events, comments and reconnection
    times the methods accept, with any mixture of CR, LF and CRLF line ends and empty
    lines in the data, an event source that reads the bytes they write dispatches one
    event per event with data, in order: its type, its data with the line ends made LF,
    and the last event id; a field without data changes the id and the reconnection
    time and dispatches nothing, a comment changes nothing. *)
Theorem sse_stream_roundtrip l : Forall accepted l ->
  read_events (concat (map item_payload l)) = let '(st, es) := item_events ([], None) l in (at_rest st, es).
Proof. intros Hl. unfold read_events. rewrite <- at_rest_start. by apply items_read. Qed.

Lemma sse_stream_roundtrip_witness :
  let l := [Event (Some (lit "a" ++ [CR; LF] ++ lit "b" ++ [CR; LF])) (Some (lit "tick")) (Some (lit "7")) None; Comment (lit "ping");
            Retry 1500; Event (Some []) None None None; Event None None (Some (lit "8")) None] in
  snd (read_events (concat (map item_payload l))) =
    [{| ev_type := lit "tick"; ev_data := lit "a" ++ [LF] ++ lit "b" ++ [LF]; ev_id := lit "7" |};
     {| ev_type := lit "message"; ev_data := []; ev_id := lit "7" |}].
Proof.
  intros l. rewrite (sse_stream_roundtrip l); [vm_compute; reflexivity|]. subst l. repeat constructor; cbn; lia || done.
Defined.

(** ** Over HTTP/1 *)

Definition item_call (it : item) : call :=
  match it with
  | Event d e i t => SseEvent d e i t
  | Comment s => SseComment (Some s)
  | Retry n => SseRetry n
  end.

(** The call writes: it has a field, and its payload fits a chunk. *)
Definition writes (it : item) : Prop := it <> Event None None None None /\ blen (item_payload it) < 2 ^ 40.

Definition event_stream (h : headers_t) : Prop := ht_find (lit "content-type") h = Some (HStr (lit "text/event-stream")).

Lemma ht_find_In (h : headers_t) k v : ht_find k h = Some v -> In (k, v) h.
Proof.
  induction h as [|[k1 v1] h IH]; cbn [ht_find]; [done|]. destruct (eqb_bytes k k1) eqn:E; [|intros Hf; right; by apply IH].
  intros [= ->]. left. by apply eqb_bytes_eq in E as ->.
Qed.

Lemma event_stream_field h now : event_stream h ->
  In (lit "content-type", lit "text/event-stream") (map seen (streaming_fields h now)).
Proof.
  intros Hh. change (lit "content-type", lit "text/event-stream") with (seen (lit "content-type", lit "text/event-stream")).
  apply in_map. unfold streaming_fields. rewrite !in_app_iff. do 2 right. unfold table_fields. apply in_flat_map.
  exists (lit "content-type", HStr (lit "text/event-stream")). split; [by apply ht_find_In|]. by left.
Qed.

Section http1.
Context `{Encoder} {Laws : EncoderLaws} {Reliable : EncoderReliable}.
Variable b : build.

Abbreviation response := (http_response_object http_compression_state_t).
Implicit Type r : response.

(** What the events of a stream leave alone. *)
Record sse_live r : Prop := {
  live_streaming : streaming r = true;
  live_mode : sse_mode r = true;
  live_ops : stream_ops r = Some h1_stream_ops;
  live_status : status_code r = 200;
  live_type : event_stream (headers r);
}.

Lemma live_headers r h : sse_live r -> event_stream h -> sse_live (set_headers h r).
Proof. intros [? ? ? ? ?] ?. by constructor. Qed.

Lemma live_alt_svc (w : h1_world) : sse_live (resp w) -> sse_live (resp (inject_alt_svc w)).
Proof.
  intros Hl. unfold inject_alt_svc, http_response_set_alt_svc_if_unset. destruct (alt_svc w) as [[|x v]|]; [done| |done].
  case_if; [done|]. apply live_headers; [done|]. unfold event_stream. rewrite ht_find_update. by apply Hl.
Qed.

Lemma send_resp s (w : h1_world) : resp (fst (http_connection_send s w)) = resp w.
Proof. unfold http_connection_send. by destruct s, (io w) as [|[]]. Qed.

Lemma send_all_resp l (w : h1_world) : resp (fst (send_all l w)) = resp w.
Proof.
  unfold send_all. revert w. induction l as [|s l IH]; intros w; [done|]. cbn [fold_left].
  pose proof (send_resp s w) as Hs. destruct (http_connection_send s w) as [w1 []]; cbn [fst] in Hs; [by rewrite IH|].
  rewrite <- Hs. clear. by induction l.
Qed.

Lemma live_emit (w : h1_world) : sse_live (resp w) -> sse_live (resp (fst (h1_emit_headers_once w))).
Proof.
  intros Hl%live_alt_svc. unfold h1_emit_headers_once. destruct (http_response_format_streaming_headers _ _); [done|]. by rewrite send_resp.
Qed.

Lemma live_commit (w : h1_world) : sse_live (resp w) ->
  sse_live (resp (fst (if h1_stream_headers_sent w then (w, true)
    else let '(w, ok) := h1_emit_headers_once w in if (ok : bool) then (set_sent true w, true) else (w, false)))).
Proof.
  intros Hl. destruct (h1_stream_headers_sent w); [done|]. pose proof (live_emit w Hl) as He. by destruct (h1_emit_headers_once w) as [? []].
Qed.

Lemma live_append s (w : h1_world) : sse_live (resp w) -> sse_live (resp (fst (h1_stream_append_chunk s w))).
Proof.
  intros Hl%live_commit. unfold h1_stream_append_chunk. destruct (if h1_stream_headers_sent w then _ else _) as [w1 []]; [|done]. cbn [negb fst] in *.
  destruct s as [|x s]; [done|]. case_if; [done|]. pose proof (send_all_resp [hex_digits 16 (blen (x :: s)) ++ crlf; x :: s; crlf] w1) as Hs.
  destruct (send_all _ w1) as [w2 ok]. cbn [fst] in *. by rewrite Hs.
Qed.

Lemma live_ended (w : h1_world) : sse_live (resp w) -> sse_live (resp (h1_stream_mark_ended w)).
Proof.
  intros Hl%live_commit. unfold h1_stream_mark_ended. destruct (if h1_stream_headers_sent w then _ else _) as [w1 []]; [|done]. by rewrite send_resp.
Qed.

(** Ready to write an event: before the first one, or after it. *)
Definition ready (w : h1_world) (sent : bytes) : Prop :=
  inv w sent /\ closed (resp w) = false /\
  (sse_live (resp w) \/
   (streaming (resp w) = false /\ status_code (resp w) = 200 /\ headers (resp w) = [] /\ send_file_req (resp w) = None)).

Lemma ready_started w sent : ready w sent ->
  exists r, sse_ensure_started (resp w) = (r, Returns) /\ sse_live r /\ closed r = false /\ inv (set_resp r w) sent.
Proof.
  intros (Hi & Hc & Hr).
  assert (exists r, sse_ensure_started (resp w) = (r, Returns) /\ sse_live r) as (r & E & Hl).
  { unfold sse_ensure_started. destruct Hr as [Hl|(Hs & Hst & Hh & Hf)].
    - pose proof Hl as [Hs Hm _ _ _]. rewrite Hs, Hm. by eexists.
    - pose proof (inv_phase _ _ Hi) as Hp. rewrite Hs in Hp. destruct Hp as ((_ & _ & Ho & _) & _).
      rewrite Hs, Hc, Hf, Ho, Hh. eexists; split; [done|]. by constructor. }
  exists r. destruct (sse_ensure_started_ok w sent r Returns Hi Hc E) as (? & ? & ?). by split_and!.
Qed.

Lemma ready_dispatch w sent payload : ready w sent -> blen payload < 2 ^ 40 ->
  exists w', sse_start_and_dispatch payload w = Some (w', Returns) /\ ready w' (sent ++ payload) /\ sse_live (resp w').
Proof.
  intros Hr Hp. destruct (ready_started w sent Hr) as (r & E & Hl & Hc & Hi). unfold sse_start_and_dispatch, sse_dispatch. rewrite E.
  destruct (append_chunk_ok payload _ _ Hi (live_streaming _ Hl) Hc Hp) as (w' & E' & Hi' & Hf). rewrite E'. cbn [mbind option_bind].
  assert (sse_live (resp w')) as Hl'.
  { unfold append_chunk in E'. cbn [resp set_resp] in E'. rewrite (live_ops _ Hl) in E'. injection E' as E'.
    pose proof (live_append payload (set_resp r w) Hl) as Ha. by rewrite E' in Ha. }
  exists w'. split; [done|]. split; [|done]. split; [done|]. split; [|by left].
  unfold flags in Hf. cbn [resp set_resp] in Hf. by injection Hf as _ -> _ _ _ _ _.
Qed.

Lemma item_run it w sent : ready w sent -> accepted it -> writes it ->
  exists w', exec b (item_call it) w = Some (w', Returns) /\ ready w' (sent ++ item_payload it) /\ sse_live (resp w').
Proof.
  intros Hr Ha [Hne Hs]. destruct (ready_dispatch w sent (item_payload it) Hr Hs) as (w' & E & Hr'). exists w'. split; [|done].
  destruct Hr as (_ & Hc & _). destruct it as [d e i t|s|n]; cbn [item_call exec].
  - unfold sseEvent. destruct Ha as (He & Hi & Hn & Ht). rewrite Hc, He, Hi.
    replace (match i with Some s => mem_byte NUL s | None => false end) with false by by destruct i.
    replace (match t with Some n => n <? 0 | None => false end) with false by (destruct t; [symmetry; apply Z.ltb_ge; cbn in Ht; lia|done]).
    by destruct d, e, i, t.
  - unfold sseComment. by rewrite Hc, Ha.
  - unfold sseRetry. rewrite Hc, (proj2 (Z.ltb_ge _ _)) by apply Ha. done.
Qed.

Lemma items_run l w sent : ready w sent -> Forall accepted l -> Forall writes l ->
  exists w', run b (map item_call l) w = Some w' /\ ready w' (sent ++ concat (map item_payload l)) /\ (l <> [] -> sse_live (resp w')).
Proof.
  intros Hr Ha Hw. revert w sent Hr. induction Ha as [|it l Hit _ IH]; intros w sent Hr.
  - exists w. cbn. rewrite app_nil_r. by split_and!.
  - apply Forall_cons_iff in Hw as [Hw1 Hw]. destruct (item_run it w sent Hr Hit Hw1) as (w1 & E & Hr1 & Hl1).
    destruct (IH Hw w1 _ Hr1) as (w2 & E2 & Hr2 & Hl2). exists w2. cbn [map run concat]. rewrite E. cbn [mbind option_bind].
    rewrite app_assoc. split_and!; [done|done|]. intros _. destruct l; [by injection E2 as <-|by apply Hl2].
Qed.

Lemma run_calls_app l1 l2 w : run b (l1 ++ l2) w = w' ← run b l1 w; run b l2 w'.
Proof. revert w. induction l1 as [|c l1 IH]; intros w; [done|]. cbn [app run]. destruct (exec b c w) as [[w' ?]|]; [|done]. cbn [mbind option_bind]. apply IH. Qed.

Lemma live_end w sent : inv w sent -> sse_live (resp w) -> closed (resp w) = false ->
  exists w', end_ None w = Some (w', Returns) /\ inv w' sent /\ sse_live (resp w') /\ closed (resp w') = true.
Proof.
  intros Hi Hl Hc. pose proof (inv_phase _ _ Hi) as Hp. rewrite (live_streaming _ Hl) in Hp. destruct Hp as (_ & Hsf & _).
  unfold end_. rewrite Hc, Hsf, (live_streaming _ Hl). cbn [mbind option_bind].
  destruct (mark_ended_ok w sent Hi (live_streaming _ Hl) Hc) as (w1 & E & Hi1). rewrite E. cbn [mbind option_bind].
  eexists; split; [done|]. split; [done|]. split; [|done].
  unfold mark_ended in E. rewrite (live_ops _ Hl) in E. injection E as <-. destruct (live_ended w Hl) as [? ? ? ? ?]. by constructor.
Qed.

Lemma dispatch_ready req version config flags keep alt date :
  mem_byte SP version = false -> clean_value version -> clean_value (default [] alt) ->
  ready (http_connection_dispatch_request req version config flags keep alt date []) [].
Proof.
  intros Hsp Hv Ha. split; [by apply dispatch_inv|]. unfold http_connection_dispatch_request, http_compression_attach.
  destruct config as [cfg|]; [destruct (compression_enabled cfg)|]; (split; [done|]); by right.
Qed.

End http1.

Import Held.

End Sse.
