(* ===== verification/LogRing.v ===== *)
(** * The rings of the log thread

    src/src/log/http_log.c: every thread that logs to a sink owns a ring of bytes with
    free-running 32-bit counters; it appends formatted records, and the log thread
    drains all rings of the sink into writes.  The steps of both sides are separate, so
    that any interleaving of the loads, copies and stores is a sequence of steps. *)

From S2P Require Import Prelude.

Module LogRing.

Definition HTTP_LOG_RING_CAP : Z := 65536.
Definition HTTP_LOG_FLUSH_HIGH_WATER : Z := 32768.
Definition HTTP_LOG_WRITE_CHUNK_MAX : Z := 256 * 1024.

Definition blen (s : bytes) : Z := Z.of_nat (length s).

(** ** A ring *)

(** [memcpy] into the buffer. *)
Definition put_bytes (buf : bytes) (pos : Z) (src : bytes) : bytes :=
  take (Z.to_nat pos) buf ++ src ++ drop (Z.to_nat pos + length src) buf.

(** [memcpy] out of it. *)
Definition get_bytes (buf : bytes) (pos len : Z) : bytes := take (Z.to_nat len) (drop (Z.to_nat pos) buf).

Definition mask (at_ : Z) : Z := Z.land at_ (HTTP_LOG_RING_CAP - 1).

Definition ring_put (buf : bytes) (at_ : Z) (src : bytes) : bytes :=
  let pos := mask at_ in
  let first := HTTP_LOG_RING_CAP - pos in
  if blen src <=? first then put_bytes buf pos src
  else put_bytes (put_bytes buf pos (take (Z.to_nat first) src)) 0 (drop (Z.to_nat first) src).

Definition ring_copy_out (buf : bytes) (at_ len : Z) : bytes :=
  let pos := mask at_ in
  let first := HTTP_LOG_RING_CAP - pos in
  if len <=? first then get_bytes buf pos len
  else get_bytes buf pos first ++ get_bytes buf 0 (len - first).

Record log_prod := { buf : bytes; head : Z; tail : Z; dropped : Z }.

(** The contents of fresh memory do not matter. *)
Definition ring_new : log_prod := {| buf := repeat 0 (Z.to_nat HTTP_LOG_RING_CAP); head := 0; tail := 0; dropped := 0 |}.

Definition set_buf (b : bytes) (r : log_prod) : log_prod := {| buf := b; head := head r; tail := tail r; dropped := dropped r |}.
Definition set_head (h : Z) (r : log_prod) : log_prod := {| buf := buf r; head := h; tail := tail r; dropped := dropped r |}.
Definition set_tail (t : Z) (r : log_prod) : log_prod := {| buf := buf r; head := head r; tail := t; dropped := dropped r |}.
Definition set_dropped (n : Z) (r : log_prod) : log_prod := {| buf := buf r; head := head r; tail := tail r; dropped := n |}.

Definition ring_used (r : log_prod) : Z := u32 (head r - tail r).

(** ** Framing *)

Inductive http_log_write_mode_t := HTTP_LOG_WRITE_STREAM | HTTP_LOG_WRITE_STREAM_FRAMED | HTTP_LOG_WRITE_DGRAM.

(** A [uint32_t] in memory, least significant byte first. *)
Definition le32 (n : Z) : bytes := [n mod 256; n / 256 mod 256; n / 65536 mod 256; n / 16777216 mod 256].
Definition of_le32 (s : bytes) : Z :=
  match s with
  | [a; b; c; d] => a + 256 * b + 65536 * c + 16777216 * d
  | _ => 0
  end.

(** [%zu]; twenty digits are enough for 64 bits. *)
Fixpoint zu (fuel : nat) (n : Z) : bytes :=
  match fuel with
  | O => []
  | S f => if n <? 10 then [48 + n] else zu f (n / 10) ++ [48 + n mod 10]
  end.

(** What [http_log_sink_write] puts in front of a record. *)
Definition frame_prefix (mode : http_log_write_mode_t) (rec : bytes) : bytes :=
  match mode with
  | HTTP_LOG_WRITE_STREAM_FRAMED => zu 20 (blen rec) ++ [SP]
  | HTTP_LOG_WRITE_DGRAM => le32 (blen rec)
  | HTTP_LOG_WRITE_STREAM => []
  end.

(** ** Both sides *)

(** A function changed at one point. *)
Definition set_at {A} (r : nat) (x : A) (f : nat -> A) : nat -> A := fun r' => if Nat.eqb r' r then x else f r'.


(** Where a producer is in [log_prod_append]: it has loaded both counters; it has
    copied the prefix; it has copied the record. *)
Inductive producer_pc :=
  | PIdle
  | PLoaded (h used : Z) (pre src : bytes)
  | PPrefixed (h used : Z) (pre src : bytes)
  | PCopied (h used : Z) (pre src : bytes).

(** Where the log thread is in [writer_kick_next]: it adds up the rings, or copies
    them out, or looks for a record to send; the rings it still has to visit. *)
Inductive consumer_pc :=
  | CIdle
  | CSum (todo : list nat) (total : Z)
  | CCopy (todo : list nat) (total : Z) (out : bytes)
  | CDgram (todo : list nat).

Record sink := {
  mode : http_log_write_mode_t;
  producers : list nat;            (** newest first *)
  rings : nat -> log_prod;
  at_producer : nat -> producer_pc;
  at_consumer : consumer_pc;
  kick_pending : bool;
  active_req : bool;
  writes : list (bool * bytes);    (** the writes, and whether the transport took them *)
  published : nat -> list bytes;   (** history: the records each ring took *)
  pieces : list (nat * bytes);     (** history: what left which ring *)
}.

Definition sink_new (m : http_log_write_mode_t) : sink :=
  {| mode := m; producers := []; rings := fun _ => ring_new; at_producer := fun _ => PIdle; at_consumer := CIdle;
     kick_pending := false; active_req := false; writes := []; published := fun _ => []; pieces := [] |}.

Definition with_ring (r : nat) (x : log_prod) (s : sink) : sink :=
  {| mode := mode s; producers := producers s; rings := set_at r x (rings s); at_producer := at_producer s;
     at_consumer := at_consumer s; kick_pending := kick_pending s; active_req := active_req s; writes := writes s;
     published := published s; pieces := pieces s |}.

Definition with_producer (r : nat) (p : producer_pc) (s : sink) : sink :=
  {| mode := mode s; producers := producers s; rings := rings s; at_producer := set_at r p (at_producer s);
     at_consumer := at_consumer s; kick_pending := kick_pending s; active_req := active_req s; writes := writes s;
     published := published s; pieces := pieces s |}.

Definition with_consumer (c : consumer_pc) (s : sink) : sink :=
  {| mode := mode s; producers := producers s; rings := rings s; at_producer := at_producer s;
     at_consumer := c; kick_pending := kick_pending s; active_req := active_req s; writes := writes s;
     published := published s; pieces := pieces s |}.

Definition with_kick (k : bool) (s : sink) : sink :=
  {| mode := mode s; producers := producers s; rings := rings s; at_producer := at_producer s;
     at_consumer := at_consumer s; kick_pending := k; active_req := active_req s; writes := writes s;
     published := published s; pieces := pieces s |}.

Definition with_published (r : nat) (l : list bytes) (s : sink) : sink :=
  {| mode := mode s; producers := producers s; rings := rings s; at_producer := at_producer s;
     at_consumer := at_consumer s; kick_pending := kick_pending s; active_req := active_req s; writes := writes s;
     published := set_at r l (published s); pieces := pieces s |}.

Definition with_request (a : bool) (w : list (bool * bytes)) (s : sink) : sink :=
  {| mode := mode s; producers := producers s; rings := rings s; at_producer := at_producer s;
     at_consumer := at_consumer s; kick_pending := kick_pending s; active_req := a; writes := w;
     published := published s; pieces := pieces s |}.

Definition with_pieces (l : list (nat * bytes)) (s : sink) : sink :=
  {| mode := mode s; producers := producers s; rings := rings s; at_producer := at_producer s;
     at_consumer := at_consumer s; kick_pending := kick_pending s; active_req := active_req s; writes := writes s;
     published := published s; pieces := l |}.

(** *** Producer *)

(** [log_prod_ring_for] the first time a thread logs to the sink; its ring is fresh. *)
Definition join (s : sink) : option sink :=
  Some {| mode := mode s; producers := length (producers s) :: producers s; rings := rings s;
          at_producer := at_producer s; at_consumer := at_consumer s; kick_pending := kick_pending s;
          active_req := active_req s; writes := writes s; published := published s; pieces := pieces s |}.

(** The size of the buffers a record is formatted into. *)
Definition FMT_BUF : Z := 2048.

(** [http_log_sink_write] and the head of [log_prod_append]: both counters are loaded
    and the record is dropped or will be copied. *)
Definition append_load (r : nat) (rec : bytes) (s : sink) : option sink :=
  match at_producer s r with
  | PIdle =>
      if negb (bool_decide (r ∈ producers s)) || (FMT_BUF <=? blen rec) then None
      else if blen rec =? 0 then Some s
      else
        let ring := rings s r in
        let pre := frame_prefix (mode s) rec in
        let h := head ring in
        let used := u32 (h - tail ring) in
        let need := u32 (blen pre + blen rec) in
        if u32 (HTTP_LOG_RING_CAP - used) <? need then Some (with_ring r (set_dropped (dropped ring + 1) ring) s)
        else Some (with_producer r (PLoaded h used pre rec) s)
  | _ => None
  end.

Definition append_prefix (r : nat) (s : sink) : option sink :=
  match at_producer s r with
  | PLoaded h used pre rec =>
      let ring := rings s r in
      let b := if 0 <? blen pre then ring_put (buf ring) h pre else buf ring in
      Some (with_producer r (PPrefixed h used pre rec) (with_ring r (set_buf b ring) s))
  | _ => None
  end.

Definition append_record (r : nat) (s : sink) : option sink :=
  match at_producer s r with
  | PPrefixed h used pre rec =>
      let ring := rings s r in
      Some (with_producer r (PCopied h used pre rec) (with_ring r (set_buf (ring_put (buf ring) (u32 (h + blen pre)) rec) ring) s))
  | _ => None
  end.

(** The store that publishes the record, and the wake-up of the log thread; [posted]
    is what [reactor_pool_post_exec] returns. *)
Definition append_publish (r : nat) (posted : bool) (s : sink) : option sink :=
  match at_producer s r with
  | PCopied h used pre rec =>
      let need := u32 (blen pre + blen rec) in
      let s' := with_published r (published s r ++ [rec])
                  (with_producer r PIdle (with_ring r (set_head (u32 (h + need)) (rings s r)) s)) in
      if u32 (used + need) <? HTTP_LOG_FLUSH_HIGH_WATER then Some s'
      else if kick_pending s' then Some s'
      else Some (with_kick posted s')
  | _ => None
  end.

(** *** Log thread *)

(** [writer_kick_next] up to the loops. *)
Definition kick (s : sink) : option sink :=
  match at_consumer s with
  | CIdle =>
      let s := with_kick false s in
      if active_req s then Some s
      else Some (with_consumer (match mode s with
                                | HTTP_LOG_WRITE_DGRAM => CDgram (producers s)
                                | _ => CSum (producers s) 0
                                end) s)
  | _ => None
  end.

(** [ZEND_ASYNC_IO_WRITE]: the request is taken, or not. *)
Definition submit (accepted : bool) (out : bytes) (s : sink) : sink :=
  match out with
  | [] => with_consumer CIdle s
  | _ => with_consumer CIdle (with_request accepted (writes s ++ [(accepted, out)]) s)
  end.

(** One step of the loops. *)
Definition drain (accepted : bool) (s : sink) : option sink :=
  match at_consumer s with
  | CIdle => None
  | CSum (r :: todo) total => Some (with_consumer (CSum todo (u32 (total + ring_used (rings s r)))) s)
  | CSum [] total =>
      let total := if HTTP_LOG_WRITE_CHUNK_MAX <? total then HTTP_LOG_WRITE_CHUNK_MAX else total in
      if total =? 0 then Some (with_consumer CIdle s) else Some (with_consumer (CCopy (producers s) total []) s)
  | CCopy [] total out => Some (submit accepted out s)
  | CCopy (r :: todo) total out =>
      if negb (blen out <? total) then Some (submit accepted out s)
      else
        let ring := rings s r in
        let used := ring_used ring in
        if used =? 0 then Some (with_consumer (CCopy todo total out) s)
        else
          let used := if total - blen out <? used then total - blen out else used in
          let t := tail ring in
          let piece := ring_copy_out (buf ring) t used in
          Some (with_pieces (pieces s ++ [(r, piece)])
                  (with_consumer (CCopy todo total (out ++ piece)) (with_ring r (set_tail (u32 (t + used)) ring) s)))
  | CDgram [] => Some (with_consumer CIdle s)
  | CDgram (r :: todo) =>
      let ring := rings s r in
      if ring_used ring <? 4 then Some (with_consumer (CDgram todo) s)
      else
        let t := tail ring in
        let rec_len := of_le32 (ring_copy_out (buf ring) t 4) in
        let out := ring_copy_out (buf ring) (u32 (t + 4)) rec_len in
        Some (submit accepted out
                (with_pieces (pieces s ++ [(r, out)]) (with_ring r (set_tail (u32 (t + 4 + rec_len)) ring) s)))
  end.

(** [writer_complete_cb]; it kicks the next write. *)
Definition complete (s : sink) : option sink :=
  if active_req s then
    match at_consumer s with
    | CIdle => kick (with_request false (writes s) s)
    | _ => None
    end
  else None.

Inductive label :=
  | Join
  | Load (r : nat) (rec : bytes)
  | Prefix (r : nat)
  | Copy (r : nat)
  | Publish (r : nat) (posted : bool)
  | Kick
  | Drain (accepted : bool)
  | Complete.

Definition step (l : label) (s : sink) : option sink :=
  match l with
  | Join => join s
  | Load r rec => append_load r rec s
  | Prefix r => append_prefix r s
  | Copy r => append_record r s
  | Publish r posted => append_publish r posted s
  | Kick => kick s
  | Drain accepted => drain accepted s
  | Complete => complete s
  end.

Fixpoint run (ls : list label) (s : sink) : option sink :=
  match ls with
  | [] => Some s
  | l :: ls => s ← step l s; run ls s
  end.
End LogRing.
