(* ===== verification/LogRingProps.v ===== *)
(** * What the log thread writes

    The rings of LogRing are queues of whole records: under any interleaving of
    producers and log thread each ring's bytes leave it in order and none is lost; a
    datagram sink sends one record per write; a stream sink shared by two producers
    can tear a record apart. *)

From S2P Require Import Prelude LogRing.

Module LogRingProps.
Import LogRing.

Abbreviation CAP := HTTP_LOG_RING_CAP.

(** ** Windows of a ring *)

Definition cell (b : bytes) (k : Z) : Z := nth (Z.to_nat (k mod CAP)) b 0.

(** The [n] bytes from position [k] on, around the end of the buffer. *)
Definition window (b : bytes) (k : Z) (n : nat) : bytes := map (fun i => cell b (k + Z.of_nat i)) (seq 0 n).

Lemma mask_mod k : mask k = k mod CAP.
Proof. unfold mask. change (CAP - 1) with (Z.ones 16). by rewrite Z.land_ones. Qed.

Lemma CAP_pos : 0 < CAP.
Proof. done. Qed.

Lemma window_length b k n : length (window b k n) = n.
Proof. unfold window. by rewrite length_map, length_seq. Qed.

Lemma nth_window b k n i : (i < n)%nat -> nth i (window b k n) 0 = cell b (k + Z.of_nat i).
Proof.
  intros Hi. unfold window. rewrite (nth_indep _ 0 (cell b (k + Z.of_nat 0))) by (by rewrite length_map, length_seq).
  by rewrite (map_nth (fun i => cell b (k + Z.of_nat i))), seq_nth.
Qed.

Lemma cell_u32 b k : cell b (u32 k) = cell b k.
Proof. unfold cell, u32. by rewrite <- (Znumtheory.Zmod_div_mod CAP (2 ^ 32) k ltac:(done) ltac:(done) ltac:(by exists (2 ^ 16))). Qed.

Lemma cell_u32_add b k i : cell b (u32 k + i) = cell b (k + i).
Proof. rewrite <- cell_u32, <- (cell_u32 b (k + i)). unfold u32. by rewrite Zplus_mod_idemp_l. Qed.

Lemma window_u32 b k n : window b (u32 k) n = window b k n.
Proof. apply map_ext. intros i. apply cell_u32_add. Qed.

Lemma window_app b k n m : window b k (n + m) = window b k n ++ window b (k + Z.of_nat n) m.
Proof.
  unfold window. rewrite seq_app, map_app. f_equal. rewrite Nat.add_0_l. rewrite <- (Nat.add_0_r n) at 1.
  generalize 0%nat. induction m as [|m IH]; intros a; [done|]. cbn [seq map]. f_equal; [f_equal; lia|].
  rewrite <- IH. by rewrite Nat.add_succ_r.
Qed.

Lemma get_bytes_length b p n : 0 <= p -> 0 <= n -> p + n <= Z.of_nat (length b) -> length (get_bytes b p n) = Z.to_nat n.
Proof. intros. unfold get_bytes. rewrite length_take, length_drop. lia. Qed.

Lemma nth_get_bytes b p n i : 0 <= p -> (Z.of_nat i < n) -> nth i (get_bytes b p n) 0 = nth (Z.to_nat p + i) b 0.
Proof.
  intros Hp Hi. unfold get_bytes. rewrite nth_firstn, nth_skipn. by rewrite (proj2 (Nat.ltb_lt _ _)) by lia.
Qed.

(** Positions modulo the capacity. *)
Lemma mod_add_small k i : 0 <= i < CAP ->
  (k + i) mod CAP = if k mod CAP + i <? CAP then k mod CAP + i else k mod CAP + i - CAP.
Proof. intros Hi. unfold CAP in *. case_if; b2p; dlia. Qed.

Lemma copy_out_window b k n :
  length b = Z.to_nat CAP -> 0 <= n <= CAP -> ring_copy_out b k n = window b k (Z.to_nat n).
Proof.
  intros Hb Hn. unfold ring_copy_out. rewrite mask_mod. pose proof (Z.mod_pos_bound k CAP CAP_pos) as Hk.
  set (p := k mod CAP) in *. assert (forall i, 0 <= i < CAP -> (k + i) mod CAP = if p + i <? CAP then p + i else p + i - CAP) as Hm
    by (intros; by apply mod_add_small).
  apply (nth_ext _ _ 0 0).
  - rewrite window_length. case_if; b2p; rewrite ?length_app, !get_bytes_length; unfold CAP in *; lia.
  - intros i Hi. assert (Z.of_nat i < n) as Hin.
    { revert Hi. case_if; b2p; rewrite ?length_app, !get_bytes_length; unfold CAP in *; lia. }
    rewrite nth_window by lia. unfold cell. rewrite Hm by lia. case_if; b2p.
    + rewrite nth_get_bytes by lia. rewrite (proj2 (Z.ltb_lt _ _)) by lia. f_equal. lia.
    + destruct (Z.ltb_spec (p + Z.of_nat i) CAP).
      * rewrite app_nth1 by (rewrite get_bytes_length by (unfold CAP in *; lia); lia). rewrite nth_get_bytes by lia. f_equal. lia.
      * rewrite app_nth2 by (rewrite get_bytes_length by (unfold CAP in *; lia); lia).
        rewrite get_bytes_length by (unfold CAP in *; lia). rewrite nth_get_bytes by lia. f_equal. lia.
Qed.

Lemma put_bytes_length b p s : 0 <= p -> p + blen s <= Z.of_nat (length b) -> length (put_bytes b p s) = length b.
Proof. intros. unfold put_bytes, blen in *. rewrite !length_app, length_take, length_drop. lia. Qed.

Lemma nth_put_bytes b p s i : 0 <= p -> p + blen s <= Z.of_nat (length b) ->
  nth i (put_bytes b p s) 0 =
    if (p <=? Z.of_nat i) && (Z.of_nat i <? p + blen s) then nth (i - Z.to_nat p) s 0 else nth i b 0.
Proof.
  intros Hp Hs. unfold put_bytes, blen in *. assert (length (take (Z.to_nat p) b) = Z.to_nat p) as Hl by (rewrite length_take; lia).
  destruct (Z.leb_spec p (Z.of_nat i)); cbn [andb].
  - rewrite app_nth2 by lia. rewrite Hl. case_if; b2p.
    + rewrite app_nth1 by lia. done.
    + rewrite app_nth2 by lia. rewrite nth_skipn. f_equal. lia.
  - rewrite app_nth1 by lia. rewrite nth_firstn. by rewrite (proj2 (Nat.ltb_lt _ _)) by lia.
Qed.

Lemma ring_put_length b k s : length b = Z.to_nat CAP -> blen s <= CAP -> length (ring_put b k s) = Z.to_nat CAP.
Proof.
  intros Hb Hs. unfold ring_put. rewrite mask_mod. pose proof (Z.mod_pos_bound k CAP CAP_pos). unfold blen in *.
  case_if; b2p; rewrite !put_bytes_length; unfold blen; rewrite ?put_bytes_length, ?length_take, ?length_drop;
    unfold blen; rewrite ?length_take, ?length_drop; lia.
Qed.

(** What [ring_put] changes. *)
Lemma cell_ring_put b k s j : length b = Z.to_nat CAP -> blen s <= CAP ->
  cell (ring_put b k s) j = if (j - k) mod CAP <? blen s then nth (Z.to_nat ((j - k) mod CAP)) s 0 else cell b j.
Proof.
  intros Hb Hs. unfold cell, ring_put. rewrite mask_mod. pose proof (Z.mod_pos_bound k CAP CAP_pos) as Hk.
  pose proof (Z.mod_pos_bound j CAP CAP_pos) as Hj.
  assert ((j - k) mod CAP = if k mod CAP <=? j mod CAP then j mod CAP - k mod CAP else j mod CAP - k mod CAP + CAP) as ->.
  { unfold CAP in *. case_if; b2p; dlia. }
  set (p := k mod CAP) in *. set (q := j mod CAP) in *. case_if; b2p.
  - rewrite nth_put_bytes by (unfold blen in *; lia). rewrite Z2Nat.id by lia.
    destruct (Z.leb_spec p q); cbn [andb].
    + destruct (Z.ltb_spec q (p + blen s)); destruct (Z.ltb_spec (q - p) (blen s)); try lia; f_equal; lia.
    + destruct (Z.ltb_spec (q - p + CAP) (blen s)); [lia|done].
  - assert (blen (take (Z.to_nat (CAP - p)) s) = CAP - p) as Hl1 by (unfold blen in *; rewrite length_take; lia).
    assert (blen (drop (Z.to_nat (CAP - p)) s) = blen s - (CAP - p)) as Hl2 by (unfold blen in *; rewrite length_drop; lia).
    assert (length (put_bytes b p (take (Z.to_nat (CAP - p)) s)) = Z.to_nat CAP) as Hl by (rewrite put_bytes_length; lia).
    rewrite nth_put_bytes by lia. rewrite Hl2, Z2Nat.id by lia. rewrite (proj2 (Z.leb_le 0 q)) by lia. cbn [andb].
    rewrite nth_put_bytes by lia. rewrite Hl1, Z2Nat.id by lia. rewrite nth_skipn, nth_firstn.
    destruct (Z.leb_spec p q); cbn [andb].
    + rewrite (proj2 (Z.ltb_ge q _)) by lia. rewrite (proj2 (Z.ltb_lt _ _)) by lia. rewrite (proj2 (Nat.ltb_lt _ _)) by lia.
      rewrite (proj2 (Z.ltb_lt _ _)) by lia. f_equal. lia.
    + case_if; b2p.
      * rewrite (proj2 (Z.ltb_lt _ _)) by lia. f_equal. lia.
      * rewrite (proj2 (Z.ltb_ge _ _)) by lia. done.
Qed.

(** The bytes just put, and the bytes in front of them. *)
Lemma window_put b k s : length b = Z.to_nat CAP -> blen s <= CAP -> window (ring_put b k s) k (length s) = s.
Proof.
  intros Hb Hs. apply (nth_ext _ _ 0 0); rewrite window_length; [done|]. intros i Hi. rewrite nth_window by done.
  rewrite cell_ring_put by done. replace (k + Z.of_nat i - k) with (Z.of_nat i) by lia. unfold blen in *.
  rewrite Z.mod_small by lia. rewrite (proj2 (Z.ltb_lt _ _)) by lia. by rewrite Nat2Z.id.
Qed.

Lemma window_put_before b k s n : length b = Z.to_nat CAP -> Z.of_nat n + blen s <= CAP ->
  window (ring_put b k s) (k - Z.of_nat n) n = window b (k - Z.of_nat n) n.
Proof.
  intros Hb Hn. apply (nth_ext _ _ 0 0); rewrite !window_length; [done|]. intros i Hi. rewrite !nth_window by done.
  rewrite cell_ring_put by (unfold blen in *; lia). unfold blen in *.
  replace ((k - Z.of_nat n + Z.of_nat i - k) mod CAP) with (CAP + Z.of_nat i - Z.of_nat n).
  2: { rewrite <- (Z.mod_small (CAP + Z.of_nat i - Z.of_nat n) CAP) by lia. unfold CAP. dlia. }
  rewrite (proj2 (Z.ltb_ge _ _)) by lia. done.
Qed.

(** ** The invariant of a ring *)

(** A record as it lies in the ring. *)
Definition frame (m : http_log_write_mode_t) (rec : bytes) : bytes := frame_prefix m rec ++ rec.

Definition queue (r : log_prod) : bytes := window (buf r) (tail r) (Z.to_nat (ring_used r)).

Definition ring_ok (r : log_prod) : Prop :=
  length (buf r) = Z.to_nat CAP /\ 0 <= head r < 2 ^ 32 /\ 0 <= tail r < 2 ^ 32 /\ ring_used r <= CAP.

(** A record the ring can hold. *)
Definition fits (m : http_log_write_mode_t) (rec : bytes) : Prop := rec <> [] /\ blen rec < FMT_BUF.

Definition reserved (m : http_log_write_mode_t) (r : log_prod) (h used : Z) (pre rec : bytes) : Prop :=
  h = head r /\ ring_used r <= used /\ used + blen pre + blen rec <= CAP /\ pre = frame_prefix m rec /\ fits m rec.

Definition pc_ok (m : http_log_write_mode_t) (r : log_prod) (p : producer_pc) : Prop :=
  match p with
  | PIdle => True
  | PLoaded h used pre rec => reserved m r h used pre rec
  | PPrefixed h used pre rec => reserved m r h used pre rec /\ window (buf r) h (length pre) = pre
  | PCopied h used pre rec => reserved m r h used pre rec /\ window (buf r) h (length (pre ++ rec)) = pre ++ rec
  end.

(** The records [recs] went in, the pieces [ps] came out and [q] is left: in order and
    complete; on a datagram sink the pieces are the records themselves. *)
Definition flow (m : http_log_write_mode_t) (recs ps : list bytes) (q : bytes) : Prop :=
  match m with
  | HTTP_LOG_WRITE_DGRAM => exists pending, recs = ps ++ pending /\ q = concat (map (frame m) pending)
  | _ => concat (map (frame m) recs) = concat ps ++ q
  end.

Record ring_inv (m : http_log_write_mode_t) (r : log_prod) (p : producer_pc) (recs ps : list bytes) : Prop := {
  ri_ok : ring_ok r;
  ri_pc : pc_ok m r p;
  ri_flow : flow m recs ps (queue r);
  ri_recs : Forall (fits m) recs;
}.

Lemma used_nonneg r : 0 <= ring_used r.
Proof. unfold ring_used, u32. apply Z.mod_pos_bound. lia. Qed.

Lemma u32_small z : 0 <= z < 2 ^ 32 -> u32 z = z.
Proof. intros. unfold u32. by apply Z.mod_small. Qed.

Lemma u32_range z : 0 <= u32 z < 2 ^ 32.
Proof. unfold u32. apply Z.mod_pos_bound. lia. Qed.

Lemma zu_length fuel n : (length (zu fuel n) <= fuel)%nat.
Proof.
  revert n. induction fuel as [|f IH]; intros n; [done|]. cbn [zu]. case_if; [cbn; lia|].
  rewrite length_app. cbn [length]. specialize (IH (n / 10)). lia.
Qed.

Lemma prefix_length m rec : blen (frame_prefix m rec) <= 21.
Proof.
  destruct m; cbn [frame_prefix]; unfold blen; [done| |done]. rewrite length_app. cbn [length].
  pose proof (zu_length 20 (Z.of_nat (length rec))). lia.
Qed.

Lemma ring_new_inv m : ring_inv m ring_new PIdle [] [].
Proof.
  constructor; [|done| |constructor].
  - split_and!; [apply repeat_length|done..].
  - assert (queue ring_new = []) as -> by done. destruct m; cbn; [done|done|]. by exists [].
Qed.

(** The head in terms of the queue. *)
Lemma head_eq r : ring_ok r -> head r = u32 (tail r + ring_used r).
Proof. intros (_ & Hh & Ht & _). unfold ring_used, u32 in *. rewrite Zplus_mod_idemp_r. replace (tail r + (head r - tail r)) with (head r) by lia. by rewrite Z.mod_small. Qed.

(** *** The producer's steps *)

Lemma load_inv m r recs ps rec :
  ring_inv m r PIdle recs ps -> fits m rec ->
  blen (frame_prefix m rec) + blen rec <= CAP - ring_used r ->
  ring_inv m r (PLoaded (head r) (ring_used r) (frame_prefix m rec) rec) recs ps.
Proof. intros [? _ ? ?] Hf Hn. constructor; [done| |done|done]. unfold pc_ok, reserved. split_and!; [done|lia|lia|done|done]. Qed.

(** Positions may be taken before or after the wrap of the counters. *)
Lemma mask_u32 k i : mask (u32 k + i) = mask (k + i).
Proof.
  rewrite !mask_mod. unfold u32. rewrite (Z.mod_eq k (2 ^ 32)) by lia.
  replace (k - 2 ^ 32 * (k / 2 ^ 32) + i) with (k + i + (- (2 ^ 16 * (k / 2 ^ 32))) * CAP) by (unfold CAP; lia).
  by rewrite Z.mod_add.
Qed.

Lemma ring_put_u32 b k i s : ring_put b (u32 k + i) s = ring_put b (k + i) s.
Proof. unfold ring_put. by rewrite mask_u32. Qed.

Lemma ring_put_u32' b k s : ring_put b (u32 k) s = ring_put b k s.
Proof. rewrite <- (Z.add_0_r (u32 k)), ring_put_u32. by rewrite Z.add_0_r. Qed.

Lemma window_u32_add b k i n : window b (u32 k + i) n = window b (k + i) n.
Proof. rewrite <- window_u32, <- (window_u32 b (k + i)). unfold u32. by rewrite Zplus_mod_idemp_l. Qed.

Lemma window_put_gap b j n k s : length b = Z.to_nat CAP -> j + Z.of_nat n <= k -> k - j + blen s <= CAP ->
  window (ring_put b k s) j n = window b j n.
Proof.
  intros Hb Hj Hk. set (g := Z.to_nat (k - j - Z.of_nat n)).
  pose proof (window_put_before b k s (n + g) Hb ltac:(lia)) as Hw. replace (k - Z.of_nat (n + g)) with j in Hw by lia.
  rewrite !window_app in Hw. by apply app_inj_1 in Hw as [? _]; [|rewrite !window_length].
Qed.

(** Bytes put behind the queue do not disturb it. *)
Lemma queue_put r s k :
  ring_ok r -> 0 <= k -> ring_used r + k + blen s <= CAP ->
  queue (set_buf (ring_put (buf r) (head r + k) s) r) = queue r.
Proof.
  intros Hr Hk Hle. rewrite (head_eq r Hr), ring_put_u32. destruct Hr as (Hb & Hh & Ht & Hu). unfold queue.
  change (ring_used (set_buf _ r)) with (ring_used r). cbn [buf set_buf tail]. pose proof (used_nonneg r).
  apply window_put_gap; [done|lia|lia].
Qed.

Lemma set_buf_ok r b : ring_ok r -> length b = Z.to_nat CAP -> ring_ok (set_buf b r).
Proof. intros (? & ? & ? & ?) ?. by repeat (split; [done|]). Qed.

Lemma prefix_inv m r recs ps h used pre rec :
  ring_inv m r (PLoaded h used pre rec) recs ps ->
  ring_inv m (set_buf (if 0 <? blen pre then ring_put (buf r) h pre else buf r) r) (PPrefixed h used pre rec) recs ps.
Proof.
  intros [Hr (-> & Hu & Hle & Hpre & Hf) Hfl Hrecs]. pose proof (used_nonneg r). assert (0 <= blen pre /\ 0 <= blen rec) as [? ?] by (unfold blen; lia).
  destruct (0 <? blen pre) eqn:E.
  - pose proof (queue_put r pre 0 Hr ltac:(lia) ltac:(lia)) as Hq. rewrite Z.add_0_r in Hq. destruct Hr as (Hb & ?).
    constructor; [apply set_buf_ok; [done|apply ring_put_length; [done|lia]]| |by rewrite Hq|done].
    split; [unfold reserved; by split_and!|]. cbn [buf set_buf]. apply window_put; [done|lia].
  - assert (pre = []) as Hnil by (destruct pre; [done|cbn in E; unfold blen in E; cbn [length] in E; b2p; lia]).
    replace (set_buf (buf r) r) with r by by destruct r.
    constructor; [done| |done|done]. split; [unfold reserved; by split_and!|]. by rewrite Hnil.
Qed.

Lemma copy_inv m r recs ps h used pre rec :
  ring_inv m r (PPrefixed h used pre rec) recs ps ->
  ring_inv m (set_buf (ring_put (buf r) (u32 (h + blen pre)) rec) r) (PCopied h used pre rec) recs ps.
Proof.
  intros [Hr ((-> & Hu & Hle & Hpre & Hf) & Hw) Hfl Hrecs]. pose proof (used_nonneg r). assert (0 <= blen pre /\ 0 <= blen rec) as [? ?] by (unfold blen; lia).
  rewrite ring_put_u32'. pose proof (queue_put r rec (blen pre) Hr ltac:(lia) ltac:(lia)) as Hq. pose proof Hr as (Hb & ?).
  constructor; [apply set_buf_ok; [done|apply ring_put_length; [done|lia]]| |by rewrite Hq|done].
  split; [unfold reserved; by split_and!|]. cbn [buf set_buf]. rewrite length_app, window_app. f_equal.
  - rewrite window_put_gap; [done|done|unfold blen; lia|lia].
  - change (Z.of_nat (length pre)) with (blen pre). apply window_put; [done|lia].
Qed.

Lemma publish_inv m r recs ps h used pre rec :
  ring_inv m r (PCopied h used pre rec) recs ps ->
  ring_inv m (set_head (u32 (h + u32 (blen pre + blen rec))) r) PIdle (recs ++ [rec]) ps.
Proof.
  intros [Hr ((-> & Hu & Hle & Hpre & Hf) & Hw) Hfl Hrecs]. pose proof (used_nonneg r). assert (0 <= blen pre /\ 0 <= blen rec) as [? ?] by (unfold blen; lia).
  set (need := blen pre + blen rec). rewrite (u32_small need) by (unfold CAP in *; lia).
  assert (ring_used (set_head (u32 (head r + need)) r) = ring_used r + need) as Eu.
  { unfold ring_used at 1. cbn [head tail set_head]. rewrite (head_eq r Hr) at 1. unfold u32. rewrite Zminus_mod_idemp_l.
    replace ((tail r + ring_used r) mod 2 ^ 32 + need - tail r) with ((tail r + ring_used r) mod 2 ^ 32 + (need - tail r)) by lia.
    rewrite Zplus_mod_idemp_l. rewrite Z.mod_small by (unfold CAP in *; lia). lia. }
  assert (queue (set_head (u32 (head r + need)) r) = queue r ++ frame m rec) as Eq.
  { unfold queue. rewrite Eu. cbn [buf tail set_head]. rewrite Z2Nat.inj_add, window_app by lia. f_equal.
    rewrite Z2Nat.id by lia. rewrite <- (Z.add_0_r (tail r + ring_used r)), <- window_u32_add, <- (head_eq r Hr), Z.add_0_r.
    unfold frame. rewrite <- Hpre, <- Hw at 1. f_equal. rewrite length_app. subst need. unfold blen. lia. }
  constructor.
  - destruct Hr as (? & ? & ? & ?). split; [done|]. split; [apply u32_range|]. split; [done|]. rewrite Eu. subst need. lia.
  - done.
  - rewrite Eq. unfold flow in *. destruct m.
    + rewrite map_app, concat_app, Hfl. cbn [map concat]. by rewrite app_nil_r, app_assoc.
    + rewrite map_app, concat_app, Hfl. cbn [map concat]. by rewrite app_nil_r, app_assoc.
    + destruct Hfl as (pend & -> & ->). exists (pend ++ [rec]). rewrite map_app, concat_app. cbn [map concat]. by rewrite app_nil_r, app_assoc.
  - apply Forall_app; split; [done|]. by constructor.
Qed.

Lemma drop_inv m r recs ps n : ring_inv m r PIdle recs ps -> ring_inv m (set_dropped n r) PIdle recs ps.
Proof. intros [? ? ? ?]. by constructor. Qed.

(** *** The log thread's steps *)

(** Taking [n] bytes from the front. *)
Lemma advance r n : ring_ok r -> 0 <= n <= ring_used r ->
  let r' := set_tail (u32 (tail r + n)) r in
  ring_ok r' /\ ring_used r' = ring_used r - n /\ queue r = ring_copy_out (buf r) (tail r) n ++ queue r'.
Proof.
  intros Hr Hn r'. pose proof (used_nonneg r).
  assert (ring_used r' = ring_used r - n) as Eu.
  { unfold ring_used at 1. subst r'. cbn [head tail set_tail]. rewrite (head_eq r Hr) at 1. unfold u32.
    rewrite <- Zminus_mod. replace (tail r + ring_used r - (tail r + n)) with (ring_used r - n) by lia.
    apply Z.mod_small. destruct Hr as (_ & _ & _ & Hu). unfold CAP in *. lia. }
  destruct Hr as (Hb & Hh & Ht & Hu). split; [|split; [done|]].
  - split; [done|]. split; [done|]. split; [apply u32_range|]. lia.
  - rewrite copy_out_window by (done || lia). unfold queue. rewrite Eu. subst r'. cbn [buf tail set_tail]. rewrite window_u32.
    replace (Z.to_nat (ring_used r)) with (Z.to_nat n + Z.to_nat (ring_used r - n))%nat by lia. rewrite window_app. by rewrite Z2Nat.id by lia.
Qed.

Lemma pc_advance m r n p : 0 <= n <= ring_used r -> ring_ok r -> pc_ok m r p -> pc_ok m (set_tail (u32 (tail r + n)) r) p.
Proof.
  intros Hn Hr. destruct (advance r n Hr Hn) as (_ & Eu & _). unfold pc_ok, reserved.
  destruct p as [|h used pre rec|h used pre rec|h used pre rec]; [done|..]; rewrite Eu; cbn [head buf set_tail].
  - intros (? & ? & ?). split; [done|]. split; [lia|]. done.
  - intros ((? & ? & ?) & ?). split; [|done]. split; [done|]. split; [lia|]. done.
  - intros ((? & ? & ?) & ?). split; [|done]. split; [done|]. split; [lia|]. done.
Qed.

Lemma take_inv m r p recs ps n :
  m <> HTTP_LOG_WRITE_DGRAM -> ring_inv m r p recs ps -> 0 <= n <= ring_used r ->
  ring_inv m (set_tail (u32 (tail r + n)) r) p recs (ps ++ [ring_copy_out (buf r) (tail r) n]).
Proof.
  intros Hm [Hr Hp Hfl Hrecs] Hn. destruct (advance r n Hr Hn) as (Hr' & _ & Eq).
  constructor; [done|by apply pc_advance| |done].
  assert (concat (map (frame m) recs) = concat ps ++ queue r) as Hfl' by by destruct m.
  rewrite Eq in Hfl'. unfold flow. destruct m; [| |done]; rewrite concat_app; cbn [concat]; by rewrite app_nil_r, <- app_assoc.
Qed.

Lemma of_le32_le32 n : 0 <= n < 2 ^ 32 -> of_le32 (le32 n) = n.
Proof. intros Hn. unfold of_le32, le32. dlia. Qed.

Lemma take_dgram_inv r p recs ps :
  let m := HTTP_LOG_WRITE_DGRAM in
  ring_inv m r p recs ps -> 4 <= ring_used r ->
  let n := of_le32 (ring_copy_out (buf r) (tail r) 4) in
  let out := ring_copy_out (buf r) (u32 (tail r + 4)) n in
  out <> [] /\ ring_inv m (set_tail (u32 (tail r + 4 + n)) r) p recs (ps ++ [out]).
Proof.
  intros m [Hr Hp (pend & -> & Hq) Hrecs] Hu. destruct (advance r 4 Hr ltac:(lia)) as (Hr1 & Eu1 & Eq1).
  assert (length (queue r) = Z.to_nat (ring_used r)) as Hlq by apply window_length.
  destruct pend as [|rec pend]; [rewrite Hq in Hlq; cbn in Hlq; lia|].
  apply Forall_app in Hrecs as [Hps Hpend]. pose proof (Forall_inv Hpend) as [Hne Hlen]. cbn zeta. unfold FMT_BUF in Hlen.
  assert (ring_copy_out (buf r) (tail r) 4 = le32 (blen rec) /\ queue (set_tail (u32 (tail r + 4)) r) = rec ++ concat (map (frame m) pend)) as [E4 Eq2].
  { rewrite Hq in Eq1. cbn [map concat] in Eq1. unfold frame at 1 in Eq1. cbn [frame_prefix] in Eq1. rewrite <- !app_assoc in Eq1.
    symmetry in Eq1. apply app_inj_1 in Eq1 as [? ?]; [by split|]. destruct Hr as (Hb & ? & ? & ?).
    rewrite copy_out_window, window_length by (done || (unfold CAP; lia)). done. }
  rewrite E4, of_le32_le32 by (unfold blen in *; lia).
  assert (blen rec <= ring_used (set_tail (u32 (tail r + 4)) r)) as Hle.
  { assert (length (queue (set_tail (u32 (tail r + 4)) r)) = Z.to_nat (ring_used (set_tail (u32 (tail r + 4)) r))) as Hl by apply window_length.
    rewrite Eq2, length_app in Hl. unfold blen. pose proof (used_nonneg (set_tail (u32 (tail r + 4)) r)). lia. }
  destruct (advance (set_tail (u32 (tail r + 4)) r) (blen rec) Hr1 ltac:(unfold blen in *; lia)) as (Hr2 & Eu2 & Eq3).
  cbn [buf tail set_tail] in Eq3.
  assert (ring_copy_out (buf r) (u32 (tail r + 4)) (blen rec) = rec /\
    queue (set_tail (u32 (u32 (tail r + 4) + blen rec)) (set_tail (u32 (tail r + 4)) r)) = concat (map (frame m) pend)) as [-> Eq4].
  { rewrite Eq2 in Eq3. symmetry in Eq3. apply app_inj_1 in Eq3 as [? ?]; [by split|]. destruct Hr as (Hb & ? & ? & ?).
    rewrite copy_out_window, window_length by (done || (unfold blen in *; unfold CAP; lia)). unfold blen. lia. }
  split; [done|].
  replace (set_tail (u32 (tail r + 4 + blen rec)) r) with (set_tail (u32 (u32 (tail r + 4) + blen rec)) (set_tail (u32 (tail r + 4)) r)).
  2: { unfold set_tail. cbn. f_equal. unfold u32. by rewrite Zplus_mod_idemp_l. }
  constructor.
  - exact Hr2.
  - apply (pc_advance m (set_tail (u32 (tail r + 4)) r)); [unfold blen in *; lia|done|]. apply pc_advance; [lia|done|done].
  - exists pend. rewrite <- app_assoc. split; [done|]. exact Eq4.
  - apply Forall_app; by split.
Qed.

(** ** The invariant of a sink *)

Definition of_ring (r : nat) (l : list (nat * bytes)) : list bytes := map snd (List.filter (fun p => Nat.eqb (fst p) r) l).

Lemma of_ring_app r l l' : of_ring r (l ++ l') = of_ring r l ++ of_ring r l'.
Proof. unfold of_ring. by rewrite List.filter_app, map_app. Qed.

(** Bytes copied out for a write that is still being put together. *)
Definition in_hand (s : sink) : bytes := match at_consumer s with CCopy _ _ out => out | _ => [] end.

Definition mode_ok (s : sink) : Prop :=
  match at_consumer s with
  | CIdle => True
  | CDgram _ => mode s = HTTP_LOG_WRITE_DGRAM
  | _ => mode s <> HTTP_LOG_WRITE_DGRAM
  end.

Record sink_inv (s : sink) : Prop := {
  si_rings : forall r, ring_inv (mode s) (rings s r) (at_producer s r) (published s r) (of_ring r (pieces s));
  si_mode : mode_ok s;
  si_writes : concat (map snd (writes s)) ++ in_hand s = concat (map snd (pieces s));
  si_dgram : mode s = HTTP_LOG_WRITE_DGRAM -> map snd (writes s) = map snd (pieces s);
}.

Lemma sink_new_inv m : sink_inv (sink_new m).
Proof. constructor; [intros r; apply ring_new_inv|done|done|done]. Qed.

Lemma set_at_eq {A} r (x : A) f : set_at r x f r = x.
Proof. unfold set_at. by rewrite Nat.eqb_refl. Qed.

(** A producer's step concerns its own ring. *)
Lemma producer_step s s' r :
  sink_inv s -> mode s' = mode s -> pieces s' = pieces s -> writes s' = writes s -> at_consumer s' = at_consumer s ->
  (forall r', r' <> r -> rings s' r' = rings s r' /\ at_producer s' r' = at_producer s r' /\ published s' r' = published s r') ->
  ring_inv (mode s) (rings s' r) (at_producer s' r) (published s' r) (of_ring r (pieces s)) ->
  sink_inv s'.
Proof.
  intros [Hri Hm Hw Hd] Em Ep Ew Ec Ho Hr. constructor.
  - intros r'. rewrite Em, Ep. destruct (Nat.eq_dec r' r) as [->|Hn]; [done|]. destruct (Ho r' Hn) as (-> & -> & ->). apply Hri.
  - unfold mode_ok in *. by rewrite Ec, Em.
  - unfold in_hand in *. by rewrite Ew, Ec, Ep.
  - by rewrite Em, Ew, Ep.
Qed.

Lemma set_at_ne {A} r (x : A) f r' : r' <> r -> set_at r x f r' = f r'.
Proof. intros Hn. unfold set_at. by rewrite (proj2 (Nat.eqb_neq _ _)). Qed.

Ltac other_rings := intros r' Hn; cbn; by rewrite ?(set_at_ne _ _ _ _ Hn).

Lemma append_load_inv r rec s s' : sink_inv s -> append_load r rec s = Some s' -> sink_inv s'.
Proof.
  intros Hi. unfold append_load. pose proof (si_rings _ Hi r) as Hr. destruct (at_producer s r) eqn:Ep; [|done..].
  destruct (negb _ || (FMT_BUF <=? blen rec)) eqn:Eg; [done|]. apply orb_false_iff in Eg as [_ Hlen]. b2p.
  destruct (Z.eqb_spec (blen rec) 0) as [|Hne]; [by intros [= <-]|]. fold (ring_used (rings s r)).
  pose proof (ri_ok _ _ _ _ _ Hr) as (_ & _ & _ & Hu). pose proof (used_nonneg (rings s r)).
  pose proof (prefix_length (mode s) rec). assert (0 <= blen (frame_prefix (mode s) rec) /\ 0 <= blen rec) as [? ?] by (unfold blen; lia).
  unfold FMT_BUF in Hlen. rewrite !u32_small by (unfold CAP in *; lia). case_if; b2p; intros [= <-].
  - apply (producer_step s _ r Hi); try done; [other_rings|]. cbn. rewrite set_at_eq, Ep. by apply drop_inv.
  - apply (producer_step s _ r Hi); try done; [other_rings|]. cbn. rewrite set_at_eq. apply load_inv; [done| |lia].
    split; [by destruct rec|done].
Qed.

Lemma append_prefix_inv r s s' : sink_inv s -> append_prefix r s = Some s' -> sink_inv s'.
Proof.
  intros Hi. unfold append_prefix. pose proof (si_rings _ Hi r) as Hr. destruct (at_producer s r) as [|h used pre rec| |] eqn:Ep; [done| |done..].
  intros [= <-]. apply (producer_step s _ r Hi); try done; [other_rings|]. cbn [rings at_producer published with_producer with_ring].
  rewrite !set_at_eq. by apply prefix_inv.
Qed.

Lemma append_record_inv r s s' : sink_inv s -> append_record r s = Some s' -> sink_inv s'.
Proof.
  intros Hi. unfold append_record. pose proof (si_rings _ Hi r) as Hr. destruct (at_producer s r) as [| |h used pre rec|] eqn:Ep; [done..| |done].
  intros [= <-]. apply (producer_step s _ r Hi); try done; [other_rings|]. cbn [rings at_producer published with_producer with_ring].
  rewrite !set_at_eq. by apply copy_inv.
Qed.

Lemma append_publish_inv r posted s s' : sink_inv s -> append_publish r posted s = Some s' -> sink_inv s'.
Proof.
  intros Hi. unfold append_publish. pose proof (si_rings _ Hi r) as Hr. destruct (at_producer s r) as [| | |h used pre rec] eqn:Ep; [done..|].
  assert (forall k, sink_inv (with_kick k (with_published r (published s r ++ [rec])
    (with_producer r PIdle (with_ring r (set_head (u32 (h + u32 (blen pre + blen rec))) (rings s r)) s))))) as Hk.
  { intros k. apply (producer_step s _ r Hi); try done; [other_rings|]. cbn [rings at_producer published with_kick with_published with_producer with_ring].
    rewrite !set_at_eq. by eapply publish_inv. }
  set (s1 := with_published _ _ _) in *. assert (with_kick (kick_pending s1) s1 = s1) as E by by destruct s1.
  case_if; [intros [= <-]; rewrite <- E; apply Hk|]. destruct (kick_pending s1); intros [= <-]; [rewrite <- E|]; apply Hk.
Qed.

(** A step of the log thread that takes nothing. *)
Lemma consumer_step s c k : sink_inv s -> in_hand s = in_hand (with_consumer c s) -> mode_ok (with_consumer c s) ->
  sink_inv (with_consumer c (with_kick k s)).
Proof. intros [Hri Hm Hw Hd] Eh Hc. constructor; [done|done| |done]. rewrite Eh in Hw. exact Hw. Qed.

Lemma kick_inv s s' : sink_inv s -> kick s = Some s' -> sink_inv s'.
Proof.
  intros Hi. unfold kick. destruct (at_consumer s) eqn:Ec; [|done..].
  assert (in_hand s = []) as Eh by (unfold in_hand; by rewrite Ec).
  destruct (active_req (with_kick false s)); intros [= <-].
  - destruct Hi as [? Hm ? ?]. constructor; try done.
  - apply consumer_step; [done|rewrite Eh; by destruct (mode _)|]. unfold mode_ok. cbn. by destruct (mode s).
Qed.

Lemma submit_inv s accepted out :
  (forall r, ring_inv (mode s) (rings s r) (at_producer s r) (published s r) (of_ring r (pieces s))) ->
  concat (map snd (writes s)) ++ out = concat (map snd (pieces s)) ->
  (mode s = HTTP_LOG_WRITE_DGRAM -> out <> [] /\ map snd (writes s) ++ [out] = map snd (pieces s)) ->
  sink_inv (submit accepted out s).
Proof.
  intros Hri Hw Hd. unfold submit. destruct out as [|x out].
  - constructor; [done|done| |]; cbn; [by rewrite <- Hw|]. by intros [? _]%Hd.
  - constructor; [done|done| |]; cbn.
    + rewrite map_app, concat_app. cbn. by rewrite !app_nil_r.
    + intros [_ <-]%Hd. by rewrite map_app.
Qed.

Lemma drain_inv accepted s s' : sink_inv s -> drain accepted s = Some s' -> sink_inv s'.
Proof.
  intros Hi. pose proof Hi as [Hri Hm Hw Hd]. unfold drain, mode_ok, in_hand in *. destruct (at_consumer s) as [|todo total|todo total out|todo] eqn:Ec; [done|..].
  - assert (s = with_kick (kick_pending s) s) as Es by by destruct s.
    destruct todo as [|r todo]; [cbv zeta; destruct (_ =? 0)|]; intros [= <-]; rewrite Es; apply consumer_step; try done; unfold in_hand; by rewrite Ec.
  - assert (sink_inv (submit accepted out s)) as Hsub by by apply submit_inv.
    destruct todo as [|r todo]; [by intros [= <-]|]. destruct (negb (blen out <? total)) eqn:El; [by intros [= <-]|]. apply negb_false_iff in El. b2p.
    destruct (Z.eqb_spec (ring_used (rings s r)) 0) as [_|_].
    { intros [= <-]. assert (s = with_kick (kick_pending s) s) as Es by by destruct s. rewrite Es. apply consumer_step; try done. unfold in_hand. by rewrite Ec. }
    set (n := if total - blen out <? ring_used (rings s r) then _ else _). pose proof (used_nonneg (rings s r)) as Hu.
    assert (0 <= n <= ring_used (rings s r)) as Hn by (subst n; case_if; b2p; lia).
    intros [= <-]. constructor; cbn [mode rings at_producer published pieces writes at_consumer with_pieces with_consumer with_ring].
    + intros r'. rewrite of_ring_app. unfold set_at, of_ring at 2. cbn [List.filter fst]. destruct (Nat.eqb_spec r' r) as [->|Hne].
      * rewrite Nat.eqb_refl. by apply take_inv.
      * rewrite (proj2 (Nat.eqb_neq r r')) by done. rewrite app_nil_r. apply Hri.
    + done.
    + unfold in_hand. cbn. rewrite map_app, concat_app, app_assoc, Hw. cbn. by rewrite app_nil_r.
    + done.
  - destruct todo as [|r todo].
    { intros [= <-]. assert (s = with_kick (kick_pending s) s) as Es by by destruct s. rewrite Es. apply consumer_step; try done. unfold in_hand. by rewrite Ec. }
    case_if; b2p.
    { intros [= <-]. assert (s = with_kick (kick_pending s) s) as Es by by destruct s. rewrite Es. apply consumer_step; try done. unfold in_hand. by rewrite Ec. }
    pose proof (Hri r) as Hr. rewrite Hm in Hr. destruct (take_dgram_inv _ _ _ _ Hr ltac:(lia)) as [Hne Hr'].
    intros [= <-]. specialize (Hd Hm). rewrite app_nil_r in Hw. apply submit_inv; cbn [mode rings at_producer published pieces writes with_pieces with_ring].
    + intros r'. rewrite of_ring_app. unfold set_at, of_ring at 2. cbn [List.filter fst]. destruct (Nat.eqb_spec r' r) as [->|Hne'].
      * rewrite Nat.eqb_refl, Hm. exact Hr'.
      * rewrite (proj2 (Nat.eqb_neq r r')) by done. rewrite app_nil_r. apply Hri.
    + rewrite map_app, concat_app, Hw. cbn. by rewrite app_nil_r.
    + intros _. split; [done|]. by rewrite map_app, Hd.
Qed.

Lemma step_inv l s s' : sink_inv s -> step l s = Some s' -> sink_inv s'.
Proof.
  destruct l; cbn [step]; intros Hi.
  - intros [= <-]. destruct Hi. by constructor.
  - by apply append_load_inv.
  - by apply append_prefix_inv.
  - by apply append_record_inv.
  - by apply append_publish_inv.
  - by apply kick_inv.
  - by apply drain_inv.
  - unfold complete. destruct (active_req s); [|done]. destruct (at_consumer s) eqn:Ec; [|done..]. apply kick_inv. destruct Hi. by constructor.
Qed.

Lemma run_inv ls s s' : sink_inv s -> run ls s = Some s' -> sink_inv s'.
Proof.
  revert s. induction ls as [|l ls IH]; intros s Hi; cbn [run]; [by intros [= <-]|].
  destruct (step l s) as [s1|] eqn:E; [|done]. cbn [mbind option_bind]. apply IH. by eapply step_inv.
Qed.

(** ** Who is drained *)

Definition todo_of (c : consumer_pc) : list nat :=
  match c with CIdle => [] | CSum l _ | CCopy l _ _ | CDgram l => l end.

(** Rings are numbered in the order in which threads joined, and only rings of
    threads that joined are drained. *)
Record ids_ok (s : sink) : Prop := {
  id_bound : forall r, In r (producers s) -> (r < length (producers s))%nat;
  id_todo : incl (todo_of (at_consumer s)) (producers s);
  id_pieces : Forall (fun p => In (fst p) (producers s)) (pieces s);
}.

Lemma step_mode l s s' : step l s = Some s' -> mode s' = mode s.
Proof.
  destruct l; cbn [step]; unfold join, append_load, append_prefix, append_record, append_publish, complete, kick, drain, submit; intros E;
    repeat case_match; simplify_eq; try done.
Qed.

Lemma run_mode ls s s' : run ls s = Some s' -> mode s' = mode s.
Proof.
  revert s. induction ls as [|l ls IH]; intros s; cbn [run]; [by intros [= <-]|].
  destruct (step l s) as [s1|] eqn:E; [|done]. cbn [mbind option_bind]. intros Hr. by rewrite (IH _ Hr), (step_mode _ _ _ E).
Qed.

Lemma ids_same s s' : ids_ok s -> producers s' = producers s -> at_consumer s' = at_consumer s -> pieces s' = pieces s -> ids_ok s'.
Proof. intros [? ? ?] Ep Ec El. constructor; by rewrite ?Ep, ?Ec, ?El. Qed.

Lemma ids_todo s c : ids_ok s -> incl (todo_of c) (producers s) -> ids_ok (with_consumer c s).
Proof. intros [? ? ?] Hc. by constructor. Qed.

Lemma kick_ids s s' : ids_ok s -> kick s = Some s' -> ids_ok s'.
Proof.
  intros Hi. unfold kick. destruct (at_consumer s) eqn:Ec; [|done..]. destruct (active_req _); intros [= <-]; [by apply (ids_same s)|].
  apply ids_todo; [by apply (ids_same s)|]. cbn. destruct (mode s); apply incl_refl.
Qed.

Lemma submit_ids accepted out s : ids_ok s -> ids_ok (submit accepted out s).
Proof. intros Hi. unfold submit. destruct out; apply ids_todo; try apply incl_nil_l; [done|]. by apply (ids_same s). Qed.

Lemma drain_ids accepted s s' : ids_ok s -> drain accepted s = Some s' -> ids_ok s'.
Proof.
  intros Hi. pose proof Hi as [Hb Ht Hp]. unfold drain. destruct (at_consumer s) as [|todo total|todo total out|todo] eqn:Ec; [done|..]; cbn [todo_of] in Ht.
  - destruct todo as [|r todo]; [cbv zeta; destruct (_ =? 0)|]; intros [= <-]; (apply ids_todo; [done|]);
      [apply incl_nil_l|apply incl_refl|by apply incl_cons_inv in Ht as [_ ?]].
  - destruct todo as [|r todo]; [intros [= <-]; by apply submit_ids|]. apply incl_cons_inv in Ht as [Hr Ht].
    destruct (negb _); [intros [= <-]; by apply submit_ids|]. destruct (_ =? 0); [intros [= <-]; by apply ids_todo|].
    intros [= <-]. constructor; cbn; [done|done|]. apply Forall_app; split; [done|]. by repeat constructor.
  - destruct todo as [|r todo]; [intros [= <-]; apply ids_todo; [done|apply incl_nil_l]|]. apply incl_cons_inv in Ht as [Hr Ht].
    case_if; [intros [= <-]; by apply ids_todo|]. intros [= <-]. apply submit_ids. constructor; cbn; [done|by rewrite Ec; apply incl_cons|].
    apply Forall_app; split; [done|]. by repeat constructor.
Qed.

Lemma step_ids l s s' : ids_ok s -> step l s = Some s' -> ids_ok s'.
Proof.
  intros Hi. destruct l; cbn [step].
  - intros [= <-]. destruct Hi as [Hb Ht Hp]. constructor; cbn.
    + intros r [<-|Hr%Hb]; lia.
    + by apply incl_tl.
    + eapply Forall_impl; [exact Hp|]. intros p Hin. by right.
  - unfold append_load. intros E. repeat case_match; simplify_eq; first [done | by apply (ids_same s)].
  - unfold append_prefix. intros E. repeat case_match; simplify_eq; first [done | by apply (ids_same s)].
  - unfold append_record. intros E. repeat case_match; simplify_eq; first [done | by apply (ids_same s)].
  - unfold append_publish. intros E. repeat case_match; simplify_eq; first [done | by apply (ids_same s)].
  - by apply kick_ids.
  - by apply drain_ids.
  - unfold complete. destruct (active_req s); [|done]. destruct (at_consumer s) eqn:Ec; [|done..]. apply kick_ids. by apply (ids_same s).
Qed.

Lemma run_ids ls s s' : ids_ok s -> run ls s = Some s' -> ids_ok s'.
Proof.
  revert s. induction ls as [|l ls IH]; intros s Hi; cbn [run]; [by intros [= <-]|].
  destruct (step l s) as [s1|] eqn:E; [|done]. cbn [mbind option_bind]. apply IH. by eapply step_ids.
Qed.

Lemma sink_new_ids m : ids_ok (sink_new m).
Proof. constructor; [done|apply incl_nil_l|constructor]. Qed.

(** ** What is written *)


(** a datagram sink sends one record per write.  Under any interleaving, the
    writes are the pieces taken, each of them is exactly one published record, and the
    records of a producer leave in the order of their publication, those not yet sent
    being in its ring. *)
Theorem log_dgram_whole_records ls s :
  run ls (sink_new HTTP_LOG_WRITE_DGRAM) = Some s ->
  map snd (writes s) = map snd (pieces s) /\
  forall r, exists pending, published s r = of_ring r (pieces s) ++ pending /\
    queue (rings s r) = concat (map (frame HTTP_LOG_WRITE_DGRAM) pending).
Proof.
  intros Hrun. pose proof (run_inv _ _ _ (sink_new_inv _) Hrun) as [Hri _ _ Hd]. pose proof (run_mode _ _ _ Hrun) as Em. cbn in Em.
  split; [by apply Hd|]. intros r. pose proof (ri_flow _ _ _ _ _ (Hri r)) as Hfl. by rewrite Em in Hfl.
Qed.

(** A whole append of a producer. *)
Definition append (r : nat) (rec : string) : list label := [Load r (lit rec ++ [LF]); Prefix r; Copy r; Publish r true].

Definition two_appends : list label :=
  Join :: append 0 "one" ++ [Kick; Drain true; Drain true; Drain true; Drain true] ++ append 0 "two".


Definition two_datagrams : list label := Join :: append 0 "one" ++ append 0 "two" ++ [Kick; Drain true].

Lemma log_dgram_whole_records_witness :
  exists s, run two_datagrams (sink_new HTTP_LOG_WRITE_DGRAM) = Some s /\
    map snd (writes s) = map snd (pieces s) /\ map snd (writes s) = [lit "one" ++ [LF]].
Proof.
  assert ((fun s => map snd (writes s)) <$> run two_datagrams (sink_new HTTP_LOG_WRITE_DGRAM) =
    Some [lit "one" ++ [LF]]) as Hs by (vm_compute; reflexivity).
  destruct (run two_datagrams (sink_new HTTP_LOG_WRITE_DGRAM)) as [s|] eqn:E; [|done]. injection Hs as Hw.
  exists s. split; [done|]. split; [apply (log_dgram_whole_records _ s E)|done].
Defined.

Fixpoint occurs (needle s : bytes) : bool :=
  starts_with needle s || match s with [] => false | _ :: r => occurs needle r end.

(** The second producer appends while the log thread is between its two loops. *)
Definition torn : list label :=
  [Join; Join] ++ append 0 "aaaa" ++ append 1 "bbbb" ++ [Kick; Drain true; Drain true] ++ append 1 "cc" ++
  [Drain true; Drain true; Drain true; Drain true; Complete] ++ append 1 "dd" ++
  [Drain true; Drain true; Drain true; Drain true; Drain true; Drain true].

(** a stream sink with two producers can tear a record.  The log thread adds up
    the fill levels first and copies afterwards; what a producer appends in between
    takes the room of a ring further down the list, whose last record is cut, and the
    next write starts with the rings in front again.  Both writes are taken and the
    rings end up empty, but the record of the first producer is not in the stream:
    its halves surround a record of the other one. *)
Theorem log_stream_tears_record :
  exists ls s, run ls (sink_new HTTP_LOG_WRITE_STREAM) = Some s /\
    published s 0%nat = [lit "aaaa" ++ [LF]] /\ published s 1%nat = [lit "bbbb" ++ [LF]; lit "cc" ++ [LF]; lit "dd" ++ [LF]] /\
    writes s = [(true, lit "bbbb" ++ [LF] ++ lit "cc" ++ [LF] ++ lit "aa"); (true, lit "dd" ++ [LF] ++ lit "aa" ++ [LF])] /\
    ring_used (rings s 0%nat) = 0 /\ ring_used (rings s 1%nat) = 0 /\
    occurs (lit "aaaa" ++ [LF]) (concat (map snd (writes s))) = false.
Proof.
  exists torn.
  assert ((fun s => (published s 0%nat, published s 1%nat, writes s, ring_used (rings s 0%nat), ring_used (rings s 1%nat))) <$>
      run torn (sink_new HTTP_LOG_WRITE_STREAM) =
    Some ([lit "aaaa" ++ [LF]], [lit "bbbb" ++ [LF]; lit "cc" ++ [LF]; lit "dd" ++ [LF]],
      [(true, lit "bbbb" ++ [LF] ++ lit "cc" ++ [LF] ++ lit "aa"); (true, lit "dd" ++ [LF] ++ lit "aa" ++ [LF])], 0, 0)) as Hs
    by (vm_compute; reflexivity).
  destruct (run torn (sink_new HTTP_LOG_WRITE_STREAM)) as [s|]; [|done]. injection Hs as H0 H1 Hw Hu0 Hu1.
  exists s. rewrite Hw. by split_and!.
Qed.
End LogRingProps.
