(* ===== verification/LogFormat.v ===== *)
(** * Log records

    src/src/log/http_log.c: the bounded string builder, the formatters (plain, logfmt,
    json, pretty, template, syslog), the template compiler, the fan-out of a record to
    the sinks and the access record. *)

From S2P Require Import Prelude HttpDate.

Module LogFormat.

(** ** Records *)

Inductive http_log_severity_t := HTTP_LOG_OFF | HTTP_LOG_DEBUG | HTTP_LOG_INFO | HTTP_LOG_WARN | HTTP_LOG_ERROR.

#[export] Instance severity_eq : EqDecision http_log_severity_t.
Proof. solve_decision. Defined.

Definition severity_number (s : http_log_severity_t) : Z :=
  match s with HTTP_LOG_OFF => 0 | HTTP_LOG_DEBUG => 5 | HTTP_LOG_INFO => 9 | HTTP_LOG_WARN => 13 | HTTP_LOG_ERROR => 17 end.

Definition HTTP_LOG_CAT_APP : Z := 1.
Definition HTTP_LOG_CAT_ACCESS : Z := 2.

(** A double is carried as the text [%g] prints for it. *)
Inductive attr_value :=
  | HTTP_LOG_ATTR_STR (s : option bytes)
  | HTTP_LOG_ATTR_I64 (n : Z)
  | HTTP_LOG_ATTR_U64 (n : Z)
  | HTTP_LOG_ATTR_BOOL (b : bool)
  | HTTP_LOG_ATTR_F64 (g : bytes).

Record http_log_attr_t := { key : bytes; v : attr_value }.

(** The wall clock as [gmtime_r] breaks it down, with its milliseconds. *)
Record http_log_record_t := {
  tm_buf : HttpDate.tm;
  ms : Z;
  severity : http_log_severity_t;
  category : Z;
  rec_body : option bytes;
  attrs : list http_log_attr_t;
  trace_id : bytes;
  span_id : bytes;
  has_trace : bool;
}.

Definition severity_text (s : http_log_severity_t) : bytes :=
  match s with
  | HTTP_LOG_ERROR => lit "ERROR"
  | HTTP_LOG_WARN => lit "WARN"
  | HTTP_LOG_INFO => lit "INFO"
  | HTTP_LOG_DEBUG => lit "DEBUG"
  | HTTP_LOG_OFF => lit "?"
  end.

(** ** Bounded output *)

(** [len] is the length of [out]; the terminating NUL is not kept. *)
Record log_sbuf_t := { cap : Z; out : bytes }.

Definition len (sb : log_sbuf_t) : Z := Z.of_nat (length (out sb)).

Definition sb_init (n : Z) : log_sbuf_t := {| cap := n; out := [] |}.

Definition sb_write (s : bytes) (sb : log_sbuf_t) : log_sbuf_t :=
  {| cap := cap sb; out := out sb ++ take (Z.to_nat (cap sb - 1 - len sb)) s |}.

Definition sb_putc (c : Z) : log_sbuf_t -> log_sbuf_t := sb_write [c].
Definition sb_puts (s : bytes) : log_sbuf_t -> log_sbuf_t := sb_write (c_str s).

(** [vsnprintf] of a text into what is left. *)
Definition sb_printf (text : bytes) (sb : log_sbuf_t) : log_sbuf_t :=
  if cap sb <=? len sb + 1 then sb
  else
    let avail := cap sb - len sb in
    {| cap := cap sb; out := out sb ++ take (Z.to_nat (avail - 1)) text |}.

Definition sb_end_line (sb : log_sbuf_t) : log_sbuf_t :=
  if len sb + 1 <? cap sb then {| cap := cap sb; out := out sb ++ [LF] |}
  else if 2 <=? cap sb then {| cap := cap sb; out := take (Z.to_nat (cap sb - 2)) (out sb) ++ [LF] |}
  else sb.

Definition hexd (n : Z) : Z := if n <? 10 then 48 + n else 87 + n.

Fixpoint sb_put_hex (s : bytes) (sb : log_sbuf_t) : log_sbuf_t :=
  match s with
  | [] => sb
  | c :: r => sb_put_hex r (sb_putc (hexd (c mod 16)) (sb_putc (hexd (c / 16)) sb))
  end.

Definition BACKSLASH : Z := 92.
Definition DQ : Z := 34.

Fixpoint sb_put_text_safe (s : bytes) (sb : log_sbuf_t) : log_sbuf_t :=
  match s with
  | [] => sb
  | c :: r =>
      sb_put_text_safe r
        (if (c <? 32) || (c =? 127) then sb_putc (hexd (c mod 16)) (sb_putc (hexd (c / 16)) (sb_puts [BACKSLASH; 120] sb))
         else sb_putc c sb)
  end.

(** ** JSON *)

Definition cont (c : Z) : bool := Z.land c 192 =? 128.

Definition utf8_seq_len (s : bytes) : nat :=
  match s with
  | [] => 0%nat
  | c :: r =>
      if Z.land c 224 =? 192 then
        match r with
        | s1 :: _ => if (194 <=? c) && cont s1 then 2%nat else 0%nat
        | [] => 0%nat
        end
      else if Z.land c 240 =? 224 then
        match r with
        | s1 :: s2 :: _ =>
            if negb (cont s1) || negb (cont s2) then 0%nat
            else if (c =? 224) && (s1 <? 160) then 0%nat
            else if (c =? 237) && (160 <=? s1) then 0%nat
            else 3%nat
        | _ => 0%nat
        end
      else if Z.land c 248 =? 240 then
        match r with
        | s1 :: s2 :: s3 :: _ =>
            if (244 <? c) || negb (cont s1) || negb (cont s2) || negb (cont s3) then 0%nat
            else if (c =? 240) && (s1 <? 144) then 0%nat
            else if (c =? 244) && (144 <=? s1) then 0%nat
            else 4%nat
        | _ => 0%nat
        end
      else 0%nat
  end.

Definition REPLACEMENT : bytes := [239; 191; 189].

(** [\u%04x] of a byte below 0x20. *)
Definition u_escape (c : Z) : bytes := [BACKSLASH; 117; 48; 48; hexd (c / 16); hexd (c mod 16)].

Definition json_escape (c : Z) : option bytes :=
  if c =? DQ then Some [BACKSLASH; DQ]
  else if c =? BACKSLASH then Some [BACKSLASH; BACKSLASH]
  else if c =? LF then Some [BACKSLASH; 110]
  else if c =? CR then Some [BACKSLASH; 114]
  else if c =? 9 then Some [BACKSLASH; 116]
  else if c =? 8 then Some [BACKSLASH; 98]
  else if c =? 12 then Some [BACKSLASH; 102]
  else None.

(** The loop of [sb_put_json_str]; every turn takes a byte. *)
Fixpoint put_json_body (fuel : nat) (s : bytes) (sb : log_sbuf_t) : log_sbuf_t :=
  match fuel, s with
  | O, _ | _, [] => sb
  | S f, c :: r =>
      if 128 <=? c then
        match utf8_seq_len s with
        | O => put_json_body f r (sb_puts REPLACEMENT sb)
        | n => put_json_body f (drop n s) (sb_write (take n s) sb)
        end
      else
        put_json_body f r
          match json_escape c with
          | Some e => sb_puts e sb
          | None => if c <? 32 then sb_printf (u_escape c) sb else sb_putc c sb
          end
  end.

Definition sb_put_json_str (s : bytes) (sb : log_sbuf_t) : log_sbuf_t :=
  sb_putc DQ (put_json_body (length s) s (sb_putc DQ sb)).

(** ** logfmt *)

Definition logfmt_special (c : Z) : bool := (c =? SP) || (c =? DQ) || (c =? 61) || (c <? 32).

Fixpoint put_logfmt_quoted (s : bytes) (sb : log_sbuf_t) : log_sbuf_t :=
  match s with
  | [] => sb
  | c :: r => put_logfmt_quoted r (sb_putc c (if (c =? DQ) || (c =? BACKSLASH) then sb_putc BACKSLASH sb else sb))
  end.

Definition sb_put_logfmt_val (s : bytes) (sb : log_sbuf_t) : log_sbuf_t :=
  let quote := match s with [] => true | _ => existsb logfmt_special s end in
  if quote then sb_putc DQ (put_logfmt_quoted s (sb_putc DQ sb)) else sb_write s sb.

(** ** Numbers and times *)

(** [%0<w>d] of a number that is not negative. *)
Definition pad (w : nat) (n : Z) : bytes := let s := print_u n in repeat 48 (w - length s) ++ s.
Definition dec_signed (n : Z) : bytes := if n <? 0 then 45 :: print_u (- n) else print_u n.

(** The second's part: [snprintf] into 21 bytes. *)
Definition iso_prefix (t : HttpDate.tm) : bytes :=
  take 20 (pad 4 (HttpDate.tm_year t + 1900) ++ [45] ++ pad 2 (HttpDate.tm_mon t + 1) ++ [45] ++ pad 2 (HttpDate.tm_mday t) ++ [84] ++
           pad 2 (HttpDate.tm_hour t) ++ [58] ++ pad 2 (HttpDate.tm_min t) ++ [58] ++ pad 2 (HttpDate.tm_sec t) ++ [46]).

Definition format_iso8601 (t : HttpDate.tm) (milli : Z) : bytes :=
  iso_prefix t ++ [48 + milli / 100; 48 + milli / 10 mod 10; 48 + milli mod 10; 90].

(** ** Attributes *)

Inductive log_style_t := LOG_STYLE_PLAIN | LOG_STYLE_LOGFMT | LOG_STYLE_JSON | LOG_STYLE_PRETTY.

Definition ESC : Z := 27.
Definition ANSI_RESET : bytes := ESC :: lit "[0m".
Definition ANSI_DIM : bytes := ESC :: lit "[2m".
Definition ANSI_RED : bytes := ESC :: lit "[31m".
Definition ANSI_GREEN : bytes := ESC :: lit "[32m".
Definition ANSI_YELLOW : bytes := ESC :: lit "[33m".

Definition put_attr_key (style : log_style_t) (first : bool) (k : bytes) (sb : log_sbuf_t) : log_sbuf_t :=
  match style with
  | LOG_STYLE_JSON => sb_putc COLON (sb_put_json_str (c_str k) (if first then sb else sb_putc 44 sb))
  | LOG_STYLE_PRETTY => sb_putc 61 (sb_puts ANSI_RESET (sb_puts k (sb_puts ANSI_DIM (sb_putc SP sb))))
  | _ => sb_putc 61 (sb_puts k (sb_putc SP sb))
  end.

Definition put_attr_value (style : log_style_t) (a : attr_value) (sb : log_sbuf_t) : log_sbuf_t :=
  match a with
  | HTTP_LOG_ATTR_STR s =>
      match style with
      | LOG_STYLE_JSON => sb_put_json_str (c_str (default [] s)) sb
      | LOG_STYLE_LOGFMT => sb_put_logfmt_val (c_str (default [] s)) sb
      | _ => match s with Some s => sb_put_text_safe (c_str s) sb | None => sb_puts (lit "(null)") sb end
      end
  | HTTP_LOG_ATTR_I64 n => sb_printf (dec_signed n) sb
  | HTTP_LOG_ATTR_U64 n => sb_printf (print_u n) sb
  | HTTP_LOG_ATTR_BOOL b => sb_puts (if b then lit "true" else lit "false") sb
  | HTTP_LOG_ATTR_F64 g => sb_printf g sb
  end.

Fixpoint put_attrs (style : log_style_t) (first : bool) (l : list http_log_attr_t) (sb : log_sbuf_t) : log_sbuf_t :=
  match l with
  | [] => sb
  | a :: r => put_attrs style false r (put_attr_value style (v a) (put_attr_key style first (key a) sb))
  end.

Definition sb_put_attrs (rec : http_log_record_t) (style : log_style_t) : log_sbuf_t -> log_sbuf_t := put_attrs style true (attrs rec).

(** ** Formatters *)

Definition put_body (rec : http_log_record_t) (sb : log_sbuf_t) : log_sbuf_t :=
  match rec_body rec with Some s => sb_put_text_safe s sb | None => sb end.

Definition timestamp (rec : http_log_record_t) : bytes := format_iso8601 (tm_buf rec) (ms rec).

Definition http_log_format_plain (rec : http_log_record_t) (buf_len : Z) : bytes :=
  if buf_len <? 2 then []
  else
    let sb := sb_putc SP (sb_puts (timestamp rec) (sb_init buf_len)) in
    let sb := sb_putc SP (sb_puts (severity_text (severity rec)) sb) in
    let sb := sb_put_attrs rec LOG_STYLE_PLAIN (put_body rec sb) in
    out (sb_end_line sb).

Definition http_log_format_logfmt (rec : http_log_record_t) (buf_len : Z) : bytes :=
  if buf_len <? 2 then []
  else
    let sb := sb_printf (lit "ts=" ++ timestamp rec ++ lit " level=" ++ severity_text (severity rec) ++ lit " msg=") (sb_init buf_len) in
    let sb := sb_put_logfmt_val (default [] (rec_body rec)) sb in
    out (sb_end_line (sb_put_attrs rec LOG_STYLE_LOGFMT sb)).

(** A member name with its quotes and colon. *)
Definition member (name : bytes) : bytes := [DQ] ++ name ++ [DQ; COLON].

Definition http_log_format_json (rec : http_log_record_t) (buf_len : Z) : bytes :=
  if buf_len <? 2 then []
  else
    let sb := sb_printf (lit "{" ++ member (lit "Timestamp") ++ [DQ] ++ timestamp rec ++ [DQ] ++ lit "," ++ member (lit "SeverityNumber")
                           ++ print_u (severity_number (severity rec)) ++ lit "," ++ member (lit "SeverityText")) (sb_init buf_len) in
    let sb := sb_put_json_str (severity_text (severity rec)) sb in
    let sb := sb_puts (lit "," ++ member (lit "Body")) sb in
    let sb := sb_put_json_str (default [] (rec_body rec)) sb in
    let sb := match attrs rec with
              | [] => sb
              | _ => sb_putc 125 (sb_put_attrs rec LOG_STYLE_JSON (sb_puts (lit "," ++ member (lit "Attributes") ++ lit "{") sb))
              end in
    let sb := if has_trace rec then
                sb_putc DQ (sb_put_hex (span_id rec) (sb_puts ([DQ] ++ lit "," ++ member (lit "SpanId") ++ [DQ])
                  (sb_put_hex (trace_id rec) (sb_puts (lit "," ++ member (lit "TraceId") ++ [DQ]) sb))))
              else sb in
    out (sb_end_line (sb_putc 125 sb)).

Definition pretty_level_style (s : http_log_severity_t) : bytes * bytes :=
  match s with
  | HTTP_LOG_DEBUG => (lit "DEBUG", ANSI_DIM)
  | HTTP_LOG_WARN => (lit "WARN ", ANSI_YELLOW)
  | HTTP_LOG_ERROR => (lit "ERROR", ANSI_RED)
  | HTTP_LOG_INFO | HTTP_LOG_OFF => (lit "INFO ", ANSI_GREEN)
  end.

(** The time of day within the timestamp. *)
Definition format_clock (rec : http_log_record_t) : bytes := take 12 (drop 11 (timestamp rec)).

Definition put_if (c : bool) (s : bytes) (sb : log_sbuf_t) : log_sbuf_t := if c then sb_puts s sb else sb.

Definition http_log_format_pretty (color : bool) (rec : http_log_record_t) (buf_len : Z) : bytes :=
  if buf_len <? 2 then []
  else
    let '(badge, col) := pretty_level_style (severity rec) in
    let sb := put_if color ANSI_RESET (sb_puts (format_clock rec) (put_if color ANSI_DIM (sb_init buf_len))) in
    let sb := put_if color ANSI_RESET (sb_puts badge (put_if color col (sb_puts (lit "  ") sb))) in
    let sb := put_body rec (sb_puts (lit "  ") sb) in
    out (sb_end_line (sb_put_attrs rec (if color then LOG_STYLE_PRETTY else LOG_STYLE_PLAIN) sb)).

(** *** Templates *)

Inductive log_tmpl_kind_t := TMPL_LIT | TMPL_TS | TMPL_LEVEL | TMPL_MSG | TMPL_ATTRS | TMPL_TRACE | TMPL_SPAN.

Record log_tmpl_seg_t := { kind : log_tmpl_kind_t; seg_off : Z; seg_len : Z }.
Record log_tmpl_t := { segs : list log_tmpl_seg_t; text : bytes }.

Definition LOG_TMPL_MAX_SEGS : Z := 24.
Definition HTTP_LOG_TEMPLATE_MAX : Z := 256.

Definition u16 (n : Z) : Z := n mod 2 ^ 16.

Definition tmpl_push (l : list log_tmpl_seg_t) (k : log_tmpl_kind_t) (o n : Z) : option (list log_tmpl_seg_t) :=
  if LOG_TMPL_MAX_SEGS <=? Z.of_nat (length l) then None
  else Some (l ++ [{| kind := k; seg_off := u16 o; seg_len := u16 n |}]).

Definition tmpl_fields : list (bytes * log_tmpl_kind_t) :=
  [(lit "ts", TMPL_TS); (lit "level", TMPL_LEVEL); (lit "msg", TMPL_MSG); (lit "attrs", TMPL_ATTRS);
   (lit "trace", TMPL_TRACE); (lit "span", TMPL_SPAN)].

Fixpoint tmpl_field (name : bytes) (l : list (bytes * log_tmpl_kind_t)) : option log_tmpl_kind_t :=
  match l with
  | [] => None
  | (kw, k) :: r => if eqb_bytes kw name then Some k else tmpl_field name r
  end.

Definition zlen (s : bytes) : Z := Z.of_nat (length s).

(** One turn of the loop per call: [i] is the position, [rest] the text from there. *)
Fixpoint tmpl_loop (fuel : nat) (i : Z) (rest : bytes) (l : list log_tmpl_seg_t) : option (list log_tmpl_seg_t) :=
  match fuel, rest with
  | O, _ => None
  | _, [] => Some l
  | S f, _ =>
      let run := take_while (isnt 123) rest in
      l ← match run with [] => Some l | _ => tmpl_push l TMPL_LIT i (zlen run) end;
      let i := i + zlen run in
      match drop_while (isnt 123) rest with
      | [] => Some l
      | open :: inner =>
          let name := take_while (isnt 125) inner in
          match drop_while (isnt 125) inner with
          | [] => tmpl_push l TMPL_LIT i (1 + zlen inner)
          | _ :: after =>
              let word := take_while (isnt COLON) name in
              l ← match tmpl_field word tmpl_fields with
                  | None => tmpl_push l TMPL_LIT i (zlen name + 2)
                  | Some TMPL_TS =>
                      if zlen word <? zlen name then tmpl_push l TMPL_TS (i + 1 + zlen word + 1) (zlen name - zlen word - 1)
                      else tmpl_push l TMPL_TS 0 0
                  | Some k => tmpl_push l k 0 0
                  end;
              tmpl_loop f (i + zlen name + 2) after l
          end
      end
  end.

Definition http_log_template_parse (tmpl : bytes) : option log_tmpl_t :=
  if (zlen tmpl =? 0) || (HTTP_LOG_TEMPLATE_MAX <? zlen tmpl) then None
  else l ← tmpl_loop (S (length tmpl)) 0 tmpl []; Some {| segs := l; text := tmpl |}.

Definition tmpl_put_ts_char (t : HttpDate.tm) (milli c : Z) (sb : log_sbuf_t) : log_sbuf_t :=
  if c =? 89 then sb_printf (pad 4 (HttpDate.tm_year t + 1900)) sb
  else if c =? 121 then sb_printf (pad 2 ((HttpDate.tm_year t + 1900) mod 100)) sb
  else if c =? 109 then sb_printf (pad 2 (HttpDate.tm_mon t + 1)) sb
  else if c =? 100 then sb_printf (pad 2 (HttpDate.tm_mday t)) sb
  else if c =? 72 then sb_printf (pad 2 (HttpDate.tm_hour t)) sb
  else if c =? 105 then sb_printf (pad 2 (HttpDate.tm_min t)) sb
  else if c =? 115 then sb_printf (pad 2 (HttpDate.tm_sec t)) sb
  else if c =? 118 then sb_printf (pad 3 milli) sb
  else sb_putc c sb.

Definition tmpl_put_ts (rec : http_log_record_t) (pat : bytes) (sb : log_sbuf_t) : log_sbuf_t :=
  fold_left (fun sb c => tmpl_put_ts_char (tm_buf rec) (ms rec) c sb) pat sb.

Definition seg_text (t : log_tmpl_t) (seg : log_tmpl_seg_t) : bytes := take (Z.to_nat (seg_len seg)) (drop (Z.to_nat (seg_off seg)) (text t)).

Definition put_segment (t : log_tmpl_t) (rec : http_log_record_t) (sb : log_sbuf_t) (seg : log_tmpl_seg_t) : log_sbuf_t :=
  match kind seg with
  | TMPL_LIT => sb_write (seg_text t seg) sb
  | TMPL_TS => if seg_len seg =? 0 then sb_puts (timestamp rec) sb else tmpl_put_ts rec (seg_text t seg) sb
  | TMPL_LEVEL => sb_puts (severity_text (severity rec)) sb
  | TMPL_MSG => put_body rec sb
  | TMPL_ATTRS => sb_put_attrs rec LOG_STYLE_PLAIN sb
  | TMPL_TRACE => if has_trace rec then sb_put_hex (trace_id rec) sb else sb
  | TMPL_SPAN => if has_trace rec then sb_put_hex (span_id rec) sb else sb
  end.

Definition http_log_format_template (t : option log_tmpl_t) (rec : http_log_record_t) (buf_len : Z) : bytes :=
  match t with
  | None => http_log_format_plain rec buf_len
  | Some t => if buf_len <? 2 then [] else out (sb_end_line (fold_left (put_segment t rec) (segs t) (sb_init buf_len)))
  end.

(** *** Syslog *)

Definition syslog_severity (s : http_log_severity_t) : Z :=
  match s with HTTP_LOG_ERROR => 3 | HTTP_LOG_WARN => 4 | HTTP_LOG_DEBUG => 7 | HTTP_LOG_INFO | HTTP_LOG_OFF => 6 end.

Definition http_log_format_syslog (host : bytes) (pid facility : Z) (rec : http_log_record_t) (buf_len : Z) : bytes :=
  let facility := if (facility <? 0) || (23 <? facility) then 1 else facility in
  let pri := facility * 8 + syslog_severity (severity rec) in
  let sb := sb_printf (lit "<" ++ dec_signed pri ++ lit ">1 " ++ timestamp rec ++ [SP] ++ c_str host ++ lit " php-http-server " ++
                       dec_signed pid ++ lit " - - ") (sb_init buf_len) in
  out (sb_put_attrs rec LOG_STYLE_PLAIN (put_body rec sb)).
(** [formatter_ud] of the syslog formatter: the facility of the spec, user when it names none. *)
Definition facilities : list (bytes * Z) :=
  [(lit "kern", 0); (lit "user", 1); (lit "mail", 2); (lit "daemon", 3); (lit "auth", 4); (lit "syslog", 5); (lit "lpr", 6); (lit "news", 7);
   (lit "uucp", 8); (lit "cron", 9); (lit "authpriv", 10); (lit "ftp", 11); (lit "local0", 16); (lit "local1", 17); (lit "local2", 18);
   (lit "local3", 19); (lit "local4", 20); (lit "local5", 21); (lit "local6", 22); (lit "local7", 23)].

(** The keyword scan of the two tables. *)
Fixpoint keyword (name : bytes) (l : list (bytes * Z)) (none : Z) : Z :=
  match l with
  | [] => none
  | (kw, code) :: r => if eqb_bytes kw name then code else keyword name r none
  end.

Definition http_log_syslog_facility (name : bytes) : Z := keyword name facilities (-1).

Definition categories : list (bytes * Z) :=
  [(lit "app", HTTP_LOG_CAT_APP); (lit "access", HTTP_LOG_CAT_ACCESS); (lit "all", Z.lor HTTP_LOG_CAT_APP HTTP_LOG_CAT_ACCESS)].

Definition http_log_category_mask (name : bytes) : Z := keyword name categories 0.

(** ** Fan-out *)

Inductive formatter_fn := fmt_plain | fmt_logfmt | fmt_json | fmt_pretty | fmt_template | fmt_syslog.

#[export] Instance formatter_eq : EqDecision formatter_fn.
Proof. solve_decision. Defined.

(** What the formatters read outside the record: the compiled template at an address, the
    host name and the process id. *)
Record env := { template_at : Z -> log_tmpl_t; syslog_host : bytes; getpid : Z }.

(** [formatter_ud] is a pointer-sized number: a flag, a facility or the address of a template. *)
Definition call_formatter (e : env) (f : formatter_fn) (ud : Z) (rec : http_log_record_t) (buf_len : Z) : bytes :=
  match f with
  | fmt_plain => http_log_format_plain rec buf_len
  | fmt_logfmt => http_log_format_logfmt rec buf_len
  | fmt_json => http_log_format_json rec buf_len
  | fmt_pretty => http_log_format_pretty (negb (ud =? 0)) rec buf_len
  | fmt_template => http_log_format_template (if ud =? 0 then None else Some (template_at e ud)) rec buf_len
  | fmt_syslog => http_log_format_syslog (syslog_host e) (getpid e) ud rec buf_len
  end.

Record http_log_sink_t := {
  severity_floor : http_log_severity_t;
  category_mask : Z;
  formatter : formatter_fn;
  formatter_ud : Z;
}.

Record http_log_state_t := {
  gate : http_log_severity_t;
  has_access : bool;
  sinks : list http_log_sink_t;
}.

Definition HTTP_LOG_MAX_SINKS : nat := 8.
Definition HTTP_LOG_FMT_SLOTS : nat := 4.
Definition FBUF : Z := 2048.

Definition below (a b : http_log_severity_t) : bool := severity_number a <? severity_number b.

Definition skipped (rec : http_log_record_t) (sink : http_log_sink_t) : bool :=
  bool_decide (severity_floor sink = HTTP_LOG_OFF) || below (severity rec) (severity_floor sink)
  || (Z.land (category_mask sink) (category rec) =? 0).

(** A slot of the cache with its stamp; [meta[k].len] is the length of [fbuf]. *)
Record slot := { fn : formatter_fn; ud : Z; fbuf : bytes }.

Fixpoint find_slot (f : formatter_fn) (u : Z) (k : nat) (meta : list slot) : option nat :=
  match meta with
  | [] => None
  | m :: r => if bool_decide (fn m = f) && (ud m =? u) then Some k else find_slot f u (S k) r
  end.

(** The calls of [http_log_sink_write], each with the index of its sink. *)
Fixpoint dispatch_loop (e : env) (rec : http_log_record_t) (i : nat) (l : list http_log_sink_t) (meta : list slot) : list (nat * bytes) :=
  match l with
  | [] => []
  | sink :: r =>
      if skipped rec sink then dispatch_loop e rec (S i) r meta
      else
        let '(s, meta) :=
          match find_slot (formatter sink) (formatter_ud sink) 0 meta with
          | Some s => (s, meta)
          | None =>
              let fresh := {| fn := formatter sink; ud := formatter_ud sink;
                              fbuf := call_formatter e (formatter sink) (formatter_ud sink) rec FBUF |} in
              if (length meta <? HTTP_LOG_FMT_SLOTS)%nat then (length meta, meta ++ [fresh])
              else ((HTTP_LOG_FMT_SLOTS - 1)%nat, <[(HTTP_LOG_FMT_SLOTS - 1)%nat := fresh]> meta)
          end in
        let bytes_of := from_option fbuf [] (meta !! s) in
        match bytes_of with
        | [] => dispatch_loop e rec (S i) r meta
        | _ => (i, bytes_of) :: dispatch_loop e rec (S i) r meta
        end
  end.

Definition log_dispatch_record (e : env) (st : http_log_state_t) (rec : http_log_record_t) : list (nat * bytes) :=
  dispatch_loop e rec 0 (sinks st) [].

(** *** The two emitters *)

(** The clock read of an emit. *)
Record now := { wall : HttpDate.tm; millis : Z }.

Definition app_record (t : now) (sev : http_log_severity_t) (al : list http_log_attr_t) (text : bytes) : http_log_record_t :=
  {| tm_buf := wall t; ms := millis t; severity := sev; category := HTTP_LOG_CAT_APP; rec_body := Some (take 1023 text);
     attrs := al; trace_id := repeat 0 16; span_id := repeat 0 8; has_trace := false |}.

(** [text] is what [vsnprintf] makes of the template and its arguments. *)
Definition http_log_emitf (e : env) (t : now) (st : option http_log_state_t) (sev : http_log_severity_t) (al : list http_log_attr_t)
    (text : option bytes) : list (nat * bytes) :=
  match st, text with
  | Some st, Some text =>
      if bool_decide (gate st = HTTP_LOG_OFF) || bool_decide (sev = HTTP_LOG_OFF) || below sev (gate st)
         || (length (sinks st) =? 0)%nat then []
      else
        log_dispatch_record e st (app_record t sev al text)
  | _, _ => []
  end.

Record http_access_rec_t := {
  method : option bytes;
  url_path : option bytes;
  url_query : option bytes;
  protocol_version : option bytes;
  status : Z;
  response_size : Z;
  duration_ns : Z;
  duration_text : bytes;   (** [%g] of the duration in seconds *)
  client_address : option bytes;
  client_port : Z;
  ar_trace : option (bytes * bytes);
}.

Definition attr_str (k : bytes) (s : option bytes) : list http_log_attr_t := [{| key := k; v := HTTP_LOG_ATTR_STR s |}].

Definition attr_opt (k : bytes) (s : option bytes) : list http_log_attr_t := match s with Some _ => attr_str k s | None => [] end.

Definition access_attrs (ar : http_access_rec_t) : list http_log_attr_t :=
  attr_str (lit "http.request.method") (Some (default (lit "-") (method ar))) ++
  attr_str (lit "url.path") (Some (default (lit "-") (url_path ar))) ++
  match url_query ar with
  | Some q => match c_str q with [] => [] | _ => attr_str (lit "url.query") (Some q) end
  | None => []
  end ++
  [{| key := lit "http.response.status_code"; v := HTTP_LOG_ATTR_I64 (status ar) |}] ++
  attr_opt (lit "network.protocol.version") (protocol_version ar) ++
  [{| key := lit "http.response.body.size"; v := HTTP_LOG_ATTR_U64 (response_size ar) |}] ++
  (if duration_ns ar =? 0 then [] else [{| key := lit "http.server.request.duration"; v := HTTP_LOG_ATTR_F64 (duration_text ar) |}]) ++
  attr_opt (lit "client.address") (client_address ar) ++
  (if client_port ar =? 0 then [] else [{| key := lit "client.port"; v := HTTP_LOG_ATTR_I64 (client_port ar) |}]).

Definition access_body (ar : http_access_rec_t) : bytes :=
  take 511 (c_str (default (lit "-") (method ar)) ++ [SP] ++ c_str (default (lit "-") (url_path ar)) ++ [SP] ++ dec_signed (status ar)).

Definition access_record (t : now) (ar : http_access_rec_t) : http_log_record_t :=
  {| tm_buf := wall t; ms := millis t; severity := HTTP_LOG_INFO; category := HTTP_LOG_CAT_ACCESS; rec_body := Some (access_body ar);
     attrs := access_attrs ar; trace_id := from_option fst (repeat 0 16) (ar_trace ar);
     span_id := from_option snd (repeat 0 8) (ar_trace ar);
     has_trace := match ar_trace ar with Some _ => true | None => false end |}.

Definition http_log_emit_access (e : env) (t : now) (st : option http_log_state_t) (ar : option http_access_rec_t) : list (nat * bytes) :=
  match st, ar with
  | Some st, Some ar =>
      if negb (has_access st) then []
      else
        log_dispatch_record e st (access_record t ar)
  | _, _ => []
  end.

(** *** Starting and stopping

    The sinks as the emitters see them: the descriptors and the log thread are in [LogRing]. *)

Record http_log_sink_spec_t := {
  level : http_log_severity_t;
  spec_mask : Z;
  spec_formatter : option formatter_fn;
  spec_ud : Z;
}.

(** [opens] says whether the spec's stream has a descriptor and the log thread took it. *)
Definition http_log_sink_start (opens : http_log_sink_spec_t -> bool) (spec : http_log_sink_spec_t) : option http_log_sink_t :=
  if bool_decide (level spec = HTTP_LOG_OFF) then None
  else if negb (opens spec) then None
  else Some {| severity_floor := level spec;
               category_mask := if spec_mask spec =? 0 then HTTP_LOG_CAT_APP else spec_mask spec;
               formatter := default fmt_plain (spec_formatter spec);
               formatter_ud := spec_ud spec |}.

Definition gate_step (acc : http_log_severity_t * bool) (sink : http_log_sink_t) : http_log_severity_t * bool :=
  let '(floor, access) := acc in
  let f := severity_floor sink in
  if bool_decide (f = HTTP_LOG_OFF) then acc
  else
    (if negb (Z.land (category_mask sink) HTTP_LOG_CAT_APP =? 0) && (bool_decide (floor = HTTP_LOG_OFF) || below f floor) then f else floor,
     access || (negb (Z.land (category_mask sink) HTTP_LOG_CAT_ACCESS =? 0) && negb (below HTTP_LOG_INFO f))).

Definition http_log_state_refresh_gate (st : http_log_state_t) : http_log_state_t :=
  let '(floor, access) := fold_left gate_step (sinks st) (HTTP_LOG_OFF, false) in
  {| gate := floor; has_access := access; sinks := sinks st |}.

Definition http_log_server_stop (st : http_log_state_t) : http_log_state_t :=
  {| gate := HTTP_LOG_OFF; has_access := false; sinks := [] |}.

Definition http_log_state_init : http_log_state_t := {| gate := HTTP_LOG_OFF; has_access := false; sinks := [] |}.

(** Every field of the old state is reset before the new sinks are built. *)
Definition http_log_server_start_sinks (opens : http_log_sink_spec_t -> bool) (specs : list http_log_sink_spec_t) :
    http_log_state_t :=
  http_log_state_refresh_gate
    {| gate := HTTP_LOG_OFF; has_access := false;
       sinks := omap (http_log_sink_start opens) (take HTTP_LOG_MAX_SINKS specs) |}.

Definition http_log_server_start (opens : http_log_sink_spec_t -> bool) (sev : http_log_severity_t) : http_log_state_t :=
  http_log_server_start_sinks opens [{| level := sev; spec_mask := 0; spec_formatter := Some fmt_plain; spec_ud := 0 |}].
End LogFormat.
