(* ===== verification/JsonReader.v ===== *)
(** * A reference reader for UTF-8 and JSON

    The code points of a byte string, strictly and with replacement, and a reader of JSON
    texts without white space (RFC 3629, RFC 8259). Nothing here models code of the server:
    the log formatters are read against it. *)

From S2P Require Import Prelude.

Module JsonReader.

(** ** UTF-8 *)

Definition scalar (u : Z) : bool := (0 <=? u) && (u <=? 1114111) && negb ((55296 <=? u) && (u <=? 57343)).

Definition utf8_encode (u : Z) : bytes :=
  if u <? 128 then [u]
  else if u <? 2048 then [192 + u / 64; 128 + u mod 64]
  else if u <? 65536 then [224 + u / 4096; 128 + u / 64 mod 64; 128 + u mod 64]
  else [240 + u / 262144; 128 + u / 4096 mod 64; 128 + u / 64 mod 64; 128 + u mod 64].

Definition encode_all (us : list Z) : bytes := flat_map utf8_encode us.

(** The number the payload bits of a sequence spell. *)
Definition payload (s : bytes) : option Z :=
  match s with
  | [a] => Some a
  | [a; b] => Some (a mod 32 * 64 + b mod 64)
  | [a; b; c] => Some (a mod 16 * 4096 + b mod 64 * 64 + c mod 64)
  | [a; b; c; d] => Some (a mod 8 * 262144 + b mod 64 * 4096 + c mod 64 * 64 + d mod 64)
  | _ => None
  end.

(** The code point whose encoding is the first [n] bytes. *)
Definition decode_n (n : nat) (s : bytes) : option Z :=
  u ← payload (take n s);
  if scalar u && eqb_bytes (utf8_encode u) (take n s) then Some u else None.

Definition decode1 (s : bytes) : option (Z * nat) :=
  match decode_n 1 s, decode_n 2 s, decode_n 3 s, decode_n 4 s with
  | Some u, _, _, _ => Some (u, 1%nat)
  | _, Some u, _, _ => Some (u, 2%nat)
  | _, _, Some u, _ => Some (u, 3%nat)
  | _, _, _, Some u => Some (u, 4%nat)
  | _, _, _, _ => None
  end.

(** Every code point takes a byte at least, so the length is fuel enough. *)
Fixpoint decode_loop (fuel : nat) (s : bytes) : option (list Z) :=
  match fuel, s with
  | _, [] => Some []
  | O, _ => None
  | S f, _ => '(u, n) ← decode1 s; us ← decode_loop f (drop n s); Some (u :: us)
  end.

Definition utf8_decode (s : bytes) : option (list Z) := decode_loop (length s) s.

(** A byte that begins no sequence is U+FFFD. *)
Fixpoint lossy_loop (fuel : nat) (s : bytes) : list Z :=
  match fuel, s with
  | O, _ | _, [] => []
  | S f, _ :: r =>
      match decode1 s with
      | Some (u, n) => u :: lossy_loop f (drop n s)
      | None => 65533 :: lossy_loop f r
      end
  end.

Definition utf8_lossy (s : bytes) : list Z := lossy_loop (length s) s.

(** ** JSON *)

Inductive json :=
  | JStr (s : list Z)
  | JNum (text : list Z)
  | JBool (b : bool)
  | JObj (members : list (list Z * json)).

Definition hex_value (c : Z) : option Z :=
  if is_digit c then Some (c - 48) else if (97 <=? c) && (c <=? 102) then Some (c - 87) else if (65 <=? c) && (c <=? 70) then Some (c - 55) else None.

(** The characters behind the opening quote; the text behind the closing one is left. *)
Fixpoint read_chars (fuel : nat) (s : list Z) : option (list Z * list Z) :=
  match fuel, s with
  | O, _ | _, [] => None
  | S f, c :: r =>
      if c =? 34 then Some ([], r)
      else if c =? 92 then
        match r with
        | 117 :: a :: b :: d :: e :: r =>
            a ← hex_value a; b ← hex_value b; d ← hex_value d; e ← hex_value e;
            let u := a * 4096 + b * 256 + d * 16 + e in
            if scalar u then '(cs, r) ← read_chars f r; Some (u :: cs, r) else None
        | x :: r =>
            u ← (if x =? 34 then Some 34 else if x =? 92 then Some 92 else if x =? 47 then Some 47 else if x =? 98 then Some 8
                 else if x =? 102 then Some 12 else if x =? 110 then Some 10 else if x =? 114 then Some 13 else if x =? 116 then Some 9 else None);
            '(cs, r) ← read_chars f r; Some (u :: cs, r)
        | [] => None
        end
      else if c <? 32 then None
      else '(cs, r) ← read_chars f r; Some (c :: cs, r)
  end.

Definition read_string (s : list Z) : option (list Z * list Z) :=
  match s with
  | 34 :: r => read_chars (length r) r
  | _ => None
  end.

(** [-? (0 | [1-9][0-9]* ) ( . [0-9]+ )? ( [eE] [+-]? [0-9]+ )?] *)
Definition read_digits (s : list Z) : option (list Z) :=
  match s with
  | c :: r => if is_digit c then Some (drop_while is_digit r) else None
  | [] => None
  end.

Definition read_int (s : list Z) : option (list Z) :=
  match s with
  | c :: r => if c =? 48 then Some r else read_digits s
  | [] => None
  end.

Definition read_frac (s : list Z) : option (list Z) := match s with c :: r => if c =? 46 then read_digits r else Some s | [] => Some s end.

Definition read_exp (s : list Z) : option (list Z) :=
  match s with
  | c :: r =>
      if (c =? 101) || (c =? 69) then read_digits (match r with d :: r' => if (d =? 43) || (d =? 45) then r' else r | [] => r end)
      else Some s
  | [] => Some []
  end.

Definition is_number (s : list Z) : bool :=
  match (s ← read_int (match s with c :: r => if c =? 45 then r else s | [] => s end); s ← read_frac s; read_exp s) with
  | Some [] => true
  | _ => false
  end.

Definition number_char (c : Z) : bool := is_digit c || (c =? 45) || (c =? 43) || (c =? 46) || (c =? 101) || (c =? 69).

Fixpoint read_value (fuel : nat) (s : list Z) : option (json * list Z) :=
  match fuel, s with
  | O, _ | _, [] => None
  | S f, c :: r =>
      if c =? 34 then '(cs, r) ← read_string s; Some (JStr cs, r)
      else if c =? 123 then
        match r with
        | 125 :: r => Some (JObj [], r)
        | _ => '(ms, r) ← read_members f r; Some (JObj ms, r)
        end
      else if starts_with (lit "true") s then Some (JBool true, drop 4 s)
      else if starts_with (lit "false") s then Some (JBool false, drop 5 s)
      else
        let n := take_while number_char s in
        if is_number n then Some (JNum n, drop_while number_char s) else None
  end
with read_members (fuel : nat) (s : list Z) : option (list (list Z * json) * list Z) :=
  match fuel with
  | O => None
  | S f =>
      '(k, r) ← read_string s;
      match r with
      | 58 :: r =>
          '(x, r) ← read_value f r;
          match r with
          | 44 :: r => '(ms, r) ← read_members f r; Some ((k, x) :: ms, r)
          | 125 :: r => Some ([(k, x)], r)
          | _ => None
          end
      | _ => None
      end
  end.

Definition json_read (s : list Z) : option (json * list Z) := read_value (S (length s)) s.

(** ** The decoder inverts the encoder *)

Definition lead_len (c : Z) : nat := if c <? 128 then 1 else if c <? 224 then 2 else if c <? 240 then 3 else 4.

Lemma scalar_range u : scalar u = true -> 0 <= u <= 1114111.
Proof. unfold scalar. intros H. b2p. lia. Qed.

Lemma encode_lead u : scalar u = true -> exists c r, utf8_encode u = c :: r /\ length (utf8_encode u) = lead_len c /\ 0 <= c /\ (128 <= u -> 128 <= c).
Proof.
  intros Hu%scalar_range. unfold utf8_encode, lead_len.
  repeat case_if; b2p; do 2 eexists; (split; [reflexivity|]); cbn [length]; repeat case_if; b2p; try done; dlia.
Qed.

Lemma payload_encode u : scalar u = true -> payload (utf8_encode u) = Some u.
Proof. intros Hu%scalar_range. unfold utf8_encode. repeat case_if; b2p; cbn [payload]; f_equal; dlia. Qed.

Lemma decode_n_some n s u : decode_n n s = Some u -> take n s = utf8_encode u /\ scalar u = true.
Proof.
  unfold decode_n. destruct (payload _) as [w|]; cbn; [|done]. case_if; [|done]. intros [= <-]. b2p. split; [|done].
  symmetry. by apply eqb_bytes_eq.
Qed.

Lemma decode_n_lead n c r u : decode_n n (c :: r) = Some u -> (lead_len c <= n)%nat.
Proof.
  intros [Ht Hu]%decode_n_some. destruct (encode_lead u Hu) as (c' & r' & He & Hl & _). rewrite <- Ht in Hl, He.
  rewrite length_take in Hl. destruct n as [|n]; cbn in He; simplify_eq. cbn [length] in Hl. lia.
Qed.

Lemma decode_n_short n c r : (n < lead_len c)%nat -> decode_n n (c :: r) = None.
Proof. intros H. destruct (decode_n n (c :: r)) eqn:E; [|done]. apply decode_n_lead in E. lia. Qed.

Lemma decode1_encode u rest : scalar u = true -> decode1 (utf8_encode u ++ rest) = Some (u, length (utf8_encode u)).
Proof.
  intros Hu. destruct (encode_lead u Hu) as (c & r & He & Hl & _).
  assert (decode_n (lead_len c) (utf8_encode u ++ rest) = Some u) as Hd.
  { unfold decode_n. rewrite <- Hl, take_app_length, payload_encode by done. cbn. by rewrite Hu, eqb_bytes_refl. }
  rewrite Hl. rewrite He in *. cbn [app] in *. unfold decode1.
  assert (forall k, (k < lead_len c)%nat -> decode_n k (c :: r ++ rest) = None) as Hn by (intros; by apply decode_n_short).
  assert (lead_len c = 1 \/ lead_len c = 2 \/ lead_len c = 3 \/ lead_len c = 4)%nat as Hc by (unfold lead_len; repeat case_if; lia).
  destruct Hc as [E|[E|[E|E]]]; rewrite E in *; rewrite Hd; rewrite ?(Hn 1%nat), ?(Hn 2%nat), ?(Hn 3%nat) by lia; reflexivity.
Qed.

Lemma decode1_some s u n : decode1 s = Some (u, n) -> scalar u = true /\ s = utf8_encode u ++ drop n s /\ n = length (utf8_encode u).
Proof.
  intros H. assert (decode_n n s = Some u) as [Ht Hu]%decode_n_some.
  { revert H. unfold decode1. destruct (decode_n 1 s) eqn:?, (decode_n 2 s) eqn:?, (decode_n 3 s) eqn:?, (decode_n 4 s) eqn:?; intros; simplify_eq; done. }
  assert (s = utf8_encode u ++ drop n s) as Hs by (by rewrite <- Ht, take_drop).
  pose proof (decode1_encode u (drop n s) Hu) as E. rewrite <- Hs, H in E. simplify_eq. done.
Qed.

Lemma encode_pos u : scalar u = true -> (0 < length (utf8_encode u))%nat.
Proof. intros Hu. destruct (encode_lead u Hu) as (c & r & -> & _). cbn. lia. Qed.

Lemma decode_encode us : Forall (fun u => scalar u = true) us -> utf8_decode (encode_all us) = Some us.
Proof.
  intros H. unfold utf8_decode. generalize (le_n (length (encode_all us))) as Hle.
  generalize (length (encode_all us)) at 2 3 as f. intros f. revert us H. induction f as [|f IH]; intros us H Hle.
  all: destruct H as [|u us Hu H]; [done|]; cbn [encode_all flat_map] in *.
  all: destruct (encode_lead u Hu) as (c & r & He & _); pose proof (encode_pos u Hu); rewrite length_app in Hle.
  { lia. }
  cbn [decode_loop]. rewrite He. cbn [app]. change (c :: r ++ ?x) with ((c :: r) ++ x). rewrite <- He, decode1_encode by done.
  cbn. rewrite drop_app_length, IH; [done..|]. unfold encode_all. lia.
Qed.

End JsonReader.
