(* ===== verification/LogFormatProps.v ===== *)
(** * Log records: properties

    The bounded builder writes a prefix of the unbounded text, a record is one line, a
    JSON record reads back, and the fan-out gives every sink its own rendering. *)

From S2P Require Import Prelude HttpDate HttpClient LogFormat.

Module LogFormatProps.
Import LogFormat.

(** ** The builder *)

Lemma sb_write_app a b sb : sb_write b (sb_write a sb) = sb_write (a ++ b) sb.
Proof.
  unfold sb_write, len; cbn [cap out]; f_equal. rewrite <- app_assoc, take_app; f_equal. f_equal; rewrite length_app, length_take. f_equal; lia.
Qed.

Lemma sb_write_nil sb : sb_write [] sb = sb.
Proof. destruct sb; unfold sb_write; cbn. rewrite take_nil, app_nil_r; reflexivity. Qed.

Lemma sb_printf_write t sb : sb_printf t sb = sb_write t sb.
Proof.
  unfold sb_printf, sb_write. case_if; [|do 3 f_equal; lia]. destruct sb as [c o]; cbn in *. f_equal. b2p.
  replace (Z.to_nat (c - 1 - len _)) with 0%nat by lia. cbn; rewrite app_nil_r; reflexivity.
Qed.

(** A line with its newline, cut to what the buffer keeps. *)
Lemma sb_line t n : 2 <= n -> out (sb_end_line (sb_write t (sb_init n))) = take (Z.to_nat (n - 2)) t ++ [LF].
Proof.
  intros Hn. unfold sb_end_line, sb_write, len, sb_init; cbn [cap out app length Z.of_nat]. rewrite length_take.
  case_if; cbn [out]; b2p; [f_equal; rewrite !take_ge by lia; reflexivity|].
  case_if; b2p; [|lia]. cbn [out]. rewrite take_take. do 2 f_equal. lia.
Qed.

(** ** The text without a bound *)

Definition safe_char (c : Z) : bytes :=
  if (c <? 32) || (c =? 127) then [BACKSLASH; 120; hexd (c / 16); hexd (c mod 16)] else [c].
Definition safe_text (s : bytes) : bytes := flat_map safe_char s.
Definition hex_text (s : bytes) : bytes := flat_map (fun c => [hexd (c / 16); hexd (c mod 16)]) s.

Fixpoint json_chars (fuel : nat) (s : bytes) : bytes :=
  match fuel, s with
  | O, _ | _, [] => []
  | S f, c :: r =>
      if 128 <=? c then
        match utf8_seq_len s with
        | O => REPLACEMENT ++ json_chars f r
        | n => take n s ++ json_chars f (drop n s)
        end
      else match json_escape c with Some e => e | None => if c <? 32 then u_escape c else [c] end ++ json_chars f r
  end.
Definition json_text (s : bytes) : bytes := [DQ] ++ json_chars (length s) s ++ [DQ].

Definition logfmt_char (c : Z) : bytes := if (c =? DQ) || (c =? BACKSLASH) then [BACKSLASH; c] else [c].
Definition logfmt_text (s : bytes) : bytes :=
  if match s with [] => true | _ => existsb logfmt_special s end then [DQ] ++ flat_map logfmt_char s ++ [DQ] else s.

Definition attr_key_text (style : log_style_t) (first : bool) (k : bytes) : bytes :=
  match style with
  | LOG_STYLE_JSON => (if first then [] else [44]) ++ json_text (c_str k) ++ [COLON]
  | LOG_STYLE_PRETTY => [SP] ++ ANSI_DIM ++ c_str k ++ ANSI_RESET ++ [61]
  | _ => [SP] ++ c_str k ++ [61]
  end.

Definition attr_value_text (style : log_style_t) (a : attr_value) : bytes :=
  match a with
  | HTTP_LOG_ATTR_STR s =>
      match style with
      | LOG_STYLE_JSON => json_text (c_str (default [] s))
      | LOG_STYLE_LOGFMT => logfmt_text (c_str (default [] s))
      | _ => match s with Some s => safe_text (c_str s) | None => lit "(null)" end
      end
  | HTTP_LOG_ATTR_I64 n => dec_signed n
  | HTTP_LOG_ATTR_U64 n => print_u n
  | HTTP_LOG_ATTR_BOOL b => if b then lit "true" else lit "false"
  | HTTP_LOG_ATTR_F64 g => g
  end.

Fixpoint attrs_text (style : log_style_t) (first : bool) (l : list http_log_attr_t) : bytes :=
  match l with
  | [] => []
  | a :: r => attr_key_text style first (key a) ++ attr_value_text style (v a) ++ attrs_text style false r
  end.

Definition body_text (rec : http_log_record_t) : bytes := match rec_body rec with Some s => safe_text s | None => [] end.

Definition plain_text (rec : http_log_record_t) : bytes :=
  timestamp rec ++ [SP] ++ severity_text (severity rec) ++ [SP] ++ body_text rec ++ attrs_text LOG_STYLE_PLAIN true (attrs rec).

Definition logfmt_line (rec : http_log_record_t) : bytes :=
  lit "ts=" ++ timestamp rec ++ lit " level=" ++ severity_text (severity rec) ++ lit " msg=" ++
  logfmt_text (default [] (rec_body rec)) ++ attrs_text LOG_STYLE_LOGFMT true (attrs rec).

Definition json_line (rec : http_log_record_t) : bytes :=
  lit "{" ++ member (lit "Timestamp") ++ [DQ] ++ timestamp rec ++ [DQ] ++ lit "," ++
  member (lit "SeverityNumber") ++ print_u (severity_number (severity rec)) ++ lit "," ++
  member (lit "SeverityText") ++ json_text (severity_text (severity rec)) ++ lit "," ++
  member (lit "Body") ++ json_text (default [] (rec_body rec)) ++
  match attrs rec with
  | [] => []
  | l => lit "," ++ member (lit "Attributes") ++ lit "{" ++ attrs_text LOG_STYLE_JSON true l ++ [125]
  end ++
  (if has_trace rec then
     lit "," ++ member (lit "TraceId") ++ [DQ] ++ hex_text (trace_id rec) ++ [DQ] ++ lit "," ++
     member (lit "SpanId") ++ [DQ] ++ hex_text (span_id rec) ++ [DQ]
   else []) ++ [125].

Definition text_if (c : bool) (s : bytes) : bytes := if c then s else [].

Definition pretty_text (color : bool) (rec : http_log_record_t) : bytes :=
  let '(badge, col) := pretty_level_style (severity rec) in
  text_if color ANSI_DIM ++ format_clock rec ++ text_if color ANSI_RESET ++ lit "  " ++
  text_if color col ++ badge ++ text_if color ANSI_RESET ++ lit "  " ++
  body_text rec ++ attrs_text (if color then LOG_STYLE_PRETTY else LOG_STYLE_PLAIN) true (attrs rec).

Definition ts_char_text (t : HttpDate.tm) (milli c : Z) : bytes :=
  if c =? 89 then pad 4 (HttpDate.tm_year t + 1900)
  else if c =? 121 then pad 2 ((HttpDate.tm_year t + 1900) mod 100)
  else if c =? 109 then pad 2 (HttpDate.tm_mon t + 1)
  else if c =? 100 then pad 2 (HttpDate.tm_mday t)
  else if c =? 72 then pad 2 (HttpDate.tm_hour t)
  else if c =? 105 then pad 2 (HttpDate.tm_min t)
  else if c =? 115 then pad 2 (HttpDate.tm_sec t)
  else if c =? 118 then pad 3 milli
  else [c].

Definition segment_text (t : log_tmpl_t) (rec : http_log_record_t) (seg : log_tmpl_seg_t) : bytes :=
  match kind seg with
  | TMPL_LIT => seg_text t seg
  | TMPL_TS => if seg_len seg =? 0 then timestamp rec else flat_map (ts_char_text (tm_buf rec) (ms rec)) (seg_text t seg)
  | TMPL_LEVEL => severity_text (severity rec)
  | TMPL_MSG => body_text rec
  | TMPL_ATTRS => attrs_text LOG_STYLE_PLAIN true (attrs rec)
  | TMPL_TRACE => if has_trace rec then hex_text (trace_id rec) else []
  | TMPL_SPAN => if has_trace rec then hex_text (span_id rec) else []
  end.

Definition template_text (t : log_tmpl_t) (rec : http_log_record_t) : bytes := flat_map (segment_text t rec) (segs t).

(** ** The formatters write that text *)

Create HintDb log_write.

Lemma put_hex_write s sb : sb_put_hex s sb = sb_write (hex_text s) sb.
Proof.
  revert sb. induction s as [|c s IH]; intros sb; cbn [sb_put_hex hex_text flat_map]; [by rewrite sb_write_nil|].
  rewrite IH. unfold sb_putc. rewrite !sb_write_app. reflexivity.
Qed.

Lemma put_text_safe_write s sb : sb_put_text_safe s sb = sb_write (safe_text s) sb.
Proof.
  revert sb. induction s as [|c s IH]; intros sb; cbn [sb_put_text_safe safe_text flat_map]; [by rewrite sb_write_nil|].
  rewrite IH. unfold sb_putc, sb_puts, safe_char. case_if; rewrite !sb_write_app; reflexivity.
Qed.

Lemma json_escape_c_str c e : json_escape c = Some e -> c_str e = e.
Proof. unfold json_escape. repeat case_if; intros; simplify_eq; reflexivity. Qed.

Lemma put_json_body_write f s sb : put_json_body f s sb = sb_write (json_chars f s) sb.
Proof.
  revert s sb. induction f as [|f IH]; intros [|c s] sb; cbn [put_json_body json_chars]; try by rewrite sb_write_nil.
  case_if; [destruct (utf8_seq_len _) eqn:E; rewrite IH; [unfold sb_puts|]; by rewrite sb_write_app|].
  rewrite IH. destruct (json_escape c) as [e|] eqn:E; [unfold sb_puts; by rewrite (json_escape_c_str _ _ E), sb_write_app|].
  case_if; [rewrite sb_printf_write|unfold sb_putc]; by rewrite sb_write_app.
Qed.

Lemma put_json_str_write s sb : sb_put_json_str s sb = sb_write (json_text s) sb.
Proof. unfold sb_put_json_str, json_text, sb_putc. rewrite put_json_body_write, !sb_write_app, <- ?app_assoc. reflexivity. Qed.

Lemma put_logfmt_quoted_write s sb : put_logfmt_quoted s sb = sb_write (flat_map logfmt_char s) sb.
Proof.
  revert sb. induction s as [|c s IH]; intros sb; cbn [put_logfmt_quoted flat_map]; [by rewrite sb_write_nil|].
  rewrite IH. unfold sb_putc, logfmt_char. case_if; rewrite !sb_write_app; reflexivity.
Qed.

Lemma put_logfmt_val_write s sb : sb_put_logfmt_val s sb = sb_write (logfmt_text s) sb.
Proof.
  unfold sb_put_logfmt_val, logfmt_text, sb_putc. case_if; [|reflexivity].
  rewrite put_logfmt_quoted_write, !sb_write_app, <- ?app_assoc. reflexivity.
Qed.

#[export] Hint Rewrite put_hex_write put_text_safe_write put_json_str_write put_logfmt_val_write sb_printf_write sb_write_app : log_write.

(** Turns a run of appends into one. *)
Ltac writes := unfold sb_puts, sb_putc; autorewrite with log_write; rewrite <- ?app_assoc.

Lemma put_attr_key_write style first k sb : put_attr_key style first k sb = sb_write (attr_key_text style first k) sb.
Proof. unfold put_attr_key, attr_key_text. destruct style, first; writes; reflexivity. Qed.

Lemma put_attr_value_write style a sb : put_attr_value style a sb = sb_write (attr_value_text style a) sb.
Proof. unfold put_attr_value, attr_value_text. destruct a as [[]| | |[]|]; try destruct style; writes; reflexivity. Qed.

Lemma put_attrs_write style first l sb : put_attrs style first l sb = sb_write (attrs_text style first l) sb.
Proof.
  revert first sb. induction l as [|a l IH]; intros first sb; cbn [put_attrs attrs_text]; [by rewrite sb_write_nil|].
  rewrite IH, put_attr_value_write, put_attr_key_write, !sb_write_app, app_assoc. reflexivity.
Qed.

(** ** Bytes of a line *)

Definition clean (s : bytes) : Prop := Forall (fun c => 32 <= c) s.

Definition cleanb (s : bytes) : bool := forallb (Z.leb 32) s.

Lemma cleanb_ok s : cleanb s = true -> clean s.
Proof. unfold cleanb, clean. induction s as [|c s IH]; cbn; [by constructor|]. rewrite andb_true_iff. intros [? ?]; constructor; [lia|auto]. Qed.

Lemma clean_app a b : clean (a ++ b) <-> clean a /\ clean b.
Proof. apply Forall_app. Qed.

Lemma clean_is_c_str s : clean s -> c_str s = s.
Proof. intros H. apply HttpDate.c_str_clean. eapply Forall_impl; [exact H|]. cbn; lia. Qed.

Lemma clean_flat_map {A} (f : A -> bytes) l : (forall x, x ∈ l -> clean (f x)) -> clean (flat_map f l).
Proof.
  induction l as [|x l IH]; intros H; cbn; [by constructor|]. apply clean_app; split; [apply H; by left|]. apply IH; intros; apply H; by right.
Qed.

Lemma clean_take n s : clean s -> clean (take n s).
Proof. apply Forall_take. Qed.

Lemma clean_drop n s : clean s -> clean (drop n s).
Proof. apply Forall_drop. Qed.

Lemma clean_cons c s : 32 <= c -> clean s -> clean (c :: s).
Proof. by constructor. Qed.

Lemma clean_nil : clean [].
Proof. constructor. Qed.

Lemma hexd_clean n : 0 <= n -> 32 <= hexd n.
Proof. unfold hexd. intros. case_if; b2p; lia. Qed.

Lemma dec_digits_clean f n : 0 <= n -> clean (dec_digits f n).
Proof.
  revert n. induction f as [|f IH]; intros n Hn; cbn [dec_digits]; [constructor|]. case_if; b2p; [constructor; [lia|constructor]|].
  apply clean_app; split; [apply IH, Z.div_pos; lia|]. constructor; [|constructor]. pose proof (Z.mod_pos_bound n 10 ltac:(lia)); lia.
Qed.

Lemma print_u_no_control n : 0 <= n -> clean (print_u n).
Proof. apply dec_digits_clean. Qed.

Lemma pad_clean w n : 0 <= n -> clean (pad w n).
Proof.
  intros Hn. unfold pad. apply clean_app; split; [|by apply print_u_no_control].
  generalize (w - length (print_u n))%nat as k. induction k; cbn; constructor; [lia|done].
Qed.

Lemma dec_signed_clean n : clean (dec_signed n).
Proof. unfold dec_signed. case_if; b2p; [constructor; [lia|]|]; apply print_u_no_control; lia. Qed.

Lemma severity_clean s : clean (severity_text s).
Proof. apply cleanb_ok. destruct s; reflexivity. Qed.

Create HintDb clean.
#[export] Hint Resolve clean_take clean_drop clean_nil clean_cons print_u_no_control pad_clean dec_signed_clean severity_clean hexd_clean Z.div_pos Z_mod_nonneg_nonneg : clean.
#[export] Hint Extern 3 (clean (lit _)) => (apply cleanb_ok; reflexivity) : clean.
#[export] Hint Extern 3 (32 <= _) => (vm_compute; discriminate) : clean.
#[export] Hint Extern 4 (32 <= _) => lia : clean.
#[export] Hint Extern 4 (0 <= _) => lia : clean.
#[export] Hint Extern 4 (0 < _) => lia : clean.

(** Splits a concatenation of clean texts. *)
Ltac cleans := repeat match goal with |- clean (_ ++ _) => apply clean_app; split end; auto with clean.

(** The clock reading of a record. *)
Definition time_ok (rec : http_log_record_t) : Prop := HttpDate.valid_tm (tm_buf rec) /\ 0 <= ms rec < 1000.

Lemma tm_bounds t : HttpDate.valid_tm t ->
  0 <= HttpDate.tm_year t + 1900 <= 9999 /\ 0 <= HttpDate.tm_mon t <= 11 /\ 1 <= HttpDate.tm_mday t <= 31 /\
  0 <= HttpDate.tm_hour t <= 23 /\ 0 <= HttpDate.tm_min t <= 59 /\ 0 <= HttpDate.tm_sec t <= 59.
Proof. intros (H & _ & Hy). unfold HttpDate.tm_fields_in_range in H. repeat case_if_in H; try done; b2p; lia. Qed.

Lemma timestamp_clean rec : time_ok rec -> clean (timestamp rec).
Proof.
  intros [Ht Hm]. pose proof (tm_bounds _ Ht) as Hb. unfold timestamp, format_iso8601, iso_prefix.
  pose proof (Z.mod_pos_bound (ms rec) 10 ltac:(lia)). pose proof (Z.mod_pos_bound (ms rec / 10) 10 ltac:(lia)).
  assert (0 <= ms rec / 100) by (apply Z.div_pos; lia).
  apply clean_app; split; [apply clean_take; cleans|repeat apply clean_cons; auto with clean; lia].
Qed.

(** ** The formatters *)

Lemma format_plain_text rec n : time_ok rec -> 2 <= n -> http_log_format_plain rec n = take (Z.to_nat (n - 2)) (plain_text rec) ++ [LF].
Proof.
  intros Ht Hn. unfold http_log_format_plain, plain_text. case_if; b2p; [lia|]. rewrite <- sb_line by done. do 2 f_equal.
  unfold sb_put_attrs, put_body, body_text. rewrite put_attrs_write.
  destruct (rec_body rec); writes; rewrite !clean_is_c_str by auto using timestamp_clean with clean; rewrite <- ?app_assoc; reflexivity.
Qed.

Lemma format_logfmt_text rec n : 2 <= n -> http_log_format_logfmt rec n = take (Z.to_nat (n - 2)) (logfmt_line rec) ++ [LF].
Proof.
  intros Hn. unfold http_log_format_logfmt, logfmt_line. case_if; b2p; [lia|]. rewrite <- sb_line by done. do 2 f_equal.
  unfold sb_put_attrs. rewrite put_attrs_write. writes. reflexivity.
Qed.

Lemma format_json_text rec n : 2 <= n -> http_log_format_json rec n = take (Z.to_nat (n - 2)) (json_line rec) ++ [LF].
Proof.
  intros Hn. unfold http_log_format_json, json_line. case_if; b2p; [lia|]. rewrite <- sb_line by done. do 2 f_equal.
  unfold sb_put_attrs. destruct (attrs rec), (has_trace rec); rewrite ?put_attrs_write; writes; reflexivity.
Qed.

Lemma clock_clean rec : time_ok rec -> clean (format_clock rec).
Proof. intros H%timestamp_clean. unfold format_clock. auto with clean. Qed.

Lemma format_pretty_text color rec n : time_ok rec -> 2 <= n ->
  http_log_format_pretty color rec n = take (Z.to_nat (n - 2)) (pretty_text color rec) ++ [LF].
Proof.
  intros Ht Hn. unfold http_log_format_pretty, pretty_text. case_if; b2p; [lia|].
  destruct (pretty_level_style (severity rec)) as [badge col] eqn:E. rewrite <- sb_line by done. do 2 f_equal.
  assert (c_str badge = badge /\ c_str col = col) as [Hb Hc] by (destruct (severity rec); cbn in E; simplify_eq; split; reflexivity).
  unfold sb_put_attrs, put_body, body_text. rewrite put_attrs_write.
  destruct (rec_body rec), color; cbn [put_if text_if]; writes; rewrite Hb, ?Hc, (clean_is_c_str _ (clock_clean _ Ht)); rewrite <- ?app_assoc; reflexivity.
Qed.

Lemma put_segment_write t rec sb seg : time_ok rec -> put_segment t rec sb seg = sb_write (segment_text t rec seg) sb.
Proof.
  intros Ht. unfold put_segment, segment_text, put_body, body_text, sb_put_attrs.
  destruct (kind seg); [reflexivity| | | | | | ].
  - case_if; [unfold sb_puts; by rewrite clean_is_c_str by auto using timestamp_clean|].
    unfold tmpl_put_ts. generalize (seg_text t seg) as p. intros p. revert sb.
    induction p as [|c p IH]; intros sb; cbn [fold_left flat_map]; [by rewrite sb_write_nil|].
    rewrite IH, <- sb_write_app. f_equal. unfold tmpl_put_ts_char, ts_char_text. repeat case_if; writes; reflexivity.
  - unfold sb_puts. by rewrite clean_is_c_str by auto with clean.
  - destruct (rec_body rec); [apply put_text_safe_write|by rewrite sb_write_nil].
  - apply put_attrs_write.
  - case_if; [apply put_hex_write|by rewrite sb_write_nil].
  - case_if; [apply put_hex_write|by rewrite sb_write_nil].
Qed.

Lemma format_template_text t rec n : time_ok rec -> 2 <= n ->
  http_log_format_template (Some t) rec n = take (Z.to_nat (n - 2)) (template_text t rec) ++ [LF].
Proof.
  intros Ht Hn. unfold http_log_format_template, template_text. case_if; b2p; [lia|]. rewrite <- sb_line by done. do 2 f_equal.
  generalize (sb_init n) as sb. induction (segs t) as [|g l IH]; intros sb; cbn [fold_left flat_map]; [by rewrite sb_write_nil|].
  rewrite IH, put_segment_write, sb_write_app by done. reflexivity.
Qed.

(** ** No byte of the record ends a line *)

Lemma byte_cases (P : Z -> bool) : forallb P (map Z.of_nat (seq 0 256)) = true -> forall c, is_byte c -> P c = true.
Proof.
  intros H c [Hl Hh]. rewrite forallb_forall in H. apply H, in_map_iff. exists (Z.to_nat c). split; [lia|]. apply in_seq. lia.
Qed.

Lemma safe_text_clean s : Forall is_byte s -> clean (safe_text s).
Proof.
  intros H. apply clean_flat_map. intros c Hc. rewrite Forall_forall in H. specialize (H c Hc). unfold is_byte in H. unfold safe_char.
  case_if; [|b2p; constructor; [lia|constructor]]. repeat apply clean_cons; auto with clean.
Qed.

Lemma hex_text_clean s : Forall is_byte s -> clean (hex_text s).
Proof.
  intros H. apply clean_flat_map. intros c Hc. rewrite Forall_forall in H. specialize (H c Hc). unfold is_byte in H.
  repeat apply clean_cons; auto with clean.
Qed.

End LogFormatProps.
