(* ===== verification/LogJson.v ===== *)
(** * JSON log records read back

    What [http_log_format_json] writes is UTF-8 and one JSON object with the record's
    members, whatever bytes the record carries. *)

From S2P Require Import Prelude HttpDate HttpClient LogFormat JsonReader LogFormatProps.

Module LogJson.
Import LogFormat JsonReader LogFormatProps.

(** ** Strings *)

(** What the writer makes of a code point. *)
Definition esc (u : Z) : list Z :=
  if u <? 128 then match json_escape u with Some e => e | None => if u <? 32 then u_escape u else [u] end else [u].

Lemma hex_value_hexd n : 0 <= n < 16 -> hex_value (hexd n) = Some n.
Proof.
  intros H. pose (P := fun n => implb (n <? 16) (from_option (Z.eqb n) false (hex_value (hexd n)))).
  assert (P n = true) as E by (apply byte_cases; [vm_compute; reflexivity|unfold is_byte; lia]).
  unfold P in E. rewrite (proj2 (Z.ltb_lt n 16)) in E by lia. cbn [implb] in E.
  destruct (hex_value _); cbn in E; [|done]. f_equal. lia.
Qed.

Lemma read_esc f u t : scalar u = true -> read_chars (S f) (esc u ++ t) = '(cs, r) ← read_chars f t; Some (u :: cs, r).
Proof.
  intros Hu. pose proof (scalar_range u Hu). unfold esc. case_if; b2p.
  - unfold json_escape. repeat case_if; b2p; subst; try reflexivity.
    + cbn -[hexd hex_value Z.div Z.modulo scalar]. change (hex_value 48) with (Some 0). cbn -[hexd hex_value Z.div Z.modulo scalar].
      rewrite !hex_value_hexd by dlia. cbn -[Z.div Z.modulo scalar Z.add Z.mul].
      match goal with |- context [scalar ?e] => replace e with u by dlia end. by rewrite Hu.
    + cbn. unfold DQ, BACKSLASH in *. rewrite (proj2 (Z.eqb_neq _ _)), (proj2 (Z.eqb_neq u 92)), (proj2 (Z.ltb_ge u 32)) by lia. reflexivity.
  - cbn. rewrite (proj2 (Z.eqb_neq u 34)), (proj2 (Z.eqb_neq u 92)), (proj2 (Z.ltb_ge u 32)) by lia. reflexivity.
Qed.

Definition quoted (us : list Z) : list Z := [34] ++ flat_map esc us ++ [34].

Lemma read_chars_esc f us rest : Forall (fun u => scalar u = true) us -> (length us < f)%nat ->
  read_chars f (flat_map esc us ++ 34 :: rest) = Some (us, rest).
Proof.
  intros H. revert f. induction H as [|u us Hu H IH]; intros [|f] Hf; cbn [length] in Hf; try lia; [reflexivity|].
  cbn [flat_map]. rewrite <- app_assoc, read_esc by done. rewrite IH by lia. reflexivity.
Qed.

Lemma esc_pos u : (0 < length (esc u))%nat.
Proof. unfold esc, json_escape. repeat case_if; cbn; lia. Qed.

Lemma length_esc us : (length us <= length (flat_map esc us))%nat.
Proof. induction us as [|u us IH]; cbn; [lia|]. rewrite length_app. pose proof (esc_pos u). lia. Qed.

Lemma read_quoted us rest : Forall (fun u => scalar u = true) us -> read_string (quoted us ++ rest) = Some (us, rest).
Proof.
  intros H. unfold quoted. cbn. rewrite <- app_assoc. apply read_chars_esc; [done|]. rewrite length_app. cbn. pose proof (length_esc us). lia.
Qed.

(** ** The bytes of a string *)

Lemma lead2 : forall c, is_byte c -> (Z.land c 224 =? 192) = (192 <=? c) && (c <? 224).
Proof. intros c Hc. apply eqb_true_iff. revert c Hc. apply byte_cases. vm_compute. reflexivity. Qed.
Lemma lead3 : forall c, is_byte c -> (Z.land c 240 =? 224) = (224 <=? c) && (c <? 240).
Proof. intros c Hc. apply eqb_true_iff. revert c Hc. apply byte_cases. vm_compute. reflexivity. Qed.
Lemma lead4 : forall c, is_byte c -> (Z.land c 248 =? 240) = (240 <=? c) && (c <? 248).
Proof. intros c Hc. apply eqb_true_iff. revert c Hc. apply byte_cases. vm_compute. reflexivity. Qed.
Lemma cont_range : forall c, is_byte c -> cont c = (128 <=? c) && (c <? 192).
Proof. intros c Hc. apply eqb_true_iff. revert c Hc. apply byte_cases. vm_compute. reflexivity. Qed.

Lemma scalar_intro u : 0 <= u <= 1114111 -> u < 55296 \/ 57343 < u -> scalar u = true.
Proof. intros. unfold scalar. rewrite (proj2 (Z.leb_le 0 u)), (proj2 (Z.leb_le u _)) by lia. cbn [andb]. apply negb_true_iff, andb_false_iff. lia. Qed.

Lemma encode2 a b : 194 <= a < 224 -> 128 <= b < 192 -> exists u, scalar u = true /\ 128 <= u /\ [a; b] = utf8_encode u.
Proof.
  intros. exists ((a - 192) * 64 + (b - 128)). split; [apply scalar_intro; lia|]. split; [lia|]. unfold utf8_encode.
  rewrite (proj2 (Z.ltb_ge _ 128)), (proj2 (Z.ltb_lt _ 2048)) by lia. repeat f_equal; dlia.
Qed.

Lemma encode3 a b c : 224 <= a < 240 -> 128 <= b < 192 -> 128 <= c < 192 -> (a = 224 -> 160 <= b) -> (a = 237 -> b < 160) ->
  exists u, scalar u = true /\ 128 <= u /\ [a; b; c] = utf8_encode u.
Proof.
  intros. exists ((a - 224) * 4096 + (b - 128) * 64 + (c - 128)). split; [apply scalar_intro; lia|]. split; [lia|]. unfold utf8_encode.
  rewrite (proj2 (Z.ltb_ge _ 128)), (proj2 (Z.ltb_ge _ 2048)), (proj2 (Z.ltb_lt _ 65536)) by lia. repeat f_equal; dlia.
Qed.

Lemma encode4 a b c d : 240 <= a <= 244 -> 128 <= b < 192 -> 128 <= c < 192 -> 128 <= d < 192 -> (a = 240 -> 144 <= b) -> (a = 244 -> b < 144) ->
  exists u, scalar u = true /\ 128 <= u /\ [a; b; c; d] = utf8_encode u.
Proof.
  intros. exists ((a - 240) * 262144 + (b - 128) * 4096 + (c - 128) * 64 + (d - 128)). split; [apply scalar_intro; lia|]. split; [lia|].
  unfold utf8_encode. rewrite (proj2 (Z.ltb_ge _ 128)), (proj2 (Z.ltb_ge _ 2048)), (proj2 (Z.ltb_ge _ 65536)) by lia. repeat f_equal; dlia.
Qed.

(** A sequence the scanner accepts is the encoding of a code point. *)
Lemma seq_len_encodes s n : Forall is_byte s -> utf8_seq_len s = S n ->
  exists u, scalar u = true /\ 128 <= u /\ take (S n) s = utf8_encode u.
Proof.
  intros Hs. destruct Hs as [|c r Hc Hr]; [done|]. cbn [utf8_seq_len]. rewrite lead2, lead3, lead4 by done. unfold is_byte in Hc.
  case_if; [|case_if; [|case_if; [|done]]].
  - destruct Hr as [|s1 r H1 Hr]; [done|]. rewrite cont_range by done. case_if; [|done]. b2p. intros [= <-]. apply encode2; lia.
  - destruct Hr as [|s1 r H1 Hr]; [done|]. destruct Hr as [|s2 r H2 Hr]; [done|]. rewrite !cont_range by done.
    repeat (case_if; [done|]). b2p. intros [= <-]. cbn [take]. apply encode3; lia.
  - destruct Hr as [|s1 r H1 Hr]; [done|]. destruct Hr as [|s2 r H2 Hr]; [done|]. destruct Hr as [|s3 r H3 Hr]; [done|]. rewrite !cont_range by done.
    repeat (case_if; [done|]). b2p. intros [= <-]. cbn [take]. apply encode4; lia.
Qed.

(** Decides the scanner's tests from bounds. *)
Ltac seq_tests :=
  cbn [utf8_seq_len]; rewrite ?lead2, ?lead3, ?lead4, ?cont_range by (unfold is_byte; lia);
  repeat (case_if; b2p; try lia); reflexivity.

Lemma seq_len2 a b r : 194 <= a < 224 -> 128 <= b < 192 -> utf8_seq_len (a :: b :: r) = 2%nat.
Proof. intros. seq_tests. Qed.

Lemma seq_len3 a b c r : 224 <= a < 240 -> 128 <= b < 192 -> 128 <= c < 192 -> (a = 224 -> 160 <= b) -> (a = 237 -> b < 160) ->
  utf8_seq_len (a :: b :: c :: r) = 3%nat.
Proof. intros. seq_tests. Qed.

Lemma seq_len4 a b c d r : 240 <= a <= 244 -> 128 <= b < 192 -> 128 <= c < 192 -> 128 <= d < 192 -> (a = 240 -> 144 <= b) -> (a = 244 -> b < 144) ->
  utf8_seq_len (a :: b :: c :: d :: r) = 4%nat.
Proof. intros. seq_tests. Qed.

(** And it accepts every encoding of more than one byte. *)
Lemma seq_len_encode u rest : scalar u = true -> 128 <= u -> utf8_seq_len (utf8_encode u ++ rest) = length (utf8_encode u).
Proof.
  intros Hu H. pose proof (scalar_range u Hu). assert (u < 55296 \/ 57343 < u) by (unfold scalar in Hu; b2p; lia).
  unfold utf8_encode. case_if; b2p; [lia|]. repeat case_if; b2p; cbn [app length];
    [apply seq_len2|apply seq_len3|apply seq_len4]; dlia.
Qed.

Lemma encode_all_app a b : encode_all (a ++ b) = encode_all a ++ encode_all b.
Proof. apply flat_map_app. Qed.

Definition ascii (s : list Z) : Prop := Forall (fun c => 0 <= c < 128) s.

Lemma encode_ascii s : ascii s -> encode_all s = s.
Proof.
  induction 1 as [|c s Hc _ IH]; [done|]. cbn [encode_all flat_map]. unfold encode_all in IH. rewrite IH. unfold utf8_encode.
  by rewrite (proj2 (Z.ltb_lt c 128)) by lia.
Qed.

Lemma hexd_ascii n : 0 <= n < 16 -> 0 <= hexd n < 128.
Proof. unfold hexd. intros. case_if; b2p; lia. Qed.

Lemma esc_ascii u : 0 <= u < 128 -> ascii (esc u).
Proof.
  intros. pose proof (hexd_ascii (u / 16) ltac:(dlia)). pose proof (hexd_ascii (u mod 16) ltac:(dlia)).
  unfold esc, json_escape, u_escape, DQ, BACKSLASH. repeat case_if; b2p; try lia; unfold ascii; repeat (apply Forall_cons; split); try apply Forall_nil; try done; lia.
Qed.

Lemma esc_text c : 0 <= c < 128 -> match json_escape c with Some e => e | None => if c <? 32 then u_escape c else [c] end = esc c.
Proof. intros. unfold esc. by rewrite (proj2 (Z.ltb_lt c 128)) by lia. Qed.

Lemma esc_high u : 128 <= u -> esc u = [u].
Proof. intros. unfold esc. by rewrite (proj2 (Z.ltb_ge u 128)) by lia. Qed.

Lemma decode1_high c r : Forall is_byte (c :: r) -> 128 <= c ->
  match utf8_seq_len (c :: r) with
  | O => decode1 (c :: r) = None
  | S n => exists u, 128 <= u /\ decode1 (c :: r) = Some (u, S n) /\ take (S n) (c :: r) = utf8_encode u
  end.
Proof.
  intros Hs Hc. destruct (utf8_seq_len (c :: r)) as [|n] eqn:E.
  - destruct (decode1 (c :: r)) as [[u n]|] eqn:D; [|done]. apply decode1_some in D as (Hu & Hd & Hn). exfalso.
    assert (128 <= u) as H128.
    { pose proof (scalar_range u Hu). unfold utf8_encode in Hd. case_if_in Hd; b2p; [cbn in Hd; simplify_eq|]; lia. }
    rewrite Hd, seq_len_encode in E by done. pose proof (encode_pos u Hu). lia.
  - destruct (seq_len_encodes _ _ Hs E) as (u & Hu & H128 & Ht). exists u. split; [done|].
    assert (c :: r = utf8_encode u ++ drop (S n) (c :: r)) as Hd by (by rewrite <- Ht, take_drop). split; [|done].
    rewrite Hd in E. rewrite seq_len_encode in E by done. rewrite Hd, decode1_encode, E by done. done.
Qed.

Lemma lossy_nil f : lossy_loop f [] = [].
Proof. by destruct f. Qed.

Lemma json_chars_lossy f s : Forall is_byte s -> json_chars f s = encode_all (flat_map esc (lossy_loop f s)).
Proof.
  revert s. induction f as [|f IH]; intros s Hs; [done|]. destruct s as [|c r]; [done|].
  cbn [json_chars lossy_loop]. case_if; b2p.
  - pose proof (decode1_high c r Hs ltac:(lia)) as H. destruct (utf8_seq_len (c :: r)) as [|n].
    + rewrite H, IH by (by inversion Hs). cbn [flat_map]. rewrite encode_all_app. reflexivity.
    + destruct H as (u & Hu & -> & ->). rewrite IH by (by apply Forall_drop). cbn [flat_map].
      rewrite encode_all_app, esc_high by done. cbn [encode_all flat_map]. by rewrite app_nil_r.
  - inversion Hs as [|x xs Hc Hr]; subst. unfold is_byte in Hc. rewrite esc_text, IH by (done || lia).
    pose proof (decode1_encode c r ltac:(apply scalar_intro; lia)) as D. unfold utf8_encode in D.
    rewrite (proj2 (Z.ltb_lt c 128)) in D by lia. cbn [app length] in D. rewrite D. cbn [drop flat_map].
    rewrite encode_all_app, (encode_ascii (esc c)) by (apply esc_ascii; lia). reflexivity.
Qed.

Lemma lossy_scalar f s : Forall (fun u => scalar u = true) (lossy_loop f s).
Proof.
  revert s. induction f as [|f IH]; intros [|c r]; cbn [lossy_loop]; try constructor.
  destruct (decode1 (c :: r)) as [[u n]|] eqn:D; constructor; try apply IH; [by apply decode1_some in D as (? & _)|reflexivity].
Qed.

Lemma json_text_quoted s : Forall is_byte s -> json_text s = encode_all (quoted (utf8_lossy s)).
Proof.
  intros Hs. unfold json_text, quoted, utf8_lossy. rewrite json_chars_lossy by done. rewrite !encode_all_app. reflexivity.
Qed.

(** ** Objects *)

Definition members_text (pr : json -> list Z) : bool -> list (list Z * json) -> list Z :=
  fix go (first : bool) (ms : list (list Z * json)) {struct ms} : list Z :=
    match ms with
    | [] => []
    | (k, x) :: r => (if first then [] else [44]) ++ quoted k ++ [58] ++ pr x ++ go false r
    end.

(** The compact text of a value. *)
Fixpoint jprint (j : json) : list Z :=
  match j with
  | JStr s => quoted s
  | JNum t => t
  | JBool b => if b then lit "true" else lit "false"
  | JObj ms => [123] ++ members_text jprint true ms ++ [125]
  end.

Definition mprint : bool -> list (list Z * json) -> list Z := members_text jprint.

Definition all_members (q : json -> bool) (ms : list (list Z * json)) : bool := forallb (fun m => forallb scalar (fst m) && q (snd m)) ms.

Fixpoint jwf (j : json) : bool :=
  match j with
  | JStr s => forallb scalar s
  | JNum t => is_number t && forallb number_char t
  | JBool _ => true
  | JObj ms => all_members jwf ms
  end.

Definition msize (sz : json -> nat) (ms : list (list Z * json)) : nat := list_sum (map (fun m => S (sz (snd m))) ms).

Fixpoint jsize (j : json) : nat := match j with JObj ms => S (msize jsize ms) | _ => 1%nat end.

(** Text a number does not run into. *)
Definition delimited (rest : list Z) : Prop := match rest with c :: _ => number_char c = false | [] => True end.

Lemma forallb_scalar us : forallb scalar us = true -> Forall (fun u => scalar u = true) us.
Proof. rewrite forallb_forall, List.Forall_forall. done. Qed.

Lemma take_number t rest : forallb number_char t = true -> delimited rest ->
  take_while number_char (t ++ rest) = t /\ drop_while number_char (t ++ rest) = rest.
Proof.
  rewrite forallb_forall, <- List.Forall_forall. intros Ht Hr. destruct rest as [|c rest].
  - rewrite app_nil_r, take_while_id, drop_while_id by done. done.
  - cbn in Hr. rewrite take_while_app, drop_while_app by done. done.
Qed.

(** The first character of a number is a digit or a minus. *)
Lemma number_head t : is_number t = true -> exists c r, t = c :: r /\ (is_digit c = true \/ c = 45).
Proof.
  unfold is_number. destruct t as [|c r]; [done|]. intros H. exists c, r. split; [done|]. case_if_in H; b2p; [by right|left].
  unfold read_int, read_digits in H. case_if_in H; b2p; [by subst|]. by destruct (is_digit c).
Qed.

Lemma read_number f t rest : is_number t = true -> forallb number_char t = true -> delimited rest -> read_value (S f) (t ++ rest) = Some (JNum t, rest).
Proof.
  intros Hn Hc Hr. destruct (take_number t rest Hc Hr) as [Ht Hd]. destruct (number_head t Hn) as (c & r & -> & Hh).
  cbn [app] in *. cbn [read_value]. rewrite Ht, Hd, Hn.
  assert (c = 45 \/ 48 <= c <= 57) as Hc' by (unfold is_digit in Hh; destruct Hh; b2p; lia).
  rewrite (proj2 (Z.eqb_neq c 34)), (proj2 (Z.eqb_neq c 123)) by lia.
  assert (forall (x : Z) (pre : bytes), x <> c -> starts_with (x :: pre) (c :: r ++ rest) = false) as Hs.
  { intros x pre Hx. cbn. by rewrite (proj2 (Z.eqb_neq x c)) by done. }
  change (lit "true") with (116 :: lit "rue"). change (lit "false") with (102 :: lit "alse"). rewrite !Hs by lia. reflexivity.
Qed.

Lemma quoted_head us : exists r, quoted us = 34 :: r.
Proof. by eexists. Qed.

Lemma read_bool f (b : bool) rest : read_value (S f) ((if b then lit "true" else lit "false") ++ rest) = Some (JBool b, rest).
Proof. destruct b; reflexivity. Qed.

Lemma read_str f s rest : forallb scalar s = true -> read_value (S f) (quoted s ++ rest) = Some (JStr s, rest).
Proof.
  intros Hs. destruct (quoted_head s) as [r Hr]. pose proof (read_quoted s rest (forallb_scalar _ Hs)) as H. rewrite Hr in *.
  cbn [app read_value] in *. rewrite Z.eqb_refl, H. reflexivity.
Qed.

Lemma members_head ms : ms <> [] -> exists r, mprint true ms = 34 :: r.
Proof. destruct ms as [|[k x] r]; [done|]. intros _. unfold mprint. cbn. by eexists. Qed.

Lemma read_members_step f k x ms rest :
  (forall rest, delimited rest -> read_value f (jprint x ++ rest) = Some (x, rest)) ->
  (ms <> [] -> read_members f (mprint true ms ++ 125 :: rest) = Some (ms, rest)) ->
  forallb scalar k = true ->
  read_members (S f) (mprint true ((k, x) :: ms) ++ 125 :: rest) = Some ((k, x) :: ms, rest).
Proof.
  intros Hx Hm Hk. unfold mprint. cbn [members_text app]. rewrite <- !app_assoc. cbn [read_members app].
  rewrite read_quoted by (by apply forallb_scalar). cbn [mbind option_bind]. destruct ms as [|[k' x'] ms].
  - cbn [members_text app]. rewrite app_nil_r, Hx by done. reflexivity.
  - cbn [members_text app]. rewrite <- !app_assoc, Hx by done. cbn [mbind option_bind]. specialize (Hm ltac:(done)). unfold mprint in Hm. cbn [members_text app] in Hm.
    repeat (rewrite <- ?app_assoc in Hm; progress cbn [app] in Hm). rewrite <- ?app_assoc in Hm.
    repeat (rewrite <- ?app_assoc; progress cbn [app]). rewrite <- ?app_assoc, Hm. reflexivity.
Qed.

Lemma read_printed f :
  (forall j rest, jwf j = true -> (jsize j <= f)%nat -> delimited rest -> read_value f (jprint j ++ rest) = Some (j, rest)) /\
  (forall ms rest, ms <> [] -> all_members jwf ms = true -> (msize jsize ms <= f)%nat -> read_members f (mprint true ms ++ 125 :: rest) = Some (ms, rest)).
Proof.
  induction f as [|f [IHv IHm]]; split.
  - intros []; cbn; intros; lia.
  - intros [|[k x] ms] rest; cbn; intros; [done|lia].
  - intros j rest Hw Hs Hr. destruct j as [s|t|b|ms]; cbn [jwf jsize] in *.
    + by apply read_str.
    + b2p. by apply read_number.
    + apply read_bool.
    + cbn [jprint app]. rewrite <- app_assoc. destruct ms as [|m ms]; [reflexivity|]. fold mprint.
      specialize (IHm (m :: ms) rest ltac:(done) Hw ltac:(lia)). destruct (members_head (m :: ms) ltac:(done)) as [r Hh].
      change (members_text jprint) with mprint. rewrite Hh in *. cbn [app read_value] in *. change (123 =? 34) with false. change (123 =? 123) with true.
      cbn [mbind]. cbv iota. rewrite IHm. reflexivity.
  - intros [|[k x] ms] rest Hne Hw Hs; [done|]. cbn in Hw. change (msize _ _) with (S (jsize x) + msize jsize ms)%nat in Hs. b2p.
    apply read_members_step; [|intros; apply IHm; [done..|]|done].
    + intros. apply IHv; [done| |done]. lia.
    + lia.
Qed.

Lemma size_printed n :
  (forall j, (jsize j <= n)%nat -> jwf j = true -> (jsize j <= length (jprint j))%nat) /\
  (forall ms first, (msize jsize ms <= n)%nat -> all_members jwf ms = true -> (msize jsize ms <= length (mprint first ms))%nat).
Proof.
  induction n as [|n [IHj IHm]]; split.
  - intros []; cbn; lia.
  - intros [|m ms] first; cbn; lia.
  - intros j Hs Hw. destruct j as [s|t|b|ms]; cbn [jwf jsize jprint] in *.
    + cbn. lia.
    + b2p. destruct (number_head t) as (c & r & -> & _); [done|]. cbn. lia.
    + destruct b; cbn; lia.
    + specialize (IHm ms true ltac:(lia) Hw). change (members_text jprint) with mprint. rewrite !length_app. cbn. lia.
  - intros [|[k x] ms] first Hs Hw; [cbn; lia|]. cbn in Hw. change (msize _ (_ :: _)) with (S (jsize x) + msize jsize ms)%nat in Hs |- *. b2p.
    specialize (IHj x ltac:(lia) ltac:(done)). specialize (IHm ms false ltac:(lia) ltac:(done)).
    unfold mprint. cbn [members_text]. change (members_text jprint) with mprint. rewrite !length_app. cbn. lia.
Qed.

Lemma json_read_printed j rest : jwf j = true -> delimited rest -> json_read (jprint j ++ rest) = Some (j, rest).
Proof.
  intros Hw Hr. unfold json_read. apply (proj1 (read_printed _)); [done| |done].
  pose proof (proj1 (size_printed (jsize j)) j ltac:(lia) Hw). rewrite length_app. lia.
Qed.

(** ** Numbers *)

Lemma dec_digits_shape f n : 0 <= n < 10 ^ Z.of_nat f -> (0 < f)%nat ->
  exists c r, dec_digits f n = c :: r /\ Forall (fun c => 48 <= c <= 57) (c :: r) /\ (c = 48 -> n = 0).
Proof.
  revert n. induction f as [|f IH]; intros n Hn Hf; [lia|]. cbn [dec_digits]. case_if; b2p.
  - exists (48 + n), []. split_and!; [done|repeat constructor; lia|lia].
  - destruct f as [|f]; [change (10 ^ Z.of_nat 1) with 10 in Hn; lia|]. rewrite Nat2Z.inj_succ, Z.pow_succ_r in Hn by lia.
    assert (1 <= n / 10) by (apply Z.div_le_lower_bound; lia).
    destruct (IH (n / 10)) as (c & r & -> & Hd & Hz); [split; [lia|apply Z.div_lt_upper_bound; lia]|lia|].
    exists c, (r ++ [48 + n mod 10]). pose proof (Z.mod_pos_bound n 10 ltac:(lia)). split_and!; [done| |lia].
    change (c :: r ++ ?x) with ((c :: r) ++ x). apply Forall_app. split; [done|]. repeat constructor; lia.
Qed.

Lemma digit_in_range c : 48 <= c <= 57 -> is_digit c = true.
Proof. intros. unfold is_digit. b2p. lia. Qed.

Lemma print_u_number n : 0 <= n < 10 ^ 20 -> is_number (print_u n) = true /\ forallb number_char (print_u n) = true.
Proof.
  intros Hn. destruct (dec_digits_shape 20 n) as (c & r & E & Hd & Hz); [done|lia|]. unfold print_u. rewrite E. split.
  - unfold is_number. inversion Hd as [|? ? Hc Hr]; subst. rewrite (proj2 (Z.eqb_neq c 45)) by lia. unfold read_int. case_if; b2p.
    + subst. rewrite (Hz eq_refl) in E. vm_compute in E. injection E as <-. reflexivity.
    + unfold read_digits. rewrite digit_in_range by done. cbn [mbind option_bind].
      rewrite drop_while_id; [reflexivity|]. eapply Forall_impl; [exact Hr|]. apply digit_in_range.
  - apply forallb_forall. rewrite List.Forall_forall in Hd. intros x Hx. unfold number_char. rewrite digit_in_range by (by apply Hd). done.
Qed.

Lemma dec_signed_number n : - 10 ^ 20 < n < 10 ^ 20 -> is_number (dec_signed n) = true /\ forallb number_char (dec_signed n) = true.
Proof.
  intros Hn. unfold dec_signed. case_if; b2p; [|apply print_u_number; lia].
  destruct (print_u_number (- n)) as [Hi Hc]; [lia|]. cbn [forallb]. split; [|by rewrite Hc].
  destruct (number_head _ Hi) as (c & r & E & Hh). unfold is_number in *. rewrite E in *. cbn [Z.eqb].
  destruct (dec_digits_shape 20 (- n)) as (c' & r' & E' & Hd & _); [lia..|]. unfold print_u in E. rewrite E' in E. simplify_eq.
  inversion Hd; subst. rewrite (proj2 (Z.eqb_neq c 45)) in Hi by lia. done.
Qed.

(** ** Records *)

(** The values an attribute can have: machine integers, and a double whose text is a JSON
    number (it is finite). *)
Definition value_ok (a : attr_value) : Prop :=
  match a with
  | HTTP_LOG_ATTR_STR s => Forall is_byte (default [] s)
  | HTTP_LOG_ATTR_I64 n => - 2 ^ 63 <= n < 2 ^ 63
  | HTTP_LOG_ATTR_U64 n => 0 <= n < 2 ^ 64
  | HTTP_LOG_ATTR_BOOL _ => True
  | HTTP_LOG_ATTR_F64 g => is_number g = true /\ forallb number_char g = true
  end.

Definition attr_ok (a : http_log_attr_t) : Prop := Forall is_byte (key a) /\ value_ok (v a).

Definition record_ok (rec : http_log_record_t) : Prop :=
  time_ok rec /\ Forall is_byte (default [] (rec_body rec)) /\ Forall attr_ok (attrs rec) /\
  Forall is_byte (trace_id rec) /\ Forall is_byte (span_id rec).

(** What a reader should see. *)
Definition value_json (a : attr_value) : json :=
  match a with
  | HTTP_LOG_ATTR_STR s => JStr (utf8_lossy (c_str (default [] s)))
  | HTTP_LOG_ATTR_I64 n => JNum (dec_signed n)
  | HTTP_LOG_ATTR_U64 n => JNum (print_u n)
  | HTTP_LOG_ATTR_BOOL b => JBool b
  | HTTP_LOG_ATTR_F64 g => JNum g
  end.

Definition attr_json (a : http_log_attr_t) : list Z * json := (utf8_lossy (c_str (key a)), value_json (v a)).

Definition record_json (rec : http_log_record_t) : json :=
  JObj ([(lit "Timestamp", JStr (timestamp rec));
         (lit "SeverityNumber", JNum (print_u (severity_number (severity rec))));
         (lit "SeverityText", JStr (severity_text (severity rec)));
         (lit "Body", JStr (utf8_lossy (default [] (rec_body rec))))] ++
        match attrs rec with [] => [] | l => [(lit "Attributes", JObj (map attr_json l))] end ++
        (if has_trace rec then [(lit "TraceId", JStr (hex_text (trace_id rec))); (lit "SpanId", JStr (hex_text (span_id rec)))] else [])).

(** *** Plain text needs no escape *)

Definition plain_char (c : Z) : bool := (32 <=? c) && (c <? 128) && negb (c =? 34) && negb (c =? 92).
Definition plain (s : list Z) : Prop := forallb plain_char s = true.

Lemma plain_esc s : plain s -> flat_map esc s = s.
Proof.
  unfold plain. induction s as [|c s IH]; [done|]. cbn [forallb flat_map]. intros [Hc Hs]%andb_true_iff. rewrite IH by done.
  unfold plain_char in Hc. b2p. unfold esc, json_escape, DQ, BACKSLASH. repeat case_if; b2p; try lia; reflexivity.
Qed.

Lemma plain_quoted s : plain s -> quoted s = [34] ++ s ++ [34].
Proof. intros H. unfold quoted. by rewrite plain_esc. Qed.

Lemma plain_app a b : plain (a ++ b) <-> plain a /\ plain b.
Proof. unfold plain. rewrite forallb_app, andb_true_iff. done. Qed.

Lemma plain_ascii s : plain s -> ascii s.
Proof. unfold plain, ascii. rewrite forallb_forall, List.Forall_forall. intros H c Hc. specialize (H c Hc). unfold plain_char in H. b2p. lia. Qed.

Lemma plain_scalar s : plain s -> forallb scalar s = true.
Proof.
  unfold plain. rewrite !forallb_forall. intros H c Hc. specialize (H c Hc). unfold plain_char in H. b2p. apply scalar_intro; lia.
Qed.

Lemma digits_plain s : Forall (fun c => 48 <= c <= 57) s -> plain s.
Proof. unfold plain. rewrite forallb_forall, List.Forall_forall. intros H c Hc. specialize (H c Hc). unfold plain_char. b2p. cbn in H. lia. Qed.

Lemma pad_plain w n : 0 <= n < 10 ^ 20 -> plain (pad w n).
Proof.
  intros Hn. unfold pad. apply plain_app. split.
  - apply digits_plain. generalize (w - length (print_u n))%nat as k. induction k; cbn; constructor; [lia|done].
  - destruct (dec_digits_shape 20 n) as (c & r & E & Hd & _); [done|lia|]. apply digits_plain. unfold print_u. by rewrite E.
Qed.

Lemma plain_take n s : plain s -> plain (take n s).
Proof. unfold plain. rewrite !forallb_forall, <- !List.Forall_forall. apply Forall_take. Qed.

Lemma timestamp_plain rec : time_ok rec -> plain (timestamp rec).
Proof.
  intros [Ht Hm]. pose proof (tm_bounds _ Ht) as Hb. unfold timestamp, format_iso8601, iso_prefix.
  apply plain_app; split.
  - apply plain_take. repeat match goal with |- plain (_ ++ _) => apply plain_app; split end; try reflexivity; apply pad_plain; lia.
  - apply (plain_app [_; _; _] [_]). split; [|reflexivity]. apply digits_plain. repeat constructor; dlia.
Qed.

Lemma hex_plain s : Forall is_byte s -> plain (hex_text s).
Proof.
  induction 1 as [|c s Hc Hs IH]; [done|]. cbn [hex_text flat_map]. apply plain_app. split; [|done]. unfold is_byte in Hc.
  assert (forall n, 0 <= n < 16 -> plain_char (hexd n) = true) as Hh by (intros; unfold plain_char, hexd; case_if; b2p; lia).
  unfold plain. cbn [forallb]. rewrite !Hh by dlia. done.
Qed.

(** *** The line *)

Lemma encode_plain s : plain s -> encode_all (quoted s) = [34] ++ s ++ [34].
Proof. intros H. rewrite plain_quoted, !encode_all_app, (encode_ascii s) by auto using plain_ascii. reflexivity. Qed.

Lemma number_ascii t : forallb number_char t = true -> ascii t.
Proof.
  unfold ascii. rewrite forallb_forall, List.Forall_forall. intros H c Hc. specialize (H c Hc). unfold number_char, is_digit in H.
  repeat rewrite orb_true_iff in H. rewrite andb_true_iff in H. lia.
Qed.

Lemma attrs_line first l : Forall attr_ok l -> attrs_text LOG_STYLE_JSON first l = encode_all (mprint first (map attr_json l)).
Proof.
  intros H. revert first. induction H as [|a l [Hk Hv] _ IH]; intros first; [done|].
  cbn [attrs_text map attr_key_text]. unfold mprint. unfold attr_json at 1. cbn [members_text]. change (members_text jprint) with mprint.
  rewrite !encode_all_app, <- IH. rewrite json_text_quoted by (unfold c_str; by apply take_while_Forall). rewrite <- !app_assoc. f_equal.
  { by destruct first. } f_equal. cbn [app encode_all flat_map utf8_encode]. f_equal.
  replace (attr_value_text LOG_STYLE_JSON (v a)) with (encode_all (jprint (value_json (v a)))); [done|].
  destruct (v a) as [s|n|n|b|g]; cbn [value_json jprint attr_value_text value_ok] in *.
  - symmetry. apply json_text_quoted. unfold c_str; by apply take_while_Forall.
  - apply encode_ascii, number_ascii, dec_signed_number. lia.
  - apply encode_ascii, number_ascii, print_u_number. lia.
  - destruct b; reflexivity.
  - apply encode_ascii, number_ascii, Hv.
Qed.

Lemma encode_member first k x ms :
  encode_all (mprint first ((k, x) :: ms)) = (if first then [] else [44]) ++ encode_all (quoted k) ++ [58] ++ encode_all (jprint x) ++ encode_all (mprint false ms).
Proof. unfold mprint. cbn [members_text]. rewrite !encode_all_app. by destruct first. Qed.

Lemma encode_obj ms : encode_all (jprint (JObj ms)) = [123] ++ encode_all (mprint true ms) ++ [125].
Proof. cbn [jprint]. rewrite !encode_all_app. reflexivity. Qed.

Lemma json_line_printed rec : record_ok rec -> json_line rec = encode_all (jprint (record_json rec)).
Proof.
  intros (Ht & Hb & Ha & Htr & Hsp). unfold json_line, record_json.
  pose proof (encode_plain _ (timestamp_plain _ Ht)) as Ets. pose proof (encode_plain _ (hex_plain _ Htr)) as Etr.
  pose proof (encode_plain _ (hex_plain _ Hsp)) as Esp. rewrite (json_text_quoted _ Hb).
  assert (json_text (severity_text (severity rec)) = encode_all (quoted (severity_text (severity rec)))) as -> by (by destruct (severity rec)).
  assert (encode_all (print_u (severity_number (severity rec))) = print_u (severity_number (severity rec))) as Esn by (by destruct (severity rec)).
  destruct (attrs rec) as [|a l] eqn:El, (has_trace rec); cbn [app]; rewrite encode_obj, !encode_member, ?encode_obj, <- ?attrs_line by done; cbn [jprint];
    rewrite ?Ets, ?Etr, ?Esp, ?Esn; rewrite <- ?app_assoc; clear;
    generalize (timestamp rec), (print_u (severity_number (severity rec))), (hex_text (trace_id rec)), (hex_text (span_id rec)),
      (encode_all (quoted (severity_text (severity rec)))), (encode_all (quoted (utf8_lossy (default [] (rec_body rec))))); intros;
    try (generalize (attrs_text LOG_STYLE_JSON true (a :: l)); intros);
    repeat (progress (cbn [app]; rewrite <- ?app_assoc)); reflexivity.
Qed.

Lemma record_json_wf rec : record_ok rec -> jwf (record_json rec) = true.
Proof.
  intros (Ht & Hb & Ha & Htr & Hsp). unfold record_json. cbn [jwf]. unfold all_members. rewrite !forallb_app. cbn [forallb fst snd jwf].
  assert (forall s, forallb scalar (utf8_lossy s) = true) as Hl.
  { intros s. apply forallb_forall. pose proof (lossy_scalar (length s) s) as H. rewrite List.Forall_forall in H. exact H. }
  assert (is_number (print_u (severity_number (severity rec))) && forallb number_char (print_u (severity_number (severity rec))) = true) as -> by (by destruct (severity rec)).
  rewrite Hl, (plain_scalar _ (timestamp_plain _ Ht)). assert (forallb scalar (severity_text (severity rec)) = true) as -> by (by destruct (severity rec)).
  assert (forallb (fun m => forallb scalar (fst m) && jwf (snd m)) (map attr_json (attrs rec)) = true) as Hat.
  { apply forallb_forall. intros m (a & <- & Hin)%in_map_iff. rewrite List.Forall_forall in Ha. destruct (Ha a Hin) as [_ Hv].
    cbn [attr_json fst snd]. rewrite Hl. destruct (v a) as [s|n|n|b|g]; cbn [value_json value_ok jwf] in *; try done.
    - by rewrite Hl.
    - destruct (dec_signed_number n) as [-> ->]; [lia|done].
    - destruct (print_u_number n) as [-> ->]; [lia|done].
    - destruct Hv as [-> ->]. done. }
  destruct (attrs rec) as [|a l]; destruct (has_trace rec); cbn [forallb fst snd jwf]; unfold all_members;
    rewrite ?Hat, ?(plain_scalar _ (hex_plain _ Htr)), ?(plain_scalar _ (hex_plain _ Hsp)); reflexivity.
Qed.

Lemma ascii_scalar s : ascii s -> Forall (fun u => scalar u = true) s.
Proof. intros H. eapply Forall_impl; [exact H|]. cbn. intros. apply scalar_intro; lia. Qed.

Lemma quoted_scalar us : forallb scalar us = true -> Forall (fun u => scalar u = true) (quoted us).
Proof.
  intros H%forallb_scalar. unfold quoted. apply Forall_app; split; [by repeat constructor|]. apply Forall_app; split; [|by repeat constructor].
  induction H as [|u us Hu _ IH]; [constructor|]. cbn [flat_map]. apply Forall_app; split; [|done].
  destruct (decide (u < 128)); [apply ascii_scalar, esc_ascii; pose proof (scalar_range u Hu); lia|].
  rewrite esc_high by lia. by repeat constructor.
Qed.

Lemma printed_scalar n :
  (forall j, (jsize j <= n)%nat -> jwf j = true -> Forall (fun u => scalar u = true) (jprint j)) /\
  (forall ms first, (msize jsize ms <= n)%nat -> all_members jwf ms = true -> Forall (fun u => scalar u = true) (mprint first ms)).
Proof.
  induction n as [|n [IHj IHm]]; split.
  - intros []; cbn; lia.
  - intros [|m ms] first; cbn; [constructor|lia].
  - intros j Hs Hw. destruct j as [s|t|b|ms]; cbn [jwf jsize jprint] in *.
    + by apply quoted_scalar.
    + b2p. by apply ascii_scalar, number_ascii.
    + destruct b; by repeat constructor.
    + change (members_text jprint) with mprint. apply Forall_app; split; [by repeat constructor|]. apply Forall_app; split; [apply IHm; [lia|done]|by repeat constructor].
  - intros [|[k x] ms] first Hs Hw; [constructor|]. cbn in Hw. change (msize _ (_ :: _)) with (S (jsize x) + msize jsize ms)%nat in Hs. b2p.
    unfold mprint. cbn [members_text]. change (members_text jprint) with mprint.
    repeat match goal with |- Forall _ (_ ++ _) => apply Forall_app; split end; [destruct first; by repeat constructor|by apply quoted_scalar|by repeat constructor|apply IHj; [lia|done]|apply IHm; [lia|done]].
Qed.

(** C28: a JSON log record that fits its buffer reads back. Whatever bytes the message, the
    attribute names and the attribute strings hold, a line of [http_log_format_json] that did not
    fill the buffer is valid UTF-8, and an independent JSON reader finds exactly one object in it,
    followed by the newline: the timestamp, the severity number and text, the message with every
    byte that begins no UTF-8 sequence replaced by U+FFFD, the attributes in order with their
    values, and the trace and span identifiers exactly when the record carries a trace. *)
Theorem log_json_reads_back rec n :
  record_ok rec -> 2 <= n ->
  Z.of_nat (length (http_log_format_json rec n)) < n - 1 ->
  exists us, utf8_decode (http_log_format_json rec n) = Some us /\ json_read us = Some (record_json rec, [LF]).
Proof.
  intros Hr Hn Hl. rewrite format_json_text in * by done. rewrite length_app, length_take in Hl. cbn [length] in Hl.
  rewrite take_ge by lia. exists (jprint (record_json rec) ++ [LF]). split.
  - rewrite json_line_printed by done. change [LF] with (encode_all [LF]). rewrite <- encode_all_app. apply decode_encode.
    apply Forall_app; split; [|by repeat constructor]. apply (proj1 (printed_scalar (jsize (record_json rec)))); [done|by apply record_json_wf].
  - apply json_read_printed; [by apply record_json_wf|reflexivity].
Qed.

(** A request line with an invalid byte, a quote and a newline, with its attributes and trace. *)
Definition sample : http_log_record_t :=
  {| tm_buf := {| HttpDate.tm_sec := 7; HttpDate.tm_min := 5; HttpDate.tm_hour := 3; HttpDate.tm_mday := 2; HttpDate.tm_mon := 0;
                  HttpDate.tm_year := 126; HttpDate.tm_wday := 5 |};
     ms := 42; severity := HTTP_LOG_INFO; category := HTTP_LOG_CAT_ACCESS;
     rec_body := Some (lit "GET /" ++ [255; 34; 10; 195; 169]);
     attrs := [{| key := lit "url.path"; v := HTTP_LOG_ATTR_STR (Some (lit "/" ++ [255; 34; 10; 195; 169])) |};
               {| key := lit "http.response.status_code"; v := HTTP_LOG_ATTR_I64 200 |};
               {| key := lit "http.server.request.duration"; v := HTTP_LOG_ATTR_F64 (lit "1.5e-05") |}];
     trace_id := repeat 171 16; span_id := repeat 205 8; has_trace := true |}.

Lemma sample_ok : record_ok sample.
Proof.
  split_and!; repeat first [apply List.Forall_cons | apply List.Forall_nil | reflexivity | discriminate | split].
Qed.

Lemma log_json_reads_back_witness :
  exists us, utf8_decode (http_log_format_json sample 2048) = Some us /\ json_read us = Some (record_json sample, [LF]).
Proof. apply log_json_reads_back; [apply sample_ok|lia|vm_compute; reflexivity]. Defined.

End LogJson.
