(* ===== verification/LogEmit.v ===== *)
(** * Emitting log records: properties

    A record is one line for every formatter but logfmt, and the fan-out gives each sink
    that admits a record the rendering of its own formatter. *)

From S2P Require Import Prelude HttpDate HttpClient LogFormat JsonReader LogFormatProps LogJson.

Module LogEmit.
Import LogFormat JsonReader LogFormatProps LogJson.

(** ** The fan-out *)

(** What a sink should get. *)
Definition delivery (e : env) (rec : http_log_record_t) (i : nat) (sink : http_log_sink_t) : list (nat * bytes) :=
  if skipped rec sink then []
  else match call_formatter e (formatter sink) (formatter_ud sink) rec FBUF with [] => [] | b => [(i, b)] end.

Fixpoint deliveries (e : env) (rec : http_log_record_t) (i : nat) (l : list http_log_sink_t) : list (nat * bytes) :=
  match l with
  | [] => []
  | sink :: r => delivery e rec i sink ++ deliveries e rec (S i) r
  end.

(** The cache holds what its stamps say. *)
Definition slot_ok (e : env) (rec : http_log_record_t) (m : slot) : Prop := fbuf m = call_formatter e (fn m) (ud m) rec FBUF.

Lemma find_slot_some f u k meta s : find_slot f u k meta = Some s ->
  exists j m, s = (k + j)%nat /\ meta !! j = Some m /\ fn m = f /\ ud m = u.
Proof.
  revert k. induction meta as [|m meta IH]; intros k; cbn [find_slot]; [done|]. destruct (_ && _) eqn:E.
  - intros [= <-]. apply andb_true_iff in E as [E1%bool_decide_eq_true E2%Z.eqb_eq]. exists 0%nat, m. split_and!; [lia|done..].
  - intros (j & m' & -> & ? & ? & ?)%IH. exists (S j), m'. split_and!; [lia|done..].
Qed.

(** The bytes a turn of the loop hands on, and the cache it leaves. *)
Lemma slot_step e rec sink meta : Forall (slot_ok e rec) meta ->
  let '(s, meta') :=
    match find_slot (formatter sink) (formatter_ud sink) 0 meta with
    | Some s => (s, meta)
    | None =>
        let fresh := {| fn := formatter sink; ud := formatter_ud sink;
                        fbuf := call_formatter e (formatter sink) (formatter_ud sink) rec FBUF |} in
        if (length meta <? HTTP_LOG_FMT_SLOTS)%nat then (length meta, meta ++ [fresh])
        else ((HTTP_LOG_FMT_SLOTS - 1)%nat, <[(HTTP_LOG_FMT_SLOTS - 1)%nat := fresh]> meta)
    end in
  Forall (slot_ok e rec) meta' /\ from_option fbuf [] (meta' !! s) = call_formatter e (formatter sink) (formatter_ud sink) rec FBUF.
Proof.
  intros Hm. destruct (find_slot _ _ 0 meta) as [s|] eqn:F.
  - split; [done|]. apply find_slot_some in F as (j & m & -> & Hj & <- & <-). cbn [Nat.add]. rewrite Hj. cbn.
    by apply (Forall_lookup_1 _ _ _ _ Hm Hj).
  - cbn zeta. destruct (length meta <? HTTP_LOG_FMT_SLOTS)%nat eqn:E.
    + split; [apply Forall_app; split; [done|by repeat constructor]|]. by rewrite list_lookup_middle.
    + apply Nat.ltb_ge in E. split; [by apply Forall_insert|]. rewrite list_lookup_insert_eq by (unfold HTTP_LOG_FMT_SLOTS in *; lia). done.
Qed.

Lemma dispatch_loop_exact e rec l : forall i meta, Forall (slot_ok e rec) meta -> dispatch_loop e rec i l meta = deliveries e rec i l.
Proof.
  induction l as [|sink l IH]; intros i meta Hm; cbn [dispatch_loop deliveries]; [done|]. unfold delivery.
  destruct (skipped rec sink); [by apply IH|]. pose proof (slot_step e rec sink meta Hm) as H.
  destruct (match find_slot _ _ _ _ with Some _ => _ | None => _ end) as [s meta']. destruct H as [Hm' ->].
  destruct (call_formatter _ _ _ _ _) eqn:E; cbn [app]; by rewrite IH.
Qed.

(** *** The gates *)

(** Floors and gates that let every record through some sink admits. *)
Definition gate_covers (g : http_log_severity_t * bool) (sink : http_log_sink_t) : Prop :=
  severity_floor sink <> HTTP_LOG_OFF ->
  (Z.land (category_mask sink) HTTP_LOG_CAT_APP <> 0 -> fst g <> HTTP_LOG_OFF /\ severity_number (fst g) <= severity_number (severity_floor sink)) /\
  (Z.land (category_mask sink) HTTP_LOG_CAT_ACCESS <> 0 -> severity_number (severity_floor sink) <= severity_number HTTP_LOG_INFO -> snd g = true).

Lemma gate_step_covers g sink : gate_covers (gate_step g sink) sink.
Proof.
  destruct g as [floor access]. unfold gate_covers, gate_step, below. intros Hf. rewrite bool_decide_eq_false_2 by done. cbn [fst snd]. split.
  - intros Hm. rewrite (proj2 (Z.eqb_neq _ 0)) by done. cbn [negb andb]. destruct (bool_decide (floor = HTTP_LOG_OFF)) eqn:E; cbn [orb]; [by split|].
    apply bool_decide_eq_false in E. case_if; b2p; split; done || lia.
  - intros Hm Hi. rewrite (proj2 (Z.eqb_neq _ 0)), (proj2 (Z.ltb_ge _ _)) by done. by rewrite orb_true_r.
Qed.

Lemma gate_step_keeps g sink s : gate_covers g s -> gate_covers (gate_step g sink) s.
Proof.
  destruct g as [floor access]. unfold gate_covers, gate_step, below. intros H Hf. destruct (H Hf) as [Ha Hc]. cbn [fst snd] in *. clear H.
  destruct (bool_decide (severity_floor sink = HTTP_LOG_OFF)) eqn:E; [done|]. apply bool_decide_eq_false in E. cbn [fst snd]. split.
  - intros Hm. destruct (Ha Hm) as [Hn Hl]. rewrite bool_decide_eq_false_2 by done. cbn [orb]. case_if; b2p; split; done || lia.
  - intros Hm Hi. by rewrite (Hc Hm Hi).
Qed.

Lemma gate_fold_keeps l g s : gate_covers g s -> gate_covers (fold_left gate_step l g) s.
Proof. revert g. induction l as [|x l IH]; intros g H; cbn; [done|]. apply IH, gate_step_keeps, H. Qed.

Lemma gate_fold_covers l g : Forall (gate_covers (fold_left gate_step l g)) l.
Proof.
  revert g. induction l as [|x l IH]; intros g; cbn [fold_left]; constructor; [apply gate_fold_keeps, gate_step_covers|apply IH].
Qed.

Lemma deliveries_none e rec i l : Forall (fun s => skipped rec s = true) l -> deliveries e rec i l = [].
Proof. intros H. revert i. induction H as [|s l Hs _ IH]; intros i; cbn; [done|]. unfold delivery. by rewrite Hs, IH. Qed.

Lemma skipped_intro rec sink :
  (severity_floor sink <> HTTP_LOG_OFF -> Z.land (category_mask sink) (category rec) <> 0 ->
   severity_number (severity rec) < severity_number (severity_floor sink)) -> skipped rec sink = true.
Proof.
  intros H. unfold skipped, below. destruct (decide (severity_floor sink = HTTP_LOG_OFF)) as [E|E]; [by rewrite bool_decide_eq_true_2|].
  rewrite bool_decide_eq_false_2 by done. destruct (Z.land _ _ =? 0) eqn:M; [by rewrite orb_true_r|]. apply Z.eqb_neq in M.
  rewrite (proj2 (Z.ltb_lt _ _)) by auto. done.
Qed.

(** the log fan-out is exact. With the sinks a server starts, however many and whatever
    their formats, levels and categories, an application record and an access record reach
    exactly the sinks that admit them, in order, and each sink gets the text its own formatter makes
    of the record: neither the two gates that short-cut an emit nor the four-slot cache of rendered
    texts changes what is written, past four distinct formatters included. *)
Theorem log_fanout_exact e t opens specs sev al text ar :
  let st := http_log_server_start_sinks opens specs in
  http_log_emitf e t (Some st) sev al (Some text)
    = (if bool_decide (sev = HTTP_LOG_OFF) then [] else deliveries e (app_record t sev al text) 0 (sinks st)) /\
  http_log_emit_access e t (Some st) (Some ar) = deliveries e (access_record t ar) 0 (sinks st).
Proof.
  intros st. set (l := omap (http_log_sink_start opens) (take HTTP_LOG_MAX_SINKS specs)).
  assert (st = let '(floor, access) := fold_left gate_step l (HTTP_LOG_OFF, false) in {| gate := floor; has_access := access; sinks := l |}) as Est by done.
  pose proof (gate_fold_covers l (HTTP_LOG_OFF, false)) as Hg. destruct (fold_left gate_step l _) as [floor access]. rewrite Est. clear Est st.
  rewrite List.Forall_forall in Hg. cbn [sinks]. split.
  - unfold http_log_emitf. cbn [gate sinks]. destruct (bool_decide (sev = HTTP_LOG_OFF)) eqn:Es; [by rewrite orb_true_r|].
    rewrite orb_false_r. unfold log_dispatch_record. rewrite dispatch_loop_exact by constructor. cbn [sinks].
    case_if; [|done]. symmetry. apply deliveries_none, List.Forall_forall. intros s Hs. apply skipped_intro. intros Hf Hm.
    destruct (Hg s Hs Hf) as [Ha _]. destruct (Ha Hm) as [Hn Hle]. cbn [fst] in *. unfold below in *. cbn [severity app_record].
    rewrite bool_decide_eq_false_2 in * by done. cbn [orb] in *. b2p. destruct l; [done|]. cbn in *. lia.
  - unfold http_log_emit_access. cbn [has_access]. unfold log_dispatch_record. rewrite dispatch_loop_exact by constructor. cbn [sinks].
    destruct access; [done|]. symmetry. apply deliveries_none, List.Forall_forall. intros s Hs. apply skipped_intro. intros Hf Hm.
    destruct (Hg s Hs Hf) as [_ Hc]. specialize (Hc Hm). cbn [snd severity access_record] in *.
    destruct (Z.le_gt_cases (severity_number (severity_floor s)) (severity_number HTTP_LOG_INFO)) as [Hle|Hgt]; [by specialize (Hc Hle)|lia].
Qed.

(** ** One line per record *)

Definition value_safe (a : attr_value) : Prop :=
  match a with
  | HTTP_LOG_ATTR_STR s => Forall is_byte (default [] s)
  | HTTP_LOG_ATTR_U64 n => 0 <= n
  | HTTP_LOG_ATTR_F64 g => clean g
  | _ => True
  end.

(** The bytes are bytes, the clock is a clock, and the names the server gives its attributes
    hold no control byte; the message and the attribute strings are unconstrained. *)
Definition record_safe (rec : http_log_record_t) : Prop :=
  time_ok rec /\ Forall is_byte (default [] (rec_body rec)) /\
  Forall (fun a => clean (key a) /\ Forall is_byte (key a) /\ value_safe (v a)) (attrs rec) /\
  Forall is_byte (trace_id rec) /\ Forall is_byte (span_id rec).

Lemma encode_clean us : Forall (fun u => scalar u = true /\ 32 <= u) us -> clean (encode_all us).
Proof.
  induction 1 as [|u us [Hs Hu] _ IH]; [constructor|]. cbn [encode_all flat_map]. apply clean_app. split; [|done].
  apply scalar_range in Hs. unfold utf8_encode. repeat case_if; b2p; repeat apply clean_cons; try apply clean_nil; dlia.
Qed.

Lemma esc_clean u : scalar u = true -> Forall (fun u => scalar u = true /\ 32 <= u) (esc u).
Proof.
  intros Hu. pose proof (scalar_range u Hu). pose proof (hexd_clean (u / 16) ltac:(dlia)). pose proof (hexd_clean (u mod 16) ltac:(dlia)).
  destruct (decide (u < 128)) as [Hl|Hl]; [|rewrite esc_high by lia; repeat constructor; [done|lia]].
  pose proof (esc_ascii u ltac:(lia)) as Ha. apply ascii_scalar in Ha.
  assert (Forall (fun c => 32 <= c) (esc u)) as Hc.
  { unfold esc, json_escape, u_escape. repeat case_if; b2p; repeat apply clean_cons; try apply clean_nil; auto with clean; lia. }
  rewrite List.Forall_forall in *. intros x Hx. split; auto.
Qed.

Lemma json_text_clean s : Forall is_byte s -> clean (json_text s).
Proof.
  intros Hs. rewrite json_text_quoted by done. apply encode_clean. unfold quoted. apply Forall_app; split; [by repeat constructor|].
  apply Forall_app; split; [|by repeat constructor]. pose proof (lossy_scalar (length s) s) as H. unfold utf8_lossy.
  induction H as [|u us Hu _ IH]; [constructor|]. cbn [flat_map]. apply Forall_app; split; [by apply esc_clean|done].
Qed.

Lemma c_str_Forall (P : Z -> Prop) s : Forall P s -> Forall P (c_str s).
Proof. intros H. unfold c_str. by apply take_while_Forall. Qed.

Lemma attrs_clean style first l : style = LOG_STYLE_PLAIN \/ style = LOG_STYLE_JSON ->
  Forall (fun a => clean (key a) /\ Forall is_byte (key a) /\ value_safe (v a)) l -> clean (attrs_text style first l).
Proof.
  intros Hst H. revert first. induction H as [|a l (Hk & Hkb & Hv) _ IH]; intros first; [constructor|]. cbn [attrs_text].
  apply clean_app; split; [|apply clean_app; split; [|apply IH]].
  - destruct Hst as [-> | ->]; cbn [attr_key_text].
    + apply (clean_app [_]); split; [auto with clean|]. apply clean_app; split; [by apply c_str_Forall|auto with clean].
    + pose proof (json_text_clean _ (c_str_Forall _ _ Hkb)). cleans. destruct first; auto with clean.
  - destruct (v a) as [s|n|n|b|g]; cbn [attr_value_text value_safe] in *; auto with clean.
    + destruct Hst as [-> | ->]; [destruct s; [apply safe_text_clean; by apply c_str_Forall|auto with clean]|].
      apply json_text_clean; by apply c_str_Forall.
    + destruct b; auto with clean.
Qed.

Lemma body_clean rec : record_safe rec -> clean (body_text rec).
Proof. intros (_ & Hb & _). unfold body_text. destruct (rec_body rec); [by apply safe_text_clean|constructor]. Qed.

Lemma plain_clean rec : record_safe rec -> clean (plain_text rec).
Proof.
  intros H. pose proof (body_clean rec H). destruct H as (Ht & _ & Ha & _). unfold plain_text.
  cleans; [by apply timestamp_clean|apply attrs_clean; auto].
Qed.

Lemma pretty_clean rec : record_safe rec -> clean (pretty_text false rec).
Proof.
  intros H. pose proof (body_clean rec H). destruct H as (Ht & _ & Ha & _). unfold pretty_text.
  destruct (pretty_level_style (severity rec)) as [badge col] eqn:E.
  assert (clean badge) by (destruct (severity rec); cbn in E; simplify_eq; apply cleanb_ok; reflexivity).
  cbn [text_if]. cleans; [by apply clock_clean|apply attrs_clean; auto].
Qed.

Lemma json_clean rec : record_safe rec -> clean (json_line rec).
Proof.
  intros (Ht & Hb & Ha & Htr & Hsp). unfold json_line. pose proof (timestamp_clean rec Ht). pose proof (json_text_clean _ Hb).
  pose proof (hex_text_clean _ Htr). pose proof (hex_text_clean _ Hsp).
  assert (clean (print_u (severity_number (severity rec)))) by (apply print_u_no_control; destruct (severity rec); cbn; lia).
  assert (clean (json_text (severity_text (severity rec)))) by (apply cleanb_ok; by destruct (severity rec)).
  assert (forall n, cleanb n = true -> clean (member n)) as Hmem by (intros n Hn; unfold member; cleans; by apply cleanb_ok).
  cleans; try (apply Hmem; reflexivity).
  - destruct (attrs rec) as [|a l] eqn:E; [constructor|]. cleans; try (apply Hmem; reflexivity). apply attrs_clean; auto.
  - destruct (has_trace rec); [|constructor]. cleans; apply Hmem; reflexivity.
Qed.

Lemma seg_text_clean t seg : clean (text t) -> clean (seg_text t seg).
Proof. intros H. unfold seg_text. auto with clean. Qed.

Lemma template_clean t rec : record_safe rec -> clean (text t) -> clean (template_text t rec).
Proof.
  intros H Ht. pose proof (body_clean rec H). destruct H as (Htm & _ & Ha & Htr & Hsp). apply clean_flat_map. intros seg _. unfold segment_text.
  pose proof (tm_bounds _ (proj1 Htm)). pose proof (proj2 Htm).
  destruct (kind seg); try (by case_if; auto using hex_text_clean with clean); auto using seg_text_clean with clean.
  - case_if; [by apply timestamp_clean|]. apply clean_flat_map. intros c Hc. unfold ts_char_text. repeat case_if; try (apply pad_clean; dlia).
    pose proof (seg_text_clean t seg Ht) as Hcl. unfold clean in Hcl. rewrite Forall_forall in Hcl. apply clean_cons; [by apply Hcl|apply clean_nil].
  - apply attrs_clean; auto.
Qed.

Lemma syslog_clean host pid facility rec n : record_safe rec -> clean host ->
  clean (http_log_format_syslog host pid facility rec n) /\ Z.of_nat (length (http_log_format_syslog host pid facility rec n)) <= Z.max 0 (n - 1).
Proof.
  intros H Hh. pose proof (body_clean rec H) as Hb. destruct H as (Ht & _ & Ha & _). unfold http_log_format_syslog, put_body, sb_put_attrs.
  rewrite put_attrs_write.
  assert (forall t, clean t -> clean (out (sb_write t (sb_init n))) /\ Z.of_nat (length (out (sb_write t (sb_init n)))) <= Z.max 0 (n - 1)) as Hw.
  { intros t Hc. unfold sb_write, sb_init, len. cbn [cap out app length]. split; [by apply clean_take|]. rewrite length_take. lia. }
  pose proof (timestamp_clean rec Ht). pose proof (attrs_clean LOG_STYLE_PLAIN true _ ltac:(auto) Ha). pose proof (clean_is_c_str host Hh) as Hch.
  unfold body_text in Hb. destruct (rec_body rec); writes; apply Hw; rewrite Hch; cleans.
Qed.

(** The formatters whose line the record cannot break: logfmt is not one of them, and the
    coloured layout writes escape codes of its own. *)
Definition single_line (f : formatter_fn) (ud : Z) : bool :=
  match f with fmt_logfmt | fmt_syslog => false | fmt_pretty => ud =? 0 | _ => true end.

(** a log record is one line. For the plain, JSON, template and uncoloured pretty formatters
    and every buffer of two bytes or more, the output is a text without any byte below 0x20
    followed by one newline, also when the buffer cuts the record short, and it stays inside the
    buffer; a syslog message holds no byte below 0x20 at all. The message and the attribute
    strings, which carry a client's method, path and query, may hold any bytes. *)
Theorem log_record_one_line e f ud rec n :
  record_safe rec -> 2 <= n -> (forall a, clean (text (template_at e a))) -> clean (syslog_host e) ->
  (single_line f ud = true ->
   exists line, call_formatter e f ud rec n = line ++ [LF] /\ clean line /\ Z.of_nat (length line) + 1 < n) /\
  (f = fmt_syslog -> clean (call_formatter e f ud rec n) /\ Z.of_nat (length (call_formatter e f ud rec n)) < n).
Proof.
  intros H Hn Ht Hh. split; [|intros ->; cbn [call_formatter]; destruct (syslog_clean (syslog_host e) (getpid e) ud rec n H Hh); split; [done|lia]].
  intros Hf. pose proof (proj1 H) as Htm.
  assert (exists t, clean t /\ call_formatter e f ud rec n = take (Z.to_nat (n - 2)) t ++ [LF]) as (t & Hc & ->).
  { destruct f; cbn [call_formatter single_line] in *; try done.
    - exists (plain_text rec). split; [by apply plain_clean|by apply format_plain_text].
    - exists (json_line rec). split; [by apply json_clean|by apply format_json_text].
    - exists (pretty_text false rec). rewrite Hf. split; [by apply pretty_clean|by apply format_pretty_text].
    - case_if; cbn [http_log_format_template].
      + exists (plain_text rec). split; [by apply plain_clean|by apply format_plain_text].
      + exists (template_text (template_at e ud) rec). split; [by apply template_clean|by apply format_template_text]. }
  eexists. split; [reflexivity|]. split; [by apply clean_take|]. rewrite length_take. lia.
Qed.

(** A client's path with a line of its own, cut by a small buffer. *)
Definition forged : bytes := lit "/x" ++ [LF] ++ lit "ts=2026-01-02T03:05:07.042Z level=ERROR msg=forged".

Definition forging_record : http_log_record_t :=
  {| tm_buf := tm_buf sample; ms := 42; severity := HTTP_LOG_INFO; category := HTTP_LOG_CAT_ACCESS;
     rec_body := Some (lit "GET " ++ forged ++ lit " 200");
     attrs := [{| key := lit "url.path"; v := HTTP_LOG_ATTR_STR (Some forged) |}];
     trace_id := repeat 0 16; span_id := repeat 0 8; has_trace := false |}.

Definition sample_env : env := {| template_at := fun _ => {| segs := []; text := [] |}; syslog_host := lit "host"; getpid := 7 |}.

Lemma forging_record_safe : record_safe forging_record.
Proof.
  split_and!; repeat first [apply List.Forall_cons | apply List.Forall_nil | reflexivity | discriminate | split].
Qed.

Lemma log_record_one_line_witness :
  exists line, call_formatter sample_env fmt_json 0 forging_record 90 = line ++ [LF] /\ clean line /\ Z.of_nat (length line) + 1 < 90.
Proof.
  apply (log_record_one_line sample_env fmt_json 0 forging_record 90);
    [apply forging_record_safe|lia|intros; apply clean_nil|apply cleanb_ok; reflexivity|reflexivity].
Defined.

(** ** logfmt *)

Fixpoint count_lf (s : bytes) : nat := match s with [] => 0 | c :: r => (if c =? LF then 1 else 0) + count_lf r end.

Lemma count_lf_app a b : count_lf (a ++ b) = (count_lf a + count_lf b)%nat.
Proof. induction a as [|c a IH]; cbn [app count_lf]; [done|]. rewrite IH. lia. Qed.

Lemma logfmt_chars_lf s : count_lf (flat_map logfmt_char s) = count_lf s.
Proof.
  induction s as [|c s IH]; cbn [flat_map]; [done|]. rewrite count_lf_app, IH. unfold logfmt_char.
  destruct (_ || _); cbn [count_lf]; [change (BACKSLASH =? LF) with false|]; destruct (c =? LF); lia.
Qed.

Lemma logfmt_keeps_lf s : count_lf (logfmt_text s) = count_lf s.
Proof.
  unfold logfmt_text. destruct (match s with [] => _ | _ => _ end); [|done].
  rewrite !count_lf_app, logfmt_chars_lf. change (count_lf [DQ]) with 0%nat. lia.
Qed.

(** the logfmt formatter writes newlines of the message raw. A record that fits its buffer
    has at least one line more than its message has newlines: the value is put between quotes,
    but a control byte in it is copied, so a client whose path or query reaches the message or an
    attribute can end the record and write a line that reads as a record of its own. *)
Theorem log_logfmt_forges_lines rec n :
  2 <= n -> Z.of_nat (length (http_log_format_logfmt rec n)) < n - 1 ->
  (S (count_lf (default [] (rec_body rec))) <= count_lf (http_log_format_logfmt rec n))%nat.
Proof.
  intros Hn Hl. rewrite format_logfmt_text in * by done. rewrite length_app, length_take in Hl. cbn [length] in Hl.
  rewrite take_ge by lia. unfold logfmt_line. rewrite !count_lf_app, logfmt_keeps_lf. change (count_lf [LF]) with 1%nat. lia.
Qed.

Lemma log_logfmt_forges_lines_witness :
  count_lf (http_log_format_logfmt forging_record 2048) = 3%nat /\
  (S (count_lf (lit "GET " ++ forged ++ lit " 200")) <= count_lf (http_log_format_logfmt forging_record 2048))%nat.
Proof. split; [vm_compute; reflexivity|]. apply (log_logfmt_forges_lines forging_record 2048); [lia|vm_compute; reflexivity]. Defined.

End LogEmit.
