(* ===== verification/ServerConfig.v ===== *)
(** * The server configuration

    src/src/http_server_config.c, built with compression and not for Windows: the state of
    an [HttpServerConfig], every method of the class, the frozen snapshot that crosses threads
    and its reference count. The integer and boolean fields of [struct _http_server_config_t]
    (src/include/php_http_server.h) are two functions over the names of the fields, so that
    the long member-by-member copies of the source are lists of names. *)

From S2P Require Import Prelude LogRing LogFormat.

Module ServerConfig.

(** ** State *)

Inductive http_listener_type_t := LISTENER_TYPE_TCP | LISTENER_TYPE_UNIX | LISTENER_TYPE_UDP_H3.

Definition HTTP_PROTO_MASK_HTTP1 : Z := 1.
Definition HTTP_PROTO_MASK_HTTP2 : Z := 2.
Definition HTTP_PROTO_MASK_HTTP3 : Z := 4.

Record http_listener_config_t := {
  type : http_listener_type_t;
  host : bytes;
  port : Z;
  tls : bool;
  protocol_mask : Z;
}.

Inductive int_member :=
  | backlog | max_connections | workers | max_inflight_requests | read_timeout_s | write_timeout_s
  | keepalive_timeout_s | shutdown_timeout_s | backpressure_target_ms | max_connection_age_ms
  | max_connection_age_grace_ms | drain_spread_ms | drain_cooldown_ms | stream_write_buffer_bytes | max_body_size
  | h2_static_budget_max | ws_max_message_size | ws_max_frame_size | ws_max_subscriptions | ws_publish_rate
  | ws_publish_burst | ws_publish_retry_interval_ms | ws_publish_retry_timeout_ms | ws_publish_retry_queue_max
  | ws_ping_interval_ms | ws_pong_timeout_ms | http3_idle_timeout_ms | http3_stream_window_bytes
  | http3_max_concurrent_streams | http3_peer_connection_budget | http3_socket_buffer_bytes | reactor_mailbox_capacity
  | tls_buffer_bytes | write_buffer_size | compression_level | brotli_level | zstd_level | compression_min_size
  | request_max_decompressed_size | json_encode_flags | log_severity | hot_reload_debounce_ms | hot_reload_max_hold_ms.

Inductive flag_member :=
  | ws_permessage_deflate | http3_alt_svc_enabled | http3_pacing | request_scope | stats_enabled | http2_enabled
  | websocket_enabled | protocol_detection_enabled | tls_enabled | auto_await_body | body_streaming_enabled
  | compression_enabled | telemetry_enabled | reload_on_sighup.

#[export] Instance int_member_eq : EqDecision int_member.
Proof. solve_decision. Defined.
#[export] Instance flag_member_eq : EqDecision flag_member.
Proof. solve_decision. Defined.

(** The PHP values the methods look into. A resource is a stream or not; an object is a case
    of the [LogSeverity] enumeration or something else. *)
Inductive zval :=
  | IS_NULL
  | IS_STRING (s : bytes)
  | IS_RESOURCE (id : Z) (is_stream : bool)
  | IS_SEVERITY (s : LogFormat.http_log_severity_t)
  | IS_ARRAY (l : list (bytes * zval))
  | IS_OTHER.

(** The hash of a spec array. *)
Fixpoint hash_find (k : bytes) (spec : list (bytes * zval)) : option zval :=
  match spec with
  | [] => None
  | (k', x) :: r => if eqb_bytes k k' then Some x else hash_find k r
  end.

Record http_server_config_t := {
  listeners : list http_listener_config_t;
  tls_cert_path : option bytes;
  tls_key_path : option bytes;
  http3_hq_docroot : option bytes;
  ints : int_member -> Z;
  flags : flag_member -> bool;
  compression_mime_types : list bytes;
  bootloader : option Z;
  log_stream : option zval;
  log_sinks : option (list zval);
  hot_reload_paths : option (list zval);
  hot_reload_extensions : option (list zval);
  frozen : option nat;
  is_locked : bool;
}.

Definition upd {A B} `{EqDecision A} (f : A -> B) (k : A) (x : B) : A -> B := fun a => if decide (a = k) then x else f a.

(** Assignments to the fields. *)
Definition with_listeners (l : list http_listener_config_t) (c : http_server_config_t) : http_server_config_t :=
  {| listeners := l; tls_cert_path := tls_cert_path c; tls_key_path := tls_key_path c; http3_hq_docroot := http3_hq_docroot c;
     ints := ints c; flags := flags c; compression_mime_types := compression_mime_types c; bootloader := bootloader c;
     log_stream := log_stream c; log_sinks := log_sinks c; hot_reload_paths := hot_reload_paths c;
     hot_reload_extensions := hot_reload_extensions c; frozen := frozen c; is_locked := is_locked c |}.

Definition with_tls_cert_path (x : option bytes) (c : http_server_config_t) : http_server_config_t :=
  {| listeners := listeners c; tls_cert_path := x; tls_key_path := tls_key_path c; http3_hq_docroot := http3_hq_docroot c; ints := ints c;
     flags := flags c; compression_mime_types := compression_mime_types c; bootloader := bootloader c; log_stream := log_stream c;
     log_sinks := log_sinks c; hot_reload_paths := hot_reload_paths c; hot_reload_extensions := hot_reload_extensions c;
     frozen := frozen c; is_locked := is_locked c |}.

Definition with_tls_key_path (x : option bytes) (c : http_server_config_t) : http_server_config_t :=
  {| listeners := listeners c; tls_cert_path := tls_cert_path c; tls_key_path := x; http3_hq_docroot := http3_hq_docroot c; ints := ints c;
     flags := flags c; compression_mime_types := compression_mime_types c; bootloader := bootloader c; log_stream := log_stream c;
     log_sinks := log_sinks c; hot_reload_paths := hot_reload_paths c; hot_reload_extensions := hot_reload_extensions c;
     frozen := frozen c; is_locked := is_locked c |}.

Definition with_http3_hq_docroot (x : option bytes) (c : http_server_config_t) : http_server_config_t :=
  {| listeners := listeners c; tls_cert_path := tls_cert_path c; tls_key_path := tls_key_path c; http3_hq_docroot := x; ints := ints c;
     flags := flags c; compression_mime_types := compression_mime_types c; bootloader := bootloader c; log_stream := log_stream c;
     log_sinks := log_sinks c; hot_reload_paths := hot_reload_paths c; hot_reload_extensions := hot_reload_extensions c;
     frozen := frozen c; is_locked := is_locked c |}.

Definition with_ints (x : int_member -> Z) (c : http_server_config_t) : http_server_config_t :=
  {| listeners := listeners c; tls_cert_path := tls_cert_path c; tls_key_path := tls_key_path c; http3_hq_docroot := http3_hq_docroot c;
     ints := x; flags := flags c; compression_mime_types := compression_mime_types c; bootloader := bootloader c;
     log_stream := log_stream c; log_sinks := log_sinks c; hot_reload_paths := hot_reload_paths c;
     hot_reload_extensions := hot_reload_extensions c; frozen := frozen c; is_locked := is_locked c |}.

Definition with_flags (x : flag_member -> bool) (c : http_server_config_t) : http_server_config_t :=
  {| listeners := listeners c; tls_cert_path := tls_cert_path c; tls_key_path := tls_key_path c; http3_hq_docroot := http3_hq_docroot c;
     ints := ints c; flags := x; compression_mime_types := compression_mime_types c; bootloader := bootloader c;
     log_stream := log_stream c; log_sinks := log_sinks c; hot_reload_paths := hot_reload_paths c;
     hot_reload_extensions := hot_reload_extensions c; frozen := frozen c; is_locked := is_locked c |}.

Definition with_compression_mime_types (x : list bytes) (c : http_server_config_t) : http_server_config_t :=
  {| listeners := listeners c; tls_cert_path := tls_cert_path c; tls_key_path := tls_key_path c; http3_hq_docroot := http3_hq_docroot c;
     ints := ints c; flags := flags c; compression_mime_types := x; bootloader := bootloader c; log_stream := log_stream c;
     log_sinks := log_sinks c; hot_reload_paths := hot_reload_paths c; hot_reload_extensions := hot_reload_extensions c;
     frozen := frozen c; is_locked := is_locked c |}.

Definition with_bootloader (x : option Z) (c : http_server_config_t) : http_server_config_t :=
  {| listeners := listeners c; tls_cert_path := tls_cert_path c; tls_key_path := tls_key_path c; http3_hq_docroot := http3_hq_docroot c;
     ints := ints c; flags := flags c; compression_mime_types := compression_mime_types c; bootloader := x; log_stream := log_stream c;
     log_sinks := log_sinks c; hot_reload_paths := hot_reload_paths c; hot_reload_extensions := hot_reload_extensions c;
     frozen := frozen c; is_locked := is_locked c |}.

Definition with_log_stream (x : option zval) (c : http_server_config_t) : http_server_config_t :=
  {| listeners := listeners c; tls_cert_path := tls_cert_path c; tls_key_path := tls_key_path c; http3_hq_docroot := http3_hq_docroot c;
     ints := ints c; flags := flags c; compression_mime_types := compression_mime_types c; bootloader := bootloader c; log_stream := x;
     log_sinks := log_sinks c; hot_reload_paths := hot_reload_paths c; hot_reload_extensions := hot_reload_extensions c;
     frozen := frozen c; is_locked := is_locked c |}.

Definition with_log_sinks (x : option (list zval)) (c : http_server_config_t) : http_server_config_t :=
  {| listeners := listeners c; tls_cert_path := tls_cert_path c; tls_key_path := tls_key_path c; http3_hq_docroot := http3_hq_docroot c;
     ints := ints c; flags := flags c; compression_mime_types := compression_mime_types c; bootloader := bootloader c;
     log_stream := log_stream c; log_sinks := x; hot_reload_paths := hot_reload_paths c; hot_reload_extensions := hot_reload_extensions c;
     frozen := frozen c; is_locked := is_locked c |}.

Definition with_frozen (x : option nat) (c : http_server_config_t) : http_server_config_t :=
  {| listeners := listeners c; tls_cert_path := tls_cert_path c; tls_key_path := tls_key_path c; http3_hq_docroot := http3_hq_docroot c;
     ints := ints c; flags := flags c; compression_mime_types := compression_mime_types c; bootloader := bootloader c;
     log_stream := log_stream c; log_sinks := log_sinks c; hot_reload_paths := hot_reload_paths c;
     hot_reload_extensions := hot_reload_extensions c; frozen := x; is_locked := is_locked c |}.

Definition with_is_locked (x : bool) (c : http_server_config_t) : http_server_config_t :=
  {| listeners := listeners c; tls_cert_path := tls_cert_path c; tls_key_path := tls_key_path c; http3_hq_docroot := http3_hq_docroot c;
     ints := ints c; flags := flags c; compression_mime_types := compression_mime_types c; bootloader := bootloader c;
     log_stream := log_stream c; log_sinks := log_sinks c; hot_reload_paths := hot_reload_paths c;
     hot_reload_extensions := hot_reload_extensions c; frozen := frozen c; is_locked := x |}.

Definition with_hot_reload (paths exts : option (list zval)) (c : http_server_config_t) : http_server_config_t :=
  {| listeners := listeners c; tls_cert_path := tls_cert_path c; tls_key_path := tls_key_path c; http3_hq_docroot := http3_hq_docroot c;
     ints := ints c; flags := flags c; compression_mime_types := compression_mime_types c; bootloader := bootloader c;
     log_stream := log_stream c; log_sinks := log_sinks c; hot_reload_paths := paths; hot_reload_extensions := exts; frozen := frozen c;
     is_locked := is_locked c |}.

Definition set_int (m : int_member) (z : Z) (c : http_server_config_t) : http_server_config_t := with_ints (upd (ints c) m z) c.
Definition set_flag (m : flag_member) (b : bool) (c : http_server_config_t) : http_server_config_t := with_flags (upd (flags c) m b) c.

(** ** Calls and casts *)

Inductive exception := RuntimeException | InvalidArgumentException.

(** A method returns or throws; the object is as the method left it. *)
Inductive outcome := Returns (c : http_server_config_t) | Throws (e : exception) (c : http_server_config_t).

Definition c_int (n : Z) : Z := (n + 2 ^ 31) mod 2 ^ 32 - 2 ^ 31.
Definition c_u32 (n : Z) : Z := n mod 2 ^ 32.
Definition c_u8 (n : Z) : Z := n mod 2 ^ 8.
Definition c_size (n : Z) : Z := n mod 2 ^ 64.   (** also [zend_ulong] *)

Definition config_check_locked (c : http_server_config_t) (body : outcome) : outcome :=
  if is_locked c then Throws RuntimeException c else body.

(** Throws for a bad argument, or assigns a field. *)
Definition assign_int (bad : bool) (m : int_member) (z : Z) (c : http_server_config_t) : outcome :=
  config_check_locked c (if bad then Throws InvalidArgumentException c else Returns (set_int m z c)).

Definition assign_flag (m : flag_member) (b : bool) (c : http_server_config_t) : outcome := config_check_locked c (Returns (set_flag m b c)).

Definition UINT32_MAX : Z := 4294967295.

Definition config_validate_timeout (timeout : Z) : bool :=
  if timeout <? 0 then false else if UINT32_MAX <? c_size timeout then false else true.

Definition config_validate_timeout_positive (timeout : Z) : bool :=
  if timeout <=? 0 then false else if UINT32_MAX <? c_size timeout then false else true.

(** What [stat] and [access] say of a path. *)
Inductive file_state := NotFound | NotRegular | Unreadable | Readable.

Definition config_validate_readable_file (fs : bytes -> file_state) (path : bytes) : bool :=
  match fs (c_str path) with Readable => true | _ => false end.

(** ** Limits and defaults *)

Definition STREAM_WRITE_BUFFER_MIN_BYTES : Z := 4096.
Definition STREAM_WRITE_BUFFER_MAX_BYTES : Z := 4 * 1024 * 1024.
Definition MAX_BODY_SIZE_MIN : Z := 1024.
Definition MAX_BODY_SIZE_MAX : Z := 16 * 1024 * 1024 * 1024.
Definition WS_MAX_MESSAGE_SIZE_MIN : Z := 128.
Definition WS_MAX_MESSAGE_SIZE_MAX : Z := 256 * 1024 * 1024.
Definition HTTP3_STREAM_WINDOW_MIN_BYTES : Z := 1024.
Definition HTTP3_STREAM_WINDOW_MAX_BYTES : Z := 1024 * 1024 * 1024.
Definition HTTP3_MAX_CONCURRENT_STREAMS_MAX : Z := 1000000.
Definition HTTP3_PEER_BUDGET_MAX : Z := 4096.
Definition REACTOR_MAILBOX_CAP_MIN : Z := 64.
Definition REACTOR_MAILBOX_CAP_MAX : Z := 2 ^ 20.
Definition HTTP3_SOCKET_BUFFER_MAX : Z := 256 * 1024 * 1024.
Definition TLS_BUFFER_RECORD_BYTES : Z := 17 * 1024.
Definition DEFAULT_TLS_BUFFER_BYTES : Z := 64 * 1024.
Definition TLS_BUFFER_MAX_RECORDS : Z := 16.
Definition TLS_BUFFER_MAX : Z := TLS_BUFFER_RECORD_BYTES * TLS_BUFFER_MAX_RECORDS.
Definition HTTP_COMPRESSION_DEFAULT_LEVEL : Z := 6.
Definition HTTP_COMPRESSION_LEVEL_MIN : Z := 1.
Definition HTTP_COMPRESSION_LEVEL_MAX : Z := 9.
Definition HTTP_COMPRESSION_BROTLI_DEFAULT_LEVEL : Z := 4.
Definition HTTP_COMPRESSION_BROTLI_LEVEL_MIN : Z := 0.
Definition HTTP_COMPRESSION_BROTLI_LEVEL_MAX : Z := 11.
Definition HTTP_COMPRESSION_ZSTD_DEFAULT_LEVEL : Z := 3.
Definition HTTP_COMPRESSION_ZSTD_LEVEL_MIN : Z := 1.
Definition HTTP_COMPRESSION_ZSTD_LEVEL_MAX : Z := 22.
Definition HTTP_COMPRESSION_DEFAULT_MIN_SIZE : Z := 1024.
Definition HTTP_COMPRESSION_MIN_SIZE_MAX : Z := 16 * 1024 * 1024.
Definition HTTP_COMPRESSION_DEFAULT_REQUEST_MAX_DECOMP : Z := 10 * 1024 * 1024.

Definition http_compression_default_mime_types : list bytes :=
  [lit "application/javascript"; lit "application/json"; lit "application/xml"; lit "image/svg+xml"; lit "text/css"; lit "text/html";
   lit "text/javascript"; lit "text/plain"; lit "text/xml"].

(** Set semantics: a key keeps the place of its first insertion. *)
Definition mime_add (s : bytes) (l : list bytes) : list bytes := if decide (s ∈ l) then l else l ++ [s].

Definition http_compression_mime_table_load_defaults (dst : list bytes) : list bytes :=
  fold_left (fun l s => mime_add s l) http_compression_default_mime_types dst.

Definition blank (c : Z) : bool := (c =? SP) || (c =? 9).

Definition http_compression_normalize_mime (src : bytes) : option bytes :=
  match trim_end blank (take_while (isnt 59) (drop_while blank src)) with
  | [] => None
  | s => Some (map to_lower s)
  end.

(** ** Creation *)

Definition http_server_config_create : http_server_config_t :=
  {| listeners := []; tls_cert_path := None; tls_key_path := None; http3_hq_docroot := None;
     ints := fun m =>
       match m with
       | compression_level => HTTP_COMPRESSION_DEFAULT_LEVEL
       | brotli_level => HTTP_COMPRESSION_BROTLI_DEFAULT_LEVEL
       | zstd_level => HTTP_COMPRESSION_ZSTD_DEFAULT_LEVEL
       | compression_min_size => HTTP_COMPRESSION_DEFAULT_MIN_SIZE
       | request_max_decompressed_size => HTTP_COMPRESSION_DEFAULT_REQUEST_MAX_DECOMP
       | json_encode_flags => Z.lor 256 64
       | _ => 0
       end;
     flags := fun m => match m with http3_alt_svc_enabled | request_scope | compression_enabled => true | _ => false end;
     compression_mime_types := http_compression_mime_table_load_defaults [];
     bootloader := None; log_stream := None; log_sinks := None; hot_reload_paths := None; hot_reload_extensions := None;
     frozen := None; is_locked := false |}.

Definition config_add_listener (t : http_listener_type_t) (h : bytes) (p : Z) (s : bool) (mask : Z) (c : http_server_config_t) : http_server_config_t :=
  with_listeners (listeners c ++ [{| type := t; host := h; port := p; tls := s; protocol_mask := mask |}]) c.

(** The fields [__construct] assigns; the rest keeps what [http_server_config_create] gave it. *)
Definition construct_int (m : int_member) (old : Z) : Z :=
  match m with
  | backlog => 128
  | max_connections => 0
  | workers => 1
  | max_inflight_requests => 0
  | read_timeout_s => 30
  | write_timeout_s => 30
  | keepalive_timeout_s => 5
  | shutdown_timeout_s => 5
  | backpressure_target_ms => 0
  | max_connection_age_ms => 0
  | max_connection_age_grace_ms => 0
  | drain_spread_ms => 5000
  | drain_cooldown_ms => 10000
  | stream_write_buffer_bytes => 262144
  | max_body_size => 10 * 1024 * 1024
  | h2_static_budget_max => 0
  | hot_reload_debounce_ms => 300
  | hot_reload_max_hold_ms => 2000
  | http3_idle_timeout_ms => 30000
  | http3_stream_window_bytes => 256 * 1024
  | http3_max_concurrent_streams => 100
  | http3_peer_connection_budget => 0
  | http3_socket_buffer_bytes => 8 * 1024 * 1024
  | reactor_mailbox_capacity => 0
  | tls_buffer_bytes => DEFAULT_TLS_BUFFER_BYTES
  | ws_max_message_size => 1024 * 1024
  | ws_max_frame_size => 1024 * 1024
  | ws_ping_interval_ms => 30000
  | ws_pong_timeout_ms => 60000
  | ws_max_subscriptions => 0
  | ws_publish_rate => 0
  | ws_publish_burst => 0
  | ws_publish_retry_interval_ms => 50
  | ws_publish_retry_timeout_ms => 5000
  | ws_publish_retry_queue_max => 4096
  | write_buffer_size => 65536
  | compression_level | brotli_level | zstd_level | compression_min_size | request_max_decompressed_size | json_encode_flags
  | log_severity => old
  end.

Definition construct_flag (m : flag_member) (old : bool) : bool :=
  match m with
  | reload_on_sighup => false
  | ws_permessage_deflate => false
  | http3_alt_svc_enabled => true
  | http3_pacing => false
  | request_scope => true
  | auto_await_body => true
  | _ => old
  end.

Definition bad_port (p : Z) : bool := (p <? 1) || (65535 <? p).

Definition BOTH : Z := Z.lor HTTP_PROTO_MASK_HTTP1 HTTP_PROTO_MASK_HTTP2.

Definition __construct (h : option bytes) (p : Z) (c : http_server_config_t) : outcome :=
  let c := with_ints (fun m => construct_int m (ints c m)) c in
  let c := with_flags (fun m => construct_flag m (flags c m)) c in
  let c := with_bootloader None (with_hot_reload None None c) in
  match h with
  | None => Returns c
  | Some h => if bad_port p then Throws InvalidArgumentException c else Returns (config_add_listener LISTENER_TYPE_TCP h (c_int p) false BOTH c)
  end.

(** ** Listeners *)

Definition add_tcp (h : bytes) (p : Z) (s : bool) (mask : Z) (c : http_server_config_t) : outcome :=
  config_check_locked c
    (if bad_port p then Throws InvalidArgumentException c else Returns (config_add_listener LISTENER_TYPE_TCP h (c_int p) s mask c)).

Definition addListener (h : bytes) (p : Z) (s : bool) : http_server_config_t -> outcome := add_tcp h p s BOTH.
Definition addHttp1Listener (h : bytes) (p : Z) (s : bool) : http_server_config_t -> outcome := add_tcp h p s HTTP_PROTO_MASK_HTTP1.
Definition addHttp2Listener (h : bytes) (p : Z) (s : bool) : http_server_config_t -> outcome := add_tcp h p s HTTP_PROTO_MASK_HTTP2.

Definition addHttp3Listener (h : bytes) (p : Z) (c : http_server_config_t) : outcome :=
  config_check_locked c
    (if bad_port p then Throws InvalidArgumentException c
     else Returns (config_add_listener LISTENER_TYPE_UDP_H3 h (c_int p) true HTTP_PROTO_MASK_HTTP3 c)).

Definition addUnixListener (path : bytes) (c : http_server_config_t) : outcome :=
  config_check_locked c (Returns (config_add_listener LISTENER_TYPE_UNIX path 0 false BOTH c)).

(** An entry of [getListeners]: its kind, its address, and for TCP and UDP its port and TLS flag. *)
Definition getListeners (c : http_server_config_t) : list (bytes * bytes * option (Z * bool) * Z) :=
  map (fun l => match type l with
                | LISTENER_TYPE_TCP => (lit "tcp", host l, Some (port l, tls l), protocol_mask l)
                | LISTENER_TYPE_UDP_H3 => (lit "udp_h3", host l, Some (port l, tls l), protocol_mask l)
                | LISTENER_TYPE_UNIX => (lit "unix", host l, None, protocol_mask l)
                end) (listeners c).

(** ** Integer settings *)

Definition setBacklog (n : Z) : http_server_config_t -> outcome := assign_int (n <? 1) backlog (c_int n).
Definition getBacklog (c : http_server_config_t) : Z := ints c backlog.

Definition setWorkers (n : Z) : http_server_config_t -> outcome := assign_int ((n <? 1) || (1024 <? n)) workers (c_int n).
Definition getWorkers (c : http_server_config_t) : Z := ints c workers.

Definition setMaxConnections (n : Z) : http_server_config_t -> outcome := assign_int (n <? 0) max_connections (c_int n).
Definition getMaxConnections (c : http_server_config_t) : Z := ints c max_connections.

Definition setMaxInflightRequests (n : Z) : http_server_config_t -> outcome := assign_int (n <? 0) max_inflight_requests (c_size n).
Definition getMaxInflightRequests (c : http_server_config_t) : Z := ints c max_inflight_requests.

Definition setReadTimeout (n : Z) : http_server_config_t -> outcome := assign_int (negb (config_validate_timeout_positive n)) read_timeout_s (c_u32 n).
Definition getReadTimeout (c : http_server_config_t) : Z := ints c read_timeout_s.

Definition setWriteTimeout (n : Z) : http_server_config_t -> outcome := assign_int (negb (config_validate_timeout n)) write_timeout_s (c_u32 n).
Definition getWriteTimeout (c : http_server_config_t) : Z := ints c write_timeout_s.

Definition setKeepAliveTimeout (n : Z) : http_server_config_t -> outcome := assign_int (negb (config_validate_timeout_positive n)) keepalive_timeout_s (c_u32 n).
Definition getKeepAliveTimeout (c : http_server_config_t) : Z := ints c keepalive_timeout_s.

Definition setShutdownTimeout (n : Z) : http_server_config_t -> outcome := assign_int (negb (config_validate_timeout n)) shutdown_timeout_s (c_u32 n).
Definition getShutdownTimeout (c : http_server_config_t) : Z := ints c shutdown_timeout_s.

Definition setBackpressureTargetMs (n : Z) : http_server_config_t -> outcome := assign_int ((n <? 0) || (10000 <? n)) backpressure_target_ms (c_u32 n).
Definition getBackpressureTargetMs (c : http_server_config_t) : Z := ints c backpressure_target_ms.

Definition setMaxConnectionAgeMs (n : Z) : http_server_config_t -> outcome := assign_int ((n <? 0) || ((0 <? n) && (n <? 1000))) max_connection_age_ms (c_u32 n).
Definition getMaxConnectionAgeMs (c : http_server_config_t) : Z := ints c max_connection_age_ms.

Definition setMaxConnectionAgeGraceMs (n : Z) : http_server_config_t -> outcome := assign_int ((n <? 0) || ((0 <? n) && (n <? 1000))) max_connection_age_grace_ms (c_u32 n).
Definition getMaxConnectionAgeGraceMs (c : http_server_config_t) : Z := ints c max_connection_age_grace_ms.

Definition setDrainSpreadMs (n : Z) : http_server_config_t -> outcome := assign_int (n <? 100) drain_spread_ms (c_u32 n).
Definition getDrainSpreadMs (c : http_server_config_t) : Z := ints c drain_spread_ms.

Definition setDrainCooldownMs (n : Z) : http_server_config_t -> outcome := assign_int (n <? 1000) drain_cooldown_ms (c_u32 n).
Definition getDrainCooldownMs (c : http_server_config_t) : Z := ints c drain_cooldown_ms.

Definition setStreamWriteBufferBytes (n : Z) : http_server_config_t -> outcome := assign_int ((n <? STREAM_WRITE_BUFFER_MIN_BYTES) || (STREAM_WRITE_BUFFER_MAX_BYTES <? n)) stream_write_buffer_bytes (c_u32 n).
Definition getStreamWriteBufferBytes (c : http_server_config_t) : Z := ints c stream_write_buffer_bytes.

Definition setH2StaticBudgetMax (n : Z) : http_server_config_t -> outcome := assign_int (n <? 0) h2_static_budget_max (c_size n).
Definition getH2StaticBudgetMax (c : http_server_config_t) : Z := ints c h2_static_budget_max.

Definition setMaxBodySize (n : Z) : http_server_config_t -> outcome := assign_int ((n <? MAX_BODY_SIZE_MIN) || (MAX_BODY_SIZE_MAX <? c_size n)) max_body_size (c_size n).
Definition getMaxBodySize (c : http_server_config_t) : Z := ints c max_body_size.

Definition setWsMaxMessageSize (n : Z) : http_server_config_t -> outcome := assign_int ((n <? WS_MAX_MESSAGE_SIZE_MIN) || (WS_MAX_MESSAGE_SIZE_MAX <? c_size n)) ws_max_message_size (c_u32 n).
Definition getWsMaxMessageSize (c : http_server_config_t) : Z := ints c ws_max_message_size.

Definition setWsMaxFrameSize (n : Z) : http_server_config_t -> outcome := assign_int ((n <? WS_MAX_MESSAGE_SIZE_MIN) || (WS_MAX_MESSAGE_SIZE_MAX <? c_size n)) ws_max_frame_size (c_u32 n).
Definition getWsMaxFrameSize (c : http_server_config_t) : Z := ints c ws_max_frame_size.

Definition setWsMaxSubscriptions (n : Z) : http_server_config_t -> outcome := assign_int ((n <? 0) || (UINT32_MAX <? c_size n)) ws_max_subscriptions (c_u32 n).
Definition getWsMaxSubscriptions (c : http_server_config_t) : Z := ints c ws_max_subscriptions.

Definition setWsPublishRetryIntervalMs (n : Z) : http_server_config_t -> outcome := assign_int ((n <=? 0) || (UINT32_MAX <? c_size n)) ws_publish_retry_interval_ms (c_u32 n).
Definition getWsPublishRetryIntervalMs (c : http_server_config_t) : Z := ints c ws_publish_retry_interval_ms.

Definition setWsPublishRetryTimeoutMs (n : Z) : http_server_config_t -> outcome := assign_int ((n <=? 0) || (UINT32_MAX <? c_size n)) ws_publish_retry_timeout_ms (c_u32 n).
Definition getWsPublishRetryTimeoutMs (c : http_server_config_t) : Z := ints c ws_publish_retry_timeout_ms.

Definition setWsPublishRetryQueueMax (n : Z) : http_server_config_t -> outcome := assign_int ((n <=? 0) || (UINT32_MAX <? c_size n)) ws_publish_retry_queue_max (c_u32 n).
Definition getWsPublishRetryQueueMax (c : http_server_config_t) : Z := ints c ws_publish_retry_queue_max.

Definition setWsPingIntervalMs (n : Z) : http_server_config_t -> outcome := assign_int ((n <? 0) || (UINT32_MAX <? c_size n)) ws_ping_interval_ms (c_u32 n).
Definition getWsPingIntervalMs (c : http_server_config_t) : Z := ints c ws_ping_interval_ms.

Definition setWsPongTimeoutMs (n : Z) : http_server_config_t -> outcome := assign_int ((n <? 0) || (UINT32_MAX <? c_size n)) ws_pong_timeout_ms (c_u32 n).
Definition getWsPongTimeoutMs (c : http_server_config_t) : Z := ints c ws_pong_timeout_ms.

Definition setHttp3IdleTimeoutMs (n : Z) : http_server_config_t -> outcome := assign_int ((n <? 0) || (UINT32_MAX <? c_size n)) http3_idle_timeout_ms (c_u32 n).
Definition getHttp3IdleTimeoutMs (c : http_server_config_t) : Z := ints c http3_idle_timeout_ms.

Definition setHttp3StreamWindowBytes (n : Z) : http_server_config_t -> outcome := assign_int ((n <? HTTP3_STREAM_WINDOW_MIN_BYTES) || (HTTP3_STREAM_WINDOW_MAX_BYTES <? c_size n)) http3_stream_window_bytes (c_u32 n).
Definition getHttp3StreamWindowBytes (c : http_server_config_t) : Z := ints c http3_stream_window_bytes.

Definition setHttp3MaxConcurrentStreams (n : Z) : http_server_config_t -> outcome := assign_int ((n <? 1) || (HTTP3_MAX_CONCURRENT_STREAMS_MAX <? c_size n)) http3_max_concurrent_streams (c_u32 n).
Definition getHttp3MaxConcurrentStreams (c : http_server_config_t) : Z := ints c http3_max_concurrent_streams.

Definition setHttp3PeerConnectionBudget (n : Z) : http_server_config_t -> outcome := assign_int ((n <? 1) || (HTTP3_PEER_BUDGET_MAX <? c_size n)) http3_peer_connection_budget (c_u32 n).
Definition getHttp3PeerConnectionBudget (c : http_server_config_t) : Z := ints c http3_peer_connection_budget.

Definition setReactorMailboxCapacity (n : Z) : http_server_config_t -> outcome := assign_int (negb (n =? 0) && ((n <? REACTOR_MAILBOX_CAP_MIN) || (REACTOR_MAILBOX_CAP_MAX <? c_size n))) reactor_mailbox_capacity (c_u32 n).
Definition getReactorMailboxCapacity (c : http_server_config_t) : Z := ints c reactor_mailbox_capacity.

Definition setHttp3SocketBufferBytes (n : Z) : http_server_config_t -> outcome := assign_int ((n <? 0) || (HTTP3_SOCKET_BUFFER_MAX <? c_size n)) http3_socket_buffer_bytes (c_u32 n).
Definition getHttp3SocketBufferBytes (c : http_server_config_t) : Z := ints c http3_socket_buffer_bytes.

Definition setCompressionLevel (n : Z) : http_server_config_t -> outcome := assign_int ((n <? HTTP_COMPRESSION_LEVEL_MIN) || (HTTP_COMPRESSION_LEVEL_MAX <? n)) compression_level (c_u8 n).
Definition getCompressionLevel (c : http_server_config_t) : Z := ints c compression_level.

Definition setBrotliLevel (n : Z) : http_server_config_t -> outcome := assign_int ((n <? HTTP_COMPRESSION_BROTLI_LEVEL_MIN) || (HTTP_COMPRESSION_BROTLI_LEVEL_MAX <? n)) brotli_level (c_u8 n).
Definition getBrotliLevel (c : http_server_config_t) : Z := ints c brotli_level.

Definition setZstdLevel (n : Z) : http_server_config_t -> outcome := assign_int ((n <? HTTP_COMPRESSION_ZSTD_LEVEL_MIN) || (HTTP_COMPRESSION_ZSTD_LEVEL_MAX <? n)) zstd_level (c_u8 n).
Definition getZstdLevel (c : http_server_config_t) : Z := ints c zstd_level.

Definition setJsonEncodeFlags (n : Z) : http_server_config_t -> outcome := assign_int ((n <? 0) || (UINT32_MAX <? n)) json_encode_flags (c_u32 n).
Definition getJsonEncodeFlags (c : http_server_config_t) : Z := ints c json_encode_flags.

Definition setCompressionMinSize (n : Z) : http_server_config_t -> outcome := assign_int ((n <? 0) || (HTTP_COMPRESSION_MIN_SIZE_MAX <? c_size n)) compression_min_size (c_size n).
Definition getCompressionMinSize (c : http_server_config_t) : Z := ints c compression_min_size.

Definition setRequestMaxDecompressedSize (n : Z) : http_server_config_t -> outcome := assign_int (n <? 0) request_max_decompressed_size (c_size n).
Definition getRequestMaxDecompressedSize (c : http_server_config_t) : Z := ints c request_max_decompressed_size.

Definition setWriteBufferSize (n : Z) : http_server_config_t -> outcome := assign_int (n <? 1024) write_buffer_size (c_size n).
Definition getWriteBufferSize (c : http_server_config_t) : Z := ints c write_buffer_size.

Definition setWsPublishRateLimit (per_second burst : Z) (c : http_server_config_t) : outcome :=
  config_check_locked c
    (if (per_second <? 0) || (UINT32_MAX <? c_size per_second) || (burst <? 0) || (UINT32_MAX <? c_size burst)
     then Throws InvalidArgumentException c
     else Returns (set_int ws_publish_burst (c_u32 burst) (set_int ws_publish_rate (c_u32 per_second) c))).
Definition getWsPublishRateLimit (c : http_server_config_t) : Z := ints c ws_publish_rate.
Definition getWsPublishBurst (c : http_server_config_t) : Z := ints c ws_publish_burst.

(** The number of records the ring holds. *)
Definition tls_records (n : Z) : Z :=
  let records := c_u32 (c_u32 n + TLS_BUFFER_RECORD_BYTES - 1) / TLS_BUFFER_RECORD_BYTES in
  let records := if records <? 1 then 1 else records in
  if TLS_BUFFER_MAX_RECORDS <? records then TLS_BUFFER_MAX_RECORDS else records.

Definition setTlsBufferBytes (n : Z) : http_server_config_t -> outcome :=
  assign_int ((n <? 0) || (TLS_BUFFER_MAX <? c_size n)) tls_buffer_bytes
    (if n =? 0 then DEFAULT_TLS_BUFFER_BYTES else c_u32 (tls_records n * TLS_BUFFER_RECORD_BYTES)).
Definition getTlsBufferBytes (c : http_server_config_t) : Z := ints c tls_buffer_bytes.

(** ** Switches *)

Definition setWsPermessageDeflate (enable : bool) : http_server_config_t -> outcome := assign_flag ws_permessage_deflate enable.
Definition getWsPermessageDeflate (c : http_server_config_t) : bool := flags c ws_permessage_deflate.

Definition setHttp3AltSvcEnabled (enable : bool) : http_server_config_t -> outcome := assign_flag http3_alt_svc_enabled enable.
Definition isHttp3AltSvcEnabled (c : http_server_config_t) : bool := flags c http3_alt_svc_enabled.

Definition setHttp3Pacing (enable : bool) : http_server_config_t -> outcome := assign_flag http3_pacing enable.
Definition isHttp3Pacing (c : http_server_config_t) : bool := flags c http3_pacing.

Definition setRequestScope (enable : bool) : http_server_config_t -> outcome := assign_flag request_scope enable.
Definition isRequestScope (c : http_server_config_t) : bool := flags c request_scope.

Definition setStatsEnabled (enable : bool) : http_server_config_t -> outcome := assign_flag stats_enabled enable.
Definition isStatsEnabled (c : http_server_config_t) : bool := flags c stats_enabled.

Definition setCompressionEnabled (enable : bool) : http_server_config_t -> outcome := assign_flag compression_enabled enable.
Definition isCompressionEnabled (c : http_server_config_t) : bool := flags c compression_enabled.

Definition enableProtocolDetection (enable : bool) : http_server_config_t -> outcome := assign_flag protocol_detection_enabled enable.
Definition isProtocolDetectionEnabled (c : http_server_config_t) : bool := flags c protocol_detection_enabled.

Definition enableTls (enable : bool) : http_server_config_t -> outcome := assign_flag tls_enabled enable.
Definition isTlsEnabled (c : http_server_config_t) : bool := flags c tls_enabled.

Definition setAutoAwaitBody (enable : bool) : http_server_config_t -> outcome := assign_flag auto_await_body enable.
Definition isAutoAwaitBodyEnabled (c : http_server_config_t) : bool := flags c auto_await_body.

Definition setTelemetryEnabled (enable : bool) : http_server_config_t -> outcome := assign_flag telemetry_enabled enable.
Definition isTelemetryEnabled (c : http_server_config_t) : bool := flags c telemetry_enabled.

Definition setBodyStreamingEnabled (enable : bool) : http_server_config_t -> outcome := assign_flag body_streaming_enabled enable.
Definition isBodyStreamingEnabled (c : http_server_config_t) : bool := flags c body_streaming_enabled.

Definition enableReloadOnSignal (enable : bool) : http_server_config_t -> outcome := assign_flag reload_on_sighup enable.

Definition enableHttp2 (enable : bool) (c : http_server_config_t) : outcome :=
  config_check_locked c (if enable then Throws RuntimeException c else Returns (set_flag http2_enabled enable c)).
Definition isHttp2Enabled (c : http_server_config_t) : bool := flags c http2_enabled.

Definition enableWebSocket (enable : bool) (c : http_server_config_t) : outcome :=
  config_check_locked c (if enable then Throws RuntimeException c else Returns (set_flag websocket_enabled enable c)).
Definition isWebSocketEnabled (c : http_server_config_t) : bool := flags c websocket_enabled.

Definition isLocked (c : http_server_config_t) : bool := is_locked c.

(** ** Texts and closures *)

Definition setBootloader (f : option Z) (c : http_server_config_t) : outcome := config_check_locked c (Returns (with_bootloader f c)).
Definition getBootloader (c : http_server_config_t) : option Z := bootloader c.

Definition setCertificate (fs : bytes -> file_state) (path : bytes) (c : http_server_config_t) : outcome :=
  config_check_locked c
    (if negb (config_validate_readable_file fs path) then Throws InvalidArgumentException c else Returns (with_tls_cert_path (Some path) c)).
Definition getCertificate (c : http_server_config_t) : option bytes := tls_cert_path c.

Definition setPrivateKey (fs : bytes -> file_state) (path : bytes) (c : http_server_config_t) : outcome :=
  config_check_locked c
    (if negb (config_validate_readable_file fs path) then Throws InvalidArgumentException c else Returns (with_tls_key_path (Some path) c)).
Definition getPrivateKey (c : http_server_config_t) : option bytes := tls_key_path c.

Definition setHttp3HqDocroot (path : bytes) (c : http_server_config_t) : outcome :=
  config_check_locked c (Returns (with_http3_hq_docroot (Some path) c)).
Definition getHttp3HqDocroot (c : http_server_config_t) : option bytes := http3_hq_docroot c.

Definition nonempty_string (x : zval) : bool := match x with IS_STRING (_ :: _) => true | _ => false end.

(** [extensions] is [None] when the argument is left out. *)
Definition enableHotReload (paths : list zval) (extensions : option (list zval)) (debounce_ms max_hold_ms : Z) (c : http_server_config_t) : outcome :=
  config_check_locked c
    match paths with
    | [] => Throws InvalidArgumentException c
    | _ =>
        if negb (forallb nonempty_string paths) then Throws InvalidArgumentException c
        else if (debounce_ms <? 1) || (600000 <? debounce_ms) || (max_hold_ms <? 0) || (600000 <? max_hold_ms) then Throws InvalidArgumentException c
        else
          let exts := match extensions with Some (x :: r) => Some (x :: r) | _ => None end in
          Returns (set_int hot_reload_max_hold_ms (c_u32 max_hold_ms)
                     (set_int hot_reload_debounce_ms (c_u32 debounce_ms) (with_hot_reload (Some paths) exts c)))
    end.

(** *** Compressed media types *)

(** The staged set, or [None] at the first entry that is refused. *)
Fixpoint stage_mime_types (types : list zval) (staged : list bytes) : option (list bytes) :=
  match types with
  | [] => Some staged
  | IS_STRING s :: r => norm ← http_compression_normalize_mime s; stage_mime_types r (mime_add norm staged)
  | _ :: _ => None
  end.

Definition setCompressionMimeTypes (types : list zval) (c : http_server_config_t) : outcome :=
  config_check_locked c
    match stage_mime_types types [] with
    | None => Throws InvalidArgumentException c
    | Some staged => Returns (with_compression_mime_types (fold_left (fun l s => mime_add s l) staged []) c)
    end.
Definition getCompressionMimeTypes (c : http_server_config_t) : list bytes := compression_mime_types c.

(** ** Logging *)

Definition setLogSeverity (level : LogFormat.http_log_severity_t) (c : http_server_config_t) : outcome :=
  config_check_locked c (Returns (set_int log_severity (c_int (LogFormat.severity_number level)) c)).

(** The case with the value, [None] for the internal error. *)
Definition getLogSeverity (c : http_server_config_t) : option LogFormat.http_log_severity_t :=
  find (fun s => LogFormat.severity_number s =? ints c log_severity)
    [LogFormat.HTTP_LOG_OFF; LogFormat.HTTP_LOG_DEBUG; LogFormat.HTTP_LOG_INFO; LogFormat.HTTP_LOG_WARN; LogFormat.HTTP_LOG_ERROR].

(** The old stream is dropped before the new one is looked at. *)
Definition setLogStream (stream : zval) (c : http_server_config_t) : outcome :=
  config_check_locked c
    (let c := with_log_stream None c in
     match stream with
     | IS_NULL => Returns c
     | IS_RESOURCE _ is_stream => if is_stream then Returns (with_log_stream (Some stream) c) else Throws InvalidArgumentException c
     | _ => Throws InvalidArgumentException c
     end).
Definition getLogStream (c : http_server_config_t) : option zval := log_stream c.

(** *** Sinks: the registry and the validators of http_log.c *)

Inductive sink_type := sink_type_stream | sink_type_file | sink_type_stdout | sink_type_stderr | sink_type_syslog.

Definition sink_types : list (bytes * sink_type) :=
  [(lit "stream", sink_type_stream); (lit "file", sink_type_file); (lit "stdout", sink_type_stdout); (lit "stderr", sink_type_stderr);
   (lit "syslog", sink_type_syslog)].

Definition formatters : list (bytes * LogFormat.formatter_fn) :=
  [(lit "plain", LogFormat.fmt_plain); (lit "logfmt", LogFormat.fmt_logfmt); (lit "json", LogFormat.fmt_json); (lit "pretty", LogFormat.fmt_pretty);
   (lit "template", LogFormat.fmt_template)].

Fixpoint by_name {A} (name : bytes) (l : list (bytes * A)) : option A :=
  match l with
  | [] => None
  | (kw, x) :: r => if eqb_bytes kw name then Some x else by_name name r
  end.

Definition http_log_sink_type_by_name (name : bytes) : option sink_type := by_name name sink_types.
Definition http_log_formatter_by_name (name : bytes) : option LogFormat.formatter_fn := by_name name formatters.

Definition syslog_schemes : list (bytes * LogRing.http_log_write_mode_t) :=
  [(lit "tcp://", LogRing.HTTP_LOG_WRITE_STREAM_FRAMED); (lit "udp://", LogRing.HTTP_LOG_WRITE_DGRAM); (lit "udg://", LogRing.HTTP_LOG_WRITE_DGRAM)].

Fixpoint scheme_mode (target : bytes) (l : list (bytes * LogRing.http_log_write_mode_t)) : option LogRing.http_log_write_mode_t :=
  match l with
  | [] => None
  | (scheme, mode) :: r =>
      if (length scheme <? length target)%nat && starts_with scheme target then Some mode else scheme_mode target r
  end.

Definition syslog_target_mode (ztarget : option zval) : option LogRing.http_log_write_mode_t :=
  match ztarget with Some (IS_STRING t) => scheme_mode t syslog_schemes | _ => None end.

Definition formatter_validate_template (spec : list (bytes * zval)) : bool :=
  match hash_find (lit "template") spec with
  | Some (IS_STRING t) =>
      if (Z.of_nat (length t) =? 0) || (LogFormat.HTTP_LOG_TEMPLATE_MAX <? Z.of_nat (length t)) then false
      else match LogFormat.http_log_template_parse t with Some _ => true | None => false end
  | _ => false
  end.

Definition sink_validate_stream (spec : list (bytes * zval)) : bool :=
  match hash_find (lit "stream") spec with Some (IS_RESOURCE _ s) => s | _ => false end.

Definition sink_validate_file (spec : list (bytes * zval)) : bool :=
  match hash_find (lit "path") spec with Some x => nonempty_string x | None => false end.

Definition sink_validate_syslog (spec : list (bytes * zval)) : bool :=
  match syslog_target_mode (hash_find (lit "target") spec) with
  | None => false
  | Some _ =>
      match hash_find (lit "facility") spec with
      | None => true
      | Some (IS_STRING f) => negb (LogFormat.http_log_syslog_facility f <? 0)
      | Some _ => false
      end
  end.

(** [type->validate]; no extra test for the standard streams. *)
Definition sink_validate (t : sink_type) : list (bytes * zval) -> bool :=
  match t with
  | sink_type_stream => sink_validate_stream
  | sink_type_file => sink_validate_file
  | sink_type_syslog => sink_validate_syslog
  | sink_type_stdout | sink_type_stderr => fun _ => true
  end.

Definition format_valid (spec : list (bytes * zval)) : bool :=
  match hash_find (lit "format") spec with
  | None => true
  | Some (IS_STRING f) =>
      match http_log_formatter_by_name f with
      | None => false
      | Some LogFormat.fmt_template => formatter_validate_template spec
      | Some _ => true
      end
  | Some _ => false
  end.

Definition category_valid (spec : list (bytes * zval)) : bool :=
  match hash_find (lit "category") spec with
  | None => true
  | Some (IS_STRING s) => negb (LogFormat.http_log_category_mask s =? 0)
  | Some _ => false
  end.

Definition level_valid (spec : list (bytes * zval)) : bool :=
  match hash_find (lit "level") spec with Some (IS_SEVERITY _) => true | _ => false end.

Definition log_sink_spec_valid (elem : zval) : bool :=
  match elem with
  | IS_ARRAY spec =>
      match hash_find (lit "type") spec with
      | Some (IS_STRING t) =>
          match http_log_sink_type_by_name t with
          | None => false
          | Some ty =>
              if negb (sink_validate ty spec) then false
              else if negb (format_valid spec) then false
              else if negb (category_valid spec) then false
              else level_valid spec
          end
      | _ => false
      end
  | _ => false
  end.

Definition setLogSinks (sinks : list zval) (c : http_server_config_t) : outcome :=
  config_check_locked c
    (if (LogFormat.HTTP_LOG_MAX_SINKS <? length sinks)%nat then Throws InvalidArgumentException c
     else if negb (forallb log_sink_spec_valid sinks) then Throws InvalidArgumentException c
     else Returns (with_log_sinks (Some sinks) c)).


(** ** The methods, as one interface *)

(** The setters of one integer, and those of one switch. *)
Inductive int_setter :=
  | I_setBacklog | I_setWorkers | I_setMaxConnections | I_setMaxInflightRequests | I_setReadTimeout | I_setWriteTimeout
  | I_setKeepAliveTimeout | I_setShutdownTimeout | I_setBackpressureTargetMs | I_setMaxConnectionAgeMs
  | I_setMaxConnectionAgeGraceMs | I_setDrainSpreadMs | I_setDrainCooldownMs | I_setStreamWriteBufferBytes
  | I_setH2StaticBudgetMax | I_setMaxBodySize | I_setWsMaxMessageSize | I_setWsMaxFrameSize | I_setWsMaxSubscriptions
  | I_setWsPublishRetryIntervalMs | I_setWsPublishRetryTimeoutMs | I_setWsPublishRetryQueueMax | I_setWsPingIntervalMs
  | I_setWsPongTimeoutMs | I_setHttp3IdleTimeoutMs | I_setHttp3StreamWindowBytes | I_setHttp3MaxConcurrentStreams
  | I_setHttp3PeerConnectionBudget | I_setReactorMailboxCapacity | I_setHttp3SocketBufferBytes | I_setCompressionLevel
  | I_setBrotliLevel | I_setZstdLevel | I_setJsonEncodeFlags | I_setCompressionMinSize
  | I_setRequestMaxDecompressedSize | I_setWriteBufferSize | I_setTlsBufferBytes.

Definition int_method (s : int_setter) : Z -> http_server_config_t -> outcome :=
  match s with
  | I_setBacklog => setBacklog
  | I_setWorkers => setWorkers
  | I_setMaxConnections => setMaxConnections
  | I_setMaxInflightRequests => setMaxInflightRequests
  | I_setReadTimeout => setReadTimeout
  | I_setWriteTimeout => setWriteTimeout
  | I_setKeepAliveTimeout => setKeepAliveTimeout
  | I_setShutdownTimeout => setShutdownTimeout
  | I_setBackpressureTargetMs => setBackpressureTargetMs
  | I_setMaxConnectionAgeMs => setMaxConnectionAgeMs
  | I_setMaxConnectionAgeGraceMs => setMaxConnectionAgeGraceMs
  | I_setDrainSpreadMs => setDrainSpreadMs
  | I_setDrainCooldownMs => setDrainCooldownMs
  | I_setStreamWriteBufferBytes => setStreamWriteBufferBytes
  | I_setH2StaticBudgetMax => setH2StaticBudgetMax
  | I_setMaxBodySize => setMaxBodySize
  | I_setWsMaxMessageSize => setWsMaxMessageSize
  | I_setWsMaxFrameSize => setWsMaxFrameSize
  | I_setWsMaxSubscriptions => setWsMaxSubscriptions
  | I_setWsPublishRetryIntervalMs => setWsPublishRetryIntervalMs
  | I_setWsPublishRetryTimeoutMs => setWsPublishRetryTimeoutMs
  | I_setWsPublishRetryQueueMax => setWsPublishRetryQueueMax
  | I_setWsPingIntervalMs => setWsPingIntervalMs
  | I_setWsPongTimeoutMs => setWsPongTimeoutMs
  | I_setHttp3IdleTimeoutMs => setHttp3IdleTimeoutMs
  | I_setHttp3StreamWindowBytes => setHttp3StreamWindowBytes
  | I_setHttp3MaxConcurrentStreams => setHttp3MaxConcurrentStreams
  | I_setHttp3PeerConnectionBudget => setHttp3PeerConnectionBudget
  | I_setReactorMailboxCapacity => setReactorMailboxCapacity
  | I_setHttp3SocketBufferBytes => setHttp3SocketBufferBytes
  | I_setCompressionLevel => setCompressionLevel
  | I_setBrotliLevel => setBrotliLevel
  | I_setZstdLevel => setZstdLevel
  | I_setJsonEncodeFlags => setJsonEncodeFlags
  | I_setCompressionMinSize => setCompressionMinSize
  | I_setRequestMaxDecompressedSize => setRequestMaxDecompressedSize
  | I_setWriteBufferSize => setWriteBufferSize
  | I_setTlsBufferBytes => setTlsBufferBytes
  end.

Inductive flag_setter :=
  | F_setWsPermessageDeflate | F_setHttp3AltSvcEnabled | F_setHttp3Pacing | F_setRequestScope | F_setStatsEnabled
  | F_setCompressionEnabled | F_enableProtocolDetection | F_enableTls | F_setAutoAwaitBody | F_setTelemetryEnabled
  | F_setBodyStreamingEnabled | F_enableReloadOnSignal | F_enableHttp2 | F_enableWebSocket.

Definition flag_method (s : flag_setter) : bool -> http_server_config_t -> outcome :=
  match s with
  | F_setWsPermessageDeflate => setWsPermessageDeflate
  | F_setHttp3AltSvcEnabled => setHttp3AltSvcEnabled
  | F_setHttp3Pacing => setHttp3Pacing
  | F_setRequestScope => setRequestScope
  | F_setStatsEnabled => setStatsEnabled
  | F_setCompressionEnabled => setCompressionEnabled
  | F_enableProtocolDetection => enableProtocolDetection
  | F_enableTls => enableTls
  | F_setAutoAwaitBody => setAutoAwaitBody
  | F_setTelemetryEnabled => setTelemetryEnabled
  | F_setBodyStreamingEnabled => setBodyStreamingEnabled
  | F_enableReloadOnSignal => enableReloadOnSignal
  | F_enableHttp2 => enableHttp2
  | F_enableWebSocket => enableWebSocket
  end.

Inductive call :=
  | M___construct (h : option bytes) (p : Z)
  | M_addListener (h : bytes) (p : Z) (s : bool)
  | M_addHttp1Listener (h : bytes) (p : Z) (s : bool)
  | M_addHttp2Listener (h : bytes) (p : Z) (s : bool)
  | M_addHttp3Listener (h : bytes) (p : Z)
  | M_addUnixListener (path : bytes)
  | M_int (s : int_setter) (n : Z)
  | M_flag (s : flag_setter) (b : bool)
  | M_setWsPublishRateLimit (per_second burst : Z)
  | M_enableHotReload (paths : list zval) (extensions : option (list zval)) (debounce_ms max_hold_ms : Z)
  | M_setBootloader (f : option Z)
  | M_setCertificate (path : bytes)
  | M_setPrivateKey (path : bytes)
  | M_setHttp3HqDocroot (path : bytes)
  | M_setCompressionMimeTypes (types : list zval)
  | M_setLogSeverity (level : LogFormat.http_log_severity_t)
  | M_setLogStream (stream : zval)
  | M_setLogSinks (sinks : list zval).

Definition invoke (fs : bytes -> file_state) (m : call) (c : http_server_config_t) : outcome :=
  match m with
  | M___construct h p => __construct h p c
  | M_addListener h p s => addListener h p s c
  | M_addHttp1Listener h p s => addHttp1Listener h p s c
  | M_addHttp2Listener h p s => addHttp2Listener h p s c
  | M_addHttp3Listener h p => addHttp3Listener h p c
  | M_addUnixListener path => addUnixListener path c
  | M_int s n => int_method s n c
  | M_flag s b => flag_method s b c
  | M_setWsPublishRateLimit r b => setWsPublishRateLimit r b c
  | M_enableHotReload paths exts d h => enableHotReload paths exts d h c
  | M_setBootloader f => setBootloader f c
  | M_setCertificate path => setCertificate fs path c
  | M_setPrivateKey path => setPrivateKey fs path c
  | M_setHttp3HqDocroot path => setHttp3HqDocroot path c
  | M_setCompressionMimeTypes l => setCompressionMimeTypes l c
  | M_setLogSeverity l => setLogSeverity l c
  | M_setLogStream x => setLogStream x c
  | M_setLogSinks l => setLogSinks l c
  end.

(** The object after a call, thrown or not. *)
Definition left (o : outcome) : http_server_config_t := match o with Returns c | Throws _ c => c end.

Definition run_calls (fs : bytes -> file_state) (l : list call) (c : http_server_config_t) : http_server_config_t :=
  fold_left (fun c m => left (invoke fs m c)) l c.

(** ** The snapshot *)

Record http_shared_log_sink := {
  s_type : option bytes; s_format : option bytes; s_target : option bytes; s_facility : option bytes; s_path : option bytes;
  s_tmpl : option bytes; s_category : option bytes;
  s_level : Z;
}.

(** Without [ref_count], which [heap] keeps. *)
Record http_server_shared_config_t := {
  sh_listeners : list http_listener_config_t;
  sh_tls_cert_path : option bytes;
  sh_tls_key_path : option bytes;
  sh_http3_hq_docroot : option bytes;
  sh_ints : int_member -> Z;
  sh_flags : flag_member -> bool;
  sh_mime_types : list bytes;
  sh_log_sinks : list http_shared_log_sink;
}.

Definition shared_spec_str (spec : list (bytes * zval)) (k : bytes) : option bytes :=
  match hash_find k spec with Some (IS_STRING s) => Some s | _ => None end.

(** The fields the snapshot is given, in the order of the assignments. *)
Definition freeze_ints : list int_member :=
  [backlog; max_connections; workers; max_inflight_requests; read_timeout_s; write_timeout_s; keepalive_timeout_s;
   shutdown_timeout_s; backpressure_target_ms; max_connection_age_ms; max_connection_age_grace_ms; drain_spread_ms;
   drain_cooldown_ms; stream_write_buffer_bytes; max_body_size; h2_static_budget_max; ws_max_message_size;
   ws_max_frame_size; ws_max_subscriptions; ws_publish_rate; ws_publish_burst; ws_publish_retry_interval_ms;
   ws_publish_retry_timeout_ms; ws_publish_retry_queue_max; ws_ping_interval_ms; ws_pong_timeout_ms;
   http3_idle_timeout_ms; http3_stream_window_bytes; http3_max_concurrent_streams; http3_peer_connection_budget;
   http3_socket_buffer_bytes; reactor_mailbox_capacity; tls_buffer_bytes; write_buffer_size; compression_level;
   brotli_level; zstd_level; compression_min_size; request_max_decompressed_size; json_encode_flags].

Definition freeze_flags : list flag_member :=
  [ws_permessage_deflate; http3_alt_svc_enabled; http3_pacing; request_scope; stats_enabled; http2_enabled;
   websocket_enabled; protocol_detection_enabled; tls_enabled; auto_await_body; body_streaming_enabled;
   compression_enabled].

Definition copy {A B} `{EqDecision A} (names : list A) (from to : A -> B) : A -> B := fold_left (fun f m => upd f m (from m)) names to.

(** Sinks of a type that cannot cross threads are left out. *)
Definition per_thread (t : bytes) : bool := eqb_bytes t (lit "stream") || eqb_bytes t (lit "php").

Definition freeze_sink (elem : zval) : option http_shared_log_sink :=
  match elem with
  | IS_ARRAY spec =>
      if match hash_find (lit "type") spec with Some (IS_STRING t) => per_thread t | _ => false end then None
      else Some {| s_type := shared_spec_str spec (lit "type"); s_format := shared_spec_str spec (lit "format");
                   s_target := shared_spec_str spec (lit "target"); s_facility := shared_spec_str spec (lit "facility");
                   s_path := shared_spec_str spec (lit "path"); s_tmpl := shared_spec_str spec (lit "template");
                   s_category := shared_spec_str spec (lit "category");
                   s_level := match hash_find (lit "level") spec with Some (IS_SEVERITY l) => LogFormat.severity_number l | _ => 0 end |}
  | _ => None
  end.

Definition http_server_shared_config_freeze (src : http_server_config_t) : http_server_shared_config_t :=
  {| sh_listeners := listeners src; sh_tls_cert_path := tls_cert_path src; sh_tls_key_path := tls_key_path src;
     sh_http3_hq_docroot := http3_hq_docroot src;
     sh_ints := copy freeze_ints (ints src) (fun _ => 0);
     sh_flags := copy freeze_flags (flags src) (fun _ => false);
     sh_mime_types := compression_mime_types src;
     sh_log_sinks := match log_sinks src with Some l => omap freeze_sink l | None => [] end |}.

(** The fields a loaded object is given. *)
Definition populate_ints : list int_member :=
  [backlog; max_connections; workers; max_inflight_requests; read_timeout_s; write_timeout_s; keepalive_timeout_s;
   shutdown_timeout_s; backpressure_target_ms; max_connection_age_ms; max_connection_age_grace_ms; drain_spread_ms;
   drain_cooldown_ms; stream_write_buffer_bytes; max_body_size; h2_static_budget_max; ws_max_message_size;
   ws_max_frame_size; ws_max_subscriptions; ws_publish_rate; ws_publish_burst; ws_publish_retry_interval_ms;
   ws_publish_retry_timeout_ms; ws_publish_retry_queue_max; ws_ping_interval_ms; ws_pong_timeout_ms;
   http3_idle_timeout_ms; http3_stream_window_bytes; http3_max_concurrent_streams; http3_peer_connection_budget;
   http3_socket_buffer_bytes; reactor_mailbox_capacity; tls_buffer_bytes; write_buffer_size; compression_level;
   brotli_level; zstd_level; compression_min_size; request_max_decompressed_size; json_encode_flags].

Definition populate_flags : list flag_member :=
  [ws_permessage_deflate; http3_alt_svc_enabled; http3_pacing; request_scope; stats_enabled; http2_enabled;
   websocket_enabled; protocol_detection_enabled; tls_enabled; auto_await_body; body_streaming_enabled;
   compression_enabled].

Definition level_case (level : Z) : LogFormat.http_log_severity_t :=
  if level =? 0 then LogFormat.HTTP_LOG_OFF else if level =? 5 then LogFormat.HTTP_LOG_DEBUG else if level =? 13 then LogFormat.HTTP_LOG_WARN
  else if level =? 17 then LogFormat.HTTP_LOG_ERROR else LogFormat.HTTP_LOG_INFO.

Definition spec_entry (k : bytes) (x : option bytes) : list (bytes * zval) := match x with Some s => [(k, IS_STRING s)] | None => [] end.

Definition populate_sink (s : http_shared_log_sink) : zval :=
  IS_ARRAY (spec_entry (lit "type") (s_type s) ++ spec_entry (lit "format") (s_format s) ++ spec_entry (lit "target") (s_target s) ++
            spec_entry (lit "facility") (s_facility s) ++ spec_entry (lit "path") (s_path s) ++ spec_entry (lit "template") (s_tmpl s) ++
            spec_entry (lit "category") (s_category s) ++ [(lit "level", IS_SEVERITY (level_case (s_level s)))]).

Definition or_keep {A} (x old : option A) : option A := match x with Some _ => x | None => old end.

Definition http_server_config_populate_from_shared (dst : http_server_config_t) (src : http_server_shared_config_t) : http_server_config_t :=
  {| listeners := match sh_listeners src with [] => listeners dst | l => l end;
     tls_cert_path := or_keep (sh_tls_cert_path src) (tls_cert_path dst);
     tls_key_path := or_keep (sh_tls_key_path src) (tls_key_path dst);
     http3_hq_docroot := or_keep (sh_http3_hq_docroot src) (http3_hq_docroot dst);
     ints := copy populate_ints (sh_ints src) (ints dst);
     flags := copy populate_flags (sh_flags src) (flags dst);
     compression_mime_types := fold_left (fun l s => mime_add s l) (sh_mime_types src) [];
     bootloader := bootloader dst; log_stream := log_stream dst;
     log_sinks := match sh_log_sinks src with [] => log_sinks dst | l => Some (map populate_sink l) end;
     hot_reload_paths := hot_reload_paths dst; hot_reload_extensions := hot_reload_extensions dst;
     frozen := frozen dst; is_locked := is_locked dst |}.

(** ** Threads *)

(** The persistent heap: the reference count and the contents of every snapshot that is alive. *)
Notation heap := (gmap nat (Z * http_server_shared_config_t)).

Record world := {
  snaps : heap;
  configs : gmap nat http_server_config_t;   (** the objects, in whatever thread *)
  shells : gmap nat nat;                (** transit copies, by the snapshot they hold *)
}.

(** [None]: the snapshot was freed, the access is to dead memory. *)
Definition http_server_shared_config_addref (p : nat) (h : heap) : option heap :=
  '(n, s) ← h !! p; Some (<[p := (n + 1, s)]> h).

Definition http_server_shared_config_release (p : nat) (h : heap) : option heap :=
  '(n, s) ← h !! p; Some (if 1 <? n then <[p := (n - 1, s)]> h else delete p h).

(** An address that is not in use. *)
Definition pecalloc (h : heap) : nat := S (list_max (map fst (map_to_list h))).

Definition freeze_into (c : http_server_config_t) (h : heap) : http_server_config_t * heap :=
  match frozen c with
  | Some _ => (c, h)
  | None =>
      let p := pecalloc h in
      (with_frozen (Some p) c, <[p := (1, http_server_shared_config_freeze c)]> h)
  end.

Definition with_config (i : nat) (c : http_server_config_t) (h : heap) (w : world) : world :=
  {| snaps := h; configs := <[i := c]> (configs w); shells := shells w |}.

Definition http_server_config_lock (i : nat) (w : world) : option world :=
  c ← configs w !! i;
  if is_locked c then Some w
  else let '(c, h) := freeze_into c (snaps w) in Some (with_config i (with_is_locked true c) h w).

Definition http_server_config_free (i : nat) (w : world) : option world :=
  c ← configs w !! i;
  h ← match frozen c with Some p => http_server_shared_config_release p (snaps w) | None => Some (snaps w) end;
  Some {| snaps := h; configs := delete i (configs w); shells := shells w |}.

(** [ZEND_OBJECT_TRANSFER]: the shell [j] gets the snapshot. *)
Definition transfer_obj (i j : nat) (w : world) : option world :=
  c ← configs w !! i;
  let '(c, h) := freeze_into c (snaps w) in
  p ← frozen c;
  h ← http_server_shared_config_addref p h;
  Some {| snaps := h; configs := <[i := c]> (configs w); shells := <[j := p]> (shells w) |}.

(** [ZEND_OBJECT_LOAD]: the object [i] is made from the shell [j]. *)
Definition load_obj (j i : nat) (w : world) : option world :=
  p ← shells w !! j;
  '(n, s) ← snaps w !! p;
  h ← http_server_shared_config_addref p (snaps w);
  let c := http_server_config_populate_from_shared http_server_config_create s in
  Some (with_config i (with_is_locked true (with_frozen (Some p) c)) h w).

(** What threads do with their objects. *)
Inductive op :=
  | New (i : nat)
  | Call (i : nat) (m : call)
  | Lock (i : nat)
  | Free (i : nat)
  | Transfer (i j : nat)
  | Load (j i : nat).

Definition exists_in {A} (m : gmap nat A) (i : nat) : bool := match m !! i with Some _ => true | None => false end.

(** The engine calls a handler with objects that exist, and makes objects and shells at new addresses. *)
Definition legal (w : world) (o : op) : bool :=
  match o with
  | New i => negb (exists_in (configs w) i)
  | Call i _ | Lock i | Free i => exists_in (configs w) i
  | Transfer i j => exists_in (configs w) i && negb (exists_in (shells w) j)
  | Load j i => exists_in (shells w) j && negb (exists_in (configs w) i)
  end.

(** [None]: dead memory was touched. *)
Definition perform (fs : bytes -> file_state) (o : op) (w : world) : option world :=
  match o with
  | New i => Some (with_config i http_server_config_create (snaps w) w)
  | Call i m => c ← configs w !! i; Some (with_config i (left (invoke fs m c)) (snaps w) w)
  | Lock i => http_server_config_lock i w
  | Free i => http_server_config_free i w
  | Transfer i j => transfer_obj i j w
  | Load j i => load_obj j i w
  end.

(** A run: [None] when an operation was not legal, otherwise what became of the memory. *)
Fixpoint run_ops (fs : bytes -> file_state) (l : list op) (w : world) : option (option world) :=
  match l with
  | [] => Some (Some w)
  | o :: r =>
      if legal w o then match perform fs o w with Some w' => run_ops fs r w' | None => Some None end
      else None
  end.

Definition empty_world : world := {| snaps := ∅; configs := ∅; shells := ∅ |}.

End ServerConfig.
