(* ===== verification/ServerConfigProps.v ===== *)
(** * The server configuration: properties

    Every method keeps the documented ranges, a refused call changes nothing, a locked
    configuration is constant, a loaded configuration agrees with the one that was frozen, and the
    snapshot outlives every object that points to it. *)

From S2P Require Import Prelude LogFormat Ledger ServerConfig.

Module ServerConfigProps.
Import ServerConfig.

(** ** Well-formed configurations *)

(** The values a field may have once the object is constructed, as the setters document them. *)
Definition in_range (m : int_member) (z : Z) : Prop :=
  match m with
  | backlog => 1 <= z < 2 ^ 31
  | max_connections => 0 <= z < 2 ^ 31
  | workers => 1 <= z <= 1024
  | max_inflight_requests | h2_static_budget_max | request_max_decompressed_size => 0 <= z < 2 ^ 63
  | read_timeout_s | keepalive_timeout_s => 1 <= z <= UINT32_MAX
  | write_timeout_s | shutdown_timeout_s => 0 <= z <= UINT32_MAX
  | backpressure_target_ms => 0 <= z <= 10000
  | max_connection_age_ms | max_connection_age_grace_ms => z = 0 \/ 1000 <= z <= UINT32_MAX
  | drain_spread_ms => 100 <= z <= UINT32_MAX
  | drain_cooldown_ms => 1000 <= z <= UINT32_MAX
  | stream_write_buffer_bytes => 4096 <= z <= 4194304
  | max_body_size => 1024 <= z <= 17179869184
  | ws_max_message_size | ws_max_frame_size => 128 <= z <= 268435456
  | ws_max_subscriptions | ws_publish_rate | ws_publish_burst | ws_ping_interval_ms | ws_pong_timeout_ms | http3_idle_timeout_ms
  | json_encode_flags => 0 <= z <= UINT32_MAX
  | ws_publish_retry_interval_ms | ws_publish_retry_timeout_ms | ws_publish_retry_queue_max => 1 <= z <= UINT32_MAX
  | http3_stream_window_bytes => 1024 <= z <= 1073741824
  | http3_max_concurrent_streams => 1 <= z <= 1000000
  | http3_peer_connection_budget => 0 <= z <= 4096
  | reactor_mailbox_capacity => z = 0 \/ 64 <= z <= 1048576
  | http3_socket_buffer_bytes => 0 <= z <= 268435456
  | tls_buffer_bytes => z = DEFAULT_TLS_BUFFER_BYTES \/ exists k, 1 <= k <= 16 /\ z = k * TLS_BUFFER_RECORD_BYTES
  | write_buffer_size => 1024 <= z < 2 ^ 63
  | compression_level => 1 <= z <= 9
  | brotli_level => 0 <= z <= 11
  | zstd_level => 1 <= z <= 22
  | compression_min_size => 0 <= z <= 16777216
  | log_severity => exists s, z = LogFormat.severity_number s
  | hot_reload_debounce_ms => 1 <= z <= 600000
  | hot_reload_max_hold_ms => 0 <= z <= 600000
  end.

Definition listener_ok (l : http_listener_config_t) : Prop :=
  match type l with
  | LISTENER_TYPE_TCP => 1 <= port l <= 65535 /\ (protocol_mask l = 1 \/ protocol_mask l = 2 \/ protocol_mask l = 3)
  | LISTENER_TYPE_UDP_H3 => 1 <= port l <= 65535 /\ tls l = true /\ protocol_mask l = 4
  | LISTENER_TYPE_UNIX => port l = 0 /\ tls l = false /\ protocol_mask l = 3
  end.

(** The media types are distinct and each is its own normal form. *)
Definition mime_ok (l : list bytes) : Prop := NoDup l /\ Forall (fun s => http_compression_normalize_mime s = Some s) l.

Definition sinks_ok (l : list zval) : Prop := (length l <= 8)%nat /\ Forall (fun x => log_sink_spec_valid x = true) l.

Record well_formed (c : http_server_config_t) : Prop := {
  wf_ints : forall m, in_range m (ints c m);
  wf_listeners : Forall listener_ok (listeners c);
  wf_mime : mime_ok (compression_mime_types c);
  wf_sinks : forall l, log_sinks c = Some l -> sinks_ok l;
  wf_stream : forall x, log_stream c = Some x -> exists id, x = IS_RESOURCE id true;
  wf_reload : forall l, hot_reload_paths c = Some l -> l <> [] /\ Forall (fun x => nonempty_string x = true) l;
}.

(** The arguments: PHP integers, and for the six setters that test only one side of the
    range, values that fit the field they are stored in. *)
Definition zend_long (n : Z) : Prop := - 2 ^ 63 <= n < 2 ^ 63.

Definition fits (s : int_setter) (n : Z) : Prop :=
  match s with
  | I_setBacklog | I_setMaxConnections => n < 2 ^ 31
  | I_setMaxConnectionAgeMs | I_setMaxConnectionAgeGraceMs | I_setDrainSpreadMs | I_setDrainCooldownMs => n < 2 ^ 32
  | _ => True
  end.

Definition args_ok (m : call) : Prop :=
  match m with
  | M_int s n => zend_long n /\ fits s n
  | M_setWsPublishRateLimit r b => zend_long r /\ zend_long b
  | _ => True
  end.

(** ** The setters *)

Lemma upd_ok (f : int_member -> Z) m z : (forall m, in_range m (f m)) -> in_range m z -> forall m', in_range m' (upd f m z m').
Proof. intros H Hz m'. unfold upd. destruct (decide (m' = m)) as [->|]; auto. Qed.

Lemma set_int_ok m z c : well_formed c -> in_range m z -> well_formed (set_int m z c).
Proof. intros [] Hz. constructor; cbn; try done. by apply upd_ok. Qed.

Lemma set_flag_ok m b c : well_formed c -> well_formed (set_flag m b c).
Proof. intros []. by constructor. Qed.

Lemma checked_ok c body : well_formed c -> (is_locked c = false -> well_formed (left body)) -> well_formed (left (config_check_locked c body)).
Proof. intros Hc Hb. unfold config_check_locked. destruct (is_locked c); [done|by apply Hb]. Qed.

Lemma assign_int_ok bad m z c : well_formed c -> (bad = false -> in_range m z) -> well_formed (left (assign_int bad m z c)).
Proof. intros Hc Hz. apply checked_ok; [done|]. intros _. destruct bad; [done|]. apply set_int_ok; auto. Qed.

Lemma c_size_id n : 0 <= n < 2 ^ 63 -> c_size n = n.
Proof. intros. unfold c_size. apply Z.mod_small. lia. Qed.

Lemma c_u32_id n : 0 <= n < 2 ^ 32 -> c_u32 n = n.
Proof. intros. unfold c_u32. apply Z.mod_small. lia. Qed.

Lemma c_u8_id n : 0 <= n < 2 ^ 8 -> c_u8 n = n.
Proof. intros. unfold c_u8. apply Z.mod_small. lia. Qed.

Lemma c_int_id n : 0 <= n < 2 ^ 31 -> c_int n = n.
Proof. intros. unfold c_int. rewrite Z.mod_small; lia. Qed.

Lemma c_size_neg n : - 2 ^ 63 <= n < 0 -> 2 ^ 63 <= c_size n.
Proof. intros. unfold c_size. rewrite <- (Z.mod_add n 1) by lia. rewrite Z.mod_small; lia. Qed.

Ltac limits :=
  unfold STREAM_WRITE_BUFFER_MIN_BYTES, STREAM_WRITE_BUFFER_MAX_BYTES, MAX_BODY_SIZE_MIN, MAX_BODY_SIZE_MAX, WS_MAX_MESSAGE_SIZE_MIN,
    WS_MAX_MESSAGE_SIZE_MAX, HTTP3_STREAM_WINDOW_MIN_BYTES, HTTP3_STREAM_WINDOW_MAX_BYTES, HTTP3_MAX_CONCURRENT_STREAMS_MAX, HTTP3_PEER_BUDGET_MAX,
    REACTOR_MAILBOX_CAP_MIN, REACTOR_MAILBOX_CAP_MAX, HTTP3_SOCKET_BUFFER_MAX, HTTP_COMPRESSION_LEVEL_MIN, HTTP_COMPRESSION_LEVEL_MAX,
    HTTP_COMPRESSION_BROTLI_LEVEL_MIN, HTTP_COMPRESSION_BROTLI_LEVEL_MAX, HTTP_COMPRESSION_ZSTD_LEVEL_MIN, HTTP_COMPRESSION_ZSTD_LEVEL_MAX,
    HTTP_COMPRESSION_MIN_SIZE_MAX, config_validate_timeout, config_validate_timeout_positive, UINT32_MAX in *.

(** A setter whose guard leaves only values of the range. *)
Ltac setter :=
  apply assign_int_ok; [done|]; limits; intros Hg; cbn [in_range]; unfold UINT32_MAX in *;
  repeat case_if_in Hg; b2p; rewrite ?c_size_id in * by lia; rewrite ?c_u32_id, ?c_u8_id, ?c_int_id by lia; lia.

Lemma tls_range n : 0 < n <= TLS_BUFFER_MAX ->
  exists k, 1 <= k <= 16 /\ c_u32 (tls_records n * TLS_BUFFER_RECORD_BYTES) = k * TLS_BUFFER_RECORD_BYTES.
Proof.
  unfold TLS_BUFFER_MAX, tls_records, TLS_BUFFER_MAX_RECORDS, TLS_BUFFER_RECORD_BYTES. intros Hn. change (17 * 1024) with 17408 in *.
  rewrite (c_u32_id n), (c_u32_id (n + _ - _)) by lia. set (r := (n + 17408 - 1) / 17408).
  assert (1 <= r <= 16) by (unfold r; split; [apply Z.div_le_lower_bound|apply Z.lt_succ_r, Z.div_lt_upper_bound]; lia).
  rewrite (proj2 (Z.ltb_ge r 1)), (proj2 (Z.ltb_ge 16 r)) by lia. exists r. split; [done|]. apply c_u32_id. lia.
Qed.

Lemma int_method_ok s n c : well_formed c -> zend_long n -> fits s n -> well_formed (left (int_method s n c)).
Proof.
  intros Hc Hn Hf. unfold zend_long in Hn. destruct s; cbn [int_method fits] in *.
  all: lazymatch goal with |- well_formed (left (?f _ _)) => unfold f end.
  all: try setter.
  apply assign_int_ok; [done|]. intros Hg. b2p. rewrite c_size_id in * by lia. cbn [in_range]. case_if; b2p; [by left|right].
  apply tls_range. lia.
Qed.

Lemma flag_method_ok s b c : well_formed c -> well_formed (left (flag_method s b c)).
Proof.
  intros Hc. destruct s; cbn [flag_method]; lazymatch goal with |- well_formed (left (?f _ _)) => unfold f end; try unfold assign_flag;
    apply checked_ok; try done; intros _; first [by apply set_flag_ok|destruct b; [done|by apply set_flag_ok]].
Qed.

(** *** Media types *)

Section lower.
Context (p : Z -> bool) (Hp : forall c, p (to_lower c) = p c).

Lemma drop_while_lower s : drop_while p (map to_lower s) = map to_lower (drop_while p s).
Proof. induction s as [|c s IH]; cbn; [done|]. rewrite Hp. by destruct (p c). Qed.

Lemma take_while_lower s : take_while p (map to_lower s) = map to_lower (take_while p s).
Proof. induction s as [|c s IH]; cbn; [done|]. rewrite Hp. destruct (p c); cbn; by rewrite ?IH. Qed.

Lemma trim_end_lower s : trim_end p (map to_lower s) = map to_lower (trim_end p s).
Proof. induction s as [|c s IH]; cbn; [done|]. rewrite IH. destruct (trim_end p s); cbn; [rewrite Hp; by destruct (p c)|done]. Qed.
End lower.

Lemma lower_other a c : is_upper a = false -> is_upper (a - 32) = false -> (to_lower c =? a) = (c =? a).
Proof.
  unfold to_lower. intros Ha Hb. destruct (is_upper c) eqn:E; [|done]. assert (c <> a) by congruence.
  assert (c + 32 <> a) by (intros <-; replace (c + 32 - 32) with c in Hb by lia; congruence). rewrite !(proj2 (Z.eqb_neq _ _)) by done. done.
Qed.

Lemma lower_lower c : to_lower (to_lower c) = to_lower c.
Proof. unfold to_lower, is_upper. repeat case_if; b2p; lia. Qed.

(** A normal form is its own normal form. *)
Lemma normalize_idem src t : http_compression_normalize_mime src = Some t -> http_compression_normalize_mime t = Some t.
Proof.
  unfold http_compression_normalize_mime. set (w := drop_while blank src). set (v := take_while (isnt 59) w). set (u := trim_end blank v).
  destruct u as [|c r] eqn:Eu; [done|]. rewrite <- Eu. intros [= <-]. destruct (trim_end_prefix blank v) as (t & Ev & _). fold u in Ev.
  assert (forall c, blank (to_lower c) = blank c) as Hb by (intros; unfold blank; by rewrite !lower_other by reflexivity).
  assert (forall c, isnt 59 (to_lower c) = isnt 59 c) as Hi by (intros; unfold isnt; by rewrite lower_other by reflexivity).
  rewrite drop_while_lower, take_while_lower, trim_end_lower by done.
  assert (drop_while blank u = u) as ->.
  { rewrite Eu. cbn. destruct (blank c) eqn:E; [|done]. exfalso. pose proof (take_drop_while (isnt 59) w) as Hw. fold v in Hw. rewrite Ev, Eu in Hw. cbn [app] in Hw.
    pose proof (drop_while_head blank src c _ (eq_sym Hw)). congruence. }
  assert (take_while (isnt 59) u = u) as ->.
  { apply take_while_id. pose proof (take_while_all (isnt 59) w) as H. fold v in H. rewrite Ev in H. by apply Forall_app in H as [? _]. }
  unfold u at 1. rewrite trim_end_idem. fold u. rewrite Eu. cbn [map]. f_equal. rewrite lower_lower, map_map. f_equal. apply map_ext, lower_lower.
Qed.

Lemma mime_add_ok s l : http_compression_normalize_mime s = Some s -> mime_ok l -> mime_ok (mime_add s l).
Proof.
  intros Hs [Hn Hf]. unfold mime_add. destruct (decide (s ∈ l)); [done|]. split.
  - apply NoDup_app. split; [done|]. split; [|by apply NoDup_singleton]. intros x Hx ->%list_elem_of_singleton. done.
  - apply Forall_app. split; [done|by repeat constructor].
Qed.

Lemma mime_adds_ok ss l : Forall (fun s => http_compression_normalize_mime s = Some s) ss -> mime_ok l -> mime_ok (fold_left (fun l s => mime_add s l) ss l).
Proof. intros H. revert l. induction H as [|s ss Hs _ IH]; intros l Hl; cbn; [done|]. by apply IH, mime_add_ok. Qed.

Lemma mime_nil_ok : mime_ok [].
Proof. split; constructor. Qed.

Lemma stage_ok types staged l : mime_ok staged -> stage_mime_types types staged = Some l -> mime_ok l.
Proof.
  revert staged. induction types as [|x types IH]; intros staged Hs; cbn [stage_mime_types]; [by intros [= <-]|].
  destruct x; try done. destruct (http_compression_normalize_mime s) as [t|] eqn:E; [|done]. cbn. apply IH, mime_add_ok; [|done]. by eapply normalize_idem.
Qed.

(** *** Every method *)

Lemma add_listener_ok t h p s mask c : well_formed c -> listener_ok {| type := t; host := h; port := p; tls := s; protocol_mask := mask |} ->
  well_formed (config_add_listener t h p s mask c).
Proof. intros [] Hl. constructor; cbn; try done. apply Forall_app. split; [done|by repeat constructor]. Qed.

Lemma port_ok p : bad_port p = false -> 1 <= c_int p <= 65535.
Proof. unfold bad_port. intros H. b2p. rewrite c_int_id; lia. Qed.

Lemma add_tcp_ok h p s mask c : well_formed c -> mask = 1 \/ mask = 2 \/ mask = 3 -> well_formed (left (add_tcp h p s mask c)).
Proof.
  intros Hc Hm. apply checked_ok; [done|]. intros _. destruct (bad_port p) eqn:E; [done|]. apply add_listener_ok; [done|].
  split; [by apply port_ok|done].
Qed.

Lemma construct_reset_ok c : Forall listener_ok (listeners c) -> mime_ok (compression_mime_types c) ->
  (forall l, log_sinks c = Some l -> sinks_ok l) -> (forall x, log_stream c = Some x -> exists id, x = IS_RESOURCE id true) ->
  (forall m, in_range m (construct_int m (ints c m))) ->
  forall h p, well_formed (left (__construct h p c)).
Proof.
  intros Hl Hm Hs Hst Hi h p. unfold __construct.
  assert (well_formed (with_bootloader None (with_hot_reload None None
    (with_flags (fun m => construct_flag m (flags c m)) (with_ints (fun m => construct_int m (ints c m)) c))))) as H by (constructor; cbn; done).
  destruct h as [h|]; [|done]. destruct (bad_port p) eqn:E; [done|]. apply add_listener_ok; [done|]. split; [by apply port_ok|by right; right].
Qed.

Lemma invoke_ok fs m c : well_formed c -> args_ok m -> well_formed (left (invoke fs m c)).
Proof.
  intros Hc Ha. destruct m as [h p|h p s|h p s|h p s|h p|path|s n|s b|r b|paths exts d h|f|path|path|path|types|level|x|sinks]; cbn [invoke args_ok] in *.
  - apply construct_reset_ok; try apply Hc. intros m. pose proof (wf_ints c Hc m). destruct m; cbn [construct_int in_range] in *; unfold UINT32_MAX in *; try done; try lia.
  - apply add_tcp_ok; auto.
  - apply add_tcp_ok; auto.
  - apply add_tcp_ok; auto.
  - apply checked_ok; [done|]. intros _. destruct (bad_port p) eqn:E; [done|]. apply add_listener_ok; [done|]. split; [by apply port_ok|done].
  - apply checked_ok; [done|]. intros _. by apply add_listener_ok.
  - apply int_method_ok; tauto.
  - by apply flag_method_ok.
  - apply checked_ok; [done|]. intros _. destruct Ha as [Hr Hb]. unfold zend_long in *. destruct (_ || _ || _ || _) eqn:E; [done|]. b2p.
    rewrite !c_size_id in * by lia. unfold UINT32_MAX in *. rewrite !c_u32_id by lia. repeat apply set_int_ok; cbn; unfold UINT32_MAX; try done; lia.
  - apply checked_ok; [done|]. intros _. destruct paths as [|x paths]; [done|]. destruct (forallb nonempty_string (x :: paths)) eqn:Ep; cbn [negb]; [|done].
    destruct (_ || _ || _ || _) eqn:E; [done|]. b2p. cbn [left]. rewrite !c_u32_id by lia. repeat apply set_int_ok; cbn; try lia.
    destruct Hc. constructor; cbn; try done. intros l [= <-]. split; [done|]. apply List.Forall_forall. by apply forallb_forall.
  - apply checked_ok; [done|]. intros _. destruct Hc. by constructor.
  - apply checked_ok; [done|]. intros _. destruct (negb _); [done|]. destruct Hc. by constructor.
  - apply checked_ok; [done|]. intros _. destruct (negb _); [done|]. destruct Hc. by constructor.
  - apply checked_ok; [done|]. intros _. destruct Hc. by constructor.
  - apply checked_ok; [done|]. intros _. destruct (stage_mime_types types []) as [l|] eqn:E; [|done]. apply stage_ok in E; [|apply mime_nil_ok].
    destruct Hc. constructor; cbn; try done. apply mime_adds_ok; [apply E|apply mime_nil_ok].
  - apply checked_ok; [done|]. intros _. apply set_int_ok; [done|]. exists level. by destruct level.
  - apply checked_ok; [done|]. intros _. destruct Hc. destruct x as [| |id []| | |]; constructor; cbn; try done. intros x [= <-]. by exists id.
  - apply checked_ok; [done|]. intros _. destruct (_ <? _)%nat eqn:El; [done|]. destruct (forallb _ sinks) eqn:E; cbn [negb]; [|done].
    destruct Hc. constructor; cbn; try done. intros l [= <-]. split; [apply Nat.ltb_ge in El; exact El|]. apply List.Forall_forall. by apply forallb_forall.
Qed.

Lemma calls_ok fs l c : well_formed c -> Forall args_ok l -> well_formed (run_calls fs l c).
Proof. intros Hc H. revert c Hc. induction H as [|m l Hm _ IH]; intros c Hc; cbn; [done|]. by apply IH, invoke_ok. Qed.

Lemma constructed_ok h p : well_formed (left (__construct h p http_server_config_create)).
Proof.
  apply construct_reset_ok; cbn; try done.
  - split; [apply (bool_decide_unpack _); vm_compute; exact I|]. repeat constructor.
  - intros m. destruct m; cbn; unfold UINT32_MAX; first [lia|by left|by exists LogFormat.HTTP_LOG_OFF|vm_compute; split; discriminate || reflexivity].
Qed.



(** ** Refusals *)

Lemma checked_locked c body : is_locked c = true -> config_check_locked c body = Throws RuntimeException c.
Proof. unfold config_check_locked. by intros ->. Qed.

Lemma checked_throws c body e c' : config_check_locked c body = Throws e c' -> c' = c \/ body = Throws e c'.
Proof. unfold config_check_locked. destruct (is_locked c); [intros; simplify_eq; by left|by right]. Qed.

Lemma assign_throws bad m z c e c' : assign_int bad m z c = Throws e c' -> c' = c.
Proof. intros [?|H]%checked_throws; [done|]. by destruct bad; simplify_eq. Qed.

Definition is_construct (m : call) : bool := match m with M___construct _ _ => true | _ => false end.

Lemma locked_refuses fs m c : is_locked c = true -> is_construct m = false -> invoke fs m c = Throws RuntimeException c.
Proof.
  intros Hl Hm. destruct m as [h p|h p s|h p s|h p s|h p|path|s n|s b|r b|paths exts d h|f|path|path|path|types|level|x|sinks]; cbn [invoke is_construct] in *;
    try done; try (by apply checked_locked); destruct s; by apply checked_locked.
Qed.

Lemma refused_same fs m c e c' : invoke fs m c = Throws e c' ->
  c' = c \/ is_construct m = true \/ (exists x, m = M_setLogStream x /\ c' = with_log_stream None c).
Proof.
  destruct m as [h p|h p s|h p s|h p s|h p|path|s n|s b|r b|paths exts d h|f|path|path|path|types|level|x|sinks]; cbn [invoke is_construct];
    try (intros _; by right; left); intros H; try (by apply checked_throws in H as [->|H]; [by left|]; left; repeat case_match; simplify_eq).
  - left. destruct s; by eapply assign_throws.
  - left. destruct s; apply checked_throws in H as [->|H]; try done; try (by destruct b; simplify_eq).
  - apply checked_throws in H as [->|H]; [by left|]. right; right. exists x. split; [done|]. destruct x as [| |id []| | |]; congruence.
Qed.

(** C35: a refused call changes nothing. A locked configuration answers every method but the
    constructor with the runtime exception and stays as it is; a method that throws on any
    configuration leaves it unchanged, with two exceptions: a refused [setLogStream] has already dropped
    the stream that was set, and the constructor, which does not look at the lock, has already reset the
    fields. *)
Theorem config_refusal_changes_nothing fs m c e c' :
  (is_locked c = true -> is_construct m = false -> invoke fs m c = Throws RuntimeException c) /\
  (invoke fs m c = Throws e c' ->
   c' = c \/ is_construct m = true \/ (exists x, m = M_setLogStream x /\ c' = with_log_stream None c)).
Proof. split; [apply locked_refuses|apply refused_same]. Qed.

Definition sample_config : http_server_config_t := left (__construct (Some (lit "0.0.0.0")) 8080 http_server_config_create).

Lemma config_refusal_changes_nothing_witness :
  invoke (fun _ => Readable) (M_int I_setWorkers 4) (with_is_locked true sample_config) = Throws RuntimeException (with_is_locked true sample_config) /\
  exists c', invoke (fun _ => Readable) (M_int I_setWorkers 0) sample_config = Throws InvalidArgumentException c' /\
    (c' = sample_config \/ is_construct (M_int I_setWorkers 0) = true \/ (exists x, M_int I_setWorkers 0 = M_setLogStream x /\ c' = with_log_stream None sample_config)).
Proof.
  split; [by apply (config_refusal_changes_nothing _ _ _ RuntimeException sample_config)|].
  eexists. split; [reflexivity|]. apply (config_refusal_changes_nothing (fun _ => Readable) _ _ InvalidArgumentException). reflexivity.
Defined.

(** six setters accept values they cannot store. On any unlocked configuration they return
    normally and the field gets the argument modulo its width: a backlog of 2^32 becomes 0, a
    connection limit of 2^31 becomes negative, a connection age or grace of 2^32 + 1 milliseconds becomes
    1 although values between 1 and 999 are refused, and a drain spread or cooldown of 2^32 becomes 0
    although the minimum is 100 or 1000. *)
Theorem config_setters_truncate c :
  is_locked c = false ->
  setBacklog (2 ^ 32) c = Returns (set_int backlog 0 c) /\
  setMaxConnections (2 ^ 31) c = Returns (set_int max_connections (- 2 ^ 31) c) /\
  setMaxConnectionAgeMs (2 ^ 32 + 1) c = Returns (set_int max_connection_age_ms 1 c) /\
  setMaxConnectionAgeGraceMs (2 ^ 32 + 1) c = Returns (set_int max_connection_age_grace_ms 1 c) /\
  setDrainSpreadMs (2 ^ 32) c = Returns (set_int drain_spread_ms 0 c) /\
  setDrainCooldownMs (2 ^ 32) c = Returns (set_int drain_cooldown_ms 0 c).
Proof.
  intros Hl. unfold setBacklog, setMaxConnections, setMaxConnectionAgeMs, setMaxConnectionAgeGraceMs, setDrainSpreadMs, setDrainCooldownMs, assign_int,
    config_check_locked. rewrite Hl. split_and!; reflexivity.
Qed.

Lemma config_setters_truncate_witness : setBacklog (2 ^ 32) sample_config = Returns (set_int backlog 0 sample_config).
Proof. by apply (config_setters_truncate sample_config). Defined.

(** ** Crossing threads *)

Lemma copy_in {A B} `{EqDecision A} (names : list A) (from to : A -> B) m : m ∈ names -> copy names from to m = from m.
Proof.
  unfold copy. revert to. induction names as [|x names IH] using rev_ind; intros to Hm; [by apply elem_of_nil in Hm|].
  rewrite fold_left_app. cbn. unfold upd. destruct (decide (m = x)) as [->|Hne]; [done|]. apply IH.
  apply elem_of_app in Hm as [?|?%list_elem_of_singleton]; done.
Qed.

Lemma copy_out {A B} `{EqDecision A} (names : list A) (from to : A -> B) m : m ∉ names -> copy names from to m = to m.
Proof.
  unfold copy. revert to. induction names as [|x names IH] using rev_ind; intros to Hm; [done|].
  rewrite fold_left_app. cbn. unfold upd. destruct (decide (m = x)) as [->|Hne]; [by exfalso; apply Hm, elem_of_app; right; left|].
  apply IH. intros ?. apply Hm, elem_of_app. by left.
Qed.

(** The fields that stay behind. *)
Definition stays_int (m : int_member) : bool := match m with log_severity | hot_reload_debounce_ms | hot_reload_max_hold_ms => true | _ => false end.
Definition stays_flag (m : flag_member) : bool := match m with telemetry_enabled | reload_on_sighup => true | _ => false end.

Lemma crosses_int m : if stays_int m then m ∉ freeze_ints /\ m ∉ populate_ints else m ∈ freeze_ints /\ m ∈ populate_ints.
Proof. destruct m; cbn [stays_int]; apply (bool_decide_unpack _); vm_compute; exact I. Qed.

Lemma crosses_flag m : if stays_flag m then m ∉ freeze_flags /\ m ∉ populate_flags else m ∈ freeze_flags /\ m ∈ populate_flags.
Proof. destruct m; cbn [stays_flag]; apply (bool_decide_unpack _); vm_compute; exact I. Qed.

(** *** Log sinks *)

Definition spec_of (x : zval) : list (bytes * zval) := match x with IS_ARRAY l => l | _ => [] end.

Definition sink_keys : list bytes := [lit "type"; lit "format"; lit "target"; lit "facility"; lit "path"; lit "template"; lit "category"].

(** A sink that crosses: its strings and its level are the same. *)
Definition sink_agrees (a b : zval) : Prop :=
  (forall k, k ∈ sink_keys -> shared_spec_str (spec_of b) k = shared_spec_str (spec_of a) k) /\
  hash_find (lit "level") (spec_of b) = hash_find (lit "level") (spec_of a).

Definition crosses (x : zval) : bool := match shared_spec_str (spec_of x) (lit "type") with Some t => negb (per_thread t) | None => true end.

Lemma hash_find_entry k k' x r : hash_find k (spec_entry k' x ++ r) =
  if eqb_bytes k k' then match x with Some s => Some (IS_STRING s) | None => hash_find k r end else hash_find k r.
Proof. destruct x; cbn; by destruct (eqb_bytes k k'). Qed.

Ltac find_entries :=
  repeat (rewrite hash_find_entry;
          match goal with |- context [eqb_bytes ?a ?b] => let v := eval vm_compute in (eqb_bytes a b) in change (eqb_bytes a b) with v end; cbv iota).

Lemma populate_finds s k : k ∈ sink_keys ->
  shared_spec_str (spec_of (populate_sink s)) k =
  from_option id None (snd <$> find (fun e => eqb_bytes (fst e) k)
    [(lit "type", s_type s); (lit "format", s_format s); (lit "target", s_target s); (lit "facility", s_facility s); (lit "path", s_path s);
     (lit "template", s_tmpl s); (lit "category", s_category s)]).
Proof.
  intros Hk. cbn [spec_of populate_sink]. unfold shared_spec_str.
  repeat (apply elem_of_cons in Hk as [->|Hk]; [find_entries; first [by destruct (s_type s)|by destruct (s_format s)|by destruct (s_target s)|by destruct (s_facility s)|
    by destruct (s_path s)|by destruct (s_tmpl s)|by destruct (s_category s)]|]). by apply elem_of_nil in Hk.
Qed.

Lemma populate_level s : hash_find (lit "level") (spec_of (populate_sink s)) = Some (IS_SEVERITY (level_case (s_level s))).
Proof. cbn [spec_of populate_sink]. find_entries. reflexivity. Qed.

Lemma level_back l : level_case (LogFormat.severity_number l) = l.
Proof. by destruct l. Qed.

Lemma valid_type x : log_sink_spec_valid x = true -> exists spec t, x = IS_ARRAY spec /\ hash_find (lit "type") spec = Some (IS_STRING t).
Proof.
  destruct x as [| | | |spec|]; try done. unfold log_sink_spec_valid. destruct (hash_find (lit "type") spec) as [[|t| | | |]|] eqn:E; try done.
  intros _. by exists spec, t.
Qed.

Lemma valid_level spec : log_sink_spec_valid (IS_ARRAY spec) = true -> exists l, hash_find (lit "level") spec = Some (IS_SEVERITY l).
Proof.
  unfold log_sink_spec_valid. destruct (hash_find (lit "type") spec) as [[|t| | | |]|]; try done. destruct (http_log_sink_type_by_name t); [|done].
  do 3 (destruct (negb _); [done|]). unfold level_valid. destruct (hash_find _ spec) as [[| | |l| |]|]; try done. by exists l.
Qed.

(** A valid sink crosses as a sink that agrees with it, or not at all. *)
Lemma freeze_populate x : log_sink_spec_valid x = true ->
  if crosses x then exists s, freeze_sink x = Some s /\ sink_agrees x (populate_sink s) else freeze_sink x = None.
Proof.
  intros Hv. destruct (valid_type x Hv) as (spec & t & -> & Ht). destruct (valid_level spec Hv) as [l Hl].
  unfold crosses, freeze_sink. cbn [spec_of]. unfold shared_spec_str at 1. rewrite Ht. destruct (per_thread t); cbn [negb]; [done|].
  eexists. split; [reflexivity|]. split.
  - intros k Hk. rewrite populate_finds by done. cbn [spec_of s_type s_format s_target s_facility s_path s_tmpl s_category].
    repeat (apply elem_of_cons in Hk as [->|Hk]; [reflexivity|]). by apply elem_of_nil in Hk.
  - rewrite populate_level. cbn [s_level spec_of]. by rewrite Hl, level_back.
Qed.

Lemma populate_strings s k : k ∈ sink_keys -> hash_find k (spec_of (populate_sink s)) = IS_STRING <$> shared_spec_str (spec_of (populate_sink s)) k.
Proof.
  intros Hk. cbn [spec_of populate_sink]. unfold shared_spec_str.
  repeat (apply elem_of_cons in Hk as [->|Hk]; [find_entries; first [by destruct (s_type s)|by destruct (s_format s)|by destruct (s_target s)|by destruct (s_facility s)|
    by destruct (s_path s)|by destruct (s_tmpl s)|by destruct (s_category s)]|]). by apply elem_of_nil in Hk.
Qed.

(** The validators look only at the strings, where they are set. *)
Section strings.
Context (spec spec' : list (bytes * zval)).
Hypothesis Hin : forall k, bool_decide (k ∈ sink_keys) = true -> hash_find k spec' = IS_STRING <$> shared_spec_str spec k.

Lemma sink_validate_strings ty : ty <> sink_type_stream -> sink_validate ty spec = true -> sink_validate ty spec' = true.
Proof.
  intros Hne. destruct ty; try done; cbn [sink_validate]; unfold sink_validate_file, sink_validate_syslog; rewrite !Hin by reflexivity; unfold shared_spec_str.
  - destruct (hash_find (lit "path") spec) as [[]|]; done.
  - destruct (hash_find (lit "target") spec) as [[]|]; try done. cbn [fmap option_fmap option_map]. destruct (syslog_target_mode _); [|done].
    destruct (hash_find (lit "facility") spec) as [[]|]; done.
Qed.

Lemma format_strings : format_valid spec = true -> format_valid spec' = true.
Proof.
  unfold format_valid, formatter_validate_template. rewrite !Hin by reflexivity. unfold shared_spec_str.
  destruct (hash_find (lit "format") spec) as [[]|]; try done. cbn [fmap option_fmap option_map]. destruct (http_log_formatter_by_name s) as [[]|]; try done.
  destruct (hash_find (lit "template") spec) as [[]|]; done.
Qed.

Lemma category_strings : category_valid spec = true -> category_valid spec' = true.
Proof.
  unfold category_valid. rewrite Hin by reflexivity. unfold shared_spec_str. by destruct (hash_find (lit "category") spec) as [[]|].
Qed.
End strings.

Lemma stream_only t : http_log_sink_type_by_name t = Some sink_type_stream -> per_thread t = true.
Proof.
  unfold http_log_sink_type_by_name. cbn [by_name sink_types]. destruct (eqb_bytes (lit "stream") t) eqn:E.
  - apply eqb_bytes_eq in E as <-. done.
  - repeat (destruct (eqb_bytes _ t); [done|]). done.
Qed.

Lemma valid_crosses x s : log_sink_spec_valid x = true -> crosses x = true -> sink_agrees x (populate_sink s) -> log_sink_spec_valid (populate_sink s) = true.
Proof.
  intros Hv Hc [Ha Hl]. destruct (valid_type x Hv) as (spec & t & -> & Ht). cbn [spec_of] in *.
  assert (Hin : forall k, bool_decide (k ∈ sink_keys) = true -> hash_find k (spec_of (populate_sink s)) = IS_STRING <$> shared_spec_str spec k)
    by (intros k Hb%bool_decide_eq_true; by rewrite populate_strings, Ha).
  unfold crosses, shared_spec_str in Hc. cbn [spec_of] in Hc. rewrite Ht in Hc. unfold log_sink_spec_valid in Hv. rewrite Ht in Hv.
  destruct (populate_sink s) as [| | | |spec'|] eqn:Es; try (by unfold populate_sink in Es). cbn [spec_of] in *. unfold log_sink_spec_valid.
  rewrite Hin by reflexivity. unfold shared_spec_str. rewrite Ht. cbn [fmap option_fmap option_map].
  destruct (http_log_sink_type_by_name t) as [ty|] eqn:Ety; [|done].
  destruct (sink_validate ty spec) eqn:E1; [|done]. destruct (format_valid spec) eqn:E2; [|done]. destruct (category_valid spec) eqn:E3; [|done]. cbn [negb] in Hv.
  rewrite (sink_validate_strings spec _ Hin ty), (format_strings spec _ Hin), (category_strings spec _ Hin); try done.
  - cbn [negb]. unfold level_valid in *. by rewrite Hl.
  - intros ->. apply stream_only in Ety. by rewrite Ety in Hc.
Qed.

Lemma mime_adds_id l acc : NoDup (acc ++ l) -> fold_left (fun l s => mime_add s l) l acc = acc ++ l.
Proof.
  revert acc. induction l as [|s l IH]; intros acc Hn; cbn [fold_left]; [by rewrite app_nil_r|]. unfold mime_add at 2.
  destruct (decide (s ∈ acc)) as [Hin|_].
  - exfalso. apply NoDup_app in Hn as (_ & Hd & _). apply (Hd s Hin). by left.
  - rewrite IH; rewrite <- app_assoc; done.
Qed.

(** What a worker's object has in common with the one that was frozen. *)
Record agrees (c d : http_server_config_t) : Prop := {
  ag_listeners : listeners d = listeners c;
  ag_cert : tls_cert_path d = tls_cert_path c;
  ag_key : tls_key_path d = tls_key_path c;
  ag_docroot : http3_hq_docroot d = http3_hq_docroot c;
  ag_ints : forall m, stays_int m = false -> ints d m = ints c m;
  ag_flags : forall m, stays_flag m = false -> flags d m = flags c m;
  ag_mime : compression_mime_types d = compression_mime_types c;
  ag_sinks : Forall2 sink_agrees (filter (fun x => crosses x = true) (default [] (log_sinks c))) (default [] (log_sinks d));
  ag_valid : Forall (fun x => log_sink_spec_valid x = true) (default [] (log_sinks d));
}.

Lemma sinks_cross l : Forall (fun x => log_sink_spec_valid x = true) l ->
  Forall2 sink_agrees (filter (fun x => crosses x = true) l) (map populate_sink (omap freeze_sink l)) /\
  Forall (fun x => log_sink_spec_valid x = true) (map populate_sink (omap freeze_sink l)).
Proof.
  induction 1 as [|x l Hx _ [IHa IHv]]; [split; constructor|]. pose proof (freeze_populate x Hx) as H. rewrite filter_cons. cbn [omap list_omap].
  destruct (crosses x) eqn:E.
  - destruct H as (s & -> & Ha). rewrite decide_True by done. cbn [map]. split; constructor; try done. by eapply valid_crosses.
  - rewrite H, decide_False by done. done.
Qed.

Lemma load_agrees c : well_formed c -> agrees c (http_server_config_populate_from_shared http_server_config_create (http_server_shared_config_freeze c)).
Proof.
  intros Hw. pose proof (wf_sinks c Hw) as Hs. destruct (wf_mime c Hw) as [Hn _]. constructor; cbn -[copy fold_left omap freeze_sink populate_sink sinks_ok].
  - by destruct (listeners c).
  - by destruct (tls_cert_path c).
  - by destruct (tls_key_path c).
  - by destruct (http3_hq_docroot c).
  - intros m Hm. pose proof (crosses_int m) as H. rewrite Hm in H. destruct H. by rewrite !copy_in.
  - intros m Hm. pose proof (crosses_flag m) as H. rewrite Hm in H. destruct H. by rewrite !copy_in.
  - by apply (mime_adds_id _ []).
  - destruct (log_sinks c) as [l|]; [|constructor]. destruct (sinks_cross l) as [Ha _]; [by apply Hs|]. cbn [default]. by destruct (omap freeze_sink l).
  - destruct (log_sinks c) as [l|]; [|constructor]. destruct (sinks_cross l) as [_ Hv]; [by apply Hs|]. by destruct (omap freeze_sink l).
Qed.


Definition sample_world : world := {| snaps := ∅; configs := {[ 0%nat := sample_config ]}; shells := ∅ |}.


(** a snapshot taken before the lock goes stale. A configuration that is transferred before it is
    locked is frozen by the transfer; the setters stay allowed, and the lock keeps the old snapshot. So the
    workers of a server whose configuration had gone through a thread channel before run with the
    values of that moment: here the server has eight workers and a body limit of 4096 bytes, and the worker's object one worker
    and the default limit. *)
Theorem config_stale_snapshot :
  (w ← from_option id None
         (run_ops (fun _ => Readable)
            [New 0; Call 0 (M___construct None 8080); Transfer 0 0; Call 0 (M_int I_setWorkers 8); Call 0 (M_int I_setMaxBodySize 4096);
             Lock 0; Transfer 0 1; Load 1 1] empty_world);
   c ← configs w !! 0%nat; d ← configs w !! 1%nat;
   Some (isLocked c, (getWorkers c, getMaxBodySize c), (getWorkers d, getMaxBodySize d)))
  = Some (true, (8, 4096), (1, 10485760)).
Proof. vm_compute. reflexivity. Qed.

(** ** The reference count of the snapshots *)

Definition refs_of (c : http_server_config_t) : list nat := match frozen c with Some p => [p] | None => [] end.

(** The pointers to snapshots: the objects' and the shells'. *)
Definition held (w : world) : list nat := Ledger.pool (refs_of <$> configs w) ++ Ledger.pool ((fun p => [p]) <$> shells w).

Definition counted (w : world) : Prop := Ledger.ledger fst (snaps w) (held w).

Lemma pecalloc_new h : h !! pecalloc h = None.
Proof.
  destruct (h !! pecalloc h) as [x|] eqn:E; [|done]. exfalso. unfold pecalloc in E at 1.
  assert (In (S (list_max (map fst (map_to_list h)))) (map fst (map_to_list h))) as Hin.
  { apply in_map_iff. exists (S (list_max (map fst (map_to_list h))), x). split; [done|]. apply list_elem_of_In. by apply elem_of_map_to_list. }
  pose proof (proj1 (list_max_le (map fst (map_to_list h)) _) (le_n _)) as Hm. rewrite List.Forall_forall in Hm. specialize (Hm _ Hin). lia.
Qed.

Lemma checked_frozen c body : frozen (left body) = frozen c -> frozen (left (config_check_locked c body)) = frozen c.
Proof. unfold config_check_locked. by destruct (is_locked c). Qed.

Lemma assign_frozen bad m z c : frozen (left (assign_int bad m z c)) = frozen c.
Proof. apply checked_frozen. by destruct bad. Qed.

Lemma flag_frozen s b c : frozen (left (flag_method s b c)) = frozen c.
Proof. destruct s; apply checked_frozen; by destruct b. Qed.

Lemma frozen_kept fs m c : frozen (left (invoke fs m c)) = frozen c.
Proof.
  destruct m as [h p|h p s|h p s|h p s|h p|path|s n|s b|r b|paths exts d h|f|path|path|path|types|level|x|sinks]; cbn [invoke].
  - unfold __construct. destruct h; [|done]. by destruct (bad_port p).
  - apply checked_frozen. by destruct (bad_port p).
  - apply checked_frozen. by destruct (bad_port p).
  - apply checked_frozen. by destruct (bad_port p).
  - apply checked_frozen. by destruct (bad_port p).
  - by apply checked_frozen.
  - destruct s; apply assign_frozen.
  - apply flag_frozen.
  - apply checked_frozen. by destruct (_ || _ || _ || _).
  - apply checked_frozen. destruct paths; [done|]. destruct (negb _); [done|]. by destruct (_ || _ || _ || _).
  - by apply checked_frozen.
  - apply checked_frozen. by destruct (negb _).
  - apply checked_frozen. by destruct (negb _).
  - by apply checked_frozen.
  - apply checked_frozen. by destruct (stage_mime_types types []).
  - by apply checked_frozen.
  - apply checked_frozen. by destruct x as [| |id []| | |].
  - apply checked_frozen. destruct (_ <? _)%nat; [done|]. by destruct (negb _).
Qed.

(** The objects' part when one object is new, replaced or gone. *)
Lemma held_new w i c h : configs w !! i = None -> held (with_config i c h w) ≡ₚ refs_of c ++ held w.
Proof.
  intros Hi. unfold held. cbn [configs shells with_config]. rewrite fmap_insert, Ledger.pool_insert_new by (by rewrite lookup_fmap, Hi). by rewrite app_assoc.
Qed.

Lemma held_replace w i c c' h : configs w !! i = Some c -> exists r, held w ≡ₚ refs_of c ++ r /\ held (with_config i c' h w) ≡ₚ refs_of c' ++ r.
Proof.
  intros Hi. unfold held. cbn [configs shells with_config]. rewrite fmap_insert.
  destruct (Ledger.pool_insert (refs_of <$> configs w) i (refs_of c) (refs_of c')) as (r & H1 & H2); [by rewrite lookup_fmap, Hi|].
  exists (r ++ Ledger.pool ((fun p => [p]) <$> shells w)). rewrite H1, H2, <- !app_assoc. done.
Qed.

Lemma held_same w i c c' h : configs w !! i = Some c -> frozen c' = frozen c -> held (with_config i c' h w) ≡ₚ held w.
Proof.
  intros Hi Hf. destruct (held_replace w i c c' h Hi) as (r & H1 & H2). rewrite H1, H2. unfold refs_of. by rewrite Hf.
Qed.

(** Freezing makes one snapshot with one holder, or nothing. *)
Lemma freeze_counted w i c c' h : counted w -> configs w !! i = Some c -> freeze_into c (snaps w) = (c', h) ->
  counted (with_config i c' h w) /\ exists p, frozen c' = Some p /\ p ∈ held (with_config i c' h w).
Proof.
  intros Hw Hi. unfold freeze_into. destruct (frozen c) as [p|] eqn:Hf; intros [= <- <-].
  - unfold counted. rewrite (held_same w i c c) by done. split; [done|]. exists p. split; [done|].
    destruct (held_replace w i c c (snaps w) Hi) as (r & _ & ->). unfold refs_of. rewrite Hf. by left.
  - destruct (held_replace w i c (with_frozen (Some (pecalloc (snaps w))) c) (<[pecalloc (snaps w) := (1, http_server_shared_config_freeze c)]> (snaps w)) Hi)
      as (r & H1 & H2).
    unfold counted in *. rewrite H2. rewrite H1 in Hw. unfold refs_of in *. rewrite Hf in Hw. cbn [frozen with_frozen app] in *. split.
    + cbn [snaps with_config]. apply Ledger.ledger_new; [done|apply pecalloc_new|done].
    + exists (pecalloc (snaps w)). split; [done|]. rewrite H2. by left.
Qed.

Lemma addref_counted m l p : Ledger.ledger fst m l -> p ∈ l -> exists m', http_server_shared_config_addref p m = Some m' /\ Ledger.ledger fst m' (p :: l).
Proof.
  intros H Hp. destruct (Ledger.ledger_live _ _ _ _ H Hp) as ([n s] & Hm & _). unfold http_server_shared_config_addref. rewrite Hm. cbn.
  eexists. split; [reflexivity|]. by eapply Ledger.ledger_ref.
Qed.

Lemma release_counted m l p : Ledger.ledger fst m (p :: l) -> exists m', http_server_shared_config_release p m = Some m' /\ Ledger.ledger fst m' l.
Proof.
  intros H. destruct (Ledger.ledger_live _ _ _ p H) as ([n s] & Hm & _ & Hn); [by left|]. unfold http_server_shared_config_release. rewrite Hm. cbn in *.
  eexists. split; [reflexivity|]. destruct (1 <? n) eqn:E; b2p; [eapply Ledger.ledger_dec|eapply Ledger.ledger_free]; try done; cbn; lia.
Qed.

Lemma exists_in_true {A} (m : gmap nat A) i : exists_in m i = true -> exists a, m !! i = Some a.
Proof. unfold exists_in. destruct (m !! i) as [a|]; [by exists a|done]. Qed.

Lemma exists_in_false {A} (m : gmap nat A) i : negb (exists_in m i) = true -> m !! i = None.
Proof. unfold exists_in. by destruct (m !! i). Qed.

Lemma transfer_counted w i j : counted w -> exists_in (configs w) i = true -> shells w !! j = None -> exists w', transfer_obj i j w = Some w' /\ counted w'.
Proof.
  intros Hw [c Hi]%exists_in_true Hj. unfold transfer_obj. rewrite Hi. cbn [mbind option_bind].
  destruct (freeze_into c (snaps w)) as [c' h] eqn:F. destruct (freeze_counted _ _ _ _ _ Hw Hi F) as (Hc & p & Hp & Hin). rewrite Hp. cbn [mbind option_bind].
  destruct (addref_counted h _ _ Hc Hin) as (m' & -> & Hm). cbn. eexists. split; [reflexivity|]. unfold counted. cbn [snaps].
  eapply Ledger.ledger_perm; [|exact Hm]. unfold held. cbn [configs shells with_config]. rewrite fmap_insert with (m := shells w).
  rewrite Ledger.pool_insert_new by (by rewrite lookup_fmap, Hj). cbn [app]. apply Permutation_middle.
Qed.

Lemma load_counted w j i : counted w -> exists_in (shells w) j = true -> configs w !! i = None -> exists w', load_obj j i w = Some w' /\ counted w'.
Proof.
  intros Hw [p Hj]%exists_in_true Hi. unfold load_obj. rewrite Hj. cbn [mbind option_bind].
  assert (p ∈ held w) as Hin.
  { unfold held. apply elem_of_app. right. apply Ledger.elem_of_pool. exists j, [p]. rewrite lookup_fmap, Hj. split; [done|by left]. }
  destruct (Ledger.ledger_live _ _ _ _ Hw Hin) as ([n s] & Hm & _). rewrite Hm. cbn [mbind option_bind].
  destruct (addref_counted _ _ _ Hw Hin) as (m' & -> & Hc). cbn [mbind option_bind]. eexists. split; [reflexivity|].
  unfold counted. rewrite held_new by done. exact Hc.
Qed.

Lemma free_counted w i : counted w -> exists_in (configs w) i = true -> exists w', http_server_config_free i w = Some w' /\ counted w'.
Proof.
  intros Hw [c Hi]%exists_in_true. unfold http_server_config_free. rewrite Hi. cbn [mbind option_bind].
  assert (held w ≡ₚ refs_of c ++ held {| snaps := snaps w; configs := delete i (configs w); shells := shells w |}) as Hh.
  { unfold held. cbn [configs shells]. rewrite fmap_delete, (Ledger.pool_delete _ i (refs_of c)) by (by rewrite lookup_fmap, Hi). by rewrite app_assoc. }
  unfold counted in Hw. rewrite Hh in Hw. unfold refs_of in Hw. destruct (frozen c) as [p|].
  - destruct (release_counted _ _ _ Hw) as (m' & -> & Hm). cbn. eexists. split; [reflexivity|]. exact Hm.
  - cbn. eexists. split; [reflexivity|]. exact Hw.
Qed.

Lemma perform_counted fs o w : counted w -> legal w o = true -> exists w', perform fs o w = Some w' /\ counted w'.
Proof.
  intros Hw. destruct o as [i|i m|i|i|i j|j i]; cbn [legal perform].
  - intros Hi%exists_in_false. eexists. split; [reflexivity|]. unfold counted. rewrite held_new by done. exact Hw.
  - intros [c Hi]%exists_in_true. rewrite Hi. eexists. split; [reflexivity|]. unfold counted. rewrite (held_same w i c) by (done || apply frozen_kept). exact Hw.
  - intros [c Hi]%exists_in_true. unfold http_server_config_lock. rewrite Hi. cbn [mbind option_bind]. destruct (is_locked c); [by eexists|].
    destruct (freeze_into c (snaps w)) as [c' h] eqn:F. destruct (freeze_counted _ _ _ _ _ Hw Hi F) as (Hc & _). eexists. split; [reflexivity|].
    destruct (held_replace w i c c' h Hi) as (r & _ & H1), (held_replace w i c (with_is_locked true c') h Hi) as (r' & H2 & H3).
    unfold counted in *. cbn [snaps with_config] in *. eapply Ledger.ledger_perm; [|exact Hc]. unfold held. cbn [configs shells with_config].
    by rewrite !fmap_insert.
  - apply free_counted, Hw.
  - intros [Hi Hj%exists_in_false]%andb_true_iff. by apply transfer_counted.
  - intros [Hj Hi%exists_in_false]%andb_true_iff. by apply load_counted.
Qed.

Lemma run_counted fs l w r : counted w -> run_ops fs l w = Some r -> exists w', r = Some w' /\ counted w'.
Proof.
  revert w. induction l as [|o l IH]; intros w Hw; cbn [run_ops]; [intros [= <-]; by eexists|].
  destruct (legal w o) eqn:Hl; [|done]. destruct (perform_counted fs o w Hw Hl) as (w' & -> & Hw'). by apply IH.
Qed.

Lemma counted_empty : counted empty_world.
Proof. intros i. cbn. rewrite lookup_empty. unfold held. cbn. by rewrite !fmap_empty, Ledger.pool_empty. Qed.

(** a snapshot lives as long as it is used. Let any threads create configurations, call their
    methods, lock, transfer, load and free them in any order: no operation touches a freed snapshot, every object
    that points to a snapshot and every copy in transit finds it alive, its count is the number of
    those pointers, and a snapshot nobody points to has been freed. *)
Theorem config_snapshot_counted fs l r :
  run_ops fs l empty_world = Some r ->
  exists w, r = Some w /\
    (forall i c p, configs w !! i = Some c -> frozen c = Some p -> p ∈ held w) /\
    (forall j p, shells w !! j = Some p -> p ∈ held w) /\
    (forall p, match snaps w !! p with
               | Some (n, _) => 0 < n /\ n = Ledger.cnt p (held w)
               | None => p ∉ held w
               end).
Proof.
  intros H. destruct (run_counted _ _ _ _ counted_empty H) as (w & -> & Hw). exists w. split; [done|]. split; [|split].
  - intros i c p Hi Hf. unfold held. apply elem_of_app. left. apply Ledger.elem_of_pool. exists i, (refs_of c). rewrite lookup_fmap, Hi. split; [done|].
    unfold refs_of. rewrite Hf. by left.
  - intros j p Hj. unfold held. apply elem_of_app. right. apply Ledger.elem_of_pool. exists j, [p]. rewrite lookup_fmap, Hj. split; [done|by left].
  - intros p. specialize (Hw p). destruct (snaps w !! p) as [[n s]|]; [cbn in Hw; lia|]. by apply Ledger.cnt_zero.
Qed.

Lemma config_snapshot_counted_witness :
  exists r w, run_ops (fun _ => Readable) [New 0; Lock 0; Transfer 0 0; Load 0 1; Free 0; Transfer 1 1; Free 1] empty_world = Some r /\ r = Some w /\
    (forall i c p, configs w !! i = Some c -> frozen c = Some p -> p ∈ held w).
Proof.
  destruct (run_ops (fun _ => Readable) [New 0; Lock 0; Transfer 0 0; Load 0 1; Free 0; Transfer 1 1; Free 1] empty_world) as [r|] eqn:E.
  - destruct (config_snapshot_counted _ _ _ E) as (w & Hr & Hc & _). exists r, w. by split_and!.
  - exfalso. assert (match run_ops (fun _ => Readable) [New 0; Lock 0; Transfer 0 0; Load 0 1; Free 0; Transfer 1 1; Free 1] empty_world with
      Some _ => true | None => false end = true) as H by (vm_compute; reflexivity). by rewrite E in H.
Defined.

End ServerConfigProps.
