(* ===== verification/HeaderTools.v ===== *)
(** * Header helpers

    Models src/src/http_rfc5987.c (extended parameter values), src/src/http_param_parse.c
    (the parameter scanner of header fields), the W3C trace context parser of
    src/src/log/trace_context.c and the connection-id codec of
    src/src/http3/http3_steer.c. *)

From S2P Require Import Prelude.

Module HeaderTools.

(** ** Extended values *)

Definition hex_upper (n : Z) : Z := if n <? 10 then 48 + n else 55 + n.

Definition is_unreserved_or_attr (c : Z) : bool :=
  is_upper c || is_lower c || is_digit c || (c =? DASH) || (c =? DOT) || (c =? 95) || (c =? 126).

Fixpoint http_rfc5987_encode (src : bytes) : bytes :=
  match src with
  | [] => []
  | c :: r =>
      (if is_unreserved_or_attr c then [c]
       else [PERCENT; hex_upper (Z.shiftr c 4); hex_upper (Z.land c 15)]) ++ http_rfc5987_encode r
  end.

Definition hex_digit (c : Z) : Z :=
  if is_digit c then c - 48
  else if (97 <=? c) && (c <=? 102) then c - 97 + 10
  else if (65 <=? c) && (c <=? 70) then c - 65 + 10
  else -1.

Fixpoint http_rfc5987_decode (src : bytes) : bytes :=
  match src with
  | [] => []
  | c :: r =>
      match r with
      | h :: l :: r' =>
          if (c =? PERCENT) && (0 <=? hex_digit h) && (0 <=? hex_digit l)
          then Z.lor (Z.shiftl (hex_digit h) 4) (hex_digit l) :: http_rfc5987_decode r'
          else c :: http_rfc5987_decode r
      | _ => c :: http_rfc5987_decode r
      end
  end.

(** ** Parameters of a header field

    The scanner walks up to [end], or to the terminating NUL when [end] is [NULL]; the
    cursor here is what is left up to there. *)

Record http_param_t := { name : bytes; value : option bytes; quoted : bool }.

Definition is_ws (c : Z) : bool := (c =? SP) || (c =? HTAB).

(** The parameter and the cursor after it; [None] is the result [false]. *)
Definition http_header_param_next (cursor : bytes) : option (http_param_t * bytes) :=
  let p := drop_while (fun c => (c =? SEMI) || is_ws c) cursor in
  match p with
  | [] => None
  | _ =>
      let in_name c := negb ((c =? EQUALS) || (c =? SEMI) || is_ws c) in
      let nm := take_while in_name p in
      match drop_while in_name p with
      | c :: p =>
          if c =? EQUALS then
            let '(v, q, p) :=
              match p with
              | d :: p' =>
                  if d =? DQUOTE then
                    (take_while (isnt DQUOTE) p', true,
                     match drop_while (isnt DQUOTE) p' with _ :: r => r | [] => [] end)
                  else
                    let in_value c := negb ((c =? SEMI) || is_ws c) in
                    (take_while in_value p, false, drop_while in_value p)
              | [] => ([], false, [])
              end in
            Some ({| name := nm; value := Some v; quoted := q |}, drop_while (isnt SEMI) p)
          else if (length nm =? 0)%nat then None
          else Some ({| name := nm; value := None; quoted := false |}, drop_while (isnt SEMI) (c :: p))
      | [] => if (length nm =? 0)%nat then None
              else Some ({| name := nm; value := None; quoted := false |}, [])
      end
  end.

(** [while (http_header_param_next(&p, NULL, &param)) ...]; every turn takes a byte. *)
Fixpoint params (fuel : nat) (cursor : bytes) : list http_param_t :=
  match fuel with
  | O => []
  | S f => match http_header_param_next cursor with
           | None => []
           | Some (x, p) => x :: params f p
           end
  end.

Definition all_params (cursor : bytes) : list http_param_t := params (S (length cursor)) cursor.

(** ** Trace context *)

Definition hex_nibble (c : Z) : Z :=
  if is_digit c then c - 48 else if (97 <=? c) && (c <=? 102) then c - 97 + 10 else -1.

Fixpoint decode_hex (src : bytes) : option bytes :=
  match src with
  | [] => Some []
  | [_] => None
  | h :: l :: r =>
      if (hex_nibble h <? 0) || (hex_nibble l <? 0) then None
      else d ← decode_hex r; Some (u8 (Z.lor (Z.shiftl (hex_nibble h) 4) (hex_nibble l)) :: d)
  end.

Definition is_all_zero (p : bytes) : bool := forallb (Z.eqb 0) p.

Record trace_context := { trace_id : bytes; span_id : bytes; trace_flags : Z }.

Definition sub (off len : nat) (s : bytes) : bytes := take len (drop off s).

Definition at_ (s : bytes) (i : nat) : Z := nth i s 0.

Definition trace_parse_traceparent (header : option bytes) : option trace_context :=
  h ← header;
  if negb (length h =? 55)%nat then None
  else if negb (at_ h 2 =? DASH) || negb (at_ h 35 =? DASH) || negb (at_ h 52 =? DASH) then None
  else
    version ← decode_hex (sub 0 2 h);
    if negb (eqb_bytes version [0]) then None
    else
      trace ← decode_hex (sub 3 32 h);
      span ← decode_hex (sub 36 16 h);
      flags ← decode_hex (sub 53 2 h);
      if is_all_zero trace || is_all_zero span then None
      else Some {| trace_id := trace; span_id := span; trace_flags := hd 0 flags |}.

Definition hex_lower (n : Z) : Z := if n <? 10 then 48 + n else 87 + n.

Fixpoint trace_hex_encode (src : bytes) : bytes :=
  match src with
  | [] => []
  | c :: r => hex_lower (Z.land (Z.shiftr c 4) 15) :: hex_lower (Z.land c 15) :: trace_hex_encode r
  end.

(** ** Connection ids

    [block] is AES-128-ECB under the process key, [None] when OpenSSL fails; [nonce] is
    what [http3_fill_random] writes. *)

Section steer.
Variable block : bytes -> option bytes.

Definition HTTP3_STEER_CID_LEN : nat := 8.

Definition http3_steer_mask (nonce : bytes) : option Z :=
  cipher ← block (take 7 nonce ++ replicate 9 0); Some (hd 0 cipher).

Definition http3_steer_encode (ready : bool) (nonce : option bytes) (reactor_id : Z) : option bytes :=
  if negb ready then None
  else n ← nonce; m ← http3_steer_mask n; Some (Z.lxor (u8 reactor_id) m :: n).

Definition http3_steer_decode (cid : option bytes) : Z :=
  match cid with
  | None => -1
  | Some [] => -1
  | Some (c :: n) =>
      if (length (c :: n) <? HTTP3_STEER_CID_LEN)%nat then -1
      else match http3_steer_mask n with None => -1 | Some m => u8 (Z.lxor c m) end
  end.
End steer.

(** * Properties *)

Lemma hex_digit_upper n : 0 <= n < 16 -> hex_digit (hex_upper n) = n.
Proof. intros H. unfold hex_upper. case_if; b2p; unfold hex_digit, is_digit; repeat case_if; b2p; lia. Qed.

Lemma byte_nibbles c : is_byte c ->
  0 <= Z.shiftr c 4 < 16 /\ 0 <= Z.land c 15 < 16 /\ Z.lor (Z.shiftl (Z.shiftr c 4) 4) (Z.land c 15) = c.
Proof.
  intros H. unfold is_byte in H. change 15 with (Z.ones 4). rewrite (Z.land_ones c 4) by lia.
  assert (Z.lor (Z.shiftl (Z.shiftr c 4) 4) (c mod 2 ^ 4) = c) as E.
  { rewrite <- Z.land_ones by lia. apply Z.bits_inj'. intros i Hi.
    rewrite Z.lor_spec, Z.land_spec, Z.shiftl_spec by lia.
    destruct (Z.ltb_spec i 4).
    - rewrite Z.ones_spec_low, (Z.testbit_neg_r _ (i - 4)) by lia. by rewrite andb_true_r.
    - rewrite Z.ones_spec_high, Z.shiftr_spec, andb_false_r, orb_false_r by lia. f_equal. lia. }
  rewrite !Z.shiftr_div_pow2 in * by lia. split_and!; [dlia..|done].
Qed.

Lemma unreserved_not_percent c : is_unreserved_or_attr c = true -> c <> PERCENT.
Proof. by intros H ->. Qed.

Lemma decode_plain c r : c <> PERCENT -> http_rfc5987_decode (c :: r) = c :: http_rfc5987_decode r.
Proof. intros H. apply Z.eqb_neq in H. simpl. rewrite H. by destruct r as [|h [|l r]]. Qed.

Lemma decode_escaped c r : is_byte c ->
  http_rfc5987_decode (PERCENT :: hex_upper (Z.shiftr c 4) :: hex_upper (Z.land c 15) :: r)
  = c :: http_rfc5987_decode r.
Proof.
  intros H. destruct (byte_nibbles c H) as (Hh & Hl & E). cbn [http_rfc5987_decode].
  rewrite !hex_digit_upper by done. rewrite E.
  destruct (Z.leb_spec 0 (Z.shiftr c 4)); [|lia]. by destruct (Z.leb_spec 0 (Z.land c 15)); [|lia].
Qed.

Lemma rfc5987_decode_encode s r : Forall is_byte s ->
  http_rfc5987_decode (http_rfc5987_encode s ++ r) = s ++ http_rfc5987_decode r.
Proof.
  induction 1 as [|c s Hc _ IH]; [done|]. cbn [http_rfc5987_encode app]. rewrite <- app_assoc.
  case_if; cbn [app].
  - rewrite decode_plain by (by apply unreserved_not_percent). by rewrite IH.
  - rewrite decode_escaped by done. by rewrite IH.
Qed.

(** What the encoder writes can stand in a header field as it is. *)
Definition attr_char (c : Z) : Prop := is_unreserved_or_attr c = true \/ c = PERCENT.

Lemma hex_upper_attr n : 0 <= n < 16 -> attr_char (hex_upper n).
Proof.
  intros H. left. unfold hex_upper, is_unreserved_or_attr, is_upper, is_digit.
  case_if; b2p; repeat (rewrite orb_true_iff || rewrite andb_true_iff || rewrite Z.leb_le); lia.
Qed.

Lemma rfc5987_encode_attr s : Forall is_byte s -> Forall attr_char (http_rfc5987_encode s).
Proof.
  induction 1 as [|c s Hc _ IH]; [done|]. cbn [http_rfc5987_encode]. apply Forall_app. split; [|done].
  destruct (byte_nibbles c Hc) as (Hh & Hl & _). case_if.
  - apply Forall_singleton. by left.
  - rewrite !Forall_cons. split_and!; [by right | by apply hex_upper_attr.. | done].
Qed.

(** [name="value"] parameters, each after a semicolon, are scanned back. *)
Definition name_char (c : Z) : Prop := c <> EQUALS /\ c <> SEMI /\ c <> SP /\ c <> HTAB.

Definition render_param (p : bytes * bytes) : bytes :=
  [SEMI; SP] ++ fst p ++ [EQUALS; DQUOTE] ++ snd p ++ [DQUOTE].

Definition param_ok (p : bytes * bytes) : Prop :=
  fst p <> [] /\ Forall name_char (fst p) /\ Forall (fun c => c <> DQUOTE) (snd p).

(** The text after a parameter: nothing, or the next one. *)
Definition at_semi (s : bytes) : Prop := match s with [] => True | c :: _ => c = SEMI end.

Lemma name_char_in_name c : name_char c -> negb ((c =? EQUALS) || (c =? SEMI) || is_ws c) = true.
Proof.
  intros (H1 & H2 & H3 & H4). unfold is_ws. rewrite negb_true_iff, !orb_false_iff, !Z.eqb_neq. done.
Qed.

Lemma name_char_not_skipped c : name_char c -> (c =? SEMI) || is_ws c = false.
Proof. intros (H1 & H2 & H3 & H4). unfold is_ws. rewrite !orb_false_iff, !Z.eqb_neq. done. Qed.

Lemma drop_to_semi s : at_semi s -> drop_while (isnt SEMI) s = s.
Proof. destruct s as [|c s]; simpl; [done|]. by intros ->. Qed.

Lemma param_next_render p rest : param_ok p -> at_semi rest ->
  http_header_param_next (render_param p ++ rest)
  = Some ({| name := fst p; value := Some (snd p); quoted := true |}, rest).
Proof.
  destruct p as [n v]. intros (Hn & Hc & Hv) Hr. cbn [fst snd] in *.
  unfold http_header_param_next, render_param. cbn [fst snd app]. repeat (rewrite <- app_assoc; cbn [app]).
  cbn [drop_while Z.eqb Pos.eqb orb is_ws].
  destruct n as [|c n]; [done|]. rewrite Forall_cons in Hc. destruct Hc as [Hc Hcs]. cbn [app].
  rewrite drop_while_stop by (by apply name_char_not_skipped).
  change (c :: n ++ EQUALS :: DQUOTE :: v ++ DQUOTE :: rest) with ((c :: n) ++ EQUALS :: DQUOTE :: v ++ DQUOTE :: rest).
  assert (Forall (fun x => negb ((x =? EQUALS) || (x =? SEMI) || is_ws x) = true) (c :: n)) as Hall.
  { constructor; [by apply name_char_in_name|]. eapply Forall_impl; [exact Hcs|]. apply name_char_in_name. }
  rewrite take_while_app, drop_while_app by done. cbn [Z.eqb Pos.eqb].
  assert (Forall (fun x => isnt DQUOTE x = true) v) as Hq.
  { eapply Forall_impl; [exact Hv|]. intros x Hx. unfold isnt. by apply negb_true_iff, Z.eqb_neq. }
  rewrite take_while_app, drop_while_app by done. by rewrite drop_to_semi.
Qed.

Lemma at_semi_render ps : at_semi (concat (map render_param ps)).
Proof. by destruct ps. Qed.

Lemma params_render fuel ps :
  Forall param_ok ps -> (length ps < fuel)%nat ->
  params fuel (concat (map render_param ps))
  = map (fun p => {| name := fst p; value := Some (snd p); quoted := true |}) ps.
Proof.
  intros H. revert fuel. induction H as [|p ps Hp _ IH]; intros [|fuel] Hf; simpl in Hf; try lia; [done|].
  cbn [concat map params]. rewrite param_next_render by (done || apply at_semi_render).
  f_equal. apply IH. lia.
Qed.

Lemma all_params_render ps : Forall param_ok ps ->
  all_params (concat (map render_param ps))
  = map (fun p => {| name := fst p; value := Some (snd p); quoted := true |}) ps.
Proof.
  intros H. apply params_render; [done|]. clear H.
  induction ps as [|p ps IH]; cbn [concat map length] in *; [lia|].
  rewrite length_app. unfold render_param at 1. rewrite !length_app. simpl. lia.
Qed.

(** ** Trace context *)

Lemma hex_nibble_lower n : 0 <= n < 16 -> hex_nibble (hex_lower n) = n.
Proof. intros H. unfold hex_lower. case_if; b2p; unfold hex_nibble, is_digit; repeat case_if; b2p; lia. Qed.

Lemma decode_hex_encode s : Forall is_byte s -> decode_hex (trace_hex_encode s) = Some s.
Proof.
  induction 1 as [|c s Hc _ IH]; [done|]. cbn [trace_hex_encode decode_hex].
  destruct (byte_nibbles c Hc) as (Hh & Hl & E).
  assert (Z.land (Z.shiftr c 4) 15 = Z.shiftr c 4) as E4.
  { change 15 with (Z.ones 4). rewrite Z.land_ones by lia. apply Z.mod_small. lia. }
  rewrite E4, !hex_nibble_lower, IH, E by done.
  destruct (Z.ltb_spec (Z.shiftr c 4) 0); [lia|]. destruct (Z.ltb_spec (Z.land c 15) 0); [lia|].
  cbn [orb mbind option_bind]. unfold u8. by rewrite Z.mod_small by (unfold is_byte in Hc; lia).
Qed.

Lemma trace_hex_length s : length (trace_hex_encode s) = (2 * length s)%nat.
Proof. induction s as [|c s IH]; simpl; lia. Qed.

(** The header a tracer sends for a context. *)
Definition render_traceparent (t : trace_context) : bytes :=
  lit "00-" ++ trace_hex_encode (trace_id t) ++ [DASH] ++ trace_hex_encode (span_id t) ++ [DASH]
    ++ trace_hex_encode [trace_flags t].

Definition trace_ok (t : trace_context) : Prop :=
  length (trace_id t) = 16%nat /\ length (span_id t) = 8%nat /\
  Forall is_byte (trace_id t) /\ Forall is_byte (span_id t) /\ is_byte (trace_flags t) /\
  is_all_zero (trace_id t) = false /\ is_all_zero (span_id t) = false.

Lemma sub_app (a b c : bytes) off len : length a = off -> length b = len -> sub off len (a ++ b ++ c) = b.
Proof. intros <- <-. unfold sub. by rewrite drop_app_length, take_app_length. Qed.

Lemma at_app (a b : bytes) c i : length a = i -> at_ (a ++ c :: b) i = c.
Proof. intros <-. unfold at_. by rewrite app_nth2, Nat.sub_diag by lia. Qed.

(** A [traceparent] rendered from a valid context is read back. *)
Theorem traceparent_roundtrip (t : trace_context) :
  trace_ok t -> trace_parse_traceparent (Some (render_traceparent t)) = Some t.
Proof.
  intros (Lt & Ls & Bt & Bs & Bf & Zt & Zs). unfold trace_parse_traceparent, render_traceparent.
  set (HT := trace_hex_encode (trace_id t)). set (HS := trace_hex_encode (span_id t)).
  set (HF := trace_hex_encode [trace_flags t]).
  assert (length HT = 32%nat) as LnT by (unfold HT; rewrite trace_hex_length; lia).
  assert (length HS = 16%nat) as LnS by (unfold HS; rewrite trace_hex_length; lia).
  assert (length HF = 2%nat) as LnF by done.
  set (h := lit "00-" ++ HT ++ [DASH] ++ HS ++ [DASH] ++ HF).
  assert (length h = 55%nat) as Lh by (unfold h; rewrite !length_app; simpl; lia).
  assert (at_ h 35 = DASH) as A1 by (unfold h; rewrite app_assoc; apply at_app; rewrite length_app; simpl; lia).
  assert (at_ h 52 = DASH) as A2.
  { unfold h. rewrite !app_assoc. rewrite <- (app_assoc _ [DASH] HF). apply at_app. rewrite !length_app; simpl; lia. }
  assert (sub 3 32 h = HT) as E1 by (unfold h; apply sub_app; [done|lia]).
  assert (sub 36 16 h = HS) as E2.
  { unfold h. rewrite 2!app_assoc. apply sub_app; [rewrite !length_app; simpl; lia|done]. }
  assert (sub 53 2 h = HF) as E3.
  { unfold h. rewrite <- (app_nil_r HF), !app_assoc, <- (app_assoc _ HF []). apply sub_app; [|done].
    rewrite !length_app. simpl. lia. }
  cbn [mbind option_bind]. rewrite Lh, A1, A2, E1, E2, E3. cbn [Nat.eqb negb].
  replace (at_ h 2) with DASH by done. replace (sub 0 2 h) with (lit "00") by done.
  change (decode_hex (lit "00")) with (Some [0]). cbn -[decode_hex is_all_zero HT HS HF].
  unfold HT, HS, HF. rewrite !decode_hex_encode by (done || by constructor). simpl. rewrite Zt, Zs. by destruct t.
Qed.

Definition demo_trace : trace_context :=
  {| trace_id := replicate 15 0 ++ [171]; span_id := replicate 8 7; trace_flags := 1 |}.

Lemma traceparent_roundtrip_witness :
  trace_parse_traceparent (Some (render_traceparent demo_trace)) = Some demo_trace.
Proof.
  apply traceparent_roundtrip. unfold trace_ok, demo_trace. simpl.
  repeat split; try done; repeat constructor; unfold is_byte; lia.
Defined.

(** ** Connection ids *)

(** A connection id issued by a reactor steers back to it. *)
Theorem steer_roundtrip (block : bytes -> option bytes) (nonce cid : bytes) (reactor_id : Z) :
  (length nonce = HTTP3_STEER_CID_LEN - 1)%nat ->
  0 <= reactor_id < 256 -> http3_steer_encode block true (Some nonce) reactor_id = Some cid ->
  http3_steer_decode block (Some cid) = reactor_id.
Proof.
  intros Hl Hr. unfold http3_steer_encode. cbn [negb mbind option_bind].
  destruct (http3_steer_mask block nonce) as [m|] eqn:E; [|done]. intros [= <-].
  unfold http3_steer_decode. replace (length _ <? _)%nat with false by (symmetry; apply Nat.ltb_ge; cbn [length]; rewrite Hl; done).
  rewrite E, Z.lxor_assoc, Z.lxor_nilpotent, Z.lxor_0_r. unfold u8. by rewrite Z.mod_mod, Z.mod_small by lia.
Qed.

Definition demo_block (b : bytes) : option bytes := Some (map (fun x => u8 (x + 90)) b).

Lemma steer_roundtrip_witness :
  exists cid, http3_steer_encode demo_block true (Some [1; 2; 3; 4; 5; 6; 7]) 5 = Some cid /\
    http3_steer_decode demo_block (Some cid) = 5.
Proof.
  eexists. split; [reflexivity|]. apply (steer_roundtrip demo_block [1; 2; 3; 4; 5; 6; 7]); [done|lia|reflexivity].
Defined.

End HeaderTools.
