(* ===== verification/MultipartProcessor.v ===== *)
(** * Forms from multipart bodies

    Models src/src/formats/multipart_processor.c, the callbacks that turn the events of
    the multipart parser into form fields and uploaded files, and [finalize_multipart]
    and [extract_boundary] of src/src/http1/http_parser.c, which hand them to PHP.

    Temporary files are a map from paths to contents.  What the operating system answers
    is given by [tmp] (the path of the n-th temporary file, [None] when none can be
    made), [can_open] and [written] (how many of the bytes a write takes).  The
    allocator never fails. *)

From S2P Require Import Prelude Multipart HeaderTools.

Module MultipartProcessor.

Definition blen (s : bytes) : Z := Z.of_nat (length s).

Definition MP_MAX_FILENAME_LEN : Z := 4096.
Definition MP_MAX_FIELD_VALUE_LEN : Z := 1048576.
Definition MP_MAX_FILE_SIZE : Z := 104857600.
Definition MP_MAX_FILES : Z := 20.
Definition MP_MAX_FIELDS : Z := 100.

Definition MP_UPLOAD_ERR_OK : Z := 0.
Definition MP_UPLOAD_ERR_NO_FILE : Z := 4.
Definition MP_UPLOAD_ERR_NO_TMP_DIR : Z := 6.
Definition MP_UPLOAD_ERR_CANT_WRITE : Z := 7.
Definition MP_UPLOAD_ERR_TOO_MANY_FILES : Z := 100.
Definition MP_UPLOAD_ERR_INVALID_NAME : Z := 101.
Definition MP_UPLOAD_ERR_TOO_LARGE : Z := 102.

Definition INITIAL_FILES_CAPACITY : Z := 4.
Definition INITIAL_FIELDS_CAPACITY : Z := 8.
Definition INITIAL_FIELD_VALUE_CAP : Z := 256.
Definition INITIAL_HEADER_CAP : Z := 128.

Definition SIZE_MAX : Z := UINT64_MAX.

(** A [char*] with its length and capacity; the byte after the text is NUL. *)
Record strbuf := { text : bytes; cap : Z }.

Record mp_file_info_t := {
  f_field_name : option bytes;
  client_filename : option bytes;
  client_media_type : option bytes;
  client_charset : option bytes;
  f_tmp_path : option bytes;
  size : Z;
  error : Z;
  is_ready : bool;
}.

(** [value] is a C string of its own, [value_len] the length of the buffer it was
    duplicated from. *)
Record mp_field_info_t := { fd_name : bytes; fd_value : bytes; value_len : Z }.

(** 0 stands for the default limit. *)
Record mp_config_t := {
  max_file_size : Z;
  max_field_size : Z;
  max_files : Z;
  max_fields : Z;
}.

Definition default_config : mp_config_t :=
  {| max_file_size := 0; max_field_size := 0; max_files := 0; max_fields := 0 |}.

(** [disk] and [tmp_count] are the file system; [crashed] records a string function
    called on [NULL]. *)
Record mp_processor_t := MkProc {
  config : mp_config_t;
  current_header_name : option strbuf;
  current_header_value : option strbuf;
  field_name : option bytes;
  filename : option bytes;
  content_type : option bytes;
  charset : option bytes;
  file_handle : option bytes;
  tmp_path : option bytes;
  file_size : Z;
  field_value : option strbuf;
  files : list mp_file_info_t;
  files_capacity : Z;
  fields : list mp_field_info_t;
  fields_capacity : Z;
  current_error : Z;
  disk : gmap bytes bytes;
  tmp_count : nat;
  crashed : bool;
}.

Section setters.
Variable p : mp_processor_t.

Definition with_header (n v : option strbuf) : mp_processor_t :=
  MkProc (config p) n v (field_name p) (filename p) (content_type p) (charset p) (file_handle p) (tmp_path p)
    (file_size p) (field_value p) (files p) (files_capacity p) (fields p) (fields_capacity p) (current_error p)
    (disk p) (tmp_count p) (crashed p).
Definition with_names (n f : option bytes) : mp_processor_t :=
  MkProc (config p) (current_header_name p) (current_header_value p) n f (content_type p) (charset p) (file_handle p)
    (tmp_path p) (file_size p) (field_value p) (files p) (files_capacity p) (fields p) (fields_capacity p)
    (current_error p) (disk p) (tmp_count p) (crashed p).
Definition with_type (t c : option bytes) : mp_processor_t :=
  MkProc (config p) (current_header_name p) (current_header_value p) (field_name p) (filename p) t c (file_handle p)
    (tmp_path p) (file_size p) (field_value p) (files p) (files_capacity p) (fields p) (fields_capacity p)
    (current_error p) (disk p) (tmp_count p) (crashed p).
Definition with_file (h t : option bytes) (n : Z) : mp_processor_t :=
  MkProc (config p) (current_header_name p) (current_header_value p) (field_name p) (filename p) (content_type p)
    (charset p) h t n (field_value p) (files p) (files_capacity p) (fields p) (fields_capacity p) (current_error p)
    (disk p) (tmp_count p) (crashed p).
Definition with_value (v : option strbuf) : mp_processor_t :=
  MkProc (config p) (current_header_name p) (current_header_value p) (field_name p) (filename p) (content_type p)
    (charset p) (file_handle p) (tmp_path p) (file_size p) v (files p) (files_capacity p) (fields p)
    (fields_capacity p) (current_error p) (disk p) (tmp_count p) (crashed p).
Definition with_files (l : list mp_file_info_t) (c : Z) : mp_processor_t :=
  MkProc (config p) (current_header_name p) (current_header_value p) (field_name p) (filename p) (content_type p)
    (charset p) (file_handle p) (tmp_path p) (file_size p) (field_value p) l c (fields p) (fields_capacity p)
    (current_error p) (disk p) (tmp_count p) (crashed p).
Definition with_fields (l : list mp_field_info_t) (c : Z) : mp_processor_t :=
  MkProc (config p) (current_header_name p) (current_header_value p) (field_name p) (filename p) (content_type p)
    (charset p) (file_handle p) (tmp_path p) (file_size p) (field_value p) (files p) (files_capacity p) l c
    (current_error p) (disk p) (tmp_count p) (crashed p).
Definition with_error (e : Z) : mp_processor_t :=
  MkProc (config p) (current_header_name p) (current_header_value p) (field_name p) (filename p) (content_type p)
    (charset p) (file_handle p) (tmp_path p) (file_size p) (field_value p) (files p) (files_capacity p) (fields p)
    (fields_capacity p) e (disk p) (tmp_count p) (crashed p).
Definition with_disk (d : gmap bytes bytes) (n : nat) : mp_processor_t :=
  MkProc (config p) (current_header_name p) (current_header_value p) (field_name p) (filename p) (content_type p)
    (charset p) (file_handle p) (tmp_path p) (file_size p) (field_value p) (files p) (files_capacity p) (fields p)
    (fields_capacity p) (current_error p) d n (crashed p).
Definition crash : mp_processor_t :=
  MkProc (config p) (current_header_name p) (current_header_value p) (field_name p) (filename p) (content_type p)
    (charset p) (file_handle p) (tmp_path p) (file_size p) (field_value p) (files p) (files_capacity p) (fields p)
    (fields_capacity p) (current_error p) (disk p) (tmp_count p) true.
End setters.

(** ** Helpers *)

(** [while (new_cap < need) ...]; doubling a positive capacity 64 times passes every
    64-bit length. *)
Fixpoint grow_cap (fuel : nat) (new_cap need : Z) : option Z :=
  if need <=? new_cap then Some new_cap
  else match fuel with
       | O => None
       | S f => if SIZE_MAX / 2 <? new_cap then None else grow_cap f (new_cap * 2) need
       end.

(** [None] is the result -1. *)
Definition str_append (b : strbuf) (data : bytes) : option strbuf :=
  if SIZE_MAX - blen (text b) - 1 <=? blen data then None
  else
    let need := blen (text b) + blen data + 1 in
    if cap b <? need then
      c ← grow_cap 64 (if cap b =? 0 then INITIAL_HEADER_CAP else u64 (cap b * 2)) need;
      Some {| text := text b ++ data; cap := c |}
    else Some {| text := text b ++ data; cap := cap b |}.

Definition buf_text (b : option strbuf) : bytes := match b with Some s => text s | None => [] end.
Definition clear (b : option strbuf) : option strbuf := option_map (fun s => {| text := []; cap := cap s |}) b.

(** [None] without the two quotes; the result is used as a C string. *)
Definition decode_rfc5987_value (src : bytes) : option bytes :=
  match drop_while (isnt 39) src with
  | [] => None
  | _ :: p =>
      match drop_while (isnt 39) p with
      | [] => None
      | _ :: enc => Some (c_str (HeaderTools.http_rfc5987_decode enc))
      end
  end.
#[local] Arguments decode_rfc5987_value : simpl never.

Definition param_value (x : HeaderTools.http_param_t) : bytes := default [] (HeaderTools.value x).

Definition disposition_param (p : mp_processor_t) (x : HeaderTools.http_param_t) : mp_processor_t :=
  if eqb_bytes (HeaderTools.name x) (lit "name") then with_names p (Some (param_value x)) (filename p)
  else if eqb_bytes (HeaderTools.name x) (lit "filename") then with_names p (field_name p) (Some (param_value x))
  else if eqb_bytes (HeaderTools.name x) (lit "filename*") then
    match decode_rfc5987_value (param_value x) with
    | Some d => with_names p (field_name p) (Some d)
    | None => p
    end
  else p.

Definition parse_content_disposition (value : bytes) (p : mp_processor_t) : mp_processor_t :=
  fold_left disposition_param (HeaderTools.all_params (drop_while (isnt SEMI) (c_str value))) p.

(** The loop stops at the first [charset]. *)
Definition parse_content_type (value : bytes) (p : mp_processor_t) : mp_processor_t :=
  let in_type c := negb ((c =? SEMI) || (c =? SP) || (c =? HTAB)) in
  let v := c_str value in
  let cs := find (fun x => eqb_ci (HeaderTools.name x) (lit "charset")) (HeaderTools.all_params (drop_while in_type v)) in
  with_type p (Some (take_while in_type v))
    (match cs with Some x => Some (param_value x) | None => charset p end).

Fixpoint contains_dotdot (s : bytes) : bool :=
  starts_with [DOT; DOT] s || match s with [] => false | _ :: r => contains_dotdot r end.

Definition has_path_traversal_or_nul (f : bytes) : bool :=
  mem_byte NUL f || contains_dotdot f
  || match f with c :: _ => (c =? SLASH) || (c =? BACKSLASH) | [] => false end
  || match f with _ :: c :: _ => c =? COLON | _ => false end.

(** [strcasecmp] of a header name that may be [NULL]. *)
Definition apply_header (p : mp_processor_t) : mp_processor_t :=
  match current_header_name p with
  | None => crash p
  | Some n =>
      let v := buf_text (current_header_value p) in
      if eqb_ci (c_str (text n)) (lit "Content-Disposition") then parse_content_disposition v p
      else if eqb_ci (c_str (text n)) (lit "Content-Type") then parse_content_type v p
      else p
  end.

Section callbacks.
Variable tmp : nat -> option bytes.
Variable can_open : bytes -> bool.
Variable written : bytes -> Z -> Z -> Z.

Definition on_part_begin (p : mp_processor_t) : bool * mp_processor_t :=
  let p := with_header p (clear (current_header_name p)) (clear (current_header_value p)) in
  let p := with_type (with_names p None None) None None in
  let p := with_value (with_file p None None 0) (clear (field_value p)) in
  (true, with_error p MP_UPLOAD_ERR_OK).

Definition fresh_buf (c : Z) : strbuf := {| text := []; cap := c |}.

Definition on_header_field (p : mp_processor_t) (at_ : bytes) : bool * mp_processor_t :=
  let p :=
    if 0 <? blen (buf_text (current_header_value p)) then
      let p := apply_header p in
      with_header p (clear (current_header_name p)) (clear (current_header_value p))
    else p in
  let n := default (fresh_buf INITIAL_HEADER_CAP) (current_header_name p) in
  match str_append n at_ with
  | Some n => (true, with_header p (Some n) (current_header_value p))
  | None => (false, with_header p (Some n) (current_header_value p))
  end.

Definition on_header_value (p : mp_processor_t) (at_ : bytes) : bool * mp_processor_t :=
  let v := default (fresh_buf INITIAL_HEADER_CAP) (current_header_value p) in
  match str_append v at_ with
  | Some v => (true, with_header p (current_header_name p) (Some v))
  | None => (false, with_header p (current_header_name p) (Some v))
  end.

(** [generate_tmp_path] creates the file. *)
Definition generate_tmp_path (p : mp_processor_t) : option bytes * mp_processor_t :=
  match tmp (tmp_count p) with
  | None => (None, with_disk p (disk p) (S (tmp_count p)))
  | Some t => (Some t, with_disk p (<[t := []]> (disk p)) (S (tmp_count p)))
  end.

Definition limit (configured default : Z) : Z := if 0 <? configured then configured else default.

Definition open_upload (p : mp_processor_t) (f : bytes) : mp_processor_t :=
  if MP_MAX_FILENAME_LEN <? blen f then with_error p MP_UPLOAD_ERR_INVALID_NAME
  else if has_path_traversal_or_nul f then with_error p MP_UPLOAD_ERR_INVALID_NAME
  else if limit (max_files (config p)) MP_MAX_FILES <=? Z.of_nat (length (files p))
  then with_error p MP_UPLOAD_ERR_TOO_MANY_FILES
  else
    let '(t, p) := generate_tmp_path p in
    match t with
    | None => with_error (with_file p (file_handle p) None (file_size p)) MP_UPLOAD_ERR_NO_TMP_DIR
    | Some t =>
        if can_open t then with_disk (with_file p (Some t) (Some t) 0) (<[t := []]> (disk p)) (tmp_count p)
        else with_error (with_file p None None (file_size p)) MP_UPLOAD_ERR_CANT_WRITE
    end.

Definition on_headers_complete (p : mp_processor_t) : bool * mp_processor_t :=
  let p :=
    if (0 <? blen (buf_text (current_header_name p))) && (0 <? blen (buf_text (current_header_value p)))
    then apply_header p else p in
  (true,
   match filename p with
   | Some f => if 0 <? blen f then open_upload p f else with_error p MP_UPLOAD_ERR_NO_FILE
   | None =>
       let c := match field_value p with Some b => cap b | None => INITIAL_FIELD_VALUE_CAP end in
       with_value p (Some (fresh_buf c))
   end).

Definition on_part_data (p : mp_processor_t) (at_ : bytes) : bool * mp_processor_t :=
  match file_handle p with
  | Some h =>
      let max_size := limit (max_file_size (config p)) MP_MAX_FILE_SIZE in
      if (max_size <? file_size p) || (max_size - file_size p <? blen at_) then
        let p := with_file (with_error p MP_UPLOAD_ERR_TOO_LARGE) None (tmp_path p) (file_size p) in
        (true, match tmp_path p with Some t => with_disk p (delete t (disk p)) (tmp_count p) | None => p end)
      else
        let n := written h (file_size p) (blen at_) in
        let d := <[h := default [] (disk p !! h) ++ take (Z.to_nat n) at_]> (disk p) in
        let p := with_disk p d (tmp_count p) in
        if negb (n =? blen at_)
        then (true, with_file (with_error p MP_UPLOAD_ERR_CANT_WRITE) None (tmp_path p) (file_size p))
        else (true, with_file p (Some h) (tmp_path p) (u64 (file_size p + blen at_)))
  | None =>
      if (current_error p =? MP_UPLOAD_ERR_OK) && bool_decide (filename p = None) then
        let max_size := limit (max_field_size (config p)) MP_MAX_FIELD_VALUE_LEN in
        let len := blen (buf_text (field_value p)) in
        if (max_size <? len) || (max_size - len <? blen at_) then (true, p)
        else match str_append (default {| text := []; cap := 0 |} (field_value p)) at_ with
             | Some v => (true, with_value p (Some v))
             | None => (false, p)
             end
      else (true, p)
  end.

(** A capacity for one more element of [sz] bytes; [None] is the refusal to overflow. *)
Definition expand (count capacity initial sz : Z) : option Z :=
  if capacity <=? count then
    let new_cap := if capacity =? 0 then initial else u64 (capacity * 2) in
    if (new_cap <? capacity) || (SIZE_MAX / sz <? new_cap) then None else Some new_cap
  else Some capacity.

Definition file_info (p : mp_processor_t) : mp_file_info_t :=
  {| f_field_name := field_name p; client_filename := filename p; client_media_type := content_type p;
     client_charset := charset p; f_tmp_path := tmp_path p; size := file_size p; error := current_error p;
     is_ready := current_error p =? MP_UPLOAD_ERR_OK |}.

Definition on_part_end (p : mp_processor_t) : bool * mp_processor_t :=
  let p := with_file p None (tmp_path p) (file_size p) in
  match filename p, field_name p with
  | Some _, _ =>
      match expand (Z.of_nat (length (files p))) (files_capacity p) INITIAL_FILES_CAPACITY 56 with
      | None => (false, p)
      | Some c => (true, with_file (with_files p (files p ++ [file_info p]) c) None None (file_size p))
      end
  | None, Some n =>
      if limit (max_fields (config p)) MP_MAX_FIELDS <=? Z.of_nat (length (fields p)) then (true, p)
      else
        match expand (Z.of_nat (length (fields p))) (fields_capacity p) INITIAL_FIELDS_CAPACITY 24 with
        | None => (false, p)
        | Some c =>
            let v := buf_text (field_value p) in
            (true, with_fields p (fields p ++ [{| fd_name := n; fd_value := c_str v; value_len := blen v |}]) c)
        end
  | None, None => (true, p)
  end.

Definition on_body_end (p : mp_processor_t) : bool * mp_processor_t := (true, p).

Definition processor_callbacks : Multipart.multipart_callbacks_t mp_processor_t :=
  {| Multipart.on_part_begin := Some on_part_begin;
     Multipart.on_header_field := Some on_header_field;
     Multipart.on_header_value := Some on_header_value;
     Multipart.on_headers_complete := Some on_headers_complete;
     Multipart.on_part_data := Some on_part_data;
     Multipart.on_part_end := Some on_part_end;
     Multipart.on_body_end := Some on_body_end |}.

(** ** Public interface *)

Definition processor : Type := Multipart.multipart_parser_t * mp_processor_t.

Definition empty_processor (c : mp_config_t) (d : gmap bytes bytes) : mp_processor_t :=
  MkProc c None None None None None None None None 0 None [] 0 [] 0 MP_UPLOAD_ERR_OK d 0 false.

Definition mp_processor_create (boundary : option bytes) (c : option mp_config_t) (d : gmap bytes bytes)
    : option processor :=
  q ← Multipart.multipart_parser_create boundary;
  Some (q, empty_processor (default default_config c) d).

(** The returned [ssize_t] and the processor. *)
Definition mp_processor_feed (x : processor) (data : bytes) : option (Z * processor) :=
  '(r, q, p) ← Multipart.multipart_parser_execute processor_callbacks (fst x) (snd x) data;
  Some (r, (q, p)).

Definition mp_processor_is_complete (x : processor) : bool := Multipart.multipart_parser_is_complete (fst x).
Definition mp_processor_has_error (x : processor) : bool := Multipart.multipart_parser_has_error (fst x).

Definition mp_processor_get_files (x : processor) : list mp_file_info_t := files (snd x).
Definition mp_processor_get_fields (x : processor) : list mp_field_info_t := fields (snd x).

Definition mp_processor_cleanup_temp_files (x : processor) : processor :=
  let p := snd x in
  let rm d (i : mp_file_info_t) := match f_tmp_path i with Some t => delete t d | None => d end in
  (fst x, with_disk p (fold_left rm (files p) (disk p)) (tmp_count p)).

(** Closing the open file leaves it on the disk. *)
Definition mp_processor_destroy (x : processor) : gmap bytes bytes := disk (snd x).
End callbacks.

(** ** Handing the form to PHP *)

Fixpoint strstr (pat s : bytes) : option bytes :=
  if starts_with pat s then Some s else match s with [] => None | _ :: r => strstr pat r end.

Definition extract_boundary (ct : bytes) : option bytes :=
  match strstr (lit "boundary=") (c_str ct) with
  | None => None
  | Some s =>
      match drop 9 s with
      | c :: r =>
          if c =? DQUOTE then
            match drop_while (isnt DQUOTE) r with [] => None | _ => Some (take_while (isnt DQUOTE) r) end
          else
            let b := take_while (fun x => negb ((x =? SEMI) || (x =? SP) || (x =? HTAB))) (c :: r) in
            if (length b =? 0)%nat then None else Some b
      | [] => None
      end
  end.

(** A PHP array with string keys, in insertion order. *)
Section table.
Context {A : Type}.

Fixpoint hash_update (h : list (bytes * A)) (k : bytes) (v : A) : list (bytes * A) :=
  match h with
  | [] => [(k, v)]
  | (k', v') :: r => if eqb_bytes k' k then (k, v) :: r else (k', v') :: hash_update r k v
  end.

Fixpoint hash_find (h : list (bytes * A)) (k : bytes) : option A :=
  match h with
  | [] => None
  | (k', v') :: r => if eqb_bytes k' k then Some v' else hash_find r k
  end.
End table.

(** [ZVAL_STRINGL(value, len)] copies [len] bytes; [None] when they reach past the NUL
    that ends the allocation. *)
Definition zval_stringl (value : bytes) (len : Z) : option bytes :=
  if blen value + 1 <? len then None else Some (take (Z.to_nat len) (value ++ [NUL])).

Inductive uploaded := One (f : mp_file_info_t) | Many (l : list mp_file_info_t).

Definition ends_with_brackets (n : bytes) : bool :=
  (2 <=? length n)%nat && eqb_bytes (drop (length n - 2) n) (lit "[]").

Definition add_file (h : list (bytes * uploaded)) (f : mp_file_info_t) : list (bytes * uploaded) :=
  match f_field_name f with
  | None => h
  | Some n =>
      if ends_with_brackets n then
        let clean := take (length n - 2) n in
        match hash_find h clean with
        | Some (Many l) => hash_update h clean (Many (l ++ [f]))
        | _ => hash_update h clean (Many [f])
        end
      else hash_update h n (One f)
  end.

Definition add_field (h : option (list (bytes * bytes))) (f : mp_field_info_t) : option (list (bytes * bytes)) :=
  h ← h; v ← zval_stringl (fd_value f) (value_len f); Some (hash_update h (fd_name f) v).

(** [post_data] and [files] of the request; [None] is a read past the end of a value. *)
Definition finalize_multipart (p : mp_processor_t) : option (list (bytes * bytes) * list (bytes * uploaded)) :=
  post ← fold_left add_field (fields p) (Some []);
  Some (post, fold_left add_file (files p) []).

End MultipartProcessor.
