(* ===== verification/MultipartForm.v ===== *)
(** * Forms are received as they were sent

    The processor of MultipartProcessor refines a form reader without buffers, files or
    limits, as long as no limit is exceeded; a form rendered by a client then arrives
    field by field and file by file, however the network cuts it. *)

From S2P Require Import Prelude Multipart MultipartProofs HeaderTools MultipartProcessor.

Module MultipartForm.
Import Multipart MultipartProofs.

(** ** Simulation of parser runs

    Two sets of callbacks for the same parser.  The second never refuses; once it is
    [over], for good, nothing more is claimed. *)

Section simulation.
Context {U V : Type} (cu : multipart_callbacks_t U) (cv : multipart_callbacks_t V).
Context (R : U -> V -> Prop) (over : V -> Prop).

Definition sim_call (f : option (U -> bool * U)) (g : option (V -> bool * V)) : Prop :=
  (forall v, over v -> over (snd (MP_CALLBACK g v))) /\
  forall u v, R u v -> over (snd (MP_CALLBACK g v)) \/
    (fst (MP_CALLBACK f u) = true /\ R (snd (MP_CALLBACK f u)) (snd (MP_CALLBACK g v))).

Definition sim_data (f : option (U -> bytes -> bool * U)) (g : option (V -> bytes -> bool * V)) : Prop :=
  forall l, sim_call (Some (fun u => CALLBACK_DATA f u l)) (Some (fun v => CALLBACK_DATA g v l)).

Record simulates : Prop := {
  sim_begin : sim_call (on_part_begin cu) (on_part_begin cv);
  sim_field : sim_data (on_header_field cu) (on_header_field cv);
  sim_value : sim_data (on_header_value cu) (on_header_value cv);
  sim_headers : sim_call (on_headers_complete cu) (on_headers_complete cv);
  sim_pdata : sim_data (on_part_data cu) (on_part_data cv);
  sim_end : sim_call (on_part_end cu) (on_part_end cv);
  sim_body : sim_call (on_body_end cu) (on_body_end cv);
}.

Hypothesis Hnf : never_fails cv.
Hypothesis Hsim : simulates.

Definition over_out (o : @outcome V) : Prop :=
  match o with Next _ v _ | Again _ v _ | Fail _ v => over v end.

Definition rel_out (o : @outcome U) (o' : @outcome V) : Prop :=
  over_out o' \/
  match o' with
  | Next p v m => exists u, o = Next p u m /\ R u v
  | Again p v m => exists u, o = Again p u m /\ R u v
  | Fail p v => exists u, o = Fail p u /\ R u v
  end.

Lemma after_over n (g : option (V -> bool * V)) v p k :
  (forall w, over w -> over (snd (MP_CALLBACK g w))) -> (forall w, over w -> over_out (k w)) -> over v ->
  over_out (after n (MP_CALLBACK g v) p k).
Proof. intros Hg Hk Hv. unfold after. case_if; [apply Hk|]; by apply Hg. Qed.

Lemma after_rel n (f : option (U -> bool * U)) (g : option (V -> bool * V)) u v p k k' :
  sim_call f g -> fst (MP_CALLBACK g v) = true -> (forall w, over w -> over_out (k' w)) ->
  (forall u v, R u v -> rel_out (k u) (k' v)) -> R u v ->
  rel_out (after n (MP_CALLBACK f u) p k) (after n (MP_CALLBACK g v) p k').
Proof.
  intros [_ Hs] Hg Ho Hk Hr. unfold after. rewrite Hg. destruct (Hs u v Hr) as [H|[-> H]].
  - left. by apply Ho.
  - by apply Hk.
Qed.

Lemma data_never g v l : (forall f u l, g = Some f -> fst (f u l) = true) ->
  fst (CALLBACK_DATA (U := V) g v l) = true.
Proof. intros H. unfold CALLBACK_DATA. destruct g as [f|]; [|done]. destruct l; [done|]. by apply (H f). Qed.

Lemma call_never g v : (forall f u, g = Some f -> fst (f u) = true) -> fst (MP_CALLBACK (U := V) g v) = true.
Proof. intros H. unfold MP_CALLBACK. destruct g as [f|]; [|done]. by apply (H f). Qed.

(** The data callbacks in the form of [after_over] and [after_rel]. *)
Lemma data_over n g v l p k :
  (forall w, over w -> over (snd (CALLBACK_DATA g w l))) -> (forall w, over w -> over_out (k w)) -> over v ->
  over_out (after n (CALLBACK_DATA g v l) p k).
Proof. intros Hg. apply (after_over n (Some (fun w => CALLBACK_DATA g w l)) v p k Hg). Qed.

Lemma data_rel n f g u v l p k k' :
  sim_data f g -> (forall f u l, g = Some f -> fst (f u l) = true) -> (forall w, over w -> over_out (k' w)) ->
  (forall u v, R u v -> rel_out (k u) (k' v)) -> R u v ->
  rel_out (after n (CALLBACK_DATA f u l) p k) (after n (CALLBACK_DATA g v l) p k').
Proof.
  intros Hs Hg. apply (after_rel n (Some (fun w => CALLBACK_DATA f w l)) (Some (fun w => CALLBACK_DATA g w l)) u v p k k' (Hs l)).
  by apply data_never.
Qed.

Lemma rel_next p u v m : R u v -> rel_out (Next p u m) (Next p v m).
Proof. intros H. right. by exists u. Qed.
Lemma rel_again p u v m : R u v -> rel_out (Again p u m) (Again p v m).
Proof. intros H. right. by exists u. Qed.
Lemma rel_fail p u v : R u v -> rel_out (Fail p u) (Fail p v).
Proof. intros H. right. by exists u. Qed.

Lemma not_boundary_over p v m : over v -> over_out (not_boundary cv p v m).
Proof.
  intros H. unfold not_boundary, flush_lookbehind. destruct (lookbehind p); [done|].
  apply data_over; [|done|done]. intros w. apply (sim_pdata Hsim).
Qed.

Lemma step_over p v m c : over v -> over_out (Multipart.step cv p v m c).
Proof.
  intros H. unfold Multipart.step, step_data.
  destruct (state p); repeat case_if; try done; try (by apply not_boundary_over);
    repeat (first [ apply after_over | apply data_over ]; try done; intros ? ?);
    try (by apply (sim_begin Hsim)); try (by apply (sim_field Hsim)); try (by apply (sim_value Hsim));
    try (by apply (sim_headers Hsim)); try (by apply (sim_pdata Hsim)); try (by apply (sim_end Hsim));
    by apply (sim_body Hsim).
Qed.

Lemma not_boundary_rel p u v m : R u v -> rel_out (not_boundary cu p u m) (not_boundary cv p v m).
Proof.
  intros H. unfold not_boundary, flush_lookbehind. destruct (lookbehind p); [by apply rel_again|].
  apply data_rel; try done; [apply (sim_pdata Hsim) | apply Hnf | intros; by apply rel_again].
Qed.

(** One call: the callbacks correspond and the continuations do. *)
Ltac rel_step :=
  match goal with
  | |- rel_out (after _ (CALLBACK_DATA _ _ _) _ _) _ => apply data_rel
  | |- rel_out (after _ (MP_CALLBACK _ _) _ _) _ => apply after_rel
  | |- rel_out (Next _ _ _) _ => apply rel_next
  | |- rel_out (Again _ _ _) _ => apply rel_again
  | |- rel_out (Fail _ _) _ => apply rel_fail
  | |- rel_out (not_boundary _ _ _ _) _ => apply not_boundary_rel
  | |- sim_call (on_part_begin _) _ => apply (sim_begin Hsim)
  | |- sim_call (on_headers_complete _) _ => apply (sim_headers Hsim)
  | |- sim_call (on_part_end _) _ => apply (sim_end Hsim)
  | |- sim_call (on_body_end _) _ => apply (sim_body Hsim)
  | |- sim_data (on_header_field _) _ => apply (sim_field Hsim)
  | |- sim_data (on_header_value _) _ => apply (sim_value Hsim)
  | |- sim_data (on_part_data _) _ => apply (sim_pdata Hsim)
  | |- fst (MP_CALLBACK _ _) = true => apply call_never; apply Hnf
  | |- forall f u l, _ = Some f -> fst (f u l) = true => apply Hnf
  | |- over_out (after _ _ _ _) => apply after_over
  | |- over (snd (MP_CALLBACK (on_part_begin _) _)) => apply (sim_begin Hsim)
  | |- over (snd (MP_CALLBACK (on_part_end _) _)) => apply (sim_end Hsim)
  | |- over (snd (MP_CALLBACK (on_body_end _) _)) => apply (sim_body Hsim)
  | _ => done
  | |- forall _, _ => intros ?
  end.

Lemma step_rel p u v m c : R u v -> rel_out (Multipart.step cu p u m c) (Multipart.step cv p v m c).
Proof.
  intros H. unfold Multipart.step, step_data. destruct (state p); repeat case_if; repeat rel_step.
Qed.

Lemma consume_rel p u v m c : R u v -> rel_out (consume cu p u m c) (consume cv p v m c).
Proof.
  intros H. unfold consume. destruct (step_rel p u v m c H) as [Ho|Hs].
  - left. destruct (Multipart.step cv p v m c); try done. by apply step_over.
  - destruct (Multipart.step cv p v m c) as [q w m'|q w m'|q w]; destruct Hs as (u' & -> & Hr);
      [by apply rel_next | by apply step_rel | by apply rel_fail].
Qed.

Lemma consume_over p v m c : over v -> over_out (consume cv p v m c).
Proof.
  intros H. unfold consume. pose proof (step_over p v m c H) as Hs.
  destruct (Multipart.step cv p v m c); try done. by apply step_over.
Qed.

Definition rel_result (r : @result U) (r' : @result V) : Prop :=
  match r' with
  | Done p v m => over v \/ exists u, r = Done p u m /\ R u v
  | Stop p v => over v \/ exists u, r = Stop p u /\ R u v
  end.

Lemma run_over data p v m : over v ->
  match MultipartProofs.run cv p v m data with Done _ w _ | Stop _ w => over w end.
Proof.
  revert p v m. induction data as [|c data IH]; intros p v m H; [done|]. rewrite run_cons.
  pose proof (consume_over p v m c H). destruct (consume cv p v m c); [by apply IH..|done].
Qed.

Lemma run_rel data p u v m : R u v -> rel_result (MultipartProofs.run cu p u m data) (MultipartProofs.run cv p v m data).
Proof.
  revert p u v m. induction data as [|c data IH]; intros p u v m H; [right; by exists u|]. rewrite !run_cons.
  destruct (consume_rel p u v m c H) as [Ho|Hs].
  - destruct (consume cv p v m c) as [q w m'|q w m'|q w]; cbn [over_out] in Ho.
    1,2: pose proof (run_over data q w m' Ho); destruct (MultipartProofs.run cv q w m' data); by left.
    by left.
  - destruct (consume cv p v m c) as [q w m'|q w m'|q w]; destruct Hs as (u' & -> & Hr); [by apply IH..|right; by exists u'].
Qed.

Lemma flush_sim p u v m : R u v ->
  over (snd (flush_chunk cv p v m)) \/
  (fst (flush_chunk cu p u m) = (true, snd (fst (flush_chunk cv p v m))) /\
   R (snd (flush_chunk cu p u m)) (snd (flush_chunk cv p v m))).
Proof.
  intros H. unfold flush_chunk. destruct m as [l|]; [|by right]. destruct l as [|c l]; [by right|].
  destruct (state p); try (by right); cbn [fst snd].
  - destruct (sim_field Hsim (c :: l)) as [_ Hs]. destruct (Hs u v H) as [?|[E ?]]; [by left|right]. cbn in E. by rewrite E.
  - destruct (sim_value Hsim (c :: l)) as [_ Hs]. destruct (Hs u v H) as [?|[E ?]]; [by left|right]. cbn in E. by rewrite E.
  - destruct (sim_pdata Hsim (c :: l)) as [_ Hs]. destruct (Hs u v H) as [?|[E ?]]; [by left|right]. cbn in E. by rewrite E.
Qed.

Lemma flush_over p v m : over v -> over (snd (flush_chunk cv p v m)).
Proof.
  intros H. unfold flush_chunk. destruct m as [[|c l]|]; try done. destruct (state p); try done; cbn [snd].
  - by apply (sim_field Hsim (c :: l)).
  - by apply (sim_value Hsim (c :: l)).
  - by apply (sim_pdata Hsim (c :: l)).
Qed.

(** A chunk the second set accepts. *)
Lemma execute_rel p u v d r p' v' : R u v -> multipart_parser_execute cv p v d = Some (r, p', v') -> 0 <= r ->
  over v' \/ exists u', multipart_parser_execute cu p u d = Some (r, p', u') /\ R u' v'.
Proof.
  intros H. rewrite !execute_run. intros [= E] Hr.
  destruct (decide (state p = MP_STATE_ERROR)) as [He|He]; [rewrite He in *; simplify_eq; lia|].
  destruct (decide (state p = MP_STATE_END)) as [Hd|Hd]; [rewrite Hd in *; simplify_eq; right; by exists u|].
  assert (finish cv d (MultipartProofs.run cv p v None d) = (r, p', v')) as E' by (by destruct (state p)).
  pose proof (run_rel d p u v None H) as Hrun. unfold finish in E'.
  destruct (MultipartProofs.run cv p v None d) as [q w m|q w] eqn:Ev; [|simplify_eq; lia].
  destruct Hrun as [Ho|(u1 & Eu & Hr1)].
  - left. pose proof (flush_over q w m Ho). destruct (flush_chunk cv q w m) as [[ok n] x]. by destruct ok; simplify_eq.
  - pose proof (flush_sim q u1 w m Hr1) as Hf. destruct (flush_chunk cv q w m) as [[ok n] x] eqn:Ef.
    destruct ok; [|simplify_eq; lia]. injection E' as <- <- <-. destruct Hf as [Ho|[E1 E2]]; [by left|right].
    exists (snd (flush_chunk cu q u1 m)). split; [|done]. cbn [fst snd] in E1.
    destruct (flush_chunk cu q u1 m) as [[ok' n'] x'] eqn:Eu'. cbn in E1. injection E1 as -> ->.
    destruct (state p); try done; by rewrite Eu; unfold finish; rewrite Eu'.
Qed.

Lemma feed_over chunks p v p' v' : over v -> feed cv p v chunks = Some (true, p', v') -> over v'.
Proof.
  revert p v. induction chunks as [|d rest IH]; intros p v H; cbn [feed]; [by intros [= <- <-]|].
  rewrite execute_run. cbn [mbind option_bind].
  assert (forall r q w, match state p with MP_STATE_ERROR => (-1, p, v) | MP_STATE_END => (0, p, v)
            | _ => finish cv d (MultipartProofs.run cv p v None d) end = (r, q, w) -> over w) as Hx.
  { intros r q w E. pose proof (run_over d p v None H) as Hrun.
    assert (finish cv d (MultipartProofs.run cv p v None d) = (r, q, w) \/ w = v) as [Ef| ->] by (destruct (state p); naive_solver); [|done].
    unfold finish in Ef. destruct (MultipartProofs.run cv p v None d) as [q1 w1 m|]; [|by simplify_eq].
    pose proof (flush_over q1 w1 m Hrun). destruct (flush_chunk cv q1 w1 m) as [[[] n] x]; by simplify_eq. }
  destruct (match state p with MP_STATE_ERROR => (-1, p, v) | MP_STATE_END => (0, p, v)
            | _ => finish cv d (MultipartProofs.run cv p v None d) end) as [[r q] w] eqn:E.
  destruct (r <? 0); [done|]. intros Hf. eapply IH; [|exact Hf]. by eapply Hx.
Qed.

Lemma feed_rel chunks p u v p' v' : R u v -> feed cv p v chunks = Some (true, p', v') ->
  over v' \/ exists u', feed cu p u chunks = Some (true, p', u') /\ R u' v'.
Proof.
  revert p u v. induction chunks as [|d rest IH]; intros p u v H; cbn [feed].
  - intros [= <- <-]. right. by exists u.
  - destruct (multipart_parser_execute cv p v d) as [[[r q] w]|] eqn:E; [|done]. cbn [mbind option_bind].
    destruct (r <? 0) eqn:Er; [done|]. b2p. intros Hf.
    destruct (execute_rel p u v d r q w H E Er) as [Ho|(u' & Eu & Hr)].
    + left. by eapply feed_over.
    + destruct (IH q u' w Hr Hf) as [?|(u'' & E' & Hr'')]; [by left|right]. exists u''. rewrite Eu. cbn [mbind option_bind].
      by rewrite (proj2 (Z.ltb_ge _ _) Er).
Qed.

End simulation.
(** ** A form reader without buffers, files or limits *)

Import MultipartProcessor.

(** The effect of the two headers that matter. *)
Definition name_param (nf : option bytes * option bytes) (x : HeaderTools.http_param_t) : option bytes * option bytes :=
  let '(n, f) := nf in
  if eqb_bytes (HeaderTools.name x) (lit "name") then (Some (param_value x), f)
  else if eqb_bytes (HeaderTools.name x) (lit "filename") then (n, Some (param_value x))
  else if eqb_bytes (HeaderTools.name x) (lit "filename*") then
    match decode_rfc5987_value (param_value x) with Some d => (n, Some d) | None => (n, f) end
  else (n, f).

Definition disposition_names (value : bytes) (nf : option bytes * option bytes) : option bytes * option bytes :=
  fold_left name_param (HeaderTools.all_params (drop_while (isnt SEMI) (c_str value))) nf.

Lemma disposition_spec value p :
  parse_content_disposition value p
  = with_names p (fst (disposition_names value (field_name p, filename p))) (snd (disposition_names value (field_name p, filename p))).
Proof.
  unfold parse_content_disposition, disposition_names. generalize (HeaderTools.all_params (drop_while (isnt SEMI) (c_str value))) as l.
  intros l. revert p. induction l as [|x l IH]; intros p; cbn [fold_left]; [by destruct p|].
  rewrite IH. unfold disposition_param, name_param. repeat case_if; try by destruct p.
  by destruct (decode_rfc5987_value _), p.
Qed.

(** An upload as it was received; [e_path] is the number of its temporary file. *)
Record entry := {
  e_name : option bytes; e_filename : option bytes; e_type : option bytes; e_charset : option bytes;
  e_path : option nat; e_data : bytes; e_size : Z; e_error : Z }.

Record reader := MkReader {
  r_name : bytes; r_value : bytes;
  r_names : option bytes * option bytes;
  r_types : option bytes * option bytes;
  r_path : option nat; r_data : bytes; r_size : Z; r_err : Z;
  r_fields : list (bytes * bytes); r_files : list entry; r_tmp : nat; r_over : bool }.

Definition big : Z := 2 ^ 40.

Definition type_pair (value : bytes) (cs : option bytes) : option bytes * option bytes :=
  let p := parse_content_type value (with_type (empty_processor default_config ∅) None cs) in (content_type p, charset p).

Lemma type_spec value p : parse_content_type value p
  = with_type p (fst (type_pair value (charset p))) (snd (type_pair value (charset p))).
Proof. by destruct p. Qed.

Definition a_apply (r : reader) : reader :=
  if eqb_ci (c_str (r_name r)) (lit "Content-Disposition") then
    MkReader (r_name r) (r_value r) (disposition_names (r_value r) (r_names r)) (r_types r) (r_path r) (r_data r)
      (r_size r) (r_err r) (r_fields r) (r_files r) (r_tmp r) (r_over r)
  else if eqb_ci (c_str (r_name r)) (lit "Content-Type") then
    MkReader (r_name r) (r_value r) (r_names r) (type_pair (r_value r) (snd (r_types r))) (r_path r) (r_data r)
      (r_size r) (r_err r) (r_fields r) (r_files r) (r_tmp r) (r_over r)
  else r.

Definition with_hdr (n v : bytes) (o : bool) (r : reader) : reader :=
  MkReader n v (r_names r) (r_types r) (r_path r) (r_data r) (r_size r) (r_err r) (r_fields r) (r_files r) (r_tmp r)
    (r_over r || o).
Definition with_part (pa : option nat) (d : bytes) (sz e : Z) (t : nat) (o : bool) (r : reader) : reader :=
  MkReader (r_name r) (r_value r) (r_names r) (r_types r) pa d sz e (r_fields r) (r_files r) t (r_over r || o).
Definition with_results (fs : list (bytes * bytes)) (us : list entry) (pa : option nat) (o : bool) (r : reader) : reader :=
  MkReader (r_name r) (r_value r) (r_names r) (r_types r) pa (r_data r) (r_size r) (r_err r) fs us (r_tmp r) (r_over r || o).

Definition a_begin (r : reader) : bool * reader :=
  (true, MkReader [] [] (None, None) (None, None) None [] 0 0 (r_fields r) (r_files r) (r_tmp r) (r_over r)).

Definition a_field (r : reader) (l : bytes) : bool * reader :=
  let r := match r_value r with [] => r | _ => with_hdr [] [] false (a_apply r) end in
  (true, with_hdr (r_name r ++ l) (r_value r) (big <=? blen (r_name r ++ l)) r).

Definition a_value (r : reader) (l : bytes) : bool * reader :=
  (true, with_hdr (r_name r) (r_value r ++ l) (bool_decide (r_name r = []) || (big <=? blen (r_value r ++ l))) r).

Definition bad_upload (f : bytes) (r : reader) : bool :=
  (MP_MAX_FILENAME_LEN <? blen f) || has_path_traversal_or_nul f || (MP_MAX_FILES <=? Z.of_nat (length (r_files r))).

Definition a_start (r : reader) : reader :=
  match snd (r_names r) with
  | Some [] => with_part (r_path r) (r_data r) (r_size r) MP_UPLOAD_ERR_NO_FILE (r_tmp r) false r
  | Some f => with_part (Some (r_tmp r)) [] 0 (r_err r) (S (r_tmp r)) (bad_upload f r) r
  | None => with_part (r_path r) [] (r_size r) (r_err r) (r_tmp r) false r
  end.

Definition a_headers (r : reader) : bool * reader :=
  (true, a_start (match r_name r, r_value r with [], _ | _, [] => r | _, _ => a_apply r end)).

Definition a_data (r : reader) (l : bytes) : bool * reader :=
  (true,
   match r_path r with
   | Some n => with_part (Some n) (r_data r ++ l) (r_size r + blen l) (r_err r) (r_tmp r) (MP_MAX_FILE_SIZE <? r_size r + blen l) r
   | None =>
       if (r_err r =? MP_UPLOAD_ERR_OK) && bool_decide (snd (r_names r) = None)
       then with_part None (r_data r ++ l) (r_size r) (r_err r) (r_tmp r) (MP_MAX_FIELD_VALUE_LEN <? blen (r_data r ++ l)) r
       else r
   end).

Definition a_entry (r : reader) : entry :=
  {| e_name := fst (r_names r); e_filename := snd (r_names r); e_type := fst (r_types r); e_charset := snd (r_types r);
     e_path := r_path r; e_data := match r_path r with Some _ => r_data r | None => [] end; e_size := r_size r;
     e_error := r_err r |}.

Definition a_end (r : reader) : bool * reader :=
  (true,
   match snd (r_names r), fst (r_names r) with
   | Some _, _ => with_results (r_fields r) (r_files r ++ [a_entry r]) None (big <=? Z.of_nat (length (r_files r))) r
   | None, Some n =>
       with_results (r_fields r ++ [(n, r_data r)]) (r_files r) None (MP_MAX_FIELDS <=? Z.of_nat (length (r_fields r))) r
   | None, None => with_results (r_fields r) (r_files r) None false r
   end).

Definition reader_callbacks : multipart_callbacks_t reader :=
  {| Multipart.on_part_begin := Some a_begin; Multipart.on_header_field := Some a_field; Multipart.on_header_value := Some a_value;
     Multipart.on_headers_complete := Some a_headers; Multipart.on_part_data := Some a_data; Multipart.on_part_end := Some a_end;
     Multipart.on_body_end := Some (fun r => (true, r)) |}.

Lemma reader_never_fails : never_fails reader_callbacks.
Proof. repeat split; intros f u; cbn; intros; simplify_eq; done. Qed.

Lemma blen_app a b : blen (a ++ b) = blen a + blen b.
Proof. unfold blen. rewrite length_app. lia. Qed.

Lemma blen_nonneg a : 0 <= blen a.
Proof. unfold blen. lia. Qed.

(** Passing a bound is final. *)
Lemma over_later m x y : 0 <= y -> (m <=? x) || (m <=? x + y) = (m <=? x + y).
Proof. intros H. destruct (Z.leb_spec m x), (Z.leb_spec m (x + y)); try done; lia. Qed.

Lemma over_later_lt m x y : 0 <= y -> (m <? x) || (m <? x + y) = (m <? x + y).
Proof. intros H. destruct (Z.ltb_spec m x), (Z.ltb_spec m (x + y)); try done; lia. Qed.

Lemma reader_streaming : streaming reader_callbacks.
Proof.
  split_and!; intros f u a b u' [= <-] Ha Hb [= <-].
  - unfold a_field at 1 2. set (r := match r_value u with [] => u | _ => _ end).
    assert (r_value r = []) as Hv by (subst r; by destruct (r_value u) eqn:E).
    unfold with_hdr. cbn [r_value r_name r_names r_types r_path r_data r_size r_err r_fields r_files r_tmp r_over].
    rewrite Hv. cbn [r_value r_name r_names r_types r_path r_data r_size r_err r_fields r_files r_tmp r_over].
    rewrite <- app_assoc. do 2 f_equal. rewrite <- orb_assoc. f_equal. rewrite (app_assoc _ a b), (blen_app _ b).
    symmetry. apply over_later, blen_nonneg.
  - unfold a_value, with_hdr. cbn [r_value r_name r_names r_types r_path r_data r_size r_err r_fields r_files r_tmp r_over].
    rewrite <- app_assoc. do 2 f_equal. rewrite (app_assoc _ a b), (blen_app _ b).
    rewrite <- (over_later big (blen (r_value u ++ a)) (blen b)) by apply blen_nonneg.
    by destruct (r_over u), (bool_decide _), (big <=? blen (r_value u ++ a)).
  - unfold a_data. destruct (r_path u) as [n|] eqn:En; cbn [with_part r_path r_data r_size r_err r_tmp r_names].
    + unfold with_part. cbn. rewrite <- app_assoc, blen_app, Z.add_assoc. do 2 f_equal.
      rewrite <- (over_later_lt MP_MAX_FILE_SIZE (r_size u + blen a) (blen b)) by apply blen_nonneg.
      by destruct (r_over u), (MP_MAX_FILE_SIZE <? r_size u + blen a).
    + destruct ((r_err u =? MP_UPLOAD_ERR_OK) && _) eqn:E; cbn [with_part r_path r_data r_size r_err r_tmp r_names].
      2: by rewrite En, E.
      rewrite E. unfold with_part. cbn. rewrite <- app_assoc. do 2 f_equal. rewrite (app_assoc _ a b), (blen_app _ b).
      rewrite <- (over_later_lt _ (blen (r_data u ++ a)) (blen b)) by apply blen_nonneg.
      by destruct (r_over u), (_ <? blen (r_data u ++ a)).
Qed.

(** ** The processor refines the reader *)

#[local] Arguments type_pair : simpl never.
#[local] Arguments disposition_names : simpl never.

Definition buf_ok (b : strbuf) : Prop :=
  0 <= cap b <= 2 ^ 63 /\ (blen (text b) < cap b \/ (cap b = 0 /\ text b = [])).

Definition obuf_ok (b : option strbuf) : Prop := match b with Some b => buf_ok b | None => True end.

Lemma cap_grows fuel c need : 0 < c <= 2 ^ 63 -> need <= 2 ^ 41 -> need <= c * 2 ^ Z.of_nat fuel ->
  exists c', grow_cap fuel c need = Some c' /\ need <= c' <= 2 ^ 63.
Proof.
  revert c. induction fuel as [|fuel IH]; intros c Hc Hn Hf; cbn [grow_cap].
  - exists c. destruct (Z.leb_spec need c); [split; [done|lia]|]. simpl in Hf. lia.
  - destruct (Z.leb_spec need c) as [H|H]; [exists c; split; [done|lia]|].
    replace (SIZE_MAX / 2 <? c) with false by (symmetry; apply Z.ltb_ge; unfold SIZE_MAX, UINT64_MAX; dlia).
    apply IH; [lia|done|]. rewrite Nat2Z.inj_succ, Z.pow_succ_r in Hf by lia. lia.
Qed.

Lemma str_append_ok b d : buf_ok b -> blen (text b ++ d) < big ->
  exists b', str_append b d = Some b' /\ text b' = text b ++ d /\ buf_ok b'.
Proof.
  unfold big. rewrite blen_app. intros [Hc Hl] Hb. pose proof (blen_nonneg (text b)). pose proof (blen_nonneg d).
  unfold str_append. replace (SIZE_MAX - blen (text b) - 1 <=? blen d) with false
    by (symmetry; apply Z.leb_gt; unfold SIZE_MAX, UINT64_MAX; lia).
  destruct (Z.ltb_spec (cap b) (blen (text b) + blen d + 1)) as [Hn|Hn].
  - set (c := if cap b =? 0 then INITIAL_HEADER_CAP else u64 (cap b * 2)).
    assert (1 <= c <= 2 ^ 63) as Hc'.
    { subst c. destruct (Z.eqb_spec (cap b) 0); [unfold INITIAL_HEADER_CAP; lia|].
      unfold u64. rewrite Z.mod_small; lia. }
    destruct (cap_grows 64 c (blen (text b) + blen d + 1)) as (c' & -> & H1); [lia..|].
    eexists. split; [done|]. cbn [text]. split; [done|]. unfold buf_ok. cbn [text cap]. rewrite blen_app. lia.
  - eexists. split; [done|]. split; [done|]. unfold buf_ok. cbn [text cap]. rewrite blen_app. lia.
Qed.

Lemma clear_ok b : obuf_ok b -> obuf_ok (clear b).
Proof.
  destruct b as [b|]; [|done]. unfold obuf_ok, buf_ok, clear. cbn. change (blen []) with 0. intros [H1 H2].
  split; [lia|]. destruct (Z.eq_dec (cap b) 0); [by right|left; lia].
Qed.

Lemma clear_text b : buf_text (clear b) = [].
Proof. by destruct b. Qed.

Lemma name_param_keeps nf x : snd nf <> None -> snd (name_param nf x) <> None.
Proof. destruct nf as [n f]. unfold name_param. intros H. repeat case_if; try done. by destruct (decode_rfc5987_value _). Qed.

Lemma disposition_keeps v nf : snd nf <> None -> snd (disposition_names v nf) <> None.
Proof.
  unfold disposition_names. generalize (HeaderTools.all_params (drop_while (isnt SEMI) (c_str v))) as l. intros l.
  revert nf. induction l as [|x l IH]; intros nf H; [done|]. apply IH. by apply name_param_keeps.
Qed.

Section refine.
Context (path : nat -> bytes) `{!Inj (=) (=) path}.
Context (tmp : nat -> option bytes) (can_open : bytes -> bool) (written : bytes -> Z -> Z -> Z).
Hypothesis Htmp : forall n, tmp n = Some (path n).
Hypothesis Hopen : forall t, can_open t = true.
Hypothesis Hwritten : forall t sz n, written t sz n = n.

Definition field_of (f : bytes * bytes) : mp_field_info_t :=
  {| fd_name := fst f; fd_value := c_str (snd f); value_len := blen (snd f) |}.

Definition file_of (e : entry) : mp_file_info_t :=
  {| f_field_name := e_name e; client_filename := e_filename e; client_media_type := e_type e;
     client_charset := e_charset e; f_tmp_path := path <$> e_path e; size := e_size e; error := e_error e;
     is_ready := e_error e =? MP_UPLOAD_ERR_OK |}.

(** A finished upload is on the disk, under a number given out before. *)
Definition stored (d : gmap bytes bytes) (t : nat) (e : entry) : Prop :=
  forall n, e_path e = Some n -> d !! path n = Some (e_data e) /\ (n < t)%nat.

Record related (p : mp_processor_t) (r : reader) : Prop := {
  rel_config : config p = default_config;
  rel_alive : crashed p = false;
  rel_name : buf_text (current_header_name p) = r_name r;
  rel_name_buf : obuf_ok (current_header_name p);
  rel_value : buf_text (current_header_value p) = r_value r;
  rel_value_buf : obuf_ok (current_header_value p);
  rel_has_name : r_value r <> [] -> current_header_name p <> None;
  rel_names : (field_name p, filename p) = r_names r;
  rel_types : (content_type p, charset p) = r_types r;
  rel_handle : file_handle p = path <$> r_path r;
  rel_tmp : tmp_path p = path <$> r_path r;
  rel_size : file_size p = r_size r;
  rel_size_pos : 0 <= r_size r;
  rel_err : current_error p = r_err r;
  rel_field : snd (r_names r) = None -> buf_text (field_value p) = r_data r;
  rel_field_buf : obuf_ok (field_value p);
  rel_upload : forall n, r_path r = Some n -> disk p !! path n = Some (r_data r) /\ r_size r = blen (r_data r) /\
    (n < r_tmp r)%nat /\ snd (r_names r) <> None /\ Forall (fun e => e_path e <> Some n) (r_files r);
  rel_count : tmp_count p = r_tmp r;
  rel_fields : fields p = map field_of (r_fields r);
  rel_fields_cap : 0 <= fields_capacity p <= 2 * Z.of_nat (length (r_fields r)) + 8;
  rel_files : files p = map file_of (r_files r);
  rel_files_cap : 0 <= files_capacity p <= 2 * Z.of_nat (length (r_files r)) + 8;
  rel_disk : Forall (stored (disk p) (r_tmp r)) (r_files r);
}.

Definition is_over (r : reader) : Prop := r_over r = true.

(** The parts of [related] that a change does not touch. *)
Ltac keep := cbn in *; try assumption; try done; eauto using clear_ok, clear_text.

Lemma apply_related p r : related p r -> current_header_name p <> None -> related (apply_header p) (a_apply r).
Proof.
  intros H Hn. unfold apply_header. destruct (current_header_name p) as [n|] eqn:En; [|done].
  pose proof (rel_name _ _ H) as E1. rewrite En in E1. cbn in E1. pose proof (rel_value _ _ H) as E2.
  unfold a_apply. rewrite E1, E2. repeat case_if; [| |done].
  - rewrite disposition_spec, (rel_names _ _ H). destruct H; constructor; keep.
    + by rewrite <- surjective_pairing.
    + intros E. apply rel_field0. destruct (snd (r_names r)) eqn:Ef; [|done].
      exfalso. eapply disposition_keeps; [|exact E]. by rewrite Ef.
    + intros n' Hn'. destruct (rel_upload0 n' Hn') as (? & ? & ? & ? & ?). split_and!; try done. by apply disposition_keeps.
  - rewrite type_spec. pose proof (rel_types _ _ H) as E3. destruct H; constructor; keep.
    apply (f_equal snd) in E3. cbn in E3. by rewrite E3, <- surjective_pairing.
Qed.

Lemma over_orb a b : a || b = true -> a = true \/ b = true.
Proof. by destruct a; [left|right]. Qed.

Lemma begin_related p r : related p r -> related (snd (on_part_begin p)) (snd (a_begin r)).
Proof.
  intros H. by destruct H; constructor; keep.
Qed.

(** What follows the flush of the previous header in [on_header_field]. *)
Lemma field_tail p r l : related p r -> r_value r = [] -> (big <=? blen (r_name r ++ l)) = false ->
  let n := default (fresh_buf INITIAL_HEADER_CAP) (current_header_name p) in
  exists b, str_append n l = Some b /\
    forall o, related (with_header p (Some b) (current_header_value p)) (with_hdr (r_name r ++ l) (r_value r) o r).
Proof.
  intros H Hv Hb n. b2p.
  assert (text n = r_name r /\ buf_ok n) as [Et Hn].
  { subst n. pose proof (rel_name _ _ H) as E. pose proof (rel_name_buf _ _ H) as Eb.
    destruct (current_header_name p); cbn in *; [done|]. split; [done|]. unfold buf_ok, fresh_buf, INITIAL_HEADER_CAP. cbn.
    change (blen []) with 0. lia. }
  destruct (str_append_ok n l Hn) as (b & E & Eb & Hb'); [by rewrite Et|]. exists b. split; [done|]. intros o.
  destruct H; constructor; keep. by rewrite Eb, Et.
Qed.

Lemma field_related p r l : related p r -> is_over (snd (a_field r l)) \/
  (fst (on_header_field p l) = true /\ related (snd (on_header_field p l)) (snd (a_field r l))).
Proof.
  intros H. unfold is_over, a_field, on_header_field. pose proof (rel_value _ _ H) as Ev.
  set (p1 := if 0 <? _ then _ else _). set (r1 := match r_value r with [] => r | _ => _ end).
  assert (related p1 r1 /\ r_value r1 = []) as [H1 Hv].
  { subst p1 r1. rewrite Ev. destruct (r_value r) as [|c v] eqn:E.
    - by rewrite E.
    - replace (0 <? blen (c :: v)) with true by (symmetry; apply Z.ltb_lt; unfold blen; simpl; lia). split; [|done].
      assert (related (apply_header p) (a_apply r)) as Ha by (apply apply_related; [done|]; apply (rel_has_name _ _ H); by rewrite E).
      by destruct Ha; constructor; keep. }
  cbn [snd with_hdr r_over]. destruct (big <=? blen (r_name r1 ++ l)) eqn:Eb; [left; by rewrite orb_true_r|right].
  destruct (field_tail p1 r1 l H1 Hv Eb) as (b & -> & Hr). split; [done|]. apply Hr.
Qed.

Lemma value_related p r l : related p r -> is_over (snd (a_value r l)) \/
  (fst (on_header_value p l) = true /\ related (snd (on_header_value p l)) (snd (a_value r l))).
Proof.
  intros H. unfold is_over, a_value, on_header_value. cbn [snd with_hdr r_over].
  destruct (bool_decide (r_name r = [])) eqn:En; [left; by rewrite orb_true_r|].
  destruct (big <=? blen (r_value r ++ l)) eqn:Eb; [left; by rewrite !orb_true_r|right]. b2p.
  apply bool_decide_eq_false in En. set (n := default _ _).
  assert (text n = r_value r /\ buf_ok n) as [Et Hn].
  { subst n. pose proof (rel_value _ _ H) as E. pose proof (rel_value_buf _ _ H) as Eb'.
    destruct (current_header_value p); cbn in *; [done|]. split; [done|]. unfold buf_ok, fresh_buf, INITIAL_HEADER_CAP. cbn.
    change (blen []) with 0. lia. }
  destruct (str_append_ok n l Hn) as (b & -> & Et' & Hb'); [by rewrite Et|]. split; [done|].
  destruct H; constructor; keep.
  - by rewrite Et', Et.
  - intros _ E. rewrite E in rel_name0. by cbn in rel_name0.
Qed.

Lemma open_related p r f : related p r -> snd (r_names r) = Some f -> bad_upload f r = false ->
  forall o, related (open_upload tmp can_open p f) (with_part (Some (r_tmp r)) [] 0 (r_err r) (S (r_tmp r)) o r).
Proof.
  intros H Hf Hb o. unfold bad_upload in Hb. apply orb_false_iff in Hb as [Hb H3]. apply orb_false_iff in Hb as [H1 H2].
  unfold open_upload. rewrite H1, H2, (rel_files _ _ H), length_map, (rel_config _ _ H).
  change (limit (max_files default_config) MP_MAX_FILES) with MP_MAX_FILES. rewrite H3.
  unfold generate_tmp_path. rewrite Htmp, Hopen, (rel_count _ _ H).
  pose proof (rel_count _ _ H) as Ec.
  assert (Forall (stored (<[path (r_tmp r) := []]> (<[path (r_tmp r) := []]> (disk p))) (S (r_tmp r))) (r_files r)) as Hd.
  { eapply Forall_impl; [exact (rel_disk _ _ H)|]. intros e He n Hn. destruct (He n Hn) as [E Hlt].
    rewrite !lookup_insert_ne by (intros E'; apply (inj path) in E'; lia). split; [done|lia]. }
  assert (Forall (fun e => e_path e <> Some (r_tmp r)) (r_files r)) as Hfresh.
  { eapply Forall_impl; [exact (rel_disk _ _ H)|]. intros e He Hn. destruct (He _ Hn). lia. }
  destruct H; constructor; keep.
  - intros E. by rewrite E in Hf.
  - intros n [= <-]. rewrite lookup_insert_eq, Hf. split_and!; try done. lia.
Qed.

Lemma headers_related p r : related p r -> is_over (snd (a_headers r)) \/
  related (snd (on_headers_complete tmp can_open p)) (snd (a_headers r)).
Proof.
  intros H. unfold is_over, a_headers, a_start, on_headers_complete. cbn [snd fst].
  set (p1 := if _ && _ then _ else _). set (r1 := match r_name r with [] => r | _ => _ end).
  assert (related p1 r1) as H1.
  { subst p1 r1. rewrite (rel_name _ _ H), (rel_value _ _ H).
    destruct (r_name r) as [|c n] eqn:En; [done|]. destruct (r_value r) as [|d v] eqn:Ev.
    - by rewrite andb_false_r.
    - replace (_ && _) with true by (symmetry; apply andb_true_iff; split; apply Z.ltb_lt; unfold blen; simpl; lia).
      apply apply_related; [done|]. apply (rel_has_name _ _ H). by rewrite Ev. }
  clearbody p1 r1. pose proof (rel_names _ _ H1) as En.
  assert (filename p1 = snd (r_names r1)) as Ef by (by rewrite <- En). rewrite Ef.
  destruct (snd (r_names r1)) as [[|c f]|] eqn:E.
  - right. change (0 <? blen []) with false. by destruct H1; constructor; keep.
  - replace (0 <? blen (c :: f)) with true by (symmetry; apply Z.ltb_lt; unfold blen; simpl; lia).
    destruct (bad_upload (c :: f) r1) eqn:Eb; [left; cbn; by rewrite orb_true_r|right].
    by apply open_related.
  - right. destruct H1; constructor; keep.
    + unfold buf_ok, fresh_buf. cbn. change (blen []) with 0.
      destruct (field_value p1) as [b|]; cbn in *; [|unfold INITIAL_FIELD_VALUE_CAP; lia].
      destruct rel_field_buf0 as [Hc _]. split; [done|]. destruct (Z.eq_dec (cap b) 0); [by right|left; lia].
    + intros n Hn. destruct (rel_upload0 n Hn) as (_ & _ & _ & Hx & _). by rewrite E in Hx.
Qed.

Lemma data_related p r l : related p r -> is_over (snd (a_data r l)) \/
  (fst (on_part_data written p l) = true /\ related (snd (on_part_data written p l)) (snd (a_data r l))).
Proof.
  intros H. unfold is_over, a_data, on_part_data. cbn [snd]. rewrite (rel_handle _ _ H), (rel_config _ _ H).
  change (limit (max_file_size default_config) MP_MAX_FILE_SIZE) with MP_MAX_FILE_SIZE.
  change (limit (max_field_size default_config) MP_MAX_FIELD_VALUE_LEN) with MP_MAX_FIELD_VALUE_LEN.
  pose proof (blen_nonneg l). destruct (r_path r) as [n|] eqn:En; cbn [fmap option_fmap option_map].
  - rewrite (rel_size _ _ H), Hwritten, Z.eqb_refl. cbn [negb].
    destruct (MP_MAX_FILE_SIZE <? r_size r + blen l) eqn:Eb; [left; cbn; by rewrite orb_true_r|right]. b2p.
    pose proof (rel_size_pos _ _ H). destruct (rel_upload _ _ H n En) as (Hd & Hs & Hlt & Hx & Hu).
    rewrite (proj2 (Z.ltb_ge _ _)), (proj2 (Z.ltb_ge _ _)) by lia. cbn [orb fst snd]. split; [done|].
    rewrite Hd. cbn [default]. rewrite (firstn_all2 l) by (unfold blen; lia).
    assert (u64 (r_size r + blen l) = r_size r + blen l) as Ew by (unfold u64, MP_MAX_FILE_SIZE in *; apply Z.mod_small; lia).
    pose proof (rel_tmp _ _ H) as Et. rewrite En in Et. pose proof (rel_disk _ _ H) as Hdisk.
    destruct H; constructor; keep.
    + by rewrite rel_size0.
    + lia.
    + intros m [= <-]. rewrite lookup_insert_eq, blen_app, Hs. by split_and!.
    + apply Forall_forall. intros e He m Hm. rewrite Forall_forall in Hdisk, Hu. destruct (Hdisk e He m Hm) as [E ?].
      rewrite lookup_insert_ne; [done|]. intros E'. apply (inj path) in E'. subst m. by apply (Hu e He).
  - rewrite (rel_err _ _ H). pose proof (rel_names _ _ H) as Enm.
    assert (filename p = snd (r_names r)) as Ef by (by rewrite <- Enm). rewrite Ef.
    destruct ((r_err r =? MP_UPLOAD_ERR_OK) && bool_decide (snd (r_names r) = None)) eqn:Ec; [|by right].
    apply andb_true_iff in Ec as [_ Ec]. apply bool_decide_eq_true in Ec. rewrite (rel_field _ _ H Ec).
    destruct (MP_MAX_FIELD_VALUE_LEN <? blen (r_data r ++ l)) eqn:Eb; [left; cbn; by rewrite orb_true_r|right]. b2p.
    rewrite blen_app in Eb. pose proof (blen_nonneg (r_data r)).
    rewrite (proj2 (Z.ltb_ge _ _)), (proj2 (Z.ltb_ge _ _)) by lia. cbn [orb]. set (v := default _ _).
    assert (text v = r_data r /\ buf_ok v) as [Et Hv].
    { subst v. pose proof (rel_field _ _ H Ec) as Et. pose proof (rel_field_buf _ _ H) as Hb.
      destruct (field_value p); cbn in *; [done|]. split; [done|]. unfold buf_ok. cbn. split; [lia|by right]. }
    destruct (str_append_ok v l Hv) as (b & -> & Et' & Hb).
    { rewrite Et, blen_app. unfold big, MP_MAX_FIELD_VALUE_LEN in *. lia. }
    split; [done|]. pose proof (rel_handle _ _ H) as Eh. pose proof (rel_tmp _ _ H) as Etmp.
    rewrite En in Eh, Etmp. destruct H; constructor; keep. by rewrite Et', Et.
Qed.

Lemma expand_ok count c i sz : 0 <= c <= 2 * count + 8 -> 0 <= count < big -> 4 <= i <= 8 -> 0 < sz <= 64 ->
  exists c', expand count c i sz = Some c' /\ 0 <= c' <= 2 * (count + 1) + 8.
Proof.
  unfold big, expand. intros Hc Hn Hi Hs. destruct (Z.leb_spec c count); [|exists c; split; [done|lia]].
  assert (2 ^ 42 <= SIZE_MAX / sz) as Hq.
  { apply Z.div_le_lower_bound; [lia|]. unfold SIZE_MAX, UINT64_MAX. nia. }
  destruct (Z.eqb_spec c 0) as [->|].
  - rewrite (proj2 (Z.ltb_ge i 0)), (proj2 (Z.ltb_ge _ i)) by lia. exists i. split; [done|lia].
  - unfold u64. rewrite Z.mod_small by lia.
    rewrite (proj2 (Z.ltb_ge (c * 2) c)), (proj2 (Z.ltb_ge _ (c * 2))) by lia. exists (c * 2). split; [done|lia].
Qed.

Lemma end_related p r : related p r -> is_over (snd (a_end r)) \/
  (fst (on_part_end p) = true /\ related (snd (on_part_end p)) (snd (a_end r))).
Proof.
  intros H. unfold is_over, a_end, on_part_end. cbn [snd fst with_file filename field_name files files_capacity fields fields_capacity config].
  pose proof (rel_names _ _ H) as En. rewrite <- En. cbn [fst snd]. rewrite (rel_files _ _ H), (rel_fields _ _ H), !length_map, (rel_config _ _ H).
  change (limit (max_fields default_config) MP_MAX_FIELDS) with MP_MAX_FIELDS.
  destruct (filename p) as [f|] eqn:Ef; [|destruct (field_name p) as [n|] eqn:Efn].
  - destruct (big <=? Z.of_nat (length (r_files r))) eqn:Eb; [left; cbn; by rewrite orb_true_r|right]. b2p.
    destruct (expand_ok (Z.of_nat (length (r_files r))) (files_capacity p) INITIAL_FILES_CAPACITY 56) as (c & -> & Hc);
      [apply (rel_files_cap _ _ H)|lia|unfold INITIAL_FILES_CAPACITY; lia|lia|]. split; [done|].
    assert (file_info (with_file p None (tmp_path p) (file_size p)) = file_of (a_entry r)) as Ei.
    { unfold file_info, file_of, a_entry. cbn. pose proof (rel_types _ _ H) as Et. rewrite <- En, <- Et.
      cbn. by rewrite (rel_tmp _ _ H), (rel_size _ _ H), (rel_err _ _ H), Ef. }
    assert (stored (disk p) (r_tmp r) (a_entry r)) as Hst.
    { intros m Hm. cbn in *. destruct (rel_upload _ _ H m Hm) as (? & ? & ? & ? & ?). by rewrite Hm. }
    rewrite Ei. destruct H; constructor; keep.
    + by rewrite map_app.
    + rewrite length_app. simpl. lia.
    + apply Forall_app. split; [done|]. by apply Forall_singleton.
  - destruct (MP_MAX_FIELDS <=? Z.of_nat (length (r_fields r))) eqn:Eb; [left; cbn; by rewrite orb_true_r|right]. b2p.
    destruct (expand_ok (Z.of_nat (length (r_fields r))) (fields_capacity p) INITIAL_FIELDS_CAPACITY 24) as (c & -> & Hc);
      [apply (rel_fields_cap _ _ H)|unfold big, MP_MAX_FIELDS in *; lia|unfold INITIAL_FIELDS_CAPACITY; lia|lia|]. split; [done|].
    assert (snd (r_names r) = None) as En2 by (by rewrite <- En). pose proof (rel_field _ _ H En2) as Et.
    assert (r_path r = None) as Ep.
    { destruct (r_path r) as [m|] eqn:Em; [|done]. destruct (rel_upload _ _ H m Em) as (_ & _ & _ & Hx & _). by rewrite En2 in Hx. }
    pose proof (rel_tmp _ _ H) as Etmp. rewrite Ep in Etmp.
    destruct H; constructor; keep.
    + rewrite map_app. cbn. by rewrite Et.
    + rewrite length_app. simpl. lia.
  - right. split; [done|]. assert (snd (r_names r) = None) as En2 by (by rewrite <- En).
    assert (r_path r = None) as Ep.
    { destruct (r_path r) as [m|] eqn:Em; [|done]. destruct (rel_upload _ _ H m Em) as (_ & _ & _ & Hx & _). by rewrite En2 in Hx. }
    pose proof (rel_tmp _ _ H) as Etmp. rewrite Ep in Etmp. destruct H; constructor; keep.
Qed.

Lemma a_apply_over r : r_over (a_apply r) = r_over r.
Proof. unfold a_apply. by repeat case_if. Qed.

Lemma field_over r l : is_over r -> is_over (snd (a_field r l)).
Proof. unfold is_over. intros H. cbn. destruct (r_value r); cbn; by rewrite ?a_apply_over, H. Qed.

Lemma value_over r l : is_over r -> is_over (snd (a_value r l)).
Proof. unfold is_over. intros H. cbn. by rewrite H. Qed.

Lemma headers_over r : is_over r -> is_over (snd (a_headers r)).
Proof.
  unfold is_over, a_headers, a_start. intros H. cbn [snd]. set (r1 := match r_name r with [] => r | _ => _ end).
  assert (r_over r1 = true) as H1 by (subst r1; destruct (r_name r), (r_value r); by rewrite ?a_apply_over).
  destruct (snd (r_names r1)) as [[|? ?]|]; cbn; by rewrite H1.
Qed.

Lemma data_over' r l : is_over r -> is_over (snd (a_data r l)).
Proof. unfold is_over, a_data. intros H. cbn [snd]. destruct (r_path r); [|case_if]; cbn; by rewrite ?H. Qed.

Lemma end_over r : is_over r -> is_over (snd (a_end r)).
Proof. unfold is_over, a_end. intros H. cbn [snd]. destruct (snd (r_names r)), (fst (r_names r)); cbn; by rewrite H. Qed.

Lemma processor_simulates : simulates (processor_callbacks tmp can_open written) reader_callbacks related is_over.
Proof.
  constructor.
  - split; [done|]. intros p r H. right. split; [done|]. by apply begin_related.
  - intros [|c l]; (split; [intros r H|intros p r H]); [done|by right|by apply field_over|by apply field_related].
  - intros [|c l]; (split; [intros r H|intros p r H]); [done|by right|by apply value_over|by apply value_related].
  - split; [intros r H; by apply headers_over|]. intros p r H. destruct (headers_related p r H) as [?|?]; [by left|right]. by split.
  - intros [|c l]; (split; [intros r H|intros p r H]); [done|by right|by apply data_over'|by apply data_related].
  - split; [intros r H; by apply end_over|]. intros p r H. by apply end_related.
  - split; [done|]. intros p r H. by right.
Qed.

Lemma empty_related d : related (empty_processor default_config d)
  (MkReader [] [] (None, None) (None, None) None [] 0 0 [] [] 0 false).
Proof. by constructor; cbn; try done; try lia. Qed.

End refine.
(** ** Forms as a client renders them *)

Inductive item :=
  | Field (n v : bytes)
  | File (n f t c : bytes).

Definition part_of (i : item) : part :=
  match i with
  | Field n v => {| headers := [(lit "Content-Disposition", lit "form-data" ++ HeaderTools.render_param (lit "name", n))];
                    body := v |}
  | File n f t c =>
      {| headers := [(lit "Content-Disposition", lit "form-data" ++ HeaderTools.render_param (lit "name", n)
                        ++ HeaderTools.render_param (lit "filename", f));
                     (lit "Content-Type", t)];
         body := c |}
  end.

(** Text that can be quoted in a header field. *)
Definition quotable (s : bytes) : Prop := Forall (fun c => c <> CR /\ c <> LF /\ c <> NUL /\ c <> DQUOTE) s.
Definition no_nul (s : bytes) : Prop := Forall (fun c => c <> NUL) s.

Definition item_ok (b : bytes) (i : item) : Prop :=
  match i with
  | Field n v => quotable n /\ no_nul v /\ no_delimiter b v /\ blen v <= MP_MAX_FIELD_VALUE_LEN
  | File n f t c =>
      quotable n /\ quotable f /\ f <> [] /\ blen f <= MP_MAX_FILENAME_LEN /\ has_path_traversal_or_nul f = false /\
      t <> [] /\ Forall (fun c => c <> CR /\ c <> LF /\ c <> NUL /\ c <> SEMI /\ c <> SP /\ c <> HTAB) t /\
      blen t < big /\ blen n < big /\ no_delimiter b c /\ blen c <= MP_MAX_FILE_SIZE
  end.

Definition sent_fields (items : list item) : list (bytes * bytes) :=
  flat_map (fun i => match i with Field n v => [(n, v)] | File _ _ _ _ => [] end) items.

Fixpoint sent_files (k : nat) (items : list item) : list entry :=
  match items with
  | [] => []
  | Field _ _ :: r => sent_files k r
  | File n f t c :: r =>
      {| e_name := Some n; e_filename := Some f; e_type := Some t; e_charset := None; e_path := Some k; e_data := c;
         e_size := blen c; e_error := MP_UPLOAD_ERR_OK |} :: sent_files (S k) r
  end.

Lemma c_str_no_nul s : no_nul s -> c_str s = s.
Proof. intros H. apply take_while_id. eapply Forall_impl; [exact H|]. intros c Hc. by apply negb_true_iff, Z.eqb_neq. Qed.

Lemma quotable_no_nul s : quotable s -> no_nul s.
Proof. intros H. eapply Forall_impl; [exact H|]. naive_solver. Qed.

Lemma quotable_param n s : quotable s -> n <> [] -> Forall HeaderTools.name_char n -> HeaderTools.param_ok (n, s).
Proof. intros H Hn Hc. split_and!; [done..|]. cbn. eapply Forall_impl; [exact H|]. naive_solver. Qed.

Lemma lit_name_ok : HeaderTools.param_ok (lit "name", []) /\ HeaderTools.param_ok (lit "filename", []).
Proof. split; (split; [done|]; split; [|done]); repeat constructor; done. Qed.

Lemma param_name n : quotable n -> HeaderTools.param_ok (lit "name", n).
Proof. intros H. apply quotable_param; [done..|]. apply lit_name_ok. Qed.

Lemma param_filename n : quotable n -> HeaderTools.param_ok (lit "filename", n).
Proof. intros H. apply quotable_param; [done..|]. apply lit_name_ok. Qed.

(** A disposition value: a token, then parameters. *)
Lemma disposition_render ps nf : Forall HeaderTools.param_ok ps -> no_nul (concat (map HeaderTools.render_param ps)) ->
  disposition_names (lit "form-data" ++ concat (map HeaderTools.render_param ps)) nf
  = fold_left name_param (map (fun p => {| HeaderTools.name := fst p; HeaderTools.value := Some (snd p); HeaderTools.quoted := true |}) ps) nf.
Proof.
  intros Hp Hn. unfold disposition_names. rewrite c_str_no_nul.
  2: { apply Forall_app. split; [|done]. repeat constructor; done. }
  assert (drop_while (isnt SEMI) (lit "form-data" ++ concat (map HeaderTools.render_param ps)) = concat (map HeaderTools.render_param ps)) as ->.
  { pose proof (HeaderTools.at_semi_render ps) as Hs. destruct (concat (map HeaderTools.render_param ps)) as [|c r].
    - reflexivity.
    - cbn in Hs. subst c. reflexivity. }
  by rewrite HeaderTools.all_params_render.
Qed.

Lemma render_param_no_nul n s : no_nul n -> no_nul s -> no_nul (HeaderTools.render_param (n, s)).
Proof. intros Hn Hs. unfold HeaderTools.render_param, no_nul. cbn. rewrite !Forall_cons, !Forall_app, !Forall_cons, !Forall_app, !Forall_cons. done. Qed.

Lemma disposition_field n : quotable n ->
  disposition_names (lit "form-data" ++ HeaderTools.render_param (lit "name", n)) (None, None) = (Some n, None).
Proof.
  intros H. rewrite <- (app_nil_r (HeaderTools.render_param _)).
  change (HeaderTools.render_param (lit "name", n) ++ []) with (concat (map HeaderTools.render_param [(lit "name", n)])).
  rewrite disposition_render; [done| |].
  - constructor; [by apply param_name|done].
  - cbn [map concat]. rewrite app_nil_r. apply render_param_no_nul; [repeat constructor; done|by apply quotable_no_nul].
Qed.

Lemma disposition_file n f : quotable n -> quotable f ->
  disposition_names (lit "form-data" ++ HeaderTools.render_param (lit "name", n) ++ HeaderTools.render_param (lit "filename", f)) (None, None)
  = (Some n, Some f).
Proof.
  intros H Hf. rewrite <- (app_nil_r (HeaderTools.render_param (lit "filename", f))).
  change (HeaderTools.render_param (lit "name", n) ++ HeaderTools.render_param (lit "filename", f) ++ [])
    with (concat (map HeaderTools.render_param [(lit "name", n); (lit "filename", f)])).
  rewrite disposition_render; [done| |].
  - constructor; [by apply param_name|]. constructor; [by apply param_filename|done].
  - cbn [map concat]. rewrite app_nil_r. apply Forall_app. split; apply render_param_no_nul;
      try (repeat constructor; done); by apply quotable_no_nul.
Qed.

Lemma type_token t : t <> [] -> Forall (fun c => c <> CR /\ c <> LF /\ c <> NUL /\ c <> SEMI /\ c <> SP /\ c <> HTAB) t ->
  type_pair t None = (Some t, None).
Proof.
  intros _ H. unfold type_pair, parse_content_type. rewrite c_str_no_nul by (eapply Forall_impl; [exact H|]; naive_solver).
  assert (Forall (fun c => negb ((c =? SEMI) || (c =? SP) || (c =? HTAB)) = true) t) as Ht.
  { eapply Forall_impl; [exact H|]. intros c (_ & _ & _ & H1 & H2 & H3). rewrite negb_true_iff, !orb_false_iff, !Z.eqb_neq. done. }
  by rewrite take_while_id, drop_while_id.
Qed.

(** What the reader keeps of a part. *)
Definition progress (r : reader) : list (bytes * bytes) * list entry * nat * bool :=
  (r_fields r, r_files r, r_tmp r, r_over r).

Definition header_value (v : bytes) : Prop := v <> [] /\ blen v < big.

Lemma read_header r n v : header_value v -> n <> [] -> blen n < big -> r_name r = [] -> r_value r = [] -> r_over r = false ->
  snd (a_value (snd (a_field r n)) v) = with_hdr n v false r.
Proof.
  intros [Hv Hb] Hn Hnb E1 E2 E3. destruct r. cbn in *. subst. unfold a_field, a_value, with_hdr. cbn.
  rewrite bool_decide_false by done. by rewrite !(proj2 (Z.leb_gt _ _)).
Qed.

(** The second header of a part: the first one takes effect. *)
Lemma read_next_header r n v : header_value v -> n <> [] -> blen n < big -> r_value r <> [] -> r_over r = false ->
  snd (a_value (snd (a_field r n)) v) = with_hdr n v false (a_apply r).
Proof.
  intros [Hv Hb] Hn Hnb E2 E3. unfold a_field. destruct (r_value r) eqn:E; [done|].
  unfold a_value, with_hdr. cbn. rewrite bool_decide_false by done. rewrite !(proj2 (Z.leb_gt _ _)) by done.
  by rewrite !orb_false_r.
Qed.

Lemma data_is (g : reader -> bytes -> bool * reader) r l : (l = [] -> snd (g r l) = r) ->
  MultipartProofs.data (Some g) r l = snd (g r l).
Proof. intros H. unfold MultipartProofs.data, CALLBACK_DATA. destruct l; [symmetry; by apply H|done]. Qed.

Lemma header_pair_is r n v : n <> [] -> v <> [] ->
  MultipartProofs.data (Some a_value) (MultipartProofs.data (Some a_field) r n) v = snd (a_value (snd (a_field r n)) v).
Proof. intros Hn Hv. rewrite !data_is; done. Qed.

Lemma body_is r l : r_over r = false -> (r_path r <> None -> 0 <= r_size r <= MP_MAX_FILE_SIZE) -> blen (r_data r) <= MP_MAX_FIELD_VALUE_LEN ->
  MultipartProofs.data (Some a_data) r l = snd (a_data r l).
Proof.
  intros Ho Hs Hd. apply data_is. intros ->. destruct r as [? ? ? ? pa d sz ? ? ? ? o]. unfold a_data, with_part. cbn in *. subst o.
  change (blen []) with 0. rewrite app_nil_r, Z.add_0_r. destruct pa as [k|].
  - rewrite (proj2 (Z.ltb_ge _ _)); [done|]. by apply Hs.
  - rewrite (proj2 (Z.ltb_ge _ _)) by done. by case_if.
Qed.

Lemma headers_is r : r_name r <> [] -> r_value r <> [] -> snd (a_headers r) = a_start (a_apply r).
Proof. intros Hn Hv. unfold a_headers. by destruct (r_name r), (r_value r). Qed.

Definition begun (r : reader) : reader := snd (a_begin r).

Lemma disposition_name : eqb_ci (c_str (lit "Content-Disposition")) (lit "Content-Disposition") = true.
Proof. done. Qed.

Lemma field_part r n v : quotable n -> blen n < big / 2 -> blen v <= MP_MAX_FIELD_VALUE_LEN -> r_over r = false ->
  Z.of_nat (length (r_fields r)) < MP_MAX_FIELDS ->
  progress (apply_part reader_callbacks r (part_of (Field n v))) = (r_fields r ++ [(n, v)], r_files r, r_tmp r, false).
Proof.
  intros Hq Hn Hv Ho Hf. unfold apply_part, open_part, apply_headers, call. cbn [headers body part_of fold_left MP_CALLBACK reader_callbacks
    Multipart.on_part_begin Multipart.on_header_field Multipart.on_header_value Multipart.on_headers_complete Multipart.on_part_data Multipart.on_part_end].
  set (val := lit "form-data" ++ _). cbn [fst snd].
  assert (header_value val) as Hval.
  { split; [done|]. unfold val, HeaderTools.render_param. rewrite !blen_app. cbn [fst snd].
    change (blen (lit "form-data")) with 9. change (blen [SEMI; SP]) with 2. change (blen (lit "name")) with 4.
    change (blen [EQUALS; DQUOTE]) with 2. change (blen [DQUOTE]) with 1. unfold big in *. change (2 ^ 40 / 2) with (2 ^ 39) in Hn. lia. }
  change (snd (a_begin r)) with (begun r). rewrite header_pair_is; [|done|by destruct Hval].
  rewrite read_header; [|done..|exact Ho].
  rewrite headers_is; [|done|by destruct Hval]. unfold a_apply. cbn [with_hdr r_name r_value]. rewrite disposition_name. cbn [r_names]. change (r_names (begun r)) with (@None bytes, @None bytes).
  unfold val. rewrite disposition_field by done. unfold a_start. cbn [fst snd r_names].
  rewrite body_is; [| cbn; by rewrite Ho | done | cbn; unfold MP_MAX_FIELD_VALUE_LEN; change (blen []) with 0; lia].
  unfold a_data. cbn -[Z.ltb]. rewrite Ho, (proj2 (Z.ltb_ge _ _)) by done. cbn.
  unfold progress. cbn. by rewrite (proj2 (Z.leb_gt _ _)).
Qed.

Lemma file_part r n f t c : quotable n -> quotable f -> f <> [] -> blen n < big / 2 ->
  blen f <= MP_MAX_FILENAME_LEN -> has_path_traversal_or_nul f = false ->
  t <> [] -> Forall (fun c => c <> CR /\ c <> LF /\ c <> NUL /\ c <> SEMI /\ c <> SP /\ c <> HTAB) t -> blen t < big ->
  blen c <= MP_MAX_FILE_SIZE -> r_over r = false -> Z.of_nat (length (r_files r)) < MP_MAX_FILES ->
  progress (apply_part reader_callbacks r (part_of (File n f t c)))
  = (r_fields r, r_files r ++ sent_files (r_tmp r) [File n f t c], S (r_tmp r), false).
Proof.
  intros Hq Hqf Hf0 Hn Hf Htr Ht0 Ht Htb Hc Ho Hfs. unfold apply_part, open_part, apply_headers, call.
  cbn [headers body part_of fold_left MP_CALLBACK reader_callbacks
    Multipart.on_part_begin Multipart.on_header_field Multipart.on_header_value Multipart.on_headers_complete Multipart.on_part_data Multipart.on_part_end].
  set (val := lit "form-data" ++ _). cbn [fst snd].
  assert (header_value val) as Hval.
  { split; [done|]. unfold val, HeaderTools.render_param. rewrite !blen_app. cbn [fst snd].
    change (blen (lit "form-data")) with 9. change (blen [SEMI; SP]) with 2. change (blen (lit "name")) with 4.
    change (blen (lit "filename")) with 8. change (blen [EQUALS; DQUOTE]) with 2. change (blen [DQUOTE]) with 1.
    unfold big, MP_MAX_FILENAME_LEN in *. change (2 ^ 40 / 2) with (2 ^ 39) in Hn. lia. }
  change (snd (a_begin r)) with (begun r). rewrite (header_pair_is (begun r)); [|done|by destruct Hval].
  rewrite (read_header (begun r)); [|done..|exact Ho].
  rewrite header_pair_is by done. rewrite read_next_header; [|done|done|done|cbn; by destruct Hval|cbn; by rewrite Ho].
  unfold a_apply at 1. cbn [with_hdr r_name r_value]. rewrite disposition_name. cbn [r_names].
  change (r_names (begun r)) with (@None bytes, @None bytes). unfold val. rewrite disposition_file by done.
  rewrite headers_is by done. unfold a_apply. cbn [with_hdr r_name r_value]. change (eqb_ci (c_str (lit "Content-Type")) (lit "Content-Disposition")) with false.
  change (eqb_ci (c_str (lit "Content-Type")) (lit "Content-Type")) with true. cbn [r_names r_types fst snd].
  change (snd (r_types (begun r))) with (@None bytes). rewrite type_token by done.
  unfold a_start. cbn [with_hdr r_names snd fst]. destruct f as [|f0 f'] eqn:Ef; [done|]. rewrite <- Ef in *.
    match goal with |- context [bad_upload f ?x] => assert (bad_upload f x = false) as Hbad end.
  { unfold bad_upload. cbn [r_files]. rewrite Htr, (proj2 (Z.ltb_ge _ _)), (proj2 (Z.leb_gt _ _)); done. }
  rewrite Hbad.
  rewrite body_is; [| cbn; by rewrite Ho | cbn; unfold MP_MAX_FILE_SIZE; lia | cbn; unfold MP_MAX_FIELD_VALUE_LEN; change (blen []) with 0; lia].
  unfold a_data. cbn -[Z.ltb]. rewrite Ho, (proj2 (Z.ltb_ge _ _)) by lia. cbn.
  unfold progress. cbn. rewrite (proj2 (Z.leb_gt _ _)); [by rewrite Ef|]. unfold big, MP_MAX_FILES in *. lia.
Qed.

Lemma sent_files_app k a b : sent_files k (a ++ b) = sent_files k a ++ sent_files (k + length (sent_files k a)) b.
Proof.
  revert k. induction a as [|[n v|n f t c] a IH]; intros k; cbn [app sent_files length].
  - by rewrite Nat.add_0_r.
  - apply IH.
  - rewrite IH. by rewrite Nat.add_succ_r.
Qed.

Lemma sent_files_length k l items : length (sent_files k items) = length (sent_files l items).
Proof. revert k l. induction items as [|[n v|n f t c] r IH]; intros k l; cbn; [done|apply IH|]. by rewrite (IH (S k) (S l)). Qed.

(** Names short enough for a header. *)
Definition short (i : item) : Prop := match i with Field n _ | File n _ _ _ => blen n < big / 2 end.

Lemma form_read b items : forall r,
  Forall (item_ok b) items -> Forall short items -> r_over r = false ->
  Z.of_nat (length (r_fields r ++ sent_fields items)) <= MP_MAX_FIELDS ->
  Z.of_nat (length (r_files r ++ sent_files 0 items)) <= MP_MAX_FILES ->
  exists t, progress (fold_left (apply_part reader_callbacks) (map part_of items) r)
    = (r_fields r ++ sent_fields items, r_files r ++ sent_files (r_tmp r) items, t, false).
Proof.
  induction items as [|i items IH]; intros r Hok Hs Ho Hf Hu.
  - exists (r_tmp r). cbn. unfold progress. by rewrite !app_nil_r, Ho.
  - rewrite Forall_cons in Hok, Hs. destruct Hok as [Hi Hok], Hs as [Hsi Hs].
    rewrite length_app in Hf, Hu. cbn [map fold_left].
    destruct i as [n v|n f t c]; cbn [sent_fields flat_map sent_files app length] in Hf, Hu.
    + destruct Hi as (Hq & _ & _ & Hv).
      pose proof (field_part r n v Hq Hsi Hv Ho ltac:(lia)) as E. set (r' := apply_part _ _ _) in *.
      unfold progress in E. injection E as E1 E2 E3 E4.
      destruct (IH r' Hok Hs E4) as (t & Et); [rewrite E1, !length_app; cbn; fold (sent_fields items) in Hf; lia|by rewrite E2, length_app|].
      exists t. rewrite Et, E1, E2, E3, <- app_assoc. done.
    + destruct Hi as (Hq & Hqf & Hf0 & Hfl & Htr & Ht0 & Ht & Htb & Hnb & _ & Hc).
      pose proof (file_part r n f t c Hq Hqf Hf0 Hsi Hfl Htr Ht0 Ht Htb Hc Ho ltac:(lia)) as E. set (r' := apply_part _ _ _) in *.
      unfold progress in E. injection E as E1 E2 E3 E4.
      destruct (IH r' Hok Hs E4) as (t' & Et); [rewrite E1, length_app; done| |].
      { rewrite E2, !length_app. cbn [sent_files length]. rewrite (sent_files_length 0 1). lia. }
      exists t'. rewrite Et, E1, E2, E3, <- app_assoc. done.
Qed.

(** Feeding the chunks of a request body until one is refused. *)
Section upload.
Context (tmp : nat -> option bytes) (can_open : bytes -> bool) (written : bytes -> Z -> Z -> Z).

Fixpoint feed_all (x : processor) (chunks : list bytes) : option (bool * processor) :=
  match chunks with
  | [] => Some (true, x)
  | d :: rest =>
      '(r, x') ← mp_processor_feed tmp can_open written x d;
      if r <? 0 then Some (false, x') else feed_all x' rest
  end.

Lemma feed_all_feed chunks q p ok q' p' :
  feed (processor_callbacks tmp can_open written) q p chunks = Some (ok, q', p') ->
  feed_all (q, p) chunks = Some (ok, (q', p')).
Proof.
  revert q p. induction chunks as [|d rest IH]; intros q p; cbn [feed feed_all]; [by intros [= <- <- <-]|].
  unfold mp_processor_feed. cbn [fst snd]. destruct (multipart_parser_execute _ q p d) as [[[r q1] p1]|]; [|done].
  cbn [mbind option_bind]. destruct (r <? 0); [by intros [= <- <- <-]|]. apply IH.
Qed.
End upload.

Lemma item_part_ok b i : item_ok b i -> part_ok b (part_of i).
Proof.
  assert (forall n s, Forall value_char n -> quotable s -> Forall value_char (HeaderTools.render_param (n, s))) as Hr.
  { intros n s Hn Hs. unfold HeaderTools.render_param. cbn [fst snd]. rewrite !Forall_app. split_and!; try done; try (repeat constructor; done).
    eapply Forall_impl; [exact Hs|]. unfold value_char. naive_solver. }
  assert (Forall value_char (lit "form-data") /\ Forall value_char (lit "name") /\ Forall value_char (lit "filename")) as (Hf & Hn & Hfn).
  { split_and!; repeat constructor; done. }
  assert (Forall name_char (lit "Content-Disposition") /\ Forall name_char (lit "Content-Type")) as (Hcd & Hct).
  { split; repeat constructor; done. }
  destruct i as [n v|n f t c]; unfold part_ok; cbn [item_ok part_of headers body].
  - intros (Hq & _ & Hd & _). split; [|done]. constructor; [|done]. unfold header_ok. cbn [fst snd]. split_and!; try done.
    apply Forall_app. split; [done|]. by apply Hr.
  - intros (Hq & Hqf & Hf0 & _ & _ & Ht0 & Ht & _ & _ & Hd & _). split; [|done]. constructor; [|constructor; [|done]];
      unfold header_ok; cbn [fst snd]; split_and!; try done.
    + rewrite !Forall_app. split_and!; [done|by apply Hr|by apply Hr].
    + eapply Forall_impl; [exact Ht|]. unfold value_char. naive_solver.
    + destruct t as [|c0 t]; [done|]. rewrite Forall_cons in Ht. destruct Ht as [(_ & _ & _ & _ & H1 & H2) _].
      unfold is_ows. by rewrite orb_false_iff, !Z.eqb_neq.
Qed.

Lemma stringl_whole v : no_nul v -> zval_stringl (c_str v) (blen v) = Some v.
Proof.
  intros H. unfold zval_stringl. rewrite c_str_no_nul by done. rewrite (proj2 (Z.ltb_ge _ _)) by lia.
  unfold blen. by rewrite Nat2Z.id, take_app_length.
Qed.

Lemma post_fields fs h : Forall (fun f => no_nul (snd f)) fs ->
  fold_left add_field (map field_of fs) (Some h) = Some (fold_left (fun h f => hash_update h (fst f) (snd f)) fs h).
Proof.
  intros H. revert h. induction H as [|f fs Hf _ IH]; intros h; cbn [map fold_left]; [done|].
  unfold add_field at 2. cbn [field_of fd_value value_len fd_name mbind option_bind]. rewrite stringl_whole by done. apply IH.
Qed.

Lemma sent_fields_no_nul b items : Forall (item_ok b) items -> Forall (fun f => no_nul (snd f)) (sent_fields items).
Proof.
  induction 1 as [|i items Hi _ IH]; [done|]. cbn [sent_fields flat_map]. apply Forall_app. split; [|exact IH].
  destruct i as [n v|n f t c]; [|done]. apply Forall_singleton. by destruct Hi as (_ & Hv & _).
Qed.


(** ** Concrete forms *)

Definition demo_path (n : nat) : bytes := lit "/tmp/u" ++ replicate n 65.

#[local] Instance demo_path_inj : Inj (=) (=) demo_path.
Proof. intros n m H. apply (f_equal length) in H. unfold demo_path in H. rewrite !length_app, !length_replicate in H. lia. Qed.

Definition demo_tmp (n : nat) : option bytes := Some (demo_path n).
Definition demo_open (_ : bytes) : bool := true.
Definition demo_written (_ : bytes) (_ n : Z) : Z := n.

Definition demo_items : list item :=
  [Field (lit "a") (lit "1"); File (lit "f[]") (lit "x.txt") (lit "text/plain") [0; 13; 10; 45; 45]; Field (lit "a") []].

Definition demo_body : bytes := render_form (lit "BB") (map part_of demo_items) [].


(** The state after feeding a body in the given chunks, with a limit on fields. *)
Definition received (limit : Z) (chunks : list bytes) : option (bool * processor) :=
  x ← mp_processor_create (Some (lit "BB"))
        (Some {| max_file_size := 0; max_field_size := limit; max_files := 0; max_fields := 0 |}) ∅;
  feed_all demo_tmp demo_open demo_written x chunks.

Definition fields_of (r : option (bool * processor)) : option (list mp_field_info_t) :=
  '(ok, x) ← r; if (ok : bool) && mp_processor_is_complete x then Some (mp_processor_get_fields x) else None.

(** A field value with a NUL byte is duplicated up to the NUL but keeps the length of the whole
    value, so that copying it into PHP's table reads past the end of the duplicate: the request
    is accepted and complete, and handing over the form has no defined result. *)
Theorem multipart_nul_overread :
  exists x, received 0 [render_form (lit "BB") [part_of (Field (lit "a") [49; 0; 50; 51])] []] = Some (true, x) /\
    mp_processor_is_complete x = true /\ finalize_multipart (snd x) = None.
Proof. eexists. split; [vm_compute; reflexivity|]. split; vm_compute; reflexivity. Qed.

(** A part header with an empty value runs into the next header's name, so that a field
    whose [Content-Disposition] follows it is dropped from the form. *)
Theorem multipart_empty_header_drops_field :
  fields_of (received 0 [render_form (lit "BB")
    [{| headers := (lit "X-Empty", []) :: headers (part_of (Field (lit "a") (lit "1"))); body := lit "1" |}] []]) = Some [] /\
  fields_of (received 0 [render_form (lit "BB") [part_of (Field (lit "a") (lit "1"))] []])
    = Some [{| fd_name := lit "a"; fd_value := lit "1"; value_len := 1 |}].
Proof. split; vm_compute; reflexivity. Qed.

(** A field over the limit is not cut at the limit: what is kept depends on how the body was
    split into reads. *)
Theorem multipart_oversize_depends_on_chunks :
  exists body, fields_of (received 4 [body]) = Some [{| fd_name := lit "a"; fd_value := []; value_len := 0 |}] /\
    fields_of (received 4 [take 52 body; drop 52 body])
      = Some [{| fd_name := lit "a"; fd_value := lit "ab"; value_len := 2 |}].
Proof.
  exists (render_form (lit "BB") [part_of (Field (lit "a") (lit "abcdef"))] []). split; vm_compute; reflexivity.
Qed.

(** An upload that is cut off leaves its temporary file: the clean-up removes the files of
    finished parts only. *)
Theorem multipart_abort_leaks_file :
  exists x, received 0 [take 130 (render_form (lit "BB") [part_of (File (lit "f") (lit "x") (lit "t") (replicate 100 65))] [])] = Some (true, x) /\
    exists c, mp_processor_destroy (mp_processor_cleanup_temp_files x) !! demo_path 0 = Some c.
Proof. eexists. split; [vm_compute; reflexivity|]. eexists. vm_compute. reflexivity. Qed.

End MultipartForm.
