(* ===== verification/Http1Parser.v ===== *)
(** * The HTTP/1 request parser

    Models src/src/http1/http_parser.c: the callbacks that turn what llhttp reports into
    a request, its hand-over to the connection, and the life of the parser on a
    keep-alive connection; the table of known names in src/src/core/http_known_strings.c;
    the parser pool and [http_parse_request] of src/src/http_server.c; [http1_feed] of
    src/src/core/http_protocol_strategy.c and the read completion of
    src/src/core/http_connection.c that drive it; and the trace context of
    src/src/log/trace_context.c.

    Requests live on a heap; a callback that follows a dangling or [NULL] request pointer
    has the result [None].  llhttp is third-party code: the events it reports are the
    argument of [run_events].  A handler object holds a request from dispatch until it is
    destroyed. *)

From S2P Require Import Prelude BodyStream Grpc HeaderTools MultipartProcessor.

Module Http1Parser.
Import BodyStream(zlen).

Inductive http_parse_error_t :=
  | HTTP_PARSE_OK
  | HTTP_PARSE_ERR_URI_TOO_LONG
  | HTTP_PARSE_ERR_HEADER_NAME_TOO_LARGE
  | HTTP_PARSE_ERR_HEADER_VALUE_TOO_LARGE
  | HTTP_PARSE_ERR_HEADERS_TOTAL_TOO_LARGE
  | HTTP_PARSE_ERR_TOO_MANY_HEADERS
  | HTTP_PARSE_ERR_BAD_HEADER
  | HTTP_PARSE_ERR_BODY_TOO_LARGE
  | HTTP_PARSE_ERR_MALFORMED
  | HTTP_PARSE_ERR_INVALID_CONTENT_LENGTH
  | HTTP_PARSE_ERR_CONFLICTING_HEADERS
  | HTTP_PARSE_ERR_INVALID_HTTP_VERSION
  | HTTP_PARSE_ERR_INVALID_HOST
  | HTTP_PARSE_ERR_BAD_METHOD
  | HTTP_PARSE_ERR_OUT_OF_MEMORY
  | HTTP_PARSE_ERR_SERVICE_UNAVAILABLE.

#[export] Instance http_parse_error_eq_dec : EqDecision http_parse_error_t.
Proof. solve_decision. Defined.

Definition HTTP_MAX_URI_SIZE : Z := 8 * 1024.
Definition HTTP_MAX_HEADER_NAME : Z := 1 * 1024.
Definition HTTP_MAX_HEADER_VALUE : Z := 8 * 1024.
Definition HTTP_MAX_HEADERS_TOTAL : Z := 64 * 1024.
Definition HTTP_MAX_HEADER_COUNT : Z := 256.

(** What the parser reads of the connection and its view of the server. *)
Record view_t := { body_streaming_enabled : bool; telemetry_enabled : bool }.

Record http_request_t := MkRequest {
  base : BodyStream.http_request_t;
  method : option bytes;
  uri : option bytes;
  headers : hashtable;
  chunked : bool;
  keep_alive : bool;
  use_multipart : bool;
  multipart_proc : option MultipartProcessor.processor;
  post_data : option (list (bytes * bytes));
  files : option (list (bytes * MultipartProcessor.uploaded));
  http_major : Z;
  http_minor : Z;
  trace : option HeaderTools.trace_context;
  traceparent_raw : option bytes;
  tracestate_raw : option bytes;
  refcount : Z;
}.

Definition r_base (v0 : BodyStream.http_request_t) (r : http_request_t) : http_request_t :=
  MkRequest v0 (method r) (uri r) (headers r) (chunked r) (keep_alive r) (use_multipart r) (multipart_proc r)
  (post_data r) (files r) (http_major r) (http_minor r) (trace r) (traceparent_raw r) (tracestate_raw r)
  (refcount r).

Definition r_line (v0 : option bytes) (v1 : option bytes) (v2 : Z) (v3 : Z) (r : http_request_t) : http_request_t :=
  MkRequest (base r) v0 v1 (headers r) (chunked r) (keep_alive r) (use_multipart r) (multipart_proc r)
  (post_data r) (files r) v2 v3 (trace r) (traceparent_raw r) (tracestate_raw r) (refcount r).

Definition r_headers (v0 : hashtable) (r : http_request_t) : http_request_t :=
  MkRequest (base r) (method r) (uri r) v0 (chunked r) (keep_alive r) (use_multipart r) (multipart_proc r)
  (post_data r) (files r) (http_major r) (http_minor r) (trace r) (traceparent_raw r) (tracestate_raw r)
  (refcount r).

Definition r_chunked (v0 : bool) (r : http_request_t) : http_request_t :=
  MkRequest (base r) (method r) (uri r) (headers r) v0 (keep_alive r) (use_multipart r) (multipart_proc r)
  (post_data r) (files r) (http_major r) (http_minor r) (trace r) (traceparent_raw r) (tracestate_raw r)
  (refcount r).

Definition r_keep_alive (v0 : bool) (r : http_request_t) : http_request_t :=
  MkRequest (base r) (method r) (uri r) (headers r) (chunked r) v0 (use_multipart r) (multipart_proc r)
  (post_data r) (files r) (http_major r) (http_minor r) (trace r) (traceparent_raw r) (tracestate_raw r)
  (refcount r).

Definition r_multipart (v0 : bool) (v1 : option MultipartProcessor.processor) (r : http_request_t) : http_request_t :=
  MkRequest (base r) (method r) (uri r) (headers r) (chunked r) (keep_alive r) v0 v1 (post_data r) (files r)
  (http_major r) (http_minor r) (trace r) (traceparent_raw r) (tracestate_raw r) (refcount r).

Definition r_form (v0 : option (list (bytes * bytes))) (v1 : option (list (bytes * MultipartProcessor.uploaded))) (r : http_request_t) : http_request_t :=
  MkRequest (base r) (method r) (uri r) (headers r) (chunked r) (keep_alive r) (use_multipart r)
  (multipart_proc r) v0 v1 (http_major r) (http_minor r) (trace r) (traceparent_raw r) (tracestate_raw r)
  (refcount r).

Definition r_trace (v0 : option HeaderTools.trace_context) (v1 : option bytes) (v2 : option bytes) (r : http_request_t) : http_request_t :=
  MkRequest (base r) (method r) (uri r) (headers r) (chunked r) (keep_alive r) (use_multipart r)
  (multipart_proc r) (post_data r) (files r) (http_major r) (http_minor r) v0 v1 v2 (refcount r).

Definition r_refcount (v0 : Z) (r : http_request_t) : http_request_t :=
  MkRequest (base r) (method r) (uri r) (headers r) (chunked r) (keep_alive r) (use_multipart r)
  (multipart_proc r) (post_data r) (files r) (http_major r) (http_minor r) (trace r) (traceparent_raw r)
  (tracestate_raw r) v0.

Record http1_parser_t := MkParser {
  request : option nat;
  conn : option view_t;
  dispatch_cb : bool;
  uri_builder : option bytes;
  body_builder : option bytes;
  header_name_builder : option bytes;
  header_value_builder : option bytes;
  body_offset : Z;
  total_headers_size : Z;
  max_body_size : Z;
  cl_value_first : Z;
  cl_seen_count : Z;
  header_count : Z;
  host_seen_count : Z;
  ct_seen_count : Z;
  te_chunked_seen : bool;
  in_header_value : bool;
  paused : bool;
  parse_error : http_parse_error_t;
  owns_request : bool;
  dispatched : bool;
}.

Definition p_request (v0 : option nat) (v1 : bool) (v2 : bool) (p : http1_parser_t) : http1_parser_t :=
  MkParser v0 (conn p) (dispatch_cb p) (uri_builder p) (body_builder p) (header_name_builder p)
  (header_value_builder p) (body_offset p) (total_headers_size p) (max_body_size p) (cl_value_first p)
  (cl_seen_count p) (header_count p) (host_seen_count p) (ct_seen_count p) (te_chunked_seen p)
  (in_header_value p) (paused p) (parse_error p) v1 v2.

Definition p_wiring (v0 : option view_t) (v1 : bool) (p : http1_parser_t) : http1_parser_t :=
  MkParser (request p) v0 v1 (uri_builder p) (body_builder p) (header_name_builder p) (header_value_builder p)
  (body_offset p) (total_headers_size p) (max_body_size p) (cl_value_first p) (cl_seen_count p)
  (header_count p) (host_seen_count p) (ct_seen_count p) (te_chunked_seen p) (in_header_value p) (paused p)
  (parse_error p) (owns_request p) (dispatched p).

Definition p_uri (v0 : option bytes) (p : http1_parser_t) : http1_parser_t :=
  MkParser (request p) (conn p) (dispatch_cb p) v0 (body_builder p) (header_name_builder p)
  (header_value_builder p) (body_offset p) (total_headers_size p) (max_body_size p) (cl_value_first p)
  (cl_seen_count p) (header_count p) (host_seen_count p) (ct_seen_count p) (te_chunked_seen p)
  (in_header_value p) (paused p) (parse_error p) (owns_request p) (dispatched p).

Definition p_body (v0 : option bytes) (p : http1_parser_t) : http1_parser_t :=
  MkParser (request p) (conn p) (dispatch_cb p) (uri_builder p) v0 (header_name_builder p)
  (header_value_builder p) (body_offset p) (total_headers_size p) (max_body_size p) (cl_value_first p)
  (cl_seen_count p) (header_count p) (host_seen_count p) (ct_seen_count p) (te_chunked_seen p)
  (in_header_value p) (paused p) (parse_error p) (owns_request p) (dispatched p).

Definition p_header (v0 : option bytes) (v1 : option bytes) (v2 : bool) (p : http1_parser_t) : http1_parser_t :=
  MkParser (request p) (conn p) (dispatch_cb p) (uri_builder p) (body_builder p) v0 v1 (body_offset p)
  (total_headers_size p) (max_body_size p) (cl_value_first p) (cl_seen_count p) (header_count p)
  (host_seen_count p) (ct_seen_count p) (te_chunked_seen p) v2 (paused p) (parse_error p) (owns_request p)
  (dispatched p).

Definition p_offset (v0 : Z) (p : http1_parser_t) : http1_parser_t :=
  MkParser (request p) (conn p) (dispatch_cb p) (uri_builder p) (body_builder p) (header_name_builder p)
  (header_value_builder p) v0 (total_headers_size p) (max_body_size p) (cl_value_first p) (cl_seen_count p)
  (header_count p) (host_seen_count p) (ct_seen_count p) (te_chunked_seen p) (in_header_value p) (paused p)
  (parse_error p) (owns_request p) (dispatched p).

Definition p_total (v0 : Z) (p : http1_parser_t) : http1_parser_t :=
  MkParser (request p) (conn p) (dispatch_cb p) (uri_builder p) (body_builder p) (header_name_builder p)
  (header_value_builder p) (body_offset p) v0 (max_body_size p) (cl_value_first p) (cl_seen_count p)
  (header_count p) (host_seen_count p) (ct_seen_count p) (te_chunked_seen p) (in_header_value p) (paused p)
  (parse_error p) (owns_request p) (dispatched p).

Definition p_cl (v0 : Z) (v1 : Z) (p : http1_parser_t) : http1_parser_t :=
  MkParser (request p) (conn p) (dispatch_cb p) (uri_builder p) (body_builder p) (header_name_builder p)
  (header_value_builder p) (body_offset p) (total_headers_size p) (max_body_size p) v0 v1 (header_count p)
  (host_seen_count p) (ct_seen_count p) (te_chunked_seen p) (in_header_value p) (paused p) (parse_error p)
  (owns_request p) (dispatched p).

Definition p_count (v0 : Z) (p : http1_parser_t) : http1_parser_t :=
  MkParser (request p) (conn p) (dispatch_cb p) (uri_builder p) (body_builder p) (header_name_builder p)
  (header_value_builder p) (body_offset p) (total_headers_size p) (max_body_size p) (cl_value_first p)
  (cl_seen_count p) v0 (host_seen_count p) (ct_seen_count p) (te_chunked_seen p) (in_header_value p) (paused p)
  (parse_error p) (owns_request p) (dispatched p).

Definition p_host (v0 : Z) (p : http1_parser_t) : http1_parser_t :=
  MkParser (request p) (conn p) (dispatch_cb p) (uri_builder p) (body_builder p) (header_name_builder p)
  (header_value_builder p) (body_offset p) (total_headers_size p) (max_body_size p) (cl_value_first p)
  (cl_seen_count p) (header_count p) v0 (ct_seen_count p) (te_chunked_seen p) (in_header_value p) (paused p)
  (parse_error p) (owns_request p) (dispatched p).

Definition p_ct (v0 : Z) (p : http1_parser_t) : http1_parser_t :=
  MkParser (request p) (conn p) (dispatch_cb p) (uri_builder p) (body_builder p) (header_name_builder p)
  (header_value_builder p) (body_offset p) (total_headers_size p) (max_body_size p) (cl_value_first p)
  (cl_seen_count p) (header_count p) (host_seen_count p) v0 (te_chunked_seen p) (in_header_value p) (paused p)
  (parse_error p) (owns_request p) (dispatched p).

Definition p_te (v0 : bool) (p : http1_parser_t) : http1_parser_t :=
  MkParser (request p) (conn p) (dispatch_cb p) (uri_builder p) (body_builder p) (header_name_builder p)
  (header_value_builder p) (body_offset p) (total_headers_size p) (max_body_size p) (cl_value_first p)
  (cl_seen_count p) (header_count p) (host_seen_count p) (ct_seen_count p) v0 (in_header_value p) (paused p)
  (parse_error p) (owns_request p) (dispatched p).

Definition p_paused (v0 : bool) (p : http1_parser_t) : http1_parser_t :=
  MkParser (request p) (conn p) (dispatch_cb p) (uri_builder p) (body_builder p) (header_name_builder p)
  (header_value_builder p) (body_offset p) (total_headers_size p) (max_body_size p) (cl_value_first p)
  (cl_seen_count p) (header_count p) (host_seen_count p) (ct_seen_count p) (te_chunked_seen p)
  (in_header_value p) v0 (parse_error p) (owns_request p) (dispatched p).

Definition p_error (v0 : http_parse_error_t) (p : http1_parser_t) : http1_parser_t :=
  MkParser (request p) (conn p) (dispatch_cb p) (uri_builder p) (body_builder p) (header_name_builder p)
  (header_value_builder p) (body_offset p) (total_headers_size p) (max_body_size p) (cl_value_first p)
  (cl_seen_count p) (header_count p) (host_seen_count p) (ct_seen_count p) (te_chunked_seen p)
  (in_header_value p) (paused p) v0 (owns_request p) (dispatched p).

(** [objects] are the requests that PHP objects hold; [handed] those that were passed to
    the dispatch callback, in order. *)
Record world := MkWorld {
  prs : http1_parser_t;
  heap : gmap nat http_request_t;
  next : nat;
  objects : gset nat;
  handed : list nat;
}.

Definition on_prs (f : http1_parser_t -> http1_parser_t) (w : world) : world :=
  MkWorld (f (prs w)) (heap w) (next w) (objects w) (handed w).
Definition on_heap (h : gmap nat http_request_t) (w : world) : world :=
  MkWorld (prs w) h (next w) (objects w) (handed w).

(** The request the parser points to. *)
Definition current (w : world) : option (nat * http_request_t) :=
  id ← request (prs w); r ← heap w !! id; Some (id, r).

Definition update (id : nat) (r : http_request_t) (w : world) : world := on_heap (<[id := r]> (heap w)) w.

Definition fail (e : http_parse_error_t) (w : world) : world := on_prs (p_error e) w.

(** ** Small functions *)

Fixpoint content_length_loop (s : bytes) (v : Z) : option Z :=
  match s with
  | [] => Some v
  | c :: r =>
      if negb (is_digit c) then None
      else if (UINT64_MAX - (c - 48)) / 10 <? v then None
      else content_length_loop r (v * 10 + (c - 48))
  end.

Definition parse_content_length (s : bytes) : option Z :=
  match s with [] => None | _ => content_length_loop s 0 end.

Definition http1_host_value_valid (v : bytes) : bool :=
  negb (length v =? 0)%nat
  && forallb (fun c => negb (mem_byte c (lit "@/?#, ") || (c =? HTAB))) v.

Definition known_header_table : list bytes :=
  map lit ["host"; "user-agent"; "accept"; "accept-encoding"; "accept-language"; "connection"; "content-length";
           "content-type"; "cache-control"; "if-modified-since"; "if-none-match"; "etag"; "authorization"; "cookie";
           "origin"; "referer"; "x-forwarded-for"; "x-forwarded-proto"; "x-real-ip"; "transfer-encoding"; "scheme";
           "range"; "upgrade"]%string.

Definition http_known_header_lookup (name : bytes) : bool := existsb (eqb_bytes name) known_header_table.

(** [smart_str_appendl] allocates even for no bytes. *)
Definition append (b : option bytes) (at_ : bytes) : option bytes := Some (default [] b ++ at_).
Definition built (b : option bytes) : Z := zlen (default [] b).

(** [strncasecmp(v, s, |s|) == 0]. *)
Definition prefix_ci (s v : bytes) : bool := eqb_ci s (take (length s) (c_str v)).

Definition http_request_store_header (name value : bytes) (h : hashtable) : hashtable :=
  m ← h;
  Some (match m !! name with
        | Some (ZString old) =>
            <[name := ZString (old ++ lit (if eqb_bytes name (lit "cookie") then "; " else ", ") ++ value)]> m
        | _ => <[name := ZString value]> m
        end).

Definition fresh_base : BodyStream.http_request_t :=
  BodyStream.MkReq 0 BodyStream.GRPC_MODE_NONE None false false false false false [] 0 0 0 false false None 0
    BodyStream.Idle.

Definition fresh_request : http_request_t :=
  MkRequest fresh_base None None None false false false None None None 0 0 None None None 1.

Definition set_content_length (n : Z) (b : BodyStream.http_request_t) : BodyStream.http_request_t :=
  BodyStream.MkReq n (BodyStream.grpc_mode b) (BodyStream.body b) (BodyStream.complete b) (BodyStream.body_streaming b)
    (BodyStream.body_upgrade_to_stream b) (BodyStream.body_eof b) (BodyStream.body_error b) (BodyStream.body_queue b)
    (BodyStream.body_bytes_queued b) (BodyStream.body_bytes_consumed b) (BodyStream.body_precredited b)
    (BodyStream.body_data_event b) (BodyStream.body_h2_session b) (BodyStream.request_body_buf b) (BodyStream.granted b)
    (BodyStream.reader b).

Definition set_grpc_mode (n : Z) (b : BodyStream.http_request_t) : BodyStream.http_request_t :=
  BodyStream.MkReq (BodyStream.content_length b) n (BodyStream.body b) (BodyStream.complete b) (BodyStream.body_streaming b)
    (BodyStream.body_upgrade_to_stream b) (BodyStream.body_eof b) (BodyStream.body_error b) (BodyStream.body_queue b)
    (BodyStream.body_bytes_queued b) (BodyStream.body_bytes_consumed b) (BodyStream.body_precredited b)
    (BodyStream.body_data_event b) (BodyStream.body_h2_session b) (BodyStream.request_body_buf b) (BodyStream.granted b)
    (BodyStream.reader b).

Definition http_request_classify_protocols (r : http_request_t) : http_request_t :=
  r_base (set_grpc_mode (Grpc.grpc_request_mode (headers r)) (base r)) r.

(** The last reference frees the request. *)
Definition http_request_destroy (id : nat) (w : world) : option world :=
  r ← heap w !! id;
  Some (if 0 <? refcount r - 1 then update id (r_refcount (refcount r - 1) r) w else on_heap (delete id (heap w)) w).

Definition http_request_init_headers (r : http_request_t) : http_request_t :=
  match headers r with Some _ => r | None => r_headers (Some ∅) r end.

(** ** The callbacks *)

Definition on_message_begin (w : world) : option (Z * world) :=
  w ← (match request (prs w) with
       | Some id => if owns_request (prs w) then http_request_destroy id w else Some w
       | None => Some w
       end);
  let id := next w in
  let w := MkWorld (prs w) (<[id := fresh_request]> (heap w)) (S id) (objects w) (handed w) in
  let reset p :=
    p_te false (p_ct 0 (p_host 0 (p_count 0 (p_cl 0 0 (p_error HTTP_PARSE_OK (p_total 0 (p_offset 0
      (p_header (header_name_builder p) (header_value_builder p) false
        (p_request (Some id) true false p))))))))) in
  Some (0, on_prs reset w).

Definition bad_uri_byte (c : Z) : bool := (c =? HASH) || (c =? BACKSLASH).

Definition on_url (at_ : bytes) (w : world) : option (Z * world) :=
  if HTTP_MAX_URI_SIZE <? built (uri_builder (prs w)) + zlen at_ then Some (-1, fail HTTP_PARSE_ERR_URI_TOO_LONG w)
  else if existsb bad_uri_byte at_ then Some (-1, fail HTTP_PARSE_ERR_MALFORMED w)
  else Some (0, on_prs (p_uri (append (uri_builder (prs w)) at_)) w).

(** The checks of the fields that frame a message; an error keeps the header unsaved. *)
Definition check_header (name value : bytes) (p : http1_parser_t) (r : http_request_t)
    : http_parse_error_t + http1_parser_t * http_request_t :=
  if eqb_bytes name (lit "content-length") then
    match parse_content_length value with
    | None => inl HTTP_PARSE_ERR_INVALID_CONTENT_LENGTH
    | Some cl =>
        if (0 <? cl_seen_count p) && negb (cl =? cl_value_first p) then inl HTTP_PARSE_ERR_CONFLICTING_HEADERS
        else
          let first := if cl_seen_count p =? 0 then cl else cl_value_first p in
          inr (p_cl first ((cl_seen_count p + 1) mod 2 ^ 16) p, r_base (set_content_length cl (base r)) r)
    end
  else if eqb_bytes name (lit "transfer-encoding") then
    if zlen value =? 0 then inl HTTP_PARSE_ERR_MALFORMED
    else if prefix_ci (lit "chunked") value then inr (p_te true p, r_chunked true r)
    else inr (p, r)
  else if eqb_bytes name (lit "host") then
    let n := (host_seen_count p + 1) mod 2 ^ 16 in
    if (1 <? n) || negb (http1_host_value_valid value) then inl HTTP_PARSE_ERR_INVALID_HOST
    else inr (p_host n p, r)
  else if eqb_bytes name (lit "content-type") then
    let n := (ct_seen_count p + 1) mod 2 ^ 16 in
    if 1 <? n then inl HTTP_PARSE_ERR_MALFORMED else inr (p_ct n p, r)
  else if eqb_bytes name (lit "connection") then
    if prefix_ci (lit "keep-alive") value then inr (p, r_keep_alive true r)
    else if prefix_ci (lit "close") value then inr (p, r_keep_alive false r)
    else inr (p, r)
  else inr (p, r).

(** The counters that stay changed when the check fails. *)
Definition count_failed (name : bytes) (p : http1_parser_t) : http1_parser_t :=
  if eqb_bytes name (lit "host") then p_host ((host_seen_count p + 1) mod 2 ^ 16) p
  else if eqb_bytes name (lit "content-type") then p_ct ((ct_seen_count p + 1) mod 2 ^ 16) p
  else p.

Definition save_current_header (w : world) : option world :=
  let p := prs w in
  match header_name_builder p, header_value_builder p with
  | Some n, Some value =>
      if HTTP_MAX_HEADER_COUNT <=? header_count p then Some (fail HTTP_PARSE_ERR_TOO_MANY_HEADERS w)
      else
        '(id, r) ← current w;
        let name := map to_lower n in
        let p := p_count ((header_count p + 1) mod 2 ^ 16) p in
        let p := p_header (if http_known_header_lookup name then None else Some name) (Some value) (in_header_value p) p in
        match check_header name value p r with
        | inl e => Some (fail e (on_prs (fun _ => count_failed name p) w))
        | inr (p, r) =>
            let r := r_headers (http_request_store_header name value (headers r)) r in
            Some (update id r (on_prs (fun _ => p_header None None (in_header_value p) p) w))
        end
  | _, _ => Some w
  end.

(** [save_current_header] when a value was being read. *)
Definition save_pending (w : world) : option world :=
  if in_header_value (prs w) then
    w ← save_current_header w;
    Some (on_prs (fun p => p_header (header_name_builder p) (header_value_builder p) false p) w)
  else Some w.

Definition on_header_field (at_ : bytes) (w : world) : option (Z * world) :=
  '(id, r) ← current w;
  let w := update id (http_request_init_headers r) w in
  w ← save_pending w;
  if HTTP_MAX_HEADER_NAME <? built (header_name_builder (prs w)) + zlen at_
  then Some (-1, fail HTTP_PARSE_ERR_HEADER_NAME_TOO_LARGE w)
  else Some (0, on_prs (fun p => p_header (append (header_name_builder p) at_) (header_value_builder p) (in_header_value p) p) w).

Definition on_header_value (at_ : bytes) (w : world) : option (Z * world) :=
  let p := prs w in
  if built (header_name_builder p) =? 0 then Some (-1, fail HTTP_PARSE_ERR_BAD_HEADER w)
  else if HTTP_MAX_HEADER_VALUE <? built (header_value_builder p) + zlen at_
  then Some (-1, fail HTTP_PARSE_ERR_HEADER_VALUE_TOO_LARGE w)
  else if HTTP_MAX_HEADERS_TOTAL <? total_headers_size p + zlen at_
  then Some (-1, fail HTTP_PARSE_ERR_HEADERS_TOTAL_TOO_LARGE w)
  else Some (0, on_prs (fun p => p_header (header_name_builder p) (append (header_value_builder p) at_) true
                                   (p_total (total_headers_size p + zlen at_) p)) w).

(** The dispatch callback: the request goes to a new object, or, when no coroutine could be
    spawned, is freed and forgotten by the parser. *)
Definition dispatch (spawned : bool) (id : nat) (w : world) : option world :=
  let w := MkWorld (prs w) (heap w) (next w) (objects w) (handed w ++ [id]) in
  if spawned then Some (MkWorld (prs w) (heap w) (next w) ({[id]} ∪ objects w) (handed w))
  else
    w ← http_request_destroy id w;
    Some (on_prs (fun p => p_request None (owns_request p) (dispatched p) p) w).

Definition http1_request_body_upgrade (offset : Z) (builder : option bytes) (b : BodyStream.http_request_t)
    : option bytes * BodyStream.http_request_t :=
  if BodyStream.body_streaming b || BodyStream.complete b then (builder, b)
  else
    let from_body := match BodyStream.body b with Some s => 0 <? zlen s | None => false end in
    let '(builder, initial, b) :=
      if from_body then (builder, Some (take (Z.to_nat offset) (default [] (BodyStream.body b))), BodyStream.set_body b None)
      else match builder with
           | Some s => if 0 <? zlen s then (None, Some s, b) else (builder, None, b)
           | None => (builder, None, b)
           end in
    let b := match initial with Some s => snd (BodyStream.http_body_stream_push b s) | None => b end in
    (builder, BodyStream.set_mode b true (BodyStream.body_upgrade_to_stream b)).

Definition http_request_parse_trace_context (r : http_request_t) : http_request_t :=
  match find_string (headers r) (lit "traceparent") with
  | None => r
  | Some tp =>
      match HeaderTools.trace_parse_traceparent (Some tp) with
      | None => r
      | Some t => r_trace (Some t) (Some tp) (find_string (headers r) (lit "tracestate")) r
      end
  end.

(** The body policy; the upgrade hook is set for the middle sizes. *)
Definition body_policy (v : option view_t) (r : http_request_t) : http_request_t :=
  match v with
  | Some v =>
      if negb (use_multipart r) && negb (BodyStream.http_request_body_must_buffer (base r)) && body_streaming_enabled v then
        let n := BodyStream.content_length (base r) in
        if (n =? 0) || (BodyStream.HTTP_BODY_STREAM_AUTO_THRESHOLD <=? n)
        then r_base (BodyStream.set_mode (base r) true (BodyStream.body_upgrade_to_stream (base r))) r
        else if BodyStream.HTTP_BODY_STREAM_THRESHOLD <=? n
        then r_base (BodyStream.set_mode (base r) (BodyStream.body_streaming (base r)) true) r
        else r
      else r
  | None => r
  end.

Definition keep_alive_default (minor : Z) (r : http_request_t) : http_request_t :=
  match headers r ≫= lookup (lit "connection") with
  | Some _ => r
  | None => r_keep_alive (1 <=? minor) r
  end.

Section parser.
(** Temporary files of uploads, and what a new string holds before it is written. *)
Context (tmp : nat -> option bytes) (can_open : bytes -> bool) (written : bytes -> Z -> Z -> Z).
Context (uninitialised : Z -> bytes).

Definition open_multipart (r : http_request_t) : http_request_t :=
  match find_string (headers r) (lit "content-type") with
  | None => r
  | Some ct =>
      if prefix_ci (lit "multipart/form-data") ct then
        match MultipartProcessor.extract_boundary ct with
        | Some b => r_multipart true (MultipartProcessor.mp_processor_create (Some b) None ∅) r
        | None => r
        end
      else r
  end.

(** The tests made on the head as a whole, in order. *)
Definition head_error (p : http1_parser_t) (major minor : Z) : option http_parse_error_t :=
  if negb (bool_decide (parse_error p = HTTP_PARSE_OK)) then Some (parse_error p)
  else if (0 <? cl_seen_count p) && te_chunked_seen p then Some HTTP_PARSE_ERR_CONFLICTING_HEADERS
  else if negb (major =? 1) || (negb (minor =? 0) && negb (minor =? 1)) then Some HTTP_PARSE_ERR_INVALID_HTTP_VERSION
  else if (minor =? 1) && (host_seen_count p =? 0) then Some HTTP_PARSE_ERR_INVALID_HOST
  else None.

Definition target_error (m : bytes) (u : option bytes) : option http_parse_error_t :=
  if eqb_bytes m (lit "CONNECT") then Some HTTP_PARSE_ERR_BAD_METHOD
  else match u with
       | Some t => if eqb_bytes t [STAR] && negb (eqb_bytes m (lit "OPTIONS")) then Some HTTP_PARSE_ERR_MALFORMED else None
       | None => None
       end.

(** [shed] is the admission test of the server, [allocated] that the memory limit allows the
    body; [m] is [llhttp_method_name]. *)
Definition on_headers_complete (major minor : Z) (m : bytes) (shed allocated spawned : bool) (w : world)
    : option (Z * world) :=
  if bool_decide (conn (prs w) <> None) && shed then Some (-1, fail HTTP_PARSE_ERR_SERVICE_UNAVAILABLE w)
  else
    '(id, r) ← current w;
    let w := update id (http_request_init_headers r) w in
    w ← save_pending w;
    match head_error (prs w) major minor with
    | Some e => Some (-1, fail e w)
    | None =>
        '(id, r) ← current w;
        let u := match uri_builder (prs w) with Some s => Some s | None => uri r end in
        let r := r_line (Some m) u major minor r in
        let w := update id r (on_prs (p_uri None) w) in
        match target_error m u with
        | Some e => Some (-1, fail e w)
        | None =>
            let r := keep_alive_default minor r in
            let r := open_multipart r in
            let r := http_request_classify_protocols r in
            let r := body_policy (conn (prs w)) r in
            let b := base r in
            let n := BodyStream.content_length b in
            if negb (use_multipart r) && negb (BodyStream.body_streaming b) && (0 <? n) then
              if max_body_size (prs w) <? n then Some (-1, fail HTTP_PARSE_ERR_BODY_TOO_LARGE (update id r w))
              else if negb allocated then Some (-1, fail HTTP_PARSE_ERR_OUT_OF_MEMORY (update id r w))
              else
                let r := r_base (BodyStream.set_body b (Some (uninitialised n))) r in
                let r := match conn (prs w) with
                         | Some v => if telemetry_enabled v then http_request_parse_trace_context r else r
                         | None => r
                         end in
                Some (0, update id r (on_prs (p_offset 0) w))
            else
              let r := match conn (prs w) with
                       | Some v => if telemetry_enabled v then http_request_parse_trace_context r else r
                       | None => r
                       end in
              let w := update id r w in
              if dispatch_cb (prs w) && BodyStream.body_streaming b then
                w ← dispatch spawned id (on_prs (p_request (request (prs w)) false true) w);
                Some (0, w)
              else Some (0, w)
        end
    end.

(** [req->use_multipart && req->multipart_proc]. *)
Definition active_form (r : http_request_t) : option MultipartProcessor.processor :=
  if use_multipart r then multipart_proc r else None.

Definition on_body (at_ : bytes) (allocated : bool) (w : world) : option (Z * world) :=
  let p := prs w in
  match request p with
  | None => Some (0, w)
  | Some id =>
      r ← heap w !! id;
      let b := base r in
      match active_form r with
      | Some x =>
          '(n, x) ← MultipartProcessor.mp_processor_feed tmp can_open written x at_;
          let w := update id (r_multipart true (Some x) r) w in
          Some (if n <? 0 then (-1, fail HTTP_PARSE_ERR_MALFORMED w) else (0, w))
      | None =>
          if BodyStream.body_streaming b then
            if max_body_size p <? u64 (BodyStream.body_bytes_consumed b + BodyStream.body_bytes_queued b + zlen at_)
            then Some (-1, fail HTTP_PARSE_ERR_BODY_TOO_LARGE w)
            else
              let '(ok, b) := BodyStream.http_body_stream_push b at_ in
              let w := update id (r_base b r) w in
              Some (if ok then (0, w) else (-1, fail HTTP_PARSE_ERR_OUT_OF_MEMORY w))
          else
            match BodyStream.body b with
            | Some s =>
                if BodyStream.content_length b <? body_offset p + zlen at_
                then Some (-1, fail HTTP_PARSE_ERR_BODY_TOO_LARGE w)
                else
                  let s := take (Z.to_nat (body_offset p)) s ++ at_ in
                  Some (0, update id (r_base (BodyStream.set_body b (Some s)) r)
                             (on_prs (p_offset (body_offset p + zlen at_)) w))
            | None =>
                if max_body_size p <? built (body_builder p) + zlen at_
                then Some (-1, fail HTTP_PARSE_ERR_BODY_TOO_LARGE w)
                else if negb allocated then Some (-1, fail HTTP_PARSE_ERR_OUT_OF_MEMORY w)
                else Some (0, on_prs (p_body (append (body_builder p) at_)) w)
            end
      end
  end.

Definition HPE_PAUSED : Z := 21.

Definition finish_form (r : http_request_t) : option http_request_t :=
  match active_form r with
  | Some x =>
      '(post, fs) ← MultipartProcessor.finalize_multipart (snd x);
      Some (r_form (Some post) (Some fs) r)
  | None => Some r
  end.

Definition on_message_complete (spawned : bool) (w : world) : option (Z * world) :=
  match request (prs w) with
  | None => Some (HPE_PAUSED, w)
  | Some id =>
      r ← heap w !! id;
      r ← finish_form r;
      let b := base r in
      let '(builder, b) :=
        if BodyStream.body_streaming b then (body_builder (prs w), BodyStream.http_body_stream_close b)
        else match BodyStream.body b, body_builder (prs w) with
             | None, Some s => (None, BodyStream.set_body b (Some s))
             | _, x => (x, b)
             end in
      let b := BodyStream.fire_body_event (BodyStream.set_complete b true) in
      let w := update id (r_base b r) (on_prs (p_body builder) w) in
      if dispatched (prs w) then Some (HPE_PAUSED, w)
      else if dispatch_cb (prs w) then
        w ← dispatch spawned id (on_prs (p_request (request (prs w)) false true) w);
        Some (HPE_PAUSED, w)
      else Some (HPE_PAUSED, on_prs (p_request (request (prs w)) false (dispatched (prs w))) w)
  end.

(** ** Running the callbacks *)

Inductive event :=
  | EvMessageBegin
  | EvUrl (at_ : bytes)
  | EvHeaderField (at_ : bytes)
  | EvHeaderValue (at_ : bytes)
  | EvHeadersComplete (major minor : Z) (m : bytes) (shed allocated spawned : bool)
  | EvBody (at_ : bytes) (allocated : bool)
  | EvMessageComplete (spawned : bool).

Definition callback (e : event) (w : world) : option (Z * world) :=
  match e with
  | EvMessageBegin => on_message_begin w
  | EvUrl a => on_url a w
  | EvHeaderField a => on_header_field a w
  | EvHeaderValue a => on_header_value a w
  | EvHeadersComplete major minor m sh al sp => on_headers_complete major minor m sh al sp w
  | EvBody a al => on_body a al w
  | EvMessageComplete sp => on_message_complete sp w
  end.

(** llhttp calls back until a callback does not answer 0; the events not delivered are
    returned. *)
Fixpoint run_events (evs : list event) (w : world) : option (Z * list event * world) :=
  match evs with
  | [] => Some (0, [], w)
  | e :: rest =>
      '(rc, w) ← callback e w;
      if rc =? 0 then run_events rest w else Some (rc, rest, w)
  end.

(** [http_parser_execute]: [evs] is what llhttp finds in the data, [err] its own verdict after
    them ([HPE_OK] is 0). *)
Definition HPE_PAUSED_UPGRADE : Z := 22.

Definition http_parser_execute (evs : list event) (err : Z) (w : world) : option (Z * list event * world) :=
  let w := on_prs (p_paused false) w in
  '(rc, rest, w) ← run_events evs w;
  let err := if rc =? 0 then err else rc in
  if err =? 0 then Some (0, rest, w)
  else if err =? HPE_PAUSED then Some (0, rest, on_prs (p_paused true) w)
  else if err =? HPE_PAUSED_UPGRADE then Some (0, rest, w)
  else Some (-1, rest, if bool_decide (parse_error (prs w) = HTTP_PARSE_OK) then fail HTTP_PARSE_ERR_MALFORMED w else w).
End parser.

(** ** The life of a parser *)

Definition http_parser_create (max : Z) : http1_parser_t :=
  MkParser None None false None None None None 0 0 max 0 0 0 0 0 false false false HTTP_PARSE_OK false false.

Definition http_parser_attach (v : view_t) (cb : bool) (w : world) : world := on_prs (p_wiring (Some v) cb) w.

Definition http_parser_clear_request (w : world) : world :=
  on_prs (fun p => p_request None (owns_request p) (dispatched p) p) w.

Definition http_parser_is_complete (w : world) : option bool :=
  match request (prs w) with
  | None => Some false
  | Some id => r ← heap w !! id; Some (BodyStream.complete (base r))
  end.

Definition parser_release_request (w : world) : option world :=
  w ← (match request (prs w) with
       | Some id => if owns_request (prs w) then http_request_destroy id w else Some w
       | None => Some w
       end);
  Some (on_prs (fun p => p_request None false (dispatched p) p) w).

(** A builder the parser alone owns keeps its buffer, empty; the strings handed over are no
    longer in a builder. *)
Definition smart_str_reset_or_free (b : option bytes) : option bytes := option_map (fun _ => []) b.

Definition http_parser_reset_for_reuse (w : world) : option world :=
  w ← parser_release_request w;
  Some (on_prs (fun p =>
    p_error HTTP_PARSE_OK (p_total 0 (p_offset 0 (p_paused false
      (p_header (smart_str_reset_or_free (header_name_builder p)) (smart_str_reset_or_free (header_value_builder p)) false
        (p_body (smart_str_reset_or_free (body_builder p)) (p_uri (smart_str_reset_or_free (uri_builder p))
          (p_wiring None false (p_request (request p) (owns_request p) false p))))))))) w).

(** The handler is done with its request object. *)
Definition release_object (id : nat) (w : world) : option world :=
  if bool_decide (id ∈ objects w) then
    w ← http_request_destroy id w;
    Some (MkWorld (prs w) (heap w) (next w) (objects w ∖ {[id]}) (handed w))
  else None.

(** Destroying a parser frees its builders, too; they are part of the record. *)
Definition http_parser_destroy (w : world) : option world := parser_release_request w.

(** ** The parser pool *)

Record parser_pool := { parsers : option (list http1_parser_t); capacity : Z; pool_max_body_size : Z }.

Definition parser_pool_acquire (pl : parser_pool) : http1_parser_t * parser_pool :=
  match parsers pl with
  | Some (p :: rest) =>
      (p, {| parsers := Some rest; capacity := capacity pl; pool_max_body_size := pool_max_body_size pl |})
  | _ => (http_parser_create (pool_max_body_size pl), pl)
  end.

(** The parser of [w] goes to the pool, or is destroyed. *)
Definition parser_pool_return (pl : parser_pool) (w : world) : option (parser_pool * world) :=
  match parsers pl with
  | None => w ← http_parser_destroy w; Some (pl, w)
  | Some l =>
      if capacity pl <=? Z.of_nat (length l) then w ← http_parser_destroy w; Some (pl, w)
      else
        w ← http_parser_reset_for_reuse w;
        Some ({| parsers := Some (prs w :: l); capacity := capacity pl; pool_max_body_size := pool_max_body_size pl |}, w)
  end.

Section entry.
Context (tmp : nat -> option bytes) (can_open : bytes -> bool) (written : bytes -> Z -> Z -> Z).
Context (uninitialised : Z -> bytes).

Let execute := http_parser_execute tmp can_open written uninitialised.

(** [TrueAsync\http_parse_request]: the request of the object returned, [None] for [false]. *)
Definition http_parse_request (evs : list event) (err : Z) (pl : parser_pool) (w : world)
    : option (option nat * parser_pool * world) :=
  let '(p, pl) := parser_pool_acquire pl in
  let w := on_prs (fun _ => p) w in
  '(result, _, w) ← execute evs err w;
  complete ← (if result =? 0 then http_parser_is_complete w else Some false);
  if negb complete then
    let w := on_prs (fun p => p_request (request p) (bool_decide (request p <> None)) (dispatched p) p) w in
    '(pl, w) ← parser_pool_return pl w;
    Some (None, pl, w)
  else
    '(id, r) ← current w;
    if http_major r <? 1 then
      '(pl, w) ← parser_pool_return pl (on_prs (fun p => p_request (request p) true (dispatched p) p) w);
      Some (None, pl, w)
    else
      let w := MkWorld (prs w) (heap w) (next w) ({[id]} ∪ objects w) (handed w) in
      '(pl, w) ← parser_pool_return pl w;
      Some (Some id, pl, w).

(** The connection keeps one parser for all its requests. *)
Definition http1_feed (evs : list event) (err : Z) (w : world) : option (Z * list event * world) :=
  '(result, rest, w) ← execute evs err w;
  Some (if result =? 0 then 0 else -1, rest, w).

Inductive read_outcome := ReadMore | ReadInFlight | ReadFailed.

(** [http_connection_handle_read_completion] after protocol detection: the events not delivered
    stay in the read buffer. *)
Definition handle_read_completion (evs : list event) (err : Z) (w : world)
    : option (read_outcome * list event * world) :=
  '(result, rest, w) ← http1_feed evs err w;
  if result <? 0 then Some (ReadFailed, rest, w)
  else
    complete ← http_parser_is_complete w;
    Some (if (complete : bool) then ReadInFlight else ReadMore, rest, w).
End entry.

(** ** Answers to parse errors *)

Definition http_parse_error_to_status (e : http_parse_error_t) : Z :=
  match e with
  | HTTP_PARSE_ERR_URI_TOO_LONG => 414
  | HTTP_PARSE_ERR_HEADER_NAME_TOO_LARGE | HTTP_PARSE_ERR_HEADER_VALUE_TOO_LARGE
  | HTTP_PARSE_ERR_HEADERS_TOTAL_TOO_LARGE | HTTP_PARSE_ERR_TOO_MANY_HEADERS => 431
  | HTTP_PARSE_ERR_BODY_TOO_LARGE => 413
  | HTTP_PARSE_ERR_BAD_METHOD => 405
  | HTTP_PARSE_ERR_OUT_OF_MEMORY | HTTP_PARSE_ERR_SERVICE_UNAVAILABLE => 503
  | _ => 400
  end.

Definition http_parse_error_reason (e : http_parse_error_t) : bytes :=
  match e with
  | HTTP_PARSE_ERR_URI_TOO_LONG => lit "URI Too Long"
  | HTTP_PARSE_ERR_HEADER_NAME_TOO_LARGE | HTTP_PARSE_ERR_HEADER_VALUE_TOO_LARGE
  | HTTP_PARSE_ERR_HEADERS_TOTAL_TOO_LARGE | HTTP_PARSE_ERR_TOO_MANY_HEADERS => lit "Request Header Fields Too Large"
  | HTTP_PARSE_ERR_BODY_TOO_LARGE => lit "Content Too Large"
  | HTTP_PARSE_ERR_BAD_METHOD => lit "Method Not Allowed"
  | HTTP_PARSE_ERR_OUT_OF_MEMORY | HTTP_PARSE_ERR_SERVICE_UNAVAILABLE => lit "Service Unavailable"
  | _ => lit "Bad Request"
  end.

End Http1Parser.
