(* ===== verification/Http1Head.v ===== *)
(** * Reading the head of an HTTP/1 request

    The callbacks of src/src/http1/http_parser.c against a definition of what a request head
    is and which heads are refused, for every way in which llhttp may cut the request
    target, the field names and the field values into spans. *)

From Stdlib Require Import Btauto.
From S2P Require Import Prelude BodyStream Grpc HeaderTools MultipartProcessor Http1Parser.

Module Http1Head.
Import BodyStream(zlen) Http1Parser.

(** ** What a head is *)

(** Fields with lower-case names, in the order of arrival. *)
Abbreviation fields := (list (bytes * bytes)).

Definition values (name : bytes) (hs : fields) : list bytes :=
  map snd (filter (fun h : bytes * bytes => h.1 = name) hs).

(** The values of a field that occurs several times are joined. *)
Fixpoint joined (sep : bytes) (vs : list bytes) : bytes :=
  match vs with
  | [] => []
  | [v] => v
  | v :: vs => v ++ sep ++ joined sep vs
  end.

Definition separator (name : bytes) : bytes := lit (if eqb_bytes name (lit "cookie") then "; " else ", ").

Definition field_table (hs : fields) (m : gmap bytes zval) : Prop :=
  forall name, m !! name = match values name hs with [] => None | vs => Some (ZString (joined (separator name) vs)) end.

(** A decimal number that fits 64 bits. *)
Definition digits_value (v : bytes) : Z := fold_left (fun a c => a * 10 + (c - 48)) v 0.
Definition decimal (v : bytes) : option Z :=
  if negb (length v =? 0)%nat && forallb is_digit v && (digits_value v <=? UINT64_MAX) then Some (digits_value v) else None.

(** All lengths are the same number. *)
Definition lengths_agree (vs : list bytes) : bool :=
  match vs with
  | [] => true
  | v :: vs => match decimal v with
               | Some n => forallb (fun x => bool_decide (decimal x = Some n)) vs
               | None => false
               end
  end.

Definition content_length_of (hs : fields) : Z :=
  match values (lit "content-length") hs with
  | [] => 0
  | v :: _ => default 0 (decimal v)
  end.

Definition is_chunked (v : bytes) : bool := prefix_ci (lit "chunked") v.
Definition chunked_of (hs : fields) : bool := existsb is_chunked (values (lit "transfer-encoding") hs).

Definition host_ok (v : bytes) : bool :=
  negb (length v =? 0)%nat && negb (existsb (fun c => mem_byte c (lit "@/?#, ") || (c =? HTAB)) v).

(** The last directive in a [Connection] field counts, then the version. *)
Definition directive (d : option bool) (v : bytes) : option bool :=
  if prefix_ci (lit "keep-alive") v then Some true
  else if prefix_ci (lit "close") v then Some false
  else d.

Definition connection_of (hs : fields) : bool :=
  default false (fold_left directive (values (lit "connection") hs) None).

Definition keep_alive_of (hs : fields) (minor : Z) : bool :=
  match values (lit "connection") hs with [] => minor =? 1 | _ => connection_of hs end.

(** The conditions on the fields alone. *)
Definition fields_ok (hs : fields) : bool :=
  (Z.of_nat (length hs) <=? HTTP_MAX_HEADER_COUNT)
  && lengths_agree (values (lit "content-length") hs)
  && forallb (fun v => negb (length v =? 0)%nat) (values (lit "transfer-encoding") hs)
  && match values (lit "host") hs with [] => true | [v] => host_ok v | _ => false end
  && (length (values (lit "content-type") hs) <=? 1)%nat.

(** The conditions on sizes. *)
Definition value_bytes (hs : fields) : Z := foldr (fun h n => zlen h.2 + n) 0 hs.
Definition sizes_ok (hs : fields) : bool :=
  forallb (fun h => (zlen h.1 <=? HTTP_MAX_HEADER_NAME) && (zlen h.2 <=? HTTP_MAX_HEADER_VALUE)) hs
  && (value_bytes hs <=? HTTP_MAX_HEADERS_TOTAL).

Definition target_ok (u : bytes) : bool := (zlen u <=? HTTP_MAX_URI_SIZE) && negb (existsb bad_uri_byte u).

(** The conditions on the head as a whole. *)
Definition head_ok (u : bytes) (hs : fields) (major minor : Z) (m : bytes) : bool :=
  target_ok u && sizes_ok hs && fields_ok hs
  && negb (negb (length (values (lit "content-length") hs) =? 0)%nat && chunked_of hs)
  && (major =? 1) && ((minor =? 0) || (minor =? 1))
  && negb ((minor =? 1) && (length (values (lit "host") hs) =? 0)%nat)
  && negb (eqb_bytes m (lit "CONNECT"))
  && negb (eqb_bytes u [STAR] && negb (eqb_bytes m (lit "OPTIONS"))).

(** ** How a head arrives *)

(** A field in spans: at least one of the name, which is not empty, and one of the value. *)
Record field_spans := { name_spans : list bytes; value_spans : list bytes }.

Definition field_events (f : field_spans) : list event :=
  map EvHeaderField (name_spans f) ++ map EvHeaderValue (value_spans f).

Definition spans_ok (f : field_spans) : Prop :=
  name_spans f <> [] /\ value_spans f <> [] /\ concat (name_spans f) <> [].

Definition field_of (f : field_spans) : bytes * bytes :=
  (map to_lower (concat (name_spans f)), concat (value_spans f)).

Definition line_events (url : list bytes) (fs : list field_spans) : list event :=
  EvMessageBegin :: map EvUrl url ++ flat_map field_events fs.

(** ** Facts about fields *)

Lemma values_app name hs hs' : values name (hs ++ hs') = values name hs ++ values name hs'.
Proof. unfold values. by rewrite filter_app, map_app. Qed.

Lemma values_one name n v : values name [(n, v)] = if decide (n = name) then [v] else [].
Proof. unfold values. rewrite filter_cons, filter_nil. simpl. by destruct (decide (n = name)). Qed.

Lemma joined_snoc sep vs v : joined sep (vs ++ [v]) = match vs with [] => v | _ => joined sep vs ++ sep ++ v end.
Proof.
  induction vs as [|x vs IH]; [done|]. change ((x :: vs) ++ [v]) with (x :: (vs ++ [v])).
  destruct vs as [|y vs]; [done|]. change (joined sep (x :: (y :: vs) ++ [v])) with (x ++ sep ++ joined sep ((y :: vs) ++ [v])).
  rewrite IH. change (joined sep (x :: y :: vs)) with (x ++ sep ++ joined sep (y :: vs)). by rewrite <- !app_assoc.
Qed.

Lemma field_table_nil : field_table [] ∅.
Proof. intros name. apply lookup_empty. Qed.

Lemma field_table_store hs m n v :
  field_table hs m -> exists m', http_request_store_header n v (Some m) = Some m' /\ field_table (hs ++ [(n, v)]) m'.
Proof.
  intros T. unfold http_request_store_header. cbn [mbind option_bind]. eexists. split; [reflexivity|].
  intros name. rewrite values_app, values_one. pose proof (T n) as Tn.
  destruct (decide (n = name)) as [<-|Hn].
  - rewrite Tn. destruct (values n hs) as [|x vs] eqn:E; rewrite lookup_insert_eq; [done|].
    change (match (x :: vs) ++ [v] with [] => None | l => Some (ZString (joined (separator n) l)) end)
      with (Some (ZString (joined (separator n) ((x :: vs) ++ [v])))).
    by rewrite joined_snoc.
  - rewrite app_nil_r, <- T.
    destruct (m !! n) as [[]|]; rewrite lookup_insert_ne by done; done.
Qed.

Lemma fold_digits_le v a : 0 <= a -> forallb is_digit v = true -> a <= fold_left (fun a c => a * 10 + (c - 48)) v a.
Proof.
  revert a. induction v as [|c v IH]; intros a H F; cbn [fold_left forallb] in *; [lia|].
  apply andb_true_iff in F as [D F]. unfold is_digit in D.
  assert (48 <= c <= 57) by lia. specialize (IH (a * 10 + (c - 48)) ltac:(lia) F). lia.
Qed.

Lemma content_length_loop_spec v a :
  0 <= a <= UINT64_MAX ->
  content_length_loop v a =
    (if forallb is_digit v && (fold_left (fun a c => a * 10 + (c - 48)) v a <=? UINT64_MAX)
     then Some (fold_left (fun a c => a * 10 + (c - 48)) v a) else None).
Proof.
  revert a. induction v as [|c v IH]; intros a H; cbn [content_length_loop forallb fold_left].
  { rewrite (proj2 (Z.leb_le _ _)) by lia. done. }
  destruct (is_digit c) eqn:D; [|done]. cbn [negb andb]. unfold is_digit in D.
  destruct (Z.ltb_spec ((UINT64_MAX - (c - 48)) / 10) a) as [L|L].
  - assert (UINT64_MAX < a * 10 + (c - 48)) by (apply Z.div_lt_upper_bound in L || (pose proof (Z.mod_pos_bound (UINT64_MAX - (c - 48)) 10); pose proof (Z.div_mod (UINT64_MAX - (c - 48)) 10); lia)).
    destruct (forallb is_digit v) eqn:F; [|done]. cbn [andb].
    pose proof (fold_digits_le v (a * 10 + (c - 48)) ltac:(lia) F).
    rewrite (proj2 (Z.leb_gt _ _)) by lia. done.
  - apply IH. pose proof (Z.mod_pos_bound (UINT64_MAX - (c - 48)) 10). pose proof (Z.div_mod (UINT64_MAX - (c - 48)) 10). lia.
Qed.

Lemma parse_content_length_spec v : parse_content_length v = decimal v.
Proof.
  unfold parse_content_length, decimal, digits_value. destruct v as [|c v]; [done|].
  rewrite content_length_loop_spec by (vm_compute; split; discriminate). done.
Qed.

Lemma host_ok_spec v : http1_host_value_valid v = host_ok v.
Proof.
  unfold http1_host_value_valid, host_ok. f_equal. induction v as [|c v IH]; [done|].
  cbn [forallb existsb]. rewrite IH. by destruct (mem_byte c _ || _).
Qed.

(** ** One more field *)

Definition count (name : string) (hs : fields) : Z := Z.of_nat (length (values (lit name) hs)).

Definition next_ok (hs : fields) (n x : bytes) : bool :=
  (Z.of_nat (length hs) <? HTTP_MAX_HEADER_COUNT)
  && (if eqb_bytes n (lit "content-length") then
        match decimal x with
        | None => false
        | Some c => negb ((0 <? count "content-length" hs) && negb (c =? content_length_of hs))
        end
      else if eqb_bytes n (lit "transfer-encoding") then negb (length x =? 0)%nat
      else if eqb_bytes n (lit "host") then (count "host" hs =? 0) && host_ok x
      else if eqb_bytes n (lit "content-type") then count "content-type" hs =? 0
      else true).

Lemma values_other name hs n x : eqb_bytes n name = false -> values name (hs ++ [(n, x)]) = values name hs.
Proof.
  intros E. rewrite values_app, values_one. rewrite decide_False; [apply app_nil_r|]. intros ->. by rewrite eqb_bytes_refl in E.
Qed.

Lemma values_same name hs x : values name (hs ++ [(name, x)]) = values name hs ++ [x].
Proof. rewrite values_app, values_one. by rewrite decide_True. Qed.

Lemma lengths_agree_snoc vs x :
  lengths_agree (vs ++ [x]) =
    lengths_agree vs && match decimal x with
                        | None => false
                        | Some c => match vs with [] => true | v :: _ => bool_decide (decimal v = Some c) end
                        end.
Proof.
  destruct vs as [|v vs]; cbn [app lengths_agree forallb]; [by destruct (decimal x)|].
  destruct (decimal v) as [n|]; [|done]. rewrite forallb_app. cbn [forallb]. rewrite andb_true_r. f_equal.
  destruct (decimal x) as [c|]; [|done]. apply bool_decide_ext. naive_solver.
Qed.

Lemma count_zero name hs : (count name hs =? 0) = match values (lit name) hs with [] => true | _ => false end.
Proof. unfold count. by destruct (values _ _). Qed.

Lemma count_pos name hs : (0 <? count name hs) = match values (lit name) hs with [] => false | _ => true end.
Proof. unfold count. by destruct (values _ _). Qed.

Ltac other := repeat rewrite values_other by assumption.

Lemma fields_ok_snoc hs n x : fields_ok (hs ++ [(n, x)]) = fields_ok hs && next_ok hs n x.
Proof.
  unfold fields_ok, next_ok. rewrite length_app. cbn [length].
  replace (Z.of_nat (length hs + 1) <=? HTTP_MAX_HEADER_COUNT) with (Z.of_nat (length hs) <? HTTP_MAX_HEADER_COUNT)
    by (apply Bool.eq_iff_eq_true; rewrite Z.ltb_lt, Z.leb_le; lia).
  destruct (Z.ltb_spec (Z.of_nat (length hs)) HTTP_MAX_HEADER_COUNT) as [L|L]; [|by rewrite !andb_false_r].
  rewrite (proj2 (Z.leb_le _ _)) by lia. cbn [andb].
  destruct (eqb_bytes n (lit "content-length")) eqn:E1.
  { apply eqb_bytes_eq in E1 as ->. rewrite values_same, lengths_agree_snoc. rewrite !values_other by done.
    rewrite count_pos. unfold content_length_of. destruct (lengths_agree (values (lit "content-length") hs)) eqn:A; [|done].
    cbn [andb]. match goal with |- ?l && ?p && ?q && ?r = ?p && ?q && ?r && ?z => assert (l = z) as -> end; [|btauto].
    destruct (values _ hs) as [|v vs]; [by destruct (decimal x)|].
    cbn [lengths_agree] in A. destruct (decimal v) as [k|]; [|done]. cbn [andb default]. destruct (decimal x) as [c|]; [|done].
    rewrite negb_involutive. unfold id. destruct (Z.eqb_spec c k) as [->|]; [by rewrite bool_decide_true|rewrite bool_decide_false; [done|congruence]]. }
  destruct (eqb_bytes n (lit "transfer-encoding")) eqn:E2.
  { apply eqb_bytes_eq in E2 as ->. rewrite values_same, forallb_app. rewrite !values_other by done. cbn [forallb].
    btauto. }
  destruct (eqb_bytes n (lit "host")) eqn:E3.
  { apply eqb_bytes_eq in E3 as ->. rewrite values_same. rewrite !values_other by done. rewrite count_zero.
    destruct (values (lit "host") hs) as [|a [|b l]]; cbn [app andb]; rewrite ?andb_true_r, ?andb_false_r; try done.
    btauto. }
  destruct (eqb_bytes n (lit "content-type")) eqn:E4.
  { apply eqb_bytes_eq in E4 as ->. rewrite values_same. rewrite !values_other by done. rewrite count_zero, length_app. cbn [length].
    destruct (values (lit "content-type") hs) as [|a l]; cbn [length]; rewrite ?andb_true_r, ?andb_false_r; [done|].
    rewrite (proj2 (Nat.leb_gt _ _)) by lia. by rewrite andb_false_r. }
  rewrite !values_other by done. by rewrite andb_true_r.
Qed.

Lemma small_count k : 0 <= k < 256 -> (k + 1) mod 2 ^ 16 = k + 1.
Proof. intros H. apply Z.mod_small. lia. Qed.

Lemma one_lt_succ k : 0 <= k < 256 -> (1 <? k + 1) = negb (k =? 0).
Proof. intros H. destruct (Z.eqb_spec k 0) as [->|]; [done|]. apply Z.ltb_lt. lia. Qed.

Lemma values_le name hs : (length (values name hs) <= length hs)%nat.
Proof. unfold values. rewrite length_map. apply length_filter. Qed.

Lemma count_bounds name hs : Z.of_nat (length hs) < HTTP_MAX_HEADER_COUNT -> 0 <= count name hs < 256.
Proof. intros H. unfold count, HTTP_MAX_HEADER_COUNT in *. pose proof (values_le (lit name) hs). lia. Qed.

Lemma count_other name hs n x : eqb_bytes n (lit name) = false -> count name (hs ++ [(n, x)]) = count name hs.
Proof. intros E. unfold count. by rewrite values_other. Qed.

Lemma count_same name hs x : count name (hs ++ [(lit name, x)]) = count name hs + 1.
Proof. unfold count. rewrite values_same, length_app. cbn [length]. lia. Qed.

Lemma content_length_other hs n x : eqb_bytes n (lit "content-length") = false ->
  content_length_of (hs ++ [(n, x)]) = content_length_of hs.
Proof. intros E. unfold content_length_of. by rewrite values_other. Qed.

Lemma content_length_next hs x c : decimal x = Some c ->
  negb ((0 <? count "content-length" hs) && negb (c =? content_length_of hs)) = true ->
  content_length_of (hs ++ [(lit "content-length", x)]) = c.
Proof.
  intros D E. unfold content_length_of in *. rewrite values_same. rewrite count_pos in E.
  destruct (values _ hs) as [|v vs]; cbn [app]; [by rewrite D|]. cbn [andb] in E. rewrite negb_involutive in E. lia.
Qed.

Lemma chunked_other hs n x : eqb_bytes n (lit "transfer-encoding") = false -> chunked_of (hs ++ [(n, x)]) = chunked_of hs.
Proof. intros E. unfold chunked_of. by rewrite values_other. Qed.

Lemma chunked_same hs x : chunked_of (hs ++ [(lit "transfer-encoding", x)]) = chunked_of hs || is_chunked x.
Proof. unfold chunked_of. rewrite values_same, existsb_app. cbn [existsb]. by rewrite orb_false_r. Qed.

Lemma connection_other hs n x : eqb_bytes n (lit "connection") = false -> connection_of (hs ++ [(n, x)]) = connection_of hs.
Proof. intros E. unfold connection_of. by rewrite values_other. Qed.

Lemma connection_same hs x :
  connection_of (hs ++ [(lit "connection", x)]) =
    if prefix_ci (lit "keep-alive") x then true else if prefix_ci (lit "close") x then false else connection_of hs.
Proof.
  unfold connection_of. rewrite values_same, fold_left_app. cbn [fold_left]. unfold directive at 1.
  by destruct (prefix_ci (lit "keep-alive") x), (prefix_ci (lit "close") x).
Qed.

(** ** The parser while it reads a head *)

Section simulation.
Context (tmp : nat -> option bytes) (can_open : bytes -> bool) (written : bytes -> Z -> Z -> Z).
Context (uninitialised : Z -> bytes).
Context (id : nat) (vw : option view_t) (cb : bool) (bb : option bytes) (mx : Z) (pa : bool).
Context (h : gmap nat http_request_t) (nx : nat) (objs : gset nat) (hd : list nat).

Let run := run_events tmp can_open written uninitialised.

(** The request and the parser after the fields [hs]; [u], [n] and [x] are the builders. *)
Definition request_at (hs : fields) (table : hashtable) : http_request_t :=
  MkRequest (set_content_length (content_length_of hs) fresh_base) None None table (chunked_of hs) (connection_of hs)
    false None None None 0 0 None None None 1.

Definition reading (u n x : option bytes) (total : Z) (hs : fields) (table : hashtable) (in_value : bool) : world :=
  MkWorld (MkParser (Some id) vw cb u bb n x 0 total mx (content_length_of hs) (count "content-length" hs)
             (Z.of_nat (length hs)) (count "host" hs) (count "content-type" hs) (chunked_of hs) in_value pa HTTP_PARSE_OK
             true false)
    (<[id := request_at hs table]> h) nx objs hd.

(** A refused head: the parser still owns the request and has handed over nothing. *)
Record refused (w : world) : Prop := {
  rf_request : request (prs w) = Some id;
  rf_live : is_Some (heap w !! id);
  rf_owned : owns_request (prs w) = true;
  rf_pending : dispatched (prs w) = false;
  rf_error : parse_error (prs w) <> HTTP_PARSE_OK;
  rf_objects : objects w = objs;
  rf_handed : handed w = hd;
}.

Ltac parser_simpl := cbn [request conn dispatch_cb uri_builder body_builder header_name_builder
      header_value_builder body_offset total_headers_size max_body_size cl_value_first cl_seen_count header_count host_seen_count
      ct_seen_count te_chunked_seen in_header_value paused parse_error owns_request dispatched].

Ltac norm := unfold update, on_prs, on_heap, fail, p_header, p_count, p_cl, p_te, p_host, p_ct, p_error, p_uri, p_total, p_request,
  p_body, p_offset, p_paused, r_headers, r_base, r_chunked, r_keep_alive, set_content_length, count_failed; simpl prs; simpl heap;
  simpl next; simpl objects; simpl handed.

Lemma current_reading u n x t hs table iv : current (reading u n x t hs table iv) = Some (id, request_at hs table).
Proof. unfold current, reading. cbn. by rewrite lookup_insert_eq. Qed.

(** The checks of one field agree with [next_ok]. *)
Lemma check_header_reading hs n x u n' x' t table iv :
  Z.of_nat (length hs) < HTTP_MAX_HEADER_COUNT ->
  let p cnt hs := MkParser (Some id) vw cb u bb n' x' 0 t mx (content_length_of hs) (count "content-length" hs)
             cnt (count "host" hs) (count "content-type" hs) (chunked_of hs) iv pa HTTP_PARSE_OK true false in
  forall cnt,
  if next_ok hs n x then
    check_header n x (p cnt hs) (request_at hs table) = inr (p cnt (hs ++ [(n, x)]), request_at (hs ++ [(n, x)]) table)
  else exists e, check_header n x (p cnt hs) (request_at hs table) = inl e /\ e <> HTTP_PARSE_OK.
Proof.
  intros L p cnt. unfold next_ok. rewrite (proj2 (Z.ltb_lt _ _)) by done. cbn [andb].
  unfold check_header, p, request_at.
  destruct (eqb_bytes n (lit "content-length")) eqn:E1.
  { apply eqb_bytes_eq in E1 as ->. rewrite parse_content_length_spec.
    destruct (decimal x) as [c|] eqn:D; [|by eexists]. cbn [cl_seen_count cl_value_first].
    destruct (_ && _) eqn:B; cbn [negb]; [by eexists|].
    rewrite (content_length_next hs x c) by (done || by rewrite B). rewrite count_same, !count_other by done.
    rewrite chunked_other, connection_other by done. norm. rewrite small_count by (by apply count_bounds). cbn.
    do 3 f_equal. rewrite count_zero. rewrite count_pos in B. unfold content_length_of in *. 
    destruct (values _ hs); [done|]. cbn [andb] in B. lia. }
  rewrite (content_length_other hs n x E1). rewrite (count_other "content-length" hs n x E1).
  destruct (eqb_bytes n (lit "transfer-encoding")) eqn:E2.
  { apply eqb_bytes_eq in E2 as ->. unfold BodyStream.zlen. destruct x as [|c x]; [by eexists|]. cbn [length Nat.eqb negb].
    rewrite chunked_same, connection_other by done. rewrite !count_other by done. unfold is_chunked.
    destruct (prefix_ci _ _); [|by rewrite orb_false_r]. rewrite orb_true_r. done. }
  rewrite (chunked_other hs n x E2).
  destruct (eqb_bytes n (lit "host")) eqn:E3.
  { apply eqb_bytes_eq in E3 as ->. cbn [host_seen_count]. rewrite small_count by (by apply count_bounds).
    rewrite host_ok_spec, one_lt_succ by (by apply count_bounds).
    destruct (count "host" hs =? 0), (host_ok x); cbn [negb orb andb]; try by eexists.
    rewrite connection_other, count_same by done. rewrite !count_other by done. done. }
  rewrite (count_other "host" hs n x E3).
  destruct (eqb_bytes n (lit "content-type")) eqn:E4.
  { apply eqb_bytes_eq in E4 as ->. cbn [ct_seen_count]. rewrite small_count by (by apply count_bounds).
    rewrite one_lt_succ by (by apply count_bounds).
    destruct (count "content-type" hs =? 0); cbn [negb]; [|by eexists].
    rewrite connection_other, count_same by done. done. }
  rewrite (count_other "content-type" hs n x E4).
  destruct (eqb_bytes n (lit "connection")) eqn:E5; [|by rewrite (connection_other hs n x E5)].
  apply eqb_bytes_eq in E5 as ->. rewrite connection_same.
  by destruct (prefix_ci (lit "keep-alive") x), (prefix_ci (lit "close") x).
Qed.

(** Saving a field. *)
Lemma save_reading hs n x u t m iv :
  fields_ok hs = true -> field_table hs m ->
  if fields_ok (hs ++ [(map to_lower n, x)]) then
    exists m', field_table (hs ++ [(map to_lower n, x)]) m' /\
      save_current_header (reading u (Some n) (Some x) t hs (Some m) iv)
        = Some (reading u None None t (hs ++ [(map to_lower n, x)]) (Some m') iv)
  else exists w, save_current_header (reading u (Some n) (Some x) t hs (Some m) iv) = Some w /\ refused w.
Proof.
  intros F T. rewrite fields_ok_snoc, F. cbn [andb]. unfold save_current_header. cbn [prs reading header_name_builder
    header_value_builder header_count].
  destruct (Z.leb_spec HTTP_MAX_HEADER_COUNT (Z.of_nat (length hs))) as [L|L].
  { unfold next_ok. rewrite (proj2 (Z.ltb_ge _ _)) by lia. cbn [andb]. eexists. split; [reflexivity|].
    split; try done. unfold fail, on_prs, reading. cbn. rewrite lookup_insert_eq. by eexists. }
  rewrite current_reading. cbn [mbind option_bind]. rewrite small_count by (unfold HTTP_MAX_HEADER_COUNT in *; lia).
  pose proof (check_header_reading hs (map to_lower n) x u (if http_known_header_lookup (map to_lower n) then None else Some (map to_lower n))
    (Some x) t (Some m) iv L (Z.of_nat (length hs) + 1)) as C. cbn zeta in C.
  destruct (next_ok hs (map to_lower n) x).
  - destruct (field_table_store hs m (map to_lower n) x T) as (m' & S & T').
    exists m'. split; [done|]. unfold p_count, p_header. parser_simpl.
    rewrite C. unfold update, on_heap, on_prs, reading, r_headers. cbn -[http_request_store_header]. rewrite S, insert_insert_eq, length_app.
    cbn [length]. do 3 f_equal. f_equal. lia.
  - destruct C as (e & C & He). unfold p_count, p_header. parser_simpl.
    rewrite C. eexists. split; [reflexivity|]. unfold count_failed, fail, on_prs, reading.
    destruct (eqb_bytes _ _); [|destruct (eqb_bytes _ _)]; (split; try done; cbn; rewrite lookup_insert_eq; by eexists).
Qed.

(** *** A refused head stays refused *)

Definition is_head_event (e : event) : bool :=
  match e with EvUrl _ | EvHeaderField _ | EvHeaderValue _ => true | _ => false end.

Lemma refused_parser f w :
  refused w -> request (f (prs w)) = request (prs w) -> owns_request (f (prs w)) = owns_request (prs w) ->
  dispatched (f (prs w)) = dispatched (prs w) -> parse_error (f (prs w)) <> HTTP_PARSE_OK -> refused (on_prs f w).
Proof. intros [] ????. split; cbn; congruence. Qed.

Lemma refused_update r w : refused w -> refused (update id r w).
Proof. intros []. split; try done. cbn. rewrite lookup_insert_eq. by eexists. Qed.

Lemma refused_fail e w : e <> HTTP_PARSE_OK -> refused w -> refused (fail e w).
Proof. intros He R. apply refused_parser; done. Qed.

Lemma check_header_keeps n x p r : match check_header n x p r with
  | inl e => e <> HTTP_PARSE_OK
  | inr (p', _) => request p' = request p /\ owns_request p' = owns_request p /\ dispatched p' = dispatched p
                   /\ parse_error p' = parse_error p
  end.
Proof. unfold check_header. repeat case_match; simplify_eq; cbn; try done. Qed.

Lemma count_failed_keeps n p : request (count_failed n p) = request p /\ owns_request (count_failed n p) = owns_request p
  /\ dispatched (count_failed n p) = dispatched p /\ parse_error (count_failed n p) = parse_error p.
Proof. unfold count_failed. by repeat case_match. Qed.

Lemma refused_save w : refused w -> exists w', save_current_header w = Some w' /\ refused w'.
Proof.
  intros R. unfold save_current_header. destruct (header_name_builder (prs w)) as [n|]; [|by eauto].
  destruct (header_value_builder (prs w)) as [x|]; [|by eauto].
  case_match; [eexists; split; [reflexivity|]; by apply refused_fail|].
  pose proof R as [Q [r Hr] O D E Ob Hd]. unfold current. rewrite Q. cbn [mbind option_bind]. rewrite Hr. cbn [mbind option_bind].
  match goal with |- context [check_header ?a ?b ?c ?d] => pose proof (check_header_keeps a b c d) as K; destruct (check_header a b c d) as [e|[p' r']] end.
  - eexists. split; [reflexivity|]. apply refused_fail; [done|].
    match goal with |- context [count_failed ?a ?b] => pose proof (count_failed_keeps a b) as (K1 & K2 & K3 & K4) end.
    apply refused_parser; [done| by rewrite K1 | by rewrite K2 | by rewrite K3 | by rewrite K4].
  - destruct K as (K1 & K2 & K3 & K4). eexists. split; [reflexivity|]. apply refused_update, refused_parser; try done.
    cbn. by rewrite K4.
Qed.

Lemma refused_pending w : refused w -> exists w', save_pending w = Some w' /\ refused w'.
Proof.
  intros R. unfold save_pending. destruct (in_header_value (prs w)); [|by eauto].
  destruct (refused_save w R) as (w' & -> & R'). eexists. split; [reflexivity|]. apply refused_parser; try done. apply R'.
Qed.

Lemma refused_step e w :
  is_head_event e = true -> refused w ->
  exists rc w', callback tmp can_open written uninitialised e w = Some (rc, w') /\ (rc = 0 \/ rc = -1) /\ refused w'.
Proof.
  intros He R. pose proof R as [Q [r Hr] O D E Ob Hd]. destruct e as [|a|a|a| | |]; try done; cbn [callback].
  - unfold on_url. do 2 (case_match; [do 2 eexists; split; [reflexivity|]; split; [auto|by apply refused_fail]|]).
    do 2 eexists. split; [reflexivity|]. split; [auto|by apply refused_parser].
  - unfold on_header_field, current. rewrite Q. cbn [mbind option_bind]. rewrite Hr. cbn [mbind option_bind].
    destruct (refused_pending _ (refused_update (http_request_init_headers r) _ R)) as (w' & -> & R'). cbn [mbind option_bind].
    case_match; do 2 eexists; (split; [reflexivity|]); split; auto; [by apply refused_fail|apply refused_parser; try done; apply R'].
  - unfold on_header_value. do 3 (case_match; [do 2 eexists; split; [reflexivity|]; split; [auto|by apply refused_fail]|]).
    do 2 eexists. split; [reflexivity|]. split; [auto|by apply refused_parser].
Qed.

Lemma refused_run evs w :
  forallb is_head_event evs = true -> refused w ->
  exists rc rest w', run evs w = Some (rc, rest, w') /\ (rc = 0 \/ rc = -1) /\ refused w'.
Proof.
  revert w. induction evs as [|e evs IH]; intros w He R; cbn in *; [by eauto 10|].
  apply andb_true_iff in He as [He Hes]. destruct (refused_step e w He R) as (rc & w' & -> & Hrc & R'). cbn [mbind option_bind].
  destruct Hrc as [-> | ->]; cbn; [by apply IH|]. by eauto 10.
Qed.

(** *** Sequences of events *)

Definition reads (evs : list event) (w : world) (ok : bool) (good : world -> Prop) : Prop :=
  exists rc rest w', run evs w = Some (rc, rest, w') /\
    if ok then rc = 0 /\ rest = [] /\ good w' else (rc = 0 \/ rc = -1) /\ refused w'.

Lemma run_events_app evs evs' w :
  run (evs ++ evs') w =
    match run evs w with
    | Some (rc, rest, w) => if rc =? 0 then run evs' w else Some (rc, rest ++ evs', w)
    | None => None
    end.
Proof.
  revert w. induction evs as [|e evs IH]; intros w; [done|]. cbn [app run run_events]. unfold run in *. cbn [run_events].
  destruct (callback _ _ _ _ e w) as [[rc w']|]; [|done]. cbn [mbind option_bind].
  destruct (rc =? 0) eqn:E; [by rewrite IH|]. cbn [mbind option_bind]. by rewrite E.
Qed.

Lemma reads_app evs evs' w ok ok' good good' :
  reads evs w ok good -> forallb is_head_event evs' = true ->
  (ok = true -> forall w', good w' -> reads evs' w' ok' good') -> reads (evs ++ evs') w (ok && ok') good'.
Proof.
  intros (rc & rest & w' & R & H) He K. unfold reads. rewrite run_events_app, R. cbn [mbind option_bind]. destruct ok; cbn [andb].
  - destruct H as (-> & -> & G). cbn. by apply K.
  - destruct H as (Hrc & G). destruct Hrc as [-> | ->]; cbn; [|by eauto 10]. by apply refused_run.
Qed.

Lemma reads_nil w good : good w -> reads [] w true good.
Proof. intros G. by exists 0, [], w. Qed.

Lemma reads_one e w (ok : bool) (good : world -> Prop) :
  (exists rc w', callback tmp can_open written uninitialised e w = Some (rc, w') /\
     if ok then rc = 0 /\ good w' else (rc = 0 \/ rc = -1) /\ refused w') -> reads [e] w ok good.
Proof.
  intros (rc & w' & C & H). unfold reads, run. cbn [run_events]. rewrite C. cbn [mbind option_bind].
  destruct ok; [destruct H as [-> G]; cbn; by eauto 10|]. destruct H as [[-> | ->] G]; cbn; by eauto 10.
Qed.

Lemma reads_false evs w good good' : reads evs w false good -> reads evs w false good'.
Proof. done. Qed.

(** *** Spans *)

(** Spans of one kind, each accepted while [fits] holds of what was collected. *)
Lemma reads_spans (ev : bytes -> event) (fits : bytes -> bool) (st : option bytes -> world) ps b :
  (forall a, is_head_event (ev a) = true) ->
  (forall x y, fits (x ++ y) = true -> fits x = true) ->
  (forall b a, fits (default [] b) = true ->
     reads [ev a] (st b) (fits (default [] b ++ a)) (fun w => w = st (Some (default [] b ++ a)))) ->
  fits (default [] b) = true -> ps <> [] ->
  reads (map ev ps) (st b) (fits (default [] b ++ concat ps)) (fun w => w = st (Some (default [] b ++ concat ps))).
Proof.
  intros He Hf Hs. revert b. induction ps as [|a ps IH]; [done|]. intros b Hb _. cbn [map concat].
  change (ev a :: map ev ps) with ([ev a] ++ map ev ps).
  replace (fits (default [] b ++ a ++ concat ps))
    with (fits (default [] b ++ a) && fits (default [] b ++ a ++ concat ps)).
  2:{ destruct (fits (default [] b ++ a)) eqn:E; [done|]. cbn. symmetry. apply not_true_iff_false. intros F.
      rewrite app_assoc in F. apply Hf in F. congruence. }
  eapply reads_app; [by apply Hs| |].
  { clear IH. induction ps; cbn; [done|]. by rewrite He. }
  intros E w ->. destruct ps as [|a' ps].
  - cbn [map concat]. rewrite app_nil_r, E. by apply reads_nil.
  - specialize (IH (Some (default [] b ++ a)) E ltac:(done)). cbn [from_option] in IH. unfold Datatypes.id in IH. rewrite <- !app_assoc in IH. exact IH.
Qed.

Lemma reading_refused u n x t hs table iv e :
  e <> HTTP_PARSE_OK -> refused (fail e (reading u n x t hs table iv)).
Proof. intros He. split; try done. unfold fail, on_prs, reading. cbn. rewrite lookup_insert_eq. by eexists. Qed.

Lemma head_zlen_app (a b : bytes) : zlen (a ++ b) = zlen a + zlen b.
Proof. unfold zlen. rewrite length_app. lia. Qed.

Lemma head_zlen_nonneg (a : bytes) : 0 <= zlen a.
Proof. unfold zlen. lia. Qed.

Lemma target_ok_prefix x y : target_ok (x ++ y) = true -> target_ok x = true.
Proof.
  unfold target_ok. rewrite head_zlen_app, existsb_app. intros [H1 H2]%andb_true_iff. apply andb_true_iff.
  rewrite negb_orb in H2. apply andb_true_iff in H2 as [-> _]. pose proof (head_zlen_nonneg y). split; [|done].
  apply Z.leb_le in H1. apply Z.leb_le. lia.
Qed.

Lemma reads_url us u t hs table iv n x :
  target_ok (default [] u) = true -> us <> [] ->
  reads (map EvUrl us) (reading u n x t hs table iv) (target_ok (default [] u ++ concat us))
    (fun w => w = reading (Some (default [] u ++ concat us)) n x t hs table iv).
Proof.
  intros Hu Hus. apply (reads_spans EvUrl target_ok (fun u => reading u n x t hs table iv)); try done.
  { apply target_ok_prefix. }
  clear. intros u a Hu. apply reads_one. cbn [callback]. unfold on_url, built. cbn [prs reading uri_builder].
  unfold target_ok in *. rewrite head_zlen_app, existsb_app. apply andb_true_iff in Hu as [_ Hb]. apply negb_true_iff in Hb. rewrite Hb.
  cbn [orb]. rewrite Z.ltb_antisym. destruct (_ <=? _); cbn [negb andb].
  2:{ do 2 eexists. split; [reflexivity|]. split; [auto|]. by apply reading_refused. }
  destruct (existsb bad_uri_byte a); cbn [negb]; do 2 eexists; (split; [reflexivity|]); split; auto. by apply reading_refused.
Qed.

(** *** Fields *)

(** The last field waits in the builders until the next one begins. *)
Definition collected (u : option bytes) (hs : fields) (w : world) : Prop :=
  (hs = [] /\ exists n x table, w = reading u n x 0 [] table false /\ default [] n = [] /\ default [] x = [] /\
     (table = None \/ table = Some ∅)) \/
  (exists hs' n x m, hs = hs' ++ [(map to_lower n, x)] /\ fields_ok hs' = true /\ field_table hs' m /\
     w = reading u (Some n) (Some x) (value_bytes hs) hs' (Some m) true).

Definition name_fits (n : bytes) : bool := zlen n <=? HTTP_MAX_HEADER_NAME.
Definition value_fits (t : Z) (x : bytes) : bool := (zlen x <=? HTTP_MAX_HEADER_VALUE) && (t + zlen x <=? HTTP_MAX_HEADERS_TOTAL).

Lemma name_fits_prefix x y : name_fits (x ++ y) = true -> name_fits x = true.
Proof. unfold name_fits. rewrite head_zlen_app, !Z.leb_le. pose proof (head_zlen_nonneg y). lia. Qed.

Lemma value_fits_prefix t x y : value_fits t (x ++ y) = true -> value_fits t x = true.
Proof. unfold value_fits. rewrite head_zlen_app, !andb_true_iff, !Z.leb_le. pose proof (head_zlen_nonneg y). lia. Qed.

Lemma value_bytes_app hs hs' : value_bytes (hs ++ hs') = value_bytes hs + value_bytes hs'.
Proof. unfold value_bytes. induction hs as [|a hs IH]; cbn [app foldr]; [done|]. rewrite IH. lia. Qed.

Lemma reading_init u n x t hs m iv : on_heap (<[id := http_request_init_headers (request_at hs (Some m))]> (<[id := request_at hs (Some m)]> h))
  (reading u n x t hs (Some m) iv) = reading u n x t hs (Some m) iv.
Proof. unfold on_heap, reading. cbn. by rewrite insert_insert_eq. Qed.

(** The next field begins: the one that waits is saved. *)
Lemma pending_saved u hs w :
  collected u hs w ->
  exists r, current w = Some (id, r) /\
  let w' := update id (http_request_init_headers r) w in
  if fields_ok hs then exists n x m, save_pending w' = Some (reading u n x (value_bytes hs) hs (Some m) false) /\
       default [] n = [] /\ default [] x = [] /\ field_table hs m
  else exists w'', save_pending w' = Some w'' /\ refused w''.
Proof.
  intros [(-> & n & x & table & -> & Hn & Hx & Ht)|(hs' & n & x & m & -> & F & T & ->)]; rewrite current_reading; eexists; (split; [done|]).
  - cbn zeta. unfold fields_ok. cbn. exists n, x, ∅. unfold update, on_heap, reading. cbn. rewrite insert_insert_eq. unfold save_pending. cbn.
    split; [|by split; [|split; [|apply field_table_nil]]]. do 3 f_equal. destruct Ht as [-> | ->]; done.
  - cbn zeta. unfold update. cbn [heap reading]. rewrite reading_init. unfold save_pending. cbn [prs reading in_header_value].
    pose proof (save_reading hs' n x u (value_bytes (hs' ++ [(map to_lower n, x)])) m true F T) as S.
    destruct (fields_ok (hs' ++ _)).
    + destruct S as (m' & T' & S). exists None, None, m'. rewrite S. cbn [mbind option_bind]. done.
    + destruct S as (w & S & R). rewrite S. cbn [mbind option_bind]. eexists. split; [done|]. apply refused_parser; try done. apply R.
Qed.

Lemma reads_first_name u hs w a :
  collected u hs w ->
  reads [EvHeaderField a] w (fields_ok hs && name_fits a)
    (fun w' => exists x m, w' = reading u (Some a) x (value_bytes hs) hs (Some m) false /\ default [] x = [] /\ field_table hs m).
Proof.
  intros C. destruct (pending_saved u hs w C) as (r & Hr & S). cbn zeta in S. apply reads_one. cbn [callback]. unfold on_header_field.
  rewrite Hr. cbn [mbind option_bind]. destruct (fields_ok hs); cbn [andb].
  - destruct S as (n & x & m & -> & Hn & Hx & T). cbn [mbind option_bind]. unfold built. cbn [prs reading header_name_builder]. rewrite Hn.
    unfold name_fits. change (zlen [] + zlen a) with (zlen a). rewrite Z.ltb_antisym. destruct (_ <=? _); cbn [negb].
    + do 2 eexists. split; [reflexivity|]. split; [done|]. exists x, m. unfold append, reading, on_prs, p_header. cbn. rewrite Hn. done.
    + do 2 eexists. split; [reflexivity|]. split; [auto|]. by apply reading_refused.
  - destruct S as (w'' & -> & R). cbn [mbind option_bind]. case_match; do 2 eexists; (split; [reflexivity|]); split; auto.
    + by apply refused_fail.
    + apply refused_parser; try done. apply R.
Qed.

Lemma reads_name u n x t hs m ps :
  name_fits n = true -> ps <> [] ->
  reads (map EvHeaderField ps) (reading u (Some n) x t hs (Some m) false) (name_fits (n ++ concat ps))
    (fun w => w = reading u (Some (n ++ concat ps)) x t hs (Some m) false).
Proof.
  intros Hn Hps. apply (reads_spans EvHeaderField name_fits (fun n => reading u n x t hs (Some m) false) ps (Some n)); try done.
  { apply name_fits_prefix. }
  clear. intros n a Hn. apply reads_one. cbn [callback]. unfold on_header_field. rewrite current_reading. cbn [mbind option_bind].
  unfold update. cbn [heap reading]. rewrite reading_init. unfold save_pending. cbn [prs reading in_header_value mbind option_bind].
  unfold built. cbn [header_name_builder]. unfold name_fits. rewrite head_zlen_app, Z.ltb_antisym. destruct (_ <=? _); cbn [negb];
    do 2 eexists; (split; [reflexivity|]); split; auto. by apply reading_refused.
Qed.

Lemma value_step u n x t hs m iv a :
  n <> [] ->
  reads [EvHeaderValue a] (reading u (Some n) x (t + zlen (default [] x)) hs (Some m) iv) (value_fits t (default [] x ++ a))
    (fun w => w = reading u (Some n) (Some (default [] x ++ a)) (t + zlen (default [] x ++ a)) hs (Some m) true).
Proof.
  intros Hn. apply reads_one. cbn [callback]. unfold on_header_value, built. cbn [prs reading header_name_builder header_value_builder
    total_headers_size from_option]. destruct n as [|c n]; [done|]. unfold zlen at 1. cbn [length Datatypes.id]. rewrite (proj2 (Z.eqb_neq _ _)) by lia.
  unfold value_fits. rewrite head_zlen_app, !Z.ltb_antisym, Z.add_assoc. destruct (_ <=? HTTP_MAX_HEADER_VALUE); cbn [negb andb].
  2:{ do 2 eexists. split; [reflexivity|]. split; [auto|]. by apply reading_refused. }
  destruct (_ <=? _); cbn [negb]; do 2 eexists; (split; [reflexivity|]); split; auto. by apply reading_refused.
Qed.

Lemma reads_value u n x t hs m ps :
  default [] x = [] -> n <> [] -> ps <> [] ->
  reads (map EvHeaderValue ps) (reading u (Some n) x t hs (Some m) false) (value_fits t (concat ps))
    (fun w => w = reading u (Some n) (Some (concat ps)) (t + zlen (concat ps)) hs (Some m) true).
Proof.
  intros Hx Hn. destruct ps as [|a ps]; [done|]. intros _. change (map EvHeaderValue (a :: ps)) with ([EvHeaderValue a] ++ map EvHeaderValue ps).
  pose proof (value_step u n x t hs m false a Hn) as V. rewrite Hx in V. cbn [app] in V. change (zlen []) with 0 in V. rewrite Z.add_0_r in V.
  assert (E : forallb is_head_event (map EvHeaderValue ps) = true) by (clear; induction ps; done).
  cbn [concat]. destruct ps as [|b ps].
  { cbn [map concat app]. rewrite app_nil_r. exact V. }
  replace (value_fits t (a ++ concat (b :: ps))) with (value_fits t a && value_fits t (a ++ concat (b :: ps))).
  2:{ destruct (value_fits t a) eqn:F; [done|]. cbn [andb]. symmetry. apply not_true_iff_false. intros F'%value_fits_prefix. congruence. }
  eapply reads_app; [exact V|done|]. intros F w ->.
  apply (reads_spans EvHeaderValue (value_fits t) (fun x => reading u (Some n) x (t + zlen (default [] x)) hs (Some m) true) (b :: ps) (Some a));
    try done; [apply value_fits_prefix|]. intros x' a' _. by apply value_step.
Qed.

Definition field_fits (hs : fields) (h : bytes * bytes) : bool := name_fits h.1 && value_fits (value_bytes hs) h.2.

Lemma zlen_lower n : zlen (map to_lower n) = zlen n.
Proof. unfold zlen. by rewrite length_map. Qed.

Lemma reads_field u hs w f :
  collected u hs w -> spans_ok f ->
  reads (field_events f) w (fields_ok hs && field_fits hs (field_of f)) (collected u (hs ++ [field_of f])).
Proof.
  intros C (Hns & Hvs & Hn). unfold field_events, field_fits, field_of. cbn [fst snd]. set (n := concat (name_spans f)) in *.
  assert (N : reads (map EvHeaderField (name_spans f)) w (fields_ok hs && name_fits n)
    (fun w' => fields_ok hs = true /\ exists x m, w' = reading u (Some n) x (value_bytes hs) hs (Some m) false /\ default [] x = [] /\ field_table hs m)).
  { unfold n. destruct (name_spans f) as [|a ns]; [done|]. pose proof (reads_first_name u hs w a C) as A.
    change (map EvHeaderField (a :: ns)) with ([EvHeaderField a] ++ map EvHeaderField ns). cbn [concat].
    destruct ns as [|b ns].
    { cbn [concat map app]. rewrite app_nil_r. destruct A as (rc & rest & w' & R & A). exists rc, rest, w'. split; [done|].
      destruct (fields_ok hs), (name_fits a); try done. cbn [andb] in *. naive_solver. }
    replace (name_fits (a ++ concat (b :: ns))) with (name_fits a && name_fits (a ++ concat (b :: ns))).
    2:{ destruct (name_fits a) eqn:F; [done|]. cbn [andb]. symmetry. apply not_true_iff_false. intros F'%name_fits_prefix. congruence. }
    rewrite andb_assoc. eapply reads_app; [exact A|clear; induction (b :: ns); done|].
    intros [F1 F2]%andb_true_iff w' (x & m & -> & Hx & T). destruct (reads_name u a x (value_bytes hs) hs m (b :: ns) F2 ltac:(done)) as (rc & rest & w' & R & K).
    exists rc, rest, w'. split; [done|]. destruct (name_fits (a ++ concat (b :: ns))); [|done]. destruct K as (? & ? & ->). eauto 10. }
  unfold name_fits at 1. rewrite zlen_lower. fold (name_fits n). rewrite andb_assoc.
  eapply reads_app; [exact N|clear; induction (value_spans f); done|].
  intros _ w' (F & x & m & -> & Hx & T). destruct (reads_value u n x (value_bytes hs) hs m (value_spans f) Hx Hn Hvs) as (rc & rest & w' & R & K).
  exists rc, rest, w'. split; [done|]. destruct (value_fits _ _); [|done]. destruct K as (-> & -> & ->). do 2 (split; [done|]).
  right. exists hs, n, (concat (value_spans f)), m. do 3 (split; [done|]). rewrite value_bytes_app. unfold value_bytes at 3. cbn [foldr snd].
  by rewrite Z.add_0_r.
Qed.

Fixpoint fields_fit (hs : fields) (new : fields) : bool :=
  match new with
  | [] => true
  | f :: new => fields_ok hs && field_fits hs f && fields_fit (hs ++ [f]) new
  end.

Lemma field_events_head fs : forallb is_head_event (flat_map field_events fs) = true.
Proof.
  induction fs as [|f fs IH]; [done|]. cbn [flat_map]. rewrite forallb_app, IH, andb_true_r. unfold field_events.
  rewrite forallb_app. apply andb_true_iff. split; [induction (name_spans f)|induction (value_spans f)]; done.
Qed.

Lemma reads_fields u fs hs w :
  collected u hs w -> Forall spans_ok fs ->
  reads (flat_map field_events fs) w (fields_fit hs (map field_of fs)) (collected u (hs ++ map field_of fs)).
Proof.
  revert hs w. induction fs as [|f fs IH]; intros hs w C S.
  { cbn. rewrite app_nil_r. by apply reads_nil. }
  inversion S as [|? ? S1 S2]; subst. cbn [flat_map map fields_fit].
  eapply reads_app; [by apply reads_field|apply field_events_head|]. intros _ w' C'.
  specialize (IH _ _ C' S2). by rewrite <- app_assoc in IH.
Qed.

Lemma fields_ok_prefix hs hs' : fields_ok (hs ++ hs') = true -> fields_ok hs = true.
Proof.
  induction hs' as [|[n x] hs' IH] using rev_ind; [by rewrite app_nil_r|]. rewrite app_assoc, fields_ok_snoc.
  intros [H _]%andb_true_iff. by apply IH.
Qed.

(** What was refused while the fields arrived together with the last check. *)
Lemma fields_fit_spec new hs :
  sizes_ok hs = true ->
  fields_fit hs new && fields_ok (hs ++ new) = sizes_ok (hs ++ new) && fields_ok (hs ++ new).
Proof.
  revert hs. induction new as [|f new IH]; intros hs S; cbn [fields_fit].
  { rewrite app_nil_r, S. done. }
  assert (A : field_fits hs f = sizes_ok (hs ++ [f])).
  { unfold sizes_ok, field_fits, value_fits, name_fits in *. rewrite forallb_app, value_bytes_app. cbn [forallb]. apply andb_true_iff in S as [-> _].
    replace (value_bytes [f]) with (zlen f.2) by (cbn; lia). btauto. }
  rewrite A. change (hs ++ f :: new) with (hs ++ [f] ++ new). rewrite app_assoc.
  destruct (fields_ok ((hs ++ [f]) ++ new)) eqn:F; [|by rewrite !andb_false_r].
  rewrite (fields_ok_prefix hs ([f] ++ new)) by (by rewrite app_assoc). cbn [andb]. rewrite !andb_true_r.
  destruct (sizes_ok (hs ++ [f])) eqn:Z.
  - specialize (IH _ Z). rewrite F, !andb_true_r in IH. by rewrite IH.
  - cbn [andb]. symmetry. apply not_true_iff_false. unfold sizes_ok in *. rewrite forallb_app, !value_bytes_app.
    intros [[H1 H2]%andb_true_iff H3]%andb_true_iff. rewrite H1 in Z. cbn [andb] in Z. apply Z.leb_gt in Z. apply Z.leb_le in H3.
    rewrite value_bytes_app in Z. assert (0 <= value_bytes new); [|lia].
    clear. unfold value_bytes. induction new as [|a l IH]; cbn [foldr]; [done|]. pose proof (head_zlen_nonneg a.2). lia.
Qed.

(** *** The end of the head *)

Definition whole_ok (u : bytes) (hs : fields) (major minor : Z) (m : bytes) : bool :=
  negb (negb (length (values (lit "content-length") hs) =? 0)%nat && chunked_of hs)
  && (major =? 1) && ((minor =? 0) || (minor =? 1))
  && negb ((minor =? 1) && (length (values (lit "host") hs) =? 0)%nat)
  && negb (eqb_bytes m (lit "CONNECT"))
  && negb (eqb_bytes u [STAR] && negb (eqb_bytes m (lit "OPTIONS"))).

(** The request the head describes, before its body. *)
Definition request_line (u : bytes) (hs : fields) (mt : gmap bytes zval) (major minor : Z) (m : bytes) : http_request_t :=
  body_policy vw (http_request_classify_protocols (open_multipart (keep_alive_default minor
    (r_line (Some m) (Some u) major minor (request_at hs (Some mt)))))).

Definition traced (r : http_request_t) : http_request_t :=
  match vw with Some v => if telemetry_enabled v then http_request_parse_trace_context r else r | None => r end.

Definition awaiting (n x : option bytes) (t : Z) (hs : fields) (owns disp : bool) : http1_parser_t :=
  MkParser (Some id) vw cb None bb n x 0 t mx (content_length_of hs) (count "content-length" hs)
    (Z.of_nat (length hs)) (count "host" hs) (count "content-type" hs) (chunked_of hs) false pa HTTP_PARSE_OK owns disp.

Definition buffers (r : http_request_t) : bool :=
  negb (use_multipart r) && negb (BodyStream.body_streaming (base r)) && (0 <? BodyStream.content_length (base r)).

Definition accepted (u : bytes) (hs : fields) (major minor : Z) (m : bytes) (w : world) : Prop :=
  exists n x mt, default [] n = [] /\ default [] x = [] /\ field_table hs mt /\
  let r := request_line u hs mt major minor m in
  if buffers r then
    w = MkWorld (awaiting n x (value_bytes hs) hs true false)
          (<[id := traced (r_base (BodyStream.set_body (base r) (Some (uninitialised (BodyStream.content_length (base r))))) r)]> h)
          nx objs hd
  else if cb && BodyStream.body_streaming (base r) then
    w = MkWorld (awaiting n x (value_bytes hs) hs false true) (<[id := traced r]> h) nx ({[id]} ∪ objs) (hd ++ [id])
  else w = MkWorld (awaiting n x (value_bytes hs) hs true false) (<[id := traced r]> h) nx objs hd.

Lemma headers_complete_reading u hs w major minor m :
  collected (Some u) hs w -> content_length_of hs <= mx ->
  exists rc w', on_headers_complete uninitialised major minor m false true true w = Some (rc, w') /\
    if fields_ok hs && whole_ok u hs major minor m then rc = 0 /\ accepted u hs major minor m w'
    else rc = -1 /\ refused w'.
Proof.
  intros C L. destruct (pending_saved (Some u) hs w C) as (r & Hr & S). cbn zeta in S. unfold on_headers_complete.
  rewrite andb_false_r, Hr. cbn [mbind option_bind]. destruct (fields_ok hs); cbn [andb].
  2:{ destruct S as (w'' & -> & R). cbn [mbind option_bind]. unfold head_error. rewrite bool_decide_false by apply R. cbn [negb].
      do 2 eexists. split; [reflexivity|]. split; [done|]. apply refused_fail; [apply R|done]. }
  destruct S as (n & x & mt & -> & Hn & Hx & T). cbn [mbind option_bind prs reading].
  unfold head_error, whole_ok. cbn [parse_error cl_seen_count te_chunked_seen host_seen_count]. rewrite bool_decide_true by done. cbn [negb].
  rewrite count_pos, count_zero.
  replace (match values (lit "content-length") hs with [] => false | _ => true end)
    with (negb (length (values (lit "content-length") hs) =? 0)%nat) by (by destruct (values _ hs)).
  replace (match values (lit "host") hs with [] => true | _ => false end)
    with (length (values (lit "host") hs) =? 0)%nat by (by destruct (values _ hs)).
  destruct (negb _ && chunked_of hs); cbn [negb andb]; [do 2 eexists; split; [reflexivity|]; split; [done|by apply reading_refused]|].
  rewrite <- negb_orb.
  replace (negb (major =? 1) || negb ((minor =? 0) || (minor =? 1))) with (negb ((major =? 1) && ((minor =? 0) || (minor =? 1)))) by btauto.
  destruct ((major =? 1) && _); cbn [negb andb]; [|do 2 eexists; split; [reflexivity|]; split; [done|by apply reading_refused]].
  destruct ((minor =? 1) && _); cbn [negb andb]; [do 2 eexists; split; [reflexivity|]; split; [done|by apply reading_refused]|].
  rewrite current_reading. cbn [mbind option_bind uri_builder]. unfold target_error.
  destruct (eqb_bytes m (lit "CONNECT")); cbn [negb andb].
  { do 2 eexists. split; [reflexivity|]. split; [done|]. split; try done. cbn. rewrite lookup_insert_eq. by eexists. }
  destruct (eqb_bytes u [STAR] && _); cbn [negb].
  { do 2 eexists. split; [reflexivity|]. split; [done|]. split; try done. cbn. rewrite lookup_insert_eq. by eexists. }
  cbn zeta. set (r' := body_policy _ _). assert (Er : r' = request_line u hs mt major minor m) by done. clearbody r'. subst r'.
  set (r' := request_line u hs mt major minor m).
  assert (Ln : BodyStream.content_length (base r') = content_length_of hs).
  { unfold r', request_line, body_policy, keep_alive_default, open_multipart. repeat case_match; done. }
  unfold accepted. fold (buffers r'). destruct (buffers r') eqn:B.
  - rewrite Ln in *. cbn [max_body_size prs update on_heap on_prs p_uri reading]. rewrite (proj2 (Z.ltb_ge _ _)) by done. cbn [negb].
    do 2 eexists. split; [reflexivity|]. split; [done|]. exists n, x, mt. do 3 (split; [done|]). cbn zeta. fold r'. rewrite B, Ln.
    unfold update, on_heap, on_prs, p_offset, p_uri, reading, awaiting. cbn. rewrite !insert_insert_eq. done.
  - cbn [dispatch_cb prs update on_heap on_prs p_uri reading].
    destruct (cb && BodyStream.body_streaming (base r')) eqn:D.
    + do 2 eexists. split; [reflexivity|]. split; [done|]. exists n, x, mt. do 3 (split; [done|]). cbn zeta. fold r'. rewrite B, D.
      unfold dispatch, update, on_heap, on_prs, p_request, p_uri, reading, awaiting. cbn. rewrite !insert_insert_eq. done.
    + do 2 eexists. split; [reflexivity|]. split; [done|]. exists n, x, mt. do 3 (split; [done|]). cbn zeta. fold r'. rewrite B, D.
      unfold update, on_heap, on_prs, p_uri, reading, awaiting. cbn. rewrite !insert_insert_eq. done.
Qed.

Lemma head_reading url hs fs major minor m w :
  collected None [] w \/ collected (Some []) [] w ->
  hs = map field_of fs -> url <> [] -> Forall spans_ok fs -> content_length_of hs <= mx ->
  exists rc rest w', run (map EvUrl url ++ flat_map field_events fs ++ [EvHeadersComplete major minor m false true true]) w
      = Some (rc, rest, w') /\
    if head_ok (concat url) hs major minor m then rc = 0 /\ rest = [] /\ accepted (concat url) hs major minor m w'
    else rc = -1 /\ refused w'.
Proof.
  intros C -> Hu S L. set (hs := map field_of fs) in *. set (u := concat url).
  assert (U : reads (map EvUrl url) w (target_ok u) (collected (Some u) [])).
  { destruct C as [C|C]; destruct C as [(_ & n & x & table & -> & K)|(hs' & n & x & ? & E & _)]; try (by destruct hs');
    (match goal with |- reads _ (reading ?b _ _ _ _ _ _) _ _ => destruct (reads_url url b 0 [] table false n x) as (rc & rest & w' & R & H) end;
      [done|done|]; exists rc, rest, w'; split; [exact R|]; cbn [from_option app Datatypes.id] in H; fold u in H;
      destruct (target_ok u); [|done]; destruct H as (? & ? & ->); do 2 (split; [done|]); left; eauto 10). }
  assert (H : reads (map EvUrl url ++ flat_map field_events fs) w (target_ok u && fields_fit [] hs) (collected (Some u) hs)).
  { eapply reads_app; [exact U|apply field_events_head|]. intros _ w' C'. by apply (reads_fields (Some u) fs [] w'). }
  rewrite app_assoc, run_events_app. destruct H as (rc & rest & w' & -> & H).
  assert (E : head_ok u hs major minor m = target_ok u && fields_fit [] hs && (fields_ok hs && whole_ok u hs major minor m)).
  { unfold head_ok, whole_ok. rewrite <- !andb_assoc. pose proof (fields_fit_spec hs [] eq_refl) as K. cbn [app] in K.
    f_equal. rewrite !andb_assoc. do 6 f_equal. symmetry. exact K. }
  rewrite E. destruct (target_ok u && fields_fit [] hs); cbn [andb].
  - destruct H as (-> & -> & C'). destruct (headers_complete_reading u hs w' major minor m C' L) as (rc & w'' & K & H').
    cbn [Z.eqb]. unfold run. cbn [run_events callback]. rewrite K. cbn [mbind option_bind].
    destruct (fields_ok hs && _); destruct H' as (-> & H'); cbn; eauto 10.
  - destruct H as ([-> | ->] & R); cbn [Z.eqb]; [|by eauto 10].
    unfold run. cbn [run_events callback]. unfold on_headers_complete. rewrite andb_false_r.
    pose proof R as [Q [r Hr] _ _ _ _ _]. unfold current. rewrite Q. cbn [mbind option_bind]. rewrite Hr. cbn [mbind option_bind].
    destruct (refused_pending _ (refused_update (http_request_init_headers r) _ R)) as (w'' & -> & R'). cbn [mbind option_bind].
    unfold head_error. rewrite bool_decide_false by apply R'. cbn. do 3 eexists. split; [reflexivity|]. split; [done|].
    apply refused_fail; [apply R'|done].
Qed.

End simulation.

End Http1Head.
