(* ===== verification/Http1Delivery.v ===== *)
(** * From the wire to the handler: HTTP/1 requests

    What the handler is given for a request, for every cut into spans: the head as it was
    sent and the body byte for byte, in all three ways a body is kept; requests one after
    the other on a connection; and that a parser from the pool is as good as a new one. *)

From S2P Require Import Prelude BodyStream Grpc HeaderTools MultipartProcessor Http1Parser Http1Head.

Module Http1Delivery.
Import BodyStream(zlen) Http1Parser Http1Head.

(** A parser between two requests. *)
Record clean (p : http1_parser_t) : Prop := {
  cl_uri : default [] (uri_builder p) = [];
  cl_name : default [] (header_name_builder p) = [];
  cl_value : default [] (header_value_builder p) = [];
  cl_body : default [] (body_builder p) = [];
  cl_owns : owns_request p = false;
}.

(** A message as llhttp reports it. *)
Record message := {
  msg_method : bytes;
  msg_major : Z;
  msg_minor : Z;
  msg_url : list bytes;
  msg_fields : list field_spans;
  msg_body : list bytes;
}.

Definition msg_target (g : message) : bytes := concat (msg_url g).
Definition msg_header (g : message) : fields := map field_of (msg_fields g).
Definition msg_content (g : message) : bytes := concat (msg_body g).

Definition head_events (g : message) : list event :=
  line_events (msg_url g) (msg_fields g) ++ [EvHeadersComplete (msg_major g) (msg_minor g) (msg_method g) false true true].

Definition message_events (g : message) : list event :=
  head_events g ++ map (fun a => EvBody a true) (msg_body g) ++ [EvMessageComplete true].

Definition well_cut (g : message) : Prop := msg_url g <> [] /\ Forall spans_ok (msg_fields g).

Definition msg_ok (g : message) : bool := head_ok (msg_target g) (msg_header g) (msg_major g) (msg_minor g) (msg_method g).

(** A form is given to the form parser instead of the handler. *)
Definition is_form (hs : fields) : bool :=
  match values (lit "content-type") hs with
  | v :: _ => prefix_ci (lit "multipart/form-data") v && bool_decide (MultipartProcessor.extract_boundary v <> None)
  | [] => false
  end.

(** The request line and the fields of a message, as the request object shows them. *)
Definition head_of (g : message) (r : http_request_t) : Prop :=
  method r = Some (msg_method g) /\ uri r = Some (msg_target g) /\
  http_major r = msg_major g /\ http_minor r = msg_minor g /\
  (exists mt, headers r = Some mt /\ field_table (msg_header g) mt) /\
  chunked r = chunked_of (msg_header g) /\
  keep_alive r = keep_alive_of (msg_header g) (msg_minor g) /\
  BodyStream.content_length (base r) = content_length_of (msg_header g).

(** The bytes a handler can read. *)
Definition content_of (r : http_request_t) : bytes :=
  if BodyStream.body_streaming (base r) then concat (BodyStream.body_queue (base r)) else default [] (BodyStream.body (base r)).

Definition whole (g : message) (r : http_request_t) : Prop :=
  head_of g r /\ content_of r = msg_content g /\ BodyStream.complete (base r) = true /\
  BodyStream.body_eof (base r) = BodyStream.body_streaming (base r) /\ BodyStream.body_error (base r) = false.

Section delivery.
Context (tmp : nat -> option bytes) (can_open : bytes -> bool) (written : bytes -> Z -> Z -> Z).
Context (uninitialised : Z -> bytes).

Let run := run_events tmp can_open written uninitialised.

(** ** The request a head makes *)

Lemma values_single hs : fields_ok hs = true ->
  values (lit "content-type") hs = [] \/ exists v, values (lit "content-type") hs = [v].
Proof.
  unfold fields_ok. rewrite !andb_true_iff. intros [_ L]. destruct (values _ hs) as [|v [|? ?]]; eauto. done.
Qed.

Lemma find_field hs mt name : field_table hs mt ->
  find_string (Some mt) name = match values name hs with [] => None | vs => Some (joined (separator name) vs) end.
Proof. intros T. unfold find_string. cbn [mbind option_bind]. rewrite (T name). by destruct (values name hs). Qed.

Record head_request (g : message) (r : http_request_t) : Prop := {
  hr_head : head_of g r;
  hr_form : use_multipart r = false;
  hr_refs : refcount r = 1;
  hr_base : exists gm st up,
    base r = BodyStream.MkReq (content_length_of (msg_header g)) gm None false st up false false [] 0 0 0 false false None 0
               BodyStream.Idle;
}.

Lemma request_line_spec vw g mt :
  fields_ok (msg_header g) = true -> is_form (msg_header g) = false -> (msg_minor g = 0 \/ msg_minor g = 1) ->
  field_table (msg_header g) mt ->
  head_request g (request_line vw (msg_target g) (msg_header g) mt (msg_major g) (msg_minor g) (msg_method g)).
Proof.
  intros F NF Hm T. unfold request_line. set (r0 := r_line _ _ _ _ _).
  assert (K : keep_alive (keep_alive_default (msg_minor g) r0) = keep_alive_of (msg_header g) (msg_minor g)
    /\ keep_alive_default (msg_minor g) r0 = r_keep_alive (keep_alive_of (msg_header g) (msg_minor g)) r0).
  { unfold keep_alive_default, keep_alive_of. change (headers r0) with (Some mt). cbn [mbind option_bind]. rewrite (T (lit "connection")). destruct (values _ _); [|done].
    replace (1 <=? msg_minor g) with (msg_minor g =? 1); [done|]. destruct Hm as [-> | ->]; done. }
  destruct K as [_ ->]. 
  assert (M : open_multipart (r_keep_alive (keep_alive_of (msg_header g) (msg_minor g)) r0)
    = r_keep_alive (keep_alive_of (msg_header g) (msg_minor g)) r0).
  { unfold open_multipart. cbn [headers r_keep_alive r0 r_line request_at]. rewrite (find_field _ _ _ T). unfold is_form in NF.
    destruct (values_single _ F) as [E|[v E]]; rewrite E in *; [done|]. cbn [joined]. destruct (prefix_ci _ _); [|done]. cbn [andb] in NF.
    apply bool_decide_eq_false_1 in NF. destruct (MultipartProcessor.extract_boundary v); [|done]. exfalso. by apply NF. }
  rewrite M. unfold body_policy.
  assert (B : forall st up, head_request g (r_base (BodyStream.set_mode (base (http_request_classify_protocols
      (r_keep_alive (keep_alive_of (msg_header g) (msg_minor g)) r0))) st up) (http_request_classify_protocols
      (r_keep_alive (keep_alive_of (msg_header g) (msg_minor g)) r0)))).
  { intros st up. split; try done; [|by do 3 eexists]. unfold head_of. cbn. repeat split; eauto. }
  repeat case_match; try (by apply B); exact (B false false).
Qed.

Lemma traced_spec vw g r : head_request g r -> head_request g (traced vw r).
Proof.
  intros H. unfold traced. repeat case_match; try done. unfold http_request_parse_trace_context. repeat case_match; try done.
  destruct H as [? ? ? ?]. by split.
Qed.

(** ** The body *)

(** How the bytes that have arrived are kept: in the queue, in the buffer of the announced
    length, or in the builder. *)
Inductive kept (g : message) (got : bytes) (p : http1_parser_t) (b : BodyStream.http_request_t) : Prop :=
  | kept_queued :
      BodyStream.body_streaming b = true -> concat (BodyStream.body_queue b) = got ->
      BodyStream.body_bytes_queued b = zlen got -> BodyStream.body_bytes_consumed b = 0 ->
      default [] (body_builder p) = [] -> kept g got p b
  | kept_buffered s :
      BodyStream.body_streaming b = false -> BodyStream.body b = Some s -> body_offset p = zlen got ->
      take (length got) s = got -> (got <> [] -> s = got) -> 0 < content_length_of (msg_header g) ->
      default [] (body_builder p) = [] -> kept g got p b
  | kept_built :
      BodyStream.body_streaming b = false -> BodyStream.body b = None -> default [] (body_builder p) = got -> kept g got p b.

Record taking (g : message) (w0 : world) (got : bytes) (w : world) : Prop := {
  tk_request : request (prs w) = Some (next w0);
  tk_wiring : conn (prs w) = conn (prs w0) /\ dispatch_cb (prs w) = dispatch_cb (prs w0)
              /\ max_body_size (prs w) = max_body_size (prs w0);
  tk_builders : default [] (uri_builder (prs w)) = [] /\ default [] (header_name_builder (prs w)) = []
                /\ default [] (header_value_builder (prs w)) = [];
  tk_body : exists r b, heap w = <[next w0 := r_base b r]> (heap w0) /\ head_request g r /\ kept g got (prs w) b /\
      BodyStream.content_length b = content_length_of (msg_header g) /\ BodyStream.complete b = false /\
      BodyStream.body_eof b = false /\ BodyStream.body_error b = false /\ BodyStream.reader b = BodyStream.Idle /\
      (dispatched (prs w) = true -> BodyStream.body_streaming b = true);
  tk_next : next w = S (next w0);
  tk_owner : if dispatched (prs w) then owns_request (prs w) = false /\ handed w = handed w0 ++ [next w0]
                                       /\ objects w = {[next w0]} ∪ objects w0
             else handed w = handed w0 /\ objects w = objects w0;
}.

Lemma push_idle b a : BodyStream.reader b = BodyStream.Idle ->
  exists b', BodyStream.http_body_stream_push b a = (true, b') /\
    BodyStream.body_streaming b' = BodyStream.body_streaming b /\
    BodyStream.body_queue b' = BodyStream.body_queue b ++ [a] /\
    BodyStream.body_bytes_queued b' = u64 (BodyStream.body_bytes_queued b + zlen a) /\
    BodyStream.body_bytes_consumed b' = BodyStream.body_bytes_consumed b /\
    BodyStream.content_length b' = BodyStream.content_length b /\ BodyStream.complete b' = BodyStream.complete b /\
    BodyStream.body_eof b' = BodyStream.body_eof b /\ BodyStream.body_error b' = BodyStream.body_error b /\
    BodyStream.reader b' = BodyStream.Idle.
Proof.
  intros I. destruct b as [? ? ? ? ? ? ? ? ? ? ? ? [] ? ? ? rd]; cbn in I; subst rd; by eexists.
Qed.

Definition body_fits (g : message) (mx : Z) (got : bytes) : Prop :=
  zlen got <= mx /\ (0 < content_length_of (msg_header g) -> zlen got <= content_length_of (msg_header g)).

Lemma on_body_taking g w0 got a w :
  max_body_size (prs w0) < 2 ^ 64 -> taking g w0 got w -> body_fits g (max_body_size (prs w0)) (got ++ a) ->
  exists w', on_body tmp can_open written a true w = Some (0, w') /\ taking g w0 (got ++ a) w'.
Proof.
  intros Mx [Q (Wc & Wd & Wm) Bs (r & b & Hh & HR & K & Kc & Kd & Ke & Kr & Ki & Kp) Nx Ow] [F1 F2].
  assert (AF : active_form (r_base b r) = None) by (unfold active_form; cbn; by rewrite (hr_form _ _ HR)).
  rewrite head_zlen_app in *. pose proof (head_zlen_nonneg got). pose proof (head_zlen_nonneg a).
  unfold on_body. rewrite Q, Hh, lookup_insert_eq. cbn [mbind option_bind]. rewrite AF. cbn [base r_base].
  destruct K as [Ks Kq Kn Ko Kb|s Ks Kbd Ko Kt Ka Kl Kb|Ks Kbd Kb]; rewrite Ks; rewrite Wm.
  - rewrite Ko, Kn. unfold u64. rewrite Z.mod_small by lia. rewrite (proj2 (Z.ltb_ge _ _)) by lia.
    destruct (push_idle b a Ki) as (b' & E & Ps & Pq & Pn & Pc & Pl & Pd & Pe & Pr & Pi). rewrite E.
    eexists. split; [reflexivity|]. split; try done. exists r, b'. cbn. rewrite Hh, insert_insert_eq.
    split; [done|]. split; [done|]. split; [|rewrite Ps, Pl, Pd, Pe, Pr; by auto 10].
    apply kept_queued; rewrite ?Ps, ?Pc; try done; [|rewrite Pn, Kn; unfold u64; rewrite head_zlen_app; apply Z.mod_small; lia].
    rewrite Pq, concat_app. cbn. by rewrite Kq, app_nil_r.
  - rewrite Kbd, Kc, Ko. rewrite (proj2 (Z.ltb_ge _ _)) by (specialize (F2 Kl); lia).
    eexists. split; [reflexivity|]. split; try done.
    exists r, (BodyStream.set_body b (Some (take (Z.to_nat (zlen got)) s ++ a))). cbn. rewrite Hh, insert_insert_eq.
    split; [done|]. split; [done|]. split; [|by auto 10].
    assert (T : take (Z.to_nat (zlen got)) s = got) by (unfold zlen; by rewrite Nat2Z.id). rewrite T.
    eapply kept_buffered; [done|done| | |done|done|done]; cbn; [by rewrite head_zlen_app|]. apply firstn_all.
  - rewrite Kbd. unfold built. rewrite Kb, (proj2 (Z.ltb_ge _ _)) by lia. cbn [negb].
    eexists. split; [reflexivity|]. split; try done. exists r, b. cbn. split; [done|]. split; [done|]. split; [|by auto 10].
    apply kept_built; try done. cbn. by rewrite Kb.
Qed.

Lemma body_fits_prefix g mx x y : body_fits g mx (x ++ y) -> body_fits g mx x.
Proof. unfold body_fits. rewrite head_zlen_app. pose proof (head_zlen_nonneg y). lia. Qed.

Lemma run_events_body g w0 ps got w evs :
  max_body_size (prs w0) < 2 ^ 64 -> taking g w0 got w -> body_fits g (max_body_size (prs w0)) (got ++ concat ps) ->
  exists w', taking g w0 (got ++ concat ps) w' /\ run (map (fun a => EvBody a true) ps ++ evs) w = run evs w'.
Proof.
  intros Mx. revert got w. induction ps as [|a ps IH]; intros got w T F; cbn [concat map app] in *.
  { rewrite app_nil_r. eauto. }
  rewrite app_assoc in F. destruct (on_body_taking g w0 got a w Mx T (body_fits_prefix _ _ _ _ F)) as (w' & E & T').
  destruct (IH _ _ T' F) as (w'' & T'' & R). exists w''. rewrite app_assoc. split; [done|].
  unfold run. cbn [run_events callback]. rewrite E. cbn [mbind option_bind Z.eqb]. exact R.
Qed.

(** ** The end of the message *)

Record delivered (g : message) (w0 w : world) : Prop := {
  dl_handed : handed w = handed w0 ++ [next w0];
  dl_objects : objects w = {[next w0]} ∪ objects w0;
  dl_request : exists r, heap w = <[next w0 := r]> (heap w0) /\ whole g r /\ refcount r = 1;
  dl_current : request (prs w) = Some (next w0);
  dl_next : next w = S (next w0);
  dl_clean : clean (prs w);
  dl_wiring : conn (prs w) = conn (prs w0) /\ dispatch_cb (prs w) = dispatch_cb (prs w0)
              /\ max_body_size (prs w) = max_body_size (prs w0);
}.

(** The body when the message is complete. *)
Definition closed_body (builder : option bytes) (b : BodyStream.http_request_t) : option bytes * BodyStream.http_request_t :=
  let '(builder, b) :=
    if BodyStream.body_streaming b then (builder, BodyStream.http_body_stream_close b)
    else match BodyStream.body b, builder with
         | None, Some s => (None, BodyStream.set_body b (Some s))
         | _, x => (x, b)
         end in
  (builder, BodyStream.fire_body_event (BodyStream.set_complete b true)).

Lemma on_message_complete_closed sp w :
  on_message_complete sp w =
  match request (prs w) with
  | None => Some (HPE_PAUSED, w)
  | Some id =>
      r ← heap w !! id;
      r ← finish_form r;
      let '(builder, b) := closed_body (body_builder (prs w)) (base r) in
      let w := update id (r_base b r) (on_prs (p_body builder) w) in
      if dispatched (prs w) then Some (HPE_PAUSED, w)
      else if dispatch_cb (prs w) then
        w ← dispatch sp id (on_prs (p_request (request (prs w)) false true) w);
        Some (HPE_PAUSED, w)
      else Some (HPE_PAUSED, on_prs (p_request (request (prs w)) false (dispatched (prs w))) w)
  end.
Proof.
  unfold on_message_complete, closed_body. destruct (request (prs w)); [|done]. destruct (heap w !! _) as [r|]; [|done].
  cbn [mbind option_bind]. destruct (finish_form r) as [r'|]; [|done]. cbn [mbind option_bind].
  destruct (BodyStream.body_streaming (base r')); [done|]. by destruct (BodyStream.body (base r')), (body_builder (prs w)).
Qed.

Lemma closed_body_spec g got p b :
  kept g got p b -> zlen got = content_length_of (msg_header g) \/ content_length_of (msg_header g) = 0 ->
  BodyStream.complete b = false -> BodyStream.body_eof b = false -> BodyStream.body_error b = false ->
  BodyStream.reader b = BodyStream.Idle ->
  exists bb b', closed_body (body_builder p) b = (bb, b') /\ default [] bb = [] /\
    (if BodyStream.body_streaming b' then concat (BodyStream.body_queue b') else default [] (BodyStream.body b')) = got /\
    BodyStream.content_length b' = BodyStream.content_length b /\ BodyStream.complete b' = true /\
    BodyStream.body_eof b' = BodyStream.body_streaming b' /\ BodyStream.body_error b' = false.
Proof.
  intros K L Hc He Hr Hi. destruct b as [cl gm bd cm st up eof er q bq bc pc ev h2 rb gr rd]. cbn in *. subst.
  destruct K as [Ks Kq Kn Ko Kb|s Ks Kbd Ko Kt Ka Kl Kb|Ks Kbd Kb]; cbn in *; subst; unfold closed_body; cbn.
  - destruct ev; do 2 eexists; (split; [reflexivity|]); done.
  - do 2 eexists. split; [reflexivity|]. cbn. split; [done|]. split; [|done].
    apply Ka. intros ->. unfold zlen in L. cbn in L. lia.
  - destruct (body_builder p); do 2 eexists; (split; [reflexivity|]); by cbn.
Qed.

Lemma message_complete_taking g w0 got w :
  taking g w0 got w -> dispatch_cb (prs w0) = true -> got = msg_content g ->
  zlen got = content_length_of (msg_header g) \/ content_length_of (msg_header g) = 0 ->
  exists w', on_message_complete true w = Some (HPE_PAUSED, w') /\ delivered g w0 w'.
Proof.
  intros [Q (Wc & Wd & Wm) (Bu & Bn & Bv) (r & b & Hh & HR & K & Kc & Kd & Ke & Kr & Ki & Kp) Nx Ow] Cb -> L.
  destruct (closed_body_spec _ _ _ _ K L Kd Ke Kr Ki) as (bb & b' & E & Hbb & Hg & Hcl & Hcm & Heo & Her).
  rewrite on_message_complete_closed, Q, Hh, lookup_insert_eq. cbn [mbind option_bind].
  assert (FF : finish_form (r_base b r) = Some (r_base b r))
    by (unfold finish_form, active_form; cbn; by rewrite (hr_form _ _ HR)).
  rewrite FF. cbn [mbind option_bind]. cbn [base r_base]. rewrite E. cbn zeta.
  assert (W : whole g (r_base b' (r_base b r))).
  { destruct HR as [(H1 & H2 & H3 & H4 & H5 & H6 & H7 & H8) _ _ _]. split; [|by unfold content_of; cbn].
    unfold head_of. cbn. rewrite Hcl, Kc. by repeat split. }
  cbn [prs update on_heap on_prs dispatched p_body dispatch_cb request].
  destruct (dispatched (prs w)) eqn:D.
  - destruct Ow as (O1 & O2 & O3). eexists. split; [reflexivity|]. split; try done; cbn.
    eexists. rewrite Hh, insert_insert_eq. split; [reflexivity|]. split; [done|]. apply HR.
  - rewrite Wd, Cb. destruct Ow as (O2 & O3). eexists. split; [reflexivity|]. split; cbn; try done; try congruence.
    eexists. rewrite Hh, insert_insert_eq. split; [reflexivity|]. split; [done|]. apply HR.
Qed.

(** ** The head *)

Definition begun (w : world) : world :=
  reading (next w) (conn (prs w)) (dispatch_cb (prs w)) (body_builder (prs w)) (max_body_size (prs w)) (paused (prs w)) (heap w)
    (S (next w)) (objects w) (handed w) (uri_builder (prs w)) (header_name_builder (prs w)) (header_value_builder (prs w)) 0 [] None false.

Lemma on_message_begin_clean w : clean (prs w) -> on_message_begin w = Some (0, begun w).
Proof.
  intros C. unfold on_message_begin. rewrite (cl_owns _ C). by destruct (request (prs w)).
Qed.

Lemma begun_collected w : clean (prs w) ->
  let c := collected (next w) (conn (prs w)) (dispatch_cb (prs w)) (body_builder (prs w)) (max_body_size (prs w)) (paused (prs w)) (heap w)
    (S (next w)) (objects w) (handed w) in
  c None [] (begun w) \/ c (Some []) [] (begun w).
Proof.
  intros [Cu Cn Cx Cb Co]. cbn zeta. unfold begun. destruct (uri_builder (prs w)) as [u|]; cbn in Cu; unfold Datatypes.id in Cu; subst; [right|left]; left; eauto 12.
Qed.

Lemma head_run w g :
  clean (prs w) -> well_cut g -> content_length_of (msg_header g) <= max_body_size (prs w) ->
  exists rc rest w', run (head_events g) w = Some (rc, rest, w') /\
    if msg_ok g then rc = 0 /\ rest = [] /\
      accepted uninitialised (next w) (conn (prs w)) (dispatch_cb (prs w)) (body_builder (prs w)) (max_body_size (prs w))
        (paused (prs w)) (heap w) (S (next w)) (objects w) (handed w) (msg_target g) (msg_header g) (msg_major g) (msg_minor g) (msg_method g) w'
    else rc = -1 /\ refused (next w) (objects w) (handed w) w'.
Proof.
  intros C [Hu Hs] L. unfold head_events, line_events, run. cbn [app run_events callback].
  rewrite (on_message_begin_clean w C). cbn [mbind option_bind Z.eqb]. rewrite <- app_assoc.
  by apply (head_reading tmp can_open written uninitialised _ _ _ _ _ _ _ _ _ _ (msg_url g) (msg_header g) (msg_fields g)); [apply begun_collected| | | |].
Qed.

Lemma msg_ok_parts g : msg_ok g = true -> fields_ok (msg_header g) = true /\ (msg_minor g = 0 \/ msg_minor g = 1).
Proof. unfold msg_ok, head_ok. rewrite !andb_true_iff, orb_true_iff, !Z.eqb_eq. tauto. Qed.

Lemma r_base_id r : r_base (base r) r = r.
Proof. by destruct r. Qed.

Lemma content_length_nonneg hs : fields_ok hs = true -> 0 <= content_length_of hs.
Proof.
  intros F. unfold content_length_of. destruct (values _ hs) as [|v l] eqn:E; [done|]. unfold fields_ok in F. rewrite E, !andb_true_iff in F.
  destruct F as [[[[_ F] _] _] _]. cbn [lengths_agree] in F. unfold decimal in *. destruct (_ && _ && _) eqn:D; [|done]. cbn.
  rewrite !andb_true_iff in D. destruct D as [[_ D] _]. by apply (fold_digits_le v 0).
Qed.

Lemma accepted_taking w g w' :
  clean (prs w) -> msg_ok g = true -> is_form (msg_header g) = false ->
  accepted uninitialised (next w) (conn (prs w)) (dispatch_cb (prs w)) (body_builder (prs w)) (max_body_size (prs w))
        (paused (prs w)) (heap w) (S (next w)) (objects w) (handed w) (msg_target g) (msg_header g) (msg_major g) (msg_minor g) (msg_method g) w' ->
  taking g w [] w'.
Proof.
  intros C Ok NF (n & x & mt & Hn & Hx & T & A). cbn zeta in A. destruct (msg_ok_parts g Ok) as [F Hm].
  set (r := request_line _ _ _ _ _ _ _) in A.
  assert (HR : head_request g r) by (by apply request_line_spec). clearbody r.
  pose proof HR as [HR1 HR2 HR3 (gm & st & up & HB)].
  assert (HT : forall b, head_request g (traced (conn (prs w)) r) /\ base (traced (conn (prs w)) r) = base r
    /\ traced (conn (prs w)) (r_base b r) = r_base b (traced (conn (prs w)) r)).
  { intros b. split; [by apply traced_spec|].
    unfold traced, http_request_parse_trace_context. cbn [headers r_base]. by repeat case_match. }
  unfold buffers in A. rewrite HR2, HB in A. cbn [negb andb BodyStream.body_streaming BodyStream.content_length] in A.
  destruct (HT (base r)) as (HT1 & HT2 & _).
  assert (Keep : forall p, default [] (body_builder p) = [] -> body_offset p = 0 -> (st = true \/ st = false) -> kept g [] p (base r)).
  { intros p Hp Ho [-> | ->]; rewrite HB.
    - by apply kept_queued.
    - by apply kept_built. }
  destruct (negb st && (0 <? content_length_of (msg_header g))) eqn:B.
  - apply andb_true_iff in B as [B1 B2]. apply negb_true_iff in B1 as ->. apply Z.ltb_lt in B2. subst w'.
    split; try done; cbn. eexists (traced (conn (prs w)) r), _. 
    split; [f_equal; apply HT|]. split; [done|]. split; [|done].
    eapply kept_buffered; try done. apply C.
  - destruct (dispatch_cb (prs w) && st) eqn:D; subst w'.
    + apply andb_true_iff in D as [D ->]. split; try done; cbn. exists (traced (conn (prs w)) r), (base r).
      split; [by rewrite <- HT2, r_base_id|]. split; [done|]. split; [|by rewrite HB]. apply Keep; [apply C|done|auto].
    + split; try done; cbn. exists (traced (conn (prs w)) r), (base r).
      split; [by rewrite <- HT2, r_base_id|]. split; [done|]. split; [|by rewrite HB]. apply Keep; [apply C|done|destruct st; auto].
Qed.

Lemma request_line_head vw g mt :
  (msg_minor g = 0 \/ msg_minor g = 1) -> field_table (msg_header g) mt ->
  head_of g (request_line vw (msg_target g) (msg_header g) mt (msg_major g) (msg_minor g) (msg_method g)).
Proof.
  intros Hm T. unfold request_line. set (r0 := r_line _ _ _ _ _).
  assert (K : keep_alive_default (msg_minor g) r0 = r_keep_alive (keep_alive_of (msg_header g) (msg_minor g)) r0).
  { unfold keep_alive_default, keep_alive_of. change (headers r0) with (Some mt). cbn [mbind option_bind].
    rewrite (T (lit "connection")). destruct (values _ _); [|done].
    replace (1 <=? msg_minor g) with (msg_minor g =? 1); [done|]. destruct Hm as [-> | ->]; done. }
  rewrite K.
  assert (A : head_of g (r_keep_alive (keep_alive_of (msg_header g) (msg_minor g)) r0)) by (unfold head_of; cbn; by repeat split; eauto).
  revert A. generalize (r_keep_alive (keep_alive_of (msg_header g) (msg_minor g)) r0). intros r A.
  assert (B : head_of g (open_multipart r)) by (unfold open_multipart; by repeat case_match).
  revert B. generalize (open_multipart r). intros r' B.
  unfold body_policy, http_request_classify_protocols. by repeat case_match.
Qed.

Lemma traced_head vw g r : head_of g r -> head_of g (traced vw r).
Proof. intros H. unfold traced, http_request_parse_trace_context. by repeat case_match. Qed.

(** C8: A request head is accepted exactly when it is well formed, however llhttp cuts its
    target, field names and field values into spans: target within its limit and without
    fragment or backslash, names, values, their sum and number within theirs, all content
    lengths the same 64-bit decimal, no chunked coding beside a length, one valid host (in
    HTTP/1.1 at least one), one content type, version 1.0 or 1.1, no CONNECT, and the
    asterisk only for OPTIONS.  The request then shows the method, the target and the
    fields, repeated ones joined; otherwise nothing is handed over and an error is set. *)
Theorem http1_head_accepted_iff w g :
  clean (prs w) -> well_cut g -> content_length_of (msg_header g) <= max_body_size (prs w) ->
  exists rc rest w', run_events tmp can_open written uninitialised (head_events g) w = Some (rc, rest, w') /\
    if msg_ok g then rc = 0 /\ rest = [] /\ exists r, heap w' = <[next w := r]> (heap w) /\ head_of g r
    else rc = -1 /\ parse_error (prs w') <> HTTP_PARSE_OK /\ handed w' = handed w /\ objects w' = objects w.
Proof.
  intros C W L. destruct (head_run w g C W L) as (rc & rest & w' & R & H). exists rc, rest, w'. split; [done|].
  destruct (msg_ok g) eqn:Ok.
  - destruct H as (-> & -> & n & x & mt & _ & _ & T & A). do 2 (split; [done|]). destruct (msg_ok_parts g Ok) as [_ Hm].
    pose proof (request_line_head (conn (prs w)) g mt Hm T) as B. cbn zeta in A. revert A B. generalize (request_line (conn (prs w)) (msg_target g)
      (msg_header g) mt (msg_major g) (msg_minor g) (msg_method g)). intros r A B.
    repeat case_match; subst w'; cbn; eexists; (split; [reflexivity|]); by apply traced_head.
  - destruct H as (-> & [? ? ? ? ? ? ?]). done.
Qed.

(** ** Requests one after the other *)

(** The bytes of the body as announced, within the limit of the server. *)
Definition content_fits (mx : Z) (g : message) : Prop :=
  zlen (msg_content g) <= mx /\
  (content_length_of (msg_header g) = 0 \/ zlen (msg_content g) = content_length_of (msg_header g)).

Definition fresh_heap (w : world) : Prop :=
  forall id, (next w <= id)%nat -> heap w !! id = None /\ id ∉ objects w.

Lemma message_run w g evs :
  clean (prs w) -> dispatch_cb (prs w) = true -> max_body_size (prs w) < 2 ^ 64 ->
  well_cut g -> msg_ok g = true -> is_form (msg_header g) = false -> content_fits (max_body_size (prs w)) g ->
  exists w', run (message_events g ++ evs) w = Some (HPE_PAUSED, evs, w') /\ delivered g w w'.
Proof.
  intros C Cb Mx W Ok NF [F1 F2]. destruct (msg_ok_parts g Ok) as [F _].
  pose proof (head_zlen_nonneg (msg_content g)).
  assert (L : content_length_of (msg_header g) <= max_body_size (prs w)) by lia.
  destruct (head_run w g C W L) as (rc & rest & w1 & R & A). rewrite Ok in A. destruct A as (-> & -> & A).
  pose proof (accepted_taking w g w1 C Ok NF A) as T.
  unfold message_events. rewrite <- app_assoc. unfold run. rewrite run_events_app. unfold run in R. rewrite R. cbn [Z.eqb]. rewrite <- app_assoc.
  destruct (run_events_body g w (msg_body g) [] w1 ([EvMessageComplete true] ++ evs) Mx T) as (w2 & T2 & R2).
  { cbn [app]. split; [done|]. intros P. fold (msg_content g). lia. }
  unfold run in R2. rewrite R2. cbn [app] in *. fold (msg_content g) in T2.
  destruct (message_complete_taking g w _ w2 T2 Cb eq_refl) as (w3 & E & D); [lia|].
  cbn [run_events callback]. rewrite E. cbn. eauto.
Qed.

(** The connection feeds what it has read; when a request is complete its handler runs and
    releases it before the rest is fed.  The requests are given as the handlers see them. *)
Fixpoint serve (k : nat) (evs : list event) (w : world) : option (list http_request_t * world) :=
  match evs, k with
  | [], _ => Some ([], w)
  | _, O => None
  | _, S k =>
      '(o, rest, w) ← handle_read_completion tmp can_open written uninitialised evs 0 w;
      match o with
      | ReadInFlight =>
          '(id, r) ← current w;
          w ← release_object id w;
          '(rs, w) ← serve k rest w;
          Some (r :: rs, w)
      | _ => None
      end
  end.

Lemma read_one w g evs :
  clean (prs w) -> dispatch_cb (prs w) = true -> max_body_size (prs w) < 2 ^ 64 ->
  well_cut g -> msg_ok g = true -> is_form (msg_header g) = false -> content_fits (max_body_size (prs w)) g ->
  exists w', handle_read_completion tmp can_open written uninitialised (message_events g ++ evs) 0 w = Some (ReadInFlight, evs, w') /\
    delivered g w w'.
Proof.
  intros C Cb Mx W Ok NF F.
  destruct (message_run (on_prs (p_paused false) w) g evs) as (w' & R & D); try done; [by destruct C|].
  exists (on_prs (p_paused true) w'). destruct D as [D1 D2 (r & D3 & D4 & D5) D6 D7 [] D9]. split.
  - unfold handle_read_completion, http1_feed, http_parser_execute. unfold run in R. rewrite R. cbn [mbind option_bind Z.eqb].
    cbn. unfold http_parser_is_complete. cbn [prs on_prs request p_paused heap]. rewrite D6, D3. cbn [next on_prs].
    rewrite lookup_insert_eq. cbn. destruct D4 as (_ & _ & -> & _). done.
  - split; try done; cbn; eauto.
Qed.

Lemma release_delivered g w0 w :
  fresh_heap w0 -> delivered g w0 w ->
  exists r w', current w = Some (next w0, r) /\ whole g r /\ release_object (next w0) w = Some w' /\
    heap w' = heap w0 /\ objects w' = objects w0 /\ prs w' = prs w /\ next w' = next w /\ handed w' = handed w.
Proof.
  intros F [D1 D2 (r & D3 & D4 & D5) D6 D7 D8 D9]. destruct (F (next w0) ltac:(lia)) as [F1 F2].
  unfold current, release_object, http_request_destroy. rewrite D6. cbn [mbind option_bind]. rewrite D3, lookup_insert_eq. cbn [mbind option_bind].
  rewrite bool_decide_true by (rewrite D2; set_solver). rewrite D5. cbn.
  do 2 eexists. split; [done|]. split; [done|]. split; [reflexivity|]. cbn. split; [by apply delete_insert_id|].
  split; [|done]. change (objects w ∖ {[next w0]} = objects w0). rewrite D2. set_solver.
Qed.


End delivery.

(** ** The pool *)

Definition pool_clean (pl : parser_pool) : Prop :=
  forall l, parsers pl = Some l -> Forall clean l.

Lemma reset_clean w w' : http_parser_reset_for_reuse w = Some w' -> clean (prs w').
Proof.
  unfold http_parser_reset_for_reuse. destruct (parser_release_request w) as [w1|] eqn:E; [|done]. cbn [mbind option_bind].
  intros [= <-]. assert (O : owns_request (prs w1) = false).
  { unfold parser_release_request in E. destruct (match request (prs w) with Some _ => _ | None => _ end); [|done].
    cbn [mbind option_bind] in E. by injection E as <-. }
  split; cbn; try done; unfold smart_str_reset_or_free.
  - by destruct (uri_builder (prs w1)).
  - by destruct (header_name_builder (prs w1)).
  - by destruct (header_value_builder (prs w1)).
  - by destruct (body_builder (prs w1)).
Qed.

(** A parser that a connection gets, new or used by any connection before, starts clean. *)
Lemma pool_parser_clean pl p pl' : pool_clean pl -> parser_pool_acquire pl = (p, pl') -> clean p /\ pool_clean pl'.
Proof.
  intros C. unfold parser_pool_acquire. destruct (parsers pl) as [[|q l]|] eqn:E; intros [= <- <-]; (split; [|try done]); try by split.
  - specialize (C _ E). by inversion C.
  - intros l' [= <-]. specialize (C _ E). by inversion C.
Qed.

Lemma pool_return_clean pl w pl' w' : pool_clean pl -> parser_pool_return pl w = Some (pl', w') -> pool_clean pl'.
Proof.
  intros C. unfold parser_pool_return. destruct (parsers pl) as [l|] eqn:E.
  - destruct (_ <=? _).
    + destruct (http_parser_destroy w); [|done]. by intros [= <- <-].
    + destruct (http_parser_reset_for_reuse w) as [w1|] eqn:R; [|done]. cbn [mbind option_bind]. intros [= <- <-] l' [= <-].
      constructor; [by eapply reset_clean|by apply C].
  - destruct (http_parser_destroy w); [|done]. by intros [= <- <-].
Qed.

(** ** Witnesses *)

Definition sample_fields : list field_spans :=
  [ {| name_spans := [lit "Ho"; lit "st"]; value_spans := [lit "exam"; lit "ple"] |};
    {| name_spans := [lit "COOKIE"]; value_spans := [lit "a=1"] |};
    {| name_spans := [lit "Cookie"]; value_spans := [lit "b=2"] |};
    {| name_spans := [lit "Content-Length"]; value_spans := [lit "5"] |} ].

Definition sample_message : message :=
  {| msg_method := lit "POST"; msg_major := 1; msg_minor := 1; msg_url := [lit "/up"; lit "load"];
     msg_fields := sample_fields; msg_body := [lit "he"; lit "llo"] |}.

Definition start (v : view_t) (cb : bool) (mx : Z) : world :=
  http_parser_attach v cb (MkWorld (http_parser_create mx) ∅ 0 ∅ []).

Definition buffering : view_t := {| body_streaming_enabled := false; telemetry_enabled := false |}.
Definition streaming : view_t := {| body_streaming_enabled := true; telemetry_enabled := false |}.

Definition no_tmp (n : nat) : option bytes := None.
Definition never_opens (p : bytes) : bool := false.
Definition writes_all (p : bytes) (a b : Z) : Z := b.
Definition zeroes (n : Z) : bytes := repeat 0 (Z.to_nat n).

Lemma start_clean v cb mx : clean (prs (start v cb mx)).
Proof. by split. Qed.

Lemma sample_well_cut : well_cut sample_message.
Proof. split; [done|]. repeat constructor; done. Qed.

Lemma http1_head_accepted_iff_witness :
  msg_ok sample_message = true /\
  exists rc rest w', run_events no_tmp never_opens writes_all zeroes (head_events sample_message) (start buffering true 100)
    = Some (rc, rest, w') /\ rc = 0.
Proof.
  split; [vm_compute; reflexivity|].
  destruct (http1_head_accepted_iff no_tmp never_opens writes_all zeroes (start buffering true 100) sample_message
    (start_clean buffering true 100) sample_well_cut ltac:(vm_compute; discriminate)) as (rc & rest & w' & R & H).
  exists rc, rest, w'. split; [exact R|].
  replace (msg_ok sample_message) with true in H by (vm_compute; reflexivity). apply H.
Defined.


End Http1Delivery.
