(* ===== verification/Http1Limits.v ===== *)
(** * Limits and ownership in the HTTP/1 parser

    The bounds on what the parser collects, for every sequence of callbacks, and three runs
    in which the callbacks of one request disturb the next or touch a request that its
    handler has released. *)

From S2P Require Import Prelude BodyStream Grpc HeaderTools MultipartProcessor Http1Parser Http1Head Http1Delivery.

Module Http1Limits.
Import BodyStream(zlen) Http1Parser Http1Head Http1Delivery.

(** What the parser holds on behalf of a client. *)
Record within (p : http1_parser_t) : Prop := {
  wi_uri : built (uri_builder p) <= HTTP_MAX_URI_SIZE;
  wi_name : built (header_name_builder p) <= HTTP_MAX_HEADER_NAME;
  wi_value : built (header_value_builder p) <= HTTP_MAX_HEADER_VALUE;
  wi_total : 0 <= total_headers_size p <= HTTP_MAX_HEADERS_TOTAL;
  wi_count : 0 <= header_count p <= HTTP_MAX_HEADER_COUNT;
  wi_body : built (body_builder p) <= Z.max 0 (max_body_size p);
}.

Lemma built_append b a : built (append b a) = built b + zlen a.
Proof. unfold built, append. cbn. apply head_zlen_app. Qed.

Lemma built_none : built None = 0.
Proof. done. Qed.

Ltac limits := intros; match goal with H : within _ |- _ => destruct H end; split; cbn;
  rewrite ?built_append, ?built_none; try done; try lia.

Lemma within_create mx : within (http_parser_create mx).
Proof. split; cbn; rewrite ?built_none; vm_compute HTTP_MAX_URI_SIZE; vm_compute HTTP_MAX_HEADER_NAME; try done; try lia. Qed.

Lemma within_error e p : within p -> within (p_error e p).
Proof. by intros []. Qed.

Lemma within_request a b c p : within p -> within (p_request a b c p).
Proof. by intros []. Qed.

Lemma check_header_within n x p r p' r' : check_header n x p r = inr (p', r') -> within p -> within p'.
Proof. unfold check_header. intros H []. repeat case_match; simplify_eq; by split. Qed.

Lemma count_failed_within n p : within p -> within (count_failed n p).
Proof. intros []. unfold count_failed. by repeat case_match. Qed.

Lemma save_current_within w w' : save_current_header w = Some w' -> within (prs w) -> within (prs w').
Proof.
  unfold save_current_header. intros H W.
  destruct (header_name_builder (prs w)) as [n|] eqn:En; [|by simplify_eq].
  destruct (header_value_builder (prs w)) as [x|] eqn:Ex; [|by simplify_eq].
  destruct (Z.leb_spec HTTP_MAX_HEADER_COUNT (header_count (prs w))); [simplify_eq; by apply within_error|].
  destruct (current w) as [[id r]|]; [|done]. cbn [mbind option_bind] in H.
  match type of H with context [check_header ?a ?b ?p ?r] => set (q := p) in H; assert (Wq : within q) end.
  { destruct W as [W1 W2 W3 W4 W5 W6]. rewrite En in W2. rewrite Ex in W3. unfold q. split; cbn -[http_known_header_lookup]; try done.
    - destruct (http_known_header_lookup _); [vm_compute; discriminate|]. unfold built in *. cbn in *. by rewrite zlen_lower.
    - rewrite Z.mod_small; unfold HTTP_MAX_HEADER_COUNT in *; lia. }
  clearbody q. destruct (check_header _ x q r) as [e|[p' r']] eqn:C; simplify_eq; cbn.
  - by apply within_error, count_failed_within.
  - apply check_header_within in C; [|done]. destruct C. split; cbn; try done; vm_compute; discriminate.
Qed.

Lemma save_pending_within w w' : save_pending w = Some w' -> within (prs w) -> within (prs w').
Proof.
  unfold save_pending. destruct (in_header_value _); [|by intros [= <-]].
  destruct (save_current_header w) as [w1|] eqn:E; [|done]. cbn. intros [= <-] W. pose proof (save_current_within _ _ E W) as []. by split.
Qed.

Lemma destroy_prs id w w' : http_request_destroy id w = Some w' -> prs w' = prs w.
Proof. unfold http_request_destroy. destruct (heap w !! id); [|done]. cbn. intros [= <-]. by case_match. Qed.

Lemma dispatch_within sp id w w' : dispatch sp id w = Some w' -> within (prs w) -> within (prs w').
Proof.
  unfold dispatch. destruct sp; [by intros [= <-]|]. cbn zeta.
  destruct (http_request_destroy _ _) as [w1|] eqn:E; [|done]. cbn. intros [= <-]. apply destroy_prs in E. cbn in E. cbn. rewrite E.
  apply within_request.
Qed.

Section callbacks.
Context (tmp : nat -> option bytes) (can_open : bytes -> bool) (written : bytes -> Z -> Z -> Z).
Context (uninitialised : Z -> bytes).

Lemma begin_within w rc w' : on_message_begin w = Some (rc, w') -> within (prs w) -> within (prs w').
Proof.
  unfold on_message_begin. intros H W.
  assert (K : forall w1, prs w1 = prs w -> within (prs w1)) by (by intros ? ->).
  destruct (match request (prs w) with Some _ => _ | None => _ end) as [w1|] eqn:E; [|done]. cbn in H. simplify_eq.
  assert (P : prs w1 = prs w).
  { destruct (request (prs w)); [|by simplify_eq]. destruct (owns_request (prs w)); [by apply destroy_prs in E|by simplify_eq]. }
  cbn. rewrite P. destruct W. split; cbn; try done; vm_compute; split; discriminate.
Qed.

Lemma headers_complete_within major minor m sh al sp w rc w' :
  on_headers_complete uninitialised major minor m sh al sp w = Some (rc, w') -> within (prs w) -> within (prs w').
Proof.
  unfold on_headers_complete. intros H W. destruct (_ && sh); [simplify_eq; by apply within_error|].
  destruct (current w) as [[id r]|]; [|done]. cbn [mbind option_bind] in H.
  destruct (save_pending _) as [w1|] eqn:S; [|done]. cbn [mbind option_bind] in H. apply save_pending_within in S; [|done].
  destruct (head_error _ _ _); [simplify_eq; by apply within_error|].
  destruct (current w1) as [[id' r']|]; [|done]. cbn [mbind option_bind] in H. cbn zeta in H.
  assert (U : within (p_uri None (prs w1))) by (destruct S; split; cbn; try done; vm_compute; discriminate).
  destruct (target_error _ _); [simplify_eq; by apply within_error|].
  destruct (negb _ && negb _ && _) in H.
  - destruct (_ <? _) in H; [simplify_eq; by apply within_error|]. destruct (negb al); [simplify_eq; by apply within_error|].
    simplify_eq. cbn. by destruct U.
  - destruct (_ && _) in H; [|by simplify_eq]. destruct (dispatch _ _ _) as [w2|] eqn:D; [|done]. cbn in H. simplify_eq.
    apply dispatch_within in D; [done|]. cbn. by apply within_request.
Qed.

Lemma callback_within e w rc w' :
  callback tmp can_open written uninitialised e w = Some (rc, w') -> within (prs w) -> within (prs w').
Proof.
  destruct e as [|a|a|a|major minor m sh al sp|a al|sp]; cbn [callback].
  - apply begin_within.
  - unfold on_url. intros H W. destruct (Z.ltb_spec HTTP_MAX_URI_SIZE (built (uri_builder (prs w)) + zlen a)); [simplify_eq; by apply within_error|].
    destruct (existsb _ a); simplify_eq; [by apply within_error|]. limits.
  - unfold on_header_field. intros H W. destruct (current w) as [[id r]|]; [|done]. cbn [mbind option_bind] in H.
    destruct (save_pending _) as [w1|] eqn:S; [|done]. cbn [mbind option_bind] in H. apply save_pending_within in S; [|done].
    destruct (Z.ltb_spec HTTP_MAX_HEADER_NAME (built (header_name_builder (prs w1)) + zlen a)); simplify_eq; [by apply within_error|].
    clear W. limits.
  - unfold on_header_value. intros H W. destruct (_ =? 0); [simplify_eq; by apply within_error|].
    destruct (Z.ltb_spec HTTP_MAX_HEADER_VALUE (built (header_value_builder (prs w)) + zlen a)); [simplify_eq; by apply within_error|].
    destruct (Z.ltb_spec HTTP_MAX_HEADERS_TOTAL (total_headers_size (prs w) + zlen a)); simplify_eq; [by apply within_error|].
    pose proof (head_zlen_nonneg a). limits.
  - apply headers_complete_within.
  - unfold on_body. intros H W. destruct (request (prs w)) as [id|]; [|by simplify_eq]. destruct (heap w !! id) as [r|]; [|done].
    cbn [mbind option_bind] in H. destruct (active_form r) as [x|].
    { destruct (MultipartProcessor.mp_processor_feed _ _ _ _ _) as [[n x']|]; [|done]. cbn [mbind option_bind] in H.
      destruct (n <? 0); simplify_eq; [by apply within_error|done]. }
    destruct (BodyStream.body_streaming _).
    { destruct (_ <? _); [simplify_eq; by apply within_error|]. destruct (BodyStream.http_body_stream_push _ _) as [ok b].
      destruct ok; simplify_eq; [done|by apply within_error]. }
    destruct (BodyStream.body _).
    { destruct (_ <? _); simplify_eq; [by apply within_error|]. by destruct W. }
    destruct (Z.ltb_spec (max_body_size (prs w)) (built (body_builder (prs w)) + zlen a)); [simplify_eq; by apply within_error|].
    destruct (negb al); simplify_eq; [by apply within_error|]. limits.
  - rewrite on_message_complete_closed. intros H W. destruct (request (prs w)) as [id|]; [|by simplify_eq]. destruct (heap w !! id) as [r|]; [|done].
    cbn [mbind option_bind] in H. destruct (finish_form r) as [r'|]; [|done]. cbn [mbind option_bind] in H.
    destruct (closed_body _ _) as [bb b] eqn:C. cbn zeta in H.
    assert (B : within (p_body bb (prs w))).
    { unfold closed_body in C. destruct W as [W1 W2 W3 W4 W5 W6]. split; cbn; try done.
      destruct (BodyStream.body_streaming _); [by simplify_eq|].
      destruct (BodyStream.body _), (body_builder (prs w)); simplify_eq; try done; rewrite built_none; lia. }
    cbn [prs update on_heap on_prs] in H. destruct (dispatched _); [by simplify_eq|]. destruct (dispatch_cb _).
    + destruct (dispatch _ _ _) as [w2|] eqn:D; [|done]. cbn in H. simplify_eq. apply dispatch_within in D; [done|]. cbn. by apply within_request.
    + simplify_eq. cbn. by apply within_request.
Qed.

End callbacks.

Lemma within_start v cb mx : within (prs (start v cb mx)).
Proof. pose proof (within_create mx) as []. by split. Qed.


(** ** Trailers *)

(** A chunked request whose body is followed by trailer fields. *)
Definition chunked_post (trailers : list (bytes * bytes)) : list event :=
  [EvMessageBegin; EvUrl (lit "/"); EvHeaderField (lit "Host"); EvHeaderValue (lit "h");
   EvHeaderField (lit "Transfer-Encoding"); EvHeaderValue (lit "chunked");
   EvHeadersComplete 1 1 (lit "POST") false true true; EvBody (lit "x") true]
  ++ flat_map (fun t => [EvHeaderField t.1; EvHeaderValue t.2]) trailers ++ [EvMessageComplete true].

Definition next_get : message :=
  {| msg_method := lit "GET"; msg_major := 1; msg_minor := 1; msg_url := [lit "/"];
     msg_fields := [ {| name_spans := [lit "Host"]; value_spans := [lit "h"] |} ]; msg_body := [] |}.

Definition run0 := run_events no_tmp never_opens writes_all zeroes.

(** The last trailer field of a chunked request stays in the builders when the request is
    complete, and its name becomes the beginning of the first field name of the next request
    on the connection: a request that a fresh parser accepts is refused with 400. *)
Theorem http1_trailer_spoils_next_request :
  exists w1 w2 w3,
    run0 (chunked_post [(lit "X-Sum", lit "1")]) (start buffering true 100) = Some (HPE_PAUSED, [], w1) /\
    run0 (head_events next_get) w1 = Some (-1, [], w2) /\
    parse_error (prs w2) = HTTP_PARSE_ERR_INVALID_HOST /\ http_parse_error_to_status (parse_error (prs w2)) = 400 /\
    run0 (head_events next_get) (start buffering true 100) = Some (0, [], w3) /\ msg_ok next_get = true.
Proof.
  do 3 eexists. split; [vm_compute; reflexivity|]. split; [vm_compute; reflexivity|].
  do 2 (split; [vm_compute; reflexivity|]). split; vm_compute; reflexivity.
Qed.

(** Trailer fields are added to the header of the request, checked by nobody: a chunked request
    is handed over with a content length in its header and in its length field. *)
Theorem http1_trailer_merged_into_header :
  exists w r,
    run0 (chunked_post [(lit "Content-Length", lit "7"); (lit "X-Sum", lit "1")]) (start buffering true 100) = Some (HPE_PAUSED, [], w) /\
    handed w = [0%nat] /\ heap w !! 0%nat = Some r /\
    chunked r = true /\ find_string (headers r) (lit "content-length") = Some (lit "7") /\
    BodyStream.content_length (base r) = 7 /\ BodyStream.body (base r) = Some (lit "x").
Proof. do 2 eexists. split; [vm_compute; reflexivity|]. split_and!; (vm_compute; reflexivity). Qed.

(** ** Requests that are gone *)


(** A streamed request is handed over when its head is complete; when the handler returns before
    the body has arrived, the next piece of the body is pushed to the released request. *)
Theorem http1_streamed_body_use_after_free :
  exists w1 w2,
    run0 [EvMessageBegin; EvUrl (lit "/"); EvHeaderField (lit "Host"); EvHeaderValue (lit "h");
          EvHeaderField (lit "Transfer-Encoding"); EvHeaderValue (lit "chunked");
          EvHeadersComplete 1 1 (lit "POST") false true true] (start streaming true 100) = Some (0, [], w1) /\
    handed w1 = [0%nat] /\ release_object 0 w1 = Some w2 /\
    run0 [EvBody (lit "late") true] w2 = None.
Proof. do 2 eexists. split; [vm_compute; reflexivity|]. do 2 (split; [vm_compute; reflexivity|]). vm_compute. reflexivity. Qed.

End Http1Limits.
