(* ===== verification/StaticCache.v ===== *)
(** * The open-file cache

    Models src/src/static/http_static_cache.c: a hash table of entries that are also linked
    into a list, most recently used first.  Entries live on a heap; following a dangling
    pointer has the result [None].  The list of items, most recent first, is the abstract
    cache: every operation is shown to do to it what the interface promises. *)

From S2P Require Import Prelude HttpRange.

Module StaticCache.
Import HttpRange(zend_stat_t).

(** The fields of [zend_stat_t] that are used. *)
Record file_stat := { times : zend_stat_t; is_regular : bool; is_link : bool; st_dev : Z; st_uid : Z }.

(** What an entry holds; an empty string is stored as no string. *)
Record item := MkItem {
  path_key : bytes;
  st : file_stat;
  cached_at : Z;
  content_type : option bytes;
  etag : option bytes;
  last_modified : option bytes;
  body : option bytes;
  not_found : bool;
}.

Record entry_t := MkEntry { data : item; prev : option nat; next : option nat }.

Record http_static_cache_t := MkCache {
  heap : gmap nat entry_t;
  fresh : nat;
  index : gmap bytes nat;
  head : option nat;
  tail : option nat;
  count : Z;
  max_entries : Z;
  ttl_seconds : Z;
}.

Definition set_heap (h : gmap nat entry_t) (c : http_static_cache_t) : http_static_cache_t :=
  MkCache h (fresh c) (index c) (head c) (tail c) (count c) (max_entries c) (ttl_seconds c).
Definition set_ends (hd tl : option nat) (c : http_static_cache_t) : http_static_cache_t :=
  MkCache (heap c) (fresh c) (index c) hd tl (count c) (max_entries c) (ttl_seconds c).
Definition set_count (n : Z) (c : http_static_cache_t) : http_static_cache_t :=
  MkCache (heap c) (fresh c) (index c) (head c) (tail c) n (max_entries c) (ttl_seconds c).
Definition set_index (ix : gmap bytes nat) (c : http_static_cache_t) : http_static_cache_t :=
  MkCache (heap c) (fresh c) ix (head c) (tail c) (count c) (max_entries c) (ttl_seconds c).

(** Writing through a pointer to an entry. *)
Definition with_entry (id : nat) (f : entry_t -> entry_t) (c : http_static_cache_t) : option http_static_cache_t :=
  e ← heap c !! id; Some (set_heap (<[id := f e]> (heap c)) c).

Definition set_next (n : option nat) (e : entry_t) : entry_t := MkEntry (data e) (prev e) n.
Definition set_prev (p : option nat) (e : entry_t) : entry_t := MkEntry (data e) p (next e).

(** ** The list *)

Definition lru_unlink (id : nat) (c : http_static_cache_t) : option http_static_cache_t :=
  e ← heap c !! id;
  c ← (match prev e with
       | Some p => with_entry p (set_next (next e)) c
       | None => Some (set_ends (next e) (tail c) c)
       end);
  e ← heap c !! id;
  c ← (match next e with
       | Some n => with_entry n (set_prev (prev e)) c
       | None => Some (set_ends (head c) (prev e) c)
       end);
  with_entry id (fun e => MkEntry (data e) None None) c.

Definition lru_push_head (id : nat) (c : http_static_cache_t) : option http_static_cache_t :=
  c ← with_entry id (fun e => MkEntry (data e) None (head c)) c;
  c ← (match head c with
       | Some h => with_entry h (set_prev (Some id)) c
       | None => Some (set_ends (head c) (Some id) c)
       end);
  Some (set_ends (Some id) (tail c) c).

Definition lru_promote (id : nat) (c : http_static_cache_t) : option http_static_cache_t :=
  if bool_decide (head c = Some id) then Some c
  else c ← lru_unlink id c; lru_push_head id c.

(** [zend_hash_del], whose destructor frees the entry. *)
Definition index_del (key : bytes) (c : http_static_cache_t) : http_static_cache_t :=
  match index c !! key with
  | Some id => set_index (delete key (index c)) (set_heap (delete id (heap c)) c)
  | None => c
  end.

Definition evict_entry (id : nat) (c : http_static_cache_t) : option http_static_cache_t :=
  c ← lru_unlink id c;
  let c := set_count (u64 (count c - 1)) c in
  e ← heap c !! id;
  Some (index_del (path_key (data e)) c).

Definition evict_lru (c : http_static_cache_t) : option http_static_cache_t :=
  match tail c with
  | Some id => evict_entry id c
  | None => Some c
  end.

(** ** The interface *)

Definition http_static_cache_create (max ttl : Z) : http_static_cache_t := MkCache ∅ 0 ∅ None None 0 max ttl.

Definition http_static_cache_clear (c : http_static_cache_t) : http_static_cache_t :=
  MkCache ∅ (fresh c) ∅ None None 0 (max_entries c) (ttl_seconds c).

Definition cache_disabled (c : http_static_cache_t) (path : bytes) : bool :=
  (max_entries c =? 0) || (ttl_seconds c <=? 0) || (length path =? 0)%nat.

Definition expired (c : http_static_cache_t) (now : Z) (i : item) : bool := ttl_seconds c <? now - cached_at i.

(** The view of an entry: its pointers lead into the entry. *)
Record http_static_cache_view_t := { view_st : file_stat; view_entry : nat }.

Definition http_static_cache_lookup (now : Z) (path : bytes) (c : http_static_cache_t)
    : option (option http_static_cache_view_t * http_static_cache_t) :=
  if cache_disabled c path then Some (None, c)
  else match index c !! path with
  | None => Some (None, c)
  | Some id =>
      e ← heap c !! id;
      if not_found (data e) then Some (None, c)
      else if expired c now (data e) then c ← evict_entry id c; Some (None, c)
      else
        c ← lru_promote id c;
        e ← heap c !! id;
        Some (Some {| view_st := st (data e); view_entry := id |}, c)
  end.

(** A buffer is copied only when it is given and not empty. *)
Definition copied (s : option bytes) : option bytes :=
  match s with Some (_ :: _) => s | _ => None end.

Definition add_entry (i : item) (c : http_static_cache_t) : option http_static_cache_t :=
  c ← (match index c !! path_key i with Some id => evict_entry id c | None => Some c end);
  c ← (if max_entries c <=? count c then evict_lru c else Some c);
  let id := fresh c in
  let c := MkCache (<[id := MkEntry i None None]> (heap c)) (S id) (index c) (head c) (tail c) (count c) (max_entries c)
             (ttl_seconds c) in
  c ← lru_push_head id c;
  let c := set_count (u64 (count c + 1)) c in
  Some (set_index (<[path_key i := id]> (index c)) c).

Definition http_static_cache_insert (now : Z) (path : bytes) (s : file_stat) (ct et lm : option bytes)
    (c : http_static_cache_t) : option http_static_cache_t :=
  if cache_disabled c path then Some c
  else add_entry (MkItem path s now (copied ct) (copied et) (copied lm) None false) c.

Definition no_stat : file_stat :=
  {| times := {| HttpRange.st_mtim_sec := 0; HttpRange.st_mtim_nsec := 0; HttpRange.st_size := 0; HttpRange.st_ino := 0 |};
     is_regular := false; is_link := false; st_dev := 0; st_uid := 0 |}.

Definition http_static_cache_negative_insert (now : Z) (path : bytes) (c : http_static_cache_t) : option http_static_cache_t :=
  if cache_disabled c path then Some c
  else add_entry (MkItem path no_stat now None None None None true) c.

Definition find_entry (c : http_static_cache_t) (path : bytes) : option nat :=
  if cache_disabled c path then None else index c !! path.

Definition http_static_cache_body_acquire (path : bytes) (c : http_static_cache_t) : option (option bytes) :=
  match find_entry c path with
  | None => Some None
  | Some id => e ← heap c !! id; Some (body (data e))
  end.

Definition set_item_body (b : bytes) (i : item) : item :=
  MkItem (path_key i) (st i) (cached_at i) (content_type i) (etag i) (last_modified i) (Some b) (not_found i).

Definition http_static_cache_body_store (path b : bytes) (c : http_static_cache_t) : option http_static_cache_t :=
  match find_entry c path with
  | None => Some c
  | Some id =>
      e ← heap c !! id;
      match body (data e), b with
      | None, _ :: _ => with_entry id (fun e => MkEntry (set_item_body b (data e)) (prev e) (next e)) c
      | _, _ => Some c
      end
  end.

Inductive http_static_cache_probe_t :=
  HTTP_STATIC_CACHE_PROBE_UNKNOWN | HTTP_STATIC_CACHE_PROBE_EXISTS | HTTP_STATIC_CACHE_PROBE_NOT_FOUND.

Definition http_static_cache_probe (now : Z) (path : bytes) (c : http_static_cache_t)
    : option (http_static_cache_probe_t * http_static_cache_t) :=
  if cache_disabled c path then Some (HTTP_STATIC_CACHE_PROBE_UNKNOWN, c)
  else match index c !! path with
  | None => Some (HTTP_STATIC_CACHE_PROBE_UNKNOWN, c)
  | Some id =>
      e ← heap c !! id;
      if expired c now (data e) then c ← evict_entry id c; Some (HTTP_STATIC_CACHE_PROBE_UNKNOWN, c)
      else Some (if not_found (data e) then HTTP_STATIC_CACHE_PROBE_NOT_FOUND else HTTP_STATIC_CACHE_PROBE_EXISTS, c)
  end.

(** Reading a view: the strings its pointers lead to. *)
Definition view_item (v : http_static_cache_view_t) (c : http_static_cache_t) : option item :=
  e ← heap c !! view_entry v; Some (data e).

(** ** The abstract cache *)

Definition without (path : bytes) (l : list item) : list item := filter (fun i => path_key i <> path) l.
Definition find_item (path : bytes) (l : list item) : option item := List.find (fun i => eqb_bytes (path_key i) path) l.

(** Using an item makes it the most recent. *)
Definition touch (i : item) (l : list item) : list item := i :: without (path_key i) l.

(** A new item replaces the one of its path; the oldest one gives way when the cache is full. *)
Definition put (max : Z) (i : item) (l : list item) : list item := take (Z.to_nat max) (touch i l).

(** ** Linked segments *)

Definition first (ids : list nat) (n : option nat) : option nat := match ids with [] => n | k :: _ => Some k end.
Definition final (p : option nat) (ids : list nat) : option nat := match last ids with Some k => Some k | None => p end.

(** The entries [ids] are linked in this order between [p] and [n]. *)
Fixpoint seg (h : gmap nat entry_t) (p : option nat) (ids : list nat) (items : list item) (n : option nat) : Prop :=
  match ids, items with
  | [], [] => True
  | k :: ids, i :: items => h !! k = Some (MkEntry i p (first ids n)) /\ seg h (Some k) ids items n
  | _, _ => False
  end.

Lemma first_app a b n : first (a ++ b) n = first a (first b n).
Proof. by destruct a. Qed.

Lemma final_cons p k ids : final p (k :: ids) = final (Some k) ids.
Proof. unfold final. rewrite last_cons. by destruct (last ids). Qed.

Lemma final_snoc p ids k : final p (ids ++ [k]) = Some k.
Proof. unfold final. by rewrite last_snoc. Qed.

Lemma seg_app h p a b ia ib n : length a = length ia ->
  seg h p (a ++ b) (ia ++ ib) n <-> seg h p a ia (first b n) /\ seg h (final p a) b ib n.
Proof.
  revert p ia. induction a as [|k a IH]; intros p [|i ia] L; cbn [app seg length] in *; try done.
  - unfold final. cbn. tauto.
  - rewrite first_app, final_cons, IH by lia. tauto.
Qed.

Lemma seg_frame h h' p ids items n :
  (forall k, k ∈ ids -> h' !! k = h !! k) -> seg h p ids items n -> seg h' p ids items n.
Proof.
  revert p items. induction ids as [|k ids IH]; intros p [|i items] E; cbn; try done.
  intros [H1 H2]. split; [rewrite E by set_solver; done|]. apply IH; [|done]. intros j Hj. apply E. set_solver.
Qed.

Lemma seg_other h p ids items n k e : k ∉ ids -> seg h p ids items n -> seg (<[k := e]> h) p ids items n.
Proof. intros N. apply seg_frame. intros j Hj. apply lookup_insert_ne. set_solver. Qed.

Lemma seg_length h p ids items n : seg h p ids items n -> length ids = length items.
Proof. revert p items. induction ids as [|k ids IH]; intros p [|i items]; cbn; try done. intros [_ H]. f_equal. by eapply IH. Qed.

(** Redirecting the pointer behind a segment. *)
Lemma seg_set_next h p a k items n n' :
  k ∉ a -> seg h p (a ++ [k]) items n ->
  exists e, h !! k = Some e /\ seg (<[k := set_next n' e]> h) p (a ++ [k]) items n'.
Proof.
  intros N S. pose proof (seg_length _ _ _ _ _ S) as L. rewrite length_app in L. cbn in L.
  destruct (exists_last (l := items)) as (ia & i & ->); [by intros ->; cbn in L; lia|]. rewrite length_app in L. cbn in L.
  rewrite seg_app in S by lia. destruct S as [S1 [S2 _]]. eexists. split; [exact S2|].
  rewrite seg_app by lia. split; [|split; [|done]].
  - cbn [first] in *. by apply seg_other.
  - rewrite lookup_insert_eq. done.
Qed.

Lemma seg_set_prev h p k b items n p' :
  k ∉ b -> seg h p (k :: b) items n ->
  exists e, h !! k = Some e /\ seg (<[k := set_prev p' e]> h) p' (k :: b) items n.
Proof.
  intros N S. destruct items as [|i items]; [done|]. destruct S as [S1 S2]. eexists. split; [exact S1|]. split.
  - rewrite lookup_insert_eq. done.
  - by apply seg_other.
Qed.

(** ** The representation *)

Record linked (c : http_static_cache_t) (ids : list nat) (items : list item) : Prop := {
  lk_seg : seg (heap c) None ids items None;
  lk_distinct : NoDup ids;
  lk_head : head c = first ids None;
  lk_tail : tail c = final None ids;
}.

(** Two caches that differ in their links only. *)
Record relinked (c c' : http_static_cache_t) : Prop := {
  rl_dom : dom (heap c') = dom (heap c);
  rl_rest : fresh c' = fresh c /\ index c' = index c /\ count c' = count c /\ max_entries c' = max_entries c
            /\ ttl_seconds c' = ttl_seconds c;
}.

Lemma unlink_before h a id b ia i ib :
  NoDup (a ++ id :: b) -> length a = length ia -> seg h None (a ++ id :: b) (ia ++ i :: ib) None ->
  h !! id = Some (MkEntry i (final None a) (first b None)) /\
  seg h None a ia (Some id) /\ seg h (Some id) b ib None.
Proof. intros N L S. rewrite seg_app in S by done. destruct S as [S1 [S2 S3]]. by cbn [first] in *. Qed.

Lemma lru_unlink_linked c a id b ia i ib :
  linked c (a ++ id :: b) (ia ++ i :: ib) -> length a = length ia ->
  exists c', lru_unlink id c = Some c' /\ linked c' (a ++ b) (ia ++ ib) /\ relinked c c' /\
    heap c' !! id = Some (MkEntry i None None).
Proof.
  intros [S N Hh Ht] L. destruct (unlink_before _ _ _ _ _ _ _ N L S) as (E & S1 & S2).
  pose proof N as N'. apply NoDup_app in N' as (Na & Nd & Nb). apply NoDup_cons in Nb as [Nb1 Nb2].
  assert (Ia : id ∉ a) by (intros H; apply (Nd id H); set_solver).
  assert (Nab : NoDup (a ++ b)) by (apply NoDup_app; split_and!; [done| |done]; intros k Hk Hb; apply (Nd k Hk); set_solver).
  unfold lru_unlink. rewrite E. cbn [mbind option_bind prev next].
  (* the predecessor *)
  assert (P : exists h1 hd, (match final None a with
      | Some p => with_entry p (set_next (first b None)) c
      | None => Some (set_ends (first b None) (tail c) c)
      end) = Some (set_heap h1 (set_ends hd (tail c) c)) /\ hd = first (a ++ b) None /\
      seg h1 None a ia (first b None) /\ dom h1 = dom (heap c) /\ (forall k, k ∉ a -> h1 !! k = heap c !! k)).
  { destruct a as [|x a _] using rev_ind; [|].
    - unfold final. cbn. exists (heap c), (first b None). split; [by destruct c|]. destruct ia; done.
    - rewrite final_snoc. apply NoDup_app in Na as (_ & Nx & _).
      assert (X : x ∉ a) by (intros H; apply (Nx x H); set_solver).
      destruct (seg_set_next _ _ _ _ _ _ (first b None) X S1) as (e & Ex & Sx).
      exists (<[x := set_next (first b None) e]> (heap c)), (head c). unfold with_entry. rewrite Ex. cbn [mbind option_bind].
      split; [by destruct c|]. split; [rewrite Hh, !first_app; by destruct a|]. split; [done|].
      split; [apply dom_insert_lookup_L; by eexists|]. intros k Hk. apply lookup_insert_ne. set_solver. }
  destruct P as (h1 & hd & -> & Hhd & Sa & D1 & F1). cbn [mbind option_bind heap set_heap].
  rewrite F1, E by done. cbn [mbind option_bind prev next].
  assert (S2' : seg h1 (Some id) b ib None).
  { eapply seg_frame; [|exact S2]. intros k Hk. apply F1. intros H. apply (Nd k H). set_solver. }
  (* the successor *)
  assert (Q : exists h2 tl, (match first b None with
      | Some n => with_entry n (set_prev (final None a)) (set_heap h1 (set_ends hd (tail c) c))
      | None => Some (set_ends (head (set_heap h1 (set_ends hd (tail c) c))) (final None a) (set_heap h1 (set_ends hd (tail c) c)))
      end) = Some (set_heap h2 (set_ends hd tl c)) /\ tl = final None (a ++ b) /\
      seg h2 (final None a) b ib None /\ dom h2 = dom (heap c) /\ (forall k, k ∉ b -> h2 !! k = h1 !! k)).
  { destruct b as [|x b].
    - cbn. exists h1, (final None a). split; [by destruct c|]. rewrite app_nil_r. destruct ib; done.
    - apply NoDup_cons in Nb2 as [X _]. destruct (seg_set_prev _ _ _ _ _ _ (final None a) X S2') as (e & Ex & Sx).
      cbn [first]. exists (<[x := set_prev (final None a) e]> h1), (tail c). unfold with_entry. cbn [heap set_heap]. rewrite Ex. cbn [mbind option_bind].
      split; [by destruct c|]. split; [|split; [done|]].
      + rewrite Ht. unfold final. by rewrite !last_app_cons, last_cons_cons.
      + split; [rewrite <- D1; apply dom_insert_lookup_L; by eexists|]. intros k Hk. apply lookup_insert_ne. set_solver. }
  destruct Q as (h2 & tl & -> & Htl & Sb & D2 & F2). cbn [mbind option_bind].
  assert (E2 : h2 !! id = Some (MkEntry i (final None a) (first b None))) by (rewrite F2, F1 by done; done).
  unfold with_entry. cbn [heap set_heap]. rewrite E2. cbn [mbind option_bind]. eexists. split; [reflexivity|].
  split; [|split; [|cbn; by rewrite lookup_insert_eq]].
  - split; cbn; try done. apply seg_other; [set_solver|]. rewrite seg_app by done. split; [|done].
    eapply seg_frame; [|exact Sa]. intros k Hk. apply F2. intros H. apply (Nd k Hk). set_solver.
  - split; cbn; [|done]. rewrite <- D2. apply dom_insert_lookup_L. by eexists.
Qed.

Lemma lru_push_head_linked c ids items id i :
  linked c ids items -> id ∉ ids -> (exists p n, heap c !! id = Some (MkEntry i p n)) ->
  exists c', lru_push_head id c = Some c' /\ linked c' (id :: ids) (i :: items) /\ relinked c c'.
Proof.
  intros [S N Hh Ht] Nid (p & n & E). unfold lru_push_head, with_entry. rewrite E. cbn [mbind option_bind heap set_heap head data].
  rewrite Hh. destruct ids as [|x ids]; cbn [first].
  - eexists. split; [reflexivity|]. destruct items; [|done]. split.
    + split; cbn; try done; [by rewrite lookup_insert_eq|]. apply NoDup_singleton.
    + split; [|done]. cbn. apply dom_insert_lookup_L. by eexists.
  - rewrite lookup_insert_ne by set_solver. apply NoDup_cons in N as N'. destruct N' as [X _].
    destruct (seg_set_prev _ _ _ _ _ _ (Some id) X S) as (e & Ex & Sx). rewrite Ex. cbn [mbind option_bind].
    eexists. split; [reflexivity|]. split.
    + split; cbn [heap set_heap set_ends head tail]; [|by apply NoDup_cons|done|].
      * split; [rewrite lookup_insert_ne by set_solver; by rewrite lookup_insert_eq|].
        rewrite insert_insert_ne by set_solver. by apply seg_other.
      * rewrite Ht. unfold final. by rewrite last_cons_cons.
    + split; [|done]. cbn. rewrite (dom_insert_lookup_L (<[id:=_]> (heap c))); [by apply dom_insert_lookup_L; eexists|].
      rewrite lookup_insert_ne by set_solver. by eexists.
Qed.

(** ** What the cache promises *)

Inductive op :=
  | Lookup (now : Z) (path : bytes)
  | Insert (now : Z) (path : bytes) (s : file_stat) (ct et lm : option bytes)
  | NegativeInsert (now : Z) (path : bytes)
  | Acquire (path : bytes)
  | Store (path b : bytes)
  | Probe (now : Z) (path : bytes)
  | Clear.

Inductive answer := Done | Found (i : option item) | Body (b : option bytes) | Probed (p : http_static_cache_probe_t).

(** A view is read at once. *)
Definition exec (o : op) (c : http_static_cache_t) : option (answer * http_static_cache_t) :=
  match o with
  | Lookup now path =>
      '(v, c) ← http_static_cache_lookup now path c;
      match v with
      | None => Some (Found None, c)
      | Some v => i ← view_item v c; Some (Found (Some i), c)
      end
  | Insert now path s ct et lm => c ← http_static_cache_insert now path s ct et lm c; Some (Done, c)
  | NegativeInsert now path => c ← http_static_cache_negative_insert now path c; Some (Done, c)
  | Acquire path => b ← http_static_cache_body_acquire path c; Some (Body b, c)
  | Store path b => c ← http_static_cache_body_store path b c; Some (Done, c)
  | Probe now path => '(p, c) ← http_static_cache_probe now path c; Some (Probed p, c)
  | Clear => Some (Done, http_static_cache_clear c)
  end.

Definition store_body (path b : bytes) (l : list item) : list item :=
  map (fun i => if eqb_bytes (path_key i) path then
                  match body i, b with None, _ :: _ => set_item_body b i | _, _ => i end else i) l.

Definition promise (max ttl : Z) (o : op) (l : list item) : answer * list item :=
  let disabled path := (max =? 0) || (ttl <=? 0) || (length path =? 0)%nat in
  let old now i := ttl <? now - cached_at i in
  match o with
  | Lookup now path =>
      if disabled path then (Found None, l)
      else match find_item path l with
      | None => (Found None, l)
      | Some i => if not_found i then (Found None, l)
                  else if old now i then (Found None, without path l) else (Found (Some i), touch i l)
      end
  | Insert now path s ct et lm =>
      (Done, if disabled path then l else put max (MkItem path s now (copied ct) (copied et) (copied lm) None false) l)
  | NegativeInsert now path =>
      (Done, if disabled path then l else put max (MkItem path no_stat now None None None None true) l)
  | Acquire path => (Body (if disabled path then None else find_item path l ≫= body), l)
  | Store path b => (Done, if disabled path then l else store_body path b l)
  | Probe now path =>
      if disabled path then (Probed HTTP_STATIC_CACHE_PROBE_UNKNOWN, l)
      else match find_item path l with
      | None => (Probed HTTP_STATIC_CACHE_PROBE_UNKNOWN, l)
      | Some i => if old now i then (Probed HTTP_STATIC_CACHE_PROBE_UNKNOWN, without path l)
                  else (Probed (if not_found i then HTTP_STATIC_CACHE_PROBE_NOT_FOUND else HTTP_STATIC_CACHE_PROBE_EXISTS), l)
      end
  | Clear => (Done, [])
  end.

Fixpoint exec_all (ops : list op) (c : http_static_cache_t) : option (list answer * http_static_cache_t) :=
  match ops with
  | [] => Some ([], c)
  | o :: ops => '(a, c) ← exec o c; '(l, c) ← exec_all ops c; Some (a :: l, c)
  end.

Fixpoint promised (max ttl : Z) (ops : list op) (l : list item) : list answer * list item :=
  match ops with
  | [] => ([], l)
  | o :: ops => let '(a, l) := promise max ttl o l in let '(r, l) := promised max ttl ops l in (a :: r, l)
  end.

(** ** The representation of the abstract cache *)

Record repr (max ttl : Z) (c : http_static_cache_t) (ids : list nat) (items : list item) : Prop := {
  rp_linked : linked c ids items;
  rp_paths : NoDup (map path_key items);
  rp_index : index c = list_to_map (zip (map path_key items) ids);
  rp_dom : dom (heap c) = list_to_set ids;
  rp_fresh : Forall (fun id => id < fresh c)%nat ids;
  rp_count : count c = Z.of_nat (length items);
  rp_bound : Z.of_nat (length items) <= max;
  rp_config : max_entries c = max /\ ttl_seconds c = ttl;
}.

Lemma zip_split (a b : list nat) (ia ib : list item) id i : length a = length ia ->
  zip (map path_key (ia ++ i :: ib)) (a ++ id :: b) ≡ₚ (path_key i, id) :: zip (map path_key (ia ++ ib)) (a ++ b).
Proof.
  intros L. rewrite !map_app. cbn [map]. rewrite !zip_with_app by (by rewrite length_map). cbn [zip_with]. symmetry. apply Permutation_middle.
Qed.

Lemma zip_fst_nodup (ids : list nat) (items : list item) : NoDup (map path_key items) -> length ids = length items ->
  NoDup (zip (map path_key items) ids).*1.
Proof. intros N L. rewrite fst_zip; [done|]. rewrite length_map. lia. Qed.

Lemma index_split (a b : list nat) (ia ib : list item) id i :
  NoDup (map path_key (ia ++ i :: ib)) -> length a = length ia -> length b = length ib ->
  (list_to_map (zip (map path_key (ia ++ i :: ib)) (a ++ id :: b)) : gmap bytes nat)
    = <[path_key i := id]> (list_to_map (zip (map path_key (ia ++ ib)) (a ++ b))) /\
  (list_to_map (zip (map path_key (ia ++ ib)) (a ++ b)) : gmap bytes nat) !! path_key i = None.
Proof.
  intros N L L'. split.
  - etransitivity; [apply (list_to_map_proper (M := gmap bytes)); [|by apply zip_split]|done].
    apply zip_fst_nodup; [done|]. rewrite !length_app. cbn. lia.
  - apply not_elem_of_list_to_map_1. rewrite fst_zip by (rewrite length_map, !length_app; lia).
    rewrite map_app in *. cbn [map] in N. apply NoDup_app in N as (_ & N1 & N2). apply NoDup_cons in N2 as [N2 _].
    rewrite elem_of_app. intros [H|H]; [apply (N1 _ H); set_solver|done].
Qed.

Lemma repr_found max ttl c ids items path id :
  repr max ttl c ids items -> index c !! path = Some id ->
  exists a b ia i ib, ids = a ++ id :: b /\ items = ia ++ i :: ib /\ length a = length ia /\ length b = length ib /\
    path_key i = path /\ exists p n, heap c !! id = Some (MkEntry i p n).
Proof.
  intros R E. rewrite (rp_index _ _ _ _ _ R) in E. apply elem_of_list_to_map_2 in E.
  apply list_elem_of_lookup in E as [k E]. apply lookup_zip_with_Some in E as (p & j & [= <- <-] & E1 & E2).
  apply list_lookup_fmap_Some in E1 as (i & -> & E1). pose proof (seg_length _ _ _ _ _ (lk_seg _ _ _ (rp_linked _ _ _ _ _ R))) as L.
  apply list_elem_of_split_length in E2 as (a & b & -> & La). apply list_elem_of_split_length in E1 as (ia & ib & -> & Lia).
  exists a, b, ia, i, ib. assert (length a = length ia) by lia. rewrite !length_app in L. cbn in L. repeat split; try done; try lia.
  destruct (rp_linked _ _ _ _ _ R) as [S N _ _]. destruct (unlink_before _ _ _ _ _ _ _ N H S) as (-> & _). eauto.
Qed.

Lemma repr_missing max ttl c ids items path :
  repr max ttl c ids items -> index c !! path = None -> path ∉ map path_key items.
Proof.
  intros R E H. pose proof (seg_length _ _ _ _ _ (lk_seg _ _ _ (rp_linked _ _ _ _ _ R))) as L. rewrite (rp_index _ _ _ _ _ R) in E.
  apply not_elem_of_list_to_map_2 in E. rewrite fst_zip in E by (rewrite length_map; lia). done.
Qed.

Lemma find_item_split ia i ib : NoDup (map path_key (ia ++ i :: ib)) -> find_item (path_key i) (ia ++ i :: ib) = Some i.
Proof.
  unfold find_item. induction ia as [|j ia IH]; cbn [app find map]; intros N; [by rewrite eqb_bytes_refl|].
  apply NoDup_cons in N as [N1 N2]. destruct (eqb_bytes _ _) eqn:E; [|by apply IH].
  apply eqb_bytes_eq in E. exfalso. apply N1. rewrite E, map_app. cbn. set_solver.
Qed.

Lemma find_item_missing path l : path ∉ map path_key l -> find_item path l = None.
Proof.
  unfold find_item. induction l as [|j l IH]; cbn [find map]; intros N; [done|]. destruct (eqb_bytes _ _) eqn:E.
  - apply eqb_bytes_eq in E. set_solver.
  - apply IH. set_solver.
Qed.

Lemma without_missing path l : path ∉ map path_key l -> without path l = l.
Proof.
  unfold without. induction l as [|j l IH]; [done|]. cbn [map]. intros N. rewrite filter_cons_True by set_solver. rewrite IH; [done|]. set_solver.
Qed.

Lemma without_split ia i ib : NoDup (map path_key (ia ++ i :: ib)) -> without (path_key i) (ia ++ i :: ib) = ia ++ ib.
Proof.
  rewrite map_app. cbn [map]. intros N. apply NoDup_app in N as (_ & N1 & N2). apply NoDup_cons in N2 as [N2 _].
  unfold without. rewrite filter_app, filter_cons_False by (cbn; tauto). fold (without (path_key i) ia). fold (without (path_key i) ib).
  rewrite !without_missing; [done|done|]. intros H. apply (N1 _ H). set_solver.
Qed.

(** ** The operations *)

Lemma evict_repr max ttl c a id b ia i ib :
  max < 2 ^ 64 -> repr max ttl c (a ++ id :: b) (ia ++ i :: ib) -> length a = length ia -> length b = length ib ->
  exists c', evict_entry id c = Some c' /\ repr max ttl c' (a ++ b) (ia ++ ib) /\ fresh c' = fresh c.
Proof.
  intros M [R N X D F C B [K1 K2]] L L'. destruct (lru_unlink_linked _ _ _ _ _ _ _ R L) as (c1 & E & [S1 N1 H1 T1] & [D1 (Q1 & Q2 & Q3 & Q4 & Q5)] & E1).
  unfold evict_entry. rewrite E. cbn [mbind option_bind heap set_count]. rewrite E1. cbn [mbind option_bind data].
  destruct (index_split a b ia ib id i N L L') as [X1 X2].
  unfold index_del. cbn [index set_count]. rewrite Q2, X, X1, lookup_insert_eq. eexists. split; [reflexivity|].
  rewrite map_app in N. cbn [map] in N. split; [|done]. rewrite length_app in *. cbn [length] in *.
  assert (Nid : id ∉ a ++ b).
  { pose proof (lk_distinct _ _ _ R) as Nd. apply NoDup_app in Nd as (_ & Nd1 & Nd2). apply NoDup_cons in Nd2 as [Nd2 _].
    rewrite elem_of_app. intros [H|H]; [apply (Nd1 _ H); set_solver|done]. }
  split; cbn; try done.
  - split; cbn; try done. eapply seg_frame; [|exact S1]. intros k Hk. apply lookup_delete_ne. set_solver.
  - rewrite map_app. apply NoDup_app in N as (Na & Nb & Nc). apply NoDup_cons in Nc as [_ Nc]. apply NoDup_app. split; [done|]. split; [|done].
    intros x Hx Hx'. apply (Nb x Hx). set_solver.
  - by rewrite delete_insert_id.
  - rewrite dom_delete_L, D1, D, !list_to_set_app_L, list_to_set_cons. set_solver.
  - rewrite Q1. apply Forall_app in F as [F1 F2]. inversion F2; subst. by apply Forall_app.
  - rewrite Q3, C, length_app. cbn [length]. unfold u64. rewrite Z.mod_small; lia.
  - rewrite length_app. cbn. lia.
  - by rewrite Q4, Q5.
Qed.

Lemma promote_repr max ttl c a id b ia i ib :
  repr max ttl c (a ++ id :: b) (ia ++ i :: ib) -> length a = length ia -> length b = length ib ->
  exists c', lru_promote id c = Some c' /\ repr max ttl c' (id :: a ++ b) (i :: ia ++ ib).
Proof.
  intros R L L'. unfold lru_promote. destruct a as [|x a].
  { destruct ia; [|done]. rewrite bool_decide_true by (by rewrite (lk_head _ _ _ (rp_linked _ _ _ _ _ R))). eauto. }
  pose proof (lk_distinct _ _ _ (rp_linked _ _ _ _ _ R)) as Nd.
  rewrite bool_decide_false by (rewrite (lk_head _ _ _ (rp_linked _ _ _ _ _ R)); cbn in *; apply NoDup_cons in Nd as [Nd _]; set_solver).
  destruct R as [R N X D F C B [K1 K2]]. destruct (lru_unlink_linked _ _ _ _ _ _ _ R L) as (c1 & -> & R1 & [D1 (Q1 & Q2 & Q3 & Q4 & Q5)] & E1).
  cbn [mbind option_bind].
  assert (Nid : id ∉ (x :: a) ++ b).
  { apply NoDup_app in Nd as (_ & Nd1 & Nd2). apply NoDup_cons in Nd2 as [Nd2 _].
    rewrite elem_of_app. intros [H|H]; [apply (Nd1 _ H); set_solver|done]. }
  destruct (lru_push_head_linked _ _ _ id i R1 Nid) as (c2 & -> & R2 & [D2 (P1 & P2 & P3 & P4 & P5)]); [by eauto|].
  eexists. split; [reflexivity|]. split; try done.
  - cbn [map]. rewrite !map_app in *. cbn [map] in N. rewrite <- Permutation_middle in N. exact N.
  - rewrite P2, Q2, X. destruct (index_split _ b _ ib id i N L L') as [-> _]. done.
  - rewrite D2, D1, D. cbn [list_to_set]. rewrite !list_to_set_app_L. cbn. set_solver.
  - rewrite P1, Q1. apply Forall_app in F as [F1 F2]. inversion F2; subst. constructor; [done|]. by apply Forall_app.
  - rewrite P3, Q3, C. f_equal. rewrite length_app. cbn. rewrite length_app. lia.
  - rewrite length_app in B. cbn in *. rewrite length_app. lia.
  - by rewrite P4, P5, Q4, Q5.
Qed.

Lemma add_fresh max ttl c ids items i :
  max < 2 ^ 64 -> repr max ttl c ids items -> path_key i ∉ map path_key items -> Z.of_nat (length items) < max ->
  exists c', (let id := fresh c in
    c ← lru_push_head id (MkCache (<[id := MkEntry i None None]> (heap c)) (S id) (index c) (head c) (tail c) (count c) (max_entries c) (ttl_seconds c));
    Some (set_index (<[path_key i := id]> (index c)) (set_count (u64 (count c + 1)) c))) = Some c' /\
    repr max ttl c' (fresh c :: ids) (i :: items).
Proof.
  intros M [[S N Hh Ht] Np X D F C B [K1 K2]] Ni Lm. cbn zeta.
  assert (Nf : fresh c ∉ ids) by (intros H; rewrite Forall_forall in F; specialize (F _ H); lia).
  set (c1 := MkCache _ _ _ _ _ _ _ _).
  assert (R1 : linked c1 ids items) by (split; try done; by apply seg_other).
  destruct (lru_push_head_linked c1 ids items (fresh c) i R1 Nf) as (c2 & -> & R2 & [D2 (P1 & P2 & P3 & P4 & P5)]).
  { do 2 eexists. unfold c1. cbn. by rewrite lookup_insert_eq. }
  unfold c1 in D2, P1, P2, P3, P4, P5. cbn in D2, P1, P2, P3, P4, P5.
  cbn [mbind option_bind]. eexists. split; [reflexivity|]. destruct R2. split; cbn; try done.
  - by apply NoDup_cons.
  - by rewrite P2, X.
  - rewrite D2, dom_insert_L, D. done.
  - rewrite P1. constructor; [lia|]. eapply Forall_impl; [exact F|]. cbn. lia.
  - rewrite P3, C. unfold u64. rewrite Z.mod_small; lia.
  - lia.
  - by rewrite P4, P5.
Qed.

Lemma evict_lru_repr max ttl c ids items :
  max < 2 ^ 64 -> repr max ttl c ids items -> items <> [] ->
  exists c' ids', evict_lru c = Some c' /\ repr max ttl c' ids' (removelast items).
Proof.
  intros M R Ne. pose proof (seg_length _ _ _ _ _ (lk_seg _ _ _ (rp_linked _ _ _ _ _ R))) as L.
  destruct (exists_last Ne) as (ia & i & ->). destruct (exists_last (l := ids)) as (a & id & ->).
  { intros ->. rewrite length_app in L. cbn in L. lia. }
  rewrite !length_app in L. cbn in L. unfold evict_lru. rewrite (lk_tail _ _ _ (rp_linked _ _ _ _ _ R)), final_snoc, removelast_last.
  destruct (evict_repr max ttl c a id [] ia i [] M R ltac:(lia) eq_refl) as (c' & E & R' & _). rewrite !app_nil_r in R'. eauto.
Qed.

Lemma put_split max i l : 0 < max -> path_key i ∉ map path_key l -> Z.of_nat (length l) <= max ->
  put max i l = i :: (if max <=? Z.of_nat (length l) then removelast l else l).
Proof.
  intros M N L. unfold put, touch. rewrite (without_missing _ _ N). destruct (Z.to_nat max) as [|k] eqn:E; [lia|]. cbn [firstn]. f_equal.
  destruct (Z.leb_spec max (Z.of_nat (length l))) as [H|H]; [|apply take_ge; lia]. assert (length l = S k) by lia.
  rewrite removelast_firstn_len. f_equal. lia.
Qed.

Lemma add_entry_repr max ttl c ids items i :
  0 < max < 2 ^ 64 -> repr max ttl c ids items ->
  exists c' ids', add_entry i c = Some c' /\ repr max ttl c' ids' (put max i items).
Proof.
  intros M R. unfold add_entry.
  assert (A : exists c1 ids1, match index c !! path_key i with Some id => evict_entry id c | None => Some c end = Some c1 /\
    repr max ttl c1 ids1 (without (path_key i) items) /\ path_key i ∉ map path_key (without (path_key i) items)).
  { assert (Nw : path_key i ∉ map path_key (without (path_key i) items)).
    { intros H. apply list_elem_of_In, in_map_iff in H as (j & Hj & H). apply list_elem_of_In in H. unfold without in H.
      apply list_elem_of_filter in H as [H _]. done. }
    destruct (index c !! path_key i) as [id|] eqn:E.
    - destruct (repr_found _ _ _ _ _ _ _ R E) as (a & b & ia & j & ib & -> & -> & L & L' & Hj & _).
      destruct (evict_repr _ _ _ _ _ _ _ _ _ (proj2 M) R L L') as (c1 & E1 & R1 & _). rewrite <- Hj in *.
      rewrite (without_split ia j ib (rp_paths _ _ _ _ _ R)) in *. eauto.
    - pose proof (repr_missing _ _ _ _ _ _ R E) as Hm. rewrite (without_missing _ _ Hm) in *. eauto. }
  destruct A as (c1 & ids1 & -> & R1 & Nw). cbn [mbind option_bind].
  pose proof (rp_bound _ _ _ _ _ R1) as B1. destruct (rp_config _ _ _ _ _ R1) as [K1 K2]. rewrite K1, (rp_count _ _ _ _ _ R1).
  assert (E : put max i items = i :: (if max <=? Z.of_nat (length (without (path_key i) items)) then removelast (without (path_key i) items)
                                      else without (path_key i) items)).
  { rewrite <- (put_split max i (without (path_key i) items)) by (done || lia). unfold put, touch. by rewrite (without_missing _ _ Nw). }
  rewrite E. destruct (Z.leb_spec max (Z.of_nat (length (without (path_key i) items)))) as [G|G].
  - assert (Ne : without (path_key i) items <> []) by (intros H; rewrite H in G; cbn in G; lia).
    destruct (evict_lru_repr _ _ _ _ _ (proj2 M) R1 Ne) as (c2 & ids2 & E2 & R2). rewrite E2. cbn [mbind option_bind].
    destruct (exists_last Ne) as (l' & j & El). rewrite El, removelast_last in *.
    destruct (add_fresh _ _ _ _ _ i (proj2 M) R2) as (c3 & E3 & R3).
    + rewrite map_app in Nw. set_solver.
    + rewrite length_app in B1. cbn in B1. lia.
    + eauto.
  - cbn [mbind option_bind]. destruct (add_fresh _ _ _ _ _ i (proj2 M) R1 Nw G) as (c3 & E3 & R3). eauto.
Qed.

Lemma disabled_spec max ttl c ids items path : repr max ttl c ids items ->
  cache_disabled c path = (max =? 0) || (ttl <=? 0) || (length path =? 0)%nat.
Proof. intros R. unfold cache_disabled. by destruct (rp_config _ _ _ _ _ R) as [-> ->]. Qed.

Lemma enabled_pos max ttl c ids items (path : bytes) : 0 <= max -> repr max ttl c ids items ->
  (max =? 0) || (ttl <=? 0) || (length path =? 0)%nat = false -> 0 < max.
Proof. rewrite !orb_false_iff, Z.eqb_neq. lia. Qed.

Lemma store_body_split path b ia i ib : NoDup (map path_key (ia ++ i :: ib)) -> path_key i = path ->
  store_body path b (ia ++ i :: ib) = ia ++ (match body i, b with None, _ :: _ => set_item_body b i | _, _ => i end) :: ib.
Proof.
  intros N <-. rewrite map_app in N. cbn [map] in N. apply NoDup_app in N as (_ & N1 & N2). apply NoDup_cons in N2 as [N2 _].
  assert (O : forall l, path_key i ∉ map path_key l -> store_body (path_key i) b l = l).
  { induction l as [|j l IH]; [done|]. cbn [map store_body]. intros H. destruct (eqb_bytes _ _) eqn:E.
    - apply eqb_bytes_eq in E. set_solver.
    - f_equal. apply IH. set_solver. }
  unfold store_body. rewrite map_app. cbn [map]. rewrite eqb_bytes_refl. f_equal; [|f_equal]; apply O; [|done].
  intros H. apply (N1 _ H). set_solver.
Qed.

Lemma store_body_missing path b l : path ∉ map path_key l -> store_body path b l = l.
Proof.
  induction l as [|j l IH]; [done|]. cbn [map store_body]. intros H. destruct (eqb_bytes _ _) eqn:E.
  - apply eqb_bytes_eq in E. set_solver.
  - f_equal. apply IH. set_solver.
Qed.

Lemma set_data_repr max ttl c a id b ia i i' ib p n :
  repr max ttl c (a ++ id :: b) (ia ++ i :: ib) -> length a = length ia -> path_key i' = path_key i ->
  heap c !! id = Some (MkEntry i p n) ->
  repr max ttl (set_heap (<[id := MkEntry i' p n]> (heap c)) c) (a ++ id :: b) (ia ++ i' :: ib).
Proof.
  intros [[S N Hh Ht] Np X D F C B K] L Hk E.
  assert (M : map path_key (ia ++ i' :: ib) = map path_key (ia ++ i :: ib)) by (rewrite !map_app; cbn; by rewrite Hk).
  destruct (unlink_before _ _ _ _ _ _ _ N L S) as (E' & S1 & S2). rewrite E in E'. injection E' as -> ->.
  split; cbn; rewrite ?M; try done.
  - split; cbn; try done. apply NoDup_app in N as (_ & N1 & N2). apply NoDup_cons in N2 as [N2 _].
    rewrite seg_app by done. split; [cbn; apply seg_other; [|done]; intros H; apply (N1 _ H); set_solver|].
    split; [by rewrite lookup_insert_eq|]. by apply seg_other.
  - rewrite <- D. apply dom_insert_lookup_L. by eexists.
  - rewrite C, !length_app. done.
  - rewrite !length_app in *. done.
Qed.

Lemma exec_promise max ttl o c ids items :
  0 <= max < 2 ^ 64 -> repr max ttl c ids items ->
  exists c' ids', exec o c = Some ((promise max ttl o items).1, c') /\ repr max ttl c' ids' (promise max ttl o items).2.
Proof.
  intros M R. destruct o as [now path|now path s ct et lm|now path|path|path b|now path|]; cbn [exec promise].
  - unfold http_static_cache_lookup. rewrite (disabled_spec _ _ _ _ _ path R). destruct (_ || _) eqn:Dis; [cbn; eauto|].
    destruct (index c !! path) as [id|] eqn:E.
    2:{ rewrite (find_item_missing _ _ (repr_missing _ _ _ _ _ _ R E)). cbn. eauto. }
    destruct (repr_found _ _ _ _ _ _ _ R E) as (a & b & ia & i & ib & -> & -> & L & L' & <- & p & n & Ei).
    rewrite (find_item_split _ _ _ (rp_paths _ _ _ _ _ R)), Ei. cbn [mbind option_bind data].
    destruct (not_found i); [cbn; eauto|]. unfold expired. rewrite (proj2 (rp_config _ _ _ _ _ R)).
    destruct (_ <? _).
    + destruct (evict_repr _ _ _ _ _ _ _ _ _ (proj2 M) R L L') as (c1 & -> & R1 & _). cbn.
      rewrite (without_split _ _ _ (rp_paths _ _ _ _ _ R)). eauto.
    + destruct (promote_repr _ _ _ _ _ _ _ _ _ R L L') as (c1 & -> & R1). cbn [mbind option_bind].
      pose proof (lk_seg _ _ _ (rp_linked _ _ _ _ _ R1)) as [E1 _]. rewrite E1. cbn [mbind option_bind]. unfold view_item. cbn [view_entry].
      rewrite E1. cbn. unfold touch. rewrite (without_split _ _ _ (rp_paths _ _ _ _ _ R)). eauto.
  - unfold http_static_cache_insert. rewrite (disabled_spec _ _ _ _ _ path R). destruct (_ || _) eqn:Dis; [cbn; eauto|].
    pose proof (enabled_pos _ _ _ _ _ path (proj1 M) R Dis). edestruct (add_entry_repr max ttl c) as (c1 & ids1 & -> & R1); [lia|done|]. cbn. eauto.
  - unfold http_static_cache_negative_insert. rewrite (disabled_spec _ _ _ _ _ path R). destruct (_ || _) eqn:Dis; [cbn; eauto|].
    pose proof (enabled_pos _ _ _ _ _ path (proj1 M) R Dis). edestruct (add_entry_repr max ttl c) as (c1 & ids1 & -> & R1); [lia|done|]. cbn. eauto.
  - unfold http_static_cache_body_acquire, find_entry. rewrite (disabled_spec _ _ _ _ _ path R). destruct (_ || _) eqn:Dis; [cbn; eauto|].
    destruct (index c !! path) as [id|] eqn:E.
    2:{ rewrite (find_item_missing _ _ (repr_missing _ _ _ _ _ _ R E)). cbn. eauto. }
    destruct (repr_found _ _ _ _ _ _ _ R E) as (a & b & ia & i & ib & -> & -> & L & L' & <- & p & n & Ei).
    rewrite (find_item_split _ _ _ (rp_paths _ _ _ _ _ R)), Ei. cbn. eauto.
  - unfold http_static_cache_body_store, find_entry. rewrite (disabled_spec _ _ _ _ _ path R). destruct (_ || _) eqn:Dis; [cbn; eauto|].
    destruct (index c !! path) as [id|] eqn:E.
    2:{ rewrite (store_body_missing _ _ _ (repr_missing _ _ _ _ _ _ R E)). cbn. eauto. }
    destruct (repr_found _ _ _ _ _ _ _ R E) as (a & b' & ia & i & ib & -> & -> & L & L' & Hp & p & n & Ei).
    rewrite (store_body_split _ b _ _ _ (rp_paths _ _ _ _ _ R) Hp), Ei. cbn [mbind option_bind data].
    destruct (body i) as [x|]; [cbn; eauto|]. destruct b as [|y b]; [cbn; eauto|]. unfold with_entry. rewrite Ei. cbn.
    do 2 eexists. split; [reflexivity|]. by eapply set_data_repr.
  - unfold http_static_cache_probe. rewrite (disabled_spec _ _ _ _ _ path R). destruct (_ || _) eqn:Dis; [cbn; eauto|].
    destruct (index c !! path) as [id|] eqn:E.
    2:{ rewrite (find_item_missing _ _ (repr_missing _ _ _ _ _ _ R E)). cbn. eauto. }
    destruct (repr_found _ _ _ _ _ _ _ R E) as (a & b & ia & i & ib & -> & -> & L & L' & <- & p & n & Ei).
    rewrite (find_item_split _ _ _ (rp_paths _ _ _ _ _ R)), Ei. cbn [mbind option_bind data].
    unfold expired. rewrite (proj2 (rp_config _ _ _ _ _ R)). destruct (_ <? _); [|cbn; eauto].
    destruct (evict_repr _ _ _ _ _ _ _ _ _ (proj2 M) R L L') as (c1 & -> & R1 & _). cbn.
    rewrite (without_split _ _ _ (rp_paths _ _ _ _ _ R)). eauto.
  - do 2 eexists. split; [reflexivity|]. cbn. destruct (rp_config _ _ _ _ _ R). 
    assert (linked (http_static_cache_clear c) [] []) by (split; try done; apply NoDup_nil_2).
    split; try done; cbn; try lia; apply NoDup_nil_2 || apply dom_empty_L.
Qed.

(** C12: For every sequence of operations at any times, the hash table and the linked list behave
    like a list of at most [max_entries] files, most recently used first: no operation
    touches a freed entry, a lookup finds exactly the metadata inserted last for the path
    unless it expired, was replaced by a negative entry or gave way to newer paths, and the
    number of entries is exact. *)
Theorem static_cache_refines (max ttl : Z) (ops : list op) :
  0 <= max < 2 ^ 64 ->
  exists answers c, exec_all ops (http_static_cache_create max ttl) = Some (answers, c) /\
    answers = (promised max ttl ops []).1 /\
    count c = Z.of_nat (length (promised max ttl ops []).2) /\ count c <= max /\
    exists ids, linked c ids (promised max ttl ops []).2 /\ dom (heap c) = list_to_set ids.
Proof.
  intros M.
  assert (G : forall ops c ids items, repr max ttl c ids items ->
    exists c' ids', exec_all ops c = Some ((promised max ttl ops items).1, c') /\ repr max ttl c' ids' (promised max ttl ops items).2).
  { clear ops. induction ops as [|o ops IH]; intros c ids items R; [cbn; eauto|].
    destruct (exec_promise max ttl o c ids items M R) as (c1 & ids1 & E & R1). cbn [exec_all promised]. rewrite E. cbn [mbind option_bind].
    destruct (promise max ttl o items) as [a l]. cbn [fst snd] in *. destruct (IH _ _ _ R1) as (c2 & ids2 & -> & R2). cbn [mbind option_bind].
    destruct (promised max ttl ops l) as [r l']. cbn. eauto. }
  assert (R0 : repr max ttl (http_static_cache_create max ttl) [] []).
  { assert (linked (http_static_cache_create max ttl) [] []) by (split; try done; apply NoDup_nil_2).
    split; try done; cbn; try lia; apply NoDup_nil_2 || apply dom_empty_L. }
  destruct (G ops _ _ _ R0) as (c & ids & E & R). exists (promised max ttl ops []).1, c. split; [done|]. split; [done|].
  destruct R as [R1 R2 R3 R4 R5 R6 R7 R8]. split; [done|]. split; [lia|]. eauto.
Qed.

Lemma static_cache_refines_witness :
  exists answers c, exec_all [Insert 0 (lit "/a") no_stat (Some (lit "text/plain")) None None; Lookup 5 (lit "/a"); Lookup 100 (lit "/a")]
      (http_static_cache_create 2 60) = Some (answers, c) /\
    answers = [Done; Found (Some (MkItem (lit "/a") no_stat 0 (Some (lit "text/plain")) None None None false)); Found None] /\ count c = 0.
Proof.
  destruct (static_cache_refines 2 60 [Insert 0 (lit "/a") no_stat (Some (lit "text/plain")) None None; Lookup 5 (lit "/a"); Lookup 100 (lit "/a")]
    ltac:(lia)) as (answers & c & E & A & C & _).
  exists answers, c. split; [exact E|]. split; [rewrite A; vm_compute; reflexivity|rewrite C; vm_compute; reflexivity].
Defined.

(** ** Views *)

(** The view of a lookup points into its entry.  When an insertion evicts the entry while a
    request still holds the view, as the file engine does from the lookup to its timer
    tick, what the view points to is gone. *)
Theorem static_cache_view_dangles :
  exists c v c', http_static_cache_insert 0 (lit "/a") no_stat (Some (lit "text/plain")) None None (http_static_cache_create 1 60) = Some c /\
    http_static_cache_lookup 0 (lit "/a") c = Some (Some v, c) /\
    http_static_cache_insert 0 (lit "/b") no_stat (Some (lit "text/html")) None None c = Some c' /\
    is_Some (view_item v c) /\ view_item v c' = None.
Proof.
  do 3 eexists. split; [vm_compute; reflexivity|]. split; [vm_compute; reflexivity|]. split; [vm_compute; reflexivity|].
  split; [eexists; vm_compute; reflexivity|vm_compute; reflexivity].
Qed.

End StaticCache.
