(* ===== verification/FileSend.v ===== *)
(** * Sending files

    Models src/src/send_file.c (the engine behind static mounts and [sendFile]),
    src/src/http_mime.c, src/src/http_precompressed.c, src/src/http_send_file.c and
    src/src/http1/http1_sendfile.c (the HTTP/1 side, plain and TLS).

    The file system is an argument: what [lstat], [stat] and [realpath] answer, which files
    can be opened, and the bytes behind a path.  So are the clock and the conversion between
    [time_t] and calendar time. *)

From S2P Require Import Prelude HttpRange AcceptEncoding HttpDate HttpResponse Http1Response HeaderTools StaticCache.

Module FileSend.
Import HttpRange(zend_stat_t, st_size, st_mtim_sec) StaticCache(file_stat, times, is_regular, is_link, st_dev, st_uid, http_static_cache_t).
Import Response.

Record filesystem := {
  lstat : bytes -> option file_stat;
  stat : bytes -> option file_stat;
  realpath : bytes -> option bytes;
  readable : bytes -> bool;
  content : bytes -> bytes;
}.

Record calendar := { gmtime : Z -> HttpDate.tm; timegm : HttpDate.tm -> Z }.

(** [open]: the file behind the path, which [O_NOFOLLOW] refuses to be a link. *)
Definition open_file (fs : filesystem) (nofollow : bool) (path : bytes) : option file_stat :=
  match stat fs path with
  | Some s =>
      if nofollow && match lstat fs path with Some l => is_link l | None => false end then None
      else if readable fs path then Some s else None
  | None => None
  end.

Definition MAXPATHLEN : Z := 4096.
Definition HTTP_ETAG_LEN : nat := 20.
Definition HTTP_DATE_LEN : nat := 29.
Definition SEND_FILE_SLURP_THRESHOLD : Z := 64 * 1024.

(** ** Media types *)

Definition builtin_table : list (bytes * bytes) :=
  map (fun e => (lit (fst e), lit (snd e)))
  [("atom", "application/atom+xml"); ("avif", "image/avif"); ("bin", "application/octet-stream"); ("bmp", "image/bmp");
   ("css", "text/css; charset=utf-8"); ("csv", "text/csv; charset=utf-8"); ("eot", "application/vnd.ms-fontobject");
   ("gif", "image/gif"); ("gz", "application/gzip"); ("htm", "text/html; charset=utf-8");
   ("html", "text/html; charset=utf-8"); ("ico", "image/x-icon"); ("jpeg", "image/jpeg"); ("jpg", "image/jpeg");
   ("js", "text/javascript; charset=utf-8"); ("json", "application/json"); ("manifest", "text/cache-manifest");
   ("map", "application/json"); ("md", "text/markdown; charset=utf-8"); ("mjs", "text/javascript; charset=utf-8");
   ("mp3", "audio/mpeg"); ("mp4", "video/mp4"); ("ogg", "audio/ogg"); ("otf", "font/otf"); ("pdf", "application/pdf");
   ("png", "image/png"); ("rss", "application/rss+xml"); ("svg", "image/svg+xml"); ("tar", "application/x-tar");
   ("tif", "image/tiff"); ("tiff", "image/tiff"); ("ttf", "font/ttf"); ("txt", "text/plain; charset=utf-8");
   ("wasm", "application/wasm"); ("wav", "audio/wav"); ("webm", "video/webm"); ("webmanifest", "application/manifest+json");
   ("webp", "image/webp"); ("woff", "font/woff"); ("woff2", "font/woff2"); ("xhtml", "application/xhtml+xml");
   ("xml", "text/xml; charset=utf-8"); ("yaml", "application/yaml"); ("yml", "application/yaml");
   ("zip", "application/zip"); ("zst", "application/zstd")]%string.

(** [strcmp]. *)
Fixpoint strcmp (a b : bytes) : comparison :=
  match a, b with
  | [], [] => Eq
  | [], _ :: _ => Lt
  | _ :: _, [] => Gt
  | x :: a, y :: b => match x ?= y with Eq => strcmp a b | c => c end
  end.

(** The binary search; the interval at least halves, so the fuel of the table's length is
    enough. *)
Fixpoint lookup_loop (fuel lo hi : nat) (ext : bytes) : option bytes :=
  match fuel with
  | O => None
  | S fuel =>
      if (lo <? hi)%nat then
        let mid := (lo + (hi - lo) / 2)%nat in
        match builtin_table !! mid with
        | None => None
        | Some (e, ct) =>
            match strcmp ext e with
            | Eq => Some ct
            | Lt => lookup_loop fuel lo mid ext
            | Gt => lookup_loop fuel (S mid) hi ext
            end
        end
      else None
  end.

Definition lookup_builtin (ext : bytes) : option bytes :=
  lookup_loop (length builtin_table) 0 (length builtin_table) (c_str ext).

(** The extension, read backwards. *)
Fixpoint extension_loop (rev_path ext : bytes) : bytes :=
  match rev_path with
  | [] => []
  | c :: r => if c =? SLASH then [] else if c =? DOT then ext else extension_loop r (c :: ext)
  end.
Definition find_extension (path : bytes) : bytes := extension_loop (rev path) [].

Definition lower_extension (src : bytes) (cap : Z) : option bytes :=
  if (Z.of_nat (length src) =? 0) || (cap <=? Z.of_nat (length src)) then None
  else Some (map (fun c => if (65 <=? c) && (c <=? 90) then c - 65 + 97 else c) src).

Definition http_mime_extract_lowered_ext (path : bytes) (cap : Z) : option bytes := lower_extension (find_extension path) cap.

Definition http_mime_lookup_by_ext (path : bytes) : option bytes :=
  match lower_extension (find_extension path) 32 with
  | Some ext => lookup_builtin ext
  | None => None
  end.

Definition find_override (overrides : option (gmap bytes zval)) (path : bytes) : option bytes :=
  m ← overrides;
  ext ← http_mime_extract_lowered_ext path 32;
  match m !! ext with Some (ZString o) => Some o | _ => None end.

(** ** Requests and configuration *)

(** What the engine reads of a request. *)
Record request_view := { req_headers : hashtable; req_is_head : bool; req_is_get : bool; req_uri : option bytes }.
Definition http_request_find_header (r : request_view) (name : bytes) : option bytes := find_string (req_headers r) name.

Inductive send_file_on_error_t := SEND_FILE_ERR_INLINE_500 | SEND_FILE_ERR_PASSTHROUGH_PHP | SEND_FILE_ERR_EMIT_VIA_OP.

Record send_file_config_t := {
  abs_path : bytes;
  cfg_content_type : option bytes;
  content_disposition : option bytes;
  cfg_cache_control : option bytes;
  cfg_etag : bool;
  cfg_last_modified : bool;
  cfg_accept_ranges : bool;
  cfg_conditional : bool;
  cfg_delete_after_send : bool;
  reject_symlinks : bool;
  content_encoding : option bytes;
  status_override : Z;
  extra_headers : option php_array;
  mime_overrides : option (gmap bytes zval);
  cache_view : option StaticCache.http_static_cache_view_t;
  use_cache : bool;
  on_error : send_file_on_error_t;
}.

(** ** Conditional requests *)

(** [None]: the date parser reads outside its buffer. *)
Definition http_conditional_check (cal : calendar) (inm ims etag : option bytes) (mtime : Z) : option bool :=
  match inm with
  | Some ((_ :: _) as s) => Some (HttpRange.http_etag_match_inm s (default [] etag))
  | _ =>
      match ims with
      | Some ((_ :: _) as s) =>
          match HttpDate.http_date_parse_imf s with
          | HttpDate.DateError => Some false
          | HttpDate.Date t =>
              let since := timegm cal t in
              Some (if since =? -1 then false else mtime <=? since)
          | HttpDate.ReadsOutside => None
          end
      | _ => Some false
      end
  end.

(** ** Precompressed siblings *)

Definition HTTP_PRECOMP_BR : Z := Z.shiftl 1 0.
Definition HTTP_PRECOMP_GZIP : Z := Z.shiftl 1 1.
Definition HTTP_PRECOMP_ZSTD : Z := Z.shiftl 1 2.
Definition HTTP_PRECOMP_ALL : Z := Z.lor (Z.lor HTTP_PRECOMP_BR HTTP_PRECOMP_GZIP) HTTP_PRECOMP_ZSTD.

Record codec := { codec_flag : Z; suffix : bytes; token : bytes; acceptable : AcceptEncoding.http_accept_encoding_t -> bool }.
Definition codecs : list codec :=
  [ {| codec_flag := HTTP_PRECOMP_ZSTD; suffix := lit ".zst"; token := lit "zstd"; acceptable := AcceptEncoding.zstd_acceptable |};
    {| codec_flag := HTTP_PRECOMP_BR; suffix := lit ".br"; token := lit "br"; acceptable := AcceptEncoding.brotli_acceptable |};
    {| codec_flag := HTTP_PRECOMP_GZIP; suffix := lit ".gz"; token := lit "gzip"; acceptable := AcceptEncoding.gzip_acceptable |} ].

Definition is_file (fs : filesystem) (path : bytes) : bool :=
  match stat fs path with Some s => is_regular s | None => false end.

Fixpoint select_loop (fs : filesystem) (now mask : Z) (ae : AcceptEncoding.http_accept_encoding_t) (path : bytes) (l : list codec)
    (c : option http_static_cache_t) : option (option (bytes * bytes) * option http_static_cache_t) :=
  match l with
  | [] => Some (None, c)
  | k :: l =>
      let candidate := path ++ suffix k in
      if (Z.land mask (codec_flag k) =? 0) || negb (acceptable k ae)
         || (MAXPATHLEN <? Z.of_nat (length path) + Z.of_nat (length (suffix k)) + 1)
      then select_loop fs now mask ae path l c
      else
        '(pr, c) ← (match c with
                    | Some c => '(p, c) ← StaticCache.http_static_cache_probe now candidate c; Some (p, Some c)
                    | None => Some (StaticCache.HTTP_STATIC_CACHE_PROBE_UNKNOWN, None)
                    end);
        match pr with
        | StaticCache.HTTP_STATIC_CACHE_PROBE_NOT_FOUND => select_loop fs now mask ae path l c
        | StaticCache.HTTP_STATIC_CACHE_PROBE_EXISTS => Some (Some (candidate, token k), c)
        | StaticCache.HTTP_STATIC_CACHE_PROBE_UNKNOWN =>
            if is_file fs candidate then Some (Some (candidate, token k), c)
            else
              c ← (match c with
                   | Some c => c ← StaticCache.http_static_cache_negative_insert now candidate c; Some (Some c)
                   | None => Some None
                   end);
              select_loop fs now mask ae path l c
        end
  end.

(** The path of the sibling and the coding token. *)
Definition http_precompressed_select (fs : filesystem) (now : Z) (r : request_view) (mask : Z) (path : bytes)
    (c : option http_static_cache_t) : option (option (bytes * bytes) * option http_static_cache_t) :=
  if mask =? 0 then Some (None, c)
  else match http_request_find_header r (lit "accept-encoding") with
       | None => Some (None, c)
       | Some ae => select_loop fs now mask (AcceptEncoding.http_accept_encoding_parse ae) path codecs c
       end.

(** ** The engine *)

(** What is handed to the protocol: the response, and the part of the open file to send. *)
Record delivery := { d_response : http_response_object unit; d_file : option (bytes * Z * Z); d_head_only : bool }.

Record engine_state := {
  cfg : send_file_config_t;
  request : request_view;
  response_obj : http_response_object unit;
  st : file_stat;
  keep_alive : bool;
}.

Definition engine_resolve_content_type (c : send_file_config_t) : option bytes :=
  match cfg_content_type c with
  | Some t => Some t
  | None => match find_override (mime_overrides c) (abs_path c) with
            | Some o => Some o
            | None => http_mime_lookup_by_ext (abs_path c)
            end
  end.

Definition octet_stream : bytes := lit "application/octet-stream".

Definition error_response (keep : bool) (status : Z) (text : bytes) (r : http_response_object unit) : http_response_object unit :=
  let r := http_response_static_set_header (lit "content-type") (lit "text/plain; charset=utf-8") (set_status_code status r) in
  let r := match text with [] => r | _ => response_set_body_bytes (Some text) r end in
  http_response_set_connection keep (http_response_set_content_length (Z.of_nat (length text)) r).

Definition engine_emit_error_via_op (keep : bool) (status : Z) (text : bytes) (r : http_response_object unit) : delivery :=
  {| d_response := error_response keep status text r; d_file := None; d_head_only := true |}.

(** Entity tag, last modification and media type; a view is read through its pointers. *)
Definition engine_metadata (cal : calendar) (s : engine_state) (c : option http_static_cache_t)
    : option (option bytes * bytes * option bytes) :=
  let k := cfg s in
  let mtime := st_mtim_sec (times (st s)) in
  let formatted := HttpDate.http_date_format_imf (gmtime cal mtime) in
  match cache_view k with
  | Some v =>
      c ← c;
      i ← StaticCache.view_item v c;
      let etag := match StaticCache.etag i with
                  | Some e => if (length e =? HTTP_ETAG_LEN)%nat then Some e else None
                  | None => None
                  end in
      let lm := match StaticCache.last_modified i with
                | Some d => if (length d =? HTTP_DATE_LEN)%nat then d else formatted
                | None => formatted
                end in
      Some (etag, lm, StaticCache.content_type i)
  | None =>
      Some (if cfg_etag k then Some (HttpRange.http_etag_format_strong (times (st s))) else None,
            formatted,
            Some (default octet_stream (engine_resolve_content_type k)))
  end.

Inductive range_verdict := WholeFile | Part (first last : Z) | Unsatisfiable.

Definition engine_range (s : engine_state) (etag : option bytes) (not_modified : bool) : range_verdict :=
  if negb not_modified && cfg_accept_ranges (cfg s) then
    let allowed := match http_request_find_header (request s) (lit "if-range"), etag with
                   | Some v, Some e => eqb_bytes v e
                   | Some _, None => false
                   | None, _ => true
                   end in
    match http_request_find_header (request s) (lit "range") with
    | Some h =>
        if allowed then
          match HttpRange.http_range_parse (Some h) (u64 (st_size (times (st s)))) with
          | HttpRange.HTTP_RANGE_OK first last => Part first last
          | HttpRange.HTTP_RANGE_NOT_SATISFIABLE => Unsatisfiable
          | _ => WholeFile
          end
        else WholeFile
    | None => WholeFile
    end
  else WholeFile.

(** [fs_slurp_fd]: [None] when the file is shorter than expected.  (The reads that fail this way
    leave the descriptor at the end of the file; the transfer that follows is modelled from its
    start, and over TLS it fails either way.) *)
Definition fs_slurp_fd (file : bytes) (expected : Z) : option bytes :=
  if expected =? 0 then Some []
  else if Z.of_nat (length file) <? expected then None
  else Some (take (Z.to_nat expected) file).

Definition header_if (b : bool) (name value : bytes) (r : http_response_object unit) : http_response_object unit :=
  if b then http_response_static_set_header name value r else r.

Definition header_opt (name : bytes) (value : option bytes) (r : http_response_object unit) : http_response_object unit :=
  match value with Some v => http_response_static_set_header name v r | None => r end.

(** The header of a 200, 206 or 304. *)
Definition engine_headers (s : engine_state) (etag : option bytes) (lm : bytes) (ct : option bytes) (not_modified : bool)
    (range : range_verdict) (body_len : Z) : http_response_object unit :=
  let k := cfg s in
  let total := u64 (st_size (times (st s))) in
  let content := negb not_modified in
  let code := if not_modified then 304 else match range with Part _ _ => 206 | _ => 200 end in
  let code := if negb (status_override k =? 0) && content && (code <? 400) then status_override k else code in
  let r := set_status_code code (response_obj s) in
  let r := if content then header_opt (lit "content-type") ct r else r in
  let r := if content then http_response_set_content_length body_len r else r in
  let r := header_opt (lit "etag") etag r in
  let r := header_if (cfg_last_modified k) (lit "last-modified") lm r in
  let r := if content then header_opt (lit "content-encoding") (content_encoding k) r else r in
  let r := match content_encoding k with Some _ => http_response_static_set_header (lit "vary") (lit "Accept-Encoding") r | None => r end in
  let r := header_if (cfg_accept_ranges k && content) (lit "accept-ranges") (lit "bytes") r in
  let r := match range with
           | Part first last =>
               header_if content (lit "content-range")
                 (lit "bytes " ++ print_u first ++ [DASH] ++ print_u last ++ [SLASH] ++ print_u total) r
           | _ => r
           end in
  let r := header_opt (lit "cache-control") (cfg_cache_control k) r in
  let r := header_opt (lit "content-disposition") (content_disposition k) r in
  http_response_set_connection (keep_alive s) (http_response_apply_extra_headers (extra_headers k) content r).

Definition unsatisfiable_response (keep : bool) (total : Z) (r : http_response_object unit) : http_response_object unit :=
  let r := http_response_static_set_header (lit "content-type") (lit "text/plain; charset=utf-8") (set_status_code 416 r) in
  let r := http_response_static_set_header (lit "content-range") (lit "bytes */" ++ print_u total) r in
  http_response_set_connection keep (http_response_static_set_header (lit "content-length") (lit "0") r).

(** [file] is what the open descriptor reads. *)
Definition engine_handle_stat (cal : calendar) (now : Z) (file : bytes) (s : engine_state) (c : option http_static_cache_t)
    : option (delivery * option http_static_cache_t) :=
  let k := cfg s in
  if negb (is_regular (st s)) then
    Some (match on_error k with
          | SEND_FILE_ERR_INLINE_500 => engine_emit_error_via_op (keep_alive s) 500 (lit "Internal Server Error") (response_obj s)
          | _ => engine_emit_error_via_op (keep_alive s) 404 (lit "Not Found") (response_obj s)
          end, c)
  else
    '(etag, lm, ct) ← engine_metadata cal s c;
    not_modified ← (if cfg_conditional k then
                      http_conditional_check cal (http_request_find_header (request s) (lit "if-none-match"))
                        (http_request_find_header (request s) (lit "if-modified-since")) etag (st_mtim_sec (times (st s)))
                    else Some false);
    c ← (match cache_view k, c with
         | None, Some c0 =>
             if use_cache k then
               c1 ← StaticCache.http_static_cache_insert now (abs_path k) (st s) ct etag (if cfg_last_modified k then Some lm else None) c0;
               Some (Some c1)
             else Some c
         | _, _ => Some c
         end);
    let size := st_size (times (st s)) in
    let total := u64 size in
    match engine_range s etag not_modified with
    | Unsatisfiable =>
        Some ({| d_response := unsatisfiable_response (keep_alive s) total (response_obj s); d_file := None; d_head_only := true |}, c)
    | range =>
        let body_len := if not_modified then 0 else match range with Part first last => u64 (last - first + 1) | _ => total end in
        let r := engine_headers s etag lm ct not_modified range body_len in
        let offset := match range with Part first _ => first | _ => 0 end in
        let whole := match range with Part _ _ => false | _ => true end in
        Some (if not_modified || req_is_head (request s) || (size =? 0)
              then {| d_response := r; d_file := Some (abs_path k, 0, 0); d_head_only := true |}
              else
                match (if whole && (total <=? SEND_FILE_SLURP_THRESHOLD) then fs_slurp_fd file total else None) with
                | Some b => {| d_response := response_set_body_bytes (Some b) r; d_file := None; d_head_only := true |}
                | None => {| d_response := r; d_file := Some (abs_path k, offset, body_len); d_head_only := false |}
                end, c)
    end.

(** ** Starting the engine *)

Inductive deferred := DeferError (status : Z) (text : bytes) | DeferStat (s : engine_state).

Inductive send_file_result_t :=
  | SEND_FILE_PASSTHROUGH
  | SEND_FILE_HANDLED
  | SEND_FILE_ASYNC (d : deferred) (cfg : send_file_config_t).

Definition engine_handle_open_failure (k : send_file_config_t) : send_file_result_t :=
  match on_error k with
  | SEND_FILE_ERR_PASSTHROUGH_PHP => SEND_FILE_PASSTHROUGH
  | SEND_FILE_ERR_EMIT_VIA_OP => SEND_FILE_ASYNC (DeferError 404 (lit "Not Found")) k
  | SEND_FILE_ERR_INLINE_500 => SEND_FILE_ASYNC (DeferError 500 (lit "Internal Server Error")) k
  end.

(** [has_op]: the protocol can send files. *)
Definition send_file (fs : filesystem) (has_op keep : bool) (r : request_view) (resp : http_response_object unit)
    (k : send_file_config_t) : send_file_result_t :=
  if (length (abs_path k) =? 0)%nat || (MAXPATHLEN <=? Z.of_nat (length (abs_path k)) + 1) || negb has_op then SEND_FILE_HANDLED
  else match open_file fs (reject_symlinks k) (abs_path k) with
       | None => engine_handle_open_failure k
       | Some s =>
           let s := match cache_view k with Some v => StaticCache.view_st v | None => s end in
           SEND_FILE_ASYNC (DeferStat {| cfg := k; request := r; response_obj := resp; st := s; keep_alive := keep |}) k
       end.

(** The timer tick; [c] and [now] are those of the tick. *)
Definition engine_defer_dispatch (cal : calendar) (fs : filesystem) (now : Z) (keep : bool) (resp : http_response_object unit)
    (d : deferred) (c : option http_static_cache_t) : option (delivery * option http_static_cache_t) :=
  match d with
  | DeferError status text => Some (engine_emit_error_via_op keep status text resp, c)
  | DeferStat s => engine_handle_stat cal now (content fs (abs_path (cfg s))) s c
  end.

(** ** [sendFile] *)

Definition HTTP_SEND_FILE_DISPOSITION_ATTACHMENT : Z := 1.

Definition ascii_clean (c : Z) : bool := negb ((c <? 32) || (127 <=? c) || (c =? DQUOTE) || (c =? BACKSLASH)).

Definition sf_build_content_disposition (o : http_send_file_options_t) : option bytes :=
  let named := match download_name o with Some _ => true | None => false end in
  let is_attachment := (disposition o =? HTTP_SEND_FILE_DISPOSITION_ATTACHMENT) || (named && negb (disposition_set o)) in
  if negb is_attachment && negb named then None
  else Some ((if is_attachment then lit "attachment" else lit "inline") ++
             match download_name o with
             | None => []
             | Some dn => if forallb ascii_clean dn then lit "; filename=" ++ [DQUOTE] ++ dn ++ [DQUOTE]
                          else lit "; filename*=UTF-8''" ++ HeaderTools.http_rfc5987_encode dn
             end).

Definition sendfile_config (o : http_send_file_options_t) (path : bytes) (encoding : option bytes) : send_file_config_t :=
  {| abs_path := path; cfg_content_type := content_type o; content_disposition := sf_build_content_disposition o;
     cfg_cache_control := cache_control o; cfg_etag := etag o; cfg_last_modified := last_modified o;
     cfg_accept_ranges := accept_ranges o; cfg_conditional := conditional o && (etag o || last_modified o);
     cfg_delete_after_send := delete_after_send o; reject_symlinks := false; content_encoding := encoding;
     status_override := opt_status o; extra_headers := None; mime_overrides := None; cache_view := None; use_cache := false;
     on_error := SEND_FILE_ERR_INLINE_500 |}.

Inductive dispatch_result := Refused (r : http_response_object unit) | Started (d : deferred).

Definition http_send_file_dispatch (fs : filesystem) (has_op : bool) (r : request_view) (resp : http_response_object unit)
    (path : bytes) (o : http_send_file_options_t) : option dispatch_result :=
  let n := Z.of_nat (length path) in
  if (n =? 0) || (MAXPATHLEN <=? n + 4 + 1) || negb (starts_with [SLASH] path) then
    Some (Refused (http_response_synth_error 500 (Some (lit "sendFile: path must be absolute")) resp))
  else if negb has_op then
    Some (Refused (http_response_synth_error 500 (Some (lit "sendFile: protocol does not support sendfile")) resp))
  else
    '(picked, _) ← (if precompressed o then http_precompressed_select fs 0 r HTTP_PRECOMP_ALL path None else Some (None, None));
    let '(path, encoding) := match picked with Some (p, t) => (p, Some t) | None => (path, None) end in
    Some (match send_file fs has_op true r resp (sendfile_config o path encoding) with
          | SEND_FILE_ASYNC d _ => Started d
          | SEND_FILE_HANDLED => Refused (http_response_synth_error 500 (Some (lit "sendFile: cannot open file")) resp)
          | SEND_FILE_PASSTHROUGH => Refused (http_response_synth_error 500 (Some (lit "sendFile: engine refused")) resp)
          end).

(** ** HTTP/1 *)

Inductive h1_send_phase_t := H1_SEND_PHASE_SENDFILE | H1_SEND_PHASE_TLS_READ | H1_SEND_PHASE_TLS_DRAIN | H1_SEND_PHASE_DONE.

(** [position] is the read position of the open file, [inflight] that ciphertext is being
    written, [wire] what was submitted to the connection, in clear text; [outcome] is the
    status given to [on_done]. *)
Record h1_send_state_t := MkSend {
  file : bytes;
  position : Z;
  body_offset : Z;
  body_length : Z;
  bytes_sent : Z;
  head_only : bool;
  phase : h1_send_phase_t;
  inflight : bool;
  wire : bytes;
  outcome : option Z;
}.

Definition H1_SEND_TLS_CHUNK_BYTES : Z := 16 * 1024.

Definition h1_send_finalize (status : Z) (x : h1_send_state_t) : h1_send_state_t :=
  MkSend (file x) (position x) (body_offset x) (body_length x) (bytes_sent x) (head_only x) H1_SEND_PHASE_DONE (inflight x) (wire x)
    (Some status).

Definition set_phase (p : h1_send_phase_t) (x : h1_send_state_t) : h1_send_state_t :=
  MkSend (file x) (position x) (body_offset x) (body_length x) (bytes_sent x) (head_only x) p (inflight x) (wire x) (outcome x).

(** [submitted]: the read could be started. *)
Definition h1_send_tls_submit_next_read (submitted : bool) (x : h1_send_state_t) : h1_send_state_t :=
  if body_length x <=? bytes_sent x then
    if inflight x then set_phase H1_SEND_PHASE_TLS_DRAIN x else h1_send_finalize 0 x
  else if submitted then set_phase H1_SEND_PHASE_TLS_READ x else h1_send_finalize (-1) x.

(** The bytes a read of at most [n] returns: sequential, from the position of the file. *)
Definition read_chunk (n : Z) (x : h1_send_state_t) : bytes :=
  let want := Z.min (body_length x - bytes_sent x) H1_SEND_TLS_CHUNK_BYTES in
  take (Z.to_nat (Z.min n want)) (drop (Z.to_nat (position x)) (file x)).

Definition h1_send_handle_tls_read_done (n : Z) (err closing encrypted busy submitted : bool) (x : h1_send_state_t) : h1_send_state_t :=
  let data := read_chunk n x in
  let got := Z.of_nat (length data) in
  let x := MkSend (file x) (position x + got) (body_offset x) (body_length x) (bytes_sent x) (head_only x) (phase x) (inflight x) (wire x)
             (outcome x) in
  if err || (got =? 0) || closing || negb encrypted then h1_send_finalize (-1) x
  else
    let x := MkSend (file x) (position x) (body_offset x) (body_length x) (bytes_sent x + got) (head_only x) (phase x) busy (wire x ++ data)
               (outcome x) in
    if busy then set_phase H1_SEND_PHASE_TLS_DRAIN x else h1_send_tls_submit_next_read submitted x.

Definition h1_send_tls_drain_done_cb (closing submitted : bool) (x : h1_send_state_t) : h1_send_state_t :=
  let x := MkSend (file x) (position x) (body_offset x) (body_length x) (bytes_sent x) (head_only x) (phase x) false (wire x) (outcome x) in
  match phase x with
  | H1_SEND_PHASE_TLS_DRAIN =>
      if closing then h1_send_finalize (-1) x
      else if head_only x || (body_length x <=? bytes_sent x) then h1_send_finalize 0 x
      else h1_send_tls_submit_next_read submitted x
  | _ => x
  end.

(** The kernel has sent [n] bytes of the slice. *)
Definition h1_send_handle_sendfile_done (n : Z) (err : bool) (x : h1_send_state_t) : h1_send_state_t :=
  h1_send_finalize (if err then -1 else 0)
    (MkSend (file x) (position x) (body_offset x) (body_length x) (bytes_sent x) (head_only x) (phase x) (inflight x)
       (wire x ++ take (Z.to_nat (Z.min n (body_length x))) (drop (Z.to_nat (body_offset x)) (file x))) (outcome x)).

Inductive h1_event :=
  | ReadDone (n : Z) (err closing encrypted busy submitted : bool)
  | DrainDone (closing submitted : bool)
  | SendfileDone (n : Z) (err : bool).

Definition h1_send_dispatch (e : h1_event) (x : h1_send_state_t) : h1_send_state_t :=
  match e, phase x with
  | SendfileDone n err, H1_SEND_PHASE_SENDFILE => h1_send_handle_sendfile_done n err x
  | ReadDone n err closing enc busy sub, H1_SEND_PHASE_TLS_READ => h1_send_handle_tls_read_done n err closing enc busy sub x
  | DrainDone closing sub, _ => h1_send_tls_drain_done_cb closing sub x
  | _, _ => x
  end.

(** [None] is -1: the head could not be submitted. *)
Definition h1_stream_send_static_response (contents : bytes -> bytes) (tls head_ok busy submitted : bool) (d : delivery)
    : option h1_send_state_t :=
  let '(data, offset, len, no_file) := match d_file d with Some (p, o, n) => (contents p, o, n, false) | None => ([], 0, 0, true) end in
  if negb head_ok then None
  else
    let x := MkSend data 0 offset len 0 (d_head_only d || no_file) H1_SEND_PHASE_DONE (tls && busy)
               (Http1.http_response_format_static_head (d_response d) no_file) None in
    Some (if head_only x then if inflight x then set_phase H1_SEND_PHASE_TLS_DRAIN x else h1_send_finalize 0 x
          else if tls then if inflight x then set_phase H1_SEND_PHASE_TLS_DRAIN x else h1_send_tls_submit_next_read submitted x
          else if submitted then set_phase H1_SEND_PHASE_SENDFILE x else h1_send_finalize (-1) x).

End FileSend.
