(* ===== verification/StaticServe.v ===== *)
(** * Static mounts

    Models src/src/static/http_static.c (finding the mount, index files, precompressed
    siblings, the open-file cache, the engine and the synchronous path) and
    src/src/static/http_static_safety.c (the symlink policies). *)

From S2P Require Import Prelude HttpRange AcceptEncoding HttpDate HttpResponse Http1Response HeaderTools StaticPath StaticCache FileSend.

Module StaticServe.
Import StaticCache(file_stat, times, is_regular, is_link, st_dev, st_uid, http_static_cache_t) HttpRange(st_size, st_mtim_sec, st_ino).
Import StaticPath(root_directory, flags).
Import Response FileSend.

Definition HTTP_STATIC_FLAG_SYMLINKS_REJECT : Z := Z.shiftl 1 3.
Definition HTTP_STATIC_FLAG_SYMLINKS_OWNER : Z := Z.shiftl 1 5.
Definition HTTP_STATIC_FLAG_PRECOMP_BR : Z := Z.shiftl 1 6.
Definition HTTP_STATIC_FLAG_PRECOMP_GZIP : Z := Z.shiftl 1 7.
Definition HTTP_STATIC_FLAG_PRECOMP_ZSTD : Z := Z.shiftl 1 8.
Definition HTTP_STATIC_FLAG_ETAG : Z := Z.shiftl 1 9.
Definition HTTP_STATIC_FLAG_ON_MISSING_NEXT : Z := Z.shiftl 1 11.
Definition HTTP_STATIC_MAX_FILE_SIZE : Z := 256 * 1024 * 1024.

Record mount_t := {
  handler : StaticPath.http_static_handler_t;
  index_files : list bytes;
  mount_cache_control : option bytes;
  mount_extra_headers : option php_array;
  mount_mime_overrides : option (gmap bytes zval);
}.

Definition has_flag (m : mount_t) (f : Z) : bool := negb (Z.land (flags (handler m)) f =? 0).

(** ** Symlink policies *)

(** One segment at a time; an empty rest ends the walk. *)
Fixpoint owner_chain_loop (fs : filesystem) (buf : bytes) (segs : list bytes) : bool :=
  match segs with
  | [] => true
  | seg :: rest =>
      match seg, rest with
      | [], [] => true
      | _, _ =>
          if FileSend.MAXPATHLEN <? Z.of_nat (length buf) + 1 + Z.of_nat (length seg) + 1 then false
          else
            let buf := buf ++ [SLASH] ++ seg in
            match lstat fs buf with
            | None => false
            | Some l =>
                let ok := if is_link l then match stat fs buf with Some t => st_uid l =? st_uid t | None => false end else true in
                ok && owner_chain_loop fs buf rest
            end
      end
  end.

Definition verify_path_owner_chain (fs : filesystem) (m : mount_t) (path : bytes) : bool :=
  let root := root_directory (handler m) in
  starts_with root path && (Z.of_nat (length root) <? FileSend.MAXPATHLEN)
  && owner_chain_loop fs root (split_on SLASH (drop_while (fun c => c =? SLASH) (drop (length root) path))).

Definition http_static_symlink_policy_admits (fs : filesystem) (m : mount_t) (path : bytes) : bool :=
  if has_flag m HTTP_STATIC_FLAG_SYMLINKS_REJECT then match lstat fs path with Some l => negb (is_link l) | None => false end
  else if has_flag m HTTP_STATIC_FLAG_SYMLINKS_OWNER then verify_path_owner_chain fs m path
  else true.

Definition http_static_resolved_under_root (fs : filesystem) (m : mount_t) (path : bytes) : bool :=
  match realpath fs path with
  | None => false
  | Some canonical =>
      let root := root_directory (handler m) in
      starts_with root canonical
      && match drop (length root) canonical with [] => true | c :: _ => c =? SLASH end
  end.

(** Open, [fstat], and the comparison with what the path names now. *)
Definition http_static_try_open_candidate (fs : filesystem) (m : mount_t) (path : bytes) : option file_stat :=
  s ← open_file fs (has_flag m HTTP_STATIC_FLAG_SYMLINKS_REJECT) path;
  if negb (is_regular s) then None
  else match lstat fs path with
       | None => None
       | Some p => if negb (st_dev p =? st_dev s) || negb (st_ino (times p) =? st_ino (times s)) then None else Some s
       end.

(** ** Helpers *)

Definition mount_resolve_content_type (m : mount_t) (path : bytes) : option bytes :=
  match find_override (mount_mime_overrides m) path with
  | Some o => Some o
  | None => http_mime_lookup_by_ext path
  end.

Definition path_targets_directory (relative : bytes) : bool :=
  match last relative with None => true | Some c => c =? SLASH end.

Definition apply_mount_headers (m : mount_t) (content : bool) (r : http_response_object unit) : http_response_object unit :=
  http_response_apply_extra_headers (mount_extra_headers m) content (header_opt (lit "cache-control") (mount_cache_control m) r).

Definition mount_precomp_mask (m : mount_t) : Z :=
  Z.lor (Z.lor (if has_flag m HTTP_STATIC_FLAG_PRECOMP_BR then HTTP_PRECOMP_BR else 0)
               (if has_flag m HTTP_STATIC_FLAG_PRECOMP_GZIP then HTTP_PRECOMP_GZIP else 0))
        (if has_flag m HTTP_STATIC_FLAG_PRECOMP_ZSTD then HTTP_PRECOMP_ZSTD else 0).

Definition static_emit_validators (etag lm : option bytes) (r : http_response_object unit) : http_response_object unit :=
  header_opt (lit "last-modified") lm (header_opt (lit "etag") etag r).

Definition static_emit_not_modified (m : mount_t) (etag lm : option bytes) (r : http_response_object unit) : http_response_object unit :=
  apply_mount_headers m false (static_emit_validators etag lm (set_status_code 304 r)).

Definition static_emit_ok_headers (m : mount_t) (ct : bytes) (encoding etag lm : option bytes) (r : http_response_object unit)
    : http_response_object unit :=
  let r := http_response_static_set_header (lit "content-type") ct (set_status_code 200 r) in
  let r := match encoding with
           | Some ((_ :: _) as e) =>
               http_response_static_set_header (lit "vary") (lit "Accept-Encoding")
                 (http_response_static_set_header (lit "content-encoding") e r)
           | _ => r
           end in
  apply_mount_headers m true (static_emit_validators etag lm r).

(** ** Serving *)

Inductive http_static_result_t :=
  | HTTP_STATIC_PASSTHROUGH
  | HTTP_STATIC_HANDLED (r : http_response_object unit)
  | HTTP_STATIC_HARD_ZERO (d : deferred).

Section serve.
Context `{StaticPath.Fnmatch} (cal : calendar) (fs : filesystem) (now : Z) (has_op keep : bool).
Context (req : request_view) (resp : http_response_object unit).

Abbreviation caches := (option http_static_cache_t).

Definition missing (m : mount_t) : http_static_result_t :=
  if has_flag m HTTP_STATIC_FLAG_ON_MISSING_NEXT then HTTP_STATIC_PASSTHROUGH
  else HTTP_STATIC_HANDLED (http_response_emit_status_body 404 (Some (lit "Not Found")) resp).

(** The first index file that is there. *)
Fixpoint index_loop (dir : bytes) (l : list bytes) : option bytes :=
  match l with
  | [] => None
  | idx :: l =>
      match StaticPath.http_static_path_join dir StaticPath.MAXPATHLEN idx with
      | Some p => if is_file fs p then Some p else index_loop dir l
      | None => index_loop dir l
      end
  end.

Definition admitted (m : mount_t) (path : bytes) : bool :=
  http_static_symlink_policy_admits fs m path && http_static_resolved_under_root fs m path.

(** A hit in the cache stands for the checks. *)
Definition static_gate (m : mount_t) (path : bytes) (c : caches)
    : option (bool * option StaticCache.http_static_cache_view_t * caches) :=
  match c with
  | Some c =>
      '(v, c) ← StaticCache.http_static_cache_lookup now path c;
      Some (match v with Some _ => true | None => admitted m path end, v, Some c)
  | None => Some (admitted m path, None, None)
  end.

Definition condition (etag : option bytes) (mtime : Z) : option bool :=
  http_conditional_check cal (http_request_find_header req (lit "if-none-match"))
    (http_request_find_header req (lit "if-modified-since")) etag mtime.

(** The answer from the cached body. *)
Definition serve_cached (m : mount_t) (i : StaticCache.item) (body : bytes) (override encoding : option bytes)
    : option http_static_result_t :=
  let etag := if has_flag m HTTP_STATIC_FLAG_ETAG then StaticCache.etag i else None in
  not_modified ← condition etag (st_mtim_sec (times (StaticCache.st i)));
  Some (HTTP_STATIC_HANDLED
    (if (not_modified : bool) then static_emit_not_modified m etag (StaticCache.last_modified i) resp
     else
       let ct := match override with
                 | Some ((_ :: _) as o) => o
                 | _ => default octet_stream (StaticCache.content_type i)
                 end in
       http_response_static_set_body_view (Some body)
         (static_emit_ok_headers m ct encoding etag (StaticCache.last_modified i) resp))).

Definition mount_config (m : mount_t) (path : bytes) (view : option StaticCache.http_static_cache_view_t)
    (override encoding : option bytes) : send_file_config_t :=
  {| abs_path := path;
     cfg_content_type := match override with Some (_ :: _) => override | _ => None end;
     content_disposition := None; cfg_cache_control := mount_cache_control m;
     cfg_etag := has_flag m HTTP_STATIC_FLAG_ETAG; cfg_last_modified := true; cfg_accept_ranges := true; cfg_conditional := true;
     cfg_delete_after_send := false; reject_symlinks := has_flag m HTTP_STATIC_FLAG_SYMLINKS_REJECT;
     content_encoding := encoding; status_override := 0; extra_headers := mount_extra_headers m;
     mime_overrides := mount_mime_overrides m; cache_view := view; use_cache := true;
     on_error := if has_flag m HTTP_STATIC_FLAG_ON_MISSING_NEXT then SEND_FILE_ERR_PASSTHROUGH_PHP else SEND_FILE_ERR_EMIT_VIA_OP |}.

(** The synchronous path. *)
Definition serve_sync (m : mount_t) (path : bytes) (inline : bool) (override encoding : option bytes) (c : caches)
    : option (http_static_result_t * caches) :=
  match http_static_try_open_candidate fs m path with
  | None => Some (missing m, c)
  | Some s =>
      if negb (http_static_resolved_under_root fs m path) || negb (http_static_symlink_policy_admits fs m path) then
        Some (HTTP_STATIC_HANDLED (http_response_emit_status_body 404 (Some (lit "Not Found")) resp), c)
      else if HTTP_STATIC_MAX_FILE_SIZE <? u64 (st_size (times s)) then
        Some (HTTP_STATIC_HANDLED (http_response_emit_status_body 413 (Some (lit "Payload Too Large")) resp), c)
      else
        let etag := if has_flag m HTTP_STATIC_FLAG_ETAG then Some (HttpRange.http_etag_format_strong (times s)) else None in
        let lm := Some (HttpDate.http_date_format_imf (gmtime cal (st_mtim_sec (times s)))) in
        not_modified ← condition etag (st_mtim_sec (times s));
        if not_modified : bool then Some (HTTP_STATIC_HANDLED (static_emit_not_modified m etag lm resp), c)
        else
          let ct := match override with
                    | Some ((_ :: _) as o) => o
                    | _ => default octet_stream (mount_resolve_content_type m path)
                    end in
          let ok := static_emit_ok_headers m ct encoding etag lm resp in
          if req_is_get req then
            match fs_slurp_fd (content fs path) (u64 (st_size (times s))) with
            | None => Some (HTTP_STATIC_HANDLED (http_response_emit_status_body 500 (Some (lit "Internal Server Error")) resp), c)
            | Some b =>
                c ← (match c with
                     | Some c0 => if inline then c1 ← StaticCache.http_static_cache_body_store path b c0; Some (Some c1) else Some c
                     | None => Some c
                     end);
                Some (HTTP_STATIC_HANDLED (http_response_static_set_body_view (Some b) ok), c)
            end
          else Some (HTTP_STATIC_HANDLED (http_response_set_content_length (u64 (st_size (times s))) ok), c)
  end.

(** A mount whose prefix matches and whose path is safe, on the file of the request. *)
Definition serve_file (m : mount_t) (path : bytes) (c : caches) : option (http_static_result_t * caches) :=
  let mask := mount_precomp_mask m in
  '(picked, c) ← (if mask =? 0 then Some (None, c) else http_precompressed_select fs now req mask path c);
  let original := default octet_stream (mount_resolve_content_type m path) in
  let '(path, encoding, override) :=
    match picked with Some (p, t) => (p, Some t, Some original) | None => (path, None, None) end in
  '(gate_ok, view, c) ← static_gate m path c;
  let inline := match view with
                | Some v => req_is_get req && (u64 (st_size (times (StaticCache.view_st v))) <=? SEND_FILE_SLURP_THRESHOLD)
                            && match http_request_find_header req (lit "range") with None => true | Some _ => false end
                | None => false
                end in
  cached ← (match view, c with
            | Some v, Some c0 =>
                if inline then
                  b ← StaticCache.http_static_cache_body_acquire path c0;
                  match b with
                  | Some b => i ← StaticCache.view_item v c0; r ← serve_cached m i b override encoding; Some (Some r)
                  | None => Some None
                  end
                else Some None
            | _, _ => Some None
            end);
  match cached with
  | Some r => Some (r, c)
  | None =>
      if negb inline && gate_ok && has_op then
        match send_file fs has_op keep req resp (mount_config m path view override encoding) with
        | SEND_FILE_ASYNC d _ => Some (HTTP_STATIC_HARD_ZERO d, c)
        | SEND_FILE_PASSTHROUGH => Some (HTTP_STATIC_PASSTHROUGH, c)
        | SEND_FILE_HANDLED => serve_sync m path inline override encoding c
        end
      else serve_sync m path inline override encoding c
  end.

Fixpoint try_mounts (mounts : list mount_t) (uri : bytes) (c : caches) : option (http_static_result_t * caches) :=
  match mounts with
  | [] => Some (HTTP_STATIC_PASSTHROUGH, c)
  | m :: mounts =>
      match StaticPath.http_static_path_resolve (handler m) uri StaticPath.MAXPATHLEN with
      | StaticPath.RFail StaticPath.HTTP_STATIC_PATH_NO_MATCH => try_mounts mounts uri c
      | StaticPath.RFail StaticPath.HTTP_STATIC_PATH_BAD_REQUEST =>
          Some (HTTP_STATIC_HANDLED (http_response_emit_status_body 400 (Some (lit "Bad Request")) resp), c)
      | StaticPath.RFail StaticPath.HTTP_STATIC_PATH_FORBIDDEN =>
          Some (HTTP_STATIC_HANDLED (http_response_emit_status_body 404 (Some (lit "Not Found")) resp), c)
      | StaticPath.RFail _ => Some (missing m, c)
      | StaticPath.ROk path relative =>
          if (0 <? length relative)%nat && StaticPath.http_static_path_is_hidden (handler m) relative then Some (missing m, c)
          else if path_targets_directory relative then
            match index_loop path (index_files m) with
            | Some p => serve_file m p c
            | None => Some (missing m, c)
            end
          else serve_file m path c
      end
  end.

Definition http_static_try_serve_mounts (mounts : list mount_t) (c : caches) : option (http_static_result_t * caches) :=
  if negb (req_is_get req) && negb (req_is_head req) then Some (HTTP_STATIC_PASSTHROUGH, c)
  else match req_uri req with
       | Some ((_ :: _) as uri) => try_mounts mounts uri c
       | _ => Some (HTTP_STATIC_PASSTHROUGH, c)
       end.
End serve.

End StaticServe.
