(* ===== verification/FileSendProps.v ===== *)
(** * What a client receives of a file

    The bytes HTTP/1 writes for a file, read by the reference client: the whole file, the
    range it asked for, or an answer without content; what TLS sends instead of a range; and
    other ways in which the answer is not the one intended. *)

From S2P Require Import Prelude HttpRange AcceptEncoding HttpDate HttpResponse ResponseCompress Http1Response HttpClient.
From S2P Require Import Http1Wire Http1Inv Http1Run Http1Props HeaderTools StaticCache FileSend.

Module FileSendProps.
Import StaticCache(file_stat, times, is_regular, http_static_cache_t) HttpRange(st_size, st_mtim_sec).
Import Response Compress Http1 Client Http1Wire Http1Inv Http1Run Http1Props FileSend.

(** ** Headers that frame a body by its length *)

Definition as_list (v : option bytes) : list bytes := match v with Some x => [x] | None => [] end.

(** Clean fields, of which [v] is the only one that says where the body ends. *)
Record framed (v : option bytes) (h : headers_t) : Prop := {
  fr_clean : clean_table h;
  fr_length : field_values (lit "content-length") (table_fields h false) = as_list v;
  fr_coding : field_values (lit "transfer-encoding") (table_fields h false) = [];
  fr_absent : v = None -> ht_find (lit "content-length") h = None;
}.

Lemma table_fields_cons n v h : table_fields ((n, v) :: h) false = map (pair n) (values_of v) ++ table_fields h false.
Proof. done. Qed.

Lemma field_values_pair k n vs : field_values k (map (pair n) vs) = if eqb_ci n k then vs else [].
Proof.
  unfold field_values. induction vs as [|v vs IH]; cbn [map List.filter fst]; [by destruct (eqb_ci n k)|].
  destruct (eqb_ci n k) eqn:E; cbn [fmap list_fmap map snd]; [by rewrite IH|done].
Qed.

Lemma update_other_values k n x h : eqb_ci n k = false ->
  field_values k (table_fields (ht_update n (HStr x) h) false) = field_values k (table_fields h false).
Proof.
  intros E. induction h as [|[n' v'] h IH]; cbn [ht_update].
  - rewrite table_fields_cons, field_values_app, field_values_pair, E. done.
  - destruct (eqb_bytes n n') eqn:En.
    + apply eqb_bytes_eq in En as <-. rewrite !table_fields_cons, !field_values_app, !field_values_pair, E. done.
    + rewrite !table_fields_cons, !field_values_app, IH. done.
Qed.

Lemma update_new_values n x h : field_values n (table_fields h false) = [] -> ht_find n h = None -> eqb_ci n n = true ->
  field_values n (table_fields (ht_update n (HStr x) h) false) = [x].
Proof.
  intros V. revert V. induction h as [|[n' v'] h IH]; cbn [ht_update ht_find]; intros V F E.
  - rewrite table_fields_cons, field_values_app, field_values_pair, E. done.
  - destruct (eqb_bytes n n') eqn:En; [done|]. rewrite table_fields_cons, field_values_app in V |- *.
    apply app_eq_nil in V as [V1 V2]. rewrite V1, IH; done.
Qed.

Definition plain_name (n : bytes) : Prop := clean_name n /\ header_is_framing n = false.

Lemma find_update_other k n (x : hval) h : k <> n -> ht_find k (ht_update n x h) = ht_find k h.
Proof.
  intros N. induction h as [|[n' v'] h IH]; cbn [ht_update ht_find].
  - destruct (eqb_bytes k n) eqn:E; [|done]. by apply eqb_bytes_eq in E.
  - destruct (eqb_bytes n n') eqn:E; cbn [ht_find]; [|by rewrite IH].
    apply eqb_bytes_eq in E as <-. destruct (eqb_bytes k n) eqn:E; [|done]. by apply eqb_bytes_eq in E.
Qed.

Lemma framed_other v n x h : framed v h -> plain_name n -> clean_value x -> framed v (ht_update n (HStr x) h).
Proof.
  intros [C L T A] [N F] X. split.
  - apply clean_update; [done|done|]. by constructor.
  - rewrite update_other_values; [done|]. apply framing_names; auto.
  - rewrite update_other_values; [done|]. apply framing_names; auto.
  - intros E. rewrite find_update_other; [auto|]. by intros <-.
Qed.

Lemma framed_length x h : framed None h -> clean_value x -> framed (Some x) (ht_update (lit "content-length") (HStr x) h).
Proof.
  intros [C L T A] X. split.
  - apply clean_update; [done|done|]. by constructor.
  - cbn [as_list]. apply update_new_values; auto.
  - by rewrite update_other_values.
  - done.
Qed.

(** ** Decimal numbers *)

Lemma u64_digits_dec fuel n : 0 <= n -> rev (u64_digits fuel n) = dec_digits fuel n.
Proof.
  revert n. induction fuel as [|f IH]; intros n H; [done|]. cbn [u64_digits dec_digits rev].
  destruct (Z.ltb_spec n 10) as [L|L].
  - rewrite Z.div_small, Z.mod_small by lia. done.
  - destruct (Z.eqb_spec (n / 10) 0) as [E|E]; cbn [negb].
    + assert (10 / 10 <= n / 10) by (apply Z.div_le_mono; lia). change (10 / 10) with 1 in *. lia.
    + rewrite IH; [done|]. apply Z.div_pos; lia.
Qed.

Lemma format_u64_dec n : 0 <= n -> format_u64 n = print_u n.
Proof. apply u64_digits_dec. Qed.

(** ** Responses that are ready to be written *)

Abbreviation response := (http_response_object unit).

Record ready (v : option bytes) (r : response) : Prop := {
  rd_headers : framed v (headers r);
  rd_reason : match reason_phrase r with Some s => clean_value s | None => True end;
  rd_version : mem_byte SP (version_of r) = false /\ clean_value (version_of r);
  rd_body : body r = None /\ body_view r = None;
}.

Definition lower (n : bytes) : bytes := map (fun c => if (65 <=? c) && (c <=? 90) then c - 65 + 97 else c) n.

Lemma ready_status v code r : ready v r -> ready v (set_status_code code r).
Proof. by intros [? ? ? ?]. Qed.

Lemma ready_header v n x r : ready v r -> plain_name (lower n) -> clean_value x -> ready v (http_response_static_set_header n x r).
Proof. intros [? ? ? ?] N X. split; try done. by apply framed_other. Qed.

Lemma ready_length n r : ready None r -> 0 <= n < 10 ^ 20 -> ready (Some (print_u n)) (http_response_set_content_length n r).
Proof.
  intros [? ? ? ?] N. split; try done.
  change (framed (Some (print_u n)) (ht_update (lit "content-length") (HStr (format_u64 n)) (headers r))).
  rewrite format_u64_dec by lia. apply framed_length; [done|]. by apply print_u_clean.
Qed.

Lemma reason_clean v r : ready v r -> clean_value (reason_of r).
Proof.
  intros [_ R _ _]. unfold reason_of. destruct (reason_phrase r); [by apply clean_c_str|apply status_reason_clean].
Qed.

Lemma static_head_lines (r : response) inline :
  http_response_format_static_head r inline =
    render_head (status_of r :: lines (table_fields (headers r) false))
    ++ (if inline then match body_view r with Some v => v | None => default [] (body r) end else []).
Proof.
  unfold http_response_format_static_head. rewrite emit_status_line_spec, emit_headers_only_lines, render_head_cons.
  unfold render_head. by rewrite <- !app_assoc.
Qed.

(** The answer a client makes of a header and a body. *)
Definition received (r : response) (b : bytes) : Client.response :=
  {| c_status := client_status r; c_fields := map seen (table_fields (headers r) false); c_body := b |}.

Lemma read_empty hd v r rest : ready v r -> 100 <= status_code r <= 599 -> hd || bodiless (status_code r) = true ->
  read_response hd (render_head (status_of r :: lines (table_fields (headers r) false)) ++ rest) = Some (received r [], rest).
Proof.
  intros R S B. pose proof (reason_clean _ _ R) as RC. destruct R as [[? ? ? ?] ? [? ?] ?].
  change rest with ([] ++ rest) at 1. rewrite read_block by (try done; by apply table_fields_clean).
  unfold read_body. by rewrite B.
Qed.

Lemma read_counted hd r b rest : ready (Some (print_u (blen b))) r -> 100 <= status_code r <= 599 -> blen b < 2 ^ 63 ->
  hd || bodiless (status_code r) = false ->
  read_response hd (render_head (status_of r :: lines (table_fields (headers r) false)) ++ b ++ rest) = Some (received r b, rest).
Proof.
  intros R S N B. pose proof (reason_clean _ _ R) as RC. destruct R as [[C L T A] ? [? ?] ?].
  assert (0 <= blen b < 10 ^ 20) as Hn by (unfold blen in *; lia).
  rewrite read_block by (try done; by apply table_fields_clean). unfold read_body. rewrite B, !field_values_seen, T, L.
  cbn [map as_list]. rewrite (proj1 (print_u_clean _ Hn)), print_u_read by done. cbn [mbind option_bind].
  unfold blen in *. rewrite (proj2 (Z.ltb_ge _ _)) by (rewrite length_app; lia).
  rewrite Nat2Z.id, take_app_length, drop_app_length. done.
Qed.

(** ** The headers of the engine *)

Definition clean_opt (v : option bytes) : Prop := match v with Some x => clean_value x | None => True end.

Definition clean_extra (e : option bytes * zval) : Prop :=
  match e with (Some n, ZString v) => plain_name (lower n) /\ clean_value v | _ => True end.

(** No configured value breaks a line, and no configured header frames the body. *)
Record clean_config (k : send_file_config_t) : Prop := {
  cc_type : clean_opt (engine_resolve_content_type k);
  cc_disposition : clean_opt (content_disposition k);
  cc_cache : clean_opt (cfg_cache_control k);
  cc_encoding : clean_opt (content_encoding k);
  cc_extra : match extra_headers k with Some l => Forall clean_extra l | None => True end;
  cc_status : status_override k = 0;
  cc_view : cache_view k = None;
}.

Definition headed (v : option bytes) (code : Z) (r : response) : Prop := ready v r /\ status_code r = code.

Lemma headed_header v code n x r : headed v code r -> plain_name (lower n) -> clean_value x ->
  headed v code (http_response_static_set_header n x r).
Proof. intros [R S] N X. split; [by apply ready_header|done]. Qed.

Lemma headed_opt v code n x r : headed v code r -> plain_name (lower n) -> clean_opt x -> headed v code (header_opt n x r).
Proof. intros H N X. destruct x; [by apply headed_header|done]. Qed.

Lemma headed_if v code (b : bool) n x r : headed v code r -> plain_name (lower n) -> clean_value x -> headed v code (header_if b n x r).
Proof. intros H N X. destruct b; [by apply headed_header|done]. Qed.

Lemma headed_extra v code extra b r : match extra with Some l => Forall clean_extra l | None => True end ->
  headed v code r -> headed v code (http_response_apply_extra_headers extra b r).
Proof.
  destruct extra as [l|]; [|done]. cbn. intros F. revert r. induction F as [|[[n|] x] l E F IH]; intros r H; cbn [foldl]; [done|..];
    [|by apply IH]. apply IH. destruct x; try done. destruct E. cbn [extra_header]. case_if; [done|]. by apply headed_header.
Qed.

Lemma headed_connection v code b r : headed v code r -> headed v code (http_response_set_connection b r).
Proof. intros H. apply headed_header; [done|done|by destruct b]. Qed.

Lemma put_hex_clean n v out : clean_value out -> clean_value (HttpRange.put_hex n v out).
Proof.
  revert v out. induction n as [|n IH]; intros v out C; [done|]. cbn [HttpRange.put_hex]. apply IH.
  unfold clean_value, mem_byte in *. cbn [existsb]. rewrite C, orb_false_r. apply Z.eqb_neq.
  assert (0 <= Z.land v 15) by (apply Z.land_nonneg; lia). unfold HttpRange.hex_lower. case_if; b2p; lia.
Qed.

Lemma etag_clean t : clean_value (HttpRange.http_etag_format_strong t).
Proof.
  unfold HttpRange.http_etag_format_strong, HttpRange.put_u64_16hex. pose proof (put_hex_clean 16 (HttpRange.etag_mix t) [] eq_refl) as H.
  unfold clean_value in *. by rewrite !mem_byte_app, H.
Qed.

Lemma content_range_clean a b c : 0 <= a < 10 ^ 20 -> 0 <= b < 10 ^ 20 -> 0 <= c < 10 ^ 20 ->
  clean_value (lit "bytes " ++ print_u a ++ [DASH] ++ print_u b ++ [SLASH] ++ print_u c).
Proof.
  intros A B C. unfold clean_value.
  rewrite !mem_byte_app, (proj2 (print_u_clean a A)), (proj2 (print_u_clean b B)), (proj2 (print_u_clean c C)). done.
Qed.

#[export] Instance range_verdict_eq_dec : EqDecision range_verdict.
Proof. solve_decision. Defined.

Definition answer_code (not_modified : bool) (range : range_verdict) : Z :=
  if not_modified then 304 else match range with Part _ _ => 206 | Unsatisfiable => 416 | WholeFile => 200 end.

Definition range_inside (size : Z) (range : range_verdict) : Prop :=
  match range with Part first last => 0 <= first <= last /\ last < size | _ => True end.

Lemma engine_headers_headed s etag lm ct (not_modified : bool) range n :
  clean_config (cfg s) -> ready None (response_obj s) -> clean_opt etag -> clean_value lm -> clean_opt ct -> 0 <= n < 10 ^ 20 ->
  0 <= st_size (times (st s)) < 2 ^ 63 -> range_inside (st_size (times (st s))) range -> range <> Unsatisfiable ->
  headed (if not_modified then None else Some (print_u n)) (answer_code not_modified range)
    (engine_headers s etag lm ct not_modified range n).
Proof.
  intros [? ? ? ? ? O _] R E L T N B I U. unfold engine_headers. rewrite O. cbn [Z.eqb negb andb].
  apply headed_connection, headed_extra; [done|]. apply headed_opt; [|done..]. apply headed_opt; [|done..].
  assert (forall b v code r, headed v code r -> headed v code (match range with
     | Part first last => header_if b (lit "content-range")
         (lit "bytes " ++ print_u first ++ [DASH] ++ print_u last ++ [SLASH] ++ print_u (u64 (st_size (times (st s))))) r
     | _ => r end)) as HR.
  { intros b v code r H. destruct range; try done. apply headed_if; [done..|]. unfold range_inside in I.
    unfold u64. rewrite Z.mod_small by lia. apply content_range_clean; lia. }
  apply HR. apply headed_if; [|done..].
  assert (forall v code r, headed v code r -> headed v code (match content_encoding (cfg s) with
     | Some _ => http_response_static_set_header (lit "vary") (lit "Accept-Encoding") r | None => r end)) as HE.
  { intros v code r H. destruct (content_encoding (cfg s)); [by apply headed_header|done]. }
  apply HE. destruct not_modified; cbn [negb answer_code].
  - apply headed_if; [|done..]. apply headed_opt; [|done..]. split; [by apply ready_status|done].
  - apply headed_opt; [|done..]. apply headed_if; [|done..]. apply headed_opt; [|done..].
    assert (H : headed None (answer_code false range) (header_opt (lit "content-type") ct
       (set_status_code (answer_code false range) (response_obj s)))).
    { apply headed_opt; [|done..]. split; [by apply ready_status|done]. }
    destruct H as [H1 H2]. destruct range; try done; (split; [by apply ready_length|done]).
Qed.

(** ** What is promised for a file *)

Definition file_etag (s : engine_state) : option bytes :=
  if cfg_etag (cfg s) then Some (HttpRange.http_etag_format_strong (times (st s))) else None.

Definition unmodified (cal : calendar) (s : engine_state) : option bool :=
  if cfg_conditional (cfg s) then
    http_conditional_check cal (http_request_find_header (request s) (lit "if-none-match"))
      (http_request_find_header (request s) (lit "if-modified-since")) (file_etag s) (st_mtim_sec (times (st s)))
  else Some false.

(** The content of an answer: nothing, the file, or bytes [first] to [last] of it. *)
Definition answer_body (file : bytes) (not_modified : bool) (range : range_verdict) : bytes :=
  if not_modified then []
  else match range with
       | WholeFile => file
       | Part first last => take (Z.to_nat (last - first + 1)) (drop (Z.to_nat first) file)
       | Unsatisfiable => []
       end.

(** The status and the content a client should receive. *)
Definition answer (cal : calendar) (s : engine_state) (file : bytes) : option (Z * bytes) :=
  not_modified ← unmodified cal s;
  let range := engine_range s (file_etag s) not_modified in
  Some (answer_code not_modified range, if req_is_head (request s) then [] else answer_body file not_modified range).

(** A regular file of the size [stat] reported, a clean configuration and a fresh response. *)
Record servable (s : engine_state) (file : bytes) : Prop := {
  sv_regular : is_regular (st s) = true;
  sv_size : st_size (times (st s)) = blen file;
  sv_bound : blen file < 2 ^ 63;
  sv_config : clean_config (cfg s);
  sv_response : ready None (response_obj s);
}.

(** The plain HTTP/1 connection writes the head and, if asked to, the kernel sends [n] bytes
    of the file at most. *)
Definition plain_transfer (contents : bytes -> bytes) (n : Z) (d : delivery) : option h1_send_state_t :=
  h1_send_dispatch (SendfileDone n false) <$> h1_stream_send_static_response contents false true false true d.

Lemma range_verdict_inside s etag nm : 0 <= st_size (times (st s)) < 2 ^ 63 ->
  range_inside (st_size (times (st s))) (engine_range s etag nm).
Proof.
  intros B. unfold engine_range. destruct (negb nm && _); [|done]. destruct (http_request_find_header _ (lit "range")) as [h|]; [|done].
  destruct (match http_request_find_header _ _ with Some _ => _ | None => _ end); [|done].
  destruct (HttpRange.http_range_parse _ _) eqn:E; try done. unfold u64 in E. rewrite Z.mod_small in E by lia.
  apply HttpRange.http_range_in_bounds in E; [done|lia].
Qed.

Lemma metadata_clean cal s c : clean_config (cfg s) ->
  exists lm ct, engine_metadata cal s c = Some (file_etag s, lm, Some ct) /\ clean_opt (file_etag s) /\ clean_value lm /\ clean_value ct.
Proof.
  intros [T _ _ _ _ _ V]. unfold engine_metadata. rewrite V. eexists _, _. split_and!; [done|..].
  - unfold file_etag. destruct (cfg_etag _); [apply etag_clean|done].
  - apply date_clean.
  - destruct (engine_resolve_content_type (cfg s)); [done|by vm_compute].
Qed.

(** ** What the connection writes *)

Abbreviation head_bytes r := (render_head (status_of r :: lines (table_fields (headers r) false))).

Lemma transfer_head_only contents n p r :
  plain_transfer contents n {| d_response := r; d_file := Some (p, 0, 0); d_head_only := true |} =
    Some (MkSend (contents p) 0 0 0 0 true H1_SEND_PHASE_DONE false (head_bytes r) (Some 0)).
Proof. unfold plain_transfer, h1_stream_send_static_response. cbn. by rewrite static_head_lines, app_nil_r. Qed.

Lemma transfer_inline contents n r :
  plain_transfer contents n {| d_response := r; d_file := None; d_head_only := true |} =
    Some (MkSend [] 0 0 0 0 true H1_SEND_PHASE_DONE false
      (head_bytes r ++ match body_view r with Some v => v | None => default [] (body r) end) (Some 0)).
Proof. unfold plain_transfer, h1_stream_send_static_response. cbn. by rewrite static_head_lines. Qed.

Lemma transfer_slice contents n p off len r :
  plain_transfer contents n {| d_response := r; d_file := Some (p, off, len); d_head_only := false |} =
    Some (MkSend (contents p) 0 off len 0 false H1_SEND_PHASE_DONE false
      (head_bytes r ++ take (Z.to_nat (Z.min n len)) (drop (Z.to_nat off) (contents p))) (Some 0)).
Proof. unfold plain_transfer, h1_stream_send_static_response. cbn. by rewrite static_head_lines, app_nil_r. Qed.

Lemma inline_body (r : response) b : b <> [] ->
  body_view (response_set_body_bytes (Some b) r) = None /\ body (response_set_body_bytes (Some b) r) = Some b /\
  head_bytes (response_set_body_bytes (Some b) r) = head_bytes r.
Proof. by destruct b. Qed.

Lemma slurp_file file : fs_slurp_fd file (blen file) = Some file.
Proof.
  unfold fs_slurp_fd, blen. destruct (Z.eqb_spec (Z.of_nat (length file)) 0) as [E|E]; [by destruct file|].
  rewrite Z.ltb_irrefl, Nat2Z.id, take_ge; done.
Qed.

(** What the client receives: [x] is one whole response with this status and content. *)
Definition delivers (hd : bool) (rest : bytes) (x : option h1_send_state_t) (code : Z) (b : bytes) : Prop :=
  exists y resp, x = Some y /\ outcome y = Some 0 /\ read_response hd (wire y ++ rest) = Some (resp, rest) /\
    sl_status (c_status resp) = code /\ c_body resp = b.

Lemma delivers_head_only hd rest contents n p v code r : headed v code r -> 100 <= code <= 599 ->
  hd || bodiless code = true \/ v = Some (print_u 0) ->
  delivers hd rest (plain_transfer contents n {| d_response := r; d_file := Some (p, 0, 0); d_head_only := true |}) code [].
Proof.
  intros [R S] C H. rewrite transfer_head_only. eexists _, (received r []). split_and!; [done|done| |done|done]. cbn [wire].
  destruct (hd || bodiless (status_code r)) eqn:B; [by eapply read_empty; eauto; lia|].
  destruct H as [H| ->]; [by rewrite S, H in B|]. by apply (read_counted hd r [] rest); [|lia|vm_compute|].
Qed.

Lemma delivers_unsatisfiable hd rest contents n keep total r : ready None r -> 0 <= total < 10 ^ 20 ->
  delivers hd rest (plain_transfer contents n {| d_response := unsatisfiable_response keep total r; d_file := None; d_head_only := true |}) 416 [].
Proof.
  intros R T. assert (H : headed (Some (print_u 0)) 416 (unsatisfiable_response keep total r)).
  { apply headed_connection. 
    assert (headed None 416 (http_response_static_set_header (lit "content-range") (lit "bytes */" ++ print_u total)
      (http_response_static_set_header (lit "content-type") (lit "text/plain; charset=utf-8") (set_status_code 416 r)))) as [H S].
    { apply headed_header; [apply headed_header; [split; [by apply ready_status|done]|done..]|done|].
      unfold clean_value. rewrite mem_byte_app, (proj2 (print_u_clean total T)). done. }
    split; [|done]. exact (ready_length 0 _ H ltac:(lia)). }
  destruct H as [H S]. rewrite transfer_inline. eexists _, (received _ []). split_and!; [done|done| |exact S|done]. cbn [wire].
  destruct (rd_body _ _ H) as [-> ->]. cbn [default from_option id]. rewrite app_nil_r.
  destruct (hd || bodiless (status_code (unsatisfiable_response keep total r))) eqn:B; [by eapply read_empty; eauto; rewrite S|].
  by apply (read_counted hd _ [] rest); [|rewrite S|vm_compute|].
Qed.

Lemma delivers_inline rest contents n code r b : headed (Some (print_u (blen b))) code r -> 100 <= code <= 599 -> bodiless code = false ->
  b <> [] -> blen b < 2 ^ 63 ->
  delivers false rest (plain_transfer contents n {| d_response := response_set_body_bytes (Some b) r; d_file := None; d_head_only := true |})
    code b.
Proof.
  intros [R S] C B N L. destruct (inline_body r b N) as (V & Y & H). rewrite transfer_inline, V, Y, H. cbn [default from_option id].
  eexists _, (received r b). split_and!; [done|done| |done|done]. cbn [wire]. rewrite <- app_assoc.
  subst code. by apply read_counted; [| |lia|].
Qed.

Lemma delivers_slice rest contents n p first len code r : headed (Some (print_u len)) code r -> 100 <= code <= 599 -> bodiless code = false ->
  0 <= first -> 0 <= len -> first + len <= blen (contents p) < 2 ^ 63 -> len <= n ->
  delivers false rest (plain_transfer contents n {| d_response := r; d_file := Some (p, first, len); d_head_only := false |}) code
    (take (Z.to_nat len) (drop (Z.to_nat first) (contents p))).
Proof.
  intros [R S] C B F L I N. rewrite transfer_slice, Z.min_r by lia. set (b := take _ _).
  assert (E : blen b = len) by (unfold b, blen in *; rewrite length_take, length_drop; lia).
  eexists _, (received r b). split_and!; [done|done| |done|done]. cbn [wire]. rewrite <- app_assoc.
  subst code. apply read_counted; [by rewrite E|lia|lia|done].
Qed.

Lemma deliver_content rest contents n s file range r :
  servable s file -> contents (abs_path (cfg s)) = file -> blen file <= n -> blen file <> 0 ->
  range_inside (blen file) range -> range <> Unsatisfiable ->
  let len := match range with Part first last => u64 (last - first + 1) | _ => u64 (blen file) end in
  headed (Some (print_u len)) (answer_code false range) r ->
  delivers false rest (plain_transfer contents n
    match (if match range with Part _ _ => false | _ => true end && (u64 (blen file) <=? SEND_FILE_SLURP_THRESHOLD)
           then fs_slurp_fd file (u64 (blen file)) else None) with
    | Some b => {| d_response := response_set_body_bytes (Some b) r; d_file := None; d_head_only := true |}
    | None => {| d_response := r; d_file := Some (abs_path (cfg s), match range with Part first _ => first | _ => 0 end, len); d_head_only := false |}
    end) (answer_code false range) (answer_body file false range).
Proof.
  intros V P N NZ I U. assert (0 <= blen file < 2 ^ 63) as B by (pose proof (sv_bound _ _ V); unfold blen in *; lia).
  assert (E : u64 (blen file) = blen file) by (unfold u64; apply Z.mod_small; lia). rewrite E. intros len H.
  destruct range as [|first last|]; [| |done]; cbn [andb answer_body answer_code] in *.
  - destruct (blen file <=? SEND_FILE_SLURP_THRESHOLD).
    + rewrite slurp_file. apply delivers_inline; [done|lia|done|by intros ->|lia].
    + assert (W : file = take (Z.to_nat len) (drop (Z.to_nat 0) (contents (abs_path (cfg s))))).
      { rewrite P. unfold len, blen. rewrite Nat2Z.id. cbn. by rewrite firstn_all. }
      rewrite W at 1. apply delivers_slice; [done|lia|done|lia|unfold len; lia|rewrite P; unfold len; lia|unfold len; lia].
  - cbn [range_inside] in I. assert (L : len = last - first + 1) by (unfold len, u64; apply Z.mod_small; lia). rewrite L in *.
    rewrite <- P. apply delivers_slice; [done|lia|done|lia|lia|rewrite P; lia|lia].
Qed.

Lemma deliver_answer rest contents n s file (nm : bool) range r :
  servable s file -> contents (abs_path (cfg s)) = file -> blen file <= n ->
  range_inside (blen file) range -> range <> Unsatisfiable ->
  let len := if nm then 0 else match range with Part first last => u64 (last - first + 1) | _ => u64 (blen file) end in
  headed (if nm then None else Some (print_u len)) (answer_code nm range) r ->
  delivers (req_is_head (request s)) rest (plain_transfer contents n
    (if nm || req_is_head (request s) || (blen file =? 0)
     then {| d_response := r; d_file := Some (abs_path (cfg s), 0, 0); d_head_only := true |}
     else match (if match range with Part _ _ => false | _ => true end && (u64 (blen file) <=? SEND_FILE_SLURP_THRESHOLD)
                 then fs_slurp_fd file (u64 (blen file)) else None) with
          | Some b => {| d_response := response_set_body_bytes (Some b) r; d_file := None; d_head_only := true |}
          | None => {| d_response := r; d_file := Some (abs_path (cfg s), match range with Part first _ => first | _ => 0 end, len); d_head_only := false |}
          end)) (answer_code nm range) (if req_is_head (request s) then [] else answer_body file nm range).
Proof.
  intros V P N I U len H. assert (C : 100 <= answer_code nm range <= 599) by (destruct nm, range; cbn; lia).
  destruct nm; cbn [orb].
  { replace (if req_is_head _ then [] else _) with ([] : bytes) by by destruct (req_is_head _).
    eapply delivers_head_only; [done|done|]. left. cbn. apply orb_true_r. }
  destruct (req_is_head (request s)) eqn:HD; cbn [orb]; [eapply delivers_head_only; [done|done|by left]|].
  destruct (Z.eqb_spec (blen file) 0) as [E0|E0]; [|by apply deliver_content].
  destruct range as [|first last|]; [|cbn [range_inside] in I; lia|done].
  assert (file = []) as -> by by destruct file. eapply delivers_head_only; [done|done|by right].
Qed.

Lemma file_delivery (cal : calendar) (now : Z) (s : engine_state) (c : option http_static_cache_t) (d : delivery)
    (c' : option http_static_cache_t) (contents : bytes -> bytes) (n : Z) (rest : bytes) :
  servable s (contents (abs_path (cfg s))) ->
  engine_handle_stat cal now (contents (abs_path (cfg s))) s c = Some (d, c') ->
  blen (contents (abs_path (cfg s))) <= n ->
  exists code body, answer cal s (contents (abs_path (cfg s))) = Some (code, body) /\
    delivers (req_is_head (request s)) rest (plain_transfer contents n d) code body.
Proof.
  intros V E N. remember (contents (abs_path (cfg s))) as file eqn:F. pose proof V as [G Z B C R].
  assert (Bf : 0 <= blen file) by (unfold blen; lia).
  destruct (metadata_clean cal s c C) as (lm & ct & M & CE & CL & CT).
  unfold engine_handle_stat in E. rewrite G, M, Z in E. cbn [negb mbind option_bind] in E. fold (unmodified cal s) in E.
  unfold answer. destruct (unmodified cal s) as [nm|] eqn:U; [|done]. cbn [mbind option_bind] in *.
  destruct (match cache_view (cfg s) with Some _ => _ | None => _ end) as [c1|]; [|done]. cbn [mbind option_bind] in E.
  eexists _, _. split; [done|].
  pose proof (range_verdict_inside s (file_etag s) nm ltac:(lia)) as I. rewrite Z in I.
  destruct (decide (engine_range s (file_etag s) nm = Unsatisfiable)) as [ER|ER].
  { rewrite ER in *. injection E as <- <-. destruct nm; [done|]. cbn [answer_code answer_body].
    replace (if req_is_head _ then [] else []) with ([] : bytes) by by destruct (req_is_head _).
    apply delivers_unsatisfiable; [done|]. unfold u64. rewrite Z.mod_small; lia. }
  set (range := engine_range s (file_etag s) nm) in *.
  set (len := if nm then 0 else match range with Part first last => u64 (last - first + 1) | _ => u64 (blen file) end).
  assert (HH : headed (if nm then None else Some (print_u len)) (answer_code nm range)
                 (engine_headers s (file_etag s) lm (Some ct) nm range len)).
  { apply engine_headers_headed; try done; rewrite ?Z; [|lia|done]. unfold len, u64, range_inside in *.
    destruct nm, range; try lia; rewrite Z.mod_small; lia. }
  pose proof (deliver_answer rest contents n s file nm range _ V (eq_sym F) N I ER HH) as D.
  clearbody range. destruct range; [..|done]; injection E as <- <-; exact D.
Qed.


(** ** TLS *)

(** The events of a transfer over TLS, in any order. *)
Definition tls_transfer (contents : bytes -> bytes) (busy submitted : bool) (es : list h1_event) (d : delivery) : option h1_send_state_t :=
  x ← h1_stream_send_static_response contents true true busy submitted d;
  Some (foldl (fun x e => h1_send_dispatch e x) x es).

(** The same delivery from the start of the file. *)
Definition rewind (d : delivery) : delivery :=
  {| d_response := d_response d; d_file := (fun '(p, _, n) => (p, 0, n)) <$> d_file d; d_head_only := d_head_only d |}.

(** A transfer without content: only waits. *)
Definition waiting (w : bytes) (x : h1_send_state_t) : Prop :=
  wire x = w /\ (phase x = H1_SEND_PHASE_TLS_DRAIN \/ phase x = H1_SEND_PHASE_DONE) /\ head_only x = true.

Lemma waiting_step w e x : waiting w x -> waiting w (h1_send_dispatch e x).
Proof.
  intros (W & P & H). destruct e as [| |]; cbn [h1_send_dispatch].
  - destruct P as [P|P]; rewrite P; split_and!; auto.
  - unfold h1_send_tls_drain_done_cb. cbn [phase]. destruct P as [P|P]; rewrite P; [|split_and!; auto]. cbn [head_only].
    rewrite H. destruct closing; split_and!; cbn; auto.
  - destruct P as [P|P]; rewrite P; split_and!; auto.
Qed.

(** A transfer with content: what was sent is a prefix of the file, and all of it when the
    transfer succeeds. *)
Record sending (w f : bytes) (len : Z) (x : h1_send_state_t) : Prop := {
  sd_file : file x = f;
  sd_position : phase x <> H1_SEND_PHASE_DONE -> position x = bytes_sent x;
  sd_length : body_length x = len;
  sd_bounds : 0 <= bytes_sent x <= len;
  sd_inside : bytes_sent x <= blen f;
  sd_wire : wire x = w ++ take (Z.to_nat (bytes_sent x)) f;
  sd_open : phase x <> H1_SEND_PHASE_DONE -> outcome x = None;
  sd_whole : outcome x = Some 0 -> bytes_sent x = len;
  sd_kind : head_only x = false /\ phase x <> H1_SEND_PHASE_SENDFILE;
}.

Ltac sending_split := constructor; cbn in *; try done; try lia; auto; try congruence; try (split; congruence).

Lemma sending_fail w f len x : sending w f len x -> sending w f len (h1_send_finalize (-1) x).
Proof. intros [? ? ? ? ? ? ? ? [? ?]]. by sending_split. Qed.

Lemma sending_next w f len sub x : sending w f len x -> position x = bytes_sent x -> outcome x = None -> sending w f len (h1_send_tls_submit_next_read sub x).
Proof.
  intros [? _ L B ? ? _ ? [? ?]] P O. unfold h1_send_tls_submit_next_read. rewrite L.
  destruct (Z.leb_spec len (bytes_sent x)); [destruct (inflight x)|destruct sub]; sending_split.
Qed.

Lemma read_chunk_next w f len n x : sending w f len x -> phase x <> H1_SEND_PHASE_DONE ->
  let data := read_chunk n x in
  take (Z.to_nat (bytes_sent x)) f ++ data = take (Z.to_nat (bytes_sent x + blen data)) f /\
  0 <= blen data /\ bytes_sent x + blen data <= len /\ bytes_sent x + blen data <= blen f.
Proof.
  intros [F P L B I _ _ _ _] D. cbn zeta. unfold read_chunk. rewrite F, L, (P D). set (m := Z.to_nat (Z.min n _)).
  assert (M : (m <= Z.to_nat (len - bytes_sent x))%nat) by lia. clearbody m.
  unfold blen in *. rewrite length_take, length_drop.
  split; [|lia]. rewrite Z2Nat.inj_add, Nat2Z.id by lia.
  rewrite take_take_drop.
  destruct (decide (m <= length f - Z.to_nat (bytes_sent x))%nat); [by rewrite Nat.min_l by lia|].
  rewrite Nat.min_r by lia. rewrite !take_ge by lia. done.
Qed.

Lemma sending_step w f len e x : sending w f len x -> sending w f len (h1_send_dispatch e x).
Proof.
  intros X. pose proof X as [F P L B I W O Z [H K]]. destruct e as [n err closing enc busy sub|closing sub|n err]; cbn [h1_send_dispatch].
  - destruct (phase x) eqn:E; try done. specialize (O ltac:(done)). specialize (P ltac:(done)).
    destruct (read_chunk_next w f len n x X ltac:(by rewrite E)) as (N1 & N2 & N3 & N4). unfold h1_send_handle_tls_read_done.
    set (data := read_chunk n x) in *. fold (blen data).
    destruct (err || (blen data =? 0) || closing || negb enc); [by sending_split|].
    assert (Y : sending w f len (MkSend (file x) (position x + blen data) (body_offset x) (body_length x) (bytes_sent x + blen data)
                  (head_only x) (phase x) busy (wire x ++ data) (outcome x))).
    { sending_split. by rewrite W, <- app_assoc, N1. }
    destruct busy; [|apply sending_next; cbn; auto; lia]. destruct Y as [? ? ? ? ? ? ? ? [? ?]]. sending_split.
  - unfold h1_send_tls_drain_done_cb. cbn [phase].
    assert (Y : sending w f len (MkSend (file x) (position x) (body_offset x) (body_length x) (bytes_sent x) (head_only x) (phase x) false
                  (wire x) (outcome x))) by (destruct X as [? ? ? ? ? ? ? ? [? ?]]; by sending_split).
    destruct (phase x) eqn:E; try exact Y. specialize (O ltac:(done)). destruct closing; [by apply sending_fail|]. cbn [head_only body_length bytes_sent].
    rewrite H. cbn [orb]. destruct (Z.leb_spec (body_length x) (bytes_sent x)); [|apply sending_next; [done|cbn; apply P; rewrite ?E; done|done]].
    destruct Y as [? ? ? ? ? ? ? ? [? ?]]. sending_split.
  - by destruct (phase x).
Qed.

Lemma tls_waits w es x : waiting w x -> waiting w (foldl (fun x e => h1_send_dispatch e x) x es).
Proof. revert x. induction es as [|e es IH]; intros x X; [done|]. apply IH, waiting_step, X. Qed.

Lemma tls_sends w f len es x : sending w f len x -> sending w f len (foldl (fun x e => h1_send_dispatch e x) x es).
Proof. revert x. induction es as [|e es IH]; intros x X; [done|]. apply IH, sending_step, X. Qed.

(** A transfer over TLS that succeeds has written what plain HTTP/1 writes from the start of
    the file. *)
Lemma tls_as_plain contents busy submitted es d y :
  match d_file d with Some (p, _, n) => 0 <= n <= blen (contents p) | None => True end ->
  tls_transfer contents busy submitted es d = Some y -> outcome y = Some 0 ->
  exists z, plain_transfer contents (match d_file d with Some (_, _, n) => n | None => 0 end) (rewind d) = Some z /\ wire z = wire y.
Proof.
  destruct d as [r [[[p off] n]|] ho]; cbn [d_file rewind d_response d_head_only fmap option_fmap option_map]; intros B T O.
  - destruct ho.
    + unfold plain_transfer. eexists. split; [done|]. injection T as <-. cbn.
      edestruct (tls_waits (http_response_format_static_head r false) es) as (W & _); [|by rewrite W].
      by destruct busy; split_and!; cbn; auto.
    + change (rewind _) with {| d_response := r; d_file := Some (p, 0, n); d_head_only := false |}.
      rewrite transfer_slice. eexists. split; [done|]. injection T as <-. cbn [wire].
      edestruct (tls_sends (http_response_format_static_head r false) (contents p) n es) as [? ? ? ? ? W ? Z ?];
        [|rewrite W, (Z O), Z.min_id, static_head_lines, app_nil_r; cbn; by rewrite drop_0].
      cbn [head_only inflight andb orb]. destruct busy; [|apply sending_next; [|done..]]; sending_split;
        cbn; rewrite ?app_nil_r; done.
  - unfold plain_transfer. eexists. split; [done|]. injection T as <-. cbn. rewrite orb_true_r. cbn.
    edestruct (tls_waits (http_response_format_static_head r true) es) as (W & _); [|by rewrite W].
    by destruct busy; split_and!; cbn; auto.
Qed.

(** No range is sent: there is none in the request, or it is ignored or refused. *)
Definition no_part (cal : calendar) (s : engine_state) : Prop :=
  forall nm first last, unmodified cal s = Some nm -> engine_range s (file_etag s) nm <> Part first last.

Lemma engine_from_start cal now s c d c' file : servable s file -> no_part cal s ->
  engine_handle_stat cal now file s c = Some (d, c') ->
  rewind d = d /\ match d_file d with Some (p, _, n) => p = abs_path (cfg s) /\ 0 <= n <= blen file | None => True end.
Proof.
  intros [G Z B C R] NP E. assert (Bf : 0 <= blen file) by (unfold blen; lia).
  destruct (metadata_clean cal s c C) as (lm & ct & M & _).
  unfold engine_handle_stat in E. rewrite G, M, Z in E. cbn [negb mbind option_bind] in E. fold (unmodified cal s) in E.
  destruct (unmodified cal s) as [nm|] eqn:U; [|done]. cbn [mbind option_bind] in *. specialize (NP nm).
  destruct (match cache_view (cfg s) with Some _ => _ | None => _ end) as [c1|]; [|done]. cbn [mbind option_bind] in E.
  destruct (engine_range s (file_etag s) nm) as [|first last|]; [|by destruct (NP first last)|by injection E as <- <-].
  unfold u64 in E. rewrite Z.mod_small in E by lia.
  destruct (nm || _ || _); [injection E as <- <-; split; [done|]; cbn [d_file]; split; [done|lia]|].
  destruct (if _ && _ then _ else None); injection E as <- <-; [done|]. split; [done|]. cbn [d_file]. split; [done|]. destruct nm; lia.
Qed.

(** Over TLS the file is read in pieces that wait for each other and for the socket.  Whatever
    order the completions come in and whatever the sizes of the pieces, a transfer that reports
    success has given the client the whole answer, when that answer is not a range. *)
Theorem tls_file_received (cal : calendar) (now : Z) (s : engine_state) (c : option http_static_cache_t) (d : delivery)
    (c' : option http_static_cache_t) (contents : bytes -> bytes) (busy submitted : bool) (es : list h1_event)
    (y : h1_send_state_t) (rest : bytes) :
  servable s (contents (abs_path (cfg s))) -> no_part cal s ->
  engine_handle_stat cal now (contents (abs_path (cfg s))) s c = Some (d, c') ->
  tls_transfer contents busy submitted es d = Some y -> outcome y = Some 0 ->
  exists code body, answer cal s (contents (abs_path (cfg s))) = Some (code, body) /\
    delivers (req_is_head (request s)) rest (Some y) code body.
Proof.
  intros V NP E T O. destruct (engine_from_start _ _ _ _ _ _ _ V NP E) as [RW SH].
  destruct (tls_as_plain contents busy submitted es d y) as (z & PZ & W); [|done|done|].
  { destruct (d_file d) as [[[p o] n]|]; [|done]. by destruct SH as [-> ?]. }
  rewrite RW in PZ.
  destruct (file_delivery cal now s c d c' contents (blen (contents (abs_path (cfg s)))) rest V E ltac:(lia)) as (code & b & A & y' & resp & P & _ & RR & H).
  exists code, b. split; [done|]. exists y, resp. split_and!; [done|done| |apply H..].
  rewrite <- W. assert (z = y') as ->; [|done]. apply (inj Some). rewrite <- P, <- PZ. clear -SH V.
  destruct d as [r [[[p o] n]|] ho]; [|by destruct ho]. cbn [d_file] in *. unfold plain_transfer, h1_stream_send_static_response. cbn.
  destruct ho; [done|]. cbn. unfold h1_send_handle_sendfile_done. cbn. rewrite Z.min_id, Z.min_r by (destruct SH as [-> ?]; lia). done.
Qed.

(** ** A file of ten bytes *)

Definition new_year : HttpDate.tm :=
  {| HttpDate.tm_sec := 0; HttpDate.tm_min := 0; HttpDate.tm_hour := 0; HttpDate.tm_mday := 1; HttpDate.tm_mon := 0;
     HttpDate.tm_year := 124; HttpDate.tm_wday := 1 |}.
Definition demo_calendar : calendar := {| gmtime := fun _ => new_year; timegm := fun _ => 1704067200 |}.

Definition demo_stat (size ino : Z) : file_stat :=
  {| times := {| HttpRange.st_mtim_sec := 1704067200; HttpRange.st_mtim_nsec := 0; st_size := size; HttpRange.st_ino := ino |};
     is_regular := true; StaticCache.is_link := false; StaticCache.st_dev := 1; StaticCache.st_uid := 0 |}.

Definition demo_files (p : bytes) : bytes := lit "0123456789".

Definition demo_options : http_send_file_options_t :=
  {| content_type := None; disposition := 0; disposition_set := false; download_name := None; cache_control := None; etag := true;
     last_modified := true; accept_ranges := true; conditional := true; delete_after_send := false; precompressed := true;
     opt_status := 0 |}.

Definition demo_request (head : bool) (fields : list (bytes * bytes)) : request_view :=
  {| req_headers := Some (list_to_map (map (fun '(n, v) => (n, ZString v)) fields)); req_is_head := head; req_is_get := negb head;
     req_uri := None |}.

Definition demo_state (head : bool) (fields : list (bytes * bytes)) : engine_state :=
  {| cfg := sendfile_config demo_options (lit "/d/f.txt") None; request := demo_request head fields;
     response_obj := http_response_create; st := demo_stat 10 7; keep_alive := true |}.

Lemma demo_servable head fields : servable (demo_state head fields) (demo_files (lit "/d/f.txt")).
Proof.
  split; [done|done|done|by split|]. split; [|done|done|done]. split; [constructor|done|done|done].
Qed.

(** What the client reads: status, content range, content, and what is left over. *)
Definition client_view (head : bool) (x : option h1_send_state_t) : option (Z * list bytes * bytes * bytes) :=
  y ← x;
  '(r, rest) ← read_response head (wire y);
  Some (sl_status (c_status r), field_values (lit "content-range") (c_fields r), c_body r, rest).

Definition demo_delivery (head : bool) (fields : list (bytes * bytes)) : option delivery :=
  fst <$> engine_handle_stat demo_calendar 0 (demo_files []) (demo_state head fields) None.

Definition middle : list (bytes * bytes) := [(lit "range", lit "bytes=5-9")].

(** ** What goes wrong *)


(** An error page answers HEAD with its text, which the client takes for the start of the
    next response. *)
Theorem head_error_has_body :
  client_view true (plain_transfer demo_files 0 (engine_emit_error_via_op true 404 (lit "Not Found") http_response_create))
    = Some (404, [], [], lit "Not Found").
Proof. vm_compute. reflexivity. Qed.

(** ** Witnesses *)


Lemma demo_whole : no_part demo_calendar (demo_state false []).
Proof. intros nm first last H. vm_compute in H. injection H as <-. vm_compute. discriminate. Qed.

Lemma tls_file_received_witness : exists code b y,
  (d ← demo_delivery false []; tls_transfer demo_files true true [DrainDone false true] d) = Some y /\
  answer demo_calendar (demo_state false []) (demo_files (lit "/d/f.txt")) = Some (code, b) /\ delivers false [] (Some y) code b.
Proof.
  destruct (engine_handle_stat demo_calendar 0 (demo_files (lit "/d/f.txt")) (demo_state false []) None) as [[d c']|] eqn:E;
    [|vm_compute in E; discriminate].
  assert (D : demo_delivery false [] = Some d) by (unfold demo_delivery; change (demo_files []) with (demo_files (lit "/d/f.txt")); by rewrite E).
  assert (O : outcome <$> (d ← demo_delivery false []; tls_transfer demo_files true true [DrainDone false true] d) = Some (Some 0))
    by (vm_compute; reflexivity).
  rewrite D in *. cbn [mbind option_bind] in *. destruct (tls_transfer demo_files true true [DrainDone false true] d) as [y|] eqn:T; [|done].
  injection O as O.
  destruct (tls_file_received demo_calendar 0 (demo_state false []) None d c' demo_files true true [DrainDone false true] y [])
    as (code & b & A & H); [apply demo_servable|apply demo_whole|exact E|exact T|exact O|]. by exists code, b, y.
Defined.

End FileSendProps.
