(* ===== verification/StaticServeProps.v ===== *)
(** * Which files static mounts deliver

    Over any sequence of requests, changes of the file system and completions of the engine:
    what is delivered is a file that a mount of the server admitted.  The symlink policy of
    the mount that delivers it may have been that of another one. *)

From S2P Require Import Prelude HttpRange AcceptEncoding HttpDate HttpResponse HeaderTools StaticPath StaticCache FileSend StaticServe.

Module StaticServeProps.
Import StaticCache(file_stat, times, is_regular, is_link, http_static_cache_t) HttpRange(st_size, st_mtim_sec, st_ino).
Import Response FileSend StaticServe.

(** ** What the cache may hold *)

Section trust.
(** [P path]: the file may be delivered; [Q path b]: [b] is content of it. *)
Context (P : bytes -> Prop) (Q : bytes -> bytes -> Prop).

Record fair (i : StaticCache.item) : Prop := {
  fair_path : StaticCache.not_found i = false -> P (StaticCache.path_key i);
  fair_body : forall b, StaticCache.body i = Some b -> Q (StaticCache.path_key i) b;
}.

Definition trusted (c : http_static_cache_t) : Prop :=
  exists max ttl ids items, 0 <= max < 2 ^ 64 /\ StaticCache.repr max ttl c ids items /\ Forall fair items.

(** What an operation may bring into the cache. *)
Definition fair_op (o : StaticCache.op) : Prop :=
  match o with
  | StaticCache.Insert _ path _ _ _ _ => P path
  | StaticCache.Store path b => Q path b
  | _ => True
  end.

Definition fair_answer (o : StaticCache.op) (a : StaticCache.answer) : Prop :=
  match o, a with
  | StaticCache.Lookup _ path, StaticCache.Found (Some i) => P path
  | StaticCache.Probe _ path, StaticCache.Probed StaticCache.HTTP_STATIC_CACHE_PROBE_EXISTS => P path
  | StaticCache.Acquire path, StaticCache.Body (Some b) => Q path b
  | _, _ => True
  end.

Lemma fair_without path l : Forall fair l -> Forall fair (StaticCache.without path l).
Proof. rewrite !Forall_forall. intros L x H. apply L. by apply list_elem_of_filter in H as [_ H]. Qed.

Lemma fair_touch i l : fair i -> Forall fair l -> Forall fair (StaticCache.touch i l).
Proof. intros H L. constructor; [done|by apply fair_without]. Qed.

Lemma fair_put max i l : fair i -> Forall fair l -> Forall fair (StaticCache.put max i l).
Proof. intros H L. apply Forall_take. by apply fair_touch. Qed.

Lemma fair_store path b l : Q path b -> Forall fair l -> Forall fair (StaticCache.store_body path b l).
Proof.
  intros H L. unfold StaticCache.store_body. apply Forall_map. eapply Forall_impl; [exact L|]. intros i Hi. pose proof Hi as [Fp Fb]. cbn.
  destruct (eqb_bytes (StaticCache.path_key i) path) eqn:E; [|done]. apply eqb_bytes_eq in E.
  destruct (StaticCache.body i) eqn:EB; [done|]. destruct b; [done|]. split; cbn; [done|]. intros ? [= <-]. by rewrite E.
Qed.

Lemma find_item_fair path l i : StaticCache.find_item path l = Some i -> Forall fair l -> fair i /\ StaticCache.path_key i = path.
Proof.
  unfold StaticCache.find_item. intros F%List.find_some L. destruct F as [I E]. apply eqb_bytes_eq in E. split; [|done].
  rewrite Forall_forall in L. apply L. by apply list_elem_of_In.
Qed.

Lemma promise_fair max ttl o l : fair_op o -> Forall fair l ->
  fair_answer o (StaticCache.promise max ttl o l).1 /\ Forall fair (StaticCache.promise max ttl o l).2.
Proof.
  intros O L. destruct o as [now path|now path s ct et lm|now path|path|path b|now path|]; cbn [StaticCache.promise fair_op] in *.
  - case_if; [done|]. destruct (StaticCache.find_item path l) as [i|] eqn:F; [|done]. destruct (find_item_fair _ _ _ F L) as [Fi <-].
    destruct (StaticCache.not_found i) eqn:N; [done|]. case_if; cbn; [split; [done|by apply fair_without]|].
    split; [by apply (fair_path i)|by apply fair_touch].
  - case_if; [done|]. split; [done|]. apply fair_put; [|done]. by split.
  - case_if; [done|]. split; [done|]. apply fair_put; [|done]. by split.
  - split; [|done]. case_if; [done|]. cbn. destruct (StaticCache.find_item path l) as [i|] eqn:F; [|done].
    destruct (find_item_fair _ _ _ F L) as [Fi <-]. cbn. destruct (StaticCache.body i) eqn:B; [|done]. by apply (fair_body i).
  - case_if; [done|]. split; [done|]. by apply fair_store.
  - case_if; [done|]. destruct (StaticCache.find_item path l) as [i|] eqn:F; [|done]. destruct (find_item_fair _ _ _ F L) as [Fi <-].
    case_if; cbn; [split; [done|by apply fair_without]|]. split; [|done].
    destruct (StaticCache.not_found i) eqn:N; [done|]. by apply (fair_path i).
  - done.
Qed.

(** Every operation succeeds on a trusted cache and leaves it trusted. *)
Lemma exec_trusted o c : fair_op o -> trusted c ->
  exists a c', StaticCache.exec o c = Some (a, c') /\ fair_answer o a /\ trusted c'.
Proof.
  intros O (max & ttl & ids & items & M & R & F). destruct (StaticCache.exec_promise max ttl o c ids items M R) as (c' & ids' & E & R').
  destruct (promise_fair max ttl o items O F) as [A F']. eexists _, c'. split; [done|]. split; [done|]. exists max, ttl, ids', (StaticCache.promise max ttl o items).2. done.
Qed.

Lemma lookup_trusted now path c : trusted c -> exists v c', StaticCache.http_static_cache_lookup now path c = Some (v, c') /\
  trusted c' /\ match v with Some v => P path /\ is_Some (StaticCache.view_item v c') | None => True end.
Proof.
  intros T. destruct (exec_trusted (StaticCache.Lookup now path) c I T) as (a & c' & E & A & T'). cbn [StaticCache.exec] in E.
  destruct (StaticCache.http_static_cache_lookup now path c) as [[v c1]|]; [|done]. cbn [mbind option_bind] in E.
  destruct v as [v|]; [|injection E as <- <-; eauto]. destruct (StaticCache.view_item v c1) as [i|] eqn:V; [|done].
  injection E as <- <-. exists (Some v), c1. split; [done|]. split; [done|]. split; [done|by exists i].
Qed.

Lemma acquire_trusted path c : trusted c ->
  exists b, StaticCache.http_static_cache_body_acquire path c = Some b /\ match b with Some b => Q path b | None => True end.
Proof.
  intros T. destruct (exec_trusted (StaticCache.Acquire path) c I T) as (a & c' & E & A & T'). cbn [StaticCache.exec] in E.
  destruct (StaticCache.http_static_cache_body_acquire path c) as [b|]; [|done]. injection E as <- <-. eauto.
Qed.

Lemma store_trusted path b c : Q path b -> trusted c -> exists c', StaticCache.http_static_cache_body_store path b c = Some c' /\ trusted c'.
Proof.
  intros H T. destruct (exec_trusted (StaticCache.Store path b) c H T) as (a & c' & E & A & T'). cbn [StaticCache.exec] in E.
  destruct (StaticCache.http_static_cache_body_store path b c) as [c1|]; [|done]. injection E as <- <-. eauto.
Qed.

Lemma insert_trusted now path s ct et lm c : P path -> trusted c ->
  exists c', StaticCache.http_static_cache_insert now path s ct et lm c = Some c' /\ trusted c'.
Proof.
  intros H T. destruct (exec_trusted (StaticCache.Insert now path s ct et lm) c H T) as (a & c' & E & A & T'). cbn [StaticCache.exec] in E.
  destruct (StaticCache.http_static_cache_insert now path s ct et lm c) as [c1|]; [|done]. injection E as <- <-. eauto.
Qed.

Lemma negative_trusted now path c : trusted c ->
  exists c', StaticCache.http_static_cache_negative_insert now path c = Some c' /\ trusted c'.
Proof.
  intros T. destruct (exec_trusted (StaticCache.NegativeInsert now path) c I T) as (a & c' & E & A & T'). cbn [StaticCache.exec] in E.
  destruct (StaticCache.http_static_cache_negative_insert now path c) as [c1|]; [|done]. injection E as <- <-. eauto.
Qed.

Lemma probe_trusted now path c : trusted c ->
  exists p c', StaticCache.http_static_cache_probe now path c = Some (p, c') /\ trusted c'.
Proof.
  intros T. destruct (exec_trusted (StaticCache.Probe now path) c I T) as (a & c' & E & A & T'). cbn [StaticCache.exec] in E.
  destruct (StaticCache.http_static_cache_probe now path c) as [[p c1]|]; [|done]. injection E as <- <-. eauto.
Qed.

Lemma create_trusted max ttl : 0 <= max < 2 ^ 64 -> trusted (StaticCache.http_static_cache_create max ttl).
Proof.
  intros M. exists max, ttl, [], []. split; [done|]. split; [|constructor].
  assert (StaticCache.linked (StaticCache.http_static_cache_create max ttl) [] []) by (split; try done; apply NoDup_nil_2).
  split; try done; cbn; try lia; apply NoDup_nil_2 || apply dom_empty_L.
Qed.

(** ** Serving from a trusted cache *)

Definition trusted_opt (c : option http_static_cache_t) : Prop := match c with Some c => trusted c | None => True end.

(** What a result hands out: the path of the file the engine sends, or content. *)
Definition fair_result (r : http_static_result_t) : Prop :=
  match r with
  | HTTP_STATIC_HARD_ZERO (DeferStat s) => P (abs_path (cfg s))
  | HTTP_STATIC_HANDLED r => forall b, body_view r = Some b -> exists p, P p /\ Q p b
  | _ => True
  end.

Context `{StaticPath.Fnmatch} (cal : calendar) (fs : filesystem) (now : Z) (has_op keep : bool) (req : request_view).
Context (mounts : list mount_t).
Hypothesis admits : forall m p, m ∈ mounts -> admitted fs m p = true -> P p /\ forall n, Q p (take n (content fs p)).

Lemma select_loop_trusted mask ae path l c r : trusted_opt c -> select_loop fs now mask ae path l c = Some r -> trusted_opt r.2.
Proof.
  revert c r. induction l as [|k l IH]; intros c r T E; cbn [select_loop] in E; [by injection E as <-|].
  destruct (_ || _ || _); [by eapply IH|]. destruct c as [c|].
  - destruct (probe_trusted now (path ++ suffix k) c T) as (p & c' & EP & T'). rewrite EP in E. cbn [mbind option_bind] in E.
    destruct p; [|by injection E as <-|by eapply (IH (Some c'))]. destruct (is_file fs _); [by injection E as <-|].
    destruct (negative_trusted now (path ++ suffix k) c' T') as (c2 & EN & T2). rewrite EN in E. cbn [mbind option_bind] in E.
    by eapply (IH (Some c2)).
  - cbn [mbind option_bind] in E. destruct (is_file fs _); [by injection E as <-|]. by eapply (IH None).
Qed.

Lemma select_trusted mask path c r : trusted_opt c -> http_precompressed_select fs now req mask path c = Some r -> trusted_opt r.2.
Proof.
  intros T E. unfold http_precompressed_select in E. case_if_in E; [by injection E as <-|].
  destruct (http_request_find_header _ _); [|by injection E as <-]. by eapply select_loop_trusted.
Qed.

Lemma gate_trusted m path c r : m ∈ mounts -> trusted_opt c -> static_gate fs now m path c = Some r ->
  trusted_opt r.2 /\ (r.1.1 = true -> P path) /\
  match r.1.2 with Some v => P path /\ exists c', r.2 = Some c' /\ is_Some (StaticCache.view_item v c') | None => True end.
Proof.
  intros M T E. assert (A : admitted fs m path = true -> P path) by (intros H1; by destruct (admits m path M H1)).
  unfold static_gate in E. destruct c as [c|]; [|injection E as <-; by split_and!].
  destruct (lookup_trusted now path c T) as (v & c' & EL & T' & V). rewrite EL in E. injection E as <-. split; [done|].
  cbn. destruct v; [|done]. destruct V as [V1 V2]. split_and!; [done|done|]. by exists c'.
Qed.

Lemma extra_body_view extra b (r : http_response_object unit) :
  body_view (http_response_apply_extra_headers extra b r) = body_view r.
Proof.
  destruct extra as [l|]; [|done]. cbn. revert r. induction l as [|[[n|] x] l IH]; intros r; cbn [foldl]; [done|..]; rewrite IH; [|done].
  destruct x; [|done]. cbn [extra_header]. by case_if.
Qed.

Lemma header_opt_body_view n v (r : http_response_object unit) : body_view (header_opt n v r) = body_view r.
Proof. by destruct v. Qed.

Lemma not_modified_body_view m e lm r : body_view (static_emit_not_modified m e lm r) = body_view r.
Proof.
  unfold static_emit_not_modified, apply_mount_headers, static_emit_validators. by rewrite extra_body_view, !header_opt_body_view.
Qed.

Lemma ok_body_view m ct enc e lm r : body_view (static_emit_ok_headers m ct enc e lm r) = body_view r.
Proof.
  unfold static_emit_ok_headers, apply_mount_headers, static_emit_validators. rewrite extra_body_view, !header_opt_body_view.
  by destruct enc as [[|]|].
Qed.

Lemma error_fair code text : fair_result (HTTP_STATIC_HANDLED (http_response_emit_status_body code text http_response_create)).
Proof. intros b E. by destruct text as [[|]|]. Qed.

Lemma missing_fair m : fair_result (missing http_response_create m).
Proof. unfold missing. case_if; [done|apply error_fair]. Qed.

Lemma view_fair p x r : P p -> Q p x -> fair_result (HTTP_STATIC_HANDLED (http_response_static_set_body_view (Some x) r)).
Proof. intros HP HQ b E. destruct x; [done|]. injection E as <-. eauto. Qed.

Lemma empty_fair r : body_view r = None -> fair_result (HTTP_STATIC_HANDLED r).
Proof. intros E b. by rewrite E. Qed.

Lemma slurp_prefix f n b : fs_slurp_fd f n = Some b -> exists k, b = take k f.
Proof. unfold fs_slurp_fd. case_if; [intros [= <-]; by exists 0%nat|]. case_if; [done|]. intros [= <-]. eauto. Qed.

Ltac got E := apply (inj Some) in E; subst.

Lemma sync_fair m path inline ov enc c r : m ∈ mounts -> trusted_opt c ->
  serve_sync cal fs req http_response_create m path inline ov enc c = Some r -> fair_result r.1 /\ trusted_opt r.2.
Proof.
  intros M T E. unfold serve_sync in E. destruct (http_static_try_open_candidate fs m path) as [s|];
    [|got E; split; [apply missing_fair|done]].
  destruct (negb _ || negb _) eqn:A; [got E; split; [apply error_fair|done]|].
  apply orb_false_iff in A as [A1 A2]. apply negb_false_iff in A1, A2.
  destruct (admits m path M) as [HP HQ]; [by unfold admitted; rewrite A1, A2|].
  case_if_in E; [got E; split; [apply error_fair|done]|].
  destruct (condition _ _ _ _) as [nm|]; [|done]. cbn [mbind option_bind] in E.
  destruct nm; [got E; split; [apply empty_fair; by rewrite not_modified_body_view|done]|].
  destruct (req_is_get req); [|got E; split; [apply empty_fair; cbn; by rewrite ok_body_view|done]].
  destruct (fs_slurp_fd _ _) as [b|] eqn:SL; [|got E; split; [apply error_fair|done]].
  destruct (slurp_prefix _ _ _ SL) as [k ->].
  assert (G : forall x c1, trusted_opt c1 ->
     Some (HTTP_STATIC_HANDLED (http_response_static_set_body_view (Some (take k (content fs path))) x), c1) = Some r ->
     fair_result r.1 /\ trusted_opt r.2).
  { intros x c1 T1 E1. got E1. split; [|done]. by eapply view_fair. }
  destruct c as [c|]; [destruct inline|]; [|by eapply G..].
  destruct (store_trusted path (take k (content fs path)) c (HQ k) T) as (c1 & ES & T1). rewrite ES in E. cbn [mbind option_bind] in E.
  by eapply (G _ (Some c1)).
Qed.

Lemma send_file_fair k r : P (abs_path k) ->
  match send_file fs has_op keep r http_response_create k with SEND_FILE_ASYNC d _ => fair_result (HTTP_STATIC_HARD_ZERO d) | _ => True end.
Proof.
  intros HP. unfold send_file. destruct (_ || _ || _); [done|]. destruct (open_file _ _ _); [done|].
  unfold engine_handle_open_failure. by destruct (on_error k).
Qed.

(** The cached body, when there is one. *)
Lemma cached_fair m path view c inline ov enc r :
  P path -> trusted c -> is_Some (StaticCache.view_item view c) ->
  (if inline : bool then
     b ← StaticCache.http_static_cache_body_acquire path c;
     match b with
     | Some b => i ← StaticCache.view_item view c; r ← serve_cached cal req http_response_create m i b ov enc; Some (Some r)
     | None => Some None
     end
   else Some None) = Some r -> match r with Some r => fair_result r | None => True end.
Proof.
  intros HP T [i V] E. destruct inline; [|by got E]. destruct (acquire_trusted path c T) as (b & EB & HB). rewrite EB in E. cbn [mbind option_bind] in E.
  destruct b as [b|]; [|by got E]. rewrite V in E. cbn [mbind option_bind] in E. unfold serve_cached in E.
  destruct (condition _ _ _ _) as [nm|]; [|done]. cbn [mbind option_bind] in E. got E.
  destruct nm; [apply empty_fair; by rewrite not_modified_body_view|]. by eapply view_fair.
Qed.

Lemma serve_file_fair m path c r : m ∈ mounts -> trusted_opt c ->
  serve_file cal fs now has_op keep req http_response_create m path c = Some r -> fair_result r.1 /\ trusted_opt r.2.
Proof.
  intros M T E. unfold serve_file in E.
  destruct (if mount_precomp_mask m =? 0 then _ else _) as [[picked c1]|] eqn:ES; [|done]. cbn [mbind option_bind] in E.
  assert (T1 : trusted_opt c1) by (case_if_in ES; [by injection ES as <- <-|by eapply (select_trusted _ _ _ _ T) in ES]).
  destruct (match picked with Some _ => _ | None => _ end) as [[path' enc] ov].
  destruct (static_gate fs now m path' c1) as [[[gate view] c2]|] eqn:EG; [|done]. cbn [mbind option_bind] in E.
  destruct (gate_trusted m path' c1 _ M T1 EG) as (T2 & G1 & G2). cbn [fst snd] in *.
  set (inline := match view with Some _ => _ | None => false end) in E.
  destruct (match view with Some _ => _ | None => Some None end) as [cached|] eqn:EC; [|done]. cbn [mbind option_bind] in E.
  assert (FC : match cached with Some r => fair_result r | None => True end).
  { destruct view as [v|]; [|by got EC]. destruct G2 as (HP & c3 & -> & HV). by eapply cached_fair. }
  destruct cached as [x|]; [got E; by split|].
  destruct (negb inline && gate && has_op) eqn:EN; [|by eapply sync_fair].
  assert (HP : P path') by (apply G1; by destruct gate; [|rewrite andb_false_r in EN]).
  pose proof (send_file_fair (mount_config m path' view ov enc) req HP) as HS.
  destruct (send_file _ _ _ _ _ _); [got E; by split|by eapply sync_fair|got E; by split].
Qed.

Lemma try_mounts_fair l uri c r : l ⊆ mounts -> trusted_opt c ->
  try_mounts cal fs now has_op keep req http_response_create l uri c = Some r -> fair_result r.1 /\ trusted_opt r.2.
Proof.
  induction l as [|m l IH]; intros L T E; cbn [try_mounts] in E; [by got E|].
  assert (M : m ∈ mounts) by (apply L; left). assert (L' : l ⊆ mounts) by (intros x Hx; apply L; by right).
  destruct (StaticPath.http_static_path_resolve (handler m) uri StaticPath.MAXPATHLEN) as [path rel|e].
  - case_if_in E; [got E; split; [apply missing_fair|done]|].
    case_if_in E; [|by eapply serve_file_fair]. destruct (index_loop _ _ _); [by eapply serve_file_fair|].
    got E. split; [apply missing_fair|done].
  - destruct e; try (got E; split; [apply error_fair || apply missing_fair|done]). by apply IH.
Qed.

Lemma serve_mounts_fair c r : trusted_opt c ->
  http_static_try_serve_mounts cal fs now has_op keep req http_response_create mounts c = Some r -> fair_result r.1 /\ trusted_opt r.2.
Proof.
  intros T E. unfold http_static_try_serve_mounts in E. case_if_in E; [by got E|].
  destruct (req_uri req) as [[|? ?]|]; [by got E| |by got E]. by eapply try_mounts_fair.
Qed.

(** The engine puts only the path it sends into the cache. *)
Lemma engine_trusted file s c r : P (abs_path (cfg s)) -> trusted_opt c -> engine_handle_stat cal now file s c = Some r -> trusted_opt r.2.
Proof.
  intros HP T E. unfold engine_handle_stat in E. case_if_in E; [by got E|].
  destruct (engine_metadata cal s c) as [[[et lm] ct]|]; [|done]. cbn [mbind option_bind] in E.
  destruct (if cfg_conditional (cfg s) then _ else _) as [nm|]; [|done]. cbn [mbind option_bind] in E.
  destruct (match cache_view (cfg s) with Some _ => _ | None => _ end) as [c1|] eqn:EC; [|done]. cbn [mbind option_bind] in E.
  assert (T1 : trusted_opt c1).
  { destruct (cache_view (cfg s)); [by got EC|]. destruct c as [c|]; [|by got EC]. case_if_in EC; [|by got EC].
    destruct (insert_trusted now (abs_path (cfg s)) (st s) ct et (if cfg_last_modified (cfg s) then Some lm else None) c HP T) as (c2 & E2 & T2).
    rewrite E2 in EC. cbn [mbind option_bind] in EC. by got EC. }
  destruct (engine_range s et nm); by got E.
Qed.

End trust.

(** ** A server over time *)

Section server.
Context `{StaticPath.Fnmatch} (cal : calendar) (mounts : list mount_t).

(** A request, answered from the file system of the moment, and the timer tick of a file that
    was opened, with the bytes its descriptor reads. *)
Inductive event :=
  | Request (fs : filesystem) (now : Z) (has_op keep : bool) (req : request_view)
  | Tick (now : Z) (file : bytes) (k : nat).

Inductive output := Answered (r : http_static_result_t) | Sent (path : bytes) (d : delivery).

Record server_state := { cache : option http_static_cache_t; pending : list engine_state }.

Definition opened (r : http_static_result_t) : list engine_state :=
  match r with HTTP_STATIC_HARD_ZERO (DeferStat s) => [s] | _ => [] end.

Definition step (e : event) (s : server_state) : option (output * server_state) :=
  match e with
  | Request fs now has_op keep req =>
      '(r, c) ← http_static_try_serve_mounts cal fs now has_op keep req http_response_create mounts (cache s);
      Some (Answered r, {| cache := c; pending := pending s ++ opened r |})
  | Tick now file k =>
      x ← pending s !! k;
      '(d, c) ← engine_handle_stat cal now file x (cache s);
      Some (Sent (abs_path (cfg x)) d, {| cache := c; pending := pending s |})
  end.

Fixpoint run (es : list event) (s : server_state) : option (list output * server_state) :=
  match es with
  | [] => Some ([], s)
  | e :: es => '(o, s) ← step e s; '(os, s) ← run es s; Some (o :: os, s)
  end.

Definition filesystems (es : list event) : list filesystem :=
  omap (fun e => match e with Request fs _ _ _ _ => Some fs | Tick _ _ _ => None end) es.

(** Admitted by a mount of the server, at one of these moments. *)
Definition admitted_in (fss : list filesystem) (p : bytes) : Prop :=
  exists fs m, fs ∈ fss /\ m ∈ mounts /\ admitted fs m p = true.
Definition content_in (fss : list filesystem) (p b : bytes) : Prop :=
  exists fs m n, fs ∈ fss /\ m ∈ mounts /\ admitted fs m p = true /\ b = take n (content fs p).

Definition fair_output (fss : list filesystem) (o : output) : Prop :=
  match o with
  | Answered r => fair_result (admitted_in fss) (content_in fss) r
  | Sent path _ => admitted_in fss path
  end.

Definition fair_state (fss : list filesystem) (s : server_state) : Prop :=
  trusted_opt (admitted_in fss) (content_in fss) (cache s) /\ Forall (fun x => admitted_in fss (abs_path (cfg x))) (pending s).

Lemma step_fair fss e s o s' : filesystems [e] ⊆ fss -> fair_state fss s -> step e s = Some (o, s') -> fair_output fss o /\ fair_state fss s'.
Proof.
  intros F [T A] E. destruct e as [fs now has_op keep req|now file k]; cbn [step] in E.
  - destruct (http_static_try_serve_mounts _ _ _ _ _ _ _ _ _) as [[r c]|] eqn:R; [|done]. cbn [mbind option_bind] in E. injection E as <- <-.
    assert (HF : fs ∈ fss) by (apply F; left).
    destruct (serve_mounts_fair (admitted_in fss) (content_in fss) cal fs now has_op keep req mounts) with (c := cache s) (r := (r, c)) as [FR T'];
      [|done|done|].
    { intros m p M AD. split; [by exists fs, m|]. intros n. by exists fs, m, n. }
    split; [done|]. split; [done|]. cbn. apply Forall_app. split; [done|]. destruct r as [| |[|x]]; try constructor; done.
  - destruct (pending s !! k) as [x|] eqn:X; [|done]. cbn [mbind option_bind] in E.
    destruct (engine_handle_stat _ _ _ _ _) as [[d c]|] eqn:R; [|done]. cbn [mbind option_bind] in E. injection E as <- <-.
    pose proof (Forall_lookup_1 _ _ _ _ A X) as HX. split; [done|]. split; [|done].
    by apply (engine_trusted (admitted_in fss) (content_in fss) cal now file x (cache s) (d, c)).
Qed.

Lemma run_fair fss es s os s' : filesystems es ⊆ fss -> fair_state fss s -> run es s = Some (os, s') -> Forall (fair_output fss) os.
Proof.
  revert s os s'. induction es as [|e es IH]; intros s os s' F S E; cbn [run] in E; [injection E as <- <-; constructor|].
  destruct (step e s) as [[o s1]|] eqn:ES; [|done]. cbn [mbind option_bind] in E.
  destruct (run es s1) as [[os1 s2]|] eqn:ER; [|done]. injection E as <- <-.
  assert (F1 : filesystems [e] ⊆ fss /\ filesystems es ⊆ fss).
  { unfold filesystems in *. destruct e; cbn in *; set_solver. }
  destruct (step_fair fss e s o s1) as [FO S1]; [apply F1|done|done|]. constructor; [done|]. by eapply IH; [apply F1|..].
Qed.

(** C10: Whatever requests come, in whatever order the engine finishes them and however the files
    change in between, the server's mounts deliver nothing but files a mount admitted: the
    content of every answer was read from, and every file the engine sends was opened at, a path
    that a symlink policy let pass and that resolved inside the mount's root when it was checked,
    also when the answer comes from the cache. *)
Theorem static_files_admitted (max ttl : Z) (es : list event) (os : list output) (s' : server_state) :
  0 <= max < 2 ^ 64 ->
  run es {| cache := Some (StaticCache.http_static_cache_create max ttl); pending := [] |} = Some (os, s') ->
  Forall (fair_output (filesystems es)) os.
Proof.
  intros M E. apply (run_fair (filesystems es) es) in E; [done|done|]. split; [|constructor]. by apply create_trusted.
Qed.
End server.

(** ** A site with a link *)

(** [/r/a.txt] is a link to [/r/b.txt]. *)
Definition file_b : file_stat :=
  {| times := {| HttpRange.st_mtim_sec := 1704067200; HttpRange.st_mtim_nsec := 0; st_size := 5; st_ino := 7 |};
     is_regular := true; is_link := false; StaticCache.st_dev := 1; StaticCache.st_uid := 0 |}.
Definition link_a : file_stat :=
  {| times := {| HttpRange.st_mtim_sec := 1704067200; HttpRange.st_mtim_nsec := 0; st_size := 8; st_ino := 8 |};
     is_regular := false; is_link := true; StaticCache.st_dev := 1; StaticCache.st_uid := 0 |}.

Definition site : filesystem :=
  {| lstat := fun p => if eqb_bytes p (lit "/r/a.txt") then Some link_a else if eqb_bytes p (lit "/r/b.txt") then Some file_b else None;
     stat := fun p => if eqb_bytes p (lit "/r/a.txt") || eqb_bytes p (lit "/r/b.txt") then Some file_b else None;
     realpath := fun p => if eqb_bytes p (lit "/r/a.txt") || eqb_bytes p (lit "/r/b.txt") then Some (lit "/r/b.txt") else None;
     readable := fun _ => true;
     content := fun _ => lit "hello" |}.

Definition some_date : HttpDate.tm :=
  {| HttpDate.tm_sec := 0; HttpDate.tm_min := 0; HttpDate.tm_hour := 0; HttpDate.tm_mday := 1; HttpDate.tm_mon := 0;
     HttpDate.tm_year := 124; HttpDate.tm_wday := 1 |}.
Definition some_calendar : calendar := {| gmtime := fun _ => some_date; timegm := fun _ => 1704067200 |}.

#[local] Instance no_globs : StaticPath.Fnmatch := fun _ _ => false.

Definition mount (prefix : bytes) (fl : Z) : mount_t :=
  {| handler := {| StaticPath.url_prefix := prefix; StaticPath.root_directory := lit "/r"; StaticPath.flags := fl; StaticPath.hide_globs := [] |};
     index_files := []; mount_cache_control := None; mount_extra_headers := None; mount_mime_overrides := None |}.
Definition following : mount_t := mount (lit "/open/") HTTP_STATIC_FLAG_ETAG.
Definition rejecting : mount_t := mount (lit "/closed/") HTTP_STATIC_FLAG_SYMLINKS_REJECT.

Definition get (uri : bytes) : request_view := {| req_headers := Some ∅; req_is_head := false; req_is_get := true; req_uri := Some uri |}.
Definition ask (uri : bytes) : event := Request site 0 true true (get uri).
Definition tick (k : nat) : event := Tick 0 (lit "hello") k.

(** The status and the content of each output, or the file that the engine opened. *)
Definition seen (o : output) : Z * bytes :=
  match o with
  | Answered (HTTP_STATIC_HANDLED r) => (status_code r, default (default [] (body r)) (body_view r))
  | Answered (HTTP_STATIC_HARD_ZERO (DeferStat s)) => (0, abs_path (cfg s))
  | Answered _ => (0, [])
  | Sent _ d => (status_code (d_response d), default [] (body (d_response d)))
  end.

Definition history (mounts : list mount_t) (es : list event) : option (list (Z * bytes)) :=
  '(os, _) ← run some_calendar mounts es {| cache := Some (StaticCache.http_static_cache_create 16 60); pending := [] |};
  Some (map seen os).

(** A mount that follows symbolic links delivers a small linked file once and then, while the
    file is in the cache, answers 404 for it: the synchronous path compares the inode of the
    open file with that of the link. *)
Theorem static_symlink_lost_on_hit :
  history [following] [ask (lit "/open/a.txt"); tick 0; ask (lit "/open/a.txt"); ask (lit "/open/b.txt")]
    = Some [(0, lit "/r/a.txt"); (200, lit "hello"); (404, lit "Not Found"); (0, lit "/r/b.txt")].
Proof. vm_compute. reflexivity. Qed.

(** The cache is shared by the mounts and a hit stands for the checks: a HEAD, a range request
    or a large file goes to the engine without the policy of the mount.  A mount that checks the
    owner of links refuses the link, and lets it pass once another mount has delivered it. *)
Theorem static_hit_skips_symlink_policy :
  let owner := mount (lit "/owned/") HTTP_STATIC_FLAG_SYMLINKS_OWNER in
  let foreign := {| lstat := fun p => if eqb_bytes p (lit "/r/a.txt") then Some {| times := times link_a; is_regular := false; is_link := true;
                                          StaticCache.st_dev := 1; StaticCache.st_uid := 1000 |} else lstat site p;
                    stat := stat site; realpath := realpath site; readable := readable site; content := content site |} in
  let head uri := Request foreign 0 true true {| req_headers := Some ∅; req_is_head := true; req_is_get := false; req_uri := Some uri |} in
  admitted foreign owner (lit "/r/a.txt") = false /\
  history [following; owner] [head (lit "/owned/a.txt")] = Some [(404, lit "Not Found")] /\
  history [following; owner] [head (lit "/open/a.txt"); tick 0; head (lit "/owned/a.txt"); tick 1]
    = Some [(0, lit "/r/a.txt"); (200, []); (0, lit "/r/a.txt"); (200, [])].
Proof. split; [vm_compute; reflexivity|]. split; vm_compute; reflexivity. Qed.

(** ** Witness *)

Lemma static_files_admitted_witness : exists os s',
  run some_calendar [rejecting] [ask (lit "/closed/b.txt"); tick 0; ask (lit "/closed/b.txt"); ask (lit "/closed/a.txt")]
    {| cache := Some (StaticCache.http_static_cache_create 16 60); pending := [] |} = Some (os, s') /\
  map seen os = [(0, lit "/r/b.txt"); (200, lit "hello"); (200, lit "hello"); (404, lit "Not Found")] /\
  Forall (fair_output [rejecting] [site; site; site]) os.
Proof.
  destruct (run some_calendar [rejecting] [ask (lit "/closed/b.txt"); tick 0; ask (lit "/closed/b.txt"); ask (lit "/closed/a.txt")]
    {| cache := Some (StaticCache.http_static_cache_create 16 60); pending := [] |}) as [[os s']|] eqn:E; [|vm_compute in E; discriminate].
  exists os, s'. split; [done|]. split.
  - assert (history [rejecting] [ask (lit "/closed/b.txt"); tick 0; ask (lit "/closed/b.txt"); ask (lit "/closed/a.txt")]
      = Some [(0, lit "/r/b.txt"); (200, lit "hello"); (200, lit "hello"); (404, lit "Not Found")]) as Hh by (vm_compute; reflexivity).
    unfold history in Hh. rewrite E in Hh. by injection Hh.
  - apply (static_files_admitted some_calendar [rejecting] 16 60 _ os s' ltac:(lia) E).
Defined.

End StaticServeProps.
