(* ===== verification/Admission.v ===== *)
(** * Admission and drain of a server

    Models, of src/src/http_server_class.c, the accept callback, the pause and resume of the
    listeners by the connection cap and by CoDel, the shedding of requests and the drain of
    connections, with the parts of [http_connection_spawn] and [http_connection_destroy]
    (src/src/core/http_connection.c) that count connections and hold the server.

    Times are nanoseconds of [zend_hrtime] and of the coarse clock, arguments of the operations
    that read them. *)

From S2P Require Import Prelude.

Module Admission.

Definition CODEL_INTERVAL_NS : Z := 100 * 1000000.
Definition BACKPRESSURE_PAUSE_LOW_RATIO : Z := 80.

Record codel_t := MkCodel { target_ns : Z; window_start_ns : Z; min_sojourn_ns : Z; first_above_target_ns : Z }.

Record drain_t := MkDrain {
  last_fired_ns : Z;
  cooldown_ns : Z;
  max_connection_age_ns : Z;
  epoch_current : Z;
  cooldown_blocked_total : Z;
  events_reactive_total : Z;
  drained_reactive_total : Z;
  drained_proactive_total : Z;
}.

Record samples_t := MkSamples { sojourn_sum_ns : Z; service_sum_ns : Z; sojourn_max_ns : Z; sojourn_samples : Z }.

Record pauses_t := MkPauses { pause_count_total : Z; codel_trips_total : Z; paused_since_ns : Z; paused_total_ns : Z }.

(** The drain state of a connection. *)
Record conn_t := MkConn { drain_pending : bool; drain_not_before_ns : Z; drain_epoch_seen : Z }.

(** [listeners]: which listen events are in the poll set; [conns]: the connections that hold
    the server; [freed]: its last reference is gone. *)
Record http_server_object := MkServer {
  listeners : list bool;
  listeners_paused : bool;
  active_connections : Z;
  max_connections : Z;
  pause_high : Z;
  pause_low : Z;
  max_inflight_requests : Z;
  active_requests : Z;
  codel : codel_t;
  drain : drain_t;
  samples : samples_t;
  pauses : pauses_t;
  refcount : Z;
  freed : bool;
  conns : gmap nat conn_t;
  next_conn : nat;
}.

Section setters.
Variable s : http_server_object.

Definition set_listeners (l : list bool) (paused : bool) : http_server_object :=
  MkServer l paused (active_connections s) (max_connections s) (pause_high s) (pause_low s) (max_inflight_requests s) (active_requests s)
    (codel s) (drain s) (samples s) (pauses s) (refcount s) (freed s) (conns s) (next_conn s).
Definition set_active (n : Z) : http_server_object :=
  MkServer (listeners s) (listeners_paused s) n (max_connections s) (pause_high s) (pause_low s) (max_inflight_requests s) (active_requests s)
    (codel s) (drain s) (samples s) (pauses s) (refcount s) (freed s) (conns s) (next_conn s).
Definition set_requests (n : Z) : http_server_object :=
  MkServer (listeners s) (listeners_paused s) (active_connections s) (max_connections s) (pause_high s) (pause_low s) (max_inflight_requests s) n
    (codel s) (drain s) (samples s) (pauses s) (refcount s) (freed s) (conns s) (next_conn s).
Definition set_codel (c : codel_t) : http_server_object :=
  MkServer (listeners s) (listeners_paused s) (active_connections s) (max_connections s) (pause_high s) (pause_low s) (max_inflight_requests s)
    (active_requests s) c (drain s) (samples s) (pauses s) (refcount s) (freed s) (conns s) (next_conn s).
Definition set_drain (d : drain_t) : http_server_object :=
  MkServer (listeners s) (listeners_paused s) (active_connections s) (max_connections s) (pause_high s) (pause_low s) (max_inflight_requests s)
    (active_requests s) (codel s) d (samples s) (pauses s) (refcount s) (freed s) (conns s) (next_conn s).
Definition set_samples (t : samples_t) : http_server_object :=
  MkServer (listeners s) (listeners_paused s) (active_connections s) (max_connections s) (pause_high s) (pause_low s) (max_inflight_requests s)
    (active_requests s) (codel s) (drain s) t (pauses s) (refcount s) (freed s) (conns s) (next_conn s).
Definition set_pauses (t : pauses_t) : http_server_object :=
  MkServer (listeners s) (listeners_paused s) (active_connections s) (max_connections s) (pause_high s) (pause_low s) (max_inflight_requests s)
    (active_requests s) (codel s) (drain s) (samples s) t (refcount s) (freed s) (conns s) (next_conn s).
Definition set_refcount (n : Z) (f : bool) : http_server_object :=
  MkServer (listeners s) (listeners_paused s) (active_connections s) (max_connections s) (pause_high s) (pause_low s) (max_inflight_requests s)
    (active_requests s) (codel s) (drain s) (samples s) (pauses s) n f (conns s) (next_conn s).
Definition set_conns (m : gmap nat conn_t) (n : nat) : http_server_object :=
  MkServer (listeners s) (listeners_paused s) (active_connections s) (max_connections s) (pause_high s) (pause_low s) (max_inflight_requests s)
    (active_requests s) (codel s) (drain s) (samples s) (pauses s) (refcount s) (freed s) m n.
End setters.

(** ** Starting *)

(** The thresholds; [max_connections] is a C [int]. *)
Definition thresholds (max : Z) : Z * Z :=
  if 0 <? max then
    let low := max * BACKPRESSURE_PAUSE_LOW_RATIO / 100 in
    (max, if max <=? low then if 0 <? max then max - 1 else 0 else low)
  else (0, 0).

Definition inflight_limit (configured max : Z) : Z := if (configured =? 0) && (0 <? max) then max * 10 else configured.

Record knobs := { k_max_connections : Z; k_inflight : Z; k_target_ms : Z; k_age_ms : Z; k_cooldown_ms : Z }.

Definition start (n : nat) (k : knobs) : http_server_object :=
  let max := k_max_connections k in
  MkServer (replicate n true) false 0 max (fst (thresholds max)) (snd (thresholds max)) (inflight_limit (k_inflight k) max) 0
    (MkCodel (k_target_ms k * 1000000) 0 0 0) (MkDrain 0 (k_cooldown_ms k * 1000000) (k_age_ms k * 1000000) 0 0 0 0 0)
    (MkSamples 0 0 0 0) (MkPauses 0 0 0 0) 1 false ∅ 0.

(** ** Drain *)

Definition http_server_trigger_drain (coarse : Z) (s : http_server_object) : http_server_object :=
  let d := drain s in
  set_drain s
    (if (0 <? cooldown_ns d) && negb (last_fired_ns d =? 0) && (u64 (coarse - last_fired_ns d) <? cooldown_ns d)
     then MkDrain (last_fired_ns d) (cooldown_ns d) (max_connection_age_ns d) (epoch_current d) (u64 (cooldown_blocked_total d + 1))
            (events_reactive_total d) (drained_reactive_total d) (drained_proactive_total d)
     else MkDrain coarse (cooldown_ns d) (max_connection_age_ns d) (u64 (epoch_current d + 1)) (cooldown_blocked_total d)
            (u64 (events_reactive_total d + 1)) (drained_reactive_total d) (drained_proactive_total d)).

Definition proactive (now : Z) (c : conn_t) (d : drain_t) : bool :=
  negb (drain_pending c) && (0 <? max_connection_age_ns d) && negb (drain_not_before_ns c =? UINT64_MAX) && (drain_not_before_ns c <=? now).

Definition count_drained (pro re : bool) (d : drain_t) : drain_t :=
  MkDrain (last_fired_ns d) (cooldown_ns d) (max_connection_age_ns d) (epoch_current d) (cooldown_blocked_total d) (events_reactive_total d)
    (if re then u64 (drained_reactive_total d + 1) else drained_reactive_total d)
    (if pro then u64 (drained_proactive_total d + 1) else drained_proactive_total d).

(** Whether to drain now, and the new state of the connection. *)
Definition http_server_drain_evaluate (now : Z) (c : conn_t) (s : http_server_object) : bool * conn_t * http_server_object :=
  let d := drain s in
  let pro := proactive now c d in
  let pending := drain_pending c || pro in
  let newer := drain_epoch_seen c <? epoch_current d in
  let re := newer && negb pending in
  let c' := {| drain_pending := pending || newer;
               drain_not_before_ns := if re then now else drain_not_before_ns c;
               drain_epoch_seen := if newer then epoch_current d else drain_epoch_seen c |} in
  (drain_pending c' && negb (drain_not_before_ns c' =? UINT64_MAX) && (drain_not_before_ns c' <=? now), c',
   set_drain s (count_drained pro re d)).

(** [None] for a connection that is gone. *)
Definition http_server_should_drain_now (id : nat) (now : Z) (s : http_server_object) : option (bool * http_server_object) :=
  c ← conns s !! id;
  let '(b, c', s) := http_server_drain_evaluate now c s in
  Some (b, set_conns s (<[id := c']> (conns s)) (next_conn s)).

(** ** Pause and resume *)

Definition http_server_pause_listeners (drain_connections : bool) (hr coarse : Z) (s : http_server_object) : http_server_object :=
  if listeners_paused s then s
  else
    let s := set_listeners s (map (fun _ => false) (listeners s)) true in
    let p := pauses s in
    let s := set_pauses s (MkPauses (u64 (pause_count_total p + 1)) (codel_trips_total p) hr (paused_total_ns p)) in
    if drain_connections then http_server_trigger_drain coarse s else s.

Definition http_server_resume_listeners (hr : Z) (s : http_server_object) : http_server_object :=
  if negb (listeners_paused s) then s
  else
    let s := set_listeners s (map (fun _ => true) (listeners s)) false in
    let p := pauses s in
    let s := if negb (paused_since_ns p =? 0)
             then set_pauses s (MkPauses (pause_count_total p) (codel_trips_total p) 0 (u64 (paused_total_ns p + u64 (hr - paused_since_ns p))))
             else s in
    set_codel s (MkCodel (target_ns (codel s)) 0 0 0).

(** ** CoDel *)

Definition http_server_aggregate_sample (sojourn service : Z) (s : http_server_object) : http_server_object :=
  let t := samples s in
  set_samples s (MkSamples (u64 (sojourn_sum_ns t + sojourn)) (u64 (service_sum_ns t + service))
                   (if sojourn_max_ns t <? sojourn then sojourn else sojourn_max_ns t) (u64 (sojourn_samples t + 1))).

(** The window of a sample. *)
Definition codel_window (sojourn now : Z) (c : codel_t) : codel_t :=
  if (window_start_ns c =? 0) || (CODEL_INTERVAL_NS <=? u64 (now - window_start_ns c))
  then MkCodel (target_ns c) now sojourn (first_above_target_ns c)
  else if sojourn <? min_sojourn_ns c then MkCodel (target_ns c) (window_start_ns c) sojourn (first_above_target_ns c)
  else c.

Definition http_server_on_request_sample (sojourn service now hr coarse : Z) (s : http_server_object) : http_server_object :=
  let s := http_server_aggregate_sample sojourn service s in
  if target_ns (codel s) =? 0 then s
  else
    let c := codel_window sojourn now (codel s) in
    if min_sojourn_ns c <? target_ns c then set_codel s (MkCodel (target_ns c) (window_start_ns c) (min_sojourn_ns c) 0)
    else if first_above_target_ns c =? 0
    then set_codel s (MkCodel (target_ns c) (window_start_ns c) (min_sojourn_ns c) (u64 (now + CODEL_INTERVAL_NS)))
    else
      let s := set_codel s c in
      if (first_above_target_ns c <=? now) && negb (listeners_paused s) then
        let p := pauses s in
        http_server_pause_listeners true hr coarse
          (set_pauses s (MkPauses (pause_count_total p) (u64 (codel_trips_total p + 1)) (paused_since_ns p) (paused_total_ns p)))
      else s.

(** ** Requests *)

Definition http_server_should_shed_request (s : http_server_object) : bool :=
  (0 <? max_inflight_requests s) && (max_inflight_requests s <=? active_requests s).
Definition http_server_on_request_dispatch (s : http_server_object) : http_server_object := set_requests s (u64 (active_requests s + 1)).
Definition http_server_on_request_dispose (s : http_server_object) : http_server_object :=
  if 0 <? active_requests s then set_requests s (active_requests s - 1) else s.

(** ** Connections *)

Definition http_server_addref (s : http_server_object) : http_server_object := set_refcount s (refcount s + 1) (freed s).
Definition http_server_release (s : http_server_object) : http_server_object :=
  set_refcount s (refcount s - 1) (freed s || (refcount s - 1 =? 0)).

Definition http_server_on_connection_close (hr : Z) (s : http_server_object) : http_server_object :=
  let s := if 0 <? active_connections s then set_active s (active_connections s - 1) else s in
  if listeners_paused s && (active_connections s <=? pause_low s) then http_server_resume_listeners hr s else s.

(** The part of the destruction that concerns the server. *)
Definition http_connection_destroy (hr : Z) (s : http_server_object) : http_server_object :=
  http_server_release (http_server_on_connection_close hr s).

(** How [http_connection_spawn] goes: no slot or no I/O handle; no TLS session; the first TLS
    read cannot be armed; the first plain read fails or ends at once; the connection runs. *)
Inductive spawn_outcome := NoConnection | NoTlsSession | TlsNotArmed | ReadEnded | Running.

(** The drain state of a new connection; [hash] spreads its age by a tenth. *)
Definition new_conn (hr hash : Z) (s : http_server_object) : conn_t :=
  let base := max_connection_age_ns (drain s) in
  {| drain_pending := false;
     drain_not_before_ns :=
       if 0 <? base then
         let twenty_pct := base / 5 in
         u64 (hr + u64 (base - twenty_pct / 2 + (if 0 <? twenty_pct then hash mod twenty_pct else 0)))
       else UINT64_MAX;
     drain_epoch_seen := epoch_current (drain s) |}.

Definition http_connection_spawn (o : spawn_outcome) (hr hash : Z) (s : http_server_object) : bool * http_server_object :=
  match o with
  | NoConnection => (false, s)
  | NoTlsSession => (false, http_connection_destroy hr s)
  | TlsNotArmed => (false, http_connection_destroy hr (http_server_addref s))
  | ReadEnded => (true, http_connection_destroy hr (http_server_addref s))
  | Running =>
      let s := http_server_addref s in
      (true, set_conns s (<[next_conn s := new_conn hr hash s]> (conns s)) (S (next_conn s)))
  end.

(** The accept callback; [handled]: some handler or mount is registered. *)
Definition http_server_accept_callback (handled : bool) (o : spawn_outcome) (hr coarse hash : Z) (s : http_server_object) : http_server_object :=
  if (0 <? max_connections s) && (max_connections s <=? active_connections s) then
    if negb (listeners_paused s) then http_server_pause_listeners true hr coarse s else s
  else if negb handled then s
  else
    let '(ok, s) := http_connection_spawn o hr hash s in
    if negb ok then s
    else
      let s := set_active s (active_connections s + 1) in
      if negb (listeners_paused s) && (0 <? pause_high s) && (pause_high s <=? active_connections s)
      then http_server_pause_listeners true hr coarse s else s.

(** ** The server at work *)

Inductive event :=
  | Accept (i : nat) (handled : bool) (o : spawn_outcome) (hr coarse hash : Z)
  | Stray (handled : bool) (o : spawn_outcome) (hr coarse hash : Z)
  | Commit (id : nat) (now : Z)
  | Sample (sojourn service now hr coarse : Z)
  | Dispatch
  | Dispose
  | Close (id : nat) (hr : Z).

(** A listener reports a connection while it is polled; a stray one was already under way when
    it was stopped.  [None]: the event cannot happen. *)
Definition step (e : event) (s : http_server_object) : option http_server_object :=
  match e with
  | Accept i handled o hr coarse hash =>
      if bool_decide (listeners s !! i = Some true) then Some (http_server_accept_callback handled o hr coarse hash s) else None
  | Stray handled o hr coarse hash => Some (http_server_accept_callback handled o hr coarse hash s)
  | Commit id now => '(_, s) ← http_server_should_drain_now id now s; Some s
  | Sample sojourn service now hr coarse => Some (http_server_on_request_sample sojourn service now hr coarse s)
  | Dispatch => Some (http_server_on_request_dispatch s)
  | Dispose => Some (http_server_on_request_dispose s)
  | Close id hr =>
      match conns s !! id with
      | Some _ => Some (http_connection_destroy hr (set_conns s (delete id (conns s)) (next_conn s)))
      | None => None
      end
  end.

Fixpoint run (es : list event) (s : http_server_object) : option http_server_object :=
  match es with
  | [] => Some s
  | e :: es => s ← step e s; run es s
  end.

End Admission.
