(* ===== verification/AdmissionProps.v ===== *)
(** * What admission control guarantees

    The connection cap and its hysteresis, when CoDel stops the listeners, which connections a
    drain reaches, and the ways in which the accounting goes wrong. *)

From S2P Require Import Prelude Admission.

Module AdmissionProps.
Import Admission.

(** ** The frame of each operation *)

Lemma resume_frame hr s : let s' := http_server_resume_listeners hr s in
  active_connections s' = active_connections s /\ max_connections s' = max_connections s /\ pause_high s' = pause_high s /\
  pause_low s' = pause_low s /\ refcount s' = refcount s /\ freed s' = freed s /\ conns s' = conns s /\ next_conn s' = next_conn s /\
  drain s' = drain s /\ target_ns (codel s') = target_ns (codel s).
Proof. cbn zeta. unfold http_server_resume_listeners. destruct (listeners_paused s); cbn; [|done]. by case_if. Qed.

Lemma resume_listening hr s : Forall (fun b => b = negb (listeners_paused s)) (listeners s) ->
  let s' := http_server_resume_listeners hr s in listeners_paused s' = false /\ Forall (fun b => b = true) (listeners s').
Proof.
  intros L. cbn zeta. unfold http_server_resume_listeners. destruct (listeners_paused s) eqn:P; cbn [negb] in *.
  - cbn. split; [by case_if|]. case_if; cbn; apply Forall_map, Forall_forall; done.
  - by rewrite P.
Qed.

Lemma trigger_frame coarse s : let s' := http_server_trigger_drain coarse s in
  listeners s' = listeners s /\ listeners_paused s' = listeners_paused s /\ active_connections s' = active_connections s /\
  max_connections s' = max_connections s /\ pause_high s' = pause_high s /\ pause_low s' = pause_low s /\ refcount s' = refcount s /\
  freed s' = freed s /\ conns s' = conns s /\ next_conn s' = next_conn s /\ codel s' = codel s /\ pauses s' = pauses s.
Proof. done. Qed.

Lemma pause_frame d hr coarse s : let s' := http_server_pause_listeners d hr coarse s in
  active_connections s' = active_connections s /\ max_connections s' = max_connections s /\ pause_high s' = pause_high s /\
  pause_low s' = pause_low s /\ refcount s' = refcount s /\ freed s' = freed s /\ conns s' = conns s /\ next_conn s' = next_conn s /\
  codel s' = codel s /\ listeners_paused s' = true.
Proof. cbn zeta. unfold http_server_pause_listeners. destruct (listeners_paused s) eqn:P; [by rewrite P|]. by destruct d. Qed.

Lemma pause_listening d hr coarse s : Forall (fun b => b = negb (listeners_paused s)) (listeners s) ->
  Forall (fun b => b = false) (listeners (http_server_pause_listeners d hr coarse s)).
Proof.
  intros L. unfold http_server_pause_listeners. destruct (listeners_paused s) eqn:P; [done|].
  destruct d; cbn; apply Forall_map, Forall_forall; done.
Qed.

Lemma sample_frame so se now hr coarse s : let s' := http_server_on_request_sample so se now hr coarse s in
  active_connections s' = active_connections s /\ max_connections s' = max_connections s /\ pause_high s' = pause_high s /\
  pause_low s' = pause_low s /\ refcount s' = refcount s /\ freed s' = freed s /\ conns s' = conns s /\ next_conn s' = next_conn s /\
  target_ns (codel s') = target_ns (codel s) /\ (listeners_paused s = true -> listeners_paused s' = true) /\
  (Forall (fun b => b = negb (listeners_paused s)) (listeners s) -> Forall (fun b => b = negb (listeners_paused s')) (listeners s')).
Proof.
  cbn zeta. unfold http_server_on_request_sample. set (s1 := http_server_aggregate_sample so se s).
  destruct (target_ns (codel s1) =? 0); [done|].
  assert (W : target_ns (codel_window so now (codel s1)) = target_ns (codel s)) by (unfold codel_window; repeat case_if; done).
  destruct (min_sojourn_ns _ <? target_ns _); [split_and!; done|]. destruct (first_above_target_ns _ =? 0); [split_and!; done|].
  destruct (first_above_target_ns _ <=? now); cbn [andb]; [|split_and!; done].
  change (listeners_paused (set_codel s1 _)) with (listeners_paused s). destruct (listeners_paused s) eqn:P; cbn [negb].
  - cbn. rewrite P. done.
  - match goal with |- context [http_server_pause_listeners true hr coarse ?x] =>
      pose proof (pause_frame true hr coarse x) as F; pose proof (pause_listening true hr coarse x) as L end.
    cbn zeta in F. destruct F as (F1 & F2 & F3 & F4 & F5 & F6 & F7 & F8 & F9 & F10).
    do 8 (split; [assumption|]). split; [rewrite F9; exact W|]. split; [done|].
    intros LL. rewrite F10. apply L. cbn. by rewrite P.
Qed.

(** ** The accounting *)

Record sound (s : http_server_object) : Prop := {
  so_listeners : Forall (fun b => b = negb (listeners_paused s)) (listeners s);
  so_active : active_connections s = Z.of_nat (size (conns s));
  so_cap : 0 < max_connections s -> active_connections s <= max_connections s;
  so_thresholds : (pause_high s, pause_low s) = thresholds (max_connections s);
  so_refcount : refcount s = 1 + Z.of_nat (size (conns s)) /\ freed s = false;
  so_fresh : forall id, is_Some (conns s !! id) -> (id < next_conn s)%nat;
}.

(** No connection fails after its slot was taken. *)
Definition ordinary (e : event) : Prop :=
  match e with Accept _ _ o _ _ _ | Stray _ o _ _ _ => o = NoConnection \/ o = Running | _ => True end.

Lemma sound_same s s' : sound s -> Forall (fun b => b = negb (listeners_paused s')) (listeners s') ->
  active_connections s' = active_connections s -> max_connections s' = max_connections s -> pause_high s' = pause_high s ->
  pause_low s' = pause_low s -> refcount s' = refcount s -> freed s' = freed s -> dom (conns s') = dom (conns s) ->
  next_conn s' = next_conn s -> sound s'.
Proof.
  intros [L A C T R F] L' E1 E2 E3 E4 E5 E6 E7 E8.
  assert (Z : size (conns s') = size (conns s)) by (rewrite <- !size_dom; by rewrite E7).
  split; rewrite ?E1, ?E2, ?E3, ?E4, ?E5, ?E6, ?E8, ?Z; try done.
  intros id H. apply F. apply elem_of_dom. rewrite <- E7. by apply elem_of_dom.
Qed.

Lemma sound_pause d hr coarse s : sound s -> sound (http_server_pause_listeners d hr coarse s).
Proof.
  intros S. pose proof (pause_frame d hr coarse s) as F. cbn zeta in F. destruct F as (F1 & F2 & F3 & F4 & F5 & F6 & F7 & F8 & _ & F10).
  apply (sound_same s); try done; [|by rewrite F7]. rewrite F10. apply pause_listening, S.
Qed.

Lemma sound_accept_running hr hash s : sound s -> (0 < max_connections s -> active_connections s < max_connections s) ->
  let s1 := http_server_addref s in
  let s2 := set_conns s1 (<[next_conn s1 := new_conn hr hash s1]> (conns s1)) (S (next_conn s1)) in
  sound (set_active s2 (active_connections s2 + 1)).
Proof.
  intros [L A C T R F] M. cbn zeta.
  assert (Z : size (<[next_conn s := new_conn hr hash (http_server_addref s)]> (conns s)) = S (size (conns s))).
  { apply map_size_insert_None. destruct (conns s !! next_conn s) eqn:E; [|done].
    assert (next_conn s < next_conn s)%nat; [apply F; by rewrite E|lia]. }
  split; cbn; try done; rewrite ?Z.
  - lia.
  - intros H. specialize (M H). lia.
  - destruct R. split; [lia|done].
  - intros id [c H]. destruct (decide (id = next_conn s)) as [->|N]; [lia|]. rewrite lookup_insert_ne in H by done.
    assert (id < next_conn s)%nat; [apply F; by rewrite H|lia].
Qed.

Lemma sound_accept handled o hr coarse hash s : sound s -> o = NoConnection \/ o = Running ->
  sound (http_server_accept_callback handled o hr coarse hash s).
Proof.
  intros S O. unfold http_server_accept_callback.
  destruct ((0 <? max_connections s) && (max_connections s <=? active_connections s)) eqn:E.
  { destruct (listeners_paused s); [done|by apply sound_pause]. }
  destruct handled; cbn [negb]; [|done]. destruct O as [-> | ->]; [done|]. cbn [http_connection_spawn].
  match goal with |- sound (if negb true then _ else ?x) => change (sound x) end. cbn zeta.
  assert (S2 := sound_accept_running hr hash s S). cbn zeta in S2.
  match type of S2 with _ -> sound ?x => assert (S3 : sound x) end.
  { apply S2. intros P. apply andb_false_iff in E as [E|E]; b2p; lia. }
  destruct (negb _ && _ && _); [by apply sound_pause|done].
Qed.

Lemma size_delete (m : gmap nat conn_t) id c : m !! id = Some c -> size m = S (size (delete id m)).
Proof.
  intros I. rewrite map_size_delete_Some by (by exists c). symmetry. apply Nat.lt_succ_pred with (z := 0%nat).
  destruct (size m) eqn:Z; [|lia]. apply map_size_empty_inv in Z as ->. by rewrite lookup_empty in I.
Qed.

Lemma sound_close id c hr s : sound s -> conns s !! id = Some c ->
  sound (http_connection_destroy hr (set_conns s (delete id (conns s)) (next_conn s))).
Proof.
  intros [L A C T R F] I. unfold http_connection_destroy, http_server_on_connection_close.
  assert (Z : size (conns s) = S (size (delete id (conns s)))) by by eapply size_delete.
  assert (P : (0 <? active_connections (set_conns s (delete id (conns s)) (next_conn s))) = true) by (apply Z.ltb_lt; cbn; lia).
  rewrite P. set (s1 := set_active _ _).
  assert (S1 : sound (http_server_release s1)).
  { split; cbn; try done; [lia|lia| |].
    - destruct R as [R1 R2]. rewrite R1, R2, Z. split; [lia|]. cbn. apply Z.eqb_neq. lia.
    - intros x [c' H]. apply lookup_delete_Some in H as [_ H]. apply F. by rewrite H. }
  destruct (listeners_paused s1 && (active_connections s1 <=? pause_low s1)); [|done].
  pose proof (resume_frame hr s1) as Fr. cbn zeta in Fr. destruct Fr as (F1 & F2 & F3 & F4 & F5 & F6 & F7 & F8 & _).
  destruct (resume_listening hr s1 L) as [L1 L2].
  apply (sound_same (http_server_release s1)); cbn; try done; try (by rewrite ?F1, ?F5, ?F6, ?F7).
  by rewrite L1.
Qed.

Lemma sound_step e s s' : ordinary e -> sound s -> step e s = Some s' -> sound s'.
Proof.
  intros O S E. destruct e as [i h o hr co ha|h o hr co ha|id now|so se now hr co| | |id hr]; cbn [step ordinary] in *.
  - case_bool_decide; [|done]. injection E as <-. by apply sound_accept.
  - injection E as <-. by apply sound_accept.
  - unfold http_server_should_drain_now in E. destruct (conns s !! id) as [c|] eqn:I; [|done]. cbn in E. injection E as <-.
    apply (sound_same s); try done; [apply S|]. cbn. apply dom_insert_lookup_L. by exists c.
  - injection E as <-. pose proof (sample_frame so se now hr co s) as F. cbn zeta in F.
    destruct F as (F1 & F2 & F3 & F4 & F5 & F6 & F7 & F8 & _ & _ & F9). apply (sound_same s); try done; [apply F9, S|by rewrite F7].
  - injection E as <-. destruct S. by split.
  - injection E as <-. unfold http_server_on_request_dispose. case_if; [|done]. destruct S. by split.
  - destruct (conns s !! id) as [c|] eqn:I; [|done]. injection E as <-. by eapply sound_close.
Qed.

Lemma sound_run es s s' : Forall ordinary es -> sound s -> run es s = Some s' -> sound s'.
Proof.
  intros O. revert s. induction O as [|e es He O IH]; intros s S E; cbn [run] in E; [by injection E as <-|].
  destruct (step e s) as [s1|] eqn:E1; [|done]. cbn [mbind option_bind] in E. eapply IH; [|done]. by eapply sound_step.
Qed.

Lemma sound_start n k : sound (start n k).
Proof.
  split.
  - cbn. by apply Forall_replicate.
  - cbn. by rewrite map_size_empty.
  - cbn. lia.
  - symmetry. apply surjective_pairing.
  - cbn. by rewrite map_size_empty.
  - cbn. intros id [c H]. by rewrite lookup_empty in H.
Qed.

(** The configuration does not change. *)
Definition config_of (s : http_server_object) : Z * Z * Z * Z :=
  (max_connections s, pause_high s, pause_low s, target_ns (codel s)).

Lemma config_close hr s : config_of (http_server_on_connection_close hr s) = config_of s.
Proof.
  unfold http_server_on_connection_close. set (s1 := if 0 <? active_connections s then _ else _).
  assert (E : config_of s1 = config_of s) by (unfold s1; by case_if).
  case_if; [|done]. rewrite <- E. pose proof (resume_frame hr s1) as F. cbn zeta in F.
  destruct F as (_ & F2 & F3 & F4 & _ & _ & _ & _ & _ & F10). unfold config_of. by rewrite F2, F3, F4, F10.
Qed.

Lemma config_pause d hr coarse s : config_of (http_server_pause_listeners d hr coarse s) = config_of s.
Proof.
  pose proof (pause_frame d hr coarse s) as F. cbn zeta in F. destruct F as (_ & F2 & F3 & F4 & _ & _ & _ & _ & F9 & _).
  unfold config_of. by rewrite F2, F3, F4, F9.
Qed.

Lemma config_spawn o hr hash s : config_of (http_connection_spawn o hr hash s).2 = config_of s.
Proof.
  destruct o; cbn [http_connection_spawn snd]; try done; [apply config_close|exact (config_close hr (http_server_addref s))..].
Qed.

Lemma config_accept handled o hr coarse hash s : config_of (http_server_accept_callback handled o hr coarse hash s) = config_of s.
Proof.
  unfold http_server_accept_callback. case_if; [case_if; [apply config_pause|done]|]. destruct handled; [|done]. cbn [negb].
  pose proof (config_spawn o hr hash s) as C. destruct (http_connection_spawn o hr hash s) as [ok s1]. cbn [snd] in C. rewrite <- C.
  destruct ok; [|done]. cbn [negb]. case_if; [by rewrite config_pause|done].
Qed.

Lemma config_step e s s' : step e s = Some s' -> config_of s' = config_of s.
Proof.
  destruct e as [i h o hr co ha|h o hr co ha|id now|so se now hr co| | |id hr]; cbn [step]; intros E.
  - case_bool_decide; [|done]. injection E as <-. apply config_accept.
  - injection E as <-. apply config_accept.
  - unfold http_server_should_drain_now in E. destruct (conns s !! id); [|done]. by injection E as <-.
  - injection E as <-. pose proof (sample_frame so se now hr co s) as F. cbn zeta in F.
    destruct F as (_ & F2 & F3 & F4 & _ & _ & _ & _ & F9 & _). unfold config_of. by rewrite F2, F3, F4, F9.
  - by injection E as <-.
  - injection E as <-. unfold http_server_on_request_dispose. by case_if.
  - destruct (conns s !! id); [|done]. injection E as <-. apply (config_close hr (set_conns s (delete id (conns s)) (next_conn s))).
Qed.

Lemma config_run es s s' : run es s = Some s' -> config_of s' = config_of s.
Proof.
  revert s. induction es as [|e es IH]; intros s E; cbn [run] in E; [by injection E as <-|].
  destruct (step e s) as [s1|] eqn:E1; [|done]. cbn [mbind option_bind] in E. rewrite (IH _ E). by eapply config_step.
Qed.

(** C14: While no connection fails between taking its slot and its first read, the accounting of the
    server is exact, whatever is accepted, sampled, drained and closed: the counter is the number
    of connections and at most the cap, even with accepts already under way when the listeners
    stop; the listeners are polled exactly when they are not paused; the server has one reference
    for its PHP object and one per connection. *)
Theorem admission_exact (n : nat) (k : knobs) (es : list event) (s : http_server_object) :
  Forall ordinary es -> run es (start n k) = Some s ->
  active_connections s = Z.of_nat (size (conns s)) /\
  (0 < k_max_connections k -> active_connections s <= k_max_connections k) /\
  Forall (fun b => b = negb (listeners_paused s)) (listeners s) /\
  refcount s = 1 + Z.of_nat (size (conns s)) /\ freed s = false.
Proof.
  intros O E.
  assert (M : max_connections s = k_max_connections k) by by injection (config_run _ _ _ E).
  pose proof (sound_run es _ _ O (sound_start n k) E) as [L A C T R F]. rewrite M in C.
  destruct R. done.
Qed.

(** ** The hysteresis *)

(** Without CoDel a pause is one of the connection cap. *)
Record capped (s : http_server_object) : Prop := {
  cp_sound : sound s;
  cp_off : target_ns (codel s) = 0;
  cp_above : listeners_paused s = true -> pause_low s < active_connections s;
}.

Lemma thresholds_gap max : 0 < max -> fst (thresholds max) = max /\ 0 <= snd (thresholds max) < max.
Proof.
  intros M. unfold thresholds, BACKPRESSURE_PAUSE_LOW_RATIO. rewrite (proj2 (Z.ltb_lt 0 max)) by lia. cbn [fst snd].
  split; [done|]. assert (0 <= max * 80 / 100) by (apply Z.div_pos; lia). case_if; b2p; lia.
Qed.

Lemma capped_accept handled o hr coarse hash s : capped s -> o = NoConnection \/ o = Running ->
  capped (http_server_accept_callback handled o hr coarse hash s).
Proof.
  intros [S O A] OO. pose proof (sound_accept handled o hr coarse hash s S OO) as S'.
  pose proof (config_accept handled o hr coarse hash s) as C. unfold config_of in C; injection C as C1 C2 C3 C4.
  split; [done|by rewrite C4|]. rewrite C3. destruct S as [_ _ _ T _ _]. pose proof (f_equal fst T) as T1. pose proof (f_equal snd T) as T2. cbn [fst snd] in T1, T2.
  unfold http_server_accept_callback in *. destruct ((0 <? max_connections s) && (max_connections s <=? active_connections s)) eqn:E.
  { b2p. pose proof (thresholds_gap (max_connections s)) as G. destruct (listeners_paused s) eqn:P; cbn [negb]; [by rewrite P in *|].
    pose proof (pause_frame true hr coarse s) as F. cbn zeta in F. destruct F as (F1 & _). rewrite F1. lia. }
  destruct handled; cbn [negb] in *; [|done]. destruct OO as [-> | ->]; [done|]. cbn [http_connection_spawn].
  match goal with |- context [if negb true then _ else ?x] => change (if negb true then _ else x) with x end. cbn zeta.
  case_if; [|cbn; intros P; specialize (A P); lia].
  match goal with |- context [http_server_pause_listeners true hr coarse ?x] => pose proof (pause_frame true hr coarse x) as F end.
  cbn zeta in F. destruct F as (F1 & _). rewrite F1. b2p. cbn in *. intros _.
  assert (0 < max_connections s) as M.
  { destruct (Z.ltb_spec 0 (max_connections s)); [done|]. rewrite T1 in *. unfold thresholds in *. rewrite (proj2 (Z.ltb_ge 0 _)) in * by lia. cbn in *. lia. }
  pose proof (thresholds_gap (max_connections s) M). rewrite T2. lia.
Qed.

Lemma capped_step e s s' : ordinary e -> capped s -> step e s = Some s' -> capped s'.
Proof.
  intros OE [S O A] E. pose proof (sound_step e s s' OE S E) as S'. pose proof (config_step e s s' E) as C. unfold config_of in C; injection C as C1 C2 C3 C4.
  destruct e as [i h o hr co ha|h o hr co ha|id now|so se now hr co| | |id hr]; cbn [step ordinary] in *.
  - case_bool_decide; [|done]. injection E as <-. by apply capped_accept.
  - injection E as <-. by apply capped_accept.
  - split; [done|by rewrite C4|]. unfold http_server_should_drain_now in E. destruct (conns s !! id); [|done]. by injection E as <-.
  - split; [done|by rewrite C4|]. injection E as <-. unfold http_server_on_request_sample. change (codel (http_server_aggregate_sample so se s)) with (codel s).
    by rewrite O.
  - split; [done|by rewrite C4|]. by injection E as <-.
  - split; [done|by rewrite C4|]. injection E as <-. unfold http_server_on_request_dispose. by case_if.
  - split; [done|by rewrite C4|]. destruct (conns s !! id); [|done]. injection E as <-.
    unfold http_connection_destroy, http_server_on_connection_close. set (s1 := if 0 <? _ then _ else _).
    destruct (listeners_paused s1 && (active_connections s1 <=? pause_low s1)) eqn:B.
    + unfold http_server_resume_listeners. apply andb_true_iff in B as [-> _]. cbn. by case_if.
    + intros P. change (listeners_paused s1 = true) in P. rewrite P in B. cbn [andb] in B. b2p. exact B.
Qed.

Lemma capped_run es s s' : Forall ordinary es -> capped s -> run es s = Some s' -> capped s'.
Proof.
  intros O. revert s. induction O as [|e es He O IH]; intros s S E; cbn [run] in E; [by injection E as <-|].
  destruct (step e s) as [s1|] eqn:E1; [|done]. cbn [mbind option_bind] in E. eapply IH; [|done]. by eapply capped_step.
Qed.

Lemma capped_close ids hr s : capped s -> NoDup ids -> Forall (fun id => is_Some (conns s !! id)) ids ->
  exists s', run (map (fun id => Close id hr) ids) s = Some s' /\ capped s' /\
    active_connections s' = active_connections s - Z.of_nat (length ids) /\ pause_low s' = pause_low s.
Proof.
  revert s. induction ids as [|id ids IH]; intros s C N F; [exists s; split_and!; try done; cbn; lia|].
  apply NoDup_cons in N as [N1 N2]. apply Forall_cons in F as [[c I] F].
  assert (E : exists s1, step (Close id hr) s = Some s1) by (cbn [step]; rewrite I; eauto). destruct E as [s1 E].
  pose proof (capped_step (Close id hr) s s1 Logic.I C E) as C1.
  assert (X : conns s1 = delete id (conns s)).
  { cbn [step] in E. rewrite I in E. injection E as <-. unfold http_connection_destroy, http_server_on_connection_close.
    set (s2 := if 0 <? _ then _ else _). assert (conns s2 = delete id (conns s)) as <- by (unfold s2; by case_if).
    case_if; [|done]. pose proof (resume_frame hr s2) as Fr. cbn zeta in Fr. apply Fr. }
  assert (A1 : active_connections s1 = active_connections s - 1).
  { rewrite (so_active _ (cp_sound _ C)), (so_active _ (cp_sound _ C1)), X, (size_delete (conns s) id c I). lia. }
  destruct (IH s1 C1 N2) as (s' & R & C' & A' & L').
  { apply Forall_forall. intros x Hx. rewrite X, lookup_delete_ne by (intros <-; done). rewrite Forall_forall in F. by apply F. }
  exists s'. cbn [map run]. rewrite E. cbn [mbind option_bind]. split_and!; [done|done|rewrite A', A1; cbn [length]; lia|].
  rewrite L'. by injection (config_step _ _ _ E).
Qed.

(** Without CoDel the listeners come back: a paused server has more connections than the low
    mark, and as soon as any of them have closed so that the low mark is reached, every listener
    is polled again. *)
Theorem hard_cap_recovers (n : nat) (k : knobs) (es : list event) (s : http_server_object) (ids : list nat) (hr : Z) :
  k_target_ms k = 0 -> Forall ordinary es -> run es (start n k) = Some s ->
  NoDup ids -> Forall (fun id => is_Some (conns s !! id)) ids -> active_connections s - Z.of_nat (length ids) <= pause_low s ->
  (listeners_paused s = true -> pause_low s < active_connections s) /\
  exists s', run (map (fun id => Close id hr) ids) s = Some s' /\ listeners_paused s' = false /\ Forall (fun b => b = true) (listeners s').
Proof.
  intros K O E N F L.
  assert (C0 : capped (start n k)) by (split; [apply sound_start|cbn; lia|done]).
  pose proof (capped_run es _ _ O C0 E) as C. split; [apply C|].
  destruct (capped_close ids hr s C N F) as (s' & R & C' & A' & L'). exists s'. split; [done|].
  assert (P : listeners_paused s' = false).
  { destruct (listeners_paused s') eqn:P; [|done]. pose proof (cp_above _ C' P). lia. }
  split; [done|]. pose proof (so_listeners _ (cp_sound _ C')) as Q. by rewrite P in Q.
Qed.

(** ** CoDel *)

Definition sampled (es : list event) : list (Z * Z) :=
  omap (fun e => match e with Sample so _ now _ _ => Some (so, now) | _ => None end) es.

(** Since [t0] every sample has waited at least as long as the target. *)
Definition standing (target t0 : Z) (h : list (Z * Z)) : Prop :=
  exists before s0 between, h = before ++ (s0, t0) :: between /\ Forall (fun p => target <= fst p) ((s0, t0) :: between).

Definition watching (h : list (Z * Z)) (s : http_server_object) : Prop :=
  let c := codel s in
  first_above_target_ns c = 0 \/
  (target_ns c <> 0 /\ exists t0, first_above_target_ns c = t0 + CODEL_INTERVAL_NS /\ standing (target_ns c) t0 h).

(** CoDel's state is changed by samples and cleared when the listeners resume. *)
Definition codel_kept (s s' : http_server_object) : Prop := codel s' = codel s \/ first_above_target_ns (codel s') = 0.

Lemma kept_close hr s : codel_kept s (http_server_on_connection_close hr s).
Proof.
  unfold http_server_on_connection_close. set (s1 := if 0 <? _ then _ else _).
  assert (E : codel s1 = codel s) by (unfold s1; by case_if).
  case_if; [|by left]. right. unfold http_server_resume_listeners. b2p. match goal with H : listeners_paused s1 = true |- _ => rewrite H end. done.
Qed.

Lemma kept_spawn o hr hash s : codel_kept s (http_connection_spawn o hr hash s).2.
Proof.
  destruct o; cbn [http_connection_spawn snd]; try (by left); [exact (kept_close hr s)|exact (kept_close hr (http_server_addref s))..].
Qed.

Lemma kept_accept handled o hr coarse hash s : codel_kept s (http_server_accept_callback handled o hr coarse hash s).
Proof.
  assert (P : forall d x, codel (http_server_pause_listeners d hr coarse x) = codel x) by (intros d x; apply (pause_frame d hr coarse x)).
  unfold http_server_accept_callback. case_if; [case_if; left; [apply P|done]|]. destruct handled; [|by left]. cbn [negb].
  pose proof (kept_spawn o hr hash s) as K. destruct (http_connection_spawn o hr hash s) as [ok s1]. cbn [snd] in K.
  destruct ok; [|done]. cbn [negb]. case_if; [|done]. unfold codel_kept. rewrite P. done.
Qed.

Lemma watching_kept h s s' : codel_kept s s' -> watching h s -> watching h s'.
Proof. intros [E|E] W; [unfold watching in *; by rewrite E|by left]. Qed.

Lemma window_min so now c : min_sojourn_ns (codel_window so now c) <= so /\ target_ns (codel_window so now c) = target_ns c /\
  first_above_target_ns (codel_window so now c) = first_above_target_ns c.
Proof. unfold codel_window. repeat case_if; b2p; cbn; split_and!; try done; lia. Qed.

Lemma standing_more target t0 h so now : standing target t0 h -> target <= so -> standing target t0 (h ++ [(so, now)]).
Proof.
  intros (b & s0 & m & -> & F) T. exists b, s0, (m ++ [(so, now)]). split; [by rewrite <- app_assoc|].
  apply Forall_cons in F as [F1 F2]. constructor; [done|]. apply Forall_app. split; [done|]. by constructor.
Qed.

(** What a sample does: it clears, starts or continues the watch, and trips only at its end. *)
Lemma sample_watch so se now hr coarse h s : 0 <= now < 2 ^ 63 -> watching h s ->
  let s' := http_server_on_request_sample so se now hr coarse s in
  watching (h ++ [(so, now)]) s' /\
  (codel_trips_total (pauses s') <> codel_trips_total (pauses s) ->
   exists t0, t0 + CODEL_INTERVAL_NS <= now /\ standing (target_ns (codel s)) t0 (h ++ [(so, now)])).
Proof.
  intros N W. cbn zeta. unfold http_server_on_request_sample. set (s1 := http_server_aggregate_sample so se s).
  change (codel s1) with (codel s). destruct (target_ns (codel s) =? 0) eqn:T.
  { split; [|done]. b2p. destruct W as [W|[W _]]; [by left|done]. }
  destruct (window_min so now (codel s)) as (M1 & M2 & M3). rewrite M2. b2p.
  destruct (min_sojourn_ns (codel_window so now (codel s)) <? target_ns (codel s)) eqn:L; [split; [by left|done]|]. b2p.
  rewrite M3. destruct (first_above_target_ns (codel s) =? 0) eqn:Z.
  { split; [|done]. right. split; [done|]. exists now. cbn [codel set_codel first_above_target_ns target_ns]. split.
    - unfold u64, CODEL_INTERVAL_NS. apply Z.mod_small. lia.
    - exists h, so, []. split; [done|]. constructor; [cbn; lia|done]. }
  b2p. destruct W as [W|(_ & t0 & E & S)]; [done|].
  pose proof (standing_more _ t0 h so now S ltac:(lia)) as S'.
  assert (W' : watching (h ++ [(so, now)]) (set_codel s1 (codel_window so now (codel s)))).
  { right. cbn [codel set_codel]. rewrite M2, M3. split; [done|]. eauto. }
  case_if; [|split; [done|]; done]. b2p. split; [|intros _; exists t0; split; [lia|done]].
  unfold watching. match goal with |- context [http_server_pause_listeners true hr coarse ?x] =>
    pose proof (pause_frame true hr coarse x) as F end.
  cbn zeta in F. destruct F as (_ & _ & _ & _ & _ & _ & _ & _ & F9 & _). rewrite F9. exact W'.
Qed.

Lemma watching_step e h s s' : (forall p, p ∈ sampled [e] -> 0 <= snd p < 2 ^ 63) -> watching h s -> step e s = Some s' ->
  watching (h ++ sampled [e]) s'.
Proof.
  intros N W E. destruct e as [i hd o hr co ha|hd o hr co ha|id now|so se now hr co| | |id hr]; cbn [step] in E;
    try (change (sampled [_]) with ([] : list (Z * Z)); rewrite app_nil_r).
  - case_bool_decide; [|done]. injection E as <-. eapply watching_kept; [apply kept_accept|done].
  - injection E as <-. eapply watching_kept; [apply kept_accept|done].
  - unfold http_server_should_drain_now in E. destruct (conns s !! id); [|done]. by injection E as <-.
  - injection E as <-. apply (sample_watch so se now hr co h s); [|done]. by apply (N (so, now)); left.
  - by injection E as <-.
  - injection E as <-. unfold http_server_on_request_dispose. by case_if.
  - destruct (conns s !! id); [|done]. injection E as <-.
    eapply watching_kept; [exact (kept_close hr (set_conns s (delete id (conns s)) (next_conn s)))|done].
Qed.

Lemma sampled_cons e es : sampled (e :: es) = sampled [e] ++ sampled es.
Proof. unfold sampled. by destruct e. Qed.

Lemma watching_run es h s s' : (forall p, p ∈ sampled es -> 0 <= snd p < 2 ^ 63) -> watching h s -> run es s = Some s' ->
  watching (h ++ sampled es) s'.
Proof.
  revert h s. induction es as [|e es IH]; intros h s N W E; cbn [run] in E; [injection E as <-; by rewrite app_nil_r|].
  destruct (step e s) as [s1|] eqn:E1; [|done]. cbn [mbind option_bind] in E. rewrite sampled_cons, app_assoc.
  assert (N1 : forall p, p ∈ sampled [e] -> 0 <= snd p < 2 ^ 63) by (intros p Hp; apply N; rewrite sampled_cons; apply elem_of_app; by left).
  eapply IH; [|by eapply watching_step|done]. intros p Hp. apply N. rewrite sampled_cons. apply elem_of_app. by right.
Qed.

(** CoDel stops the listeners only for a standing queue: when a sample trips it, then every
    request sampled since some moment at least 100 milliseconds ago, that sample included, had
    waited at least as long as the target; one request served sooner prevents the pause. *)
Theorem codel_trips_on_standing_queue (n : nat) (k : knobs) (es : list event) (so se now hr coarse : Z) (s s' : http_server_object) :
  run es (start n k) = Some s -> (forall p, p ∈ sampled es -> 0 <= snd p < 2 ^ 63) -> 0 <= now < 2 ^ 63 ->
  step (Sample so se now hr coarse) s = Some s' -> codel_trips_total (pauses s') <> codel_trips_total (pauses s) ->
  exists t0, t0 + CODEL_INTERVAL_NS <= now /\ standing (k_target_ms k * 1000000) t0 (sampled es ++ [(so, now)]).
Proof.
  intros E N NW ES T. assert (W : watching (sampled es) s) by (apply (watching_run es [] (start n k) s N); [by left|done]).
  injection ES as <-. destruct (sample_watch so se now hr coarse (sampled es) s NW W) as [_ H]. cbn zeta in H.
  destruct (H T) as (t0 & L & S). exists t0. split; [done|].
  replace (k_target_ms k * 1000000) with (target_ns (codel s)); [done|]. by injection (config_run _ _ _ E).
Qed.

(** ** Drain *)

(** The commits of a trace happen in order, none after [now]. *)
Fixpoint commits_until (last : Z) (es : list event) (now : Z) : Prop :=
  match es with
  | [] => last <= now
  | Commit _ t :: es => last <= t /\ commits_until t es now
  | _ :: es => commits_until last es now
  end.

(** A connection whose last epoch is at most [e] unless it is to drain, and since when. *)
Definition waits (e last : Z) (c : conn_t) : Prop :=
  (drain_epoch_seen c <= e \/ drain_pending c = true) /\ (drain_pending c = true -> drain_not_before_ns c <= last).

Lemma conns_close hr s : let s' := http_server_on_connection_close hr s in
  conns s' = conns s /\ next_conn s' = next_conn s /\ drain s' = drain s.
Proof.
  cbn zeta. unfold http_server_on_connection_close. set (s1 := if 0 <? _ then _ else _).
  assert (E : conns s1 = conns s /\ next_conn s1 = next_conn s /\ drain s1 = drain s) by (unfold s1; by case_if).
  case_if; [|done]. pose proof (resume_frame hr s1) as F. cbn zeta in F. destruct F as (_ & _ & _ & _ & _ & _ & -> & -> & -> & _). exact E.
Qed.

Lemma conns_spawn o hr hash s : let s' := (http_connection_spawn o hr hash s).2 in
  (conns s' = conns s /\ next_conn s' = next_conn s \/
   conns s' = <[next_conn s := new_conn hr hash s]> (conns s) /\ next_conn s' = S (next_conn s)) /\ drain s' = drain s.
Proof.
  cbn zeta. pose proof (conns_close hr s) as (A1 & A2 & A3). pose proof (conns_close hr (http_server_addref s)) as (B1 & B2 & B3).
  destruct o; cbn [http_connection_spawn snd]; split; try (by left); try (by right); try done; left; split; done.
Qed.

(** The epoch moves on by one, or not at all. *)
Definition ticks (s s' : http_server_object) : Prop :=
  epoch_current (drain s') = epoch_current (drain s) \/ epoch_current (drain s') = u64 (epoch_current (drain s) + 1).

Lemma ticks_pause d hr coarse s : ticks s (http_server_pause_listeners d hr coarse s).
Proof.
  unfold http_server_pause_listeners. destruct (listeners_paused s); [by left|]. destruct d; [|by left].
  unfold ticks, http_server_trigger_drain. cbn [drain set_drain set_pauses set_listeners]. case_if; [by left|by right].
Qed.

Lemma accept_conns handled o hr coarse hash s : let s' := http_server_accept_callback handled o hr coarse hash s in
  (conns s' = conns s /\ next_conn s' = next_conn s \/
   conns s' = <[next_conn s := new_conn hr hash s]> (conns s) /\ next_conn s' = S (next_conn s)) /\ ticks s s'.
Proof.
  assert (P : forall x, conns (http_server_pause_listeners true hr coarse x) = conns x /\ next_conn (http_server_pause_listeners true hr coarse x) = next_conn x)
    by (intros x; split; apply (pause_frame true hr coarse x)).
  cbn zeta. unfold http_server_accept_callback. case_if.
  { case_if; [split; [by left; apply P|apply ticks_pause]|split; by left]. }
  destruct handled; cbn [negb]; [|split; by left]. pose proof (conns_spawn o hr hash s) as [K D].
  destruct (http_connection_spawn o hr hash s) as [ok s1]. cbn [snd] in K, D. unfold ticks. rewrite <- D.
  destruct ok; cbn [negb]; [|split; [done|by left]]. case_if; [|split; [done|by left]]. split; [by rewrite !(proj1 (P _)), !(proj2 (P _))|].
  exact (ticks_pause true hr coarse (set_active s1 (active_connections s1 + 1))).
Qed.

Lemma sample_ticks so se now hr coarse s : ticks s (http_server_on_request_sample so se now hr coarse s).
Proof.
  unfold http_server_on_request_sample. repeat (case_if; [try (by left)|]); [..|by left].
  match goal with |- context [http_server_pause_listeners true hr coarse ?x] => exact (ticks_pause true hr coarse x) end.
Qed.

Lemma step_ticks ev s s' : step ev s = Some s' -> ticks s s'.
Proof.
  destruct ev as [i hd o hr co ha|hd o hr co ha|x t|so se t hr co| | |x hr]; cbn [step]; intros E.
  - case_bool_decide; [|done]. injection E as <-. apply accept_conns.
  - injection E as <-. apply accept_conns.
  - unfold http_server_should_drain_now in E. destruct (conns s !! x); [|done]. injection E as <-. by left.
  - injection E as <-. apply sample_ticks.
  - injection E as <-. by left.
  - injection E as <-. left. unfold http_server_on_request_dispose. by case_if.
  - destruct (conns s !! x); [|done]. injection E as <-. left.
    by destruct (conns_close hr (set_conns s (delete x (conns s)) (next_conn s))) as (_ & _ & D); cbn in *; rewrite D.
Qed.

(** What an event does to a connection: nothing, its end, its start, or its commit. *)
Lemma step_conns ev s s' id c' : step ev s = Some s' -> conns s' !! id = Some c' ->
  (next_conn s <= next_conn s')%nat /\
  (conns s !! id = Some c' \/
   (id = next_conn s /\ next_conn s' = S id /\ drain_pending c' = false /\ drain_epoch_seen c' = epoch_current (drain s)) \/
   exists t c, ev = Commit id t /\ conns s !! id = Some c /\ c' = (http_server_drain_evaluate t c s).1.2).
Proof.
  assert (A : forall hd o hr co ha, let s1 := http_server_accept_callback hd o hr co ha s in conns s1 !! id = Some c' ->
    (next_conn s <= next_conn s1)%nat /\ (conns s !! id = Some c' \/
    (id = next_conn s /\ next_conn s1 = S id /\ drain_pending c' = false /\ drain_epoch_seen c' = epoch_current (drain s)))).
  { cbn zeta. intros hd o hr co ha. destruct (accept_conns hd o hr co ha s) as [[[-> ->]|[-> ->]] _]; [by auto|]. intros H. split; [lia|].
    destruct (decide (id = next_conn s)) as [->|N]; [right|left; by rewrite lookup_insert_ne in H].
    rewrite lookup_insert_eq in H. by injection H as <-. }
  intros E. destruct ev as [i hd o hr co ha|hd o hr co ha|x t|so se t hr co| | |x hr]; cbn [step] in E.
  - case_bool_decide; [|done]. injection E as <-. intros HC. destruct (A hd o hr co ha HC) as [? [?|?]]; auto.
  - injection E as <-. intros H. destruct (A hd o hr co ha H) as [? [?|?]]; auto.
  - unfold http_server_should_drain_now in E. destruct (conns s !! x) as [c|] eqn:X; [|done]. injection E as <-. cbn [conns next_conn set_conns].
    intros H. split; [done|]. destruct (decide (x = id)) as [->|N]; [|left; by rewrite lookup_insert_ne in H].
    rewrite lookup_insert_eq in H. injection H as <-. right; right. eauto.
  - injection E as <-. pose proof (sample_frame so se t hr co s) as F. cbn zeta in F. destruct F as (_ & _ & _ & _ & _ & _ & -> & -> & _). auto.
  - injection E as <-. auto.
  - injection E as <-. unfold http_server_on_request_dispose. case_if; auto.
  - destruct (conns s !! x) as [c|]; [|done]. injection E as <-.
    destruct (conns_close hr (set_conns s (delete x (conns s)) (next_conn s))) as (D1 & D2 & _). cbn in *. rewrite D1, D2.
    intros H. apply lookup_delete_Some in H as [_ H]. auto.
Qed.

Lemma waits_evaluate e last now c s : 0 <= now < UINT64_MAX -> last <= now -> waits e last c ->
  waits e now (http_server_drain_evaluate now c s).1.2 /\ (e < epoch_current (drain s) -> (http_server_drain_evaluate now c s).1.1 = true) /\
  drain_epoch_seen (http_server_drain_evaluate now c s).1.2 <= Z.max (drain_epoch_seen c) (epoch_current (drain s)).
Proof.
  intros N L [S P]. unfold waits, http_server_drain_evaluate. cbn [fst snd].
  assert (Q : proactive now c (drain s) = true -> drain_not_before_ns c <= now) by (unfold proactive; intros Q; b2p; done).
  assert (G : forall nb, nb <= now -> negb (nb =? UINT64_MAX) && (nb <=? now) = true).
  { intros nb H. rewrite (proj2 (Z.eqb_neq _ _)), (proj2 (Z.leb_le _ _)) by lia. done. }
  destruct (drain_pending c || proactive now c (drain s)) eqn:D; cbn [negb andb orb drain_pending drain_not_before_ns drain_epoch_seen].
  - rewrite andb_false_r. assert (H : drain_not_before_ns c <= now).
    { apply orb_true_iff in D as [D|D]; [specialize (P D); lia|by apply Q]. }
    rewrite G by done. split_and!; [by right|done|done|case_if; lia].
  - rewrite andb_true_r. apply orb_false_iff in D as [D _]. destruct S as [S|S]; [|congruence].
    destruct (Z.ltb_spec (drain_epoch_seen c) (epoch_current (drain s))) as [H|H]; cbn [andb].
    + rewrite G by lia. split_and!; [by right|lia|done|lia].
    + split_and!; [by left|done|lia|lia].
Qed.

Lemma step_next ev s s' : step ev s = Some s' -> (next_conn s <= next_conn s')%nat.
Proof.
  assert (A : forall hd o hr co ha, (next_conn s <= next_conn (http_server_accept_callback hd o hr co ha s))%nat)
    by (intros hd o hr co ha; destruct (accept_conns hd o hr co ha s) as [[[_ ->]|[_ ->]] _]; lia).
  destruct ev as [i hd o hr co ha|hd o hr co ha|x t|so se t hr co| | |x hr]; cbn [step]; intros E.
  - case_bool_decide; [|done]. injection E as <-. apply A.
  - injection E as <-. apply A.
  - unfold http_server_should_drain_now in E. destruct (conns s !! x); [|done]. by injection E as <-.
  - injection E as <-. pose proof (sample_frame so se t hr co s) as F. cbn zeta in F. by destruct F as (_ & _ & _ & _ & _ & _ & _ & -> & _).
  - by injection E as <-.
  - injection E as <-. unfold http_server_on_request_dispose. by case_if.
  - destruct (conns s !! x); [|done]. injection E as <-.
    destruct (conns_close hr (set_conns s (delete x (conns s)) (next_conn s))) as (_ & D & _). cbn in *. by rewrite D.
Qed.

(** The last commit once an event has happened. *)
Definition after (last : Z) (ev : event) : Z := match ev with Commit _ t => t | _ => last end.

Lemma commits_cons last ev es now : commits_until last (ev :: es) now -> last <= after last ev /\ commits_until (after last ev) es now.
Proof. by destruct ev. Qed.

Lemma commits_last last es now : commits_until last es now -> last <= now.
Proof.
  revert last. induction es as [|ev es IH]; intros last C; [done|].
  apply commits_cons in C as [L C]. specialize (IH _ C). lia.
Qed.

Lemma waits_mono e e' last last' c : e <= e' -> last <= last' -> waits e last c -> waits e' last' c.
Proof. intros E L [[S|S] P]; (split; [|intros H; specialize (P H); lia]); [left; lia|by right]. Qed.

Lemma waits_step ev s s' e last id c' : step ev s = Some s' -> conns s' !! id = Some c' -> 0 <= last <= after last ev ->
  after last ev < UINT64_MAX -> (forall c, conns s !! id = Some c -> waits e last c) ->
  (id = next_conn s -> epoch_current (drain s) <= e) -> waits e (after last ev) c'.
Proof.
  intros E C L M W N. destruct (step_conns ev s s' id c' E C) as [_ [H|[(-> & _ & P & S)|(t & c & -> & H & ->)]]].
  - eapply waits_mono; [done|apply L|by apply W].
  - split; [left; rewrite S; by apply N|congruence].
  - cbn [after] in *. eapply waits_evaluate; [lia|apply L|by apply W].
Qed.

Lemma ticks_up s s' : ticks s s' -> 0 <= epoch_current (drain s) < 2 ^ 64 - 1 ->
  epoch_current (drain s) <= epoch_current (drain s') <= epoch_current (drain s) + 1.
Proof. intros [-> | ->] B; [lia|]. unfold u64. rewrite Z.mod_small by lia. lia. Qed.

(** No connection is ahead of the server. *)
Record seen (last : Z) (s : http_server_object) : Prop := {
  se_epoch : 0 <= epoch_current (drain s);
  se_conns : forall id c, conns s !! id = Some c -> (id < next_conn s)%nat /\ waits (epoch_current (drain s)) last c;
}.

Lemma seen_step ev s s' last : step ev s = Some s' -> seen last s -> 0 <= last <= after last ev -> after last ev < UINT64_MAX ->
  epoch_current (drain s) < 2 ^ 64 - 1 -> seen (after last ev) s'.
Proof.
  intros E [P C] L M B. pose proof (ticks_up s s' (step_ticks ev s s' E) ltac:(lia)) as T. split; [lia|]. intros id c' H. split.
  - destruct (step_conns ev s s' id c' E H) as [N [K|[(-> & N' & _)|(t & c & _ & K & _)]]]; [apply C in K; lia|lia|apply C in K; lia].
  - apply (waits_mono (epoch_current (drain s)) _ (after last ev)); [lia|lia|]. eapply waits_step; [done..| |done].
    intros c K. by apply (C id c).
Qed.

Lemma seen_run es rest s s' last now : run es s = Some s' -> seen last s -> 0 <= last -> commits_until last (es ++ rest) now -> now < UINT64_MAX ->
  epoch_current (drain s) + Z.of_nat (length es) < 2 ^ 64 ->
  exists last', 0 <= last' /\ seen last' s' /\ commits_until last' rest now /\
    epoch_current (drain s') <= epoch_current (drain s) + Z.of_nat (length es).
Proof.
  revert s last. induction es as [|ev es IH]; intros s last E S P C M B; cbn [run app length] in *.
  { injection E as <-. exists last. split_and!; try done. lia. }
  destruct (step ev s) as [s1|] eqn:E1; [|done]. cbn [mbind option_bind] in E. apply commits_cons in C as [L C].
  pose proof (commits_last _ _ _ C). pose proof (ticks_up s s1 (step_ticks ev s s1 E1) ltac:(destruct S; lia)) as T.
  destruct (IH s1 (after last ev) E) as (last' & I1 & I2 & I3 & I4); [|lia|done|done|lia|].
  - eapply seen_step; [done|done|lia|lia|lia].
  - exists last'. split_and!; try done. lia.
Qed.

(** A connection that was there when a drain fired. *)
Lemma waits_run es s s' e last now id : run es s = Some s' -> (id < next_conn s)%nat -> 0 <= e < epoch_current (drain s) ->
  (forall c, conns s !! id = Some c -> waits e last c) -> 0 <= last -> commits_until last es now -> now < UINT64_MAX ->
  epoch_current (drain s) + Z.of_nat (length es) < 2 ^ 64 ->
  e < epoch_current (drain s') /\ exists last', last' <= now /\ forall c, conns s' !! id = Some c -> waits e last' c.
Proof.
  revert s last. induction es as [|ev es IH]; intros s last E N P W L C M B; cbn [run length] in *.
  { injection E as <-. split; [apply P|]. by exists last. }
  destruct (step ev s) as [s1|] eqn:E1; [|done]. cbn [mbind option_bind] in E. apply commits_cons in C as [L' C].
  pose proof (commits_last _ _ _ C). pose proof (ticks_up s s1 (step_ticks ev s s1 E1) ltac:(lia)) as T.
  destruct (conns s1 !! id) as [c1|] eqn:C1.
  - pose proof (step_next ev s s1 E1). apply (IH s1 (after last ev) E); try done; try lia.
    intros c K. eapply waits_step; [done|done|lia|lia|done|lia].
  - apply (IH s1 (after last ev) E); try done; try lia; [|intros c K; congruence].
    pose proof (step_next ev s s1 E1). lia.
Qed.


(** ** Witnesses *)

Definition two_connections : knobs := {| k_max_connections := 2; k_inflight := 0; k_target_ms := 0; k_age_ms := 0; k_cooldown_ms := 0 |}.
Definition codel_only : knobs := {| k_max_connections := 0; k_inflight := 0; k_target_ms := 5; k_age_ms := 0; k_cooldown_ms := 0 |}.

(** Two connections fill the server; a third was already being accepted. *)
Definition full_house : list event :=
  [Accept 0 true Running 10 10 7; Accept 1 true Running 20 20 9; Stray true Running 21 21 3; Commit 0 30].

Definition state_after (es : list event) (s : http_server_object) : http_server_object := default s (run es s).

Lemma admission_exact_witness :
  let s := state_after full_house (start 2 two_connections) in
  active_connections s = 2 /\ listeners s = [false; false] /\ refcount s = 3 /\ freed s = false.
Proof.
  cbn zeta. destruct (admission_exact 2 two_connections full_house (state_after full_house (start 2 two_connections))) as (A & _ & _ & R & F).
  - repeat constructor; right; reflexivity.
  - vm_compute. reflexivity.
  - rewrite A, R, F. vm_compute. done.
Defined.

Lemma hard_cap_recovers_witness :
  let s := state_after full_house (start 2 two_connections) in
  listeners_paused s = true /\ exists s', run [Close 1 40] s = Some s' /\ listeners_paused s' = false.
Proof.
  cbn zeta. split; [vm_compute; reflexivity|].
  destruct (hard_cap_recovers 2 two_connections full_house (state_after full_house (start 2 two_connections)) [1%nat] 40) as (_ & s' & E & P & _).
  - reflexivity.
  - repeat constructor; right; reflexivity.
  - vm_compute. reflexivity.
  - apply NoDup_singleton.
  - repeat constructor. vm_compute. eauto.
  - vm_compute. discriminate.
  - exists s'. done.
Defined.

(** Requests that have waited six milliseconds, for longer than the interval. *)
Definition slow (now : Z) : event := Sample 6000000 1000 now now now.

Lemma codel_trips_on_standing_queue_witness :
  let s := state_after [slow 1000000] (start 1 codel_only) in
  exists s', step (slow 101000000) s = Some s' /\ codel_trips_total (pauses s') = 1 /\
  exists t0, t0 + CODEL_INTERVAL_NS <= 101000000 /\ standing 5000000 t0 [(6000000, 1000000); (6000000, 101000000)].
Proof.
  cbn zeta. eexists. split; [reflexivity|]. split; [vm_compute; reflexivity|].
  eapply (codel_trips_on_standing_queue 1 codel_only [slow 1000000] 6000000 1000 101000000 101000000 101000000).
  - vm_compute. reflexivity.
  - intros p Hp. apply list_elem_of_singleton in Hp as ->. cbn. lia.
  - lia.
  - reflexivity.
  - vm_compute. discriminate.
Defined.


(** ** Where the accounting goes wrong *)

(** Everything but an accept that was already under way. *)
Definition no_stray (e : event) : Prop := match e with Stray _ _ _ _ _ => False | _ => True end.

Record idle_paused (s : http_server_object) : Prop := {
  ip_conns : conns s = ∅;
  ip_paused : listeners_paused s = true;
  ip_listeners : Forall (fun b => b = false) (listeners s);
}.

Lemma idle_paused_step e s s' : no_stray e -> idle_paused s -> step e s = Some s' -> idle_paused s'.
Proof.
  intros N [C P L] E. destruct e as [i h o hr co ha|h o hr co ha|id now|so se now hr co| | |id hr]; cbn [step no_stray] in *; try done.
  - case_bool_decide as I; [|done]. rewrite Forall_lookup in L. by specialize (L _ _ I).
  - unfold http_server_should_drain_now in E. by rewrite C, lookup_empty in E.
  - injection E as <-. pose proof (sample_frame so se now hr co s) as F. cbn zeta in F.
    destruct F as (_ & _ & _ & _ & _ & _ & F7 & _ & _ & F10 & F11). rewrite P in F11.
    split; [by rewrite F7|by apply F10|]. specialize (F11 L). by rewrite (F10 P) in F11.
  - injection E as <-. by split.
  - injection E as <-. unfold http_server_on_request_dispose. by case_if; split.
  - by rewrite C, lookup_empty in E.
Qed.

Lemma idle_paused_run es s s' : Forall no_stray es -> idle_paused s -> run es s = Some s' -> idle_paused s'.
Proof.
  intros O. revert s. induction O as [|e es He O IH]; intros s S E; cbn [run] in E; [by injection E as <-|].
  destruct (step e s) as [s1|] eqn:E1; [|done]. cbn [mbind option_bind] in E. eapply IH; [|done]. by eapply idle_paused_step.
Qed.

(** A pause by CoDel is final when no TCP connection is open: the samples of requests over
    HTTP/3 (or of a connection whose closing comes first) can pause the listeners, the only way
    back is the close of a TCP connection, and none can be accepted; whatever happens after, no
    listener is polled again. *)
Theorem codel_pause_is_final (n : nat) :
  exists s, run [slow 1000000; slow 101000000] (start n codel_only) = Some s /\ listeners_paused s = true /\
  forall es s', Forall no_stray es -> run es s = Some s' -> listeners_paused s' = true /\ Forall (fun b => b = false) (listeners s').
Proof.
  eexists. split; [reflexivity|]. match goal with |- listeners_paused ?s = true /\ _ => assert (I : idle_paused s) end.
  { split; [reflexivity|reflexivity|]. cbn. apply Forall_map, Forall_forall. done. }
  split; [apply I|]. intros es s' O E. by destruct (idle_paused_run es _ s' O I E).
Qed.


Definition one_connection : knobs := {| k_max_connections := 1; k_inflight := 0; k_target_ms := 0; k_age_ms := 0; k_cooldown_ms := 0 |}.

(** A plain connection whose first read ends at once is counted after it was destroyed: with
    a cap of one, a single such client leaves the server without connections, its listeners
    paused, and nothing that can happen resumes them. *)
Theorem phantom_connection_stops_server (n : nat) (hr coarse hash : Z) :
  exists s, run [Accept 0 true ReadEnded hr coarse hash] (start (S n) one_connection) = Some s /\
  conns s = ∅ /\ active_connections s = 1 /\
  forall es s', Forall no_stray es -> run es s = Some s' -> listeners_paused s' = true /\ Forall (fun b => b = false) (listeners s').
Proof.
  eexists. split; [reflexivity|]. split; [reflexivity|]. split; [reflexivity|].
  match goal with |- forall es s', _ -> run es ?s = _ -> _ => assert (I : idle_paused s) end.
  { split; [reflexivity|reflexivity|]. cbn. constructor; [done|]. apply Forall_map, Forall_forall. done. }
  intros es s' O E. by destruct (idle_paused_run es _ s' O I E).
Qed.

End AdmissionProps.
